(* ===== verification/_CoqProject ===== *)
-Q . S2P
Prelude.v
DateInfo.v
IsoWeek.v
ZoneInfo.v
ZoneManager.v
DateTime.v
DateText.v
ListNode.v
ListSort.v
HashNode.v
HashSpec.v
Queue.v
Locks.v
Counter.v
DatasourcePool.v
PoolSpec.v
ManagedDatasource.v
ManagedSpec.v
SqlStatement.v
SqlSpec.v
SqlHelpers.v
Exceptions.v
Statements.v
MiniLang.v
StatementTypes.v
StatementFuel.v
StatementSpec.v
BigStep.v
Encoding.v
EncodingSpec.v
StringCodec.v
StringCodecSpec.v
StringBuf.v
StringFind.v
StringOps.v
StringSpec.v
StringChars.v
StringFindSpec.v
StringReplace.v
StringTrim.v
RefScan.v
RefScanSets.v
RefScanTx.v
RefScanWalk.v
RefScanSpec.v
TypeInfo.v
TypeMatch.v
TypeAccept.v
TypeSpec.v
TypeSound.v
TypeComplete.v
TypeParse.v
ClassAccess.v
TypedList.v
HashDecl.v
HashDeclEqual.v
Types.v
Variants.v
VariantSpec.v
CallEval.v
CallSpec.v
ParseCall.v
Functions.v
