(* ===== verification/Prelude.v ===== *)
(** * Qore runtime: verification library

    This library models parts of the runtime of the programming language Qore,
    the C++ code under src/lib and src/include/qore, and proves what makes them
    correct. It is written from that code: each definition has the name of the
    function, class or structure that it translates, and follows its branches,
    early returns and error paths.

    ** The program and its parts

    A Qore program is parsed into statements ([StatementBlock] and the classes
    of the statements), which are executed by a tree-walking interpreter.
    Statements work on values: numbers, dates, strings, lists, hashes and
    objects, which are counted by reference; circles of objects are found by a
    collector. Errors are exception objects, collected in an exception sink
    that nearly every function takes as an argument. Programs have many
    threads; the runtime gives them locks with deadlock detection, queues,
    condition variables and counters. Databases are reached through datasource
    objects, which use drivers (DBI modules) that are not in this repository.

    ** Files

    Numbers and this file
    - Prelude: C integers ([i32], [i64], [u32], the truncating [/c] and [%c]),
      lists with memory operations, lemmas and tactics that the other files
      share.

    Dates: lib/qore_date_private.cpp, include/qore/intern/qore_date_private.h
    - DateInfo: the Gregorian calendar; seconds since the epoch to date and
      time and back, normalisation of months and days.
    - IsoWeek: days of the week, ISO-8601 weeks.
    - DateTime: absolute and relative dates, their arithmetic, order and
      differences, local times. It uses zones through the class [ZoneOps].
    - DateText: parsing and formatting dates and durations.
    Time zones: lib/QoreTimeZoneManager.cpp, QoreTimeZoneManager.h
    - ZoneInfo: the reader of TZif files and the lookup of offsets; it has the
      instance of [ZoneOps].
    - ZoneManager: offset zones, the caches of zones, the local zone.

    Containers
    - ListNode (QoreListNode.cpp, qore_list_private.h): lists as a block of
      memory with its size; splices, pushes, resizes, copies, iterators.
    - ListSort: merge sort, quick sort, minimum and maximum.
    - HashNode (QoreHashNode.cpp, qore_hash_private.h): hashes as a list of
      members and a map, with iterators; values are behind the class
      [HashLang].
    - HashSpec: hashes are ordered dictionaries ([HashLaws]).

    Strings
    - Encoding, EncodingSpec (charset.cpp, QoreEncoding.h): widths of
      characters, positions, code points, the encoding manager; the class
      [CharEncoding] is what string operations are proved against.
    - StringCodec, StringCodecSpec (QoreString.cpp, QoreLib.cpp): base 64,
      hexadecimal numbers, percent encoding.
    - StringBuf (qore_string_private.h, QoreString.cpp): the buffer of a string
      with its allocation, moves of bytes and terminating NUL.
    - StringFind, StringOps: the methods of QoreString that read and that
      change a string.
    - StringSpec, StringChars, StringFindSpec, StringReplace, StringTrim: what
      they do in terms of bytes, characters and code points.

    Statements
    - Exceptions (ExceptionSink.cpp, QoreException.cpp): exception objects and
      the sink. Its interface [SinkLaws] is what the statements use.
    - Statements (StatementBlock.cpp and the files of the statements): parse
      checks and execution, in a monad with the state of the thread; the
      classes [Lang] and [ParseLang] stand for expressions, variables and
      lvalues.
    - MiniLang: a concrete instance of these classes for witnesses.
    - StatementTypes, StatementFuel, StatementSpec, BigStep: the static checks
      are enough, the fuel is harmless, what handlers do, and a big-step
      semantics that the interpreter implements.

    The collector
    - RefScan (RSet.cpp, RSet.h, RSection.cpp, scanMembers of QoreObject.cpp):
      the scan for recursive references as a transaction, and the decision to
      delete a set of objects.
    - RefScanSets, RefScanTx, RefScanWalk, RefScanSpec: its invariant, the
      steps, the walk, and the end of a transaction.

    Types
    - TypeInfo (QoreTypeInfo.h): the types, their accept and return vectors (one
      definition for each C++ class), the queries, the types of values.
    - TypeMatch (QoreTypeInfo.h, QoreTypeInfo.cpp): equality of types, the
      matching of types by the parser, common types. What it needs of classes
      and hash declarations is the class [TypeEnv].
    - TypeAccept: the acceptance of values with conversions ([Conversions] has
      those made elsewhere), and the folding and stripping of containers.
    - TypeSpec: which values a type has ([in_type]), when a value is well-formed
      ([wf_value]), the laws of [TypeEnv] ([TypeLaws]). TypeSound, TypeComplete,
      TypeParse: what acceptance stores, what it takes, what the parser promises.
    - ClassAccess (QoreClass.cpp, QoreClassIntern.h): class hierarchies, the
      search for base classes with access, compatibility; an instance of
      [TypeEnv], with its laws for public inheritance.
    - TypedList (qore_list_private.h, QoreParseListNode.cpp), HashDecl and
      HashDeclEqual (TypedHashDecl.cpp, typed_hash_decl_private.h,
      QoreHashNodeIntern.h): the types of lists, list literals, hash
      declarations and hashes.
    - Types: the theorems, with concrete classes and declarations, and examples
      of what the code does against the rules of its types.

    Functions
    - Variants (Function.cpp, Function.h): signatures, variants, the search for
      a variant by values, by types, and by the parser, in an inheritance list.
    - CallEval (Function.cpp, ReturnStatement.cpp): default arguments, the
      acceptance of arguments, local variables, the check of what is returned.
    - VariantSpec, CallSpec, ParseCall: which variant is found, what arguments
      and results are, what the choice of the parser promises. Functions: the
      theorems, with functions to try them out, and examples.

    Threads
    - Queue (QoreQueue.cpp, QoreQueueIntern.h): queues with a maximal size and
      two condition variables.
    - Locks (SmartMutex.cpp, VRMutex.cpp, RWLock.cpp, AbstractSmartLock.cpp,
      VLock.cpp): locks that know their owners, and deadlock detection.
    - Counter (QoreCondition.cpp, QoreCounter.h): timed waits and counters.
    In these files, and in those of the datasources, a state has all threads,
    and a step is what a thread does between two points where others can run.

    Datasources
    - DatasourcePool, PoolSpec (DatasourcePool.cpp, Datasource.cpp): the
      transaction state of a connection, and the pool.
    - ManagedDatasource, ManagedSpec (ManagedDatasource.cpp): a connection that
      threads share with a transaction lock.
    - SqlStatement, SqlSpec, SqlHelpers (QoreSQLStatement.cpp): statement
      objects on top of both, behind the class [DatasourceStatementHelper] with
      its laws [HelperLaws].

    ** What the theorems show

    The properties are the theorems with a number C1, C2, ... in their comment.
    - Refinement: the memory block of a list, the list-and-map of a hash, the
      buffer of a string and the linked nodes of a queue do what the same
      operations on lists, dictionaries and sequences do (list_ops_refine,
      hash_refines, string_ops_refine, queue_refines), with the errors and
      capacities, and say where the code reads behind a block or fails an
      assertion (spliceList_bounds, string_ops_refine, queue_refines).
    - Statements: the interpreter implements the big-step semantics
      (exec_bigstep), what the parser accepts cannot go wrong
      (statement_types), and a block runs the handlers that it has passed in
      reverse order, those that fit (block_handlers). The sink keeps every exception (sink_collects).
    - Types: an assignment stores a value of the type (accept_sound), and takes
      every value of it unchanged (accept_complete); what the parser accepts
      without reserve has no type error at run time (parse_accepts_safe). List
      literals and the operations on lists and hashes with types keep the types
      true (list_literal_typed, list_operations_typed, hash_operations_typed,
      new_hash_typed). Equality of types and of hash declarations is an
      equivalence (type_equality, hash_declarations_equal).
    - Functions: the variant that is called is a best one (runtime_variant_best);
      the statements only see arguments of the types of the parameters, and the
      caller gets a value of the type that is returned (call_typed); a call that
      the parser has resolved has no type error (parsed_call_safe).
    - Collector: what is deleted is garbage (collect_safe), a scan keeps the
      heap well-formed and fails nowhere (scan_total), a scan that is given up
      leaves nothing behind (scan_rollback).
    - Threads: no circle of waiting threads (no_mutual_wait), exclusion
      (locks_exclusion), every wait for a counter ends with it
      (waitForZero_returns).
    - Datasources: leases, isolation, no lost wakeup, no leak, the protocol of
      the drivers (pool_leases, pool_isolation, pool_no_lost_wakeup,
      pool_asserts, managed_exclusion, managed_transactions,
      managed_no_lost_wakeup, statement_protocol, statement_releases,
      commit_gives_back).
    - Texts: positions and splices count characters, encodings agree with
      Unicode, encoded texts can be read back, replacing all places of a text
      ends.
    - Calendar and sorting: the date structures agree with the proleptic
      Gregorian calendar and ISO 8601, offsets are those in force, sorting
      gives a sorted permutation, and stable sorting keeps the order of equals.
    The theorems are stated for what the code does. Where it does something
    else than it means to, an Example or a counterexample in the file of the
    component shows it, and the theorem has the condition that excludes it; the
    comment of the theorem names this condition.

    ** Integers, memory, fuel

    C++ integers are elements of Z (counters and indices that cannot be
    negative of N or nat where no overflow matters); a cast that narrows wraps
    with [i32], [i64] or [u32], sizes with [usz]. Signed arithmetic that
    overflows is undefined in C++: it is done in Z, and the theorems have the
    bounds under which it stays in range. A failed assertion, an access outside
    of a block and the use of something that was deleted are outcomes of their
    own ([Crash], [Failed], [AssertFailed], [MemError], overrun), which the
    theorems exclude or describe exactly.
    Recursion that is not structural has fuel. The interpreter of statements
    takes it as an argument: StatementFuel shows that more fuel never changes a
    result, and BigStep that a derivation gives enough of it. Loops over
    strings and memory take the length that bounds them, the scan of the
    collector the number of objects (RefScanWalk shows that it suffices), the
    others a measure that their theorems show to be enough.

    ** Not modelled

    - The grammar and the scanner (bison and flex), and qpp, which is a build
      tool.
    - Methods, members and constructors of classes, namespaces, programs and
      thread-local data: the symbol tables, and the call stack. Expressions are
      parameters of the statement model for this reason, and the statements of a
      function one of the call.
    - Of functions: the checks for duplicate and ambiguous signatures when a
      variant is declared, abstract variants, messages and warnings, and the gate
      of synchronized functions.
    - Of types: names and messages, the resolution of type names, types that
      modules add, assignments through references (their outcome is an argument).
    - What is done by other software: sockets, SSL, compression, files, PCRE,
      MPFR, dlopen, DBI drivers. Where modelled code calls it (drivers, zone
      files), its answers are arguments.
    - Of modelled parts: the weak references and dereference counters of
      objects, copies of datasources, the options of pools, statements made from result values.

    ** What could come next

    Methods and members of classes (with the variants of Variants), operators, and
    the small parsers that are independent of the rest (URLs, command line
    options, transliteration). *)

From Stdlib Require Export ZArith Lia.
From Stdlib Require Export Ascii String.
From stdpp Require Export base tactics list numbers option strings gmap.
#[global] Open Scope list_scope.

(** ** C integer arithmetic

    C's [/] and [%] truncate towards zero; [Z.quot] and [Z.rem] are exactly
    these operations. *)
Declare Scope c_scope.
Delimit Scope c_scope with C.
Notation "a '/c' b" := (Z.quot a b) (at level 40, left associativity) : c_scope.
Notation "a '%c' b" := (Z.rem a b) (at level 40, left associativity) : c_scope.
#[global] Open Scope Z_scope.
#[global] Open Scope c_scope.

(** Conversion to a two's-complement signed integer of [w] bits: the value of
    a narrowing cast. *)
Definition wrap_signed (w z : Z) : Z :=
  (z + 2 ^ (w - 1)) mod 2 ^ w - 2 ^ (w - 1).

Definition i32 (z : Z) : Z := wrap_signed 32 z.
Definition i64 (z : Z) : Z := wrap_signed 64 z.
Definition u32 (z : Z) : Z := z mod 2 ^ 32.

Definition in_i32 (z : Z) : Prop := - 2147483648 <= z < 2147483648.
Definition in_i64 (z : Z) : Prop :=
  - 9223372036854775808 <= z < 9223372036854775808.
Definition in_u32 (z : Z) : Prop := 0 <= z < 4294967296.

Lemma i32_id z : in_i32 z -> i32 z = z.
Proof.
  unfold in_i32, i32, wrap_signed. intros H.
  change (2 ^ (32 - 1)) with 2147483648. change (2 ^ 32) with 4294967296.
  rewrite Z.mod_small; lia.
Qed.

Lemma i64_id z : in_i64 z -> i64 z = z.
Proof.
  unfold in_i64, i64, wrap_signed. intros H.
  change (2 ^ (64 - 1)) with 9223372036854775808.
  change (2 ^ 64) with 18446744073709551616.
  rewrite Z.mod_small; lia.
Qed.

Lemma u32_id z : in_u32 z -> u32 z = z.
Proof.
  unfold in_u32, u32. intros H. change (2 ^ 32) with 4294967296.
  apply Z.mod_small. lia.
Qed.

Lemma i32_range z : in_i32 (i32 z).
Proof.
  unfold in_i32, i32, wrap_signed.
  change (2 ^ (32 - 1)) with 2147483648. change (2 ^ 32) with 4294967296.
  pose proof (Z.mod_pos_bound (z + 2147483648) 4294967296). lia.
Qed.

Lemma u32_range z : in_u32 (u32 z).
Proof.
  unfold in_u32, u32. change (2 ^ 32) with 4294967296.
  apply Z.mod_pos_bound. lia.
Qed.

Lemma u32_add a b : u32 (u32 a + b) = u32 (a + b).
Proof. unfold u32. apply Z.add_mod_idemp_l. discriminate. Qed.

(** [cast_simpl] removes the narrowing casts whose argument is in range. *)
Ltac cast_simpl :=
  repeat match goal with
  | |- context [i32 ?z] => rewrite (i32_id z) by (unfold in_i32; lia)
  | |- context [i64 ?z] => rewrite (i64_id z) by (unfold in_i64; lia)
  | |- context [u32 ?z] => rewrite (u32_id z) by (unfold in_u32; lia)
  | H : context [i32 ?z] |- _ => rewrite (i32_id z) in H by (unfold in_i32; lia)
  | H : context [i64 ?z] |- _ => rewrite (i64_id z) in H by (unfold in_i64; lia)
  | H : context [u32 ?z] |- _ => rewrite (u32_id z) in H by (unfold in_u32; lia)
  end.

(** ** Truncated and floored division *)

Lemma quot_pos a b : 0 <= a -> 0 < b -> a /c b = a / b.
Proof. intros. apply Z.quot_div_nonneg; lia. Qed.

Lemma rem_pos a b : 0 <= a -> 0 < b -> a %c b = a mod b.
Proof. intros. apply Z.rem_mod_nonneg; lia. Qed.

(** [quot_unique'] and [rem_unique']: a truncated quotient of a non-negative
    number is known from any decomposition with a small remainder. *)
Lemma quot_decomp q r b : 0 <= q -> 0 <= r < b -> (b * q + r) /c b = q.
Proof.
  intros. rewrite quot_pos by nia. rewrite Z.mul_comm, Z.div_add_l by lia.
  rewrite Z.div_small; lia.
Qed.

Lemma rem_decomp q r b : 0 <= q -> 0 <= r < b -> (b * q + r) %c b = r.
Proof.
  intros. rewrite rem_pos by nia.
  rewrite Z.add_comm, Z.mul_comm, Z_mod_plus_full. apply Z.mod_small. lia.
Qed.

(** [clia] decides linear goals that mention C and floored divisions by
    constants. *)
Ltac clia := Z.to_euclidean_division_equations; lia.

(** Case analysis on the boolean comparisons of [Z] that a goal tests. *)
Ltac zcases :=
  repeat match goal with
  | |- context [?a <? ?b] => destruct (Z.ltb_spec a b)
  | |- context [?a <=? ?b] => destruct (Z.leb_spec a b)
  | |- context [?a =? ?b] => destruct (Z.eqb_spec a b)
  | H : context [?a <? ?b] |- _ => destruct (Z.ltb_spec a b)
  | H : context [?a <=? ?b] |- _ => destruct (Z.leb_spec a b)
  | H : context [?a =? ?b] |- _ => destruct (Z.eqb_spec a b)
  end.

(** ** C strings

    A pointer into a NUL-terminated string is the rest of the string. *)

Definition NUL : ascii := "000"%char.

(** [*p] *)
Definition deref (p : string) : ascii :=
  match p with EmptyString => NUL | String c _ => c end.

(** [++p]; the code never advances past the terminator. *)
Definition advance (p : string) : string :=
  match p with EmptyString => EmptyString | String _ p => p end.

Definition char_is (p : string) (c : ascii) : bool := Ascii.eqb (deref p) c.

Definition code (c : ascii) : Z := Z.of_nat (nat_of_ascii c).

(** [isdigit] *)
Definition isdigit (c : ascii) : bool := (48 <=? code c) && (code c <=? 57).

(** [c - '0'] *)
Definition digit_val (c : ascii) : Z := code c - 48.

(** The digit of a number below 10. *)
Definition digit_char (n : Z) : ascii := ascii_of_nat (Z.to_nat (48 + n)).

(** Decimal digits of a non-negative number, most significant first. *)
Fixpoint dec_digits (fuel : nat) (n : Z) (acc : string) : string :=
  match fuel with
  | O => acc
  | S fuel =>
    let acc := String (digit_char (n mod 10)) acc in
    if n <? 10 then acc else dec_digits fuel (n / 10) acc
  end.

(** [%d] of a number of at most 20 digits. *)
Definition fmt_d (n : Z) : string :=
  if n <? 0 then String "-"%char (dec_digits 20 (- n) EmptyString)
  else dec_digits 20 n EmptyString.

Fixpoint zeros (n : nat) : string :=
  match n with O => EmptyString | S n => String "0"%char (zeros n) end.

(** [%0<w>d]: the sign counts for the width. *)
Definition fmt_0d (w : nat) (n : Z) : string :=
  if n <? 0 then
    let s := dec_digits 20 (- n) EmptyString in
    String "-"%char (String.append (zeros (w - 1 - String.length s)) s)
  else
    let s := dec_digits 20 n EmptyString in
    String.append (zeros (w - String.length s)) s.

(** A bounded quantifier over [Z] that [vm_compute] can decide. *)
Fixpoint z_forall_from (n : nat) (start : Z) (P : Z -> bool) : bool :=
  match n with O => true | S n => P start && z_forall_from n (start + 1) P end.

Lemma z_forall_from_spec n start P z :
  z_forall_from n start P = true -> start <= z < start + Z.of_nat n -> P z = true.
Proof.
  revert start. induction n as [|n IH]; intros start H Hz; [lia|].
  simpl in H. apply andb_true_iff in H as [H1 H2].
  destruct (Z.eq_dec z start) as [->|]; [assumption|]. apply (IH _ H2). lia.
Qed.

(** ** Lists *)

Lemma filter_id {A} (P : A -> Prop) `{!forall x, Decision (P x)} l : Forall P l -> filter P l = l.
Proof.
  induction 1 as [|x l Hx _ IH]; [reflexivity|]. rewrite filter_cons, decide_True by exact Hx.
  rewrite IH. reflexivity.
Qed.

(** ** Lexicographic comparison: -1, 0 or 1 *)

Fixpoint lex_cmp (l r : list Z) : Z :=
  match l, r with
  | a :: l, b :: r => if b <? a then 1 else if a <? b then -1 else lex_cmp l r
  | _, _ => 0
  end.

Lemma lex_cmp_antisym l r : lex_cmp r l = - lex_cmp l r.
Proof.
  revert r. induction l as [|a l IH]; intros [|b r]; try reflexivity. simpl.
  rewrite IH. zcases; lia.
Qed.

Lemma lex_cmp_eq l r : length l = length r -> lex_cmp l r = 0 <-> l = r.
Proof.
  revert r. induction l as [|a l IH]; intros [|b r] Hl; try discriminate; [split; reflexivity|].
  simpl in *. destruct (Z.ltb_spec b a); [split; [lia|intros [= -> ->]; lia]|].
  destruct (Z.ltb_spec a b); [split; [lia|intros [= -> ->]; lia]|].
  assert (a = b) as -> by lia. rewrite IH by lia. split; [intros ->; reflexivity|congruence].
Qed.

Lemma lex_cmp_trans a b c :
  length a = length b -> length b = length c ->
  lex_cmp a b <= 0 -> lex_cmp b c <= 0 -> lex_cmp a c <= 0.
Proof.
  revert b c. induction a as [|x a IH]; intros [|y b] [|z c] H1 H2; try discriminate.
  simpl in *. intros Hab Hbc. specialize (IH b c ltac:(lia) ltac:(lia)). zcases; lia.
Qed.

(** ** Decimal digits *)

Lemma digit_char_spec d :
  0 <= d < 10 -> isdigit (digit_char d) = true /\ digit_val (digit_char d) = d.
Proof.
  intros H.
  pose proof (z_forall_from_spec 10 0
    (fun d => isdigit (digit_char d) && (digit_val (digit_char d) =? d)) d eq_refl H) as E.
  apply andb_true_iff in E as [E1 E2]. apply Z.eqb_eq in E2. auto.
Qed.

Lemma digit_char_zero d : 0 <= d < 10 -> Ascii.eqb (digit_char d) "0" = (d =? 0).
Proof.
  intros H.
  pose proof (z_forall_from_spec 10 0
    (fun d => Bool.eqb (Ascii.eqb (digit_char d) "0") (d =? 0)) d eq_refl H) as E.
  apply Bool.eqb_prop. exact E.
Qed.

Lemma isdigit_neq c d : isdigit c = true -> isdigit d = false -> Ascii.eqb c d = false.
Proof. intros Hc Hd. destruct (Ascii.eqb_spec c d) as [->|]; congruence. Qed.

(** [dg w n acc]: the last [w] digits of [n] before [acc]. *)
Fixpoint dg (w : nat) (n : Z) (acc : string) : string :=
  match w with
  | O => acc
  | S w => dg w (n / 10) (String (digit_char (n mod 10)) acc)
  end.

Lemma string_app_assoc (a b c : string) :
  String.append (String.append a b) c = String.append a (String.append b c).
Proof. induction a as [|x a IH]; [reflexivity|]. exact (f_equal (String x) IH). Qed.

Lemma string_app_nil_r (a : string) : String.append a EmptyString = a.
Proof. induction a as [|x a IH]; [reflexivity|]. exact (f_equal (String x) IH). Qed.

Lemma string_app_length (a b : string) :
  String.length (String.append a b) = (String.length a + String.length b)%nat.
Proof. induction a as [|x a IH]; [reflexivity|]. exact (f_equal S IH). Qed.

Lemma dg_app w n acc p : String.append (dg w n acc) p = dg w n (String.append acc p).
Proof. revert n acc. induction w as [|w IH]; intros n acc; simpl; [reflexivity|]. apply IH. Qed.

Lemma dg_length w n acc : String.length (dg w n acc) = (w + String.length acc)%nat.
Proof.
  revert n acc. induction w as [|w IH]; intros n acc; simpl; [reflexivity|].
  rewrite IH. simpl. lia.
Qed.

Lemma zeros_S n acc :
  String.append (zeros n) (String "0"%char acc) = String "0"%char (String.append (zeros n) acc).
Proof. induction n as [|n IH]; [reflexivity|]. exact (f_equal (String "0"%char) IH). Qed.

Lemma dg_zero w acc : dg w 0 acc = String.append (zeros w) acc.
Proof.
  revert acc. induction w as [|w IH]; intros acc; simpl; [reflexivity|].
  rewrite IH. change (digit_char (0 mod 10)) with "0"%char. apply zeros_S.
Qed.

Lemma pow10_S (w : nat) : 10 ^ Z.of_nat (S w) = 10 * 10 ^ Z.of_nat w.
Proof. rewrite Nat2Z.inj_succ, Z.pow_succ_r by lia. reflexivity. Qed.

Lemma pow10_pos (w : nat) : 0 < 10 ^ Z.of_nat w.
Proof. apply Z.pow_pos_nonneg; lia. Qed.

Lemma div10_lt w n : 0 <= n < 10 ^ Z.of_nat (S w) -> 0 <= n / 10 < 10 ^ Z.of_nat w.
Proof. rewrite pow10_S. intros H. clia. Qed.

(** The digits that [dec_digits] prints, and their number. *)
Lemma dec_digits_dg w fuel n acc :
  0 <= n < 10 ^ Z.of_nat w -> (1 <= w <= fuel)%nat ->
  exists k, (1 <= k <= w)%nat /\ n < 10 ^ Z.of_nat k /\ dec_digits fuel n acc = dg k n acc
    /\ dg w n acc = String.append (zeros (w - k)) (dg k n acc).
Proof.
  revert fuel n acc. induction w as [|w IH]; intros fuel n acc Hn Hw; [lia|].
  destruct fuel as [|fuel]; [lia|]. simpl dec_digits.
  destruct (Z.ltb_spec n 10).
  - exists 1%nat. split; [lia|]. split; [simpl; lia|]. split; [reflexivity|].
    simpl. rewrite Nat.sub_0_r, Z.div_small by lia. apply dg_zero.
  - assert (1 <= w)%nat.
    { destruct w; [|lia]. simpl in Hn. lia. }
    destruct (IH fuel (n / 10) (String (digit_char (n mod 10)) acc)) as (k & Hk & Hlt & E1 & E2);
      [apply div10_lt; exact Hn|lia|].
    exists (S k). split; [lia|]. split; [rewrite pow10_S; clia|].
    split; [exact E1|]. replace (S w - S k)%nat with (w - k)%nat by lia. exact E2.
Qed.

Lemma fmt_0d_dg w n :
  0 <= n < 10 ^ Z.of_nat w -> (1 <= w <= 20)%nat -> fmt_0d w n = dg w n EmptyString.
Proof.
  intros Hn Hw. unfold fmt_0d. destruct (Z.ltb_spec n 0); [lia|].
  destruct (dec_digits_dg w 20 n EmptyString Hn Hw) as (k & Hk & _ & -> & ->).
  rewrite dg_length. simpl. rewrite Nat.add_0_r. reflexivity.
Qed.

Lemma fmt_d_dg n :
  -1000000000000000000 < n < 1000000000000000000 ->
  exists k, (1 <= k)%nat /\ Z.abs n < 10 ^ Z.of_nat k /\
    fmt_d n = (if n <? 0 then String "-"%char (dg k (- n) EmptyString) else dg k n EmptyString).
Proof.
  intros Hn. unfold fmt_d.
  destruct (Z.ltb_spec n 0).
  - destruct (dec_digits_dg 18 20 (- n) EmptyString) as (k & Hk & Hlt & -> & _);
      [simpl; lia|lia|]. exists k. split; [lia|]. split; [lia|reflexivity].
  - destruct (dec_digits_dg 18 20 n EmptyString) as (k & Hk & Hlt & -> & _);
      [simpl; lia|lia|]. exists k. split; [lia|]. split; [lia|reflexivity].
Qed.

(** The first digit. *)
Lemma dg_head w n p :
  (1 <= w)%nat -> exists c q, dg w n p = String c q /\ isdigit c = true.
Proof.
  revert n p. induction w as [|w IH]; intros n p Hw; [lia|]. simpl.
  destruct w as [|w]; [|apply IH; lia]. simpl.
  eexists _, _. split; [reflexivity|]. apply digit_char_spec. clia.
Qed.

(** ** The number of entries of a map with a property *)

Definition mcount `{Countable K} {A} (P : A -> bool) (m : gmap K A) : nat :=
  size (filter (λ x, P x.2 = true) m).

Section MCount.
Context `{Countable K} {A : Type} (P : A -> bool).
Implicit Types m : gmap K A.

Lemma mcount_empty : mcount P (∅ : gmap K A) = 0%nat.
Proof. unfold mcount. rewrite map_filter_empty. apply map_size_empty. Qed.

Lemma mcount_delete k m :
  mcount P m = ((match m !! k with Some x => if P x then 1 else 0 | None => 0 end) + mcount P (delete k m))%nat.
Proof.
  unfold mcount. rewrite map_filter_delete. destruct (m !! k) as [x|] eqn:E.
  - destruct (P x) eqn:Ex.
    + rewrite map_size_delete_Some; [|exists x; apply map_lookup_filter_Some; auto].
      assert (size (filter (λ x, P x.2 = true) m) <> 0%nat); [|lia].
      apply map_size_ne_0_lookup. exists k. exists x. apply map_lookup_filter_Some. auto.
    + rewrite delete_id; [reflexivity|]. apply map_lookup_filter_None. right. intros y Ey.
      simpl. congruence.
  - rewrite delete_id; [reflexivity|]. apply map_lookup_filter_None. auto.
Qed.

Lemma mcount_insert k x m :
  mcount P (<[k := x]> m) = ((if P x then 1 else 0) + mcount P (delete k m))%nat.
Proof.
  rewrite (mcount_delete k), lookup_insert, decide_True by reflexivity.
  rewrite delete_insert_eq. reflexivity.
Qed.

Lemma mcount_pos m : (0 < mcount P m)%nat <-> exists k x, m !! k = Some x /\ P x = true.
Proof.
  unfold mcount. rewrite <-Nat.neq_0_lt_0, map_size_ne_0_lookup. split.
  - intros (k & x & E%map_lookup_filter_Some). exists k, x. exact E.
  - intros (k & x & E). exists k, x. apply map_lookup_filter_Some. exact E.
Qed.
End MCount.

(** ** Bits *)

(** A shift to the left makes room for the next bits. *)
Lemma lor_shiftl_add a b n : 0 <= n -> 0 <= b < 2 ^ n -> Z.lor (Z.shiftl a n) b = a * 2 ^ n + b.
Proof.
  intros Hn Hb. assert (Z.land (Z.shiftl a n) b = 0) as Hz.
  { apply Z.bits_inj'. intros i Hi. rewrite Z.land_spec, Z.bits_0.
    destruct (Z.ltb_spec i n).
    - rewrite Z.shiftl_spec_low by lia. reflexivity.
    - rewrite <-(Z.mod_small b (2 ^ n)) by lia. rewrite Z.mod_pow2_bits_high by lia.
      apply andb_false_r. }
  rewrite <-Z.lxor_lor, <-Z.add_nocarry_lxor, Z.shiftl_mul_pow2 by assumption. reflexivity.
Qed.

(** Masks of the low bits *)
Lemma land_low z n : 0 <= n -> Z.land z (2 ^ n - 1) = z mod 2 ^ n.
Proof. intros H. rewrite <-Z.land_ones by exact H. f_equal. rewrite Z.ones_equiv. lia. Qed.

Lemma land_63 z : Z.land z 63 = z mod 64. Proof. apply (land_low z 6). lia. Qed.
Lemma land_15 z : Z.land z 15 = z mod 16. Proof. apply (land_low z 4). lia. Qed.
Lemma land_7 z : Z.land z 7 = z mod 8. Proof. apply (land_low z 3). lia. Qed.
Lemma land_3 z : Z.land z 3 = z mod 4. Proof. apply (land_low z 2). lia. Qed.
