(* ===== verification/DateInfo.v ===== *)
(** * The proleptic Gregorian calendar of the date library

    The class [qore_date_info], the structures [qore_simple_tm] and
    [qore_simple_tm2] and the normalisation functions of
    include/qore/intern/qore_date_private.h and lib/qore_date_private.cpp. *)

From S2P Require Import Prelude.

(** ** Constants *)

Definition SECS_PER_MINUTE := 60.
Definition SECS_PER_HOUR := SECS_PER_MINUTE * 60.
Definition SECS_PER_DAY := SECS_PER_HOUR * 24.
Definition SECS_PER_YEAR := SECS_PER_DAY * 365.
Definition SECS_TO_2KLD := SECS_PER_YEAR * 30 + SECS_PER_DAY * (7 + 60).
Definition SECS_IN_400_YEARS := SECS_PER_YEAR * 400 + SECS_PER_DAY * 97.
Definition SECS_IN_100_YEARS := SECS_PER_YEAR * 100 + SECS_PER_DAY * 24.
Definition SECS_IN_4_YEARS := SECS_PER_YEAR * 4 + SECS_PER_DAY.
Definition LEAPDAY_OFFSET := SECS_PER_DAY * 59.
Definition SECS_AFTER_LD := SECS_PER_DAY * 306.

Definition month_lengths : list Z :=
  [0; 31; 28; 31; 30; 31; 30; 31; 31; 30; 31; 30; 31].
Definition positive_months : list Z :=
  [0; 31; 59; 90; 120; 151; 181; 212; 243; 273; 304; 334; 365].

(** C array access; the callers keep the index in range. *)
Definition aref (a : list Z) (i : Z) : Z := nth (Z.to_nat i) a 0.

(** ** Unit normalisation

    The three templates; [cast1] and [cast2] are the conversions to the
    template arguments [T1] and [T2]. *)

Definition normalize_units (cast1 cast2 : Z -> Z) (bigger smaller ratio : Z)
    : Z * Z :=
  let '(bigger, smaller) :=
    if (smaller <=? - ratio) || (ratio <=? smaller) then
      let units := smaller /c ratio in
      (bigger + cast1 units, smaller - cast2 (units * ratio))
    else (bigger, smaller) in
  if 0 <? bigger then
    if smaller <? 0 then (bigger - 1, smaller + ratio) else (bigger, smaller)
  else if (bigger <? 0) && (0 <? smaller) then (bigger + 1, smaller - ratio)
  else (bigger, smaller).

Definition normalize_units2 (cast1 cast2 : Z -> Z) (bigger smaller ratio : Z)
    : Z * Z :=
  let '(bigger, smaller) :=
    if (smaller <=? - ratio) || (ratio <=? smaller) then
      let units := smaller /c ratio in
      (bigger + cast1 units, smaller - cast2 (units * ratio))
    else (bigger, smaller) in
  if smaller <? 0 then (bigger - 1, smaller + ratio) else (bigger, smaller).

(** [smaller] is unsigned; [smaller -= (int)(...)] is computed modulo 2^32. *)
Definition normalize_units3 (bigger smaller ratio : Z) : Z * Z :=
  if ratio <=? smaller then
    let units := smaller /c ratio in
    (bigger + units, u32 (smaller - i32 (units * ratio)))
  else (bigger, smaller).

(** ** Leap years and day counts *)

Definition isLeapYear (year : Z) : bool :=
  if year %c 100 =? 0 then (if year %c 400 =? 0 then true else false)
  else if year %c 4 =? 0 then true else false.

(** The year, the second offset in the year and the leap-day flag of an epoch
    offset; the result is (epoch, year, ly). *)
Definition get_epoch_year (epoch : Z) : Z * Z * bool :=
  let epoch := epoch - SECS_TO_2KLD in
  let mult := epoch /c SECS_IN_400_YEARS in
  let epoch := epoch %c SECS_IN_400_YEARS in
  if epoch =? 0 then
    (LEAPDAY_OFFSET + SECS_PER_DAY, i32 (mult * 400 + 2000), true)
  else
    let '(mult, epoch) :=
      if epoch <? 0 then (mult - 1, epoch + SECS_IN_400_YEARS)
      else (mult, epoch) in
    let yo := 0 in
    let d := epoch /c SECS_IN_100_YEARS in
    let '(epoch, yo) :=
      if negb (d =? 0) then
        let d := if d =? 4 then 3 else d in
        (epoch - d * SECS_IN_100_YEARS, i32 (100 * d))
      else (epoch, yo) in
    let d := epoch /c SECS_IN_4_YEARS in
    let '(epoch, yo) :=
      if negb (d =? 0) then (epoch %c SECS_IN_4_YEARS, i32 (yo + d * 4))
      else (epoch, yo) in
    let ly := (epoch <? SECS_AFTER_LD) || (SECS_PER_YEAR * 4 <=? epoch) in
    let d := epoch /c SECS_PER_YEAR in
    let '(epoch, yo) :=
      if negb (d =? 0) then
        let d := if d =? 4 then 3 else d in
        (epoch - d * SECS_PER_YEAR, i32 (yo + d))
      else (epoch, yo) in
    let year := i32 (mult * 400 + 2000 + yo) in
    if SECS_AFTER_LD <=? epoch then (epoch - SECS_AFTER_LD, year + 1, ly)
    else
      let epoch := epoch + LEAPDAY_OFFSET in
      (if ly then epoch + SECS_PER_DAY else epoch, year, ly).

Definition leap_days_from_epoch (year month : Z) : Z :=
  if 1970 <=? year then
    let d := year /c 4 - year /c 100 + year /c 400 - 477 in
    if (month <? 3) && isLeapYear year then d - 1 else d
  else
    let year := year - 1 in
    let d := year /c 4 - year /c 100 + year /c 400 - 477 in
    let d := if year <? 0 then d - 1 else d in
    if (2 <? month) && isLeapYear (year + 1) then d + 1 else d.

Definition getLastDayOfMonth (month year : Z) : Z :=
  if negb (month =? 2) then aref month_lengths month
  else if isLeapYear year then 29 else 28.

(** [getEpochSeconds(year, month, day)] *)
Definition getEpochSeconds (year month day : Z) : Z :=
  let month := if month <? 1 then 1 else if 12 <? month then 12 else month in
  let day := if day <? 1 then 1 else day in
  (year - 1970) * SECS_PER_YEAR
  + (aref positive_months (month - 1) + day - 1
     + leap_days_from_epoch year month) * SECS_PER_DAY.

(** [getEpochSeconds(year, month, day, hour, minute, second)] *)
Definition getEpochSecondsTime (year month day hour minute second : Z) : Z :=
  getEpochSeconds year month day + hour * 3600 + minute * 60 + second.

Definition getDayNumber (year month day : Z) : Z :=
  aref positive_months ((if month <? 13 then month else 12) - 1) + day
  + (if (2 <? month) && isLeapYear year then 1 else 0).

(** ** Broken-down times *)

Record qore_simple_tm := Tm {
  year : Z; month : Z; day : Z; hour : Z; minute : Z; second : Z; us : Z }.

Definition zero_tm : qore_simple_tm := Tm 0 0 0 0 0 0 0.

Definition hasValue (t : qore_simple_tm) : bool :=
  negb (year t =? 0) || negb (month t =? 0) || negb (day t =? 0)
  || negb (hour t =? 0) || negb (minute t =? 0) || negb (second t =? 0)
  || negb (us t =? 0).

(** The loop [for (month = 1; month < 12; ++month)] of [qore_simple_tm::set]:
    [n] is the number of iterations left, 12 - month. *)
Fixpoint set_month_loop (n : nat) (ly : bool) (month day : Z) : Z * Z :=
  match n with
  | O => (month, day)
  | S n =>
    let ml := if ly && (month =? 2) then 29 else aref month_lengths month in
    if day <? ml then (month, day)
    else set_month_loop n ly (month + 1) (day - ml)
  end.

(** [qore_simple_tm::set(int64 seconds, unsigned my_us)] *)
Definition tm_set (seconds my_us : Z) : qore_simple_tm :=
  let '(seconds, my_us) := normalize_units3 seconds my_us 1000000 in
  let '(seconds, year, ly) := get_epoch_year seconds in
  let day := i32 (seconds /c SECS_PER_DAY) in
  let seconds := seconds %c SECS_PER_DAY in
  let '(month, day) := set_month_loop 11 ly 1 day in
  let day := day + 1 in
  let second := i32 seconds in
  let hour := second /c SECS_PER_HOUR in
  let second := second %c SECS_PER_HOUR in
  let minute := second /c SECS_PER_MINUTE in
  let second := second %c SECS_PER_MINUTE in
  Tm year month day hour minute second (i32 my_us).

(** ** Normalisation of dates *)

Definition normalize_dm (year month day : Z) : Z * Z * Z :=
  let '(year, month) :=
    if (12 <? month) || (month <? 1) then
      let '(year, month) := normalize_units2 i32 i32 year (month - 1) 12 in
      (year, month + 1)
    else (year, month) in
  let day :=
    if (month =? 2) && (28 <? day) then (if isLeapYear year then 29 else 28)
    else if aref month_lengths month <? day then aref month_lengths month
    else day in
  (year, month, day).

(** The two loops of [normalize_day]; [fuel] bounds the iterations. *)
Fixpoint normalize_day_up (fuel : nat) (year month day : Z) : Z * Z * Z :=
  match fuel with
  | O => (year, month, day)
  | S fuel =>
    let i := getLastDayOfMonth month year in
    if i <? day then
      let day := day - i in
      let month := month + 1 in
      let '(year, month) := if month =? 13 then (year + 1, 1) else (year, month) in
      normalize_day_up fuel year month day
    else (year, month, day)
  end.

Fixpoint normalize_day_down (fuel : nat) (year month day : Z) : Z * Z * Z :=
  match fuel with
  | O => (year, month, day)
  | S fuel =>
    if day <? 1 then
      let month := month - 1 in
      let '(year, month) := if month =? 0 then (year - 1, 12) else (year, month) in
      normalize_day_down fuel year month (day + getLastDayOfMonth month year)
    else (year, month, day)
  end.

(** Each iteration moves [day] by at least 28, so [Z.abs day + 1] iterations
    are enough ([normalize_day_valid]). *)
Definition normalize_day (year month day : Z) : Z * Z * Z :=
  let fuel := S (Z.to_nat (Z.abs day)) in
  if 0 <? day then normalize_day_up fuel year month day
  else normalize_day_down fuel year month day.

(** [qore_simple_tm2::setLiteral] *)
Definition tm_setLiteral (date usecs : Z) : qore_simple_tm :=
  let year := i32 (date /c 10000000000) in
  let date := date - year * 10000000000 in
  let month := i32 (date /c 100000000) in
  let date := date - month * 100000000 in
  let day := i32 (date /c 1000000) in
  let date := date - day * 1000000 in
  let hour := i32 (date /c 10000) in
  let date := date - hour * 10000 in
  let minute := i32 (date /c 100) in
  let second := i32 (date - minute * 100) in
  let us := usecs in
  let '(second, us) := normalize_units2 i32 i32 second us 1000000 in
  let '(minute, second) := normalize_units2 i32 i32 minute second 60 in
  let '(hour, minute) := normalize_units2 i32 i32 hour minute 60 in
  let '(day, hour) := normalize_units2 i32 i32 day hour 24 in
  let '(year, month) :=
    if 12 <? month then
      let '(year, month) := normalize_units2 i32 i32 year (month - 1) 12 in
      (year, month + 1)
    else if month =? 0 then (year, 1) else (year, month) in
  let day := if day =? 0 then 1 else day in
  let '(year, month, day) := normalize_day year month day in
  Tm year month day hour minute second us.

(** ** Reference calendar

    Days since 1970-01-01 computed with floored divisions: the definition of
    the proleptic Gregorian calendar, against which the code is stated. *)

Definition leaps (y : Z) : Z := y / 4 - y / 100 + y / 400.

Definition days_before_year (y : Z) : Z :=
  365 * (y - 1970) + leaps (y - 1) - leaps 1969.

Definition leap_year (y : Z) : bool :=
  (y mod 4 =? 0) && negb (y mod 100 =? 0) || (y mod 400 =? 0).

Definition month_days (m y : Z) : Z :=
  if m =? 2 then (if leap_year y then 29 else 28) else aref month_lengths m.

Definition civil_days (y m d : Z) : Z :=
  days_before_year y + aref positive_months (m - 1)
  + (if (2 <? m) && leap_year y then 1 else 0) + d - 1.

Definition valid_date (y m d : Z) : Prop :=
  1 <= m <= 12 /\ 1 <= d <= month_days m y.

Definition valid_time (h mi s : Z) : Prop :=
  0 <= h < 24 /\ 0 <= mi < 60 /\ 0 <= s < 60.

Definition valid_tm (t : qore_simple_tm) : Prop :=
  valid_date (year t) (month t) (day t)
  /\ valid_time (hour t) (minute t) (second t).

Definition tm_epoch (t : qore_simple_tm) : Z :=
  getEpochSecondsTime (year t) (month t) (day t) (hour t) (minute t) (second t).

(** The epoch offsets on which the conversions are exact: from -0002-01-01
    until the year no longer fits in an [int]. *)
Definition MIN_EPOCH := days_before_year (-2) * SECS_PER_DAY.
Definition MAX_EPOCH := SECS_PER_YEAR * 2147480000.

(** The digits of [YYYYMMDDHHmmSS]. *)
Definition literal (t : qore_simple_tm) : Z :=
  year t * 10000000000 + month t * 100000000 + day t * 1000000
  + hour t * 10000 + minute t * 100 + second t.


(** What the year split guarantees: the second offset [e] in the year [y]
    leads to the right day whichever value the leap flag has. *)
Definition epoch_year_post (secs e y : Z) (ly : bool) : Prop :=
  exists k sod, 0 <= sod < SECS_PER_DAY /\
  ((0 <= k < 306 /\ e = (k + (if ly then 60 else 59)) * SECS_PER_DAY + sod /\
    secs = (civil_days y 3 1 + k) * SECS_PER_DAY + sod)
   \/ (0 <= k < 60 /\ e = k * SECS_PER_DAY + sod /\
       secs = (civil_days y 1 1 + k) * SECS_PER_DAY + sod /\
       (k = 59 -> ly = true /\ leap_year y = true))).

(** * Properties *)

Create Rewrite HintDb qdate.

(** [arefs] evaluates the array accesses at known indices. *)
Ltac arefs :=
  repeat match goal with
  | |- context [aref ?l ?i] =>
    let v := eval vm_compute in (aref l i) in
    lazymatch v with context [aref] => fail | _ => change (aref l i) with v end
  | H : context [aref ?l ?i] |- _ =>
    let v := eval vm_compute in (aref l i) in
    lazymatch v with context [aref] => fail | _ => change (aref l i) with v in H end
  end.


Lemma isLeapYear_spec y : isLeapYear y = leap_year y.
Proof.
  unfold isLeapYear, leap_year.
  zcases; simpl; try reflexivity; exfalso; clia.
Qed.

Lemma getLastDayOfMonth_spec m y : getLastDayOfMonth m y = month_days m y.
Proof.
  unfold getLastDayOfMonth, month_days. rewrite isLeapYear_spec.
  destruct (m =? 2); reflexivity.
Qed.
#[export] Hint Rewrite isLeapYear_spec getLastDayOfMonth_spec : qdate.

Lemma leaps_step y : leaps y = leaps (y - 1) + (if leap_year y then 1 else 0).
Proof.
  unfold leaps, leap_year. zcases; simpl; Z.to_euclidean_division_equations; lia.
Qed.

Lemma days_before_year_step y :
  days_before_year (y + 1) = days_before_year y + 365 + (if leap_year y then 1 else 0).
Proof.
  unfold days_before_year. replace (y + 1 - 1) with y by lia.
  rewrite (leaps_step y). lia.
Qed.

Lemma leaps_mono a b : a <= b -> leaps a <= leaps b.
Proof.
  intros H. replace b with (a + Z.of_nat (Z.to_nat (b - a))) by lia.
  induction (Z.to_nat (b - a)) as [|n IH]; [rewrite Z.add_0_r; lia|].
  rewrite (leaps_step (a + Z.of_nat (S n))).
  replace (a + Z.of_nat (S n) - 1) with (a + Z.of_nat n) by lia.
  destruct (leap_year _); lia.
Qed.

Lemma days_before_year_mono a b :
  a <= b -> days_before_year a + 365 * (b - a) <= days_before_year b.
Proof.
  intros H. unfold days_before_year. pose proof (leaps_mono (a - 1) (b - 1)). lia.
Qed.

(** Twelve cases for a month known to be in range. *)
Ltac month_cases m :=
  assert (m = 1 \/ m = 2 \/ m = 3 \/ m = 4 \/ m = 5 \/ m = 6 \/ m = 7 \/ m = 8
          \/ m = 9 \/ m = 10 \/ m = 11 \/ m = 12) as Hmonth by lia;
  destruct Hmonth as [Hmonth|[Hmonth|[Hmonth|[Hmonth|[Hmonth|[Hmonth|[Hmonth|
    [Hmonth|[Hmonth|[Hmonth|[Hmonth|Hmonth]]]]]]]]]]]; subst m.

Lemma month_days_bounds m y : 1 <= m <= 12 -> 28 <= month_days m y <= 31.
Proof.
  intros H. unfold month_days. month_cases m; arefs; simpl;
    try destruct (leap_year y); lia.
Qed.

(** The day-of-year of a valid date. *)
Lemma civil_days_in_year y m d :
  valid_date y m d ->
  days_before_year y <= civil_days y m d < days_before_year (y + 1).
Proof.
  intros [Hm Hd]. rewrite days_before_year_step. unfold civil_days, month_days in *.
  month_cases m; arefs; simpl in *; destruct (leap_year y);
    simpl in *; lia.
Qed.

Lemma leap_days_from_epoch_spec y m :
  -2 <= y ->
  leap_days_from_epoch y m
  = leaps (y - 1) - 477 + (if (2 <? m) && leap_year y then 1 else 0).
Proof.
  intros Hy. unfold leap_days_from_epoch. rewrite !isLeapYear_spec.
  destruct (Z.leb_spec 1970 y).
  - rewrite !quot_pos by lia. pose proof (leaps_step y) as Hs. unfold leaps in *.
    zcases; destruct (leap_year y); simpl in *; lia.
  - replace (y - 1 + 1) with y by lia.
    destruct (Z.ltb_spec (y - 1) 0).
    + assert (y - 1 = -1 \/ y - 1 = -2 \/ y - 1 = -3) as [E|[E|E]] by lia;
        rewrite E; vm_compute (leaps _); vm_compute (_ /c _);
        zcases; destruct (leap_year y); simpl; reflexivity.
    + rewrite !quot_pos by lia. unfold leaps.
      zcases; destruct (leap_year y); simpl in *; lia.
Qed.

Lemma getEpochSeconds_spec y m d :
  -2 <= y -> 1 <= m <= 12 -> 1 <= d ->
  getEpochSeconds y m d = civil_days y m d * SECS_PER_DAY.
Proof.
  intros. unfold getEpochSeconds, civil_days, days_before_year.
  destruct (Z.ltb_spec m 1); [lia|]. destruct (Z.ltb_spec 12 m); [lia|].
  destruct (Z.ltb_spec d 1); [lia|].
  rewrite leap_days_from_epoch_spec by lia. change (leaps 1969) with 477.
  unfold SECS_PER_YEAR. lia.
Qed.

(** A day offset from 2000-03-01 splits into 400-, 100-, 4- and 1-year
    cycles. *)
Lemma cycle_days m c q a :
  0 <= c <= 3 -> 0 <= q <= 24 -> 0 <= a <= 3 ->
  civil_days (2000 + 400 * m + 100 * c + 4 * q + a) 3 1
  = 11017 + 146097 * m + 36524 * c + 1461 * q + 365 * a.
Proof.
  intros. set (y := 2000 + 400 * m + 100 * c + 4 * q + a).
  assert (civil_days y 3 1 = 365 * (y - 1970) + leaps y - 477 + 59) as ->.
  { unfold civil_days, days_before_year. rewrite (leaps_step y).
    change (aref positive_months (3 - 1)) with 59. change (leaps 1969) with 477.
    destruct (leap_year y); simpl; lia. }
  unfold leaps.
  assert (y / 4 = 500 + 100 * m + 25 * c + q) by (unfold y; clia).
  assert (y / 100 = 20 + 4 * m + c) by (unfold y; clia).
  assert (y / 400 = 5 + m) by (unfold y; clia).
  lia.
Qed.

Lemma civil_days_next_year y : civil_days (y + 1) 1 1 = civil_days y 3 1 + 306.
Proof.
  unfold civil_days. rewrite days_before_year_step.
  change (aref positive_months (3 - 1)) with 59.
  change (aref positive_months (1 - 1)) with 0.
  destruct (leap_year y); simpl; lia.
Qed.

Lemma cycle_leap_next m c q :
  0 <= c <= 3 -> 0 <= q <= 24 -> (q = 24 -> c = 3) ->
  leap_year (2000 + 400 * m + 100 * c + 4 * q + 3 + 1) = true.
Proof.
  intros. unfold leap_year. zcases; simpl; try reflexivity; exfalso; clia.
Qed.

(** [secs] replaces the named constants by their values. *)
Ltac secs :=
  change SECS_PER_MINUTE with 60 in *; change SECS_PER_HOUR with 3600 in *;
  change SECS_PER_DAY with 86400 in *; change SECS_PER_YEAR with 31536000 in *;
  change SECS_TO_2KLD with 951868800 in *;
  change SECS_IN_400_YEARS with 12622780800 in *;
  change SECS_IN_100_YEARS with 3155673600 in *;
  change SECS_IN_4_YEARS with 126230400 in *;
  change LEAPDAY_OFFSET with 5097600 in *;
  change SECS_AFTER_LD with 26438400 in *.

(** The three steps of the split, in the shape the code computes them. *)
Lemma split_100 r :
  0 <= r < SECS_IN_400_YEARS ->
  exists c, 0 <= c <= 3 /\ 0 <= r - c * SECS_IN_100_YEARS /\
  r - c * SECS_IN_100_YEARS < SECS_IN_100_YEARS + (if c =? 3 then SECS_PER_DAY else 0) /\
  (if negb (r /c SECS_IN_100_YEARS =? 0)
   then (r - (if r /c SECS_IN_100_YEARS =? 4 then 3 else r /c SECS_IN_100_YEARS)
             * SECS_IN_100_YEARS,
         i32 (100 * (if r /c SECS_IN_100_YEARS =? 4 then 3 else r /c SECS_IN_100_YEARS)))
   else (r, 0)) = (r - c * SECS_IN_100_YEARS, 100 * c).
Proof.
  intros H. secs. rewrite quot_pos by lia.
  assert (exists d, r / 3155673600 = d) as [d Ed] by eauto. rewrite Ed.
  assert (0 <= d <= 4 /\ d * 3155673600 <= r < (d + 1) * 3155673600) by clia.
  exists (if d =? 4 then 3 else d).
  secs.
  destruct (Z.eqb_spec d 4); simpl; [destruct (Z.eqb_spec d 0); [lia|]|destruct (Z.eqb_spec d 0)];
    simpl; cast_simpl; zcases; repeat split; try lia; f_equal; lia.
Qed.

Lemma split_4 r yo :
  0 <= r < SECS_IN_100_YEARS + SECS_PER_DAY -> 0 <= yo <= 300 ->
  exists q, 0 <= q <= 24 /\ 0 <= r - q * SECS_IN_4_YEARS < SECS_IN_4_YEARS /\
  (if negb (r /c SECS_IN_4_YEARS =? 0)
   then (r %c SECS_IN_4_YEARS, i32 (yo + r /c SECS_IN_4_YEARS * 4))
   else (r, yo)) = (r - q * SECS_IN_4_YEARS, yo + 4 * q).
Proof.
  intros H Hy. exists (r /c SECS_IN_4_YEARS).
  secs.
  destruct (Z.eqb_spec (r /c 126230400) 0) as [E|E]; simpl.
  - rewrite E. repeat split; try clia. f_equal; lia.
  - assert (0 <= r /c 126230400 <= 24) by clia. cast_simpl.
    repeat split; try clia. f_equal; clia.
Qed.

Lemma split_1 r yo :
  0 <= r < SECS_IN_4_YEARS -> 0 <= yo <= 400 ->
  exists a, 0 <= a <= 3 /\ 0 <= r - a * SECS_PER_YEAR /\
  r - a * SECS_PER_YEAR < SECS_PER_YEAR + (if a =? 3 then SECS_PER_DAY else 0) /\
  (if negb (r /c SECS_PER_YEAR =? 0)
   then (r - (if r /c SECS_PER_YEAR =? 4 then 3 else r /c SECS_PER_YEAR) * SECS_PER_YEAR,
         i32 (yo + (if r /c SECS_PER_YEAR =? 4 then 3 else r /c SECS_PER_YEAR)))
   else (r, yo)) = (r - a * SECS_PER_YEAR, yo + a).
Proof.
  intros H Hy. secs. rewrite quot_pos by lia.
  assert (exists d, r / 31536000 = d) as [d Ed] by eauto. rewrite Ed.
  assert (0 <= d <= 4 /\ d * 31536000 <= r < (d + 1) * 31536000) by clia.
  exists (if d =? 4 then 3 else d).
  secs.
  destruct (Z.eqb_spec d 4); simpl; [destruct (Z.eqb_spec d 0); [lia|]|destruct (Z.eqb_spec d 0)];
    simpl; cast_simpl; zcases; repeat split; try lia; f_equal; lia.
Qed.

(** The normalised 400-year quotient and remainder. *)
Lemma split_400 E :
  E %c SECS_IN_400_YEARS <> 0 ->
  exists m r, 0 < r < SECS_IN_400_YEARS /\ E = m * SECS_IN_400_YEARS + r /\
  (if E %c SECS_IN_400_YEARS <? 0
   then (E /c SECS_IN_400_YEARS - 1, E %c SECS_IN_400_YEARS + SECS_IN_400_YEARS)
   else (E /c SECS_IN_400_YEARS, E %c SECS_IN_400_YEARS)) = (m, r).
Proof.
  secs. intros H. destruct (Z.ltb_spec (E %c 12622780800) 0);
    eexists _, _; split; [| split; [|reflexivity]| | split; [|reflexivity]]; clia.
Qed.

Lemma get_epoch_year_post secs :
  MIN_EPOCH <= secs < MAX_EPOCH ->
  let '(e, y, ly) := get_epoch_year secs in
  -2 <= y < 2147483000 /\ epoch_year_post secs e y ly.
Proof.
  intros H. unfold get_epoch_year. cbv zeta.
  change MIN_EPOCH with (-62230291200) in H. change MAX_EPOCH with 67722929280000000 in H.
  destruct (Z.eqb_spec ((secs - SECS_TO_2KLD) %c SECS_IN_400_YEARS) 0) as [E|E].
  - set (m := (secs - SECS_TO_2KLD) /c SECS_IN_400_YEARS).
    assert (secs = m * SECS_IN_400_YEARS + SECS_TO_2KLD) as Es
      by (unfold m; secs; clia).
    secs. cast_simpl. split; [lia|]. exists 0, 0. split; [secs; lia|]. left.
    pose proof (cycle_days m 0 0 0 ltac:(lia) ltac:(lia) ltac:(lia)) as Hc.
    replace (m * 400 + 2000) with (2000 + 400 * m + 100 * 0 + 4 * 0 + 0) by lia.
    rewrite Hc. secs. lia.
  - destruct (split_400 _ E) as (m & r & Hr & Em & ->).
    destruct (split_100 r) as (c & Hc & Hc1 & Hc2 & ->); [lia|].
    destruct (split_4 (r - c * SECS_IN_100_YEARS) (100 * c)) as (q & Hq & Hq1 & ->);
      [destruct (c =? 3); secs; lia|lia|].
    set (r2 := r - c * SECS_IN_100_YEARS - q * SECS_IN_4_YEARS) in *.
    destruct (split_1 r2 (100 * c + 4 * q)) as (a & Ha & Ha1 & Ha2 & ->); [lia|lia|].
    set (r3 := r2 - a * SECS_PER_YEAR) in *.
    assert (q = 24 -> c = 3 \/ r2 < SECS_PER_YEAR * 4) as Hq24
      by (unfold r2; destruct (Z.eqb_spec c 3); secs; lia).
    pose proof (cycle_days m c q a Hc Hq Ha) as Hd.
    replace (m * 400 + 2000 + (100 * c + 4 * q + a))
      with (2000 + 400 * m + 100 * c + 4 * q + a) by lia.
    set (y := 2000 + 400 * m + 100 * c + 4 * q + a) in *.
    assert (r3 < SECS_PER_YEAR + SECS_PER_DAY) as Hr3b
      by (destruct (a =? 3); secs; lia).
    assert (-3 <= y < 2147482999) as Hy by (unfold y, r2, r3 in *; secs; lia).
    cast_simpl.
    assert (secs = civil_days y 3 1 * SECS_PER_DAY + r3) as Es
      by (rewrite Hd; unfold r3, r2; secs; lia).
    assert (0 <= r3 mod SECS_PER_DAY < SECS_PER_DAY /\ 
            r3 = r3 / SECS_PER_DAY * SECS_PER_DAY + r3 mod SECS_PER_DAY) as Hr3
      by (secs; clia).
    destruct (Z.leb_spec SECS_AFTER_LD r3).
    + split; [lia|]. exists (r3 / SECS_PER_DAY - 306), (r3 mod SECS_PER_DAY).
      split; [tauto|]. right. rewrite civil_days_next_year.
      assert (306 <= r3 / SECS_PER_DAY <= 365) by (destruct (a =? 3); secs; clia).
      split; [lia|]. split; [secs; lia|]. split; [lia|]. intros K.
      assert (a = 3 /\ SECS_PER_YEAR * 4 <= r2) as [Ea Hr2]
        by (destruct (Z.eqb_spec a 3); unfold r3 in *; secs; lia).
      split.
      * destruct (Z.leb_spec (SECS_PER_YEAR * 4) r2); [|lia]. apply orb_true_r.
      * unfold y. subst a. apply cycle_leap_next; lia.
    + split.
      { assert (y <> -3); [|lia]. intros Ey. rewrite Ey in Es.
        vm_compute (civil_days (-3) 3 1) in Es. secs. lia. }
      exists (r3 / SECS_PER_DAY), (r3 mod SECS_PER_DAY). split; [tauto|]. left.
      split; [secs; clia|]. split; [|lia].
      destruct (_ || _)%bool; secs; lia.
Qed.

(** The month loop, unrolled. *)
Lemma set_month_loop_eq ly d :
  set_month_loop 11 ly 1 d =
  let f := if ly then 29 else 28 in
  if d <? 31 then (1, d) else let d := d - 31 in
  if d <? f then (2, d) else let d := d - f in
  if d <? 31 then (3, d) else let d := d - 31 in
  if d <? 30 then (4, d) else let d := d - 30 in
  if d <? 31 then (5, d) else let d := d - 31 in
  if d <? 30 then (6, d) else let d := d - 30 in
  if d <? 31 then (7, d) else let d := d - 31 in
  if d <? 31 then (8, d) else let d := d - 31 in
  if d <? 30 then (9, d) else let d := d - 30 in
  if d <? 31 then (10, d) else let d := d - 31 in
  if d <? 30 then (11, d) else (12, d - 30).
Proof. destruct ly; reflexivity. Qed.

(** The month loop finds the month of a day of the year. *)
Lemma set_month_loop_march ly k :
  0 <= k < 306 ->
  let '(m, d) := set_month_loop 11 ly 1 (k + (if ly then 60 else 59)) in
  3 <= m <= 12 /\ aref positive_months (m - 1) - 59 + d = k /\
  0 <= d < aref month_lengths m.
Proof.
  intros H. rewrite set_month_loop_eq. destruct ly; cbv zeta;
    repeat match goal with
    | |- context [if ?a <? ?b then _ else _] =>
      destruct (Z.ltb_spec a b); [try lia; cbv beta iota; arefs; lia|]
    end; cbv beta iota; arefs; lia.
Qed.

Lemma set_month_loop_january ly k :
  0 <= k < 60 -> (k = 59 -> ly = true) ->
  let '(m, d) := set_month_loop 11 ly 1 k in
  1 <= m <= 2 /\ aref positive_months (m - 1) + d = k /\
  0 <= d < aref month_lengths m + (if (m =? 2) && ly then 1 else 0).
Proof.
  intros H Hly. rewrite set_month_loop_eq. cbv zeta.
  destruct (Z.ltb_spec k 31); [cbv beta iota; arefs; simpl; lia|].
  assert (ly = false -> k < 59)
    by (intros ->; destruct (Z.eq_dec k 59) as [E|]; [discriminate (Hly E)|lia]).
  destruct (Z.ltb_spec (k - 31) (if ly then 29 else 28)); [|destruct ly; lia].
  cbv beta iota; arefs. destruct ly; simpl in *; lia.
Qed.

Lemma month_of_year_day secs e y ly sod0 :
  epoch_year_post secs e y ly -> sod0 = e %c SECS_PER_DAY ->
  let '(m, d) := set_month_loop 11 ly 1 (e /c SECS_PER_DAY) in
  valid_date y m (d + 1) /\ 0 <= sod0 < SECS_PER_DAY /\
  secs = civil_days y m (d + 1) * SECS_PER_DAY + sod0.
Proof.
  intros (k & sod & Hs & [(Hk & -> & ->)|(Hk & -> & -> & H59)]) ->.
  - pose proof (set_month_loop_march ly k Hk) as HL.
    set (off := if ly then 60 else 59) in *.
    assert (59 <= off) by (unfold off; destruct ly; lia).
    replace ((k + off) * SECS_PER_DAY + sod) with (SECS_PER_DAY * (k + off) + sod) by lia.
    rewrite quot_decomp, rem_decomp by lia.
    destruct (set_month_loop _ _ _ _) as [m d]. destruct HL as (Hm & Hp & Hd).
    unfold valid_date, month_days. destruct (Z.eqb_spec m 2); [lia|].
    repeat split; try lia.
    unfold civil_days. destruct (Z.ltb_spec 2 m); [|lia].
    change (aref positive_months (3 - 1)) with 59. simpl.
    destruct (leap_year y); lia.
  - pose proof (set_month_loop_january ly k Hk ltac:(tauto)) as HL.
    replace (k * SECS_PER_DAY + sod) with (SECS_PER_DAY * k + sod) by lia.
    rewrite quot_decomp, rem_decomp by lia.
    destruct (set_month_loop _ _ _ _) as [m d]. destruct HL as (Hm & Hp & Hd).
    assert (m = 1 \/ m = 2) as [-> | ->] by lia; arefs;
      simpl in Hd; unfold valid_date, month_days, civil_days;
      arefs; simpl; [lia|].
    repeat split; try lia. destruct (Z.eq_dec k 59) as [E|E].
    + destruct (H59 E) as [_ ->]. destruct ly; lia.
    + destruct (leap_year y), ly; lia.
Qed.

(** [n] seconds with [u] microseconds, [u] an [unsigned]. *)
Lemma normalize_units3_us n u :
  in_u32 u -> normalize_units3 n u 1000000 = (n + u / 1000000, u mod 1000000).
Proof.
  unfold normalize_units3, in_u32. intros H.
  destruct (Z.leb_spec 1000000 u).
  - rewrite quot_pos by lia. f_equal.
    assert (u - u / 1000000 * 1000000 = u mod 1000000 /\ 0 <= u mod 1000000 < 1000000)
      as [Hm Hb] by clia.
    unfold u32, i32, wrap_signed.
    change (2 ^ (32 - 1)) with 2147483648. change (2 ^ 32) with 4294967296.
    set (p := u / 1000000 * 1000000) in *. rewrite <- Hm. clia.
  - f_equal; clia.
Qed.

Lemma tm_set_sound secs u :
  MIN_EPOCH <= secs -> secs + 4295 < MAX_EPOCH -> in_u32 u ->
  let t := tm_set secs u in
  -2 <= year t < 2147483000 /\ valid_tm t /\ us t = u mod 1000000
  /\ tm_epoch t = secs + u / 1000000.
Proof.
  intros H1 H2 Hu. unfold tm_set. rewrite normalize_units3_us by exact Hu.
  unfold in_u32 in Hu.
  assert (0 <= u / 1000000 <= 4294 /\ 0 <= u mod 1000000 < 1000000) by clia.
  pose proof (get_epoch_year_post (secs + u / 1000000) ltac:(lia)) as HP.
  destruct (get_epoch_year _) as [[e y] ly]. destruct HP as [Hy HP].
  assert (0 <= e < 31708800) as He
    by (destruct HP as (k & sod & ? & [(? & -> & _)|(? & -> & _)]);
        secs; destruct ly; lia).
  pose proof (month_of_year_day _ _ _ _ _ HP eq_refl) as HM.
  rewrite (i32_id (e /c SECS_PER_DAY)) by (unfold in_i32; secs; clia).
  destruct (set_month_loop 11 ly 1 (e /c SECS_PER_DAY)) as [m d].
  destruct HM as (Hv & Hs & Es). rewrite !(i32_id (e %c SECS_PER_DAY)) by (unfold in_i32; secs; lia).
  cast_simpl. unfold valid_tm, tm_epoch, valid_time. cbn [year month day hour minute second us].
  unfold getEpochSecondsTime. rewrite getEpochSeconds_spec by (destruct Hv; lia).
  repeat split; try (apply Hv); try lia; secs; clia.
Qed.

(** Distinct valid dates have distinct day numbers. *)
Lemma civil_days_lt y m d m' d' :
  valid_date y m d -> valid_date y m' d' ->
  m < m' \/ (m = m' /\ d < d') -> civil_days y m d < civil_days y m' d'.
Proof.
  intros [Hm Hd] [Hm' Hd'] [Hlt|[-> Hlt]]; [|unfold civil_days; lia].
  unfold civil_days, month_days in *.
  month_cases m; arefs; month_cases m'; try lia; arefs; simpl in *;
    destruct (leap_year y); simpl in *; lia.
Qed.

Lemma civil_days_inj y m d y' m' d' :
  valid_date y m d -> valid_date y' m' d' ->
  civil_days y m d = civil_days y' m' d' -> y = y' /\ m = m' /\ d = d'.
Proof.
  intros V V' E.
  assert (y = y') as <-.
  { pose proof (civil_days_in_year _ _ _ V). pose proof (civil_days_in_year _ _ _ V').
    destruct (Z.lt_trichotomy y y') as [L|[|L]]; [|assumption|].
    - pose proof (days_before_year_mono (y + 1) y' ltac:(lia)). lia.
    - pose proof (days_before_year_mono (y' + 1) y ltac:(lia)). lia. }
  split; [reflexivity|].
  destruct (Z.lt_trichotomy m m') as [L|[->|L]].
  - pose proof (civil_days_lt y m d m' d' V V' ltac:(lia)). lia.
  - split; [reflexivity|]. unfold civil_days in E. lia.
  - pose proof (civil_days_lt y m' d' m d V' V ltac:(lia)). lia.
Qed.

Lemma tm_epoch_spec t :
  -2 <= year t -> valid_tm t ->
  tm_epoch t = civil_days (year t) (month t) (day t) * 86400
               + (hour t * 3600 + minute t * 60 + second t).
Proof.
  intros Hy [[Hm Hd] _]. unfold tm_epoch, getEpochSecondsTime.
  rewrite getEpochSeconds_spec by lia. secs. lia.
Qed.

Lemma tm_epoch_inj t t' :
  -2 <= year t -> -2 <= year t' -> valid_tm t -> valid_tm t' ->
  tm_epoch t = tm_epoch t' -> us t = us t' -> t = t'.
Proof.
  intros Hy Hy' V V' E Eu. rewrite !tm_epoch_spec in E by assumption.
  destruct V as [V (Hh & Hmi & Hs)], V' as [V' (Hh' & Hmi' & Hs')].
  assert (civil_days (year t) (month t) (day t)
          = civil_days (year t') (month t') (day t')) as Ed by lia.
  destruct (civil_days_inj _ _ _ _ _ _ V V' Ed) as (E1 & E2 & E3).
  destruct t, t'. simpl in *. subst. f_equal; lia.
Qed.

Lemma tm_set_complete t :
  -2 <= year t < 2000000000 -> valid_tm t -> 0 <= us t < 1000000 ->
  tm_set (tm_epoch t) (us t) = t.
Proof.
  intros Hy V Hu. pose proof (tm_epoch_spec t ltac:(lia) V) as Es.
  pose proof (civil_days_in_year _ _ _ (proj1 V)) as Hd.
  pose proof (days_before_year_mono (-2) (year t) ltac:(lia)).
  pose proof (days_before_year_mono (year t + 1) 2000000001 ltac:(lia)).
  change (days_before_year 2000000001) with 730484280838 in *.
  change (days_before_year (-2)) with (-720258) in *.
  destruct V as [Vd (Hh & Hmi & Hs)].
  assert (us t / 1000000 = 0 /\ us t mod 1000000 = us t) as [Eu1 Eu2] by clia.
  destruct (tm_set_sound (tm_epoch t) (us t)) as (Hy' & V' & Eu & Ee).
  - change MIN_EPOCH with (-62230291200). lia.
  - change MAX_EPOCH with 67722929280000000. lia.
  - unfold in_u32. lia.
  - apply tm_epoch_inj; try assumption; try lia; split; try assumption.
    repeat split; lia.
Qed.

(** ** Unit normalisation *)

Lemma quot_rem_i32 s r :
  0 < r -> in_i32 r -> in_i32 s ->
  s = r * (s /c r) + s %c r /\ Z.abs (s %c r) < r /\
  in_i32 (s /c r) /\ in_i32 (s /c r * r).
Proof.
  intros Hr Hr32 Hs. unfold in_i32 in *.
  pose proof (Z.quot_rem s r ltac:(lia)). pose proof (Z.rem_bound_abs s r ltac:(lia)).
  assert (0 <= s /\ 0 <= s %c r /\ 0 <= s /c r \/ s < 0 /\ s %c r <= 0 /\ s /c r <= 0)
    as [?|?]; [|repeat split; nia|repeat split; nia].
  destruct (Z.le_gt_cases 0 s) as [Hp|Hn]; [left|right].
  - rewrite quot_pos, rem_pos by lia.
    pose proof (Z.mod_pos_bound s r). pose proof (Z.div_pos s r). lia.
  - rewrite <- (Z.opp_involutive s), Z.quot_opp_l, Z.rem_opp_l by lia.
    rewrite quot_pos, rem_pos by lia.
    pose proof (Z.mod_pos_bound (- s) r). pose proof (Z.div_pos (- s) r). lia.
Qed.

(** The casts do nothing when the quotient is in range, and the result is then
    known from the sum and the signs. *)
Lemma normalize_units_gen c1 c2 b s r :
  0 < r -> c1 (s /c r) = s /c r -> c2 (s /c r * r) = s /c r * r ->
  let '(b', s') := normalize_units c1 c2 b s r in
  b' * r + s' = b * r + s /\ - r < s' < r /\
  (0 < b' -> 0 <= s') /\ (b' < 0 -> s' <= 0).
Proof.
  intros Hr H1 H2. unfold normalize_units. rewrite H1, H2.
  assert (s = r * (s /c r) + s %c r /\ Z.abs (s %c r) < r) as [E B].
  { split; [apply Z.quot_rem; lia|]. pose proof (Z.rem_bound_abs s r). lia. }
  assert (exists b1 s1, (if (s <=? - r) || (r <=? s)
     then (b + s /c r, s - s /c r * r) else (b, s)) = (b1, s1)
     /\ b1 * r + s1 = b * r + s /\ - r < s1 < r) as (b1 & s1 & -> & E1 & Hs1).
  { destruct (_ || _) eqn:Eb.
    - eexists _, _. split; [reflexivity|]. lia.
    - apply orb_false_iff in Eb as [E1 E2]. apply Z.leb_gt in E1, E2.
      eexists _, _. split; [reflexivity|]. lia. }
  destruct (Z.ltb_spec 0 b1), (Z.ltb_spec s1 0), (Z.ltb_spec b1 0), (Z.ltb_spec 0 s1);
    simpl; repeat split; lia.
Qed.

Lemma normalize_units_spec b s r :
  0 < r -> in_i32 r -> in_i32 s ->
  let '(b', s') := normalize_units i32 i32 b s r in
  b' * r + s' = b * r + s /\ - r < s' < r /\
  (0 < b' -> 0 <= s') /\ (b' < 0 -> s' <= 0).
Proof.
  intros Hr Hr32 Hs. destruct (quot_rem_i32 s r Hr Hr32 Hs) as (_ & _ & B1 & B2).
  apply normalize_units_gen; [assumption|apply i32_id; assumption..].
Qed.

(** [normalize_units2] divides with a floored quotient. *)
Lemma normalize_units2_gen c1 c2 b s r :
  0 < r -> c1 (s /c r) = s /c r -> c2 (s /c r * r) = s /c r * r ->
  normalize_units2 c1 c2 b s r = (b + s / r, s mod r).
Proof.
  intros Hr H1 H2. unfold normalize_units2. rewrite H1, H2.
  assert (s = r * (s /c r) + s %c r /\ Z.abs (s %c r) < r) as [E B].
  { split; [apply Z.quot_rem; lia|]. pose proof (Z.rem_bound_abs s r). lia. }
  assert (forall q m, s = r * q + m -> 0 <= m < r -> (b + q, m) = (b + s / r, s mod r)) as Hd.
  { intros q m Eq Hm. rewrite (Z.div_unique s r q m), (Z.mod_unique s r q m); auto. }
  destruct (_ || _) eqn:Eb.
  - destruct (Z.ltb_spec (s - s /c r * r) 0); [rewrite <- Z.add_sub_assoc|]; apply Hd; lia.
  - apply orb_false_iff in Eb as [E1 E2]. apply Z.leb_gt in E1, E2.
    destruct (Z.ltb_spec s 0).
    + rewrite <- (Hd (-1) (s + r)) by lia. f_equal; lia.
    + rewrite <- (Hd 0 s) by lia. f_equal; lia.
Qed.

Lemma normalize_units2_divmod b s r :
  0 < r -> in_i32 r -> in_i32 s ->
  normalize_units2 i32 i32 b s r = (b + s / r, s mod r)
  /\ normalize_units2 i64 i32 b s r = (b + s / r, s mod r).
Proof.
  intros Hr Hr32 Hs. destruct (quot_rem_i32 s r Hr Hr32 Hs) as (_ & _ & B1 & B2).
  split; apply normalize_units2_gen; try assumption; try (apply i32_id; assumption).
  apply i64_id. unfold in_i32, in_i64 in *. lia.
Qed.

Lemma normalize_units2_spec b s r :
  0 < r -> in_i32 r -> in_i32 s ->
  let '(b', s') := normalize_units2 i32 i32 b s r in
  b' * r + s' = b * r + s /\ 0 <= s' < r.
Proof.
  intros Hr Hr32 Hs. rewrite (proj1 (normalize_units2_divmod b s r Hr Hr32 Hs)).
  pose proof (Z.div_mod s r). pose proof (Z.mod_pos_bound s r). nia.
Qed.

(** ** Date normalisation *)

Lemma civil_days_month_step y m d :
  1 <= m <= 12 ->
  civil_days y m d + month_days m y
  = (if m =? 12 then civil_days (y + 1) 1 d else civil_days y (m + 1) d).
Proof.
  intros Hm. unfold civil_days, month_days. rewrite days_before_year_step.
  month_cases m; arefs; simpl; destruct (leap_year y); simpl; lia.
Qed.

Lemma civil_days_shift y m d k : civil_days y m (d + k) = civil_days y m d + k.
Proof. unfold civil_days. lia. Qed.

Lemma normalize_day_up_spec fuel y m d :
  1 <= m <= 12 -> 0 < d -> d <= Z.of_nat fuel ->
  let '(y', m', d') := normalize_day_up fuel y m d in
  valid_date y' m' d' /\ civil_days y' m' d' = civil_days y m d.
Proof.
  revert y m d. induction fuel as [|fuel IH]; intros y m d Hm Hd Hf; [lia|].
  cbn [normalize_day_up]. rewrite getLastDayOfMonth_spec.
  pose proof (month_days_bounds m y Hm).
  pose proof (civil_days_month_step y m (d - month_days m y) Hm) as Hstep.
  pose proof (civil_days_shift y m d (- month_days m y)) as Hshift.
  rewrite Z.add_opp_r in Hshift.
  destruct (Z.ltb_spec (month_days m y) d); [|unfold valid_date; lia].
  destruct (Z.eqb_spec (m + 1) 13).
  - specialize (IH (y + 1) 1 (d - month_days m y) ltac:(lia) ltac:(lia) ltac:(lia)).
    destruct (normalize_day_up _ _ _ _) as [[y' m'] d'].
    destruct (Z.eqb_spec m 12); [|lia]. destruct IH. split; [assumption|lia].
  - specialize (IH y (m + 1) (d - month_days m y) ltac:(lia) ltac:(lia) ltac:(lia)).
    destruct (normalize_day_up _ _ _ _) as [[y' m'] d'].
    destruct (Z.eqb_spec m 12); [lia|]. destruct IH. split; [assumption|lia].
Qed.

Lemma normalize_day_down_spec fuel y m d :
  1 <= m <= 12 -> d <= month_days m y -> 1 - d <= Z.of_nat fuel ->
  let '(y', m', d') := normalize_day_down fuel y m d in
  valid_date y' m' d' /\ civil_days y' m' d' = civil_days y m d.
Proof.
  revert y m d. induction fuel as [|fuel IH]; intros y m d Hm Hd Hf;
    cbn [normalize_day_down]; [unfold valid_date; lia|].
  destruct (Z.ltb_spec d 1); [|unfold valid_date; lia].
  assert (exists y1 m1, (if m - 1 =? 0 then (y - 1, 12) else (y, m - 1)) = (y1, m1)
    /\ 1 <= m1 <= 12
    /\ civil_days y1 m1 (d + month_days m1 y1) = civil_days y m d)
    as (y1 & m1 & -> & Hm1 & Ec).
  { destruct (Z.eqb_spec (m - 1) 0).
    - exists (y - 1), 12. split; [reflexivity|]. split; [lia|].
      rewrite civil_days_shift, civil_days_month_step by lia. simpl.
      replace (y - 1 + 1) with y by lia. replace m with 1 by lia. reflexivity.
    - exists y, (m - 1). split; [reflexivity|]. split; [lia|].
      rewrite civil_days_shift, civil_days_month_step by lia.
      destruct (Z.eqb_spec (m - 1) 12); [lia|]. f_equal. lia. }
  rewrite getLastDayOfMonth_spec, <- Ec. pose proof (month_days_bounds m1 y1 Hm1).
  apply IH; lia.
Qed.

Lemma normalize_day_spec y m d :
  1 <= m <= 12 ->
  let '(y', m', d') := normalize_day y m d in
  valid_date y' m' d' /\ civil_days y' m' d' = civil_days y m d.
Proof.
  intros Hm. unfold normalize_day. destruct (Z.ltb_spec 0 d).
  - apply normalize_day_up_spec; lia.
  - pose proof (month_days_bounds m y Hm). apply normalize_day_down_spec; lia.
Qed.

Lemma normalize_day_id y m d : valid_date y m d -> normalize_day y m d = (y, m, d).
Proof.
  intros [Hm Hd]. unfold normalize_day. destruct (Z.ltb_spec 0 d); [|lia].
  cbn [normalize_day_up]. rewrite getLastDayOfMonth_spec.
  destruct (Z.ltb_spec (month_days m y) d); [lia|reflexivity].
Qed.

Lemma normalize_dm_spec y m d :
  in_i32 m -> m <> -2147483648 -> 1 <= d ->
  let '(y', m', d') := normalize_dm y m d in
  y' * 12 + m' = y * 12 + m /\ d' = Z.min d (month_days m' y') /\ valid_date y' m' d'.
Proof.
  intros Hm Hm' Hd. unfold normalize_dm.
  assert (exists y1 m1,
    (if (12 <? m) || (m <? 1) then
       let '(y1, m1) := normalize_units2 i32 i32 y (m - 1) 12 in (y1, m1 + 1)
     else (y, m)) = (y1, m1) /\ y1 * 12 + m1 = y * 12 + m /\ 1 <= m1 <= 12)
    as (y1 & m1 & -> & E & Hm1).
  { destruct ((12 <? m) || (m <? 1)) eqn:Eb.
    - pose proof (normalize_units2_spec y (m - 1) 12 ltac:(lia)) as HN.
      unfold in_i32 in *. specialize (HN ltac:(lia) ltac:(lia)).
      destruct (normalize_units2 _ _ _ _ _) as [y1 m1].
      exists y1, (m1 + 1). split; [reflexivity|]. lia.
    - apply orb_false_iff in Eb as [E1 E2]. apply Z.ltb_ge in E1, E2.
      exists y, m. split; [reflexivity|]. lia. }
  rewrite isLeapYear_spec. cbv zeta.
  assert ((if (m1 =? 2) && (28 <? d) then (if leap_year y1 then 29 else 28)
           else if aref month_lengths m1 <? d then aref month_lengths m1 else d)
          = Z.min d (month_days m1 y1)) as ->.
  { unfold month_days. destruct (Z.eqb_spec m1 2) as [->|].
    - arefs. destruct (Z.ltb_spec 28 d); simpl; destruct (leap_year y1); lia.
    - simpl. destruct (Z.ltb_spec (aref month_lengths m1) d); lia. }
  split; [exact E|]. split; [reflexivity|].
  unfold valid_date. pose proof (month_days_bounds m1 y1 Hm1). lia.
Qed.

(** ** Date literals *)

Lemma normalize_units2_id b s r :
  0 < r -> 0 <= s < r -> normalize_units2 i32 i32 b s r = (b, s).
Proof.
  intros. unfold normalize_units2.
  destruct (Z.leb_spec s (- r)); [lia|]. destruct (Z.leb_spec r s); [lia|]. simpl.
  destruct (Z.ltb_spec s 0); [lia|reflexivity].
Qed.

Lemma digit_quot q r b : 0 <= q -> 0 <= r < b -> (q * b + r) /c b = q.
Proof. intros. rewrite Z.mul_comm. apply quot_decomp; lia. Qed.

Lemma tm_setLiteral_spec t :
  0 <= year t < 2147483648 -> valid_tm t -> 0 <= us t < 1000000 ->
  tm_setLiteral (literal t) (us t) = t.
Proof.
  destruct t as [y m d h mi s u]. unfold literal, valid_tm, valid_time.
  cbn [year month day hour minute second us]. intros Hy [V (Hh & Hmi & Hs)] Hu.
  assert (1 <= m <= 12 /\ 1 <= d <= 31) as [Hm Hd]
    by (destruct V as [Vm Vd]; pose proof (month_days_bounds m y Vm); lia).
  unfold tm_setLiteral.
  replace (y * 10000000000 + m * 100000000 + d * 1000000 + h * 10000 + mi * 100 + s)
    with (y * 10000000000 + (m * 100000000 + d * 1000000 + h * 10000 + mi * 100 + s)) by lia.
  rewrite digit_quot by lia. rewrite (i32_id y) by (unfold in_i32; lia). cbv zeta.
  replace (y * 10000000000 + (m * 100000000 + d * 1000000 + h * 10000 + mi * 100 + s)
           - y * 10000000000)
    with (m * 100000000 + (d * 1000000 + h * 10000 + mi * 100 + s)) by lia.
  rewrite digit_quot by lia. rewrite (i32_id m) by (unfold in_i32; lia).
  replace (m * 100000000 + (d * 1000000 + h * 10000 + mi * 100 + s) - m * 100000000)
    with (d * 1000000 + (h * 10000 + mi * 100 + s)) by lia.
  rewrite digit_quot by lia. rewrite (i32_id d) by (unfold in_i32; lia).
  replace (d * 1000000 + (h * 10000 + mi * 100 + s) - d * 1000000)
    with (h * 10000 + (mi * 100 + s)) by lia.
  rewrite digit_quot by lia. rewrite (i32_id h) by (unfold in_i32; lia).
  replace (h * 10000 + (mi * 100 + s) - h * 10000) with (mi * 100 + s) by lia.
  rewrite digit_quot by lia. rewrite (i32_id mi) by (unfold in_i32; lia).
  replace (mi * 100 + s - mi * 100) with s by lia.
  rewrite (i32_id s) by (unfold in_i32; lia).
  do 4 (rewrite normalize_units2_id by lia).
  destruct (Z.ltb_spec 12 m); [lia|]. destruct (Z.eqb_spec m 0); [lia|].
  destruct (Z.eqb_spec d 0); [lia|]. rewrite normalize_day_id by exact V. reflexivity.
Qed.

(** ** The properties of the calendar *)

(** C37: [qore_simple_tm::set] breaks an epoch offset (with an unsigned number
    of microseconds that may exceed a second) down into a valid calendar date
    and time of day of the proleptic Gregorian calendar that denote exactly
    that offset, with the microseconds below one million. *)
Theorem tm_set_correct secs u :
  MIN_EPOCH <= secs -> secs + 4295 < MAX_EPOCH -> in_u32 u ->
  let t := tm_set secs u in
  valid_tm t /\ 0 <= us t < 1000000 /\
  (civil_days (year t) (month t) (day t) * 86400
   + hour t * 3600 + minute t * 60 + second t) * 1000000 + us t
  = secs * 1000000 + u.
Proof.
  intros H1 H2 Hu. destruct (tm_set_sound secs u H1 H2 Hu) as (Hy & V & Eu & Es).
  rewrite tm_epoch_spec in Es by (assumption || lia). cbv zeta. rewrite Eu.
  split; [assumption|]. clia.
Qed.

Lemma tm_set_correct_witness :
  let t := tm_set 951782400 1500000 in
  t = Tm 2000 2 29 0 0 1 500000 /\ valid_tm t /\ 0 <= us t < 1000000 /\
  (civil_days (year t) (month t) (day t) * 86400
   + hour t * 3600 + minute t * 60 + second t) * 1000000 + us t
  = 951782400 * 1000000 + 1500000.
Proof.
  split; [vm_compute; reflexivity|].
  apply (tm_set_correct 951782400 1500000).
  - change MIN_EPOCH with (-62230291200). lia.
  - change MAX_EPOCH with 67722929280000000. lia.
  - unfold in_u32. lia.
Defined.

(** converting a valid broken-down time to its epoch offset with
    [qore_date_info::getEpochSeconds] and back with [qore_simple_tm::set]
    gives the same broken-down time, from the year -2 on. *)
Theorem tm_epoch_roundtrip t :
  -2 <= year t < 2000000000 -> valid_tm t -> 0 <= us t < 1000000 ->
  tm_set (getEpochSecondsTime (year t) (month t) (day t) (hour t) (minute t) (second t))
         (us t) = t.
Proof. exact (tm_set_complete t). Qed.

Lemma tm_epoch_roundtrip_witness :
  tm_set (getEpochSecondsTime 2100 12 31 23 59 59) 999999 = Tm 2100 12 31 23 59 59 999999.
Proof.
  apply (tm_epoch_roundtrip (Tm 2100 12 31 23 59 59 999999)); vm_compute; intuition discriminate.
Defined.

(** [qore_date_info::getEpochSeconds] of two valid dates orders them as
    the calendar does: it is strictly increasing in (year, month, day). *)
Theorem getEpochSeconds_order y m d y' m' d' :
  -2 <= y -> -2 <= y' -> valid_date y m d -> valid_date y' m' d' ->
  getEpochSeconds y m d < getEpochSeconds y' m' d' <->
  y < y' \/ y = y' /\ (m < m' \/ m = m' /\ d < d').
Proof.
  intros Hy Hy' V V'.
  rewrite !getEpochSeconds_spec by (apply V || apply V' || assumption).
  rewrite <- Z.mul_lt_mono_pos_r by (secs; lia).
  pose proof (civil_days_in_year _ _ _ V). pose proof (civil_days_in_year _ _ _ V').
  split.
  - intros Hlt. destruct (Z.lt_trichotomy y y') as [?|[<-|Hgt]]; [lia| |].
    + right. split; [reflexivity|].
      destruct (Z.lt_trichotomy m m') as [?|[<-|Hm]]; [lia| |].
      * right. unfold civil_days in Hlt. lia.
      * pose proof (civil_days_lt y m' d' m d V' V). lia.
    + pose proof (days_before_year_mono (y' + 1) y). lia.
  - intros [Hlt|[<- Hlt]]; [|apply civil_days_lt; assumption].
    pose proof (days_before_year_mono (y + 1) y'). lia.
Qed.

Lemma getEpochSeconds_order_witness :
  getEpochSeconds 1968 2 29 < getEpochSeconds 1968 3 1 <->
  1968 < 1968 \/ 1968 = 1968 /\ (2 < 3 \/ 2 = 3 /\ 29 < 1).
Proof.
  apply (getEpochSeconds_order 1968 2 29 1968 3 1); vm_compute; intuition discriminate.
Defined.

(** [qore_date_info::normalize_day] turns any day number, positive or
    not, counted from a month, into the valid date that many days away: the
    two loops end with a valid date and keep the day the date denotes. *)
Theorem normalize_day_correct y m d :
  1 <= m <= 12 ->
  let '(y', m', d') := normalize_day y m d in
  valid_date y' m' d' /\ civil_days y' m' d' = civil_days y m d.
Proof. exact (normalize_day_spec y m d). Qed.

Lemma normalize_day_correct_witness :
  let '(y', m', d') := normalize_day 2023 3 (-400) in
  valid_date y' m' d' /\ civil_days y' m' d' = civil_days 2023 3 (-400).
Proof. apply (normalize_day_correct 2023 3 (-400)). lia. Defined.

(** [qore_date_info::normalize_dm] brings a month number outside 1..12
    into range by whole years and clips the day to the last day of the
    resulting month, so the result is a valid date. *)
Theorem normalize_dm_correct y m d :
  in_i32 m -> m <> -2147483648 -> 1 <= d ->
  let '(y', m', d') := normalize_dm y m d in
  y' * 12 + m' = y * 12 + m /\ d' = Z.min d (month_days m' y') /\ valid_date y' m' d'.
Proof. exact (normalize_dm_spec y m d). Qed.

Lemma normalize_dm_correct_witness :
  normalize_dm 2023 14 31 = (2024, 2, 29) /\
  let '(y', m', d') := normalize_dm 2023 14 31 in
  y' * 12 + m' = 2023 * 12 + 14 /\ d' = Z.min 31 (month_days m' y') /\ valid_date y' m' d'.
Proof.
  split; [reflexivity|].
  apply (normalize_dm_correct 2023 14 31); [unfold in_i32| |]; lia.
Defined.

(** [qore_date_info::normalize_units] keeps the amount of time that the
    two units denote together and leaves them in the one normal form in which
    the smaller unit is below the ratio and both have the same sign: two
    equal amounts are normalised to the same pair. *)
Theorem normalize_units_canonical b s b' s' r :
  0 < r -> in_i32 r -> in_i32 s -> in_i32 s' ->
  normalize_units i32 i32 b s r = normalize_units i32 i32 b' s' r <->
  b * r + s = b' * r + s'.
Proof.
  intros Hr Hr32 Hs Hs'.
  pose proof (normalize_units_spec b s r Hr Hr32 Hs) as H1.
  pose proof (normalize_units_spec b' s' r Hr Hr32 Hs') as H2.
  destruct (normalize_units i32 i32 b s r) as [b1 s1].
  destruct (normalize_units i32 i32 b' s' r) as [b2 s2].
  split; [intros [= -> ->]; lia|]. intros E.
  assert (b1 = b2) as ->; [|f_equal; lia].
  destruct (Z.lt_trichotomy b1 b2) as [L|[|L]]; [exfalso|assumption|exfalso]; nia.
Qed.

Lemma normalize_units_canonical_witness :
  normalize_units i32 i32 2 (-70) 60 = normalize_units i32 i32 0 50 60 <->
  2 * 60 + -70 = 0 * 60 + 50.
Proof. apply (normalize_units_canonical 2 (-70) 0 50 60); unfold in_i32; lia. Defined.

(** [qore_simple_tm2::setLiteral] reads the decimal literal
    YYYYMMDDHHmmSS of a valid time back to that time. *)
Theorem tm_setLiteral_correct t :
  0 <= year t < 2147483648 -> valid_tm t -> 0 <= us t < 1000000 ->
  tm_setLiteral (literal t) (us t) = t.
Proof. exact (tm_setLiteral_spec t). Qed.

Lemma tm_setLiteral_correct_witness :
  tm_setLiteral 20240229235958 7 = Tm 2024 2 29 23 59 58 7.
Proof.
  apply (tm_setLiteral_correct (Tm 2024 2 29 23 59 58 7)); vm_compute; intuition discriminate.
Defined.
