(* ===== verification/IsoWeek.v ===== *)
(** * Days of the week and ISO-8601 calendar weeks

    [qore_simple_tm2::getISOWeek] (lib/qore_date_private.cpp) and
    [qore_date_private::getDateFromISOWeek]
    (include/qore/intern/qore_date_private.h). *)

From S2P Require Import Prelude DateInfo.

(** ** The day of the week, 0 for Sunday *)

Definition getDayOfWeek (year month day : Z) : Z :=
  let a := (14 - month) /c 12 in
  let y := year - a in
  let m := month + 12 * a - 2 in
  (day + y + y /c 4 - y /c 100 + y /c 400 + (31 * m /c 12)) %c 7.

(** ** ISO-8601 weeks: [qore_simple_tm2::getISOWeek] returns
    (yr, week, wday). *)

Definition long_iso_year (jan1 yr : Z) : bool :=
  ((jan1 =? 4) && negb (isLeapYear yr)) || ((jan1 =? 3) && isLeapYear yr).

Definition getISOWeek (t : qore_simple_tm) : Z * Z * Z :=
  let jan1 := getDayOfWeek (year t) 1 1 in
  let dn := getDayNumber (year t) (month t) (day t) in
  let dow := (dn + jan1 - 1) %c 7 in
  let wday := if dow =? 0 then 7 else dow in
  if ((jan1 =? 0) && (dn =? 1)) || ((jan1 =? 5) && (dn <? 4))
     || ((jan1 =? 6) && (dn <? 3)) then
    let yr := year t - 1 in
    let jan1 := getDayOfWeek yr 1 1 in
    (yr, if long_iso_year jan1 yr then 53 else 52, wday)
  else
    let yr := year t in
    let offset := if 4 <? jan1 then jan1 - 9 else jan1 - 2 in
    let week := ((dn + offset) /c 7) + 1 in
    if week =? 53 then
      if long_iso_year jan1 yr then (yr, week, wday) else (yr + 1, 1, wday)
    else (yr, week, wday).

Inductive iso_error := ISO_8601_INVALID_WEEK | ISO_8601_INVALID_DAY.

(** The epoch offset [getDateFromISOWeek] gives to [setLocalDate], or the
    exception it raises. *)
Definition getDateFromISOWeek (year week day : Z) : Z + iso_error :=
  if week <=? 0 then inr ISO_8601_INVALID_WEEK
  else
    let jan1 := getDayOfWeek year 1 1 in
    let mw := 52 + (if long_iso_year jan1 year then 1 else 0) in
    if (52 <? week) && (mw <? week) then inr ISO_8601_INVALID_WEEK
    else if (day <? 1) || (7 <? day) then inr ISO_8601_INVALID_DAY
    else
      let '(y, m, d) :=
        if jan1 =? 1 then (year, 1, 1)
        else if (1 <? jan1) && (jan1 <? 5) then (year - 1, 12, 33 - jan1)
        else (year, 1, if negb (jan1 =? 0) then 9 - jan1 else 2) in
      inl (getEpochSeconds y m d + ((week - 1) * 7 + (day - 1)) * 86400).

(** The ISO-8601 definition: the week belongs to the year that contains its
    Thursday, weeks are counted from 1, days from 1 = Monday. *)
Definition iso_thursday (days : Z) : Z := days - (days + 3) mod 7 + 3.

Definition iso_week_of (days yr week wday : Z) : Prop :=
  wday = (days + 3) mod 7 + 1 /\
  days_before_year yr <= iso_thursday days < days_before_year (yr + 1) /\
  week = (iso_thursday days - days_before_year yr) / 7 + 1.

(** The years that the test for a 53-week year overlooks: leap years that
    start on a Thursday (1976, 2004, 2032, ...). *)
Definition thursday_leap (y : Z) : bool :=
  leap_year y && ((days_before_year y + 4) mod 7 =? 4).

(** * Properties *)


Lemma getDayOfWeek_spec y m d :
  1 <= y -> 1 <= m <= 12 -> 1 <= d -> getDayOfWeek y m d = (civil_days y m d + 4) mod 7.
Proof.
  intros Hy Hm Hd. unfold getDayOfWeek.
  assert (0 <= (14 - m) /c 12 <= 1) by clia.
  rewrite !(quot_pos (y - _)) by lia.
  unfold civil_days, days_before_year. change (leaps 1969) with 477.
  pose proof (leaps_step y) as Hl. unfold leaps in *.
  assert (0 <= (y - 1) / 4 - (y - 1) / 100 /\ 0 <= y / 4 - y / 100) by clia.
  assert (0 <= (y - 1) / 400 /\ 0 <= y / 400) by clia.
  month_cases m; arefs;
    match goal with |- context [(14 - ?k) /c 12] =>
      let v := eval vm_compute in ((14 - k) /c 12) in change ((14 - k) /c 12) with v end;
    match goal with |- context [31 * ?k /c 12] =>
      let v := eval vm_compute in (31 * k /c 12) in change (31 * k /c 12) with v end;
    rewrite ?Z.sub_0_r; rewrite rem_pos by lia;
    destruct (leap_year y); simpl in *; clia.
Qed.

Lemma getDayNumber_spec y m d :
  1 <= m <= 12 -> getDayNumber y m d = civil_days y m d - days_before_year y + 1.
Proof.
  intros Hm. unfold getDayNumber, civil_days. rewrite isLeapYear_spec.
  destruct (Z.ltb_spec m 13); [lia|lia].
Qed.

(** 1 January of year [y] and its weekday. *)
Lemma getDayOfWeek_jan1 y :
  1 <= y -> getDayOfWeek y 1 1 = (days_before_year y + 4) mod 7.
Proof.
  intros. rewrite getDayOfWeek_spec by lia. unfold civil_days. arefs. simpl.
  f_equal. lia.
Qed.

(** The arithmetic of weeks, with the weekday [j] of 1 January and the day of
    the year [n]: [k] counts the Mondays passed. *)
Lemma week_split J j n :
  0 <= j < 7 -> (J + 4) mod 7 = j -> 1 <= n ->
  exists k w, 0 <= w < 7 /\ n = 7 * k + w + 2 - j /\ -1 <= k /\
  (J + n - 1 + 3) mod 7 = w /\
  (if (n + j - 1) mod 7 =? 0 then 7 else (n + j - 1) mod 7) = w + 1 /\
  iso_thursday (J + n - 1) = J + 7 * k + 4 - j.
Proof.
  intros Hj EJ Hn. exists ((n + j - 2) / 7), ((n + j - 2) mod 7).
  unfold iso_thursday.
  assert ((J + n - 1 + 3) mod 7 = (n + j - 2) mod 7) as -> by clia.
  destruct (Z.eqb_spec ((n + j - 1) mod 7) 0); clia.
Qed.

Lemma week_number x q r : x = 7 * q + r -> 0 <= r < 7 -> x / 7 = q.
Proof. clia. Qed.

Lemma getISOWeek_spec t :
  2 <= year t -> valid_date (year t) (month t) (day t) ->
  thursday_leap (year t) = false -> thursday_leap (year t - 1) = false ->
  let '(yr, week, wday) := getISOWeek t in
  iso_week_of (civil_days (year t) (month t) (day t)) yr week wday.
Proof.
  intros Hy V T1 T2. unfold getISOWeek, long_iso_year, thursday_leap in *.
  rewrite getDayNumber_spec by apply V. rewrite !getDayOfWeek_jan1 by lia.
  rewrite !isLeapYear_spec.
  pose proof (civil_days_in_year _ _ _ V) as Hb.
  pose proof (days_before_year_step (year t - 1)) as Hp.
  pose proof (days_before_year_step (year t)) as Hn.
  replace (year t - 1 + 1) with (year t) in Hp by lia.
  unfold iso_week_of.
  set (D := civil_days _ _ _) in *. set (J := days_before_year (year t)) in *.
  set (J' := days_before_year (year t - 1)) in *.
  assert (exists j, (J + 4) mod 7 = j /\ 0 <= j < 7) as (j & Ej & Hj)
    by (eexists; split; [reflexivity|]; apply Z.mod_pos_bound; lia).
  set (l' := leap_year (year t - 1)) in *.
  assert ((J' + 4) mod 7 = if l' then (j + 5) mod 7 else (j + 6) mod 7) as Ej'
    by (destruct l'; clia).
  rewrite Ej, Ej' in *. clear Ej'.
  destruct (week_split J j (D - J + 1) Hj Ej) as (k & w & Hw & En & Hk & Ew & Ewd & ET);
    [lia|].
  replace (J + (D - J + 1) - 1) with D in * by lia.
  assert (1 <= D - J + 1 <= days_before_year (year t + 1) - J) as Hn1 by lia.
  pose proof (days_before_year_mono (year t + 1) (year t + 1 + 1) ltac:(lia)) as Hnn.
  set (n := D - J + 1) in *. rewrite (rem_pos (n + j - 1)) by lia. cbv zeta.
  rewrite Ewd, Ew, ET.
  set (N := days_before_year (year t + 1)) in *.
  destruct ((j =? 0) && (n =? 1) || (j =? 5) && (n <? 4) || (j =? 6) && (n <? 3)) eqn:Eb.
  - replace (year t - 1 + 1) with (year t) by lia. fold J J'.
    clearbody n D J J'. split; [reflexivity|].
    assert (j = 0 /\ n = 1 \/ j = 5 /\ n < 4 \/ j = 6 /\ n < 3) as Hc
      by (zcases; simpl in Eb; try discriminate; lia).
    destruct Hc as [[-> ?]|[[-> ?]|[-> ?]]]; destruct l'; simpl in T2 |- *;
      try discriminate; clia.
  - assert (4 < j \/ n = 0 \/ 0 <= n + j - 2) as Hoff by lia.
    assert (exists q, (n + (if 4 <? j then j - 9 else j - 2)) /c 7 = q /\
                      q = k + (if 4 <? j then -1 else 0)) as (q & Eq & Hq).
    { eexists. split; [reflexivity|].
      assert (0 <= n + (if 4 <? j then j - 9 else j - 2))
        by (zcases; simpl in Eb; try discriminate; lia).
      rewrite quot_pos by lia. apply (week_number _ _ w); [|lia].
      destruct (4 <? j); lia. }
    rewrite Eq. set (l := leap_year (year t)) in *.
    assert (0 <= 7 * k + 4 - j) as Hk0
      by (zcases; simpl in Eb; try discriminate; lia).
    destruct (Z.eqb_spec (q + 1) 53).
    + destruct (Z.eqb_spec j 4), (Z.eqb_spec j 3), l; simpl in T1 |- *; try discriminate;
        (split; [reflexivity|]); fold J N; destruct (Z.ltb_spec 4 j); clia.
    + split; [reflexivity|]. fold J N. destruct (Z.ltb_spec 4 j), l; clia.
Qed.

Lemma getDateFromISOWeek_spec D yr week wday :
  1 <= yr -> thursday_leap yr = false -> iso_week_of D yr week wday ->
  getDateFromISOWeek yr week wday = inl (D * SECS_PER_DAY).
Proof.
  intros Hy HT (Ewd & [Hlo Hhi] & Ew). unfold getDateFromISOWeek, long_iso_year, thursday_leap in *.
  rewrite getDayOfWeek_jan1, isLeapYear_spec by lia.
  pose proof (days_before_year_step (yr - 1)) as Hp.
  pose proof (days_before_year_step yr) as Hn.
  replace (yr - 1 + 1) with yr in Hp by lia. rewrite Hn in Hhi.
  unfold iso_thursday in *.
  set (J := days_before_year yr) in *. set (J' := days_before_year (yr - 1)) in *.
  assert (exists a, D + 3 = 7 * a + (wday - 1) /\ 1 <= wday <= 7 /\ (D + 3) mod 7 = wday - 1)
    as (a & Ea & Hwd & Em) by (exists ((D + 3) / 7); clia).
  assert (exists p j, J = 7 * p + j - 4 /\ 0 <= j < 7 /\ (J + 4) mod 7 = j)
    as (p & j & EJ & Hj & Ej) by (exists ((J + 4) / 7), ((J + 4) mod 7); clia).
  rewrite Em in *. rewrite Ej in *. clear Em Ej Ewd.
  replace (D - (wday - 1) + 3 - J) with (7 * (a - p) + (4 - j)) in Ew by lia.
  assert (week = a - p + (if 4 <? j then 0 else 1)) as ->
    by (rewrite Ew; destruct (Z.ltb_spec 4 j);
        [rewrite (week_number _ (a - p - 1) (11 - j))|rewrite (week_number _ (a - p) (4 - j))]; lia).
  set (l := leap_year yr) in *.
  assert (exists y m d, (if j =? 1 then (yr, 1, 1)
      else if (1 <? j) && (j <? 5) then (yr - 1, 12, 33 - j)
      else (yr, 1, if negb (j =? 0) then 9 - j else 2)) = (y, m, d)
    /\ getEpochSeconds y m d
       = (J + 1 - j + (if 4 <? j then 7 else 0)) * SECS_PER_DAY) as (y & m & d & -> & ->).
  { destruct (Z.eqb_spec j 1); [|destruct (Z.ltb_spec 1 j), (Z.ltb_spec j 5)]; simpl;
      eexists _, _, _; (split; [reflexivity|]);
      [| |destruct (Z.eqb_spec j 0); simpl; [lia|]|destruct (Z.eqb_spec j 0); simpl; [|lia]|lia];
      rewrite getEpochSeconds_spec by lia; unfold civil_days; fold J; fold J'; arefs;
      cbn [Z.ltb Z.compare Pos.compare Pos.compare_cont andb];
      try (destruct (leap_year (yr - 1))); destruct (Z.ltb_spec 4 j); lia. }
  destruct (Z.leb_spec (a - p + (if 4 <? j then 0 else 1)) 0);
    [destruct (Z.ltb_spec 4 j); lia|].
  assert ((52 <? a - p + (if 4 <? j then 0 else 1))
     && (52 + (if (j =? 4) && negb l || (j =? 3) && l then 1 else 0)
         <? a - p + (if 4 <? j then 0 else 1)) = false) as ->.
  { destruct (Z.ltb_spec 4 j), (Z.eqb_spec j 4), (Z.eqb_spec j 3), l; simpl in *;
      try discriminate; try lia;
      repeat match goal with |- context [?u <? ?v] => destruct (Z.ltb_spec u v) end;
      try reflexivity; lia. }
  destruct (Z.ltb_spec wday 1); [lia|]. destruct (Z.ltb_spec 7 wday); [lia|].
  simpl. f_equal. secs. destruct (Z.ltb_spec 4 j); lia.
Qed.

(** ** The properties of the calendar weeks *)

(** [qore_date_info::getDayOfWeek] is the number of days since the epoch,
    a Thursday, modulo 7 with Sunday = 0. *)
Theorem getDayOfWeek_correct y m d :
  1 <= y -> 1 <= m <= 12 -> 1 <= d ->
  getDayOfWeek y m d = (civil_days y m d + 4) mod 7.
Proof. exact (getDayOfWeek_spec y m d). Qed.

Lemma getDayOfWeek_correct_witness :
  getDayOfWeek 2000 2 29 = (civil_days 2000 2 29 + 4) mod 7.
Proof. apply (getDayOfWeek_correct 2000 2 29); lia. Defined.

(** C40: outside the leap years that start on a Thursday,
    [qore_simple_tm2::getISOWeek] gives the ISO-8601 year, week and weekday of
    the date: the week is the one of its Thursday. *)
Theorem getISOWeek_correct t :
  2 <= year t -> valid_date (year t) (month t) (day t) ->
  thursday_leap (year t) = false -> thursday_leap (year t - 1) = false ->
  let '(yr, week, wday) := getISOWeek t in
  iso_week_of (civil_days (year t) (month t) (day t)) yr week wday.
Proof. exact (getISOWeek_spec t). Qed.

Lemma getISOWeek_correct_witness :
  getISOWeek (Tm 2021 1 3 0 0 0 0) = (2020, 53, 7) /\
  let '(yr, week, wday) := getISOWeek (Tm 2021 1 3 0 0 0 0) in
  iso_week_of (civil_days 2021 1 3) yr week wday.
Proof.
  split; [reflexivity|].
  apply (getISOWeek_correct (Tm 2021 1 3 0 0 0 0)); vm_compute; intuition discriminate.
Defined.

(** the date that [qore_date_private::getDateFromISOWeek] computes from
    the year, week and weekday that [getISOWeek] gives is the original date. *)
Theorem iso_week_roundtrip t :
  2 <= year t -> valid_date (year t) (month t) (day t) ->
  thursday_leap (year t) = false -> thursday_leap (year t - 1) = false ->
  thursday_leap (year t + 1) = false ->
  let '(yr, week, wday) := getISOWeek t in
  getDateFromISOWeek yr week wday = inl (getEpochSeconds (year t) (month t) (day t)).
Proof.
  intros Hy V H0 Hp Hn. pose proof (getISOWeek_spec t Hy V H0 Hp) as HS.
  rewrite getEpochSeconds_spec by (apply V || lia).
  destruct (getISOWeek t) as [[yr week] wday].
  pose proof HS as (_ & Hth & _). pose proof (civil_days_in_year _ _ _ V) as HV.
  unfold iso_thursday in Hth.
  assert (yr = year t - 1 \/ yr = year t \/ yr = year t + 1) as Hyr.
  { pose proof (days_before_year_mono (year t + 1) (year t + 2)).
    pose proof (days_before_year_mono (year t - 1) (year t)).
    set (D := civil_days _ _ _) in *.
    destruct (Z.lt_ge_cases yr (year t - 1)).
    { pose proof (days_before_year_mono (yr + 1) (year t - 1)). clia. }
    destruct (Z.lt_ge_cases (year t + 1) yr); [|lia].
    pose proof (days_before_year_mono (year t + 2) yr). clia. }
  apply getDateFromISOWeek_spec; [lia| |exact HS].
  destruct Hyr as [->|[->| ->]]; assumption.
Qed.

Lemma iso_week_roundtrip_witness :
  let '(yr, week, wday) := getISOWeek (Tm 2024 12 30 0 0 0 0) in
  (yr, week, wday) = (2025, 1, 1) /\
  getDateFromISOWeek yr week wday = inl (getEpochSeconds 2024 12 30).
Proof.
  split; [reflexivity|].
  apply (iso_week_roundtrip (Tm 2024 12 30 0 0 0 0)); vm_compute; intuition discriminate.
Defined.

(** A leap year that starts on a Thursday: 2004-12-31 is the Friday of the
    53rd week of 2004, the code says the first week of 2005. *)
Example getISOWeek_2004 :
  getISOWeek (Tm 2004 12 31 0 0 0 0) = (2005, 1, 5) /\
  iso_week_of (civil_days 2004 12 31) 2004 53 5.
Proof. vm_compute. repeat split; discriminate. Qed.

(** The last day of -4 and the first day of -3 get the same epoch offset. *)
Example getEpochSeconds_negative_year :
  getEpochSeconds (-4) 12 31 = getEpochSeconds (-3) 1 1.
Proof. reflexivity. Qed.
