(* ===== verification/ZoneInfo.v ===== *)
(** * Time zone descriptions

    The zone classes of include/qore/intern/QoreTimeZoneManager.h, the TZif
    reader [QoreZoneInfo::QoreZoneInfo] and the offset lookup
    [QoreZoneInfo::getUTCOffsetImpl] of lib/QoreTimeZoneManager.cpp. *)

From S2P Require Import Prelude.

(** ** Data *)

Record QoreTransitionInfo := TransitionInfo {
  ti_utcoff : Z; ti_abbr : string; ti_isdst : bool; ti_isstd : bool; ti_isutc : bool }.

Record QoreLeapInfo := LeapInfo { ttime : Z; total : Z }.

(** [trans] is a pointer into the transition-info vector: its index. *)
Record QoreDSTTransition := DSTTransition { time : Z; trans : Z }.

(** The members of [AbstractQoreZoneInfo]; [utcoff] is -1 when unknown. *)
Record AbstractQoreZoneInfo := ZoneBase { name : string; utcoff : Z; has_dst : bool }.

(** The members that [QoreZoneInfo] adds; [std_abbr] is [None] for a null
    pointer. *)
Record QoreZoneInfo := RegionInfo {
  first_pos : Z;
  std_abbr : option string;
  QoreDSTTransitions : list QoreDSTTransition;
  tti : list QoreTransitionInfo;
  leapinfo : list QoreLeapInfo }.

(** The two subclasses. *)
Inductive zone :=
| QoreOffsetZone (base : AbstractQoreZoneInfo)
| QoreRegionZone (base : AbstractQoreZoneInfo) (info : QoreZoneInfo).

Definition zone_base (z : zone) : AbstractQoreZoneInfo :=
  match z with QoreOffsetZone b => b | QoreRegionZone b _ => b end.

(** A C array access; [None] is an access out of bounds. *)
Definition at_index {A} (l : list A) (i : Z) : option A :=
  if i <? 0 then None else l !! Z.to_nat i.

(** [AbstractQoreZoneInfo(n_name, n_utcoff)]; [prefix] is the static
    [localtime_path_prefix]. *)
Definition zone_base_named (prefix n_name : string) (n_utcoff : Z) : AbstractQoreZoneInfo :=
  let nm :=
    if String.prefix prefix n_name
    then String.substring (String.length prefix)
                          (String.length n_name - String.length prefix) n_name
    else n_name in
  ZoneBase nm n_utcoff false.

(** [AbstractQoreZoneInfo(n_utcoff, n_name)]: the name is not stored. *)
Definition zone_base_offset (n_utcoff : Z) (n_name : string) : AbstractQoreZoneInfo :=
  ZoneBase "" n_utcoff false.

(** [QoreOffsetZoneInfo(n_name, seconds_east)] *)
Definition QoreOffsetZoneInfo (n_name : string) (seconds_east : Z) : zone :=
  QoreOffsetZone (zone_base_offset seconds_east n_name).

(** ** Offsets *)

(** [QoreZoneInfo::getUTCOffsetImpl]: (offset, is_dst, zone_name), or [None]
    when it reads outside of an array. *)
Definition transition_result (zi : QoreZoneInfo) (t : QoreDSTTransition)
    : option (Z * bool * option string) :=
  ti ← at_index (tti zi) (trans t);
  Some (ti_utcoff ti, ti_isdst ti, Some (ti_abbr ti)).

Definition unknown_result (base : AbstractQoreZoneInfo) (zi : QoreZoneInfo)
    : option (Z * bool * option string) :=
  Some (utcoff base, false, std_abbr zi).

(** The loop [while (i < end)]; [n] iterations are left. *)
Fixpoint search_up (base : AbstractQoreZoneInfo) (zi : QoreZoneInfo)
    (epoch_offset : Z) (n : nat) (i : Z) : option (Z * bool * option string) :=
  match n with
  | O => unknown_result base zi
  | S n =>
    t ← at_index (QoreDSTTransitions zi) i;
    if time t <=? epoch_offset then
      t1 ← at_index (QoreDSTTransitions zi) (i + 1);
      if epoch_offset <? time t1 then transition_result zi t
      else search_up base zi epoch_offset n (i + 1)
    else search_up base zi epoch_offset n (i + 1)
  end.

(** The loop [while (i > 0)]. *)
Fixpoint search_down (base : AbstractQoreZoneInfo) (zi : QoreZoneInfo)
    (epoch_offset : Z) (i : nat) : option (Z * bool * option string) :=
  match i with
  | O => unknown_result base zi
  | S i' =>
    t ← at_index (QoreDSTTransitions zi) (Z.of_nat i);
    if epoch_offset <? time t then
      t1 ← at_index (QoreDSTTransitions zi) (Z.of_nat i');
      if time t1 <=? epoch_offset then transition_result zi t
      else search_down base zi epoch_offset i'
    else search_down base zi epoch_offset i'
  end.

Definition region_getUTCOffsetImpl (base : AbstractQoreZoneInfo) (zi : QoreZoneInfo)
    (epoch_offset : Z) : option (Z * bool * option string) :=
  let down := search_down base zi epoch_offset (Z.to_nat (first_pos zi + 1)) in
  if 0 <? first_pos zi then
    t ← at_index (QoreDSTTransitions zi) (first_pos zi - 1);
    if time t <=? epoch_offset then
      let i := first_pos zi - 1 in
      let e := Z.of_nat (length (QoreDSTTransitions zi)) - 1 in
      search_up base zi epoch_offset (Z.to_nat (e - i)) i
    else down
  else down.

(** The virtual method. *)
Definition getUTCOffsetImpl (z : zone) (epoch_offset : Z) : option (Z * bool * option string) :=
  match z with
  | QoreOffsetZone b => Some (utcoff b, false, Some (name b))
  | QoreRegionZone b zi => region_getUTCOffsetImpl b zi epoch_offset
  end.

(** The static members: a null pointer stands for UTC. *)
Definition zone_getUTCOffset_std (z : option zone) : Z :=
  match z with
  | Some z => let u := utcoff (zone_base z) in if u =? -1 then 0 else u
  | None => 0
  end.

Definition zone_getUTCOffset_info (z : option zone) (epoch_offset : Z)
    : option (Z * bool * option string) :=
  match z with
  | Some z => getUTCOffsetImpl z epoch_offset
  | None => Some (0, false, Some "UTC"%string)
  end.

Definition zone_getUTCOffset (z : option zone) (epoch_offset : Z) : option Z :=
  match z with
  | Some z => r ← getUTCOffsetImpl z epoch_offset; Some (fst (fst r))
  | None => Some 0
  end.

Definition zone_hasDST (z : option zone) : bool :=
  match z with Some z => has_dst (zone_base z) | None => false end.

Definition STATIC_UTC : string := "UTC".

Definition zone_getRegionName (z : option zone) : string :=
  match z with Some z => name (zone_base z) | None => STATIC_UTC end.

(** ** The TZif reader

    A reader consumes the bytes of the file. [TZ_READ] is a failed read,
    [TZINFO_ERROR] the exception, [TZ_UNDEFINED] a read of uninitialised
    memory or an access outside of an array. *)

Inductive tz_error := TZ_READ | TZINFO_ERROR | TZ_UNDEFINED.

Definition tz_read (A : Type) := list ascii -> (A * list ascii) + tz_error.

Definition tz_ret {A} (x : A) : tz_read A := fun f => inl (x, f).
Definition tz_fail {A} (e : tz_error) : tz_read A := fun _ => inr e.
Definition tz_bind {A B} (m : tz_read A) (k : A -> tz_read B) : tz_read B :=
  fun f => match m f with inl (x, f) => k x f | inr e => inr e end.
Definition tz_option {A} (o : option A) : tz_read A :=
  match o with Some x => tz_ret x | None => tz_fail TZ_UNDEFINED end.

Declare Scope tz_scope.
Delimit Scope tz_scope with tz.
Notation "x '<--' m ;; k" := (tz_bind m (fun x => k))
  (at level 100, m at next level, right associativity) : tz_scope.
#[local] Open Scope tz_scope.

(** [QoreFile::readu1], [readu4], [readi4]: an end of file in the middle of
    a number leaves the rest of the buffer uninitialised. *)
Definition readu1 : tz_read Z :=
  fun f => match f with [] => inr TZ_READ | c :: f => inl (code c, f) end.

Definition readu4 : tz_read Z :=
  fun f => match f with
  | [] => inr TZ_READ
  | a :: b :: c :: d :: f =>
    inl (((code a * 256 + code b) * 256 + code c) * 256 + code d, f)
  | _ => inr TZ_UNDEFINED
  end.

Definition readi4 : tz_read Z := x <-- readu4 ;; tz_ret (i32 x).

(** [QoreFile::read(str, size, xsink)] *)
Definition read_str (size : Z) : tz_read (list ascii) :=
  fun f => if size =? 0 then inl ([], f)
           else match f with
                | [] => inr TZ_READ
                | _ => inl (firstn (Z.to_nat size) f, skipn (Z.to_nat size) f)
                end.

(** [for (unsigned i = 0; i < n; ++i)], collecting the results. *)
Fixpoint for_read {A} (n : nat) (i : Z) (body : Z -> tz_read A) : tz_read (list A) :=
  match n with
  | O => tz_ret []
  | S n => x <-- body i ;; xs <-- for_read n (i + 1) body ;; tz_ret (x :: xs)
  end.

(** The C string at offset [k] of a buffer; the terminator follows it. *)
Fixpoint c_string (l : list ascii) : string :=
  match l with
  | [] => ""
  | c :: l => if Ascii.eqb c NUL then "" else String c (c_string l)
  end.

Definition c_str_at (str : list ascii) (k : Z) : option string :=
  if Z.of_nat (length str) <? k then None
  else Some (c_string (skipn (Z.to_nat k) str)).

(** The first transition time that is not negative, or -1. *)
Fixpoint find_first_pos (i : Z) (times : list Z) : Z :=
  match times with
  | [] => -1
  | t :: times => if 0 <=? t then i else find_first_pos (i + 1) times
  end.

(** [QoreTransitionInfo] as the type array of the file has it: the offset,
    the DST flag and the abbreviation index. *)
Definition read_ttinfo (i : Z) : tz_read (Z * bool * Z) :=
  utcoff <-- readi4 ;; isdst <-- readu1 ;; ai <-- readu1 ;;
  tz_ret (utcoff, negb (isdst =? 0), ai).

(** The loop that sets the transition pointers and removes invalid bands:
    [prev] is the transition before [di]. A removed entry before [first_pos]
    moves it, for the index [i] of the file. *)
Fixpoint set_transitions (tts : list (Z * bool * Z)) (i : Z)
    (prev : option Z) (rest : list (Z * Z)) (fp : Z)
    : option (list QoreDSTTransition * Z) :=
  match rest with
  | [] => Some ([], fp)
  | (t, ty) :: rest =>
    ti ← at_index tts ty;
    let off := fst (fst ti) in
    if bool_decide (prev = Some off) then
      set_transitions tts (i + 1) prev rest (if i <? fp then fp - 1 else fp)
    else
      r ← set_transitions tts (i + 1) (Some off) rest fp;
      Some (DSTTransition t ty :: fst r, snd r)
  end.

(** [tti[i].abbr] *)
Fixpoint set_abbrs (str : list ascii) (tts : list (Z * bool * Z)) : option (list (Z * bool * string)) :=
  match tts with
  | [] => Some []
  | (off, dst, ai) :: tts =>
    a ← c_str_at str ai; r ← set_abbrs str tts; Some ((off, dst, a) :: r)
  end.

Fixpoint find_std_abbr (tts : list (Z * bool * string)) : option string :=
  match tts with
  | [] => None
  | (_, dst, a) :: tts => if negb dst then Some a else find_std_abbr tts
  end.

(** An indicator array: one byte for each entry; [n] is the number of
    entries of the transition-info vector. *)
Definition read_indicators (cnt n : Z) : tz_read (list bool) :=
  l <-- for_read (Z.to_nat cnt) 0 (fun i =>
    c <-- readu1 ;;
    if i <? n then tz_ret (negb (c =? 0)) else tz_fail TZ_UNDEFINED) ;;
  tz_ret (l ++ repeat false (Z.to_nat (n - cnt))).

Fixpoint set_indicators (tts : list (Z * bool * string)) (std utc : list bool)
    : list QoreTransitionInfo :=
  match tts, std, utc with
  | (off, dst, a) :: tts, s :: std, u :: utc =>
    TransitionInfo off a dst s u :: set_indicators tts std utc
  | _, _, _ => []
  end.

(** The default offset: the last entry that is not DST and known. *)
Fixpoint find_utcoff (rtti : list QoreTransitionInfo) : Z :=
  match rtti with
  | [] => -1
  | t :: rtti =>
    if negb (ti_isdst t) && negb (ti_utcoff t =? -1) then ti_utcoff t
    else find_utcoff rtti
  end.

Definition MAGIC : list ascii := ["T"; "Z"; "i"; "f"]%char.

(** The body of the constructor after the file is opened. *)
Definition read_header : tz_read (Z * Z * Z * Z * Z * Z) :=
  utccnt <-- readu4 ;; stdcnt <-- readu4 ;; leapcnt <-- readu4 ;;
  timecnt <-- readu4 ;; typecnt <-- readu4 ;; charcnt <-- readu4 ;;
  if typecnt <? utccnt then tz_fail TZINFO_ERROR
  else tz_ret (utccnt, stdcnt, leapcnt, timecnt, typecnt, charcnt).

Definition read_body (base : AbstractQoreZoneInfo) : tz_read zone :=
  hdr <-- read_header ;;
  let '(utccnt, stdcnt, leapcnt, timecnt, typecnt, charcnt) := hdr in
  times <-- for_read (Z.to_nat timecnt) 0 (fun _ => readi4) ;;
  let fp := find_first_pos 0 times in
  trans_type <-- for_read (Z.to_nat timecnt) 0 (fun _ =>
    ty <-- readu1 ;;
    if typecnt <=? ty then tz_fail TZINFO_ERROR else tz_ret ty) ;;
  tts <-- for_read (Z.to_nat typecnt) 0 read_ttinfo ;;
  tr <-- tz_option (set_transitions tts 0 None (zip times trans_type) fp) ;;
  str <-- read_str charcnt ;;
  tta <-- tz_option (set_abbrs str tts) ;;
  leaps <-- for_read (Z.to_nat leapcnt) 0 (fun _ =>
    a <-- readi4 ;; b <-- readi4 ;; tz_ret (LeapInfo a b)) ;;
  std <-- read_indicators stdcnt typecnt ;;
  utc <-- read_indicators utccnt typecnt ;;
  let tti := set_indicators tta std utc in
  tz_ret (QoreRegionZone
    (ZoneBase (name base) (find_utcoff (rev tti)) (existsb (fun t => snd (fst t)) tts))
    (RegionInfo (snd tr) (find_std_abbr tta) (fst tr) tti leaps)).

(** The constructor [QoreZoneInfo(root, n_name, xsink)] on the bytes of the
    file: the magic, 16 reserved bytes that are skipped, the version-1 data
    block. *)
Definition QoreZoneInfo_read (base : AbstractQoreZoneInfo) (file : list ascii) : zone + tz_error :=
  match read_str 4 file with
  | inr e => inr e
  | inl (str, _) =>
    if negb (bool_decide (c_string str = "TZif"%string)) then inr TZINFO_ERROR
    else match read_body base (skipn 20 file) with
         | inl (z, _) => inl z
         | inr e => inr e
         end
  end.

(** ** Reference definitions *)

(** The UTC offset in force at [e] for a list of (time, offset) in the order
    of the times: the one of the last transition that is not after [e]. *)
Fixpoint in_force (e : Z) (cur : option Z) (l : list (Z * Z)) : option Z :=
  match l with
  | [] => cur
  | (t, off) :: l => in_force e (if t <=? e then Some off else cur) l
  end.

Fixpoint adjacent_distinct (prev : option Z) (l : list Z) : Prop :=
  match l with
  | [] => True
  | x :: l => prev <> Some x /\ adjacent_distinct (Some x) l
  end.

(** Transition times increase strictly. *)
Fixpoint times_increase (l : list Z) : Prop :=
  match l with
  | [] => True
  | x :: l => Forall (fun y => x < y) l /\ times_increase l
  end.

Definition type_offset (tts : list (Z * bool * Z)) (ty : Z) : Z :=
  match at_index tts ty with Some ti => fst (fst ti) | None => 0 end.

(** The version-1 data block of a TZif file (RFC 8536). *)
Record tz_data := TzData {
  d_transitions : list (Z * Z);
  d_types : list (Z * bool * Z);
  d_chars : list ascii;
  d_leaps : list QoreLeapInfo;
  d_std : list bool;
  d_utc : list bool }.

Definition byte_of (z : Z) : ascii := ascii_of_nat (Z.to_nat (z mod 256)).
Definition be4 (z : Z) : list ascii :=
  [byte_of (z / 16777216); byte_of (z / 65536); byte_of (z / 256); byte_of z].
Definition bool_byte (b : bool) : ascii := byte_of (if b then 1 else 0).

Definition zlen {A} (l : list A) : Z := Z.of_nat (length l).

Definition encode_type (t : Z * bool * Z) : list ascii :=
  be4 (fst (fst t)) ++ [bool_byte (snd (fst t)); byte_of (snd t)].
Definition encode_leap (l : QoreLeapInfo) : list ascii := be4 (ttime l) ++ be4 (total l).

Definition tz_encode_body (d : tz_data) : list ascii :=
  be4 (zlen (d_utc d)) ++ be4 (zlen (d_std d)) ++ be4 (zlen (d_leaps d))
  ++ be4 (zlen (d_transitions d)) ++ be4 (zlen (d_types d)) ++ be4 (zlen (d_chars d))
  ++ flat_map (fun t => be4 (fst t)) (d_transitions d)
  ++ flat_map (fun t => [byte_of (snd t)]) (d_transitions d)
  ++ flat_map encode_type (d_types d)
  ++ d_chars d
  ++ flat_map encode_leap (d_leaps d)
  ++ flat_map (fun b => [bool_byte b]) (d_std d)
  ++ flat_map (fun b => [bool_byte b]) (d_utc d).

Definition tz_encode (reserved : list ascii) (d : tz_data) : list ascii :=
  MAGIC ++ reserved ++ tz_encode_body d.

Definition tz_valid (d : tz_data) : Prop :=
  Forall (fun t => in_i32 (fst t) /\ 0 <= snd t < zlen (d_types d)) (d_transitions d)
  /\ Forall (fun t => in_i32 (fst (fst t)) /\ 0 <= snd t <= zlen (d_chars d)) (d_types d)
  /\ Forall (fun l => in_i32 (ttime l) /\ in_i32 (total l)) (d_leaps d)
  /\ zlen (d_types d) <= 256 /\ zlen (d_chars d) <= 255
  /\ zlen (d_transitions d) < 2147483648 /\ zlen (d_leaps d) < 2147483648
  /\ zlen (d_std d) <= zlen (d_types d) /\ zlen (d_utc d) <= zlen (d_types d).

(** What the constructor makes of the data. *)
Definition abbr_of (d : tz_data) (t : Z * bool * Z) : Z * bool * string :=
  (fst t, c_string (skipn (Z.to_nat (snd t)) (d_chars d))).
Definition flags_of (l : list bool) (n : Z) : list bool :=
  l ++ repeat false (Z.to_nat (n - zlen l)).

Definition zone_of (base : AbstractQoreZoneInfo) (d : tz_data)
    (tr : list QoreDSTTransition) (fp : Z) : zone :=
  let tta := map (abbr_of d) (d_types d) in
  let n := zlen (d_types d) in
  let tti := set_indicators tta (flags_of (d_std d) n) (flags_of (d_utc d) n) in
  QoreRegionZone
    (ZoneBase (name base) (find_utcoff (rev tti)) (existsb (fun t => snd (fst t)) (d_types d)))
    (RegionInfo fp (find_std_abbr tta) tr tti (d_leaps d)).

(** * Properties *)

Lemma at_index_Some {A} (l : list A) i x :
  at_index l i = Some x <-> 0 <= i /\ l !! Z.to_nat i = Some x.
Proof.
  unfold at_index. destruct (Z.ltb_spec i 0); [|intuition].
  split; [discriminate|lia].
Qed.

Lemma at_index_lt {A} (l : list A) i x : at_index l i = Some x -> 0 <= i < zlen l.
Proof. rewrite at_index_Some. intros [H E]. apply lookup_lt_Some in E. unfold zlen. lia. Qed.

Lemma at_index_is_Some {A} (l : list A) i : 0 <= i < zlen l -> exists x, at_index l i = Some x.
Proof.
  intros H. unfold at_index, zlen in *. destruct (Z.ltb_spec i 0); [lia|].
  destruct (lookup_lt_is_Some_2 l (Z.to_nat i)) as [x Hx]; [lia|eauto].
Qed.

Lemma times_increase_lt l i j x y :
  times_increase (map time l) -> at_index l i = Some x -> at_index l j = Some y ->
  i < j -> time x < time y.
Proof.
  rewrite !at_index_Some. intros Hs [Hi Ei] [Hj Ej] Hlt.
  assert (Z.to_nat i < Z.to_nat j)%nat as Hn by lia. clear Hi Hj Hlt.
  revert Hs Ei Ej Hn. generalize (Z.to_nat i) as n, (Z.to_nat j) as m. clear i j.
  induction l as [|z l IH]; intros n m Hs En Em Hnm; [discriminate|].
  destruct Hs as [Hz Hs].
  destruct m as [|m]; [lia|]. destruct n as [|n]; simpl in *.
  - injection En as ->. rewrite Forall_forall in Hz. apply Hz.
    apply list_elem_of_fmap_2 with (f := time). apply list_elem_of_lookup. eauto.
  - apply (IH n m); auto; lia.
Qed.



(** The downward search returns the transition after the band. *)
Lemma search_down_spec base zi e i k t t1 :
  times_increase (map time (QoreDSTTransitions zi)) ->
  at_index (QoreDSTTransitions zi) k = Some t ->
  at_index (QoreDSTTransitions zi) (k + 1) = Some t1 ->
  time t <= e < time t1 -> k + 1 <= Z.of_nat i < zlen (QoreDSTTransitions zi) ->
  search_down base zi e i = transition_result zi t1.
Proof.
  intros Hs Hk Hk1 He. pose proof (at_index_lt _ _ _ Hk).
  induction i as [|i IH]; intros Hi; [lia|]. cbn [search_down].
  destruct (at_index_is_Some (QoreDSTTransitions zi) (Z.of_nat (S i))) as [x Hx]; [lia|].
  destruct (at_index_is_Some (QoreDSTTransitions zi) (Z.of_nat i)) as [y Hy]; [lia|].
  rewrite Hx, Hy. simpl. destruct (Z.eq_dec (k + 1) (Z.of_nat (S i))) as [E|Hne].
  - rewrite <- E, Hk1 in Hx. injection Hx as <-.
    replace (Z.of_nat i) with k in Hy by lia. rewrite Hk in Hy. injection Hy as <-.
    destruct (Z.ltb_spec e (time t1)); [|lia]. destruct (Z.leb_spec (time t) e); [|lia].
    reflexivity.
  - pose proof (times_increase_lt _ (k + 1) (Z.of_nat (S i)) t1 x Hs Hk1 Hx ltac:(lia)).
    assert (time t1 <= time y) as Hty.
    { destruct (Z.eq_dec (k + 1) (Z.of_nat i)) as [E|E].
      - rewrite <- E, Hk1 in Hy. injection Hy as <-. lia.
      - pose proof (times_increase_lt _ (k + 1) (Z.of_nat i) t1 y Hs Hk1 Hy ltac:(lia)). lia. }
    destruct (Z.ltb_spec e (time x)); [|lia]. destruct (Z.leb_spec (time y) e); [lia|].
    apply IH. lia.
Qed.

(** ** Band removal *)

Lemma in_force_after e cur l :
  Forall (fun t => e < fst t) l -> in_force e cur l = cur.
Proof.
  revert cur. induction l as [|[t o] l IH]; intros cur H; [reflexivity|].
  inversion_clear H as [|? ? Ht Hl]. simpl in *. destruct (Z.leb_spec t e); [lia|auto].
Qed.

(** Every kept entry is an entry of the file, so the kept times increase. *)
Lemma set_transitions_sub tts i prev rest fp tr fp' :
  set_transitions tts i prev rest fp = Some (tr, fp') ->
  map (fun t => (time t, trans t)) tr `sublist_of` rest.
Proof.
  revert i prev fp tr fp'. induction rest as [|[t ty] rest IH];
    intros i prev fp tr fp' E; simpl in E; [injection E as <- <-; constructor|].
  destruct (at_index tts ty) as [ti|]; [|discriminate]. simpl in E.
  case_bool_decide.
  - constructor. eapply IH. exact E.
  - destruct (set_transitions _ _ _ _ _) as [[tr1 fp1]|] eqn:Er; [|discriminate].
    simpl in E. injection E as <- <-. simpl. constructor. eapply IH. exact Er.
Qed.

Lemma set_transitions_distinct tts i prev rest fp tr fp' :
  set_transitions tts i prev rest fp = Some (tr, fp') ->
  adjacent_distinct prev (map (fun t => type_offset tts (trans t)) tr).
Proof.
  revert i prev fp tr fp'. induction rest as [|[t ty] rest IH];
    intros i prev fp tr fp' E; simpl in E; [injection E as <- <-; exact I|].
  destruct (at_index tts ty) as [ti|] eqn:Eti; [|discriminate]. simpl in E.
  case_bool_decide as Hp; [eapply IH; exact E|].
  destruct (set_transitions _ _ _ _ _) as [[tr1 fp1]|] eqn:Er; [|discriminate].
  simpl in E. injection E as <- <-. cbn [map fst trans adjacent_distinct].
  unfold type_offset at 1 2. rewrite Eti. split; [exact Hp|]. eapply IH. exact Er.
Qed.

(** Removing an entry with the offset of its predecessor changes no offset in
    force. *)
Lemma set_transitions_in_force tts i prev rest fp tr fp' e :
  set_transitions tts i prev rest fp = Some (tr, fp') ->
  times_increase (map fst rest) ->
  forall cur, (Exists (fun t => fst t <= e) rest -> cur = prev) ->
  in_force e cur (map (fun t => (time t, type_offset tts (trans t))) tr)
  = in_force e cur (map (fun t => (fst t, type_offset tts (snd t))) rest).
Proof.
  revert i prev fp tr fp'. induction rest as [|[t ty] rest IH];
    intros i prev fp tr fp' E Hinc cur Hcur; simpl in E;
    [injection E as <- <-; reflexivity|]. destruct Hinc as [Hlt Hinc].
  destruct (at_index tts ty) as [ti|] eqn:Eti; [|discriminate]. simpl in E.
  assert (type_offset tts ty = fst (fst ti)) as Eoff
    by (unfold type_offset; rewrite Eti; reflexivity).
  cbn [map fst snd in_force]. rewrite Eoff. case_bool_decide as Hp.
  - destruct (Z.leb_spec t e).
    + rewrite <- Hp, (Hcur ltac:(left; simpl; lia)). apply (IH _ _ _ _ _ E Hinc). auto.
    + apply (IH _ _ _ _ _ E Hinc). intros Hex. apply Hcur. right. exact Hex.
  - destruct (set_transitions _ _ _ _ _) as [[tr1 fp1]|] eqn:Er; [|discriminate].
    simpl in E. injection E as <- <-. cbn [map fst snd in_force time trans]. rewrite Eoff.
    apply (IH _ _ _ _ _ Er Hinc). intros Hex.
    destruct (Z.leb_spec t e); [reflexivity|]. exfalso.
    rewrite Exists_exists in Hex. destruct Hex as (x & Hx & Hxe).
    rewrite Forall_forall in Hlt. 
    
    assert (t < fst x) by (apply Hlt, list_elem_of_fmap_2, Hx). lia.
Qed.

(** ** The reader *)

Lemma code_byte_of z : code (byte_of z) = z mod 256.
Proof.
  unfold code, byte_of. pose proof (Z.mod_pos_bound z 256 ltac:(lia)).
  rewrite nat_ascii_embedding by lia. lia.
Qed.

Lemma readu4_be4 z f : 0 <= z < 4294967296 -> readu4 (be4 z ++ f) = inl (z, f).
Proof. intros H. simpl. rewrite !code_byte_of. do 2 f_equal. clia. Qed.

Lemma readi4_be4 z f : in_i32 z -> readi4 (be4 z ++ f) = inl (z, f).
Proof.
  unfold readi4, tz_bind, in_i32. intros H. simpl. rewrite !code_byte_of.
  unfold tz_ret. do 2 f_equal. unfold i32, wrap_signed.
  change (2 ^ (32 - 1)) with 2147483648. change (2 ^ 32) with 4294967296. clia.
Qed.

Lemma readu1_byte z f : 0 <= z < 256 -> readu1 (byte_of z :: f) = inl (z, f).
Proof. intros H. simpl. rewrite code_byte_of, Z.mod_small by lia. reflexivity. Qed.

Lemma readu1_bool b f : readu1 (bool_byte b :: f) = inl (if b then 1 else 0, f).
Proof. apply readu1_byte. destruct b; lia. Qed.

(** A loop that reads what [enc] writes reads back the list. *)
Lemma for_read_enc {A B} (enc : A -> list ascii) (g : A -> B) (P : A -> Prop)
    (body : Z -> tz_read B) (l : list A) i f :
  (forall j x f, P x -> i <= j < i + zlen l -> body j (enc x ++ f) = inl (g x, f)) ->
  Forall P l ->
  for_read (length l) i body (flat_map enc l ++ f) = inl (map g l, f).
Proof.
  unfold zlen. revert i. induction l as [|x l IH]; intros i Hb HP; [reflexivity|].
  inversion_clear HP as [|? ? Hx Hl]. simpl in *. rewrite <- app_assoc.
  unfold tz_bind at 1. rewrite Hb by (assumption || lia).
  unfold tz_bind. rewrite IH; [reflexivity| |assumption].
  intros j y f' Hy Hj. apply Hb; [assumption|lia].
Qed.

Lemma read_str_app l f : read_str (zlen l) (l ++ f) = inl (l, f).
Proof.
  unfold read_str, zlen. destruct (Z.eqb_spec (Z.of_nat (length l)) 0) as [E|E].
  - destruct l; [reflexivity|discriminate].
  - rewrite Nat2Z.id. destruct (l ++ f) eqn:El; [destruct l; [destruct E; reflexivity|discriminate]|].
    rewrite <- El, firstn_app, firstn_all, Nat.sub_diag, skipn_app, skipn_all, Nat.sub_diag.
    simpl. rewrite app_nil_r. reflexivity.
Qed.

Lemma read_indicators_enc l n f :
  zlen l <= n ->
  read_indicators (zlen l) n (flat_map (fun b => [bool_byte b]) l ++ f)
  = inl (flags_of l n, f).
Proof.
  intros Hn. unfold read_indicators, tz_bind at 1. unfold zlen at 1. rewrite Nat2Z.id.
  rewrite (for_read_enc _ id (fun _ => True)).
  - rewrite map_id. reflexivity.
  - intros j b f' _ Hj. change (([bool_byte b] ++ f')) with (bool_byte b :: f').
    unfold tz_bind. rewrite readu1_bool.
    destruct (Z.ltb_spec j n); [|lia]. destruct b; reflexivity.
  - apply Forall_true. auto.
Qed.

Lemma set_abbrs_enc d tts :
  Forall (fun t => 0 <= snd t <= zlen (d_chars d)) tts ->
  set_abbrs (d_chars d) tts = Some (map (abbr_of d) tts).
Proof.
  induction 1 as [|[[off dst] ai] tts Ha _ IH]; [reflexivity|]. simpl in *.
  unfold c_str_at. unfold zlen in Ha.
  destruct (Z.ltb_spec (Z.of_nat (length (d_chars d))) ai); [lia|].
  simpl. rewrite IH. reflexivity.
Qed.

Lemma read_header_enc d f :
  tz_valid d ->
  read_header (be4 (zlen (d_utc d)) ++ be4 (zlen (d_std d)) ++ be4 (zlen (d_leaps d))
    ++ be4 (zlen (d_transitions d)) ++ be4 (zlen (d_types d)) ++ be4 (zlen (d_chars d)) ++ f)
  = inl ((zlen (d_utc d), zlen (d_std d), zlen (d_leaps d), zlen (d_transitions d),
          zlen (d_types d), zlen (d_chars d)), f).
Proof.
  intros (_ & _ & _ & H1 & H2 & H3 & H4 & H5 & H6). unfold read_header.
  assert (forall A (l : list A), 0 <= zlen l) as Hz by (intros; unfold zlen; lia).
  unfold tz_bind.
  do 6 (rewrite readu4_be4 by (split; [apply Hz|lia])).
  destruct (Z.ltb_spec (zlen (d_types d)) (zlen (d_utc d))); [lia|reflexivity].
Qed.

Lemma zip_fst_snd {A B} (l : list (A * B)) : zip (map fst l) (map snd l) = l.
Proof. induction l as [|[a b] l IH]; simpl; [|rewrite IH]; reflexivity. Qed.

Lemma set_transitions_total tts i prev rest fp :
  Forall (fun t => 0 <= snd t < zlen tts) rest ->
  exists r, set_transitions tts i prev rest fp = Some r.
Proof.
  revert i prev fp. induction rest as [|[t ty] rest IH]; intros i prev fp H;
    [eexists; reflexivity|].
  inversion_clear H as [|? ? Ht Hr]. simpl in *.
  destruct (at_index_is_Some tts ty Ht) as [ti ->]. simpl.
  case_bool_decide; [apply IH; assumption|].
  destruct (IH (i + 1) (Some (fst (fst ti))) fp Hr) as [r ->]. eexists. reflexivity.
Qed.

Lemma read_body_enc base d rest tr fp :
  tz_valid d ->
  set_transitions (d_types d) 0 None (d_transitions d)
    (find_first_pos 0 (map fst (d_transitions d))) = Some (tr, fp) ->
  read_body base (tz_encode_body d ++ rest) = inl (zone_of base d tr fp, rest).
Proof.
  intros HV ET. pose proof HV as (Ht & Hty & Hl & H1 & H2 & H3 & H4 & H5 & H6).
  unfold tz_encode_body, read_body. rewrite <- !app_assoc.
  unfold tz_bind at 1. rewrite read_header_enc by assumption. unfold tz_bind.
  replace (Z.to_nat (zlen (d_transitions d))) with (length (d_transitions d)) by (unfold zlen; lia).
  rewrite (for_read_enc (fun t => be4 (fst t)) fst (fun t => in_i32 (fst t)));
    [|intros; apply readi4_be4; assumption|eapply Forall_impl; [exact Ht|simpl; tauto]].
  rewrite (for_read_enc (fun t => [byte_of (snd t)]) snd (fun t => 0 <= snd t < zlen (d_types d)));
    [| |eapply Forall_impl; [exact Ht|simpl; tauto]].
  2:{ intros j x f Hx _. change ([byte_of (snd x)] ++ f) with (byte_of (snd x) :: f).
      rewrite readu1_byte by lia. destruct (Z.leb_spec (zlen (d_types d)) (snd x)); [lia|reflexivity]. }
  replace (Z.to_nat (zlen (d_types d))) with (length (d_types d)) by (unfold zlen; lia).
  rewrite (for_read_enc encode_type id
             (fun t => in_i32 (fst (fst t)) /\ 0 <= snd t <= zlen (d_chars d))); [| |exact Hty].
  2:{ intros j [[off dst] ai] f [Hx Ha] _. unfold encode_type, read_ttinfo, tz_bind.
      cbn [fst snd] in *. rewrite <- app_assoc, readi4_be4 by assumption.
      change ([bool_byte dst; byte_of ai] ++ f) with (bool_byte dst :: byte_of ai :: f).
      rewrite readu1_bool, readu1_byte by lia. destruct dst; reflexivity. }
  rewrite map_id, zip_fst_snd, ET. cbn [tz_option].
  unfold tz_ret at 1. rewrite read_str_app, set_abbrs_enc
    by (eapply Forall_impl; [exact Hty|simpl; tauto]).
  cbn [tz_option]. unfold tz_ret at 1.
  replace (Z.to_nat (zlen (d_leaps d))) with (length (d_leaps d)) by (unfold zlen; lia).
  rewrite (for_read_enc encode_leap id (fun l => in_i32 (ttime l) /\ in_i32 (total l)));
    [| |exact Hl].
  2:{ intros j [a b] f [Ha Hb] _. unfold encode_leap. cbn [ttime total] in *.
      rewrite <- app_assoc. rewrite readi4_be4 by assumption.
      rewrite readi4_be4 by assumption. reflexivity. }
  rewrite map_id, read_indicators_enc, read_indicators_enc by assumption. reflexivity.
Qed.

(** ** The properties of time zones *)

Section Lookup.
Context (base : AbstractQoreZoneInfo) (zi : QoreZoneInfo) (e : Z) (p : QoreDSTTransition).
Hypothesis Hinc : times_increase (map time (QoreDSTTransitions zi)).
Hypothesis Hfp : 0 < first_pos zi.
Hypothesis Hp : at_index (QoreDSTTransitions zi) (first_pos zi - 1) = Some p.


(** before the last transition that precedes 1970, the lookup takes the
    other loop, which gives the offset of the transition [t1] that comes
    next, not of the one in force. *)
Theorem getUTCOffset_before k t t1 :
  e < time p -> first_pos zi + 1 < zlen (QoreDSTTransitions zi) ->
  at_index (QoreDSTTransitions zi) k = Some t ->
  at_index (QoreDSTTransitions zi) (k + 1) = Some t1 ->
  time t <= e < time t1 ->
  region_getUTCOffsetImpl base zi e = transition_result zi t1.
Proof.
  intros Hpe Hlen Hk Hk1 He. unfold region_getUTCOffsetImpl.
  destruct (Z.ltb_spec 0 (first_pos zi)); [|lia].
  rewrite Hp. simpl. destruct (Z.leb_spec (time p) e); [lia|].
  assert (k < first_pos zi - 1).
  { destruct (Z.lt_ge_cases k (first_pos zi - 1)); [assumption|exfalso].
    destruct (Z.eq_dec k (first_pos zi - 1)) as [E|E].
    - rewrite E, Hp in Hk. injection Hk as <-. lia.
    - pose proof (times_increase_lt _ _ _ p t Hinc Hp Hk). lia. }
  apply (search_down_spec base zi e _ k t t1); try assumption; lia.
Qed.
End Lookup.

(** A zone with three types and four transitions, the last two after 1970. *)
Definition sample_zone : QoreZoneInfo :=
  RegionInfo 2 (Some "STD")
    [DSTTransition (-300) 0; DSTTransition (-100) 1; DSTTransition 100 0;
     DSTTransition 300 2]
    [TransitionInfo 3600 "STD" false false false; TransitionInfo 7200 "DST" true false false;
     TransitionInfo 10800 "NEW" false false false] [].
Definition sample_base : AbstractQoreZoneInfo := ZoneBase "Sample/Zone" 3600 true.


Lemma getUTCOffset_before_witness :
  region_getUTCOffsetImpl sample_base sample_zone (-200) = Some (7200, true, Some "DST"%string).
Proof.
  apply (getUTCOffset_before sample_base sample_zone (-200) (DSTTransition (-100) 1)) with
    (k := 0) (t := DSTTransition (-300) 0) (t1 := DSTTransition (-100) 1);
    vm_compute; repeat first [constructor | discriminate].
Defined.

(** the loop of [QoreZoneInfo::QoreZoneInfo] that removes invalid bands
    keeps entries of the file in their order, leaves no two neighbours with
    the same offset, and changes the offset in force at no time. *)
Theorem set_transitions_correct tts rest fp tr fp' e :
  set_transitions tts 0 None rest fp = Some (tr, fp') ->
  times_increase (map fst rest) ->
  map (fun t => (time t, trans t)) tr `sublist_of` rest /\
  adjacent_distinct None (map (fun t => type_offset tts (trans t)) tr) /\
  in_force e None (map (fun t => (time t, type_offset tts (trans t))) tr)
  = in_force e None (map (fun t => (fst t, type_offset tts (snd t))) rest).
Proof.
  intros E Hinc. split; [eapply set_transitions_sub; exact E|].
  split; [eapply set_transitions_distinct; exact E|].
  eapply set_transitions_in_force; [exact E|exact Hinc|auto].
Qed.

Lemma set_transitions_correct_witness :
  set_transitions [(0, false, 0); (60, true, 0)] 0 None [(1, 0); (2, 1); (3, 1); (4, 0)] 0
  = Some ([DSTTransition 1 0; DSTTransition 2 1; DSTTransition 4 0], 0) /\
  in_force 3 None [(1, 0); (2, 60); (4, 0)] = in_force 3 None [(1, 0); (2, 60); (3, 60); (4, 0)].
Proof.
  split; [reflexivity|].
  apply (set_transitions_correct [(0, false, 0); (60, true, 0)] [(1, 0); (2, 1); (3, 1); (4, 0)] 0
           [DSTTransition 1 0; DSTTransition 2 1; DSTTransition 4 0] 0 3); [reflexivity|].
  simpl. repeat constructor; lia.
Defined.

(** reading the version-1 data block of a well-formed TZif file gives
    exactly the transitions, types, abbreviations, leap seconds and indicator
    flags that the file encodes, whatever follows the block. *)
Theorem QoreZoneInfo_read_encode base reserved d rest :
  tz_valid d -> zlen reserved = 16 ->
  exists tr fp,
    set_transitions (d_types d) 0 None (d_transitions d)
      (find_first_pos 0 (map fst (d_transitions d))) = Some (tr, fp) /\
    QoreZoneInfo_read base (tz_encode reserved d ++ rest) = inl (zone_of base d tr fp).
Proof.
  intros HV Hr.
  destruct (set_transitions_total (d_types d) 0 None (d_transitions d)
              (find_first_pos 0 (map fst (d_transitions d)))) as [[tr fp] ET].
  { destruct HV as [Ht _]. eapply Forall_impl; [exact Ht|simpl; tauto]. }
  exists tr, fp. split; [exact ET|]. unfold QoreZoneInfo_read, tz_encode.
  rewrite <- !app_assoc, (read_str_app MAGIC).
  change (negb (bool_decide (c_string MAGIC = "TZif"%string))) with false. cbv iota.
  replace (skipn 20 (MAGIC ++ reserved ++ tz_encode_body d ++ rest))
    with (tz_encode_body d ++ rest).
  2:{ change (skipn 20 (MAGIC ++ ?x)) with (skipn 16 x). unfold zlen in Hr.
      replace 16%nat with (length reserved) by lia.
      rewrite skipn_app, skipn_all, Nat.sub_diag. reflexivity. }
  rewrite (read_body_enc base d rest tr fp HV ET). reflexivity.
Qed.

Definition sample_data : tz_data :=
  TzData [(-100, 1); (100, 0)] [(3600, false, 0); (7200, true, 4)]
    (list_ascii_of_string "STD" ++ [NUL] ++ list_ascii_of_string "DST" ++ [NUL])
    [LeapInfo 78796800 1] [true; false] [true].

Lemma QoreZoneInfo_read_encode_witness :
  exists tr fp,
    set_transitions (d_types sample_data) 0 None (d_transitions sample_data)
      (find_first_pos 0 (map fst (d_transitions sample_data))) = Some (tr, fp) /\
    QoreZoneInfo_read sample_base (tz_encode (repeat NUL 16) sample_data ++ ["X"%char])
    = inl (zone_of sample_base sample_data tr fp).
Proof.
  apply (QoreZoneInfo_read_encode sample_base (repeat NUL 16) sample_data ["X"%char]).
  - unfold tz_valid, in_i32, zlen. simpl.
    repeat split; repeat constructor; simpl; try lia.
  - reflexivity.
Defined.

(** Two removals before [first_pos]: the second compares the index of the file
    with the position that the first removal has already moved, so the result
    (3) is not the first transition after the epoch (at 2). *)
Example set_transitions_first_pos :
  let times := [(-40, 0); (-30, 0); (-20, 1); (-10, 1); (10, 0)] in
  set_transitions [(0, false, 0); (60, true, 0)] 0 None times (find_first_pos 0 (map fst times))
  = Some ([DSTTransition (-40) 0; DSTTransition (-20) 1; DSTTransition 10 0], 3).
Proof. reflexivity. Qed.

(** A zone whose transitions all follow the epoch: the offset in force at 150
    is the one of the transition at 100, the lookup gives the next one's, and
    from 200 on only the default offset. *)
Example getUTCOffset_all_positive :
  let zi := RegionInfo 0 (Some "STD"%string)
    [DSTTransition 100 1; DSTTransition 200 0; DSTTransition 300 1]
    [TransitionInfo 3600 "STD" false false false; TransitionInfo 7200 "DST" true false false] [] in
  region_getUTCOffsetImpl sample_base zi 150 = Some (3600, false, Some "STD"%string) /\
  region_getUTCOffsetImpl sample_base zi 350 = Some (3600, false, Some "STD"%string).
Proof. split; reflexivity. Qed.

(** A single transition: the other loop starts outside of the array. *)
Example getUTCOffset_out_of_bounds :
  region_getUTCOffsetImpl sample_base
    (RegionInfo 0 (Some "STD"%string) [DSTTransition 100 0]
       [TransitionInfo 3600 "STD" false false false] []) 50 = None.
Proof. reflexivity. Qed.
