(* ===== verification/ZoneManager.v ===== *)
(** * The time zone manager

    [QoreTimeZoneManager] of lib/QoreTimeZoneManager.cpp: UTC-offset zones and
    their textual form, the caches of offset zones and regions, the local
    time zone. *)

From S2P Require Import Prelude DateInfo ZoneInfo.

#[local] Open Scope string_scope.
#[local] Open Scope Z_scope.

(** ** UTC offsets as text *)

(** [concatOffset(utcoffset, str)], the text that it appends. *)
Definition concatOffset (utcoffset : Z) : string :=
  let sign := if utcoffset <? 0 then "-" else "+" in
  let utcoffset := if utcoffset <? 0 then - utcoffset else utcoffset in
  let h := utcoffset /c SECS_PER_HOUR in
  let r := utcoffset %c SECS_PER_HOUR in
  let m := r /c SECS_PER_MINUTE in
  let s := utcoffset - h * SECS_PER_HOUR - m * SECS_PER_MINUTE in
  sign ++ fmt_0d 2 (if h <? 0 then - h else h) ++ ":" ++ fmt_0d 2 m
  ++ (if negb (s =? 0) then ":" ++ fmt_0d 2 s else "").

Inductive offset_error :=
| OFFSET_TOO_SHORT | OFFSET_HOUR_1 | OFFSET_HOUR_2 | OFFSET_MINUTE_1
| OFFSET_MINUTE_2 | OFFSET_SECOND_1 | OFFSET_SECOND_2 | OFFSET_EXCESS.

(** The part of [findCreateOffsetZone(const char *offset)] that reads the text; the
    caller has checked the sign. The errors are the branches that raise
    PARSE-SET-TIME-ZONE-ERROR. *)
Definition parse_offset (offset : string) : Z + offset_error :=
  if (String.length offset <? 3)%nat then inr OFFSET_TOO_SHORT
  else
    let p := advance offset in
    if negb (isdigit (deref p)) then inr OFFSET_HOUR_1
    else
    let secs := digit_val (deref p) * SECS_PER_HOUR * 10 in
    let p := advance p in
    if negb (isdigit (deref p)) then inr OFFSET_HOUR_2
    else
    let secs := secs + digit_val (deref p) * SECS_PER_HOUR in
    let p := advance p in
    if char_is p NUL then inl secs
    else
    let p := if char_is p ":" then advance p else p in
    if negb (isdigit (deref p)) then inr OFFSET_MINUTE_1
    else
    let secs := secs + digit_val (deref p) * SECS_PER_MINUTE * 10 in
    let p := advance p in
    if negb (isdigit (deref p)) then inr OFFSET_MINUTE_2
    else
    let secs := secs + digit_val (deref p) * SECS_PER_MINUTE in
    let p := advance p in
    if char_is p NUL then inl secs
    else
    let p := if char_is p ":" then advance p else p in
    if negb (isdigit (deref p)) then inr OFFSET_SECOND_1
    else
    let secs := secs + digit_val (deref p) * 10 in
    let p := advance p in
    if negb (isdigit (deref p)) then inr OFFSET_SECOND_2
    else
    let secs := secs + digit_val (deref p) in
    let p := advance p in
    if char_is p NUL then inl secs else inr OFFSET_EXCESS.

(** ** State *)

Record QoreTimeZoneManager := TZManager {
  tzsize : Z;
  root : string;
  tzmap : gmap string zone;
  tzo_std_map : gmap Z zone;
  tzomap : gmap Z zone;
  localtz : option zone;
  localtzname : string }.

Definition set_tzomap (m : QoreTimeZoneManager) (o : gmap Z zone) : QoreTimeZoneManager :=
  TZManager (tzsize m) (root m) (tzmap m) (tzo_std_map m) o (localtz m) (localtzname m).

(** The table of the constructor: [MAKE_STD_ZONE(offset, name)] in order. *)
Definition std_zones : list (Z * string) :=
  let h := SECS_PER_HOUR in let mi := SECS_PER_MINUTE in
  [(1 * h, "+01"); (2 * h, "+02"); (3 * h, "+03"); (3 * h + 30 * mi, "+03:30");
   (4 * h, "+04"); (4 * h + 30 * mi, "+04:30"); (5 * h, "+05");
   (5 * h + 30 * mi, "+05:30"); (5 * h + 45 * mi, "+05:45"); (6 * h, "+06");
   (6 * h + 30 * mi, "+06:30"); (7 * h, "+07"); (8 * h, "+08"); (9 * h, "+09");
   (9 * h + 30 * mi, "+09:30"); (10 * h, "+10"); (10 * h + 30 * mi, "+10:30");
   (11 * h, "+11"); (11 * h + 30 * mi, "+11:30"); (12 * h, "+12");
   (12 * h + 45 * mi, "+12:45"); (13 * h, "+13"); (14 * h, "+14");
   (-1 * h, "-01"); (-2 * h, "-02"); (-3 * h, "-03"); (-3 * h - 30 * mi, "-03:30");
   (-4 * h, "-04"); (-4 * h - 30 * mi, "-04:30"); (-5 * h, "-05"); (-6 * h, "-06");
   (-7 * h, "-07"); (-8 * h, "-08"); (-9 * h, "-09"); (-9 * h - 30 * mi, "-09:30");
   (-10 * h, "-10"); (-11 * h, "-11"); (-12 * h, "-12")].

Fixpoint make_std_zones (l : list (Z * string)) (m : gmap Z zone) : gmap Z zone :=
  match l with
  | [] => m
  | (offset, nm) :: l => make_std_zones l (<[offset := QoreOffsetZoneInfo nm offset]> m)
  end.

(** The constructor; [location] is ZONEINFO_LOCATION without trailing
    slashes. *)
Definition manager_init (location : string) : QoreTimeZoneManager :=
  TZManager 0 location ∅ (make_std_zones std_zones ∅) ∅ None "".

(** ** Offset zones *)

(** [findCreateOffsetZone(int seconds_east)] *)
Definition findCreateOffsetZone (m : QoreTimeZoneManager) (seconds_east : Z)
    : option zone * QoreTimeZoneManager :=
  if seconds_east =? 0 then (None, m)
  else match tzomap m !! seconds_east with
       | Some z => (Some z, m)
       | None =>
         let ozi := QoreOffsetZoneInfo (concatOffset seconds_east) seconds_east in
         (Some ozi, set_tzomap m (<[seconds_east := ozi]> (tzomap m)))
       end.

(** [findCreateOffsetZone(const char *offset, xsink)] *)
Definition findCreateOffsetZone_str (m : QoreTimeZoneManager) (offset : string)
    : (option zone + offset_error) * QoreTimeZoneManager :=
  match parse_offset offset with
  | inr e => (inr e, m)
  | inl secs =>
    if secs =? 0 then (inl None, m)
    else
      let secs := if char_is offset "-" then - secs else secs in
      match tzo_std_map m !! secs with
      | Some z => (inl (Some z), m)
      | None =>
        match tzomap m !! secs with
        | Some z => (inl (Some z), m)
        | None =>
          let ozi := QoreOffsetZoneInfo (concatOffset secs) secs in
          (inl (Some ozi), set_tzomap m (<[secs := ozi]> (tzomap m)))
        end
      end
  end.

(** ** Regions *)

(** [QoreString::equalPartialPath] on strings of one byte encoding. *)
Definition equalPartialPath (a b : string) : bool :=
  if (String.length a =? 0)%nat then (String.length b =? 0)%nat
  else if (String.length b =? 0)%nat then false
  else if (String.length a <? String.length b)%nat then false
  else if negb (String.prefix b a) then false
  else if (String.length a =? String.length b)%nat then true
  else match String.get (String.length b) a with
       | Some c => Ascii.eqb c "/" || Ascii.eqb c "?"
       | None => false
       end.

(** [str.c_str() + k]: [None] beyond the terminator. *)
Definition c_str_from (s : string) (k : nat) : option string :=
  if (String.length s <? k)%nat then None
  else Some (String.substring k (String.length s - k) s).

Section Files.
(** [fs] opens and reads a file; [localtime_path_prefix] is the static
    member that [init] sets. *)
Context (localtime_path_prefix : string) (fs : string -> option (list ascii)).

(** [QoreZoneInfo(root, n_name, xsink)]: the file is looked for below [root]
    and then below [localtime_path_prefix]. *)
Definition new_QoreZoneInfo (root n_name : string) : zone + tz_error :=
  let base := zone_base_named localtime_path_prefix n_name (-1) in
  let fn := if (String.length root =? 0)%nat then name base
            else root ++ "/" ++ name base in
  match fs fn with
  | Some file => QoreZoneInfo_read base file
  | None =>
    match fs (localtime_path_prefix ++ fn) with
    | Some file => QoreZoneInfo_read base file
    | None => inr TZ_READ
    end
  end.

Definition processFile (m : QoreTimeZoneManager) (fn : string) (use_path : bool)
    : (option zone + tz_error) * QoreTimeZoneManager :=
  let nm :=
    if equalPartialPath fn (root m) then c_str_from fn (String.length (root m) + 1)
    else Some fn in
  match nm with
  | None => (inr TZ_UNDEFINED, m)
  | Some nm =>
    match tzmap m !! nm with
    | Some z => (inl (Some z), m)
    | None =>
      match new_QoreZoneInfo (if use_path then "" else root m) nm with
      | inr TZ_UNDEFINED => (inr TZ_UNDEFINED, m)
      | inr _ => (inl None, m)
      | inl z =>
        (inl (Some z),
         TZManager (tzsize m + 1) (root m) (<[nm := z]> (tzmap m)) (tzo_std_map m)
           (tzomap m) (localtz m) (localtzname m))
      end
    end
  end.

Definition findLoadRegion (m : QoreTimeZoneManager) (nm : string) :=
  processFile m nm false.
Definition findLoadRegionFromPath (m : QoreTimeZoneManager) (nm : string) :=
  processFile m nm true.

(** [setLocalTZ(fname, tzi)] *)
Definition setLocalTZ_zone (m : QoreTimeZoneManager) (fname : string) (tzi : zone)
    : QoreTimeZoneManager :=
  TZManager (tzsize m + 1) (root m) (<[fname := tzi]> (tzmap m)) (tzo_std_map m)
    (tzomap m) (Some tzi) fname.

(** [setLocalTZ(QoreString fname)]: 0 for success, -1 for failure. *)
Definition setLocalTZ (m : QoreTimeZoneManager) (fname : string)
    : (Z + tz_error) * QoreTimeZoneManager :=
  if (String.length fname =? 0)%nat then (inl (-1), m)
  else
    let load dummy fnamestr :=
      match new_QoreZoneInfo dummy fnamestr with
      | inl z => (inl 0, setLocalTZ_zone m fnamestr z)
      | inr TZ_UNDEFINED => (inr TZ_UNDEFINED, m)
      | inr _ => (inl (-1), m)
      end in
    if negb (char_is fname "/") then load (root m) fname
    else if equalPartialPath fname (root m) then
      match c_str_from fname (String.length (root m) + 1) with
      | None => (inr TZ_UNDEFINED, m)
      | Some "" => (inl (-1), m)
      | Some fnamestr => load (root m) fnamestr
      end
    else load "" fname.

(** [init_intern]: [TZ] is the environment variable, [local_exists] the
    result of stat() on [localtime_location]. *)
Definition setFromLocalTimeFile (m : QoreTimeZoneManager) (localtime_location : string)
    (local_exists : bool) : QoreTimeZoneManager :=
  if local_exists then snd (setLocalTZ m localtime_location) else m.

Definition init_intern (m : QoreTimeZoneManager) (TZ : option string)
    (localtime_location : string) (local_exists : bool) : QoreTimeZoneManager :=
  match TZ with
  | None => setFromLocalTimeFile m localtime_location local_exists
  | Some "" => m
  | Some (String ":" TZ) => snd (setLocalTZ m TZ)
  | Some TZ => snd (setLocalTZ m TZ)
  end.

(** [getZone], [getLocalRegion] *)
Definition getZone (m : QoreTimeZoneManager) (nm : string) : option zone := tzmap m !! nm.
Definition getLocalRegion (m : QoreTimeZoneManager) : option string :=
  if (String.length (localtzname m) =? 0)%nat then None else Some (localtzname m).

(** [isdigit] of an [int]: the value of the argument is a character code. *)
Definition isdigit_code (c : Z) : bool := (48 <=? c) && (c <=? 57).
Definition b2z (b : bool) : Z := if b then 1 else 0.

(** The function of the library that maps a name to a zone; the argument of
    [isdigit] is a conjunction. *)
Definition find_create_timezone (m : QoreTimeZoneManager) (nm : string)
    : (option zone + tz_error + offset_error) * QoreTimeZoneManager :=
  let c0 := deref nm in
  let c1 := deref (advance nm) in
  let c2 := deref (advance (advance nm)) in
  if (Ascii.eqb c0 "+" || Ascii.eqb c0 "-")
     && isdigit_code (b2z (negb (Ascii.eqb c1 NUL) && isdigit c2)) then
    match findCreateOffsetZone_str m nm with
    | (inl z, m) => (inl (inl z), m)
    | (inr e, m) => (inr e, m)
    end
  else let '(r, m) := findLoadRegion m nm in (inl r, m).
End Files.

(** ** Reference definitions *)

(** The offset zone of [s] seconds, whose name the constructor drops. *)
Definition offset_zone (s : Z) : zone := QoreOffsetZone (ZoneBase "" s false).

Definition offsets_ok (o : gmap Z zone) : Prop :=
  forall k z, o !! k = Some z -> z = offset_zone k.

(** The invariant of the manager: the offset maps hold the offset zones of
    their keys and no more regions are cached than were loaded. *)
Definition manager_ok (m : QoreTimeZoneManager) : Prop :=
  offsets_ok (tzo_std_map m) /\ offsets_ok (tzomap m)
  /\ Z.of_nat (size (tzmap m)) <= tzsize m.

Fixpoint no_nul (s : string) : Prop :=
  match s with EmptyString => True | String c s => c <> NUL /\ no_nul s end.

(** The optional separator. *)
Definition opt_colon (sep : string) : Prop := sep = "" \/ sep = ":".

Definition two_digits (a b : ascii) : Prop := isdigit a = true /\ isdigit b = true.
Definition two_val (a b : ascii) : Z := digit_val a * 10 + digit_val b.

(** The documented format S00[[:]00[[:]00]] and the seconds it denotes. *)
Inductive offset_text : string -> Z -> Prop :=
| offset_h sg a b :
  two_digits a b -> offset_text (String sg (String a (String b ""))) (two_val a b * 3600)
| offset_hm sg a b sep c d :
  two_digits a b -> opt_colon sep -> two_digits c d ->
  offset_text (String sg (String a (String b (sep ++ String c (String d "")))))
    (two_val a b * 3600 + two_val c d * 60)
| offset_hms sg a b sep c d sep' e f :
  two_digits a b -> opt_colon sep -> two_digits c d -> opt_colon sep' -> two_digits e f ->
  offset_text
    (String sg (String a (String b (sep ++ String c (String d (sep' ++ String e (String f "")))))))
    (two_val a b * 3600 + two_val c d * 60 + two_val e f).

(** * Properties *)

#[local] Arguments Z.mul : simpl never.
#[local] Arguments Z.add : simpl never.
#[local] Arguments digit_val : simpl never.
#[local] Arguments isdigit : simpl never.

Lemma fmt_02 n :
  0 <= n < 100 ->
  fmt_0d 2 n = String (digit_char (n / 10)) (String (digit_char (n mod 10)) "").
Proof.
  intros H. rewrite fmt_0d_dg by (simpl; lia). simpl.
  rewrite (Z.mod_small (n / 10)) by clia. reflexivity.
Qed.

Lemma two_digits_fmt n :
  0 <= n < 100 ->
  two_digits (digit_char (n / 10)) (digit_char (n mod 10)) /\
  two_val (digit_char (n / 10)) (digit_char (n mod 10)) = n.
Proof.
  intros H. unfold two_digits, two_val.
  destruct (digit_char_spec (n / 10)) as [E1 ->]; [clia|].
  destruct (digit_char_spec (n mod 10)) as [E2 ->]; [clia|].
  repeat split; try assumption. clia.
Qed.

Lemma isdigit_not_nul c : isdigit c = true -> Ascii.eqb c NUL = false.
Proof. intros H. destruct (Ascii.eqb_spec c NUL) as [->|]; [discriminate|reflexivity]. Qed.

Lemma isdigit_not_colon c : isdigit c = true -> Ascii.eqb c ":" = false.
Proof. intros H. destruct (Ascii.eqb_spec c ":") as [->|]; [discriminate|reflexivity]. Qed.

(** The text of the grammar is read as the number it denotes. *)
Lemma parse_offset_complete s n : offset_text s n -> parse_offset s = inl n.
Proof.
  unfold two_val, two_digits, opt_colon, parse_offset, char_is.
  destruct 1 as [sg a b [Ha Hb]|sg a b sep c d [Ha Hb] Hs [Hc Hd]
                |sg a b sep c d sep' e f [Ha Hb] Hs [Hc Hd] Hs' [He Hf]].
  - simpl. rewrite Ha, Hb. simpl. f_equal. secs; unfold two_val; lia.
  - destruct Hs as [->| ->]; simpl; rewrite Ha, Hb; simpl;
      rewrite ?(isdigit_not_nul c), ?(isdigit_not_colon c) by assumption; simpl;
      rewrite Hc, Hd; simpl; f_equal; secs; unfold two_val; lia.
  - destruct Hs as [->| ->], Hs' as [->| ->]; simpl; rewrite Ha, Hb; simpl;
      rewrite ?(isdigit_not_nul c), ?(isdigit_not_colon c) by assumption; simpl;
      rewrite Hc, Hd; simpl;
      rewrite ?(isdigit_not_nul e), ?(isdigit_not_colon e) by assumption; simpl;
      rewrite He, Hf; simpl; f_equal; secs; unfold two_val; lia.
Qed.

(** One step of the reader: a digit is the head of the text. *)
Lemma deref_digit p :
  isdigit (deref p) = true -> exists c p', p = String c p' /\ deref p = c /\ advance p = p'.
Proof. destruct p as [|c p]; [discriminate|eauto]. Qed.

Lemma char_is_nul p : no_nul p -> char_is p NUL = true -> p = "".
Proof.
  unfold char_is. destruct p as [|c p]; [reflexivity|]. simpl. intros [H _] E.
  apply Ascii.eqb_eq in E. contradiction.
Qed.

Lemma opt_colon_split p :
  exists sep q, opt_colon sep /\ p = sep ++ q /\ (if char_is p ":" then advance p else p) = q.
Proof.
  unfold char_is, opt_colon. destruct p as [|c p]; [exists "", ""; auto|]. simpl.
  destruct (Ascii.eqb_spec c ":") as [->|]; [exists ":", p|exists "", (String c p)]; auto.
Qed.

Lemma no_nul_app s t : no_nul (s ++ t) -> no_nul t.
Proof. induction s as [|c s IH]; simpl; [auto|intros [_ H]; auto]. Qed.

(** [take_digits] splits two digits off the text that the reader is at. *)
Ltac take_digit H c q :=
  match goal with
  | |- context [negb (isdigit (deref ?p))] =>
    destruct (isdigit (deref p)) eqn:H; [|simpl; discriminate];
    let E := fresh "E" in let E1 := fresh "E" in let E2 := fresh "E" in
    destruct (deref_digit p H) as (c & q & E & E1 & E2);
    rewrite E1 in *; rewrite E2; clear E1 E2; cbn [negb]
  end.

Lemma parse_offset_sound s n : no_nul s -> parse_offset s = inl n -> offset_text s n.
Proof.
  intros Hn. unfold parse_offset. destruct (_ <? 3)%nat eqn:El; [discriminate|].
  destruct s as [|sg s]; [discriminate|]. cbn [advance]. cbv zeta. clear El.
  take_digit Ha a qa. take_digit Hb b qb. subst. cbn [advance no_nul] in *. destruct Hn as (_ & _ & _ & Hn).
  destruct (char_is qb NUL) eqn:Ez.
  { apply char_is_nul in Ez; [|exact Hn]. subst. intros [= <-]. secs.
    replace (_ + _) with (two_val a b * 3600) by (unfold two_val; lia).
    constructor. split; assumption. }
  destruct (opt_colon_split qb) as (sep & q1 & Hsep & -> & ->). apply no_nul_app in Hn. clear Ez.
  take_digit Hc c qc. take_digit Hd d qd. subst. cbn [no_nul] in Hn. destruct Hn as (_ & _ & Hn).
  destruct (char_is qd NUL) eqn:Ez.
  { apply char_is_nul in Ez; [|exact Hn]. subst. intros [= <-]. secs.
    replace (_ + _) with (two_val a b * 3600 + two_val c d * 60) by (unfold two_val; lia).
    constructor; try assumption; split; assumption. }
  destruct (opt_colon_split qd) as (sep' & q3 & Hsep' & -> & ->). apply no_nul_app in Hn. clear Ez.
  take_digit He e qe. take_digit Hf f qf. subst. cbn [no_nul] in Hn. destruct Hn as (_ & _ & Hn).
  destruct (char_is qf NUL) eqn:Ez; [|discriminate].
  apply char_is_nul in Ez; [|exact Hn]. subst. intros [= <-]. secs.
  replace (_ + _) with (two_val a b * 3600 + two_val c d * 60 + two_val e f)
    by (unfold two_val; lia).
  constructor; try assumption; split; assumption.
Qed.

(** The output of [concatOffset]: sign, hours, minutes and, when they are not
    zero, seconds, of two digits each. *)
Lemma concatOffset_dg s :
  -360000 < s < 360000 ->
  exists h m x, Z.abs s = h * 3600 + m * 60 + x /\ 0 <= h < 100 /\ 0 <= m < 60 /\ 0 <= x < 60 /\
    concatOffset s
    = String (if s <? 0 then "-" else "+")
        (dg 2 h (String ":" (dg 2 m (if x =? 0 then "" else String ":" (dg 2 x ""))))).
Proof.
  intros Hs. unfold concatOffset. secs.
  assert ((if s <? 0 then - s else s) = Z.abs s) as -> by (destruct (Z.ltb_spec s 0); lia).
  set (u := Z.abs s). assert (0 <= u < 360000) as Hu by (unfold u; lia).
  rewrite !quot_pos, rem_pos by clia.
  exists (u / 3600), (u mod 3600 / 60), (u mod 60).
  assert (0 <= u / 3600 < 100 /\ 0 <= u mod 3600 / 60 < 60 /\ 0 <= u mod 60 < 60
          /\ u = u / 3600 * 3600 + u mod 3600 / 60 * 60 + u mod 60) as (Hh & Hm & Hx & E) by clia.
  repeat (split; [assumption|]). rewrite (proj2 (Z.ltb_ge (u / 3600) 0)) by lia.
  replace (u - u / 3600 * 3600 - u mod 3600 / 60 * 60) with (u mod 60) by lia.
  rewrite !fmt_0d_dg by (simpl; lia). rewrite !dg_app.
  assert (forall w, String.append (if s <? 0 then "-" else "+") w
            = String (if s <? 0 then "-"%char else "+"%char) w) as -> by (destruct (s <? 0); reflexivity).
  destruct (u mod 60 =? 0); reflexivity.
Qed.

Lemma dg2_digits n p :
  0 <= n < 100 ->
  exists a b, dg 2 n p = String a (String b p) /\ two_digits a b /\ two_val a b = n.
Proof.
  intros H. simpl. rewrite (Z.mod_small (n / 10)) by clia.
  eexists _, _. split; [reflexivity|]. apply two_digits_fmt. exact H.
Qed.

(** It is in the grammar. *)
Lemma concatOffset_text s :
  -360000 < s < 360000 -> offset_text (concatOffset s) (Z.abs s).
Proof.
  intros Hs. destruct (concatOffset_dg s Hs) as (h & m & x & -> & Hh & Hm & Hx & ->).
  destruct (Z.eqb_spec x 0) as [->|Hx0];
    destruct (dg2_digits h (String ":" (dg 2 m ""))) as (a & b & Eh & Dh & Vh); try lia.
  - destruct (dg2_digits m "") as (c & d & -> & Dm & Vm); [lia|].
    destruct (dg2_digits h (String ":" (String c (String d "")))) as (a' & b' & -> & Dh' & Vh'); [lia|].
    replace (h * 3600 + m * 60 + 0) with (two_val a' b' * 3600 + two_val c d * 60) by lia.
    apply (offset_hm _ _ _ ":"); try assumption. right. reflexivity.
  - destruct (dg2_digits x "") as (e & f & -> & Dx & Vx); [lia|].
    destruct (dg2_digits m (String ":" (String e (String f "")))) as (c & d & -> & Dm & Vm); [lia|].
    destruct (dg2_digits h (String ":" (String c (String d (String ":" (String e (String f "")))))))
      as (a' & b' & -> & Dh' & Vh'); [lia|].
    replace (h * 3600 + m * 60 + x)
      with (two_val a' b' * 3600 + two_val c d * 60 + two_val e f) by lia.
    apply (offset_hms _ _ _ ":" _ _ ":"); try assumption; right; reflexivity.
Qed.

Lemma concatOffset_sign s : char_is (concatOffset s) "-" = (s <? 0).
Proof. unfold concatOffset. destruct (s <? 0); reflexivity. Qed.

(** ** The invariant *)

Lemma offsets_ok_insert o k : offsets_ok o -> offsets_ok (<[k := offset_zone k]> o).
Proof.
  intros H k' z. destruct (decide (k' = k)) as [->|Hne].
  - rewrite lookup_insert_eq. congruence.
  - rewrite lookup_insert_ne by congruence. apply H.
Qed.

Lemma make_std_zones_ok l o : offsets_ok o -> offsets_ok (make_std_zones l o).
Proof.
  revert o. induction l as [|[k nm] l IH]; intros o H; [assumption|].
  apply IH. apply (offsets_ok_insert o k H).
Qed.

Lemma manager_init_ok location : manager_ok (manager_init location).
Proof.
  split; [apply make_std_zones_ok; intros k z H; rewrite lookup_empty in H; discriminate|].
  split; [intros k z H; simpl in H; rewrite lookup_empty in H; discriminate|].
  simpl. rewrite map_size_empty. lia.
Qed.

Lemma set_tzomap_ok m k : manager_ok m -> manager_ok (set_tzomap m (<[k := offset_zone k]> (tzomap m))).
Proof. intros (H1 & H2 & H3). repeat split; simpl; auto using offsets_ok_insert. Qed.

Lemma findCreateOffsetZone_spec m s :
  manager_ok m -> s <> 0 ->
  exists m', findCreateOffsetZone m s = (Some (offset_zone s), m') /\ manager_ok m' /\
    tzomap m' !! s = Some (offset_zone s) /\
    m' = set_tzomap m (tzomap m') /\
    (forall k, k <> s -> tzomap m' !! k = tzomap m !! k).
Proof.
  intros Hm Hs. unfold findCreateOffsetZone. destruct (Z.eqb_spec s 0); [contradiction|].
  destruct (tzomap m !! s) as [z|] eqn:E.
  - exists m. pose proof Hm as (_ & H2 & _). pose proof (H2 _ _ E); subst z.
    split; [reflexivity|]. split; [exact Hm|]. split; [exact E|].
    split; [destruct m; reflexivity|reflexivity].
  - eexists. split; [reflexivity|]. split; [apply set_tzomap_ok; assumption|]. simpl.
    split; [apply lookup_insert_eq|]. split; [reflexivity|].
    intros k Hk. apply lookup_insert_ne. congruence.
Qed.

Lemma findCreateOffsetZone_str_ok m s r m' :
  manager_ok m -> findCreateOffsetZone_str m s = (r, m') ->
  manager_ok m' /\
  match parse_offset s, r with
  | inl n, inl z => z = (if n =? 0 then None
                         else Some (offset_zone (if char_is s "-" then - n else n)))
  | inr e, inr e' => e = e' /\ m' = m
  | _, _ => False
  end.
Proof.
  intros Hm. unfold findCreateOffsetZone_str. destruct (parse_offset s) as [n|e];
    [|intros [= <- <-]; auto].
  destruct (n =? 0); [intros [= <- <-]; auto|]. pose proof Hm as (H1 & H2 & _).
  destruct (tzo_std_map m !! _) as [z|] eqn:E1;
    [intros [= <- <-]; rewrite (H1 _ _ E1); auto|].
  destruct (tzomap m !! _) as [z|] eqn:E2;
    [intros [= <- <-]; rewrite (H2 _ _ E2); auto|].
  intros [= <- <-]. split; [apply set_tzomap_ok; assumption|reflexivity].
Qed.

Lemma size_insert_le (t : gmap string zone) k z : (size (<[k := z]> t) <= S (size t))%nat.
Proof.
  destruct (t !! k) eqn:E; [rewrite map_size_insert, E|rewrite map_size_insert_None by exact E];
    simpl; lia.
Qed.

(** ** The properties of the manager *)

(** the reader of UTC offsets accepts exactly the documented format
    S00[[:]00[[:]00]] and returns the number of seconds that it denotes. *)
Theorem parse_offset_iff s n : no_nul s -> parse_offset s = inl n <-> offset_text s n.
Proof. split; [apply parse_offset_sound; assumption|apply parse_offset_complete]. Qed.

Lemma parse_offset_iff_witness :
  parse_offset "-0530:15" = inl 19815 <-> offset_text "-0530:15" 19815.
Proof. apply (parse_offset_iff "-0530:15" 19815). simpl. repeat split; discriminate. Defined.

(** the text that [concatOffset] makes of a UTC offset leads
    [findCreateOffsetZone] back to a zone with exactly that offset at every
    time, in every state that satisfies the manager's invariant, which the
    call preserves. *)
Theorem offset_text_roundtrip m s :
  manager_ok m -> s <> 0 -> -360000 < s < 360000 ->
  exists z m', findCreateOffsetZone_str m (concatOffset s) = (inl (Some z), m') /\
    manager_ok m' /\
    forall e, getUTCOffsetImpl z e = Some (s, false, Some "").
Proof.
  intros Hm Hs Hr. destruct (findCreateOffsetZone_str m (concatOffset s)) as [r m'] eqn:E.
  destruct (findCreateOffsetZone_str_ok _ _ _ _ Hm E) as [Hm' HP].
  rewrite (parse_offset_complete _ _ (concatOffset_text s Hr)), concatOffset_sign in HP.
  destruct r as [z|]; [|contradiction]. subst z.
  destruct (Z.eqb_spec (Z.abs s) 0); [lia|].
  replace (if s <? 0 then - Z.abs s else Z.abs s) with s in * by (destruct (Z.ltb_spec s 0); lia).
  exists (offset_zone s), m'. repeat split; try apply Hm'.
Qed.

Lemma offset_text_roundtrip_witness :
  exists z m',
    findCreateOffsetZone_str (manager_init "/usr/share/zoneinfo") (concatOffset (-34215))
    = (inl (Some z), m') /\ manager_ok m' /\
    forall e, getUTCOffsetImpl z e = Some (-34215, false, Some "").
Proof.
  apply (offset_text_roundtrip (manager_init "/usr/share/zoneinfo") (-34215));
    [apply manager_init_ok|lia|lia].
Defined.

(** [findCreateOffsetZone] creates the zone of an offset once: the second
    call returns the same zone and changes nothing, the first call changes
    only the entry of that offset, and the invariant is preserved. *)
Theorem findCreateOffsetZone_idempotent m s :
  manager_ok m -> s <> 0 ->
  exists z m', findCreateOffsetZone m s = (Some z, m') /\
    findCreateOffsetZone m' s = (Some z, m') /\
    utcoff (zone_base z) = s /\ manager_ok m' /\
    m' = set_tzomap m (tzomap m') /\
    (forall k, k <> s -> tzomap m' !! k = tzomap m !! k).
Proof.
  intros Hm Hs. destruct (findCreateOffsetZone_spec m s Hm Hs) as (m' & E & Hm' & Hk & E' & Ho).
  exists (offset_zone s), m'. split; [exact E|]. split; [|auto].
  unfold findCreateOffsetZone. destruct (Z.eqb_spec s 0); [contradiction|].
  rewrite Hk. reflexivity.
Qed.

Lemma findCreateOffsetZone_idempotent_witness :
  let m := manager_init "/usr/share/zoneinfo" in
  exists z m', findCreateOffsetZone m 7260 = (Some z, m') /\
    findCreateOffsetZone m' 7260 = (Some z, m') /\
    utcoff (zone_base z) = 7260 /\ manager_ok m' /\
    m' = set_tzomap m (tzomap m') /\
    (forall k, k <> 7260 -> tzomap m' !! k = tzomap m !! k).
Proof.
  apply (findCreateOffsetZone_idempotent (manager_init "/usr/share/zoneinfo") 7260);
    [apply manager_init_ok|lia].
Defined.

(** regions are cached: when [processFile] returns a zone, asking for the
    same name again returns the same zone, reads no file (the second file
    system [fs'] is arbitrary) and leaves the manager as it is; the invariant
    is preserved. *)
Theorem processFile_cached prefix fs fs' m fn use_path use_path' z m' :
  manager_ok m ->
  processFile prefix fs m fn use_path = (inl (Some z), m') ->
  processFile prefix fs' m' fn use_path' = (inl (Some z), m') /\ manager_ok m'.
Proof.
  intros Hm. unfold processFile.
  destruct (if equalPartialPath fn (root m) then _ else _) as [nm|] eqn:En; [|discriminate].
  destruct (tzmap m !! nm) as [z0|] eqn:E.
  - intros [= -> <-]. rewrite En, E. auto.
  - destruct (new_QoreZoneInfo _ _ _ _) as [z0|[]]; try discriminate.
    intros [= -> <-]. cbn [root tzmap]. rewrite En, lookup_insert_eq. split; [reflexivity|].
    destruct Hm as (H1 & H2 & H3). repeat split; try assumption. cbn [tzmap tzsize].
    pose proof (size_insert_le (tzmap m) nm z). lia.
Qed.

Definition sample_fs (fn : string) : option (list ascii) :=
  if String.eqb fn "/zi/Sample/Zone" then Some (tz_encode (repeat NUL 16) sample_data) else None.

Lemma processFile_cached_witness :
  let m := manager_init "/zi" in
  let m' := snd (processFile "" sample_fs m "/zi/Sample/Zone" false) in
  exists z, processFile "" (fun _ => None) m' "Sample/Zone" true = (inl (Some z), m')
    /\ manager_ok m'.
Proof.
  intros m m'. destruct (fst (processFile "" sample_fs m "Sample/Zone" false)) as [[z|]|] eqn:E;
    [|vm_compute in E; discriminate|vm_compute in E; discriminate].
  exists z.
  apply (processFile_cached "" sample_fs (fun _ => None) m "Sample/Zone" false true z m').
  - apply manager_init_ok.
  - rewrite <- E. unfold m'.
    transitivity (fst (processFile "" sample_fs m "Sample/Zone" false),
                  snd (processFile "" sample_fs m "Sample/Zone" false));
      [destruct (processFile "" sample_fs m "Sample/Zone" false); reflexivity|].
    vm_compute. reflexivity.
Defined.

(** [find_create_timezone] never takes the branch for UTC offsets,
    because the argument of its [isdigit] is a truth value: every name, one
    like +01:00 included, is looked up as a region. *)
Theorem find_create_timezone_region prefix fs m nm :
  find_create_timezone prefix fs m nm
  = let '(r, m') := findLoadRegion prefix fs m nm in (inl r, m').
Proof.
  unfold find_create_timezone. destruct (_ && isdigit _); simpl;
    rewrite andb_false_r; reflexivity.
Qed.
