(* ===== verification/DateTime.v ===== *)
(** * Absolute and relative date/time values

    [qore_absolute_time], [qore_relative_time] and [qore_date_private] of
    include/qore/intern/qore_date_private.h and lib/qore_date_private.cpp.
    Time zones are used through the interface [ZoneOps] only; [ZoneInfo]'s
    zones implement it at the end of the file. *)

From S2P Require Import Prelude DateInfo IsoWeek ZoneInfo.

(** ** The interface of time zones

    [zone_std] is [AbstractQoreZoneInfo::getUTCOffset(zone)], [zone_at] the
    offset, DST flag and name at an epoch offset, [zone_region] the region
    name. *)
Class ZoneOps (zone : Type) := {
  zone_std : zone -> Z;
  zone_at : zone -> Z -> Z * bool * option string;
  zone_region : zone -> string;
  zone_utc : zone;
  zone_utc_at : forall e, zone_at zone_utc e = (0, false, Some "UTC"%string) }.

(** [tm] of the C library. *)
Record struct_tm := StructTm {
  tm_year : Z; tm_mon : Z; tm_mday : Z; tm_hour : Z; tm_min : Z; tm_sec : Z;
  tm_wday : Z; tm_yday : Z; tm_isdst : Z }.

Definition MICROSECS_PER_SEC := 1000000.
Definition MICROSECS_PER_MINUTE := MICROSECS_PER_SEC * 60.
Definition MICROSECS_PER_HOUR := MICROSECS_PER_MINUTE * 60.
Definition MICROSECS_PER_AVG_DAY := MICROSECS_PER_HOUR * 24.
Definition MICROSECS_PER_MAX_MONTH := MICROSECS_PER_HOUR * 24 * 31.
Definition MICROSECS_PER_AVG_YEAR := MICROSECS_PER_AVG_DAY * 365.

Definition b2z (b : bool) : Z := if b then 1 else 0.

(** ** Relative times

    [qore_relative_time] has the members of [qore_simple_tm] only. *)

Definition qore_relative_time := qore_simple_tm.

(** [normalize(for_comparison)] *)
Definition rel_normalize (for_comparison : bool) (t : qore_relative_time) : qore_relative_time :=
  let '(second, us) := normalize_units i32 i32 (second t) (us t) 1000000 in
  let '(minute, second) := normalize_units i32 i32 (minute t) second 60 in
  let '(hour, minute) := normalize_units i32 i32 (hour t) minute 60 in
  let '(year, month, day, hour) :=
    if for_comparison then
      let '(day, hour) := normalize_units i32 i32 (day t) hour 24 in
      let '(year, day) := normalize_units i32 i32 (year t) day 365 in
      let '(month, day) := normalize_units i32 i32 (month t) day 31 in
      (year, month, day, hour)
    else (year t, month t, day t, hour) in
  let '(year, month) := normalize_units i32 i32 year month 12 in
  Tm year month day hour minute second us.

Definition rel_set (y mo d h mi s u : Z) : qore_relative_time :=
  rel_normalize false (Tm y mo d h mi s u).

Definition rel_setLiteral (date usecs : Z) : qore_relative_time :=
  let year := i32 (date /c 10000000000) in
  let date := date - year * 10000000000 in
  let month := i32 (date /c 100000000) in
  let date := date - month * 100000000 in
  let day := i32 (date /c 1000000) in
  let date := date - day * 1000000 in
  let hour := i32 (date /c 10000) in
  let date := date - hour * 10000 in
  let minute := i32 (date /c 100) in
  let second := i32 (date - minute * 100) in
  rel_normalize false (Tm year month day hour minute second usecs).

Definition rel_setSeconds (s usecs : Z) : qore_relative_time :=
  let hour := i32 (s /c 3600) in
  let s := if negb (hour =? 0) then s - hour * 3600 else s in
  let minute := i32 (s /c 60) in
  let s := if negb (minute =? 0) then s - minute * 60 else s in
  Tm 0 0 0 hour minute (i32 s) usecs.

Definition rel_setTime (t : qore_relative_time) (h m s usecs : Z) : qore_relative_time :=
  Tm (year t) (month t) (day t) h m s usecs.

(** [short getYear() const] *)
Definition rel_getYear (t : qore_relative_time) : Z := wrap_signed 16 (year t).

Definition rel_getMillisecond (t : qore_relative_time) : Z := us t /c 1000.

Definition rel_lex (l r : qore_relative_time) : Z :=
  if year r <? year l then 1 else if year l <? year r then -1
  else if month r <? month l then 1 else if month l <? month r then -1
  else if day r <? day l then 1 else if day l <? day r then -1
  else if hour r <? hour l then 1 else if hour l <? hour r then -1
  else if minute r <? minute l then 1 else if minute l <? minute r then -1
  else if second r <? second l then 1 else if second l <? second r then -1
  else if us r <? us l then 1 else if us l <? us r then -1
  else 0.

Definition rel_compare (l r : qore_relative_time) : Z :=
  let l := rel_normalize true
    (rel_set (year l) (month l) (day l) (hour l) (minute l) (second l) (us l)) in
  let r := rel_normalize true
    (rel_set (year r) (month r) (day r) (hour r) (minute r) (second r) (us r)) in
  rel_lex l r.

Definition rel_unaryMinus (t : qore_relative_time) : qore_relative_time :=
  Tm (- year t) (- month t) (- day t) (- hour t) (- minute t) (- second t) (- us t).

Definition rel_getRelativeMicroseconds (t : qore_relative_time) : Z :=
  us t + second t * MICROSECS_PER_SEC + minute t * MICROSECS_PER_MINUTE
  + hour t * MICROSECS_PER_HOUR + day t * MICROSECS_PER_AVG_DAY
  + (if negb (month t =? 0) then month t * MICROSECS_PER_MAX_MONTH else 0)
  + (if negb (year t =? 0) then year t * MICROSECS_PER_AVG_YEAR else 0).
Definition rel_getRelativeSeconds (t : qore_relative_time) : Z :=
  rel_getRelativeMicroseconds t /c 1000000.
Definition rel_getRelativeMilliseconds (t : qore_relative_time) : Z :=
  rel_getRelativeMicroseconds t /c 1000.

Definition rel_add (t dt : qore_relative_time) : qore_relative_time :=
  rel_normalize false
    (Tm (year t + year dt) (month t + month dt) (day t + day dt) (hour t + hour dt)
        (minute t + minute dt) (second t + second dt) (us t + us dt)).

Definition rel_sub (t dt : qore_relative_time) : qore_relative_time :=
  rel_normalize false
    (Tm (year t - year dt) (month t - month dt) (day t - day dt) (hour t - hour dt)
        (minute t - minute dt) (second t - second dt) (us t - us dt)).

Definition rel_addSecondsTo (t : qore_relative_time) (secs n_us : Z) : qore_relative_time :=
  let h := i32 (secs /c 3600) in
  let secs := if negb (h =? 0) then secs - h * 3600 else secs in
  let m := i32 (secs /c 60) in
  let secs := if negb (m =? 0) then secs - m * 60 else secs in
  Tm (year t) (month t) (day t) (hour t + h) (minute t + m) (i32 (second t + secs))
     (us t + n_us).

Definition rel_getTM (t : qore_relative_time) : struct_tm :=
  StructTm (year t) (month t) (day t) (hour t) (minute t) (second t) 0 0 (-1).

(** [zero_tm(struct tm&)] *)
Definition zero_struct_tm : struct_tm := StructTm 70 0 1 0 0 0 0 0 (-1).

(** The exceptions of the checked setter. *)
Inductive invalid_date :=
| INVALID_MONTH | INVALID_DAY | INVALID_DAY_OF_MONTH | INVALID_HOUR | INVALID_MINUTE
| INVALID_SECOND | INVALID_MICROSECOND.

(** ** Absolute times *)

Section Zones.
Context {zone : Type} {ops : ZoneOps zone}.

Definition zone_offset (z : zone) (e : Z) : Z := fst (fst (zone_at z e)).

Record qore_absolute_time := AbsTime { epoch : Z; abs_us : Z; abs_zone : zone }.

(** [qore_time_info]: the broken-down time and what [set] adds to it. *)
Record qore_time_info := TimeInfo {
  ti_tm : qore_simple_tm; zname : option string; utcoffset : Z; isdst : bool; ti_zone : option zone }.

Definition time_info_set (e n_us n_utcoffset : Z) (n_isdst : bool) (n_zname : option string)
    (n_zone : zone) : qore_time_info :=
  TimeInfo (tm_set (e + n_utcoffset) n_us)
    (Some (match n_zname with Some s => s | None => STATIC_UTC end))
    n_utcoffset n_isdst (Some n_zone).

(** [setLocalIntern]: [epoch] is local time and becomes UTC. *)
Definition setLocalIntern (t : qore_absolute_time) (n_us : Z) : qore_absolute_time :=
  let '(ep, n_us) := normalize_units2 i64 i32 (epoch t) n_us 1000000 in
  let off := zone_std (abs_zone t) in
  let ep := ep - off in
  let aoff := zone_offset (abs_zone t) ep in
  let ep := if negb (aoff =? off) then ep - (aoff - off) else ep in
  AbsTime ep (u32 n_us) (abs_zone t).

(** [set(n_zone, n_epoch, n_us)] *)
Definition abs_set (n_zone : zone) (n_epoch n_us : Z) : qore_absolute_time :=
  let '(ep, n_us) := normalize_units2 i64 i32 n_epoch n_us 1000000 in
  AbsTime ep (u32 n_us) n_zone.

Definition abs_setLocal (n_zone : zone) (n_epoch n_us : Z) : qore_absolute_time :=
  let '(ep, n_us) := normalize_units2 i64 i32 n_epoch n_us 1000000 in
  setLocalIntern (AbsTime ep 0 n_zone) n_us.

(** [set(n_zone, year, month, day, hour, minute, second, n_us)] *)
Definition abs_set_date (n_zone : zone) (y mo d h mi s n_us : Z) : qore_absolute_time :=
  setLocalIntern (AbsTime (getEpochSecondsTime y mo d h mi s) 0 n_zone) n_us.

(** The setter that raises INVALID-DATE; the value is set in any case. *)
Definition abs_set_checked (n_zone : zone) (y mo d h mi s n_us : Z)
    : qore_absolute_time * option invalid_date :=
  let t := abs_set_date n_zone y mo d h mi s n_us in
  (t,
   if (mo <? 1) || (12 <? mo) then Some INVALID_MONTH
   else if d <? 1 then Some INVALID_DAY
   else if (28 <? d) && (getLastDayOfMonth mo y <? d) then Some INVALID_DAY_OF_MONTH
   else if (h <? 0) || (23 <? h) then Some INVALID_HOUR
   else if (mi <? 0) || (60 <? mi) then Some INVALID_MINUTE
   else if (s <? 0) || (60 <? s) then Some INVALID_SECOND
   else if (n_us <? 0) || (999999 <? n_us) then Some INVALID_MICROSECOND
   else None).

Definition abs_setZone (t : qore_absolute_time) (n_zone : zone) : qore_absolute_time :=
  AbsTime (epoch t) (abs_us t) n_zone.

(** The broken-down local time that the getters use. *)
Definition abs_tm (t : qore_absolute_time) : qore_simple_tm :=
  tm_set (epoch t + zone_offset (abs_zone t) (epoch t)) (abs_us t).

Definition abs_setTime (t : qore_absolute_time) (h m s usecs : Z) : qore_absolute_time :=
  let tm := abs_tm t in
  let '(s, usecs) := normalize_units2 i32 i32 s usecs 1000000 in
  let '(m, s) := normalize_units2 i32 i32 m s 60 in
  let '(h, m) := normalize_units2 i32 i32 h m 60 in
  let h := if h <? 0 then 0 else if 23 <? h then 23 else h in
  setLocalIntern
    (AbsTime (getEpochSecondsTime (year tm) (month tm) (day tm) h m s) (abs_us t) (abs_zone t))
    usecs.

(** [setLiteral]; [current] is [currentTZ()]. *)
Definition abs_setLiteral (current : zone) (date usecs : Z) : qore_absolute_time :=
  let tm := tm_setLiteral date usecs in
  setLocalIntern
    (AbsTime (getEpochSecondsTime (year tm) (month tm) (day tm) (hour tm) (minute tm) (second tm))
       0 current)
    usecs.

(** [setNow(n_zone)]; [now] is the current time in seconds and microseconds. *)
Definition abs_setNow (now : Z * Z) (n_zone : zone) : qore_absolute_time :=
  AbsTime (fst now) (u32 (snd now)) n_zone.

Definition abs_getISOWeek (t : qore_absolute_time) : Z * Z * Z := getISOWeek (abs_tm t).

Definition abs_get (t : qore_absolute_time) : qore_time_info :=
  let '(offset, dst, zn) := zone_at (abs_zone t) (epoch t) in
  time_info_set (epoch t) (abs_us t) offset dst zn (abs_zone t).

(** [get(z, info)]: the member [zone] of the result is the one of the value,
    not [z]. *)
Definition abs_get_zone (t : qore_absolute_time) (z : zone) : qore_time_info :=
  let '(offset, dst, zn) := zone_at z (epoch t) in
  time_info_set (epoch t) (abs_us t) offset dst zn (abs_zone t).

Definition abs_getYear (t : qore_absolute_time) : Z := wrap_signed 16 (year (abs_tm t)).
Definition abs_getMonth (t : qore_absolute_time) : Z := month (abs_tm t).
Definition abs_getDay (t : qore_absolute_time) : Z := day (abs_tm t).

Definition abs_getHour (t : qore_absolute_time) : Z :=
  if 0 <=? epoch t then
    i32 (((epoch t + zone_offset (abs_zone t) (epoch t)) %c SECS_PER_DAY) /c SECS_PER_HOUR)
  else hour (ti_tm (abs_get t)).
Definition abs_getMinute (t : qore_absolute_time) : Z :=
  if 0 <=? epoch t then
    i32 (((epoch t + zone_offset (abs_zone t) (epoch t)) %c SECS_PER_HOUR) /c SECS_PER_MINUTE)
  else minute (ti_tm (abs_get t)).
Definition abs_getSecond (t : qore_absolute_time) : Z :=
  if 0 <=? epoch t then
    i32 ((epoch t + zone_offset (abs_zone t) (epoch t)) %c SECS_PER_MINUTE)
  else second (ti_tm (abs_get t)).
Definition abs_getMillisecond (t : qore_absolute_time) : Z := abs_us t /c 1000.
Definition abs_getMicrosecond (t : qore_absolute_time) : Z := i32 (abs_us t).

(** [now] is the result of gettimeofday(). *)
Definition abs_getRelativeMicroseconds (now : Z * Z) (t : qore_absolute_time) : Z :=
  let ds := (epoch t - fst now) * 1000000 + (abs_us t - snd now) in
  if ds <? 0 then 0 else ds.
Definition abs_getRelativeSeconds (now : Z * Z) (t : qore_absolute_time) : Z :=
  abs_getRelativeMicroseconds now t /c 1000000.
Definition abs_getRelativeMilliseconds (now : Z * Z) (t : qore_absolute_time) : Z :=
  abs_getRelativeMicroseconds now t /c 1000.

Definition setTM (t : qore_simple_tm) (dst : bool) : struct_tm :=
  StructTm (year t - 1900) (month t - 1) (day t) (hour t) (minute t) (second t)
    (getDayOfWeek (year t) (month t) (day t)) (getDayNumber (year t) (month t) (day t) - 1)
    (b2z dst).
Definition abs_localtime (t : qore_absolute_time) : struct_tm :=
  let '(offset, dst, _) := zone_at (abs_zone t) (epoch t) in
  setTM (tm_set (epoch t + offset) (abs_us t)) dst.
Definition abs_gmtime (t : qore_absolute_time) : struct_tm :=
  setTM (tm_set (epoch t) (abs_us t)) false.

Definition abs_compare (l r : qore_absolute_time) : Z :=
  if epoch r <? epoch l then 1
  else if epoch l <? epoch r then -1
  else if abs_us r <? abs_us l then 1
  else if abs_us l <? abs_us r then -1
  else 0.

Definition abs_getDayOfWeek (t : qore_absolute_time) : Z :=
  getDayOfWeek (year (abs_tm t)) (month (abs_tm t)) (day (abs_tm t)).
Definition abs_getDayNumber (t : qore_absolute_time) : Z :=
  getDayNumber (year (abs_tm t)) (month (abs_tm t)) (day (abs_tm t)).

Definition abs_hasValue (t : qore_absolute_time) : bool :=
  negb (epoch t =? 0) || negb (abs_us t =? 0).

Definition abs_getEpochSeconds (t : qore_absolute_time) : Z :=
  epoch t + zone_offset (abs_zone t) (epoch t).
Definition abs_getEpochMilliseconds (t : qore_absolute_time) : Z :=
  abs_getEpochSeconds t * 1000 + (abs_us t /c 1000).
Definition abs_getEpochMicroseconds (t : qore_absolute_time) : Z :=
  abs_getEpochSeconds t * 1000000 + abs_us t.
Definition abs_getEpochMicrosecondsUTC (t : qore_absolute_time) : Z :=
  epoch t * 1000000 + abs_us t.
Definition abs_getEpochMillisecondsUTC (t : qore_absolute_time) : Z :=
  epoch t * 1000 + (abs_us t /c 1000).

(** [us] is unsigned: its negation is taken modulo 2^32. *)
Definition abs_unaryMinus (t : qore_absolute_time) : qore_absolute_time :=
  AbsTime (- epoch t) (u32 (- abs_us t)) (abs_zone t).

(** [us + n_us] is computed unsigned and converted back to [int]. *)
Definition abs_addSecondsTo (t : qore_absolute_time) (secs n_us : Z) : qore_absolute_time :=
  abs_set (abs_zone t) (epoch t + secs) (i32 (u32 (abs_us t + n_us))).

(** [operator+=(const qore_relative_time&)] *)
Definition abs_add (t : qore_absolute_time) (dt : qore_relative_time) : qore_absolute_time :=
  let '(ep, usecs) :=
    if negb (year dt =? 0) || negb (month dt =? 0) || negb (day dt =? 0) then
      let tm := abs_tm t in
      let '(y, mo, d) := normalize_dm (year tm + year dt) (month tm + month dt) (day tm) in
      let '(y, mo, d) := normalize_day y mo (d + day dt) in
      let ep := getEpochSecondsTime y mo d (hour tm) (minute tm) (second tm) in
      (ep - zone_offset (abs_zone t) ep, us tm)
    else (epoch t, i32 (abs_us t)) in
  let usecs := usecs + us dt in
  let ep := ep + SECS_PER_HOUR * hour dt + SECS_PER_MINUTE * minute dt + second dt in
  let '(ep, usecs) := normalize_units2 i64 i32 ep usecs 1000000 in
  AbsTime ep (u32 usecs) (abs_zone t).

(** [operator-=(const qore_relative_time&)] *)
Definition abs_sub (t : qore_absolute_time) (dt : qore_relative_time) : qore_absolute_time :=
  abs_add t (rel_unaryMinus dt).

(** [qore_relative_time::setDifference]; [micros - dt.us] is unsigned. *)
Definition rel_setDifference (seconds micros : Z) (dt : qore_absolute_time) : qore_relative_time :=
  let sec := seconds - epoch dt in
  let us := i32 (u32 (micros - abs_us dt)) in
  let '(sec, us) := normalize_units i64 i32 sec us 1000000 in
  let '(hour, sec) := normalize_units i32 i64 0 sec 3600 in
  let '(minute, sec) := normalize_units i32 i64 0 sec 60 in
  Tm 0 0 0 hour minute (i32 sec) us.

(** [qore_relative_time::operator-=(const qore_absolute_time&)] *)
Definition rel_sub_abs (t : qore_relative_time) (dt : qore_absolute_time) : qore_relative_time :=
  rel_normalize false
    (Tm (year t) (month t) (day t) (hour t) (minute t) (i32 (second t - epoch dt))
        (i32 (u32 (us t - abs_us dt)))).

(** [qore_relative_time::get]: no zone and a null name. *)
Definition rel_get (t : qore_relative_time) : qore_time_info := TimeInfo t None 0 false None.

(** ** [qore_date_private]: the union and its tag *)

Inductive qore_date_private :=
| DAbs (a : qore_absolute_time)
| DRel (r : qore_relative_time).

Definition isRelative (d : qore_date_private) : bool :=
  match d with DAbs _ => false | DRel _ => true end.

Definition date_compare (l r : qore_date_private) : Z :=
  match l, r with
  | DRel l, DRel r => rel_compare l r
  | DRel _, DAbs _ => -1
  | DAbs _, DRel _ => 1
  | DAbs l, DAbs r => abs_compare l r
  end.

Definition date_isEqual (l r : qore_date_private) : bool := date_compare l r =? 0.

Definition date_hasValue (d : qore_date_private) : bool :=
  match d with DAbs a => abs_hasValue a | DRel r => hasValue r end.

Definition date_setZone (d : qore_date_private) (z : zone) : qore_date_private :=
  match d with DAbs a => DAbs (abs_setZone a z) | DRel r => DRel r end.

Definition date_getYear (d : qore_date_private) : Z :=
  match d with DAbs a => abs_getYear a | DRel r => rel_getYear r end.
Definition date_getMonth (d : qore_date_private) : Z :=
  match d with DAbs a => abs_getMonth a | DRel r => month r end.
Definition date_getDay (d : qore_date_private) : Z :=
  match d with DAbs a => abs_getDay a | DRel r => day r end.
Definition date_getHour (d : qore_date_private) : Z :=
  match d with DAbs a => abs_getHour a | DRel r => hour r end.
Definition date_getMinute (d : qore_date_private) : Z :=
  match d with DAbs a => abs_getMinute a | DRel r => minute r end.
Definition date_getSecond (d : qore_date_private) : Z :=
  match d with DAbs a => abs_getSecond a | DRel r => second r end.
Definition date_getMillisecond (d : qore_date_private) : Z :=
  match d with DAbs a => abs_getMillisecond a | DRel r => rel_getMillisecond r end.
Definition date_getMicrosecond (d : qore_date_private) : Z :=
  match d with DAbs a => abs_getMicrosecond a | DRel r => us r end.
Definition date_getEpochSeconds (d : qore_date_private) : Z :=
  match d with DAbs a => abs_getEpochSeconds a | DRel r => rel_getRelativeSeconds r end.
Definition date_getEpochSecondsUTC (d : qore_date_private) : Z :=
  match d with DAbs a => epoch a | DRel r => rel_getRelativeSeconds r end.
Definition date_getEpochMillisecondsUTC (d : qore_date_private) : Z :=
  match d with DAbs a => abs_getEpochMillisecondsUTC a | DRel r => rel_getRelativeMilliseconds r end.
Definition date_getEpochMicrosecondsUTC (d : qore_date_private) : Z :=
  match d with DAbs a => abs_getEpochMicrosecondsUTC a | DRel r => rel_getRelativeMicroseconds r end.
Definition date_getDayNumber (d : qore_date_private) : Z :=
  match d with DAbs a => abs_getDayNumber a | DRel _ => 0 end.
Definition date_getDayOfWeek (d : qore_date_private) : Z :=
  match d with DAbs a => abs_getDayOfWeek a | DRel _ => 0 end.
Definition date_getISOWeek (d : qore_date_private) : Z * Z * Z :=
  match d with DAbs a => abs_getISOWeek a | DRel _ => (1970, 1, 1) end.
Definition date_localtime (d : qore_date_private) : struct_tm :=
  match d with DAbs a => abs_localtime a | DRel r => rel_getTM r end.
Definition date_gmtime (d : qore_date_private) : struct_tm :=
  match d with DAbs a => abs_gmtime a | DRel r => zero_struct_tm end.
Definition date_getZone (d : qore_date_private) : option zone :=
  match d with DAbs a => Some (abs_zone a) | DRel _ => None end.
Definition date_getRelativeMicroseconds (now : Z * Z) (d : qore_date_private) : Z :=
  match d with DAbs a => abs_getRelativeMicroseconds now a | DRel r => rel_getRelativeMicroseconds r end.

Definition date_get (d : qore_date_private) : qore_time_info :=
  match d with DAbs a => abs_get a | DRel r => rel_get r end.
Definition date_get_zone (z : zone) (d : qore_date_private) : qore_time_info :=
  match d with DAbs a => abs_get_zone a z | DRel r => rel_get r end.

(** [add]: [None] is the case that the assertion excludes; [current] is
    [currentTZ()]. *)
Definition date_add (current : zone) (d dt : qore_date_private) : option qore_date_private :=
  match d, dt with
  | DAbs a, DRel r => Some (DAbs (abs_add a r))
  | DAbs a, DAbs b =>
    Some (DAbs (abs_set current (epoch a + epoch b) (abs_getMicrosecond a + abs_getMicrosecond b)))
  | DRel r, DRel r' => Some (DRel (rel_add r r'))
  | DRel _, DAbs _ => None
  end.

Definition date_subtractBy (d dt : qore_date_private) : qore_date_private :=
  match d, dt with
  | DAbs a, DRel r => DAbs (abs_sub a r)
  | DAbs a, DAbs b => DRel (rel_setDifference (epoch a) (abs_getMicrosecond a) b)
  | DRel r, DRel r' => DRel (rel_sub r r')
  | DRel r, DAbs b => DRel (rel_sub_abs r b)
  end.

Definition date_unaryMinus (d : qore_date_private) : qore_date_private :=
  match d with DAbs a => DAbs (abs_unaryMinus a) | DRel r => DRel (rel_unaryMinus r) end.

Definition date_addSecondsTo (d : qore_date_private) (secs u : Z) : qore_date_private :=
  match d with
  | DAbs a => DAbs (abs_addSecondsTo a secs u)
  | DRel r => DRel (rel_addSecondsTo r secs u)
  end.

Definition date_setTime (d : qore_date_private) (h m s u : Z) : qore_date_private :=
  match d with
  | DAbs a => DAbs (abs_setTime a h m s u)
  | DRel r => DRel (rel_setTime r h m s u)
  end.

(** [setDate(const struct tm&, us)] *)
Definition date_setDate_tm (current : zone) (t : struct_tm) (u : Z) : qore_date_private :=
  DAbs (abs_set_date current (1900 + tm_year t) (tm_mon t + 1) (tm_mday t) (tm_hour t)
          (tm_min t) (tm_sec t) u).

(** [setDate(seconds, us)], [setLocalDate], the literals and relative
    seconds. *)
Definition date_setDate (z : zone) (seconds u : Z) : qore_date_private := DAbs (abs_set z seconds u).
Definition date_setLocalDate (z : zone) (seconds u : Z) : qore_date_private :=
  DAbs (abs_setLocal z seconds u).
Definition date_setDateLiteral (current : zone) (date u : Z) : qore_date_private :=
  DAbs (abs_setLiteral current date u).
Definition date_setRelativeDateLiteral (date u : Z) : qore_date_private :=
  DRel (rel_setLiteral date u).
Definition date_setRelativeDateSeconds (s u : Z) : qore_date_private := DRel (rel_setSeconds s u).

End Zones.

Arguments qore_absolute_time : clear implicits.
Arguments qore_time_info : clear implicits.
Arguments qore_date_private : clear implicits.

(** ** [ZoneInfo]'s zones as an instance

    A zone whose lookup stays inside its arrays at every time; a null pointer
    is UTC. *)
Definition lookup_safe (z : option ZoneInfo.zone) : Prop :=
  forall e, is_Some (zone_getUTCOffset_info z e).

Record safe_zone := SafeZone { sz_zone : option ZoneInfo.zone; sz_safe : lookup_safe sz_zone }.

Definition safe_lookup (z : safe_zone) (e : Z) : Z * bool * option string :=
  match zone_getUTCOffset_info (sz_zone z) e as o return is_Some o -> _ with
  | Some r => fun _ => r
  | None => fun H => match is_Some_None H with end
  end (sz_safe z e).

Definition utc_zone : safe_zone := SafeZone None (fun e => ex_intro _ _ eq_refl).

#[export] Instance safe_zone_ops : ZoneOps safe_zone := {
  zone_std z := zone_getUTCOffset_std (sz_zone z);
  zone_at := safe_lookup;
  zone_region z := zone_getRegionName (sz_zone z);
  zone_utc := utc_zone;
  zone_utc_at e := eq_refl }.

(** ** Reference definitions *)

(** The microseconds of the time part of a relative value. *)
Definition time_part (t : qore_relative_time) : Z :=
  ((hour t * 60 + minute t) * 60 + second t) * 1000000 + us t.

Definition month_part (t : qore_relative_time) : Z := year t * 12 + month t.

(** The fields that are added or normalised are [int]s. *)
Definition small (z : Z) : Prop := -1000000000 <= z <= 1000000000.
Definition small_time (t : qore_relative_time) : Prop :=
  small (hour t) /\ small (minute t) /\ small (second t) /\ small (us t).

(** The fields of the time part have the same sign and are in range. *)
Definition normal_time (t : qore_relative_time) : Prop :=
  Z.abs (minute t) < 60 /\ Z.abs (second t) < 60 /\ Z.abs (us t) < 1000000 /\
  (0 <= hour t /\ 0 <= minute t /\ 0 <= second t /\ 0 <= us t
   \/ hour t <= 0 /\ minute t <= 0 /\ second t <= 0 /\ us t <= 0).

Definition abs_value {zone} (t : qore_absolute_time zone) : Z := epoch t * 1000000 + abs_us t.
Definition abs_ok {zone} (t : qore_absolute_time zone) : Prop := 0 <= abs_us t < 1000000.

Definition is_time_only (t : qore_relative_time) : Prop := year t = 0 /\ month t = 0 /\ day t = 0.

(** * Properties *)

Lemma safe_lookup_spec z e r :
  zone_getUTCOffset_info (sz_zone z) e = Some r -> zone_at z e = r.
Proof.
  intros H. simpl. unfold safe_lookup. generalize (sz_safe z e). rewrite H. reflexivity.
Qed.

(** Offset zones and UTC never read outside of an array, and a region does
    not when an entry follows the first one after the epoch. *)
Lemma offset_zone_safe b : lookup_safe (Some (QoreOffsetZone b)).
Proof. intros e. eexists. reflexivity. Qed.

Section Region.
Context (base : AbstractQoreZoneInfo) (zi : QoreZoneInfo).
Hypothesis Hptr :
  Forall (fun t => 0 <= trans t < zlen (tti zi)) (QoreDSTTransitions zi).

Lemma transition_result_safe k t :
  at_index (QoreDSTTransitions zi) k = Some t -> is_Some (transition_result zi t).
Proof.
  intros Hk. apply at_index_Some in Hk as [_ Hk]. apply list_elem_of_lookup_2 in Hk.
  rewrite Forall_forall in Hptr. specialize (Hptr t Hk).
  unfold transition_result. destruct (at_index_is_Some (tti zi) (trans t) Hptr) as [ti ->].
  simpl. eauto.
Qed.

Lemma search_up_safe e n i :
  0 <= i -> i + Z.of_nat n < zlen (QoreDSTTransitions zi) ->
  is_Some (search_up base zi e n i).
Proof.
  revert i. induction n as [|n IH]; intros i Hi Hn; [eexists; reflexivity|]. simpl.
  destruct (at_index_is_Some (QoreDSTTransitions zi) i) as [t Ht]; [lia|].
  destruct (at_index_is_Some (QoreDSTTransitions zi) (i + 1)) as [t1 Ht1]; [lia|].
  rewrite Ht, Ht1. simpl. destruct (time t <=? e); [|apply IH; lia].
  destruct (e <? time t1); [eapply transition_result_safe; exact Ht|apply IH; lia].
Qed.

Lemma search_down_safe e i :
  (0 < i)%nat -> Z.of_nat i < zlen (QoreDSTTransitions zi) \/ i = O ->
  is_Some (search_down base zi e i).
Proof.
  intros _. induction i as [|i IH]; intros Hi; [eexists; reflexivity|]. cbn [search_down].
  destruct (at_index_is_Some (QoreDSTTransitions zi) (Z.of_nat (S i))) as [t Ht]; [lia|].
  destruct (at_index_is_Some (QoreDSTTransitions zi) (Z.of_nat i)) as [t1 Ht1]; [lia|].
  rewrite Ht, Ht1. simpl. destruct (e <? time t); [|apply IH; lia].
  destruct (time t1 <=? e); [eapply transition_result_safe; exact Ht|apply IH; lia].
Qed.

Lemma region_zone_safe :
  first_pos zi + 1 < zlen (QoreDSTTransitions zi) \/ first_pos zi = -1 ->
  lookup_safe (Some (QoreRegionZone base zi)).
Proof.
  intros Hf e. simpl. unfold region_getUTCOffsetImpl.
  assert (is_Some (search_down base zi e (Z.to_nat (first_pos zi + 1)))) as Hd.
  { destruct (Z.to_nat (first_pos zi + 1)) eqn:En; [eexists; reflexivity|].
    apply search_down_safe; lia. }
  destruct (Z.ltb_spec 0 (first_pos zi)); [|exact Hd].
  destruct (at_index_is_Some (QoreDSTTransitions zi) (first_pos zi - 1)) as [t ->]; [lia|].
  simpl. destruct (time t <=? e); [|exact Hd]. apply search_up_safe; [lia|]. unfold zlen in *. lia.
Qed.
End Region.

(** ** Relative times *)

(** One step of the normalisation of a time part. *)
Lemma normalize_step b s r :
  0 < r <= 1000000 -> - 2000000000 <= b <= 2000000000 -> - 2000000000 <= s <= 2000000000 ->
  exists b' s', normalize_units i32 i32 b s r = (b', s') /\
    b' * r + s' = b * r + s /\ - r < s' < r /\
    (0 < b' -> 0 <= s') /\ (b' < 0 -> s' <= 0).
Proof.
  intros Hr Hb Hs. pose proof (normalize_units_spec b s r) as H. unfold in_i32 in H.
  destruct (normalize_units i32 i32 b s r) as [b' s']. exists b', s'.
  split; [reflexivity|]. apply H; lia.
Qed.

Lemma rel_normalize_spec t :
  small_time t -> small (year t) -> small (month t) ->
  let n := rel_normalize false t in
  time_part n = time_part t /\ month_part n = month_part t /\ day n = day t /\
  Z.abs (month n) < 12 /\ (0 < year n -> 0 <= month n) /\ (year n < 0 -> month n <= 0) /\
  Z.abs (minute n) < 60 /\ Z.abs (second n) < 60 /\ Z.abs (us n) < 1000000 /\
  (0 < hour n -> 0 <= minute n) /\ (hour n < 0 -> minute n <= 0).
Proof.
  unfold small_time, small. intros (Hh & Hmi & Hs & Hu) Hy Hmo.
  unfold rel_normalize, time_part, month_part.
  destruct (normalize_step (second t) (us t) 1000000) as (s1 & u1 & -> & E1 & B1 & _ & _); [lia..|].
  destruct (normalize_step (minute t) s1 60) as (m1 & s2 & -> & E2 & B2 & _ & _); [lia..|].
  destruct (normalize_step (hour t) m1 60) as (h1 & m2 & -> & E3 & B3 & P3 & N3); [lia..|].
  destruct (normalize_step (year t) (month t) 12) as (y1 & mo1 & -> & E4 & B4 & P4 & N4); [lia..|].
  cbn [year month day hour minute second us]. repeat split; lia.
Qed.

(** ** Absolute times *)

Section AbsLemmas.
Context {zone : Type} {ops : ZoneOps zone}.
Implicit Types (t a b : qore_absolute_time zone) (z : zone).

Lemma u32_us n : u32 (n mod 1000000) = n mod 1000000.
Proof. apply u32_id. unfold in_u32. pose proof (Z.mod_pos_bound n 1000000). lia. Qed.

Lemma norm64 e u :
  in_i32 u -> normalize_units2 i64 i32 e u 1000000 = (e + u / 1000000, u mod 1000000).
Proof. intros Hu. apply normalize_units2_divmod; [lia|unfold in_i32; lia|exact Hu]. Qed.

(** [setLocalIntern] subtracts the offset in force at the time that the
    standard offset leads to. *)
Lemma setLocalIntern_spec e u z n_us :
  in_i32 n_us ->
  let local := e + n_us / 1000000 in
  setLocalIntern (AbsTime e u z) n_us
  = AbsTime (local - zone_offset z (local - zone_std z)) (n_us mod 1000000) z.
Proof.
  intros Hu. unfold setLocalIntern. cbn [epoch abs_zone].
  rewrite norm64 by exact Hu. rewrite u32_us. cbv zeta.
  set (l := e + n_us / 1000000). destruct (Z.eqb_spec (zone_offset z (l - zone_std z)) (zone_std z))
    as [E|E]; simpl; f_equal; lia.
Qed.

Lemma abs_set_spec z e u :
  in_i32 u -> abs_set z e u = AbsTime (e + u / 1000000) (u mod 1000000) z.
Proof. intros Hu. unfold abs_set. rewrite norm64 by exact Hu. rewrite u32_us. reflexivity. Qed.

Lemma abs_set_ok z e u : in_i32 u -> abs_ok (abs_set z e u) /\ abs_value (abs_set z e u) = e * 1000000 + u.
Proof.
  intros Hu. rewrite abs_set_spec by exact Hu. unfold abs_ok, abs_value. cbn [epoch abs_us].
  clia.
Qed.

(** The broken-down local time of a value whose offset is [o]. *)
Lemma abs_tm_spec t o :
  zone_offset (abs_zone t) (epoch t) = o -> abs_ok t ->
  MIN_EPOCH <= epoch t + o -> epoch t + o + 4295 < MAX_EPOCH ->
  valid_tm (abs_tm t) /\ us (abs_tm t) = abs_us t /\ -2 <= year (abs_tm t) < 2147483000
  /\ tm_epoch (abs_tm t) = epoch t + o.
Proof.
  unfold abs_tm, abs_ok. intros -> Hu H1 H2.
  destruct (tm_set_sound (epoch t + o) (abs_us t) H1 H2) as (Hy & V & Eu & Es);
    [unfold in_u32; lia|].
  rewrite Z.mod_small in Eu by lia. rewrite Z.div_small in Es by lia.
  repeat split; try apply V; lia.
Qed.

Lemma time_only_add t dt :
  is_time_only dt -> abs_ok t -> small (us dt) ->
  abs_ok (abs_add t dt) /\ abs_zone (abs_add t dt) = abs_zone t /\
  abs_value (abs_add t dt) = abs_value t + time_part dt.
Proof.
  intros (Ey & Em & Ed) Hok Hu. unfold abs_add, abs_ok, abs_value, time_part, small in *.
  rewrite Ey, Em, Ed. cbn [Z.eqb negb orb].
  rewrite (i32_id (abs_us t)) by (unfold in_i32; lia).
  rewrite norm64 by (unfold in_i32; lia). rewrite u32_us. cbn [epoch abs_us abs_zone]. secs.
  split; [clia|]. split; [reflexivity|clia].
Qed.

(** The date part: years and months first, clipped to the month, then days,
    at the same local time of day. *)
Lemma date_add_spec t dt :
  negb (year dt =? 0) || negb (month dt =? 0) || negb (day dt =? 0) = true ->
  abs_ok t -> small (year dt) -> small (month dt) -> small (us dt) ->
  MIN_EPOCH <= epoch t + zone_offset (abs_zone t) (epoch t) ->
  epoch t + zone_offset (abs_zone t) (epoch t) + 4295 < MAX_EPOCH ->
  exists y1 m1 y m d,
    y1 * 12 + m1 = (year (abs_tm t) + year dt) * 12 + (month (abs_tm t) + month dt) /\
    1 <= m1 <= 12 /\ valid_date y m d /\
    civil_days y m d
    = civil_days y1 m1 (Z.min (day (abs_tm t)) (month_days m1 y1)) + day dt /\
    let local := getEpochSecondsTime y m d (hour (abs_tm t)) (minute (abs_tm t))
                   (second (abs_tm t)) in
    abs_ok (abs_add t dt) /\
    abs_value (abs_add t dt)
    = (local - zone_offset (abs_zone t) local) * 1000000 + abs_us t + time_part dt.
Proof.
  intros Eb Hok Hy Hm Hu H1 H2. unfold small in *.
  destruct (abs_tm_spec t _ eq_refl Hok H1 H2) as ([[Vm Vd] _] & Eu & Hyr & _).
  unfold abs_add. rewrite Eb.
  pose proof (normalize_dm_spec (year (abs_tm t) + year dt) (month (abs_tm t) + month dt)
                (day (abs_tm t))) as HD.
  destruct (normalize_dm _ _ _) as [[y1 m1] d1].
  destruct HD as (E1 & -> & V1); [unfold in_i32; lia..|].
  pose proof (normalize_day_spec y1 m1
                (Z.min (day (abs_tm t)) (month_days m1 y1) + day dt) (proj1 V1)) as HN.
  destruct (normalize_day _ _ _) as [[y m] d]. destruct HN as [V E].
  exists y1, m1, y, m, d. split; [exact E1|]. split; [apply V1|]. split; [exact V|].
  split; [rewrite E; apply civil_days_shift|]. cbv zeta.
  set (local := getEpochSecondsTime _ _ _ _ _ _). rewrite Eu. unfold abs_ok, abs_value in *.
  rewrite norm64 by (unfold in_i32; lia). rewrite u32_us. cbn [epoch abs_us]. unfold time_part.
  secs. clia.
Qed.

End AbsLemmas.

(** ** Comparison *)

Definition fields (t : qore_relative_time) : list Z :=
  [year t; month t; day t; hour t; minute t; second t; us t].

Lemma rel_lex_fields l r : rel_lex l r = lex_cmp (fields l) (fields r).
Proof. reflexivity. Qed.

(** The normal form that [compare] looks at. *)
Definition compare_form (t : qore_relative_time) : qore_relative_time :=
  rel_normalize true
    (rel_set (year t) (month t) (day t) (hour t) (minute t) (second t) (us t)).

Definition date_key {zone} (d : qore_date_private zone) : list Z :=
  match d with
  | DAbs a => [1; epoch a; abs_us a; 0; 0; 0; 0; 0]
  | DRel r => 0 :: fields (compare_form r)
  end.

Lemma date_compare_key {zone} (l r : qore_date_private zone) :
  date_compare l r = lex_cmp (date_key l) (date_key r).
Proof. destruct l as [a|a], r as [b|b]; reflexivity. Qed.

Lemma date_key_length {zone} (l r : qore_date_private zone) :
  length (date_key l) = length (date_key r).
Proof. destruct l, r; reflexivity. Qed.

(** The fieldwise sum. *)
Definition rel_sum (r dt : qore_relative_time) : qore_relative_time :=
  Tm (year r + year dt) (month r + month dt) (day r + day dt) (hour r + hour dt)
     (minute r + minute dt) (second r + second dt) (us r + us dt).

Lemma rel_sub_sum r dt : rel_normalize false (rel_sum r (rel_unaryMinus dt)) = rel_sub r dt.
Proof. reflexivity. Qed.

Lemma rel_normalize_small t :
  Forall small (fields t) ->
  let n := rel_normalize false t in
  time_part n = time_part t /\ month_part n = month_part t /\ day n = day t /\
  Z.abs (month n) < 12 /\ Z.abs (minute n) < 60 /\ Z.abs (second n) < 60 /\
  Z.abs (us n) < 1000000.
Proof.
  unfold fields. rewrite !Forall_cons. intros (F1 & F2 & F3 & F4 & F5 & F6 & F7 & _).
  destruct (rel_normalize_spec t) as (E1 & E2 & E3 & B1 & _ & _ & B2 & B3 & B4 & _);
    [repeat split; apply F4 || apply F5 || apply F6 || apply F7|exact F1|exact F2|].
  repeat split; assumption.
Qed.

(** ** The properties of date/time values *)

Section Properties.
Context {zone : Type} {ops : ZoneOps zone}.
Implicit Types (t a b : qore_absolute_time zone) (z : zone).

(** a valid local date and time set in a zone passes the check for
    invalid dates and is read back unchanged by [qore_absolute_time::get],
    whenever the offset that the zone has at the computed moment is the one
    that was subtracted (so outside of the hours around a transition). *)
Theorem local_time_roundtrip z tm :
  let local := tm_epoch tm in
  let off := zone_offset z (local - zone_std z) in
  valid_tm tm -> -2 <= year tm < 2000000000 -> 0 <= us tm < 1000000 ->
  zone_offset z (local - off) = off ->
  exists t, abs_set_checked z (year tm) (month tm) (day tm) (hour tm) (minute tm)
              (second tm) (us tm) = (t, None) /\
            ti_tm (abs_get t) = tm /\ utcoffset (abs_get t) = off.
Proof.
  intros local off V Hy Hu Ho. pose proof V as [[Hm Hd] (Hh & Hmi & Hs)].
  eexists. split.
  - unfold abs_set_checked. f_equal. rewrite getLastDayOfMonth_spec.
    destruct (Z.ltb_spec (month tm) 1), (Z.ltb_spec 12 (month tm)), (Z.ltb_spec (day tm) 1),
      (Z.ltb_spec (month_days (month tm) (year tm)) (day tm)), (Z.ltb_spec (hour tm) 0),
      (Z.ltb_spec 23 (hour tm)), (Z.ltb_spec (minute tm) 0), (Z.ltb_spec 60 (minute tm)),
      (Z.ltb_spec (second tm) 0), (Z.ltb_spec 60 (second tm)), (Z.ltb_spec (us tm) 0),
      (Z.ltb_spec 999999 (us tm)); try lia. simpl. rewrite andb_false_r. reflexivity.
  - unfold abs_set_date. rewrite setLocalIntern_spec by (unfold in_i32; lia). cbv zeta.
    rewrite Z.div_small, Z.mod_small, Z.add_0_r by lia.
    change (getEpochSecondsTime _ _ _ _ _ _) with local. fold off.
    unfold abs_get. cbn [epoch abs_us abs_zone]. unfold zone_offset in *.
    destruct (zone_at z (local - off)) as [[o dst] zn]. simpl in Ho. subst o.
    cbn [ti_tm utcoffset time_info_set]. split; [|reflexivity].
    replace (local - off + off) with local by lia.
    apply tm_set_complete; assumption.
Qed.

(** adding a relative time of hours, minutes, seconds and microseconds
    adds exactly that amount to the moment, keeps the microseconds below one
    million, and subtracting it again gives the same value back. *)
Theorem time_add_exact t dt :
  is_time_only dt -> abs_ok t -> small (us dt) ->
  abs_ok (abs_add t dt) /\
  abs_getEpochMicrosecondsUTC (abs_add t dt) = abs_getEpochMicrosecondsUTC t + time_part dt /\
  abs_sub (abs_add t dt) dt = t.
Proof.
  intros Ht Hok Hu. destruct (time_only_add t dt Ht Hok Hu) as (H1 & H2 & H3).
  split; [exact H1|]. split; [exact H3|].
  destruct (time_only_add (abs_add t dt) (rel_unaryMinus dt)) as (H4 & H5 & H6).
  { destruct Ht as (E1 & E2 & E3). unfold is_time_only, rel_unaryMinus. simpl. lia. }
  { exact H1. }
  { unfold small, rel_unaryMinus in *. simpl. lia. }
  fold (abs_sub (abs_add t dt) dt) in H4, H5, H6.
  unfold abs_ok, abs_value, time_part, rel_unaryMinus in *.
  destruct (abs_sub (abs_add t dt) dt) as [e u z], t as [e' u' z'].
  cbn [epoch abs_us abs_zone hour minute second us] in *.
  assert (e = e' /\ u = u') as [-> ->] by lia. congruence.
Qed.

(** adding years, months and days moves the local date by the months
    first, clipping the day to the end of the month, then by the days, and
    keeps the local time of day, to which the time part is added. *)
Theorem date_add_correct t dt :
  negb (year dt =? 0) || negb (month dt =? 0) || negb (day dt =? 0) = true ->
  abs_ok t -> small (year dt) -> small (month dt) -> small (us dt) ->
  MIN_EPOCH <= abs_getEpochSeconds t -> abs_getEpochSeconds t + 4295 < MAX_EPOCH ->
  exists y1 m1 y m d,
    y1 * 12 + m1 = (year (abs_tm t) + year dt) * 12 + (month (abs_tm t) + month dt) /\
    1 <= m1 <= 12 /\ valid_date y m d /\
    civil_days y m d
    = civil_days y1 m1 (Z.min (day (abs_tm t)) (month_days m1 y1)) + day dt /\
    let local := getEpochSecondsTime y m d (hour (abs_tm t)) (minute (abs_tm t))
                   (second (abs_tm t)) in
    abs_ok (abs_add t dt) /\
    abs_getEpochMicrosecondsUTC (abs_add t dt)
    = (local - zone_offset (abs_zone t) local) * 1000000 + abs_us t + time_part dt.
Proof. exact (date_add_spec t dt). Qed.

(** the difference of two absolute times has fields of one sign, in
    range, that denote exactly the distance between the two moments; adding it
    to the subtrahend gives the moment of the minuend. *)
Theorem difference_correct a b :
  abs_ok a -> abs_ok b -> -2000000000 * 3600 <= epoch a - epoch b <= 2000000000 * 3600 ->
  exists r, date_subtractBy (DAbs a) (DAbs b) = DRel r /\
    is_time_only r /\ normal_time r /\ time_part r = abs_value a - abs_value b /\
    abs_getEpochMicrosecondsUTC (abs_add b r) = abs_getEpochMicrosecondsUTC a.
Proof.
  intros Ha Hb He. eexists. split; [reflexivity|]. unfold abs_ok in *.
  set (r := rel_setDifference _ _ _).
  assert (is_time_only r /\ normal_time r /\ time_part r = abs_value a - abs_value b)
    as (H1 & H2 & H3).
  { unfold r, rel_setDifference, abs_getMicrosecond. rewrite (i32_id (abs_us a)) by (unfold in_i32; lia).
    assert (i32 (u32 (abs_us a - abs_us b)) = abs_us a - abs_us b) as ->.
    { unfold i32, u32, wrap_signed. change (2 ^ (32 - 1)) with 2147483648.
      change (2 ^ 32) with 4294967296. clia. }
    set (du := abs_us a - abs_us b). set (de := epoch a - epoch b).
    assert (-1000000 < du < 1000000) as Hdu by (unfold du; lia).
    destruct (normalize_units i64 i32 de du 1000000) as [s u] eqn:E1.
    pose proof (normalize_units_gen i64 i32 de du 1000000 ltac:(lia)) as G1. rewrite E1 in G1.
    destruct G1 as (G1 & B1 & P1 & N1);
      [apply i64_id; unfold in_i64; clia|apply i32_id; unfold in_i32; clia|].
    destruct (normalize_units i32 i64 0 s 3600) as [h s1] eqn:E2.
    pose proof (normalize_units_gen i32 i64 0 s 3600 ltac:(lia)) as G2. rewrite E2 in G2.
    destruct G2 as (G2 & B2 & P2 & N2);
      [apply i32_id; unfold in_i32; clia|apply i64_id; unfold in_i64; clia|].
    destruct (normalize_units i32 i64 0 s1 60) as [m s2] eqn:E3.
    pose proof (normalize_units_gen i32 i64 0 s1 60 ltac:(lia)) as G3. rewrite E3 in G3.
    destruct G3 as (G3 & B3 & P3 & N3);
      [apply i32_id; unfold in_i32; clia|apply i64_id; unfold in_i64; clia|].
    rewrite (i32_id s2) by (unfold in_i32; lia).
    unfold is_time_only, normal_time, time_part, abs_value.
    cbn [year month day hour minute second us]. repeat split; lia. }
  repeat split; try apply H1; try apply H2; [exact H3|].
  destruct (time_only_add b r H1 Hb) as (_ & _ & H4).
  { unfold small. destruct H2 as (_ & _ & H2 & _). lia. }
  unfold abs_value, abs_getEpochMicrosecondsUTC in *. lia.
Qed.

(** [qore_date_private::compare] is a total preorder in which every
    relative value precedes every absolute one, and on absolute times it
    compares the moments, whatever their zones. *)
Theorem date_compare_order (x y w : qore_date_private zone) :
  date_compare x x = 0 /\ date_compare y x = - date_compare x y /\
  (date_compare x y <= 0 -> date_compare y w <= 0 -> date_compare x w <= 0) /\
  (forall r t, date_compare (DRel r) (DAbs t) = -1) /\
  (forall a b, abs_ok a -> abs_ok b ->
     date_compare (DAbs a) (DAbs b)
     = Z.sgn (abs_getEpochMicrosecondsUTC a - abs_getEpochMicrosecondsUTC b)).
Proof.
  rewrite !date_compare_key. repeat split.
  - apply lex_cmp_eq; reflexivity.
  - apply lex_cmp_antisym.
  - apply lex_cmp_trans; apply date_key_length.
  - intros a b Ha Hb. simpl. unfold abs_compare, abs_ok, abs_getEpochMicrosecondsUTC in *.
    zcases; lia.
Qed.

(** [getHour], [getMinute] and [getSecond] give the fields of the local
    time of day when the moment precedes 1970 or its local time does not. *)
Theorem time_of_day_getters t :
  abs_ok t -> epoch t < 0 \/ 0 <= abs_getEpochSeconds t ->
  MIN_EPOCH <= abs_getEpochSeconds t -> abs_getEpochSeconds t + 4295 < MAX_EPOCH ->
  (abs_getHour t, abs_getMinute t, abs_getSecond t)
  = (hour (abs_tm t), minute (abs_tm t), second (abs_tm t)).
Proof.
  intros Hok Hl H1 H2. unfold abs_getEpochSeconds in *.
  unfold abs_getHour, abs_getMinute, abs_getSecond.
  destruct (Z.leb_spec 0 (epoch t)).
  - destruct (abs_tm_spec t _ eq_refl Hok H1 H2) as (V & _ & Hy & E).
    rewrite tm_epoch_spec in E by (assumption || lia).
    destruct V as [_ (Hh & Hmi & Hs)].
    set (l := epoch t + zone_offset (abs_zone t) (epoch t)) in *. secs.
    rewrite !rem_pos, !quot_pos by clia.
    set (c := civil_days _ _ _) in E. cast_simpl; repeat f_equal;
      unfold i32, wrap_signed; change (2 ^ (32 - 1)) with 2147483648;
      change (2 ^ 32) with 4294967296; clia.
  - unfold abs_get, abs_tm, zone_offset. destruct (zone_at _ _) as [[o dst] zn]. reflexivity.
Qed.

End Properties.

(** adding and subtracting relative times adds and subtracts the months,
    the days and the microseconds of the time part, and normalises the result;
    in particular [rel_sub] undoes [rel_add] on all three amounts. *)
Theorem rel_add_sub r dt :
  Forall small (fields (rel_sum r dt)) ->
  let s := rel_add r dt in
  time_part s = time_part r + time_part dt /\ month_part s = month_part r + month_part dt /\
  day s = day r + day dt /\
  Z.abs (month s) < 12 /\ Z.abs (minute s) < 60 /\ Z.abs (second s) < 60 /\
  Z.abs (us s) < 1000000 /\
  (Forall small (fields (rel_sum s (rel_unaryMinus dt))) ->
   let t := rel_sub s dt in
   time_part t = time_part r /\ month_part t = month_part r /\ day t = day r).
Proof.
  intros Hf s. pose proof (rel_normalize_small _ Hf) as HN. cbv zeta in HN.
  change (rel_normalize false (rel_sum r dt)) with s in HN.
  destruct HN as (E1 & E2 & E3 & B1 & B2 & B3 & B4).
  assert (time_part (rel_sum r dt) = time_part r + time_part dt
          /\ month_part (rel_sum r dt) = month_part r + month_part dt) as [S1 S2]
    by (unfold time_part, month_part, rel_sum; cbn [year month hour minute second us]; lia).
  split; [lia|]. split; [lia|]. split; [exact E3|]. do 4 (split; [assumption|]).
  intros Hf' t. pose proof (rel_normalize_small _ Hf') as HN. cbv zeta in HN.
  rewrite rel_sub_sum in HN. fold t in HN. destruct HN as (F1 & F2 & F3 & _).
  assert (time_part (rel_sum s (rel_unaryMinus dt)) = time_part s - time_part dt
          /\ month_part (rel_sum s (rel_unaryMinus dt)) = month_part s - month_part dt
          /\ day (rel_sum s (rel_unaryMinus dt)) = day s - day dt) as (S3 & S4 & S5)
    by (unfold time_part, month_part, rel_sum, rel_unaryMinus;
        cbn [year month day hour minute second us]; lia).
  unfold rel_sum in E3. cbn [day] in E3. lia.
Qed.

(** ** Witnesses *)

Definition zone_p1 : safe_zone :=
  SafeZone (Some (QoreOffsetZone (ZoneBase "" 3600 false))) (offset_zone_safe _).

Lemma sample_region_safe : lookup_safe (Some (QoreRegionZone sample_base sample_zone)).
Proof.
  apply region_zone_safe; [|left; reflexivity].
  repeat constructor; discriminate.
Qed.

Definition zone_region_sample : safe_zone := SafeZone _ sample_region_safe.

Lemma local_time_roundtrip_witness :
  exists t, abs_set_checked zone_region_sample 1970 1 1 2 0 5 7 = (t, None) /\
            ti_tm (abs_get t) = Tm 1970 1 1 2 0 5 7 /\ utcoffset (abs_get t) = 3600.
Proof.
  assert (zone_offset zone_region_sample
            (tm_epoch (Tm 1970 1 1 2 0 5 7) - zone_std zone_region_sample) = 3600) as E
    by (vm_compute; reflexivity).
  rewrite <- E. clear E.
  apply (local_time_roundtrip zone_region_sample (Tm 1970 1 1 2 0 5 7)).
  - vm_compute. intuition discriminate.
  - vm_compute. intuition discriminate.
  - vm_compute. intuition discriminate.
  - vm_compute. reflexivity.
Defined.

Lemma time_add_exact_witness :
  let t := AbsTime 1000 999999 zone_p1 in let dt := Tm 0 0 0 (-2) 5 30 2 in
  abs_ok (abs_add t dt) /\
  abs_getEpochMicrosecondsUTC (abs_add t dt) = abs_getEpochMicrosecondsUTC t + time_part dt /\
  abs_sub (abs_add t dt) dt = t.
Proof.
  apply (time_add_exact (AbsTime 1000 999999 zone_p1) (Tm 0 0 0 (-2) 5 30 2)).
  - repeat split.
  - vm_compute. intuition discriminate.
  - vm_compute. intuition discriminate.
Defined.

(** 2024-01-31 plus one month and one day is 2024-03-01. *)
Lemma date_add_correct_witness :
  let t := abs_set_date zone_p1 2024 1 31 12 0 0 0 in let dt := Tm 0 1 1 0 0 0 0 in
  abs_tm (abs_add t dt) = Tm 2024 3 1 12 0 0 0 /\
  exists y1 m1 y m d,
    y1 * 12 + m1 = (year (abs_tm t) + year dt) * 12 + (month (abs_tm t) + month dt) /\
    1 <= m1 <= 12 /\ valid_date y m d /\
    civil_days y m d
    = civil_days y1 m1 (Z.min (day (abs_tm t)) (month_days m1 y1)) + day dt /\
    let local := getEpochSecondsTime y m d (hour (abs_tm t)) (minute (abs_tm t))
                   (second (abs_tm t)) in
    abs_ok (abs_add t dt) /\
    abs_getEpochMicrosecondsUTC (abs_add t dt)
    = (local - zone_offset (abs_zone t) local) * 1000000 + abs_us t + time_part dt.
Proof.
  split; [vm_compute; reflexivity|].
  apply (date_add_correct (abs_set_date zone_p1 2024 1 31 12 0 0 0) (Tm 0 1 1 0 0 0 0));
    vm_compute; intuition discriminate.
Defined.

Lemma difference_correct_witness :
  let a := AbsTime 86399 5 zone_p1 in let b := AbsTime 86400 10 utc_zone in
  exists r, date_subtractBy (DAbs a) (DAbs b) = DRel r /\
    is_time_only r /\ normal_time r /\ time_part r = abs_value a - abs_value b /\
    abs_getEpochMicrosecondsUTC (abs_add b r) = abs_getEpochMicrosecondsUTC a.
Proof.
  apply (difference_correct (AbsTime 86399 5 zone_p1) (AbsTime 86400 10 utc_zone));
    vm_compute; intuition discriminate.
Defined.

Lemma time_of_day_getters_witness :
  let t := AbsTime (-1) 0 zone_p1 in
  (abs_getHour t, abs_getMinute t, abs_getSecond t) = (0, 59, 59) /\
  (abs_getHour t, abs_getMinute t, abs_getSecond t)
  = (hour (abs_tm t), minute (abs_tm t), second (abs_tm t)).
Proof.
  split; [vm_compute; reflexivity|].
  apply (time_of_day_getters (AbsTime (-1) 0 zone_p1));
    [vm_compute; intuition discriminate|left; reflexivity|vm_compute; intuition discriminate..].
Defined.

Lemma rel_add_sub_witness :
  let r := Tm 1 11 40 5 59 59 999999 in let dt := Tm 0 2 0 0 0 0 1 in
  let s := rel_add r dt in
  s = Tm 2 1 40 6 0 0 0 /\
  time_part s = time_part r + time_part dt /\ month_part s = month_part r + month_part dt /\
  day s = day r + day dt /\
  Z.abs (month s) < 12 /\ Z.abs (minute s) < 60 /\ Z.abs (second s) < 60 /\
  Z.abs (us s) < 1000000 /\
  (Forall small (fields (rel_sum s (rel_unaryMinus dt))) ->
   let t := rel_sub s dt in
   time_part t = time_part r /\ month_part t = month_part r /\ day t = day r).
Proof.
  split; [vm_compute; reflexivity|].
  apply (rel_add_sub (Tm 1 11 40 5 59 59 999999) (Tm 0 2 0 0 0 0 1)).
  repeat constructor; vm_compute; intuition discriminate.
Defined.

(** ** Behaviour at the edges *)

Definition zone_m5 : safe_zone :=
  SafeZone (Some (QoreOffsetZone (ZoneBase "" (-18000) false))) (offset_zone_safe _).

(** The local time of the epoch five hours west is 19:00: [getHour] tests the
    UTC offset and takes a negative remainder. *)
Example getHour_negative :
  abs_getHour (AbsTime 0 0 zone_m5) = -5 /\ hour (abs_tm (AbsTime 0 0 zone_m5)) = 19.
Proof. split; reflexivity. Qed.

(** The negation of an absolute time of 1.5 s is not -1.5 s, because the
    microseconds are unsigned. *)
Example unaryMinus_wraps :
  abs_value (abs_unaryMinus (AbsTime 1 500000 utc_zone)) = 4293467296.
Proof. reflexivity. Qed.

(** 1 day - 1 hour - 1 minute and 22 hours 59 minutes are the same amount of
    time, [compare] takes the first for the greater. *)
Example rel_compare_mixed_signs :
  let a := rel_set 0 0 1 (-1) (-1) 0 0 in let b := rel_set 0 0 0 22 59 0 0 in
  rel_getRelativeMicroseconds a = rel_getRelativeMicroseconds b /\ rel_compare a b = 1.
Proof. split; reflexivity. Qed.
