(* ===== verification/DateText.v ===== *)
(** * Dates as text

    The parser of absolute dates ([qore_absolute_time::set] of a string),
    relative dates as numbers and ISO-8601 durations
    ([qore_relative_time::set], [setIso8601]), the string forms
    ([getAsString]) and the format language ([qore_date_private::format]) of
    lib/qore_date_private.cpp. *)

From S2P Require Import Prelude DateInfo IsoWeek ZoneInfo ZoneManager DateTime.

#[local] Open Scope string_scope.
#[local] Open Scope Z_scope.

(** ** Tables *)

Record date_s := DateS {
  long_name : string; abbr : string; upper_long_name : string; upper_abbr : string }.

Definition months : list date_s :=
  [DateS "January" "Jan" "JANUARY" "JAN"; DateS "February" "Feb" "FEBRUARY" "FEB";
   DateS "March" "Mar" "MARCH" "MAR"; DateS "April" "Apr" "APRIL" "APR";
   DateS "May" "May" "MAY" "MAY"; DateS "June" "Jun" "JUNE" "JUN";
   DateS "July" "Jul" "JULY" "JUL"; DateS "August" "Aug" "AUGUST" "AUG";
   DateS "September" "Sep" "SEPTEMBER" "SEP"; DateS "October" "Oct" "OCTOBER" "OCT";
   DateS "November" "Nov" "NOVEMBER" "NOV"; DateS "December" "Dec" "DECEMBER" "DEC"].

Definition days : list date_s :=
  [DateS "Sunday" "Sun" "SUNDAY" "SUN"; DateS "Monday" "Mon" "MONDAY" "MON";
   DateS "Tuesday" "Tue" "TUESDAY" "TUE"; DateS "Wednesday" "Wed" "WEDNESDAY" "WED";
   DateS "Thursday" "Thu" "THURSDAY" "THU"; DateS "Friday" "Fri" "FRIDAY" "FRI";
   DateS "Saturday" "Sat" "SATURDAY" "SAT"].

Definition ampm (hour : Z) : Z := let i := hour %c 12 in if negb (i =? 0) then i else 12.

(** ** Reading numbers: (value, rest) *)

(** [get_uint(p, digits)]: -1 if a character is not a digit; the digits before
    it are consumed. *)
Fixpoint get_uint_loop (digits : nat) (rc : Z) (p : string) : Z * string :=
  match digits with
  | O => (rc, p)
  | S digits =>
    if (code (deref p) <? 48) || (57 <? code (deref p)) then (-1, p)
    else get_uint_loop digits (10 * rc + digit_val (deref p)) (advance p)
  end.
Definition get_uint (p : string) (digits : nat) : Z * string := get_uint_loop digits 0 p.

(** The do-while loop over the digits at [p]. *)
Fixpoint read_digits (rc : Z) (p : string) : Z * string :=
  match p with
  | String c p' => if isdigit c then read_digits (10 * rc + digit_val c) p' else (rc, p)
  | EmptyString => (rc, p)
  end.

Definition skip_char (c : ascii) (p : string) : string :=
  if char_is p c then advance p else p.

(** ** Absolute dates *)

(** The branches that raise INVALID-DATE. *)
Inductive date_error :=
| DATE_TOO_SHORT | DATE_YEAR | DATE_MONTH | DATE_MONTH_RANGE | DATE_MONTH_SEP | DATE_DAY
| DATE_DAY_RANGE | DATE_HOUR_RANGE | DATE_MINUTE | DATE_MINUTE_RANGE | DATE_MINUTE_SEP
| DATE_SECOND_RANGE | DATE_MICROSECOND | DATE_OFFSET | DATE_OFFSET_MINUTE.

(** The digits after the decimal point: at most six count, then the value is
    scaled to microseconds. *)
Fixpoint read_us (dlen : nat) (us : Z) (p : string) : nat * Z * string :=
  match p with
  | String c p' =>
    if isdigit c then
      read_us (S dlen) (if (dlen <? 6)%nat then us * 10 + digit_val c else us) p'
    else (dlen, us, p)
  | EmptyString => (dlen, us, p)
  end.

Fixpoint scale_us (n : nat) (us : Z) : Z :=
  match n with O => us | S n => scale_us n (us * 10) end.

(** One or two digits; the first has been checked. *)
Definition one_or_two (p : string) : Z * string :=
  let v := digit_val (deref p) in
  let p := advance p in
  if isdigit (deref p) then (v * 10 + digit_val (deref p), advance p) else (v, p).

(** The UTC offset after its sign: the offset in seconds or [None] for an
    error at the first digit, and the error of the minutes. *)
Definition parse_utc_offset (p : string) : option Z * list date_error :=
  if negb (isdigit (deref p)) then (None, [DATE_OFFSET])
  else
    let '(utc_h, p) := one_or_two p in
    let offset := utc_h * 3600 in
    if char_is p NUL then (Some offset, [])
    else
      let p := skip_char ":" p in
      if negb (isdigit (deref p)) then (Some offset, [DATE_OFFSET_MINUTE])
      else
        let '(utc_m, p) := one_or_two p in
        let offset := offset + utc_m * 60 in
        if char_is p NUL then (Some offset, [])
        else
          let p := skip_char ":" p in
          if negb (isdigit (deref p)) then (Some offset, [])
          else let '(utc_s, p) := one_or_two p in (Some (offset + utc_s), []).

Section Parse.
Context {zone : Type} {ops : ZoneOps zone}.
(** [find_offset] is the global [findCreateOffsetZone(seconds_east)], whose
    null pointer for 0 is the zone UTC; [xsink] says whether an exception sink
    was passed. *)
Context (find_offset : Z -> zone) (xsink : bool) (n_zone : zone).

Definition raise (l : list date_error) : list date_error := if xsink then l else [].

(** From the time zone on. *)
Definition parse_zone (y mo d h mi s us : Z) (p : string)
    : qore_absolute_time zone * list date_error :=
  let p := skip_char " " p in
  if char_is p "Z" then (abs_set_date zone_utc y mo d h mi s us, [])
  else if char_is p "+" || char_is p "-" then
    let mult := if char_is p "-" then -1 else 1 in
    match parse_utc_offset (advance p) with
    | (None, errs) => (abs_set_date n_zone y mo d h mi s us, raise errs)
    | (Some offset, errs) =>
      (abs_set_date (find_offset (offset * mult)) y mo d h mi s us, raise errs)
    end
  else (abs_set_date n_zone y mo d h mi s us, []).

(** From the microseconds on. *)
Definition parse_us (y mo d h mi s : Z) (p : string) : qore_absolute_time zone * list date_error :=
  if char_is p NUL then (abs_set_date n_zone y mo d h mi s 0, [])
  else if char_is p "." then
    let p := advance p in
    if negb (isdigit (deref p)) then
      (abs_set_date n_zone y mo d h mi s 0, raise [DATE_MICROSECOND])
    else
      let '(dlen, us, p) := read_us 0 0 p in
      let us := scale_us (6 - dlen) us in
      if char_is p NUL then (abs_set_date n_zone y mo d h mi s us, [])
      else parse_zone y mo d h mi s us p
  else parse_zone y mo d h mi s 0 p.

(** From the hour on. An exception for the minutes does not end the call. *)
Definition parse_time (y mo d : Z) (p : string) : qore_absolute_time zone * list date_error :=
  let '(h, p) := get_uint p 2 in
  if h <? 0 then (abs_set_date n_zone y mo d 0 0 0 0, [])
  else if xsink && (23 <? h) then (abs_set_date n_zone y mo d h 0 0 0, [DATE_HOUR_RANGE])
  else
    let needs_sep := char_is p ":" in
    let p := skip_char ":" p in
    let '(mi, p) := get_uint p 2 in
    if mi <? 0 then (abs_set_date n_zone y mo d h 0 0 0, raise [DATE_MINUTE])
    else
      let errs := if xsink && (59 <? mi) then [DATE_MINUTE_RANGE] else [] in
      if needs_sep && negb (char_is p ":") then
        (abs_set_date n_zone y mo d h mi 0 0,
         errs ++ (if char_is p NUL then [] else raise [DATE_MINUTE_SEP]))%list
      else
        let p := if needs_sep then advance p else p in
        let '(s, p) := get_uint p 2 in
        if s <? 0 then (abs_set_date n_zone y mo d h mi 0 0, errs)
        else if xsink && (59 <? s) then
          (abs_set_date n_zone y mo d h mi s 0, errs ++ [DATE_SECOND_RANGE])%list
        else let '(t, errs') := parse_us y mo d h mi s p in (t, errs ++ errs')%list.

(** [set(str, n_zone, xsink)] *)
Definition abs_set_str (str : string) : qore_absolute_time zone * list date_error :=
  if (String.length str <? 8)%nat then (abs_set n_zone 0 0, raise [DATE_TOO_SHORT])
  else
    let '(y, p) := get_uint str 4 in
    if y <? 0 then (abs_set n_zone 0 0, raise [DATE_YEAR])
    else
      let needs_sep := char_is p "-" in
      let p := skip_char "-" p in
      let '(mo, p) := get_uint p 2 in
      if mo <? 0 then (abs_set_date n_zone y 1 1 0 0 0 0, raise [DATE_MONTH])
      else if xsink && ((mo <? 1) || (12 <? mo)) then
        (abs_set_date n_zone y mo 1 0 0 0 0, [DATE_MONTH_RANGE])
      else if needs_sep && negb (char_is p "-") then
        (abs_set_date n_zone y mo 1 0 0 0 0, raise [DATE_MONTH_SEP])
      else
        let p := if needs_sep then advance p else p in
        let '(d, p) := get_uint p 2 in
        if d <? 0 then (abs_set_date n_zone y mo 1 0 0 0 0, raise [DATE_DAY])
        else if xsink && ((d <? 1) || ((28 <? d) && (getLastDayOfMonth mo y <? d))) then
          (abs_set_date n_zone y mo d 0 0 0 0, [DATE_DAY_RANGE])
        else if char_is p "Z" || (char_is p " " && char_is (advance p) "Z") then
          (abs_set_date zone_utc y mo d 0 0 0 0, [])
        else
          let p := if char_is p " " || char_is p "t" || char_is p "T" || char_is p "-"
                   then advance p else p in
          parse_time y mo d p.
End Parse.

(** ** Relative dates *)

(** [strtoll(str, 0, 10)] and [atoi]: white space, sign, digits. *)
Definition is_space (c : ascii) : bool :=
  (code c =? 32) || ((9 <=? code c) && (code c <=? 13)).
Fixpoint skip_space (p : string) : string :=
  match p with
  | String c p' => if is_space c then skip_space p' else p
  | EmptyString => p
  end.
Definition c_strtol (lo hi : Z) (str : string) : Z :=
  let p := skip_space str in
  let neg := char_is p "-" in
  let p := if neg || char_is p "+" then advance p else p in
  let v := fst (read_digits 0 p) in
  let v := if neg then - v else v in
  if v <? lo then lo else if hi <? v then hi else v.
Definition strtoll := c_strtol (-9223372036854775808) 9223372036854775807.
Definition atoi (str : string) : Z := i32 (strtoll str).

(** [strchr(str, c)]: the text from the first [c] on. *)
Fixpoint strchr (str : string) (c : ascii) : option string :=
  match str with
  | EmptyString => None
  | String a rest => if Ascii.eqb a c then Some str else strchr rest c
  end.

(** [(int)pow(10.0, k)] *)
Definition pow10 (k : Z) : Z := if k <? 0 then 0 else 10 ^ k.

(** The result of [setIso8601]: a duration, a text with a fraction, whose
    value is computed in floating point and is not modelled, or a read behind
    the terminator of the text. *)
Inductive iso_result := IsoOk (t : qore_relative_time) | IsoFraction | IsoOverrun.

Definition upd_year (t : qore_relative_time) (v : Z) :=
  Tm (year t + v) (month t) (day t) (hour t) (minute t) (second t) (us t).
Definition upd_month (t : qore_relative_time) (v : Z) :=
  Tm (year t) (month t + v) (day t) (hour t) (minute t) (second t) (us t).
Definition upd_day (t : qore_relative_time) (v : Z) :=
  Tm (year t) (month t) (day t + v) (hour t) (minute t) (second t) (us t).
Definition upd_hour (t : qore_relative_time) (v : Z) :=
  Tm (year t) (month t) (day t) (hour t + v) (minute t) (second t) (us t).
Definition upd_minute (t : qore_relative_time) (v : Z) :=
  Tm (year t) (month t) (day t) (hour t) (minute t + v) (second t) (us t).
Definition upd_second (t : qore_relative_time) (v : Z) :=
  Tm (year t) (month t) (day t) (hour t) (minute t) (second t + v) (us t).
Definition upd_us (t : qore_relative_time) (v : Z) :=
  Tm (year t) (month t) (day t) (hour t) (minute t) (second t) (us t + v).

(** [get_int_or_float]: [None] for an error; the flag says that a decimal
    point follows the digits. *)
Definition get_int_or_float (p : string) : option (Z * bool * string) :=
  let neg := char_is p "-" in
  let p := if neg then advance p else p in
  if negb (isdigit (deref p)) then None
  else
    let '(rc, p) := read_digits 0 p in
    Some ((if neg then - rc else rc), char_is p ".", p).

(** The loop of [setIso8601]; each iteration consumes a character, so the
    length of the text bounds the iterations. *)
Fixpoint iso_loop (fuel : nat) (tm : bool) (t : qore_relative_time) (p : string) : iso_result :=
  match fuel with
  | O => IsoOk t
  | S fuel =>
    let '(tm, p) := if char_is p "T" || char_is p "t" then (true, advance p) else (tm, p) in
    match get_int_or_float p with
    | None => IsoOk t
    | Some (_, true, _) => IsoFraction
    | Some (val, false, p) =>
      let c := deref p in
      let next t := match p with
                    | EmptyString => IsoOverrun
                    | _ => iso_loop fuel tm t (advance p)
                    end in
      if Ascii.eqb c "Y" || Ascii.eqb c "y" then next (upd_year t val)
      else if Ascii.eqb c "M" || Ascii.eqb c "m" then
        next (if tm then upd_minute t val else upd_month t val)
      else if Ascii.eqb c "D" || Ascii.eqb c "d" then next (upd_day t val)
      else if Ascii.eqb c "H" || Ascii.eqb c "h" then
        if tm then next (upd_hour t val) else IsoOk t
      else if Ascii.eqb c "S" || Ascii.eqb c "s" then
        if tm then next (upd_second t val) else IsoOk t
      else if Ascii.eqb c "u" then if tm then next (upd_us t val) else IsoOk t
      else next t
    end
  end.

Definition setIso8601 (str : string) : iso_result :=
  let p := if char_is str "P" || char_is str "p" then advance str else str in
  iso_loop (S (String.length p)) false zero_tm p.

(** [qore_relative_time::set(str)] *)
Definition rel_set_str (str : string) : iso_result :=
  if char_is str "P" || char_is str "p" then setIso8601 str
  else
    let date := strtoll str in
    let p := strchr str "." in
    let l := match p with
             | Some p => (String.length str - String.length p)%nat
             | None => String.length str
             end in
    let date := if (l =? 8)%nat then date * 1000000 else date in
    let us :=
      match p with
      | Some p =>
        let us := atoi (advance p) in
        if negb (us =? 0) then us * pow10 (6 - Z.of_nat (String.length (advance p))) else us
      | None => 0
      end in
    IsoOk (rel_setLiteral date us).

(** ** Output *)

(** [trim_trailing(c)]: removes the characters [c] at the end. *)
Fixpoint trim_trailing (c : ascii) (s : string) : string :=
  match s with
  | EmptyString => EmptyString
  | String a s =>
    match trim_trailing c s with
    | EmptyString => if Ascii.eqb a c then EmptyString else String a EmptyString
    | s => String a s
    end
  end.

Definition plural (n : Z) : string := if n =? 1 then "" else "s".

(** [qore_relative_time::getAsString] *)
Definition rel_getAsString (t : qore_relative_time) : string :=
  let field n nm := if negb (n =? 0) then " " ++ fmt_d n ++ " " ++ nm ++ plural n else "" in
  let f := negb (year t =? 0) || negb (month t =? 0) || negb (day t =? 0)
           || negb (hour t =? 0) || negb (minute t =? 0) in
  "<time:" ++ field (year t) "year" ++ field (month t) "month" ++ field (day t) "day"
  ++ field (hour t) "hour" ++ field (minute t) "minute"
  ++ (if negb (second t =? 0) || (negb f && (us t =? 0))
      then " " ++ fmt_d (second t) ++ " second" ++ plural (second t) else "")
  ++ (if negb (us t =? 0) then
        let ms := us t /c 1000 in
        if ms * 1000 =? us t then " " ++ fmt_d ms ++ " millisecond" ++ plural ms
        else " " ++ fmt_d (us t) ++ " microsecond" ++ plural (us t)
      else "")
  ++ ">".

(** The common date and time form with separator [sep]. *)
Definition date_time_text (sep : string) (t : qore_simple_tm) : string :=
  fmt_0d 4 (year t) ++ "-" ++ fmt_0d 2 (month t) ++ "-" ++ fmt_0d 2 (day t) ++ sep
  ++ fmt_0d 2 (hour t) ++ ":" ++ fmt_0d 2 (minute t) ++ ":" ++ fmt_0d 2 (second t).

(** The "IF" formats: ISO-8601 dates and durations. *)
Definition iso_date_text (t : qore_simple_tm) (utcoffset : Z) : string :=
  date_time_text "T" t
  ++ (if negb (us t =? 0) then trim_trailing "0" ("." ++ fmt_0d 6 (us t)) else "")
  ++ concatOffset utcoffset.

Definition opt_field (n : Z) (c : ascii) : string :=
  if negb (n =? 0) then fmt_d n ++ String c "" else "".

Definition iso_duration_text (t : qore_relative_time) : string :=
  let body :=
    opt_field (year t) "Y"%char ++ opt_field (month t) "M"%char ++ opt_field (day t) "D"%char
    ++ (if negb (hour t =? 0) || negb (minute t =? 0) || negb (second t =? 0)
           || negb (us t =? 0) then
          "T" ++ opt_field (hour t) "H"%char ++ opt_field (minute t) "M"%char
          ++ (if negb (us t =? 0) then
                trim_trailing "0" (fmt_d (second t) ++ "." ++ fmt_0d 6 (us t)) ++ "S"
              else opt_field (second t) "S"%char)
        else "") in
  "P" ++ (if (String.length body =? 0)%nat then "0D" else body).

Section Format.
Context {zone : Type} {ops : ZoneOps zone}.

(** [qore_absolute_time::getAsString]; [None] is an access outside of the
    table of day names. *)
Definition abs_getAsString (t : qore_absolute_time zone) : option string :=
  let i := abs_get t in
  wday ← at_index days (getDayOfWeek (year (ti_tm i)) (month (ti_tm i)) (day (ti_tm i)));
  let zn := match zname i with Some z => z | None => "" end in
  Some (date_time_text " " (ti_tm i) ++ "." ++ fmt_0d 6 (us (ti_tm i)) ++ " " ++ abbr wday
        ++ " " ++ concatOffset (utcoffset i)
        ++ (if negb (String.length zn =? 0)%nat && negb (char_is zn "+") && negb (char_is zn "-")
            then " (" ++ zn ++ ")" else "")).

(** The name of a month, or the text that the code prints for a number that
    is none. *)
Definition month_text (sel : date_s -> string) (alt : string) (m : Z) : option string :=
  if negb (m =? 0) && (m <=? 12) then
    x ← at_index months (m - 1); Some (sel x)
  else Some alt.

Definition day_text (sel : date_s -> string) (i : qore_time_info zone) : option string :=
  x ← at_index days (getDayOfWeek (year (ti_tm i)) (month (ti_tm i)) (day (ti_tm i)));
  Some (sel x).

(** The cases of the switch of [format]. Each gives the number of characters of
    the format [s] that are consumed and the text that is put out; [None] is
    undefined behaviour (an index outside of the name tables, a null name). *)
Definition emit (n : nat) (x : string) : option (nat * string) := Some (n, x).
Definition emit_opt (n : nat) (x : option string) : option (nat * string) :=
  x ← x; Some (n, x).

Definition s_is (k : nat) (s : string) (c : ascii) : bool :=
  char_is (Nat.iter k advance s) c.

(** case 'Y' *)
Definition format_Y (t : qore_simple_tm) (s : string) : option (nat * string) :=
  if negb (s_is 1 s "Y") then emit 1 "Y"
  else if s_is 2 s "Y" && s_is 3 s "Y" then emit 4 (fmt_0d 4 (year t))
  else emit 2 (fmt_0d 2 (year t - (year t /c 100) * 100)).

(** case 'M' *)
Definition format_M (t : qore_simple_tm) (s : string) : option (nat * string) :=
  if s_is 1 s "M" then emit 2 (fmt_0d 2 (month t))
  else if s_is 1 s "o" && s_is 2 s "n" then
    if s_is 3 s "t" && s_is 4 s "h" then
      emit_opt 5 (month_text long_name ("Month" ++ fmt_d (month t - 1)) (month t))
    else emit_opt 3 (month_text abbr ("M" ++ fmt_0d 2 (month t)) (month t))
  else if s_is 1 s "O" && s_is 2 s "N" then
    if s_is 3 s "T" && s_is 4 s "H" then
      emit_opt 5 (month_text upper_long_name ("MONTH" ++ fmt_d (month t)) (month t))
    else emit_opt 3 (month_text upper_abbr ("M" ++ fmt_0d 2 (month t)) (month t))
  else emit 1 (fmt_d (month t)).

(** case 'D' *)
Definition format_D (d : qore_date_private zone) (i : qore_time_info zone) (s : string)
    : option (nat * string) :=
  if s_is 1 s "D" then emit 2 (fmt_0d 2 (day (ti_tm i)))
  else if s_is 1 s "a" && s_is 2 s "y" then emit_opt 3 (day_text long_name i)
  else if s_is 1 s "A" && s_is 2 s "Y" then emit_opt 3 (day_text upper_long_name i)
  else if s_is 1 s "y" then emit_opt 2 (day_text abbr i)
  else if s_is 1 s "Y" then emit_opt 2 (day_text upper_abbr i)
  else if s_is 1 s "n" then emit 2 (fmt_d (date_getDayNumber d))
  else if s_is 1 s "N" then emit 2 (fmt_0d 3 (date_getDayNumber d))
  else emit 1 (fmt_d (day (ti_tm i))).

(** case 'H', case 'h' *)
Definition format_H (t : qore_simple_tm) (s : string) : option (nat * string) :=
  if s_is 1 s "H" then emit 2 (fmt_0d 2 (hour t)) else emit 1 (fmt_d (hour t)).
Definition format_h (t : qore_simple_tm) (s : string) : option (nat * string) :=
  if s_is 1 s "h" then emit 2 (fmt_0d 2 (ampm (hour t))) else emit 1 (fmt_d (ampm (hour t))).

(** case 'I' *)
Definition format_I (d : qore_date_private zone) (i : qore_time_info zone) (s : string)
    : option (nat * string) :=
  if s_is 1 s "F" then
    emit 2 (if isRelative d then iso_duration_text (ti_tm i)
            else iso_date_text (ti_tm i) (utcoffset i))
  else
    let '(yr, wk, wd) := match d with DAbs a => abs_getISOWeek a | DRel _ => (0, 0, 0) end in
    if s_is 1 s "y" then emit 2 (fmt_d yr)
    else if s_is 1 s "Y" then emit 2 (fmt_0d 4 yr)
    else if s_is 1 s "w" then emit 2 (fmt_d wk)
    else if s_is 1 s "W" then emit 2 (fmt_0d 2 wk)
    else if s_is 1 s "d" || s_is 1 s "D" then emit 2 (fmt_d wd)
    else emit 1 (fmt_0d 4 yr ++ "-W" ++ fmt_0d 2 wk ++ "-" ++ fmt_d wd).

(** case 'm', case 'S' *)
Definition format_m (t : qore_simple_tm) (s : string) : option (nat * string) :=
  if s_is 1 s "m" then emit 2 (fmt_0d 2 (minute t))
  else if s_is 1 s "s" then emit 2 (fmt_0d 3 (us t /c 1000))
  else emit 1 (fmt_d (minute t)).
Definition format_S (t : qore_simple_tm) (s : string) : option (nat * string) :=
  if s_is 1 s "S" then emit 2 (fmt_0d 2 (second t)) else emit 1 (fmt_d (second t)).

(** case 'u', case 'x' *)
Definition format_u (t : qore_simple_tm) (s : string) : option (nat * string) :=
  if s_is 1 s "u" then emit 2 (fmt_0d 3 (us t /c 1000))
  else if s_is 1 s "s" then emit 2 (fmt_0d 6 (us t))
  else emit 1 (fmt_d (us t /c 1000)).
Definition format_x (t : qore_simple_tm) (s : string) : option (nat * string) :=
  if s_is 1 s "x" then emit 2 (fmt_0d 6 (us t)) else emit 1 (fmt_d (us t)).

(** The switch; the case 'y' trims the whole output [str]. *)
Definition format_step (d : qore_date_private zone) (i : qore_time_info zone)
    (s str : string) : option (nat * string) :=
  let t := ti_tm i in
  let append r := r ← r; Some (fst r, str ++ snd r) in
  if s_is 0 s "y" then Some (1%nat, trim_trailing "0" (str ++ fmt_0d 6 (us t)))
  else append
    (if s_is 0 s "Y" then format_Y t s
     else if s_is 0 s "M" then format_M t s
     else if s_is 0 s "D" then format_D d i s
     else if s_is 0 s "H" then format_H t s
     else if s_is 0 s "h" then format_h t s
     else if s_is 0 s "I" then format_I d i s
     else if s_is 0 s "P" then emit 1 (if 11 <? hour t then "PM" else "AM")
     else if s_is 0 s "p" then emit 1 (if 11 <? hour t then "pm" else "am")
     else if s_is 0 s "m" then format_m t s
     else if s_is 0 s "S" then format_S t s
     else if s_is 0 s "u" then format_u t s
     else if s_is 0 s "x" then format_x t s
     else if s_is 0 s "z" then emit_opt 1 (zname i)
     else if s_is 0 s "Z" then emit 1 (concatOffset (utcoffset i))
     else emit 1 (String (deref s) "")).

Fixpoint advance_by (n : nat) (s : string) : string :=
  match n with O => s | S n => advance_by n (advance s) end.

(** The loop over the format; every turn consumes at least one character. *)
Fixpoint format_loop (fuel : nat) (d : qore_date_private zone) (i : qore_time_info zone)
    (s str : string) : option string :=
  match fuel with
  | O => Some str
  | S fuel =>
    if char_is s NUL then Some str
    else
      r ← format_step d i s str;
      format_loop fuel d i (advance_by (fst r) s) (snd r)
  end.

Definition date_format (d : qore_date_private zone) (fmt str : string) : option string :=
  format_loop (String.length fmt) d (date_get d) fmt str.

Definition date_getAsString (d : qore_date_private zone) : option string :=
  match d with DAbs a => abs_getAsString a | DRel r => Some (rel_getAsString r) end.
End Format.

(** * Properties *)

#[local] Arguments Z.mul : simpl never.
#[local] Arguments Z.add : simpl never.
#[local] Arguments digit_val : simpl never.
#[local] Arguments isdigit : simpl never.

(** ** Reading digits back *)

Lemma isdigit_code c : isdigit c = true -> (code c <? 48) || (57 <? code c) = false.
Proof.
  unfold isdigit. intros H. apply andb_true_iff in H as [H1 H2].
  apply Z.leb_le in H1, H2. zcases; simpl; lia.
Qed.

Lemma get_uint_loop_dg w k v n p :
  0 <= n < 10 ^ Z.of_nat w ->
  get_uint_loop (w + k) v (dg w n p) = get_uint_loop k (v * 10 ^ Z.of_nat w + n) p.
Proof.
  revert k v n p. induction w as [|w IH]; intros k v n p Hn.
  - change (10 ^ Z.of_nat 0) with 1 in *. simpl. f_equal. lia.
  - cbn [dg]. replace (S w + k)%nat with (w + S k)%nat by lia.
    rewrite IH by (apply div10_lt; exact Hn). cbn [get_uint_loop deref advance].
    destruct (digit_char_spec (n mod 10)) as [Hd Hv]; [clia|].
    rewrite isdigit_code, Hv by exact Hd. f_equal. rewrite pow10_S. clia.
Qed.

Lemma get_uint_dg w n p : 0 <= n < 10 ^ Z.of_nat w -> get_uint (dg w n p) w = (n, p).
Proof.
  intros Hn. unfold get_uint. pose proof (get_uint_loop_dg w 0 0 n p Hn) as E.
  rewrite Nat.add_0_r in E. rewrite E. reflexivity.
Qed.

Lemma read_digits_dg w v n p :
  0 <= n < 10 ^ Z.of_nat w ->
  read_digits v (dg w n p) = read_digits (v * 10 ^ Z.of_nat w + n) p.
Proof.
  revert v n p. induction w as [|w IH]; intros v n p Hn.
  - change (10 ^ Z.of_nat 0) with 1 in *. cbn [dg]. f_equal. lia.
  - cbn [dg]. rewrite IH by (apply div10_lt; exact Hn). cbn [read_digits].
    destruct (digit_char_spec (n mod 10)) as [-> ->]; [clia|].
    f_equal. rewrite pow10_S. clia.
Qed.

Lemma read_us_dg w dl v n p :
  0 <= n < 10 ^ Z.of_nat w -> (dl + w <= 6)%nat ->
  read_us dl v (dg w n p) = read_us (dl + w) (v * 10 ^ Z.of_nat w + n) p.
Proof.
  revert dl v n p. induction w as [|w IH]; intros dl v n p Hn Hw.
  - change (10 ^ Z.of_nat 0) with 1 in *. cbn [dg]. f_equal; lia.
  - cbn [dg]. rewrite IH by first [lia | apply div10_lt; exact Hn]. cbn [read_us].
    destruct (digit_char_spec (n mod 10)) as [-> ->]; [clia|].
    destruct (Nat.ltb_spec (dl + w) 6); [|lia]. f_equal; [lia|]. rewrite pow10_S. clia.
Qed.

Lemma scale_us_pow n v : scale_us n v = v * 10 ^ Z.of_nat n.
Proof.
  revert v. induction n as [|n IH]; intros v; simpl scale_us; [simpl; lia|].
  rewrite IH, pow10_S. lia.
Qed.

Lemma one_or_two_dg n p : 0 <= n < 100 -> one_or_two (dg 2 n p) = (n, p).
Proof.
  intros Hn. unfold one_or_two. cbn [dg deref advance].
  destruct (digit_char_spec (n / 10 mod 10)) as [H1 V1]; [clia|].
  destruct (digit_char_spec (n mod 10)) as [H2 V2]; [clia|].
  rewrite H2, V1, V2. f_equal. clia.
Qed.

(** ** Trailing zeros *)

Lemma trim_trailing_snoc c s a :
  trim_trailing c (String.append s (String a ""))
  = if Ascii.eqb a c then trim_trailing c s else String.append s (String a "").
Proof.
  induction s as [|x s IH].
  - simpl. destruct (Ascii.eqb a c); reflexivity.
  - change (String.append (String x s) (String a "")) with (String x (String.append s (String a ""))).
    cbn [trim_trailing]. rewrite IH. destruct (Ascii.eqb a c); [reflexivity|].
    destruct s; reflexivity.
Qed.

(** Trimming the zeros of a number that is not 0 leaves a shorter number. *)
Lemma trim_dg w n :
  0 < n < 10 ^ Z.of_nat w ->
  exists w' n', (1 <= w' <= w)%nat /\ 0 <= n' < 10 ^ Z.of_nat w' /\
    n = n' * 10 ^ Z.of_nat (w - w') /\ trim_trailing "0" (dg w n "") = dg w' n' "".
Proof.
  revert n. induction w as [|w IH]; intros n Hn; [change (10 ^ Z.of_nat 0) with 1 in Hn; lia|].
  cbn [dg]. change (String (digit_char (n mod 10)) "")
    with (String.append "" (String (digit_char (n mod 10)) "")).
  rewrite <- dg_app, trim_trailing_snoc, digit_char_zero by clia.
  destruct (Z.eqb_spec (n mod 10) 0) as [E|E].
  - destruct (IH (n / 10)) as (w' & n' & Hw & Hn' & En & Et).
    { pose proof (div10_lt w n ltac:(lia)). clia. }
    exists w', n'. split; [lia|]. split; [exact Hn'|]. split; [|exact Et].
    replace (S w - w')%nat with (S (w - w')) by lia. rewrite pow10_S. clia.
  - exists (S w), n. split; [lia|]. split; [lia|].
    rewrite Nat.sub_diag. change (10 ^ Z.of_nat 0) with 1. split; [lia|]. apply dg_app.
Qed.

(** The fraction of a second of the "IF" format. *)
Lemma us_text_read u p :
  0 < u < 1000000 -> isdigit (deref p) = false ->
  exists q, String.append (trim_trailing "0" ("." ++ fmt_0d 6 u)) p = String "." q /\
    isdigit (deref q) = true /\
    let '(dlen, v, rest) := read_us 0 0 q in scale_us (6 - dlen) v = u /\ rest = p.
Proof.
  intros Hu Hp. rewrite fmt_0d_dg by (simpl; lia).
  destruct (trim_dg 6 u) as (w & n & Hw & Hn & En & Et); [simpl; lia|].
  change (trim_trailing "0" ("." ++ dg 6 u ""))
    with (match trim_trailing "0" (dg 6 u "") with
          | EmptyString => if Ascii.eqb "." "0" then EmptyString else String "." EmptyString
          | s => String "." s end).
  rewrite Et. destruct (dg_head w n "") as (c & q & Ec & Hc); [lia|]. rewrite Ec, <- Ec.
  exists (dg w n p). split.
  { change (String.append (String "." (dg w n "")) p) with (String "." (String.append (dg w n "") p)).
    rewrite dg_app. reflexivity. }
  destruct (dg_head w n p) as (c' & q' & Ec' & Hc'); [lia|]. split; [rewrite Ec'; exact Hc'|].
  rewrite read_us_dg by (assumption || lia).
  replace (read_us (0 + w) (0 * 10 ^ Z.of_nat w + n) p) with ((0 + w)%nat, 0 * 10 ^ Z.of_nat w + n, p)
    by (destruct p as [|x p]; [reflexivity|cbn [read_us]; simpl in Hp; rewrite Hp; reflexivity]).
  rewrite scale_us_pow. split; [|reflexivity]. rewrite En. f_equal; lia.
Qed.

(** The UTC offset at the end. *)
Lemma concatOffset_read off :
  -360000 < off < 360000 ->
  exists sg q, concatOffset off = String sg q /\ Ascii.eqb sg "-" = (off <? 0)
    /\ Ascii.eqb sg "+" = negb (off <? 0) /\ isdigit sg = false /\
    parse_utc_offset q = (Some (Z.abs off), []).
Proof.
  intros Hr. destruct (concatOffset_dg off Hr) as (h & m & x & E & Hh & Hm & Hx & ->).
  exists (if off <? 0 then "-"%char else "+"%char). eexists.
  split; [destruct (off <? 0); reflexivity|].
  split; [destruct (off <? 0); reflexivity|]. split; [destruct (off <? 0); reflexivity|].
  split; [destruct (off <? 0); reflexivity|].
  assert (forall n p, isdigit (deref (dg 2 n p)) = true) as Hd
    by (intros n p; destruct (dg_head 2 n p) as (c & q & -> & Hc); [lia|exact Hc]).
  unfold parse_utc_offset. rewrite Hd, one_or_two_dg by lia. cbn [negb].
  change (char_is (String ":" ?p) NUL) with false. change (skip_char ":" (String ":" ?p)) with p.
  cbv iota. rewrite Hd, one_or_two_dg by lia. cbn [negb].
  destruct (Z.eqb_spec x 0) as [->|Hx0].
  - change (char_is "" NUL) with true. cbv iota. do 2 f_equal; lia.
  - change (char_is (String ":" ?p) NUL) with false. change (skip_char ":" (String ":" ?p)) with p.
    cbv iota. rewrite Hd, one_or_two_dg by lia. cbn [negb]. do 2 f_equal; lia.
Qed.

(** ** Absolute dates *)

(** The date and time of the "IF" format before [p]. *)
Definition iso_text (t : qore_simple_tm) (p : string) : string :=
  dg 4 (year t) (String "-" (dg 2 (month t) (String "-" (dg 2 (day t) (String "T"
    (dg 2 (hour t) (String ":" (dg 2 (minute t) (String ":" (dg 2 (second t) p)))))))))).

Lemma tm_field_bounds t :
  valid_tm t ->
  1 <= month t <= 12 /\ 1 <= day t <= 31 /\ 0 <= hour t < 24 /\ 0 <= minute t < 60
  /\ 0 <= second t < 60.
Proof.
  intros [[Hm Hd] (Hh & Hmi & Hs)]. pose proof (month_days_bounds (month t) (year t) Hm). lia.
Qed.

Lemma date_time_text_dg t p :
  valid_tm t -> 0 <= year t <= 9999 ->
  String.append (date_time_text "T" t) p = iso_text t p.
Proof.
  intros V Hy. destruct (tm_field_bounds t V) as (Hm & Hd & Hh & Hmi & Hs).
  unfold date_time_text, iso_text. rewrite !fmt_0d_dg by (simpl; lia).
  rewrite !dg_app. reflexivity.
Qed.

Section ParseLemmas.
Context {zone : Type} {ops : ZoneOps zone}.
Context (find_offset : Z -> zone) (xsink : bool) (n_zone : zone).

(** The date and time are read up to the fraction of a second. *)
Lemma abs_set_str_iso t p :
  valid_tm t -> 0 <= year t <= 9999 ->
  abs_set_str find_offset xsink n_zone (iso_text t p)
  = parse_us find_offset xsink n_zone (year t) (month t) (day t) (hour t) (minute t) (second t) p.
Proof.
  intros V Hy. destruct (tm_field_bounds t V) as (Hm & Hd & Hh & Hmi & Hs).
  destruct V as [[_ Hdm] _]. unfold abs_set_str, iso_text.
  match goal with |- context [(String.length ?s <? 8)%nat] =>
    replace (String.length s <? 8)%nat with false
  end.
  2:{ symmetry. apply Nat.ltb_ge. rewrite !dg_length. cbn [String.length].
      rewrite !dg_length. cbn [String.length]. rewrite !dg_length. lia. }
  rewrite get_uint_dg by (simpl; lia). rewrite (proj2 (Z.ltb_ge (year t) 0)) by lia.
  change (char_is (String "-" ?q) "-") with true. change (skip_char "-" (String "-" ?q)) with q.
  cbv zeta. rewrite get_uint_dg by (simpl; lia).
  rewrite (proj2 (Z.ltb_ge (month t) 0)), (proj2 (Z.ltb_ge (month t) 1)),
    (proj2 (Z.ltb_ge 12 (month t))) by lia.
  change (char_is (String "-" ?q) "-") with true. change (false || false) with false.
  rewrite andb_false_r. change (true && negb true) with false. cbv iota. cbn [advance].
  rewrite get_uint_dg by (simpl; lia).
  rewrite getLastDayOfMonth_spec, (proj2 (Z.ltb_ge (day t) 0)), (proj2 (Z.ltb_ge (day t) 1)),
    (proj2 (Z.ltb_ge (month_days (month t) (year t)) (day t))) by lia.
  rewrite (andb_false_r (28 <? day t)). change (false || false) with false.
  rewrite andb_false_r. cbv iota.
  change (char_is (String "T" ?q) "Z") with false. change (char_is (String "T" ?q) " ") with false.
  change (char_is (String "T" ?q) "t") with false. change (char_is (String "T" ?q) "T") with true.
  cbn [orb andb advance].
  unfold parse_time. rewrite !get_uint_dg by (simpl; lia).
  rewrite (proj2 (Z.ltb_ge (hour t) 0)), (proj2 (Z.ltb_ge 23 (hour t))) by lia.
  rewrite andb_false_r.
  change (char_is (String ":" ?q) ":") with true. change (skip_char ":" (String ":" ?q)) with q.
  rewrite get_uint_dg by (simpl; lia).
  rewrite (proj2 (Z.ltb_ge (minute t) 0)), (proj2 (Z.ltb_ge 59 (minute t))) by lia.
  rewrite andb_false_r. change (char_is (String ":" ?q) ":") with true.
  change (true && negb true) with false. cbv iota. cbn [advance].
  rewrite get_uint_dg by (simpl; lia).
  rewrite (proj2 (Z.ltb_ge (second t) 0)), (proj2 (Z.ltb_ge 59 (second t))) by lia.
  rewrite andb_false_r. destruct (parse_us _ _ _ _ _ _ _ _ _ _). reflexivity.
Qed.

Lemma parse_zone_offset y mo d h mi s u off :
  -360000 < off < 360000 ->
  parse_zone find_offset xsink n_zone y mo d h mi s u (concatOffset off)
  = (abs_set_date (find_offset off) y mo d h mi s u, []).
Proof.
  intros Hr. destruct (concatOffset_read off Hr) as (sg & q & -> & Em & Ep & Hd & Eq).
  assert (Ascii.eqb sg " " = false /\ Ascii.eqb sg "Z" = false) as [E1 E2].
  { destruct (off <? 0); simpl in Em, Ep; apply Ascii.eqb_eq in Em || apply Ascii.eqb_eq in Ep;
      subst sg; split; reflexivity. }
  unfold parse_zone, skip_char, char_is. cbn [deref advance]. rewrite E1. cbn [deref advance].
  rewrite E2, Em, Ep, Eq. rewrite orb_comm, orb_negb_r. cbn [advance].
  unfold raise. destruct xsink;
    (replace (Z.abs off * (if off <? 0 then -1 else 1)) with off
      by (destruct (Z.ltb_spec off 0); lia)); reflexivity.
Qed.

Lemma parse_us_iso y mo d h mi s u off :
  0 <= u < 1000000 -> -360000 < off < 360000 ->
  parse_us find_offset xsink n_zone y mo d h mi s
    ((if negb (u =? 0) then trim_trailing "0" ("." ++ fmt_0d 6 u) else "") ++ concatOffset off)
  = (abs_set_date (find_offset off) y mo d h mi s u, []).
Proof.
  intros Hu Hr. destruct (concatOffset_read off Hr) as (sg & q & E & Em & Ep & Hd & Eq).
  assert (Ascii.eqb sg NUL = false /\ Ascii.eqb sg "." = false) as [E1 E2].
  { destruct (off <? 0); simpl in Em, Ep; apply Ascii.eqb_eq in Em || apply Ascii.eqb_eq in Ep;
      subst sg; split; reflexivity. }
  unfold parse_us. destruct (Z.eqb_spec u 0) as [->|Hn]; cbn [negb].
  - change ("" ++ concatOffset off) with (concatOffset off).
    assert (char_is (concatOffset off) NUL = false /\ char_is (concatOffset off) "." = false)
      as [-> ->] by (rewrite E; split; assumption).
    apply parse_zone_offset. exact Hr.
  - destruct (us_text_read u (concatOffset off)) as (q' & -> & Hq & HR); [lia|rewrite E; exact Hd|].
    change (char_is (String "." q') NUL) with false. change (char_is (String "." q') ".") with true.
    cbv iota. cbn [advance]. rewrite Hq. cbn [negb].
    destruct (read_us 0 0 q') as [[dlen v] rest]. destruct HR as [-> ->].
    assert (char_is (concatOffset off) NUL = false) as -> by (rewrite E; assumption).
    apply parse_zone_offset. exact Hr.
Qed.

End ParseLemmas.

(** ** Durations *)

Lemma read_digits_length v p v' q : read_digits v p = (v', q) -> (String.length q <= String.length p)%nat.
Proof.
  revert v. induction p as [|c p IH]; intros v; cbn [read_digits];
    [intros E; injection E as _ <-; reflexivity|].
  destruct (isdigit c); [intros H; apply IH in H; simpl; lia|].
  intros E. injection E as _ <-. reflexivity.
Qed.

Lemma get_int_length p v b q :
  get_int_or_float p = Some (v, b, q) -> (String.length q < String.length p)%nat.
Proof.
  unfold get_int_or_float. set (p1 := if char_is p "-" then advance p else p).
  assert (String.length p1 <= String.length p)%nat as Hp1
    by (unfold p1; destruct (char_is p "-"), p; simpl; lia).
  destruct (isdigit (deref p1)) eqn:Hd; [|discriminate]. simpl.
  destruct (read_digits 0 p1) as [rc r] eqn:Er. intros [= _ _ <-].
  destruct p1 as [|c p1]; [discriminate|]. simpl in *. rewrite Hd in Er.
  apply read_digits_length in Er. lia.
Qed.

(** The fuel of [setIso8601] is enough: more changes nothing. *)
Lemma iso_loop_fuel f1 f2 tm t p :
  (String.length p < f1)%nat -> (String.length p < f2)%nat ->
  iso_loop f1 tm t p = iso_loop f2 tm t p.
Proof.
  revert f2 tm t p. induction f1 as [|f1 IH]; intros f2 tm t p H1 H2; [lia|].
  destruct f2 as [|f2]; [lia|]. cbn [iso_loop].
  assert (exists tm1 p1, (if char_is p "T" || char_is p "t" then (true, advance p) else (tm, p))
     = (tm1, p1) /\ String.length p1 <= String.length p)%nat as (tm1 & p1 & -> & Hp1).
  { eexists _, _. split; [apply surjective_pairing|].
    destruct (_ || _); simpl; [destruct p; simpl; lia|lia]. }
  destruct (get_int_or_float p1) as [[[v []] q]|] eqn:Eg; [reflexivity| |reflexivity].
  apply get_int_length in Eg. destruct q as [|c q].
  - reflexivity.
  - simpl in Eg. assert (forall u, iso_loop f1 tm1 u q = iso_loop f2 tm1 u q) as En
      by (intros u; apply IH; lia).
    cbn [advance]. rewrite !En. reflexivity.
Qed.

(** [setIso8601]'s loop with the fuel that it needs. *)
Definition iso_run (tm : bool) (t : qore_relative_time) (p : string) : iso_result :=
  iso_loop (S (String.length p)) tm t p.

Definition int_field (n : Z) : Prop := -2147483648 <= n < 2147483648.

Lemma fmt_d_head n p :
  int_field n ->
  exists c q, String.append (fmt_d n) p = String c q /\ (c = "-"%char \/ isdigit c = true).
Proof.
  intros Hn. destruct (fmt_d_dg n) as (k & Hk & _ & ->); [unfold int_field in Hn; lia|].
  destruct (n <? 0).
  - eexists _, _. split; [reflexivity|]. left. reflexivity.
  - rewrite dg_app. destruct (dg_head k n (String.append "" p) Hk) as (c & q & -> & Hc). eauto.
Qed.

Lemma get_int_fmt n c p :
  int_field n -> isdigit c = false ->
  get_int_or_float (String.append (fmt_d n) (String c p)) = Some (n, Ascii.eqb c ".", String c p).
Proof.
  intros Hn Hc. destruct (fmt_d_dg n) as (k & Hk & Hlt & ->); [unfold int_field in Hn; lia|].
  assert (forall m, 0 <= m < 10 ^ Z.of_nat k ->
            isdigit (deref (dg k m (String c p))) = true /\
            char_is (dg k m (String c p)) "-" = false /\
            read_digits 0 (dg k m (String c p)) = (m, String c p)) as Hdg.
  { intros m Hm. rewrite read_digits_dg by exact Hm. cbn [read_digits]. rewrite Hc.
    unfold char_is. destruct (dg_head k m (String c p) Hk) as (x & q & -> & Hx). cbn [deref].
    split; [exact Hx|]. split; [apply isdigit_neq; [exact Hx|reflexivity]|]. f_equal; lia. }
  unfold get_int_or_float. destruct (Z.ltb_spec n 0).
  - change (String.append (String "-" (dg k (- n) "")) (String c p))
      with (String "-" (String.append (dg k (- n) "") (String c p))).
    rewrite dg_app. change (char_is (String "-" ?q) "-") with true. cbv iota. cbn [advance].
    change (String.append "" (String c p)) with (String c p).
    destruct (Hdg (- n)) as (-> & _ & ->); [lia|]. cbn [negb].
    rewrite Z.opp_involutive. reflexivity.
  - rewrite dg_app. change (String.append "" (String c p)) with (String c p).
    destruct (Hdg n) as (E1 & E2 & E3); [lia|].
    rewrite E2. cbv zeta iota. rewrite E1, E3. reflexivity.
Qed.

(** One field: the loop's switch. *)
Definition iso_field (c : ascii) (tm : bool) (t : qore_relative_time) (n : Z)
    : option qore_relative_time :=
  if Ascii.eqb c "Y" then Some (upd_year t n)
  else if Ascii.eqb c "M" then Some (if tm then upd_minute t n else upd_month t n)
  else if Ascii.eqb c "D" then Some (upd_day t n)
  else if Ascii.eqb c "H" then (if tm then Some (upd_hour t n) else None)
  else if Ascii.eqb c "S" then (if tm then Some (upd_second t n) else None)
  else None.

Lemma iso_run_field c tm t n p u :
  int_field n -> iso_field c tm t n = Some u ->
  iso_run tm t (String.append (fmt_d n) (String c p)) = iso_run tm u p.
Proof.
  intros Hn Hu.
  assert (isdigit c = false /\ Ascii.eqb c "." = false) as [Hd Hp].
  { unfold iso_field in Hu.
    destruct (Ascii.eqb_spec c "Y") as [->|]; [split; reflexivity|].
    destruct (Ascii.eqb_spec c "M") as [->|]; [split; reflexivity|].
    destruct (Ascii.eqb_spec c "D") as [->|]; [split; reflexivity|].
    destruct (Ascii.eqb_spec c "H") as [->|]; [split; reflexivity|].
    destruct (Ascii.eqb_spec c "S") as [->|]; [split; reflexivity|discriminate]. }
  unfold iso_run at 1. cbn [iso_loop].
  assert (forall x, isdigit x = false -> Ascii.eqb "-" x = false ->
            char_is (String.append (fmt_d n) (String c p)) x = false) as Hh.
  { intros x Hx Hm. destruct (fmt_d_head n (String c p) Hn) as (y & q & -> & [->|Hy]);
      [exact Hm|apply isdigit_neq; assumption]. }
  rewrite !Hh by reflexivity. cbn [orb]. rewrite get_int_fmt by assumption. rewrite Hp.
  cbn [deref advance].
  assert (forall v, iso_loop (String.length (String.append (fmt_d n) (String c p))) tm v p
                    = iso_run tm v p) as E
    by (intros v; apply iso_loop_fuel; [rewrite string_app_length; simpl; lia|lia]).
  rewrite !E. clear E Hh. unfold iso_field in Hu.
  destruct (Ascii.eqb_spec c "Y") as [->|]; [injection Hu as <-; reflexivity|].
  destruct (Ascii.eqb_spec c "M") as [->|]; [injection Hu as <-; reflexivity|].
  destruct (Ascii.eqb_spec c "D") as [->|]; [injection Hu as <-; reflexivity|].
  destruct (Ascii.eqb_spec c "H") as [->|]; [destruct tm; [injection Hu as <-; reflexivity|discriminate]|].
  destruct (Ascii.eqb_spec c "S") as [->|]; [destruct tm; [injection Hu as <-; reflexivity|discriminate]|].
  discriminate.
Qed.

(** A field that is omitted when it is 0. *)
Lemma iso_run_opt c tm t n p u :
  int_field n -> iso_field c tm t n = Some u -> iso_field c tm t 0 = Some t ->
  iso_run tm t (String.append (opt_field n c) p) = iso_run tm u p.
Proof.
  intros Hn Hu H0. unfold opt_field. destruct (Z.eqb_spec n 0) as [->|]; cbn [negb].
  - rewrite H0 in Hu. injection Hu as <-. reflexivity.
  - rewrite string_app_assoc. change (String.append (String c "") p) with (String c p).
    apply iso_run_field; assumption.
Qed.

Lemma opt_field_head n c p x :
  int_field n -> isdigit x = false -> Ascii.eqb "-" x = false -> char_is p x = false ->
  char_is (String.append (opt_field n c) p) x = false.
Proof.
  intros Hn Hx Hm Hp. unfold opt_field. destruct (n =? 0); cbn [negb]; [exact Hp|].
  rewrite string_app_assoc.
  destruct (fmt_d_head n (String.append (String c "") p) Hn) as (y & q & -> & [->|Hy]);
    [exact Hm|apply isdigit_neq; assumption].
Qed.

Lemma iso_loop_T f g t q :
  (String.length q <= f)%nat -> (String.length q <= g)%nat ->
  char_is q "T" = false -> char_is q "t" = false ->
  iso_loop (S f) false t (String "T" q) = iso_loop (S g) true t q.
Proof.
  intros Hf Hg H1 H2. cbn [iso_loop].
  change (char_is (String "T" q) "T") with true. cbn [orb advance]. rewrite H1, H2. cbn [orb].
  destruct (get_int_or_float q) as [[[v []] r]|] eqn:Eg; [reflexivity| |reflexivity].
  apply get_int_length in Eg. destruct r as [|c r]; [reflexivity|]. simpl in Eg. cbn [advance].
  assert (forall u, iso_loop f true u r = iso_loop g true u r) as E
    by (intros u; apply iso_loop_fuel; lia).
  rewrite !E. reflexivity.
Qed.

Lemma iso_run_T t q :
  char_is q "T" = false -> char_is q "t" = false ->
  iso_run false t (String "T" q) = iso_run true t q.
Proof. intros H1 H2. apply iso_loop_T; simpl; try assumption; lia. Qed.

Lemma string_length_0 s : String.length s = 0%nat -> s = "".
Proof. destruct s; [reflexivity|discriminate]. Qed.

(** ** The properties of dates as text *)

Section Properties.
Context {zone : Type} {ops : ZoneOps zone}.
Context (find_offset : Z -> zone).
(** The zone that [findCreateOffsetZone] returns has the offset asked for. *)
Hypothesis find_offset_at : forall s e, zone_offset (find_offset s) e = s.

(** C39: the ISO-8601 text of an absolute time (format "IF") is parsed back,
    without an exception, to a value in the zone of the printed UTC offset
    that denotes the same moment, to the microsecond. *)
Theorem iso_date_roundtrip xsink n_zone (t : qore_absolute_time zone) :
  let off := zone_offset (abs_zone t) (epoch t) in
  abs_ok t -> -360000 < off < 360000 -> 0 <= year (abs_tm t) <= 9999 ->
  MIN_EPOCH <= epoch t + off -> epoch t + off + 4295 < MAX_EPOCH ->
  exists text,
    date_format (DAbs t) "IF" "" = Some text /\
    abs_set_str find_offset xsink n_zone text
    = (AbsTime (epoch t) (abs_us t) (find_offset off), []).
Proof.
  intros off Hok Hr Hy H1 H2. exists (iso_date_text (abs_tm t) off). split.
  - unfold date_format, date_get, abs_get, abs_tm. cbn [String.length format_loop]. unfold off, zone_offset.
    destruct (zone_at (abs_zone t) (epoch t)) as [[o dst] zn]. cbn [fst].
    unfold format_step. cbn [ti_tm utcoffset time_info_set]. reflexivity.
  - destruct (abs_tm_spec t off eq_refl Hok H1 H2) as (V & Eu & _ & E).
    unfold iso_date_text. rewrite date_time_text_dg, abs_set_str_iso by assumption.
    unfold abs_ok in Hok. rewrite Eu, parse_us_iso by assumption.
    unfold abs_set_date. rewrite setLocalIntern_spec by (unfold in_i32; lia). cbv zeta.
    rewrite Z.div_small, Z.mod_small, Z.add_0_r, find_offset_at by lia.
    change (getEpochSecondsTime _ _ _ _ _ _) with (tm_epoch (abs_tm t)). rewrite E.
    do 2 f_equal. lia.
Qed.
End Properties.

(** The zones that the manager creates for offsets implement the interface. *)
Definition find_offset_safe (s : Z) : safe_zone :=
  if s =? 0 then utc_zone else SafeZone (Some (offset_zone s)) (offset_zone_safe _).

Lemma find_offset_safe_at s e : zone_offset (find_offset_safe s) e = s.
Proof. unfold find_offset_safe. destruct (Z.eqb_spec s 0) as [->|]; reflexivity. Qed.

Lemma iso_date_roundtrip_witness :
  let t := AbsTime 1709209815 500000 (find_offset_safe (-19800)) in
  exists text,
    date_format (DAbs t) "IF" "" = Some text /\
    abs_set_str find_offset_safe true utc_zone text
    = (AbsTime 1709209815 500000 (find_offset_safe (-19800)), []).
Proof.
  apply (iso_date_roundtrip find_offset_safe find_offset_safe_at true utc_zone
           (AbsTime 1709209815 500000 (find_offset_safe (-19800))));
    vm_compute; intuition discriminate.
Defined.

(** the ISO-8601 text of a duration without microseconds (format "IF"),
    with fields of any sign, is parsed back to the same duration: the loop of
    [setIso8601] ends without a fraction and inside the text. *)
Theorem iso_duration_roundtrip t :
  Forall int_field (fields t) -> us t = 0 ->
  rel_set_str (iso_duration_text t) = IsoOk t.
Proof.
  unfold fields. rewrite !Forall_cons. intros (H1 & H2 & H3 & H4 & H5 & H6 & _) Hu.
  destruct t as [y mo d h mi s u]. cbn [year month day hour minute second us] in *. subst u.
  unfold iso_duration_text. cbn [year month day hour minute second us Z.eqb negb].
  rewrite orb_false_r. cbv zeta.
  set (tp := if negb (h =? 0) || negb (mi =? 0) || negb (s =? 0)
             then "T" ++ opt_field h "H" ++ opt_field mi "M" ++ opt_field s "S" else "").
  set (body := opt_field y "Y" ++ opt_field mo "M" ++ opt_field d "D" ++ tp).
  assert (iso_run false zero_tm body = IsoOk (Tm y mo d h mi s 0)) as HB.
  { unfold body. rewrite (iso_run_opt _ _ _ _ _ (Tm y 0 0 0 0 0 0)) by easy.
    rewrite (iso_run_opt _ _ _ _ _ (Tm y mo 0 0 0 0 0)) by easy.
    rewrite (iso_run_opt _ _ _ _ _ (Tm y mo d 0 0 0 0)) by easy. unfold tp.
    destruct (negb (h =? 0) || negb (mi =? 0) || negb (s =? 0)) eqn:Et.
    - rewrite <- (string_app_nil_r (opt_field s "S")).
      change ("T" ++ ?q) with (String "T" q).
      rewrite iso_run_T by (repeat (apply opt_field_head; [assumption|reflexivity|reflexivity|]); reflexivity).
      rewrite (iso_run_opt _ _ _ _ _ (Tm y mo d h 0 0 0)) by easy.
      rewrite (iso_run_opt _ _ _ _ _ (Tm y mo d h mi 0 0)) by easy.
      rewrite (iso_run_opt _ _ _ _ _ (Tm y mo d h mi s 0)) by easy. reflexivity.
    - apply orb_false_iff in Et as [Et Es]. apply orb_false_iff in Et as [Eh Em].
      apply negb_false_iff, Z.eqb_eq in Eh, Em, Es. subst. reflexivity. }
  change ("P" ++ ?q) with (String "P" q). unfold rel_set_str, setIso8601.
  change (char_is (String "P" ?q) "P") with true. cbn [orb advance].
  destruct (String.length body =? 0)%nat eqn:El; [|exact HB].
  apply Nat.eqb_eq, string_length_0 in El. rewrite El in HB. cbv in HB.
  injection HB as <- <- <- <- <- <-. reflexivity.
Qed.

Lemma iso_duration_roundtrip_witness :
  rel_set_str "P1Y-2M10DT23H-5M" = IsoOk (Tm 1 (-2) 10 23 (-5) 0 0).
Proof.
  apply (iso_duration_roundtrip (Tm 1 (-2) 10 23 (-5) 0 0)); [|reflexivity].
  repeat constructor; discriminate.
Defined.

(** ** Behaviour at the edges *)

(** A negative duration with microseconds is printed with two signs. *)
Example iso_duration_negative_us :
  iso_duration_text (Tm 0 0 0 0 0 (-1) (-500000)) = "PT-1.-5S".
Proof. reflexivity. Qed.

(** A duration that ends with a number is read behind its terminator. *)
Example setIso8601_overrun : setIso8601 "P5" = IsoOverrun.
Proof. reflexivity. Qed.

(** The format "y" trims the zeros of the whole output, not only those of the
    microseconds: the seconds "10" before it become "1". *)
Example format_y_trims_output :
  date_format (DAbs (AbsTime 10 0 utc_zone)) "SSy" "" = Some "1".
Proof. reflexivity. Qed.

(** The name of a month that is negative is looked up outside of the table. *)
Example format_negative_month :
  date_format (DRel (Tm 0 (-1) 0 0 0 0 0) : qore_date_private safe_zone) "Mon" "" = None.
Proof. reflexivity. Qed.
