(* ===== verification/ListNode.v ===== *)
(** * Lists

    [qore_list_private] of include/qore/intern/qore_list_private.h and the
    operations of [QoreListNode] of lib/QoreListNode.cpp, on the memory block
    that holds the entries. *)

From S2P Require Import Prelude.

#[local] Open Scope nat_scope.

(** ** The interface of values

    [nothing] is [QoreValue()]; [needs_scan] says that a value may be part of
    a recursive graph of containers and objects. *)
Class ValueOps (V : Type) := {
  nothing : V;
  needs_scan : V -> bool;
  needs_scan_nothing : needs_scan nothing = false }.

(** ** Memory

    A block is the list of its cells; a cell is [None] before it is written.
    An access outside of the block or to an unwritten cell gives [None]. *)

Section Memory.
Context {V : Type}.

Implicit Types (m : list (option V)).

Definition m_read (m : list (option V)) (i : nat) : option V :=
  match m !! i with Some (Some v) => Some v | _ => None end.

Definition m_write (m : list (option V)) (i : nat) (v : V) : option (list (option V)) :=
  if i <? length m then Some (<[i := Some v]> m) else None.

(** [memmove(entry + dst, entry + src, n)] *)
Definition memmove (m : list (option V)) (dst src n : nat) : option (list (option V)) :=
  if (src + n <=? length m) && (dst + n <=? length m) then
    Some (take dst m ++ take n (drop src m) ++ drop (dst + n) m)
  else None.

(** [realloc]: the new cells are not initialised. *)
Definition realloc (m : list (option V)) (size : nat) : list (option V) :=
  take size m ++ repeat None (size - length m).
End Memory.
Abbreviation block V := (list (option V)).

Definition LIST_PAD := 15.

Section List.
Context {V : Type} {vops : ValueOps V}.

(** [allocated] is the length of the block. *)
Record qore_list_private := ListPriv {
  entry : block V; len : nat; obj_count : Z; valid : bool }.

Definition allocated (l : qore_list_private) : nat := length (entry l).

Definition empty_list : qore_list_private := ListPriv [] 0 0 true.

Definition set_entry (l : qore_list_private) (m : block V) : qore_list_private :=
  ListPriv m (len l) (obj_count l) (valid l).
Definition set_len (l : qore_list_private) (n : nat) : qore_list_private :=
  ListPriv (entry l) n (obj_count l) (valid l).

(** [obj_count] is unsigned. *)
Definition incScanCount (l : qore_list_private) (dt : Z) : qore_list_private :=
  ListPriv (entry l) (len l) (u32 (obj_count l + dt)) (valid l).

Definition incScan_if (l : qore_list_private) (v : V) (dt : Z) : qore_list_private :=
  if needs_scan v then incScanCount l dt else l.

Fixpoint zero_cells (m : block V) (start n : nat) : option (block V) :=
  match n with
  | O => Some m
  | S n => m ← m_write m start nothing; zero_cells m (S start) n
  end.

(** [zeroEntries(start, end)] *)
Definition zeroEntries (l : qore_list_private) (start end_ : nat) : option qore_list_private :=
  m ← zero_cells (entry l) start (end_ - start); Some (set_entry l m).

Definition new_size (num : nat) : nat :=
  let d := num / 4 in num + (if d <? LIST_PAD then LIST_PAD else d).

Definition grow (l : qore_list_private) (num : nat) : qore_list_private :=
  if allocated l <=? num then set_entry l (realloc (entry l) (new_size num)) else l.

Definition reserve (l : qore_list_private) (num : nat) : qore_list_private :=
  if num <? len l then l else grow l num.

Definition resize (l : qore_list_private) (num : nat) : option qore_list_private :=
  if num <? len l then Some (set_len l num)
  else l' ← zeroEntries (grow l num) (len l) num; Some (set_len l' num).

(** [getEntryReference(num)]: the list in which entry [num] exists. *)
Definition getEntryReference (l : qore_list_private) (num : nat) : option qore_list_private :=
  if len l <=? num then resize l (num + 1) else Some l.

Definition write_entry (l : qore_list_private) (i : nat) (v : V) : option qore_list_private :=
  m ← m_write (entry l) i v; Some (set_entry l m).

Definition pushIntern (l : qore_list_private) (v : V) : option qore_list_private :=
  let n := len l in
  l ← getEntryReference l n; l ← write_entry l n v; Some (incScan_if l v 1).

(** [copyIntern] into a new list. *)
Fixpoint copy_entries (src : qore_list_private) (n i : nat) (dst : qore_list_private)
    : option qore_list_private :=
  match n with
  | O => Some dst
  | S n =>
    v ← m_read (entry src) i; dst ← pushIntern dst v; copy_entries src n (S i) dst
  end.

Definition copy (l : qore_list_private) : option qore_list_private :=
  copy_entries l (len l) 0 (reserve empty_list (len l)).

(** [copyListFrom(index)] *)
Definition copyListFrom (l : qore_list_private) (index : nat) : option qore_list_private :=
  copy_entries l (len l - index) index empty_list.

(** ** Offsets *)

Definition checkOffset (l : qore_list_private) (offset : Z) : Z :=
  if (offset <? 0)%Z then
    let offset := (Z.of_nat (len l) + offset)%Z in if (offset <? 0)%Z then 0%Z else offset
  else if (Z.of_nat (len l) <? offset)%Z then Z.of_nat (len l)
  else offset.

(** [checkOffset(offset, len, n_offset, n_len)] *)
Definition checkOffset2 (l : qore_list_private) (offset ln : Z) : nat * nat :=
  let n_offset := checkOffset l offset in
  let n_len :=
    if (ln <? 0)%Z then
      let ln := (Z.of_nat (len l) + ln - n_offset)%Z in if (ln <? 0)%Z then 0%Z else ln
    else ln in
  (Z.to_nat n_offset, Z.to_nat n_len).

(** ** Removing and replacing entries *)

(** The loop over [removeEntry]: the removed values and the list with its scan
    count. *)
Fixpoint remove_entries (l : qore_list_private) (n i : nat)
    : option (list V * qore_list_private) :=
  match n with
  | O => Some ([], l)
  | S n =>
    v ← m_read (entry l) i;
    r ← remove_entries (incScan_if l v (-1)) n (S i);
    Some (v :: fst r, snd r)
  end.

(** The list that is returned: with [extract] always, otherwise only when an
    entry was removed. *)
Definition removed_list (extract : bool) (vs : list V) : option (list V) :=
  if extract then Some vs else match vs with [] => None | _ => Some vs end.

Definition clip (l : qore_list_private) (offset ln : nat) : nat * nat :=
  if len l - offset <? ln then (len l, len l - offset) else (offset + ln, ln).

(** [spliceIntern(offset, len, extract)] *)
Definition spliceIntern (l : qore_list_private) (offset ln : nat) (extract : bool)
    : option (option (list V) * qore_list_private) :=
  let '(end_, ln) := clip l offset ln in
  r ← remove_entries l (end_ - offset) offset;
  let l := snd r in
  l ← (if negb (end_ =? len l) then
         m ← memmove (entry l) offset end_ (len l - end_);
         zeroEntries (set_entry l m) (len l - ln) (len l)
       else write_entry l (end_ - 1) nothing);
  l ← resize l (len l - ln);
  Some (removed_list extract (fst r), l).

(** [spliceSingle(offset)] *)
Definition spliceSingle (l : qore_list_private) (offset : nat)
    : option (V * qore_list_private) :=
  rv ← m_read (entry l) offset;
  let l := incScan_if l rv (-1) in
  let end_ := offset + 1 in
  l ← (if negb (end_ =? len l) then
         m ← memmove (entry l) offset end_ (len l - end_);
         zeroEntries (set_entry l m) (len l - 1) (len l)
       else write_entry l (end_ - 1) nothing);
  l ← (if 0 <? len l then resize l (len l - 1) else Some l);
  Some (rv, l).

(** What is spliced in: a single value or the entries of a list. *)
Inductive splice_arg := SVal (v : V) | SList (vs : list V).

Inductive list_error := TYPE_ERROR | LIST_ERROR.

Fixpoint write_entries (l : qore_list_private) (i : nat) (vs : list V) : option qore_list_private :=
  match vs with
  | [] => Some l
  | v :: vs => l ← write_entry (incScan_if l v 1) i v; write_entries l (S i) vs
  end.

Section Typed.
(** [checkVal]: the value converted to the type of the elements, or an
    exception. *)
Context (checkVal : V -> option V).

Definition check_all (vs : list V) : option (list V) := mapM checkVal vs.

(** [spliceIntern(offset, len, l, extract, xsink)]: the outer option is a
    memory error. *)
Definition spliceInternList (l : qore_list_private) (offset ln : nat) (a : splice_arg)
    (extract : bool) : option ((option (list V) + list_error) * qore_list_private) :=
  match (match a with SVal v => v ← checkVal v; Some [v] | SList vs => check_all vs end) with
  | None => Some (inr TYPE_ERROR, l)
  | Some new =>
    let '(end_, ln) := clip l offset ln in
    r ← remove_entries l (end_ - offset) offset;
    let l := snd r in
    let n := match a with SVal _ => 1 | SList vs => length vs end in
    l ← (if ln <? n then
           let ol := len l in
           l ← resize l (len l - ln + n);
           if negb (end_ =? ol) then
             m ← memmove (entry l) (end_ - ln + n) end_ (ol - end_); Some (set_entry l m)
           else Some l
         else if n <? ln then
           m ← memmove (entry l) (offset + n) (offset + ln) (len l - offset - n);
           let l := set_entry l m in
           l ← zeroEntries l (len l - (ln - n)) (len l);
           resize l (len l - (ln - n))
         else Some l);
    l ← (match a with
         | SVal v =>
           match new with
           | v' :: _ => l ← write_entry l offset v'; Some (incScan_if l v 1)
           | [] => None
           end
         | SList _ => write_entries l offset new
         end);
    Some (inl (removed_list extract (fst r)), l)
  end.

(** [push(val, xsink)] *)
Definition push (l : qore_list_private) (v : V)
    : option (option list_error * qore_list_private) :=
  if negb (valid l) then Some (Some LIST_ERROR, l)
  else match checkVal v with
       | None => Some (Some TYPE_ERROR, l)
       | Some v => l ← pushIntern l v; Some (None, l)
       end.

(** [insert(val, xsink)]: the scan count looks at the value before its
    conversion. *)
Definition insert_first (l : qore_list_private) (v : V)
    : option (option list_error * qore_list_private) :=
  match checkVal v with
  | None => Some (Some TYPE_ERROR, l)
  | Some v' =>
    l ← resize l (len l + 1);
    l ← (if negb (len l - 1 =? 0) then
           m ← memmove (entry l) 1 0 (len l - 1); Some (set_entry l m)
         else Some l);
    l ← write_entry l 0 v';
    Some (None, incScan_if l v 1)
  end.

(** [merge(list, xsink)] *)
Fixpoint merge_loop (l : qore_list_private) (vs : list V)
    : option (option list_error * qore_list_private) :=
  match vs with
  | [] => Some (None, l)
  | v :: vs =>
    match checkVal v with
    | None => Some (Some TYPE_ERROR, l)
    | Some v => l ← pushIntern l v; merge_loop l vs
    end
  end.
Definition merge (l : qore_list_private) (vs : list V)
    : option (option list_error * qore_list_private) :=
  merge_loop (reserve l (len l + length vs)) vs.

(** [splice(offset, len, l, xsink)] and [extract(offset, len, l, xsink)] *)
Definition spliceList (l : qore_list_private) (offset ln : Z) (a : splice_arg) (extract : bool) :=
  let '(n_offset, n_len) := checkOffset2 l offset ln in
  spliceInternList l n_offset n_len a extract.
End Typed.

(** [setEntry(index, val, xsink)] *)
Definition setEntry (l : qore_list_private) (index : nat) (v : V) : option qore_list_private :=
  l ← (if len l <=? index then resize l (index + 1) else Some l);
  old ← m_read (entry l) index;
  let l := incScan_if l old (-1) in
  l ← write_entry l index v;
  Some (incScan_if l v 1).

Definition retrieveEntry (l : qore_list_private) (num : nat) : option V :=
  if len l <=? num then Some nothing else m_read (entry l) num.

Definition shift (l : qore_list_private) : option (V * qore_list_private) :=
  if len l =? 0 then Some (nothing, l)
  else
    rv ← m_read (entry l) 0;
    let pos := len l - 1 in
    m ← memmove (entry l) 0 1 pos;
    l ← write_entry (set_entry l m) pos nothing;
    l ← resize l pos;
    Some (rv, incScan_if l rv (-1)).

Definition pop (l : qore_list_private) : option (V * qore_list_private) :=
  if len l =? 0 then Some (nothing, l)
  else
    rv ← m_read (entry l) (len l - 1);
    let pos := len l - 1 in
    l ← write_entry l pos nothing;
    l ← resize l pos;
    Some (rv, incScan_if l rv (-1)).

Definition getAndClear (l : qore_list_private) (i : nat) : option (V * qore_list_private) :=
  if len l <=? i then Some (nothing, l)
  else
    rv ← m_read (entry l) i;
    l ← write_entry l i nothing;
    Some (rv, incScan_if l rv (-1)).

(** [swap(offset, val)]: the count changes only when one of the two needs a
    scan. *)
Definition swap (l : qore_list_private) (offset : nat) (v : V)
    : option (V * qore_list_private) :=
  l ← getEntryReference l offset;
  p ← m_read (entry l) offset;
  let l := if needs_scan p then (if needs_scan v then l else incScanCount l (-1))
           else (if needs_scan v then incScanCount l 1 else l) in
  l ← write_entry l offset v;
  Some (p, l).

Definition takeExists (l : qore_list_private) (offset : nat) : option (V * qore_list_private) :=
  if len l <=? offset then Some (nothing, l)
  else
    rv ← m_read (entry l) offset;
    l ← write_entry l offset nothing;
    Some (rv, incScan_if l rv (-1)).

(** [splice(offset)], [splice(offset, len)], [extract(offset)],
    [extract(offset, len)] *)
Definition splice1 (l : qore_list_private) (offset : Z) (extract : bool)
    : option (option (list V) * qore_list_private) :=
  let n_offset := Z.to_nat (checkOffset l offset) in
  if n_offset =? len l then Some ((if extract then Some [] else None), l)
  else spliceIntern l n_offset (len l - n_offset) extract.

Definition splice2 (l : qore_list_private) (offset ln : Z) (extract : bool)
    : option (option (list V) * qore_list_private) :=
  let '(n_offset, n_len) := checkOffset2 l offset ln in
  if n_offset =? len l then Some ((if extract then Some [] else None), l)
  else spliceIntern l n_offset n_len extract.

(** [reverse()]: the entries are assigned, the scan count of the new list
    stays 0. *)
Fixpoint reverse_entries (src : qore_list_private) (n i : nat) (dst : qore_list_private)
    : option qore_list_private :=
  match n with
  | O => Some dst
  | S n =>
    v ← m_read (entry src) (len src - i - 1);
    dst ← write_entry dst i v;
    reverse_entries src n (S i) dst
  end.
Definition reverse (l : qore_list_private) : option qore_list_private :=
  dst ← resize empty_list (len l); reverse_entries l (len l) 0 dst.

(** ** Iterators

    The position -1 is before the first entry. *)
Definition iter_next (l : qore_list_private) (pos : Z) : bool * Z :=
  let pos := (pos + 1)%Z in
  if (pos =? Z.of_nat (len l))%Z then (false, -1)%Z else (true, pos).
Definition iter_prev (l : qore_list_private) (pos : Z) : bool * Z :=
  if len l =? 0 then (false, pos)
  else if (pos =? -1)%Z then (true, Z.of_nat (len l) - 1)%Z
  else if (pos =? 0)%Z then (false, -1)%Z
  else (true, pos - 1)%Z.
Definition iter_set (l : qore_list_private) (n_pos : Z) : Z * Z :=
  if (Z.of_nat (len l) <=? n_pos)%Z then (-1, -1)%Z else (0, n_pos)%Z.
Definition iter_last (l : qore_list_private) (pos : Z) : bool :=
  (pos =? Z.of_nat (len l) - 1)%Z.
Definition iter_first (pos : Z) : bool := (pos =? 0)%Z.

End List.
Arguments qore_list_private : clear implicits.
Arguments splice_arg : clear implicits.

(** ** The abstract list *)

Section Spec.
Context {V : Type} {vops : ValueOps V}.
Implicit Types (xs : list V) (l : qore_list_private V) (m : block V).

Definition scan_count xs : Z := Z.of_nat (length (filter (fun v => needs_scan v = true) xs)).

(** The first cells of a block hold the values [xs]. *)
Definition holds m xs : Prop := exists rest, m = (Some <$> xs) ++ rest.

(** [st l xs n c]: the block starts with [xs], the length field is [n], and the
    scan count is [c] modulo 2^32. *)
Definition st l xs (n : nat) (c : Z) : Prop :=
  holds (entry l) xs /\ len l = n /\ obj_count l = u32 c /\ valid l = true
  /\ n <= allocated l.

(** The list [l] represents [xs]. *)
Definition repr l xs : Prop := st l xs (length xs) (scan_count xs).

(** * Properties *)

Lemma u32_add_l a b : u32 (u32 a + b) = u32 (a + b)%Z.
Proof. unfold u32. apply Zplus_mod_idemp_l. Qed.

Lemma scan_count_app xs ys : scan_count (xs ++ ys) = (scan_count xs + scan_count ys)%Z.
Proof. unfold scan_count. rewrite filter_app, length_app. lia. Qed.

Lemma scan_count_nil : scan_count [] = 0%Z.
Proof. reflexivity. Qed.

Lemma scan_count_cons v xs :
  scan_count (v :: xs) = ((if needs_scan v then 1 else 0) + scan_count xs)%Z.
Proof.
  unfold scan_count. rewrite filter_cons. destruct (needs_scan v); case_decide; simpl; try lia;
    congruence.
Qed.

Lemma scan_count_replicate n : scan_count (replicate n nothing) = 0%Z.
Proof.
  induction n as [|n IH]; [reflexivity|]. simpl. rewrite scan_count_cons, needs_scan_nothing. lia.
Qed.

(** ** The primitives of the block *)

Lemma holds_length m xs : holds m xs -> length xs <= length m.
Proof. intros [rest ->]. rewrite length_app, length_fmap. lia. Qed.

Lemma holds_read m xs i v : holds m xs -> xs !! i = Some v -> m_read m i = Some v.
Proof.
  intros [rest ->] H. unfold m_read.
  rewrite lookup_app_l by (rewrite length_fmap; eapply lookup_lt_Some; exact H).
  rewrite list_lookup_fmap, H. reflexivity.
Qed.

Lemma holds_write m xs i v :
  holds m xs -> i < length xs ->
  exists m', m_write m i v = Some m' /\ holds m' (<[i := v]> xs) /\ length m' = length m.
Proof.
  intros H Hi. pose proof (holds_length _ _ H). unfold m_write.
  destruct (Nat.ltb_spec i (length m)); [|lia]. eexists. split; [reflexivity|].
  rewrite length_insert. split; [|reflexivity]. destruct H as [rest ->]. exists rest.
  rewrite insert_app_l by (rewrite length_fmap; exact Hi).
  f_equal. symmetry. apply list_fmap_insert.
Qed.

Lemma holds_app_l m xs ys : holds m (xs ++ ys) -> holds m xs.
Proof. intros [rest ->]. rewrite fmap_app, <- app_assoc. eexists. reflexivity. Qed.

Lemma holds_take m xs n : holds m xs -> holds m (take n xs).
Proof. intros H. apply (holds_app_l m _ (drop n xs)). rewrite take_drop. exact H. Qed.

(** Zeroing cells beyond [xs] keeps [xs]. *)
Lemma zero_cells_frame m xs start n :
  holds m xs -> length xs <= start -> start + n <= length m ->
  exists m', zero_cells m start n = Some m' /\ holds m' xs /\ length m' = length m.
Proof.
  revert m start. induction n as [|n IH]; intros m start H Hs Hn; simpl; [eauto|].
  unfold m_write. destruct (Nat.ltb_spec start (length m)); [|lia]. simpl.
  destruct (IH (<[start := Some nothing]> m) (S start)) as (m' & -> & Hm' & Hl).
  - destruct H as [rest ->]. rewrite insert_app_r_alt by (rewrite length_fmap; lia).
    eexists. reflexivity.
  - lia.
  - rewrite length_insert. lia.
  - exists m'. split; [reflexivity|]. split; [exact Hm'|]. rewrite Hl. apply length_insert.
Qed.

(** Zeroing the cells behind [xs] appends [nothing]s. *)
Lemma zero_cells_append m xs n :
  holds m xs -> length xs + n <= length m ->
  exists m', zero_cells m (length xs) n = Some m' /\ holds m' (xs ++ replicate n nothing)
    /\ length m' = length m.
Proof.
  revert m xs. induction n as [|n IH]; intros m xs H Hn; simpl.
  - exists m. rewrite app_nil_r. auto.
  - unfold m_write. destruct (Nat.ltb_spec (length xs) (length m)); [|lia]. simpl.
    destruct (IH (<[length xs := Some nothing]> m) (xs ++ [nothing])) as (m' & E & Hm' & Hl).
    + destruct H as [rest ->]. rewrite length_app, length_fmap in H0. destruct rest as [|c rest]; [simpl in *; lia|].
      exists rest. rewrite <- (length_fmap Some xs) at 1. rewrite insert_app_r_alt, Nat.sub_diag by lia.
      simpl. rewrite fmap_app, <- app_assoc. reflexivity.
    + rewrite length_app, length_insert. simpl. lia.
    + rewrite length_app in E. simpl in E. rewrite Nat.add_1_r in E. exists m'. split; [exact E|].
      rewrite <- app_assoc in Hm'. split; [exact Hm'|]. rewrite Hl. apply length_insert.
Qed.

Lemma holds_realloc m xs size :
  holds m xs -> length m <= size -> holds (realloc m size) xs /\ length (realloc m size) = size.
Proof.
  intros [rest ->] Hs. unfold realloc. rewrite take_ge by lia. split.
  - rewrite <- app_assoc. eexists. reflexivity.
  - rewrite length_app, repeat_length. lia.
Qed.

(** [memmove] inside of the block. *)
Lemma memmove_holds m xs dst src n :
  holds m xs -> dst <= length xs -> src <= length xs ->
  src + n <= length m -> dst + n <= length m ->
  exists m', memmove m dst src n = Some m' /\
    holds m' (take dst xs ++ take n (drop src xs)) /\ length m' = length m.
Proof.
  intros [rest ->] Hd Hs H1 H2. unfold memmove.
  destruct (Nat.leb_spec (src + n) (length ((Some <$> xs) ++ rest))); [|lia].
  destruct (Nat.leb_spec (dst + n) (length ((Some <$> xs) ++ rest))); [|lia].
  eexists. split; [reflexivity|]. split.
  - rewrite take_app_le by (rewrite length_fmap; exact Hd).
    rewrite drop_app_le by (rewrite length_fmap; exact Hs).
    rewrite take_app, <- fmap_drop, <- !fmap_take. rewrite <- app_assoc.
    eexists. rewrite fmap_app, <- !app_assoc. reflexivity.
  - rewrite !length_app, !length_take, !length_drop. rewrite !length_app in *. lia.
Qed.

(** ** Resizing *)

Lemma new_size_gt n : n < new_size n.
Proof. unfold new_size, LIST_PAD. destruct (n / 4 <? 15) eqn:E; [lia|]. apply Nat.ltb_ge in E. lia. Qed.

Lemma st_take l xs n c k : st l xs n c -> st l (take k xs) n c.
Proof. intros (H & ?). split; [apply holds_take; exact H|assumption]. Qed.

(** Growing appends [nothing]s, shrinking drops entries. *)
Lemma resize_grow l xs num c :
  st l xs (length xs) c -> length xs <= num ->
  exists l', resize l num = Some l' /\ st l' (xs ++ replicate (num - length xs) nothing) num c.
Proof.
  intros (H & Hl & Hc & Hv & Ha) Hn. unfold resize. destruct (Nat.ltb_spec num (len l)); [lia|].
  assert (num < allocated (grow l num) /\ holds (entry (grow l num)) xs /\
          obj_count (grow l num) = obj_count l /\ valid (grow l num) = valid l) as (Ha' & Hh & Ec & Ev).
  { unfold grow, allocated in *. destruct (Nat.leb_spec (length (entry l)) num); [|repeat split; auto].
    pose proof (new_size_gt num). destruct (holds_realloc (entry l) xs (new_size num) H); [lia|].
    simpl. repeat split; try assumption; lia. }
  unfold zeroEntries, allocated in *. rewrite Hl.
  destruct (zero_cells_append (entry (grow l num)) xs (num - length xs)) as (m & -> & Hm' & Hlm);
    [exact Hh|lia|].
  eexists. split; [reflexivity|]. unfold st, allocated. simpl. repeat split; try assumption; lia || congruence.
Qed.

Lemma resize_shrink l xs num n c :
  st l xs n c -> length xs = num -> num <= n ->
  exists l', resize l num = Some l' /\ st l' xs num c.
Proof.
  intros H Hl Hn. destruct (Nat.eq_dec num n) as [->|Hne].
  - subst n. destruct (resize_grow l xs (length xs) c H) as (l' & E & H'); [lia|].
    exists l'. rewrite Nat.sub_diag, app_nil_r in H'. auto.
  - destruct H as (H & Hln & Hc & Hv & Ha). unfold resize. destruct (Nat.ltb_spec num (len l)); [|lia].
    eexists. split; [reflexivity|]. unfold st, allocated in *. simpl. repeat split; auto; lia.
Qed.

Lemma write_entry_spec l xs n c i v :
  st l xs n c -> i < length xs ->
  exists l', write_entry l i v = Some l' /\ st l' (<[i := v]> xs) n c.
Proof.
  intros (H & Hl & Hc & Hv & Ha) Hi. unfold write_entry.
  destruct (holds_write (entry l) xs i v H Hi) as (m & -> & Hh & Hlm).
  eexists. split; [reflexivity|]. unfold st, allocated in *. simpl. rewrite Hlm. auto.
Qed.

Lemma write_entry_frame l xs n c i v :
  st l xs n c -> length xs <= i < n ->
  exists l', write_entry l i v = Some l' /\ st l' xs n c.
Proof.
  intros (H & Hl & Hc & Hv & Ha) Hi. unfold write_entry, m_write, allocated in *.
  destruct (Nat.ltb_spec i (length (entry l))); [|lia]. eexists. split; [reflexivity|].
  unfold st, allocated. simpl. rewrite length_insert. repeat split; auto.
  destruct H as [rest ->]. rewrite insert_app_r_alt by (rewrite length_fmap; lia).
  eexists. reflexivity.
Qed.

Lemma zeroEntries_frame l xs n c a b :
  st l xs n c -> length xs <= a -> a <= b -> b <= n ->
  exists l', zeroEntries l a b = Some l' /\ st l' xs n c.
Proof.
  intros (H & Hl & Hc & Hv & Ha) H1 H2 H3. unfold zeroEntries, allocated in *.
  destruct (zero_cells_frame (entry l) xs a (b - a) H) as (m & -> & Hh & Hm); [lia|lia|].
  eexists. split; [reflexivity|]. unfold st, allocated. simpl. rewrite Hm. auto.
Qed.

Lemma memmove_spec l xs n c dst src k :
  st l xs n c -> dst <= length xs -> src <= length xs ->
  src + k <= allocated l -> dst + k <= allocated l ->
  exists m, memmove (entry l) dst src k = Some m /\
    st (set_entry l m) (take dst xs ++ take k (drop src xs)) n c /\ length m = allocated l.
Proof.
  intros (H & Hl & Hc & Hv & Ha) H1 H2 H3 H4. unfold allocated in *.
  destruct (memmove_holds (entry l) xs dst src k) as (m & -> & Hh & Hm); [assumption..|].
  exists m. split; [reflexivity|]. unfold st, allocated. simpl. rewrite Hm.
  repeat split; auto.
Qed.

Lemma st_allocated l xs n c : st l xs n c -> n <= allocated l.
Proof. intros (_ & _ & _ & _ & H). exact H. Qed.

Lemma st_len l xs n c : st l xs n c -> len l = n.
Proof. intros (_ & H & _). exact H. Qed.

Lemma st_read l xs n c i v : st l xs n c -> xs !! i = Some v -> m_read (entry l) i = Some v.
Proof. intros (H & _) Hi. exact (holds_read _ _ _ _ H Hi). Qed.

Lemma st_incScan l xs n c v dt :
  st l xs n c -> st (incScan_if l v dt) xs n (c + (if needs_scan v then dt else 0)).
Proof.
  intros (H & Hl & Hc & Hv & Ha). unfold st, incScan_if, incScanCount, allocated in *.
  destruct (needs_scan v); simpl; repeat split; auto.
  - rewrite Hc. apply u32_add_l.
  - rewrite Z.add_0_r. exact Hc.
Qed.

Lemma st_eq l xs ys n k c d : st l xs n c -> xs = ys -> n = k -> c = d -> st l ys k d.
Proof. congruence. Qed.

Lemma scan_count_insert xs i v w :
  xs !! i = Some w ->
  scan_count (<[i := v]> xs)
  = (scan_count xs - (if needs_scan w then 1 else 0) + (if needs_scan v then 1 else 0))%Z.
Proof.
  intros H. pose proof (lookup_lt_Some _ _ _ H).
  rewrite insert_take_drop by lia. rewrite <- (take_drop_middle xs i w H) at 3.
  rewrite !scan_count_app, !scan_count_cons. lia.
Qed.

(** ** Operations on the entries *)

Lemma insert_at_end xs v w : <[length xs := v]> (xs ++ [w]) = xs ++ [v].
Proof. rewrite <- (Nat.add_0_r (length xs)), insert_app_r. reflexivity. Qed.

Lemma scan_count_single v : scan_count [v] = (if needs_scan v then 1 else 0)%Z.
Proof. rewrite scan_count_cons, scan_count_nil. lia. Qed.

Lemma pushIntern_st l xs v c :
  st l xs (length xs) c ->
  exists l', pushIntern l v = Some l' /\
    st l' (xs ++ [v]) (length (xs ++ [v])) (c + (if needs_scan v then 1 else 0)).
Proof.
  intros H. unfold pushIntern, getEntryReference.
  rewrite Nat.leb_refl, (st_len _ _ _ _ H).
  destruct (resize_grow l xs (length xs + 1) _ H) as (l1 & -> & H1); [lia|].
  replace (length xs + 1 - length xs) with 1 in H1 by lia. simpl.
  destruct (write_entry_spec l1 (xs ++ [nothing]) _ _ (length xs) v H1) as (l2 & -> & H2);
    [rewrite length_app; simpl; lia|].
  eexists. split; [reflexivity|]. apply (st_incScan _ _ _ _ v 1) in H2.
  eapply st_eq; [exact H2|apply insert_at_end|rewrite length_app; reflexivity|reflexivity].
Qed.

Lemma pushIntern_spec l xs v :
  repr l xs -> exists l', pushIntern l v = Some l' /\ repr l' (xs ++ [v]).
Proof.
  intros H. destruct (pushIntern_st l xs v _ H) as (l' & E & H'). exists l'. split; [exact E|].
  eapply st_eq; [exact H'|reflexivity..|]. rewrite scan_count_app, scan_count_single. reflexivity.
Qed.

Lemma pop_spec l xs v :
  repr l (xs ++ [v]) -> exists l', pop l = Some (v, l') /\ repr l' xs.
Proof.
  intros H. unfold pop. rewrite (st_len _ _ _ _ H), length_app, Nat.add_1_r. simpl.
  rewrite Nat.sub_0_r, (st_read _ _ _ _ (length xs) v H) by (rewrite lookup_app_r, Nat.sub_diag by lia; reflexivity).
  simpl. destruct (write_entry_spec l _ _ _ (length xs) nothing H) as (l1 & -> & H1);
    [rewrite length_app; simpl; lia|].
  apply (st_take _ _ _ _ (length xs)) in H1. rewrite insert_at_end, take_app_length in H1.
  destruct (resize_shrink l1 xs (length xs) _ _ H1) as (l2 & E2 & H2); [reflexivity|rewrite length_app; lia|].
  simpl. rewrite E2. simpl. eexists. split; [reflexivity|]. apply (st_incScan _ _ _ _ v (-1)) in H2.
  eapply st_eq; [exact H2|reflexivity..|]. rewrite scan_count_app, scan_count_single.
  destruct (needs_scan v); lia.
Qed.

Lemma shift_spec l xs v :
  repr l (v :: xs) -> exists l', shift l = Some (v, l') /\ repr l' xs.
Proof.
  intros H. pose proof (st_allocated _ _ _ _ H) as Ha. unfold shift.
  rewrite (st_len _ _ _ _ H). simpl length in *. rewrite Nat.eqb_refl || simpl.
  rewrite Nat.sub_0_r, (st_read _ _ _ _ 0 v H) by reflexivity.
  simpl. destruct (memmove_spec l _ _ _ 0 1 (length xs) H) as (m & -> & H1 & _); [simpl; lia..|].
  change (drop 1 (v :: xs)) with (drop 0 xs) in H1. rewrite drop_0 in H1.
  rewrite (take_ge xs) in H1 by lia. simpl in H1 |- *.
  destruct (write_entry_frame _ _ _ _ (length xs) nothing H1) as (l2 & -> & H2); [simpl; lia|].
  destruct (resize_shrink l2 xs (length xs) _ _ H2) as (l3 & E3 & H3); [reflexivity|simpl; lia|].
  simpl. rewrite E3. simpl. eexists. split; [reflexivity|]. apply (st_incScan _ _ _ _ v (-1)) in H3.
  eapply st_eq; [exact H3|reflexivity..|]. rewrite scan_count_cons.
  destruct (needs_scan v); lia.
Qed.

(** Replacing entry [i] with the scan count adjusted. *)
Lemma replace_spec l xs i v w :
  repr l xs -> xs !! i = Some w ->
  exists l', write_entry (incScan_if l w (-1)) i v = Some l' /\ repr (incScan_if l' v 1) (<[i := v]> xs).
Proof.
  intros H Hi. pose proof (lookup_lt_Some _ _ _ Hi).
  apply (st_incScan _ _ _ _ w (-1)) in H.
  destruct (write_entry_spec _ _ _ _ i v H) as (l1 & -> & H1); [assumption|].
  eexists. split; [reflexivity|]. apply (st_incScan _ _ _ _ v 1) in H1.
  eapply st_eq; [exact H1|reflexivity|rewrite length_insert; reflexivity|].
  rewrite (scan_count_insert _ _ _ _ Hi). destruct (needs_scan w), (needs_scan v); lia.
Qed.

(** [xs] filled up with [nothing] so that entry [i] exists. *)
Definition extend xs (i : nat) : list V := xs ++ replicate (S i - length xs) nothing.

Lemma extend_lt xs i : i < length (extend xs i).
Proof. unfold extend. rewrite length_app, length_replicate. lia. Qed.

Lemma extend_id xs i : i < length xs -> extend xs i = xs.
Proof. intros H. unfold extend. replace (S i - length xs) with 0 by lia. apply app_nil_r. Qed.

Lemma resize_extend l xs i :
  repr l xs -> exists l', (if len l <=? i then resize l (i + 1) else Some l) = Some l'
    /\ repr l' (extend xs i).
Proof.
  intros H. rewrite (st_len _ _ _ _ H). destruct (Nat.leb_spec (length xs) i).
  - destruct (resize_grow l xs (i + 1) _ H) as (l' & E & H'); [lia|].
    exists l'. split; [exact E|]. eapply st_eq; [exact H'|unfold extend; do 2 f_equal; lia|..].
    + unfold extend. rewrite length_app, length_replicate. lia.
    + unfold extend. rewrite scan_count_app, scan_count_replicate. lia.
  - exists l. split; [reflexivity|]. rewrite extend_id; assumption.
Qed.

Lemma setEntry_spec l xs i v :
  repr l xs -> exists l', setEntry l i v = Some l' /\ repr l' (<[i := v]> (extend xs i)).
Proof.
  intros H. unfold setEntry. destruct (resize_extend l xs i H) as (l1 & -> & H1). simpl.
  destruct (lookup_lt_is_Some_2 (extend xs i) i (extend_lt xs i)) as [w Hw].
  rewrite (st_read _ _ _ _ i w H1 Hw). simpl.
  destruct (replace_spec l1 _ i v w H1 Hw) as (l2 & -> & H2). simpl. eauto.
Qed.

Lemma incScan_if_swap l v w :
  obj_count l = u32 (obj_count l) ->
  (if needs_scan v then (if needs_scan w then l else incScanCount l (-1))
   else (if needs_scan w then incScanCount l 1 else l)) = incScan_if (incScan_if l v (-1)) w 1.
Proof.
  intros E. unfold incScan_if, incScanCount.
  destruct (needs_scan v), (needs_scan w); try reflexivity. destruct l as [e n o va]. simpl in *. f_equal.
  rewrite u32_add_l. replace (o + -1 + 1)%Z with o by lia. exact E.
Qed.

Lemma swap_spec l xs i v :
  repr l xs -> exists w l', swap l i v = Some (w, l') /\ extend xs i !! i = Some w
    /\ repr l' (<[i := v]> (extend xs i)).
Proof.
  intros H. unfold swap, getEntryReference.
  destruct (resize_extend l xs i H) as (l1 & -> & H1). simpl.
  destruct (lookup_lt_is_Some_2 (extend xs i) i (extend_lt xs i)) as [w Hw].
  rewrite (st_read _ _ _ _ i w H1 Hw). simpl. exists w.
  rewrite incScan_if_swap by (destruct H1 as (_ & _ & -> & _); unfold u32; symmetry; apply Zmod_mod).
  set (l2 := incScan_if l1 w (-1)).
  assert (st l2 (extend xs i) (length (extend xs i)) (scan_count (extend xs i) + (if needs_scan w then -1 else 0))) as H2
    by apply (st_incScan _ _ _ _ w (-1) H1).
  apply (st_incScan _ _ _ _ v 1) in H2.
  destruct (write_entry_spec _ _ _ _ i v H2 (extend_lt xs i)) as (l3 & -> & H3).
  eexists. split; [reflexivity|]. split; [exact Hw|].
  eapply st_eq; [exact H3|reflexivity|rewrite length_insert; reflexivity|].
  rewrite (scan_count_insert _ _ _ _ Hw). destruct (needs_scan w), (needs_scan v); lia.
Qed.

Lemma takeExists_st l xs i w c :
  st l xs (length xs) c -> xs !! i = Some w ->
  exists l', takeExists l i = Some (w, l') /\
    st l' (<[i := nothing]> xs) (length xs) (c + (if needs_scan w then -1 else 0)).
Proof.
  intros H Hi. pose proof (lookup_lt_Some _ _ _ Hi) as Hlt. unfold takeExists.
  rewrite (st_len _ _ _ _ H), (proj2 (Nat.leb_gt _ _) Hlt).
  rewrite (st_read _ _ _ _ i w H Hi). simpl.
  destruct (write_entry_spec _ _ _ _ i nothing H) as (l1 & -> & H1); [assumption|].
  eexists. split; [reflexivity|]. apply (st_incScan _ _ _ _ w (-1)) in H1. exact H1.
Qed.

Lemma takeExists_spec l xs i w :
  repr l xs -> xs !! i = Some w ->
  exists l', takeExists l i = Some (w, l') /\ repr l' (<[i := nothing]> xs).
Proof.
  intros H Hi. destruct (takeExists_st l xs i w _ H Hi) as (l' & E & H'). exists l'. split; [exact E|].
  eapply st_eq; [exact H'|reflexivity|rewrite length_insert; reflexivity|].
  rewrite (scan_count_insert _ _ _ _ Hi), needs_scan_nothing. destruct (needs_scan w); lia.
Qed.

Lemma takeExists_out l xs i :
  repr l xs -> length xs <= i -> takeExists l i = Some (nothing, l).
Proof.
  intros H Hi. unfold takeExists. rewrite (st_len _ _ _ _ H).
  destruct (Nat.leb_spec (length xs) i); [reflexivity|lia].
Qed.

(** ** Splices *)

(** [xs] with [ln] entries from [o] replaced by [new]. *)
Definition spec_splice xs (o ln : nat) (new : list V) : list V :=
  take o xs ++ new ++ drop (o + ln) xs.

Lemma scan_count_splice xs o ln new :
  scan_count (spec_splice xs o ln new)
  = (scan_count xs - scan_count (take ln (drop o xs)) + scan_count new)%Z.
Proof.
  assert (xs = take o xs ++ take ln (drop o xs) ++ drop (o + ln) xs) as E
    by (rewrite <- drop_drop, !take_drop; reflexivity).
  apply (f_equal scan_count) in E. unfold spec_splice. rewrite !scan_count_app in *. lia.
Qed.

Lemma remove_entries_spec xs n k : forall l i c,
  st l xs n c -> i + k <= length xs ->
  exists l', remove_entries l k i = Some (take k (drop i xs), l') /\
    st l' xs n (c - scan_count (take k (drop i xs))) /\ allocated l' = allocated l.
Proof.
  induction k as [|k IH]; intros l i c H Hi; simpl.
  - exists l. split; [reflexivity|]. split; [|reflexivity]. eapply st_eq; [exact H|reflexivity..|].
    rewrite take_0, scan_count_nil. lia.
  - destruct (lookup_lt_is_Some_2 xs i) as [v Hv]; [lia|].
    rewrite (st_read _ _ _ _ i v H Hv). simpl.
    destruct (IH (incScan_if l v (-1)) (S i) _ (st_incScan _ _ _ _ v (-1) H)) as (l' & -> & H' & Ha); [lia|].
    simpl. rewrite (drop_S xs v i Hv). simpl. exists l'. split; [reflexivity|]. split.
    + eapply st_eq; [exact H'|reflexivity..|]. rewrite scan_count_cons. destruct (needs_scan v); lia.
    + rewrite Ha. unfold allocated, incScan_if, incScanCount. destruct (needs_scan v); reflexivity.
Qed.

Lemma clip_spec l xs n c o ln :
  st l xs (length xs) c -> o <= length xs -> n = Nat.min ln (length xs - o) ->
  clip l o ln = (o + n, n) /\ take n (drop o xs) = take ln (drop o xs)
  /\ drop (o + n) xs = drop (o + ln) xs.
Proof.
  intros H Ho ->. unfold clip. rewrite (st_len _ _ _ _ H).
  destruct (Nat.ltb_spec (length xs - o) ln).
  - rewrite Nat.min_r by lia. split; [f_equal; lia|].
    split; [rewrite !take_ge by (rewrite length_drop; lia)|rewrite !drop_ge by lia]; reflexivity.
  - rewrite Nat.min_l by lia. auto.
Qed.

(** Moving the tail down over [n] removed entries. *)
Lemma move_down_spec l xs o n c :
  st l xs (length xs) c -> o + n <= length xs -> o < length xs ->
  exists l', (if negb (o + n =? len l) then
         m ← memmove (entry l) o (o + n) (len l - (o + n));
         zeroEntries (set_entry l m) (len l - n) (len l)
       else write_entry l (o + n - 1) nothing) = Some l'
    /\ st l' (take o xs ++ drop (o + n) xs) (length xs) c.
Proof.
  intros H Hn Ho. pose proof (st_allocated _ _ _ _ H) as Ha. rewrite (st_len _ _ _ _ H).
  assert (length (take o xs ++ drop (o + n) xs) = length xs - n) as Hlen
    by (rewrite length_app, length_take, length_drop; lia).
  destruct (Nat.eqb_spec (o + n) (length xs)) as [E|E]; simpl.
  - apply (st_take _ _ _ _ o) in H. rewrite drop_ge, app_nil_r by lia.
    apply write_entry_frame; [exact H|rewrite length_take; lia].
  - destruct (memmove_spec l _ _ _ o (o + n) (length xs - (o + n)) H) as (m & -> & H1 & _); [lia..|].
    simpl. rewrite (take_ge (drop (o + n) xs)) in H1 by (rewrite length_drop; lia).
    apply zeroEntries_frame; [exact H1|lia..].
Qed.

Lemma spec_splice_length xs o ln new :
  o <= length xs -> length (spec_splice xs o ln new) = length new + length xs - Nat.min ln (length xs - o).
Proof. intros H. unfold spec_splice. rewrite !length_app, length_take, length_drop. lia. Qed.

Lemma spliceIntern_spec l xs o ln extract :
  repr l xs -> o < length xs ->
  exists l', spliceIntern l o ln extract = Some (removed_list extract (take ln (drop o xs)), l')
    /\ repr l' (spec_splice xs o ln []).
Proof.
  intros H Ho. remember (Nat.min ln (length xs - o)) as n eqn:En.
  destruct (clip_spec l xs n _ o ln H) as (E1 & E2 & E3); [lia|exact En|].
  unfold spliceIntern. rewrite E1. replace (o + n - o) with n by lia.
  destruct (remove_entries_spec xs _ n l o _ H) as (l1 & -> & H1 & _); [lia|]. simpl.
  destruct (move_down_spec l1 xs o n _ H1) as (l2 & -> & H2); [lia|lia|]. simpl.
  rewrite (st_len _ _ _ _ H2), E3 in *. change (take o xs ++ drop (o + ln) xs) with (spec_splice xs o ln []) in H2.
  pose proof (spec_splice_length xs o ln [] ltac:(lia)) as Hlen. simpl in Hlen.
  destruct (resize_shrink l2 _ (length xs - n) _ _ H2) as (l3 & -> & H3); [lia..|].
  simpl. eexists. split; [rewrite E2; reflexivity|].
  eapply st_eq; [exact H3|reflexivity|lia|]. rewrite scan_count_splice, scan_count_nil, E2. lia.
Qed.

Lemma spliceSingle_spec l xs o v :
  repr l xs -> xs !! o = Some v ->
  exists l', spliceSingle l o = Some (v, l') /\ repr l' (spec_splice xs o 1 []).
Proof.
  intros H Hv. pose proof (lookup_lt_Some _ _ _ Hv) as Ho. unfold spliceSingle.
  rewrite (st_read _ _ _ _ o v H Hv). simpl.
  apply (st_incScan _ _ _ _ v (-1)) in H.
  destruct (move_down_spec _ xs o 1 _ H) as (l2 & -> & H2); [lia|lia|]. simpl.
  change (take o xs ++ drop (o + 1) xs) with (spec_splice xs o 1 []) in H2. rewrite (st_len _ _ _ _ H2).
  pose proof (spec_splice_length xs o 1 [] ltac:(lia)) as Hlen. simpl length in Hlen.
  destruct (Nat.ltb_spec 0 (length xs)); [|lia].
  destruct (resize_shrink l2 _ (length xs - 1) _ _ H2) as (l3 & -> & H3); [lia..|].
  simpl. eexists. split; [reflexivity|].
  eapply st_eq; [exact H3|reflexivity|lia|].
  rewrite scan_count_splice, (drop_S xs v o Hv). simpl.
  rewrite take_0, scan_count_single, scan_count_nil. destruct (needs_scan v); lia.
Qed.

(** Writing [vs] from position [i]. *)
Lemma write_entries_spec vs : forall l xs n c i,
  st l xs n c -> i + length vs <= length xs ->
  exists l', write_entries l i vs = Some l' /\
    st l' (take i xs ++ vs ++ drop (i + length vs) xs) n (c + scan_count vs).
Proof.
  induction vs as [|v vs IH]; intros l xs n c i H Hi; simpl in *.
  - exists l. split; [reflexivity|]. rewrite Nat.add_0_r, take_drop, scan_count_nil, Z.add_0_r. exact H.
  - destruct (write_entry_spec (incScan_if l v 1) xs n _ i v (st_incScan _ _ _ _ v 1 H)) as (l1 & -> & H1); [lia|].
    simpl. destruct (IH l1 _ _ _ (S i) H1) as (l2 & -> & H2); [rewrite length_insert; lia|].
    exists l2. split; [reflexivity|]. eapply st_eq; [exact H2| |reflexivity|].
    + rewrite (take_S_r _ i v) by (apply list_lookup_insert_eq; lia).
      rewrite take_insert_ge, drop_insert_lt by lia. rewrite <- app_assoc. simpl.
      do 4 f_equal. lia.
    + rewrite scan_count_cons. destruct (needs_scan v); lia.
Qed.

(** Making room for [k] entries in place of the [n] entries from [o]. Going to
    fewer entries moves [n - k] cells too many: they have to be allocated. *)
Lemma make_room_spec l xs o n k c :
  st l xs (length xs) c -> o + n <= length xs -> length xs + (n - k) <= allocated l ->
  exists l' ys, (if n <? k then
           let ol := len l in
           l ← resize l (len l - n + k);
           if negb (o + n =? ol) then
             m ← memmove (entry l) (o + n - n + k) (o + n) (ol - (o + n)); Some (set_entry l m)
           else Some l
         else if k <? n then
           m ← memmove (entry l) (o + k) (o + n) (len l - o - k);
           let l := set_entry l m in
           l ← zeroEntries l (len l - (n - k)) (len l);
           resize l (len l - (n - k))
         else Some l) = Some l' /\
    st l' ys (length xs - n + k) c /\ length ys = length xs - n + k /\
    take o ys = take o xs /\ drop (o + k) ys = drop (o + n) xs.
Proof.
  intros H Hn Hs. rewrite (st_len _ _ _ _ H). destruct (Nat.ltb_spec n k); simpl.
  - destruct (resize_grow l xs (length xs - n + k) c H) as (l1 & -> & H1); [lia|].
    pose proof (st_allocated _ _ _ _ H1) as Ha. simpl.
    set (ys := xs ++ replicate (length xs - n + k - length xs) nothing) in *.
    assert (length ys = length xs - n + k) as Hy by (unfold ys; rewrite length_app, length_replicate; lia).
    destruct (Nat.eqb_spec (o + n) (length xs)) as [E|E]; simpl.
    + exists l1, ys. split; [reflexivity|]. split; [exact H1|]. split; [exact Hy|]. unfold ys.
      rewrite take_app_le by lia. split; [reflexivity|]. rewrite !drop_ge; [reflexivity|lia|].
      rewrite length_app, length_replicate. lia.
    + destruct (memmove_spec l1 ys _ _ (o + n - n + k) (o + n) (length xs - (o + n)) H1) as (m & -> & H2 & _); [lia..|].
      simpl. eexists _, _. split; [reflexivity|]. split; [exact H2|].
      replace (o + n - n + k) with (o + k) by lia. unfold ys at 2 4 6.
      rewrite (drop_app_le xs) by lia. rewrite take_app_le, (take_ge (drop (o + n) xs)) by (rewrite length_drop; lia).
      assert (length (take (o + k) ys) = o + k) as Ht by (rewrite length_take; lia). split; [|split].
      * rewrite length_app, Ht, length_drop. lia.
      * rewrite take_app_le by lia. rewrite take_take, Nat.min_l by lia. unfold ys.
        apply take_app_le. lia.
      * rewrite drop_app_ge by lia. rewrite Ht, Nat.sub_diag. apply drop_0.
  - destruct (Nat.ltb_spec k n).
    + destruct (memmove_spec l xs _ _ (o + k) (o + n) (length xs - o - k) H) as (m & -> & H2 & _); [lia..|].
      rewrite (take_ge (drop (o + n) xs)) in H2 by (rewrite length_drop; lia). simpl.
      rewrite (st_len _ _ _ _ H).
      assert (length (take (o + k) xs) = o + k) as Ht by (rewrite length_take; lia).
      assert (length (take (o + k) xs ++ drop (o + n) xs) = length xs - n + k) as Hy
        by (rewrite length_app, Ht, length_drop; lia).
      destruct (zeroEntries_frame _ _ _ _ (length xs - (n - k)) (length xs) H2) as (l3 & -> & H3); [lia..|].
      simpl. rewrite (st_len _ _ _ _ H3).
      destruct (resize_shrink l3 _ (length xs - (n - k)) _ _ H3) as (l4 & E4 & H4); [lia..|].
      eexists l4, _. split; [exact E4|]. split; [eapply st_eq; [exact H4|reflexivity|lia|reflexivity]|].
      split; [exact Hy|]. split.
      * rewrite take_app_le by lia. rewrite take_take, Nat.min_l by lia. reflexivity.
      * rewrite drop_app_ge by lia. rewrite Ht, Nat.sub_diag. apply drop_0.
    + assert (k = n) as -> by lia. exists l, xs. split; [reflexivity|].
      split; [eapply st_eq; [exact H|reflexivity|lia|reflexivity]|]. split; [lia|auto].
Qed.

Lemma insert_middle xs i v :
  i < length xs -> <[i := v]> xs = take i xs ++ [v] ++ drop (i + 1) xs.
Proof. intros H. rewrite insert_take_drop, Nat.add_1_r by exact H. reflexivity. Qed.

Section Typed.
Context (checkVal : V -> option V).

(** The conversion of a value keeps the kind of the value. *)
Context (Hcheck : forall v v', checkVal v = Some v' -> needs_scan v' = needs_scan v).

Definition new_values (a : splice_arg V) : option (list V) :=
  match a with SVal v => v' ← checkVal v; Some [v'] | SList vs => check_all checkVal vs end.

Lemma new_values_length a new :
  new_values a = Some new -> length new = match a with SVal _ => 1 | SList vs => length vs end.
Proof.
  destruct a as [v|vs]; simpl.
  - destruct (checkVal v); simpl; [|discriminate]. intros [= <-]. reflexivity.
  - unfold check_all. intros H. apply mapM_Some in H. symmetry. eapply Forall2_length, H.
Qed.

Lemma spliceInternList_error l o ln a extract :
  new_values a = None -> spliceInternList checkVal l o ln a extract = Some (inr TYPE_ERROR, l).
Proof. unfold spliceInternList, new_values. intros ->. reflexivity. Qed.

Lemma spliceInternList_spec l xs o ln a extract new :
  repr l xs -> o <= length xs -> new_values a = Some new ->
  length xs + (Nat.min ln (length xs - o) - length new) <= allocated l ->
  exists l', spliceInternList checkVal l o ln a extract
      = Some (inl (removed_list extract (take ln (drop o xs))), l')
    /\ repr l' (spec_splice xs o ln new).
Proof.
  intros H Ho Hnew Hs. remember (Nat.min ln (length xs - o)) as n eqn:En.
  destruct (clip_spec l xs n _ o ln H) as (E1 & E2 & E3); [lia|exact En|].
  pose proof (new_values_length a new Hnew) as Hk.
  unfold spliceInternList. unfold new_values in Hnew. rewrite Hnew, E1, <- Hk.
  replace (o + n - o) with n by lia.
  destruct (remove_entries_spec xs _ n l o _ H) as (l1 & -> & H1 & Ha1); [lia|]. simpl.
  destruct (make_room_spec l1 xs o n (length new) _ H1) as (l2 & ys & Em & H2 & Hy & Ht & Hd); [lia..|].
  simpl in Em. rewrite Em. clear Em.
  simpl.
  assert (exists l3, (match a with
         | SVal v =>
           match new with
           | v' :: _ => l ← write_entry l2 o v'; Some (incScan_if l v 1)
           | [] => None
           end
         | SList _ => write_entries l2 o new
         end) = Some l3 /\ st l3 (take o ys ++ new ++ drop (o + length new) ys) (length xs - n + length new)
                 (scan_count xs - scan_count (take n (drop o xs)) + scan_count new)) as (l3 & -> & H3).
  { destruct a as [v|vs].
    - destruct (checkVal v) as [v'|] eqn:Ev; simpl in Hnew; [|discriminate]. injection Hnew as <-.
      destruct (write_entry_spec l2 ys _ _ o v' H2) as (l3 & -> & H3); [simpl in *; lia|].
      eexists. split; [reflexivity|]. apply (st_incScan _ _ _ _ v 1) in H3.
      eapply st_eq; [exact H3|apply insert_middle; simpl in *; lia|reflexivity|].
      rewrite scan_count_single, (Hcheck _ _ Ev). reflexivity.
    - apply write_entries_spec; [exact H2|lia]. }
  simpl. rewrite E2. eexists. split; [reflexivity|]. rewrite Ht, Hd, E3, E2 in H3.
  eapply st_eq; [exact H3|reflexivity| |].
  - rewrite spec_splice_length by exact Ho. lia.
  - rewrite scan_count_splice. reflexivity.
Qed.

(** Too many cells are moved: the last of them are not in the block. *)
Lemma spliceInternList_overread l xs o ln a extract new :
  repr l xs -> o <= length xs -> new_values a = Some new ->
  allocated l < length xs + (Nat.min ln (length xs - o) - length new) ->
  spliceInternList checkVal l o ln a extract = None.
Proof.
  intros H Ho Hnew Hs. remember (Nat.min ln (length xs - o)) as n eqn:En.
  destruct (clip_spec l xs n _ o ln H) as (E1 & _); [lia|exact En|].
  pose proof (new_values_length a new Hnew) as Hk. pose proof (st_allocated _ _ _ _ H) as Ha.
  unfold spliceInternList. unfold new_values in Hnew. rewrite Hnew, E1, <- Hk.
  replace (o + n - o) with n by lia.
  destruct (remove_entries_spec xs _ n l o _ H) as (l1 & -> & H1 & Ha1); [lia|].
  cbn [snd fst mbind option_bind]. rewrite (proj2 (Nat.ltb_ge _ _)), (proj2 (Nat.ltb_lt _ _)) by lia.
  unfold memmove. rewrite (st_len _ _ _ _ H1). unfold allocated in *.
  rewrite (proj2 (Nat.leb_gt _ _)) by lia. reflexivity.
Qed.

Lemma insert_first_spec l xs v v' :
  repr l xs -> checkVal v = Some v' ->
  exists l', insert_first checkVal l v = Some (None, l') /\ repr l' (v' :: xs).
Proof.
  intros H Hv. unfold insert_first. rewrite Hv, (st_len _ _ _ _ H).
  destruct (resize_grow l xs (length xs + 1) _ H) as (l1 & -> & H1); [lia|]. simpl.
  rewrite (st_len _ _ _ _ H1). replace (length xs + 1 - 1) with (length xs) by lia.
  pose proof (st_allocated _ _ _ _ H1) as Ha.
  replace (length xs + 1 - length xs) with 1 in H1 by lia. simpl in H1.
  assert (exists l2 w, (if negb (length xs =? 0) then
           m ← memmove (entry l1) 1 0 (length xs); Some (set_entry l1 m)
         else Some l1) = Some l2 /\ st l2 (w :: xs) (length xs + 1) (scan_count xs)) as (l2 & w & -> & H2).
  { destruct xs as [|x xs]; simpl length in *.
    - exists l1, nothing. split; [reflexivity|exact H1].
    - destruct (memmove_spec l1 _ _ _ 1 0 (S (length xs)) H1) as (m & -> & H2 & _); [simpl; lia..|].
      eexists _, x. split; [reflexivity|]. rewrite drop_0 in H2.
      change (S (length xs)) with (length (x :: xs)) in H2 at 1. rewrite take_app_length in H2. exact H2. }
  simpl. destruct (write_entry_spec l2 _ _ _ 0 v' H2) as (l3 & -> & H3); [simpl; lia|].
  simpl. eexists. split; [reflexivity|]. apply (st_incScan _ _ _ _ v 1) in H3.
  eapply st_eq; [exact H3|reflexivity|simpl; lia|].
  rewrite scan_count_cons, (Hcheck _ _ Hv). lia.
Qed.

(** The converted values up to the first one that is refused. *)
Fixpoint accepted (vs : list V) : list V :=
  match vs with
  | [] => []
  | v :: vs => match checkVal v with Some v => v :: accepted vs | None => [] end
  end.

Lemma merge_loop_spec vs : forall l xs,
  repr l xs ->
  exists l', merge_loop checkVal l vs
      = Some ((if length (accepted vs) =? length vs then None else Some TYPE_ERROR), l')
    /\ repr l' (xs ++ accepted vs).
Proof.
  induction vs as [|v vs IH]; intros l xs H; simpl.
  - exists l. rewrite app_nil_r. auto.
  - destruct (checkVal v) as [v'|] eqn:Ev; simpl.
    + destruct (pushIntern_spec l xs v' H) as (l1 & -> & H1). simpl.
      destruct (IH l1 _ H1) as (l2 & -> & H2). rewrite <- app_assoc in H2. eauto.
    + exists l. rewrite app_nil_r. auto.
Qed.

Lemma reserve_repr l xs num : repr l xs -> repr (reserve l num) xs.
Proof.
  intros (H & Hl & Hc & Hv & Ha). unfold reserve, grow, allocated in *.
  destruct (num <? len l) eqn:E; [repeat split; auto|]. apply Nat.ltb_ge in E.
  destruct (Nat.leb_spec (length (entry l)) num); [|repeat split; auto].
  pose proof (new_size_gt num). destruct (holds_realloc (entry l) xs (new_size num) H) as [Hh Hn]; [lia|].
  unfold repr, st, allocated. simpl. rewrite Hn. repeat split; auto. lia.
Qed.

(** ** Sequences of operations *)

Inductive list_op :=
  | OPush (v : V) | OPop | OShift | OInsert (v : V) | OSetEntry (i : nat) (v : V)
  | OSwap (i : nat) (v : V) | OTake (i : nat) | OGet (i : nat)
  | OSpliceEnd (offset : Z) (extract : bool)
  | OSplice (offset ln : Z) (extract : bool)
  | OMerge (vs : list V).

Inductive list_result :=
  | RNone | RError (e : list_error) | RVal (v : V) | RList (vs : option (list V)).

Definition error_result (e : option list_error) : list_result :=
  match e with None => RNone | Some e => RError e end.

Definition run_op (l : qore_list_private V) (op : list_op)
    : option (list_result * qore_list_private V) :=
  match op with
  | OPush v => '(e, l) ← push checkVal l v; Some (error_result e, l)
  | OPop => '(v, l) ← pop l; Some (RVal v, l)
  | OShift => '(v, l) ← shift l; Some (RVal v, l)
  | OInsert v => '(e, l) ← insert_first checkVal l v; Some (error_result e, l)
  | OSetEntry i v => l ← setEntry l i v; Some (RNone, l)
  | OSwap i v => '(v, l) ← swap l i v; Some (RVal v, l)
  | OTake i => '(v, l) ← takeExists l i; Some (RVal v, l)
  | OGet i => v ← retrieveEntry l i; Some (RVal v, l)
  | OSpliceEnd o e => '(r, l) ← splice1 l o e; Some (RList r, l)
  | OSplice o n e => '(r, l) ← splice2 l o n e; Some (RList r, l)
  | OMerge vs => '(e, l) ← merge checkVal l vs; Some (error_result e, l)
  end.

Definition list_offset xs (o : Z) : nat :=
  Z.to_nat (if o <? 0 then Z.max 0 (Z.of_nat (length xs) + o)
            else Z.min o (Z.of_nat (length xs)))%Z.

(** A negative length counts from the end of the list. *)
Definition list_span xs (o : Z) (n : Z) : nat :=
  Z.to_nat (if n <? 0 then Z.of_nat (length xs) + n - Z.of_nat (list_offset xs o) else n)%Z.

Definition spec_remove xs (o n : nat) (extract : bool) : list_result * list V :=
  (RList (removed_list extract (take n (drop o xs))), spec_splice xs o n []).

Definition spec_op xs (op : list_op) : list_result * list V :=
  match op with
  | OPush v => match checkVal v with Some v => (RNone, xs ++ [v]) | None => (RError TYPE_ERROR, xs) end
  | OPop => (RVal (default nothing (last xs)), take (length xs - 1) xs)
  | OShift => (RVal (default nothing (head xs)), tail xs)
  | OInsert v => match checkVal v with Some v => (RNone, v :: xs) | None => (RError TYPE_ERROR, xs) end
  | OSetEntry i v => (RNone, <[i := v]> (extend xs i))
  | OSwap i v => (RVal (default nothing (xs !! i)), <[i := v]> (extend xs i))
  | OTake i => (RVal (default nothing (xs !! i)), <[i := nothing]> xs)
  | OGet i => (RVal (default nothing (xs !! i)), xs)
  | OSpliceEnd o e => spec_remove xs (list_offset xs o) (length xs) e
  | OSplice o n e => spec_remove xs (list_offset xs o) (list_span xs o n) e
  | OMerge vs =>
    (if length (accepted vs) =? length vs then RNone else RError TYPE_ERROR, xs ++ accepted vs)
  end.

Fixpoint run_ops (l : qore_list_private V) (ops : list list_op)
    : option (list list_result * qore_list_private V) :=
  match ops with
  | [] => Some ([], l)
  | op :: ops =>
    '(r, l) ← run_op l op; '(rs, l) ← run_ops l ops; Some (r :: rs, l)
  end.

Fixpoint spec_ops xs (ops : list list_op) : list list_result * list V :=
  match ops with
  | [] => ([], xs)
  | op :: ops =>
    let '(r, xs) := spec_op xs op in let '(rs, xs) := spec_ops xs ops in (r :: rs, xs)
  end.

Lemma extend_lookup xs i : default nothing (xs !! i) = default nothing (extend xs i !! i).
Proof.
  unfold extend. destruct (Nat.lt_ge_cases i (length xs)) as [Hlt|Hge].
  - rewrite lookup_app_l by exact Hlt. reflexivity.
  - rewrite lookup_app_r, lookup_ge_None_2 by lia. rewrite lookup_replicate_2 by lia. reflexivity.
Qed.

Lemma checkOffset_spec l xs o : repr l xs -> checkOffset l o = Z.of_nat (list_offset xs o).
Proof.
  intros H. unfold checkOffset, list_offset. rewrite (st_len _ _ _ _ H).
  destruct (Z.ltb_spec o 0).
  - destruct (Z.ltb_spec (Z.of_nat (length xs) + o) 0); lia.
  - destruct (Z.ltb_spec (Z.of_nat (length xs)) o); lia.
Qed.

Lemma list_offset_le xs o : list_offset xs o <= length xs.
Proof. unfold list_offset. destruct (Z.ltb_spec o 0); lia. Qed.

Lemma checkOffset2_spec l xs o n :
  repr l xs -> checkOffset2 l o n = (list_offset xs o, list_span xs o n).
Proof.
  intros H. unfold checkOffset2. rewrite (checkOffset_spec l xs o H), Nat2Z.id.
  unfold list_span. rewrite (st_len _ _ _ _ H). f_equal.
  destruct (Z.ltb_spec n 0); [|reflexivity].
  destruct (Z.ltb_spec (Z.of_nat (length xs) + n - Z.of_nat (list_offset xs o)) 0); lia.
Qed.

(** Removing [k] entries from an offset of the list. *)
Lemma splice_end_spec l xs o k (extract : bool) :
  repr l xs -> o <= length xs ->
  exists l', (if o =? len l then Some ((if extract then Some ([] : list V) else None), l)
              else spliceIntern l o k extract)
    = Some (removed_list extract (take k (drop o xs)), l') /\ repr l' (spec_splice xs o k []).
Proof.
  intros H Ho. rewrite (st_len _ _ _ _ H). destruct (Nat.eqb_spec o (length xs)) as [->|Hne].
  - exists l. rewrite drop_all, take_nil. split; [destruct extract; reflexivity|].
    unfold spec_splice. rewrite drop_ge, take_ge, app_nil_r by lia. exact H.
  - apply spliceIntern_spec; [exact H|lia].
Qed.

Lemma run_op_spec l xs op :
  repr l xs -> exists l', run_op l op = Some (fst (spec_op xs op), l') /\ repr l' (snd (spec_op xs op)).
Proof.
  intros H. destruct op as [v| | |v|i v|i v|i|i|o e|o n e|vs]; simpl.
  - unfold push. assert (valid l = true) as -> by apply H. simpl.
    destruct (checkVal v) as [v'|]; simpl; [|eauto].
    destruct (pushIntern_spec l xs v' H) as (l' & -> & H'). simpl. eauto.
  - destruct xs as [|x xs] using rev_ind.
    + unfold pop. rewrite (st_len _ _ _ _ H). simpl. eauto.
    + destruct (pop_spec l xs x H) as (l' & -> & H'). simpl.
      rewrite last_snoc, length_app, Nat.add_sub, take_app_length. simpl. eauto.
  - destruct xs as [|x xs].
    + unfold shift. rewrite (st_len _ _ _ _ H). simpl. eauto.
    + destruct (shift_spec l xs x H) as (l' & -> & H'). simpl. eauto.
  - destruct (checkVal v) as [v'|] eqn:Ev.
    + destruct (insert_first_spec l xs v v' H Ev) as (l' & -> & H'). simpl. eauto.
    + unfold insert_first. rewrite Ev. simpl. eauto.
  - destruct (setEntry_spec l xs i v H) as (l' & -> & H'). simpl. eauto.
  - destruct (swap_spec l xs i v H) as (w & l' & -> & Hw & H'). simpl.
    rewrite extend_lookup, Hw. simpl. eauto.
  - destruct (xs !! i) as [w|] eqn:Hw.
    + destruct (takeExists_spec l xs i w H Hw) as (l' & -> & H'). simpl. eauto.
    + apply lookup_ge_None in Hw. rewrite (takeExists_out l xs i H Hw), list_insert_ge by exact Hw. simpl. eauto.
  - unfold retrieveEntry. rewrite (st_len _ _ _ _ H). destruct (Nat.leb_spec (length xs) i).
    + rewrite lookup_ge_None_2 by assumption. simpl. eauto.
    + destruct (lookup_lt_is_Some_2 xs i) as [v Hv]; [assumption|].
      rewrite (st_read _ _ _ _ i v H Hv), Hv. simpl. eauto.
  - unfold splice1. rewrite (checkOffset_spec l xs o H), Nat2Z.id.
    pose proof (list_offset_le xs o) as Ho.
    destruct (splice_end_spec l xs _ (len l - list_offset xs o) e H Ho) as (l' & -> & H').
    rewrite (st_len _ _ _ _ H) in *. simpl. exists l'.
    assert (drop (list_offset xs o + (length xs - list_offset xs o)) xs
            = drop (list_offset xs o + length xs) xs) as E by (rewrite !drop_ge; reflexivity || lia).
    unfold spec_splice in *. rewrite E in H'. rewrite !take_ge by (rewrite length_drop; lia). auto.
  - unfold splice2. rewrite (checkOffset2_spec l xs o n H). simpl.
    destruct (splice_end_spec l xs _ (list_span xs o n) e H (list_offset_le xs o)) as (l' & -> & H').
    simpl. eauto.
  - unfold merge. destruct (merge_loop_spec vs _ xs (reserve_repr l xs (len l + length vs) H)) as (l' & -> & H').
    simpl. exists l'. split; [|exact H']. destruct (length (accepted vs) =? length vs); reflexivity.
Qed.

Lemma run_ops_spec ops : forall l xs,
  repr l xs -> exists l', run_ops l ops = Some (fst (spec_ops xs ops), l')
    /\ repr l' (snd (spec_ops xs ops)).
Proof.
  induction ops as [|op ops IH]; intros l xs H; simpl; [eauto|].
  destruct (run_op_spec l xs op H) as (l1 & -> & H1). simpl.
  destruct (spec_op xs op) as [r ys]. simpl in *.
  destruct (IH l1 ys H1) as (l2 & -> & H2). simpl.
  destruct (spec_ops ys ops) as [rs zs]. simpl in *. eauto.
Qed.
End Typed.

Lemma empty_repr : repr empty_list [].
Proof. split; [exists []; reflexivity|]. repeat split; simpl; lia. Qed.

Lemma copy_entries_spec src xs n : forall k i dst ys,
  st src xs (length xs) n -> i + k <= length xs -> repr dst ys ->
  exists l, copy_entries src k i dst = Some l /\ repr l (ys ++ take k (drop i xs)).
Proof.
  induction k as [|k IH]; intros i dst ys H Hi Hd; simpl.
  - exists dst. rewrite take_0, app_nil_r. auto.
  - destruct (lookup_lt_is_Some_2 xs i) as [v Hv]; [lia|].
    rewrite (st_read _ _ _ _ i v H Hv). simpl.
    destruct (pushIntern_spec dst ys v Hd) as (l1 & -> & H1). simpl.
    destruct (IH (S i) l1 (ys ++ [v]) H) as (l2 & -> & H2); [lia|exact H1|].
    exists l2. split; [reflexivity|]. rewrite (drop_S xs v i Hv). simpl.
    rewrite <- app_assoc in H2. exact H2.
Qed.

(** The entries an iterator visits with [next] from position [pos]. *)
Fixpoint iterate (next : Z -> bool * Z) (l : qore_list_private V) (fuel : nat) (pos : Z)
    : option (list V) :=
  match fuel with
  | O => None
  | S fuel =>
    match next pos with
    | (false, _) => Some []
    | (true, pos) =>
      v ← retrieveEntry l (Z.to_nat pos); vs ← iterate next l fuel pos; Some (v :: vs)
    end
  end.

Lemma iterate_S next l fuel pos :
  iterate next l (S fuel) pos =
  match next pos with
  | (false, _) => Some []
  | (true, pos) =>
    v ← retrieveEntry l (Z.to_nat pos); vs ← iterate next l fuel pos; Some (v :: vs)
  end.
Proof. reflexivity. Qed.

Lemma retrieveEntry_in l xs i v : repr l xs -> xs !! i = Some v -> retrieveEntry l i = Some v.
Proof.
  intros H Hv. unfold retrieveEntry. pose proof (lookup_lt_Some _ _ _ Hv).
  rewrite (st_len _ _ _ _ H). destruct (Nat.leb_spec (length xs) i); [lia|].
  apply (st_read _ _ _ _ _ _ H Hv).
Qed.

Lemma iter_next_step l xs i :
  repr l xs -> i <= length xs ->
  iter_next l (Z.of_nat i - 1) = if i =? length xs then (false, -1)%Z else (true, Z.of_nat i).
Proof.
  intros H Hi. unfold iter_next. rewrite (st_len _ _ _ _ H).
  replace (Z.of_nat i - 1 + 1)%Z with (Z.of_nat i) by lia.
  destruct (Nat.eqb_spec i (length xs)), (Z.eqb_spec (Z.of_nat i) (Z.of_nat (length xs)));
    reflexivity || lia.
Qed.

Lemma iter_prev_step l xs i :
  repr l xs -> i <= length xs ->
  iter_prev l (if (i =? length xs)%nat then -1 else Z.of_nat i)%Z
  = if i =? 0 then (false, -1)%Z else (true, Z.of_nat i - 1)%Z.
Proof.
  intros H Hi. unfold iter_prev. rewrite (st_len _ _ _ _ H).
  destruct (Nat.eqb_spec (length xs) 0) as [E|E].
  - replace i with 0 by lia. rewrite E. reflexivity.
  - destruct (Nat.eqb_spec i (length xs)) as [->|Hne].
    + destruct (Nat.eqb_spec (length xs) 0); [lia|reflexivity].
    + destruct (Z.eqb_spec (Z.of_nat i) (-1)); [lia|].
      destruct (Nat.eqb_spec i 0), (Z.eqb_spec (Z.of_nat i) 0); try lia; reflexivity.
Qed.

Lemma iterate_next_from l xs k : forall i,
  repr l xs -> i + k = length xs ->
  iterate (iter_next l) l (S k) (Z.of_nat i - 1) = Some (drop i xs).
Proof.
  induction k as [|k IH]; intros i H Hi; rewrite iterate_S, (iter_next_step l xs i H) by lia;
    destruct (Nat.eqb_spec i (length xs)); try lia.
  - rewrite drop_ge by lia. reflexivity.
  - rewrite Nat2Z.id. destruct (lookup_lt_is_Some_2 xs i) as [v Hv]; [lia|].
    rewrite (retrieveEntry_in l xs i v H Hv), (drop_S xs v i Hv).
    replace (Z.of_nat i) with (Z.of_nat (S i) - 1)%Z by lia.
    cbn [mbind option_bind]. rewrite (IH (S i) H) by lia. reflexivity.
Qed.

Lemma iterate_prev_from l xs : forall i,
  repr l xs -> i <= length xs ->
  iterate (iter_prev l) l (S i) (if (i =? length xs)%nat then -1 else Z.of_nat i)%Z
  = Some (rev (take i xs)).
Proof.
  induction i as [|i IH]; intros H Hi; rewrite iterate_S, (iter_prev_step l xs _ H) by lia.
  - reflexivity.
  - destruct (lookup_lt_is_Some_2 xs i) as [v Hv]; [lia|].
    specialize (IH H). rewrite (proj2 (Nat.eqb_neq i (length xs))) in IH by lia.
    cbn [Nat.eqb]. replace (Z.of_nat (S i) - 1)%Z with (Z.of_nat i) by lia.
    rewrite Nat2Z.id, (retrieveEntry_in l xs i v H Hv). cbn [mbind option_bind].
    rewrite IH by lia. simpl. rewrite (take_S_r xs i v Hv), rev_app_distr. reflexivity.
Qed.

Lemma resize_empty n : exists l, resize empty_list n = Some l /\ repr l (replicate n nothing).
Proof.
  destruct (resize_grow empty_list [] n 0 empty_repr) as (l & E & H); [simpl; lia|].
  exists l. split; [exact E|]. simpl in H. rewrite Nat.sub_0_r in H.
  eapply st_eq; [exact H|reflexivity|rewrite length_replicate; reflexivity|].
  rewrite scan_count_replicate. reflexivity.
Qed.

Lemma reverse_entries_spec src xs ys n c : forall k i dst,
  repr src xs -> st dst ys n c -> i + k = length xs -> length ys = length xs ->
  exists l, reverse_entries src k i dst = Some l /\
    st l (take i ys ++ drop i (rev xs)) n c.
Proof.
  intros k. revert ys. induction k as [|k IH]; intros ys i dst H Hd Hi Hy; simpl.
  - exists dst. split; [reflexivity|].
    rewrite take_ge, drop_ge, app_nil_r by (rewrite ?length_rev; lia). exact Hd.
  - rewrite (st_len _ _ _ _ H). destruct (lookup_lt_is_Some_2 xs (length xs - i - 1)) as [v Hv]; [lia|].
    rewrite (st_read _ _ _ _ _ v H Hv). simpl.
    destruct (write_entry_spec dst ys _ _ i v Hd) as (l1 & -> & H1); [lia|]. simpl.
    destruct (IH _ (S i) l1 H H1) as (l2 & -> & H2); [lia|rewrite length_insert; exact Hy|].
    exists l2. split; [reflexivity|]. eapply st_eq; [exact H2| |reflexivity..].
    rewrite (take_S_r _ i v) by (apply list_lookup_insert_eq; lia).
    rewrite take_insert_ge by lia.
    assert (rev xs !! i = Some v) as Hr.
    { rewrite rev_alt. transitivity (xs !! (length xs - S i)).
      - apply (reverse_lookup xs i). lia.
      - rewrite <- Hv. f_equal. lia. }
    rewrite <- app_assoc, (drop_S _ v i Hr). reflexivity.
Qed.

(** ** What the list promises *)

(** C1: on a list that represents [xs], every sequence of pushes, pops, shifts,
    inserts at the front, assignments, swaps, removals, reads, merges and splices
    that only remove entries runs without a memory error, gives the results of the
    operations on [xs], and leaves a list that represents the resulting sequence,
    its scan count included. The type check of the list must not change whether a
    value has to be scanned. Splices with new values and [reverse] are left out,
    see [spliceList_overread] and [reverse_scan_count]. *)
Theorem list_ops_refine (checkVal : V -> option V) l xs ops :
  (forall v v', checkVal v = Some v' -> needs_scan v' = needs_scan v) -> repr l xs ->
  exists l', run_ops checkVal l ops = Some (fst (spec_ops checkVal xs ops), l')
    /\ repr l' (snd (spec_ops checkVal xs ops)).
Proof. intros Hcheck H. exact (run_ops_spec checkVal Hcheck ops l xs H). Qed.

(** C2: a splice of new values changes nothing when the type of the list refuses one of
    them; otherwise the entries of the range are returned and replaced by the
    converted values. When fewer values come than entries go, too many cells are moved
    down; so it reads behind the block exactly when the block has less room than the
    entries and the cells that are lost. The type check of the list must not change
    whether a value has to be scanned. *)
Theorem spliceList_bounds (checkVal : V -> option V) l xs offset ln a extract :
  (forall v v', checkVal v = Some v' -> needs_scan v' = needs_scan v) -> repr l xs ->
  let o := list_offset xs offset in
  let n := Nat.min (list_span xs offset ln) (length xs - o) in
  match new_values checkVal a with
  | None => spliceList checkVal l offset ln a extract = Some (inr TYPE_ERROR, l)
  | Some new =>
    if allocated l <? length xs + (n - length new)
    then spliceList checkVal l offset ln a extract = None
    else exists l', spliceList checkVal l offset ln a extract
           = Some (inl (removed_list extract (take n (drop o xs))), l')
         /\ repr l' (take o xs ++ new ++ drop (o + n) xs)
  end.
Proof.
  intros Hcheck H o n. unfold spliceList. rewrite (checkOffset2_spec l xs _ _ H). fold o.
  pose proof (list_offset_le xs offset) as Ho. fold o in Ho.
  destruct (new_values checkVal a) as [new|] eqn:E; [|apply spliceInternList_error; exact E].
  destruct (clip_spec l xs n _ o (list_span xs offset ln) H) as (_ & E2 & E3); [exact Ho|reflexivity|].
  destruct (Nat.ltb_spec (allocated l) (length xs + (n - length new))) as [Hs|Hs].
  - apply (spliceInternList_overread _ _ xs _ _ _ _ _ H Ho E Hs).
  - rewrite E2, E3. apply spliceInternList_spec; assumption.
Qed.

(** [copy] and [copyListFrom] give lists with the same entries and the right
    scan count; [reverse] gives the entries in reverse order, with a scan
    count of 0 whatever they are. *)
Theorem list_copies_correct l xs index :
  repr l xs ->
  (exists c, copy l = Some c /\ repr c xs) /\
  (exists c, copyListFrom l index = Some c /\ repr c (drop index xs)) /\
  (exists c, reverse l = Some c /\ st c (rev xs) (length xs) 0).
Proof.
  intros H. split; [|split].
  - unfold copy. rewrite (st_len _ _ _ _ H).
    destruct (copy_entries_spec l xs _ (length xs) 0 _ [] H ltac:(lia) (reserve_repr _ _ (length xs) empty_repr))
      as (c & E & Hc). rewrite take_ge in Hc by (rewrite drop_0; lia). eauto.
  - unfold copyListFrom. rewrite (st_len _ _ _ _ H).
    destruct (Nat.le_gt_cases index (length xs)) as [Hi|Hi].
    + destruct (copy_entries_spec l xs _ (length xs - index) index _ [] H ltac:(lia) empty_repr) as (c & E & Hc).
      rewrite take_ge in Hc by (rewrite length_drop; lia). eauto.
    + replace (length xs - index) with 0 by lia. rewrite drop_ge by lia. simpl.
      eauto using empty_repr.
  - unfold reverse. rewrite (st_len _ _ _ _ H). destruct (resize_empty (length xs)) as (d & -> & Hd).
    simpl. unfold repr in Hd. rewrite scan_count_replicate, length_replicate in Hd.
    destruct (reverse_entries_spec l xs _ (length xs) 0 (length xs) 0 d H Hd) as (c & E & Hc);
      [lia|apply length_replicate|eauto].
Qed.

(** iterating with [next] from the start visits the entries in order,
    iterating with [prev] visits them in reverse order, and both stop. *)
Theorem list_iteration l xs :
  repr l xs ->
  iterate (iter_next l) l (S (length xs)) (-1) = Some xs /\
  iterate (iter_prev l) l (S (length xs)) (-1) = Some (rev xs).
Proof.
  intros H. split.
  - rewrite <- (drop_0 xs) at 2. apply (iterate_next_from l xs (length xs) 0 H). lia.
  - pose proof (iterate_prev_from l xs (length xs) H (Nat.le_refl _)) as E.
    rewrite Nat.eqb_refl, firstn_all in E. exact E.
Qed.

End Spec.

(** ** Concrete lists

    Numbers from 100 need a scan. *)
#[local] Instance nat_values : ValueOps nat :=
  {| nothing := 0; needs_scan := fun n => 100 <=? n; needs_scan_nothing := eq_refl |}.

Definition three : qore_list_private nat :=
  ListPriv [Some 1; Some 100; Some 3; None] 3 1 true.

Lemma three_repr : repr three [1; 100; 3].
Proof. split; [exists [None]; reflexivity|]. repeat split; try reflexivity. vm_compute. lia. Qed.

Lemma list_ops_refine_witness :
  exists l', run_ops Some three [OShift; OPush 7; OSplice (-2) 1 true]
    = Some ([RVal 1; RNone; RList (Some [3])], l') /\ repr l' [100; 7].
Proof.
  apply (list_ops_refine Some three [1; 100; 3] [OShift; OPush 7; OSplice (-2) 1 true]).
  - intros v v' [= ->]. reflexivity.
  - exact three_repr.
Defined.

Lemma spliceList_bounds_witness :
  (exists l', spliceList Some three 0 2 (SVal 9) false = Some (inl (Some [1; 100]), l')
     /\ repr l' [9; 3]) /\
  spliceList Some three 0 3 (SVal 9) false = None.
Proof.
  split.
  - apply (spliceList_bounds Some three [1; 100; 3] 0 2 (SVal 9) false);
      [intros v v' [= ->]; reflexivity|exact three_repr].
  - apply (spliceList_bounds Some three [1; 100; 3] 0 3 (SVal 9) false);
      [intros v v' [= ->]; reflexivity|exact three_repr].
Defined.

Lemma list_copies_correct_witness :
  (exists c, copy three = Some c /\ repr c [1; 100; 3]) /\
  (exists c, copyListFrom three 1 = Some c /\ repr c [100; 3]) /\
  (exists c, reverse three = Some c /\ st c [3; 100; 1] 3 0).
Proof. exact (list_copies_correct three [1; 100; 3] 1 three_repr). Defined.

Lemma list_iteration_witness :
  iterate (iter_next three) three 4 (-1) = Some [1; 100; 3] /\
  iterate (iter_prev three) three 4 (-1) = Some [3; 100; 1].
Proof. exact (list_iteration three [1; 100; 3] three_repr). Defined.

(** A splice that replaces entries by fewer values moves too many cells: with
    16 entries in a block of 31 the move ends inside of the block; after 30
    pushes the block has 31 cells, and replacing 10 entries by one reads
    behind it. *)
Definition pushed (n : nat) : option (qore_list_private nat) :=
  r ← run_ops Some empty_list (OPush <$> seq 0 n); Some (snd r).

Example spliceList_overread :
  (l ← pushed 16; Some (allocated l)) = Some 31 /\
  (l ← pushed 16; spliceList Some l 0 10 (SVal 5) false) <> None /\
  (l ← pushed 30; Some (allocated l)) = Some 31 /\
  (l ← pushed 30; spliceList Some l 0 10 (SVal 5) false) = None.
Proof. vm_compute. repeat split; discriminate. Qed.

(** The reversed list does not know that it holds a container. *)
Example reverse_scan_count :
  (l ← reverse three; Some (obj_count l)) = Some 0%Z /\ scan_count [3; 100; 1] = 1%Z.
Proof. vm_compute. split; reflexivity. Qed.
