(* ===== verification/ListSort.v ===== *)
(** * Sorting

    [mergesort] and [qsort] of [qore_list_private], the sort functions and the
    minimum and maximum of lib/QoreListNode.cpp, on the memory block of
    ListNode. *)

From Stdlib Require Import Sorting.Sorted.
From S2P Require Import Prelude ListNode.

#[local] Open Scope nat_scope.

Section Sort.
Context {V : Type} {vops : ValueOps V}.

(** The comparison of two values: an operator of the language or a call of the
    user's code, [None] when it raises an exception. *)
Inductive comparer := Op (f : V -> V -> option Z) | Call (f : V -> V -> option Z).

(** The 64-bit result of a call is narrowed to an [int]. *)
Definition do_compare (fr : comparer) (a b : V) : option Z :=
  match fr with Op f => f a b | Call f => rc ← f a b; Some (i32 rc) end.

Context (fr : comparer).
#[local] Abbreviation cmp := (do_compare fr).

(** [ascending && rc <= 0 || !ascending && rc >= 0] *)
Definition take_left (ascending : bool) (rc : Z) : bool :=
  (if ascending then rc <=? 0 else 0 <=? rc)%Z.

(** ** mergesort

    The result says whether an exception was raised. *)

(** [while (li < l->length) pushIntern(l->getAndClear(li++))] *)
Fixpoint move_rest (fuel : nat) (l side : qore_list_private V) (i : nat)
    : option (qore_list_private V) :=
  match fuel with
  | O => None
  | S fuel =>
    if i <? len side then
      '(v, side) ← getAndClear side i; l ← pushIntern l v; move_rest fuel l side (S i)
    else Some l
  end.

Fixpoint merge_sides (fuel : nat) (ascending : bool) (l sl sr : qore_list_private V)
    (li ri : nat) : option (bool * qore_list_private V) :=
  match fuel with
  | O => None
  | S fuel =>
    if (li <? len sl) && (ri <? len sr) then
      lv ← m_read (entry sl) li;
      rv ← m_read (entry sr) ri;
      match cmp lv rv with
      | None => Some (true, l)
      | Some rc =>
        if take_left ascending rc then
          '(v, sl) ← getAndClear sl li; l ← pushIntern l v;
          merge_sides fuel ascending l sl sr (S li) ri
        else
          '(v, sr) ← getAndClear sr ri; l ← pushIntern l v;
          merge_sides fuel ascending l sl sr li (S ri)
      end
    else
      l ← move_rest fuel l sl li; l ← move_rest fuel l sr ri; Some (false, l)
  end.

Fixpoint mergesort (fuel : nat) (ascending : bool) (l : qore_list_private V)
    : option (bool * qore_list_private V) :=
  match fuel with
  | O => None
  | S fuel =>
    if len l <=? 1 then Some (false, l)
    else
      let mid := len l / 2 in
      sl ← copy_entries l mid 0 empty_list;
      sr ← copy_entries l (len l - mid) mid empty_list;
      let l := set_len l 0 in
      '(rc, sl) ← mergesort fuel ascending sl;
      if (rc : bool) then Some (true, l)
      else
        '(rc, sr) ← mergesort fuel ascending sr;
        if (rc : bool) then Some (true, l)
        else merge_sides (len sl + len sr + 2) ascending l sl sr 0 0
  end.

(** ** qsort *)

(** The position found by the loop, [None] after an exception. *)
Fixpoint scan_right (fuel : nat) (ascending : bool) (m : block V) (pivot : V) (left right : nat)
    : option (option nat) :=
  match fuel with
  | O => None
  | S fuel =>
    v ← m_read m right;
    match cmp v pivot with
    | None => Some None
    | Some rc =>
      if (left <? right) && (if ascending then 0 <=? rc else rc <? 0)%Z
      then scan_right fuel ascending m pivot left (right - 1)
      else Some (Some right)
    end
  end.

Fixpoint scan_left (fuel : nat) (ascending : bool) (m : block V) (pivot : V) (left right : nat)
    : option (option nat) :=
  match fuel with
  | O => None
  | S fuel =>
    v ← m_read m left;
    match cmp v pivot with
    | None => Some None
    | Some rc =>
      if (left <? right) && (if ascending then rc <=? 0 else 0 <? rc)%Z
      then scan_left fuel ascending m pivot (left + 1) right
      else Some (Some left)
    end
  end.

(** [entry[dst] = entry[src]] *)
Definition assign (l : qore_list_private V) (dst src : nat) : option (qore_list_private V) :=
  v ← m_read (entry l) src; write_entry l dst v.

(** The loop [while (left < right)]: where it stops, [None] after an
    exception. *)
Fixpoint partition (fuel : nat) (ascending : bool) (l : qore_list_private V) (pivot : V)
    (left right : nat) : option (option nat * qore_list_private V) :=
  match fuel with
  | O => None
  | S fuel =>
    if left <? right then
      r ← scan_right (right - left + 1) ascending (entry l) pivot left right;
      match r with
      | None => Some (None, l)
      | Some right' =>
        let right := right' in
        l ← (if left =? right then Some l else assign l left right);
        let left := if left =? right then left else left + 1 in
        r ← scan_left (right - left + 1) ascending (entry l) pivot left right;
        match r with
        | None => Some (None, l)
        | Some left' =>
          let left := left' in
          l ← (if left =? right then Some l else assign l right left);
          let right := if left =? right then right else right - 1 in
          partition fuel ascending l pivot left right
        end
      end
    else Some (Some left, l)
  end.

Fixpoint qsort (fuel : nat) (ascending : bool) (l : qore_list_private V) (left right : nat)
    : option (bool * qore_list_private V) :=
  match fuel with
  | O => None
  | S fuel =>
    pivot ← m_read (entry l) left;
    '(r, l) ← partition (right - left + 2) ascending l pivot left right;
    match r with
    | None => Some (true, l)
    | Some t_left =>
      l ← write_entry l t_left pivot;
      '(rc, l) ← (if left <? t_left then qsort fuel ascending l left (t_left - 1)
                  else Some (false, l));
      if negb rc && (t_left <? right) then qsort fuel ascending l (t_left + 1) right
      else Some (rc, l)
    end
  end.

(** ** The functions of the list class *)

Definition QORE_QUICKSORT_LIMIT := 1000.

(** [sort] and [sortDescending], by an operator or a call: [None] inside is the
    null pointer of an exception. *)
Definition sort_list (ascending : bool) (l : qore_list_private V)
    : option (option (qore_list_private V)) :=
  rv ← copy l;
  if negb (len l =? 0) then
    '(rc, rv) ← (if QORE_QUICKSORT_LIMIT <? len l then mergesort (len l) ascending rv
                 else qsort (len l) ascending rv 0 (len l - 1));
    Some (if (rc : bool) then None else Some rv)
  else Some (Some rv).

Definition sort := sort_list true.
Definition sortDescending := sort_list false.

Definition sort_list_stable (ascending : bool) (l : qore_list_private V)
    : option (option (qore_list_private V)) :=
  rv ← copy l;
  if negb (len l =? 0) then
    '(rc, rv) ← mergesort (len l) ascending rv;
    Some (if (rc : bool) then None else Some rv)
  else Some (Some rv).

Definition sortStable := sort_list_stable true.
Definition sortDescendingStable := sort_list_stable false.

(** The loop of [min] and [max]: [better v rv] is the comparison, [None] after
    an exception. *)
Fixpoint extreme (better : V -> V -> option bool) (l : qore_list_private V) (n i : nat) (rv : V)
    : option (option V) :=
  match n with
  | O => Some (Some rv)
  | S n =>
    v ← m_read (entry l) i;
    match better v rv with
    | None => Some None
    | Some b => extreme better l n (S i) (if b then v else rv)
    end
  end.

(** [min(fr)] and [max(fr)] with a call, [min()] and [max()] with an operator;
    [max()] starts with a comparison of the first entry with itself. *)
Definition min_with (better : V -> V -> option bool) (l : qore_list_private V) : option (option V) :=
  if len l =? 0 then Some (Some nothing)
  else rv ← m_read (entry l) 0; extreme better l (len l - 1) 1 rv.
Definition max_with (better : V -> V -> option bool) (first : nat) (l : qore_list_private V)
    : option (option V) :=
  if len l =? 0 then Some (Some nothing)
  else rv ← m_read (entry l) 0; extreme better l (len l - first) first rv.

Definition min_call (call : V -> V -> option Z) : qore_list_private V -> option (option V) :=
  min_with (fun v rv => rc ← call v rv; Some (rc <? 0)%Z).
Definition max_call (call : V -> V -> option Z) : qore_list_private V -> option (option V) :=
  max_with (fun v rv => rc ← call v rv; Some (0 <? rc)%Z) 1.
Definition min_op (doLessThan : V -> V -> option bool) : qore_list_private V -> option (option V) :=
  min_with doLessThan.
Definition max_op (doGreaterThan : V -> V -> option bool) : qore_list_private V -> option (option V) :=
  max_with doGreaterThan 0.

End Sort.
Arguments comparer : clear implicits.

(** ** Orders *)

Section Order.
Context {V : Type} {vops : ValueOps V}.
Implicit Types (xs ys : list V) (l : qore_list_private V).

(** The comparison never raises an exception and is a total preorder. *)
Record order (fr : comparer V) (f : V -> V -> Z) : Prop := {
  ord_cmp a b : do_compare fr a b = Some (f a b);
  ord_sgn a b : Z.sgn (f b a) = (- Z.sgn (f a b))%Z;
  ord_trans a b c : (f a b <= 0 -> f b c <= 0 -> f a c <= 0)%Z }.

Context (fr : comparer V) (f : V -> V -> Z) (Hord : order fr f) (asc : bool).

Definition le (a b : V) : Prop := take_left asc (f a b) = true.

(** [ys] is [xs] sorted: a permutation in order; and the sort is stable. *)
Definition sorted_of xs ys : Prop := Permutation xs ys /\ StronglySorted le ys.
Definition same xs ys : Prop :=
  forall v, filter (fun w => f v w = 0%Z) ys = filter (fun w => f v w = 0%Z) xs.

Lemma le_iff a b : le a b <-> (if asc then f a b <= 0 else 0 <= f a b)%Z.
Proof. unfold le, take_left. destruct asc; apply Z.leb_le. Qed.

Lemma le_total a b : take_left asc (f a b) = false -> le b a.
Proof.
  rewrite le_iff. unfold take_left. pose proof (ord_sgn _ _ Hord a b) as H.
  destruct asc; rewrite Z.leb_gt; lia.
Qed.

Lemma le_trans a b c : le a b -> le b c -> le a c.
Proof.
  rewrite !le_iff. destruct asc.
  - apply (ord_trans _ _ Hord).
  - pose proof (ord_sgn _ _ Hord a b). pose proof (ord_sgn _ _ Hord b c).
    pose proof (ord_sgn _ _ Hord a c). pose proof (ord_trans _ _ Hord c b a). lia.
Qed.

(** A value equal to [v] is not after one that is strictly before it. *)
Lemma strict_neq v x y z :
  take_left asc (f x y) = false -> le x z -> f v y = 0%Z -> f v z <> 0%Z.
Proof.
  rewrite le_iff. unfold take_left. intros H1 H2 H3 H4.
  pose proof (ord_sgn _ _ Hord x y). pose proof (ord_sgn _ _ Hord x z).
  pose proof (ord_sgn _ _ Hord v y). pose proof (ord_sgn _ _ Hord v z).
  pose proof (ord_trans _ _ Hord x z v). pose proof (ord_trans _ _ Hord x v y).
  pose proof (ord_trans _ _ Hord y v x). pose proof (ord_trans _ _ Hord v z x).
  destruct asc; apply Z.leb_gt in H1; lia.
Qed.

(** ** Merging *)

Fixpoint lmerge xs : list V -> list V :=
  match xs with
  | [] => fun ys => ys
  | x :: xs' =>
    fix go ys :=
      match ys with
      | [] => x :: xs'
      | y :: ys' => if take_left asc (f x y) then x :: lmerge xs' (y :: ys') else y :: go ys'
      end
  end.

Lemma lmerge_cons x xs y ys :
  lmerge (x :: xs) (y :: ys) =
  if take_left asc (f x y) then x :: lmerge xs (y :: ys) else y :: lmerge (x :: xs) ys.
Proof. reflexivity. Qed.

Lemma lmerge_nil_r xs : lmerge xs [] = xs.
Proof. destruct xs; reflexivity. Qed.

(** Induction over both lists of a merge. *)
Lemma merge_ind (P : list V -> list V -> Prop) :
  (forall ys, P [] ys) -> (forall xs, P xs []) ->
  (forall x xs y ys, take_left asc (f x y) = true -> P xs (y :: ys) -> P (x :: xs) (y :: ys)) ->
  (forall x xs y ys, take_left asc (f x y) = false -> P (x :: xs) ys -> P (x :: xs) (y :: ys)) ->
  forall xs ys, P xs ys.
Proof.
  intros H1 H2 H3 H4. induction xs as [|x xs IHx]; [exact H1|].
  induction ys as [|y ys IHy]; [apply H2|].
  destruct (take_left asc (f x y)) eqn:E; auto.
Qed.

Lemma lmerge_perm xs ys : Permutation (xs ++ ys) (lmerge xs ys).
Proof.
  revert xs ys. apply merge_ind; [intros ys|intros xs|intros x xs y ys E IH|intros x xs y ys E IH].
  - reflexivity.
  - rewrite lmerge_nil_r, app_nil_r. reflexivity.
  - rewrite lmerge_cons, E. simpl. rewrite IH. reflexivity.
  - rewrite lmerge_cons, E. rewrite <- IH. symmetry. apply Permutation_middle.
Qed.

Lemma lmerge_sorted xs ys :
  StronglySorted le xs -> StronglySorted le ys -> StronglySorted le (lmerge xs ys).
Proof.
  revert xs ys. apply (merge_ind (fun xs ys => _ -> _ -> _)); [intros ys|intros xs|intros x xs y ys E IH|intros x xs y ys E IH]; intros Hx Hy.
  - exact Hy.
  - rewrite lmerge_nil_r. exact Hx.
  - rewrite lmerge_cons, E. apply StronglySorted_inv in Hx as [Hx Fx].
    constructor; [apply IH; assumption|]. rewrite <- lmerge_perm, Forall_app. split; [exact Fx|].
    apply StronglySorted_inv in Hy as [_ Fy]. constructor; [exact E|].
    eapply Forall_impl; [exact Fy|]. intros z. apply le_trans. exact E.
  - rewrite lmerge_cons, E. apply StronglySorted_inv in Hy as [Hy Fy].
    constructor; [apply IH; assumption|]. rewrite <- lmerge_perm, Forall_app. split; [|exact Fy].
    apply StronglySorted_inv in Hx as [_ Fx]. constructor; [apply le_total; exact E|].
    eapply Forall_impl; [exact Fx|]. intros z. apply le_trans. apply le_total. exact E.
Qed.

Lemma filter_nil_Forall (P : V -> Prop) `{!forall v, Decision (P v)} xs :
  Forall (fun v => ~ P v) xs -> filter P xs = [].
Proof. induction 1 as [|v xs Hn _ IH]; [reflexivity|]. rewrite filter_cons_False by exact Hn. exact IH. Qed.

Lemma lmerge_stable v xs ys :
  StronglySorted le xs ->
  filter (fun w => f v w = 0%Z) (lmerge xs ys)
  = filter (fun w => f v w = 0%Z) xs ++ filter (fun w => f v w = 0%Z) ys.
Proof.
  revert xs ys. apply (merge_ind (fun xs ys => _ -> _)); [intros ys|intros xs|intros x xs y ys E IH|intros x xs y ys E IH]; intros Hx.
  - reflexivity.
  - rewrite lmerge_nil_r, app_nil_r. reflexivity.
  - rewrite lmerge_cons, E, !(filter_cons _ x). apply StronglySorted_inv in Hx as [Hx _].
    rewrite IH by exact Hx. case_decide; reflexivity.
  - rewrite lmerge_cons, E, (filter_cons _ y (lmerge _ _)), IH by exact Hx.
    rewrite (filter_cons _ y ys). destruct (decide (f v y = 0%Z)) as [Hv|Hv]; [|reflexivity].
    rewrite (filter_nil_Forall _ (x :: xs)); [reflexivity|].
    apply StronglySorted_inv in Hx as [_ Fx].
    assert (le x x) as Hr by (apply le_iff; pose proof (ord_sgn _ _ Hord x x); destruct asc; lia).
    constructor; [apply (strict_neq v x y x E Hr Hv)|].
    eapply Forall_impl; [exact Fx|]. intros z Hz. apply (strict_neq v x y z E Hz Hv).
Qed.

(** ** mergesort *)

Lemma scan_count_perm xs ys : Permutation xs ys -> scan_count xs = scan_count ys.
Proof. unfold scan_count. intros ->. reflexivity. Qed.

(** The cells of a side from position [i] hold [xs]; the ones before are
    cleared. *)
Definition side l (i : nat) xs : Prop :=
  exists ys c, st l ys (length ys) c /\ drop i ys = xs /\ i <= length ys.

Lemma side_nil l i : side l i [] -> (i <? len l) = false.
Proof.
  intros (ys & c & H & E & Hi). rewrite (st_len _ _ _ _ H). apply Nat.ltb_ge.
  apply (f_equal length) in E. rewrite length_drop in E. simpl in E. lia.
Qed.

Lemma side_cons l i x xs :
  side l i (x :: xs) ->
  (i <? len l) = true /\ m_read (entry l) i = Some x /\
  exists l', getAndClear l i = Some (x, l') /\ len l' = len l /\ side l' (S i) xs.
Proof.
  intros (ys & c & H & E & Hi). rewrite (st_len _ _ _ _ H).
  assert (ys !! i = Some x) as Hx by (rewrite <- (Nat.add_0_r i), <- lookup_drop, E; reflexivity).
  pose proof (lookup_lt_Some _ _ _ Hx) as Hlt. split; [apply Nat.ltb_lt; exact Hlt|].
  split; [exact (st_read _ _ _ _ _ _ H Hx)|].
  destruct (takeExists_st l ys i x c H Hx) as (l' & E' & H'). exists l'.
  split; [exact E'|]. split; [exact (st_len _ _ _ _ H')|].
  eexists _, _. rewrite length_insert. split; [exact H'|]. split; [|lia].
  rewrite drop_insert_lt by lia. rewrite (drop_S ys x i Hx) in E. congruence.
Qed.

Lemma side_all l xs c : st l xs (length xs) c -> side l 0 xs.
Proof. intros H. exists xs, c. auto with lia. Qed.

Lemma move_rest_spec fuel : forall l zs c sd i xs,
  st l zs (length zs) c -> side sd i xs -> length xs < fuel ->
  exists l', move_rest fuel l sd i = Some l' /\
    st l' (zs ++ xs) (length (zs ++ xs)) (c + scan_count xs).
Proof.
  induction fuel as [|fuel IH]; intros l zs c sd i xs H Hs Hf; [lia|]. simpl.
  destruct xs as [|x xs].
  - rewrite (side_nil _ _ Hs). exists l. rewrite app_nil_r, Z.add_0_r. auto.
  - destruct (side_cons _ _ _ _ Hs) as (-> & _ & sd' & -> & _ & Hs'). simpl.
    destruct (pushIntern_st l zs x c H) as (l1 & -> & H1). simpl in Hf |- *.
    destruct (IH l1 _ _ sd' (S i) xs H1 Hs') as (l2 & -> & H2); [lia|].
    exists l2. split; [reflexivity|]. rewrite <- app_assoc in H2.
    eapply st_eq; [exact H2|reflexivity..|]. rewrite scan_count_cons. lia.
Qed.

Lemma merge_sides_spec fuel : forall l zs c sl li xs sr ri ys,
  st l zs (length zs) c -> side sl li xs -> side sr ri ys -> length xs + length ys + 2 <= fuel ->
  exists l', merge_sides fr fuel asc l sl sr li ri = Some (false, l') /\
    st l' (zs ++ lmerge xs ys) (length (zs ++ lmerge xs ys)) (c + scan_count xs + scan_count ys).
Proof.
  induction fuel as [|fuel IH]; intros l zs c sl li xs sr ri ys H Hx Hy Hf; [lia|]. simpl.
  destruct xs as [|x xs]; [|destruct ys as [|y ys]].
  - rewrite (side_nil _ _ Hx). simpl.
    destruct (move_rest_spec fuel l zs c sl li [] H Hx) as (l1 & -> & H1); [simpl in *; lia|]. simpl.
    rewrite app_nil_r in H1.
    destruct (move_rest_spec fuel l1 _ _ sr ri ys H1 Hy) as (l2 & -> & H2); [simpl in *; lia|]. simpl. eauto.
  - rewrite (side_nil _ _ Hy), andb_false_r.
    destruct (move_rest_spec fuel l zs c sl li _ H Hx) as (l1 & -> & H1); [simpl in *; lia|].
    destruct (move_rest_spec fuel l1 _ _ sr ri [] H1 Hy) as (l2 & E2 & H2); [simpl in *; lia|].
    simpl. rewrite E2. simpl. rewrite app_nil_r in H2. eauto.
  - destruct (side_cons _ _ _ _ Hx) as (-> & -> & sl' & E1 & _ & Hx').
    destruct (side_cons _ _ _ _ Hy) as (-> & -> & sr' & E2 & _ & Hy'). simpl.
    rewrite (ord_cmp _ _ Hord). destruct (take_left asc (f x y)) eqn:E.
    + rewrite E1. simpl. destruct (pushIntern_st l zs x c H) as (l1 & -> & H1). simpl.
      destruct (IH l1 _ _ sl' (S li) xs sr ri (y :: ys) H1 Hx' Hy) as (l2 & -> & H2); [simpl in *; lia|].
      exists l2. split; [reflexivity|]. rewrite <- app_assoc in H2.
      eapply st_eq; [exact H2|reflexivity..|]. rewrite !scan_count_cons. lia.
    + rewrite E2. simpl. destruct (pushIntern_st l zs y c H) as (l1 & -> & H1). simpl.
      destruct (IH l1 _ _ sl li (x :: xs) sr' (S ri) ys H1 Hx Hy') as (l2 & -> & H2); [simpl in *; lia|].
      exists l2. split; [reflexivity|]. rewrite <- app_assoc in H2.
      eapply st_eq; [exact H2|reflexivity..|]. rewrite !scan_count_cons. lia.
Qed.

(** The scan count of a list that is split is kept and counted again. *)
Definition merged_count xs (c : Z) : Z := (if (length xs <=? 1)%nat then c else c + scan_count xs)%Z.

Lemma mergesort_spec fuel : forall l xs c,
  st l xs (length xs) c -> length xs <= fuel -> 0 < fuel ->
  exists l' ys, mergesort fr fuel asc l = Some (false, l') /\ sorted_of xs ys /\ same xs ys /\
    st l' ys (length ys) (merged_count xs c).
Proof.
  induction fuel as [|fuel IH]; intros l xs c H Hf H0; [lia|].
  cbn [mergesort]. rewrite (st_len _ _ _ _ H). unfold merged_count.
  destruct (Nat.leb_spec (length xs) 1) as [Hs|Hs].
  - exists l, xs. split; [reflexivity|]. split; [|split; [intros v; reflexivity|exact H]].
    split; [reflexivity|]. destruct xs as [|x [|y xs]]; [constructor| |simpl in Hs; lia].
    repeat constructor.
  - set (mid := length xs / 2). assert (0 < mid /\ mid < length xs) as [Hm1 Hm2]
      by (split; [apply Nat.div_str_pos|apply Nat.div_lt]; lia).
    destruct (copy_entries_spec l xs c mid 0 empty_list [] H) as (sl & -> & Hl); [lia|apply empty_repr|].
    destruct (copy_entries_spec l xs c (length xs - mid) mid empty_list [] H) as (sr & -> & Hr);
      [lia|apply empty_repr|].
    rewrite drop_0 in Hl. rewrite (take_ge (drop mid xs)) in Hr by (rewrite length_drop; lia). simpl in *.
    assert (length (take mid xs) = mid) as L1 by (rewrite length_take; lia).
    assert (length (drop mid xs) = length xs - mid) as L2 by (rewrite length_drop; lia).
    destruct (IH sl _ _ Hl) as (sl' & ls & -> & [Pl Sl] & Stl & Hl'); [lia|lia|]. simpl.
    destruct (IH sr _ _ Hr) as (sr' & rs & -> & [Pr Sr] & Str & Hr'); [lia|lia|]. simpl.
    assert (st (set_len l 0) [] 0 c) as Hz
      by (destruct H as (Hh & _ & Hc & Hv & _); repeat split; simpl; [exists (entry l); reflexivity|auto|auto|lia]).
    rewrite (st_len _ _ _ _ Hl'), (st_len _ _ _ _ Hr').
    destruct (merge_sides_spec (length ls + length rs + 2) _ [] c sl' 0 ls sr' 0 rs Hz (side_all _ _ _ Hl') (side_all _ _ _ Hr'))
      as (l' & -> & H'); [lia|].
    exists l', (lmerge ls rs). split; [reflexivity|]. split; [split|split].
    + rewrite <- lmerge_perm, <- Pl, <- Pr, take_drop. reflexivity.
    + apply lmerge_sorted; assumption.
    + intros v. rewrite lmerge_stable by exact Sl. rewrite (Stl v), (Str v), <- filter_app, take_drop.
      reflexivity.
    + eapply st_eq; [exact H'|reflexivity..|].
      rewrite <- (scan_count_perm _ _ Pl), <- (scan_count_perm _ _ Pr), <- Z.add_assoc, <- scan_count_app, take_drop.
      reflexivity.
Qed.

(** ** qsort *)

(** Every entry of [ys] from [L] to [R] satisfies [P]. *)
Definition all_in ys (L R : nat) (P : V -> Prop) : Prop :=
  forall i v, L <= i <= R -> ys !! i = Some v -> P v.

(** [ys] is a permutation of [xs] that only moves entries from [L] to [R]. *)
Record seg_perm xs ys (L R : nat) : Prop := {
  sp_perm : Permutation xs ys;
  sp_frame i : i < L \/ R < i -> ys !! i = xs !! i;
  sp_origin P : all_in xs L R P -> all_in ys L R P }.

Lemma seg_perm_refl xs L R : seg_perm xs xs L R.
Proof. split; auto. Qed.

Lemma seg_perm_trans xs ys zs L R : seg_perm xs ys L R -> seg_perm ys zs L R -> seg_perm xs zs L R.
Proof.
  intros [p1 f1 o1] [p2 f2 o2]. split; [etransitivity; eassumption| |auto].
  intros i Hi. rewrite f2, f1; auto.
Qed.

Lemma seg_perm_widen xs ys L R L' R' :
  seg_perm xs ys L' R' -> L <= L' -> R' <= R -> seg_perm xs ys L R.
Proof.
  intros [p f' o] HL HR. split; [exact p|intros i Hi; apply f'; lia|].
  intros P HP i v Hi Hv. destruct (decide (L' <= i <= R')) as [Hin|Hout].
  - apply (o P) with i; [|exact Hin|exact Hv]. intros j w Hj. apply HP. lia.
  - rewrite f' in Hv by lia. apply (HP i v Hi Hv).
Qed.

(** Ordered from [L] to [R]. *)
Definition seg_sorted ys (L R : nat) : Prop :=
  forall i j u v, L <= i -> i < j -> j <= R -> ys !! i = Some u -> ys !! j = Some v -> le u v.

Lemma seg_sorted_all ys : seg_sorted ys 0 (length ys - 1) -> StronglySorted le ys.
Proof.
  induction ys as [|y ys IH]; intros H; constructor.
  - apply IH. intros i j u v Hi Hij Hj Hu Hv. simpl in H.
    apply (H (S i) (S j) u v); simpl; try lia; assumption.
  - apply Forall_lookup. intros i v Hv. pose proof (lookup_lt_Some _ _ _ Hv).
    apply (H 0 (S i) y v); simpl; try lia; auto.
Qed.

Lemma le_of_nonneg v p : (if asc then 0 <=? f v p else f v p <? 0)%Z = true -> le p v.
Proof.
  rewrite le_iff. pose proof (ord_sgn _ _ Hord v p).
  destruct asc; rewrite ?Z.leb_le, ?Z.ltb_lt; lia.
Qed.

Lemma le_of_neg v p : (if asc then 0 <=? f v p else f v p <? 0)%Z = false -> le v p.
Proof. rewrite le_iff. destruct asc; rewrite ?Z.leb_gt, ?Z.ltb_ge; lia. Qed.

Lemma le_of_nonpos v p : (if asc then f v p <=? 0 else 0 <? f v p)%Z = true -> le v p.
Proof. rewrite le_iff. destruct asc; rewrite ?Z.leb_le, ?Z.ltb_lt; lia. Qed.

Lemma le_of_pos v p : (if asc then f v p <=? 0 else 0 <? f v p)%Z = false -> le p v.
Proof.
  rewrite le_iff. pose proof (ord_sgn _ _ Hord v p).
  destruct asc; rewrite ?Z.leb_gt, ?Z.ltb_ge; lia.
Qed.

Lemma scan_right_spec l xs n c p left fuel : forall right,
  st l xs n c -> left <= right < length xs -> right - left < fuel ->
  exists r, scan_right fr fuel asc (entry l) p left right = Some (Some r) /\ left <= r <= right /\
    all_in xs (S r) right (le p) /\ (left < r -> all_in xs r r (fun v => le v p)).
Proof.
  induction fuel as [|fuel IH]; intros right H Hr Hf; [lia|]. simpl.
  destruct (lookup_lt_is_Some_2 xs right) as [v Hv]; [lia|].
  rewrite (st_read _ _ _ _ _ v H Hv). simpl. rewrite (ord_cmp _ _ Hord).
  destruct (Nat.ltb_spec left right); simpl.
  - destruct (if asc then _ else _) eqn:E.
    + destruct (IH (right - 1) H) as (r & -> & Hle & Hgt & Hlt); [lia|lia|].
      exists r. split; [reflexivity|]. split; [lia|]. split; [|exact Hlt].
      intros i w Hi Hw. destruct (decide (i = right)) as [->|Hne].
      * replace w with v by congruence. apply le_of_nonneg. exact E.
      * apply (Hgt i w); [lia|exact Hw].
    + exists right. split; [reflexivity|]. split; [lia|]. split; [intros i w Hi; lia|].
      intros _ i w Hi Hw. replace i with right in Hw by lia. replace w with v by congruence.
      apply le_of_neg. exact E.
  - exists right. split; [reflexivity|]. split; [lia|]. split; [intros i w Hi; lia|lia].
Qed.

Lemma scan_left_spec l xs n c p right fuel : forall left,
  st l xs n c -> left <= right < length xs -> right - left < fuel ->
  exists k, scan_left fr fuel asc (entry l) p left right = Some (Some k) /\ left <= k <= right /\
    (forall i v, left <= i < k -> xs !! i = Some v -> le v p) /\
    (k < right -> all_in xs k k (le p)).
Proof.
  induction fuel as [|fuel IH]; intros left H Hr Hf; [lia|]. simpl.
  destruct (lookup_lt_is_Some_2 xs left) as [v Hv]; [lia|].
  rewrite (st_read _ _ _ _ _ v H Hv). simpl. rewrite (ord_cmp _ _ Hord).
  destruct (Nat.ltb_spec left right); simpl.
  - destruct (if asc then _ else _) eqn:E.
    + destruct (IH (left + 1) H) as (k & -> & Hle & Hlt & Hgt); [lia|lia|].
      exists k. split; [reflexivity|]. split; [lia|]. split; [|exact Hgt].
      intros i w Hi Hw. destruct (decide (i = left)) as [->|Hne].
      * replace w with v by congruence. apply le_of_nonpos. exact E.
      * apply (Hlt i w); [lia|exact Hw].
    + exists left. split; [reflexivity|]. split; [lia|]. split; [intros i w Hi; lia|].
      intros _ i w Hi Hw. replace i with left in Hw by lia. replace w with v by congruence.
      apply le_of_pos. exact E.
  - exists left. split; [reflexivity|]. split; [lia|]. split; [intros i w Hi; lia|lia].
Qed.

(** ** The partition of a segment

    [h] is the position of the hole, which stands for the pivot [p]. *)
Record part_inv xs0 (L R : nat) (p : V) xs (h left right : nat) : Prop := {
  pi_perm : seg_perm xs0 (<[h := p]> xs) L R;
  pi_left i v : L <= i < left -> xs !! i = Some v -> le v p;
  pi_right i v : right < i <= R -> xs !! i = Some v -> le p v;
  pi_bounds : L <= left /\ left <= right /\ right <= R /\ R < length xs0 /\ L <= h <= R }.

Lemma insert_perm xs i v w : xs !! i = Some v -> Permutation (v :: <[i := w]> xs) (w :: xs).
Proof.
  intros H. rewrite insert_take_drop by (eapply lookup_lt_Some; exact H).
  rewrite <- (take_drop_middle xs i v H) at 3.
  rewrite <- !Permutation_middle. apply perm_swap.
Qed.

Lemma move_hole_perm xs L R h s p v :
  xs !! s = Some v -> s <> h -> L <= s <= R -> L <= h <= R -> h < length xs ->
  seg_perm (<[h := p]> xs) (<[s := p]> (<[h := v]> xs)) L R.
Proof.
  intros Hs Hne HsR Hh Hl. destruct (lookup_lt_is_Some_2 xs h Hl) as [u Hu].
  assert ((<[h := v]> xs) !! s = Some v) as Hs' by (rewrite list_lookup_insert_ne; auto).
  split.
  - pose proof (insert_perm _ _ _ p Hs') as E1. pose proof (insert_perm _ _ _ v Hu) as E2.
    pose proof (insert_perm _ _ _ p Hu) as E3.
    apply Permutation_cons_inv with v, Permutation_cons_inv with u.
    transitivity (v :: p :: xs); [rewrite perm_swap, E3; reflexivity|].
    rewrite E1, (perm_swap p u), E2. apply perm_swap.
  - intros i Hi. rewrite !list_lookup_insert_ne by lia. reflexivity.
  - intros P HP i w Hi Hw. destruct (decide (i = s)) as [->|H1].
    + rewrite list_lookup_insert_eq in Hw by (rewrite length_insert; eapply lookup_lt_Some; exact Hs).
      injection Hw as <-. apply (HP h); [exact Hh|]. apply list_lookup_insert_eq. exact Hl.
    + rewrite list_lookup_insert_ne in Hw by auto. destruct (decide (i = h)) as [->|H2].
      * rewrite list_lookup_insert_eq in Hw by exact Hl. injection Hw as <-.
        apply (HP s); [exact HsR|]. rewrite list_lookup_insert_ne; auto.
      * rewrite list_lookup_insert_ne in Hw by auto. apply (HP i); [exact Hi|].
        rewrite list_lookup_insert_ne; auto.
Qed.

Lemma part_move xs0 L R p xs h left right s v :
  part_inv xs0 L R p xs h left right -> xs !! s = Some v -> s <> h -> L <= s <= R ->
  length xs = length xs0 ->
  seg_perm xs0 (<[s := p]> (<[h := v]> xs)) L R.
Proof.
  intros [Hp _ _ Hb] Hs Hne HsR Hl. eapply seg_perm_trans; [exact Hp|].
  apply move_hole_perm; auto; lia.
Qed.

(** One assignment from the right, then one from the left. *)
Lemma part_right xs0 L R p xs left right r v :
  part_inv xs0 L R p xs left left right -> length xs = length xs0 ->
  left < r <= right -> all_in xs (S r) right (le p) -> xs !! r = Some v -> le v p ->
  part_inv xs0 L R p (<[left := v]> xs) r (left + 1) r.
Proof.
  intros Hi Hl Hr Hgt Hv Hle. pose proof (pi_bounds _ _ _ _ _ _ _ _ Hi) as Hb. split.
  - eapply part_move; eauto; lia.
  - intros i w Hw E. destruct (decide (i = left)) as [->|Hne].
    + rewrite list_lookup_insert_eq in E by lia. congruence.
    + rewrite list_lookup_insert_ne in E by auto. apply (pi_left _ _ _ _ _ _ _ _ Hi i w); [lia|exact E].
  - intros i w Hw E. rewrite list_lookup_insert_ne in E by lia.
    destruct (decide (i <= right)) as [Hin|Hout].
    + apply (Hgt i w); [lia|exact E].
    + apply (pi_right _ _ _ _ _ _ _ _ Hi i w); [lia|exact E].
  - lia.
Qed.

Lemma part_left xs0 L R p xs left right k v :
  part_inv xs0 L R p xs right left right -> length xs = length xs0 ->
  left <= k < right -> (forall i v, left <= i < k -> xs !! i = Some v -> le v p) ->
  xs !! k = Some v -> le p v ->
  part_inv xs0 L R p (<[right := v]> xs) k k (right - 1).
Proof.
  intros Hi Hl Hr Hlt Hv Hle. pose proof (pi_bounds _ _ _ _ _ _ _ _ Hi) as Hb. split.
  - eapply part_move; eauto; lia.
  - intros i w Hw E. rewrite list_lookup_insert_ne in E by lia.
    destruct (decide (left <= i)) as [Hin|Hout].
    + apply (Hlt i w); [lia|exact E].
    + apply (pi_left _ _ _ _ _ _ _ _ Hi i w); [lia|exact E].
  - intros i w Hw E. destruct (decide (i = right)) as [->|Hne].
    + rewrite list_lookup_insert_eq in E by lia. congruence.
    + rewrite list_lookup_insert_ne in E by auto. apply (pi_right _ _ _ _ _ _ _ _ Hi i w); [lia|exact E].
  - lia.
Qed.

(** A scan that meets the other end. *)
Lemma part_close_right xs0 L R p xs left right :
  part_inv xs0 L R p xs left left right -> all_in xs (S left) right (le p) ->
  part_inv xs0 L R p xs left left left.
Proof.
  intros Hi Hgt. pose proof (pi_bounds _ _ _ _ _ _ _ _ Hi) as Hb. destruct Hi as [Hp Hl Hr _].
  split; [exact Hp|exact Hl| |lia].
  intros i w Hw E. destruct (decide (i <= right)); [apply (Hgt i w)|apply (Hr i w)]; auto; lia.
Qed.

Lemma part_close_left xs0 L R p xs left right :
  part_inv xs0 L R p xs right left right ->
  (forall i v, left <= i < right -> xs !! i = Some v -> le v p) ->
  part_inv xs0 L R p xs right right right.
Proof.
  intros Hi Hlt. pose proof (pi_bounds _ _ _ _ _ _ _ _ Hi) as Hb. destruct Hi as [Hp Hl Hr _].
  split; [exact Hp| |exact Hr|lia].
  intros i w Hw E. destruct (decide (left <= i)); [apply (Hlt i w)|apply (Hl i w)]; auto; lia.
Qed.

Lemma assign_spec l xs n c dst src v :
  st l xs n c -> xs !! src = Some v -> dst < length xs ->
  exists l', assign l dst src = Some l' /\ st l' (<[dst := v]> xs) n c.
Proof.
  intros H Hs Hd. unfold assign. rewrite (st_read _ _ _ _ _ _ H Hs). simpl.
  apply write_entry_spec; assumption.
Qed.

(** The second half of an iteration. *)
Lemma half_left l xs0 L R p xs n c left right :
  st l xs n c -> length xs = length xs0 -> part_inv xs0 L R p xs right left right ->
  exists k l' xs', scan_left fr (right - left + 1) asc (entry l) p left right = Some (Some k) /\
    (if k =? right then Some l else assign l right k) = Some l' /\
    st l' xs' n c /\ length xs' = length xs0 /\ left <= k <= right /\
    part_inv xs0 L R p xs' k k (if k =? right then right else right - 1).
Proof.
  intros H Hl Hi. pose proof (pi_bounds _ _ _ _ _ _ _ _ Hi) as Hb.
  destruct (scan_left_spec l xs n c p right (right - left + 1) left H) as (k & E & Hk & Hlt & Hgt); [lia|lia|].
  exists k. destruct (Nat.eqb_spec k right) as [->|Hne].
  - exists l, xs. split; [exact E|]. split; [reflexivity|]. split; [exact H|].
    split; [exact Hl|]. split; [lia|]. apply part_close_left with left; assumption.
  - destruct (lookup_lt_is_Some_2 xs k) as [v Hv]; [lia|].
    destruct (assign_spec l xs n c right k v H Hv) as (l' & E' & H'); [lia|].
    exists l', (<[right := v]> xs). split; [exact E|]. split; [exact E'|]. split; [exact H'|].
    rewrite length_insert. split; [exact Hl|]. split; [lia|].
    apply part_left with left; auto; [lia|]. apply (Hgt ltac:(lia) k v); [lia|exact Hv].
Qed.

Lemma partition_spec xs0 L R p n c fuel : forall l xs left right,
  st l xs n c -> length xs = length xs0 -> part_inv xs0 L R p xs left left right ->
  right - left < fuel ->
  exists t l' xs', partition fr fuel asc l p left right = Some (Some t, l') /\
    st l' xs' n c /\ length xs' = length xs0 /\ part_inv xs0 L R p xs' t t t.
Proof.
  induction fuel as [|fuel IH]; intros l xs left right H Hl Hi Hf; [lia|]. cbn [partition].
  pose proof (pi_bounds _ _ _ _ _ _ _ _ Hi) as Hb. destruct (Nat.ltb_spec left right) as [Hlr|Hlr].
  2:{ replace right with left in Hi by lia. eauto 8. }
  destruct (scan_right_spec l xs n c p left (right - left + 1) right H) as (r & -> & Hr & Hgt & Hlt); [lia|lia|].
  cbn [mbind option_bind].
  destruct (Nat.eqb_spec left r) as [<-|Hne]; cbn [mbind option_bind].
  - destruct (half_left l xs0 L R p xs n c left left H Hl (part_close_right _ _ _ _ _ _ _ Hi Hgt))
      as (k & l' & xs' & -> & E & H' & Hl' & Hk & Hi').
    cbn [mbind option_bind]. rewrite E. cbn [mbind option_bind].
    assert (k = left) as -> by lia. rewrite Nat.eqb_refl in Hi' |- *. apply (IH l' xs'); auto; lia.
  - destruct (lookup_lt_is_Some_2 xs r) as [v Hv]; [lia|].
    destruct (assign_spec l xs n c left r v H Hv) as (l1 & -> & H1); [lia|]. cbn [mbind option_bind].
    assert (part_inv xs0 L R p (<[left := v]> xs) r (left + 1) r) as Hi1
      by (apply part_right with right; auto; [lia|apply (Hlt ltac:(lia) r v); [lia|exact Hv]]).
    destruct (half_left l1 xs0 L R p _ n c (left + 1) r H1 ltac:(rewrite length_insert; exact Hl) Hi1)
      as (k & l' & xs' & -> & E & H' & Hl' & Hk & Hi').
    cbn [mbind option_bind]. rewrite E. cbn [mbind option_bind].
    apply (IH l' xs'); auto. destruct (k =? r); lia.
Qed.

(** The two parts sorted one after the other. *)
Lemma parts_sorted ys zs ws L R t p :
  L <= t <= R -> ys !! t = Some p ->
  (forall i v, L <= i < t -> ys !! i = Some v -> le v p) ->
  (forall i v, t < i <= R -> ys !! i = Some v -> le p v) ->
  (if L <? t then seg_perm ys zs L (t - 1) /\ seg_sorted zs L (t - 1) else zs = ys) ->
  (if t <? R then seg_perm zs ws (t + 1) R /\ seg_sorted ws (t + 1) R else ws = zs) ->
  seg_perm ys ws L R /\ seg_sorted ws L R.
Proof.
  intros Ht Hp Hlt Hgt Hz Hw.
  assert (seg_perm ys zs L (t - 1) /\ (L < t -> seg_sorted zs L (t - 1))) as [Pz Sz]
    by (destruct (Nat.ltb_spec L t); [tauto|subst zs; split; [apply seg_perm_refl|lia]]).
  assert (seg_perm zs ws (t + 1) R /\ (t < R -> seg_sorted ws (t + 1) R)) as [Pw Sw]
    by (destruct (Nat.ltb_spec t R); [tauto|subst ws; split; [apply seg_perm_refl|lia]]).
  assert (L < t -> all_in zs L (t - 1) (fun v => le v p)) as Az
    by (intros Hlt'; apply (sp_origin _ _ _ _ Pz); intros i v Hi; apply Hlt; lia).
  assert (all_in ws (t + 1) R (le p)) as Aw.
  { apply (sp_origin _ _ _ _ Pw). intros i v Hi Hv.
    rewrite (sp_frame _ _ _ _ Pz) in Hv by lia. apply (Hgt i v); [lia|exact Hv]. }
  assert (forall i, i <= t -> ws !! i = zs !! i) as Fw by (intros i Hi; apply (sp_frame _ _ _ _ Pw); lia).
  assert (zs !! t = Some p) as Hzt.
  { destruct (Nat.ltb_spec L t); [rewrite (sp_frame _ _ _ _ Pz) by lia; exact Hp|subst zs; exact Hp]. }
  split.
  - apply seg_perm_trans with zs; eapply seg_perm_widen; eauto; lia.
  - intros i j u v Hi Hij Hj Hu Hv.
    destruct (Nat.lt_ge_cases i t) as [H1|H1]; [rewrite Fw in Hu by lia|].
    + assert (le u p) as Hup by (apply (Az ltac:(lia) i u); [lia|exact Hu]).
      destruct (Nat.lt_trichotomy j t) as [H2|[->|H2]].
      * rewrite Fw in Hv by lia. apply (Sz ltac:(lia) i j u v); auto; lia.
      * rewrite Fw in Hv by lia. congruence.
      * apply le_trans with p; [exact Hup|]. apply (Aw j v); [lia|exact Hv].
    + destruct (decide (i = t)) as [->|Hne].
      * rewrite Fw in Hu by lia. replace u with p by congruence. apply (Aw j v); [lia|exact Hv].
      * apply (Sw ltac:(lia) i j u v); auto; lia.
Qed.

Lemma qsort_spec c fuel : forall l xs L R,
  st l xs (length xs) c -> L <= R < length xs -> R - L < fuel ->
  exists l' ys, qsort fr fuel asc l L R = Some (false, l') /\ st l' ys (length ys) c /\
    seg_perm xs ys L R /\ seg_sorted ys L R.
Proof.
  induction fuel as [|fuel IH]; intros l xs L R H HR Hf; [lia|]. cbn [qsort].
  destruct (lookup_lt_is_Some_2 xs L) as [p Hp]; [lia|].
  rewrite (st_read _ _ _ _ _ _ H Hp). cbn [mbind option_bind].
  assert (part_inv xs L R p xs L L R) as Hi0.
  { split; try lia. rewrite list_insert_id by exact Hp. apply seg_perm_refl. }
  destruct (partition_spec xs L R p _ c (R - L + 2) l xs L R H eq_refl Hi0) as (t & l1 & ys & -> & H1 & Hl1 & Hi1); [lia|].
  cbn [mbind option_bind].
  pose proof (pi_bounds _ _ _ _ _ _ _ _ Hi1) as Hb. destruct Hi1 as [Pp Pl Pr _].
  destruct (write_entry_spec l1 ys _ _ t p H1) as (l2 & -> & H2); [lia|]. cbn [mbind option_bind].
  set (ys1 := <[t := p]> ys) in *.
  assert (length ys1 = length xs) as Hly by (unfold ys1; rewrite length_insert; exact Hl1).
  rewrite <- Hly in H2.
  assert (exists l3 zs, (if L <? t then qsort fr fuel asc l2 L (t - 1) else Some (false, l2)) = Some (false, l3)
    /\ st l3 zs (length zs) c /\
    (if L <? t then seg_perm ys1 zs L (t - 1) /\ seg_sorted zs L (t - 1) else zs = ys1)) as (l3 & zs & -> & H3 & Hz).
  { destruct (Nat.ltb_spec L t); [|eauto 8].
    destruct (IH l2 ys1 L (t - 1) H2) as (l3 & zs & E & H3 & Hz); [lia|lia|eauto 8]. }
  cbn [mbind option_bind negb andb].
  assert (length zs = length xs) as Hlz.
  { rewrite <- Hly. destruct (L <? t); [symmetry; apply Permutation_length, (sp_perm _ _ _ _ (proj1 Hz))|congruence]. }
  assert (exists l4 ws, (if t <? R then qsort fr fuel asc l3 (t + 1) R else Some (false, l3)) = Some (false, l4)
    /\ st l4 ws (length ws) c /\
    (if t <? R then seg_perm zs ws (t + 1) R /\ seg_sorted ws (t + 1) R else ws = zs)) as (l4 & ws & -> & H4 & Hw).
  { destruct (Nat.ltb_spec t R); [|eauto 8].
    destruct (IH l3 zs (t + 1) R H3) as (l4 & ws & E & H4 & Hw); [lia|lia|eauto 8]. }
  exists l4, ws. split; [reflexivity|]. split; [exact H4|].
  destruct (parts_sorted ys1 zs ws L R t p) as [P S]; [lia|..|exact Hz|exact Hw|].
  - apply list_lookup_insert_eq. lia.
  - intros i v Hi Hv. unfold ys1 in Hv. rewrite list_lookup_insert_ne in Hv by lia. apply (Pl i v); auto.
  - intros i v Hi Hv. unfold ys1 in Hv. rewrite list_lookup_insert_ne in Hv by lia. apply (Pr i v); auto.
  - split; [|exact S]. apply seg_perm_trans with ys1; assumption.
Qed.

(** ** Minimum and maximum *)

Lemma extreme_spec l xs n c k : forall i rv,
  st l xs n c -> i + k <= length xs ->
  exists w, extreme (fun v rv => Some (negb (take_left asc (f rv v)))) l k i rv = Some (Some w) /\
    (w = rv \/ exists j, i <= j < i + k /\ xs !! j = Some w) /\ le w rv /\
    (forall j v, i <= j < i + k -> xs !! j = Some v -> le w v).
Proof.
  assert (forall a, le a a) as Hr by (intros a; apply le_iff; pose proof (ord_sgn _ _ Hord a a); destruct asc; lia).
  induction k as [|k IH]; intros i rv H Hi; simpl.
  - exists rv. split; [reflexivity|]. split; [auto|]. split; [apply Hr|lia].
  - destruct (lookup_lt_is_Some_2 xs i) as [v Hv]; [lia|].
    rewrite (st_read _ _ _ _ _ _ H Hv). simpl.
    destruct (IH (S i) (if negb (take_left asc (f rv v)) then v else rv) H) as (w & -> & Hw & Hle & Hall); [lia|].
    exists w. split; [reflexivity|].
    assert (le w rv /\ le w v) as [Hwr Hwv].
    { destruct (take_left asc (f rv v)) eqn:E; simpl in Hle; split; auto.
      - apply le_trans with rv; auto.
      - apply le_trans with v; [exact Hle|apply le_total; exact E]. }
    split; [|split; [exact Hwr|]].
    + destruct Hw as [->|(j & Hj & Hw)]; [|right; exists j; split; [lia|exact Hw]].
      destruct (take_left asc (f rv v)); [left; reflexivity|right; exists i; split; [lia|exact Hv]].
    + intros j u Hj Hu. destruct (decide (j = i)) as [->|Hne]; [congruence|].
      apply (Hall j u); [lia|exact Hu].
Qed.

Lemma extreme_ext better better' l k : forall i rv,
  (forall a b, better a b = better' a b) -> extreme better l k i rv = extreme better' l k i rv.
Proof.
  induction k as [|k IH]; intros i rv E; [reflexivity|]. simpl.
  destruct (m_read (entry l) i) as [v|]; [|reflexivity]. simpl. rewrite E.
  destruct (better' v rv); [|reflexivity]. apply IH, E.
Qed.

(** ** What the functions of the list class promise *)

(** C35: with a total preorder, [sort] and [sortDescending] return a new list
    with the same values in order; the scan count is right up to the
    quicksort limit and doubled beyond it. *)
Theorem sort_correct l xs :
  repr l xs ->
  exists l' ys, sort_list fr asc l = Some (Some l') /\ sorted_of xs ys /\
    st l' ys (length xs)
      (if (QORE_QUICKSORT_LIMIT <? length xs)%nat then 2 * scan_count xs else scan_count xs).
Proof.
  intros H. unfold sort_list. rewrite (st_len _ _ _ _ H).
  destruct (copy_entries_spec l xs _ (length xs) 0 _ [] H ltac:(lia) (reserve_repr _ _ (length xs) empty_repr))
    as (rv & E & Hrv). unfold copy. rewrite (st_len _ _ _ _ H), E. simpl app in Hrv.
  rewrite drop_0, take_ge in Hrv by lia. cbn [mbind option_bind].
  destruct (Nat.eqb_spec (length xs) 0) as [E0|E0]; cbn [negb].
  - exists rv, xs. rewrite E0. destruct xs; [|discriminate].
    split; [reflexivity|]. split; [split; [reflexivity|constructor]|exact Hrv].
  - destruct (Nat.ltb_spec QORE_QUICKSORT_LIMIT (length xs)) as [Hl|Hl].
    + destruct (mergesort_spec (length xs) rv xs _ Hrv) as (l' & ys & -> & Hs & _ & H'); [lia|lia|].
      exists l', ys. split; [reflexivity|]. split; [exact Hs|].
      eapply st_eq; [exact H'|reflexivity|symmetry; apply Permutation_length, Hs|].
      unfold merged_count. unfold QORE_QUICKSORT_LIMIT in Hl. destruct (Nat.leb_spec (length xs) 1); lia.
    + destruct (qsort_spec _ (length xs) rv xs 0 (length xs - 1) Hrv) as (l' & ys & -> & H' & Hp & Hs); [lia|lia|].
      pose proof (Permutation_length (sp_perm _ _ _ _ Hp)) as El.
      exists l', ys. split; [reflexivity|]. split.
      * split; [apply Hp|]. apply seg_sorted_all. rewrite <- El. exact Hs.
      * eapply st_eq; [exact H'|reflexivity|symmetry; exact El|reflexivity].
Qed.

(** C36: the stable sorts also keep the order of equal values. *)
Theorem sortStable_correct l xs :
  repr l xs ->
  exists l' ys, sort_list_stable fr asc l = Some (Some l') /\ sorted_of xs ys /\ same xs ys /\
    st l' ys (length ys) (merged_count xs (scan_count xs)).
Proof.
  intros H. unfold sort_list_stable. rewrite (st_len _ _ _ _ H).
  destruct (copy_entries_spec l xs _ (length xs) 0 _ [] H ltac:(lia) (reserve_repr _ _ (length xs) empty_repr))
    as (rv & E & Hrv). unfold copy. rewrite (st_len _ _ _ _ H), E. simpl app in Hrv.
  rewrite drop_0, take_ge in Hrv by lia. cbn [mbind option_bind].
  destruct (Nat.eqb_spec (length xs) 0) as [E0|E0]; cbn [negb].
  - destruct xs; [|discriminate]. exists rv, []. split; [reflexivity|].
    split; [split; [reflexivity|constructor]|]. split; [intros v; reflexivity|exact Hrv].
  - destruct (mergesort_spec (length xs) rv xs _ Hrv) as (l' & ys & -> & Hs & Hst & H'); [lia|lia|].
    exists l', ys. auto.
Qed.

(** [min] and [max] with a call return [nothing] on an empty list and
    otherwise an entry that no entry precedes or follows in the order. *)
Theorem extremes_correct l xs (call : V -> V -> option Z) :
  (forall a b, call a b = Some (f a b)) -> repr l xs ->
  exists w, (if asc then min_call call l else max_call call l) = Some (Some w) /\
    match xs with
    | [] => w = nothing
    | _ => In w xs /\ forall v, In v xs -> le w v
    end.
Proof.
  intros Hcall H. destruct xs as [|x xs].
  - exists nothing. unfold min_call, max_call, min_with, max_with. rewrite (st_len _ _ _ _ H).
    destruct asc; auto.
  - destruct (extreme_spec l (x :: xs) _ _ (length xs) 1 x H) as (w & E & Hw & Hle & Hall); [simpl; lia|].
    exists w. split; [|split].
    + rewrite <- E. unfold min_call, max_call, min_with, max_with. rewrite (st_len _ _ _ _ H).
      simpl. rewrite Nat.sub_0_r, (st_read _ _ _ _ 0 x H eq_refl).
      destruct asc; apply extreme_ext; intros a b; rewrite Hcall; simpl; f_equal;
        pose proof (ord_sgn _ _ Hord a b); apply eq_true_iff_eq;
        rewrite negb_true_iff, Z.ltb_lt, Z.leb_gt; lia.
    + destruct Hw as [->|(j & _ & Hw)]; [left; reflexivity|].
      apply list_elem_of_In, list_elem_of_lookup. eauto.
    + intros v Hv. apply list_elem_of_In, list_elem_of_lookup in Hv as [j Hj].
      destruct j as [|j]; [simpl in Hj; congruence|].
      pose proof (lookup_lt_Some _ _ _ Hj). simpl in *. apply (Hall (S j) v); [lia|exact Hj].
Qed.

End Order.

(** ** Concrete lists *)

#[local] Existing Instance nat_values.

Definition by_tens (a b : nat) : Z := (Z.of_nat (a / 10) - Z.of_nat (b / 10))%Z.

Lemma by_tens_order : order (Op (fun a b => Some (by_tens a b))) by_tens.
Proof. split; unfold by_tens; intros; [reflexivity|lia|lia]. Qed.

Definition unsorted : qore_list_private nat :=
  ListPriv [Some 35; Some 12; Some 31; Some 7] 4 0 true.

Lemma unsorted_repr : repr unsorted [35; 12; 31; 7].
Proof. split; [exists []; reflexivity|]. repeat split; reflexivity. Qed.

Lemma sort_correct_witness :
  exists l' ys, sort_list (Op (fun a b => Some (by_tens a b))) true unsorted = Some (Some l') /\
    sorted_of by_tens true [35; 12; 31; 7] ys /\ st l' ys 4 0.
Proof. exact (sort_correct _ _ by_tens_order true unsorted _ unsorted_repr). Defined.

Lemma sortStable_correct_witness :
  exists l' ys, sort_list_stable (Op (fun a b => Some (by_tens a b))) false unsorted = Some (Some l') /\
    sorted_of by_tens false [35; 12; 31; 7] ys /\ same by_tens [35; 12; 31; 7] ys /\ st l' ys (length ys) 0.
Proof. exact (sortStable_correct _ _ by_tens_order false unsorted _ unsorted_repr). Defined.

Lemma extremes_correct_witness :
  exists w, min_call (fun a b => Some (by_tens a b)) unsorted = Some (Some w) /\
    In w [35; 12; 31; 7] /\ forall v, In v [35; 12; 31; 7] -> le by_tens true w v.
Proof.
  exact (extremes_correct _ _ by_tens_order true unsorted [35; 12; 31; 7] _ (fun a b => eq_refl) unsorted_repr).
Defined.

(** The result of a call is narrowed to 32 bits: a sort by 64-bit differences
    takes values that are 2^32 apart for equal, [min] does not. *)
Example sort_narrows :
  let call (a b : nat) := Some (2 ^ 32 * (Z.of_nat a - Z.of_nat b))%Z in
  let l := ListPriv [Some 2; Some 1] 2 0 true in
  (r ← sort (Call call) l; l' ← r; Some (take 2 (entry l'))) = Some [Some 2; Some 1] /\
  min_call call l = Some (Some 1).
Proof. vm_compute. split; reflexivity. Qed.

(** A comparison that fails in the middle of a partition leaves an entry
    twice and has lost the pivot. *)
Example qsort_exception :
  let cmp (a b : nat) := if a =? 9 then None else Some (Z.of_nat a - Z.of_nat b)%Z in
  match qsort (Op cmp) 4 true (ListPriv [Some 5; Some 9; Some 1] 3 0 true) 0 2 with
  | Some (rc, l) => rc = true /\ entry l = [Some 1; Some 9; Some 1]
  | None => False
  end.
Proof. vm_compute. split; reflexivity. Qed.

(** The scan count is counted twice by a mergesort. *)
Example mergesort_scan_count :
  (r ← sort_list_stable (Op (fun a b => Some (by_tens a b))) true
         (ListPriv [Some 100; Some 1] 2 1 true);
   l ← r; Some (obj_count l)) = Some 2%Z.
Proof. reflexivity. Qed.
