(* ===== verification/HashNode.v ===== *)
(** * Hashes

    [QoreHashNode]: a list of members in the order of their insertion, and a
    map from the keys to the elements of the list. The values, their types and
    the declared hashes ([hashdecl]) are the operations of an interface. *)

From S2P Require Import Prelude.

#[local] Open Scope Z_scope.

(** ** The interface to values and types *)

(** [runtimeAssignKey] and [acceptInputKey] give None when they raise an
    exception; the type of [getUniqueReturnComplexHash] can be missing. *)
Class HashLang := {
  value : Type; TypedHashDecl : Type; QoreTypeInfo : Type;
  nothing : value;
  isNothing : value -> bool;
  getAsBigInt : value -> Z;
  getAsBool : value -> bool;
  needs_scan : value -> bool;
  isEqualSoft : value -> value -> bool;
  isEqualHard : value -> value -> bool;
  copy_strip_complex_types : value -> value;
  hashdecl_findMember : TypedHashDecl -> string -> option QoreTypeInfo;
  runtimeAssignKey : TypedHashDecl -> string -> value -> option value;
  getUniqueReturnComplexHash : QoreTypeInfo -> option QoreTypeInfo;
  getReturnComplexHashOrNothing : QoreTypeInfo -> option QoreTypeInfo;
  acceptInputKey : option QoreTypeInfo -> string -> value -> option value;
  (* the types of the operator + *)
  hashdecl_equal : TypedHashDecl -> TypedHashDecl -> bool;
  QoreTypeInfo_eq :: EqDecision QoreTypeInfo;
  autoHashTypeInfo : QoreTypeInfo;
  is_any : QoreTypeInfo -> bool;
  matchCommonType : option QoreTypeInfo -> option QoreTypeInfo -> option (option QoreTypeInfo);
  qore_get_complex_hash_type : option QoreTypeInfo -> QoreTypeInfo }.

(** The value without contents has no references to objects. *)
Class HashLaws {HL : HashLang} : Prop := { nothing_scan : needs_scan nothing = false }.

Section hash.
Context {HL : HashLang}.

(** ** Data *)

Record HashMember := Member { key : string; val : value }.

(** The elements of [member_list] are pointers to [HashMember] objects, and
    [hm] holds iterators of the list, which are given by the pointer they stand
    at. [heap] are the objects. *)
Record qore_hash_private := Hash {
  member_list : list positive; heap : gmap positive HashMember; hm : gmap string positive;
  hashdecl : option TypedHashDecl; complexTypeInfo : option QoreTypeInfo;
  obj_count : Z; valid : bool }.

Definition set_members (h : qore_hash_private) (l : list positive) (m : gmap positive HashMember)
  (i : gmap string positive) : qore_hash_private :=
  Hash l m i (hashdecl h) (complexTypeInfo h) (obj_count h) (valid h).
Definition set_obj_count (h : qore_hash_private) (n : Z) : qore_hash_private :=
  Hash (member_list h) (heap h) (hm h) (hashdecl h) (complexTypeInfo h) n (valid h).
Definition set_type (h : qore_hash_private) (hd : option TypedHashDecl) (ct : option QoreTypeInfo)
  : qore_hash_private :=
  Hash (member_list h) (heap h) (hm h) hd ct (obj_count h) (valid h).

Definition new_hash : qore_hash_private := Hash [] ∅ ∅ None None 0 true.

Inductive hash_error := HASH_ERROR | INVALID_MEMBER | TYPE_ERROR.

(** ** Members

    None is undefined behaviour: a pointer to an object that does not exist. *)

Definition incScanCount (h : qore_hash_private) (dt : Z) : qore_hash_private :=
  set_obj_count h (u32 (obj_count h + dt)).

Definition getKeyValueIntern (h : qore_hash_private) (k : string) : option value :=
  match hm h !! k with
  | None => Some nothing
  | Some p => m ← heap h !! p; Some (val m)
  end.

(** With the flag [exists] *)
Definition getKeyValueExistenceIntern (h : qore_hash_private) (k : string) : option (value * bool) :=
  match hm h !! k with
  | None => Some (nothing, false)
  | Some p => m ← heap h !! p; Some (val m, true)
  end.

Definition checkKey (h : qore_hash_private) (k : string) : option hash_error :=
  match hashdecl h with
  | Some hd => match hashdecl_findMember hd k with None => Some INVALID_MEMBER | Some _ => None end
  | None => None
  end.

Definition getKeyValueExistence (h : qore_hash_private) (k : string) : option (hash_error + value * bool) :=
  match checkKey h k with
  | Some e => Some (inl e)
  | None => r ← getKeyValueExistenceIntern h k; Some (inr r)
  end.

Definition getKeyAsBigInt (h : qore_hash_private) (k : string) : option (Z * bool) :=
  '(v, e) ← getKeyValueExistenceIntern h k; Some (if e : bool then getAsBigInt v else 0, e).

Definition getKeyAsBool (h : qore_hash_private) (k : string) : option (bool * bool) :=
  '(v, e) ← getKeyValueExistenceIntern h k; Some (if e : bool then getAsBool v else false, e).

Definition existsKey (h : qore_hash_private) (k : string) : bool :=
  match hm h !! k with Some _ => true | None => false end.

Definition existsKeyValue (h : qore_hash_private) (k : string) : option bool :=
  '(v, e) ← getKeyValueExistenceIntern h k; Some (e && negb (isNothing v)).

Definition findMember (h : qore_hash_private) (k : string) : option positive := hm h !! k.

Definition findCreateMember (h : qore_hash_private) (k : string) : positive * qore_hash_private :=
  match findMember h k with
  | Some om => (om, h)
  | None =>
    let om := fresh (dom (heap h)) in
    (om, set_members h (member_list h ++ [om]) (<[om := Member k nothing]> (heap h)) (<[k := om]> (hm h)))
  end.

(** The member of a key for writing *)
Definition getValueRef (h : qore_hash_private) (k : string) : positive * qore_hash_private :=
  findCreateMember h k.

(** [internDeleteKey]: the list element and the object *)
Definition internDeleteKey (h : qore_hash_private) (i : positive) : qore_hash_private :=
  set_members h (filter (λ p, p <> i) (member_list h)) (delete i (heap h)) (hm h).

(** [takeKeyValueIntern]: the value, and whether the key existed *)
Definition takeKeyValueIntern (h : qore_hash_private) (k : string)
  : option (value * bool * qore_hash_private) :=
  match hm h !! k with
  | None => Some (nothing, false, h)
  | Some li =>
    let h := set_members h (member_list h) (heap h) (delete k (hm h)) in
    m ← heap h !! li;
    let rv := val m in
    let h := internDeleteKey h li in
    Some (rv, true, if needs_scan rv then incScanCount h (-1) else h)
  end.

(** The value is dereferenced by the caller; an object is deleted. *)
Definition deleteKey (h : qore_hash_private) (k : string) : option (option value * qore_hash_private) :=
  match hm h !! k with
  | None => Some (None, h)
  | Some li =>
    let h := set_members h (member_list h) (heap h) (delete k (hm h)) in
    m ← heap h !! li;
    let h := if needs_scan (val m) then incScanCount h (-1) else h in
    Some (Some (val m), internDeleteKey h li)
  end.

Definition removeKey (h : qore_hash_private) (k : string) : option (value * qore_hash_private) :=
  '(v, _, h) ← takeKeyValueIntern h k; Some (v, h).

(** ** Assignments *)

(** [hash_assignment_priv::swapImpl] for the member [om] *)
Definition swapImpl (h : qore_hash_private) (om : positive) (v : value) : option (value * qore_hash_private) :=
  m ← heap h !! om;
  let old := val m in
  let h := set_members h (member_list h) (<[om := Member (key m) v]> (heap h)) (hm h) in
  let before := needs_scan old in
  let after := needs_scan v in
  Some (old,
        if before then (if after then h else incScanCount h (-1))
        else if after then incScanCount h 1 else h).

(** The type of the hash accepts the value for the key. *)
Definition accept (h : qore_hash_private) (k : string) (v : value) : option value :=
  match hashdecl h with
  | Some hd => runtimeAssignKey hd k v
  | None =>
    match complexTypeInfo h with
    | Some ti => acceptInputKey (getUniqueReturnComplexHash ti) k v
    | None => Some (copy_strip_complex_types v)
    end
  end.

(** [hash_assignment_priv::assign]; the old value is dereferenced. *)
Definition assign (h : qore_hash_private) (om : positive) (v : value)
  : option (option hash_error * qore_hash_private) :=
  m ← heap h !! om;
  match accept h (key m) v with
  | None => Some (Some TYPE_ERROR, h)
  | Some v => '(_, h) ← swapImpl h om v; Some (None, h)
  end.

(** The member of [hash_assignment_priv] *)
Definition hash_assignment (h : qore_hash_private) (k : string) (must_already_exist : bool)
  : option positive * qore_hash_private :=
  if must_already_exist then (findMember h k, h)
  else let '(om, h) := findCreateMember h k in (Some om, h).

Definition setKeyValue (h : qore_hash_private) (k : string) (v : value)
  : option (option hash_error * qore_hash_private) :=
  let '(om, h) := findCreateMember h k in assign h om v.

Definition setKeyValueIntern (h : qore_hash_private) (k : string) (v : value) : option qore_hash_private :=
  let '(om, h) := findCreateMember h k in '(_, h) ← swapImpl h om v; Some h.

Definition swapKeyValue (h : qore_hash_private) (k : string) (v : value) : option (value * qore_hash_private) :=
  let '(om, h) := findCreateMember h k in swapImpl h om v.

Definition swapKeyValueIfExists (h : qore_hash_private) (k : string) (v : value)
  : option (value * bool * qore_hash_private) :=
  match hash_assignment h k true with
  | (Some om, h) => '(old, h) ← swapImpl h om v; Some (old, true, h)
  | (None, h) => Some (nothing, false, h)
  end.

(** ** The whole hash *)

Definition member_at (h : qore_hash_private) (p : positive) : option HashMember := heap h !! p.

(** The members in the order of the list *)
Definition members (h : qore_hash_private) : option (list HashMember) := mapM (member_at h) (member_list h).

Definition getKeys (h : qore_hash_private) : option (list string) := l ← members h; Some (map key l).
Definition getValues (h : qore_hash_private) : option (list value) := l ← members h; Some (map val l).

Definition getFirstKey (h : qore_hash_private) : option (option string) :=
  match head (member_list h) with None => Some None | Some p => m ← heap h !! p; Some (Some (key m)) end.
Definition getLastKey (h : qore_hash_private) : option (option string) :=
  match last (member_list h) with None => Some None | Some p => m ← heap h !! p; Some (Some (key m)) end.
Definition getFirstKeyValue (h : qore_hash_private) : option value :=
  match head (member_list h) with None => Some nothing | Some p => m ← heap h !! p; Some (val m) end.
Definition getLastKeyValue (h : qore_hash_private) : option value :=
  match last (member_list h) with None => Some nothing | Some p => m ← heap h !! p; Some (val m) end.

Definition size (h : qore_hash_private) : nat := length (member_list h).
Definition empty (h : qore_hash_private) : bool := bool_decide (member_list h = []).

(** [derefImpl]: all values are dereferenced, and the objects deleted. *)
Definition derefImpl (h : qore_hash_private) : qore_hash_private :=
  Hash [] ∅ ∅ (hashdecl h) (complexTypeInfo h) 0 false.
Definition clear (h : qore_hash_private) : qore_hash_private := derefImpl h.

Definition typed (h : qore_hash_private) : bool :=
  match complexTypeInfo h, hashdecl h with None, None => false | _, _ => true end.

(** [setKeyValue] while the sink already has an exception: the member is created, but a
    hash with a type ends the assignment at the test of the sink. *)
Definition setKeyValue_failed (h : qore_hash_private) (k : string) (v : value) : option qore_hash_private :=
  if typed h then Some (findCreateMember h k).2
  else '(_, h) ← setKeyValue h k v; Some h.

(** The loop of [merge]; it goes on after an exception, with the same sink. *)
Fixpoint merge_members (h : qore_hash_private) (l : list HashMember) (err : option hash_error)
  : option (option hash_error * qore_hash_private) :=
  match l with
  | [] => Some (err, h)
  | m :: l =>
    match err with
    | None => '(e, h) ← setKeyValue h (key m) (val m); merge_members h l e
    | Some e => h ← setKeyValue_failed h (key m) (val m); merge_members h l (Some e)
    end
  end.

Definition merge (h h0 : qore_hash_private) : option (option hash_error * qore_hash_private) :=
  l ← members h0; merge_members h l None.

(** An empty hash of the same type *)
Definition getCopy (h : qore_hash_private) : qore_hash_private := set_type new_hash (hashdecl h) (complexTypeInfo h).

Fixpoint copy_members (h : qore_hash_private) (l : list HashMember) : option qore_hash_private :=
  match l with
  | [] => Some h
  | m :: l => h ← setKeyValueIntern h (key m) (val m); copy_members h l
  end.

Definition copyIntern (h rv : qore_hash_private) : option qore_hash_private :=
  l ← members h; copy_members rv l.

(** [strip] copies without type information. *)
Definition copy (h : qore_hash_private) (strip : bool) : option qore_hash_private :=
  if negb strip || negb (typed h) then copyIntern h (getCopy h)
  else
    l ← members h;
    copy_members new_hash (map (λ m, Member (key m) (copy_strip_complex_types (val m))) l).

(** The type of the result of the operator [+] *)
Definition copyCheckNewType (h other : qore_hash_private) : option qore_hash_private :=
  rv ← copy h false;
  Some (match hashdecl h, hashdecl other with
        | None, None =>
          let ctype := complexTypeInfo h ≫= getUniqueReturnComplexHash in
          let newElementType := complexTypeInfo other ≫= getUniqueReturnComplexHash in
          let any t := match t with None => true | Some t => is_any t end in
          if any ctype && any newElementType then set_type rv (hashdecl rv) None
          else
            match matchCommonType ctype newElementType with
            | Some c =>
              set_type rv (hashdecl rv)
                (if bool_decide (c = ctype) then complexTypeInfo h else Some (qore_get_complex_hash_type c))
            | None => set_type rv (hashdecl rv) (Some autoHashTypeInfo)
            end
        | Some hd1, Some hd2 =>
          if hashdecl_equal hd1 hd2 then rv else set_type rv None (Some autoHashTypeInfo)
        | _, _ => set_type rv None (Some autoHashTypeInfo)
        end).

(** None as a result is the null pointer that is returned with an exception. *)
Definition plusEquals (h h0 : qore_hash_private) : option (option qore_hash_private) :=
  rv ← copyCheckNewType h h0;
  '(err, rv) ← merge rv h0;
  Some (match err with None => Some rv | Some _ => None end).

Fixpoint eval_members (h : qore_hash_private) (l : list HashMember) : option (option qore_hash_private) :=
  match l with
  | [] => Some (Some h)
  | m :: l =>
    '(e, h) ← setKeyValue h (key m) (val m);
    match e with Some _ => Some None | None => eval_members h l end
  end.

Definition evalImpl (h : qore_hash_private) : option (option qore_hash_private) :=
  l ← members h; eval_members (getCopy h) l.

(** [getSlice]: the members with the given keys, in the order of the keys *)
Fixpoint slice_keys (h rv : qore_hash_private) (keys : list string)
  : option (hash_error + qore_hash_private) :=
  match keys with
  | [] => Some (inr rv)
  | k :: keys =>
    r ← getKeyValueExistence h k;
    match r with
    | inl e => Some (inl e)
    | inr (_, false) => slice_keys h rv keys
    | inr (v, true) =>
      '(e, rv) ← setKeyValue rv k v;
      match e with Some e => Some (inl e) | None => slice_keys h rv keys end
    end
  end.

Definition getSlice (h : qore_hash_private) (keys : list string) : option (hash_error + qore_hash_private) :=
  slice_keys h (getCopy h) keys.

(** [newComplexHashFromHash]: the members of [init] get the type, one by one. *)
Fixpoint check_members (vti : option QoreTypeInfo) (h : qore_hash_private) (l : list positive)
  : option (option qore_hash_private) :=
  match l with
  | [] => Some (Some h)
  | p :: l =>
    m ← heap h !! p;
    '(qv, h) ← swapImpl h p nothing;
    match acceptInputKey vti (key m) qv with
    | None => Some None
    | Some qv => '(_, h) ← swapImpl h p qv; check_members vti h l
    end
  end.

Definition newComplexHashFromHash (typeInfo : QoreTypeInfo) (init : option qore_hash_private)
  : option (option qore_hash_private) :=
  match init with
  | Some h =>
    r ← check_members (getReturnComplexHashOrNothing typeInfo) h (member_list h);
    Some (match r with Some h => Some (set_type h (hashdecl h) (Some typeInfo)) | None => None end)
  | None => Some (Some (set_type new_hash None (Some typeInfo)))
  end.

(** [getLValue]: the member and its type *)
Inductive lvalue_result := LValue (m : positive) (memTypeInfo : option QoreTypeInfo)
  | LValueError (e : hash_error) | LValueMissing.

Definition getLValue (h : qore_hash_private) (k : string) (for_remove : bool)
  : lvalue_result * qore_hash_private :=
  if negb (valid h) then (LValueError HASH_ERROR, h)
  else
    match hashdecl h, (match hashdecl h with Some hd => hashdecl_findMember hd k | None => None end) with
    | Some _, None => (LValueError INVALID_MEMBER, h)
    | _, m =>
      let memTypeInfo := match m with
                         | Some t => Some t
                         | None => complexTypeInfo h ≫= getUniqueReturnComplexHash
                         end in
      match hm h !! k with
      | None =>
        if for_remove then (LValueMissing, h)
        else let '(om, h) := findCreateMember h k in (LValue om memTypeInfo, h)
      | Some om => (LValue om memTypeInfo, h)
      end
    end.

(** [compareSoft] and [compareHard]: true is "not equal". *)
Fixpoint compare_members (eq : value -> value -> bool) (l : list HashMember) (h : qore_hash_private)
  : option bool :=
  match l with
  | [] => Some false
  | m :: l =>
    match hm h !! key m with
    | None => Some true
    | Some j =>
      m' ← heap h !! j;
      if eq (val m) (val m') then compare_members eq l h else Some true
    end
  end.

Definition compare (eq : value -> value -> bool) (h0 h : qore_hash_private) : option bool :=
  if bool_decide (size h = size h0) then l ← members h0; compare_members eq l h else Some true.

Definition compareSoft := compare isEqualSoft.
Definition compareHard := compare isEqualHard.

(** ** Iterators *)

(** [qhi_priv]: None when [val] is false. *)
Abbreviation qhi := (option positive).

(** The elements behind and before an element of the list; None when the
    iterator does not stand in the list. *)
Fixpoint list_next (l : list positive) (i : positive) : option qhi :=
  match l with
  | [] => None
  | p :: l => if decide (p = i) then Some (head l) else list_next l i
  end.

Fixpoint list_prev (before : qhi) (l : list positive) (i : positive) : option qhi :=
  match l with
  | [] => None
  | p :: l => if decide (p = i) then Some before else list_prev (Some p) l i
  end.

Definition qhi_next (ml : list positive) (i : qhi) : option qhi :=
  match i with None => Some (head ml) | Some p => list_next ml p end.

Definition qhi_prev (ml : list positive) (i : qhi) : option qhi :=
  match i with None => Some (last ml) | Some p => list_prev None ml p end.

Definition iter_get (h : qore_hash_private) (i : qhi) : option value :=
  match i with None => Some nothing | Some p => m ← heap h !! p; Some (val m) end.
Definition iter_getKey (h : qore_hash_private) (i : qhi) : option (option string) :=
  match i with None => Some None | Some p => m ← heap h !! p; Some (Some (key m)) end.
Definition iter_last (h : qore_hash_private) (i : qhi) : option bool :=
  match i with None => Some false | Some p => n ← list_next (member_list h) p; Some (bool_decide (n = None)) end.
Definition iter_first (h : qore_hash_private) (i : qhi) : bool :=
  match i with None => false | Some p => bool_decide (head (member_list h) = Some p) end.

(** [HashIterator::removeKeyValue] and [HashIterator::deleteKey]: the iterator
    goes to the element before. *)
Definition iter_remove (h : qore_hash_private) (i : qhi) : option (value * qhi * qore_hash_private) :=
  match i with
  | None => Some (nothing, None, h)
  | Some ni =>
    m ← heap h !! ni;
    let rv := val m in
    let h := if needs_scan rv then incScanCount h (-1) else h in
    i ← qhi_prev (member_list h) (Some ni);
    match hm h !! key m with
    | None => None
    | Some _ =>
      let h := set_members h (member_list h) (heap h) (delete (key m) (hm h)) in
      Some (rv, i, internDeleteKey h ni)
    end
  end.

Definition iter_assign (h : qore_hash_private) (i : qhi) (v : value) : option (Z * qore_hash_private) :=
  match i with
  | None => Some (-1, h)
  | Some p => '(e, h) ← assign h p v; Some (match e with None => 0 | Some _ => -1 end, h)
  end.

(** A loop over the hash that deletes the members with [del]; the results are
    the members it saw. *)
Fixpoint delete_loop (fuel : nat) (del : string -> value -> bool) (h : qore_hash_private) (i : qhi)
  : option (list HashMember * qore_hash_private) :=
  match fuel with
  | O => None
  | S fuel =>
    i ← qhi_next (member_list h) i;
    match i with
    | None => Some ([], h)
    | Some p =>
      m ← heap h !! p;
      '(i, h) ← (if del (key m) (val m)
                 then '(_, i, h) ← iter_remove h (Some p); Some (i, h)
                 else Some (Some p, h));
      '(seen, h) ← delete_loop fuel del h i;
      Some (m :: seen, h)
    end
  end.

(** ** The dictionary that a hash represents *)

(** Keys with their values, in the order of the insertion of the keys *)
Abbreviation dict := (list (string * value)).

Fixpoint dict_get (k : string) (d : dict) : option value :=
  match d with
  | [] => None
  | (k', v) :: d => if decide (k' = k) then Some v else dict_get k d
  end.

(** A new key comes last. *)
Fixpoint dict_set (k : string) (v : value) (d : dict) : dict :=
  match d with
  | [] => [(k, v)]
  | (k', v') :: d => if decide (k' = k) then (k, v) :: d else (k', v') :: dict_set k v d
  end.

Definition dict_remove (k : string) (d : dict) : dict := filter (λ e, e.1 <> k) d.

(** The number of values that have references to objects *)
Fixpoint scan_count (d : dict) : Z :=
  match d with [] => 0 | (_, v) :: d => (if needs_scan v then 1 else 0) + scan_count d end.

Definition ents (hp : gmap positive HashMember) (l : list positive) : dict :=
  omap (λ p, m ← hp !! p; Some (key m, val m)) l.

Definition entries (h : qore_hash_private) : dict := ents (heap h) (member_list h).

(** The list, the map and the heap describe the same members, every key occurs
    once, and [obj_count] counts as an unsigned integer. *)
Record wf (h : qore_hash_private) : Prop := {
  wf_list : NoDup (member_list h);
  wf_heap p : p ∈ member_list h <-> is_Some (heap h !! p);
  wf_map k p : hm h !! k = Some p <-> exists m, heap h !! p = Some m /\ key m = k;
  wf_count : obj_count h = u32 (scan_count (entries h)) }.

Lemma wf_new : wf new_hash.
Proof.
  split; simpl; [constructor| | |reflexivity].
  - intros p. rewrite lookup_empty. split; [intros Hp; inversion Hp|intros [? [=]]].
  - intros k p. rewrite lookup_empty. split; [discriminate|]. intros (m & E & _). rewrite lookup_empty in E. discriminate.
Qed.

Lemma wf_same_key h p q m m' :
  wf h -> heap h !! p = Some m -> heap h !! q = Some m' -> key m = key m' -> p = q.
Proof.
  intros W Hp Hq E. assert (hm h !! key m = Some p) as H1 by (apply (wf_map _ W); eauto).
  assert (hm h !! key m = Some q) as H2 by (apply (wf_map _ W); eauto). congruence.
Qed.

(** The count is determined by the members. *)
Lemma wf_count_eq l hp i hd ct n n' v :
  wf (Hash l hp i hd ct n v) -> n' = n -> wf (Hash l hp i hd ct n' v).
Proof. intros W ->. exact W. Qed.

(** ** Lemmas on dictionaries *)

Lemma dict_get_app k d1 d2 :
  dict_get k (d1 ++ d2) = match dict_get k d1 with Some v => Some v | None => dict_get k d2 end.
Proof. induction d1 as [|[k' v] d1 IH]; simpl; [reflexivity|]. destruct (decide (k' = k)); [reflexivity|exact IH]. Qed.

Lemma dict_get_None k d : dict_get k d = None <-> k ∉ d.*1.
Proof.
  induction d as [|[k' v] d IH]; simpl; [split; [intros _ Hk; inversion Hk|reflexivity]|].
  rewrite not_elem_of_cons. destruct (decide (k' = k)) as [->|N]; [split; [discriminate|tauto]|].
  rewrite IH. split; [intros Hk; split; [congruence|exact Hk]|tauto].
Qed.

Lemma dict_set_new k v d : dict_get k d = None -> dict_set k v d = d ++ [(k, v)].
Proof.
  induction d as [|[k' v'] d IH]; simpl; [reflexivity|]. destruct (decide (k' = k)); [discriminate|].
  intros Hd. rewrite IH by exact Hd. reflexivity.
Qed.

Lemma dict_set_keys k v d : is_Some (dict_get k d) -> (dict_set k v d).*1 = d.*1.
Proof.
  induction d as [|[k' v'] d IH]; simpl; [intros [? [=]]|]. destruct (decide (k' = k)) as [->|]; [reflexivity|].
  intros Hd. rewrite fmap_cons, IH by exact Hd. reflexivity.
Qed.

Lemma dict_set_same k v d : dict_get k d = Some v -> dict_set k v d = d.
Proof.
  induction d as [|[k' v'] d IH]; simpl; [discriminate|]. destruct (decide (k' = k)) as [->|].
  - intros [= ->]. reflexivity.
  - intros Hd. rewrite IH by exact Hd. reflexivity.
Qed.

Lemma dict_get_set k k' v d : dict_get k (dict_set k' v d) = if decide (k' = k) then Some v else dict_get k d.
Proof.
  induction d as [|[x y] d IH]; simpl; [reflexivity|]. destruct (decide (x = k')) as [->|N]; simpl.
  - destruct (decide (k' = k)); reflexivity.
  - destruct (decide (x = k)) as [->|N']; [|exact IH]. destruct (decide (k' = k)); [congruence|reflexivity].
Qed.

Lemma dict_get_remove k k' d : dict_get k (dict_remove k' d) = if decide (k' = k) then None else dict_get k d.
Proof.
  unfold dict_remove. induction d as [|[x y] d IH]; [destruct (decide _); reflexivity|].
  rewrite filter_cons. simpl. destruct (decide (x <> k')) as [N|N]; simpl.
  - rewrite IH. destruct (decide (x = k)) as [->|]; [|reflexivity]. destruct (decide (k' = k)); [congruence|reflexivity].
  - rewrite IH. destruct (decide (k' = k)) as [->|]; [reflexivity|]. destruct (decide (x = k)) as [->|]; [|reflexivity].
    destruct N. congruence.
Qed.

Lemma hash_scan_count_app d1 d2 : scan_count (d1 ++ d2) = scan_count d1 + scan_count d2.
Proof. induction d1 as [|[k v] d1 IH]; simpl; [reflexivity|]. rewrite IH. lia. Qed.

Definition scan (v : value) : Z := if needs_scan v then 1 else 0.

Lemma scan_count_set k v old d :
  dict_get k d = Some old -> scan_count (dict_set k v d) = scan_count d - scan old + scan v.
Proof.
  unfold scan. induction d as [|[k' v'] d IH]; simpl; [discriminate|]. destruct (decide (k' = k)).
  - intros [= ->]. simpl. lia.
  - intros Hd. simpl. rewrite IH by exact Hd. lia.
Qed.

Lemma scan_count_remove k old d :
  NoDup d.*1 -> dict_get k d = Some old -> scan_count (dict_remove k d) = scan_count d - scan old.
Proof.
  unfold scan, dict_remove. induction d as [|[k' v'] d IH]; simpl; [discriminate|].
  intros [Hn Hd]%NoDup_cons. rewrite filter_cons. simpl. destruct (decide (k' = k)) as [->|N].
  - intros [= ->]. rewrite decide_False by tauto. rewrite filter_id; [lia|].
    apply Forall_forall. intros [x y] Hx E. simpl in E. subst x. apply Hn.
    apply list_elem_of_fmap. exists (k, y). auto.
  - intros Hg. rewrite decide_True by exact N. simpl. rewrite IH by assumption. lia.
Qed.

(** ** The contents of the list *)

Definition unique_keys (hp : gmap positive HashMember) : Prop := forall p q m m',
  hp !! p = Some m -> hp !! q = Some m' -> key m = key m' -> p = q.

Lemma wf_unique h : wf h -> unique_keys (heap h).
Proof. intros W p q m m'. apply wf_same_key, W. Qed.

Lemma ents_cons hp p l m : hp !! p = Some m -> ents hp (p :: l) = (key m, val m) :: ents hp l.
Proof. intros E. unfold ents. simpl. rewrite E. reflexivity. Qed.

Lemma ents_app hp l1 l2 : ents hp (l1 ++ l2) = ents hp l1 ++ ents hp l2.
Proof. apply omap_app. Qed.

Lemma ents_ext hp hp' l : (forall p, p ∈ l -> hp !! p = hp' !! p) -> ents hp l = ents hp' l.
Proof.
  intros H. unfold ents. induction l as [|p l IH]; [reflexivity|]. simpl.
  rewrite (H p) by (left; reflexivity). unfold omap in IH. rewrite IH; [reflexivity|].
  intros q Hq. apply H. right. exact Hq.
Qed.

Lemma ents_lookup hp l k v :
  unique_keys hp -> dict_get k (ents hp l) = Some v ->
  exists p m, p ∈ l /\ hp !! p = Some m /\ key m = k /\ val m = v.
Proof.
  intros U. induction l as [|p l IH]; [discriminate|]. intros H.
  destruct (hp !! p) as [m|] eqn:E.
  - rewrite (ents_cons _ _ _ m E) in H. simpl in H. destruct (decide (key m = k)) as [<-|N].
    + exists p, m. split; [left; reflexivity|]. split; [exact E|]. split; [reflexivity|congruence].
    + destruct (IH H) as (q & m' & Hq & R). exists q, m'. split; [right; exact Hq|exact R].
  - unfold ents in H. simpl in H. rewrite E in H. destruct (IH H) as (q & m' & Hq & R).
    exists q, m'. split; [right; exact Hq|exact R].
Qed.

Lemma ents_get hp l p m :
  unique_keys hp -> p ∈ l -> hp !! p = Some m -> dict_get (key m) (ents hp l) = Some (val m).
Proof.
  intros U Hin E. induction l as [|q l IH]; [inversion Hin|]. apply elem_of_cons in Hin.
  destruct (decide (q = p)) as [->|N].
  - rewrite (ents_cons _ _ _ m E). simpl. rewrite decide_True by reflexivity. reflexivity.
  - destruct Hin as [->|Hin]; [congruence|]. unfold ents. simpl. destruct (hp !! q) as [m'|] eqn:E'; [|exact (IH Hin)].
    simpl. rewrite decide_False; [exact (IH Hin)|]. intros Ek. apply N. eapply U; eassumption.
Qed.

Lemma ents_fresh_key hp l m :
  unique_keys hp -> (forall p m', p ∈ l -> hp !! p = Some m' -> key m' <> key m) ->
  dict_get (key m) (ents hp l) = None.
Proof.
  intros U H. destruct (dict_get _ _) as [v|] eqn:E; [|reflexivity].
  destruct (ents_lookup _ _ _ _ U E) as (p & m' & Hp & Hm & Hk & _). destruct (H p m' Hp Hm Hk).
Qed.

Lemma ents_update hp l p m v :
  unique_keys hp -> p ∈ l -> hp !! p = Some m -> NoDup l ->
  ents (<[p := Member (key m) v]> hp) l = dict_set (key m) v (ents hp l).
Proof.
  intros U Hin E D. induction l as [|q l IH]; [inversion Hin|]. apply NoDup_cons in D as [Dq D].
  destruct (decide (q = p)) as [->|N].
  - rewrite (ents_cons _ _ _ (Member (key m) v)) by apply lookup_insert_eq.
    rewrite (ents_cons hp _ _ m E). simpl. rewrite decide_True by reflexivity. f_equal.
    apply ents_ext. intros r Hr. apply lookup_insert_ne. congruence.
  - apply elem_of_cons in Hin. destruct Hin as [->|Hin]; [congruence|].
    destruct (hp !! q) as [m'|] eqn:E'.
    + rewrite (ents_cons _ q _ m') by (rewrite lookup_insert_ne by congruence; exact E').
      rewrite (ents_cons hp q _ m' E'). simpl. rewrite decide_False; [rewrite IH by assumption; reflexivity|].
      intros Ek. apply N. eapply U; eassumption.
    + assert (forall g : gmap positive HashMember, g !! q = None -> ents g (q :: l) = ents g l) as C
        by (intros g Hg; unfold ents; simpl; rewrite Hg; reflexivity).
      rewrite !C by (rewrite ?lookup_insert_ne by congruence; exact E'). apply IH; assumption.
Qed.

Lemma ents_remove hp l p m :
  unique_keys hp -> hp !! p = Some m -> (forall q, q ∈ l -> is_Some (hp !! q)) ->
  ents (delete p hp) (filter (λ q, q <> p) l) = dict_remove (key m) (ents hp l).
Proof.
  intros U E Hl. induction l as [|q l IH]; [reflexivity|].
  assert (forall r, r ∈ l -> is_Some (hp !! r)) as Hl' by (intros r Hr; apply Hl; right; exact Hr).
  destruct (Hl q (list_elem_of_here _ _)) as [m' E']. rewrite filter_cons.
  rewrite (ents_cons hp q _ m' E'). unfold dict_remove. rewrite filter_cons. simpl.
  destruct (decide (q <> p)) as [N|N].
  - rewrite (ents_cons _ q _ m') by (rewrite lookup_delete_ne by congruence; exact E').
    rewrite IH by exact Hl'. rewrite decide_True; [reflexivity|]. intros Ek. apply N. eapply U; eassumption.
  - assert (q = p) as -> by (destruct (decide (q = p)); tauto).
    assert (m' = m) as -> by congruence. rewrite decide_False by tauto. apply IH, Hl'.
Qed.

Lemma ents_keys_NoDup hp l : unique_keys hp -> NoDup l -> NoDup (ents hp l).*1.
Proof.
  intros U. induction l as [|q l IH]; intros D; [constructor|]. apply NoDup_cons in D as [Dq D].
  destruct (hp !! q) as [m|] eqn:E.
  - rewrite (ents_cons _ _ _ m E). simpl. apply NoDup_cons. split; [|apply IH, D].
    apply dict_get_None, ents_fresh_key; [exact U|]. intros p m' Hp E' Ek.
    assert (p = q) as -> by (eapply U; eassumption). exact (Dq Hp).
  - unfold ents. simpl. rewrite E. apply IH, D.
Qed.

(** ** The operations on members *)

Lemma entries_NoDup h : wf h -> NoDup (entries h).*1.
Proof. intros W. apply ents_keys_NoDup; [apply wf_unique, W|apply W]. Qed.

Lemma wf_get h k :
  wf h -> match hm h !! k with
          | Some p => exists m, heap h !! p = Some m /\ key m = k /\ p ∈ member_list h /\
                      dict_get k (entries h) = Some (val m)
          | None => dict_get k (entries h) = None
          end.
Proof.
  intros W. pose proof (wf_unique h W) as U. destruct (hm h !! k) as [p|] eqn:E.
  - apply (wf_map _ W) in E as (m & Hm & <-). exists m. split; [exact Hm|]. split; [reflexivity|].
    assert (p ∈ member_list h) as Hp by (apply (wf_heap _ W); eauto). split; [exact Hp|].
    apply (ents_get _ _ p); assumption.
  - destruct (dict_get k (entries h)) as [v|] eqn:G; [|reflexivity].
    destruct (ents_lookup _ _ _ _ U G) as (p & m & Hp & Hm & Hk & _).
    assert (hm h !! k = Some p) by (apply (wf_map _ W); eauto). congruence.
Qed.

(** What does not change with the members *)
Definition same_type (h h' : qore_hash_private) : Prop :=
  hashdecl h' = hashdecl h /\ complexTypeInfo h' = complexTypeInfo h /\ valid h' = valid h.

#[local] Instance same_type_preorder : PreOrder same_type.
Proof. split; [repeat split|]. intros a b c (A1 & A2 & A3) (B1 & B2 & B3). repeat split; congruence. Qed.

Lemma existing_spec h k :
  wf h -> getKeyValueExistenceIntern h k =
    Some (match dict_get k (entries h) with Some v => (v, true) | None => (nothing, false) end).
Proof.
  intros W. unfold getKeyValueExistenceIntern. pose proof (wf_get h k W) as G.
  destruct (hm h !! k) as [p|]; [destruct G as (m & -> & _ & _ & ->)|rewrite G]; reflexivity.
Qed.

Lemma getKeyValueIntern_spec h k :
  wf h -> getKeyValueIntern h k = Some (default nothing (dict_get k (entries h))).
Proof.
  intros W. unfold getKeyValueIntern. pose proof (wf_get h k W) as G.
  destruct (hm h !! k) as [p|]; [destruct G as (m & -> & _ & _ & ->)|rewrite G]; reflexivity.
Qed.

Lemma existsKey_spec h k : wf h -> existsKey h k = bool_decide (k ∈ (entries h).*1).
Proof.
  intros W. unfold existsKey. pose proof (wf_get h k W) as G. destruct (hm h !! k) as [p|].
  - destruct G as (m & _ & _ & _ & G). symmetry. apply bool_decide_eq_true. apply dec_stable.
    rewrite <- dict_get_None. congruence.
  - symmetry. apply bool_decide_eq_false. apply dict_get_None, G.
Qed.

Context {HW : HashLaws}.

(** The member of a key that may be new *)
Lemma findCreate_spec h k :
  wf h -> let '(om, h') := findCreateMember h k in
  wf h' /\ same_type h h' /\
  entries h' = (match dict_get k (entries h) with Some _ => entries h | None => entries h ++ [(k, nothing)] end) /\
  exists m, heap h' !! om = Some m /\ key m = k /\ val m = default nothing (dict_get k (entries h)).
Proof.
  intros W. unfold findCreateMember, findMember. pose proof (wf_get h k W) as G.
  destruct (hm h !! k) as [p|] eqn:E.
  { destruct G as (m & Hm & Hk & Hp & G). rewrite G. split; [exact W|]. split; [reflexivity|].
    split; [reflexivity|]. exists m. auto. }
  rewrite G. simpl. set (om := fresh (dom (heap h))).
  assert (heap h !! om = None) as Ho by (apply not_elem_of_dom, is_fresh).
  assert (om ∉ member_list h) as Hn by (rewrite (wf_heap _ W), Ho; intros [? [=]]).
  assert (entries (set_members h (member_list h ++ [om]) (<[om := Member k nothing]> (heap h))
            (<[k := om]> (hm h))) = entries h ++ [(k, nothing)]) as Ee.
  { unfold entries. simpl. rewrite ents_app. f_equal.
    - apply ents_ext. intros p Hp. apply lookup_insert_ne. intros ->. exact (Hn Hp).
    - apply (ents_cons _ _ [] (Member k nothing)), lookup_insert_eq. }
  split; [|split; [repeat split|split; [exact Ee|]]].
  - split; simpl.
    + apply NoDup_app. split; [apply W|]. split; [|apply NoDup_singleton].
      intros x Hx ->%list_elem_of_singleton. exact (Hn Hx).
    + intros p. rewrite elem_of_app, list_elem_of_singleton, (wf_heap _ W). destruct (decide (p = om)) as [->|N].
      * rewrite lookup_insert_eq. split; [eauto|tauto].
      * rewrite lookup_insert_ne by congruence. tauto.
    + intros k' p. destruct (decide (k' = k)) as [->|Nk].
      * rewrite lookup_insert_eq. split.
        -- intros [= <-]. exists (Member k nothing). rewrite lookup_insert_eq. auto.
        -- intros (m & Hm & Hk). destruct (decide (p = om)) as [->|N]; [reflexivity|].
           rewrite lookup_insert_ne in Hm by congruence.
           assert (hm h !! k = Some p) by (apply (wf_map _ W); eauto). congruence.
      * rewrite lookup_insert_ne by congruence. rewrite (wf_map _ W). destruct (decide (p = om)) as [->|N].
        -- rewrite lookup_insert_eq, Ho. split; [intros (m & [=] & _)|]. intros (m & [= <-] & Hk). simpl in Hk. congruence.
        -- rewrite lookup_insert_ne by congruence. reflexivity.
    + rewrite Ee, hash_scan_count_app, (wf_count _ W). simpl. rewrite nothing_scan. f_equal. lia.
  - exists (Member k nothing). rewrite lookup_insert_eq. auto.
Qed.

Lemma entries_set_obj_count h n : entries (set_obj_count h n) = entries h.
Proof. reflexivity. Qed.

(** A value is exchanged. *)
Lemma swapImpl_spec h om m v :
  wf h -> heap h !! om = Some m ->
  exists h', swapImpl h om v = Some (val m, h') /\ wf h' /\ same_type h h' /\
    entries h' = dict_set (key m) v (entries h) /\
    member_list h' = member_list h /\ (forall p, p <> om -> heap h' !! p = heap h !! p) /\
    heap h' !! om = Some (Member (key m) v).
Proof.
  intros W Hm. unfold swapImpl. rewrite Hm. simpl.
  pose proof (wf_unique h W) as U.
  assert (om ∈ member_list h) as Hin by (apply (wf_heap _ W); eauto).
  assert (forall n, n = u32 (scan_count (entries h) - scan (val m) + scan v) ->
    let h' := Hash (member_list h) (<[om := Member (key m) v]> (heap h)) (hm h) (hashdecl h)
                (complexTypeInfo h) n (valid h) in
    wf h' /\ entries h' = dict_set (key m) v (entries h)) as K.
  { intros n ->. simpl.
    assert (ents (<[om := Member (key m) v]> (heap h)) (member_list h) = dict_set (key m) v (entries h)) as Ee
      by (apply ents_update; [exact U|exact Hin|exact Hm|apply W]).
    split; [|exact Ee]. split; simpl.
    - apply W.
    - intros p. rewrite (wf_heap _ W). destruct (decide (p = om)) as [->|N].
      + rewrite lookup_insert_eq, Hm. split; eauto.
      + rewrite lookup_insert_ne by congruence. reflexivity.
    - intros k p. rewrite (wf_map _ W). destruct (decide (p = om)) as [->|N].
      + rewrite lookup_insert_eq, Hm. split; intros (x & [= <-] & Hk); eexists; (split; [reflexivity|exact Hk]).
      + rewrite lookup_insert_ne by congruence. reflexivity.
    - unfold entries. simpl. rewrite Ee. f_equal. symmetry. apply scan_count_set.
      apply (ents_get _ _ om); assumption. }
  eexists. split; [reflexivity|].
  unfold scan in K. pose proof (wf_count _ W) as C.
  destruct (needs_scan (val m)), (needs_scan v);
    (destruct (K _ eq_refl) as [K1 K2]);
    (split; [|split; [repeat split|split; [exact K2|split; [reflexivity|split;
       [intros p Np; apply lookup_insert_ne; congruence|apply lookup_insert_eq]]]]]);
    (eapply wf_count_eq; [exact K1|]); simpl; rewrite C, ?u32_add; f_equal; lia.
Qed.

(** The entries after the member of a key was looked up for writing *)
Definition dict_create (k : string) (d : dict) : dict :=
  match dict_get k d with Some _ => d | None => d ++ [(k, nothing)] end.

Lemma dict_set_create k v d : dict_set k v (dict_create k d) = dict_set k v d.
Proof.
  unfold dict_create. destruct (dict_get k d) eqn:E; [reflexivity|].
  rewrite (dict_set_new k v d) by exact E. clear -E. revert E.
  induction d as [|[k' v'] d IH]; simpl; [rewrite decide_True by reflexivity; reflexivity|].
  destruct (decide (k' = k)); [discriminate|]. intros E. rewrite IH by exact E. reflexivity.
Qed.

Lemma swapKeyValue_spec h k v :
  wf h -> exists h', swapKeyValue h k v = Some (default nothing (dict_get k (entries h)), h') /\
    wf h' /\ same_type h h' /\ entries h' = dict_set k v (entries h).
Proof.
  intros W. unfold swapKeyValue. pose proof (findCreate_spec h k W) as F.
  destruct (findCreateMember h k) as [om h1]. destruct F as (W1 & T1 & E1 & m & Hm & <- & Hv).
  destruct (swapImpl_spec h1 om m v W1 Hm) as (h2 & -> & W2 & T2 & E2 & _).
  exists h2. split; [rewrite Hv; reflexivity|]. split; [exact W2|]. split; [etransitivity; eassumption|].
  rewrite E2, E1. apply dict_set_create.
Qed.

Lemma setKeyValueIntern_spec h k v :
  wf h -> exists h', setKeyValueIntern h k v = Some h' /\
    wf h' /\ same_type h h' /\ entries h' = dict_set k v (entries h).
Proof.
  intros W. destruct (swapKeyValue_spec h k v W) as (h' & E & R). exists h'. split; [|exact R].
  unfold setKeyValueIntern, swapKeyValue in *. destruct (findCreateMember h k). rewrite E. reflexivity.
Qed.

(** An assignment of a type that does not accept the value leaves a new key
    behind. *)
Definition dict_assign (h : qore_hash_private) (k : string) (v : value) (d : dict) : option hash_error * dict :=
  match accept h k v with
  | Some v => (None, dict_set k v d)
  | None => (Some TYPE_ERROR, dict_create k d)
  end.

Lemma accept_same h h' k v : same_type h h' -> accept h' k v = accept h k v.
Proof. unfold accept. intros (-> & -> & _). reflexivity. Qed.

Lemma hash_assign_spec h om m v :
  wf h -> heap h !! om = Some m ->
  exists h', assign h om v = Some (fst (dict_assign h (key m) v (entries h)), h') /\ wf h' /\ same_type h h' /\
    entries h' = snd (dict_assign h (key m) v (entries h)) /\ member_list h' = member_list h.
Proof.
  intros W Hm. unfold assign, dict_assign. rewrite Hm. simpl. destruct (accept h (key m) v) as [v'|].
  - destruct (swapImpl_spec h om m v' W Hm) as (h' & -> & W' & T & E & L & _). exists h'. simpl. auto.
  - exists h. split; [reflexivity|]. split; [exact W|]. split; [reflexivity|]. split; [|reflexivity].
    simpl. unfold dict_create, entries.
    rewrite (ents_get _ _ om m (wf_unique h W) (proj2 (wf_heap _ W om) (mk_is_Some _ _ Hm)) Hm). reflexivity.
Qed.

Lemma setKeyValue_spec h k v :
  wf h -> exists h', setKeyValue h k v = Some (fst (dict_assign h k v (entries h)), h') /\
    wf h' /\ same_type h h' /\ entries h' = snd (dict_assign h k v (entries h)).
Proof.
  intros W. unfold setKeyValue. pose proof (findCreate_spec h k W) as F.
  destruct (findCreateMember h k) as [om h1]. destruct F as (W1 & T1 & E1 & m & Hm & <- & Hv).
  destruct (hash_assign_spec h1 om m v W1 Hm) as (h2 & -> & W2 & T2 & E2 & _).
  change (entries h1 = dict_create (key m) (entries h)) in E1.
  unfold dict_assign in *. rewrite (accept_same h h1) in * by exact T1. rewrite E1 in *.
  exists h2. destruct (accept h (key m) v) as [v'|]; simpl in *.
  - split; [reflexivity|]. split; [exact W2|]. split; [etransitivity; eassumption|].
    rewrite E2. apply dict_set_create.
  - split; [reflexivity|]. split; [exact W2|]. split; [etransitivity; eassumption|].
    rewrite E2. unfold dict_create at 1. unfold dict_create at 1 in E1.
    destruct (dict_get (key m) (dict_create (key m) (entries h))) eqn:G; [reflexivity|].
    exfalso. unfold dict_create in G. destruct (dict_get (key m) (entries h)) eqn:G'; [congruence|].
    rewrite dict_get_app, G' in G. simpl in G. rewrite decide_True in G by reflexivity. discriminate.
Qed.

(** A member is removed. *)
Lemma remove_member_spec h k p m :
  wf h -> hm h !! k = Some p -> heap h !! p = Some m ->
  let h' := set_members h (filter (λ q, q <> p) (member_list h)) (delete p (heap h)) (delete k (hm h)) in
  let h' := if needs_scan (val m) then incScanCount h' (-1) else h' in
  wf h' /\ same_type h h' /\ entries h' = dict_remove k (entries h).
Proof.
  intros W Hk Hm. pose proof (wf_unique h W) as U.
  assert (key m = k) as <-.
  { apply (wf_map _ W) in Hk as (m' & Hm' & <-). congruence. }
  assert (ents (delete p (heap h)) (filter (λ q, q <> p) (member_list h)) = dict_remove (key m) (entries h)) as Ee.
  { apply ents_remove; [exact U|exact Hm|]. intros q. apply (wf_heap _ W). }
  assert (dict_get (key m) (entries h) = Some (val m)) as G.
  { apply (ents_get _ _ p); [exact U|apply (wf_heap _ W); eauto|exact Hm]. }
  assert (forall n, n = u32 (scan_count (entries h) - scan (val m)) ->
    wf (Hash (filter (λ q, q <> p) (member_list h)) (delete p (heap h)) (delete (key m) (hm h)) (hashdecl h)
          (complexTypeInfo h) n (valid h))) as K.
  { intros n ->. split; simpl.
    - apply NoDup_filter, W.
    - intros q. rewrite list_elem_of_filter, (wf_heap _ W). destruct (decide (q = p)) as [->|N].
      + rewrite lookup_delete_eq. split; [tauto|intros [? [=]]].
      + rewrite lookup_delete_ne by congruence. tauto.
    - intros k q. destruct (decide (k = key m)) as [->|N].
      + rewrite lookup_delete_eq. split; [discriminate|]. intros (m' & Hm' & Ek).
        apply lookup_delete_Some in Hm' as [Nq Hm']. destruct Nq. eapply U; [exact Hm|exact Hm'|congruence].
      + rewrite lookup_delete_ne by congruence. rewrite (wf_map _ W). destruct (decide (q = p)) as [->|Nq].
        * rewrite lookup_delete_eq. split; [|intros (? & [=] & _)]. intros (m' & Hm' & Ek).
          assert (m' = m) as -> by congruence. congruence.
        * rewrite lookup_delete_ne by congruence. reflexivity.
    - unfold entries. simpl. rewrite Ee. f_equal. symmetry.
      apply scan_count_remove; [apply entries_NoDup, W|exact G]. }
  pose proof (wf_count _ W) as C. unfold scan in K.
  destruct (needs_scan (val m)); simpl; (split; [|split; [repeat split|exact Ee]]);
    (eapply wf_count_eq; [apply (K _ eq_refl)|]); simpl; rewrite C, ?u32_add; f_equal; lia.
Qed.

Lemma dict_remove_absent k d : dict_get k d = None -> dict_remove k d = d.
Proof.
  intros H%dict_get_None. apply filter_id, Forall_forall. intros [x y] Hx E. simpl in E. subst x.
  apply H, list_elem_of_fmap. exists (k, y). auto.
Qed.

Lemma takeKeyValueIntern_spec h k :
  wf h -> exists h', takeKeyValueIntern h k =
      Some (match dict_get k (entries h) with Some v => (v, true) | None => (nothing, false) end, h') /\
    wf h' /\ same_type h h' /\ entries h' = dict_remove k (entries h).
Proof.
  intros W. unfold takeKeyValueIntern. pose proof (wf_get h k W) as G.
  destruct (hm h !! k) as [p|] eqn:E.
  - destruct G as (m & Hm & Hk & Hp & G). rewrite G. simpl. rewrite Hm. simpl. eexists. split; [reflexivity|].
    exact (remove_member_spec h k p m W E Hm).
  - rewrite G. exists h. split; [reflexivity|]. split; [exact W|]. split; [reflexivity|].
    symmetry. apply dict_remove_absent, G.
Qed.

Lemma deleteKey_spec h k :
  wf h -> exists h', deleteKey h k = Some (dict_get k (entries h), h') /\
    wf h' /\ same_type h h' /\ entries h' = dict_remove k (entries h).
Proof.
  intros W. unfold deleteKey. pose proof (wf_get h k W) as G.
  destruct (hm h !! k) as [p|] eqn:E.
  - destruct G as (m & Hm & Hk & Hp & G). rewrite G. simpl. rewrite Hm. simpl.
    pose proof (remove_member_spec h k p m W E Hm) as R.
    eexists. split; [reflexivity|]. destruct (needs_scan (val m)); exact R.
  - rewrite G. exists h. split; [reflexivity|]. split; [exact W|]. split; [reflexivity|].
    symmetry. apply dict_remove_absent, G.
Qed.
End hash.
