(* ===== verification/HashSpec.v ===== *)
(** * Hashes as ordered dictionaries

    Every operation of [HashNode] does what the same operation on a list of
    keys and values does; loops over a hash, copies, merges, slices and
    comparisons. *)

From S2P Require Import Prelude HashNode.

#[local] Open Scope Z_scope.

Section spec.
Context {HL : HashLang} {HW : HashLaws}.

#[local] Existing Instance same_type_preorder.

Abbreviation dict := (list (string * value)).

#[local] Arguments ents : simpl never.
#[local] Arguments iter_remove : simpl never.

(** ** The members in their order *)

Definition member_entry (m : HashMember) : string * value := (key m, val m).

Lemma members_spec h : wf h -> exists l, members h = Some l /\ map member_entry l = entries h.
Proof.
  intros W.
  assert (exists l, Forall2 (λ p m, member_at h p = Some m) (member_list h) l /\
                    map member_entry l = entries h) as (l & F & E).
  { assert (forall p, p ∈ member_list h -> is_Some (heap h !! p)) as Hl by (intros p; apply (wf_heap _ W)).
    unfold entries. induction (member_list h) as [|p l IH]; [exists []; split; [constructor|reflexivity]|].
    destruct (Hl p (list_elem_of_here _ _)) as [m Hm].
    destruct IH as (l' & F & Es); [intros q Hq; apply Hl; right; exact Hq|].
    exists (m :: l'). split; [constructor; assumption|]. rewrite (ents_cons _ _ _ m Hm), <- Es. reflexivity. }
  exists l. split; [apply mapM_Some_2, F|exact E].
Qed.

Lemma head_spec h : wf h ->
  match head (member_list h) with
  | Some p => exists m, heap h !! p = Some m /\ head (entries h) = Some (member_entry m)
  | None => entries h = []
  end.
Proof.
  intros W. pose proof (wf_heap _ W) as Hh. unfold entries.
  destruct (member_list h) as [|p l]; [reflexivity|].
  destruct (proj1 (Hh p) (list_elem_of_here _ _)) as [m Hm]. exists m. split; [exact Hm|].
  rewrite (ents_cons _ _ _ m Hm). reflexivity.
Qed.

Lemma last_spec h : wf h ->
  match last (member_list h) with
  | Some p => exists m, heap h !! p = Some m /\ last (entries h) = Some (member_entry m)
  | None => entries h = []
  end.
Proof.
  intros W. pose proof (wf_heap _ W) as Hh. unfold entries.
  destruct (member_list h) as [|p l _] using rev_ind; [reflexivity|]. rewrite last_snoc.
  destruct (proj1 (Hh p)) as [m Hm]; [apply elem_of_app; right; apply list_elem_of_singleton; reflexivity|].
  exists m. split; [exact Hm|]. rewrite ents_app, (ents_cons _ _ [] m Hm). apply last_snoc.
Qed.

Lemma size_spec h : wf h -> size h = length (entries h).
Proof.
  intros W. destruct (members_spec h W) as (l & E & <-). rewrite length_map.
  exact (length_mapM _ _ _ E).
Qed.

(** ** Operations on whole hashes *)

(** What an assignment of each of the members gives. After an exception the keys of
    the other members are still created in a hash with a type, but not assigned. *)
Definition dict_assign_failed (h : qore_hash_private) (k : string) (v : value) (d : dict) : dict :=
  if typed h then dict_create k d else (dict_assign h k v d).2.
Fixpoint dict_merge (h : qore_hash_private) (d d0 : dict) (err : option hash_error)
  : option hash_error * dict :=
  match d0 with
  | [] => (err, d)
  | (k, v) :: d0 =>
    match err with
    | None => dict_merge h (dict_assign h k v d).2 d0 (dict_assign h k v d).1
    | Some e => dict_merge h (dict_assign_failed h k v d) d0 (Some e)
    end
  end.

Lemma dict_assign_same h h' k v d : same_type h h' -> dict_assign h' k v d = dict_assign h k v d.
Proof. intros T. unfold dict_assign. rewrite (accept_same h h' k v T). reflexivity. Qed.

Lemma typed_same h h' : same_type h h' -> typed h' = typed h.
Proof. intros (A & B & _). unfold typed. rewrite A, B. reflexivity. Qed.

Lemma dict_merge_same h h' d d0 err : same_type h h' -> dict_merge h' d d0 err = dict_merge h d d0 err.
Proof.
  intros T. revert d err. induction d0 as [|[k v] d0 IH]; intros d err; simpl; [reflexivity|].
  unfold dict_assign_failed. rewrite (dict_assign_same h h' k v d T), (typed_same h h' T).
  destruct err; apply IH.
Qed.

Lemma setKeyValue_failed_spec h k v :
  wf h -> exists h', setKeyValue_failed h k v = Some h' /\ wf h' /\ same_type h h' /\
    entries h' = dict_assign_failed h k v (entries h).
Proof.
  intros W. unfold setKeyValue_failed, dict_assign_failed. destruct (typed h).
  - pose proof (findCreate_spec h k W) as F. destruct (findCreateMember h k) as [om h1].
    destruct F as (W1 & T1 & E1 & _). exists h1. auto.
  - destruct (setKeyValue_spec h k v W) as (h1 & -> & W1 & T1 & E1). exists h1. auto.
Qed.

Lemma merge_members_spec h l err :
  wf h -> exists h', merge_members h l err =
      Some (fst (dict_merge h (entries h) (map member_entry l) err), h') /\
    wf h' /\ same_type h h' /\ entries h' = snd (dict_merge h (entries h) (map member_entry l) err).
Proof.
  revert h err. induction l as [|m l IH]; intros h err W; simpl.
  { exists h. split; [reflexivity|]. split; [exact W|]. split; reflexivity. }
  assert (forall h1 e, wf h1 -> same_type h h1 -> exists h', merge_members h1 l e =
      Some (fst (dict_merge h (entries h1) (map member_entry l) e), h') /\
    wf h' /\ same_type h h' /\ entries h' = snd (dict_merge h (entries h1) (map member_entry l) e)) as N.
  { intros h1 e W1 T1. destruct (IH h1 e W1) as (h2 & E & W2 & T2 & E2).
    rewrite (dict_merge_same h h1) in * by exact T1. exists h2. split; [exact E|].
    split; [exact W2|]. split; [etransitivity; eassumption|exact E2]. }
  destruct err as [e|].
  - destruct (setKeyValue_failed_spec h (key m) (val m) W) as (h1 & -> & W1 & T1 & E1). simpl.
    rewrite <- E1. apply N; assumption.
  - destruct (setKeyValue_spec h (key m) (val m) W) as (h1 & -> & W1 & T1 & E1). simpl.
    rewrite <- E1. apply N; assumption.
Qed.

Lemma merge_spec h h0 :
  wf h -> wf h0 -> exists h', merge h h0 = Some (fst (dict_merge h (entries h) (entries h0) None), h') /\
    wf h' /\ same_type h h' /\ entries h' = snd (dict_merge h (entries h) (entries h0) None).
Proof.
  intros W W0. unfold merge. destruct (members_spec h0 W0) as (l & -> & <-). simpl.
  apply merge_members_spec, W.
Qed.

(** *** Copies *)

Lemma dict_get_snoc_None k k' v (d : dict) : dict_get k (d ++ [(k', v)]) = None <-> dict_get k d = None /\ k' <> k.
Proof.
  rewrite dict_get_app. destruct (dict_get k d); simpl; [split; [discriminate|intros [[=] _]]|].
  destruct (decide (k' = k)); split; try discriminate; try tauto. 
Qed.

Lemma copy_members_spec rv l :
  wf rv -> NoDup (entries rv ++ map member_entry l).*1 ->
  exists h', copy_members rv l = Some h' /\ wf h' /\ same_type rv h' /\ entries h' = entries rv ++ map member_entry l.
Proof.
  revert rv. induction l as [|m l IH]; intros rv W D; simpl.
  { exists rv. rewrite app_nil_r. split; [reflexivity|]. split; [exact W|]. split; reflexivity. }
  destruct (setKeyValueIntern_spec rv (key m) (val m) W) as (h1 & -> & W1 & T1 & E1). simpl.
  assert (dict_get (key m) (entries rv) = None) as N.
  { apply dict_get_None. rewrite fmap_app in D. apply NoDup_app in D as (_ & D & _).
    intros Hk. apply (D (key m) Hk). simpl. left. }
  rewrite (dict_set_new _ _ _ N) in E1.
  destruct (IH h1 W1) as (h2 & E & W2 & T2 & E2).
  { rewrite E1, <- app_assoc. exact D. }
  exists h2. split; [exact E|]. split; [exact W2|]. split; [etransitivity; eassumption|].
  rewrite E2, E1, <- app_assoc. reflexivity.
Qed.

Lemma wf_set_type h hd ct : wf h -> wf (set_type h hd ct).
Proof. intros W. split; apply W. Qed.

Lemma copyIntern_spec h rv :
  wf h -> wf rv -> entries rv = [] -> exists h', copyIntern h rv = Some h' /\ wf h' /\ same_type rv h' /\
    entries h' = entries h.
Proof.
  intros W Wr Er. unfold copyIntern. destruct (members_spec h W) as (l & -> & El). simpl.
  destruct (copy_members_spec rv l Wr) as (h' & E & W' & T & E').
  { rewrite Er, El. apply entries_NoDup, W. }
  exists h'. rewrite Er, El in E'. auto.
Qed.

Definition map_values (f : value -> value) (d : dict) : dict := map (λ e, (e.1, f e.2)) d.

Lemma map_values_keys f d : (map_values f d).*1 = d.*1.
Proof.
  induction d as [|e d IH]; [reflexivity|].
  change (e.1 :: (map_values f d).*1 = e.1 :: d.*1). rewrite IH. reflexivity.
Qed.

Lemma copy_spec h strip :
  wf h -> exists h', copy h strip = Some h' /\ wf h' /\ valid h' = true /\
    (if strip && typed h
     then entries h' = map_values copy_strip_complex_types (entries h) /\
          hashdecl h' = None /\ complexTypeInfo h' = None
     else entries h' = entries h /\ hashdecl h' = hashdecl h /\ complexTypeInfo h' = complexTypeInfo h).
Proof.
  intros W. unfold copy. destruct (strip && typed h) eqn:S.
  - apply andb_true_iff in S as [-> ->]. simpl. destruct (members_spec h W) as (l & -> & El). simpl.
    set (l' := map _ l).
    assert (map member_entry l' = map_values copy_strip_complex_types (entries h)) as El'.
    { rewrite <- El. unfold l', map_values. rewrite !map_map. reflexivity. }
    destruct (copy_members_spec new_hash l' wf_new) as (h' & E & W' & (T1 & T2 & T3) & E').
    { rewrite El'. change (NoDup (map_values copy_strip_complex_types (entries h)).*1).
      rewrite map_values_keys. apply entries_NoDup, W. }
    exists h'. split; [exact E|]. split; [exact W'|]. split; [exact T3|]. rewrite E', El'. auto.
  - assert (negb strip || negb (typed h) = true) as -> by (destruct strip, (typed h); auto).
    destruct (copyIntern_spec h (getCopy h) W) as (h' & E & W' & (T1 & T2 & T3) & E').
    { apply wf_set_type, wf_new. }
    { reflexivity. }
    exists h'. split; [exact E|]. split; [exact W'|]. split; [exact T3|]. split; [exact E'|].
    split; [exact T1|exact T2].
Qed.

(** [getSlice]: the keys that exist, with their values, in the order of the
    list of keys. *)
Fixpoint dict_slice (h : qore_hash_private) (d rv : dict) (keys : list string) : hash_error + dict :=
  match keys with
  | [] => inr rv
  | k :: keys =>
    match checkKey h k, dict_get k d with
    | Some e, _ => inl e
    | None, None => dict_slice h d rv keys
    | None, Some v =>
      match dict_assign h k v rv with
      | (Some e, _) => inl e
      | (None, rv) => dict_slice h d rv keys
      end
    end
  end.

Lemma slice_keys_spec h rv keys :
  wf h -> wf rv -> same_type (getCopy h) rv ->
  match dict_slice h (entries h) (entries rv) keys with
  | inl e => slice_keys h rv keys = Some (inl e)
  | inr d => exists h', slice_keys h rv keys = Some (inr h') /\ wf h' /\ same_type (getCopy h) h' /\ entries h' = d
  end.
Proof.
  intros W. revert rv. induction keys as [|k keys IH]; intros rv Wr T; simpl; [eauto|].
  unfold getKeyValueExistence. destruct (checkKey h k) as [e|]; [reflexivity|].
  rewrite (existing_spec h k W). simpl. destruct (dict_get k (entries h)) as [v|]; [|apply IH; assumption].
  destruct (setKeyValue_spec rv k v Wr) as (r & -> & W' & T' & E'). simpl.
  assert (dict_assign rv k v (entries rv) = dict_assign h k v (entries rv)) as A.
  { unfold dict_assign. replace (accept rv k v) with (accept h k v); [reflexivity|].
    symmetry. exact (accept_same (getCopy h) rv k v T). }
  rewrite A in *. destruct (dict_assign h k v (entries rv)) as [[e|] d]; [reflexivity|]. simpl in *.
  rewrite <- E'. apply IH; [exact W'|]. etransitivity; eassumption.
Qed.

(** ** Comparison *)

(** The members of a hash are found in another one, with equal values. *)
Lemma compare_members_spec eq l h :
  wf h -> compare_members eq l h =
    Some (negb (forallb (λ e, match dict_get e.1 (entries h) with Some v => eq e.2 v | None => false end)
                  (map member_entry l))).
Proof.
  intros W. induction l as [|m l IH]; simpl; [reflexivity|]. pose proof (wf_get h (key m) W) as G.
  destruct (hm h !! key m) as [p|].
  - destruct G as (m' & Hm & _ & _ & G). rewrite G, Hm. simpl. destruct (eq (val m) (val m')); [exact IH|reflexivity].
  - rewrite G. reflexivity.
Qed.

Definition same_values (eq : value -> value -> bool) (d d' : dict) : Prop := forall k,
  match dict_get k d, dict_get k d' with
  | Some v, Some v' => eq v v' = true
  | None, None => True
  | _, _ => False
  end.

Lemma dict_get_In d k v : NoDup d.*1 -> dict_get k d = Some v <-> In (k, v) d.
Proof.
  induction d as [|[k' v'] d IH]; simpl; [split; [discriminate|tauto]|].
  intros [Hn Hd]%NoDup_cons. destruct (decide (k' = k)) as [->|N].
  - split; [intros [= ->]; auto|]. intros [E|Hin]; [congruence|]. destruct Hn.
    apply list_elem_of_fmap. exists (k, v). split; [reflexivity|]. apply list_elem_of_In, Hin.
  - rewrite (IH Hd). split; [auto|]. intros [E|Hin]; [congruence|exact Hin].
Qed.

(** A dictionary whose keys are all in another one of the same length has the
    same keys. *)
Lemma same_length_keys (d d' : dict) :
  NoDup d.*1 -> NoDup d'.*1 -> length d = length d' -> (forall k, is_Some (dict_get k d) -> is_Some (dict_get k d')) ->
  forall k, is_Some (dict_get k d') -> is_Some (dict_get k d).
Proof.
  intros D D' L S k Hk.
  assert (d.*1 ⊆ d'.*1) as Hs.
  { intros x Hx. apply dec_stable. rewrite <- dict_get_None. intros E.
    destruct (S x) as [v Hv]; [|congruence]. destruct (dict_get x d) eqn:G; [eauto|].
    apply dict_get_None in G. destruct (G Hx). }
  assert (d.*1 ≡ₚ d'.*1) as P.
  { apply submseteq_length_Permutation; [apply NoDup_submseteq; assumption|]. rewrite !length_fmap. lia. }
  destruct (dict_get k d) eqn:G; [eauto|]. apply dict_get_None in G. rewrite P in G.
  apply dict_get_None in G. rewrite G in Hk. destruct Hk as [? [=]].
Qed.

Lemma compare_spec eq h0 h :
  wf h0 -> wf h -> exists b, compare eq h0 h = Some b /\ (b = false <-> same_values eq (entries h0) (entries h)).
Proof.
  intros W0 W. unfold compare. rewrite (size_spec h W), (size_spec h0 W0).
  pose proof (entries_NoDup h0 W0) as D0. pose proof (entries_NoDup h W) as D.
  case_bool_decide as L.
  - destruct (members_spec h0 W0) as (l & -> & El). simpl. rewrite (compare_members_spec eq l h W), El.
    eexists. split; [reflexivity|]. rewrite negb_false_iff, forallb_forall. split.
    + intros F. assert (forall k v, dict_get k (entries h0) = Some v ->
        exists v', dict_get k (entries h) = Some v' /\ eq v v' = true) as F'.
      { intros k v Hv. apply (dict_get_In _ _ _ D0) in Hv. specialize (F _ Hv). simpl in F.
        destruct (dict_get k (entries h)) as [v'|]; [eauto|discriminate]. }
      assert (forall k, is_Some (dict_get k (entries h)) -> is_Some (dict_get k (entries h0))) as R.
      { apply same_length_keys; [assumption..|congruence|]. intros k [v Hv].
        destruct (F' k v Hv) as (v' & -> & _). eauto. }
      intros k. destruct (dict_get k (entries h0)) as [v|] eqn:E.
      * destruct (F' k v E) as (v' & -> & Hv). exact Hv.
      * destruct (dict_get k (entries h)) eqn:E'; [|exact I]. destruct (R k) as [? Hv]; [eauto|congruence].
    + intros Sv [k v] Hin. simpl. apply (dict_get_In _ _ _ D0) in Hin. specialize (Sv k). rewrite Hin in Sv.
      destruct (dict_get k (entries h)); [exact Sv|contradiction].
  - exists true. split; [reflexivity|]. split; [discriminate|]. intros Sv. destruct L.
    assert (forall a b : dict, NoDup a.*1 -> NoDup b.*1 ->
      (forall k, is_Some (dict_get k a) -> is_Some (dict_get k b)) -> (length a <= length b)%nat) as K.
    { intros a b Da Db Hab. rewrite <- (length_fmap fst a), <- (length_fmap fst b).
      apply submseteq_length, NoDup_submseteq; [exact Da|]. intros x Hx. apply dec_stable.
      rewrite <- dict_get_None. intros E. destruct (Hab x) as [? Hv]; [|congruence].
      destruct (dict_get x a) eqn:G; [eauto|]. apply dict_get_None in G. destruct (G Hx). }
    apply Nat.le_antisymm; apply K; try assumption; intros k [v Hv]; specialize (Sv k); rewrite Hv in Sv;
      destruct (dict_get k _); try contradiction; eauto.
Qed.

(** ** Iteration *)

Lemma list_next_middle l1 p l2 : p ∉ l1 -> list_next (l1 ++ p :: l2) p = Some (head l2).
Proof.
  induction l1 as [|q l1 IH]; intros N; simpl; [rewrite decide_True by reflexivity; reflexivity|].
  apply not_elem_of_cons in N as [Nq N]. rewrite decide_False by congruence. exact (IH N).
Qed.

Lemma list_prev_middle l1 p l2 before :
  p ∉ l1 -> list_prev before (l1 ++ p :: l2) p = Some (match last l1 with Some q => Some q | None => before end).
Proof.
  revert before. induction l1 as [|q l1 IH]; intros before N; simpl; [rewrite decide_True by reflexivity; reflexivity|].
  apply not_elem_of_cons in N as [Nq N]. rewrite decide_False by congruence. rewrite (IH _ N).
  destruct l1 as [|r l1]; [reflexivity|]. simpl. destruct (last (r :: l1)) eqn:E; [reflexivity|].
  apply last_None in E. discriminate.
Qed.

(** The iterator stands behind the elements [l1]. *)
Lemma qhi_next_spec l1 l2 : NoDup (l1 ++ l2) -> qhi_next (l1 ++ l2) (last l1) = Some (head l2).
Proof.
  intros D. destruct l1 as [|p l1 _] using rev_ind; [reflexivity|]. rewrite last_snoc. simpl.
  rewrite <- app_assoc. apply list_next_middle. intros Hin.
  apply NoDup_app in D as (D & _ & _). apply NoDup_app in D as (_ & D & _).
  apply (D p Hin). apply list_elem_of_singleton. reflexivity.
Qed.

Lemma filter_out (l1 : list positive) p l2 :
  NoDup (l1 ++ p :: l2) -> filter (λ q, q <> p) (l1 ++ p :: l2) = l1 ++ l2.
Proof.
  intros (D1 & D2 & D3)%NoDup_app. apply NoDup_cons in D3 as [D3 _]. rewrite filter_app, filter_cons.
  rewrite decide_False by tauto. rewrite !filter_id; [reflexivity|..]; apply Forall_forall; intros q Hq ->.
  - exact (D3 Hq).
  - apply (D2 p Hq). left.
Qed.

Lemma iter_remove_spec h l1 p l2 m :
  wf h -> member_list h = l1 ++ p :: l2 -> heap h !! p = Some m ->
  exists h', iter_remove h (Some p) = Some (val m, last l1, h') /\ wf h' /\ same_type h h' /\
    member_list h' = l1 ++ l2 /\ entries h' = dict_remove (key m) (entries h) /\
    (forall q, q <> p -> heap h' !! q = heap h !! q).
Proof.
  intros W L Hm. pose proof (wf_list _ W) as D. rewrite L in D.
  assert (hm h !! key m = Some p) as Hk by (apply (wf_map _ W); eauto).
  unfold iter_remove. rewrite Hm. cbn [mbind option_bind].
  assert (p ∉ l1) as Np.
  { apply NoDup_app in D as (_ & D & _). intros Hin. apply (D p Hin). left. }
  assert (qhi_prev (member_list h) (Some p) = Some (last l1)) as Hp.
  { rewrite L. simpl. rewrite (list_prev_middle _ _ _ _ Np). destruct (last l1); reflexivity. }
  pose proof (remove_member_spec h (key m) p m W Hk Hm) as (W' & T & E).
  destruct (needs_scan (val m)); cbn [member_list heap hm incScanCount set_obj_count]; rewrite Hp;
    cbn [mbind option_bind]; rewrite Hk; eexists; (split; [reflexivity|]); (split; [exact W'|]);
    (split; [exact T|]); (split; [simpl; rewrite L; apply filter_out, D|]); (split; [exact E|]);
    intros q Nq; apply lookup_delete_ne; congruence.
Qed.

Lemma delete_loop_spec fuel del l2 : forall h l1,
  wf h -> member_list h = l1 ++ l2 -> (length l2 < fuel)%nat ->
  exists seen h', delete_loop fuel del h (last l1) = Some (seen, h') /\ wf h' /\ same_type h h' /\
    map member_entry seen = ents (heap h) l2 /\
    entries h' = ents (heap h) l1 ++ filter (λ e, del e.1 e.2 = false) (ents (heap h) l2).
Proof.
  revert fuel. induction l2 as [|p l2 IH]; intros fuel h l1 W L F; (destruct fuel as [|fuel]; [simpl in F; lia|]);
    pose proof (wf_list _ W) as D; rewrite L in D; simpl; rewrite L, (qhi_next_spec _ _ D); simpl.
  { exists [], h. split; [reflexivity|]. split; [exact W|]. split; [reflexivity|]. split; [reflexivity|].
    unfold entries. rewrite L. rewrite ents_app. reflexivity. }
  assert (is_Some (heap h !! p)) as [m Hm].
  { apply (wf_heap _ W). rewrite L. apply elem_of_app. right. left. }
  rewrite Hm. simpl in F |- *. rewrite (ents_cons _ _ _ m Hm), filter_cons. simpl.
  assert (p ∉ l1 ++ l2) as Np.
  { rewrite <- (filter_out l1 p l2 D), list_elem_of_filter. tauto. }
  destruct (del (key m) (val m)) eqn:Ed.
  - destruct (iter_remove_spec h l1 p l2 m W L Hm) as (h1 & E1 & W1 & T1 & L1 & _ & H1).
    rewrite E1. simpl.
    destruct (IH fuel h1 l1 W1 L1 ltac:(lia)) as (seen & h2 & -> & W2 & T2 & S2 & E2).
    exists (m :: seen), h2. split; [reflexivity|]. split; [exact W2|]. split; [etransitivity; eassumption|].
    assert (forall l, (forall q, q ∈ l -> q ∈ l1 ++ l2) -> ents (heap h1) l = ents (heap h) l) as Ex.
    { intros l Hl. apply ents_ext. intros q Hq. apply H1. intros ->. exact (Np (Hl p Hq)). }
    rewrite (Ex l2) in S2, E2 by (intros q Hq; apply elem_of_app; auto).
    rewrite (Ex l1) in E2 by (intros q Hq; apply elem_of_app; auto).
    split; [simpl; rewrite S2; reflexivity|exact E2].
  - assert (member_list h = (l1 ++ [p]) ++ l2) as L' by (rewrite <- app_assoc; exact L).
    destruct (IH fuel h (l1 ++ [p]) W L' ltac:(lia)) as (seen & h2 & E & W2 & T2 & S2 & E2).
    rewrite last_snoc in E. simpl. rewrite E. exists (m :: seen), h2.
    split; [reflexivity|]. split; [exact W2|]. split; [exact T2|]. split; [simpl; rewrite S2; reflexivity|].
    rewrite E2, ents_app, <- app_assoc, (ents_cons _ _ [] m Hm). reflexivity.
Qed.

(** ** Sequences of operations *)

Inductive hash_op :=
  | GetKeyValue (k : string) | GetKeyValueExistence (k : string) | ExistsKey (k : string)
  | ExistsKeyValue (k : string) | SetKeyValue (k : string) (v : value) | GetValueRef (k : string)
  | SwapKeyValue (k : string) (v : value) | SwapKeyValueIfExists (k : string) (v : value)
  | TakeKeyValue (k : string) | DeleteKey (k : string) | Merge (h0 : qore_hash_private)
  | GetKeys | GetValues | GetFirstKey | GetLastKey | Size | Clear.

Inductive hash_result :=
  | RValue (v : value) | RExistence (v : value) (exists_ : bool) | RFlag (b : bool)
  | RError (e : option hash_error) | RDeleted (v : option value) | RKeys (l : list string)
  | RValues (l : list value) | RKey (k : option string) | RSize (n : nat) | RDone.

Definition exec_op (h : qore_hash_private) (op : hash_op) : option (hash_result * qore_hash_private) :=
  match op with
  | GetKeyValue k => v ← getKeyValueIntern h k; Some (RValue v, h)
  | GetKeyValueExistence k =>
    r ← getKeyValueExistence h k;
    Some (match r with inl e => RError (Some e) | inr (v, b) => RExistence v b end, h)
  | ExistsKey k => Some (RFlag (existsKey h k), h)
  | ExistsKeyValue k => b ← existsKeyValue h k; Some (RFlag b, h)
  | SetKeyValue k v => '(e, h) ← setKeyValue h k v; Some (RError e, h)
  | GetValueRef k => let '(om, h) := getValueRef h k in m ← heap h !! om; Some (RValue (val m), h)
  | SwapKeyValue k v => '(old, h) ← swapKeyValue h k v; Some (RValue old, h)
  | SwapKeyValueIfExists k v => '(old, b, h) ← swapKeyValueIfExists h k v; Some (RExistence old b, h)
  | TakeKeyValue k => '(v, b, h) ← takeKeyValueIntern h k; Some (RExistence v b, h)
  | DeleteKey k => '(v, h) ← deleteKey h k; Some (RDeleted v, h)
  | Merge h0 => '(e, h) ← merge h h0; Some (RError e, h)
  | GetKeys => l ← getKeys h; Some (RKeys l, h)
  | GetValues => l ← getValues h; Some (RValues l, h)
  | GetFirstKey => k ← getFirstKey h; Some (RKey k, h)
  | GetLastKey => k ← getLastKey h; Some (RKey k, h)
  | Size => Some (RSize (size h), h)
  | Clear => Some (RDone, clear h)
  end.

(** The same operation on a dictionary; [h] gives the type. *)
Definition dict_op (h : qore_hash_private) (d : dict) (op : hash_op) : hash_result * dict :=
  let found k := match dict_get k d with Some v => RExistence v true | None => RExistence nothing false end in
  match op with
  | GetKeyValue k => (RValue (default nothing (dict_get k d)), d)
  | GetKeyValueExistence k => (match checkKey h k with Some e => RError (Some e) | None => found k end, d)
  | ExistsKey k => (RFlag (bool_decide (k ∈ d.*1)), d)
  | ExistsKeyValue k => (RFlag (match dict_get k d with Some v => negb (isNothing v) | None => false end), d)
  | SetKeyValue k v => (RError (dict_assign h k v d).1, (dict_assign h k v d).2)
  | GetValueRef k => (RValue (default nothing (dict_get k d)), dict_create k d)
  | SwapKeyValue k v => (RValue (default nothing (dict_get k d)), dict_set k v d)
  | SwapKeyValueIfExists k v =>
    (found k, match dict_get k d with Some _ => dict_set k v d | None => d end)
  | TakeKeyValue k => (found k, dict_remove k d)
  | DeleteKey k => (RDeleted (dict_get k d), dict_remove k d)
  | Merge h0 => (RError (dict_merge h d (entries h0) None).1, (dict_merge h d (entries h0) None).2)
  | GetKeys => (RKeys d.*1, d)
  | GetValues => (RValues d.*2, d)
  | GetFirstKey => (RKey (fst <$> head d), d)
  | GetLastKey => (RKey (fst <$> last d), d)
  | Size => (RSize (length d), d)
  | Clear => (RDone, [])
  end.

Definition op_ok (op : hash_op) : Prop := match op with Merge h0 => wf h0 | _ => True end.

Definition same_types (h h' : qore_hash_private) : Prop :=
  hashdecl h' = hashdecl h /\ complexTypeInfo h' = complexTypeInfo h.

Lemma same_type_types h h' : same_type h h' -> same_types h h'.
Proof. intros (A & B & _). split; assumption. Qed.

(** The result of an operation whose specification has the form of the lemmas
    above. *)
Ltac op_result lem :=
  let E := fresh in destruct lem as (?h' & E & ?W' & ?T' & ?E'); simpl; rewrite E; simpl;
  eexists; split; [reflexivity|]; split; [assumption|]; split; [|apply same_type_types; assumption].

Lemma swapIfExists_spec h k v :
  wf h -> exists h', swapKeyValueIfExists h k v =
      Some (match dict_get k (entries h) with Some o => (o, true) | None => (nothing, false) end, h') /\
    wf h' /\ same_type h h' /\
    entries h' = match dict_get k (entries h) with Some _ => dict_set k v (entries h) | None => entries h end.
Proof.
  intros W. unfold swapKeyValueIfExists, hash_assignment, findMember. pose proof (wf_get h k W) as G.
  destruct (hm h !! k) as [p|].
  - destruct G as (m & Hm & <- & _ & G). rewrite G.
    destruct (swapImpl_spec h p m v W Hm) as (h' & -> & W' & T & E & _). exists h'. simpl. auto.
  - rewrite G. exists h. split; [reflexivity|]. split; [exact W|]. split; reflexivity.
Qed.

Lemma wf_clear h : wf (clear h).
Proof.
  split; simpl; [constructor| | |reflexivity].
  - intros p. rewrite lookup_empty. split; [intros Hp; inversion Hp|intros [? [=]]].
  - intros k p. rewrite lookup_empty. split; [discriminate|]. intros (m & E & _). rewrite lookup_empty in E. discriminate.
Qed.

Lemma exec_op_spec h op :
  wf h -> op_ok op -> exists h', exec_op h op = Some (fst (dict_op h (entries h) op), h') /\ wf h' /\
    entries h' = snd (dict_op h (entries h) op) /\ same_types h h'.
Proof.
  intros W Hop.
  assert (forall r, exec_op h op = Some (r, h) -> dict_op h (entries h) op = (r, entries h) ->
    exists h', exec_op h op = Some (fst (dict_op h (entries h) op), h') /\ wf h' /\
      entries h' = snd (dict_op h (entries h) op) /\ same_types h h') as R.
  { intros r E1 E2. exists h. rewrite E1, E2. split; [reflexivity|]. split; [exact W|]. split; [reflexivity|split; reflexivity]. }
  destruct op as [k|k|k|k|k v|k|k v|k v|k|k|h0| | | | | |].
  - eapply R; simpl; [rewrite (getKeyValueIntern_spec h k W)|]; reflexivity.
  - eapply R; simpl; [|reflexivity]. unfold getKeyValueExistence. destruct (checkKey h k); [reflexivity|].
    rewrite (existing_spec h k W). simpl. destruct (dict_get k (entries h)); reflexivity.
  - eapply R; simpl; [rewrite (existsKey_spec h k W)|]; reflexivity.
  - eapply R; simpl; [|reflexivity]. unfold existsKeyValue. rewrite (existing_spec h k W). simpl.
    destruct (dict_get k (entries h)); reflexivity.
  - op_result (setKeyValue_spec h k v W). assumption.
  - pose proof (findCreate_spec h k W) as F. simpl. unfold getValueRef.
    destruct (findCreateMember h k) as [om h1]. destruct F as (W1 & T1 & E1 & m & Hm & _ & Hv).
    rewrite Hm. simpl. rewrite Hv. exists h1. split; [reflexivity|]. split; [exact W1|]. split; [exact E1|].
    apply same_type_types, T1.
  - op_result (swapKeyValue_spec h k v W). assumption.
  - destruct (swapIfExists_spec h k v W) as (h' & E & W' & T' & E'). simpl. rewrite E.
    destruct (dict_get k (entries h)); (eexists; split; [reflexivity|]; split; [exact W'|]; split;
      [exact E'|apply same_type_types, T']).
  - destruct (takeKeyValueIntern_spec h k W) as (h' & E & W' & T' & E'). simpl. rewrite E.
    destruct (dict_get k (entries h)); (eexists; split; [reflexivity|]; split; [exact W'|]; split;
      [exact E'|apply same_type_types, T']).
  - op_result (deleteKey_spec h k W). assumption.
  - op_result (merge_spec h h0 W Hop). assumption.
  - eapply R; simpl; [|reflexivity]. unfold getKeys. destruct (members_spec h W) as (l & -> & <-). simpl.
    rewrite <- list_fmap_compose. reflexivity.
  - eapply R; simpl; [|reflexivity]. unfold getValues. destruct (members_spec h W) as (l & -> & <-). simpl.
    rewrite <- list_fmap_compose. reflexivity.
  - eapply R; simpl; [|reflexivity]. unfold getFirstKey. pose proof (head_spec h W) as G.
    destruct (head (member_list h)); [destruct G as (m & -> & ->)|rewrite G]; reflexivity.
  - eapply R; simpl; [|reflexivity]. unfold getLastKey. pose proof (last_spec h W) as G.
    destruct (last (member_list h)); [destruct G as (m & -> & ->)|rewrite G]; reflexivity.
  - eapply R; simpl; [rewrite (size_spec h W)|]; reflexivity.
  - exists (clear h). split; [reflexivity|]. split; [apply wf_clear|]. split; [reflexivity|split; reflexivity].
Qed.

Fixpoint run_ops (h : qore_hash_private) (ops : list hash_op)
  : option (list hash_result * qore_hash_private) :=
  match ops with
  | [] => Some ([], h)
  | op :: ops => '(r, h) ← exec_op h op; '(rs, h) ← run_ops h ops; Some (r :: rs, h)
  end.

Fixpoint dict_ops (h : qore_hash_private) (d : dict) (ops : list hash_op) : list hash_result * dict :=
  match ops with
  | [] => ([], d)
  | op :: ops => ((dict_op h d op).1 :: (dict_ops h (dict_op h d op).2 ops).1, (dict_ops h (dict_op h d op).2 ops).2)
  end.

Lemma dict_op_types h h' d op : same_types h h' -> dict_op h' d op = dict_op h d op.
Proof.
  intros [A B].
  assert (forall k v d, dict_assign h' k v d = dict_assign h k v d) as E.
  { intros. unfold dict_assign, accept. rewrite A, B. reflexivity. }
  assert (forall d d0 err, dict_merge h' d d0 err = dict_merge h d d0 err) as M.
  { intros d0' d0. revert d0'. induction d0 as [|[k v] d0 IH]; intros d' err; simpl; [reflexivity|].
    unfold dict_assign_failed, typed. rewrite E, A, B. destruct err; apply IH. }
  destruct op; simpl; rewrite ?E, ?M; try reflexivity. unfold checkKey. rewrite A. reflexivity.
Qed.

Lemma hash_run_ops_spec h0 h ops :
  wf h -> Forall op_ok ops -> same_types h0 h ->
  exists h', run_ops h ops = Some ((dict_ops h0 (entries h) ops).1, h') /\ wf h' /\
    entries h' = (dict_ops h0 (entries h) ops).2.
Proof.
  intros W F. revert h W. induction F as [|op ops Hop F IH]; intros h W T; simpl.
  { exists h. auto. }
  destruct (exec_op_spec h op W Hop) as (h1 & -> & W1 & E1 & [T1 T2]). simpl.
  rewrite (dict_op_types h0 h) in * by exact T. destruct T as [Ta Tb].
  destruct (IH h1 W1) as (h2 & -> & W2 & E2); [split; congruence|].
  rewrite E1 in *. exists h2. simpl. auto.
Qed.

(** ** Typed hashes *)

(** Every value is accepted by the type, and converted. *)
Fixpoint accept_all (vti : option QoreTypeInfo) (d : dict) : option dict :=
  match d with
  | [] => Some []
  | (k, v) :: d => v' ← acceptInputKey vti k v; d' ← accept_all vti d; Some ((k, v') :: d')
  end.

Lemma check_members_spec vti l2 : forall h l1,
  wf h -> member_list h = l1 ++ l2 ->
  match accept_all vti (ents (heap h) l2) with
  | Some d => exists h', check_members vti h l2 = Some (Some h') /\ wf h' /\ same_type h h' /\
                entries h' = ents (heap h) l1 ++ d
  | None => check_members vti h l2 = Some None
  end.
Proof.
  induction l2 as [|p l2 IH]; intros h l1 W L.
  { exists h. split; [reflexivity|]. split; [exact W|]. split; [reflexivity|].
    unfold entries. rewrite L, ents_app. reflexivity. }
  pose proof (wf_list _ W) as D. rewrite L in D.
  assert (is_Some (heap h !! p)) as [m Hm].
  { apply (wf_heap _ W). rewrite L. apply elem_of_app. right. left. }
  rewrite (ents_cons _ _ _ m Hm). cbn [accept_all check_members]. rewrite Hm. cbn [mbind option_bind].
  destruct (swapImpl_spec h p m nothing W Hm) as (h1 & -> & W1 & T1 & _ & L1 & O1 & H1).
  cbn [mbind option_bind]. destruct (acceptInputKey vti (key m) (val m)) as [v'|]; [|reflexivity].
  destruct (swapImpl_spec h1 p _ v' W1 H1) as (h2 & E2 & W2 & T2 & _ & L2 & O2 & H2).
  rewrite E2. cbn [mbind option_bind].
  assert (forall l, p ∉ l -> ents (heap h2) l = ents (heap h) l) as Ex.
  { intros l Hl. apply ents_ext. intros q Hq. assert (q <> p) as N by (intros ->; exact (Hl Hq)).
    rewrite O2, O1 by exact N. reflexivity. }
  assert (p ∉ l1 ++ l2) as Np by (rewrite <- (filter_out l1 p l2 D), list_elem_of_filter; tauto).
  rewrite elem_of_app in Np.
  specialize (IH h2 (l1 ++ [p]) W2). rewrite <- app_assoc, L2, L1 in IH. specialize (IH L).
  rewrite (Ex l2), ents_app, (Ex l1), (ents_cons _ _ [] _ H2) in IH by tauto.
  destruct (accept_all vti (ents (heap h) l2)) as [d|]; [|exact IH].
  destruct IH as (h3 & E3 & W3 & T3 & R3). exists h3. split; [exact E3|]. split; [exact W3|].
  split; [transitivity h1; [exact T1|]; transitivity h2; assumption|].
  rewrite R3, <- app_assoc. reflexivity.
Qed.
End spec.


(** A hash that is made from another one with the type [hash<string, T>] has the keys of the other one
    in their order, each with the value that the type [T] accepts for it, and carries the type; when [T]
    does not accept one of the values, the result is the null pointer. *)
Theorem newComplexHash_typed {HL : HashLang} {HW : HashLaws} typeInfo (h : qore_hash_private) :
  wf h ->
  match accept_all (getReturnComplexHashOrNothing typeInfo) (entries h) with
  | Some d => exists h', newComplexHashFromHash typeInfo (Some h) = Some (Some h') /\ wf h' /\
                entries h' = d /\ complexTypeInfo h' = Some typeInfo
  | None => newComplexHashFromHash typeInfo (Some h) = Some None
  end.
Proof.
  intros W. pose proof (check_members_spec (getReturnComplexHashOrNothing typeInfo) (member_list h) h [] W eq_refl) as C.
  change (ents (heap h) (member_list h)) with (entries h) in C. unfold newComplexHashFromHash.
  destruct (accept_all _ _) as [d|]; [|rewrite C; reflexivity].
  destruct C as (h' & -> & W' & _ & E). eexists. split; [reflexivity|]. split; [apply wf_set_type, W'|].
  split; [exact E|reflexivity].
Qed.

(** Copies and slices. A copy has the members of the hash in their order and its type; a copy without
    type information has the values stripped of their types. A slice has the keys of the list that exist in
    the hash, in the order of the list, with their values, and stops at a key that is not a member of the
    declaration of the hash or whose value is not accepted. *)
Theorem hash_copy_slice {HL : HashLang} {HW : HashLaws} (h : qore_hash_private) strip keys :
  wf h ->
  (exists h', copy h strip = Some h' /\ wf h' /\ valid h' = true /\
    (if strip && typed h
     then entries h' = map_values copy_strip_complex_types (entries h) /\
          hashdecl h' = None /\ complexTypeInfo h' = None
     else entries h' = entries h /\ hashdecl h' = hashdecl h /\ complexTypeInfo h' = complexTypeInfo h)) /\
  match dict_slice h (entries h) [] keys with
  | inl e => getSlice h keys = Some (inl e)
  | inr d => exists h', getSlice h keys = Some (inr h') /\ wf h' /\ entries h' = d
  end.
Proof.
  intros W. split; [apply copy_spec, W|].
  pose proof (slice_keys_spec h (getCopy h) keys W (wf_set_type _ _ _ wf_new) ltac:(repeat split)) as S.
  change (entries (getCopy h)) with (@nil (string * value)) in S. unfold getSlice.
  destruct (dict_slice h (entries h) [] keys); [exact S|].
  destruct S as (h' & E & W' & _ & E'). exists h'. auto.
Qed.

(** A loop over a hash sees every member exactly once, in the order of the insertion, also when it
    deletes some of the members it sees: the hash that is left holds exactly the other members, in their
    order. The loop ends after as many steps as the hash has members, and the iterator never leaves the
    list. *)
Theorem hash_delete_loop {HL : HashLang} {HW : HashLaws} (h : qore_hash_private) del fuel :
  wf h -> (length (entries h) < fuel)%nat ->
  exists seen h', delete_loop fuel del h None = Some (seen, h') /\ wf h' /\
    map member_entry seen = entries h /\
    entries h' = filter (λ e, del e.1 e.2 = false) (entries h).
Proof.
  intros W F. destruct (delete_loop_spec fuel del (member_list h) h [] W eq_refl) as (seen & h' & E & W' & _ & S & R).
  { rewrite <- (size_spec h W) in F. exact F. }
  exists seen, h'. split; [exact E|]. split; [exact W'|]. split; [exact S|exact R].
Qed.

(** Comparing hashes does not depend on the order of the keys: [compareHard] and [compareSoft] say
    equal exactly when both hashes have the same keys and equal values for each of them. *)
Theorem hash_compare {HL : HashLang} {HW : HashLaws} (h0 h : qore_hash_private) :
  wf h0 -> wf h ->
  (exists b, compareHard h0 h = Some b /\ (b = false <-> same_values isEqualHard (entries h0) (entries h))) /\
  (exists b, compareSoft h0 h = Some b /\ (b = false <-> same_values isEqualSoft (entries h0) (entries h))).
Proof. intros W0 W. split; apply compare_spec; assumption. Qed.

(** ** A concrete instance *)

Module Mini.

(** Values are integers: 0 is no value, negative ones have references to
    objects. A declaration is its list of members, the type [true] accepts
    positive numbers only. *)
#[local] Instance mini_hash : HashLang := {|
  value := Z; TypedHashDecl := list string; QoreTypeInfo := bool;
  nothing := 0; isNothing v := v =? 0; getAsBigInt v := v; getAsBool v := negb (v =? 0);
  needs_scan v := v <? 0; isEqualSoft := Z.eqb; isEqualHard := Z.eqb; copy_strip_complex_types v := v;
  hashdecl_findMember hd k := if bool_decide (k ∈ hd) then Some false else None;
  runtimeAssignKey hd k v := if bool_decide (k ∈ hd) then Some v else None;
  getUniqueReturnComplexHash := Some; getReturnComplexHashOrNothing := Some;
  acceptInputKey t _ v := match t with Some true => if 0 <? v then Some v else None | _ => Some v end;
  hashdecl_equal := λ a b, bool_decide (a = b); QoreTypeInfo_eq := _; autoHashTypeInfo := false;
  is_any b := negb b; matchCommonType a b := if bool_decide (a = b) then Some a else None;
  qore_get_complex_hash_type t := default false t |}.

#[local] Instance mini_hash_laws : HashLaws.
Proof. split. reflexivity. Qed.

#[local] Open Scope string_scope.

Abbreviation set k v := (SetKeyValue (HL := mini_hash) k v).
Abbreviation swap k v := (SwapKeyValue (HL := mini_hash) k v).


(** The hash with the members a = 1, b = -2 and c = 3 *)
Definition abc (t : option bool) : qore_hash_private :=
  default new_hash (snd <$> run_ops (HL := mini_hash) (set_type (HL := mini_hash) new_hash None t)
                              [swap "a" 1; swap "b" (-2); swap "c" 3]).

Lemma abc_wf t : wf (abc t) /\ entries (abc t) = [("a", 1); ("b", -2); ("c", 3)].
Proof.
  unfold abc. destruct (hash_run_ops_spec (HL := mini_hash) (set_type (HL := mini_hash) new_hash None t) (set_type (HL := mini_hash) new_hash None t)
    [swap "a" 1; swap "b" (-2); swap "c" 3] (wf_set_type _ _ _ wf_new)) as (h & -> & W & E).
  { repeat constructor. }
  { split; reflexivity. }
  split; [exact W|exact E].
Qed.

Lemma hash_delete_loop_witness :
  exists seen h', delete_loop (HL := mini_hash) 4 (λ _ v, Z.ltb v 0) (abc None) None = Some (seen, h') /\ wf h' /\
    map member_entry seen = [("a", 1); ("b", -2); ("c", 3)] /\ entries h' = [("a", 1); ("c", 3)].
Proof.
  destruct (abc_wf None) as [W E].
  destruct (hash_delete_loop (HL := mini_hash) (abc None) (λ _ v, Z.ltb v 0) 4 W) as (seen & h' & R & W' & S & F).
  { rewrite E. simpl. lia. }
  exists seen, h'. rewrite E in S, F. split; [exact R|]. split; [exact W'|]. split; [exact S|exact F].
Defined.

Lemma hash_compare_witness :
  exists b, compareHard (abc None) (abc (Some true)) = Some b /\
    (b = false <-> same_values isEqualHard (entries (abc None)) (entries (abc (Some true)))).
Proof. apply (hash_compare (abc None) (abc (Some true))); apply abc_wf. Defined.

Lemma newComplexHash_typed_witness :
  newComplexHashFromHash (HL := mini_hash) true (Some (abc None)) = Some None.
Proof.
  pose proof (newComplexHash_typed (HL := mini_hash) true (abc None) (proj1 (abc_wf None))) as H.
  rewrite (proj2 (abc_wf None)) in H. exact H.
Defined.

Lemma hash_copy_slice_witness :
  exists h', getSlice (abc None) ["c"; "x"; "a"] = Some (inr h') /\ wf h' /\ entries h' = [("c", 3); ("a", 1)].
Proof.
  pose proof (proj2 (hash_copy_slice (abc None) false ["c"; "x"; "a"] (proj1 (abc_wf None)))) as H.
  exact H.
Defined.

(** ** What the code does beside its intention *)

(** An assignment that the type of the hash rejects leaves the key behind,
    without a value, and a key that is not in the declaration as well. *)
Example rejected_key_stays :
  (r ← run_ops (HL := mini_hash) (set_type (HL := mini_hash) new_hash None (Some true)) [set "a" (-1)]; Some (fst r, entries (snd r)))
    = Some ([RError (Some TYPE_ERROR)], [("a", 0)]) /\
  (r ← run_ops (HL := mini_hash) (set_type (HL := mini_hash) new_hash (Some ["x"]) None) [set "a" 1; GetKeys]; Some (fst r))
    = Some [RError (Some TYPE_ERROR); RKeys ["a"]].
Proof. split; vm_compute; reflexivity. Qed.

(** After [clear] a hash does not give out its members for writing, although
    keys can be assigned. *)
Example cleared_hash_invalid :
  fst (getLValue (clear (HL := mini_hash) new_hash) "a" false) = LValueError HASH_ERROR /\
  (r ← run_ops (HL := mini_hash) (clear new_hash) [set "a" 1]; Some (entries (snd r))) = Some [("a", 1)].
Proof. split; vm_compute; reflexivity. Qed.
End Mini.
