(* ===== verification/Queue.v ===== *)
(** * Thread queues

    [qore_queue_private] of include/qore/intern/QoreQueueIntern.h and
    lib/QoreQueue.cpp: a doubly linked list of values under one lock, with two
    condition variables. Every operation runs inside of the lock except while
    it waits; the steps of the threads are the parts of the operations between
    two waits. *)

From S2P Require Import Prelude ListNode.

#[local] Open Scope Z_scope.

Section Queue.
Context {V : Type} {vops : ValueOps V}.

(** [self]: the operations are called with the object of the queue. *)
Context (self : bool).

(** ** Data *)

Abbreviation ptr := positive.

Record QoreQueueNode := Node { node : V; prev : option ptr; next : option ptr }.

(** What an operation does outside of the queue: it signals a condition
    variable or changes the scan count of its object. *)
Inductive effect :=
  | ReadSignal | ReadBroadcast | WriteSignal | WriteBroadcast | IncScan | DecScan.

(** [heap] holds the nodes; [err] is [None] when the string is empty; [len] is
    [Queue_Deleted] after the destructor. *)
Record qore_queue_private := Queue {
  heap : gmap ptr QoreQueueNode; qhead : option ptr; qtail : option ptr;
  err : option string; len : Z; max : Z;
  read_waiting : Z; write_waiting : Z; scan_count : Z; effects : list effect }.

Definition Queue_Deleted : Z := -1.

(** [qore_queue_private(n_max)] *)
Definition new_queue (n_max : Z) : qore_queue_private :=
  Queue ∅ None None None 0 n_max 0 0 0 [].

Definition set_list (q : qore_queue_private) h hd tl (n : Z) : qore_queue_private :=
  Queue h hd tl (err q) n (max q) (read_waiting q) (write_waiting q) (scan_count q) (effects q).
Definition set_err (q : qore_queue_private) e : qore_queue_private :=
  Queue (heap q) (qhead q) (qtail q) e (len q) (max q) (read_waiting q) (write_waiting q)
    (scan_count q) (effects q).
Definition set_waiting (q : qore_queue_private) r w : qore_queue_private :=
  Queue (heap q) (qhead q) (qtail q) (err q) (len q) (max q) r w (scan_count q) (effects q).
Definition set_scan (q : qore_queue_private) n : qore_queue_private :=
  Queue (heap q) (qhead q) (qtail q) (err q) (len q) (max q) (read_waiting q) (write_waiting q)
    n (effects q).
Definition emit (q : qore_queue_private) (b : bool) (e : effect) : qore_queue_private :=
  if b then Queue (heap q) (qhead q) (qtail q) (err q) (len q) (max q) (read_waiting q)
              (write_waiting q) (scan_count q) (effects q ++ [e])
  else q.

(** ** The linked list

    [None] is an access through a null pointer or to a node that is not
    allocated. *)

(** [new QoreQueueNode] *)
Definition alloc (h : gmap ptr QoreQueueNode) : ptr := fresh (dom h).

Definition set_next (h : gmap ptr QoreQueueNode) (p : ptr) (n : option ptr)
    : option (gmap ptr QoreQueueNode) :=
  nd ← h !! p; Some (<[p := Node (node nd) (prev nd) n]> h).
Definition set_prev (h : gmap ptr QoreQueueNode) (p : ptr) (n : option ptr)
    : option (gmap ptr QoreQueueNode) :=
  nd ← h !! p; Some (<[p := Node (node nd) n (next nd)]> h).

Definition pushNode (q : qore_queue_private) (v : V) : option qore_queue_private :=
  let p := alloc (heap q) in
  match qhead q with
  | None => Some (set_list q (<[p := Node v None None]> (heap q)) (Some p) (Some p) (len q + 1))
  | Some h =>
    t ← qtail q;
    m ← set_next (<[p := Node v (Some t) None]> (heap q)) t (Some p);
    Some (set_list q m (Some h) (Some p) (len q + 1))
  end.

Definition pushIntern (q : qore_queue_private) (v : V) : option qore_queue_private :=
  q ← pushNode q v; Some (emit q (negb (read_waiting q =? 0)) ReadSignal).

Definition insertIntern (q : qore_queue_private) (v : V) : option qore_queue_private :=
  let p := alloc (heap q) in
  q ← match qhead q with
      | None => Some (set_list q (<[p := Node v None None]> (heap q)) (Some p) (Some p) (len q + 1))
      | Some h =>
        m ← set_prev (<[p := Node v None (Some h)]> (heap q)) h (Some p);
        Some (set_list q m (Some p) (qtail q) (len q + 1))
      end;
  Some (emit q (negb (read_waiting q =? 0)) ReadSignal).

(** [shift] takes the head, [pop] the tail. *)
Definition takeHead (q : qore_queue_private) : option (V * qore_queue_private) :=
  n ← qhead q;
  nd ← heap q !! n;
  m ← match next nd with
      | None => Some (set_list q (heap q) None None (len q - 1))
      | Some h => m ← set_prev (heap q) h None; Some (set_list q m (Some h) (qtail q) (len q - 1))
      end;
  let m := emit m (negb (write_waiting m =? 0)) WriteSignal in
  Some (node nd, set_list m (delete n (heap m)) (qhead m) (qtail m) (len m)).

Definition takeTail (q : qore_queue_private) : option (V * qore_queue_private) :=
  n ← qtail q;
  nd ← heap q !! n;
  m ← match prev nd with
      | None => Some (set_list q (heap q) None None (len q - 1))
      | Some t => m ← set_next (heap q) t None; Some (set_list q m (qhead q) (Some t) (len q - 1))
      end;
  let m := emit m (negb (write_waiting m =? 0)) WriteSignal in
  Some (node nd, set_list m (delete n (heap m)) (qhead m) (qtail m) (len m)).

(** The loop of [clearIntern]; the number of nodes is enough fuel. *)
Fixpoint delete_nodes (fuel : nat) (h : gmap ptr QoreQueueNode) (p : option ptr)
    : option (gmap ptr QoreQueueNode) :=
  match p with
  | None => Some h
  | Some p =>
    match fuel with
    | O => None
    | S fuel => nd ← h !! p; delete_nodes fuel (delete p h) (next nd)
    end
  end.

Definition clearIntern (q : qore_queue_private) : option qore_queue_private :=
  m ← delete_nodes (size (heap q)) (heap q) (qhead q);
  Some (set_scan (set_list q m None None (len q)) 0).

(** ** Waiting *)

(** [QW_TIMEOUT], [QW_ERROR], [QW_DEL] and 0; [WBlock] is a wait. *)
Inductive verdict := WReady | WTimeout | WError (e : string) | WDeleted | WBlock.

(** One turn of the loop of [waitReadIntern] up to the wait. *)
Definition read_check (q : qore_queue_private) (timeout_ms : Z) : verdict :=
  match qhead q with
  | None =>
    match err q with
    | Some e => WError e
    | None => if 0 <=? timeout_ms then WBlock else WTimeout
    end
  | Some _ => match err q with Some e => WError e | None => WReady end
  end.

Definition write_check (q : qore_queue_private) (timeout_ms : Z) : verdict :=
  if (0 <? max q) && (max q <=? len q) then
    match err q with
    | Some e => WError e
    | None => if 0 <=? timeout_ms then WBlock else WTimeout
    end
  else match err q with Some e => WError e | None => WReady end.

Inductive queue_op :=
  | OpPush (v : V) | OpInsert (v : V) | OpShift | OpPop.

Definition is_reader (op : queue_op) : bool :=
  match op with OpShift | OpPop => true | _ => false end.

Definition check (op : queue_op) : qore_queue_private -> Z -> verdict :=
  if is_reader op then read_check else write_check.

(** [++read_waiting], [--write_waiting] and so on. *)
Definition add_waiting (q : qore_queue_private) (op : queue_op) (d : Z) : qore_queue_private :=
  if is_reader op then set_waiting q (read_waiting q + d) (write_waiting q)
  else set_waiting q (read_waiting q) (write_waiting q + d).

(** ** Operations *)

Inductive queue_error := DELETED | CUSTOM (e : string).

Inductive outcome :=
  | Done | Got (v : V) | TimedOut | Raise (e : queue_error) | Ignored | Blocked
  | AssertFailed
  | Destroyed (reading writing : bool).

(** [checkWriteIntern(xsink, always_error)] *)
Definition checkWriteIntern (q : qore_queue_private) (always_error : bool) : option outcome :=
  if len q =? Queue_Deleted then Some (if always_error then Raise DELETED else Ignored)
  else match err q with Some e => Some (Raise (CUSTOM e)) | None => None end.

(** The scan count of a value that was added. *)
Definition count_scan (q : qore_queue_private) (v : V) : qore_queue_private :=
  if self && needs_scan v then
    let q := set_scan q (scan_count q + 1) in emit q (scan_count q =? 1) IncScan
  else q.

(** [if (self && needs_scan(n))] after the removal: [n] is the pointer to the
    node, which is converted to the value [true]; a Boolean needs no scan. *)
Definition uncount_scan (q : qore_queue_private) : qore_queue_private :=
  let needs_scan_n := false in
  if self && needs_scan_n then
    let q := set_scan q (scan_count q - 1) in emit q (scan_count q =? 0) DecScan
  else q.

(** What follows the wait. *)
Definition finish (q : qore_queue_private) (op : queue_op) : option (outcome * qore_queue_private) :=
  match op with
  | OpPush v => q ← pushIntern q v; Some (Done, count_scan q v)
  | OpInsert v => q ← insertIntern q v; Some (Done, count_scan q v)
  | OpShift => '(v, q) ← takeHead q; Some (Got v, uncount_scan q)
  | OpPop => '(v, q) ← takeTail q; Some (Got v, uncount_scan q)
  end.

(** From the head of the wait loop to the end of the operation or to a wait. *)
Definition attempt (q : qore_queue_private) (op : queue_op) (timeout_ms : Z)
    : option (outcome * qore_queue_private) :=
  match check op q timeout_ms with
  | WReady => finish q op
  | WTimeout => Some (TimedOut, q)
  | WError e => Some (Raise (CUSTOM e), q)
  | WDeleted => Some (Raise DELETED, q)
  | WBlock => Some (Blocked, add_waiting q op 1)
  end.

(** [push], [insert], [shift] and [pop] up to their first wait. *)
Definition start (q : qore_queue_private) (op : queue_op) (timeout_ms : Z)
    : option (outcome * qore_queue_private) :=
  match checkWriteIntern q (is_reader op) with
  | Some o => Some (o, q)
  | None => attempt q op timeout_ms
  end.

(** The return from a wait, with or without a timeout. *)
Definition wake (q : qore_queue_private) (op : queue_op) (timeout_ms : Z) (timed_out : bool)
    : option (outcome * qore_queue_private) :=
  let q := add_waiting q op (-1) in
  if timed_out then Some (TimedOut, q)
  else if len q =? Queue_Deleted then Some (Raise DELETED, q)
  else attempt q op timeout_ms.

Definition pushAndTakeRef (q : qore_queue_private) (v : V) : option (outcome * qore_queue_private) :=
  if (len q =? Queue_Deleted) || match err q with Some _ => true | None => false end
  then Some (Ignored, q)
  else q ← pushIntern q v; Some (Done, q).

(** [clear]: with waiting readers the queue must be empty. When this assertion fails,
    a program without assertions goes on as if the queue were empty. *)
Definition clear (q : qore_queue_private) : option (outcome * qore_queue_private) :=
  match checkWriteIntern q false with
  | Some o => Some (o, q)
  | None =>
    if negb (read_waiting q =? 0) then
      Some (match qhead q with None => Ignored | Some _ => AssertFailed end, q)
    else
      let dec_obj := negb (scan_count q =? 0) in
      q ← clearIntern q;
      let q := set_list q (heap q) (qhead q) (qtail q) 0 in
      let q := emit q (negb (write_waiting q =? 0)) WriteSignal in
      Some (Done, emit q dec_obj DecScan)
  end.

Definition setError (q : qore_queue_private) (n_err : string) : option (outcome * qore_queue_private) :=
  if len q =? Queue_Deleted then Some (Ignored, q)
  else
    let q := set_err q (if (n_err =? "")%string then None else Some n_err) in
    let dec_obj := negb (scan_count q =? 0) in
    q ← clearIntern q;
    let q := set_list q (heap q) (qhead q) (qtail q) 0 in
    let q := emit q (negb (read_waiting q =? 0)) ReadBroadcast in
    let q := emit q (negb (write_waiting q =? 0)) WriteBroadcast in
    Some (Done, emit q dec_obj DecScan).

Definition clearError (q : qore_queue_private) : option (outcome * qore_queue_private) :=
  if len q =? Queue_Deleted then Some (Ignored, q) else Some (Done, set_err q None).

(** [destructor(xsink)] *)
Definition destructor (q : qore_queue_private) : option (outcome * qore_queue_private) :=
  let reading := negb (read_waiting q =? 0) in
  let q := emit q reading ReadBroadcast in
  let writing := negb (write_waiting q =? 0) in
  let q := emit q writing WriteBroadcast in
  q ← clearIntern q;
  Some (Destroyed reading writing, set_list q (heap q) (qhead q) (qtail q) Queue_Deleted).

(** The values from a node on, for the copy constructor. *)
Fixpoint copy_nodes (fuel : nat) (h : gmap ptr QoreQueueNode) (p : option ptr)
    (q : qore_queue_private) : option qore_queue_private :=
  match p with
  | None => Some q
  | Some p =>
    match fuel with
    | O => None
    | S fuel => nd ← h !! p; q ← pushIntern q (node nd); copy_nodes fuel h (next nd) q
    end
  end.

Definition copy_queue (orig : qore_queue_private) : option qore_queue_private :=
  let q := set_err (new_queue (max orig)) (err orig) in
  if len orig =? Queue_Deleted then Some q
  else copy_nodes (size (heap orig)) (heap orig) (qhead orig) q.

(** ** Threads

    The threads that wait, with their operation and timeout. *)
Record queue_state := State {
  queue : qore_queue_private; waiting : gmap nat (queue_op * Z) }.

Inductive action :=
  | Start (tid : nat) (op : queue_op) (timeout_ms : Z)
  | Wake (tid : nat) (timed_out : bool)
  | PushAndTakeRef (v : V) | Clear | SetError (e : string) | ClearError | Destroy.

Definition is_blocked (o : outcome) : bool := match o with Blocked => true | _ => false end.

Definition lift (s : queue_state) (r : option (outcome * qore_queue_private))
    : option (outcome * queue_state) :=
  '(o, q) ← r; Some (o, State q (waiting s)).

Definition exec (s : queue_state) (a : action) : option (outcome * queue_state) :=
  match a with
  | Start tid op timeout_ms =>
    '(o, q) ← start (queue s) op timeout_ms;
    Some (o, State q (if is_blocked o then <[tid := (op, timeout_ms)]> (waiting s) else waiting s))
  | Wake tid timed_out =>
    '(op, timeout_ms) ← waiting s !! tid;
    '(o, q) ← wake (queue s) op timeout_ms timed_out;
    Some (o, State q (if is_blocked o then waiting s else delete tid (waiting s)))
  | PushAndTakeRef v => lift s (pushAndTakeRef (queue s) v)
  | Clear => lift s (clear (queue s))
  | SetError e => lift s (setError (queue s) e)
  | ClearError => lift s (clearError (queue s))
  | Destroy => lift s (destructor (queue s))
  end.

(** A thread starts when it does not wait; a wait times out only when it has a
    timeout (0 is a wait without one); [pushAndTakeRef] is for queues without
    a limit. *)
Definition enabled (s : queue_state) (a : action) : Prop :=
  match a with
  | Start tid _ _ => waiting s !! tid = None
  | Wake tid timed_out =>
    exists op t, waiting s !! tid = Some (op, t) /\ (timed_out = true -> 0 < t)
  | PushAndTakeRef _ => max (queue s) = -1
  | _ => True
  end.

End Queue.
Arguments qore_queue_private : clear implicits.
Arguments QoreQueueNode : clear implicits.
Arguments queue_op : clear implicits.
Arguments outcome : clear implicits.
Arguments queue_state : clear implicits.
Arguments action : clear implicits.

(** ** The linked list as a sequence *)

Section Linked.
Context {V : Type} {vops : ValueOps V}.
Implicit Types (h : gmap positive (QoreQueueNode V)) (ls : list positive) (xs : list V)
  (q : qore_queue_private V).

Definition before ls (i : nat) : option positive := match i with O => None | S j => ls !! j end.

(** The nodes [ls] hold the values [xs] and are linked in both directions. *)
Definition linked h ls xs : Prop :=
  length ls = length xs /\
  forall i l x, ls !! i = Some l -> xs !! i = Some x ->
    h !! l = Some (Node x (before ls i) (ls !! S i)).

(** The heap holds exactly the nodes of the list. *)
Definition dll h (hd tl : option positive) xs : Prop :=
  exists ls, NoDup ls /\ linked h ls xs /\ hd = ls !! O /\ tl = last ls /\
    forall p, is_Some (h !! p) <-> p ∈ ls.

Lemma dll_empty : dll ∅ None None [].
Proof.
  exists []. split; [constructor|]. split; [split; [reflexivity|intros i l x [=]]|].
  split; [reflexivity|]. split; [reflexivity|]. intros p. rewrite lookup_empty. split.
  - intros [? [=]].
  - intros Hp. inversion Hp.
Qed.

Lemma alloc_fresh h : h !! alloc h = None.
Proof. apply not_elem_of_dom. apply is_fresh. Qed.

Lemma linked_node h ls xs i l :
  linked h ls xs -> ls !! i = Some l ->
  exists x, xs !! i = Some x /\ h !! l = Some (Node x (before ls i) (ls !! S i)).
Proof.
  intros [Hl H] Hi. destruct (lookup_lt_is_Some_2 xs i) as [x Hx];
    [rewrite <- Hl; eapply lookup_lt_Some; exact Hi|]. eauto.
Qed.

Lemma before_app ls ls' i : (i <= length ls)%nat -> before (ls ++ ls') i = before ls i.
Proof. destruct i as [|i]; [reflexivity|]. intros H. simpl. apply lookup_app_l. lia. Qed.

Lemma before_last ls l : last ls = Some l -> before ls (length ls) = Some l.
Proof. rewrite last_lookup. destruct ls; [discriminate|]. intros H. exact H. Qed.

(** Adding a node behind the last one. *)
Lemma linked_snoc h ls xs t x p v b :
  NoDup ls -> linked h ls xs -> last ls = Some t -> p ∉ ls -> h !! t = Some (Node x b None) ->
  linked (<[t := Node x b (Some p)]> (<[p := Node v (Some t) None]> h)) (ls ++ [p]) (xs ++ [v]).
Proof.
  intros Hnd [Hl H] Ht Hp Hx. split; [rewrite !length_app; simpl; lia|].
  pose proof Ht as Ht'. rewrite last_lookup in Ht'.
  intros i l y Hi Hy. pose proof (lookup_lt_Some _ _ _ Hi) as Hlt. rewrite length_app in Hlt. simpl in Hlt.
  destruct (decide (i = length ls)) as [->|Hne].
  - rewrite lookup_app_r, Nat.sub_diag in Hi by lia. injection Hi as <-.
    rewrite Hl, lookup_app_r, Nat.sub_diag in Hy by lia. injection Hy as <-.
    rewrite lookup_insert_ne by (intros ->; apply Hp; eapply list_elem_of_lookup_2; exact Ht').
    rewrite lookup_insert_eq, before_app, (before_last _ _ Ht), lookup_ge_None_2 by (rewrite ?length_app; simpl; lia).
    reflexivity.
  - rewrite lookup_app_l in Hi by lia. rewrite lookup_app_l in Hy by lia.
    rewrite before_app by lia. specialize (H i l y Hi Hy).
    destruct (decide (l = t)) as [->|Hlt'].
    + assert (i = pred (length ls)) as -> by (eapply NoDup_lookup; eauto).
      rewrite lookup_insert_eq, lookup_app_r by lia.
      replace (S (pred (length ls)) - length ls)%nat with O by lia. simpl. congruence.
    + rewrite !lookup_insert_ne; [|intros ->; apply Hp; eapply list_elem_of_lookup_2; exact Hi|auto].
      rewrite H, lookup_app_l; [reflexivity|].
      assert (i <> pred (length ls)) by congruence. lia.
Qed.

(** Adding a node before the first one. *)
Lemma linked_cons h l ls xs x p v n :
  NoDup (l :: ls) -> linked h (l :: ls) xs -> p ∉ l :: ls -> h !! l = Some (Node x None n) ->
  linked (<[l := Node x (Some p) n]> (<[p := Node v None (Some l)]> h)) (p :: l :: ls) (v :: xs).
Proof.
  intros Hnd [Hl H] Hp Hx. split; [simpl in *; lia|].
  assert (p <> l) as Hpl by (intros ->; apply Hp; left).
  intros [|[|i]] l' y Hi Hy.
  - injection Hi as <-. injection Hy as <-. rewrite lookup_insert_ne, lookup_insert_eq by auto. reflexivity.
  - injection Hi as <-. pose proof (H O l y eq_refl Hy) as E. rewrite lookup_insert_eq.
    simpl in *. congruence.
  - change ((p :: l :: ls) !! S (S i)) with ((l :: ls) !! S i) in Hi. change ((v :: xs) !! S (S i)) with (xs !! S i) in Hy.
    pose proof (H (S i) l' y Hi Hy) as E.
    assert (l' <> l) by (intros ->; pose proof (NoDup_lookup _ _ O l Hnd Hi eq_refl); lia).
    assert (l' <> p) by (intros ->; apply Hp; eapply list_elem_of_lookup_2; exact Hi).
    rewrite !lookup_insert_ne by auto. exact E.
Qed.

(** Removing the first node, removing the last node. *)
Lemma linked_tail h l l' ls x xs y n :
  NoDup (l :: l' :: ls) -> linked h (l :: l' :: ls) (x :: xs) -> h !! l' = Some (Node y (Some l) n) ->
  linked (delete l (<[l' := Node y None n]> h)) (l' :: ls) xs.
Proof.
  intros Hnd [Hl H] Hy. split; [simpl in *; lia|]. apply NoDup_cons in Hnd as [Hni Hnd].
  intros i k z Hi Hz.
  assert (k <> l) by (intros ->; apply Hni; eapply list_elem_of_lookup_2; exact Hi).
  rewrite lookup_delete_ne by auto. pose proof (H (S i) k z Hi Hz) as E.
  destruct (decide (k = l')) as [->|Hne].
  - pose proof (NoDup_lookup _ _ O l' Hnd Hi eq_refl) as ->. rewrite lookup_insert_eq.
    simpl in *. congruence.
  - rewrite lookup_insert_ne by auto. destruct i as [|i]; [simpl in Hi; congruence|]. exact E.
Qed.

Lemma linked_init h ls t u x xs y b :
  NoDup ((ls ++ [t]) ++ [u]) -> linked h ((ls ++ [t]) ++ [u]) (xs ++ [x]) -> h !! t = Some (Node y b (Some u)) ->
  linked (delete u (<[t := Node y b None]> h)) (ls ++ [t]) xs.
Proof.
  intros Hnd [Hl H] Hy. rewrite !length_app in Hl. simpl in Hl.
  split; [rewrite length_app; simpl; lia|]. apply NoDup_app in Hnd as (Hnd & Hni & _).
  intros i k z Hi Hz. pose proof (lookup_lt_Some _ _ _ Hi) as Hlt. rewrite length_app in Hlt. simpl in Hlt.
  assert (k <> u) by (intros ->; apply (Hni u); [eapply list_elem_of_lookup_2; exact Hi|left]).
  rewrite lookup_delete_ne by auto.
  pose proof (H i k z ltac:(rewrite lookup_app_l by (rewrite length_app; simpl; lia); exact Hi)
                ltac:(rewrite lookup_app_l by lia; exact Hz)) as E.
  rewrite before_app in E by (rewrite length_app; simpl; lia).
  destruct (decide (k = t)) as [->|Hne].
  - assert (i = length ls) as -> by (eapply NoDup_lookup; [exact Hnd|exact Hi|apply list_lookup_middle; reflexivity]).
    rewrite lookup_insert_eq, lookup_ge_None_2 by (rewrite length_app; simpl; lia). congruence.
  - rewrite lookup_insert_ne by auto. rewrite E. do 2 f_equal. apply lookup_app_l.
    rewrite length_app. simpl. destruct (decide (i = length ls)) as [->|]; [|lia].
    rewrite list_lookup_middle in Hi by reflexivity. congruence.
Qed.

Lemma dll_nil_inv h hd tl : dll h hd tl [] -> hd = None /\ tl = None /\ h = ∅.
Proof.
  intros (ls & _ & [Hl _] & -> & -> & Hd). destruct ls; [|discriminate].
  split; [reflexivity|]. split; [reflexivity|]. apply map_empty. intros p.
  apply eq_None_not_Some. rewrite Hd. intros Hp. inversion Hp.
Qed.

Lemma dll_head h hd tl x xs : dll h hd tl (x :: xs) -> exists p, hd = Some p.
Proof. intros (ls & _ & [Hl _] & -> & _). destruct ls; [discriminate|]. simpl. eauto. Qed.

Lemma dll_single h p v :
  h !! p = None -> dll h None None [] -> dll (<[p := Node v None None]> h) (Some p) (Some p) [v].
Proof.
  intros Hp H. apply dll_nil_inv in H as (_ & _ & ->). exists [p].
  split; [apply NoDup_singleton|]. split; [|split; [reflexivity|split; [reflexivity|]]].
  - split; [reflexivity|]. intros [|i] l x Hi Hx; [|discriminate]. injection Hi as <-. injection Hx as <-.
    apply lookup_insert_eq.
  - intros l. rewrite list_elem_of_singleton. destruct (decide (l = p)) as [->|Hne].
    + rewrite lookup_insert_eq. split; eauto.
    + rewrite lookup_insert_ne, lookup_empty by auto. split; [intros [? [=]]|congruence].
Qed.

(** The domain after an insertion of a node and an update of another. *)
Lemma dom_insert2 h t p nt np (ls : list positive) (q : positive) :
  t ∈ ls -> (forall l, is_Some (h !! l) <-> l ∈ ls) ->
  is_Some ((<[t := nt]> (<[p := np]> h)) !! q) <-> q ∈ ls \/ q = p.
Proof.
  intros Ht H. destruct (decide (q = t)) as [->|H1]; [|destruct (decide (q = p)) as [->|H2]].
  - rewrite lookup_insert_eq. split; eauto.
  - rewrite lookup_insert_ne, lookup_insert_eq by auto. split; eauto.
  - rewrite !lookup_insert_ne, H by auto. tauto.
Qed.

Lemma dom_delete2 h t u nt (ls ls' : list positive) (q : positive) :
  t ∈ ls' -> u ∉ ls' -> (forall l, l ∈ ls <-> l ∈ ls' \/ l = u) ->
  (forall l, is_Some (h !! l) <-> l ∈ ls) ->
  is_Some (delete u (<[t := nt]> h) !! q) <-> q ∈ ls'.
Proof.
  intros Ht Hu Hls H. destruct (decide (q = u)) as [->|H1]; [|destruct (decide (q = t)) as [->|H2]].
  - rewrite lookup_delete_eq. split; [intros [? [=]]|tauto].
  - rewrite lookup_delete_ne, lookup_insert_eq by auto. split; eauto.
  - rewrite lookup_delete_ne, lookup_insert_ne, H, Hls by auto. tauto.
Qed.

Lemma pushNode_spec q xs v :
  dll (heap q) (qhead q) (qtail q) xs ->
  exists h hd tl, pushNode q v = Some (set_list q h hd tl (len q + 1)) /\ dll h hd tl (xs ++ [v]).
Proof.
  intros H. unfold pushNode. set (p := alloc (heap q)). pose proof (alloc_fresh (heap q)) as Hp. fold p in Hp.
  destruct xs as [|x xs].
  - pose proof (dll_nil_inv _ _ _ H) as (E1 & E2 & E3). rewrite E1.
    do 3 eexists. split; [reflexivity|]. apply dll_single; [exact Hp|]. rewrite E3. apply dll_empty.
  - destruct (dll_head _ _ _ _ _ H) as [hd Ehd]. rewrite Ehd in H |- *. destruct H as (ls & Hnd & Hl & Hhd & -> & Hd).
    destruct (last ls) as [t|] eqn:Ht; [|apply last_None in Ht as ->; destruct Hl; discriminate]. simpl.
    assert (p ∉ ls) as Hni by (intros Hin; apply Hd in Hin as [? ?]; congruence).
    pose proof Ht as Hlk. rewrite last_lookup in Hlk.
    destruct (linked_node _ _ _ _ _ Hl Hlk) as (y & Hy & E).
    rewrite (lookup_ge_None_2 ls) in E by (rewrite last_lookup in Ht; destruct ls; [discriminate|]; simpl; lia).
    assert (p <> t) by (intros ->; apply Hni; eapply list_elem_of_lookup_2; exact Hlk).
    unfold set_next. rewrite lookup_insert_ne, E by auto. simpl.
    do 3 eexists. split; [reflexivity|]. exists (ls ++ [p]). split; [|split; [|split; [|split]]].
    + apply NoDup_app. split; [exact Hnd|]. split; [|apply NoDup_singleton].
      intros l Hl' Hin. apply list_elem_of_singleton in Hin as ->. contradiction.
    + exact (linked_snoc _ _ _ _ _ _ v _ Hnd Hl Ht Hni E).
    + destruct ls; [discriminate|]. exact Hhd.
    + rewrite last_snoc. reflexivity.
    + intros l. rewrite (dom_insert2 _ _ _ _ _ ls), elem_of_app, list_elem_of_singleton;
        [reflexivity|eapply list_elem_of_lookup_2; exact Hlk|exact Hd].
Qed.

Lemma insertIntern_spec q xs v :
  dll (heap q) (qhead q) (qtail q) xs ->
  exists h hd tl, insertIntern q v
      = Some (emit (set_list q h hd tl (len q + 1)) (negb (read_waiting q =? 0)) ReadSignal)
    /\ dll h hd tl (v :: xs).
Proof.
  intros H. unfold insertIntern. set (p := alloc (heap q)). pose proof (alloc_fresh (heap q)) as Hp. fold p in Hp.
  destruct xs as [|x xs].
  - pose proof (dll_nil_inv _ _ _ H) as (E1 & E2 & E3). rewrite E1.
    do 3 eexists. split; [reflexivity|]. apply dll_single; [exact Hp|]. rewrite E3. apply dll_empty.
  - destruct H as (ls & Hnd & Hl & -> & -> & Hd). destruct ls as [|l ls]; [destruct Hl; discriminate|].
    simpl (_ !! O). cbv iota.
    assert (p ∉ l :: ls) as Hni by (intros Hin; apply Hd in Hin as [? ?]; congruence).
    destruct (linked_node _ _ _ O l Hl eq_refl) as (y & Hy & E). injection Hy as <-. simpl before in E.
    unfold set_prev. rewrite lookup_insert_ne, E by (intros ->; apply Hni; left). simpl.
    do 3 eexists. split; [reflexivity|]. exists (p :: l :: ls). split; [|split; [|split; [|split]]].
    + constructor; assumption.
    + exact (linked_cons _ _ _ _ _ _ v _ Hnd Hl Hni E).
    + reflexivity.
    + reflexivity.
    + intros k. rewrite (dom_insert2 _ _ _ _ _ (l :: ls)), (elem_of_cons (l :: ls) k p); [tauto|left|exact Hd].
Qed.

Lemma set_list_emit q b e h hd tl n :
  set_list (emit q b e) h hd tl n = emit (set_list q h hd tl n) b e.
Proof. destruct b; reflexivity. Qed.

Lemma emit_list q b e :
  heap (emit q b e) = heap q /\ qhead (emit q b e) = qhead q /\ qtail (emit q b e) = qtail q /\
  len (emit q b e) = len q.
Proof. destruct b; auto. Qed.

Lemma delete_single h p : (forall l, is_Some (h !! l) <-> l ∈ [p]) -> delete p h = ∅.
Proof.
  intros H. apply map_empty. intros l. apply eq_None_not_Some. intros Hs.
  destruct (decide (l = p)) as [->|Hne]; [rewrite lookup_delete_eq in Hs; destruct Hs; discriminate|].
  rewrite lookup_delete_ne, H, list_elem_of_singleton in Hs by auto. contradiction.
Qed.

Lemma takeHead_spec q x xs :
  dll (heap q) (qhead q) (qtail q) (x :: xs) ->
  exists h hd tl, takeHead q
      = Some (x, emit (set_list q h hd tl (len q - 1)) (negb (write_waiting q =? 0)) WriteSignal)
    /\ dll h hd tl xs.
Proof.
  intros (ls & Hnd & Hl & Ehd & Etl & Hd). unfold takeHead. destruct ls as [|l ls]; [destruct Hl; discriminate|].
  simpl in Ehd. rewrite Ehd. simpl.
  destruct (linked_node _ _ _ O l Hl eq_refl) as (y & Hy & E). injection Hy as <-. rewrite E. simpl.
  destruct ls as [|l' ls]; simpl.
  - destruct xs; [|destruct Hl; discriminate].
    edestruct (emit_list (set_list q (heap q) None None (len q - 1))) as (-> & -> & -> & ->).
    rewrite set_list_emit. do 3 eexists. split; [reflexivity|]. simpl.
    rewrite (delete_single _ _ Hd). apply dll_empty.
  - destruct (linked_node _ _ _ 1%nat l' Hl eq_refl) as (z & Hz & E'). unfold set_prev. rewrite E'. simpl.
    edestruct (emit_list (set_list q (<[l':=Node z None (ls !! O)]> (heap q)) (Some l') (qtail q) (len q - 1)))
      as (-> & -> & -> & ->).
    rewrite set_list_emit. do 3 eexists. split; [reflexivity|]. simpl. exists (l' :: ls).
    pose proof Hnd as Hnd'. apply NoDup_cons in Hnd' as [Hni Hnd'].
    split; [exact Hnd'|]. split; [eapply linked_tail; eassumption|]. split; [reflexivity|].
    split; [exact Etl|]. intros k. eapply dom_delete2; [left|exact Hni| |exact Hd].
    intros j. rewrite elem_of_cons. tauto.
Qed.

Lemma takeTail_spec q x xs :
  dll (heap q) (qhead q) (qtail q) (xs ++ [x]) ->
  exists h hd tl, takeTail q
      = Some (x, emit (set_list q h hd tl (len q - 1)) (negb (write_waiting q =? 0)) WriteSignal)
    /\ dll h hd tl xs.
Proof.
  intros (ls & Hnd & Hl & Ehd & Etl & Hd). unfold takeTail.
  destruct ls as [|l ls _] using rev_ind; [destruct Hl as [Hl _]; rewrite length_app in Hl; simpl in Hl; lia|].
  rewrite last_snoc in Etl. rewrite Etl. simpl.
  assert (length ls = length xs) as Hlen by (destruct Hl as [Hl _]; rewrite !length_app in Hl; simpl in Hl; lia).
  destruct (linked_node _ _ _ (length ls) l Hl (list_lookup_middle _ _ _ _ eq_refl)) as (y & Hy & E).
  rewrite list_lookup_middle in Hy by congruence. injection Hy as <-. rewrite E. simpl.
  rewrite before_app by lia.
  destruct ls as [|t ls _] using rev_ind; simpl.
  - destruct xs; [|discriminate].
    edestruct (emit_list (set_list q (heap q) None None (len q - 1))) as (-> & -> & -> & ->).
    rewrite set_list_emit. do 3 eexists. split; [reflexivity|]. simpl.
    rewrite (delete_single _ _ Hd). apply dll_empty.
  - rewrite (before_last _ t) by apply last_snoc.
    assert (((ls ++ [t]) ++ [l]) !! length ls = Some t) as Hk
      by (rewrite <- app_assoc; apply list_lookup_middle; reflexivity).
    destruct (linked_node _ _ _ _ t Hl Hk) as (z & Hz & E'). unfold set_next. rewrite E'. simpl.
    edestruct (emit_list (set_list q (<[t:=Node z (before ((ls ++ [t]) ++ [l]) (length ls)) None]> (heap q))
      (qhead q) (Some t) (len q - 1))) as (-> & -> & -> & ->).
    rewrite set_list_emit. do 3 eexists. split; [reflexivity|]. simpl. exists (ls ++ [t]).
    pose proof Hnd as Hnd'. apply NoDup_app in Hnd' as (Hnd' & Hni & _).
    split; [exact Hnd'|]. split; [|split; [|split]].
    + eapply linked_init; [exact Hnd|exact Hl|]. rewrite E'. do 2 f_equal.
      replace (S (length ls)) with (length (ls ++ [t])) by (rewrite length_app; simpl; lia).
      apply list_lookup_middle. reflexivity.
    + rewrite Ehd. destruct ls; reflexivity.
    + rewrite last_snoc. reflexivity.
    + intros k. eapply dom_delete2; [| | |exact Hd].
      * apply elem_of_app. right. left.
      * intros Hin. apply (Hni l Hin). left.
      * intros j. rewrite (elem_of_app (ls ++ [t])), (list_elem_of_singleton j l). tauto.
Qed.

Lemma delete_nodes_spec fuel : forall h ls xs,
  (length xs <= fuel)%nat -> NoDup ls -> length ls = length xs ->
  (forall i l x, ls !! i = Some l -> xs !! i = Some x -> exists b, h !! l = Some (Node x b (ls !! S i))) ->
  (forall p, is_Some (h !! p) <-> p ∈ ls) ->
  delete_nodes fuel h (ls !! O) = Some ∅.
Proof.
  induction fuel as [|fuel IH]; intros h ls xs Hf Hnd Hl H Hd.
  - destruct xs; [|simpl in Hf; lia]. destruct ls; [|discriminate]. simpl. f_equal. apply map_empty.
    intros p. apply eq_None_not_Some. rewrite Hd. intros Hp. inversion Hp.
  - destruct ls as [|l ls]; simpl.
    + f_equal. apply map_empty. intros p. apply eq_None_not_Some. rewrite Hd. intros Hp. inversion Hp.
    + destruct xs as [|x xs]; [discriminate|]. destruct (H O l x eq_refl eq_refl) as [b ->]. simpl.
      apply NoDup_cons in Hnd as [Hni Hnd].
      apply (IH _ ls xs); [simpl in Hf; lia|exact Hnd|simpl in Hl; lia| |].
      * intros i k y Hi Hy. rewrite lookup_delete_ne by (intros ->; apply Hni; eapply list_elem_of_lookup_2; exact Hi).
        apply (H (S i) k y Hi Hy).
      * intros p. destruct (decide (p = l)) as [->|Hne].
        -- rewrite lookup_delete_eq. split; [intros [? [=]]|contradiction].
        -- rewrite lookup_delete_ne, Hd, elem_of_cons by auto. tauto.
Qed.

Lemma dll_size h hd tl xs : dll h hd tl xs -> size h = length xs.
Proof.
  intros (ls & Hnd & [Hl _] & _ & _ & Hd). rewrite <- Hl, <- size_dom.
  rewrite <- (size_list_to_set (C := gset positive) ls Hnd). f_equal.
  apply set_eq. intros p. rewrite elem_of_dom, Hd, elem_of_list_to_set. reflexivity.
Qed.

Lemma clearIntern_spec q xs :
  dll (heap q) (qhead q) (qtail q) xs ->
  clearIntern q = Some (set_scan (set_list q ∅ None None (len q)) 0).
Proof.
  intros H. unfold clearIntern. rewrite (dll_size _ _ _ _ H).
  destruct H as (ls & Hnd & [Hl H] & -> & _ & Hd).
  rewrite (delete_nodes_spec _ _ _ xs (Nat.le_refl _) Hnd Hl); [reflexivity| |exact Hd].
  intros i l x Hi Hx. eauto.
Qed.

End Linked.

(** ** The abstract queue *)

Section Refinement.
Context {V : Type} {vops : ValueOps V} (self : bool).
Implicit Types (xs : list V) (q : qore_queue_private V) (s : queue_state V) (op : queue_op V).

(** A sequence of values with an error, a limit and a mark of deletion. *)
Record abstract_queue := Abs {
  a_items : list V; a_err : option string; a_max : Z; a_deleted : bool }.

Definition set_items (a : abstract_queue) xs : abstract_queue :=
  Abs xs (a_err a) (a_max a) (a_deleted a).

Definition must_wait (a : abstract_queue) op : bool :=
  if is_reader op then match a_items a with [] => true | _ => false end
  else (0 <? a_max a) && (a_max a <=? Z.of_nat (length (a_items a))).

(** The effect of an operation that does not have to wait. *)
Definition complete (a : abstract_queue) op : outcome V * abstract_queue :=
  match op with
  | OpPush v => (Done, set_items a (a_items a ++ [v]))
  | OpInsert v => (Done, set_items a (v :: a_items a))
  | OpShift => (Got (default nothing (head (a_items a))), set_items a (tail (a_items a)))
  | OpPop => (Got (default nothing (last (a_items a))), set_items a (removelast (a_items a)))
  end.

Definition spec_attempt (a : abstract_queue) op (timeout_ms : Z) : outcome V * abstract_queue :=
  match a_err a with
  | Some e => (Raise (CUSTOM e), a)
  | None =>
    if must_wait a op then ((if 0 <=? timeout_ms then Blocked else TimedOut), a)
    else complete a op
  end.

Definition spec_exec (w : gmap nat (queue_op V * Z)) (a : abstract_queue) (act : action V)
    : outcome V * abstract_queue :=
  match act with
  | Start _ op t =>
    if a_deleted a then ((if is_reader op then Raise DELETED else Ignored), a)
    else spec_attempt a op t
  | Wake tid timed_out =>
    match w !! tid with
    | None => (Ignored, a)
    | Some (op, t) =>
      if timed_out then (TimedOut, a)
      else if a_deleted a then (Raise DELETED, a) else spec_attempt a op t
    end
  | PushAndTakeRef v =>
    if a_deleted a then (Ignored, a)
    else match a_err a with
         | Some _ => (Ignored, a)
         | None => (Done, set_items a (a_items a ++ [v]))
         end
  | Clear =>
    if a_deleted a then (Ignored, a)
    else match a_err a with
         | Some e => (Raise (CUSTOM e), a)
         | None =>
           ((if bool_decide (map_Forall (fun _ x => is_reader (fst x) = false) w)
             then Done else Ignored), set_items a [])
         end
  | SetError e =>
    if a_deleted a then (Ignored, a)
    else (Done, Abs [] (if (e =? "")%string then None else Some e) (a_max a) false)
  | ClearError =>
    if a_deleted a then (Ignored, a) else (Done, Abs (a_items a) None (a_max a) false)
  | Destroy =>
    (Destroyed (negb (bool_decide (map_Forall (fun _ x => is_reader (fst x) = false) w)))
               (negb (bool_decide (map_Forall (fun _ x => is_reader (fst x) = true) w))),
     Abs [] (a_err a) (a_max a) true)
  end.

(** A [clear] fails when a reader waits for a value that has just been pushed. *)
Definition clear_fails (w : gmap nat (queue_op V * Z)) (a : abstract_queue) (act : action V) : Prop :=
  act = Clear /\ a_deleted a = false /\ a_err a = None /\
  ~ map_Forall (fun _ x => is_reader (fst x) = false) w /\ a_items a <> [].

(** ** The invariant *)

(** The number of waiting readers or writers. *)
Definition count (r : bool) (w : gmap nat (queue_op V * Z)) : Z :=
  Z.of_nat (size (filter (fun kx => is_reader (fst (snd kx)) = r) w)).

Record queue_inv q (a : abstract_queue) : Prop := {
  qi_list : dll (heap q) (qhead q) (qtail q) (a_items a);
  qi_len : len q = if a_deleted a then -1 else Z.of_nat (length (a_items a));
  qi_deleted : a_deleted a = true -> a_items a = [];
  qi_err : err q = a_err a;
  qi_error : a_err a <> None -> a_items a = [];
  qi_max : max q = a_max a;
  qi_max_pos : a_max a = -1 \/ 0 < a_max a;
  qi_bound : 0 < a_max a -> Z.of_nat (length (a_items a)) <= a_max a }.

Record inv s (a : abstract_queue) : Prop := {
  inv_queue : queue_inv (queue s) a;
  inv_readers : read_waiting (queue s) = count true (waiting s);
  inv_writers : write_waiting (queue s) = count false (waiting s);
  inv_timeouts : map_Forall (fun _ x => 0 <= snd x) (waiting s) }.

Lemma count_insert r w tid op t :
  w !! tid = None ->
  count r (<[tid := (op, t)]> w) = count r w + (if eqb (is_reader op) r then 1 else 0).
Proof.
  intros Hn. unfold count. destruct (eqb (is_reader op) r) eqn:E.
  - apply eqb_prop in E. rewrite map_filter_insert_True by exact E.
    rewrite map_size_insert_None; [lia|]. apply map_lookup_filter_None. left. exact Hn.
  - apply eqb_false_iff in E. rewrite map_filter_insert_not' ; [lia|exact E|].
    intros y Hy. congruence.
Qed.

Lemma count_delete r w tid op t :
  w !! tid = Some (op, t) ->
  count r (delete tid w) = count r w - (if eqb (is_reader op) r then 1 else 0).
Proof.
  intros Hw. rewrite <- (insert_delete_id w tid (op, t) Hw) at 2.
  rewrite count_insert by apply lookup_delete_eq. lia.
Qed.

Lemma count_zero r w :
  count r w = 0 <-> map_Forall (fun _ x => is_reader (fst x) = negb r) w.
Proof.
  unfold count. change 0 with (Z.of_nat 0). rewrite Nat2Z.inj_iff, map_size_empty_iff. split.
  - intros E tid x Hx. apply (f_equal (fun m => m !! tid)) in E. rewrite lookup_empty in E.
    apply map_lookup_filter_None in E as [E|E]; [congruence|]. specialize (E x Hx). simpl in E.
    destruct (is_reader (fst x)), r; simpl in *; congruence.
  - intros H. apply map_empty. intros tid. apply map_lookup_filter_None. right.
    intros x Hx. simpl. rewrite (H tid x Hx). destruct r; discriminate.
Qed.

Lemma count_nonneg r w : 0 <= count r w.
Proof. unfold count. lia. Qed.

(** ** The operations implement the abstract ones *)

(** The fields that neither [emit] nor the scan count change. *)
Lemma queue_inv_ext q q' a :
  queue_inv q a -> heap q' = heap q -> qhead q' = qhead q -> qtail q' = qtail q ->
  len q' = len q -> err q' = err q -> max q' = max q -> queue_inv q' a.
Proof.
  intros [Hl ? ? ? ? ? ? ?] E1 E2 E3 E4 E5 E6. split; try congruence; auto.
Qed.

Definition waits_eq q q' : Prop :=
  read_waiting q' = read_waiting q /\ write_waiting q' = write_waiting q.

Lemma emit_inv q0 q a b e :
  queue_inv q a -> waits_eq q0 q -> queue_inv (emit q b e) a /\ waits_eq q0 (emit q b e).
Proof.
  intros H Hw. split; [|destruct b; exact Hw].
  apply (queue_inv_ext q); [exact H|destruct b; reflexivity..].
Qed.

Lemma count_scan_inv q a v :
  queue_inv q a -> queue_inv (count_scan self q v) a /\ waits_eq q (count_scan self q v).
Proof.
  intros H. unfold count_scan. destruct (self && needs_scan v); [|split; [exact H|split; reflexivity]].
  apply emit_inv; [apply (queue_inv_ext q); auto|split; reflexivity].
Qed.

Lemma uncount_scan_id q : uncount_scan self q = q.
Proof. unfold uncount_scan. rewrite andb_false_r. reflexivity. Qed.

Lemma set_list_inv q a h hd tl xs n :
  queue_inv q a -> dll h hd tl xs -> n = Z.of_nat (length xs) -> a_deleted a = false ->
  (a_err a <> None -> xs = []) -> (0 < a_max a -> Z.of_nat (length xs) <= a_max a) ->
  queue_inv (set_list q h hd tl n) (set_items a xs).
Proof.
  intros [? ? ? ? ? ? ? ?] Hl -> Hd He Hm. split; simpl; auto.
  - rewrite Hd. reflexivity.
  - congruence.
Qed.

Lemma pushIntern_inv q a v :
  queue_inv q a -> a_deleted a = false -> a_err a = None ->
  (0 < a_max a -> Z.of_nat (length (a_items a)) < a_max a) ->
  exists q', pushIntern q v = Some q' /\ queue_inv q' (set_items a (a_items a ++ [v])) /\ waits_eq q q'.
Proof.
  intros H Hd He Hm. unfold pushIntern.
  destruct (pushNode_spec q _ v (qi_list _ _ H)) as (h & hd & tl & -> & Hl). cbn [mbind option_bind].
  eexists. split; [reflexivity|]. apply emit_inv; [|split; reflexivity].
  apply set_list_inv; auto; rewrite ?length_app; simpl.
  - rewrite (qi_len _ _ H), Hd. lia.
  - congruence.
  - intros Hp. specialize (Hm Hp). lia.
Qed.

Lemma insertIntern_inv q a v :
  queue_inv q a -> a_deleted a = false -> a_err a = None ->
  (0 < a_max a -> Z.of_nat (length (a_items a)) < a_max a) ->
  exists q', insertIntern q v = Some q' /\ queue_inv q' (set_items a (v :: a_items a)) /\ waits_eq q q'.
Proof.
  intros H Hd He Hm.
  destruct (insertIntern_spec q _ v (qi_list _ _ H)) as (h & hd & tl & -> & Hl).
  eexists. split; [reflexivity|]. apply emit_inv; [|split; reflexivity].
  apply set_list_inv; auto; simpl.
  - rewrite (qi_len _ _ H), Hd. lia.
  - congruence.
  - intros Hp. specialize (Hm Hp). lia.
Qed.

Lemma removed_inv q a h hd tl xs x ys :
  queue_inv q a -> a_deleted a = false -> a_err a = None -> dll h hd tl xs ->
  a_items a = ys -> length ys = S (length xs) ->
  let q' := emit (set_list q h hd tl (len q - 1)) (negb (write_waiting q =? 0)) x in
  queue_inv q' (set_items a xs) /\ waits_eq q q'.
Proof.
  intros H Hd He Hl Ey En. apply emit_inv; [|split; reflexivity].
  apply set_list_inv; auto.
  - rewrite (qi_len _ _ H), Hd, Ey, En. lia.
  - congruence.
  - intros Hp. pose proof (qi_bound _ _ H Hp) as Hb. rewrite Ey, En in Hb. lia.
Qed.

Lemma finish_spec q a op :
  queue_inv q a -> a_deleted a = false -> a_err a = None -> must_wait a op = false ->
  exists q', finish self q op = Some (fst (complete a op), q') /\
    queue_inv q' (snd (complete a op)) /\ waits_eq q q'.
Proof.
  intros H Hd He Hw. destruct op as [v|v| |]; simpl in *.
  - destruct (pushIntern_inv q a v H Hd He) as (q' & -> & H' & E1 & E2);
      [intros Hp; apply andb_false_iff in Hw as [Hw|Hw]; lia|].
    destruct (count_scan_inv q' _ v H') as [H2 [E3 E4]]. simpl. eexists. split; [reflexivity|].
    split; [exact H2|]. split; congruence.
  - destruct (insertIntern_inv q a v H Hd He) as (q' & -> & H' & E1 & E2);
      [intros Hp; apply andb_false_iff in Hw as [Hw|Hw]; lia|].
    destruct (count_scan_inv q' _ v H') as [H2 [E3 E4]]. simpl. eexists. split; [reflexivity|].
    split; [exact H2|]. split; congruence.
  - unfold must_wait in Hw. simpl in Hw. destruct (a_items a) as [|x xs] eqn:Ea; [discriminate|].
    pose proof (qi_list _ _ H) as Hl. rewrite Ea in Hl.
    destruct (takeHead_spec q x xs Hl) as (h & hd & tl & -> & Hl'). simpl. rewrite uncount_scan_id.
    eexists. split; [reflexivity|]. eapply removed_inv; eauto.
  - unfold must_wait in Hw. simpl in Hw.
    destruct (a_items a) as [|x xs _] eqn:Ea using rev_ind; [discriminate|].
    pose proof (qi_list _ _ H) as Hl. rewrite Ea in Hl.
    destruct (takeTail_spec q x xs Hl) as (h & hd & tl & -> & Hl'). simpl. rewrite uncount_scan_id.
    rewrite last_snoc, removelast_last. eexists. split; [reflexivity|].
    eapply removed_inv; eauto. rewrite length_app. simpl. lia.
Qed.

(** The verdict of the wait loops. *)
Lemma check_spec q a op t :
  queue_inv q a -> a_deleted a = false ->
  check op q t =
  match a_err a with
  | Some e => WError e
  | None => if must_wait a op then (if 0 <=? t then WBlock else WTimeout) else WReady
  end.
Proof.
  intros H Hd. unfold check, must_wait. destruct (is_reader op).
  - unfold read_check. rewrite (qi_err _ _ H). pose proof (qi_list _ _ H) as Hl.
    destruct (a_items a) as [|x xs].
    + apply dll_nil_inv in Hl as [-> _]. reflexivity.
    + apply dll_head in Hl as [p ->]. reflexivity.
  - unfold write_check. rewrite (qi_err _ _ H), (qi_max _ _ H), (qi_len _ _ H), Hd.
    destruct (_ && _), (a_err a); reflexivity.
Qed.

Lemma attempt_spec q a op t :
  queue_inv q a -> a_deleted a = false ->
  exists q', attempt self q op t = Some (fst (spec_attempt a op t), q') /\
    queue_inv q' (snd (spec_attempt a op t)) /\
    waits_eq (if is_blocked (fst (spec_attempt a op t)) then add_waiting q op 1 else q) q'.
Proof.
  intros H Hd. unfold attempt, spec_attempt. rewrite (check_spec q a op t H Hd).
  destruct (a_err a) as [e|] eqn:He;
    [exists q; split; [reflexivity|split; [exact H|split; reflexivity]]|].
  destruct (must_wait a op) eqn:Hw.
  - destruct (0 <=? t); simpl.
    + eexists. split; [reflexivity|]. split; [|split; reflexivity].
      apply (queue_inv_ext q); [exact H|unfold add_waiting; destruct (is_reader op); reflexivity..].
    + exists q. split; [reflexivity|]. split; [exact H|]. split; reflexivity.
  - destruct (finish_spec q a op H Hd He Hw) as (q' & -> & H' & E).
    exists q'. split; [reflexivity|]. split; [exact H'|].
    replace (is_blocked (fst (complete a op))) with false by (destruct op; reflexivity). exact E.
Qed.

Lemma clear_inv q a (e : option string) :
  queue_inv q a -> a_deleted a = false ->
  queue_inv (set_list (set_scan (set_list (set_err q e) ∅ None None (len q)) 0) ∅ None None 0)
    (Abs [] e (a_max a) false).
Proof.
  intros H Hd. destruct H. split; simpl; auto; try lia. apply dll_empty.
Qed.

Lemma inv_start s a op t tid q' (o : outcome V) a' :
  inv s a -> waiting s !! tid = None -> queue_inv q' a' ->
  waits_eq (if is_blocked o then add_waiting (queue s) op 1 else queue s) q' ->
  (o = Blocked -> 0 <= t) ->
  inv (State q' (if is_blocked o then <[tid := (op, t)]> (waiting s) else waiting s)) a'.
Proof.
  intros [Hq Hr Hw Ht] Hn Hq' [E1 E2] Hb. split; simpl; [exact Hq'|..];
    destruct (is_blocked o) eqn:Eo; rewrite ?E1, ?E2; try assumption;
    unfold add_waiting; rewrite ?(count_insert _ _ _ _ _ Hn), <- ?Hr, <- ?Hw;
    try (destruct (is_reader op); simpl; lia).
  apply map_Forall_insert_2; [|exact Ht]. apply Hb. destruct o; discriminate || reflexivity.
Qed.

Lemma inv_wake s a op t tid q' (o : outcome V) a' :
  inv s a -> waiting s !! tid = Some (op, t) -> queue_inv q' a' ->
  waits_eq (if is_blocked o then add_waiting (add_waiting (queue s) op (-1)) op 1
            else add_waiting (queue s) op (-1)) q' ->
  inv (State q' (if is_blocked o then waiting s else delete tid (waiting s))) a'.
Proof.
  intros [Hq Hr Hw Ht] Hn Hq' [E1 E2]. split; simpl; [exact Hq'|..];
    destruct (is_blocked o) eqn:Eo; rewrite ?E1, ?E2; try assumption;
    unfold add_waiting; rewrite ?(count_delete _ _ _ _ _ Hn), <- ?Hr, <- ?Hw;
    try (destruct (is_reader op); simpl; lia).
  apply map_Forall_delete. exact Ht.
Qed.

Lemma add_waiting_inv q a op d : queue_inv q a -> queue_inv (add_waiting q op d) a.
Proof.
  intros H. apply (queue_inv_ext q); [exact H|unfold add_waiting; destruct (is_reader op); reflexivity..].
Qed.

Lemma blocked_timeout a op t : fst (spec_attempt a op t) = Blocked -> 0 <= t.
Proof.
  unfold spec_attempt. destruct (a_err a); [discriminate|]. destruct (must_wait a op).
  - destruct (Z.leb_spec 0 t); [auto|discriminate].
  - destruct op; discriminate.
Qed.

Lemma deleted_eq q a : queue_inv q a -> (len q =? Queue_Deleted) = a_deleted a.
Proof.
  intros H. rewrite (qi_len _ _ H). destruct (a_deleted a); [reflexivity|].
  apply Z.eqb_neq. unfold Queue_Deleted. lia.
Qed.

Lemma start_spec s a tid op t :
  inv s a -> waiting s !! tid = None ->
  exists s', exec self s (Start tid op t) = Some (fst (spec_exec (waiting s) a (Start tid op t)), s')
    /\ inv s' (snd (spec_exec (waiting s) a (Start tid op t))).
Proof.
  intros H Hn. pose proof (inv_queue _ _ H) as Hq. simpl. unfold start, checkWriteIntern.
  rewrite (deleted_eq _ _ Hq). destruct (a_deleted a) eqn:Hd.
  { exists s. destruct s as [q w], (is_reader op); split; reflexivity || exact H. }
  rewrite (qi_err _ _ Hq).
  destruct (a_err a) as [e|] eqn:He.
  { unfold spec_attempt. rewrite He. exists s. destruct s as [q w]. split; [reflexivity|exact H]. }
  destruct (attempt_spec (queue s) a op t Hq Hd) as (q' & -> & Hq' & E). simpl.
  eexists. split; [reflexivity|]. apply (inv_start s a op t tid q' _ _ H Hn Hq' E).
  apply blocked_timeout.
Qed.

Lemma wake_spec s a tid timed_out :
  inv s a -> enabled s (Wake tid timed_out) ->
  exists s', exec self s (Wake tid timed_out) = Some (fst (spec_exec (waiting s) a (Wake tid timed_out)), s')
    /\ inv s' (snd (spec_exec (waiting s) a (Wake tid timed_out))).
Proof.
  intros H (op & t & Hn & _). pose proof (inv_queue _ _ H) as Hq. simpl. rewrite Hn. simpl.
  unfold wake. pose proof (add_waiting_inv _ _ op (-1) Hq) as Hq1.
  destruct timed_out; simpl.
  { eexists. split; [reflexivity|]. apply (inv_wake s a op t tid _ TimedOut a H Hn Hq1). split; reflexivity. }
  rewrite (deleted_eq _ _ Hq1). destruct (a_deleted a) eqn:Hd; simpl.
  { eexists. split; [reflexivity|]. apply (inv_wake s a op t tid _ (Raise DELETED) a H Hn Hq1). split; reflexivity. }
  destruct (attempt_spec _ a op t Hq1 Hd) as (q' & -> & Hq' & E). simpl.
  eexists. split; [reflexivity|]. apply (inv_wake s a op t tid q' _ _ H Hn Hq' E).
Qed.

Lemma inv_queue_only s a q' a' :
  inv s a -> queue_inv q' a' -> waits_eq (queue s) q' -> inv (State q' (waiting s)) a'.
Proof.
  intros [_ Hr Hw Ht] Hq' [E1 E2]. split; simpl; congruence || assumption.
Qed.

(** The three ways to empty the queue. *)
Lemma cleared_inv q q1 a e n d :
  queue_inv q a -> heap q1 = ∅ -> qhead q1 = None -> qtail q1 = None -> err q1 = e ->
  max q1 = a_max a -> len q1 = n -> n = (if d : bool then -1 else 0) ->
  queue_inv q1 (Abs [] e (a_max a) d).
Proof.
  intros [_ _ _ _ _ _ Hm _] E1 E2 E3 E4 E5 E6 E7. split; simpl; auto; try lia.
  - rewrite E1, E2, E3. apply dll_empty.
  - destruct d; lia.
Qed.

Lemma waiting_flag s a :
  inv s a ->
  negb (read_waiting (queue s) =? 0)
  = negb (bool_decide (map_Forall (fun _ x => is_reader (fst x) = false) (waiting s))) /\
  negb (write_waiting (queue s) =? 0)
  = negb (bool_decide (map_Forall (fun _ x => is_reader (fst x) = true) (waiting s))).
Proof.
  intros H. rewrite (inv_readers _ _ H), (inv_writers _ _ H).
  pose proof (count_zero true (waiting s)) as E1. pose proof (count_zero false (waiting s)) as E2.
  simpl negb in E1, E2. split; f_equal; apply eq_true_iff_eq;
    rewrite Z.eqb_eq, bool_decide_eq_true; assumption.
Qed.

Lemma clear_spec s a :
  inv s a -> ~ clear_fails (waiting s) a Clear ->
  exists s', exec self s Clear = Some (fst (spec_exec (waiting s) a Clear), s')
    /\ inv s' (snd (spec_exec (waiting s) a Clear)).
Proof.
  intros H Nf. pose proof (inv_queue _ _ H) as Hq. simpl. unfold clear, checkWriteIntern.
  rewrite (deleted_eq _ _ Hq). destruct (a_deleted a) eqn:Hd.
  { exists s. destruct s; split; [reflexivity|exact H]. }
  rewrite (qi_err _ _ Hq). destruct (a_err a) as [e|] eqn:He.
  { exists s. destruct s; split; [reflexivity|exact H]. }
  rewrite (proj1 (waiting_flag s a H)). case_bool_decide as Hw; simpl.
  - rewrite (clearIntern_spec _ _ (qi_list _ _ Hq)). simpl. eexists. split; [reflexivity|].
    apply (inv_queue_only s a); [exact H| |].
    + unfold set_items. rewrite He, Hd.
      eapply cleared_inv; [exact Hq|..]; try reflexivity;
        destruct (negb (write_waiting _ =? 0)), (negb (scan_count _ =? 0)); simpl;
        try reflexivity; rewrite ?(qi_err _ _ Hq), ?(qi_max _ _ Hq); auto.
    + destruct (negb (write_waiting _ =? 0)), (negb (scan_count _ =? 0)); split; reflexivity.
  - assert (a_items a = []) as Ea.
    { destruct (a_items a) eqn:Ea; [reflexivity|]. exfalso. apply Nf. unfold clear_fails. rewrite Ea. auto. }
    pose proof (qi_list _ _ Hq) as Hl. rewrite Ea in Hl. apply dll_nil_inv in Hl as (-> & _).
    assert (set_items a [] = a) as -> by (unfold set_items; destruct a; simpl in *; subst; reflexivity).
    exists s. destruct s; split; [reflexivity|exact H].
Qed.

Lemma clear_failed s a act :
  inv s a -> clear_fails (waiting s) a act -> exec self s act = Some (AssertFailed, s).
Proof.
  intros H (-> & Hd & He & Hw & Hi). pose proof (inv_queue _ _ H) as Hq. simpl.
  unfold clear, checkWriteIntern. rewrite (deleted_eq _ _ Hq), Hd, (qi_err _ _ Hq), He.
  rewrite (proj1 (waiting_flag s a H)), bool_decide_eq_false_2 by exact Hw. simpl.
  destruct (a_items a) as [|x xs] eqn:Ea; [contradiction|].
  pose proof (qi_list _ _ Hq) as Hl. rewrite Ea in Hl. apply dll_head in Hl as [p ->].
  destruct s; reflexivity.
Qed.

Lemma setError_spec s a e :
  inv s a ->
  exists s', exec self s (SetError e) = Some (fst (spec_exec (waiting s) a (SetError e)), s')
    /\ inv s' (snd (spec_exec (waiting s) a (SetError e))).
Proof.
  intros H. pose proof (inv_queue _ _ H) as Hq. simpl. unfold setError.
  rewrite (deleted_eq _ _ Hq). destruct (a_deleted a) eqn:Hd.
  { exists s. destruct s; split; [reflexivity|exact H]. }
  set (q1 := set_err _ _). assert (dll (heap q1) (qhead q1) (qtail q1) (a_items a)) as Hl by apply (qi_list _ _ Hq).
  rewrite (clearIntern_spec _ _ Hl). simpl. eexists. split; [reflexivity|].
  apply (inv_queue_only s a); [exact H| |].
  - eapply cleared_inv; [exact Hq|..]; try reflexivity;
      destruct (negb (read_waiting _ =? 0)), (negb (write_waiting _ =? 0)), (negb (scan_count _ =? 0)); simpl;
      try reflexivity; apply (qi_max _ _ Hq).
  - destruct (negb (read_waiting _ =? 0)), (negb (write_waiting _ =? 0)), (negb (scan_count _ =? 0)); split; reflexivity.
Qed.

Lemma destroy_spec s a :
  inv s a ->
  exists s', exec self s Destroy = Some (fst (spec_exec (waiting s) a Destroy), s')
    /\ inv s' (snd (spec_exec (waiting s) a Destroy)).
Proof.
  intros H. pose proof (inv_queue _ _ H) as Hq. simpl. unfold destructor.
  destruct (waiting_flag s a H) as [<- Ew].
  set (q1 := emit (queue s) _ ReadBroadcast).
  assert (queue_inv q1 a /\ waits_eq (queue s) q1) as [H1 [W1 W2]] by (apply emit_inv; [exact Hq|split; reflexivity]).
  rewrite W2, Ew. set (b := negb (bool_decide _)).
  assert (queue_inv (emit q1 b WriteBroadcast) a /\ waits_eq (queue s) (emit q1 b WriteBroadcast)) as [H2 W]
    by (apply emit_inv; [exact H1|split; assumption]).
  rewrite (clearIntern_spec _ _ (qi_list _ _ H2)). simpl. eexists. split; [reflexivity|].
  apply (inv_queue_only s a); [exact H| |exact W].
  eapply cleared_inv; [exact Hq|..]; try reflexivity; simpl; [apply (qi_err _ _ H2)|apply (qi_max _ _ H2)].
Qed.

Lemma exec_spec s a act :
  inv s a -> enabled s act -> ~ clear_fails (waiting s) a act ->
  exists s', exec self s act = Some (fst (spec_exec (waiting s) a act), s')
    /\ inv s' (snd (spec_exec (waiting s) a act)).
Proof.
  intros H He Nf. pose proof (inv_queue _ _ H) as Hq. destruct act as [tid op t|tid to|v| |e| |].
  - apply start_spec; assumption.
  - apply wake_spec; assumption.
  - simpl in *. unfold pushAndTakeRef. rewrite (deleted_eq _ _ Hq), (qi_err _ _ Hq).
    destruct (a_deleted a) eqn:Hd; [exists s; destruct s; split; [reflexivity|exact H]|].
    destruct (a_err a) as [e|] eqn:Ee; [exists s; destruct s; split; [reflexivity|exact H]|].
    destruct (pushIntern_inv (queue s) a v Hq Hd Ee) as (q' & -> & Hq' & W).
    { intros Hp. rewrite <- (qi_max _ _ Hq), He in Hp. lia. }
    eexists. split; [reflexivity|]. exact (inv_queue_only s a _ _ H Hq' W).
  - apply clear_spec; assumption.
  - apply setError_spec, H.
  - simpl. unfold clearError. rewrite (deleted_eq _ _ Hq).
    destruct (a_deleted a) eqn:Hd; [exists s; destruct s; split; [reflexivity|exact H]|].
    eexists. split; [reflexivity|]. apply (inv_queue_only s a); [exact H| |split; reflexivity].
    destruct Hq as [? ? ? ? ? ? ? ?]. split; simpl; auto; try congruence. rewrite Hd in *. auto.
  - apply destroy_spec, H.
Qed.

#[local] Instance clear_fails_dec w a act : Decision (clear_fails w a act).
Proof.
  unfold Decision. destruct act; try (right; intros [[=] _]; fail).
  destruct (decide (a_deleted a = false /\ ~ map_Forall (fun _ x => is_reader (fst x) = false) w)) as [[Hd Hw]|N];
    [|right; intros (_ & Hd & _ & Hw & _); auto].
  destruct (a_err a) as [e|] eqn:He; [right; intros (_ & _ & He' & _); congruence|].
  destruct (a_items a) as [|x xs] eqn:Ea; [right; intros (_ & _ & _ & _ & Hi); congruence|].
  left. unfold clear_fails. rewrite Ea. auto.
Defined.

(** The abstract queue has no assertions. *)
Lemma spec_exec_asserts w a act : fst (spec_exec w a act) <> AssertFailed.
Proof.
  assert (forall op t, fst (spec_attempt a op t) <> AssertFailed) as Ha.
  { intros op t. unfold spec_attempt. destruct (a_err a), (must_wait a op), (0 <=? t), op; discriminate. }
  destruct act as [tid op t|tid to|v| |e| |]; simpl;
    repeat first [apply Ha | discriminate | case_bool_decide | case_match].
Qed.

(** The limit is not changed by a step. *)
Lemma spec_exec_max w a act : a_max (snd (spec_exec w a act)) = a_max a.
Proof.
  assert (forall op t, a_max (snd (spec_attempt a op t)) = a_max a) as Ha.
  { intros op t. unfold spec_attempt. destruct (a_err a), (must_wait a op), op; reflexivity. }
  destruct act as [tid op t|tid to|v| |e| |]; simpl; try case_decide; destruct (a_deleted a); auto;
    try (destruct (w !! tid) as [[op t]|]; [destruct to|]; auto);
    destruct (a_err a); reflexivity.
Qed.

(** ** Runs

    A run is a sequence of enabled actions; its events are the operations that
    were started or woken, with their outcomes. *)
Definition event s (act : action V) (o : outcome V) : list (queue_op V * outcome V) :=
  match act with
  | Start _ op _ => [(op, o)]
  | Wake tid _ => match waiting s !! tid with Some (op, _) => [(op, o)] | None => [] end
  | _ => []
  end.

Inductive run : queue_state V -> list (queue_op V * outcome V) -> queue_state V -> Prop :=
  | run_nil s : run s [] s
  | run_step s act o s' evs s'' :
      enabled s act -> (match act with Start _ _ _ | Wake _ _ => True | _ => False end) ->
      exec self s act = Some (o, s') -> run s' evs s'' -> run s (event s act o ++ evs) s''.

(** The values that were pushed and the values that were shifted. *)
Definition pushed_values (evs : list (queue_op V * outcome V)) : list V :=
  omap (fun e => match e with (OpPush v, Done) => Some v | _ => None end) evs.
Definition shifted_values (evs : list (queue_op V * outcome V)) : list V :=
  omap (fun e => match e with (OpShift, Got v) => Some v | _ => None end) evs.

Definition push_or_shift (e : queue_op V * outcome V) : Prop :=
  match fst e with OpPush _ | OpShift => True | _ => False end.

Lemma attempt_fifo a op t :
  push_or_shift (op, fst (spec_attempt a op t)) ->
  a_items a ++ pushed_values [(op, fst (spec_attempt a op t))]
  = shifted_values [(op, fst (spec_attempt a op t))] ++ a_items (snd (spec_attempt a op t)).
Proof.
  unfold push_or_shift, spec_attempt. destruct op; simpl; try tauto; intros _;
    destruct (a_err a); simpl; try (rewrite app_nil_r; reflexivity).
  - destruct (must_wait _ _); simpl; [|reflexivity].
    destruct (0 <=? t); simpl; rewrite app_nil_r; reflexivity.
  - unfold must_wait. simpl. destruct (a_items a) as [|x xs] eqn:Ea; simpl.
    + destruct (0 <=? t); simpl; rewrite Ea; reflexivity.
    + rewrite app_nil_r. reflexivity.
Qed.

Lemma step_fifo s a act :
  inv s a -> enabled s act -> (match act with Start _ _ _ | Wake _ _ => True | _ => False end) ->
  let o := fst (spec_exec (waiting s) a act) in
  Forall push_or_shift (event s act o) ->
  a_items a ++ pushed_values (event s act o)
  = shifted_values (event s act o) ++ a_items (snd (spec_exec (waiting s) a act)).
Proof.
  intros H He Ha o. unfold o. clear o. destruct act as [tid op t|tid to| | | | |]; try contradiction; simpl.
  - intros Hp. apply Forall_inv in Hp. destruct (a_deleted a); [|apply attempt_fifo; exact Hp].
    unfold push_or_shift in Hp. destruct op; simpl in *; rewrite ?app_nil_r; tauto || reflexivity.
  - destruct He as (op & t & -> & _). intros Hp. apply Forall_inv in Hp.
    destruct to; [|destruct (a_deleted a); [|apply attempt_fifo; exact Hp]];
      unfold push_or_shift in Hp; destruct op; simpl in *; rewrite ?app_nil_r; tauto || reflexivity.
Qed.

Lemma run_fifo s evs s' :
  run s evs s' -> forall a, inv s a -> Forall push_or_shift evs ->
  exists a', inv s' a' /\ a_items a ++ pushed_values evs = shifted_values evs ++ a_items a' /\
    a_max a' = a_max a.
Proof.
  induction 1 as [s|s act o s1 evs s2 He Ha E _ IH]; intros a H Hf.
  - exists a. rewrite app_nil_r. auto.
  - destruct (exec_spec s a act H He ltac:(intros [-> _]; exact Ha)) as (s1' & E' & H1). rewrite E in E'. injection E' as -> ->.
    apply Forall_app in Hf as [Hf1 Hf2]. pose proof (step_fifo s a act H He Ha Hf1) as Hs.
    destruct (IH _ H1 Hf2) as (a' & H' & Hr & Hm). exists a'. split; [exact H'|].
    split; [|rewrite Hm; apply spec_exec_max].
    unfold pushed_values, shifted_values in *. rewrite !omap_app, app_assoc, Hs, <- !app_assoc, Hr.
    reflexivity.
Qed.

Lemma new_queue_inv n : n = -1 \/ 0 < n -> inv (State (new_queue n) ∅) (Abs [] None n false).
Proof.
  intros Hn. split; simpl; [|reflexivity..|apply map_Forall_empty].
  split; simpl; auto; try lia. apply dll_empty.
Qed.

(** The copy constructor: the values and the error are kept, the scan count
    starts at 0. *)
Lemma copy_nodes_spec fuel : forall h ls xs q ys,
  (length xs <= fuel)%nat -> length ls = length xs ->
  (forall i l x, ls !! i = Some l -> xs !! i = Some x -> exists b, h !! l = Some (Node x b (ls !! S i))) ->
  dll (heap q) (qhead q) (qtail q) ys -> len q = Z.of_nat (length ys) -> read_waiting q = 0 ->
  exists h' hd tl, copy_nodes fuel h (ls !! O) q
      = Some (set_list q h' hd tl (Z.of_nat (length (ys ++ xs)))) /\ dll h' hd tl (ys ++ xs).
Proof.
  induction fuel as [|fuel IH]; intros h ls xs q ys Hf Hl H Hd Hn Hr.
  - destruct xs; [|simpl in Hf; lia]. destruct ls; [|discriminate]. simpl. rewrite app_nil_r, <- Hn.
    exists (heap q), (qhead q), (qtail q). destruct q; auto.
  - destruct ls as [|l ls], xs as [|x xs]; try discriminate; simpl.
    + rewrite app_nil_r, <- Hn. exists (heap q), (qhead q), (qtail q). destruct q; auto.
    + destruct (H O l x eq_refl eq_refl) as [b ->]. simpl. unfold pushIntern.
      destruct (pushNode_spec q ys x Hd) as (h1 & hd1 & tl1 & -> & Hd1). simpl. rewrite Hr. simpl.
      destruct (IH h ls xs (set_list q h1 hd1 tl1 (len q + 1)) (ys ++ [x])) as (h' & hd & tl & -> & Hd').
      * simpl in Hf. lia.
      * simpl in Hl. lia.
      * intros i k y Hi Hy. apply (H (S i) k y Hi Hy).
      * exact Hd1.
      * simpl. rewrite length_app. simpl. lia.
      * exact Hr.
      * rewrite <- app_assoc in *. exists h', hd, tl. auto.
Qed.

Lemma copy_queue_spec q a :
  queue_inv q a -> exists q', copy_queue q = Some q' /\
    queue_inv q' (Abs (a_items a) (a_err a) (a_max a) false) /\ scan_count q' = 0.
Proof.
  intros H. unfold copy_queue. rewrite (deleted_eq _ _ H), (qi_err _ _ H), (qi_max _ _ H).
  assert (queue_inv (set_err (new_queue (max q)) (a_err a)) (Abs [] (a_err a) (a_max a) false)) as H0.
  { destruct H. split; simpl; auto; try lia. apply dll_empty. }
  rewrite (qi_max _ _ H) in H0. destruct (a_deleted a) eqn:Hd.
  - rewrite (qi_deleted _ _ H Hd). eauto.
  - rewrite (dll_size _ _ _ _ (qi_list _ _ H)). pose proof (qi_list _ _ H) as (ls & _ & [Hl Hn] & -> & _ & _).
    destruct (copy_nodes_spec (length (a_items a)) (heap q) ls (a_items a)
                (set_err (new_queue (a_max a)) (a_err a)) []) as (h & hd & tl & -> & Hdl); auto.
    + intros i l x Hi Hx. eauto.
    + apply dll_empty.
    + eexists. split; [reflexivity|]. split; [|reflexivity].
      apply (set_list_inv _ (Abs [] (a_err a) (a_max a) false)); auto; simpl; try apply H.
Qed.

Lemma run_bounded n evs s' :
  n = -1 \/ 0 < n -> run (State (new_queue n) ∅) evs s' -> Forall push_or_shift evs ->
  exists a, inv s' a /\ pushed_values evs = shifted_values evs ++ a_items a /\ a_max a = n.
Proof.
  intros Hn Hr Hf. destruct (run_fifo _ _ _ Hr _ (new_queue_inv n Hn) Hf) as (a & H & E & Hm). eauto.
Qed.

(** ** What the queue promises *)

(** C23: in every state in which the linked list holds the items of an abstract
    bounded queue, every enabled action (a push, insert, shift or pop that
    starts, wakes up or times out, a clear, an error set or cleared, the
    destruction) runs without a memory error, has the outcome of the abstract
    action, and keeps the invariant: the links, the length, the limit and the
    numbers of waiting threads. The abstract [clear] always empties a queue without
    an error. There is one exception: the assertion of [clear] fails, or without
    assertions the values stay, exactly when a reader waits and has not taken a
    value yet that is in the queue, which happens ([clear_ignored]). *)
Theorem queue_refines s a act :
  inv s a -> enabled s act ->
  clear_fails (waiting s) a act /\ exec self s act = Some (AssertFailed, s) \/
  ~ clear_fails (waiting s) a act /\ fst (spec_exec (waiting s) a act) <> AssertFailed /\
  exists s', exec self s act = Some (fst (spec_exec (waiting s) a act), s')
    /\ inv s' (snd (spec_exec (waiting s) a act)).
Proof.
  intros H He. destruct (clear_fails_dec (waiting s) a act) as [Hf|Nf].
  - left. split; [exact Hf|exact (clear_failed s a act H Hf)].
  - right. split; [exact Nf|]. split; [apply spec_exec_asserts|exact (exec_spec s a act H He Nf)].
Qed.

(** however the threads that push and shift interleave, the values leave a
    queue in the order in which they entered it, and at most [n] are in it. *)
Theorem queue_fifo n evs s' :
  n = -1 \/ 0 < n -> run (State (new_queue n) ∅) evs s' -> Forall push_or_shift evs ->
  exists a, inv s' a /\ pushed_values evs = shifted_values evs ++ a_items a /\
    len (queue s') = Z.of_nat (length (a_items a)) - (if a_deleted a then 1 else 0) /\
    (0 < n -> Z.of_nat (length (pushed_values evs)) <= Z.of_nat (length (shifted_values evs)) + n).
Proof.
  intros Hn Hr Hf. destruct (run_bounded n evs s' Hn Hr Hf) as (a & H & E & Hm).
  exists a. pose proof (inv_queue _ _ H) as Hq. split; [exact H|]. split; [exact E|]. split.
  - rewrite (qi_len _ _ Hq). destruct (a_deleted a) eqn:Hd; [|lia].
    rewrite (qi_deleted _ _ Hq Hd). reflexivity.
  - intros Hp. rewrite E, length_app. pose proof (qi_bound _ _ Hq). lia.
Qed.

End Refinement.
Arguments abstract_queue : clear implicits.

(** ** Concrete runs *)

#[local] Existing Instance nat_values.

Definition q1 : queue_state nat := State (new_queue 1) ∅.

Fixpoint exec_all (s : queue_state nat) (acts : list (action nat))
    : option (list (outcome nat) * queue_state nat) :=
  match acts with
  | [] => Some ([], s)
  | act :: acts =>
    '(o, s) ← exec true s act; '(os, s) ← exec_all s acts; Some (o :: os, s)
  end.

Lemma queue_refines_witness :
  exists s', exec true q1 (Start 1 (OpPush 7%nat) 0) = Some (Done, s')
    /\ inv s' (Abs [7%nat] None 1 false).
Proof.
  destruct (queue_refines true q1 (Abs [] None 1 false) (Start 1 (OpPush 7%nat) 0)) as [[[[=] _] _]|(_ & _ & H)].
  - apply (new_queue_inv 1). right. reflexivity.
  - reflexivity.
  - exact H.
Defined.

(** Thread 2 waits for a value, thread 1 pushes it, thread 2 wakes up. *)
Lemma run_step_eq (s : queue_state nat) act o s' e evs s'' :
  enabled s act -> (match act with Start _ _ _ | Wake _ _ => True | _ => False end) ->
  exec true s act = Some (o, s') -> event s act o = [e] -> run true s' evs s'' ->
  run true s (e :: evs) s''.
Proof. intros He Ha E Ee Hr. change (e :: evs) with ([e] ++ evs). rewrite <- Ee. eapply run_step; eauto. Qed.

Lemma run_example :
  exists s, run true q1 [(OpShift, Blocked); (OpPush 7%nat, Done); (OpShift, Got 7%nat)] s.
Proof.
  eexists.
  eapply (run_step_eq q1 (Start 2 OpShift 0)); [reflexivity|exact I|vm_compute; reflexivity|reflexivity|].
  eapply (run_step_eq _ (Start 1 (OpPush 7%nat) 0)); [reflexivity|exact I|vm_compute; reflexivity|reflexivity|].
  eapply (run_step_eq _ (Wake 2 false));
    [exists OpShift, 0; split; [reflexivity|discriminate]|exact I|vm_compute; reflexivity|reflexivity|apply run_nil].
Qed.

Lemma queue_fifo_witness :
  let evs := [(OpShift, Blocked); (OpPush 7%nat, Done); (OpShift, Got 7%nat)] in
  exists s' a, inv s' a /\ pushed_values evs = shifted_values evs ++ a_items a /\
    len (queue s') = Z.of_nat (length (a_items a)) - (if a_deleted a then 1 else 0) /\
    (0 < 1 -> Z.of_nat (length (pushed_values evs)) <= Z.of_nat (length (shifted_values evs)) + 1).
Proof.
  destruct run_example as [s Hr]. exists s. apply (queue_fifo true 1 _ s).
  - right. reflexivity.
  - exact Hr.
  - repeat constructor.
Defined.

(** A value was pushed and its reader has not run yet: the assertion of [clear] fails,
    and without assertions nothing is done. *)
Example clear_ignored :
  match exec_all q1 [Start 2 OpShift 0; Start 1 (OpPush 7%nat) 0; Clear] with
  | Some (os, s) => os = [Blocked; Done; AssertFailed] /\ len (queue s) = 1
  | None => False
  end.
Proof. vm_compute. split; reflexivity. Qed.

(** Two writers wait on a full queue for two values; [clear] wakes up one. *)
Example clear_one_signal :
  match exec_all (State (new_queue 2) ∅)
          [Start 1 (OpPush 1%nat) 0; Start 1 (OpPush 2%nat) 0; Start 2 (OpPush 3%nat) 0;
           Start 3 (OpPush 4%nat) 0; Clear; Wake 2 false] with
  | Some (os, s) =>
    os = [Done; Done; Blocked; Blocked; Done; Done] /\ effects (queue s) = [WriteSignal] /\
    write_waiting (queue s) = 1 /\ len (queue s) = 1
  | None => False
  end.
Proof. vm_compute. repeat split; reflexivity. Qed.

(** The scan count of the queue is not decremented when a value leaves it. *)
Example shift_scan_count :
  match exec_all q1 [Start 1 (OpPush 100%nat) 0; Start 1 OpShift 0] with
  | Some (os, s) =>
    os = [Done; Got 100%nat] /\ len (queue s) = 0 /\ scan_count (queue s) = 1 /\
    effects (queue s) = [IncScan]
  | None => False
  end.
Proof. vm_compute. repeat split; reflexivity. Qed.
