(* ===== verification/Locks.v ===== *)
(** * Locks

    The lock classes [SmartMutex], [VRMutex] (the class Gate) and [RWLock] on
    top of [AbstractSmartLock], and the per-thread lock lists [VLock] with
    their deadlock detection. A thread that calls a lock runs inside of the
    lock's [asl_lock] up to a wait; the steps are the parts of the calls
    between the points where other threads can run. *)

From S2P Require Import Prelude.

#[local] Open Scope Z_scope.

(** ** Data *)

Inductive lock_kind := SmartMutex | VRMutex | RWLock.

Definition Lock_Deleted : Z := -2.
Definition Lock_Unlocked : Z := -1.

(** The members of the three classes in one record: [tid] is the owner,
    [count] belongs to VRMutex, the rest to RWLock. The pointer [vl] to the
    lock list of the owner and the map [vmap] from readers to their lock lists
    are given by [tid] and by the keys of [tmap]: a lock list belongs to one
    thread. *)
Record lock := Lock {
  kind : lock_kind; tid : Z; waiting : Z; count : Z;
  readRequests : Z; prefer_writers : bool; num_readers : Z; tmap : gmap Z Z }.

Definition new_lock (k : lock_kind) (p : bool) : lock := Lock k Lock_Unlocked 0 0 0 p 0 ∅.

Definition set_tid (l : lock) (t : Z) : lock :=
  Lock (kind l) t (waiting l) (count l) (readRequests l) (prefer_writers l) (num_readers l) (tmap l).
Definition set_count (l : lock) (c : Z) : lock :=
  Lock (kind l) (tid l) (waiting l) c (readRequests l) (prefer_writers l) (num_readers l) (tmap l).
Definition set_waiters (l : lock) (w r : Z) : lock :=
  Lock (kind l) (tid l) w (count l) r (prefer_writers l) (num_readers l) (tmap l).
Definition set_readers (l : lock) (n : Z) (m : gmap Z Z) : lock :=
  Lock (kind l) (tid l) (waiting l) (count l) (readRequests l) (prefer_writers l) n m.

Abbreviation lock_id := positive.

(** The calls that can wait: [grab] (the lock, the gate or the write lock) and
    [readLock], with their timeout. *)
Inductive request := Grab (timeout_ms : Z) | ReadLock (timeout_ms : Z).

(** A thread inside of [VLock::waitOn]: [Requesting] after [waiting_on] was
    stored, with [asl_lock] held; [Sleeping] in the wait of the condition
    variable. *)
Inductive phase := Requesting | Sleeping.

Inductive signal := Signal (g : lock_id) | Broadcast (g : lock_id)
  | ReadBroadcast (g : lock_id).

Record world := World {
  locks : gmap lock_id lock;
  vlocks : gmap Z (list lock_id);                         (* the lists of VLock *)
  waiting_on : gmap Z (lock_id * request * phase);        (* and their waiting_on *)
  signals : list signal }.

Definition set_lock (w : world) (g : lock_id) (l : lock) : world :=
  World (<[g := l]> (locks w)) (vlocks w) (waiting_on w) (signals w).
Definition set_vlock (w : world) (t : Z) (v : list lock_id) : world :=
  World (locks w) (<[t := v]> (vlocks w)) (waiting_on w) (signals w).
Definition set_waiting_on (w : world) (t : Z) (x : option (lock_id * request * phase)) : world :=
  World (locks w) (vlocks w)
    (match x with Some x => <[t := x]> (waiting_on w) | None => delete t (waiting_on w) end)
    (signals w).
Definition emit (w : world) (b : bool) (s : signal) : world :=
  if b then World (locks w) (vlocks w) (waiting_on w) (signals w ++ [s]) else w.

Definition vlock (w : world) (t : Z) : list lock_id := default [] (vlocks w !! t).

(** ** VLock *)

Definition vlock_push (w : world) (t : Z) (g : lock_id) : world :=
  set_vlock w t (vlock w t ++ [g]).

(** [pop] removes the last occurrence; without one the code runs out of the
    list. *)
Fixpoint pop_last (g : lock_id) (v : list lock_id) : option (list lock_id) :=
  match v with
  | [] => None
  | x :: v =>
    match pop_last g v with
    | Some v' => Some (x :: v')
    | None => if bool_decide (x = g) then Some v else None
    end
  end.

Definition vlock_pop (w : world) (t : Z) (g : lock_id) : option world :=
  v ← pop_last g (vlock w t); Some (set_vlock w t v).

Definition vlock_find (w : world) (t : Z) (g : lock_id) : bool :=
  existsb (fun x => bool_decide (x = g)) (vlock w t).

(** The lock that a thread waits on, if any. *)
Definition wait_lock (w : world) (t : Z) : option lock_id :=
  x ← waiting_on w !! t; Some (fst (fst x)).

(** The threads whose lock lists [waitOn] looks at: [vl], or [vmap]. *)
Definition holders (l : lock) : list Z :=
  if 0 <=? tid l then [tid l] else (map_to_list (tmap l)).*1.

(** [vl_wait && find(vl_wait)] for one of the other lock lists. *)
Definition would_deadlock (w : world) (mtid other : Z) : bool :=
  match wait_lock w other with Some g => vlock_find w mtid g | None => false end.

(** ** Acquiring *)

Inductive lock_error :=
  | LOCK_TWICE | LOCK_IS_DELETED | NOT_HELD | HELD_BY_OTHER | HOLDS_WRITE | THREAD_DEADLOCK
  | DELETED_WHILE_HOLDING | DELETED_WHILE_HELD.

(** [Count n]: VRMutex returns the old count. *)
Inductive result := Ok | Count (n : Z) | Fail | Error (e : lock_error) | Waits.

Inductive verdict := VGo | VWait | VError (e : lock_error).

(** The loops of [grabImpl]. *)
Definition grab_loop (l : lock) : verdict :=
  match kind l with
  | SmartMutex =>
    if 0 <=? tid l then VWait
    else if tid l =? Lock_Deleted then VError LOCK_IS_DELETED else VGo
  | VRMutex =>
    if tid l =? Lock_Unlocked then VGo
    else if tid l =? Lock_Deleted then VError LOCK_IS_DELETED else VWait
  | RWLock =>
    if (0 <=? tid l) || ((tid l =? Lock_Unlocked) && negb (num_readers l =? 0)) then VWait
    else if tid l =? Lock_Deleted then VError LOCK_IS_DELETED else VGo
  end.

(** [grabImpl] up to its first wait. *)
Definition grabImpl (l : lock) (mtid : Z) : verdict :=
  match kind l with
  | SmartMutex | RWLock => if tid l =? mtid then VError LOCK_TWICE else grab_loop l
  | VRMutex => if negb (tid l =? mtid) then grab_loop l else VGo
  end.

(** [grab_read_lock_intern] *)
Definition read_loop (l : lock) : verdict :=
  if 0 <=? tid l then VWait
  else if tid l =? Lock_Deleted then VError LOCK_IS_DELETED else VGo.

Definition readLockImpl (l : lock) (mtid : Z) : verdict :=
  if tid l =? mtid then VError HOLDS_WRITE else read_loop l.

(** [grab_intern] and [mark_and_push]; VRMutex counts and marks only the first
    time. *)
Definition finish_grab (w : world) (mtid : Z) (g : lock_id) (l : lock) : result * world :=
  match kind l with
  | VRMutex =>
    if count l =? 0 then
      (Ok, set_lock (vlock_push w mtid g) g (set_tid (set_count l (count l + 1)) mtid))
    else (Count (count l), set_lock w g (set_count l (count l + 1)))
  | _ => (Ok, set_lock (vlock_push w mtid g) g (set_tid l mtid))
  end.

(** [mark_read_lock_intern] and [set_initial_read_lock_intern] *)
Definition finish_read (w : world) (mtid : Z) (g : lock_id) (l : lock) : result * world :=
  match tmap l !! mtid with
  | None =>
    (Ok, set_lock (vlock_push w mtid g) g (set_readers l (num_readers l + 1) (<[mtid := 1]> (tmap l))))
  | Some n =>
    (Ok, set_lock w g (set_readers l (num_readers l + 1) (<[mtid := n + 1]> (tmap l))))
  end.

Definition finish (w : world) (mtid : Z) (g : lock_id) (l : lock) (r : request) : result * world :=
  match r with Grab _ => finish_grab w mtid g l | ReadLock _ => finish_read w mtid g l end.

(** [++waiting] or [++readRequests]. *)
Definition count_waiter (l : lock) (r : request) (d : Z) : lock :=
  match r with
  | Grab _ => set_waiters l (waiting l + d) (readRequests l)
  | ReadLock _ => set_waiters l (waiting l) (readRequests l + d)
  end.

(** After a verdict: acquire, fail, or go to [waitOn] and store [waiting_on]. *)
Definition proceed (w : world) (mtid : Z) (g : lock_id) (l : lock) (r : request) (v : verdict)
    : result * world :=
  match v with
  | VGo => finish w mtid g l r
  | VError e => (Error e, w)
  | VWait =>
    (Waits, set_waiting_on (set_lock w g (count_waiter l r 1)) mtid (Some (g, r, Requesting)))
  end.

(** [grab(xsink, timeout_ms)] and [readLock(xsink, timeout_ms)] *)
Definition call (w : world) (mtid : Z) (g : lock_id) (r : request) : option (result * world) :=
  l ← locks w !! g;
  Some (proceed w mtid g l r
          (match r with Grab _ => grabImpl l mtid | ReadLock _ => readLockImpl l mtid end)).

(** The test of [waitOn]: an exception, or the wait. *)
Definition wait_check (w : world) (mtid : Z) : option (result * world) :=
  '(g, r, p) ← waiting_on w !! mtid;
  match (p : phase) with
  | Sleeping => None
  | Requesting =>
    l ← locks w !! g;
    if existsb (would_deadlock w mtid) (holders l) then
      Some (Error THREAD_DEADLOCK, set_waiting_on (set_lock w g (count_waiter l r (-1))) mtid None)
    else Some (Waits, set_waiting_on w mtid (Some (g, r, Sleeping)))
  end.

(** The return from the wait, with or without a timeout, to the loop. *)
Definition wake (w : world) (mtid : Z) (timed_out : bool) : option (result * world) :=
  '(g, r, p) ← waiting_on w !! mtid;
  match (p : phase) with
  | Requesting => None
  | Sleeping =>
    l ← locks w !! g;
    let l := count_waiter l r (-1) in
    let w := set_waiting_on (set_lock w g l) mtid None in
    if (timed_out : bool) then Some (Fail, w)
    else Some (proceed w mtid g l r (match r with Grab _ => grab_loop l | ReadLock _ => read_loop l end))
  end.

(** [tryGrab] and [tryReadLock] *)
Definition tryGrab (w : world) (mtid : Z) (g : lock_id) : option (result * world) :=
  l ← locks w !! g;
  Some (match kind l with
        | SmartMutex => if negb (tid l =? Lock_Unlocked) then (Fail, w) else finish_grab w mtid g l
        | VRMutex =>
          if negb (tid l =? mtid) && negb (tid l =? Lock_Unlocked) then (Fail, w)
          else finish_grab w mtid g l
        | RWLock =>
          if negb (tid l =? Lock_Unlocked) || negb (num_readers l =? 0) then (Fail, w)
          else finish_grab w mtid g l
        end).

Definition tryReadLock (w : world) (mtid : Z) (g : lock_id) : option (result * world) :=
  l ← locks w !! g;
  Some (if negb (tid l =? Lock_Unlocked) then (Fail, w) else finish_read w mtid g l).

(** ** Releasing *)

(** [signalImpl]; [signalAllImpl] *)
Definition signalImpl (w : world) (g : lock_id) (l : lock) : world :=
  let writers := negb (waiting l =? 0) in
  let readers := negb (readRequests l =? 0) in
  match kind l with
  | RWLock =>
    if prefer_writers l then
      if writers then emit w true (Signal g) else emit w readers (ReadBroadcast g)
    else if readers then emit w true (ReadBroadcast g) else emit w writers (Signal g)
  | _ => emit w writers (Signal g)
  end.

Definition signalAllImpl (w : world) (g : lock_id) (l : lock) : world :=
  let w := emit w (negb (waiting l =? 0)) (Broadcast g) in
  match kind l with
  | RWLock => emit w (negb (readRequests l =? 0)) (ReadBroadcast g)
  | _ => w
  end.

(** [release_and_signal] *)
Definition release_and_signal (w : world) (g : lock_id) (l : lock) : option world :=
  w ← vlock_pop w (tid l) g;
  let l := if 0 <=? tid l then set_tid l Lock_Unlocked else l in
  Some (signalImpl (set_lock w g l) g l).

(** [release(xsink)]: [unlock], [exit], [writeUnlock] *)
Definition release (w : world) (mtid : Z) (g : lock_id) : option (result * world) :=
  l ← locks w !! g;
  match kind l with
  | SmartMutex =>
    if tid l <? 0 then Some (Error NOT_HELD, w)
    else if negb (tid l =? mtid) then Some (Error HELD_BY_OTHER, w)
    else w ← release_and_signal w g l; Some (Ok, w)
  | VRMutex =>
    if tid l =? Lock_Unlocked then Some (Error NOT_HELD, w)
    else if tid l =? Lock_Deleted then Some (Error LOCK_IS_DELETED, w)
    else if negb (tid l =? mtid) then Some (Error HELD_BY_OTHER, w)
    else
      let l := set_count l (count l - 1) in
      if count l =? 0 then w ← release_and_signal w g l; Some (Ok, w)
      else Some (Fail, set_lock w g l)
  | RWLock =>
    if tid l =? Lock_Deleted then Some (Error LOCK_IS_DELETED, w)
    else if tid l =? Lock_Unlocked then Some (Error NOT_HELD, w)
    else if negb (tid l =? mtid) then Some (Error HELD_BY_OTHER, w)
    else w ← release_and_signal w g l; Some (Ok, w)
  end.

(** [release_read_lock_intern] and [cleanup_read_lock_intern] *)
Definition release_read_lock_intern (w : world) (mtid : Z) (g : lock_id) (l : lock) (n : Z)
    : option world :=
  let l := set_readers l (num_readers l - 1) (tmap l) in
  let w := emit w ((num_readers l =? 0) && negb (waiting l =? 0)) (Signal g) in
  if n - 1 =? 0 then
    w ← vlock_pop w mtid g;
    Some (set_lock w g (set_readers l (num_readers l) (delete mtid (tmap l))))
  else Some (set_lock w g (set_readers l (num_readers l) (<[mtid := n - 1]> (tmap l)))).

Definition readUnlock (w : world) (mtid : Z) (g : lock_id) : option (result * world) :=
  l ← locks w !! g;
  if tid l =? mtid then Some (Error HOLDS_WRITE, w)
  else if tid l =? Lock_Deleted then Some (Error LOCK_IS_DELETED, w)
  else match tmap l !! mtid with
       | None => Some (Error NOT_HELD, w)
       | Some n => w ← release_read_lock_intern w mtid g l n; Some (Ok, w)
       end.

(** ** Deletion and the end of a thread *)

Fixpoint pop_all (w : world) (ts : list Z) (g : lock_id) : option world :=
  match ts with
  | [] => Some w
  | t :: ts => w ← vlock_pop w t g; pop_all w ts g
  end.

(** [destructor(xsink)] with the [destructorImpl] of RWLock. *)
Definition destructor (w : world) (mtid : Z) (g : lock_id) : option (result * world) :=
  l ← locks w !! g;
  '(w, l) ← match kind l with
            | RWLock =>
              let w := emit w (negb (num_readers l =? 0)) (Broadcast g) in
              w ← pop_all w (map_to_list (tmap l)).*1 g;
              Some (w, set_readers l 0 ∅)
            | _ => Some (w, l)
            end;
  '(r, w) ← (if 0 <=? tid l then
               w ← vlock_pop w (tid l) g;
               Some (Error (if tid l =? mtid then DELETED_WHILE_HOLDING else DELETED_WHILE_HELD),
                     signalAllImpl w g l)
             else Some (Ok, w));
  Some (r, set_lock w g (set_tid l Lock_Deleted)).

(** [cleanupImpl] at the end of a thread: the lock is released, however often
    it is held; the result is [Fail] when the lock was held. *)
Definition cleanupImpl (w : world) (mtid : Z) (g : lock_id) : option (result * world) :=
  l ← locks w !! g;
  match kind l with
  | SmartMutex =>
    if tid l =? mtid then w ← release_and_signal w g l; Some (Fail, w) else Some (Ok, w)
  | VRMutex =>
    if tid l =? mtid then w ← release_and_signal w g (set_count l 0); Some (Fail, w)
    else Some (Ok, w)
  | RWLock =>
    if negb (num_readers l =? 0) then
      w ← vlock_pop w mtid g;
      n ← tmap l !! mtid;
      let l := set_readers l (num_readers l - n) (delete mtid (tmap l)) in
      let w := emit w ((num_readers l =? 0) && negb (waiting l =? 0)) (Signal g) in
      Some (Fail, set_lock w g l)
    else if 0 <=? tid l then
      w ← vlock_pop w (tid l) g;
      let l := set_tid l Lock_Unlocked in
      Some (Fail, signalImpl (set_lock w g l) g l)
    else Some (Ok, w)
  end.

(** ** Steps *)

Inductive action :=
  | ACall (t : Z) (g : lock_id) (r : request)
  | ACheck (t : Z)
  | AWake (t : Z) (timed_out : bool)
  | ATryGrab (t : Z) (g : lock_id)
  | ATryReadLock (t : Z) (g : lock_id)
  | ARelease (t : Z) (g : lock_id)
  | AReadUnlock (t : Z) (g : lock_id)
  | ADestroy (t : Z) (g : lock_id)
  | ACleanup (t : Z) (g : lock_id).

Definition exec (w : world) (a : action) : option (result * world) :=
  match a with
  | ACall t g r => call w t g r
  | ACheck t => wait_check w t
  | AWake t b => wake w t b
  | ATryGrab t g => tryGrab w t g
  | ATryReadLock t g => tryReadLock w t g
  | ARelease t g => release w t g
  | AReadUnlock t g => readUnlock w t g
  | ADestroy t g => destructor w t g
  | ACleanup t g => cleanupImpl w t g
  end.

(** [asl_lock] of [g] is free. *)
Definition asl_free (w : world) (g : lock_id) : Prop :=
  map_Forall (fun _ x => x.1.1 = g -> x.2 = Sleeping) (waiting_on w).

Definition timeout_of (r : request) : Z := match r with Grab t | ReadLock t => t end.

(** A thread acts while it does not wait, on a lock with a free [asl_lock].
    [readLock] is a method of RWLock. A wait times out only with a positive
    timeout, which [waitOn] takes as an [int]. A thread that ends cleans up the
    locks that it holds. *)
Definition enabled (w : world) (a : action) : Prop :=
  match a with
  | ACall t g r =>
    0 <= t /\ waiting_on w !! t = None /\ asl_free w g /\
    exists l, locks w !! g = Some l /\ (match r with ReadLock _ => kind l = RWLock | _ => True end)
  | ACheck t => exists g r, waiting_on w !! t = Some (g, r, Requesting)
  | AWake t b =>
    exists g r, waiting_on w !! t = Some (g, r, Sleeping) /\ asl_free w g /\
      (b = true -> 0 < i32 (timeout_of r))
  | ATryReadLock t g | AReadUnlock t g =>
    0 <= t /\ waiting_on w !! t = None /\ asl_free w g /\
    exists l, locks w !! g = Some l /\ kind l = RWLock
  | ATryGrab t g | ARelease t g | ADestroy t g =>
    0 <= t /\ waiting_on w !! t = None /\ asl_free w g /\ is_Some (locks w !! g)
  | ACleanup t g =>
    0 <= t /\ waiting_on w !! t = None /\ asl_free w g /\ g ∈ vlock w t
  end.

(** * Properties *)

(** ** The lock lists *)

Lemma vlock_set_vlock w t v u : vlock (set_vlock w t v) u = if decide (u = t) then v else vlock w u.
Proof.
  unfold vlock. simpl. destruct (decide (u = t)) as [->|Hne].
  - rewrite lookup_insert_eq. reflexivity.
  - rewrite lookup_insert_ne by auto. reflexivity.
Qed.

Lemma pop_last_spec g v :
  NoDup v -> g ∈ v ->
  exists v', pop_last g v = Some v' /\ NoDup v' /\ forall x, x ∈ v' <-> x ∈ v /\ x <> g.
Proof.
  induction v as [|y v IH]; intros Hnd Hin; [inversion Hin|].
  apply NoDup_cons in Hnd as [Hy Hnd]. simpl. destruct (decide (g ∈ v)) as [Hg|Hg].
  - destruct (IH Hnd Hg) as (v' & -> & Hnd' & Hv'). exists (y :: v'). split; [reflexivity|].
    split; [apply NoDup_cons; split; [rewrite Hv'; tauto|exact Hnd']|].
    intros x. rewrite !elem_of_cons, Hv'. split; [|tauto].
    intros [->|[Hx Hne]]; [|tauto]. split; [tauto|]. intros ->. contradiction.
  - apply elem_of_cons in Hin as [->|Hin]; [|contradiction].
    assert (pop_last y v = None) as ->.
    { clear IH Hnd Hy. induction v as [|z v IH]; [reflexivity|]. simpl.
      rewrite elem_of_cons in Hg. rewrite IH by tauto. rewrite bool_decide_eq_false_2 by (intros ->; tauto).
      reflexivity. }
    rewrite bool_decide_eq_true_2 by reflexivity. exists v. split; [reflexivity|]. split; [exact Hnd|].
    intros x. rewrite elem_of_cons. split; [|tauto]. intros Hx. split; [tauto|]. intros ->. contradiction.
Qed.

Lemma vlock_find_spec w t g : vlock_find w t g = true <-> g ∈ vlock w t.
Proof.
  unfold vlock_find. rewrite existsb_exists. split.
  - intros (x & Hx & E). apply bool_decide_eq_true in E as ->. apply list_elem_of_In. exact Hx.
  - intros Hg. exists g. split; [apply list_elem_of_In; exact Hg|apply bool_decide_eq_true; reflexivity].
Qed.

(** ** Reader counts *)

Definition sum_readers (m : gmap Z Z) : Z := map_fold (fun _ n acc => n + acc) 0 m.

Lemma sum_readers_insert m t n :
  m !! t = None -> sum_readers (<[t := n]> m) = n + sum_readers m.
Proof.
  intros H. unfold sum_readers. rewrite map_fold_insert_L; [reflexivity| |exact H]. intros. lia.
Qed.

Lemma sum_readers_delete m t n :
  m !! t = Some n -> sum_readers (delete t m) = sum_readers m - n.
Proof.
  intros H. rewrite <- (insert_delete_id m t n H) at 2.
  rewrite sum_readers_insert by apply lookup_delete_eq. lia.
Qed.

Lemma sum_readers_update m t n k :
  m !! t = Some n -> sum_readers (<[t := k]> m) = sum_readers m - n + k.
Proof.
  intros H. rewrite <- insert_delete_eq, sum_readers_insert by apply lookup_delete_eq.
  rewrite (sum_readers_delete _ _ _ H). lia.
Qed.

Lemma sum_readers_pos m :
  map_Forall (fun _ n => 0 < n) m -> 0 <= sum_readers m /\ (sum_readers m = 0 -> m = ∅).
Proof.
  induction m as [|t n m Hn IH] using map_ind; intros H; [split; [apply Z.le_refl|reflexivity]|].
  apply map_Forall_insert in H as [H1 H2]; [|exact Hn]. rewrite sum_readers_insert by exact Hn.
  destruct (IH H2). split; [lia|]. lia.
Qed.

(** ** The invariant *)

(** Thread [t] holds the lock. *)
Definition holds (l : lock) (t : Z) : Prop :=
  if 0 <=? tid l then t = tid l else is_Some (tmap l !! t).

Record lock_ok (l : lock) : Prop := {
  lo_tid : -2 <= tid l;
  lo_writer : 0 <= tid l -> tmap l = ∅;
  lo_deleted : tid l = Lock_Deleted -> tmap l = ∅;
  lo_kind : kind l <> RWLock -> tmap l = ∅;
  lo_count : kind l = VRMutex -> tid l <> Lock_Deleted -> (0 < count l <-> 0 <= tid l) /\ 0 <= count l;
  lo_readers : num_readers l = sum_readers (tmap l);
  lo_pos : map_Forall (fun t n => 0 <= t /\ 0 < n) (tmap l) }.

(** [ReadLock] is for RWLock. *)
Definition request_ok (l : lock) (r : request) : Prop :=
  match r with ReadLock _ => kind l = RWLock | _ => True end.

Record inv (w : world) : Prop := {
  inv_locks : map_Forall (fun _ l => lock_ok l) (locks w);
  inv_nodup t : NoDup (vlock w t);
  inv_held t g : g ∈ vlock w t <-> exists l, locks w !! g = Some l /\ holds l t;
  inv_waits t g r p :
    waiting_on w !! t = Some (g, r, p) ->
    0 <= t /\ exists l, locks w !! g = Some l /\ request_ok l r;
  inv_cycle t u g h r s :
    waiting_on w !! t = Some (g, r, Sleeping) -> waiting_on w !! u = Some (h, s, Sleeping) ->
    g ∈ vlock w u -> h ∈ vlock w t -> False }.

Lemma holders_spec l t : t ∈ holders l <-> holds l t.
Proof.
  unfold holders, holds. destruct (0 <=? tid l); [apply list_elem_of_singleton|].
  rewrite list_elem_of_fmap. split.
  - intros ([u n] & -> & H). apply elem_of_map_to_list in H. simpl. eauto.
  - intros [n H]. exists (t, n). split; [reflexivity|]. apply elem_of_map_to_list. exact H.
Qed.

(** ** How the invariant is kept *)

Lemma emit_same w b s :
  locks (emit w b s) = locks w /\ vlocks (emit w b s) = vlocks w /\
  waiting_on (emit w b s) = waiting_on w.
Proof. destruct b; auto. Qed.

Lemma inv_same w w' :
  inv w -> locks w' = locks w -> vlocks w' = vlocks w -> waiting_on w' = waiting_on w -> inv w'.
Proof.
  intros [H1 H2 H3 H4 H5] El Ev Ew. assert (forall t, vlock w' t = vlock w t) as E
    by (intros t; unfold vlock; rewrite Ev; reflexivity).
  split; rewrite ?El, ?Ew; try assumption.
  - intros t. rewrite E. apply H2.
  - intros t g. rewrite E. apply H3.
  - intros t u g h r s. rewrite !E. apply H5.
Qed.

Lemma inv_emit w b s : inv w -> inv (emit w b s).
Proof. intros H. destruct (emit_same w b s) as (E1 & E2 & E3). apply (inv_same w); assumption. Qed.

Lemma set_lock_emit w b s g l : set_lock (emit w b s) g l = emit (set_lock w g l) b s.
Proof. destruct b; reflexivity. Qed.

(** Lock [g] changes from [l] to [l'] and the lock lists follow. *)
Lemma inv_change w w' g l l' :
  inv w -> locks w !! g = Some l -> lock_ok l' -> kind l' = kind l ->
  locks w' = <[g := l']> (locks w) -> waiting_on w' = waiting_on w ->
  (forall t, NoDup (vlock w' t)) ->
  (forall t x, x <> g -> (x ∈ vlock w' t <-> x ∈ vlock w t)) ->
  (forall t, g ∈ vlock w' t <-> holds l' t) ->
  (forall t, waiting_on w !! t <> None -> g ∈ vlock w' t -> g ∈ vlock w t) ->
  inv w'.
Proof.
  intros [H1 H2 H3 H4 H5] Hl Hok Hkind El Ew Hnd Hx Hg Hw. split.
  - rewrite El. apply map_Forall_insert_2; assumption.
  - exact Hnd.
  - intros t x. rewrite El. destruct (decide (x = g)) as [->|Hne].
    + rewrite lookup_insert_eq, Hg. split; [eauto|]. intros (k & [= <-] & Hk). exact Hk.
    + rewrite lookup_insert_ne, Hx by auto. apply H3.
  - rewrite El, Ew. intros t x r p Ht. destruct (H4 t x r p Ht) as [H0 (k & Hk & Hr)]. split; [exact H0|].
    destruct (decide (x = g)) as [->|Hne]; [|rewrite lookup_insert_ne by auto; eauto].
    rewrite lookup_insert_eq. exists l'. split; [reflexivity|]. replace k with l in Hr by congruence.
    destruct r; simpl in *; congruence.
  - rewrite Ew. intros t u x y r s Ht Hu Hxu Hyt.
    assert (forall v z, waiting_on w !! v <> None -> z ∈ vlock w' v -> z ∈ vlock w v) as Hin.
    { intros v z Hv Hz. destruct (decide (z = g)) as [->|Hne]; [apply Hw; assumption|].
      apply Hx; assumption. }
    apply (H5 t u x y r s Ht Hu); apply Hin; auto; congruence.
Qed.

Lemma inv_set_lock w g l l' :
  inv w -> locks w !! g = Some l -> lock_ok l' -> kind l' = kind l ->
  (forall t, holds l' t <-> holds l t) -> inv (set_lock w g l').
Proof.
  intros H Hl Hok Hk Hh. apply (inv_change w _ g l l'); auto; try reflexivity.
  - apply (inv_nodup _ H).
  - intros t. rewrite Hh. change (vlock (set_lock w g l') t) with (vlock w t). rewrite (inv_held _ H).
    split; [intros (k & E & Hk'); congruence|eauto].
Qed.

Lemma inv_acquire w g l l' t :
  inv w -> locks w !! g = Some l -> lock_ok l' -> kind l' = kind l ->
  waiting_on w !! t = None -> ~ holds l t ->
  (forall u, holds l' u <-> holds l u \/ u = t) ->
  inv (set_lock (vlock_push w t g) g l').
Proof.
  intros H Hl Hok Hk Hn Ht Hh. assert (forall u, g ∈ vlock w u <-> holds l u) as Hg.
  { intros u. rewrite (inv_held _ H). split; [intros (k & E & Hkk); congruence|eauto]. }
  assert (forall u, vlock (set_lock (vlock_push w t g) g l') u
          = if decide (u = t) then vlock w t ++ [g] else vlock w u) as Ev
    by (intros u; apply vlock_set_vlock).
  apply (inv_change w _ g l l'); auto.
  - intros u. rewrite Ev. case_decide; [|apply (inv_nodup _ H)]. apply NoDup_app.
    split; [apply (inv_nodup _ H)|]. split; [|apply NoDup_singleton].
    intros x Hx Hin. apply list_elem_of_singleton in Hin as ->. apply Ht, Hg, Hx.
  - intros u x Hx. rewrite Ev. case_decide as E; [|reflexivity]. subst u.
    rewrite elem_of_app, list_elem_of_singleton. tauto.
  - intros u. rewrite Ev, Hh, <- Hg. case_decide as E; [subst u|tauto].
    rewrite elem_of_app, list_elem_of_singleton. tauto.
  - intros u Hu. rewrite Ev. case_decide as E; [subst u; contradiction|auto].
Qed.

Lemma inv_release w g l l' t :
  inv w -> locks w !! g = Some l -> lock_ok l' -> kind l' = kind l -> holds l t ->
  (forall u, holds l' u <-> holds l u /\ u <> t) ->
  exists w1, vlock_pop w t g = Some w1 /\ locks w1 = locks w /\ inv (set_lock w1 g l').
Proof.
  intros H Hl Hok Hk Ht Hh. assert (forall u, g ∈ vlock w u <-> holds l u) as Hg.
  { intros u. rewrite (inv_held _ H). split; [intros (k & E & Hkk); congruence|eauto]. }
  destruct (pop_last_spec g (vlock w t)) as (v & E & Hnd & Hv); [apply (inv_nodup _ H)|apply Hg, Ht|].
  unfold vlock_pop. rewrite E. simpl. eexists. split; [reflexivity|]. split; [reflexivity|].
  assert (forall u, vlock (set_lock (set_vlock w t v) g l') u = if decide (u = t) then v else vlock w u) as Ev
    by (intros u; apply vlock_set_vlock).
  apply (inv_change w _ g l l'); auto.
  - intros u. rewrite Ev. case_decide; [exact Hnd|apply (inv_nodup _ H)].
  - intros u x Hx. rewrite Ev. case_decide as Eu; [subst u; rewrite Hv; tauto|reflexivity].
  - intros u. rewrite Ev, Hh, <- Hg. case_decide as Eu; [subst u; rewrite Hv; tauto|tauto].
  - intros u Hu. rewrite Ev. case_decide as Eu; [subst u; rewrite Hv; tauto|auto].
Qed.

Lemma inv_stop_waiting w t : inv w -> inv (set_waiting_on w t None).
Proof.
  intros [H1 H2 H3 H4 H5]. split; simpl; auto.
  - intros v x r p Hv. apply lookup_delete_Some in Hv as [_ Hv]. apply (H4 v x r p Hv).
  - intros v u x y r s Hv Hu. apply lookup_delete_Some in Hv as [_ Hv].
    apply lookup_delete_Some in Hu as [_ Hu]. apply (H5 v u x y r s Hv Hu).
Qed.

Lemma inv_request w t g r :
  inv w -> 0 <= t -> (exists l, locks w !! g = Some l /\ request_ok l r) ->
  inv (set_waiting_on w t (Some (g, r, Requesting))).
Proof.
  intros [H1 H2 H3 H4 H5] Ht Hg. split; simpl; auto.
  - intros v x s p Hv. apply lookup_insert_Some in Hv as [[<- Hv]|[_ Hv]]; [|apply (H4 v x s p Hv)].
    injection Hv as <- <- <-. auto.
  - intros v u x y r' s Hv Hu.
    apply lookup_insert_Some in Hv as [[_ Hv]|[_ Hv]]; [discriminate|].
    apply lookup_insert_Some in Hu as [[_ Hu]|[_ Hu]]; [discriminate|].
    apply (H5 v u x y r' s Hv Hu).
Qed.

(** Going to sleep after the test of [waitOn]. *)
Lemma inv_sleep w t g r l :
  inv w -> waiting_on w !! t = Some (g, r, Requesting) -> locks w !! g = Some l ->
  existsb (would_deadlock w t) (holders l) = false ->
  inv (set_waiting_on w t (Some (g, r, Sleeping))).
Proof.
  intros [H1 H2 H3 H4 H5] Ht Hl Hd.
  assert (forall u h s p, g ∈ vlock w u -> waiting_on w !! u = Some (h, s, p) -> h ∈ vlock w t -> False) as Hno.
  { intros u h s p Hu Hw Hh. apply H3 in Hu as (l' & E & Hu). replace l' with l in Hu by congruence.
    assert (existsb (would_deadlock w t) (holders l) = true); [|congruence].
    apply existsb_exists. exists u. split; [apply list_elem_of_In, holders_spec, Hu|].
    unfold would_deadlock, wait_lock. rewrite Hw. simpl. apply vlock_find_spec. exact Hh. }
  split; simpl; auto.
  - intros v x s p Hv. apply lookup_insert_Some in Hv as [[<- Hv]|[_ Hv]]; [|apply (H4 v x s p Hv)].
    injection Hv as <- <- <-. apply (H4 t g r Requesting Ht).
  - intros v u x y r' s Hv Hu Hxu Hyv.
    apply lookup_insert_Some in Hv as [[<- Hv]|[_ Hv]]; apply lookup_insert_Some in Hu as [[<- Hu]|[_ Hu]].
    + injection Hv as <- <-. injection Hu as <- <-. apply (Hno t g r Requesting Hxu Ht Hyv).
    + injection Hv as <- <-. apply (Hno u y s Sleeping Hxu Hu Hyv).
    + injection Hu as <- <-. apply (Hno v x r' Sleeping Hyv Hv Hxu).
    + apply (H5 v u x y r' s Hv Hu Hxu Hyv).
Qed.

(** ** The operations keep the invariant *)

Lemma holds_held w g l t : inv w -> locks w !! g = Some l -> (g ∈ vlock w t <-> holds l t).
Proof.
  intros H Hl. rewrite (inv_held _ H). split; [intros (k & E & Hk); congruence|eauto].
Qed.

(** What changes of the counters do not touch. *)
Lemma count_waiter_same l r d :
  tid (count_waiter l r d) = tid l /\ tmap (count_waiter l r d) = tmap l /\
  kind (count_waiter l r d) = kind l /\ count (count_waiter l r d) = count l /\
  num_readers (count_waiter l r d) = num_readers l.
Proof. destruct r; auto. Qed.

Lemma lock_ok_same l l' :
  lock_ok l -> tid l' = tid l -> tmap l' = tmap l -> kind l' = kind l -> count l' = count l ->
  num_readers l' = num_readers l -> lock_ok l' /\ (forall t, holds l' t <-> holds l t).
Proof.
  intros [? ? ? ? ? ? ?] E1 E2 E3 E4 E5.
  split; [split; rewrite ?E1, ?E2, ?E3, ?E4, ?E5; assumption|].
  intros t. unfold holds. rewrite E1, E2. reflexivity.
Qed.

Lemma inv_count_waiter w g l r d :
  inv w -> locks w !! g = Some l -> inv (set_lock w g (count_waiter l r d)).
Proof.
  intros H Hl. destruct (count_waiter_same l r d) as (E1 & E2 & E3 & E4 & E5).
  destruct (lock_ok_same l (count_waiter l r d) (inv_locks _ H g l Hl) E1 E2 E3 E4 E5) as [Hok Hh].
  apply (inv_set_lock w g l); auto.
Qed.

(** The lock is free for a writer, or held by it (VRMutex). *)
Definition can_grab (l : lock) (t : Z) : Prop :=
  (tid l = Lock_Unlocked /\ num_readers l = 0) \/ (kind l = VRMutex /\ tid l = t).

Lemma lock_ok_free l : lock_ok l -> num_readers l = 0 -> tmap l = ∅.
Proof.
  intros H E. rewrite (lo_readers _ H) in E. apply (sum_readers_pos (tmap l)); [|exact E].
  intros t n Hn. apply (lo_pos _ H t n Hn).
Qed.

Lemma finish_grab_inv w t g l :
  inv w -> locks w !! g = Some l -> waiting_on w !! t = None -> 0 <= t -> can_grab l t ->
  inv (snd (finish_grab w t g l)).
Proof.
  intros H Hl Hn Ht Hc. pose proof (inv_locks _ H g l Hl) as Hok. unfold finish_grab.
  assert (kind l = VRMutex -> tid l <> Lock_Deleted) as Hd
    by (intros _; destruct Hc as [[E _]|[_ E]]; rewrite E; unfold Lock_Unlocked, Lock_Deleted; lia).
  assert (forall l', tid l = Lock_Unlocked -> num_readers l = 0 ->
            tid l' = t -> tmap l' = tmap l -> kind l' = kind l -> num_readers l' = num_readers l ->
            (kind l = VRMutex -> 0 < count l') -> inv (set_lock (vlock_push w t g) g l')) as Hfree.
  { intros l' Eu En E1 E2 E3 E5 Ec. pose proof (lock_ok_free l Hok En) as Em.
    apply (inv_acquire w g l l' t H Hl); [|exact E3|exact Hn| |].
    - destruct Hok. split; rewrite ?E1, ?E2, ?E3, ?E5, ?Em; auto; try lia; try apply map_Forall_empty.
      intros Hk _. specialize (Ec Hk). lia.
    - unfold holds. rewrite Eu, Em, lookup_empty. simpl. intros [? [=]].
    - intros u. unfold holds. rewrite E1, E2, Em, Eu, lookup_empty. simpl.
      destruct (Z.leb_spec 0 t); [|lia]. split; [auto|]. intros [[? [=]]|E]; exact E. }
  destruct (kind l) eqn:Ek; simpl.
  - destruct Hc as [[Eu En]|[? _]]; [|congruence]. apply Hfree; auto; congruence.
  - destruct (lo_count _ Hok Ek (Hd eq_refl)) as [Hcount Hpos].
    destruct (Z.eqb_spec (count l) 0) as [E0|E0]; simpl.
    + destruct Hc as [[Eu En]|[_ Eu]]; [|exfalso; lia].
      apply Hfree; auto. simpl. lia.
    + apply (inv_set_lock w g l); [exact H|exact Hl| |reflexivity|reflexivity].
      destruct Hok. split; simpl; auto. intros _ Hdel. lia.
  - destruct Hc as [[Eu En]|[? _]]; [|congruence]. apply Hfree; auto; congruence.
Qed.

Lemma finish_read_inv w t g l :
  inv w -> locks w !! g = Some l -> waiting_on w !! t = None -> 0 <= t -> tid l = Lock_Unlocked ->
  kind l = RWLock -> inv (snd (finish_read w t g l)).
Proof.
  intros H Hl Hn Ht Eu Ek. pose proof (inv_locks _ H g l Hl) as Hok. unfold finish_read.
  destruct (tmap l !! t) as [n|] eqn:Em; simpl.
  - apply (inv_set_lock w g l _ H Hl); [|reflexivity|].
    + destruct Hok. split; simpl; try congruence; try (rewrite Eu; unfold Lock_Unlocked, Lock_Deleted; lia).
      * rewrite (sum_readers_update _ _ _ _ Em). lia.
      * apply map_Forall_insert_2; [|assumption]. destruct (lo_pos0 t n Em). lia.
    + intros u. unfold holds. simpl. rewrite Eu. simpl. rewrite lookup_insert_is_Some. split.
      * intros [<-|[_ Hu]]; [rewrite Em; eauto|exact Hu].
      * intros Hu. destruct (decide (t = u)); auto.
  - apply (inv_acquire w g l _ t H Hl); [|reflexivity|exact Hn| |].
    + destruct Hok. split; simpl; try congruence; try (rewrite Eu; unfold Lock_Unlocked, Lock_Deleted; lia).
      * rewrite sum_readers_insert by exact Em. lia.
      * apply map_Forall_insert_2; [lia|assumption].
    + unfold holds. rewrite Eu, Em. simpl. intros [? [=]].
    + intros u. unfold holds. simpl. rewrite Eu. simpl. rewrite lookup_insert_is_Some.
      destruct (decide (t = u)) as [->|Hne]; [tauto|]. split; [tauto|]. intros [Hu| ->]; tauto.
Qed.

Lemma grab_loop_go l t : lock_ok l -> grab_loop l = VGo -> can_grab l t.
Proof.
  intros H. unfold grab_loop, can_grab. pose proof (lo_tid _ H). unfold Lock_Deleted, Lock_Unlocked.
  destruct (kind l) eqn:Ek.
  - destruct (Z.leb_spec 0 (tid l)); [discriminate|]. destruct (Z.eqb_spec (tid l) (-2)); [discriminate|].
    intros _. left. split; [lia|]. rewrite (lo_readers _ H), (lo_kind _ H) by congruence. reflexivity.
  - destruct (Z.eqb_spec (tid l) (-1)); [|destruct (Z.eqb_spec (tid l) (-2)); discriminate].
    intros _. left. split; [assumption|]. rewrite (lo_readers _ H), (lo_kind _ H) by congruence. reflexivity.
  - destruct (Z.leb_spec 0 (tid l)); [discriminate|]. destruct (Z.eqb_spec (tid l) (-1)); simpl.
    + destruct (Z.eqb_spec (num_readers l) 0); [|discriminate]. simpl.
      destruct (Z.eqb_spec (tid l) (-2)); [discriminate|]. auto.
    + destruct (Z.eqb_spec (tid l) (-2)); [discriminate|lia].
Qed.

Lemma grabImpl_go l t : lock_ok l -> grabImpl l t = VGo -> can_grab l t.
Proof.
  intros H. unfold grabImpl. destruct (kind l) eqn:Ek.
  - destruct (tid l =? t); [discriminate|apply grab_loop_go, H].
  - destruct (Z.eqb_spec (tid l) t); simpl; [|apply grab_loop_go, H].
    intros _. right. auto.
  - destruct (tid l =? t); [discriminate|apply grab_loop_go, H].
Qed.

Lemma read_loop_go l : lock_ok l -> read_loop l = VGo -> tid l = Lock_Unlocked.
Proof.
  intros H. unfold read_loop. pose proof (lo_tid _ H). unfold Lock_Deleted, Lock_Unlocked.
  destruct (Z.leb_spec 0 (tid l)); [discriminate|]. destruct (Z.eqb_spec (tid l) (-2)); [discriminate|].
  intros _. lia.
Qed.

Lemma proceed_inv w t g l r v :
  inv w -> locks w !! g = Some l -> waiting_on w !! t = None -> 0 <= t -> request_ok l r ->
  (v = VGo -> match r with Grab _ => can_grab l t | ReadLock _ => tid l = Lock_Unlocked end) ->
  inv (snd (proceed w t g l r v)).
Proof.
  intros H Hl Hn Ht Hr Hv. destruct v; simpl.
  - destruct r; simpl.
    + apply finish_grab_inv; auto.
    + apply finish_read_inv; auto.
  - apply inv_request; [apply inv_count_waiter; assumption|exact Ht|]. simpl. rewrite lookup_insert_eq.
    eexists. split; [reflexivity|]. destruct r; exact Hr.
  - exact H.
Qed.

Lemma call_inv w t g r :
  inv w -> enabled w (ACall t g r) -> exists x w', exec w (ACall t g r) = Some (x, w') /\ inv w'.
Proof.
  intros H (Ht & Hn & _ & l & Hl & Hr). simpl. unfold call. rewrite Hl. simpl.
  pose proof (inv_locks _ H g l Hl) as Hok.
  destruct (proceed _ _ _ _ _ _) as [x w'] eqn:E. exists x, w'. split; [reflexivity|].
  change w' with (snd (x, w')). rewrite <- E. apply proceed_inv; auto.
  destruct r; [apply grabImpl_go, Hok|]. unfold readLockImpl. destruct (tid l =? t); [discriminate|].
  apply read_loop_go, Hok.
Qed.

Lemma wait_check_inv w t :
  inv w -> enabled w (ACheck t) -> exists x w', exec w (ACheck t) = Some (x, w') /\ inv w'.
Proof.
  intros H (g & r & Ht). simpl. unfold wait_check. rewrite Ht. simpl.
  destruct (inv_waits _ H _ _ _ _ Ht) as [_ (l & Hl & _)]. rewrite Hl. simpl.
  destruct (existsb _ _) eqn:E; eexists _, _; (split; [reflexivity|]).
  - apply inv_stop_waiting, inv_count_waiter; assumption.
  - apply (inv_sleep w t g r l); assumption.
Qed.

Lemma wake_inv w t b :
  inv w -> enabled w (AWake t b) -> exists x w', exec w (AWake t b) = Some (x, w') /\ inv w'.
Proof.
  intros H (g & r & Ht & _). simpl. unfold wake. rewrite Ht. simpl.
  destruct (inv_waits _ H _ _ _ _ Ht) as [H0 (l & Hl & Hr)]. rewrite Hl. simpl.
  set (l1 := count_waiter l r (-1)). set (w1 := set_waiting_on (set_lock w g l1) t None).
  assert (inv w1) as H1 by (apply inv_stop_waiting, inv_count_waiter; assumption).
  destruct b; [eexists _, _; split; [reflexivity|exact H1]|].
  assert (locks w1 !! g = Some l1) as Hl1 by apply lookup_insert_eq.
  pose proof (inv_locks _ H1 g l1 Hl1) as Hok.
  destruct (proceed _ _ _ _ _ _) as [x w'] eqn:E. exists x, w'. split; [reflexivity|].
  change w' with (snd (x, w')). rewrite <- E.
  apply proceed_inv; auto; [apply lookup_delete_eq|destruct r; exact Hr|].
  destruct r; [apply grab_loop_go, Hok|apply read_loop_go, Hok].
Qed.

Lemma finish_grab_ok w t g l :
  inv w -> locks w !! g = Some l -> waiting_on w !! t = None -> 0 <= t ->
  exists x w', (can_grab l t -> Some (finish_grab w t g l) = Some (x, w') /\ inv w').
Proof.
  intros H Hl Hn Ht. destruct (finish_grab w t g l) as [x w'] eqn:E. exists x, w'. intros Hc.
  split; [reflexivity|]. change w' with (snd (x, w')). rewrite <- E. apply finish_grab_inv; auto.
Qed.

Lemma tryGrab_inv w t g :
  inv w -> enabled w (ATryGrab t g) -> exists x w', exec w (ATryGrab t g) = Some (x, w') /\ inv w'.
Proof.
  intros H (Ht & Hn & _ & l & Hl). simpl. unfold tryGrab. rewrite Hl. cbn [mbind option_bind].
  pose proof (inv_locks _ H g l Hl) as Hok.
  destruct (finish_grab_ok w t g l H Hl Hn Ht) as (x & w' & Hf).
  assert (kind l <> RWLock -> num_readers l = 0) as Hr
    by (intros Hk; rewrite (lo_readers _ Hok), (lo_kind _ Hok Hk); reflexivity).
  destruct (kind l) eqn:Ek.
  - destruct (Z.eqb_spec (tid l) Lock_Unlocked); simpl; [|eauto]. exists x, w'. apply Hf. left.
    split; [assumption|apply Hr; discriminate].
  - destruct (Z.eqb_spec (tid l) t), (Z.eqb_spec (tid l) Lock_Unlocked); simpl; eauto;
      exists x, w'; apply Hf; [right; auto|right; auto|left; split; [assumption|apply Hr; discriminate]].
  - destruct (Z.eqb_spec (tid l) Lock_Unlocked), (Z.eqb_spec (num_readers l) 0); simpl; eauto.
    exists x, w'. apply Hf. left. auto.
Qed.

Lemma tryReadLock_inv w t g :
  inv w -> enabled w (ATryReadLock t g) ->
  exists x w', exec w (ATryReadLock t g) = Some (x, w') /\ inv w'.
Proof.
  intros H (Ht & Hn & _ & l & Hl & Hk). simpl. unfold tryReadLock. rewrite Hl. simpl.
  destruct (Z.eqb_spec (tid l) Lock_Unlocked); simpl; [|eauto].
  destruct (finish_read w t g l) as [x w'] eqn:E. exists x, w'. split; [reflexivity|].
  change w' with (snd (x, w')). rewrite <- E. apply finish_read_inv; auto.
Qed.

(** ** Releasing *)

Lemma inv_signal w g l : inv w -> inv (signalImpl w g l) /\ inv (signalAllImpl w g l).
Proof.
  intros H. split.
  - unfold signalImpl. destruct (kind l); try apply inv_emit, H.
    destruct (prefer_writers l), (negb (waiting l =? 0)), (negb (readRequests l =? 0)); apply inv_emit, H.
  - unfold signalAllImpl. destruct (kind l); repeat apply inv_emit; exact H.
Qed.

Lemma owner_holds l : 0 <= tid l -> forall t, holds l t <-> t = tid l.
Proof. intros H t. unfold holds. destruct (Z.leb_spec 0 (tid l)); [reflexivity|lia]. Qed.

Lemma release_and_signal_inv w g l c :
  inv w -> locks w !! g = Some l -> 0 <= tid l -> (kind l = VRMutex -> c = 0) ->
  exists w', release_and_signal w g (set_count l c) = Some w' /\ inv w'.
Proof.
  intros H Hl Ht Hc. pose proof (inv_locks _ H g l Hl) as Hok. unfold release_and_signal. simpl.
  destruct (Z.leb_spec 0 (tid l)); [|lia].
  destruct (inv_release w g l (set_tid (set_count l c) Lock_Unlocked) (tid l) H Hl) as (w1 & -> & _ & H1).
  - destruct Hok. split; simpl; auto; try (unfold Lock_Unlocked; lia); try discriminate.
    intros Hk _. rewrite (Hc Hk). unfold Lock_Unlocked. lia.
  - reflexivity.
  - apply owner_holds; auto.
  - intros u. rewrite (owner_holds l Ht). unfold holds. simpl.
    rewrite (lo_writer _ Hok Ht), lookup_empty. split; [intros [? [=]]|tauto].
  - simpl. eexists. split; [reflexivity|]. apply inv_signal, H1.
Qed.

Lemma set_count_id l : set_count l (count l) = l.
Proof. destruct l. reflexivity. Qed.

Lemma release_inv w t g :
  inv w -> enabled w (ARelease t g) -> exists x w', exec w (ARelease t g) = Some (x, w') /\ inv w'.
Proof.
  intros H (Ht & _ & _ & l & Hl). simpl. unfold release. rewrite Hl. cbn [mbind option_bind].
  pose proof (inv_locks _ H g l Hl) as Hok.
  assert (tid l = t -> kind l <> VRMutex -> exists w', release_and_signal w g l = Some w' /\ inv w') as Hrel.
  { intros Et Hk. rewrite <- (set_count_id l). apply (release_and_signal_inv w g l); auto; [lia|contradiction]. }
  destruct (kind l) eqn:Ek.
  - destruct (tid l <? 0); [eauto|]. destruct (Z.eqb_spec (tid l) t) as [Et|]; simpl; [|eauto].
    destruct (Hrel Et) as (w' & -> & H'); [discriminate|]. simpl. eauto.
  - destruct (tid l =? Lock_Unlocked); [eauto|]. destruct (Z.eqb_spec (tid l) Lock_Deleted) as [|Hd]; [eauto|].
    destruct (Z.eqb_spec (tid l) t) as [Et|]; simpl; [|eauto].
    destruct (Z.eqb_spec (count l - 1) 0) as [Ec|Ec].
    + destruct (release_and_signal_inv w g l (count l - 1) H Hl) as (w' & -> & H'); [lia|auto|].
      simpl. eauto.
    + eexists _, _. split; [reflexivity|]. apply (inv_set_lock w g l); [exact H|exact Hl| |reflexivity|reflexivity].
      destruct (lo_count _ Hok Ek Hd). destruct Hok. split; simpl; auto. intros _ _. lia.
  - destruct (tid l =? Lock_Deleted); [eauto|]. destruct (tid l =? Lock_Unlocked); [eauto|].
    destruct (Z.eqb_spec (tid l) t) as [Et|]; simpl; [|eauto].
    destruct (Hrel Et) as (w' & -> & H'); [discriminate|]. simpl. eauto.
Qed.

(** A reader gives back its lock, or one of its recursive locks. *)
Lemma reader_tid l t n : lock_ok l -> tmap l !! t = Some n -> tid l = Lock_Unlocked.
Proof.
  intros Hok Hn. pose proof (lo_tid _ Hok). unfold Lock_Unlocked.
  assert (tmap l <> ∅) as Hne by (intros E; rewrite E, lookup_empty in Hn; discriminate).
  destruct (Z.lt_ge_cases (tid l) 0); [|destruct Hne; apply (lo_writer _ Hok); lia].
  destruct (Z.eq_dec (tid l) Lock_Deleted) as [E|E]; [destruct Hne; apply (lo_deleted _ Hok E)|].
  unfold Lock_Deleted in E. lia.
Qed.

Lemma reader_holds l t u n m :
  tid l = Lock_Unlocked -> tmap l !! t = Some n -> m = delete t (tmap l) ->
  (holds (set_readers l (num_readers l - n) m) u <-> holds l u /\ u <> t).
Proof.
  intros Et Hn ->. unfold holds. simpl. rewrite Et. simpl. rewrite lookup_delete_is_Some.
  split; intros [H1 H2]; auto.
Qed.

Lemma lock_ok_drop l t n :
  lock_ok l -> tmap l !! t = Some n -> kind l = RWLock ->
  lock_ok (set_readers l (num_readers l - n) (delete t (tmap l))).
Proof.
  intros Hok Hn Hk. pose proof (reader_tid l t n Hok Hn) as Et. destruct Hok.
  split; simpl; try congruence; auto; try (rewrite Et; unfold Lock_Unlocked, Lock_Deleted; lia).
  - rewrite (sum_readers_delete _ _ _ Hn). lia.
  - apply map_Forall_delete. assumption.
Qed.

Lemma reader_kind l t n : lock_ok l -> tmap l !! t = Some n -> kind l = RWLock.
Proof.
  intros Hok Hn. destruct (kind l) eqn:Ek; [| |reflexivity];
    rewrite (lo_kind _ Hok), lookup_empty in Hn by congruence; discriminate.
Qed.

Lemma readUnlock_inv w t g :
  inv w -> enabled w (AReadUnlock t g) ->
  exists x w', exec w (AReadUnlock t g) = Some (x, w') /\ inv w'.
Proof.
  intros H (Ht & _ & _ & l & Hl & Hk). simpl. unfold readUnlock. rewrite Hl. cbn [mbind option_bind].
  pose proof (inv_locks _ H g l Hl) as Hok.
  destruct (tid l =? t); [eauto|]. destruct (tid l =? Lock_Deleted); [eauto|].
  destruct (tmap l !! t) as [n|] eqn:En; [|eauto].
  pose proof (reader_tid l t n Hok En) as Et. destruct (lo_pos _ Hok t n En) as [_ Hn].
  unfold release_read_lock_intern. simpl. set (b := (_ && _)%bool).
  destruct (emit_same w b (Signal g)) as (E1 & _ & _).
  pose proof (inv_emit w b (Signal g) H) as He.
  destruct (Z.eqb_spec (n - 1) 0) as [E|E].
  - assert (n = 1) as -> by lia.
    destruct (inv_release (emit w b (Signal g)) g l (set_readers l (num_readers l - 1) (delete t (tmap l))) t He)
      as (w1 & -> & _ & H1); simpl; [rewrite E1; exact Hl|apply lock_ok_drop; auto|reflexivity| | |eauto].
    + unfold holds. rewrite Et. simpl. rewrite En. eauto.
    + intros u. apply (reader_holds l t u 1); auto.
  - simpl. eexists _, _. split; [reflexivity|].
    apply (inv_set_lock _ g l); [exact He|rewrite E1; exact Hl| |reflexivity|].
    + destruct Hok. split; simpl; try congruence; auto; try (rewrite Et; unfold Lock_Unlocked, Lock_Deleted; lia).
      * rewrite (sum_readers_update _ _ _ _ En). lia.
      * apply map_Forall_insert_2; [destruct (lo_pos0 t n En); lia|assumption].
    + intros u. unfold holds. simpl. rewrite Et. simpl. rewrite lookup_insert_is_Some.
      destruct (decide (t = u)) as [->|Hne]; [rewrite En; split; eauto|tauto].
Qed.

(** ** Deletion and the end of a thread *)

Lemma pop_all_spec g ts : forall w,
  NoDup ts -> (forall t, t ∈ ts -> g ∈ vlock w t) -> (forall t, NoDup (vlock w t)) ->
  exists w', pop_all w ts g = Some w' /\ locks w' = locks w /\ waiting_on w' = waiting_on w /\
    forall u, NoDup (vlock w' u) /\ forall x, x ∈ vlock w' u <-> x ∈ vlock w u /\ ~ (x = g /\ u ∈ ts).
Proof.
  induction ts as [|t ts IH]; intros w Hnd Hin Hv; simpl.
  - exists w. split; [reflexivity|]. split; [reflexivity|]. split; [reflexivity|].
    intros u. split; [apply Hv|]. intros x. split; [|tauto]. intros Hx. split; [exact Hx|].
    intros [_ Hu]. inversion Hu.
  - apply NoDup_cons in Hnd as [Ht Hnd].
    destruct (pop_last_spec g (vlock w t)) as (v & E & Hndv & Hvv); [apply Hv|apply Hin; left|].
    unfold vlock_pop. rewrite E. simpl.
    destruct (IH (set_vlock w t v)) as (w' & -> & El & Ew & Hw'); [exact Hnd| | |].
    + intros u Hu. rewrite vlock_set_vlock. case_decide as Eu; [subst u; contradiction|].
      apply Hin. right. exact Hu.
    + intros u. rewrite vlock_set_vlock. case_decide; [exact Hndv|apply Hv].
    + exists w'. split; [reflexivity|]. split; [exact El|]. split; [exact Ew|].
      intros u. destruct (Hw' u) as [H1 H2]. split; [exact H1|]. intros x. rewrite H2, vlock_set_vlock.
      rewrite elem_of_cons. case_decide as Eu; [subst u; rewrite Hvv; tauto|]. tauto.
Qed.

Lemma holders_nodup l : NoDup (holders l).
Proof.
  unfold holders. destruct (0 <=? tid l); [apply NoDup_singleton|]. apply NoDup_fst_map_to_list.
Qed.

(** The world after every holder was removed from the lock lists. *)
Lemma inv_deleted w w' g l l' :
  inv w -> locks w !! g = Some l -> kind l' = kind l -> tid l' = Lock_Deleted -> tmap l' = ∅ ->
  num_readers l' = 0 -> locks w' = locks w -> waiting_on w' = waiting_on w ->
  (forall u, NoDup (vlock w' u) /\
     forall x, x ∈ vlock w' u <-> x ∈ vlock w u /\ ~ (x = g /\ u ∈ holders l)) ->
  inv (set_lock w' g l').
Proof.
  intros H Hl Ek Et Em En El Ew Hv. apply (inv_change w _ g l l' H Hl).
  - split; rewrite ?Et, ?Em, ?En; auto; try (unfold Lock_Deleted; lia);
      try contradiction; try apply map_Forall_empty.
  - exact Ek.
  - simpl. rewrite El. reflexivity.
  - exact Ew.
  - intros u. apply Hv.
  - intros u x Hx. change (vlock (set_lock w' g l') u) with (vlock w' u). rewrite (proj2 (Hv u)). tauto.
  - intros u. change (vlock (set_lock w' g l') u) with (vlock w' u). rewrite (proj2 (Hv u)), holders_spec.
    rewrite (holds_held w g l u H Hl). unfold holds at 3. rewrite Et, Em, lookup_empty. simpl.
    split; [tauto|]. intros [? [=]].
  - intros u _. change (vlock (set_lock w' g l') u) with (vlock w' u). rewrite (proj2 (Hv u)). tauto.
Qed.

Lemma pop_holders w g l :
  inv w -> locks w !! g = Some l ->
  exists w', pop_all w (holders l) g = Some w' /\ locks w' = locks w /\ waiting_on w' = waiting_on w /\
    forall u, NoDup (vlock w' u) /\
      forall x, x ∈ vlock w' u <-> x ∈ vlock w u /\ ~ (x = g /\ u ∈ holders l).
Proof.
  intros H Hl. apply pop_all_spec; [apply holders_nodup| |apply (inv_nodup _ H)].
  intros t Ht. apply (holds_held w g l t H Hl), holders_spec, Ht.
Qed.

Lemma signalAll_same w g l :
  locks (signalAllImpl w g l) = locks w /\ vlocks (signalAllImpl w g l) = vlocks w /\
  waiting_on (signalAllImpl w g l) = waiting_on w.
Proof.
  unfold signalAllImpl. destruct (kind l), (negb (waiting l =? 0)), (negb (readRequests l =? 0)); auto.
Qed.

Lemma bind_Some {A B} (x : A) (f : A -> option B) : (Some x ≫= f) = f x.
Proof. reflexivity. Qed.

Lemma destructor_inv w t g :
  inv w -> enabled w (ADestroy t g) -> exists x w', exec w (ADestroy t g) = Some (x, w') /\ inv w'.
Proof.
  intros H (Ht & _ & _ & l & Hl). simpl. unfold destructor. rewrite Hl, bind_Some.
  pose proof (inv_locks _ H g l Hl) as Hok.
  set (b := (negb (num_readers l =? 0))%bool).
  set (w0 := match kind l with RWLock => emit w b (Broadcast g) | _ => w end).
  set (l0 := match kind l with RWLock => set_readers l 0 ∅ | _ => l end).
  assert (inv w0 /\ locks w0 !! g = Some l) as [H0 Hl0].
  { unfold w0. destruct (kind l); auto. destruct (emit_same w b (Broadcast g)) as (E & _).
    rewrite E. auto using inv_emit. }
  destruct (pop_holders w0 g l H0 Hl0) as (w1 & Ep & El & Ew & Hv).
  assert (tid l0 = tid l /\ kind l0 = kind l /\ tmap l0 = ∅ /\ num_readers l0 = 0) as (Et & Ek & Em & En).
  { unfold l0. pose proof (lo_kind _ Hok) as Hm. pose proof (lo_readers _ Hok) as Hr.
    destruct (kind l) eqn:Ek; simpl; auto; rewrite Hm in Hr |- * by discriminate; auto. }
  assert (match kind l with
            | RWLock =>
              w ← pop_all (emit w b (Broadcast g)) (map_to_list (tmap l)).*1 g;
              Some (w, set_readers l 0 ∅)
            | _ => Some (w, l)
            end = (w' ← pop_all w0 (if 0 <=? tid l then [] else holders l) g; Some (w', l0))) as ->.
  { unfold w0, l0, holders. pose proof (lo_kind _ Hok) as Hm. pose proof (lo_writer _ Hok) as Hw.
    destruct (Z.leb_spec 0 (tid l)).
    - rewrite Hw by assumption. destruct (kind l); reflexivity.
    - destruct (kind l); try reflexivity; rewrite Hm by discriminate; reflexivity. }
  unfold holders in Ep, Hv |- *. destruct (Z.leb_spec 0 (tid l)) as [Hle|Hlt].
  - cbn [pop_all mbind option_bind]. rewrite Et. destruct (Z.leb_spec 0 (tid l)); [|lia].
    simpl in Ep. destruct (vlock_pop w0 (tid l) g) as [w2|]; [|discriminate]. simpl in Ep |- *.
    injection Ep as ->. eexists _, _. split; [reflexivity|].
    destruct (signalAll_same w1 g l0) as (S1 & S2 & S3).
    apply (inv_deleted w0 _ g l); auto; try congruence.
    intros u. unfold vlock in *. rewrite S2. unfold holders. destruct (Z.leb_spec 0 (tid l)); [apply Hv|lia].
  - rewrite Ep. cbn [mbind option_bind]. rewrite Et. destruct (Z.leb_spec 0 (tid l)); [lia|].
    cbn [mbind option_bind]. eexists _, _. split; [reflexivity|].
    apply (inv_deleted w0 _ g l); auto.
    unfold holders. destruct (Z.leb_spec 0 (tid l)); [lia|exact Hv].
Qed.

Lemma cleanup_inv w t g :
  inv w -> enabled w (ACleanup t g) -> exists x w', exec w (ACleanup t g) = Some (x, w') /\ inv w'.
Proof.
  intros H (Ht & _ & _ & Hg). simpl. unfold cleanupImpl.
  pose proof Hg as (l & Hl & Hh)%(inv_held _ H). rewrite Hl. cbn [mbind option_bind].
  pose proof (inv_locks _ H g l Hl) as Hok.
  assert (kind l <> RWLock -> 0 <= tid l) as Hw.
  { intros Hk. unfold holds in Hh. destruct (Z.leb_spec 0 (tid l)); [assumption|].
    rewrite (lo_kind _ Hok Hk), lookup_empty in Hh. destruct Hh; discriminate. }
  assert (0 <= tid l -> tid l = t) as Hown by (intros Hp; symmetry; apply (owner_holds l Hp), Hh).
  destruct (kind l) eqn:Ek.
  - rewrite (proj2 (Z.eqb_eq _ _) (Hown (Hw ltac:(discriminate)))).
    destruct (release_and_signal_inv w g l (count l) H Hl) as (w' & E & H'); [apply Hw; discriminate|congruence|].
    rewrite set_count_id in E. rewrite E. simpl. eauto.
  - rewrite (proj2 (Z.eqb_eq _ _) (Hown (Hw ltac:(discriminate)))).
    destruct (release_and_signal_inv w g l 0 H Hl) as (w' & -> & H'); [apply Hw; discriminate|reflexivity|].
    simpl. eauto.
  - unfold holds in Hh. destruct (Z.leb_spec 0 (tid l)) as [Hp|Hp].
    + assert (num_readers l = 0) as -> by (rewrite (lo_readers _ Hok), (lo_writer _ Hok Hp); reflexivity).
      simpl. destruct (release_and_signal_inv w g l (count l) H Hl) as (w' & E & H'); [exact Hp|congruence|].
      rewrite set_count_id in E. unfold release_and_signal in E.
      destruct (vlock_pop w (tid l) g) as [w1|]; simpl in *; [|discriminate].
      destruct (Z.leb_spec 0 (tid l)); [|lia]. injection E as <-. eauto.
    + destruct Hh as [n Hn]. pose proof (reader_tid l t n Hok Hn) as Et.
      destruct (Z.eqb_spec (num_readers l) 0) as [E0|_]; simpl.
      { rewrite (lock_ok_free l Hok E0), lookup_empty in Hn. discriminate. }
      destruct (inv_release w g l (set_readers l (num_readers l - n) (delete t (tmap l))) t H Hl)
        as (w1 & -> & _ & H1); [apply lock_ok_drop; auto|reflexivity| | |].
      * unfold holds. rewrite Et. simpl. rewrite Hn. eauto.
      * intros u. apply (reader_holds l t u n); auto.
      * simpl. rewrite Hn. simpl. rewrite set_lock_emit. eexists _, _. split; [reflexivity|].
        apply inv_emit, H1.
Qed.

Lemma exec_inv w a : inv w -> enabled w a -> exists x w', exec w a = Some (x, w') /\ inv w'.
Proof.
  destruct a.
  - apply call_inv.
  - apply wait_check_inv.
  - apply wake_inv.
  - apply tryGrab_inv.
  - apply tryReadLock_inv.
  - apply release_inv.
  - apply readUnlock_inv.
  - apply destructor_inv.
  - apply cleanup_inv.
Qed.

(** ** Reachable worlds *)

(** New locks; no thread holds or waits for one. *)
Definition initial (w : world) : Prop :=
  map_Forall (fun _ l => exists k p, l = new_lock k p) (locks w) /\ vlocks w = ∅ /\ waiting_on w = ∅.

Inductive reachable : world -> Prop :=
  | reach_initial w : initial w -> reachable w
  | reach_step w a x w' : reachable w -> enabled w a -> exec w a = Some (x, w') -> reachable w'.

Lemma new_lock_ok k p : lock_ok (new_lock k p).
Proof.
  split; simpl; auto; try (unfold Lock_Unlocked; lia); try apply map_Forall_empty; reflexivity.
Qed.

Lemma initial_inv w : initial w -> inv w.
Proof.
  intros (Hl & Hv & Hw). assert (forall t, vlock w t = []) as E
    by (intros t; unfold vlock; rewrite Hv, lookup_empty; reflexivity).
  split.
  - intros g l Hg. destruct (Hl g l Hg) as (k & p & ->). apply new_lock_ok.
  - intros t. rewrite E. constructor.
  - intros t g. rewrite E. split; [intros Hin; inversion Hin|]. intros (l & Hg & Hh).
    destruct (Hl g l Hg) as (k & p & ->). unfold holds in Hh. simpl in Hh.
    rewrite lookup_empty in Hh. destruct Hh; discriminate.
  - intros t g r p. rewrite Hw, lookup_empty. discriminate.
  - intros t u g h r s. rewrite Hw, lookup_empty. discriminate.
Qed.

Lemma reachable_inv w : reachable w -> inv w.
Proof.
  induction 1 as [w H|w a x w' _ IH He E]; [apply initial_inv, H|].
  destruct (exec_inv w a IH He) as (x' & w1 & E' & H1). congruence.
Qed.

(** ** What the locks promise *)

(** C25: in every reachable world every enabled step runs without undefined
    behaviour; a lock is in the lock list of a thread exactly when the thread
    owns it or reads it; two threads hold the same lock only as readers of an
    RWLock that nobody owns; and the reader count is the number of read
    locks. *)
Theorem locks_exclusion w :
  reachable w ->
  (forall a, enabled w a -> exec w a <> None) /\
  forall g l, locks w !! g = Some l ->
    (forall t, g ∈ vlock w t <-> (if 0 <=? tid l then t = tid l else is_Some (tmap l !! t))) /\
    (forall t u, g ∈ vlock w t -> g ∈ vlock w u -> t <> u ->
       kind l = RWLock /\ tid l = Lock_Unlocked) /\
    num_readers l = sum_readers (tmap l).
Proof.
  intros H%reachable_inv. split.
  { intros a He. destruct (exec_inv w a H He) as (x & w' & -> & _). discriminate. }
  intros g l Hl. pose proof (inv_locks _ H g l Hl) as Hok. split; [|split].
  - intros t. exact (holds_held w g l t H Hl).
  - intros t u Ht Hu Hne. apply (holds_held w g l t H Hl) in Ht. apply (holds_held w g l u H Hl) in Hu.
    unfold holds in Ht, Hu. destruct (0 <=? tid l); [congruence|]. destruct Ht as [n Hn].
    split; [exact (reader_kind l t n Hok Hn)|exact (reader_tid l t n Hok Hn)].
  - apply (lo_readers _ Hok).
Qed.

(** C24: two threads never sleep in [waitOn], each waiting for a lock that the
    other holds, and no thread sleeps for a lock that it holds itself: the last
    one gets the exception THREAD-DEADLOCK instead. *)
Theorem no_mutual_wait w t u g h r s :
  reachable w ->
  waiting_on w !! t = Some (g, r, Sleeping) -> waiting_on w !! u = Some (h, s, Sleeping) ->
  ~ (g ∈ vlock w u /\ h ∈ vlock w t).
Proof.
  intros H%reachable_inv Ht Hu [Hg Hh]. exact (inv_cycle _ H t u g h r s Ht Hu Hg Hh).
Qed.

(** ** Concrete runs *)

Fixpoint exec_all (w : world) (acts : list action) : option (list result * world) :=
  match acts with
  | [] => Some ([], w)
  | a :: acts => '(x, w) ← exec w a; '(xs, w) ← exec_all w acts; Some (x :: xs, w)
  end.

(** Three mutexes and an RWLock. *)
Definition world4 : world :=
  World {[1%positive := new_lock SmartMutex false; 2%positive := new_lock SmartMutex false;
          3%positive := new_lock SmartMutex false; 4%positive := new_lock RWLock false]} ∅ ∅ [].

Lemma world4_reachable : reachable world4.
Proof.
  apply reach_initial. split; [|split; reflexivity]. unfold world4. simpl.
  repeat (apply map_Forall_insert_2; [unfold new_lock; eauto|]). apply map_Forall_empty.
Qed.

(** Thread 7 holds lock 1 and sleeps for lock 2, which thread 8 holds, which
    sleeps for lock 3 of thread 9. *)
Definition world_asleep : option world :=
  snd <$> exec_all world4
    [ACall 7 1 (Grab 0); ACall 8 2 (Grab 0); ACall 9 3 (Grab 0);
     ACall 7 2 (Grab 0); ACheck 7; ACall 8 3 (Grab 0); ACheck 8].

(** A checker for [enabled] on the calls of the examples. *)
Definition free_b (w : world) (g : lock_id) : bool :=
  bool_decide (map_Forall (fun _ (x : lock_id * request * phase) =>
    negb (bool_decide (x.1.1 = g)) || match x.2 with Sleeping => true | Requesting => false end = true)
    (waiting_on w)).

Lemma free_b_spec w g : free_b w g = true -> asl_free w g.
Proof.
  unfold free_b. rewrite bool_decide_eq_true. intros H t x Ht. specialize (H t x Ht). simpl in H.
  intros E. rewrite bool_decide_eq_true_2 in H by exact E. simpl in H.
  destruct x as [[? ?] []]; [discriminate|reflexivity].
Qed.

Definition mutex_of (w : world) (g : lock_id) : bool :=
  match locks w !! g with Some _ => true | None => false end.

Lemma reach_grab w t g to x w' :
  reachable w -> (0 <=? t) && free_b w g && mutex_of w g = true -> waiting_on w !! t = None ->
  exec w (ACall t g (Grab to)) = Some (x, w') -> reachable w'.
Proof.
  intros H Hb Hn E. apply andb_prop in Hb as [Hb Hm]. apply andb_prop in Hb as [H0 Hf].
  eapply reach_step; [exact H| |exact E]. apply Z.leb_le in H0. split; [exact H0|].
  split; [exact Hn|]. split; [apply free_b_spec, Hf|].
  unfold mutex_of in Hm. destruct (locks w !! g) as [l|]; [eauto|discriminate].
Qed.

Lemma world_asleep_reachable : match world_asleep with Some w => reachable w | None => False end.
Proof.
  pose proof world4_reachable as H.
  eapply (reach_grab _ 7 1 0) in H; [|vm_compute; reflexivity..].
  eapply (reach_grab _ 8 2 0) in H; [|vm_compute; reflexivity..].
  eapply (reach_grab _ 9 3 0) in H; [|vm_compute; reflexivity..].
  eapply (reach_grab _ 7 2 0) in H; [|vm_compute; reflexivity..].
  eapply (reach_step _ (ACheck 7)) in H; [|exists 2%positive, (Grab 0); reflexivity|vm_compute; reflexivity].
  eapply (reach_grab _ 8 3 0) in H; [|vm_compute; reflexivity..].
  eapply (reach_step _ (ACheck 8)) in H;
    [exact H|exists 3%positive, (Grab 0); reflexivity|vm_compute; reflexivity].
Qed.

Lemma locks_exclusion_witness :
  reachable world4 /\
  (enabled world4 (ATryReadLock 7 4) -> exec world4 (ATryReadLock 7 4) <> None).
Proof.
  split; [exact world4_reachable|]. apply (locks_exclusion world4 world4_reachable).
Defined.

Lemma no_mutual_wait_witness :
  match world_asleep with
  | Some w => ~ (2%positive ∈ vlock w 8 /\ 3%positive ∈ vlock w 7)
  | None => False
  end.
Proof.
  exact (no_mutual_wait _ 7 8 2 3 (Grab 0) (Grab 0) world_asleep_reachable eq_refl eq_refl).
Defined.

(** Thread 9 asks for the lock of thread 8, which waits for lock 3: the
    deadlock is detected. *)
Example deadlock_detected :
  (w ← world_asleep; fst <$> exec_all w [ACall 9 2 (Grab 0); ACheck 9])
  = Some [Waits; Error THREAD_DEADLOCK].
Proof. vm_compute. reflexivity. Qed.

(** A reader that asks for the write lock is its own deadlock; with a second
    reader, too. *)
Example upgrade_deadlock :
  (fst <$> exec_all world4 [ACall 7 4 (ReadLock 0); ACall 8 4 (ReadLock 0); ACall 7 4 (Grab 0); ACheck 7])
  = Some [Ok; Ok; Waits; Error THREAD_DEADLOCK].
Proof. vm_compute. reflexivity. Qed.

(** A cycle of three threads is not detected: all of them sleep. *)
Example three_threads_deadlock :
  match exec_all world4 [ACall 7 1 (Grab 0); ACall 8 2 (Grab 0); ACall 9 3 (Grab 0);
                         ACall 7 2 (Grab 0); ACheck 7; ACall 8 3 (Grab 0); ACheck 8;
                         ACall 9 1 (Grab 0); ACheck 9] with
  | Some (xs, w) =>
    xs = [Ok; Ok; Ok; Waits; Waits; Waits; Waits; Waits; Waits] /\
    map_Forall (fun _ x => x.2 = Sleeping) (waiting_on w) /\ size (waiting_on w) = 3%nat
  | None => False
  end.
Proof.
  vm_compute exec_all. split; [reflexivity|]. split; [|reflexivity].
  unfold waiting_on. apply map_Forall_lookup. intros t x.
  intros H. apply elem_of_map_to_list in H. vm_compute map_to_list in H.
  rewrite !elem_of_cons in H. destruct H as [H|[H|[H|H]]]; [injection H as _ ->; reflexivity..|].
  inversion H.
Qed.
