(* ===== verification/Counter.v ===== *)
(** * Condition variables and counters

    [QoreCondition::wait2] with its deadline, and [QoreCounter]: threads
    increment and decrement the counter and wait until it is zero. The steps
    are the parts of the calls between the points where other threads run; a
    thread sleeps in the condition variable until a broadcast, its timeout or
    for no reason at all. *)

From S2P Require Import Prelude.

#[local] Open Scope Z_scope.

(** ** The deadline of a wait *)

Inductive cond_wait := WaitForever | WaitUntil (tv_sec tv_nsec : Z).

(** [QoreCondition::wait2] at the time [now_sec], [now_usec] *)
Definition wait2 (now_sec now_usec timeout_ms : Z) : cond_wait :=
  if timeout_ms <? 0 then WaitForever
  else
    let secs := timeout_ms /c 1000 in
    let timeout_ms := timeout_ms - secs * 1000 in
    let nsecs := now_usec * 1000 + timeout_ms * 1000000 in
    let dsecs := nsecs /c 1000000000 in
    WaitUntil (now_sec + secs + dsecs) (nsecs - dsecs * 1000000000).

(** ** The counter *)

Module Counter.

Definition Cond_Deleted : Z := -1.

(** The calls of [waitForZero]: the one for Qore code, with its timeout, and
    the one for internal counters. *)
Inductive waiter := External (timeout_ms : Z) | Internal.

(** [sleepers] are the threads in [cond.wait], with the call they make, and
    whether a broadcast woke them up. *)
Record qore_counter_private := Counter {
  cnt : Z; waiting : Z; sleepers : gmap Z (waiter * bool) }.

Inductive result :=
  | Value (n : Z)                 (* the call returns n *)
  | COUNTER_ERROR (n : Z)         (* an exception was raised; the call returns n *)
  | Sleeps.                       (* the call goes on when the thread wakes up *)

Definition new_counter (nc : Z) : qore_counter_private := Counter nc 0 ∅.

(** [cond.broadcast()] *)
Definition broadcast (c : qore_counter_private) : qore_counter_private :=
  Counter (cnt c) (waiting c) ((λ p, (p.1, true)) <$> sleepers c).

Definition destructor (c : qore_counter_private) : result * qore_counter_private :=
  let d := Counter Cond_Deleted (waiting c) (sleepers c) in
  if negb (waiting c =? 0) then (COUNTER_ERROR 0, broadcast d) else (Value 0, d).

Definition inc (c : qore_counter_private) : result * qore_counter_private :=
  if 0 <=? cnt c then (Value (cnt c + 1), Counter (cnt c + 1) (waiting c) (sleepers c)) else (Value 0, c).

(** [dec()] of internal counters *)
Definition dec_internal (c : qore_counter_private) : result * qore_counter_private :=
  let d := Counter (cnt c - 1) (waiting c) (sleepers c) in
  (Value (cnt d), if (cnt d =? 0) && negb (waiting c =? 0) then broadcast d else d).

Definition dec (c : qore_counter_private) : result * qore_counter_private :=
  if cnt c =? Cond_Deleted then (COUNTER_ERROR (-1), c)
  else if cnt c =? 0 then (COUNTER_ERROR (-1), c)
  else dec_internal c.

(** The end of [waitForZero], where [rc] is the result of the last wait *)
Definition wait_done (t : Z) (k : waiter) (rc : Z) (c : qore_counter_private) : result * qore_counter_private :=
  let c := Counter (cnt c) (waiting c - 1) (sleepers c) in
  (match k with
   | External _ => if cnt c =? Cond_Deleted then COUNTER_ERROR (-1) else Value rc
   | Internal => Value 0
   end, c).

(** The condition of the loop of [waitForZero] *)
Definition must_wait (k : waiter) (c : qore_counter_private) : bool :=
  match k with
  | External _ => negb (cnt c =? 0) && negb (cnt c =? Cond_Deleted)
  | Internal => negb (cnt c =? 0)
  end.

Definition wait_loop (t : Z) (k : waiter) (rc : Z) (c : qore_counter_private) : result * qore_counter_private :=
  if must_wait k c
  then (Sleeps, Counter (cnt c) (waiting c) (<[t := (k, false)]> (sleepers c)))
  else wait_done t k rc c.

Definition waitForZero (t : Z) (k : waiter) (c : qore_counter_private) : result * qore_counter_private :=
  wait_loop t k 0 (Counter (cnt c) (waiting c + 1) (sleepers c)).

(** The thread [t] returns from [cond.wait] with the result [rc]; a timeout
    ends the loop. *)
Definition wake (t : Z) (rc : Z) (c : qore_counter_private) : result * qore_counter_private :=
  match sleepers c !! t with
  | None => (Sleeps, c)
  | Some (k, _) =>
    let c := Counter (cnt c) (waiting c) (delete t (sleepers c)) in
    if negb (rc =? 0) then wait_done t k rc c else wait_loop t k rc c
  end.

Definition getCount (c : qore_counter_private) : Z := cnt c.
Definition getWaiting (c : qore_counter_private) : Z := waiting c.

(** ** Steps *)

Definition ETIMEDOUT : Z := 110.

Inductive action :=
  | Inc | Dec | DecInternal | Destructor
  | WaitForZero (t : Z) (k : waiter)
  | Wake (t : Z) (timed_out : bool)
  | GetCount.

Definition exec (a : action) (c : qore_counter_private) : result * qore_counter_private :=
  match a with
  | Inc => inc c
  | Dec => dec c
  | DecInternal => dec_internal c
  | Destructor => destructor c
  | WaitForZero t k => waitForZero t k c
  | Wake t timed_out => wake t (if timed_out : bool then ETIMEDOUT else 0) c
  | GetCount => (Value (getCount c), c)
  end.

Definition has_timeout (k : waiter) : bool := match k with External ms => 0 <? ms | Internal => false end.

(** A thread makes one call at a time, only a call with a timeout times out, an
    internal counter is decremented as often as it was incremented, and the
    destructor runs once. *)
Definition enabled (a : action) (c : qore_counter_private) : Prop :=
  match a with
  | Inc | Dec | GetCount => True
  | DecInternal => 0 < cnt c
  | Destructor => cnt c <> Cond_Deleted
  | WaitForZero t _ => sleepers c !! t = None
  | Wake t timed_out =>
    exists k b, sleepers c !! t = Some (k, b) /\ (timed_out = true -> has_timeout k = true)
  end.

Inductive reachable : qore_counter_private -> Prop :=
  | reach_new nc : 0 <= nc -> reachable (new_counter nc)
  | reach_step a c : reachable c -> enabled a c -> reachable (snd (exec a c)).

(** ** The invariant *)

Record inv (c : qore_counter_private) : Prop := {
  inv_cnt : Cond_Deleted <= cnt c;
  inv_waiting : waiting c = Z.of_nat (size (sleepers c));
  (* no wake-up is lost *)
  inv_notified t k b : sleepers c !! t = Some (k, b) ->
    match k with External _ => cnt c <= 0 | Internal => cnt c = 0 end -> b = true }.

Lemma inv_new nc : 0 <= nc -> inv (new_counter nc).
Proof. intros H. split; simpl; [unfold Cond_Deleted; lia|reflexivity|intros t k b; rewrite lookup_empty; discriminate]. Qed.

Lemma broadcast_lookup c t k b : sleepers (broadcast c) !! t = Some (k, b) -> b = true /\ exists b', sleepers c !! t = Some (k, b').
Proof.
  simpl. rewrite lookup_fmap. intros H. apply fmap_Some in H as ([k' b'] & H & [= -> ->]).
  split; [reflexivity|]. exists b'. exact H.
Qed.

Lemma broadcast_size c : size (sleepers (broadcast c)) = size (sleepers c).
Proof. apply map_size_fmap. Qed.

Lemma nobody_sleeps c t : inv c -> waiting c = 0 -> sleepers c !! t = None.
Proof.
  intros I W. assert (size (sleepers c) = 0%nat) as E by (pose proof (inv_waiting _ I); lia).
  apply map_size_empty_inv in E. rewrite E. apply lookup_empty.
Qed.

(** A new count of a counter whose threads are woken up when there are any *)
Lemma inv_count c n :
  inv c -> Cond_Deleted <= n ->
  inv (if negb (waiting c =? 0) then broadcast (Counter n (waiting c) (sleepers c))
       else Counter n (waiting c) (sleepers c)).
Proof.
  intros I Hn. destruct (Z.eqb_spec (waiting c) 0) as [W|W]; simpl.
  - split; simpl; [exact Hn|apply I|]. intros t k b H. rewrite (nobody_sleeps c t I W) in H. discriminate.
  - split; simpl; [exact Hn| |].
    + rewrite map_size_fmap. apply I.
    + intros t k b H. apply (broadcast_lookup c) in H as [-> _]. reflexivity.
Qed.

Lemma inv_up c n : inv c -> 0 < n -> inv (Counter n (waiting c) (sleepers c)).
Proof.
  intros I Hn. split; simpl; [unfold Cond_Deleted; lia|apply I|]. intros t k b _ H. destruct k; lia.
Qed.

Lemma inv_dec_internal c : inv c -> 0 < cnt c -> inv (snd (dec_internal c)).
Proof.
  intros I Hc. unfold dec_internal. simpl. destruct (Z.eqb_spec (cnt c - 1) 0) as [E|E]; simpl.
  - apply (inv_count c (cnt c - 1) I). unfold Cond_Deleted. lia.
  - apply inv_up; [exact I|lia].
Qed.

Lemma must_wait_false k c : inv c -> must_wait k c = false ->
  match k with External _ => cnt c <= 0 | Internal => cnt c = 0 end.
Proof.
  intros I. pose proof (inv_cnt _ I). unfold must_wait, Cond_Deleted in *. destruct k; intros H1; lia.
Qed.

Lemma must_wait_true k c : inv c -> must_wait k c = true ->
  match k with External _ => 0 < cnt c | Internal => cnt c <> 0 end.
Proof.
  intros I. pose proof (inv_cnt _ I). unfold must_wait, Cond_Deleted in *. destruct k; intros H1; lia.
Qed.

(** A thread that is counted and does not sleep goes on in the loop. *)
Lemma inv_loop c t k rc :
  inv (Counter (cnt c) (waiting c - 1) (sleepers c)) -> sleepers c !! t = None ->
  inv (snd (wait_loop t k rc c)) /\ inv (snd (wait_done t k rc c)).
Proof.
  intros I N. split; [|exact I]. unfold wait_loop. destruct (must_wait k c) eqn:M; [|exact I].
  apply (must_wait_true k _ I) in M. simpl in M. split; simpl; [apply I| |].
  - rewrite map_size_insert_None by exact N. pose proof (inv_waiting _ I). simpl in *. lia.
  - intros u k' b. destruct (decide (t = u)) as [<-|Ne].
    + rewrite lookup_insert_eq. intros [= <- <-]. destruct k; lia.
    + rewrite lookup_insert_ne by exact Ne. exact (inv_notified _ I u k' b).
Qed.

Lemma inv_exec a c : inv c -> enabled a c -> inv (snd (exec a c)).
Proof.
  intros I E. destruct a as [| | | |t k|t b|]; simpl in E |- *.
  - unfold inc. destruct (Z.leb_spec 0 (cnt c)); [|exact I]. apply inv_up; [exact I|lia].
  - pose proof (inv_cnt _ I). unfold dec, Cond_Deleted in *. destruct (Z.eqb_spec (cnt c) (-1)); [exact I|].
    destruct (Z.eqb_spec (cnt c) 0); [exact I|]. apply inv_dec_internal; [exact I|lia].
  - apply inv_dec_internal; assumption.
  - pose proof (inv_count c Cond_Deleted I (Z.le_refl _)) as H. unfold destructor.
    destruct (negb (waiting c =? 0)); exact H.
  - apply inv_loop; [|exact E]. destruct I. split; simpl; [assumption|lia|assumption].
  - destruct E as (k & b' & Hs & _). unfold wake. rewrite Hs.
    assert (inv (Counter (cnt c) (waiting c - 1) (delete t (sleepers c)))) as I'.
    { split; simpl; [apply I| |].
      - pose proof (inv_waiting _ I) as W. rewrite map_size_delete_Some by (eexists; exact Hs).
        assert (size (sleepers c) <> 0%nat); [|lia]. intros Z0. apply map_size_empty_inv in Z0.
        rewrite Z0, lookup_empty in Hs. discriminate.
      - intros u k' b''. rewrite lookup_delete_Some. intros [_ H]. exact (inv_notified _ I u k' b'' H). }
    destruct (negb _); (apply inv_loop; [exact I'|apply lookup_delete_eq]).
  - exact I.
Qed.

Lemma counter_reachable_inv c : reachable c -> inv c.
Proof. induction 1; [apply inv_new; assumption|apply inv_exec; assumption]. Qed.

(** ** Runs *)

(** An infinite run: the counters, and the step that is made in each. *)
Record run := Run { counter_at : nat -> qore_counter_private; step_at : nat -> action }.

Definition valid (r : run) : Prop :=
  reachable (counter_at r 0%nat) /\
  forall n, enabled (step_at r n) (counter_at r n) /\
    counter_at r (S n) = snd (exec (step_at r n) (counter_at r n)).

Definition notified (t : Z) (c : qore_counter_private) : Prop := exists k, sleepers c !! t = Some (k, true).

(** The scheduler lets a thread that was woken up by a broadcast run at some
    time. *)
Definition fair (r : run) : Prop := forall t n,
  exists m, (n <= m)%nat /\ (notified t (counter_at r m) -> exists b, step_at r m = Wake t b).

Lemma valid_inv r n : valid r -> inv (counter_at r n).
Proof.
  intros [H0 H]. induction n as [|n IH]; [apply counter_reachable_inv, H0|].
  destruct (H n) as [E ->]. apply inv_exec; assumption.
Qed.

(** Without another increment a count that is not positive stays so, and is
    zero until the destructor runs. *)
Definition settled (k : waiter) (c : qore_counter_private) : Prop :=
  match k with External _ => cnt c <= 0 | Internal => cnt c = 0 end.
Definition no_more (k : waiter) (a : action) : Prop :=
  match a with Inc => False | Destructor => k <> Internal | _ => True end.

Lemma wait_loop_cnt t k rc c : cnt (snd (wait_loop t k rc c)) = cnt c.
Proof. unfold wait_loop. destruct (must_wait k c); reflexivity. Qed.

Lemma settled_exec k a c : enabled a c -> no_more k a -> settled k c -> settled k (snd (exec a c)).
Proof.
  intros E N S. assert (cnt c <= 0) as Hc by (destruct k; simpl in S; lia).
  destruct a as [| | | |t w|t b|]; simpl in *; try contradiction; try lia; try exact S.
  - unfold dec, Cond_Deleted. destruct (Z.eqb_spec (cnt c) (-1)); [exact S|].
    destruct (Z.eqb_spec (cnt c) 0); [exact S|]. destruct k; simpl in *; [|lia].
    unfold broadcast. destruct (_ && _); simpl; lia.
  - unfold destructor. destruct k; [|congruence]. destruct (negb _); simpl; unfold Cond_Deleted; lia.
  - destruct k; unfold settled, waitForZero; rewrite wait_loop_cnt; exact S.
  - unfold wake. destruct (sleepers c !! t) as [[w b']|]; [|exact S].
    destruct (negb _); [exact S|]. destruct k; unfold settled; rewrite wait_loop_cnt; exact S.
Qed.

(** A sleeping thread stays where it is until its own step, and stays
    notified. *)
Lemma asleep_exec t k a c :
  sleepers c !! t = Some (k, true) -> enabled a c ->
  (exists b, a = Wake t b) \/ sleepers (snd (exec a c)) !! t = Some (k, true).
Proof.
  intros Hs E.
  assert (forall u w rc c', u <> t -> sleepers c' !! t = Some (k, true) ->
    sleepers (snd (wait_loop u w rc c')) !! t = Some (k, true)) as L.
  { intros u w rc c' Ne H. unfold wait_loop. destruct (must_wait w c'); [|exact H].
    simpl. rewrite lookup_insert_ne by exact Ne. exact H. }
  assert (forall c', sleepers c' !! t = Some (k, true) -> sleepers (broadcast c') !! t = Some (k, true)) as B.
  { intros c' H. simpl. rewrite lookup_fmap, H. reflexivity. }
  destruct a as [| | | |u w|u b|]; simpl in *; try (right; exact Hs).
  - right. unfold inc. destruct (0 <=? cnt c); exact Hs.
  - right. unfold dec, dec_internal. simpl. destruct (cnt c =? Cond_Deleted); [exact Hs|].
    destruct (cnt c =? 0); [exact Hs|]. simpl. destruct (_ && _); [apply B|]; exact Hs.
  - right. destruct (_ && _); [apply B|]; exact Hs.
  - right. unfold destructor. destruct (negb _); [apply B|]; exact Hs.
  - right. apply L; [congruence|exact Hs].
  - destruct (decide (u = t)) as [->|Ne]; [left; eauto|]. right. destruct E as (w & b' & Hu & _).
    unfold wake. rewrite Hu.
    assert (sleepers (Counter (cnt c) (waiting c) (delete u (sleepers c))) !! t = Some (k, true)) as D
      by (simpl; rewrite lookup_delete_ne by exact Ne; exact Hs).
    destruct (negb _); [exact D|apply L; [exact Ne|exact D]].
Qed.

(** The step that ends the wait: the value 0, a timeout, or the exception. *)
Lemma wake_returns t b k b' c :
  sleepers c !! t = Some (k, b') -> settled k c -> inv c ->
  fst (exec (Wake t b) c) = Value 0 \/ fst (exec (Wake t b) c) = Value ETIMEDOUT \/
  fst (exec (Wake t b) c) = COUNTER_ERROR (-1).
Proof.
  intros Hs S I. simpl. unfold wake. rewrite Hs.
  assert (forall c', cnt c' = cnt c -> must_wait k c' = false) as M.
  { intros c' E. pose proof (inv_cnt _ I). unfold must_wait, Cond_Deleted in *. destruct k; simpl in S; lia. }
  destruct b; simpl; [|unfold wait_loop; rewrite M by reflexivity; simpl]; destruct k; simpl;
    destruct (cnt c =? Cond_Deleted); auto.
Qed.
End Counter.

(** C32: No wait of a counter is forgotten. In a run in which the scheduler lets every thread that a
    broadcast woke up run at some time, a thread that sleeps in [waitForZero] when the count reached zero
    (or, for the call of Qore code, when the counter was deleted) makes a step in which the call returns,
    provided that the count is not incremented again and that an internal counter is not deleted. *)
Theorem waitForZero_returns (r : Counter.run) t k b i :
  Counter.valid r -> Counter.fair r ->
  Counter.sleepers (Counter.counter_at r i) !! t = Some (k, b) ->
  Counter.settled k (Counter.counter_at r i) ->
  (forall j, (i <= j)%nat -> Counter.no_more k (Counter.step_at r j)) ->
  exists j timed_out, (i <= j)%nat /\ Counter.step_at r j = Counter.Wake t timed_out /\
    let x := fst (Counter.exec (Counter.step_at r j) (Counter.counter_at r j)) in
    x = Counter.Value 0 \/ x = Counter.Value Counter.ETIMEDOUT \/ x = Counter.COUNTER_ERROR (-1).
Proof.
  intros V F Hs S N.
  assert (forall j, (i <= j)%nat -> Counter.settled k (Counter.counter_at r j)) as HS.
  { induction 1 as [|j Hj IH]; [exact S|]. destruct V as [_ V]. destruct (V j) as [E ->].
    apply Counter.settled_exec; auto. }
  assert (b = true) as ->.
  { apply (Counter.inv_notified _ (Counter.valid_inv r i V) t k b Hs). exact S. }
  assert (forall j, (i <= j)%nat ->
    (exists m w, (i <= m)%nat /\ Counter.step_at r m = Counter.Wake t w /\
       Counter.sleepers (Counter.counter_at r m) !! t = Some (k, true)) \/
    Counter.sleepers (Counter.counter_at r j) !! t = Some (k, true)) as HA.
  { induction 1 as [|j Hj IH]; [right; exact Hs|]. destruct IH as [IH|IH]; [left; exact IH|].
    pose proof V as [_ V']. destruct (V' j) as [E ->].
    destruct (Counter.asleep_exec t k _ _ IH E) as [[w Hw]|H]; [left; eauto 6|right; exact H]. }
  assert (exists m w, (i <= m)%nat /\ Counter.step_at r m = Counter.Wake t w /\
    Counter.sleepers (Counter.counter_at r m) !! t = Some (k, true)) as (m & w & Hm & Hw & Ht).
  { destruct (F t i) as (m & Hm & Hf). destruct (HA m Hm) as [H|H]; [exact H|].
    destruct Hf as [w Hw]; [exists k; exact H|]. eauto 6. }
  exists m, w. split; [exact Hm|]. split; [exact Hw|]. cbv zeta. rewrite Hw.
  eapply Counter.wake_returns; [exact Ht|apply HS, Hm|apply Counter.valid_inv, V].
Qed.

Section run.
Import Counter.

(** A run: one thread waits for the count to go from one to zero. *)
Definition run1_step (n : nat) : action :=
  match n with
  | 0%nat => Inc
  | 1%nat => WaitForZero 7 (External 0)
  | 2%nat => Dec
  | 3%nat => Wake 7 false
  | _ => GetCount
  end.

Fixpoint run1_counter (n : nat) : qore_counter_private :=
  match n with O => new_counter 0 | S n => snd (exec (run1_step n) (run1_counter n)) end.

Definition run1 : run := Run run1_counter run1_step.

Lemma run1_end n : (4 <= n)%nat -> run1_counter n = Counter 0 0 ∅.
Proof.
  induction 1 as [|n H IH]; [vm_compute; reflexivity|]. cbn [run1_counter]. rewrite IH.
  do 4 (destruct n as [|n]; [lia|]). reflexivity.
Qed.

Lemma run1_valid : valid run1.
Proof.
  split; [apply reach_new; lia|]. intros n. split; [|reflexivity].
  destruct n as [|[|[|[|n]]]]; try exact I; [vm_compute; reflexivity|].
  exists (External 0), true. split; [vm_compute; reflexivity|discriminate].
Qed.

Lemma run1_fair : fair run1.
Proof.
  intros t n. exists (max n 4). split; [lia|]. intros [k H]. cbn [run1 counter_at] in H.
  rewrite run1_end in H by lia. discriminate.
Qed.

Lemma waitForZero_returns_witness :
  exists j timed_out, (3 <= j)%nat /\ step_at run1 j = Wake 7 timed_out /\
    let x := fst (exec (step_at run1 j) (counter_at run1 j)) in
    x = Value 0 \/ x = Value ETIMEDOUT \/ x = COUNTER_ERROR (-1).
Proof.
  apply (waitForZero_returns run1 7 (External 0) true 3 run1_valid run1_fair).
  - vm_compute. reflexivity.
  - apply Z.le_refl.
  - intros j Hj. do 3 (destruct j as [|j]; [lia|]). destruct j; exact I.
Defined.

(** In every reachable state the count is not negative unless the counter was deleted, [waiting] is
    the number of threads that sleep, every thread that sleeps although its condition holds was woken up,
    and the calls that cannot be carried out leave the counter as it is: [dec] raises COUNTER-ERROR at
    zero and after the deletion. *)
Theorem counter_invariant c :
  reachable c ->
  (0 <= cnt c \/ cnt c = Cond_Deleted) /\ waiting c = Z.of_nat (size (sleepers c)) /\
  (forall t k b, sleepers c !! t = Some (k, b) -> settled k c -> b = true) /\
  (cnt c <= 0 -> dec c = (COUNTER_ERROR (-1), c)) /\
  (0 < cnt c -> fst (dec c) = Value (cnt c - 1) /\ cnt (snd (dec c)) = cnt c - 1).
Proof.
  intros H%counter_reachable_inv. pose proof (inv_cnt _ H) as Hc. unfold Cond_Deleted in *.
  split; [lia|]. split; [apply H|]. split; [exact (inv_notified _ H)|].
  unfold dec, Cond_Deleted. split; intros Hp.
  - destruct (Z.eqb_spec (cnt c) (-1)); [reflexivity|]. destruct (Z.eqb_spec (cnt c) 0); [reflexivity|lia].
  - destruct (Z.eqb_spec (cnt c) (-1)); [lia|]. destruct (Z.eqb_spec (cnt c) 0); [lia|].
    unfold dec_internal. split; [reflexivity|]. simpl. destruct (_ && _); reflexivity.
Qed.

Lemma counter_invariant_witness :
  let c := snd (exec (WaitForZero 7 Internal) (snd (exec Inc (new_counter 1)))) in
  cnt (snd (dec c)) = 1 /\ waiting c = 1.
Proof.
  assert (reachable (snd (exec (WaitForZero 7 Internal) (snd (exec Inc (new_counter 1)))))) as R.
  { apply reach_step; [apply reach_step; [apply reach_new; lia|exact I]|reflexivity]. }
  destruct (counter_invariant _ R) as (_ & W & _ & _ & D). split; [apply D; reflexivity|exact W].
Defined.

(** ** What the code does beside its intention *)

(** A thread that was woken up when the count was zero finds the count
    incremented again and goes on sleeping: the comment in [waitForZero] says
    that any broadcast ends the wait. *)
Example missed_zero :
  let c := snd (exec Inc (new_counter 0)) in
  let c := snd (exec (WaitForZero 7 (External 0)) c) in
  let c := snd (exec Dec c) in
  let c := snd (exec Inc c) in
  sleepers c !! 7 = Some (External 0, true) /\ fst (exec (Wake 7 false) c) = Sleeps.
Proof. split; vm_compute; reflexivity. Qed.

(** A thread in [waitForZero()] of an internal counter does not return after
    the deletion of the counter. *)
Example internal_wait_after_deletion :
  let c := snd (exec Inc (new_counter 0)) in
  let c := snd (exec (WaitForZero 7 Internal) c) in
  let c := snd (exec Destructor c) in
  exec (Wake 7 false) c = (Sleeps, Counter Cond_Deleted 1 {[ 7 := (Internal, false) ]}).
Proof. vm_compute. reflexivity. Qed.
End run.

(** The deadline of a wait is the time of the call plus the timeout to the microsecond, with a
    nanosecond part between 0 and 999999999 as the system call requires; a negative timeout waits without
    a deadline. *)
Theorem wait2_deadline now_sec now_usec timeout_ms :
  0 <= now_usec < 1000000 ->
  match wait2 now_sec now_usec timeout_ms with
  | WaitForever => timeout_ms < 0
  | WaitUntil sec nsec =>
    0 <= timeout_ms /\ 0 <= nsec < 1000000000 /\
    sec * 1000000000 + nsec = now_sec * 1000000000 + now_usec * 1000 + timeout_ms * 1000000
  end.
Proof.
  intros Hu. unfold wait2. destruct (Z.ltb_spec timeout_ms 0) as [H|H]; [exact H|]. split; [exact H|].
  pose proof (Z.div_mod timeout_ms 1000). pose proof (Z.mod_pos_bound timeout_ms 1000).
  rewrite (Z.quot_div_nonneg timeout_ms) by lia.
  set (n := now_usec * 1000 + (timeout_ms - timeout_ms / 1000 * 1000) * 1000000).
  assert (0 <= n) as Hn by lia. rewrite (Z.quot_div_nonneg n) by lia.
  pose proof (Z.div_mod n 1000000000). pose proof (Z.mod_pos_bound n 1000000000). lia.
Qed.

Lemma wait2_deadline_witness :
  match wait2 100 999999 2500 with
  | WaitForever => 2500 < 0
  | WaitUntil sec nsec =>
    0 <= 2500 /\ 0 <= nsec < 1000000000 /\
    sec * 1000000000 + nsec = 100 * 1000000000 + 999999 * 1000 + 2500 * 1000000
  end.
Proof. apply (wait2_deadline 100 999999 2500). lia. Defined.
