(* ===== verification/DatasourcePool.v ===== *)
(** * Datasources and the datasource pool

    The transaction state of a [Datasource] around the calls of its driver,
    and [DatasourcePool]: the connections of the pool, the threads that hold
    or wait for one, and the helper that surrounds each method of the pool.
    The driver is not part of the repository: each call of it ends in one of
    the ways of [outcome], which the steps take as an argument. A failed
    assertion and the use of an absent map entry are [Crash]. *)

From S2P Require Import Prelude.

#[local] Open Scope Z_scope.

(** ** Datasources *)

(** A call of the driver ends without an exception and returns 0, raises an
    exception and returns -1, or does so after it has declared the
    connection lost ([connectionAborted]). *)
Inductive outcome := DrvOk | DrvExc | DrvAborted.

Definition raised (o : outcome) : bool := match o with DrvOk => false | _ => true end.

(** The driver's [open] raises an exception or not; when it did not, setting
    an option of the connection may still raise one. *)
Inductive open_outcome := OpenOk | OpenExc | OpenOptExc.

Record Datasource := mkDs {
  in_transaction : bool; active_transaction : bool; isopen : bool; autocommit : bool;
  connection_aborted : bool; keep_lock : bool; stmt_set : gset nat }.

(** The result of a call: the datasource and whether an exception was raised
    (the call returns -1 then, 0 otherwise). *)
Definition ds_result : Type := Datasource * bool.

Definition set_transaction (i a : bool) (d : Datasource) : Datasource :=
  mkDs i a (isopen d) (autocommit d) (connection_aborted d) (keep_lock d) (stmt_set d).

Definition addStatement (q : nat) (d : Datasource) : Datasource :=
  mkDs (in_transaction d) (active_transaction d) (isopen d) (autocommit d) (connection_aborted d)
    (keep_lock d) ({[q]} ∪ stmt_set d).

Definition removeStatement (q : nat) (d : Datasource) : Datasource :=
  mkDs (in_transaction d) (active_transaction d) (isopen d) (autocommit d) (connection_aborted d)
    (keep_lock d) (stmt_set d ∖ {[q]}).

(** [transactionDone]: what the statements do is not part of the datasource *)
Definition transactionDone (clear : bool) (d : Datasource) : Datasource :=
  mkDs (in_transaction d) (active_transaction d) (isopen d) (autocommit d) (connection_aborted d)
    (keep_lock d) (if clear then ∅ else stmt_set d).

Definition close (d : Datasource) : Datasource * Z :=
  if isopen d
  then (mkDs false false false (autocommit d) (connection_aborted d) (keep_lock d) (stmt_set d), 0)
  else (d, -1).

Definition connectionAborted (d : Datasource) : Datasource :=
  let d := transactionDone false d in
  (close (mkDs (in_transaction d) (active_transaction d) (isopen d) (autocommit d) true
            (keep_lock d) (stmt_set d))).1.

Definition drv_call (o : outcome) (d : Datasource) : ds_result :=
  (match o with DrvAborted => connectionAborted d | _ => d end, raised o).

(** [setStatementKeepLock] and [keepLock] *)
Definition setStatementKeepLock (q : nat) (d : Datasource) : Datasource :=
  addStatement q
    (mkDs true true (isopen d) (autocommit d) (connection_aborted d) true (stmt_set d)).

Definition keepLock (d : Datasource) : bool * Datasource :=
  (keep_lock d,
   mkDs (in_transaction d) (active_transaction d) (isopen d) (autocommit d) (connection_aborted d)
     false (stmt_set d)).

(** [statementExecuted]; [rc] is whether an exception was raised *)
Definition statementExecuted (rc : bool) (d : Datasource) : Datasource :=
  if negb (in_transaction d)
  then if negb (connection_aborted d) then set_transaction true true d else d
  else if negb rc && negb (active_transaction d) then set_transaction (in_transaction d) true d
  else d.

(** [open]: the datasource, the return value and whether an exception was
    raised *)
Definition open (o : open_outcome) (d : Datasource) : Datasource * Z * bool :=
  if isopen d then (d, 0, false)
  else
    let d := mkDs (in_transaction d) (active_transaction d) false (autocommit d) false
               (keep_lock d) (stmt_set d) in
    match o with
    | OpenOk => (mkDs (in_transaction d) (active_transaction d) true (autocommit d) false
                   (keep_lock d) (stmt_set d), 0, false)
    | OpenExc => (d, -1, true)
    | OpenOptExc => (d, 0, true)
    end.

(** [reset]: closes and opens the connection *)
Definition reset (o : open_outcome) (d : Datasource) : Datasource * bool :=
  if isopen d
  then
    let '(d, _, exc) :=
      open o (mkDs (in_transaction d) (active_transaction d) false (autocommit d)
                (connection_aborted d) (keep_lock d) (stmt_set d)) in
    (set_transaction false false d, exc)
  else (d, false).

Definition autoCommit (o : outcome) (d : Datasource) : ds_result :=
  if autocommit d && negb (connection_aborted d) then drv_call o d else (d, false).

(** The end of [select], [selectRow], [selectRows] and [describe] *)
Definition mark_active (exc : bool) (d : Datasource) : Datasource :=
  if in_transaction d && negb (active_transaction d) && negb exc
  then set_transaction (in_transaction d) true d else d.

Definition select (q a : outcome) (d : Datasource) : ds_result :=
  let '(d, exc) := drv_call q d in
  let '(d, exc') := autoCommit a d in
  (mark_active (exc || exc') d, exc || exc').

(** [beginImplicitTransaction]: an exception when the datasource is in
    autocommit mode *)
Definition beginImplicitTransaction (o : outcome) (d : Datasource) : ds_result :=
  if autocommit d then (d, true) else drv_call o d.

Definition beginTransaction (o : outcome) (d : Datasource) : ds_result :=
  let '(d, exc) := beginImplicitTransaction o d in
  (if negb exc && negb (in_transaction d) then set_transaction true (active_transaction d) d else d,
   exc).

Definition exec_internal (b q a : outcome) (d : Datasource) : ds_result :=
  let '(d, exc) :=
    if negb (autocommit d) && negb (in_transaction d) then beginImplicitTransaction b d
    else (d, false) in
  if exc then (d, true)
  else
    let '(d, exc) := drv_call q d in
    if connection_aborted d then (d, exc)
    else if autocommit d
    then let '(d, exc') := drv_call a d in (d, exc || exc')
    else (statementExecuted exc d, exc).

(** [qore_ds_private::commit] and [rollback] *)
Definition end_transaction (o : outcome) (d : Datasource) : ds_result :=
  let '(d, exc) := drv_call o (set_transaction false false d) in
  (transactionDone true d, exc).

(** [Datasource::commit] and [rollback] *)
Definition commit (b c : outcome) (d : Datasource) : ds_result :=
  let '(d, exc) :=
    if negb (in_transaction d) then beginImplicitTransaction b d else (d, false) in
  if exc then (d, true) else end_transaction c d.

Definition rollback (b r : outcome) (d : Datasource) : ds_result :=
  let '(d, exc) :=
    if negb (in_transaction d) then beginImplicitTransaction b d else (d, false) in
  if exc then (d, true) else end_transaction r d.

(** ** The pool *)

Record DatasourcePool := mkPool {
  pool : list Datasource;          (* the opened entries, [cmax] of them *)
  tid_list : list nat;             (* their last users *)
  tmap : gmap nat nat;             (* the entry of each thread that holds one *)
  free_list : list nat;
  min : nat; max : nat; cmax : nat;
  wait_count : nat; wait_max : Z; tl_warning_ms : Z; tl_timeout_ms : Z;
  stats_reqs : Z; stats_hits : Z;
  warning_callback : bool; valid : bool }.

Definition set_pool l p := mkPool l (tid_list p) (tmap p) (free_list p) (min p) (max p) (cmax p)
  (wait_count p) (wait_max p) (tl_warning_ms p) (tl_timeout_ms p) (stats_reqs p) (stats_hits p)
  (warning_callback p) (valid p).
Definition set_stats r h p := mkPool (pool p) (tid_list p) (tmap p) (free_list p) (min p) (max p)
  (cmax p) (wait_count p) (wait_max p) (tl_warning_ms p) (tl_timeout_ms p) r h
  (warning_callback p) (valid p).
Definition set_wait n w p := mkPool (pool p) (tid_list p) (tmap p) (free_list p) (min p) (max p)
  (cmax p) n w (tl_warning_ms p) (tl_timeout_ms p) (stats_reqs p) (stats_hits p)
  (warning_callback p) (valid p).
Definition set_leases tl tm fl p := mkPool (pool p) tl tm fl (min p) (max p) (cmax p)
  (wait_count p) (wait_max p) (tl_warning_ms p) (tl_timeout_ms p) (stats_reqs p) (stats_hits p)
  (warning_callback p) (valid p).
Definition set_config cb wms tms v p := mkPool (pool p) (tid_list p) (tmap p) (free_list p) (min p)
  (max p) (cmax p) (wait_count p) (wait_max p) wms tms (stats_reqs p) (stats_hits p) cb v.
Definition set_cmax pl n p := mkPool pl (tid_list p) (tmap p) (free_list p) (min p) (max p) n
  (wait_count p) (wait_max p) (tl_warning_ms p) (tl_timeout_ms p) (stats_reqs p) (stats_hits p)
  (warning_callback p) (valid p).

(** [DatasourceConfig::get]: a closed datasource that is not in autocommit
    mode. The options of the configuration may raise an exception, when the
    pool is created. *)
Definition config_get : Datasource := mkDs false false false false false false ∅.

(** [init]: the first datasource and then those up to [min] are opened. The
    argument has the outcomes of the [open] calls; an exception ends the loop
    and leaves the pool invalid. *)
Fixpoint init_loop (os : list open_outcome) (p : DatasourcePool) : DatasourcePool * bool :=
  let p := set_cmax (pool p) (S (cmax p)) p in
  if (cmax p <? min p)%nat
  then
    match os with
    | [] => (p, true)
    | o :: os =>
      match open o config_get with
      | (d, _, false) =>
        init_loop os
          (set_leases (tid_list p ++ [0%nat]) (tmap p) (free_list p ++ [cmax p])
             (set_pool (pool p ++ [d]) p))
      | _ => (p, true)
      end
    end
  else
    (set_config (warning_callback p) (tl_warning_ms p) (tl_timeout_ms p) true p, false).

Definition init (os : list open_outcome) (p : DatasourcePool) : DatasourcePool * bool :=
  match os with
  | [] => (p, true)
  | o :: os =>
    match open o config_get with
    | (d, _, false) =>
      init_loop os
        (set_leases (tid_list p ++ [0%nat]) (tmap p) (free_list p ++ [0%nat])
           (set_pool (pool p ++ [d]) p))
    | _ => (p, true)
    end
  end.

Definition new_DatasourcePool (os : list open_outcome) (mn mx : nat) : DatasourcePool * bool :=
  init os (mkPool [] [] ∅ [] mn mx 0 0 0 0 120000 0 0 false false).

(** The copy constructor *)
Definition copy_DatasourcePool (os : list open_outcome) (old : DatasourcePool) : DatasourcePool * bool :=
  init os (mkPool [] [] ∅ [] (min old) (max old) 0 0 0 (tl_warning_ms old) (tl_timeout_ms old) 0 0
             (warning_callback old) false).

(** The part of [getDSIntern] in the lock: the thread has a datasource, gets
    one, or sleeps. *)
Inductive lease := Leased | NewLease | MustWait.

(** One round of the loop; [iter] is set from the second round on *)
Definition assign (t : nat) (iter : bool) (wait_total : Z) (p : DatasourcePool)
    : lease * DatasourcePool :=
  let hit p := if iter then p else set_stats (stats_reqs p) (stats_hits p + 1) p in
  let done p :=
    if wait_total >? wait_max p then set_wait (wait_count p) (u32 wait_total) p else p in
  match free_list p with
  | fi :: rest =>
    (NewLease, done (hit (set_leases (<[fi := t]> (tid_list p)) (<[t := fi]> (tmap p)) rest p)))
  | [] =>
    if (cmax p <? max p)%nat
    then
      (NewLease,
       done (hit (set_cmax (pool p ++ [config_get]) (S (cmax p))
                    (set_leases (tid_list p ++ [t]) (<[t := cmax p]> (tmap p)) [] p))))
    else (MustWait, set_wait (S (wait_count p)) (wait_max p) p)
  end.

Definition getDSIntern (t : nat) (p : DatasourcePool) : lease * DatasourcePool :=
  let p := set_stats (stats_reqs p + 1) (stats_hits p) p in
  match tmap p !! t with
  | Some _ => (Leased, set_stats (stats_reqs p) (stats_hits p + 1) p)
  | None => assign t false 0 p
  end.

Inductive wakeup := PoolDeleted | WaitTimeout | Again (l : lease).

(** [getDSIntern] after [wait] returned; [timedout] is whether its result is
    not 0. *)
Definition getDSIntern_wake (t : nat) (timedout : bool) (wait_total : Z) (p : DatasourcePool)
    : wakeup * DatasourcePool :=
  let p := set_wait (Nat.pred (wait_count p)) (wait_max p) p in
  if negb (valid p) then (PoolDeleted, p)
  else if timedout && negb (tl_timeout_ms p =? 0) then (WaitTimeout, p)
  else let '(l, p) := assign t true wait_total p in (Again l, p).

(** The datasource of a thread; [None] when it has none *)
Definition getAllocatedDS (t : nat) (p : DatasourcePool) : option (nat * Datasource) :=
  match tmap p !! t with
  | Some i => match pool p !! i with Some d => Some (i, d) | None => None end
  | None => None
  end.

Definition update_ds (i : nat) (d : Datasource) (p : DatasourcePool) : DatasourcePool :=
  set_pool (<[i := d]> (pool p)) p.

(** The part of [freeDS] in the lock, without the signal. [None] is the
    failed assertion, or the use of an absent entry of the map. *)
Definition freeDS (t : nat) (p : DatasourcePool) : option DatasourcePool :=
  match getAllocatedDS t p with
  | Some (i, d) =>
    if in_transaction d then None
    else
      Some (set_leases (tid_list p) (delete t (tmap p)) (free_list p ++ [i])
              (update_ds i (transactionDone true d) p))
  | None => None
  end.

Definition inTransaction (t : nat) (p : DatasourcePool) : bool := bool_decide (is_Some (tmap p !! t)).
Definition currentThreadInTransaction : nat -> DatasourcePool -> bool := inTransaction.

Definition setErrorTimeout (t_ms : Z) (p : DatasourcePool) : DatasourcePool :=
  set_config (warning_callback p) (tl_warning_ms p) (u32 t_ms) (valid p) p.
Definition getErrorTimeout (p : DatasourcePool) : Z := u32 (tl_timeout_ms p).

Definition clearWarningCallback (p : DatasourcePool) : DatasourcePool :=
  if warning_callback p then set_config false 0 (tl_timeout_ms p) (valid p) p else p.

(** [setWarningCallback]: the pool, or the exception for a time that is not
    positive *)
Definition setWarningCallback (warning_ms : Z) (p : DatasourcePool) : option DatasourcePool :=
  if warning_ms <=? 0 then None
  else Some (set_config true (u32 warning_ms) (tl_timeout_ms p) (valid p) p).

(** [getUsageInfo]: the warning timeout, when a callback is set, and the
    statistics *)
Definition getUsageInfo (p : DatasourcePool) : option Z * Z * Z * Z :=
  (if warning_callback p then Some (tl_warning_ms p) else None,
   wait_max p, stats_reqs p, stats_hits p).

(** ** Threads

    A thread that calls a method of the pool is waiting for a datasource
    (asleep, or woken up and about to take the lock), has one from
    [getDSIntern], has one from [getDS] and calls the driver, or is in the
    destructor of the helper. A thread that is not in the map is in none of
    the pool's methods. *)
Inductive command := DAH_NOCHANGE | DAH_ACQUIRE | DAH_RELEASE.

Inductive method :=
  | Select                    (* select, selectRow, selectRows, describe *)
  | Info                      (* getServerVersion, getDriverRealName, getConfigHash, getConfigString *)
  | BeginTransaction | Exec | Commit | Rollback.

Definition command_of (m : method) : command :=
  match m with
  | Select | Info => DAH_NOCHANGE
  | BeginTransaction | Exec => DAH_ACQUIRE
  | Commit | Rollback => DAH_RELEASE
  end.

Inductive thread_state :=
  | Waiting (m : method) (wait_total : Z) (timed asleep : bool)
  | Got (m : method) (wait_total : Z) (new_ds : bool)
  | Acting (m : method) (new_ds : bool)
  | Ending (cmd : command) (new_ds : bool).

Record system := mkSys {
  dsp : DatasourcePool;
  threads : gmap nat thread_state;
  resources : gset nat }.     (* the threads that have the pool in their resource list *)

Inductive result :=
  | Next (s : system) (exc : bool)   (* and whether an exception was raised *)
  | Crash
  | NotEnabled.

Definition asleep (x : thread_state) : bool := match x with Waiting _ _ _ b => b | _ => false end.
Definition woken (x : thread_state) : bool := match x with Waiting _ _ _ b => negb b | _ => false end.
Definition waiting (x : thread_state) : bool := match x with Waiting _ _ _ _ => true | _ => false end.

(** [signal()]: one of the sleeping threads wakes up, when there is one *)
Definition signal (w : option nat) (ts : gmap nat thread_state) : option (gmap nat thread_state) :=
  match w with
  | Some w =>
    match ts !! w with
    | Some (Waiting m wt timed true) => Some (<[w := Waiting m wt timed false]> ts)
    | _ => None
    end
  | None => if existsb (λ x, asleep x.2) (map_to_list ts) then None else Some ts
  end.

Definition signal_waiting (w : option nat) (p : DatasourcePool) (ts : gmap nat thread_state)
    : option (gmap nat thread_state) :=
  if (wait_count p =? 0)%nat then match w with None => Some ts | Some _ => None end
  else signal w ts.

(** The end of a method that gives the datasource back: [freeDS], and the
    thread leaves the pool. *)
Definition give_back (t : nat) (w : option nat) (exc : bool) (s : system) : result :=
  match freeDS t (dsp s) with
  | None => Crash
  | Some p =>
    match signal_waiting w p (delete t (threads s)) with
    | Some ts => Next (mkSys p ts (resources s ∖ {[t]})) exc
    | None => NotEnabled
    end
  end.

(** [~DatasourcePoolActionHelper]: whether the datasource is given back *)
Definition must_release (cmd : command) (new_ds keep_lock : bool) (d : Datasource) : bool :=
  match cmd with DAH_RELEASE => true | _ => false end
  || connection_aborted d
  || (new_ds && match cmd with DAH_NOCHANGE => true | _ => false end && negb keep_lock).

Inductive waited := NoWarning (p : DatasourcePool) | Warned (p : DatasourcePool) (failed : bool) | WaitCrash.

(** [checkWait], when the thread has waited: the callback gets the
    configuration string, for which the pool is used again with a helper of
    its own. [getDS] asserts there that the datasource is open; the helper
    would give the datasource back under its user if its connection was
    aborted. *)
Definition checkWait (t : nat) (wait_total : Z) (cb_exc : bool) (p : DatasourcePool) : waited :=
  if negb (warning_callback p) || (wait_total /c 1000 <? tl_warning_ms p) then NoWarning p
  else
    let p := (getDSIntern t p).2 in
    match getAllocatedDS t p with
    | Some (i, d) =>
      if isopen d then
        let '(keep_lock, d) := keepLock d in
        if must_release DAH_NOCHANGE false keep_lock d then WaitCrash
        else Warned (update_ds i d p) cb_exc
      else WaitCrash
    | None => WaitCrash
    end.

(** The rest of [getDS] after [getDSIntern] *)
Definition open_step (t : nat) (m : method) (new_ds : bool) (o : open_outcome) (w : option nat)
    (s : system) : result :=
  match getAllocatedDS t (dsp s) with
  | None => Crash
  | Some (i, d) =>
    if isopen d then Next (mkSys (dsp s) (<[t := Acting m new_ds]> (threads s)) (resources s)) false
    else if negb new_ds then Crash
    else
      match open o d with
      | (d, rc, exc) =>
        let s := mkSys (update_ds i d (dsp s)) (threads s) (resources s) in
        if negb (rc =? 0) then give_back t w exc s
        else if exc then Crash
        else Next (mkSys (dsp s) (<[t := Acting m new_ds]> (threads s)) (resources s)) false
      end
  end.

Definition getDS_step (t : nat) (cb_exc : bool) (o : open_outcome) (w : option nat) (s : system) : result :=
  match threads s !! t with
  | Some (Got m wt new_ds) =>
    let s := if new_ds then mkSys (dsp s) (threads s) ({[t]} ∪ resources s) else s in
    if wt =? 0 then open_step t m new_ds o w s
    else
      match checkWait t wt cb_exc (dsp s) with
      | NoWarning p => open_step t m new_ds o w (mkSys p (threads s) (resources s))
      | Warned p false => open_step t m new_ds o w (mkSys p (threads s) (resources s))
      | Warned p true => give_back t w true (mkSys p (threads s) (resources s))
      | WaitCrash => Crash
      end
  | _ => NotEnabled
  end.

Definition run_method (m : method) (o1 o2 o3 : outcome) (d : Datasource) : ds_result :=
  match m with
  | Select => select o1 o2 d
  | Info => (d, false)
  | BeginTransaction => beginTransaction o1 d
  | Exec => exec_internal o1 o2 o3 d
  | Commit => commit o1 o2 d
  | Rollback => rollback o1 o2 d
  end.

(** [releaseNew]: the command of [beginTransaction] when it failed *)
Definition end_command (m : method) (new_ds exc : bool) : command :=
  match m with
  | BeginTransaction => if exc && new_ds then DAH_RELEASE else DAH_ACQUIRE
  | _ => command_of m
  end.

Definition act_step (t : nat) (o1 o2 o3 : outcome) (s : system) : result :=
  match threads s !! t, getAllocatedDS t (dsp s) with
  | Some (Acting m new_ds), Some (i, d) =>
    let '(d, exc) := run_method m o1 o2 o3 d in
    Next (mkSys (update_ds i d (dsp s))
            (<[t := Ending (end_command m new_ds exc) new_ds]> (threads s)) (resources s)) exc
  | Some (Acting _ _), None => Crash
  | _, _ => NotEnabled
  end.

(** [~DatasourcePoolActionHelper] *)
Definition end_step (t : nat) (w : option nat) (s : system) : result :=
  match threads s !! t, getAllocatedDS t (dsp s) with
  | Some (Ending cmd new_ds), Some (i, d) =>
    let '(keep_lock, d) := keepLock d in
    let s := mkSys (update_ds i d (dsp s)) (threads s) (resources s) in
    if must_release cmd new_ds keep_lock d then give_back t w false s
    else Next (mkSys (dsp s) (delete t (threads s)) (resources s)) false
  | Some (Ending _ _), None => Crash
  | _, _ => NotEnabled
  end.

(** A thread that goes to sleep *)
Definition sleeping (m : method) (wait_total : Z) (p : DatasourcePool) : thread_state :=
  Waiting m wait_total (negb (tl_timeout_ms p =? 0)) true.

(** A thread calls a method of the pool. *)
Definition enter_step (t : nat) (m : method) (s : system) : result :=
  match threads s !! t with
  | Some _ => NotEnabled
  | None =>
    if negb (valid (dsp s)) then NotEnabled
    else
      let '(l, p) := getDSIntern t (dsp s) in
      let x := match l with
               | Leased => Got m 0 false
               | NewLease => Got m 0 true
               | MustWait => sleeping m 0 p
               end in
      Next (mkSys p (<[t := x]> (threads s)) (resources s)) false
  end.

(** [wait] returns after [us] microseconds: because of a signal, at its
    timeout (only in a thread that no signal woke up) or for no reason. *)
Definition wake_step (t : nat) (timedout : bool) (us : Z) (s : system) : result :=
  match threads s !! t with
  | Some (Waiting m wt timed b) =>
    if timedout && negb (timed && b) then NotEnabled
    else
      match getDSIntern_wake t timedout (wt + us) (dsp s) with
      | (Again NewLease, p) =>
        Next (mkSys p (<[t := Got m (wt + us) true]> (threads s)) (resources s)) false
      | (Again _, p) =>
        Next (mkSys p (<[t := sleeping m (wt + us) p]> (threads s)) (resources s)) false
      | (_, p) => Next (mkSys p (delete t (threads s)) (resources s)) true
      end
  | _ => NotEnabled
  end.

(** [cleanup], which the end of a thread calls when the pool is one of its
    resources *)
Definition cleanup_step (t : nat) (o1 o2 : outcome) (w : option nat) (s : system) : result :=
  match threads s !! t with
  | Some _ => NotEnabled
  | None =>
    if negb (bool_decide (t ∈ resources s)) then NotEnabled
    else
      match getAllocatedDS t (dsp s) with
      | None => Crash
      | Some (i, d) =>
        let p := update_ds i (rollback o1 o2 d).1 (dsp s) in
        let p := set_leases (tid_list p) (delete t (tmap p)) (free_list p ++ [i]) p in
        match signal_waiting w p (threads s) with
        | Some ts => Next (mkSys p ts (resources s ∖ {[t]})) true
        | None => NotEnabled
        end
      end
  end.

(** [destructor]: an exception for each transaction that is open in the pool;
    the one of the thread itself is rolled back. *)
Definition destructor_step (t : nat) (o1 o2 : outcome) (w : option nat) (s : system) : result :=
  match threads s !! t with
  | Some _ => NotEnabled
  | None =>
    if negb (valid (dsp s)) then NotEnabled else
    let p := dsp s in
    let exc := existsb in_transaction (pool p) in
    let p := set_config (warning_callback p) (tl_warning_ms p) (tl_timeout_ms p) false p in
    let clear p := set_config false (tl_warning_ms p) (tl_timeout_ms p) (valid p) p in
    match getAllocatedDS t p with
    | Some (i, d) =>
      if in_transaction d
      then
        match give_back t w exc
                (mkSys (update_ds i (rollback o1 o2 d).1 p) (threads s) (resources s)) with
        | Next s exc => Next (mkSys (clear (dsp s)) (threads s) (resources s)) exc
        | r => r
        end
      else Next (mkSys (clear p) (threads s) (resources s)) exc
    | None => Next (mkSys (clear p) (threads s) (resources s)) exc
    end
  end.

Inductive event :=
  | Enter (t : nat) (m : method)
  | Wake (t : nat) (timedout : bool) (us : Z)
  | GetDS (t : nat) (cb_exc : bool) (o : open_outcome) (w : option nat)
  | Act (t : nat) (o1 o2 o3 : outcome)
  | End (t : nat) (w : option nat)
  | Cleanup (t : nat) (o1 o2 : outcome) (w : option nat)
  | Destructor (t : nat) (o1 o2 : outcome) (w : option nat)
  | SetErrorTimeout (t_ms : Z)
  | SetWarningCallback (warning_ms : Z)
  | ClearWarningCallback.

Definition run_event (e : event) (s : system) : result :=
  match e with
  | Enter t m => enter_step t m s
  | Wake t timedout us => wake_step t timedout us s
  | GetDS t cb_exc o w => getDS_step t cb_exc o w s
  | Act t o1 o2 o3 => act_step t o1 o2 o3 s
  | End t w => end_step t w s
  | Cleanup t o1 o2 w => cleanup_step t o1 o2 w s
  | Destructor t o1 o2 w => destructor_step t o1 o2 w s
  | SetErrorTimeout ms => Next (mkSys (setErrorTimeout ms (dsp s)) (threads s) (resources s)) false
  | SetWarningCallback ms =>
    match setWarningCallback ms (dsp s) with
    | Some p => Next (mkSys p (threads s) (resources s)) false
    | None => Next s true
    end
  | ClearWarningCallback =>
    Next (mkSys (clearWarningCallback (dsp s)) (threads s) (resources s)) false
  end.

Definition thread_of (e : event) : option nat :=
  match e with
  | Enter t _ | Wake t _ _ | GetDS t _ _ _ | Act t _ _ _ | End t _ | Cleanup t _ _ _
  | Destructor t _ _ _ => Some t
  | _ => None
  end.
