(* ===== verification/PoolSpec.v ===== *)
(** * The datasource pool is correct

    The states that the calls of any number of threads lead to, their
    invariant, and the properties of [DatasourcePool]: a connection has at
    most one user and is isolated, the assertions of the pool hold but in two
    cases, no wakeup is lost, and [commit] and [rollback] always give the
    connection back. *)

From S2P Require Import Prelude DatasourcePool.

#[local] Open Scope Z_scope.

(** ** Runs *)

Definition start (p : DatasourcePool) : system := mkSys p ∅ ∅.

(** The states of a pool that was created *)
Inductive reachable : system -> Prop :=
  | reach_new os mn mx p :
      (0 < mn)%nat -> (mn <= mx)%nat ->
      new_DatasourcePool os mn mx = (p, false) -> reachable (start p)
  | reach_copy os old p :
      reachable old -> valid (dsp old) = true ->
      copy_DatasourcePool os (dsp old) = (p, false) -> reachable (start p)
  | reach_step e s s' exc : reachable s -> run_event e s = Next s' exc -> reachable s'.

Fixpoint run_events (es : list event) (s : system) : result :=
  match es with
  | [] => Next s false
  | e :: es =>
    match run_event e s with
    | Next s exc => match run_events es s with Next s exc' => Next s (exc || exc') | r => r end
    | r => r
    end
  end.

(** ** Invariants *)

(** What holds of each datasource of a pool *)
Record ds_ok (d : Datasource) : Prop := {
  ok_autocommit : autocommit d = false;
  ok_aborted : connection_aborted d = true -> isopen d = false;
  ok_transaction : in_transaction d = true -> isopen d = true;
  ok_active : active_transaction d = true -> in_transaction d = true }.

Definition leases (p : DatasourcePool) : list nat := (map_to_list (tmap p)).*2.

(** Each entry is free or has one user; a free datasource is not in a
    transaction. *)
Record pool_ok (p : DatasourcePool) : Prop := {
  ok_length : length (pool p) = cmax p;
  ok_tids : length (tid_list p) = cmax p;
  ok_cmax : (0 < cmax p <= max p)%nat;
  ok_leases : free_list p ++ leases p ≡ₚ seq 0 (cmax p);
  ok_ds : Forall ds_ok (pool p);
  ok_free : Forall (λ i, exists d, pool p !! i = Some d /\ in_transaction d = false) (free_list p);
  ok_users : forall t i, tmap p !! t = Some i -> tid_list p !! i = Some t;
  ok_stats : 0 <= stats_hits p <= stats_reqs p;
  ok_min : (0 < min p <= max p)%nat }.

(** The state of a thread agrees with the datasource [a] it holds and with
    its resource list [r]. *)
Definition thread_ok (a : option (nat * Datasource)) (r : bool) (x : option thread_state) : Prop :=
  match x with
  | None => match a with Some (_, d) => r = true /\ isopen d = true | None => r = false end
  | Some (Waiting _ _ _ _) => a = None /\ r = false
  | Some (Got _ wt new_ds) =>
    exists i d, a = Some (i, d) /\
      if new_ds then in_transaction d = false else isopen d = true /\ wt = 0 /\ r = true
  | Some (Acting _ new_ds) =>
    exists i d, a = Some (i, d) /\ r = true /\ isopen d = true /\
      (new_ds = true -> in_transaction d = false)
  | Some (Ending cmd new_ds) =>
    exists i d, a = Some (i, d) /\ r = true /\ (isopen d = true \/ connection_aborted d = true) /\
      (must_release cmd new_ds false d = true -> in_transaction d = false)
  end.

(** No lost wakeup: while a thread sleeps, the pool is as large as it may be,
    and each free datasource has a woken thread that is about to look for
    one. *)
Definition wakeups_ok (k : nat) (p : DatasourcePool) (ts : gmap nat thread_state) : Prop :=
  valid p = true -> (0 < mcount asleep ts)%nat ->
  cmax p = max p /\ (length (free_list p) <= k + mcount woken ts)%nat.

Record inv_on (F : nat -> Prop) (s : system) : Prop := {
  inv_pool : pool_ok (dsp s);
  inv_count : wait_count (dsp s) = mcount waiting (threads s);
  inv_wakeups : wakeups_ok 0 (dsp s) (threads s);
  inv_threads : forall t, F t ->
    thread_ok (getAllocatedDS t (dsp s)) (bool_decide (t ∈ resources s)) (threads s !! t) }.

Definition inv : system -> Prop := inv_on (λ _, True).

Lemma inv_but t s : inv s -> inv_on (λ t', t' <> t) s.
Proof. intros [H1 H2 H3 H4]. split; auto. Qed.

Lemma inv_back t s :
  inv_on (λ t', t' <> t) s ->
  thread_ok (getAllocatedDS t (dsp s)) (bool_decide (t ∈ resources s)) (threads s !! t) -> inv s.
Proof.
  intros [H1 H2 H3 H4] H. split; auto. intros t' _. destruct (decide (t' = t)) as [->|N]; auto.
Qed.

(** ** Operations of a datasource *)

Lemma transactionDone_ok b d : ds_ok d -> ds_ok (transactionDone b d).
Proof. intros [H1 H2 H3 H4]. split; assumption. Qed.

Lemma keepLock_ok d : ds_ok d -> ds_ok (keepLock d).2.
Proof. intros [H1 H2 H3 H4]. split; assumption. Qed.

(** A method leaves an open datasource in order: the connection is open or
    was lost, and a datasource that has to be released is in no
    transaction. *)
Lemma run_method_ok m o1 o2 o3 d new_ds d' exc :
  ds_ok d -> isopen d = true -> (new_ds = true -> in_transaction d = false) ->
  run_method m o1 o2 o3 d = (d', exc) ->
  ds_ok d' /\ (isopen d' = true \/ connection_aborted d' = true) /\
  (must_release (end_command m new_ds exc) new_ds false d' = true -> in_transaction d' = false).
Proof.
  destruct d as [it ac op au ab kl st]. intros [H1 H2 H3 H4]. simpl in *. intros -> Hn.
  destruct au; [discriminate|]. destruct ab; [discriminate (H2 eq_refl)|].
  assert (it = true -> new_ds = false) as Hn' by (intros ->; destruct new_ds; [discriminate Hn; reflexivity|reflexivity]).
  destruct m, o1, o2, it, ac, new_ds;
    try discriminate (Hn' eq_refl); try discriminate (H4 eq_refl);
    intros E; vm_compute in E; injection E as <- <-;
    (split; [split; simpl; try congruence; auto|split; [simpl; auto|]]);
    vm_compute; congruence.
Qed.

Lemma rollback_ok o1 o2 d : ds_ok d -> isopen d = true ->
  ds_ok (rollback o1 o2 d).1 /\ in_transaction (rollback o1 o2 d).1 = false.
Proof.
  intros H E. destruct (rollback o1 o2 d) as [d' exc] eqn:Er.
  destruct (run_method_ok Rollback o1 o2 DrvOk d false d' exc H E) as (W & _ & T);
    [discriminate|exact Er|]. split; [exact W|]. apply T. reflexivity.
Qed.

(** ** Operations of the pool *)

Lemma leases_insert t i p tl fl : tmap p !! t = None ->
  leases (set_leases tl (<[t := i]> (tmap p)) fl p) ≡ₚ i :: leases p.
Proof. intros E. unfold leases. simpl. rewrite map_to_list_insert by exact E. reflexivity. Qed.

Lemma leases_delete t i (tm : gmap nat nat) : tm !! t = Some i ->
  i :: (map_to_list (delete t tm)).*2 ≡ₚ (map_to_list tm).*2.
Proof. intros E. rewrite <-(map_to_list_delete _ _ _ E). reflexivity. Qed.

Lemma leases_lookup t i p : tmap p !! t = Some i -> i ∈ leases p.
Proof.
  intros E. unfold leases. rewrite list_elem_of_fmap. exists (t, i).
  split; [reflexivity|]. apply elem_of_map_to_list, E.
Qed.

Lemma ok_bound p i : pool_ok p -> i ∈ (free_list p ++ leases p) -> (i < cmax p)%nat.
Proof. intros H E. rewrite (ok_leases _ H) in E. apply elem_of_seq in E. lia. Qed.

Lemma ok_nodup p : pool_ok p -> NoDup (free_list p ++ leases p).
Proof. intros H. rewrite (ok_leases _ H). apply NoDup_seq. Qed.

(** Two threads do not share an entry. *)
Lemma ok_exclusive p t t' i : pool_ok p -> tmap p !! t = Some i -> tmap p !! t' = Some i -> t = t'.
Proof. intros H E E'. apply (ok_users _ H) in E, E'. congruence. Qed.

Lemma ok_not_free p t i : pool_ok p -> tmap p !! t = Some i -> i ∉ free_list p.
Proof.
  intros H E F. pose proof (ok_nodup _ H) as N. apply NoDup_app in N as (_ & N & _).
  exact (N i F (leases_lookup _ _ _ E)).
Qed.

Lemma allocated_lookup p t i d :
  getAllocatedDS t p = Some (i, d) <-> tmap p !! t = Some i /\ pool p !! i = Some d.
Proof.
  unfold getAllocatedDS. destruct (tmap p !! t) as [j|]; [|split; [discriminate|intros [[=] _]]].
  destruct (pool p !! j) as [e|] eqn:E.
  - split; [intros [= <- <-]; auto|]. intros [[= <-] Ed]. congruence.
  - split; [discriminate|]. intros [[= <-] Ed]. congruence.
Qed.

Lemma allocated_none p t : pool_ok p -> getAllocatedDS t p = None <-> tmap p !! t = None.
Proof.
  intros H. unfold getAllocatedDS. destruct (tmap p !! t) as [i|] eqn:E; [|tauto].
  destruct (pool p !! i) as [d|] eqn:Ei; [split; discriminate|].
  apply lookup_ge_None in Ei. rewrite (ok_length _ H) in Ei.
  assert (i < cmax p)%nat; [|lia]. apply ok_bound; [exact H|].
  apply elem_of_app. right. exact (leases_lookup _ _ _ E).
Qed.

Lemma allocated_ds_ok p t i d : pool_ok p -> getAllocatedDS t p = Some (i, d) -> ds_ok d.
Proof.
  intros H [_ E]%allocated_lookup. pose proof (ok_ds _ H) as F. rewrite Forall_lookup in F. eauto.
Qed.

(** What an operation of the thread [t] leaves alone *)
Record frame (t : nat) (p p' : DatasourcePool) : Prop := {
  fr_alloc : forall t', t' <> t -> getAllocatedDS t' p' = getAllocatedDS t' p;
  fr_valid : valid p' = valid p;
  fr_max : max p' = max p }.

#[local] Instance frame_preorder t : PreOrder (frame t).
Proof.
  split; [intros p; split; reflexivity|]. intros p q r [A1 A2 A3] [B1 B2 B3].
  split; [intros t' N; rewrite B1, A1 by exact N; reflexivity|congruence..].
Qed.

Lemma update_ds_ok p t i d d' :
  pool_ok p -> getAllocatedDS t p = Some (i, d) -> ds_ok d' ->
  pool_ok (update_ds i d' p) /\ frame t p (update_ds i d' p) /\
  getAllocatedDS t (update_ds i d' p) = Some (i, d').
Proof.
  intros H [E Ei]%allocated_lookup Hd. pose proof (lookup_lt_Some _ _ _ Ei) as Hi.
  pose proof (ok_not_free p t i H E) as Hf. split; [|split].
  - destruct H as [H1 H2 H3 H4 H5 H6 H7 H8 H9]. split; simpl; auto.
    + rewrite length_insert. exact H1.
    + apply Forall_insert; assumption.
    + rewrite Forall_forall in *. intros j Hj. destruct (H6 j Hj) as (e & Ej & He).
      exists e. split; [|exact He]. rewrite list_lookup_insert_ne; [exact Ej|].
      intros <-. exact (Hf Hj).
  - split; [|reflexivity..]. intros t' N. unfold getAllocatedDS. simpl.
    destruct (tmap p !! t') as [j|] eqn:Ej; [|reflexivity].
    rewrite list_lookup_insert_ne; [reflexivity|]. intros <-. exact (N (ok_exclusive p t' t i H Ej E)).
  - apply allocated_lookup. simpl. split; [exact E|]. apply list_lookup_insert_eq, Hi.
Qed.

Lemma config_get_ok : ds_ok config_get.
Proof. split; simpl; congruence. Qed.

(** The first entry of the free list is given to a thread. *)
Lemma take_free_ok p t fi rest :
  pool_ok p -> tmap p !! t = None -> free_list p = fi :: rest ->
  let p' := set_leases (<[fi := t]> (tid_list p)) (<[t := fi]> (tmap p)) rest p in
  pool_ok p' /\ frame t p p' /\
  exists d, getAllocatedDS t p' = Some (fi, d) /\ in_transaction d = false.
Proof.
  intros H E Ef p'. pose proof (ok_nodup _ H) as Hn. rewrite Ef in Hn. simpl in Hn.
  apply NoDup_cons in Hn as [Hfi Hn].
  assert (fi < cmax p)%nat as Hb by (apply ok_bound; [exact H|rewrite Ef; apply elem_of_app; left; apply list_elem_of_here]).
  pose proof H as [H1 H2 H3 H4 H5 H6 H7 H8 H9]. rewrite Ef in H4, H6.
  split; [|split].
  - split; simpl; auto.
    + rewrite length_insert. exact H2.
    + change (rest ++ leases (set_leases (tid_list p) (<[t := fi]> (tmap p)) rest p) ≡ₚ seq 0 (cmax p)).
      rewrite leases_insert by exact E. rewrite <-Permutation_middle. exact H4.
    + inversion H6; subst. assumption.
    + intros t' i. destruct (decide (t' = t)) as [->|N].
      * rewrite lookup_insert_eq. intros [= <-]. apply list_lookup_insert_eq. lia.
      * rewrite lookup_insert_ne by congruence. intros Ei.
        rewrite list_lookup_insert_ne; [exact (H7 _ _ Ei)|]. intros <-.
        apply Hfi, elem_of_app. right. exact (leases_lookup _ _ _ Ei).
  - split; [|reflexivity..]. intros t' N. unfold getAllocatedDS. simpl.
    rewrite lookup_insert_ne by congruence. reflexivity.
  - inversion H6 as [|? ? (d & Ed & Hd) _]; subst. exists d. split; [|exact Hd].
    apply allocated_lookup. simpl. rewrite lookup_insert_eq. auto.
Qed.

(** A new datasource is given to a thread. *)
Lemma open_new_ok p t :
  pool_ok p -> tmap p !! t = None -> free_list p = [] -> (cmax p < max p)%nat ->
  let p' := set_cmax (pool p ++ [config_get]) (S (cmax p))
              (set_leases (tid_list p ++ [t]) (<[t := cmax p]> (tmap p)) [] p) in
  pool_ok p' /\ frame t p p' /\
  exists d, getAllocatedDS t p' = Some (cmax p, d) /\ in_transaction d = false.
Proof.
  intros H E Ef Hm p'. pose proof H as [H1 H2 H3 H4 H5 H6 H7 H8 H9]. rewrite Ef in H4. simpl in H4.
  assert (forall i, i ∈ leases p -> (i < cmax p)%nat) as Hb.
  { intros i Hi. apply ok_bound; [exact H|]. apply elem_of_app. auto. }
  split; [|split].
  - split; simpl; auto.
    + rewrite length_app, H1. simpl. lia.
    + rewrite length_app, H2. simpl. lia.
    + lia.
    + change (leases (set_leases (tid_list p) (<[t := cmax p]> (tmap p)) [] p) ≡ₚ seq 0 (S (cmax p))).
      rewrite leases_insert by exact E. rewrite H4, seq_S. apply Permutation_cons_append.
    + apply Forall_app. split; [exact H5|]. constructor; [apply config_get_ok|constructor].
    + intros t' i. destruct (decide (t' = t)) as [->|N].
      * rewrite lookup_insert_eq. intros [= <-].
        rewrite lookup_app_r, H2 by lia. rewrite Nat.sub_diag. reflexivity.
      * rewrite lookup_insert_ne by congruence. intros Ei. apply lookup_app_l_Some, (H7 _ _ Ei).
  - split; [|reflexivity..]. intros t' N. unfold getAllocatedDS. simpl.
    rewrite lookup_insert_ne by congruence. destruct (tmap p !! t') as [i|] eqn:Ei; [|reflexivity].
    rewrite lookup_app_l; [reflexivity|]. rewrite H1. exact (Hb _ (leases_lookup _ _ _ Ei)).
  - exists config_get. split; [|reflexivity]. apply allocated_lookup. simpl.
    rewrite lookup_insert_eq. split; [reflexivity|].
    rewrite lookup_app_r, H1 by lia. rewrite Nat.sub_diag. reflexivity.
Qed.

(** Statistics, waiting times and the configuration do not matter. *)
Lemma set_stats_ok r h p : pool_ok p -> 0 <= h <= r ->
  pool_ok (set_stats r h p).
Proof. intros [H1 H2 H3 H4 H5 H6 H7 H8 H9] ?. split; assumption. Qed.

Lemma set_wait_ok n w p : pool_ok p -> pool_ok (set_wait n w p).
Proof. intros [H1 H2 H3 H4 H5 H6 H7 H8 H9]. split; assumption. Qed.

Lemma set_config_ok cb w e v p : pool_ok p -> pool_ok (set_config cb w e v p).
Proof. intros [H1 H2 H3 H4 H5 H6 H7 H8 H9]. split; assumption. Qed.

Create HintDb pool.
#[export] Hint Resolve set_wait_ok set_config_ok config_get_ok transactionDone_ok keepLock_ok : pool.

(** The thread gets the first free entry, or a new one; or there is no
    datasource for it. *)
Definition assigned (t : nat) (p p' : DatasourcePool) : Prop :=
  pool_ok p' /\ frame t p p' /\ wait_count p' = wait_count p /\
  (exists i d, getAllocatedDS t p' = Some (i, d) /\ in_transaction d = false) /\
  (length (free_list p) = S (length (free_list p')) /\ cmax p' = cmax p \/
   free_list p = [] /\ free_list p' = [] /\ (cmax p < max p)%nat /\ cmax p' = S (cmax p)).

Lemma pool_assign_spec t iter wt p : pool_ok p -> tmap p !! t = None ->
  stats_hits p < stats_reqs p \/ iter = true ->
  match assign t iter wt p with
  | (NewLease, p') => assigned t p p'
  | (MustWait, p') =>
    p' = set_wait (S (wait_count p)) (wait_max p) p /\ free_list p = [] /\ cmax p = max p
  | (Leased, _) => False
  end.
Proof.
  intros H E Hs. unfold assign. pose proof (ok_stats _ H) as St. pose proof (ok_cmax _ H) as Hc.
  destruct (free_list p) as [|fi rest] eqn:Ef.
  - destruct (Nat.ltb_spec (cmax p) (max p)); [|split; [reflexivity|split; [reflexivity|lia]]].
    destruct (open_new_ok p t H E Ef ltac:(assumption)) as (W & F & d & Ed & Hd).
    unfold assigned. rewrite Ef.
    split; [|split; [|split; [|split; [exists (cmax p), d; split; [|exact Hd]|right]]]];
      destruct iter, (_ >? _); simpl; auto with pool;
      try (repeat (apply set_wait_ok || (apply set_stats_ok; simpl; [|lia])); exact W);
      try (etransitivity; [exact F|]; split; reflexivity).
  - destruct (take_free_ok p t fi rest H E Ef) as (W & F & d & Ed & Hd).
    unfold assigned. rewrite Ef.
    split; [|split; [|split; [|split; [exists fi, d; split; [|exact Hd]|left]]]];
      destruct iter, (_ >? _); simpl; auto with pool;
      try (repeat (apply set_wait_ok || (apply set_stats_ok; simpl; [|lia])); exact W);
      try (etransitivity; [exact F|]; split; reflexivity).
Qed.

(** The entry of a thread goes to the end of the free list. *)
Definition given_back (t : nat) (p p' : DatasourcePool) : Prop :=
  pool_ok p' /\ frame t p p' /\ wait_count p' = wait_count p /\ getAllocatedDS t p' = None /\
  cmax p' = cmax p /\ exists i, tmap p !! t = Some i /\ free_list p' = free_list p ++ [i].

Lemma release_ok p t i d tl :
  pool_ok p -> getAllocatedDS t p = Some (i, d) -> in_transaction d = false -> tl = tid_list p ->
  given_back t p (set_leases tl (delete t (tmap p)) (free_list p ++ [i]) p).
Proof.
  intros H [E Ei]%allocated_lookup Hd ->. pose proof H as [H1 H2 H3 H4 H5 H6 H7 H8 H9].
  assert (forall t', t' <> t ->
    getAllocatedDS t' (set_leases (tid_list p) (delete t (tmap p)) (free_list p ++ [i]) p)
    = getAllocatedDS t' p) as Ha.
  { intros t' N. unfold getAllocatedDS. simpl. rewrite lookup_delete_ne by congruence. reflexivity. }
  split; [|split; [split; [exact Ha|reflexivity..]|split; [reflexivity|split; [|split]]]]; [|..|eauto].
  - split; simpl; auto.
    + change (((free_list p ++ [i]) ++ (map_to_list (delete t (tmap p))).*2) ≡ₚ seq 0 (cmax p)).
      rewrite <-app_assoc. simpl. rewrite (leases_delete _ _ _ E). exact H4.
    + apply Forall_app. split; [exact H6|]. constructor; [eauto|constructor].
    + intros t' j Ej. rewrite lookup_delete in Ej. destruct (decide _); [discriminate|]. exact (H7 _ _ Ej).
  - unfold getAllocatedDS. simpl. rewrite lookup_delete_eq. reflexivity.
  - reflexivity.
Qed.

Lemma freeDS_spec p t i d :
  pool_ok p -> getAllocatedDS t p = Some (i, d) -> in_transaction d = false ->
  exists p', freeDS t p = Some p' /\ given_back t p p'.
Proof.
  intros H E Hd. unfold freeDS. rewrite E, Hd.
  destruct (update_ds_ok p t i d (transactionDone true d) H E) as (W & F & E').
  { apply transactionDone_ok, (allocated_ds_ok _ _ _ _ H E). }
  eexists. split; [reflexivity|].
  pose proof (release_ok _ t i _ (tid_list p) W E' Hd eq_refl) as (G1 & G2 & G3 & G4 & G5 & G6).
  split; [exact G1|]. split; [etransitivity; [exact F|exact G2]|]. auto.
Qed.

(** ** The invariant of the system *)

Lemma signal_spec w ts ts' : signal w ts = Some ts' ->
  (forall a r t, thread_ok a r (ts' !! t) <-> thread_ok a r (ts !! t)) /\
  (forall t, ts !! t = None -> ts' !! t = None) /\
  mcount waiting ts' = mcount waiting ts /\
  (mcount asleep ts = S (mcount asleep ts') /\ mcount woken ts' = S (mcount woken ts) \/
   ts' = ts /\ mcount asleep ts = 0%nat).
Proof.
  destruct w as [w|]; simpl.
  - destruct (ts !! w) as [[m wt tm []| | |]|] eqn:E; try discriminate. intros [= <-].
    split; [|split; [|split; [|left; split]]].
    + intros a r t. destruct (decide (t = w)) as [->|N].
      * rewrite lookup_insert_eq, E. reflexivity.
      * rewrite lookup_insert_ne by congruence. reflexivity.
    + intros t Et. rewrite lookup_insert_ne by congruence. exact Et.
    + rewrite mcount_insert, (mcount_delete _ w ts), E. reflexivity.
    + rewrite mcount_insert, (mcount_delete _ w ts), E. reflexivity.
    + rewrite mcount_insert, (mcount_delete _ w ts), E. reflexivity.
  - destruct (existsb _ _) eqn:E; [discriminate|]. intros [= <-].
    split; [reflexivity|]. split; [auto|]. split; [reflexivity|]. right. split; [reflexivity|].
    apply Nat.le_0_r, Nat.nlt_ge. intros (k & x & Ek & Ex)%mcount_pos.
    assert (existsb (λ x, asleep x.2) (map_to_list ts) = true); [|congruence].
    apply existsb_exists. exists (k, x). split; [|exact Ex].
    apply list_elem_of_In, elem_of_map_to_list, Ek.
Qed.

Lemma waiting_split (ts : gmap nat thread_state) : mcount waiting ts = (mcount asleep ts + mcount woken ts)%nat.
Proof.
  induction ts as [|k x ts E IH] using map_ind; [rewrite !mcount_empty; reflexivity|].
  rewrite !mcount_insert, !delete_id by exact E. rewrite IH.
  destruct x as [m wt tm []| | |]; simpl; lia.
Qed.

Lemma signal_waiting_spec w p ts ts' :
  wait_count p = mcount waiting ts -> signal_waiting w p ts = Some ts' ->
  (forall a r t, thread_ok a r (ts' !! t) <-> thread_ok a r (ts !! t)) /\
  (forall t, ts !! t = None -> ts' !! t = None) /\
  mcount waiting ts' = mcount waiting ts /\ (wakeups_ok 1 p ts -> wakeups_ok 0 p ts').
Proof.
  intros Hc. unfold signal_waiting. destruct (Nat.eqb_spec (wait_count p) 0) as [E|E].
  - destruct w; [discriminate|]. intros [= <-]. split; [reflexivity|]. split; [auto|]. split; [reflexivity|].
    intros _ V A. rewrite waiting_split in Hc. lia.
  - intros (H1 & H0 & H2 & H3)%signal_spec.
    split; [exact H1|]. split; [exact H0|]. split; [exact H2|].
    intros W V A. destruct H3 as [[A1 A2]|[-> A1]]; [|lia].
    destruct (W V ltac:(lia)) as [W1 W2]. split; [exact W1|]. lia.
Qed.

(** After a step of the thread [t] the invariant holds, and the other threads
    have the datasources they had, in the same state. *)
Definition ok_after (t : nat) (s s' : system) : Prop :=
  inv s' /\ forall t', t' <> t -> getAllocatedDS t' (dsp s') = getAllocatedDS t' (dsp s).

Lemma ok_after_frame t s s' : inv s' -> frame t (dsp s) (dsp s') -> ok_after t s s'.
Proof. intros I F. split; [exact I|apply F]. Qed.

Lemma ok_after_trans t s s1 s' : frame t (dsp s) (dsp s1) -> ok_after t s1 s' -> ok_after t s s'.
Proof. intros F [I H]. split; [exact I|]. intros t' N. rewrite H by exact N. apply F, N. Qed.

(** A step of the thread [t] that changes the pool and its own state *)
Lemma inv_step t s p' x res :
  inv s -> pool_ok p' -> frame t (dsp s) p' ->
  (forall t', t' <> t -> t' ∈ res <-> t' ∈ resources s) ->
  wait_count p' = mcount waiting x ->
  (forall t', t' <> t -> x !! t' = threads s !! t') ->
  wakeups_ok 0 p' x ->
  thread_ok (getAllocatedDS t p') (bool_decide (t ∈ res)) (x !! t) ->
  ok_after t s (mkSys p' x res).
Proof.
  intros [I1 I2 I3 I4] Hp F Hr Hc Hx Hw Ht. apply ok_after_frame; [|exact F].
  destruct F as [F1 F2 F3]. split; simpl; auto.
  intros t' _. destruct (decide (t' = t)) as [->|N]; [exact Ht|].
  rewrite F1, Hx by exact N. rewrite (bool_decide_ext _ _ (Hr t' N)). apply I4, I.
Qed.

Lemma mcount_nonwaiting P t (ts : gmap nat thread_state) :
  (forall x, P x = true -> waiting x = true) ->
  (forall x, ts !! t = Some x -> waiting x = false) -> mcount P (delete t ts) = mcount P ts.
Proof.
  intros HP H. rewrite (mcount_delete P t ts). destruct (ts !! t) as [x|]; [|reflexivity].
  specialize (H x eq_refl). destruct (P x) eqn:E; [|reflexivity]. apply HP in E. congruence.
Qed.

Lemma asleep_waiting x : asleep x = true -> waiting x = true.
Proof. destruct x; simpl; congruence. Qed.
Lemma woken_waiting x : woken x = true -> waiting x = true.
Proof. destruct x; simpl; congruence. Qed.
#[export] Hint Resolve asleep_waiting woken_waiting : pool.

(** The threads that wait do not change when a thread that does not wait
    leaves the pool or goes on to a state that is no wait. *)
Lemma wakeups_delete k p t ts : (forall x, ts !! t = Some x -> waiting x = false) ->
  wakeups_ok k p ts -> wakeups_ok k p (delete t ts).
Proof. intros H W V. unfold wakeups_ok in *. rewrite !mcount_nonwaiting by auto with pool. auto. Qed.

Lemma mcount_set P t y (ts : gmap nat thread_state) :
  (forall x, P x = true -> waiting x = true) -> waiting y = false ->
  (forall x, ts !! t = Some x -> waiting x = false) -> mcount P (<[t := y]> ts) = mcount P ts.
Proof.
  intros HP Hy H. rewrite mcount_insert, mcount_nonwaiting by assumption.
  destruct (P y) eqn:E; [|reflexivity]. apply HP in E. congruence.
Qed.

Lemma wakeups_set k p t y ts : waiting y = false -> (forall x, ts !! t = Some x -> waiting x = false) ->
  wakeups_ok k p ts -> wakeups_ok k p (<[t := y]> ts).
Proof. intros Hy H W V. unfold wakeups_ok in *. rewrite !mcount_set by auto with pool. auto. Qed.

Lemma give_back_spec t w exc s i d :
  inv_on (λ t', t' <> t) s -> getAllocatedDS t (dsp s) = Some (i, d) -> in_transaction d = false ->
  (forall x, threads s !! t = Some x -> waiting x = false) ->
  match give_back t w exc s with
  | Next s' exc' => exc' = exc /\ ok_after t s s' /\ given_back t (dsp s) (dsp s') /\
                    threads s' !! t = None /\ resources s' = resources s ∖ {[t]}
  | Crash => False
  | NotEnabled => True
  end.
Proof.
  intros [I1 I2 I3 I4] E Hd Hw. unfold give_back.
  destruct (freeDS_spec _ t i d I1 E Hd) as (p & -> & G).
  pose proof G as (G1 & [F1 F2 F3] & G3 & G4 & G5 & j & G6 & G7).
  destruct (signal_waiting w p _) as [ts|] eqn:Es; [|exact I].
  apply signal_waiting_spec in Es as (S1 & S0 & S2 & S3);
    [|rewrite G3, I2; symmetry; apply mcount_nonwaiting; auto].
  split; [reflexivity|]. split; [|split; [exact G|split; [|reflexivity]]].
  - apply ok_after_frame; [|split; assumption]. split; simpl.
    + exact G1.
    + rewrite G3, S2, I2. symmetry. apply mcount_nonwaiting; auto.
    + apply S3, wakeups_delete; [exact Hw|]. intros V A. rewrite F2 in V.
      destruct (I3 V A) as [A1 A2]. rewrite G5, F3, G7, length_app. simpl. split; [exact A1|lia].
    + intros t' _. apply S1. destruct (decide (t' = t)) as [->|N].
      * rewrite G4, lookup_delete_eq. simpl. apply bool_decide_eq_false. set_solver.
      * rewrite F1, lookup_delete_ne by congruence. specialize (I4 t' N).
        rewrite (bool_decide_ext (t' ∈ resources s ∖ {[t]}) (t' ∈ resources s)); [exact I4|set_solver].
  - simpl. apply S0, lookup_delete_eq.
Qed.

(** ** Steps preserve the invariant *)

Lemma enter_step_inv t m s : inv s ->
  match enter_step t m s with Next s' _ => ok_after t s s' | Crash => False | NotEnabled => True end.
Proof.
  intros I. pose proof I as [I1 I2 I3 I4]. specialize (I4 t Logic.I). unfold enter_step.
  destruct (threads s !! t) eqn:Et; [exact Logic.I|].
  destruct (valid (dsp s)) eqn:Ev; [|exact Logic.I]. simpl. unfold getDSIntern. simpl.
  pose proof (ok_stats _ I1) as St.
  assert (forall x, threads s !! t = Some x -> waiting x = false) as Hw by congruence.
  destruct (getAllocatedDS t (dsp s)) as [[i d]|] eqn:E; simpl in I4.
  - pose proof E as [Ei _]%allocated_lookup. rewrite Ei. apply (inv_step t s); auto.
    + apply set_stats_ok; [apply set_stats_ok; [exact I1|lia]|simpl; lia].
    + split; reflexivity.
    + simpl. rewrite mcount_set by auto with pool. exact I2.
    + intros t' N. apply lookup_insert_ne. congruence.
    + apply wakeups_set; auto.
    + rewrite lookup_insert_eq. exists i, d. destruct I4 as [Hr Ho].
      split; [exact E|]. auto.
  - pose proof (proj1 (allocated_none _ t I1) E) as Ei. rewrite Ei.
    set (p1 := set_stats (stats_reqs (dsp s) + 1) (stats_hits (dsp s)) (dsp s)).
    assert (pool_ok p1) as W1 by (apply set_stats_ok; [exact I1|lia]).
    assert (frame t (dsp s) p1) as F1 by (split; reflexivity).
    pose proof (pool_assign_spec t false 0 p1 W1 Ei ltac:(left; simpl; lia)) as A.
    destruct (assign t false 0 p1) as [[| |] p2]; [destruct A|..].
    + destruct A as (A1 & A2 & A3 & (i & d & Ed & Hd) & A5). apply (inv_step t s); auto.
      * etransitivity; eassumption.
      * rewrite A3, mcount_set by auto with pool. exact I2.
      * intros t' N. apply lookup_insert_ne. congruence.
      * apply wakeups_set; auto. intros V Hs. rewrite (fr_valid _ _ _ A2) in V.
        destruct (I3 V Hs) as [C1 C2]. rewrite (fr_max _ _ _ A2). simpl in *.
        destruct A5 as [[L ->]|(_ & _ & L & _)]; [split; [exact C1|lia]|lia].
      * rewrite lookup_insert_eq. exists i, d. auto.
    + destruct A as (-> & Ef & Ec). apply (inv_step t s); auto with pool.
      * split; reflexivity.
      * simpl. rewrite mcount_insert, mcount_nonwaiting by auto. simpl. rewrite I2. lia.
      * intros t' N. apply lookup_insert_ne. congruence.
      * intros V Hs. simpl in *. rewrite Ef. split; [exact Ec|simpl; lia].
      * rewrite lookup_insert_eq. split; [exact E|]. exact I4.
Qed.

Lemma wake_step_inv t timedout us s : inv s ->
  match wake_step t timedout us s with Next s' _ => ok_after t s s' | Crash => False | NotEnabled => True end.
Proof.
  intros I. pose proof I as [I1 I2 I3 I4]. specialize (I4 t Logic.I). unfold wake_step.
  destruct (threads s !! t) as [[m wt timed b| | |]|] eqn:Et; try exact Logic.I.
  destruct (timedout && negb (timed && b)) eqn:Eg; [exact Logic.I|].
  destruct I4 as [E Hr]. pose proof (proj1 (allocated_none _ t I1) E) as Ei.
  unfold getDSIntern_wake. set (p1 := set_wait (Nat.pred (wait_count (dsp s))) (wait_max (dsp s)) (dsp s)).
  assert (pool_ok p1) as W1 by (apply set_wait_ok, I1).
  assert (frame t (dsp s) p1) as F1 by (split; reflexivity).
  pose proof (mcount_delete waiting t (threads s)) as Cw. rewrite Et in Cw. simpl in Cw.
  pose proof (mcount_delete asleep t (threads s)) as Ca. rewrite Et in Ca. simpl in Ca.
  pose proof (mcount_delete woken t (threads s)) as Ck. rewrite Et in Ck. simpl in Ck.
  assert (wakeups_ok (if b then 0 else 1) (dsp s) (delete t (threads s))) as W0.
  { intros V Hs. destruct (I3 V ltac:(destruct b; lia)) as [C1 C2]. split; [exact C1|].
    destruct b; simpl in *; lia. }
  assert (wakeups_ok 0 p1 (delete t (threads s)) -> ok_after t s (mkSys p1 (delete t (threads s)) (resources s))) as Hdel.
  { intros Hw. apply (inv_step t s); auto.
    - simpl. lia.
    - intros t' N. apply lookup_delete_ne. congruence.
    - rewrite lookup_delete_eq. replace (getAllocatedDS t p1) with (getAllocatedDS t (dsp s)) by reflexivity.
      rewrite E. exact Hr. }
  change (valid p1) with (valid (dsp s)). change (tl_timeout_ms p1) with (tl_timeout_ms (dsp s)).
  destruct (valid (dsp s)) eqn:Ev; cbn [negb].
  2:{ apply Hdel. intros V. simpl in V. congruence. }
  destruct (timedout && negb (_ =? 0)) eqn:Eto.
  { apply Hdel. apply andb_prop in Eto as [-> _]. simpl in Eg.
    assert (b = true) as -> by (destruct timed, b; simpl in Eg; congruence). exact W0. }
  pose proof (pool_assign_spec t true (wt + us) p1 W1 Ei ltac:(right; reflexivity)) as A.
  destruct (assign t true (wt + us) p1) as [[| |] p2]; [destruct A|..].
  - destruct A as (A1 & A2 & A3 & (i & d & Ed & Hd) & A5). apply (inv_step t s); auto.
    + etransitivity; eassumption.
    + rewrite A3, mcount_insert. simpl. lia.
    + intros t' N. apply lookup_insert_ne. congruence.
    + intros V. rewrite !mcount_insert. simpl. intros Hs.
      rewrite (fr_valid _ _ _ A2) in V. destruct (W0 V Hs) as [C1 C2]. rewrite (fr_max _ _ _ A2).
      simpl in *. destruct A5 as [[L ->]|(_ & _ & L & _)]; [split; [exact C1|destruct b; lia]|lia].
    + rewrite lookup_insert_eq. exists i, d. auto.
  - destruct A as (-> & Ef & Ec). apply (inv_step t s); auto with pool.
    + split; reflexivity.
    + simpl. rewrite mcount_insert. simpl. lia.
    + intros t' N. apply lookup_insert_ne. congruence.
    + intros V Hs. simpl in *. rewrite Ef. split; [exact Ec|simpl; lia].
    + rewrite lookup_insert_eq. split; [exact E|exact Hr].
Qed.

(** The cases in which an assertion of [getDS] fails: the options of a
    connection that was opened for the call are refused, or the warning
    callback is due and the connection is closed. *)
Definition getDS_fails (t : nat) (o : open_outcome) (s : system) : Prop :=
  exists m wt i d,
    threads s !! t = Some (Got m wt true) /\ getAllocatedDS t (dsp s) = Some (i, d) /\
    isopen d = false /\
    (o = OpenOptExc \/
     warning_callback (dsp s) = true /\ wt <> 0 /\ tl_warning_ms (dsp s) <= wt /c 1000).

Lemma keepLock_shape d :
  isopen (keepLock d).2 = isopen d /\ in_transaction (keepLock d).2 = in_transaction d /\
  connection_aborted (keepLock d).2 = connection_aborted d.
Proof. repeat split. Qed.

Lemma open_ok o d d' rc exc : ds_ok d -> isopen d = false -> in_transaction d = false ->
  open o d = (d', rc, exc) ->
  ds_ok d' /\ in_transaction d' = false /\
  (rc = 0 /\ exc = false /\ isopen d' = true \/ rc <> 0 /\ exc = true \/
   rc = 0 /\ exc = true /\ o = OpenOptExc).
Proof.
  intros [H1 H2 H3 H4] Eo Et. unfold open. rewrite Eo.
  destruct o; intros [= <- <- <-];
    (split; [split; simpl; auto; congruence|]); (split; [exact Et|]); simpl; auto.
Qed.

Lemma open_step_inv t m wt new_ds o w s :
  inv_on (λ t', t' <> t) s -> threads s !! t = Some (Got m wt new_ds) ->
  bool_decide (t ∈ resources s) = true ->
  (exists i d, getAllocatedDS t (dsp s) = Some (i, d) /\
     if new_ds then in_transaction d = false else isopen d = true) ->
  match open_step t m new_ds o w s with
  | Next s' _ => ok_after t s s'
  | Crash => new_ds = true /\ o = OpenOptExc /\
             exists i d, getAllocatedDS t (dsp s) = Some (i, d) /\ isopen d = false
  | NotEnabled => True
  end.
Proof.
  intros I Et Hr (i & d & E & Hd). pose proof I as [I1 I2 I3 I4]. unfold open_step. rewrite E.
  assert (forall x, threads s !! t = Some x -> waiting x = false) as Hw by (rewrite Et; intros ? [= <-]; reflexivity).
  assert (forall p', pool_ok p' -> frame t (dsp s) p' -> wait_count p' = wait_count (dsp s) ->
    cmax p' = cmax (dsp s) -> free_list p' = free_list (dsp s) ->
    forall d', getAllocatedDS t p' = Some (i, d') -> isopen d' = true ->
    (new_ds = true -> in_transaction d' = false) ->
    ok_after t s (mkSys p' (<[t := Acting m new_ds]> (threads s)) (resources s))) as Hnext.
  { intros p' W F Ew Ec Ef d' Ed Ho Hn. apply ok_after_frame; [|exact F]. split; simpl.
    - exact W.
    - rewrite Ew, mcount_set by auto with pool. exact I2.
    - apply wakeups_set; auto. intros V A. rewrite (fr_valid _ _ _ F) in V.
      rewrite Ec, Ef, (fr_max _ _ _ F). exact (I3 V A).
    - intros t' _. destruct (decide (t' = t)) as [->|N].
      + rewrite lookup_insert_eq. exists i, d'. auto.
      + rewrite lookup_insert_ne, (fr_alloc _ _ _ F) by congruence. exact (I4 t' N). }
  destruct (isopen d) eqn:Eo.
  { eapply Hnext; eauto; [reflexivity|]. intros ->. exact Hd. }
  destruct new_ds; [|congruence]. simpl.
  destruct (open o d) as [[d' rc] exc] eqn:Eop.
  destruct (open_ok _ _ _ _ _ (allocated_ds_ok _ _ _ _ I1 E) Eo Hd Eop) as (Wd & Td & C).
  destruct (update_ds_ok _ t i d d' I1 E Wd) as (W & F & E').
  destruct C as [(-> & -> & Ho)|[(Hrc & ->)|(-> & -> & ->)]]; simpl.
  - eapply Hnext; eauto.
  - destruct (Z.eqb_spec rc 0); [congruence|]. simpl.
    pose proof (give_back_spec t w true (mkSys (update_ds i d' (dsp s)) (threads s) (resources s)) i d') as G.
    destruct (give_back _ _ _ _); try exact Logic.I.
    + apply (ok_after_trans t s (mkSys (update_ds i d' (dsp s)) (threads s) (resources s)) _ F). apply G; auto. split; simpl; auto. intros t' N. rewrite (fr_alloc _ _ _ F) by exact N. exact (I4 t' N).
    + destruct G; auto. split; simpl; auto. intros t' N. rewrite (fr_alloc _ _ _ F) by exact N. exact (I4 t' N).
  - split; [reflexivity|]. split; [reflexivity|]. exists i, d. auto.
Qed.

(** What the lock-free parts of a method need of the other threads *)
Lemma inv_on_pool t s p' res :
  inv_on (λ t', t' <> t) s -> pool_ok p' -> frame t (dsp s) p' -> wait_count p' = wait_count (dsp s) ->
  cmax p' = cmax (dsp s) -> free_list p' = free_list (dsp s) ->
  (forall t', t' <> t -> t' ∈ res <-> t' ∈ resources s) ->
  inv_on (λ t', t' <> t) (mkSys p' (threads s) res).
Proof.
  intros [I1 I2 I3 I4] W F Ew Ec Ef Hr. split; simpl.
  - exact W.
  - congruence.
  - intros V A. rewrite (fr_valid _ _ _ F) in V. rewrite Ec, Ef, (fr_max _ _ _ F). exact (I3 V A).
  - intros t' N. rewrite (fr_alloc _ _ _ F) by exact N. rewrite (bool_decide_ext _ _ (Hr t' N)).
    exact (I4 t' N).
Qed.

Lemma checkWait_spec t wt cb p i d :
  pool_ok p -> getAllocatedDS t p = Some (i, d) ->
  match checkWait t wt cb p with
  | NoWarning p' => p' = p
  | Warned p' failed =>
    failed = cb /\ isopen d = true /\ pool_ok p' /\ frame t p p' /\ wait_count p' = wait_count p /\
    cmax p' = cmax p /\ free_list p' = free_list p /\
    exists d', getAllocatedDS t p' = Some (i, d') /\ isopen d' = true /\ in_transaction d' = in_transaction d
  | WaitCrash =>
    isopen d = false /\ warning_callback p = true /\ tl_warning_ms p <= wt /c 1000
  end.
Proof.
  intros H E. unfold checkWait. destruct (warning_callback p) eqn:Ecb; [|reflexivity]. cbn [negb orb].
  destruct (Z.ltb_spec (wt /c 1000) (tl_warning_ms p)); [reflexivity|].
  pose proof E as [Ei _]%allocated_lookup. pose proof (ok_stats _ H).
  set (p1 := set_stats (stats_reqs p + 1) (stats_hits p + 1) (set_stats (stats_reqs p + 1) (stats_hits p) p)).
  replace ((getDSIntern t p).2) with p1 by (unfold getDSIntern; simpl; rewrite Ei; reflexivity).
  assert (pool_ok p1) as W1 by (repeat (apply set_stats_ok; simpl; [|lia]); exact H).
  change (getAllocatedDS t p1) with (getAllocatedDS t p). rewrite E.
  destruct (isopen d) eqn:Eo; [|auto].
  pose proof (allocated_ds_ok _ _ _ _ H E) as Wd.
  destruct (keepLock_shape d) as (K1 & K2 & K3).
  pose proof (update_ds_ok p1 t i d _ W1 E (keepLock_ok _ Wd)) as (W & F & E').
  destruct (keepLock d) as [kl d2]. simpl in *.
  assert (connection_aborted d2 = false) as Ea.
  { rewrite K3. destruct (connection_aborted d) eqn:Ea; [|reflexivity].
    pose proof (ok_aborted _ Wd Ea). congruence. }
  unfold must_release. rewrite Ea. simpl. split; [reflexivity|]. split; [reflexivity|]. split; [exact W|].
  split; [etransitivity; [|exact F]; split; reflexivity|]. repeat (split; [reflexivity|]).
  exists d2. split; [exact E'|]. split; congruence.
Qed.

Lemma getDS_step_inv t cb o w s : inv s ->
  match getDS_step t cb o w s with
  | Next s' _ => ok_after t s s' | Crash => getDS_fails t o s | NotEnabled => True
  end.
Proof.
  intros I. pose proof (inv_threads _ _ I t Logic.I) as I4. unfold getDS_step.
  destruct (threads s !! t) as [[|m wt new_ds| |]|] eqn:Et; try exact Logic.I.
  destruct I4 as (i & d & E & Hd).
  set (s1 := if new_ds then mkSys (dsp s) (threads s) ({[t]} ∪ resources s) else s).
  assert (dsp s1 = dsp s /\ threads s1 = threads s /\ t ∈ resources s1 /\
          forall t', t' <> t -> t' ∈ resources s1 <-> t' ∈ resources s) as (Ed & Eth & Hr & Hr').
  { unfold s1. destruct new_ds; simpl.
    - split; [reflexivity|]. split; [reflexivity|]. split; [set_solver|]. intros. set_solver.
    - destruct Hd as (_ & _ & Hr). apply bool_decide_eq_true in Hr. auto. }
  clearbody s1. assert (inv_on (λ t', t' <> t) s1) as I1.
  { pose proof (inv_on_pool t s (dsp s) (resources s1) (inv_but _ _ I) (inv_pool _ _ I)
      ltac:(reflexivity) eq_refl eq_refl eq_refl Hr') as X.
    destruct s1; simpl in *; subst; exact X. }
  assert (forall p', pool_ok p' -> frame t (dsp s) p' -> wait_count p' = wait_count (dsp s) ->
    cmax p' = cmax (dsp s) -> free_list p' = free_list (dsp s) ->
    inv_on (λ t', t' <> t) (mkSys p' (threads s1) (resources s1))) as Hp.
  { intros p' W F E1 E2 E3. apply inv_on_pool; auto; rewrite Ed; auto. }
  assert (match open_step t m new_ds o w s1 with
          | Next s' _ => ok_after t s s' | Crash => getDS_fails t o s | NotEnabled => True end) as Hopen.
  { pose proof (open_step_inv t m wt new_ds o w s1 I1) as P. rewrite Eth in P.
    specialize (P Et (bool_decide_eq_true_2 _ Hr)). rewrite Ed in P.
    assert (exists i d, getAllocatedDS t (dsp s) = Some (i, d) /\
      (if new_ds then in_transaction d = false else isopen d = true)) as Hd'.
    { exists i, d. split; [exact E|]. destruct new_ds; [exact Hd|apply Hd]. }
    specialize (P Hd'). destruct (open_step _ _ _ _ _ _) as [s' exc| |]; [| |exact Logic.I].
    - apply (ok_after_trans t s s1); [rewrite Ed; reflexivity|exact P].
    - destruct P as (-> & -> & i' & d' & E' & Ho). exists m, wt, i', d'. auto. }
  destruct (Z.eqb_spec wt 0) as [_|Nz]; [exact Hopen|].
  destruct new_ds; [|destruct Hd as (_ & -> & _); congruence].
  pose proof (checkWait_spec t wt cb (dsp s1) i d (inv_pool _ _ I1) ltac:(rewrite Ed; exact E)) as C.
  destruct (checkWait t wt cb (dsp s1)) as [p'|p' failed|].
  - subst p'. replace (mkSys (dsp s1) (threads s1) (resources s1)) with s1 by (destruct s1; reflexivity).
    exact Hopen.
  - destruct C as (-> & Ho & W & F & C1 & C2 & C3 & d' & E' & Ho' & Ht'). rewrite Ed in *.
    specialize (Hp p' W F C1 C2 C3). destruct cb.
    + pose proof (give_back_spec t w true _ i d' Hp E' ltac:(congruence)) as G.
      cbn [dsp threads resources] in G.
      rewrite Eth, Et in G. specialize (G ltac:(intros ? [= <-]; reflexivity)). rewrite <-Eth in G.
      destruct (give_back _ _ _ _); [|destruct G|exact G].
      apply (ok_after_trans t s (mkSys p' (threads s1) (resources s1)) _ F), G.
    + clear Hopen. pose proof (open_step_inv t m wt true o w _ Hp) as P.
      cbn [dsp threads resources] in P. rewrite Eth in P.
      specialize (P Et (bool_decide_eq_true_2 _ Hr)).
      specialize (P ltac:(exists i, d'; split; [exact E'|congruence])). rewrite <-Eth in P.
      destruct (open_step _ _ _ _ _ _) as [s' exc| |]; [| |exact Logic.I].
      { apply (ok_after_trans t s (mkSys p' (threads s1) (resources s1)) _ F), P. }
      destruct P as (_ & _ & i' & d'' & E'' & Ho''). congruence.
  - destruct C as (Ho & Hc & Hms). rewrite Ed in *. exists m, wt, i, d. repeat (split; [assumption|]).
    right. auto.
Qed.

Lemma act_step_inv t o1 o2 o3 s : inv s ->
  match act_step t o1 o2 o3 s with Next s' _ => ok_after t s s' | Crash => False | NotEnabled => True end.
Proof.
  intros I. pose proof I as [I1 I2 I3 I4]. specialize (I4 t Logic.I). unfold act_step.
  destruct (threads s !! t) as [[|?|m new_ds|]|] eqn:Et; try exact Logic.I;
    try (destruct (getAllocatedDS t (dsp s)) as [[]|]; exact Logic.I).
  destruct I4 as (i & d & E & Hr & Ho & Hn). rewrite E.
  destruct (run_method m o1 o2 o3 d) as [d' exc] eqn:Er.
  destruct (run_method_ok _ _ _ _ _ _ _ _ (allocated_ds_ok _ _ _ _ I1 E) Ho Hn Er) as (Wd & Hd & Hm).
  destruct (update_ds_ok _ t i d d' I1 E Wd) as (W & F & E').
  assert (forall x, threads s !! t = Some x -> waiting x = false) as Hw by (rewrite Et; intros ? [= <-]; reflexivity).
  apply (inv_step t s); auto.
  - simpl. rewrite mcount_set by auto with pool. exact I2.
  - intros t' N. apply lookup_insert_ne. congruence.
  - apply wakeups_set; auto.
  - rewrite lookup_insert_eq. exists i, d'. auto.
Qed.

Lemma must_release_keep cmd new_ds k d :
  must_release cmd new_ds k d = true -> must_release cmd new_ds false d = true.
Proof.
  unfold must_release. destruct cmd, (connection_aborted d), new_ds, k; simpl; congruence.
Qed.

Lemma end_step_inv t w s : inv s ->
  match end_step t w s with Next s' _ => ok_after t s s' | Crash => False | NotEnabled => True end.
Proof.
  intros I. pose proof I as [I1 I2 I3 I4]. specialize (I4 t Logic.I). unfold end_step.
  destruct (threads s !! t) as [[|?|?|cmd new_ds]|] eqn:Et; try exact Logic.I;
    try (destruct (getAllocatedDS t (dsp s)) as [[]|]; exact Logic.I).
  destruct I4 as (i & d & E & Hr & Ho & Hn). rewrite E.
  pose proof (keepLock_ok _ (allocated_ds_ok _ _ _ _ I1 E)) as Wd.
  destruct (update_ds_ok _ t i d _ I1 E Wd) as (W & F & E').
  destruct (keepLock_shape d) as (K1 & K2 & K3). destruct (keepLock d) as [k d']. cbn [snd] in *.
  assert (must_release cmd new_ds k d' = true -> in_transaction d' = false) as Hrel.
  { intros M%must_release_keep. rewrite K2. apply Hn. revert M. unfold must_release. rewrite K3. auto. }
  assert (forall x, threads s !! t = Some x -> waiting x = false) as Hw by (rewrite Et; intros ? [= <-]; reflexivity).
  destruct (must_release cmd new_ds k d') eqn:Em.
  - pose proof (inv_on_pool t s (update_ds i d' (dsp s)) (resources s) (inv_but _ _ I) W F
      eq_refl eq_refl eq_refl ltac:(auto)) as X.
    pose proof (give_back_spec t w false _ i d' X E' (Hrel eq_refl) Hw) as G.
    destruct (give_back _ _ _ _); [|exact G|exact Logic.I].
    apply (ok_after_trans t s (mkSys (update_ds i d' (dsp s)) (threads s) (resources s)) _ F), G.
  - apply (inv_step t s); auto.
    + simpl. rewrite mcount_nonwaiting by auto. exact I2.
    + intros t' N. apply lookup_delete_ne. congruence.
    + apply wakeups_delete; auto.
    + rewrite lookup_delete_eq. simpl. rewrite E'. split; [exact Hr|]. rewrite K1.
      destruct Ho as [Ho|Ho]; [exact Ho|]. exfalso. revert Em. unfold must_release.
      rewrite K3, Ho, orb_true_r. discriminate.
Qed.

Lemma cleanup_step_inv t o1 o2 w s : inv s ->
  match cleanup_step t o1 o2 w s with Next s' _ => ok_after t s s' | Crash => False | NotEnabled => True end.
Proof.
  intros I. pose proof I as [I1 I2 I3 I4]. pose proof (I4 t Logic.I) as I4t. unfold cleanup_step.
  destruct (threads s !! t) eqn:Et; [exact Logic.I|].
  destruct (bool_decide (t ∈ resources s)) eqn:Hr; [|exact Logic.I]. cbn [negb].
  destruct (getAllocatedDS t (dsp s)) as [[i d]|] eqn:E; [|simpl in I4t; congruence].
  simpl in I4t. destruct I4t as [_ Ho].
  destruct (rollback_ok o1 o2 d (allocated_ds_ok _ _ _ _ I1 E) Ho) as [Wd Hd].
  destruct (update_ds_ok _ t i d _ I1 E Wd) as (W & F & E').
  pose proof (release_ok _ t i _ _ W E' Hd eq_refl) as (G1 & G2 & G3 & G4 & G5 & j & G6 & G7).
  set (p := set_leases _ _ _ _) in *. clearbody p.
  destruct (signal_waiting w p (threads s)) as [ts|] eqn:Es; [|exact Logic.I].
  apply signal_waiting_spec in Es as (S1 & S0 & S2 & S3); [|rewrite G3; exact I2].
  assert (frame t (dsp s) p) as F' by (etransitivity; eassumption).
  apply ok_after_frame; [|exact F']. split; simpl.
  - exact G1.
  - rewrite G3, S2. exact I2.
  - apply S3. intros V A. rewrite (fr_valid _ _ _ F') in V. destruct (I3 V A) as [A1 A2].
    rewrite G5, (fr_max _ _ _ F'), G7, length_app. simpl. split; [exact A1|lia].
  - intros t' _. apply S1. destruct (decide (t' = t)) as [->|N].
    + rewrite G4, Et. simpl. apply bool_decide_eq_false. set_solver.
    + rewrite (fr_alloc _ _ _ F') by exact N. specialize (I4 t' Logic.I).
      rewrite (bool_decide_ext (t' ∈ resources s ∖ {[t]}) (t' ∈ resources s)); [exact I4|set_solver].
Qed.

(** Changes of the configuration *)
Lemma config_inv cb w e v s : inv s -> (v = true -> valid (dsp s) = true) ->
  inv (mkSys (set_config cb w e v (dsp s)) (threads s) (resources s)).
Proof.
  intros [I1 I2 I3 I4] Hv. split; simpl; auto with pool. intros V A. apply (I3 (Hv V) A).
Qed.

Lemma destructor_step_inv t o1 o2 w s : inv s ->
  match destructor_step t o1 o2 w s with Next s' _ => ok_after t s s' | Crash => False | NotEnabled => True end.
Proof.
  intros I. unfold destructor_step.
  destruct (threads s !! t) eqn:Et; [exact Logic.I|].
  destruct (valid (dsp s)) eqn:Ev; [|exact Logic.I]. cbn [negb].
  set (p := set_config (warning_callback (dsp s)) (tl_warning_ms (dsp s)) (tl_timeout_ms (dsp s)) false (dsp s)).
  assert (inv (mkSys p (threads s) (resources s))) as Ip by (apply config_inv; [exact I|discriminate]).
  pose proof Ip as [I1 I2 I3 I4]. specialize (I4 t Logic.I). cbn [dsp threads resources] in *.
  destruct (getAllocatedDS t p) as [[i d]|] eqn:E.
  - destruct (in_transaction d) eqn:Ed.
    + rewrite Et in I4. destruct I4 as [_ Ho].
      destruct (rollback_ok o1 o2 d (allocated_ds_ok _ _ _ _ I1 E) Ho) as [Wd Hd].
      destruct (update_ds_ok _ t i d _ I1 E Wd) as (W & F & E').
      pose proof (inv_on_pool t _ _ (resources s) (inv_but _ _ Ip) W F
        eq_refl eq_refl eq_refl ltac:(auto)) as X.
      pose proof (give_back_spec t w (existsb in_transaction (pool (dsp s))) _ i _ X E' Hd
        ltac:(simpl; congruence)) as G. cbn [dsp threads resources] in G.
      destruct (give_back _ _ _ _) as [s' exc| |]; [|exact G|exact Logic.I].
      split; [apply config_inv; [apply G|auto]|].
      intros t' N. destruct G as (_ & [_ G] & _). etransitivity; [apply (G t' N)|]. apply F, N.
    + split; [|reflexivity]. apply (config_inv false (tl_warning_ms p) (tl_timeout_ms p) (valid p) _ Ip). discriminate.
  - split; [|reflexivity]. apply (config_inv false (tl_warning_ms p) (tl_timeout_ms p) (valid p) _ Ip). discriminate.
Qed.

Lemma run_event_inv e s : inv s ->
  match run_event e s with
  | Next s' _ =>
    inv s' /\ forall t, thread_of e <> Some t -> getAllocatedDS t (dsp s') = getAllocatedDS t (dsp s)
  | Crash => exists t cb o w, e = GetDS t cb o w /\ getDS_fails t o s
  | NotEnabled => True
  end.
Proof.
  intros I.
  assert (forall t s', ok_after t s s' -> inv s' /\
    forall t', Some t <> Some t' -> getAllocatedDS t' (dsp s') = getAllocatedDS t' (dsp s)) as Hf.
  { intros t s' [H1 H2]. split; [exact H1|]. intros t' N. apply H2. congruence. }
  destruct e; simpl.
  - pose proof (enter_step_inv t m s I) as P. destruct (enter_step t m s); [auto|destruct P|exact P].
  - pose proof (wake_step_inv t timedout us s I) as P. destruct (wake_step t timedout us s); [auto|destruct P|exact P].
  - pose proof (getDS_step_inv t cb_exc o w s I) as P.
    destruct (getDS_step t cb_exc o w s); [auto|exists t, cb_exc, o, w; auto|exact P].
  - pose proof (act_step_inv t o1 o2 o3 s I) as P. destruct (act_step t o1 o2 o3 s); [auto|destruct P|exact P].
  - pose proof (end_step_inv t w s I) as P. destruct (end_step t w s); [auto|destruct P|exact P].
  - pose proof (cleanup_step_inv t o1 o2 w s I) as P. destruct (cleanup_step t o1 o2 w s); [auto|destruct P|exact P].
  - pose proof (destructor_step_inv t o1 o2 w s I) as P.
    destruct (destructor_step t o1 o2 w s); [auto|destruct P|exact P].
  - split; [|reflexivity]. apply config_inv; auto.
  - unfold setWarningCallback. destruct (_ <=? _); (split; [|reflexivity]); [exact I|]. apply config_inv; auto.
  - unfold clearWarningCallback. destruct (warning_callback (dsp s)); (split; [|reflexivity]).
    + apply config_inv; auto.
    + destruct s; exact I.
Qed.

(** ** The creation of a pool *)

Lemma seq_snoc n : seq 0 n ++ [n] = seq 0 (S n).
Proof. rewrite seq_S. reflexivity. Qed.

(** The state of the loop of [init]: [n + 1] entries were opened, all of them
    free. *)
Definition init_state (n : nat) (p : DatasourcePool) : Prop :=
  cmax p = n /\ length (pool p) = S n /\ length (tid_list p) = S n /\ tmap p = ∅ /\
  free_list p = seq 0 (S n) /\ wait_count p = 0%nat /\
  Forall (λ d, ds_ok d /\ in_transaction d = false) (pool p) /\ stats_reqs p = 0 /\ stats_hits p = 0.

Lemma config_open_ok o d rc : open o config_get = (d, rc, false) ->
  ds_ok d /\ in_transaction d = false.
Proof.
  intros E. destruct (open_ok o config_get d rc false config_get_ok eq_refl eq_refl E) as (W & T & _). auto.
Qed.

Lemma init_done n p cb w e v : init_state n p -> (n < max p)%nat -> (0 < min p <= max p)%nat ->
  pool_ok (set_config cb w e v (set_cmax (pool p) (S (cmax p)) p)).
Proof.
  intros (Hc & Hl & Ht & Hm & Hf & Hw & Hd & Hr & Hh) Hn Hx. split; simpl; try (rewrite Hc; assumption || lia).
  - unfold leases. simpl. rewrite Hm, map_to_list_empty, app_nil_r, Hf, Hc. reflexivity.
  - apply (Forall_impl _ _ _ Hd). tauto.
  - rewrite Hf. apply Forall_seq. intros i Hi.
    destruct (pool p !! i) as [d|] eqn:E; [|apply lookup_ge_None in E; lia].
    exists d. split; [reflexivity|]. rewrite Forall_lookup in Hd. apply (Hd _ _ E).
  - rewrite Hm. intros t i E. rewrite lookup_empty in E. discriminate.
  - lia.
  - exact Hx.
Qed.

(** A pool that was created *)
Definition created (p : DatasourcePool) : Prop :=
  pool_ok p /\ tmap p = ∅ /\ wait_count p = 0%nat /\ valid p = true.

Lemma init_loop_ok os : forall n p p',
  init_state n p -> (n < max p)%nat -> (0 < min p <= max p)%nat ->
  init_loop os p = (p', false) -> created p' /\ (min p <= cmax p')%nat /\ max p' = max p.
Proof.
  induction os as [|o os IH]; intros n p p' S Hn Hx;
    pose proof S as (Hc & Hl & Ht & Hm & Hf & Hw & Hd & Hr & Hh);
    simpl; destruct (Nat.ltb_spec (Datatypes.S (cmax p)) (min p)) as [L|L]; try discriminate.
  - intros [= <-]. split; [|simpl; auto]. split; [|auto]. exact (init_done n p _ _ _ _ S Hn Hx).
  - destruct (open o config_get) as [[d rc] [|]] eqn:E; [discriminate|].
    destruct (config_open_ok _ _ _ E) as [Wd Td]. intros X.
    eapply (IH (Datatypes.S n)) in X; [exact X| |simpl; lia|exact Hx].
    unfold init_state. cbn -[seq]. rewrite !length_app, Hf, Hc. cbn -[seq].
    split; [reflexivity|]. do 2 (split; [lia|]). split; [exact Hm|]. split; [apply seq_snoc|].
    split; [exact Hw|]. split; [apply Forall_app; auto|]. auto.
  - intros [= <-]. split; [|simpl; auto]. split; [|auto]. exact (init_done n p _ _ _ _ S Hn Hx).
Qed.

Lemma init_ok os mn mx w e cb p' : (0 < mn)%nat -> (mn <= mx)%nat ->
  init os (mkPool [] [] ∅ [] mn mx 0 0 0 w e 0 0 cb false) = (p', false) ->
  created p' /\ (mn <= cmax p')%nat /\ max p' = mx.
Proof.
  intros H1 H2. destruct os as [|o os]; [discriminate|]. cbn [init].
  destruct (open o config_get) as [[d rc] [|]] eqn:E; [discriminate|].
  destruct (config_open_ok _ _ _ E) as [Wd Td]. intros X.
  eapply (init_loop_ok _ 0) in X; [exact X| |simpl; lia|auto].
  unfold init_state. simpl. repeat (split; [auto|]). auto.
Qed.

Lemma created_inv p : created p -> inv (start p).
Proof.
  intros (W & Em & Ew & V). split; cbn [start dsp threads resources].
  - exact W.
  - rewrite Ew, mcount_empty. reflexivity.
  - intros _ A. rewrite mcount_empty in A. lia.
  - intros t _. unfold getAllocatedDS. simpl. rewrite Em, !lookup_empty.
    apply bool_decide_eq_false. set_solver.
Qed.

Lemma pool_reachable_inv s : reachable s -> inv s.
Proof.
  induction 1 as [os mn mx p H1 H2 E|os old p H IH V E|e s s' exc H IH E].
  - apply created_inv, (init_ok os mn mx 0 120000 false p H1 H2 E).
  - apply created_inv. destruct (ok_min _ (inv_pool _ _ IH)) as [H1 H2].
    apply (init_ok os _ _ _ _ _ p H1 H2 E).
  - pose proof (run_event_inv e s IH) as P. rewrite E in P. apply P.
Qed.

Lemma run_events_reachable es : forall s s' exc,
  reachable s -> run_events es s = Next s' exc -> reachable s'.
Proof.
  induction es as [|e es IH]; intros s s' exc R; simpl; [intros [= <- <-]; exact R|].
  destruct (run_event e s) as [s1 x| |] eqn:E; try discriminate.
  destruct (run_events es s1) as [s2 x2| |] eqn:E2; try discriminate.
  intros [= <- _]. exact (IH _ _ _ (reach_step _ _ _ _ R E) E2).
Qed.

Lemma held_lookup p t i d : getAllocatedDS t p = Some (i, d) -> tmap p !! t = Some i.
Proof. intros [E _]%allocated_lookup. exact E. Qed.

Lemma held_allocated p t i : pool_ok p -> tmap p !! t = Some i ->
  exists d, pool p !! i = Some d /\ getAllocatedDS t p = Some (i, d).
Proof.
  intros H E. destruct (getAllocatedDS t p) as [[j d]|] eqn:Ea.
  - apply allocated_lookup in Ea as [E' Ed]. assert (j = i) as -> by congruence. eauto.
  - apply allocated_none in Ea; [congruence|exact H].
Qed.

Lemma entry_cases p i : pool_ok p -> (i < cmax p)%nat ->
  (i ∈ free_list p) /\ (forall t, tmap p !! t <> Some i) \/
  (i ∉ free_list p) /\ exists t, tmap p !! t = Some i.
Proof.
  intros H Hi. assert (i ∈ (free_list p ++ leases p)) as E.
  { rewrite (ok_leases _ H). apply elem_of_seq. lia. }
  apply elem_of_app in E as [E|E].
  - left. split; [exact E|]. intros t Et. exact (ok_not_free _ _ _ H Et E).
  - right. apply list_elem_of_fmap in E as ((t & j) & -> & E). apply elem_of_map_to_list in E.
    split; [exact (ok_not_free _ _ _ H E)|]. eauto.
Qed.

(** The datasource a thread holds between two methods is open, and it has the
    pool in its resource list. *)
Lemma held_idle s t i d : inv s -> threads s !! t = None -> getAllocatedDS t (dsp s) = Some (i, d) ->
  isopen d = true /\ t ∈ resources s.
Proof.
  intros I Et E. pose proof (inv_threads _ _ I t Logic.I) as H. rewrite Et, E in H. simpl in H.
  destruct H as [Hr Ho]. apply bool_decide_eq_true in Hr. auto.
Qed.

(** The first three steps of a method of a thread that holds a datasource *)
Lemma method_held s t i d m cb o w o1 o2 o3 :
  inv s -> valid (dsp s) = true -> threads s !! t = None -> getAllocatedDS t (dsp s) = Some (i, d) ->
  let r := run_method m o1 o2 o3 d in
  let p := set_stats (stats_reqs (dsp s) + 1) (stats_hits (dsp s) + 1) (dsp s) in
  run_events [Enter t m; GetDS t cb o w; Act t o1 o2 o3] s =
  Next (mkSys (update_ds i r.1 p) (<[t := Ending (end_command m false r.2) false]> (threads s))
          (resources s)) r.2.
Proof.
  intros I V Et E r p. pose proof (held_lookup _ _ _ _ E) as Ei.
  destruct (held_idle _ _ _ _ I Et E) as [Ho Hr]. cbn [run_events run_event].
  unfold enter_step. rewrite Et, V. cbn [negb]. unfold getDSIntern. cbn [tmap set_stats]. rewrite Ei.
  change (set_stats _ _ (set_stats _ _ _)) with p.
  assert (getAllocatedDS t p = Some (i, d)) as Ep by exact E.
  unfold getDS_step. cbn [threads dsp resources]. rewrite lookup_insert_eq. cbn [Z.eqb].
  unfold open_step. cbn [threads dsp resources]. rewrite Ep, Ho.
  unfold act_step. cbn [threads dsp resources]. rewrite lookup_insert_eq, Ep.
  fold r. destruct r as [d' exc]. cbn [fst snd orb]. rewrite orb_false_r.
  rewrite !insert_insert_eq. reflexivity.
Qed.

Lemma signal_exists ts : exists w ts', signal w ts = Some ts'.
Proof.
  destruct (decide (0 < mcount asleep ts)%nat) as [Hs|Hs].
  - apply mcount_pos in Hs as (t & x & E & Ex). exists (Some t). simpl. rewrite E.
    destruct x as [m wt tm []| | |]; try discriminate. eauto.
  - exists None. simpl. destruct (existsb _ _) eqn:E; [|eauto]. destruct Hs.
    apply existsb_exists in E as ((t & x) & Hin & Ex). apply mcount_pos. exists t, x.
    split; [|exact Ex]. apply elem_of_map_to_list, list_elem_of_In, Hin.
Qed.

Lemma signal_waiting_exists p ts : exists w ts', signal_waiting w p ts = Some ts'.
Proof.
  unfold signal_waiting. destruct (_ =? _)%nat; [exists None; eauto|apply signal_exists].
Qed.

Lemma commit_trans m o1 o2 o3 d : m = Commit \/ m = Rollback -> ds_ok d -> isopen d = true ->
  in_transaction (run_method m o1 o2 o3 d).1 = false.
Proof.
  intros Hm W Ho. destruct (run_method m o1 o2 o3 d) as [d' exc] eqn:Er.
  destruct (run_method_ok _ _ _ _ _ false _ _ W Ho ltac:(discriminate) Er) as (_ & _ & T).
  apply T. destruct Hm as [-> | ->]; reflexivity.
Qed.

(** The end of a method whose datasource is given back *)
Lemma end_gives_back s t w cmd new_ds i d :
  pool_ok (dsp s) -> threads s !! t = Some (Ending cmd new_ds) -> getAllocatedDS t (dsp s) = Some (i, d) ->
  must_release cmd new_ds (keepLock d).1 (keepLock d).2 = true -> in_transaction d = false ->
  let p := set_leases (tid_list (dsp s)) (delete t (tmap (dsp s))) (free_list (dsp s) ++ [i])
             (update_ds i (transactionDone true (keepLock d).2) (dsp s)) in
  end_step t w s =
  match signal_waiting w p (delete t (threads s)) with
  | Some ts => Next (mkSys p ts (resources s ∖ {[t]})) false
  | None => NotEnabled
  end.
Proof.
  intros W Et E Hm Hd p. unfold end_step. rewrite Et, E.
  pose proof (allocated_ds_ok _ _ _ _ W E) as Wd.
  destruct (update_ds_ok _ t i d _ W E (keepLock_ok _ Wd)) as (_ & _ & E').
  destruct (keepLock_shape d) as (_ & K2 & _). destruct (keepLock d) as [k d2]. cbn [fst snd] in *.
  rewrite Hm. unfold give_back, freeDS. cbn [dsp threads resources]. rewrite E', K2, Hd.
  assert (update_ds i (transactionDone true d2) (update_ds i d2 (dsp s))
          = update_ds i (transactionDone true d2) (dsp s)) as ->.
  { unfold update_ds, set_pool. simpl. rewrite list_insert_insert_eq. reflexivity. }
  reflexivity.
Qed.

Lemma run_events_snoc es e : forall s,
  run_events (es ++ [e]) s =
  match run_events es s with
  | Next s' exc => match run_event e s' with Next s'' exc' => Next s'' (exc || exc') | r => r end
  | r => r
  end.
Proof.
  induction es as [|e' es IH]; intros s; simpl.
  - destruct (run_event e s) as [s' x| |]; [rewrite orb_false_r|..]; reflexivity.
  - destruct (run_event e' s) as [s1 x| |]; [|reflexivity..]. rewrite IH.
    destruct (run_events es s1) as [s2 x2| |]; [|reflexivity..].
    destruct (run_event e s2) as [s3 x3| |]; [|reflexivity..]. rewrite orb_assoc. reflexivity.
Qed.

Lemma commit_raises m o1 o2 o3 d : m = Commit \/ m = Rollback -> ds_ok d ->
  (run_method m o1 o2 o3 d).2 = (if in_transaction d then raised o2 else raised o1 || raised o2).
Proof.
  intros Hm [Ha _ _ _]. destruct Hm as [-> | ->]; simpl; unfold commit, rollback, beginImplicitTransaction;
    rewrite Ha; destruct (in_transaction d), o1, o2; reflexivity.
Qed.

(** A whole [commit] or [rollback] of a thread that holds a datasource *)
Lemma commit_run s t i d m cb o w o1 o2 o3 :
  inv s -> valid (dsp s) = true -> threads s !! t = None -> getAllocatedDS t (dsp s) = Some (i, d) ->
  m = Commit \/ m = Rollback ->
  exists d' p ts0,
    tmap p = delete t (tmap (dsp s)) /\ free_list p = free_list (dsp s) ++ [i] /\
    pool p = <[i := d']> (pool (dsp s)) /\ in_transaction d' = false /\ stmt_set d' = ∅ /\
    forall w',
    run_events [Enter t m; GetDS t cb o w; Act t o1 o2 o3; End t w'] s =
    match signal_waiting w' p ts0 with
    | Some ts => Next (mkSys p ts (resources s ∖ {[t]}))
                   (if in_transaction d then raised o2 else raised o1 || raised o2)
    | None => NotEnabled
    end.
Proof.
  intros I V Et E Hm. destruct (held_idle _ _ _ _ I Et E) as [Ho Hr]. pose proof (inv_pool _ _ I) as W.
  pose proof (allocated_ds_ok _ _ _ _ W E) as Wd.
  pose proof (method_held s t i d m cb o w o1 o2 o3 I V Et E) as Hrun. cbv zeta in Hrun.
  pose proof (commit_trans m o1 o2 o3 d Hm Wd Ho) as Hd. pose proof (commit_raises m o1 o2 o3 d Hm Wd) as Hx.
  pose proof (run_method_ok m o1 o2 o3 d false _ _ Wd Ho ltac:(discriminate) (surjective_pairing _)) as (Wd' & _ & _).
  rewrite Hx in Hrun. destruct (run_method m o1 o2 o3 d) as [d' exc0]. cbn [fst snd] in *. clear Hx exc0.
  set (exc := if in_transaction d then _ else _) in *. set (p := set_stats _ _ _) in Hrun.
  assert (pool_ok p) as Wp by (apply set_stats_ok; [exact W|pose proof (ok_stats _ W); lia]).
  destruct (update_ds_ok p t i d d' Wp E Wd') as (W' & _ & E').
  pose proof (end_gives_back (mkSys (update_ds i d' p) (<[t := Ending (end_command m false exc) false]> (threads s))
    (resources s)) t) as Hg.
  specialize (λ w', Hg w' _ _ i d' W' (lookup_insert_eq _ t _) E'
    ltac:(destruct Hm as [-> | ->]; reflexivity) Hd) as Hg'. cbv zeta in Hg'.
  cbn [dsp threads resources] in Hg'.
  exists (transactionDone true (keepLock d').2), (set_leases (tid_list (update_ds i d' p))
    (delete t (tmap (update_ds i d' p))) (free_list (update_ds i d' p) ++ [i])
    (update_ds i (transactionDone true (keepLock d').2) (update_ds i d' p))),
    (delete t (<[t := Ending (end_command m false exc) false]> (threads s))).
  split; [reflexivity|]. split; [reflexivity|].
  split; [unfold p, update_ds, set_pool; simpl; apply list_insert_insert_eq|].
  split; [exact Hd|]. split; [reflexivity|]. intros w'.
  rewrite (run_events_snoc [Enter t m; GetDS t cb o w; Act t o1 o2 o3] (End t w')), Hrun.
  cbn [run_event]. rewrite Hg'.
  destruct (signal_waiting w' _ _) as [ts|]; [|reflexivity]. rewrite orb_false_r. reflexivity.
Qed.

(** ** Properties *)

(** C27: The pool hands each connection to at most one thread: in every state that the calls of any number
    of threads lead to, the opened connections are at most [max], each of them is either on the free list
    (once) or held by exactly one thread, a connection in a transaction is held by a thread, and a
    thread that has left the pool's methods with a connection has the pool among the resources that are
    cleaned up when it ends. *)
Theorem pool_leases s : reachable s ->
  length (pool (dsp s)) = cmax (dsp s) /\ (cmax (dsp s) <= max (dsp s))%nat /\
  NoDup (free_list (dsp s)) /\
  (forall i, (i < cmax (dsp s))%nat ->
     (i ∈ free_list (dsp s)) /\ (forall t, tmap (dsp s) !! t <> Some i) \/
     (i ∉ free_list (dsp s)) /\ exists t, tmap (dsp s) !! t = Some i /\
                                forall t', tmap (dsp s) !! t' = Some i -> t' = t) /\
  (forall i d, pool (dsp s) !! i = Some d -> in_transaction d = true ->
     isopen d = true /\ exists t, tmap (dsp s) !! t = Some i) /\
  (forall t, threads s !! t = None -> (t ∈ resources s) <-> is_Some (tmap (dsp s) !! t)).
Proof.
  intros I%pool_reachable_inv. pose proof (inv_pool _ _ I) as W. pose proof (ok_cmax _ W) as [_ Hc].
  split; [apply W|]. split; [exact Hc|]. split; [|split; [|split]].
  - pose proof (ok_nodup _ W) as N. apply NoDup_app in N. apply N.
  - intros i Hi. destruct (entry_cases _ _ W Hi) as [C|(Nf & t & Et)]; [left; exact C|right].
    split; [exact Nf|]. exists t. split; [exact Et|]. intros t' E'. exact (ok_exclusive _ _ _ _ W E' Et).
  - intros i d Ed Hd. pose proof (ok_ds _ W) as Fd. rewrite Forall_lookup in Fd.
    split; [exact (ok_transaction _ (Fd _ _ Ed) Hd)|].
    assert (i < cmax (dsp s))%nat as Hi by (rewrite <-(ok_length _ W); exact (lookup_lt_Some _ _ _ Ed)).
    destruct (entry_cases _ _ W Hi) as [[Hf _]|[_ Ht]]; [|exact Ht].
    pose proof (ok_free _ W) as Ff. rewrite Forall_forall in Ff.
    destruct (Ff i Hf) as (d' & Ed' & Hd'). congruence.
  - intros t Et. pose proof (inv_threads _ _ I t Logic.I) as H. rewrite Et in H. simpl in H.
    destruct (getAllocatedDS t (dsp s)) as [[i d]|] eqn:E.
    + destruct H as [Hr _]. apply bool_decide_eq_true in Hr. apply held_lookup in E. split; eauto.
    + apply bool_decide_eq_false in H. apply allocated_none in E; [|exact W]. rewrite E.
      split; [intros; contradiction|intros [? [=]]].
Qed.

(** C28: A connection is isolated: no step of another thread, and no change of the pool's configuration,
    changes the connection a thread holds or the state of that connection; so a transaction ends only by
    a step of the thread that holds it. *)
Theorem pool_isolation s e s' exc t i :
  reachable s -> run_event e s = Next s' exc -> thread_of e <> Some t ->
  tmap (dsp s) !! t = Some i ->
  tmap (dsp s') !! t = Some i /\ pool (dsp s') !! i = pool (dsp s) !! i.
Proof.
  intros I%pool_reachable_inv E N Et. pose proof (run_event_inv e s I) as P. rewrite E in P.
  destruct P as [_ F]. destruct (held_allocated _ _ _ (inv_pool _ _ I) Et) as (d & Ed & Ea).
  specialize (F t N). rewrite Ea in F. apply allocated_lookup in F as [F1 F2]. split; congruence.
Qed.

(** The assertions of the pool hold: in every reachable state no step of any thread fails an assertion
    of [getDS], [freeDS], [cleanup] or the action helper or uses an absent entry, unless it is [getDS]
    with a connection that is closed and whose options are refused after it was opened, or for which the
    warning callback is due. *)
Theorem pool_asserts s e :
  reachable s -> run_event e s = Crash ->
  exists t cb o w m wt i d,
    e = GetDS t cb o w /\ threads s !! t = Some (Got m wt true) /\
    getAllocatedDS t (dsp s) = Some (i, d) /\ isopen d = false /\
    (o = OpenOptExc \/
     warning_callback (dsp s) = true /\ wt <> 0 /\ tl_warning_ms (dsp s) <= wt /c 1000).
Proof.
  intros I%pool_reachable_inv E. pose proof (run_event_inv e s I) as P. rewrite E in P.
  destruct P as (t & cb & o & w & -> & m & wt & i & d & P). exists t, cb, o, w, m, wt, i, d. auto.
Qed.

(** C29: No wakeup is lost: while the pool is valid and a thread sleeps, the pool has all the connections
    it may have and each free connection has a woken thread of its own that will look for it; so nobody
    sleeps while a connection is free and no wakeup is under way. A woken thread that finds the free list
    not empty gets its first connection. *)
Theorem pool_no_lost_wakeup s : reachable s -> valid (dsp s) = true ->
  ((exists t m wt timed, threads s !! t = Some (Waiting m wt timed true)) ->
   cmax (dsp s) = max (dsp s) /\ (length (free_list (dsp s)) <= mcount woken (threads s))%nat) /\
  (forall t m wt timed b us fi rest,
     threads s !! t = Some (Waiting m wt timed b) -> free_list (dsp s) = fi :: rest ->
     exists s', run_event (Wake t false us) s = Next s' false /\
       threads s' !! t = Some (Got m (wt + us) true) /\ tmap (dsp s') !! t = Some fi /\
       free_list (dsp s') = rest).
Proof.
  intros I%pool_reachable_inv V. split.
  - intros (t & m & wt & tm & E). apply (inv_wakeups _ _ I V). apply mcount_pos. eauto.
  - intros t m wt tm b us fi rest E Ef. simpl. unfold wake_step. rewrite E. cbn [andb].
    unfold getDSIntern_wake. cbn [valid set_wait]. rewrite V. cbn [negb andb].
    unfold assign. cbn [free_list set_wait]. rewrite Ef.
    eexists. split; [reflexivity|]. cbn [threads dsp]. rewrite lookup_insert_eq.
    split; [reflexivity|]. destruct (_ >? _); simpl; rewrite lookup_insert_eq; auto.
Qed.

(** [commit] and [rollback] end the transaction and give the connection back whatever the driver
    answers: the method of a thread that holds a connection comes to its end, and then the thread holds
    none, the connection is the last of the free list, in no transaction and without statements, and
    the pool is no resource of the thread any more. An exception is raised exactly when one of the driver's
    calls raised one. *)
Theorem commit_gives_back s t i d m cb o w o1 o2 o3 :
  reachable s -> valid (dsp s) = true -> threads s !! t = None ->
  getAllocatedDS t (dsp s) = Some (i, d) -> m = Commit \/ m = Rollback ->
  (exists w' s' exc, run_events [Enter t m; GetDS t cb o w; Act t o1 o2 o3; End t w'] s = Next s' exc) /\
  forall w' s' exc,
    run_events [Enter t m; GetDS t cb o w; Act t o1 o2 o3; End t w'] s = Next s' exc ->
    tmap (dsp s') = delete t (tmap (dsp s)) /\
    free_list (dsp s') = free_list (dsp s) ++ [i] /\
    (exists d', pool (dsp s') !! i = Some d' /\ in_transaction d' = false /\ stmt_set d' = ∅) /\
    resources s' = resources s ∖ {[t]} /\
    exc = (if in_transaction d then raised o2 else raised o1 || raised o2).
Proof.
  intros R%pool_reachable_inv V Et E Hm.
  assert (i < length (pool (dsp s)))%nat as Hi.
  { apply allocated_lookup in E as [_ E]. exact (lookup_lt_Some _ _ _ E). }
  destruct (commit_run s t i d m cb o w o1 o2 o3 R V Et E Hm)
    as (d' & p & ts0 & P1 & P2 & P3 & P4 & P5 & Hrun). split.
  - destruct (signal_waiting_exists p ts0) as (w' & ts & Es). exists w'. rewrite Hrun, Es. eauto.
  - intros w' s' exc X. rewrite Hrun in X.
    destruct (signal_waiting w' p ts0); [|discriminate]. injection X as <- <-.
    cbn [dsp resources]. repeat (split; [assumption|]). split; [|auto].
    exists d'. rewrite P3, list_lookup_insert_eq by exact Hi. auto.
Qed.

(** ** Examples *)

Definition pool1 : system := start (new_DatasourcePool [OpenOk] 1 1).1.
Definition pool2 : system := start (new_DatasourcePool [OpenOk] 1 2).1.

(** Thread [t] begins a transaction. *)
Definition begin_tx (t : nat) : list event :=
  [Enter t BeginTransaction; GetDS t false OpenOk None; Act t DrvOk DrvOk DrvOk; End t None].

Definition after (es : list event) (s : system) : system :=
  match run_events es s with Next s' _ => s' | _ => s end.

Lemma after_reachable s es :
  reachable s -> (exists exc, run_events es s = Next (after es s) exc) -> reachable (after es s).
Proof. intros R [exc E]. exact (run_events_reachable _ _ _ _ R E). Qed.

Lemma pool1_reachable : reachable pool1.
Proof. apply (reach_new [OpenOk] 1 1); [lia..|reflexivity]. Qed.
Lemma pool2_reachable : reachable pool2.
Proof. apply (reach_new [OpenOk] 1 2); [lia..|reflexivity]. Qed.

(** Thread 1 is in a transaction on the only connection, thread 2 sleeps. *)
Definition busy : system := after (begin_tx 1 ++ [Enter 2 Select]) pool1.

Lemma busy_reachable : reachable busy.
Proof. apply after_reachable; [apply pool1_reachable|eexists; vm_compute; reflexivity]. Qed.

(** The implicit transaction of [exec] cannot be started: the thread keeps the
    connection that it got for the call, although it is in no transaction. *)
Example exec_keeps_connection :
  let s := after [Enter 1 Exec; GetDS 1 false OpenOk None; Act 1 DrvExc DrvOk DrvOk; End 1 None] pool1 in
  tmap (dsp s) !! 1%nat = Some 0%nat /\ (in_transaction <$> pool (dsp s)) = [false].
Proof. vm_compute. auto. Qed.

(** ... where a failed [beginTransaction] gives it back. *)
Example begin_gives_back :
  let s := after [Enter 1 BeginTransaction; GetDS 1 false OpenOk None; Act 1 DrvExc DrvOk DrvOk; End 1 None] pool1 in
  tmap (dsp s) !! 1%nat = None /\ free_list (dsp s) = [0%nat].
Proof. vm_compute. auto. Qed.

(** The destructor does not wake up the threads that wait for a connection. *)
Example destructor_wakes_nobody :
  let s := after [Destructor 3 DrvOk DrvOk None] busy in
  valid (dsp s) = false /\ threads s !! 2%nat = Some (Waiting Select 0 true true).
Proof. vm_compute. auto. Qed.

(** The warning callback is due for a connection that was lost and closed: an
    assertion of [getDS] fails. *)
Example callback_on_closed_connection :
  run_events ([SetWarningCallback 1] ++ begin_tx 1 ++
    [Enter 2 Select; Enter 1 Exec; GetDS 1 false OpenOk None; Act 1 DrvOk DrvAborted DrvOk; End 1 (Some 2%nat);
     Wake 2 false 5000; GetDS 2 false OpenExc None]) pool1 = Crash.
Proof. vm_compute. reflexivity. Qed.

(** The options of a connection that is opened later are refused: [open]
    returns 0 with an exception, and [getDS] goes on with a closed
    datasource. *)
Example refused_options :
  run_events (begin_tx 1 ++ [Enter 2 Select; GetDS 2 false OpenOptExc None]) pool2 = Crash.
Proof. vm_compute. reflexivity. Qed.

(** The longest waiting time is kept in 32 bits. *)
Example wait_max_truncated :
  wait_max (dsp (after (begin_tx 1 ++ [SetErrorTimeout 0; Enter 2 Select; Enter 1 Commit;
    GetDS 1 false OpenOk None; Act 1 DrvOk DrvOk DrvOk; End 1 (Some 2%nat);
    Wake 2 false 4294967297]) pool1)) = 1.
Proof. vm_compute. reflexivity. Qed.

(** A timeout of 2^32 milliseconds is no timeout. *)
Example timeout_truncated : tl_timeout_ms (setErrorTimeout 4294967296 (dsp pool1)) = 0.
Proof. vm_compute. reflexivity. Qed.

(** ** Witnesses *)

Lemma pool_leases_witness :
  tmap (dsp busy) !! 1%nat = Some 0%nat /\ (cmax (dsp busy) <= max (dsp busy))%nat.
Proof.
  split; [vm_compute; reflexivity|]. destruct (pool_leases busy busy_reachable) as (_ & H & _). exact H.
Defined.

Lemma pool_isolation_witness :
  let s' := after [Wake 2 true 120000] busy in
  tmap (dsp s') !! 1%nat = Some 0%nat /\ pool (dsp s') !! 0%nat = pool (dsp busy) !! 0%nat.
Proof.
  apply (pool_isolation busy (Wake 2 true 120000) _ true 1 0 busy_reachable);
    [vm_compute; reflexivity|discriminate|vm_compute; reflexivity].
Defined.

(** Thread 1 is in a transaction, thread 2 has just got a new connection. *)
Definition opening : system := after (begin_tx 1 ++ [Enter 2 Select]) pool2.

Lemma opening_reachable : reachable opening.
Proof. apply after_reachable; [apply pool2_reachable|eexists; vm_compute; reflexivity]. Qed.

Lemma pool_asserts_witness :
  run_event (GetDS 2 false OpenOptExc None) opening = Crash /\
  exists wt, threads opening !! 2%nat = Some (Got Select wt true).
Proof.
  split; [vm_compute; reflexivity|].
  destruct (pool_asserts opening (GetDS 2 false OpenOptExc None) opening_reachable eq_refl)
    as (t & cb & o & w & m & wt & i & d & [= <- <- <- <-] & E & _).
  exists wt. vm_compute in E |- *. injection E as <- <-. reflexivity.
Defined.

Lemma pool_no_lost_wakeup_witness :
  (exists t m wt timed, threads busy !! t = Some (Waiting m wt timed true)) /\
  (length (free_list (dsp busy)) <= mcount woken (threads busy))%nat.
Proof.
  assert (exists t m wt timed, threads busy !! t = Some (Waiting m wt timed true)) as H.
  { exists 2%nat, Select, 0, true. vm_compute. reflexivity. }
  split; [exact H|]. apply (proj1 (pool_no_lost_wakeup busy busy_reachable eq_refl) H).
Defined.

Lemma commit_gives_back_witness :
  exists w s' exc,
    run_events [Enter 1 Commit; GetDS 1 false OpenOk None; Act 1 DrvOk DrvAborted DrvOk; End 1 w] busy
    = Next s' exc.
Proof.
  apply (commit_gives_back busy 1 0 (mkDs true false true false false false ∅) Commit false OpenOk None
           DrvOk DrvAborted DrvOk busy_reachable); [vm_compute; reflexivity..|left; reflexivity].
Defined.
