(* ===== verification/ManagedDatasource.v ===== *)
(** * Datasources with a transaction lock

    [ManagedDatasource], the datasource that threads share: a thread holds its
    transaction lock for the time of a call, or from the first call of a
    transaction to its end. The lock is the field [tid] with a condition
    variable, both in the mutex [ds_lock]. A method of the datasource takes the
    lock, calls the driver outside of the mutex and gives the lock back in the
    destructor of a helper object; a step of the model is what happens with the
    mutex or with the lock held. The datasource itself and the outcomes of the
    driver are those of [DatasourcePool]. *)

From S2P Require Import Prelude DatasourcePool.

#[local] Open Scope Z_scope.

Record ManagedDatasource := mkMds {
  ds : Datasource;
  tid : option nat;            (* the thread with the lock; none is -1 *)
  waiting_threads : nat;
  transaction_timeout_ms : Z }.

Definition DEFAULT_TL_TIMEOUT : Z := 120000.

Definition new_ManagedDatasource : ManagedDatasource := mkMds config_get None 0 DEFAULT_TL_TIMEOUT.

Definition set_ds (d : Datasource) (m : ManagedDatasource) : ManagedDatasource :=
  mkMds d (tid m) (waiting_threads m) (transaction_timeout_ms m).
Definition set_tid (t : option nat) (m : ManagedDatasource) : ManagedDatasource :=
  mkMds (ds m) t (waiting_threads m) (transaction_timeout_ms m).
Definition set_waiting (n : nat) (m : ManagedDatasource) : ManagedDatasource :=
  mkMds (ds m) (tid m) n (transaction_timeout_ms m).

(** The calls of a datasource. [Action] is one with a [DatasourceActionHelper]
    and its command, [NoConn] one with the command [DAH_NOCONN]: the
    configuration and the options. *)
Inductive call :=
  | Action (m : method) (cmd : command)
  | NoConn
  | SetAutoCommit (ac : bool) | OpenDs | CloseDs | ResetDs.

(** A thread waits for the lock, has it and calls the driver, or is in the
    destructor of the helper. *)
Inductive caller :=
  | InWait (c : call) (timed sleeps : bool)
  | InCall (m : method) (cmd : command) (new_transaction : bool)
  | InNoConn
  | InEnd (cmd : command) (new_transaction : bool).

Record state := mkState {
  managed : ManagedDatasource;
  callers : gmap nat caller;
  thread_resources : gset nat }.   (* the threads with the datasource in their resource list *)

Inductive transition :=
  | To (s : state) (exc : bool)    (* and whether an exception was raised *)
  | Failed                         (* an assertion *)
  | Impossible.

Definition set_managed (m : ManagedDatasource) (s : state) : state :=
  mkState m (callers s) (thread_resources s).
Definition set_caller (t : nat) (x : caller) (s : state) : state :=
  mkState (managed s) (<[t := x]> (callers s)) (thread_resources s).
Definition leave (t : nat) (s : state) : state :=
  mkState (managed s) (delete t (callers s)) (thread_resources s).
Definition set_thread_resource (t : nat) (s : state) : state :=
  mkState (managed s) (callers s) ({[t]} ∪ thread_resources s).
Definition remove_thread_resource (t : nat) (s : state) : state :=
  mkState (managed s) (callers s) (thread_resources s ∖ {[t]}).

(** ** The lock *)

Definition sleeps_in_wait (x : caller) : bool := match x with InWait _ _ b => b | _ => false end.
Definition awake_in_wait (x : caller) : bool := match x with InWait _ _ b => negb b | _ => false end.

(** [cond.signal()]: one of the sleeping threads, [w], wakes up *)
Definition cond_signal (w : option nat) (s : state) : option state :=
  match w with
  | Some w =>
    match callers s !! w with
    | Some (InWait c timed true) => Some (set_caller w (InWait c timed false) s)
    | _ => None
    end
  | None => if existsb (λ x, sleeps_in_wait x.2) (map_to_list (callers s)) then None else Some s
  end.

(** [forceReleaseLockIntern] *)
Definition forceReleaseLockIntern (w : option nat) (s : state) : option state :=
  let s := set_managed (set_tid None (managed s)) s in
  if (waiting_threads (managed s) =? 0)%nat then match w with None => Some s | Some _ => None end
  else cond_signal w s.

(** What follows when a thread leaves and, perhaps, releases the lock *)
Definition then_leave (t : nat) (exc : bool) (s : option state) : transition :=
  match s with Some s => To (leave t s) exc | None => Impossible end.

(** [releaseLockIntern] asserts that the thread has the lock. *)
Definition release_and_leave (t : nat) (w : option nat) (exc : bool) (s : state) : transition :=
  if decide (tid (managed s) = Some t) then then_leave t exc (forceReleaseLockIntern w s) else Failed.

(** ** Calls in the mutex *)

(** [closeUnlocked] with the lock: whether the return value is not 0, and
    whether an exception was raised *)
Definition closeUnlocked (t : nat) (o1 o2 : outcome) (w : option nat) (s : state)
    : option (state * bool * bool) :=
  let d := ds (managed s) in
  let close s := set_managed (set_ds (close (ds (managed s))).1 (managed s)) s in
  if isopen d then
    if in_transaction d then
      let exc := negb (connection_aborted d) in
      let d := if exc then (rollback o1 o2 d).1 else d in
      let s := set_managed (set_ds (set_transaction false (active_transaction d) d) (managed s)) s in
      s ← forceReleaseLockIntern w (remove_thread_resource t s);
      Some (close s, true, exc)
    else Some (close s, false, false)
  else Some (s, false, false).

(** What a call does when it has got the lock; [had] is whether the thread
    had it before. *)
Definition with_lock (t : nat) (c : call) (had : bool) (o : open_outcome) (o1 o2 : outcome) (w : option nat)
    (s : state) : transition :=
  let d := ds (managed s) in
  match c with
  | Action m cmd =>
    let new_transaction := negb had in
    if isopen d then To (set_caller t (InCall m cmd new_transaction) s) false
    else
      let '(d, rc, exc) := open o d in
      let s := set_managed (set_ds d (managed s)) s in
      if negb (rc =? 0) || exc then
        if new_transaction then release_and_leave t w exc s else To (leave t s) exc
      else To (set_caller t (InCall m cmd new_transaction) s) false
  | NoConn => To (set_caller t InNoConn s) false
  | SetAutoCommit ac =>
    let d := mkDs (in_transaction d) (active_transaction d) (isopen d) ac (connection_aborted d)
               (keep_lock d) (stmt_set d) in
    let s := set_managed (set_ds d (managed s)) s in
    if had then To (leave t s) false else release_and_leave t w false s
  | OpenDs =>
    let '(d, _, exc) := open o d in
    let s := set_managed (set_ds d (managed s)) s in
    if had then To (leave t s) exc else release_and_leave t w exc s
  | CloseDs =>
    match closeUnlocked t o1 o2 w s with
    | Some (s, _, exc) => To (leave t s) exc
    | None => Impossible
    end
  | ResetDs =>
    match closeUnlocked t o1 o2 w s with
    | Some (s, true, exc) => To (leave t s) exc
    | Some (s, false, _) =>
      let '(d, _, exc) := open o (ds (managed s)) in
      To (leave t (set_managed (set_ds d (managed s)) s)) exc
    | None => Impossible
    end
  end.

(** [grabLockIntern]: the thread has the lock, gets it, or waits. *)
Definition wait_for_lock (t : nat) (c : call) (s : state) : state :=
  set_caller t (InWait c (negb (transaction_timeout_ms (managed s) =? 0)) true)
    (set_managed (set_waiting (S (waiting_threads (managed s))) (managed s)) s).

Definition take_lock (t : nat) (s : state) : state := set_managed (set_tid (Some t) (managed s)) s.

Definition grab_and_run (t : nat) (c : call) (o : open_outcome) (o1 o2 : outcome) (w : option nat) (s : state)
    : transition :=
  match tid (managed s) with
  | None => with_lock t c false o o1 o2 w (take_lock t s)
  | Some t' =>
    if (t' =? t)%nat then with_lock t c true o o1 o2 w s
    else match w with None => To (wait_for_lock t c s) false | Some _ => Impossible end
  end.

(** ** Steps *)

(** The command of a method is chosen before the lock is taken. *)
Definition command_for (m : method) (ac : bool) : command :=
  match m with
  | Select | Info => DAH_NOCHANGE
  | Exec | BeginTransaction => if ac then DAH_NOCHANGE else DAH_ACQUIRE
  | Commit | Rollback => if ac then DAH_NOCHANGE else DAH_RELEASE
  end.

Inductive request :=
  | Run (m : method) | Config | AutoCommit (ac : bool) | Open | Close | Reset_.

Definition call_of (r : request) (s : state) : call :=
  match r with
  | Run m => Action m (command_for m (autocommit (ds (managed s))))
  | Config => NoConn
  | AutoCommit ac => SetAutoCommit ac
  | Open => OpenDs | Close => CloseDs | Reset_ => ResetDs
  end.

Definition enter (t : nat) (r : request) (o : open_outcome) (o1 o2 : outcome) (w : option nat) (s : state)
    : transition :=
  match callers s !! t with
  | Some _ => Impossible
  | None => grab_and_run t (call_of r s) o o1 o2 w s
  end.

(** The wait ends: by a signal, at its timeout in a thread that no signal woke
    up, or for no reason. A timeout is an exception, with the lock free or not. *)
Definition wake (t : nat) (timedout : bool) (o : open_outcome) (o1 o2 : outcome) (w : option nat) (s : state)
    : transition :=
  match callers s !! t with
  | Some (InWait c timed b) =>
    if timedout && negb (timed && b) then Impossible
    else
      let s := set_managed (set_waiting (Nat.pred (waiting_threads (managed s))) (managed s)) s in
      if timedout then match w with None => To (leave t s) true | Some _ => Impossible end
      else grab_and_run t c o o1 o2 w (leave t s)
  | _ => Impossible
  end.

(** The method calls the driver. *)
Definition act (t : nat) (o1 o2 o3 : outcome) (s : state) : transition :=
  match callers s !! t with
  | Some (InCall m cmd nt) =>
    let '(d, exc) := run_method m o1 o2 o3 (ds (managed s)) in
    To (set_caller t (InEnd cmd nt) (set_managed (set_ds d (managed s)) s)) exc
  | _ => Impossible
  end.

(** The command of [~DatasourceActionHelper] *)
Definition final_command (cmd : command) (new_transaction keep_lock : bool) (d : Datasource) : command :=
  if connection_aborted d then DAH_RELEASE
  else if new_transaction then
    match cmd with
    | DAH_NOCHANGE => if in_transaction d && keep_lock then DAH_ACQUIRE else DAH_RELEASE
    | _ => if negb (in_transaction d) then DAH_RELEASE else cmd
    end
  else cmd.

(** [endDBActionIntern] *)
Definition endDBAction (t : nat) (cmd : command) (new_transaction : bool) (w : option nat) (s : state)
    : transition :=
  match cmd with
  | DAH_ACQUIRE => then_leave t false (if w is Some _ then None else Some (if new_transaction then set_thread_resource t s else s))
  | DAH_RELEASE => release_and_leave t w false (remove_thread_resource t s)
  | DAH_NOCHANGE => then_leave t false (if w is Some _ then None else Some s)
  end.

(** [~DatasourceActionHelper] *)
Definition end_call (t : nat) (w : option nat) (s : state) : transition :=
  match callers s !! t with
  | Some (InEnd cmd nt) =>
    let '(kl, d) := keepLock (ds (managed s)) in
    endDBAction t (final_command cmd nt kl d) nt w (set_managed (set_ds d (managed s)) s)
  | Some InNoConn => release_and_leave t w false s
  | _ => Impossible
  end.

(** [cleanup], which the end of a thread calls when the datasource is one of
    its resources *)
Definition cleanup (t : nat) (o1 o2 : outcome) (w : option nat) (s : state) : transition :=
  match callers s !! t with
  | Some _ => Impossible
  | None =>
    if negb (bool_decide (t ∈ thread_resources s)) then Impossible
    else if negb (in_transaction (ds (managed s))) then Failed
    else
      let d := (rollback o1 o2 (ds (managed s))).1 in
      let d := set_transaction false (active_transaction d) d in
      release_and_leave t w true (remove_thread_resource t (set_managed (set_ds d (managed s)) s))
  end.

(** [destructor]: an exception when another thread has the lock *)
Definition destructor (t : nat) (o1 o2 : outcome) (w : option nat) (s : state) : transition :=
  match callers s !! t with
  | Some _ => Impossible
  | None =>
    match tid (managed s) with
    | None => with_lock t CloseDs false OpenOk o1 o2 w (take_lock t s)
    | Some t' =>
      if (t' =? t)%nat then with_lock t CloseDs true OpenOk o1 o2 w s
      else match w with None => To s true | Some _ => Impossible end
    end
  end.

Inductive event :=
  | Enter (t : nat) (r : request) (o : open_outcome) (o1 o2 : outcome) (w : option nat)
  | Wake (t : nat) (timedout : bool) (o : open_outcome) (o1 o2 : outcome) (w : option nat)
  | Act (t : nat) (o1 o2 o3 : outcome)
  | End (t : nat) (w : option nat)
  | Cleanup (t : nat) (o1 o2 : outcome) (w : option nat)
  | Destroy (t : nat) (o1 o2 : outcome) (w : option nat)
  | SetTransactionLockTimeout (t_ms : Z).

Definition step (e : event) (s : state) : transition :=
  match e with
  | Enter t r o o1 o2 w => enter t r o o1 o2 w s
  | Wake t b o o1 o2 w => wake t b o o1 o2 w s
  | Act t o1 o2 o3 => act t o1 o2 o3 s
  | End t w => end_call t w s
  | Cleanup t o1 o2 w => cleanup t o1 o2 w s
  | Destroy t o1 o2 w => destructor t o1 o2 w s
  | SetTransactionLockTimeout t_ms =>
    To (set_managed (mkMds (ds (managed s)) (tid (managed s)) (waiting_threads (managed s)) t_ms) s) false
  end.

(** The datasource of a new object; [ac] is the option autocommit. *)
Definition start (ac : bool) : state :=
  mkState (set_ds (mkDs false false false ac false false ∅) new_ManagedDatasource) ∅ ∅.

Fixpoint steps (es : list event) (s : state) : option state :=
  match es with
  | [] => Some s
  | e :: es => match step e s with To s _ => steps es s | _ => None end
  end.
