(* ===== verification/ManagedSpec.v ===== *)
(** * The transaction lock is correct

    The states that the calls of any number of threads lead to: only the
    thread with the lock uses the connection, no wakeup of a waiting thread is
    lost, and, when the calls are used with some care, a transaction has an
    owner and the lock is held for nothing else. *)

From S2P Require Import Prelude DatasourcePool ManagedDatasource.

#[local] Open Scope Z_scope.

(** ** The waiting threads *)

Definition waits (x : caller) : bool := match x with InWait _ _ _ => true | _ => false end.

(** What every run keeps: the number of waiting threads is right, a free lock
    with sleeping threads has one that is awake and about to take it, and a
    thread that is in a call has the lock. *)
Record core_on (o : option nat) (n : nat) (cs : gmap nat caller) : Prop := {
  core_count : n = mcount waits cs;
  core_wake : o = None -> (0 < mcount sleeps_in_wait cs)%nat -> (0 < mcount awake_in_wait cs)%nat;
  core_owner : forall t x, cs !! t = Some x -> waits x = false -> o = Some t }.

Definition core (s : state) : Prop :=
  core_on (tid (managed s)) (waiting_threads (managed s)) (callers s).

Definition not_waiting (t : nat) (cs : gmap nat caller) : Prop := forall x, cs !! t = Some x -> waits x = false.

Lemma sleeps_waits x : sleeps_in_wait x = true -> waits x = true.
Proof. destruct x; simpl; congruence. Qed.
Lemma awake_waits x : awake_in_wait x = true -> waits x = true.
Proof. destruct x; simpl; congruence. Qed.
Lemma waits_waits x : waits x = true -> waits x = true.
Proof. auto. Qed.
Create HintDb managed.
#[export] Hint Resolve sleeps_waits awake_waits waits_waits : managed.

Lemma waits_split (cs : gmap nat caller) :
  mcount waits cs = (mcount sleeps_in_wait cs + mcount awake_in_wait cs)%nat.
Proof.
  induction cs as [|k x cs E IH] using map_ind; [rewrite !mcount_empty; reflexivity|].
  rewrite !mcount_insert, !delete_id by exact E. rewrite IH. destruct x as [c tm []| | |]; simpl; lia.
Qed.

Lemma mcount_quiet P t (cs : gmap nat caller) : (forall x, P x = true -> waits x = true) ->
  not_waiting t cs -> mcount P (delete t cs) = mcount P cs.
Proof.
  intros HP H. rewrite (mcount_delete P t cs). destruct (cs !! t) as [x|] eqn:E; [|reflexivity].
  specialize (H x E). destruct (P x) eqn:Ex; [|reflexivity]. apply HP in Ex. congruence.
Qed.

Lemma mcount_enter P t x (cs : gmap nat caller) : (forall x, P x = true -> waits x = true) ->
  not_waiting t cs -> mcount P (<[t := x]> cs) = ((if P x then 1 else 0) + mcount P cs)%nat.
Proof. intros HP H. rewrite mcount_insert, mcount_quiet by assumption. reflexivity. Qed.

Lemma core_set t n cs x : core_on (Some t) n cs -> not_waiting t cs -> waits x = false ->
  core_on (Some t) n (<[t := x]> cs).
Proof.
  intros [H1 H2 H3] Q Hx. split; [|discriminate|].
  - rewrite mcount_enter, Hx by auto with managed. exact H1.
  - intros t' y [[-> _]|[N E]]%lookup_insert_Some W; [reflexivity|eauto].
Qed.

Lemma core_delete t n cs : core_on (Some t) n cs -> not_waiting t cs -> core_on (Some t) n (delete t cs).
Proof.
  intros [H1 H2 H3] Q. split; [|discriminate|].
  - rewrite mcount_quiet by auto with managed. exact H1.
  - intros t' y [N E]%lookup_delete_Some W. eauto.
Qed.

Lemma core_take t n cs : core_on None n cs -> core_on (Some t) n cs.
Proof.
  intros [H1 H2 H3]. split; [exact H1|discriminate|]. intros t' x E W. discriminate (H3 t' x E W).
Qed.

Lemma core_wait t t' n cs c tm : core_on (Some t') n cs -> not_waiting t cs ->
  core_on (Some t') (S n) (<[t := InWait c tm true]> cs).
Proof.
  intros [H1 H2 H3] Q. split; [|discriminate|].
  - rewrite mcount_enter by auto with managed. simpl. congruence.
  - intros t1 y [[-> <-]|[N E]]%lookup_insert_Some W; [discriminate|eauto].
Qed.

(** A thread stops waiting. *)
Lemma core_unwait t o n cs c tm b : core_on o n cs -> cs !! t = Some (InWait c tm b) -> (o = None -> b = true) ->
  core_on o (Nat.pred n) (delete t cs).
Proof.
  intros [H1 H2 H3] E Hb. split.
  - rewrite H1, (mcount_delete waits t cs), E. reflexivity.
  - intros Ho S. specialize (H2 Ho). rewrite (mcount_delete awake_in_wait t cs), E, (Hb Ho) in H2. simpl in H2.
    apply H2. rewrite (mcount_delete sleeps_in_wait t cs), E, (Hb Ho). simpl. lia.
  - intros t1 y [N E1]%lookup_delete_Some W. eauto.
Qed.

Lemma core_unwait_take t n cs c tm b : core_on None n cs -> cs !! t = Some (InWait c tm b) ->
  core_on (Some t) (Nat.pred n) (delete t cs).
Proof.
  intros H E. exact (core_unwait t (Some t) n cs c tm b (core_take t n cs H) E ltac:(discriminate)).
Qed.

Lemma quiet_delete t (cs : gmap nat caller) : not_waiting t (delete t cs).
Proof. intros x. rewrite lookup_delete_eq. discriminate. Qed.

Lemma quiet_none t (cs : gmap nat caller) : cs !! t = None -> not_waiting t cs.
Proof. intros E x. rewrite E. discriminate. Qed.
#[export] Hint Resolve quiet_delete quiet_none : managed.

(** ** Releasing the lock *)

(** The state of a thread before and after a signal *)
Definition woken_up (x y : option caller) : Prop :=
  x = y \/ exists c tm, x = Some (InWait c tm true) /\ y = Some (InWait c tm false).

Lemma cond_signal_spec w s s' : cond_signal w s = Some s' ->
  managed s' = managed s /\ thread_resources s' = thread_resources s /\
  (forall t, woken_up (callers s !! t) (callers s' !! t)) /\
  mcount waits (callers s') = mcount waits (callers s) /\
  ((0 < mcount sleeps_in_wait (callers s'))%nat -> (0 < mcount awake_in_wait (callers s'))%nat).
Proof.
  unfold cond_signal. destruct w as [w|].
  - destruct (callers s !! w) as [[c tm []| | |]|] eqn:E; try discriminate. intros [= <-]. cbn.
    split; [reflexivity|]. split; [reflexivity|]. split; [|split].
    + intros t. destruct (decide (t = w)) as [->|N].
      * rewrite lookup_insert_eq, E. right. eauto.
      * rewrite lookup_insert_ne by congruence. left. reflexivity.
    + rewrite mcount_insert, (mcount_delete _ w (callers s)), E. reflexivity.
    + intros _. rewrite mcount_insert. simpl. lia.
  - destruct (existsb _ _) eqn:E; [discriminate|]. intros [= <-].
    assert (mcount sleeps_in_wait (callers s) = 0%nat) as S0.
    { apply Nat.le_0_r, Nat.nlt_ge. intros (k & x & Ek & Ex)%mcount_pos.
      assert (existsb (λ x, sleeps_in_wait x.2) (map_to_list (callers s)) = true); [|congruence].
      apply existsb_exists. exists (k, x). split; [|exact Ex]. apply list_elem_of_In, elem_of_map_to_list, Ek. }
    repeat split; try (intros; left; reflexivity). rewrite S0. lia.
Qed.

Lemma woken_delete t t' (x y : gmap nat caller) : woken_up (x !! t') (y !! t') ->
  woken_up (delete t x !! t') (delete t y !! t').
Proof.
  intros H. destruct (decide (t = t')) as [->|N]; [rewrite !lookup_delete_eq; left; reflexivity|].
  rewrite !lookup_delete_ne by exact N. exact H.
Qed.

(** What a state has in common with the one before a release of the lock *)
Record released (t : nat) (s s' : state) : Prop := {
  rel_tid : tid (managed s') = None;
  rel_ds : ds (managed s') = ds (managed s);
  rel_resources : thread_resources s' = thread_resources s;
  rel_callers : forall t', woken_up (delete t (callers s) !! t') (delete t (callers s') !! t') }.

Lemma forceRelease_spec t w s s' : core_on (Some t) (waiting_threads (managed s)) (callers s) ->
  not_waiting t (callers s) -> forceReleaseLockIntern w s = Some s' ->
  core (leave t s') /\ released t s s'.
Proof.
  intros [H1 _ H3] Q. unfold forceReleaseLockIntern, core. cbn.
  assert (forall cs : gmap nat caller, (forall t', woken_up (callers s !! t') (cs !! t')) ->
            not_waiting t cs /\ forall t' x, delete t cs !! t' = Some x -> waits x = true) as Own.
  { intros cs W. split.
    - intros x E. destruct (W t) as [Eq|(c & tm & Eq & _)]; [apply Q; congruence|].
      specialize (Q _ Eq). discriminate.
    - intros t' x [N E]%lookup_delete_Some.
      destruct (W t') as [Eq|(c & tm & _ & Eq)]; [|rewrite Eq in E; simplify_eq; reflexivity].
      rewrite <-Eq in E. destruct (waits x) eqn:Wx; [reflexivity|]. specialize (H3 t' x E Wx). congruence. }
  destruct (Nat.eqb_spec (waiting_threads (managed s)) 0) as [Z|Z].
  - destruct w; [discriminate|]. intros [= <-]. cbn. split; [|split; try reflexivity; left; reflexivity].
    destruct (Own (callers s)) as [_ O]; [left; reflexivity|]. split.
    + rewrite mcount_quiet by auto with managed. exact H1.
    + intros _. rewrite !mcount_quiet by auto with managed. rewrite waits_split in H1. lia.
    + intros t' x E Wx. rewrite (O t' x E) in Wx. discriminate.
  - intros (E1 & E2 & W & E3 & E4)%cond_signal_spec. cbn in *. rewrite E1. cbn.
    destruct (Own (callers s')) as [Q' O]; [exact W|]. split; [split; cbn|split].
    + rewrite mcount_quiet by auto with managed. congruence.
    + intros _. rewrite !mcount_quiet by auto with managed. exact E4.
    + intros t' x E Wx. rewrite (O t' x E) in Wx. discriminate.
    + rewrite E1. reflexivity.
    + rewrite E1. reflexivity.
    + exact E2.
    + intros t'. apply woken_delete, W.
Qed.

(** ** Every run keeps the lock in order *)

(** The thread has the lock and is not among the waiting ones. *)
Definition holds (t : nat) (s : state) : Prop :=
  core s /\ tid (managed s) = Some t /\ not_waiting t (callers s).

Lemma holds_ds t s d : holds t s -> holds t (set_managed (set_ds d (managed s)) s).
Proof. exact (λ H, H). Qed.

Lemma holds_resources t s r : holds t s -> holds t (mkState (managed s) (callers s) r).
Proof. exact (λ H, H). Qed.

Lemma holds_leave t s : holds t s -> core (leave t s).
Proof. intros (C & E & Q). unfold core in *. rewrite E in C. cbn. rewrite E. apply core_delete; assumption. Qed.

Lemma holds_caller t s x : holds t s -> waits x = false -> core (set_caller t x s).
Proof. intros (C & E & Q) W. unfold core in *. rewrite E in C. cbn. rewrite E. apply core_set; assumption. Qed.

Lemma holds_release t w s s' : holds t s -> forceReleaseLockIntern w s = Some s' ->
  core (leave t s') /\ released t s s'.
Proof. intros (C & E & Q). apply forceRelease_spec; [|exact Q]. unfold core in C. rewrite E in C. exact C. Qed.

Lemma holds_release_and_leave t w exc s r : holds t s -> release_and_leave t w exc s = r ->
  match r with
  | To s' _ => exists s1, s' = leave t s1 /\ core s' /\ released t s s1
  | Failed => False
  | Impossible => True
  end.
Proof.
  intros H <-. unfold release_and_leave, then_leave. destruct (decide _) as [_|N]; [|apply N, H].
  destruct (forceReleaseLockIntern w s) as [s1|] eqn:E; [|exact I]. exists s1. split; [reflexivity|].
  apply (holds_release t w s s1 H E).
Qed.

Lemma take_lock_holds t s : core s -> tid (managed s) = None -> not_waiting t (callers s) -> holds t (take_lock t s).
Proof.
  intros C E Q. split; [|split; [reflexivity|exact Q]]. unfold core in *. rewrite E in C. cbn.
  apply core_take, C.
Qed.

(** What closing leads to: the thread still has the lock, or has released it
    after the rollback. *)
Lemma closeUnlocked_spec t o1 o2 w s s' rc exc : holds t s ->
  closeUnlocked t o1 o2 w s = Some (s', rc, exc) ->
  if rc then in_transaction (ds (managed s)) = true /\ core (leave t s') /\
             thread_resources s' = thread_resources s ∖ {[t]} /\ tid (managed s') = None /\
             exists d, ds (managed s') = (close d).1 /\ in_transaction d = false /\
                       (d = set_transaction false (active_transaction (ds (managed s))) (ds (managed s)) \/
                        d = set_transaction false (active_transaction (rollback o1 o2 (ds (managed s))).1)
                              (rollback o1 o2 (ds (managed s))).1) /\
             forall t', woken_up (delete t (callers s) !! t') (delete t (callers s') !! t')
  else holds t s' /\ callers s' = callers s /\ thread_resources s' = thread_resources s /\
       ds (managed s') = (close (ds (managed s))).1 /\
       (in_transaction (ds (managed s)) = true -> isopen (ds (managed s)) = false).
Proof.
  intros H. unfold closeUnlocked. destruct (isopen _) eqn:O.
  2: { intros [= <- <- _]. unfold close. rewrite O. auto. }
  destruct (in_transaction _) eqn:T; [|intros [= <- <- _]; repeat split; try apply H; discriminate].
  match goal with |- context [forceReleaseLockIntern w ?x] => set (s0 := x) end.
  destruct (forceReleaseLockIntern w s0) as [s1|] eqn:E; [|discriminate]. intros [= <- <- _].
  destruct (holds_release t w s0 s1 H E) as [C [R1 R2 R3 R4]].
  split; [reflexivity|]. split; [exact C|]. split; [exact R3|]. split; [exact R1|].
  eexists. split; [cbn; rewrite R2; reflexivity|]. cbn. destruct (negb _); auto.
Qed.

Lemma with_lock_core t c had o o1 o2 w s : holds t s ->
  match with_lock t c had o o1 o2 w s with To s' _ => core s' | Failed => False | Impossible => True end.
Proof.
  intros H. pose proof (holds_release_and_leave t w) as Rel.
  assert (forall exc s1 r, holds t s1 -> release_and_leave t w exc s1 = r ->
            match r with To s' _ => core s' | Failed => False | Impossible => True end) as Rel'.
  { intros exc s1 r H1 E. specialize (Rel exc s1 r H1 E). destruct r; [destruct Rel as (? & _ & C & _); exact C|exact Rel|exact I]. }
  destruct c as [m cmd| |ac| | |]; cbn [with_lock].
  - destruct (isopen _); [apply holds_caller; [exact H|reflexivity]|].
    destruct (open o _) as [[d rc] exc]. destruct (_ || exc); [|apply holds_caller; [exact H|reflexivity]].
    destruct (negb had); [|apply holds_leave, H]. eapply Rel'; [|reflexivity]. apply holds_ds, H.
  - apply holds_caller; [exact H|reflexivity].
  - destruct had; [apply holds_leave, H|]. eapply Rel'; [|reflexivity]. apply holds_ds, H.
  - destruct (open o _) as [[d rc] exc]. destruct had; [apply holds_leave, H|].
    eapply Rel'; [|reflexivity]. apply holds_ds, H.
  - destruct (closeUnlocked t o1 o2 w s) as [[[s' rc] exc]|] eqn:E; [|exact I].
    pose proof (closeUnlocked_spec _ _ _ _ _ _ _ _ H E) as P. destruct rc; [apply P|apply holds_leave, P].
  - destruct (closeUnlocked t o1 o2 w s) as [[[s' rc] exc]|] eqn:E; [|exact I].
    pose proof (closeUnlocked_spec _ _ _ _ _ _ _ _ H E) as P. destruct rc; [apply P|].
    destruct (open o _) as [[d rc'] exc']. apply holds_leave, holds_ds, P.
Qed.

Lemma grab_and_run_core t c o o1 o2 w s : core s -> callers s !! t = None ->
  match grab_and_run t c o o1 o2 w s with To s' _ => core s' | Failed => False | Impossible => True end.
Proof.
  intros C E. unfold grab_and_run. destruct (tid (managed s)) as [t'|] eqn:T.
  - destruct (Nat.eqb_spec t' t) as [->|N].
    + apply with_lock_core. split; [exact C|]. split; [exact T|]. apply quiet_none, E.
    + destruct w; [exact I|]. unfold core in *. cbn. rewrite T in *. apply core_wait; [exact C|apply quiet_none, E].
  - apply with_lock_core, take_lock_holds; [exact C|exact T|apply quiet_none, E].
Qed.

(** The state of a thread that stops waiting and takes the lock *)
Definition unwait (t : nat) (s : state) : state :=
  leave t (set_managed (set_waiting (Nat.pred (waiting_threads (managed s))) (managed s)) s).

Lemma unwait_grab_core t c o o1 o2 w s tm b : core s -> callers s !! t = Some (InWait c tm b) ->
  match grab_and_run t c o o1 o2 w (unwait t s) with To s' _ => core s' | Failed => False | Impossible => True end.
Proof.
  intros C E. destruct (tid (managed s)) as [t'|] eqn:T.
  - apply grab_and_run_core; [|apply lookup_delete_eq]. unfold core in *. cbn. rewrite T in *.
    eapply core_unwait; [exact C|exact E|discriminate].
  - unfold grab_and_run. cbn. rewrite T. apply with_lock_core. split; [|split; [reflexivity|cbn; auto with managed]].
    unfold core in *. cbn. rewrite T in C. eapply core_unwait_take; [exact C|exact E].
Qed.

Lemma step_core e s : core s ->
  match step e s with
  | To s' _ => core s'
  | Failed => exists t o1 o2 w, e = Cleanup t o1 o2 w
  | Impossible => True
  end.
Proof.
  intros C. destruct e as [t r o o1 o2 w|t b o o1 o2 w|t o1 o2 o3|t w|t o1 o2 w|t o1 o2 w|ms]; cbn [step].
  - unfold enter. destruct (callers s !! t) eqn:E; [exact I|].
    pose proof (grab_and_run_core t (call_of r s) o o1 o2 w s C E) as P. destruct (grab_and_run _ _ _ _ _ _ _); auto; contradiction.
  - unfold wake. destruct (callers s !! t) as [[c tm b'| | |]|] eqn:E; try exact I.
    destruct (b && negb (tm && b')) eqn:B; [exact I|]. destruct b.
    + destruct w; [exact I|]. destruct tm, b'; try discriminate. unfold core in *. cbn.
      eapply core_unwait; [exact C|exact E|reflexivity].
    + pose proof (unwait_grab_core t c o o1 o2 w s tm b' C E) as P. unfold unwait in P.
      destruct (grab_and_run _ _ _ _ _ _ _); auto; contradiction.
  - unfold act. destruct (callers s !! t) as [[| m cmd nt| |]|] eqn:E; try exact I.
    destruct (run_method _ _ _ _ _) as [d exc]. apply holds_caller; [|reflexivity]. apply holds_ds.
    split; [exact C|]. split; [|intros x; rewrite E; intros [= <-]; reflexivity].
    exact (core_owner _ _ _ C t _ E eq_refl).
  - unfold end_call. destruct (callers s !! t) as [x|] eqn:E; [|exact I].
    assert (waits x = false -> holds t s) as H.
    { intros W. split; [exact C|]. split; [exact (core_owner _ _ _ C t x E W)|]. intros y. rewrite E. intros [= <-]. exact W. }
    destruct x as [|m cmd nt| |cmd nt]; try exact I.
    + pose proof (holds_release_and_leave t w false s _ (H eq_refl) eq_refl) as P.
      destruct (release_and_leave _ _ _ _); [destruct P as (? & _ & P & _); exact P|contradiction|exact I].
    + destruct (keepLock _) as [kl d]. set (s1 := set_managed _ s).
      assert (holds t s1) as H1 by (apply holds_ds, H; reflexivity).
      unfold endDBAction. destruct (final_command _ _ _ _).
      * destruct w; [exact I|]. apply holds_leave, H1.
      * destruct w; [exact I|]. destruct nt; apply holds_leave, H1.
      * pose proof (holds_release_and_leave t w false (remove_thread_resource t s1) _ H1 eq_refl) as P.
        destruct (release_and_leave _ _ _ _); [destruct P as (? & _ & P & _); exact P|contradiction|exact I].
  - unfold cleanup. destruct (callers s !! t) eqn:E; [exact I|]. destruct (negb _); [exact I|].
    destruct (negb _); [eauto 6|]. set (s1 := remove_thread_resource t _).
    unfold release_and_leave. destruct (decide _) as [T|]; [|eauto 6]. unfold then_leave.
    destruct (forceReleaseLockIntern w s1) as [s2|] eqn:F; [|exact I].
    apply (holds_release t w s1 s2); [|exact F]. split; [exact C|]. split; [exact T|]. apply quiet_none, E.
  - unfold destructor. destruct (callers s !! t) eqn:E; [exact I|].
    pose proof (grab_and_run_core t CloseDs OpenOk o1 o2 w s C E) as P. unfold grab_and_run in P.
    destruct (tid (managed s)) as [t'|] eqn:T.
    + destruct (Nat.eqb_spec t' t); [destruct (with_lock _ _ _ _ _ _ _ _); auto; contradiction|].
      destruct w; [exact I|exact C].
    + destruct (with_lock _ _ _ _ _ _ _ _); auto; contradiction.
  - exact C.
Qed.

Lemma start_core ac : core (start ac).
Proof.
  split; cbn; [rewrite mcount_empty; reflexivity|rewrite !mcount_empty; lia|].
  intros t x. rewrite lookup_empty. discriminate.
Qed.

(** The states of a datasource *)
Inductive reachable (ac : bool) : state -> Prop :=
  | reach_start : reachable ac (start ac)
  | reach_step e s s' exc : reachable ac s -> step e s = To s' exc -> reachable ac s'.

Lemma managed_reachable_core ac s : reachable ac s -> core s.
Proof.
  induction 1 as [|e s s' exc _ IH E]; [apply start_core|]. pose proof (step_core e s IH) as P. rewrite E in P. exact P.
Qed.

(** ** Operations of the datasource *)

(** What holds of the datasource; [ac] is the option autocommit. *)
Record ds_tx (ac : bool) (d : Datasource) : Prop := {
  tx_autocommit : autocommit d = ac;
  tx_aborted : connection_aborted d = true -> isopen d = false;
  tx_open : in_transaction d = true -> isopen d = true;
  tx_none : in_transaction d = true -> ac = false;
  tx_keep : keep_lock d = false }.

Lemma open_tx ac o d d' rc exc : ds_tx ac d -> open o d = (d', rc, exc) ->
  ds_tx ac d' /\ in_transaction d' = in_transaction d /\ (negb (rc =? 0) || exc = false -> isopen d' = true) /\
  (isopen d = true -> d' = d).
Proof.
  intros D. pose proof D as [H1 H2 H3 H4 H5]. unfold open. destruct (isopen d) eqn:O.
  - intros [= <- <- <-]. auto.
  - assert (in_transaction d = false) as T by (destruct (in_transaction d); [discriminate (H3 eq_refl)|reflexivity]).
    destruct o; intros [= <- <- <-]; (split; [split; simpl; try congruence; auto|]); simpl; rewrite ?T;
      (split; [reflexivity|split; [auto|]]); try discriminate; simpl; auto; discriminate.
Qed.

Lemma close_tx ac d : ds_tx ac d -> ds_tx ac (close d).1 /\ (isopen d = true -> in_transaction (close d).1 = false) /\
  (in_transaction d = false -> in_transaction (close d).1 = false).
Proof.
  intros D. pose proof D as [H1 H2 H3 H4 H5]. unfold close. destruct (isopen d); simpl; [|split; [exact D|split; [discriminate|auto]]].
  split; [split; simpl; auto; discriminate|auto].
Qed.

Lemma run_method_tx ac m o1 o2 o3 d nt d' exc : ds_tx ac d -> isopen d = true -> (nt = true -> in_transaction d = false) ->
  run_method m o1 o2 o3 d = (d', exc) ->
  ds_tx ac d' /\
  match final_command (command_for m ac) nt false d' with
  | DAH_RELEASE => in_transaction d' = false
  | f => (nt = false -> in_transaction d = true) -> in_transaction d' = true /\ (nt = true -> f = DAH_ACQUIRE)
  end.
Proof.
  destruct d as [it act op au ab kl st]. intros [H1 H2 H3 H4 H5]. simpl in *. intros -> Hn. subst au kl.
  destruct ab; [discriminate (H2 eq_refl)|].
  destruct it, nt; try discriminate (Hn eq_refl);
    (destruct ac; [try discriminate (H4 eq_refl)|]);
    destruct m, o1, o2, o3, act; intros E; vm_compute in E; injection E as <- <-;
    (split; [split; simpl; try congruence; auto|]); vm_compute;
    try reflexivity; try (intros F; split; [reflexivity|discriminate || reflexivity]);
    try (intros F; discriminate (F eq_refl)).
Qed.

Lemma rollback_tx ac o1 o2 d : ds_tx ac d -> isopen d = true ->
  ds_tx ac (rollback o1 o2 d).1 /\ (in_transaction d = true -> in_transaction (rollback o1 o2 d).1 = false).
Proof.
  destruct d as [it act op au ab kl st]. intros [H1 H2 H3 H4 H5]. simpl in *. intros ->. subst au kl.
  destruct ab; [discriminate (H2 eq_refl)|].
  destruct it; (destruct ac; [try discriminate (H4 eq_refl)|]); destruct o1, o2, act;
    (split; [split; simpl; try congruence; auto|]); vm_compute; intros; congruence.
Qed.

(** ** Transactions

    The calls are used with care when autocommit is not changed and the
    configuration is not read in a transaction. They are used strictly when the
    datasource is also closed and reset only by the owner of a transaction. *)
Section Transactions.
Context (strict : bool) (ac : bool).

Definition call_ok (c : call) : Prop :=
  match c with
  | Action m cmd => cmd = command_for m ac
  | NoConn | OpenDs => True
  | SetAutoCommit _ => False
  | CloseDs | ResetDs => strict = false
  end.

(** The state of the thread with the lock; [r] is whether the datasource is
    one of its resources. *)
Definition phase_ok (d : Datasource) (r : bool) (x : option caller) : Prop :=
  match x with
  | None => strict = true -> in_transaction d = true /\ r = true
  | Some (InWait _ _ _) => False
  | Some (InCall m cmd nt) =>
    isopen d = true /\ cmd = command_for m ac /\
    if nt then in_transaction d = false /\ (strict = true -> r = false)
    else strict = true -> in_transaction d = true /\ r = true
  | Some InNoConn => in_transaction d = false /\ (strict = true -> r = false)
  | Some (InEnd cmd nt) =>
    match final_command cmd nt false d with
    | DAH_RELEASE => in_transaction d = false
    | f => strict = true -> in_transaction d = true /\ (if nt then f = DAH_ACQUIRE else r = true)
    end
  end.

Record tx_on (o : option nat) (d : Datasource) (res : gset nat) (cs : gmap nat caller) : Prop := {
  tx_ds : ds_tx ac d;
  tx_calls : forall t c tm b, cs !! t = Some (InWait c tm b) -> call_ok c;
  tx_owner :
    match o with
    | None => in_transaction d = false /\ (strict = true -> res = ∅)
    | Some t => phase_ok d (bool_decide (t ∈ res)) (cs !! t) /\ (strict = true -> res ⊆ {[t]})
    end }.

Definition tx (s : state) : Prop :=
  tx_on (tid (managed s)) (ds (managed s)) (thread_resources s) (callers s).

Definition calls_ok (cs : gmap nat caller) : Prop := forall t c tm b, cs !! t = Some (InWait c tm b) -> call_ok c.

Lemma calls_ok_delete t cs : calls_ok cs -> calls_ok (delete t cs).
Proof. intros H t' c tm b [_ E]%lookup_delete_Some. eauto. Qed.

Lemma calls_ok_insert t x cs : calls_ok cs -> (forall c tm b, x = InWait c tm b -> call_ok c) -> calls_ok (<[t := x]> cs).
Proof. intros H Hx t' c tm b [[_ E]|[_ E]]%lookup_insert_Some; eauto. Qed.

Lemma calls_ok_woken cs cs' : calls_ok cs -> (forall t, woken_up (cs !! t) (cs' !! t)) -> calls_ok cs'.
Proof.
  intros H W t c tm b E. destruct (W t) as [Eq|(c' & tm' & Eq & Eq')]; [rewrite <-Eq in E; eauto|].
  rewrite Eq' in E. injection E as -> _ _. eauto.
Qed.

(** The datasource is in order, and so are the calls of the other threads. *)
Definition quiet (t : nat) (s : state) : Prop :=
  ds_tx ac (ds (managed s)) /\ calls_ok (delete t (callers s)) /\ tid (managed s) = Some t /\
  (strict = true -> thread_resources s ⊆ {[t]}).

Lemma quiet_leave t s : quiet t s -> phase_ok (ds (managed s)) (bool_decide (t ∈ thread_resources s)) None ->
  tx (leave t s).
Proof.
  intros (D & C & T & R) P. unfold tx. cbn. rewrite T. split; [exact D|exact C|].
  rewrite lookup_delete_eq. auto.
Qed.

Lemma quiet_caller t s x : quiet t s -> phase_ok (ds (managed s)) (bool_decide (t ∈ thread_resources s)) (Some x) ->
  tx (set_caller t x s).
Proof.
  intros (D & C & T & R) P. unfold tx. cbn. rewrite T. split; [exact D| |rewrite lookup_insert_eq; auto].
  intros t' c tm b [[-> E]|[N E]]%lookup_insert_Some; [subst x; destruct P|].
  apply (C t' c tm b). rewrite lookup_delete_ne; assumption.
Qed.

Lemma quiet_released t s s1 : quiet t s -> in_transaction (ds (managed s)) = false ->
  (strict = true -> thread_resources s = ∅) -> released t s s1 -> tx (leave t s1).
Proof.
  intros (D & C & T & R) H Hr [R1 R2 R3 R4]. unfold tx. cbn. rewrite R1, R2, R3.
  split; [exact D|exact (calls_ok_woken _ _ C R4)|auto].
Qed.

Lemma quiet_release_and_leave t w exc s s' e : holds t s -> quiet t s -> in_transaction (ds (managed s)) = false ->
  (strict = true -> thread_resources s = ∅) -> release_and_leave t w exc s = To s' e -> tx s'.
Proof.
  intros Ho Q H Hr E. pose proof (holds_release_and_leave t w exc s _ Ho E) as (s1 & -> & _ & R).
  exact (quiet_released t s s1 Q H Hr R).
Qed.

(** *** Steps *)

Definition resource (t : nat) (s : state) : bool := bool_decide (t ∈ thread_resources s).

(** What a thread that got the lock, or had it, can rely on *)
Definition entry_ok (t : nat) (had : bool) (s : state) : Prop :=
  if had then phase_ok (ds (managed s)) (resource t s) None
  else in_transaction (ds (managed s)) = false /\ (strict = true -> thread_resources s = ∅).

Lemma entry_resource t s : thread_resources s = ∅ -> resource t s = false.
Proof. unfold resource. intros ->. apply bool_decide_eq_false_2. set_solver. Qed.

(** The lock is kept by a call that does not change the transaction, or
    released if the thread did not have it before. *)
Lemma quiet_back t had w d exc s s' e : holds t s -> quiet t s -> entry_ok t had s ->
  ds_tx ac d -> in_transaction d = in_transaction (ds (managed s)) ->
  (if had then To (leave t (set_managed (set_ds d (managed s)) s)) exc
   else release_and_leave t w exc (set_managed (set_ds d (managed s)) s)) = To s' e -> tx s'.
Proof.
  intros H (D & C & T & R) En Hd Ht. set (s1 := set_managed _ s).
  assert (quiet t s1) as Q1 by (split; [exact Hd|split; [exact C|split; assumption]]).
  destruct had.
  - intros [= <- _]. apply quiet_leave; [exact Q1|]. cbn. rewrite Ht. exact En.
  - destruct En as [E1 E2]. apply (quiet_release_and_leave t w exc s1 s' e (holds_ds t s d H) Q1); [cbn; rewrite Ht; exact E1|exact E2].
Qed.

Lemma closeUnlocked_tx t o1 o2 w s s' rc exc : holds t s -> quiet t s -> callers s !! t = None ->
  closeUnlocked t o1 o2 w s = Some (s', rc, exc) ->
  if rc then tx (leave t s') else quiet t s' /\ (in_transaction (ds (managed s)) = true -> isopen (ds (managed s)) = false).
Proof.
  intros H Q E0 E. pose proof (closeUnlocked_spec _ _ _ _ _ _ _ _ H E) as P. destruct Q as (D & C & T & R).
  destruct rc.
  - destruct P as (T1 & _ & Er & Et & d & Ed & Td & Hd & W).
    assert (ds_tx ac d) as D1.
    { pose proof (rollback_tx ac o1 o2 _ D (tx_open _ _ D T1)) as [D2 _].
      destruct Hd as [-> | ->]; [destruct D|destruct D2]; split; simpl; auto; discriminate. }
    destruct (close_tx ac d D1) as (D3 & _ & T3). unfold tx. cbn. rewrite Et, Er, Ed.
    split; [exact D3|exact (calls_ok_woken _ _ C W)|]. split; [apply T3, Td|].
    intros St. apply subseteq_empty_difference_L, R, St.
  - destruct P as (H' & Ec & Er & Ed & Hc). split; [|exact Hc]. split; [rewrite Ed; apply (close_tx ac _ D)|].
    rewrite Ec, Er. split; [exact C|]. split; [apply H'|exact R].
Qed.

Definition closing (c : call) : Prop := c = CloseDs \/ c = ResetDs.

Lemma with_lock_tx t c had o o1 o2 w s s' exc :
  holds t s -> quiet t s -> callers s !! t = None -> entry_ok t had s ->
  call_ok c \/ closing c /\ in_transaction (ds (managed s)) = true -> (c = NoConn -> had = false) ->
  with_lock t c had o o1 o2 w s = To s' exc -> tx s'.
Proof.
  intros H Q E0 En Hc Hn. pose proof Q as (D & _ & _ & _).
  assert (forall m cmd, isopen (ds (managed s)) = true -> cmd = command_for m ac ->
            phase_ok (ds (managed s)) (resource t s) (Some (InCall m cmd (negb had)))) as Call.
  { intros m cmd O ->. split; [exact O|]. split; [reflexivity|]. destruct had; simpl; [exact En|].
    destruct En as [E1 E2]. split; [exact E1|]. intros St. apply entry_resource, E2, St. }
  destruct c as [m cmd| |b| | |]; cbn [with_lock].
  - destruct Hc as [Hc|[[|] _]]; try discriminate. cbn in Hc. destruct (isopen (ds (managed s))) eqn:O.
    + intros [= <- _]. apply quiet_caller; [exact Q|apply Call; [reflexivity|exact Hc]].
    + destruct (open o _) as [[d rc] exc'] eqn:Eo.
      destruct (open_tx ac o _ _ _ _ D Eo) as (D' & T' & O' & _). destruct (_ || exc') eqn:B.
      * intros E. apply (quiet_back t had w d exc' s s' exc H Q En D' T'). destruct had; exact E.
      * intros [= <- _]. apply quiet_caller; [split; [exact D'|apply Q]|].
        cbn. split; [apply O'; reflexivity|]. split; [exact Hc|]. rewrite T'. destruct had; simpl; [exact En|].
        destruct En as [E1 E2]. split; [exact E1|]. intros St. apply entry_resource, E2, St.
  - intros [= <- _]. apply quiet_caller; [exact Q|]. rewrite (Hn eq_refl) in En. destruct En as [E1 E2].
    split; [exact E1|]. intros St. apply entry_resource, E2, St.
  - destruct Hc as [[]|[[|] _]]; discriminate.
  - destruct (open o _) as [[d rc] exc'] eqn:Eo. destruct (open_tx ac o _ _ _ _ D Eo) as (D' & T' & _).
    intros E. exact (quiet_back t had w d exc' s s' exc H Q En D' T' E).
  - destruct (closeUnlocked t o1 o2 w s) as [[[s1 rc] exc1]|] eqn:E; [|discriminate]. intros [= <- _].
    pose proof (closeUnlocked_tx _ _ _ _ _ _ _ _ H Q E0 E) as P. destruct rc; [exact P|]. destruct P as [Q1 P].
    apply quiet_leave; [exact Q1|]. intros St. destruct Hc as [Hc|[_ Hc]]; [cbn in Hc; congruence|].
    specialize (P Hc). pose proof (tx_open _ _ D Hc). congruence.
  - destruct (closeUnlocked t o1 o2 w s) as [[[s1 rc] exc1]|] eqn:E; [|discriminate].
    pose proof (closeUnlocked_tx _ _ _ _ _ _ _ _ H Q E0 E) as P. destruct rc; [intros [= <- _]; exact P|].
    destruct (open o _) as [[d rc'] exc'] eqn:Eo. intros [= <- _]. destruct P as [Q1 P].
    assert (strict = true -> False) as St.
    { intros St. destruct Hc as [Hc|[_ Hc]]; [cbn in Hc; congruence|].
      specialize (P Hc). pose proof (tx_open _ _ D Hc). congruence. }
    apply quiet_leave; [|intros F; destruct (St F)]. pose proof Q1 as (D1 & _).
    split; [apply (open_tx ac o _ _ _ _ D1 Eo)|apply Q1].
Qed.

Lemma tx_quiet t s : tx s -> tid (managed s) = Some t -> quiet t s.
Proof.
  unfold tx. intros [D C O] T. rewrite T in O. split; [exact D|]. split; [exact (calls_ok_delete t _ C)|].
  split; [exact T|apply O].
Qed.

Lemma take_quiet t s : tx s -> tid (managed s) = None -> quiet t (take_lock t s) /\ entry_ok t false (take_lock t s).
Proof.
  unfold tx. intros [D C O] T. rewrite T in O. destruct O as [O1 O2]. split; [|split; assumption].
  split; [exact D|]. split; [exact (calls_ok_delete t _ C)|]. split; [reflexivity|].
  intros St. cbn. rewrite (O2 St). set_solver.
Qed.

Lemma tx_phase t s x : tx s -> tid (managed s) = Some t -> callers s !! t = x ->
  phase_ok (ds (managed s)) (resource t s) x /\ (strict = true -> thread_resources s ⊆ {[t]}).
Proof. unfold tx. intros [D C O] T <-. rewrite T in O. exact O. Qed.

Lemma grab_and_run_tx t c o o1 o2 w s s' exc : core s -> tx s -> callers s !! t = None ->
  call_ok c \/ closing c /\ tid (managed s) = Some t /\ in_transaction (ds (managed s)) = true ->
  (c = NoConn -> tid (managed s) <> Some t) ->
  grab_and_run t c o o1 o2 w s = To s' exc -> tx s'.
Proof.
  intros C X E Hc Hn. unfold grab_and_run. destruct (tid (managed s)) as [t'|] eqn:T.
  - destruct (Nat.eqb_spec t' t) as [->|N].
    + apply with_lock_tx; [|apply tx_quiet; assumption|exact E|apply (tx_phase t s None X T E)| |].
      * split; [exact C|]. split; [exact T|apply quiet_none, E].
      * destruct Hc as [Hc|(Hc & _ & Ht)]; auto.
      * intros ->. destruct (Hn eq_refl eq_refl).
    + destruct w; [discriminate|]. intros [= <- _]. unfold tx in *. cbn. destruct X as [D Cs O]. rewrite T in *.
      split; [exact D| |rewrite lookup_insert_ne by congruence; exact O].
      apply calls_ok_insert; [exact Cs|]. intros c' tm b [= <- _ _].
      destruct Hc as [Hc|(_ & F & _)]; [exact Hc|congruence].
  - destruct (take_quiet t s X T) as [Q En].
    apply with_lock_tx; [apply take_lock_holds; [exact C|exact T|apply quiet_none, E]|exact Q|exact E|exact En| |reflexivity].
    destruct Hc as [Hc|(_ & F & _)]; [left; exact Hc|discriminate].
Qed.

(** The calls are used as the parameters say. *)
Definition careful (e : event) (s : state) : Prop :=
  let owner t := strict = true -> tid (managed s) = Some t /\ in_transaction (ds (managed s)) = true in
  match e with
  | Enter _ (AutoCommit _) _ _ _ _ => False
  | Enter t Config _ _ _ _ => tid (managed s) <> Some t
  | Enter t Close _ _ _ _ | Enter t Reset_ _ _ _ _ | Destroy t _ _ _ => owner t
  | _ => True
  end.

Lemma tx_unwait t s c tm b : tx s -> callers s !! t = Some (InWait c tm b) -> tx (unwait t s) /\ call_ok c.
Proof.
  unfold tx. intros [D C O] E. split; [|exact (C _ _ _ _ E)]. cbn.
  split; [exact D|exact (calls_ok_delete t _ C)|]. destruct (tid (managed s)) as [t'|]; [|exact O].
  destruct (decide (t' = t)) as [->|N]; [|rewrite lookup_delete_ne by congruence; exact O].
  rewrite E in O. destruct O as [[] _].
Qed.

Lemma act_tx t o1 o2 o3 s s' exc : core s -> tx s -> act t o1 o2 o3 s = To s' exc -> tx s'.
Proof.
  intros C X. unfold act. destruct (callers s !! t) as [[| m cmd nt| |]|] eqn:E; try discriminate.
  destruct (run_method m o1 o2 o3 _) as [d exc'] eqn:Er. intros [= <- _].
  pose proof (core_owner _ _ _ C t _ E eq_refl) as T.
  destruct (tx_phase t s _ X T E) as [(O & -> & P) R]. pose proof (tx_quiet t s X T) as (D & Cs & _ & _).
  destruct (run_method_tx ac m o1 o2 o3 _ nt _ _ D O ltac:(intros ->; apply P) Er) as [D' F].
  apply quiet_caller; [split; [exact D'|split; [exact Cs|split; [exact T|exact R]]]|]. cbn.
  destruct (final_command _ _ _ _); [| |exact F]; intros St;
    (assert (nt = false -> in_transaction (ds (managed s)) = true) as P' by (intros ->; apply P, St));
    destruct (F P') as [F1 F2]; (split; [exact F1|]); (destruct nt; [exact (F2 eq_refl)|apply P, St]).
Qed.

Lemma end_call_tx t w s s' exc : core s -> tx s -> end_call t w s = To s' exc -> tx s'.
Proof.
  intros C X. unfold end_call. destruct (callers s !! t) as [x|] eqn:E; [|discriminate].
  assert (waits x = false -> holds t s) as H.
  { intros W. split; [exact C|]. split; [exact (core_owner _ _ _ C t x E W)|]. intros y. rewrite E. intros [= <-]. exact W. }
  destruct x as [|m cmd nt| |cmd nt]; try discriminate.
  - specialize (H eq_refl). pose proof H as (_ & T & _). destruct (tx_phase t s _ X T E) as [[P1 P2] R].
    apply quiet_release_and_leave; [exact H|apply tx_quiet; assumption|exact P1|].
    intros St. specialize (P2 St). specialize (R St). apply bool_decide_eq_false in P2. set_solver.
  - specialize (H eq_refl). pose proof H as (_ & T & _). destruct (tx_phase t s _ X T E) as [P R]. cbn in P.
    pose proof (tx_quiet t s X T) as (D & Cs & _ & _). destruct D as [H1 H2 H3 H4 H5]. unfold keepLock. rewrite H5.
    set (d := mkDs _ _ _ _ _ _ _). set (s1 := set_managed _ s).
    assert (holds t s1 /\ quiet t s1) as [Ho1 Q1].
    { split; [exact H|]. split; [split; cbn; auto|]. split; [exact Cs|]. split; [exact T|exact R]. }
    assert (final_command cmd nt false d = final_command cmd nt false (ds (managed s))) as -> by reflexivity.
    unfold endDBAction, then_leave. destruct (final_command _ _ _ _).
    + destruct w; [discriminate|]. intros [= <- _]. apply quiet_leave; [exact Q1|].
      intros St. destruct (P St) as [P1 P2]. split; [exact P1|]. destruct nt; [discriminate|exact P2].
    + destruct w; [discriminate|]. intros [= <- _]. destruct nt.
      * apply (quiet_leave t (set_thread_resource t s1)).
        { destruct Q1 as (Q1 & Q2 & Q3 & Q4). split; [exact Q1|]. split; [exact Q2|]. split; [exact Q3|].
          intros St. specialize (Q4 St). cbn in *. set_solver. }
        intros St. destruct (P St) as [P1 _]. split; [exact P1|]. cbn. apply bool_decide_eq_true_2. set_solver.
      * apply quiet_leave; [exact Q1|]. intros St. destruct (P St) as [P1 P2]. split; [exact P1|exact P2].
    + apply (quiet_release_and_leave t w false (remove_thread_resource t s1)); [exact Ho1| |exact P|].
      * destruct Q1 as (Q1 & Q2 & Q3 & Q4). split; [exact Q1|]. split; [exact Q2|]. split; [exact Q3|].
        intros St. specialize (Q4 St). cbn in *. set_solver.
      * intros St. apply subseteq_empty_difference_L, R, St.
Qed.

Lemma cleanup_tx t o1 o2 w s s' exc : core s -> tx s -> cleanup t o1 o2 w s = To s' exc -> tx s'.
Proof.
  intros C X. unfold cleanup. destruct (callers s !! t) eqn:E; [discriminate|].
  destruct (negb (bool_decide _)); [discriminate|]. destruct (in_transaction (ds (managed s))) eqn:It; [|discriminate].
  cbn [negb]. set (d := set_transaction false _ _). set (s1 := remove_thread_resource t _).
  unfold release_and_leave. destruct (decide (tid (managed s1) = Some t)) as [T|]; [|discriminate].
  change (tid (managed s) = Some t) in T. intros F.
  pose proof (tx_quiet t s X T) as (D & Cs & _ & R).
  assert (holds t s1) as H by (split; [exact C|split; [exact T|apply quiet_none, E]]).
  assert (ds_tx ac d) as D1.
  { destruct (rollback_tx ac o1 o2 _ D (tx_open _ _ D It)) as [[] _]. split; simpl; auto; discriminate. }
  unfold then_leave in F. destruct (forceReleaseLockIntern w s1) as [s2|] eqn:Fo; [|discriminate]. injection F as <- _.
  destruct (holds_release t w s1 s2 H Fo) as [_ Rel].
  apply (quiet_released t s1 s2); [|reflexivity| |exact Rel].
  - split; [exact D1|]. split; [exact Cs|]. split; [exact T|]. intros St. specialize (R St). cbn. set_solver.
  - intros St. apply subseteq_empty_difference_L, R, St.
Qed.

Lemma may_close c (P : Prop) : closing c -> (strict = true -> P) -> call_ok c \/ closing c /\ P.
Proof.
  intros Hc HP. destruct (Bool.bool_dec strict true) as [St|St]; [right; auto|left].
  apply not_true_is_false in St. destruct Hc as [-> | ->]; exact St.
Qed.

Lemma step_tx e s s' exc : core s -> tx s -> careful e s -> step e s = To s' exc -> tx s'.
Proof.
  intros C X K. destruct e as [t r o o1 o2 w|t b o o1 o2 w|t o1 o2 o3|t w|t o1 o2 w|t o1 o2 w|ms]; cbn [step].
  - unfold enter. destruct (callers s !! t) eqn:E; [discriminate|].
    assert (autocommit (ds (managed s)) = ac) as Ea by apply X.
    apply grab_and_run_tx; [exact C|exact X|exact E| |].
    + destruct r; [left; cbn; rewrite Ea; reflexivity|left; exact I|destruct K|left; exact I| |].
      * apply (may_close CloseDs); [left; reflexivity|exact K].
      * apply (may_close ResetDs); [right; reflexivity|exact K].
    + destruct r; cbn in *; intros Er; try discriminate. exact K.
  - unfold wake. destruct (callers s !! t) as [[c tm b'| | |]|] eqn:E; try discriminate.
    destruct (tx_unwait t s c tm b' X E) as [Xu Hc].
    destruct (b && negb (tm && b')) eqn:B; [discriminate|]. destruct b.
    + destruct w; [discriminate|]. intros [= <- _]. exact Xu.
    + fold (unwait t s). destruct (tid (managed s)) as [t'|] eqn:T.
      * apply grab_and_run_tx; [|exact Xu|apply lookup_delete_eq|left; exact Hc|].
        -- unfold core in *. cbn. rewrite T in *. eapply core_unwait; [exact C|exact E|discriminate].
        -- intros _ F. cbn in F. destruct (tx_phase t s _ X F E) as [[] _].
      * unfold grab_and_run. cbn. rewrite T. destruct (take_quiet t (unwait t s) Xu T) as [Q En].
        apply with_lock_tx; [|exact Q|apply lookup_delete_eq|exact En|left; exact Hc|reflexivity].
        split; [|split; [reflexivity|cbn; auto with managed]].
        unfold core in *. cbn. rewrite T in C. eapply core_unwait_take; [exact C|exact E].
  - apply act_tx; assumption.
  - apply end_call_tx; assumption.
  - apply cleanup_tx; assumption.
  - unfold destructor. destruct (callers s !! t) eqn:E; [discriminate|]. cbn in K.
    pose proof (grab_and_run_tx t CloseDs OpenOk o1 o2 w s s' exc C X E) as P. unfold grab_and_run in P.
    assert (call_ok CloseDs \/ closing CloseDs /\ tid (managed s) = Some t /\ in_transaction (ds (managed s)) = true) as Hc.
    { apply may_close; [left; reflexivity|exact K]. }
    destruct (tid (managed s)) as [t'|] eqn:T.
    + destruct (Nat.eqb_spec t' t); [apply P; [exact Hc|discriminate]|].
      destruct w; [discriminate|]. intros [= <- _]. exact X.
    + apply P; [exact Hc|discriminate].
  - intros [= <- _]. exact X.
Qed.

(** The states that such calls lead to *)
Inductive careful_reach : state -> Prop :=
  | careful_start : careful_reach (start ac)
  | careful_step e s s' exc : careful_reach s -> careful e s -> step e s = To s' exc -> careful_reach s'.

Lemma careful_inv s : careful_reach s -> core s /\ tx s.
Proof.
  induction 1 as [|e s s' exc _ [C X] K E].
  - split; [apply start_core|]. unfold tx. cbn. split; [split; simpl; auto; discriminate| |auto].
    intros t c tm b. rewrite lookup_empty. discriminate.
  - split; [|exact (step_tx e s s' exc C X K E)]. pose proof (step_core e s C) as P. rewrite E in P. exact P.
Qed.
End Transactions.

(** ** Waking up *)

Lemma forceRelease_exists s : waiting_threads (managed s) = mcount waits (callers s) ->
  exists w s', forceReleaseLockIntern w s = Some s'.
Proof.
  intros C. unfold forceReleaseLockIntern. cbn. destruct (waiting_threads (managed s) =? 0)%nat; [exists None; eauto|].
  destruct (existsb (λ x, sleeps_in_wait x.2) (map_to_list (callers s))) eqn:E.
  - apply existsb_exists in E as ([t x] & Ht & Hx). apply list_elem_of_In, elem_of_map_to_list in Ht. cbn in Hx.
    exists (Some t). cbn. rewrite Ht. destruct x as [c tm []| | |]; try discriminate. eauto.
  - exists None. cbn. rewrite E. eauto.
Qed.

Definition in_no_wait (t : nat) (r : transition) : Prop :=
  exists s exc, r = To s exc /\ not_waiting t (callers s).

Lemma release_and_leave_exists t exc s : holds t s -> exists w, in_no_wait t (release_and_leave t w exc s).
Proof.
  intros ([C _ _] & T & _). destruct (forceRelease_exists s C) as (w & s' & E). exists w. unfold release_and_leave.
  rewrite E. destruct (decide _); [|contradiction]. cbn. eexists _, _. split; [reflexivity|]. cbn. auto with managed.
Qed.

Lemma closeUnlocked_exists t o1 o2 s : holds t s -> exists w r, closeUnlocked t o1 o2 w s = Some r.
Proof.
  intros ([C _ _] & _). unfold closeUnlocked. destruct (isopen _); [|exists None; eauto].
  destruct (in_transaction _); [|exists None; eauto].
  match goal with |- context [forceReleaseLockIntern _ ?x] => set (s0 := x) end.
  destruct (forceRelease_exists s0 C) as (w & s' & E). exists w. rewrite E. cbn. eauto.
Qed.

Lemma with_lock_exists t c had o o1 o2 s : holds t s -> exists w, in_no_wait t (with_lock t c had o o1 o2 w s).
Proof.
  intros H.
  assert (forall s', in_no_wait t (To (leave t s') false) /\ in_no_wait t (To (leave t s') true)) as L.
  { intros s'. split; eexists _, _; (split; [reflexivity|]); cbn; auto with managed. }
  assert (forall s' exc, in_no_wait t (To (leave t s') exc)) as L' by (intros s' []; apply L).
  assert (forall x s', waits x = false -> in_no_wait t (To (set_caller t x s') false)) as Ca.
  { intros x s' W. eexists _, _. split; [reflexivity|]. intros y. cbn. rewrite lookup_insert_eq. intros [= <-]. exact W. }
  destruct c as [m cmd| |b| | |]; cbn [with_lock].
  - destruct (isopen _); [exists None; apply Ca; reflexivity|]. destruct (open o _) as [[d rc] exc].
    destruct (_ || exc); [|exists None; apply Ca; reflexivity].
    destruct (negb had); [apply release_and_leave_exists, holds_ds, H|exists None; apply L'].
  - exists None. apply Ca. reflexivity.
  - destruct had; [exists None; apply L'|]. apply release_and_leave_exists, holds_ds, H.
  - destruct (open o _) as [[d rc] exc]. destruct had; [exists None; apply L'|]. apply release_and_leave_exists, holds_ds, H.
  - destruct (closeUnlocked_exists t o1 o2 s H) as (w & [[s' rc] exc] & E). exists w. rewrite E. apply L'.
  - destruct (closeUnlocked_exists t o1 o2 s H) as (w & [[s' rc] exc] & E). exists w. rewrite E.
    destruct rc; [apply L'|]. destruct (open o _) as [[d rc] exc']. apply L'.
Qed.

(** ** Properties *)

(** The thread whose step an event is *)
Definition thread_of (e : event) : option nat :=
  match e with
  | Enter t _ _ _ _ _ | Wake t _ _ _ _ _ | Act t _ _ _ | End t _ | Cleanup t _ _ _ | Destroy t _ _ _ => Some t
  | SetTransactionLockTimeout _ => None
  end.

(** C31: A thread that is in a call of a datasource has the transaction lock, whatever calls of other threads
    there are, so that no two threads call the driver at the same time; as long as a thread has the lock, the
    steps of the others leave the lock and the datasource as they are; and the counter of waiting threads is
    the number of the threads that wait for the lock. Only the cleanup of a thread can fail an assertion. *)
Theorem managed_exclusion ac s : reachable ac s ->
  (forall t x, callers s !! t = Some x -> waits x = false -> tid (managed s) = Some t) /\
  (forall t e s' exc, tid (managed s) = Some t -> thread_of e <> Some t -> step e s = To s' exc ->
     ds (managed s') = ds (managed s) /\ tid (managed s') = Some t) /\
  waiting_threads (managed s) = mcount waits (callers s) /\
  (forall e, step e s = Failed -> exists t o1 o2 w, e = Cleanup t o1 o2 w).
Proof.
  intros R. pose proof (managed_reachable_core ac s R) as C. split; [exact (core_owner _ _ _ C)|]. split.
  - intros t e s' exc T N.
    assert (forall t' c o o1 o2 w s0, t' <> t -> managed s0 = managed s \/ managed s0 = managed (unwait t' s) ->
              grab_and_run t' c o o1 o2 w s0 = To s' exc -> ds (managed s') = ds (managed s) /\ tid (managed s') = Some t) as G.
    { intros t' c o o1 o2 w s0 Nt M. unfold grab_and_run.
      assert (tid (managed s0) = Some t /\ ds (managed s0) = ds (managed s)) as [-> D] by (destruct M as [-> | ->]; split; trivial).
      destruct (Nat.eqb_spec t t'); [congruence|]. destruct w; [discriminate|]. intros [= <- _]. cbn. split; [exact D|].
      destruct M as [-> | ->]; exact T. }
    destruct e as [t' r o o1 o2 w|t' b o o1 o2 w|t' o1 o2 o3|t' w|t' o1 o2 w|t' o1 o2 w|ms]; cbn [step thread_of] in *.
    + unfold enter. destruct (callers s !! t'); [discriminate|]. apply G; [congruence|left; reflexivity].
    + unfold wake. destruct (callers s !! t') as [[c tm b'| | |]|]; try discriminate.
      destruct (b && _); [discriminate|]. destruct b; [destruct w; [discriminate|]; intros [= <- _]; split; trivial|].
      apply G; [congruence|right; reflexivity].
    + unfold act. destruct (callers s !! t') as [[| m cmd nt| |]|] eqn:E; try discriminate.
      pose proof (core_owner _ _ _ C t' _ E eq_refl). congruence.
    + unfold end_call. destruct (callers s !! t') as [[| | |]|] eqn:E; try discriminate;
        pose proof (core_owner _ _ _ C t' _ E eq_refl); congruence.
    + unfold cleanup. destruct (callers s !! t'); [discriminate|]. destruct (negb _); [discriminate|].
      destruct (negb _); [discriminate|]. unfold release_and_leave. cbn. destruct (decide _); [congruence|discriminate].
    + unfold destructor. destruct (callers s !! t'); [discriminate|]. rewrite T.
      destruct (Nat.eqb_spec t t'); [congruence|]. destruct w; [discriminate|]. intros [= <- _]. split; trivial.
    + intros [= <- _]. split; [reflexivity|exact T].
  - split; [exact (core_count _ _ _ C)|]. intros e F. pose proof (step_core e s C) as P. rewrite F in P. exact P.
Qed.

(** When autocommit is not changed and the configuration is not read in a transaction, an open transaction
    has an owner, the thread with the lock. When, in addition, the datasource is closed and reset only in a
    transaction, a thread that is in no call has the lock only for its transaction, and no assertion fails when
    a thread ends. *)
Theorem managed_transactions ac s :
  (careful_reach false ac s -> in_transaction (ds (managed s)) = true -> exists t, tid (managed s) = Some t) /\
  (careful_reach true ac s ->
     (forall t, tid (managed s) = Some t -> callers s !! t = None ->
        in_transaction (ds (managed s)) = true /\ t ∈ thread_resources s) /\
     (forall e, step e s <> Failed)).
Proof.
  split.
  - intros [C [D Cs O]]%careful_inv T. destruct (tid (managed s)) as [t|]; [eauto|]. destruct O; congruence.
  - intros [C X]%careful_inv.
    assert (forall t, tid (managed s) = Some t -> callers s !! t = None ->
              in_transaction (ds (managed s)) = true /\ t ∈ thread_resources s) as Own.
    { intros t T E. destruct (tx_phase true ac t s None X T E) as [P _]. destruct (P eq_refl) as [P1 P2].
      split; [exact P1|]. apply bool_decide_eq_true in P2. exact P2. }
    split; [exact Own|]. intros e F. pose proof (step_core e s C) as P. rewrite F in P.
    destruct P as (t & o1 & o2 & w & ->). cbn [step] in F. unfold cleanup in F.
    destruct (callers s !! t) eqn:E; [discriminate|]. destruct (bool_decide _) eqn:B; [|discriminate].
    apply bool_decide_eq_true in B. cbn [negb] in F.
    assert (tid (managed s) = Some t) as T.
    { destruct X as [_ _ O]. destruct (tid (managed s)) as [t'|]; [|destruct O as [_ O]; specialize (O eq_refl); set_solver].
      destruct O as [_ O]. specialize (O eq_refl). set_solver. }
    destruct (Own t T E) as [It _]. rewrite It in F. cbn [negb] in F. unfold release_and_leave in F. cbn in F.
    destruct (decide _) as [_|N]; [|congruence]. unfold then_leave in F. destruct (forceReleaseLockIntern _ _); discriminate.
Qed.

(** No wakeup is lost: when the lock is free and threads wait for it, one of them is awake, and its next step
    ends the wait and takes the lock, however the driver answers. *)
Theorem managed_no_lost_wakeup ac s : reachable ac s -> tid (managed s) = None ->
  (exists t x, callers s !! t = Some x /\ waits x = true) ->
  exists t c timed, callers s !! t = Some (InWait c timed false) /\
    forall o o1 o2, exists w s' exc, step (Wake t false o o1 o2 w) s = To s' exc /\ not_waiting t (callers s').
Proof.
  intros R T (t & x & E & W). pose proof (managed_reachable_core ac s R) as C.
  assert (0 < mcount awake_in_wait (callers s))%nat as A.
  { destruct x as [c tm b| | |]; try discriminate. destruct b.
    - apply (core_wake _ _ _ C T). apply mcount_pos. eauto.
    - apply mcount_pos. eauto. }
  apply mcount_pos in A as (t1 & [c tm b| | |] & E1 & A); try discriminate. destruct b; [discriminate|].
  exists t1, c, tm. split; [exact E1|]. intros o o1 o2. cbn [step]. unfold wake. rewrite E1. cbn [andb].
  unfold grab_and_run. cbn [managed set_managed set_waiting tid leave]. rewrite T.
  assert (holds t1 (take_lock t1 (unwait t1 s))) as H.
  { split; [|split; [reflexivity|cbn; auto with managed]]. unfold core in *. cbn. rewrite T in C.
    eapply core_unwait_take; [exact C|exact E1]. }
  destruct (with_lock_exists t1 c false o o1 o2 _ H) as (w & s' & exc & Es & Q). exists w, s', exc.
  split; [exact Es|exact Q].
Qed.

(** ** Examples *)

(** A method that nothing goes wrong in *)
Definition method_run (t : nat) (m : method) : list event :=
  [Enter t (Run m) OpenOk DrvOk DrvOk None; Act t DrvOk DrvOk DrvOk; End t None].

Lemma steps_reach ac es : forall s s', reachable ac s -> steps es s = Some s' -> reachable ac s'.
Proof.
  induction es as [|e es IH]; intros s s' R; cbn; [intros [= <-]; exact R|].
  destruct (step e s) as [s1 exc| |] eqn:E; try discriminate. apply IH. exact (reach_step ac e s s1 exc R E).
Qed.

(** The owner of the lock, whether there is a transaction, the threads in a call and the ones with the datasource
    among their resources *)
Definition observe (s : state) : option nat * bool * list nat * list nat :=
  (tid (managed s), in_transaction (ds (managed s)), (map_to_list (callers s)).*1, elements (thread_resources s)).

(** Closing or resetting a datasource that is in no transaction leaves the lock with the thread: another thread
    has to wait until its timeout. *)
Example close_keeps_lock :
  observe <$> steps [Enter 1 Close OpenOk DrvOk DrvOk None; Enter 2 (Run Select) OpenOk DrvOk DrvOk None;
                     Wake 2 true OpenOk DrvOk DrvOk None] (start false) = Some (Some 1%nat, false, [], []).
Proof. vm_compute. reflexivity. Qed.

(** Reading the configuration in a transaction gives the lock away: another thread works in the transaction
    and commits it. *)
Example config_gives_lock :
  let es := method_run 1 Exec ++ [Enter 1 Config OpenOk DrvOk DrvOk None; End 1 None] in
  observe <$> steps es (start false) = Some (None, true, [], [1%nat]) /\
  observe <$> steps (es ++ method_run 2 Commit) (start false) = Some (None, false, [], [1%nat]).
Proof. vm_compute. split; reflexivity. Qed.

(** Turning autocommit on in a transaction: commit keeps the lock, and an assertion fails when the thread ends. *)
Example autocommit_keeps_lock :
  let es := method_run 1 Exec ++ [Enter 1 (AutoCommit true) OpenOk DrvOk DrvOk None] ++ method_run 1 Commit in
  observe <$> steps es (start false) = Some (Some 1%nat, false, [], [1%nat]) /\
  match steps es (start false) with Some s => step (Cleanup 1 DrvOk DrvOk None) s = Failed | None => False end.
Proof. vm_compute. split; reflexivity. Qed.

(** The command is chosen before the lock is taken: when autocommit is turned off in between, the transaction of
    [exec] stays open without an owner. *)
Example autocommit_race :
  observe <$> steps [Enter 1 (Run Select) OpenOk DrvOk DrvOk None; Enter 2 (Run Exec) OpenOk DrvOk DrvOk None;
                     Enter 3 (AutoCommit false) OpenOk DrvOk DrvOk None;
                     Act 1 DrvOk DrvOk DrvOk; End 1 (Some 3%nat); Wake 3 false OpenOk DrvOk DrvOk (Some 2%nat);
                     Wake 2 false OpenOk DrvOk DrvOk None; Act 2 DrvOk DrvOk DrvOk; End 2 None] (start true)
  = Some (None, true, [], []).
Proof. vm_compute. reflexivity. Qed.

Lemma managed_exclusion_witness :
  exists s, steps (method_run 1 Exec) (start false) = Some s /\
    forall e s' exc, thread_of e <> Some 1%nat -> step e s = To s' exc -> tid (managed s') = Some 1%nat.
Proof.
  eexists. split; [vm_compute; reflexivity|]. intros e s' exc N Es.
  refine (proj2 (proj1 (proj2 (managed_exclusion false _ (steps_reach false (method_run 1 Exec) _ _ (reach_start false) _)))
    1%nat e s' exc _ N Es)); vm_compute; reflexivity.
Defined.

Lemma managed_transactions_witness :
  exists s, steps (method_run 1 Exec) (start false) = Some s /\ in_transaction (ds (managed s)) = true /\
            (forall e, step e s <> Failed).
Proof.
  assert (forall s, steps (method_run 1 Exec) (start false) = Some s -> careful_reach true false s) as R.
  { intros s. unfold method_run, steps.
    destruct (step _ (start false)) as [s1 e1| |] eqn:E1; try discriminate.
    destruct (step _ s1) as [s2 e2| |] eqn:E2; try discriminate.
    destruct (step _ s2) as [s3 e3| |] eqn:E3; try discriminate. intros [= <-].
    refine (careful_step _ _ _ _ _ _ (careful_step _ _ _ _ _ _ (careful_step _ _ _ _ _ _ (careful_start _ _) _ E1) _ E2) _ E3);
      exact I. }
  eexists. split; [vm_compute; reflexivity|].
  lazymatch goal with |- in_transaction (ds (managed ?s)) = true /\ _ =>
    assert (steps (method_run 1 Exec) (start false) = Some s) as E by (vm_compute; reflexivity);
    destruct (proj2 (managed_transactions false s) (R s E)) as [H1 H2]
  end.
  split; [apply (H1 1%nat); vm_compute; reflexivity|exact H2].
Defined.

Lemma managed_no_lost_wakeup_witness :
  exists s c timed, reachable false s /\ tid (managed s) = None /\ callers s !! 2%nat = Some (InWait c timed false) /\
    exists w s' exc, step (Wake 2 false OpenOk DrvOk DrvOk w) s = To s' exc /\ not_waiting 2 (callers s').
Proof.
  set (s := mkState (mkMds (mkDs false false true false false false ∅) None 1 120000)
              {[2%nat := InWait (Action Select DAH_NOCHANGE) true false]} ∅).
  assert (reachable false s) as R.
  { apply (steps_reach false [Enter 1 (Run Select) OpenOk DrvOk DrvOk None; Enter 2 (Run Select) OpenOk DrvOk DrvOk None;
      Act 1 DrvOk DrvOk DrvOk; End 1 (Some 2%nat)] (start false)); [apply reach_start|vm_compute; reflexivity]. }
  destruct (managed_no_lost_wakeup false s R eq_refl) as (t & c & timed & Et & H).
  { exists 2%nat, (InWait (Action Select DAH_NOCHANGE) true false). split; reflexivity. }
  assert (t = 2%nat) as -> by (change (callers s) with ({[2%nat := InWait (Action Select DAH_NOCHANGE) true false]} : gmap nat caller) in Et;
    apply lookup_singleton_Some in Et as [<- _]; reflexivity).
  exists s, c, timed. split; [exact R|]. split; [reflexivity|]. split; [exact Et|apply H].
Defined.
