(* ===== verification/SqlStatement.v ===== *)
(** * SQL statements

    [QoreSQLStatement]: a statement object with its SQL, the handle that the
    driver keeps for it and its status; each method surrounds the calls of the
    driver with a [DBActionHelper], which gets a datasource from the object
    that made the statement, a [ManagedDatasource] or a [DatasourcePool], and
    gives it back. The two are behind the interface
    [DatasourceStatementHelper]. The driver is not part of the repository: the
    answers to its calls are a list that the methods take one by one. *)

From S2P Require Import Prelude DatasourcePool ManagedDatasource.

#[local] Open Scope Z_scope.

(** ** The interface of the objects that have datasources *)

(** How getting a datasource ends: the call would have to wait, an assertion
    fails or the signal does not fit, or it returns the number of the datasource, if any, whether it is
    new for the thread, and whether an exception was raised. *)
Inductive started (H : Type) :=
  | Blocked
  | StartAssert
  | Started (h : H) (newds : option nat) (nt exc : bool).
Arguments Blocked {H}.
Arguments StartAssert {H}.
Arguments Started {H} h newds nt exc.

(** [timeout] is whether the wait for the lock ends with an exception, [opens]
    the answer of the driver when the connection is opened, and [wakes] the
    thread that is woken up when that fails and the datasource is given back. *)
Record start_reply := mkReply { timeout : bool; opens : open_outcome; wakes : option nat }.

(** The end of an action gives the datasource of the statement and the
    statements that are closed with it; [None] is a failed assertion or a
    signal that does not fit. *)
Class DatasourceStatementHelper (H : Type) := {
  helper_ds : nat -> H -> option Datasource;
  helper_set_ds : nat -> Datasource -> H -> H;
  helperStartAction : nat -> start_reply -> H -> started H;
  helperEndAction : nat -> command -> bool -> outcome -> option nat -> H -> option (H * option nat * gset nat) }.

(** [ManagedDatasource] has one datasource, number 0. *)
Definition managed_startAction (t : nat) (r : start_reply) (s : ManagedDatasource.state)
    : started ManagedDatasource.state :=
  let had := bool_decide (tid (managed s) = Some t) in
  if negb had && negb (bool_decide (tid (managed s) = None))
  then if timeout r then Started s None true true else Blocked
  else
    let s := take_lock t s in
    let d := ds (managed s) in
    if isopen d then Started s (Some 0%nat) (negb had) false
    else
      let '(d, rc, exc) := open (opens r) d in
      let s := set_managed (set_ds d (managed s)) s in
      if negb (rc =? 0) || exc
      then if had then Started s (Some 0%nat) false exc
           else match forceReleaseLockIntern (wakes r) s with
                | Some s => Started s None true exc
                | None => StartAssert
                end
      else Started s (Some 0%nat) (negb had) false.

Definition managed_endAction (t : nat) (cmd : command) (nt : bool) (o : outcome) (w : option nat)
    (s : ManagedDatasource.state) : option (ManagedDatasource.state * option nat * gset nat) :=
  let s := match cmd with
           | DAH_RELEASE => set_managed (set_ds (autoCommit o (ds (managed s))).1 (managed s)) s
           | _ => s
           end in
  match endDBAction t cmd nt w s with
  | To s _ => Some (s, if bool_decide (tid (managed s) = Some t) then Some 0%nat else None, ∅)
  | _ => None
  end.

#[export] Instance managed_helper : DatasourceStatementHelper ManagedDatasource.state := {
  helper_ds _ s := Some (ds (managed s));
  helper_set_ds _ d s := set_managed (set_ds d (managed s)) s;
  helperStartAction := managed_startAction;
  helperEndAction := managed_endAction }.

(** [DatasourcePool]: the datasource that the thread has or gets *)
Definition pool_startAction (t : nat) (r : start_reply) (s : system) : started system :=
  let '(l, p) := getDSIntern t (dsp s) in
  match l with
  | MustWait =>
    if timeout r then Started (mkSys (set_wait (wait_count (dsp s)) (wait_max p) p) (threads s) (resources s)) None false true
    else Blocked
  | _ =>
    let new_ds := match l with NewLease => true | _ => false end in
    let s := mkSys p (threads s) (if new_ds then {[t]} ∪ resources s else resources s) in
    match getAllocatedDS t p with
    | None => StartAssert
    | Some (i, d) =>
      if isopen d then Started s (Some i) new_ds false
      else if negb new_ds then StartAssert
      else
        match open (opens r) d with
        | (d, rc, exc) =>
          let p := update_ds i d p in
          if negb (rc =? 0) then
            match freeDS t p with
            | Some p =>
              match signal_waiting (wakes r) p (threads s) with
              | Some ts => Started (mkSys p ts (resources s ∖ {[t]})) None new_ds exc
              | None => StartAssert
              end
            | None => StartAssert
            end
          else if exc then StartAssert
          else Started (mkSys p (threads s) (resources s)) (Some i) new_ds false
        end
    end
  end.

Definition pool_endAction (t : nat) (cmd : command) (w : option nat) (s : system)
    : option (system * option nat * gset nat) :=
  match cmd with
  | DAH_RELEASE =>
    match getAllocatedDS t (dsp s), freeDS t (dsp s) with
    | Some (_, d), Some p =>
      match signal_waiting w p (threads s) with
      | Some ts => Some (mkSys p ts (resources s ∖ {[t]}), None, stmt_set d)
      | None => None
      end
    | _, _ => None
    end
  | _ =>
    match getAllocatedDS t (dsp s) with
    | Some (i, _) => if w is Some _ then None else Some (s, Some i, ∅)
    | None => None
    end
  end.

#[export] Instance pool_helper : DatasourceStatementHelper system := {
  helper_ds i s := pool (dsp s) !! i;
  helper_set_ds i d s := mkSys (update_ds i d (dsp s)) (threads s) (resources s);
  helperStartAction := pool_startAction;
  helperEndAction t cmd nt o w s := pool_endAction t cmd w s }.

(** ** Statements *)

Inductive status := STMT_IDLE | STMT_PREPARED | STMT_EXECED | STMT_DEFINED.

#[export] Instance status_eq_dec : EqDecision status.
Proof. solve_decision. Defined.

(** The order of the numbers of the statuses *)
Definition status_num (s : status) : Z :=
  match s with STMT_IDLE => 0 | STMT_PREPARED => 1 | STMT_EXECED => 2 | STMT_DEFINED => 3 end.

(** The datasource pointer, whether there is private data of the driver, the
    status, whether the SQL string is not empty, the raw flag and the result
    of the last [next] *)
Record stmt := mkStmt {
  st_ds : option nat; st_data : bool; st_status : status; st_sql : bool; st_raw : bool; st_valid : bool }.

Definition new_stmt : stmt := mkStmt None false STMT_IDLE false false false.

(** The calls of the driver for a statement *)
Inductive dbi_call :=
  | DPrepare | DBind | DBindPlaceholders | DBindValues | DExec | DExecDescribe | DAffectedRows
  | DGetOutput | DGetOutputRows | DDefine | DNext | DFetchRow | DFetchRows | DFetchColumns | DDescribe
  | DClose | DFree.

(** A call returns without an exception, with one (for [prepare], with private
    data or not), or with one after the connection was aborted. *)
Inductive reply := Done | Error (keeps : bool) | Lost.

Definition is_done (r : reply) : bool := match r with Done => true | _ => false end.

Section Statement.
Context {H : Type} {HH : DatasourceStatementHelper H}.

(** The program: the datasources, the statements, the answers of the driver
    that are still to come and the calls of the driver that were made *)
Record world := mkWorld {
  helper : H; stmts : gmap nat stmt; script : list reply; dbi_log : list (nat * dbi_call * reply) }.

(** A computation: [None] is a failed assertion. *)
Definition M (A : Type) : Type := world -> option (A * world).
#[export] Instance M_ret : MRet M := λ A a w, Some (a, w).
#[export] Instance M_bind : MBind M := λ A B f m w, match m w with Some (a, w) => f a w | None => None end.
Definition assert (b : bool) : M unit := λ w, if b then Some (tt, w) else None.
Definition lookup_world {A} (f : world -> option A) : M A := λ w, a ← f w; Some (a, w).
Definition gets {A} (f : world -> A) : M A := λ w, Some (f w, w).
Definition modify (f : world -> world) : M unit := λ w, Some (tt, f w).

Definition stmt_of (q : nat) (w : world) : stmt := default new_stmt (stmts w !! q).
Definition on_stmt (q : nat) (f : stmt -> stmt) (w : world) : world :=
  mkWorld (helper w) (<[q := f (stmt_of q w)]> (stmts w)) (script w) (dbi_log w).
Definition on_helper (f : H -> H) (w : world) : world :=
  mkWorld (f (helper w)) (stmts w) (script w) (dbi_log w).

Definition set_data (b : bool) (s : stmt) := mkStmt (st_ds s) b (st_status s) (st_sql s) (st_raw s) (st_valid s).
Definition set_status (x : status) (s : stmt) := mkStmt (st_ds s) (st_data s) x (st_sql s) (st_raw s) (st_valid s).
Definition set_st_ds (d : option nat) (s : stmt) := mkStmt d (st_data s) (st_status s) (st_sql s) (st_raw s) (st_valid s).
Definition set_sql (sql raw : bool) (s : stmt) := mkStmt (st_ds s) (st_data s) (st_status s) sql raw (st_valid s).
Definition set_validp (b : bool) (s : stmt) := mkStmt (st_ds s) (st_data s) (st_status s) (st_sql s) (st_raw s) b.

Definition get_stmt (q : nat) : M stmt := gets (stmt_of q).
Definition update (q : nat) (f : stmt -> stmt) : M unit := modify (on_stmt q f).

(** The datasource of a statement; using it without one is an assertion. *)
Definition get_ds (q : nat) : M (nat * Datasource) :=
  s ← get_stmt q;
  lookup_world (λ w, i ← st_ds s; d ← helper_ds i (helper w); Some (i, d)).
Definition put_ds (i : nat) (d : Datasource) : M unit := modify (on_helper (helper_set_ds i d)).

(** ** Calls of the driver *)

(** The next answer, and the call in the log *)
Definition answer (q : nat) (c : dbi_call) : M reply := λ w,
  let '(r, rest) := match script w with r :: rest => (r, rest) | [] => (Done, []) end in
  Some (r, mkWorld (helper w) (stmts w) rest (dbi_log w ++ [(q, c, r)])).

(** [stmt_close] always clears the private data, which is asserted behind
    each call. *)
Definition drv_close (q : nat) : M bool :=
  r ← answer q DClose;
  update q (set_data false);;
  mret (negb (is_done r)).

(** [QoreSQLStatement::transactionDone] *)
Definition stmt_transactionDone (clear close : bool) (q : nat) : M unit :=
  s ← get_stmt q;
  (if st_data s then
     assert (bool_decide (is_Some (st_ds s)));;
     if close then drv_close q;; update q (set_status STMT_IDLE)
     else answer q DFree;; mret tt
   else mret tt);;
  if clear then update q (set_st_ds None) else mret tt.

Fixpoint all_done (clear close : bool) (qs : list nat) : M unit :=
  match qs with
  | [] => mret tt
  | q :: qs => stmt_transactionDone clear close q;; all_done clear close qs
  end.

(** [qore_ds_private::transactionDone] *)
Definition ds_transactionDone (clear close : bool) (i : nat) : M unit :=
  d ← gets (λ w, helper_ds i (helper w));
  match d with
  | Some d =>
    all_done clear close (elements (stmt_set d));;
    (if clear then put_ds i (transactionDone true d) else mret tt)
  | None => assert false
  end.

(** [qore_ds_private::connectionAborted] *)
Definition ds_connectionAborted (i : nat) : M unit :=
  d ← gets (λ w, helper_ds i (helper w));
  match d with
  | Some d =>
    assert (isopen d);;
    ds_transactionDone false true i;;
    put_ds i (connectionAborted d)
  | None => assert false
  end.

(** A call for a statement; the result is whether it failed. *)
Definition drv (q : nat) (c : dbi_call) : M bool :=
  x ← get_ds q;
  r ← answer q c;
  match r with
  | Done => match c with DPrepare => update q (set_data true) | _ => mret tt end;; mret false
  | Error keeps => match c with DPrepare => update q (set_data keeps) | _ => mret tt end;; mret true
  | Lost => ds_connectionAborted x.1;; mret true
  end.

(** ** The parts of the methods *)

Definition closeIntern (q : nat) : M bool :=
  s ← get_stmt q;
  if negb (st_data s) then mret false
  else
    assert (bool_decide (is_Some (st_ds s)));;
    rc ← drv_close q;
    update q (set_status STMT_IDLE);;
    mret rc.

Definition prepareIntern (q : nat) : M bool :=
  rc ← drv q DPrepare;
  if rc : bool then closeIntern q;; mret true
  else update q (set_status STMT_PREPARED);; mret false.

(** [execIntern] and [execDescribeIntern] *)
Definition exec_with (c : dbi_call) (q : nat) : M bool :=
  rc ← drv q c;
  (if rc : bool then mret tt else update q (set_status STMT_EXECED));;
  x ← get_ds q;
  let '(i, d) := x in
  assert (in_transaction d || connection_aborted d || isopen d && negb (active_transaction d));;
  put_ds i (statementExecuted rc d);;
  mret rc.

Definition execIntern : nat -> M bool := exec_with DExec.
Definition execDescribeIntern : nat -> M bool := exec_with DExecDescribe.

Definition defineIntern (q : nat) : M bool :=
  rc ← drv q DDefine;
  if rc : bool then mret true else update q (set_status STMT_DEFINED);; mret false.

(** The branches of [checkStatus] behind the one for [describe]. The result
    is whether it failed. *)
Definition checkStatus_steps (q : nat) (stat : status) : M bool :=
  s ← get_stmt q;
  rc ← (if bool_decide (st_status s = STMT_IDLE) && st_sql s then prepareIntern q else mret false);
  if rc : bool then mret true
  else
    s ← get_stmt q;
    if bool_decide (stat = st_status s) then mret false
    else
      match stat, st_status s with
      | STMT_PREPARED, STMT_EXECED => mret false
      | STMT_PREPARED, STMT_DEFINED =>
        rc ← closeIntern q;
        if rc : bool then mret true else prepareIntern q
      | _, _ =>
        rc ← (match stat, st_status s with
              | STMT_EXECED, STMT_PREPARED | STMT_DEFINED, STMT_PREPARED => execIntern q
              | _, _ => mret false
              end);
        if rc : bool then mret true
        else
          s ← get_stmt q;
          if bool_decide (stat = st_status s) then mret false
          else
            match stat, st_status s with
            | STMT_DEFINED, STMT_EXECED => defineIntern q
            | _, _ => mret true
            end
      end.

(** [exec_define] is whether the driver has the function [exec_describe],
    [describe] whether the action is that one. The second result is whether
    the statement is to be closed at the end. *)
Definition checkStatus (exec_define describe : bool) (q : nat) (stat : status) : M (bool * bool) :=
  s ← get_stmt q;
  if bool_decide (stat = st_status s) then mret (false, false)
  else if bool_decide (stat = STMT_IDLE) then rc ← closeIntern q; mret (rc, false)
  else if bool_decide (stat = STMT_DEFINED) && (status_num (st_status s) <? status_num STMT_EXECED)
          && exec_define && describe then
    rc ← (if bool_decide (st_status s = STMT_IDLE) && st_sql s then prepareIntern q else mret false);
    if rc : bool then mret (true, false)
    else
      rc ← execDescribeIntern q;
      if rc : bool then mret (true, false)
      else rc ← defineIntern q; mret (rc, true)
  else rc ← checkStatus_steps q stat; mret (rc, false).

(** ** [DBActionHelper] *)

(** A call has to wait for a datasource, or returns. The value of a call is
    whether it failed, but for [next], which returns whether there is a row,
    and [currentThreadInTransaction]. *)
Inductive call_result := Waits | Returns (v : bool).

Section Action.
(** The thread, the answers for the helper: getting a datasource, the commit
    when the lock of a datasource with autocommit is released, and the thread
    that a signal wakes up *)
Context (t : nat) (r : start_reply) (oc : outcome) (wk : option nat).

(** [helperEndAction]; the statements of a datasource that goes back to its
    pool are closed. The result is the datasource of the statement. *)
Definition end_action (cmd : command) (nt : bool) : M (option nat) :=
  x ← lookup_world (λ w, helperEndAction t cmd nt oc wk (helper w));
  let '(h, d, done) := x in
  modify (on_helper (λ _, h));;
  all_done true true (elements done);;
  mret d.

Definition add_statement (q i : nat) : M unit :=
  d ← lookup_world (λ w, helper_ds i (helper w));
  assert (negb (bool_decide (q ∈ stmt_set d)));;
  put_ds i (addStatement q d).

(** [~DBActionHelper] *)
Definition end_helper (q : nat) (cmd : command) (nt close : bool) : M unit :=
  s ← get_stmt q;
  match st_ds s with
  | None => mret tt
  | Some _ =>
    (if close then
       x ← get_ds q;
       assert (match cmd with DAH_ACQUIRE => true | _ => false end && isopen x.2);;
       closeIntern q;; mret tt
     else mret tt);;
    x ← get_ds q;
    let '(i, d) := x in
    let cmd := if connection_aborted d || negb (isopen d)
                  || nt && match cmd with DAH_NOCHANGE => true | _ => false end
               then DAH_RELEASE else cmd in
    (match cmd with DAH_RELEASE => put_ds i (removeStatement q d) | _ => mret tt end);;
    d ← end_action cmd nt;
    update q (set_st_ds d);;
    assert (match cmd with DAH_RELEASE => true | _ => bool_decide (is_Some d) end)
  end.

(** [invalid] gives the value of the method when there is no datasource. The
    body gets the flag for a new datasource; its results are the value and
    whether the statement is to be closed. *)
Definition with_action (q : nat) (cmd : command) (invalid : M bool) (body : bool -> M (bool * bool)) : M call_result :=
  h ← gets helper;
  match helperStartAction t r h with
  | Blocked => mret Waits
  | StartAssert => assert false;; mret Waits
  | Started h newds nt exc =>
    modify (on_helper (λ _, h));;
    s ← get_stmt q;
    let other := match newds, st_ds s with Some i, Some j => negb (bool_decide (i = j)) | _, _ => false end in
    if other then end_action DAH_RELEASE nt;; v ← invalid; mret (Returns v)
    else
      assert (bool_decide (is_Some newds) || exc);;
      (match newds, st_ds s with Some i, None => add_statement q i | _, _ => mret tt end);;
      update q (set_st_ds newds);;
      match newds with
      | None => v ← invalid; mret (Returns v)
      | Some _ =>
        x ← body nt;
        end_helper q cmd nt x.2;;
        mret (Returns x.1)
      end
  end.
End Action.

(** ** Methods *)

Inductive smethod :=
  | SPrepare (raw nonempty : bool) | SBind (c : dbi_call) | SExec (args : bool)
  | SResult (c : dbi_call)          (* affectedRows, getOutput, getOutputRows *)
  | SNext (more : bool)             (* and what the driver returns without an exception *)
  | SDefine
  | SFetch (c : dbi_call)           (* fetchRow, fetchRows, fetchColumns *)
  | SDescribe
  | SClose | SCommit | SRollback | SBeginTransaction | SInTransaction | SGetSQL.

(** The calls of the driver that the methods with a parameter make *)
Definition is_bind (c : dbi_call) : bool := match c with DBind | DBindPlaceholders | DBindValues => true | _ => false end.
Definition is_result (c : dbi_call) : bool := match c with DAffectedRows | DGetOutput | DGetOutputRows => true | _ => false end.
Definition is_fetch (c : dbi_call) : bool := match c with DFetchRow | DFetchRows | DFetchColumns => true | _ => false end.

(** [qore_ds_private::commitIntern] and [rollbackIntern] *)
Definition endIntern (q : nat) (o : outcome) : M bool :=
  x ← get_ds q;
  let '(i, d) := x in
  assert (isopen d);;
  put_ds i (set_transaction false false d);;
  (match o with DrvAborted => ds_connectionAborted i | _ => mret tt end);;
  mret (raised o).

(** [Datasource::beginTransaction] *)
Definition begin_on (q : nat) (o : outcome) : M bool :=
  x ← get_ds q;
  let '(i, d) := x in
  if autocommit d then mret true
  else
    match o with
    | DrvOk =>
      (if in_transaction d then mret tt
       else assert (negb (active_transaction d));; put_ds i (set_transaction true (active_transaction d) d));;
      mret false
    | DrvExc => mret true
    | DrvAborted => ds_connectionAborted i;; mret true
    end.

(** [checkStatus], and a call of the driver when it did not fail; the result
    of the method is whether one of them failed. *)
Definition checked (ed describe : bool) (q : nat) (stat : status) (body : M bool) : M (bool * bool) :=
  x ← checkStatus ed describe q stat;
  if x.1 : bool then mret (true, x.2) else rc ← body; mret (rc, x.2).

Definition next (ed more : bool) (q : nat) : M (bool * bool) :=
  x ← checked ed false q STMT_DEFINED (drv q DNext);
  let v := negb x.1 && more in
  update q (set_validp v);;
  mret (v, x.2).

Definition exec (ed args : bool) (q : nat) : M (bool * bool) :=
  s ← get_stmt q;
  if negb (st_sql s) then mret (true, false)
  else
    checked ed false q STMT_PREPARED
      (rc ← (if args then drv q DBind else mret false);
       if rc : bool then mret true else execIntern q).

(** The command of a method and its body; [ed] is whether the driver can
    describe a statement without executing it, [o] its answer for a
    transaction. *)
Definition method_cmd (m : smethod) : command :=
  match m with
  | SPrepare _ _ | SClose | SInTransaction | SGetSQL => DAH_NOCHANGE
  | SCommit | SRollback => DAH_RELEASE
  | _ => DAH_ACQUIRE
  end.

Definition method_invalid (m : smethod) (q : nat) : M bool :=
  match m with
  | SNext _ => update q (set_validp false);; mret false
  | SInTransaction | SDefine => mret false
  | _ => mret true
  end.

Definition method_body (ed : bool) (m : smethod) (o : outcome) (q : nat) (nt : bool) : M (bool * bool) :=
  match m with
  | SPrepare raw nonempty =>
    x ← checkStatus ed false q STMT_IDLE;
    if x.1 : bool then mret (true, x.2) else update q (set_sql nonempty raw);; mret (false, x.2)
  | SBind c => checked ed false q STMT_PREPARED (drv q c)
  | SExec args => exec ed args q
  | SResult c => checked ed false q STMT_EXECED (drv q c)
  | SNext more => next ed more q
  | SDefine =>
    x ← checkStatus ed false q STMT_EXECED;
    if x.1 : bool then mret (false, x.2) else rc ← defineIntern q; mret (rc, x.2)
  | SFetch c => checked ed false q STMT_DEFINED (drv q c)
  | SDescribe => checked ed true q STMT_DEFINED (drv q DDescribe)
  | SClose => rc ← closeIntern q; mret (rc, false)
  | SCommit | SRollback => closeIntern q;; rc ← endIntern q o; mret (rc, false)
  | SBeginTransaction => rc ← begin_on q o; mret (rc, false)
  | SInTransaction => mret (negb nt, false)
  | SGetSQL => s ← get_stmt q; mret (negb (st_sql s), false)
  end.

(** A thread calls a method. *)
Definition call_method (ed : bool) (t q : nat) (m : smethod) (r : start_reply) (o oc : outcome) (wk : option nat)
    : M call_result :=
  with_action t r oc wk q (method_cmd m) (method_invalid m q) (method_body ed m o q).

(** [deref]: the object is deleted; its destructor asserts that there is no
    private data. *)
Definition deref (q : nat) : M unit :=
  closeIntern q;;
  s ← get_stmt q;
  (match st_ds s with
   | Some i => d ← lookup_world (λ w, helper_ds i (helper w)); put_ds i (removeStatement q d)
   | None => mret tt
   end);;
  assert (negb (st_data s));;
  modify (λ w, mkWorld (helper w) (delete q (stmts w)) (script w) (dbi_log w)).

(** ** Runs *)

Inductive sevent :=
  | NewStatement (q : nat)
  | CallMethod (ed : bool) (t q : nat) (m : smethod) (r : start_reply) (o oc : outcome) (wk : option nat)
      (answers : list reply)
  | Deref (q : nat) (answers : list reply)
  (* a datasource ends a transaction, has lost its connection or recovered it *)
  | TransactionDone (i : nat) (clear close : bool) (answers : list reply)
  (* the other calls of the datasources *)
  | Others (h : H).

Definition with_script {A} (l : list reply) (m : M A) : M A :=
  modify (λ w, mkWorld (helper w) (stmts w) l (dbi_log w));; m.

Definition method_ok (m : smethod) : bool :=
  match m with SBind c => is_bind c | SResult c => is_result c | SFetch c => is_fetch c | _ => true end.

Definition run_sevent (e : sevent) : M unit :=
  match e with
  | NewStatement q =>
    x ← gets (λ w, stmts w !! q);
    assert (bool_decide (x = None));;
    modify (λ w, mkWorld (helper w) (<[q := new_stmt]> (stmts w)) (script w) (dbi_log w))
  | CallMethod ed t q m r o oc wk l =>
    x ← gets (λ w, stmts w !! q);
    assert (bool_decide (is_Some x) && method_ok m);;
    with_script l (call_method ed t q m r o oc wk);; mret tt
  | Deref q l => with_script l (deref q)
  | TransactionDone i clear close l => with_script l (ds_transactionDone clear close i)
  | Others h => modify (on_helper (λ _, h))
  end.

Fixpoint run_sevents (es : list sevent) (w : world) : option world :=
  match es with
  | [] => Some w
  | e :: es => match run_sevent e w with Some (_, w) => run_sevents es w | None => None end
  end.
End Statement.
