(* ===== verification/SqlSpec.v ===== *)
(** * SQL statements keep to the protocol of the driver

    Whatever methods are called, on any number of statements and in any
    threads, the driver sees calls in an order that makes sense for each
    statement: the calls for a result need an execution, rows need a
    definition of the output, a handle is closed once. *)

From S2P Require Import Prelude DatasourcePool ManagedDatasource SqlStatement.

#[local] Open Scope Z_scope.

(** ** The protocol *)

(** What the driver knows of a statement: no handle, one whose preparation
    failed, a prepared or an executed statement, and one with its output
    defined *)
Inductive handle := NoHandle | Broken | Prepared | Executed | Defined.

(** The handle after a call, or [None] for one that has no place there *)
Definition protocol (s : handle) (c : dbi_call) (r : reply) : option handle :=
  match s, c with
  | NoHandle, DPrepare => Some (match r with Done => Prepared | Error true => Broken | _ => NoHandle end)
  | (Prepared | Executed), (DBind | DBindPlaceholders | DBindValues) => Some s
  | (Prepared | Executed), (DExec | DExecDescribe) => Some (if is_done r then Executed else s)
  | Executed, (DAffectedRows | DGetOutput | DGetOutputRows) => Some s
  | Executed, DDefine => Some (if is_done r then Defined else s)
  | Defined, (DNext | DFetchRow | DFetchRows | DFetchColumns | DDescribe) => Some s
  | (Broken | Prepared | Executed | Defined), DClose => Some NoHandle
  | (Broken | Prepared | Executed | Defined), DFree => Some s
  | _, _ => None
  end.

Fixpoint follow (q : nat) (s : handle) (l : list (nat * dbi_call * reply)) : option handle :=
  match l with
  | [] => Some s
  | (q', c, r) :: l =>
    if (q' =? q)%nat then s ← protocol s c r; follow q s l else follow q s l
  end.

Lemma follow_snoc q q' c r l : forall s, follow q s (l ++ [(q', c, r)]) =
  s' ← follow q s l; if (q' =? q)%nat then protocol s' c r else Some s'.
Proof.
  induction l as [|[[q1 c1] r1] l IH]; intros s; cbn.
  - destruct (q' =? q)%nat; [|reflexivity]. destruct (protocol s c r); reflexivity.
  - destruct (q1 =? q)%nat; [|apply IH]. destruct (protocol s c1 r1); [apply IH|reflexivity].
Qed.

Section Protocol.
Context {H : Type} {HH : DatasourceStatementHelper H}.
Implicit Types (w : world (H := H)).

Definition status_of (q : nat) w : status := st_status (stmt_of q w).

Definition handle_of (s : stmt) : handle :=
  if st_data s then
    match st_status s with
    | STMT_IDLE => Broken | STMT_PREPARED => Prepared | STMT_EXECED => Executed | STMT_DEFINED => Defined
    end
  else NoHandle.

(** The log agrees with the statements; between calls, a statement has a
    handle when it is not idle. *)
Definition legal w : Prop := forall q, follow q NoHandle (dbi_log w) = Some (handle_of (stmt_of q w)).
Definition stable (s : stmt) : Prop := st_data s = negb (bool_decide (st_status s = STMT_IDLE)).
Definition good w : Prop := legal w /\ forall q, stable (stmt_of q w).

(** The other statements may have been closed. *)
Definition kept (q : nat) w w' : Prop := status_of q w' = status_of q w \/ status_of q w' = STMT_IDLE.

Lemma M_bind_Some {A B} (m : M A) (f : A -> M B) w b w' :
  (m ≫= f) w = Some (b, w') -> exists a w1, m w = Some (a, w1) /\ f a w1 = Some (b, w').
Proof. unfold mbind, M_bind. destruct (m w) as [[a w1]|]; [|discriminate]. eauto. Qed.

Ltac step H :=
  let a := fresh "a" in let w1 := fresh "w" in let E := fresh "E" in
  apply M_bind_Some in H as (a & w1 & E & H).

Lemma assert_Some b w u w' : assert b w = Some (u, w') -> b = true /\ w' = w.
Proof. unfold assert. destruct b; [|discriminate]. intros [= _ <-]. auto. Qed.

Lemma gets_Some {A} (f : world -> A) w a w' : gets f w = Some (a, w') -> a = f w /\ w' = w.
Proof. unfold gets. intros [= <- <-]. auto. Qed.

Lemma lookup_Some {A} (f : world -> option A) w a w' : lookup_world f w = Some (a, w') -> f w = Some a /\ w' = w.
Proof. unfold lookup_world. cbn. destruct (f w); cbn; [|discriminate]. intros [= <- <-]. auto. Qed.

Lemma ret_Some {A} (x : A) w a w' : (mret x : M A) w = Some (a, w') -> a = x /\ w' = w.
Proof. intros [= <- <-]. auto. Qed.

Lemma modify_Some f w u w' : modify f w = Some (u, w') -> w' = f w.
Proof. intros [= _ <-]. reflexivity. Qed.

(** *** Changes that do not concern the log *)

Lemma stmt_of_update q f q' w : stmt_of q' (on_stmt q f w) = if decide (q' = q) then f (stmt_of q w) else stmt_of q' w.
Proof.
  unfold stmt_of at 1, on_stmt. cbn. destruct (decide (q' = q)) as [->|N].
  - rewrite lookup_insert_eq. reflexivity.
  - rewrite lookup_insert_ne by congruence. reflexivity.
Qed.

(** A change of a statement that its handle does not depend on *)
Definition quiet_change (f : stmt -> stmt) : Prop :=
  forall s, st_data (f s) = st_data s /\ st_status (f s) = st_status s.

Lemma good_update q f w : quiet_change f -> good w -> good (on_stmt q f w) /\ forall q', status_of q' (on_stmt q f w) = status_of q' w.
Proof.
  intros F [L S].
  assert (forall q', st_data (stmt_of q' (on_stmt q f w)) = st_data (stmt_of q' w) /\
                     st_status (stmt_of q' (on_stmt q f w)) = st_status (stmt_of q' w)) as E.
  { intros q'. rewrite stmt_of_update. destruct (decide _) as [->|]; [apply F|auto]. }
  split; [split|].
  - intros q'. specialize (L q'). unfold handle_of in *. destruct (E q') as [-> ->]. exact L.
  - intros q'. specialize (S q'). unfold stable in *. destruct (E q') as [-> ->]. exact S.
  - intros q'. unfold status_of. apply E.
Qed.

Lemma good_helper f w : good w -> good (on_helper f w).
Proof. exact (λ G, G). Qed.

(** A call of the driver, and the change of the statement that goes with it *)
Definition good_but (q : nat) w : Prop := legal w /\ forall q', q' <> q -> stable (stmt_of q' w).

Lemma good_good_but q w : good w -> good_but q w.
Proof. intros [L S]. split; [exact L|]. intros q' _. apply S. Qed.

Lemma good_but_call q c r w w' : good_but q w -> dbi_log w' = dbi_log w ++ [(q, c, r)] ->
  (forall q', q' <> q -> stmt_of q' w' = stmt_of q' w) ->
  protocol (handle_of (stmt_of q w)) c r = Some (handle_of (stmt_of q w')) -> stable (stmt_of q w') -> good w'.
Proof.
  intros [L S] El Eo P Ss. split; intros q'.
  - rewrite El, follow_snoc, (L q'). cbn. destruct (Nat.eqb_spec q q') as [<-|N]; [exact P|]. rewrite Eo by congruence. reflexivity.
  - destruct (decide (q' = q)) as [->|N]; [exact Ss|]. rewrite Eo by exact N. apply S, N.
Qed.

Lemma good_call q c r w w' : good w -> dbi_log w' = dbi_log w ++ [(q, c, r)] ->
  (forall q', q' <> q -> stmt_of q' w' = stmt_of q' w) ->
  protocol (handle_of (stmt_of q w)) c r = Some (handle_of (stmt_of q w')) -> stable (stmt_of q w') -> good w'.
Proof. intros G. apply good_but_call, good_good_but, G. Qed.

Lemma answer_Some q c w r w' : answer q c w = Some (r, w') ->
  dbi_log w' = dbi_log w ++ [(q, c, r)] /\ stmts w' = stmts w /\ helper w' = helper w.
Proof. unfold answer. destruct (script w); intros [= <- <-]; auto. Qed.

Lemma same_stmts w w' q : stmts w' = stmts w -> stmt_of q w' = stmt_of q w.
Proof. unfold stmt_of. intros ->. reflexivity. Qed.

(** The status of a statement is as before or idle. *)
Definition closes w w' : Prop := good w' /\ forall q, kept q w w'.

Lemma closes_refl w : good w -> closes w w.
Proof. intros G. split; [exact G|]. left. reflexivity. Qed.

Lemma closes_trans w1 w2 w3 : closes w1 w2 -> closes w2 w3 -> closes w1 w3.
Proof.
  intros [_ K1] [G K2]. split; [exact G|]. intros q. unfold kept in *.
  destruct (K2 q) as [E|E]; [rewrite E; apply K1|right; exact E].
Qed.

Lemma closes_update q f w : quiet_change f -> good w -> closes w (on_stmt q f w).
Proof. intros F G. destruct (good_update q f w F G) as [G' E]. split; [exact G'|]. left. apply E. Qed.

Lemma closes_helper f w : good w -> closes w (on_helper f w).
Proof. exact (closes_refl w). Qed.

(** [stmt_close] of a statement with a handle *)
Lemma close_one q w b w' : good_but q w -> st_data (stmt_of q w) = true ->
  drv_close q w = Some (b, w') -> closes w (on_stmt q (set_status STMT_IDLE) w') /\
  status_of q (on_stmt q (set_status STMT_IDLE) w') = STMT_IDLE.
Proof.
  intros G D E. unfold drv_close in E. step E. step E. apply ret_Some in E as [_ ->]. apply modify_Some in E1 as ->.
  apply answer_Some in E0 as (El & Es & _). set (w2 := on_stmt q _ _).
  assert (stmt_of q w2 = set_status STMT_IDLE (set_data false (stmt_of q w))) as Eq.
  { unfold w2. rewrite stmt_of_update, decide_True, stmt_of_update, decide_True by reflexivity.
    rewrite (same_stmts _ _ q Es). reflexivity. }
  assert (forall q', q' <> q -> stmt_of q' w2 = stmt_of q' w) as Eo.
  { intros q' N. unfold w2. rewrite stmt_of_update, decide_False, stmt_of_update, decide_False by exact N.
    apply same_stmts, Es. }
  assert (status_of q w2 = STMT_IDLE) as St by (unfold status_of; rewrite Eq; reflexivity).
  split; [split|exact St].
  - apply (good_but_call q DClose a w w2 G El Eo); rewrite Eq; [|reflexivity].
    unfold handle_of at 1. rewrite D. destruct (st_status _), a; reflexivity.
  - intros q'. destruct (decide (q' = q)) as [->|N]; [right; exact St|left]. unfold status_of. rewrite Eo by exact N. reflexivity.
Qed.

Lemma stmt_transactionDone_closes clear close q w u w' : good w ->
  stmt_transactionDone clear close q w = Some (u, w') -> closes w w'.
Proof.
  intros G E. unfold stmt_transactionDone in E. step E. apply gets_Some in E0 as [-> ->]. step E.
  assert (closes w w0) as C.
  { destruct (st_data (stmt_of q w)) eqn:D; [|apply ret_Some in E0 as [_ ->]; apply closes_refl, G].
    step E0. apply assert_Some in E1 as [_ ->]. destruct close.
    - step E0. apply modify_Some in E0 as ->. apply (close_one q w a1 w1 (good_good_but q w G) D E1).
    - step E0. apply ret_Some in E0 as [_ ->]. apply answer_Some in E1 as (El & Es & _). split.
      + apply (good_call q DFree a1 w w1 G El); [intros; apply same_stmts, Es| |]; rewrite (same_stmts _ _ q Es); [|apply G].
        unfold handle_of. rewrite D. destruct (st_status _); reflexivity.
      + intros q'. left. unfold status_of. rewrite (same_stmts _ _ q' Es). reflexivity. }
  destruct clear; [|apply ret_Some in E as [_ ->]; exact C]. apply modify_Some in E as ->.
  apply (closes_trans w w0); [exact C|]. apply closes_update; [|apply C]. intros s. split; reflexivity.
Qed.

Lemma all_done_closes clear close qs : forall w u w', good w ->
  all_done clear close qs w = Some (u, w') -> closes w w'.
Proof.
  induction qs as [|q qs IH]; intros w u w' G E; cbn [all_done] in E.
  - apply ret_Some in E as [_ ->]. apply closes_refl, G.
  - step E. pose proof (stmt_transactionDone_closes _ _ _ _ _ _ G E0) as C.
    apply (closes_trans w w0); [exact C|]. apply (IH w0 u w'); [apply C|exact E].
Qed.

Lemma ds_transactionDone_closes clear close i w u w' : good w ->
  ds_transactionDone clear close i w = Some (u, w') -> closes w w'.
Proof.
  intros G E. unfold ds_transactionDone in E. step E. apply gets_Some in E0 as [-> ->].
  destruct (helper_ds i (helper w)) as [d|]; [|apply assert_Some in E as [[=] _]].
  step E. pose proof (all_done_closes _ _ _ _ _ _ G E0) as C. destruct clear.
  - apply modify_Some in E as ->. apply (closes_trans w w0); [exact C|apply closes_helper, C].
  - apply ret_Some in E as [_ ->]. exact C.
Qed.

Lemma ds_connectionAborted_closes i w u w' : good w ->
  ds_connectionAborted i w = Some (u, w') -> closes w w'.
Proof.
  intros G E. unfold ds_connectionAborted in E. step E. apply gets_Some in E0 as [-> ->].
  destruct (helper_ds i (helper w)) as [d|]; [|apply assert_Some in E as [[=] _]].
  step E. apply assert_Some in E0 as [_ ->]. step E. apply modify_Some in E as ->.
  pose proof (ds_transactionDone_closes _ _ _ _ _ _ G E0) as C.
  apply (closes_trans w w0); [exact C|apply closes_helper, C].
Qed.

Lemma get_ds_Some q w x w' : get_ds q w = Some (x, w') -> w' = w.
Proof. unfold get_ds. intros E. step E. apply gets_Some in E0 as [_ ->]. apply lookup_Some in E as [_ ->]. reflexivity. Qed.

(** A call that has its place there and does not change the handle when it
    fails *)
Definition allowed (h : handle) (c : dbi_call) : Prop := forall r, is_done r = false -> protocol h c r = Some h.

Lemma drv_spec q c w rc w' : good w -> c <> DPrepare -> allowed (handle_of (stmt_of q w)) c ->
  drv q c w = Some (rc, w') ->
  if rc then closes w w' else dbi_log w' = dbi_log w ++ [(q, c, Done)] /\ stmts w' = stmts w.
Proof.
  intros G Np Al E. unfold drv in E. step E. apply get_ds_Some in E0 as ->. step E.
  apply answer_Some in E0 as (El & Es & _).
  assert (is_done a0 = false -> closes w w0) as C.
  { intros D. split; [|intros q'; left; unfold status_of; rewrite (same_stmts _ _ q' Es); reflexivity].
    apply (good_call q c a0 w w0 G El); [intros; apply same_stmts, Es| |]; rewrite (same_stmts _ _ q Es); [apply Al, D|apply G]. }
  destruct a0 as [|k|].
  - step E. apply ret_Some in E as [-> ->].
    assert (w1 = w0) as -> by (destruct c; try contradiction; apply ret_Some in E0 as [_ ->]; reflexivity). auto.
  - step E. apply ret_Some in E as [-> ->].
    assert (w1 = w0) as -> by (destruct c; try contradiction; apply ret_Some in E0 as [_ ->]; reflexivity).
    apply C. reflexivity.
  - step E. apply ret_Some in E as [-> ->]. specialize (C eq_refl).
    apply (closes_trans w w0); [exact C|]. exact (ds_connectionAborted_closes _ _ _ _ (proj1 C) E0).
Qed.

(** A call that does not change the handle *)
Lemma drv_neutral q c w rc w' : good w -> c <> DPrepare ->
  (forall r, protocol (handle_of (stmt_of q w)) c r = Some (handle_of (stmt_of q w))) ->
  drv q c w = Some (rc, w') -> closes w w' /\ (rc = false -> forall q', status_of q' w' = status_of q' w).
Proof.
  intros G Np P E. pose proof (drv_spec q c w rc w' G Np (λ r _, P r) E) as S.
  destruct rc; [split; [exact S|discriminate]|]. destruct S as [El Es].
  assert (forall q', status_of q' w' = status_of q' w) as K
    by (intros q'; unfold status_of; rewrite (same_stmts _ _ q' Es); reflexivity).
  split; [|auto]. split; [|left; apply K].
  apply (good_call q c Done w w' G El); [intros; apply same_stmts, Es| |]; rewrite (same_stmts _ _ q Es); [apply P|apply G].
Qed.

(** A call that changes the handle when it succeeds, with the status that
    goes with it *)
Lemma drv_then q c st w w' : good w -> dbi_log w' = dbi_log w ++ [(q, c, Done)] -> stmts w' = stmts w ->
  st <> STMT_IDLE -> st_data (stmt_of q w) = true ->
  protocol (handle_of (stmt_of q w)) c Done = Some (handle_of (set_status st (stmt_of q w))) ->
  good (on_stmt q (set_status st) w') /\
  forall q', status_of q' (on_stmt q (set_status st) w') = if decide (q' = q) then st else status_of q' w.
Proof.
  intros G El Es Ns D P. split.
  - apply (good_call q c Done w (on_stmt q (set_status st) w') G El).
    + intros q' N. rewrite stmt_of_update, decide_False by exact N. apply same_stmts, Es.
    + rewrite stmt_of_update, decide_True by reflexivity. rewrite (same_stmts _ _ q Es). exact P.
    + rewrite stmt_of_update, decide_True by reflexivity. rewrite (same_stmts _ _ q Es). unfold stable. cbn.
      rewrite D. destruct st; [contradiction|reflexivity..].
  - intros q'. unfold status_of. rewrite stmt_of_update. destruct (decide (q' = q)); [reflexivity|].
    rewrite (same_stmts _ _ q' Es). reflexivity.
Qed.

(** The statuses afterwards: the one of [q] is [st], and the other statements
    may have been closed. *)
Definition becomes (q : nat) (st : status) w w' : Prop :=
  good w' /\ status_of q w' = st /\ forall q', q' <> q -> kept q' w w'.

Lemma closes_becomes q st w0 w w' : closes w0 w -> becomes q st w w' -> becomes q st w0 w'.
Proof.
  intros [_ K] (G & E & K'). split; [exact G|]. split; [exact E|]. intros q' N. unfold kept in *.
  destruct (K' q' N) as [->|]; [apply K|auto].
Qed.

Lemma good_data q w : good w -> st_data (stmt_of q w) = negb (bool_decide (status_of q w = STMT_IDLE)).
Proof. intros [_ S]. apply S. Qed.

Lemma good_handle q w : good w -> handle_of (stmt_of q w) =
  match status_of q w with STMT_IDLE => NoHandle | STMT_PREPARED => Prepared | STMT_EXECED => Executed | STMT_DEFINED => Defined end.
Proof.
  intros G. unfold handle_of. rewrite (good_data q w G). unfold status_of. destruct (st_status _); reflexivity.
Qed.

Lemma closeIntern_spec q w rc w' : good w -> closeIntern q w = Some (rc, w') ->
  closes w w' /\ status_of q w' = STMT_IDLE.
Proof.
  intros G E. unfold closeIntern in E. step E. apply gets_Some in E0 as [-> ->].
  destruct (st_data (stmt_of q w)) eqn:D; cbn [negb] in E.
  - step E. apply assert_Some in E0 as [_ ->]. step E. step E. apply ret_Some in E as [_ ->].
    apply modify_Some in E1 as ->. exact (close_one q w a0 w0 (good_good_but q w G) D E0).
  - apply ret_Some in E as [_ ->]. split; [apply closes_refl, G|]. rewrite (good_data q w G) in D.
    apply negb_false_iff, bool_decide_eq_true in D. exact D.
Qed.

Tactic Notation "step" hyp(H) "as" ident(a) ident(w1) ident(E) :=
  apply M_bind_Some in H as (a & w1 & E & H).

(** The preparation fails: a handle that the driver has kept is closed. *)
Lemma prepare_failed q keeps w w1 rc w' : good w -> status_of q w = STMT_IDLE ->
  dbi_log w1 = dbi_log w ++ [(q, DPrepare, Error keeps)] -> stmts w1 = stmts w ->
  closeIntern q (on_stmt q (set_data keeps) w1) = Some (rc, w') -> closes w w' /\ status_of q w' = STMT_IDLE.
Proof.
  intros G St El Es E. pose proof (good_handle q w G) as Hh. rewrite St in Hh.
  assert (st_status (stmt_of q w) = STMT_IDLE) as St' by exact St.
  set (w2 := on_stmt q (set_data keeps) w1) in *.
  assert (stmt_of q w2 = set_data keeps (stmt_of q w)) as Eq.
  { unfold w2. rewrite stmt_of_update, decide_True by reflexivity. rewrite (same_stmts _ _ q Es). reflexivity. }
  assert (forall q', q' <> q -> stmt_of q' w2 = stmt_of q' w) as Eo.
  { intros q' N. unfold w2. rewrite stmt_of_update, decide_False by exact N. apply same_stmts, Es. }
  assert (good_but q w2) as G2.
  { split; intros q'.
    - change (dbi_log w2) with (dbi_log w1). rewrite El, follow_snoc, (proj1 G q'). cbn.
      destruct (Nat.eqb_spec q q') as [<-|N]; [|rewrite Eo by congruence; reflexivity].
      rewrite Hh, Eq. unfold handle_of. cbn. rewrite St'. destruct keeps; reflexivity.
    - intros N. rewrite Eo by exact N. apply G. }
  assert (forall w3, closes w2 w3 -> closes w w3) as C.
  { intros w3 [G3 K]. split; [exact G3|]. intros q'. unfold kept in *. destruct (K q') as [->|]; [|auto].
    left. unfold status_of. destruct (decide (q' = q)) as [->|N]; [rewrite Eq; reflexivity|rewrite Eo by exact N; reflexivity]. }
  unfold closeIntern in E. step E as s w3 E3. apply gets_Some in E3 as [-> ->]. rewrite Eq in E. cbn [st_data set_data] in E.
  destruct keeps; cbn [negb] in E.
  - step E as u w3 E3. apply assert_Some in E3 as [_ ->]. step E as b w4 E4. step E as v w5 E5.
    apply modify_Some in E5 as ->. apply ret_Some in E as [_ ->].
    destruct (close_one q w2 b w4 G2 ltac:(rewrite Eq; reflexivity) E4) as [C4 St4]. split; [apply C, C4|exact St4].
  - apply ret_Some in E as [_ ->].
    assert (good w2) as G2'.
    { split; [apply G2|]. intros q'. destruct (decide (q' = q)) as [->|N]; [|apply G2, N].
      rewrite Eq. unfold stable. cbn. rewrite St'. reflexivity. }
    split; [apply C, closes_refl, G2'|]. unfold status_of. rewrite Eq. exact St.
Qed.

Lemma prepareIntern_spec q w rc w' : good w -> status_of q w = STMT_IDLE -> prepareIntern q w = Some (rc, w') ->
  if rc then closes w w' /\ status_of q w' = STMT_IDLE else becomes q STMT_PREPARED w w'.
Proof.
  intros G St E. pose proof (good_handle q w G) as Hh. rewrite St in Hh.
  unfold prepareIntern in E. step E as b w1 E1. unfold drv in E1.
  step E1 as x w2 E2. apply get_ds_Some in E2 as ->. step E1 as r w2 E2.
  apply answer_Some in E2 as (El & Es & _). destruct r as [|keeps|]; step E1 as u w3 E3; apply ret_Some in E1 as [-> ->].
  - apply modify_Some in E3 as ->. step E as v w4 E4. apply modify_Some in E4 as ->. apply ret_Some in E as [-> ->].
    set (w4 := on_stmt q (set_status STMT_PREPARED) _).
    assert (stmt_of q w4 = set_status STMT_PREPARED (set_data true (stmt_of q w))) as Eq.
    { unfold w4. rewrite stmt_of_update, decide_True, stmt_of_update, decide_True by reflexivity.
      rewrite (same_stmts _ _ q Es). reflexivity. }
    assert (forall q', q' <> q -> stmt_of q' w4 = stmt_of q' w) as Eo.
    { intros q' N. unfold w4. rewrite stmt_of_update, decide_False, stmt_of_update, decide_False by exact N.
      apply same_stmts, Es. }
    split; [|split; [unfold status_of; rewrite Eq; reflexivity|]].
    + apply (good_call q DPrepare Done w w4 G El Eo); rewrite Eq; [rewrite Hh; reflexivity|reflexivity].
    + intros q' N. left. unfold status_of. rewrite Eo by exact N. reflexivity.
  - apply modify_Some in E3 as ->. step E as v w4 E4. apply ret_Some in E as [-> ->].
    exact (prepare_failed q keeps w w2 v w4 G St El Es E4).
  - step E as v w4 E4. apply ret_Some in E as [-> ->].
    assert (good w2) as G2.
    { apply (good_call q DPrepare Lost w w2 G El); [intros; apply same_stmts, Es| |]; rewrite (same_stmts _ _ q Es); [|apply G].
      rewrite Hh. reflexivity. }
    pose proof (ds_connectionAborted_closes _ _ _ _ G2 E3) as C3.
    destruct (closeIntern_spec q w3 v w4 (proj1 C3) E4) as [C4 St4]. split; [|exact St4].
    apply (closes_trans w w3); [|exact C4]. split; [apply C3|]. intros q'. unfold kept, status_of in *.
    pose proof (proj2 C3 q') as K. unfold kept, status_of in K. rewrite (same_stmts _ _ q' Es) in K. exact K.
Qed.

Lemma defineIntern_spec q w rc w' : good w -> status_of q w = STMT_EXECED -> defineIntern q w = Some (rc, w') ->
  if rc then closes w w' else becomes q STMT_DEFINED w w'.
Proof.
  intros G St E. pose proof (good_handle q w G) as Hh. pose proof (good_data q w G) as D. rewrite St in Hh, D.
  unfold defineIntern in E. step E as b w1 E1.
  assert (allowed (handle_of (stmt_of q w)) DDefine) as Al by (rewrite Hh; intros [] [=]; reflexivity).
  pose proof (drv_spec q DDefine w b w1 G ltac:(discriminate) Al E1) as S. destruct b.
  - apply ret_Some in E as [-> ->]. exact S.
  - step E as u w2 E2. apply modify_Some in E2 as ->. apply ret_Some in E as [-> ->]. destruct S as [El Es].
    destruct (drv_then q DDefine STMT_DEFINED w w1 G El Es ltac:(discriminate) D) as [G2 K].
    { rewrite Hh. unfold handle_of, set_status. cbn. rewrite D. reflexivity. }
    split; [exact G2|]. split; [rewrite K, decide_True by reflexivity; reflexivity|].
    intros q' N. left. rewrite K, decide_False by exact N. reflexivity.
Qed.

Lemma exec_with_spec c q w rc w' : c = DExec \/ c = DExecDescribe -> good w ->
  status_of q w = STMT_PREPARED \/ status_of q w = STMT_EXECED -> exec_with c q w = Some (rc, w') ->
  if rc then closes w w' else becomes q STMT_EXECED w w'.
Proof.
  intros Hc G St E. pose proof (good_handle q w G) as Hh. pose proof (good_data q w G) as D.
  assert (st_data (stmt_of q w) = true) as D' by (rewrite D; destruct St as [-> | ->]; reflexivity).
  assert (c <> DPrepare) as Np by (destruct Hc; congruence).
  assert (allowed (handle_of (stmt_of q w)) c) as Al.
  { rewrite Hh. intros r Dr. destruct St as [-> | ->], Hc as [-> | ->]; cbn; rewrite Dr; reflexivity. }
  unfold exec_with in E. step E as b w1 E1. pose proof (drv_spec q c w b w1 G Np Al E1) as S.
  step E as u w2 E2. step E as x w3 E3. apply get_ds_Some in E3 as ->. destruct x as [i d].
  step E as u' w3 E3. apply assert_Some in E3 as [_ ->]. step E as u'' w3 E3. apply modify_Some in E3 as ->.
  apply ret_Some in E as [-> ->]. destruct b.
  - apply ret_Some in E2 as [_ ->]. apply (closes_trans w w1); [exact S|apply closes_helper, S].
  - apply modify_Some in E2 as ->. destruct S as [El Es].
    destruct (drv_then q c STMT_EXECED w w1 G El Es ltac:(discriminate) D') as [G2 K].
    { rewrite Hh. unfold handle_of, set_status. cbn. rewrite D'. destruct St as [-> | ->], Hc as [-> | ->]; reflexivity. }
    split; [exact G2|]. split; [|intros q' N; left].
    + change (status_of q (on_stmt q (set_status STMT_EXECED) w1) = STMT_EXECED). rewrite K, decide_True by reflexivity. reflexivity.
    + change (status_of q' (on_stmt q (set_status STMT_EXECED) w1) = status_of q' w). rewrite K, decide_False by exact N. reflexivity.
Qed.

(** *** The methods *)

(** The other statements may have been closed. *)
Definition others (q : nat) w w' : Prop := good w' /\ forall q', q' <> q -> kept q' w w'.

Lemma closes_others q w w' : closes w w' -> others q w w'.
Proof. intros [G K]. split; [exact G|]. intros q' _. apply K. Qed.

Lemma becomes_others q st w w' : becomes q st w w' -> others q w w'.
Proof. intros (G & _ & K). split; assumption. Qed.

Lemma others_refl q w : good w -> others q w w.
Proof. intros G. apply closes_others, closes_refl, G. Qed.

Lemma others_trans q w1 w2 w3 : others q w1 w2 -> others q w2 w3 -> others q w1 w3.
Proof.
  intros [_ K1] [G K2]. split; [exact G|]. intros q' N. unfold kept in *.
  destruct (K2 q' N) as [->|]; [apply K1, N|auto].
Qed.

Lemma others_good q w w' : others q w w' -> good w'.
Proof. intros [G _]. exact G. Qed.

Create HintDb sql.
#[local] Hint Resolve closes_others others_refl others_trans others_good : sql.
#[local] Hint Extern 1 (others _ _ _) => eapply becomes_others; eassumption : sql.

(** The status that [checkStatus] asks for *)
Definition reached (stat st : status) : Prop := st = stat \/ stat = STMT_PREPARED /\ st = STMT_EXECED.

Lemma checkStatus_steps_spec q stat w rc w' : good w -> stat <> STMT_IDLE -> checkStatus_steps q stat w = Some (rc, w') ->
  others q w w' /\ (rc = false -> reached stat (status_of q w')).
Proof.
  intros G Ni E. unfold checkStatus_steps in E. step E as s w1 E1. apply gets_Some in E1 as [-> ->].
  step E as rc1 w1 E1.
  assert (others q w w1) as O1.
  { destruct (bool_decide _ && _) eqn:B.
    - apply andb_true_iff in B as [B _]. apply bool_decide_eq_true in B.
      pose proof (prepareIntern_spec q w rc1 w1 G B E1) as P. destruct rc1; [apply closes_others, P|exact (becomes_others _ _ _ _ P)].
    - apply ret_Some in E1 as [_ ->]. apply others_refl, G. }
  pose proof (others_good _ _ _ O1) as G1.
  destruct rc1; [apply ret_Some in E as [-> ->]; split; [exact O1|discriminate]|].
  step E as s w2 E2. apply gets_Some in E2 as [-> ->]. fold (status_of q w1) in E.
  destruct (bool_decide (stat = status_of q w1)) eqn:B1.
  { apply bool_decide_eq_true in B1. apply ret_Some in E as [-> ->]. split; [exact O1|]. intros _. left. congruence. }
  assert (forall w2 w3, good w2 -> others q w w2 ->
    (s ← get_stmt q;
     if bool_decide (stat = st_status s) then mret false
     else match stat, st_status s with STMT_DEFINED, STMT_EXECED => defineIntern q | _, _ => mret true end) w2
    = Some (rc, w3) -> others q w w3 /\ (rc = false -> reached stat (status_of q w3))) as Last.
  { intros w2 w3 G2 O2 E2. step E2 as s w4 E4. apply gets_Some in E4 as [-> ->]. fold (status_of q w2) in E2.
    destruct (bool_decide (stat = status_of q w2)) eqn:B2.
    { apply bool_decide_eq_true in B2. apply ret_Some in E2 as [-> ->]. split; [exact O2|]. intros _. left. congruence. }
    destruct stat, (status_of q w2) eqn:S2; try (apply ret_Some in E2 as [-> ->]; split; [exact O2|discriminate]).
    pose proof (defineIntern_spec q w2 rc w3 G2 S2 E2) as P. destruct rc.
    - split; [apply (others_trans _ _ w2); [exact O2|apply closes_others, P]|discriminate].
    - split; [apply (others_trans _ _ w2); [exact O2|exact (becomes_others _ _ _ _ P)]|]. intros _. left. apply P. }
  assert (forall w3, (rc2 ← execIntern q;
     if rc2 : bool then mret true
     else
       s ← get_stmt q;
       if bool_decide (stat = st_status s) then mret false
       else match stat, st_status s with STMT_DEFINED, STMT_EXECED => defineIntern q | _, _ => mret true end) w1
    = Some (rc, w3) -> status_of q w1 = STMT_PREPARED -> others q w w3 /\ (rc = false -> reached stat (status_of q w3))) as Exec.
  { intros w3 E3 S1. step E3 as rc2 w4 E4.
    pose proof (exec_with_spec DExec q w1 rc2 w4 (or_introl eq_refl) G1 (or_introl S1) E4) as P. destruct rc2.
    - apply ret_Some in E3 as [-> ->]. split; [|discriminate]. apply (others_trans _ _ w1); [exact O1|apply closes_others, P].
    - apply (Last w4 w3); [apply P|apply (others_trans _ _ w1); [exact O1|exact (becomes_others _ _ _ _ P)]|exact E3]. }
  destruct stat, (status_of q w1) eqn:S1; try congruence; try discriminate;
    try (apply Exec; [exact E|reflexivity]);
    try (step E as rc3 w3 E3; apply ret_Some in E3 as [-> ->]; exact (Last w1 w' G1 O1 E)).
  - apply ret_Some in E as [-> ->]. split; [exact O1|]. intros _. right. auto.
  - step E as rc3 w3 E3. destruct (closeIntern_spec q w1 rc3 w3 G1 E3) as [C3 S3].
    assert (others q w w3) as O3 by (apply (others_trans _ _ w1); [exact O1|apply closes_others, C3]).
    destruct rc3; [apply ret_Some in E as [-> ->]; split; [exact O3|discriminate]|].
    pose proof (prepareIntern_spec q w3 rc w' (proj1 C3) S3 E) as P. destruct rc.
    + split; [apply (others_trans _ _ w3); [exact O3|apply closes_others, P]|discriminate].
    + split; [apply (others_trans _ _ w3); [exact O3|exact (becomes_others _ _ _ _ P)]|]. intros _. left. apply P.
Qed.

Lemma checkStatus_spec ed dsc q stat w rc cl w' : good w -> (ed && dsc = true -> st_sql (stmt_of q w) = true) ->
  checkStatus ed dsc q stat w = Some ((rc, cl), w') ->
  others q w w' /\ (rc = false -> reached stat (status_of q w')).
Proof.
  intros G Hd E. unfold checkStatus in E. step E as s w1 E1. apply gets_Some in E1 as [-> ->]. fold (status_of q w) in E.
  destruct (bool_decide (stat = status_of q w)) eqn:B.
  { apply bool_decide_eq_true in B. apply ret_Some in E as [[= -> ->] ->]. split; [apply others_refl, G|].
    intros _. left. congruence. }
  destruct (bool_decide (stat = STMT_IDLE)) eqn:B0.
  { apply bool_decide_eq_true in B0 as ->. step E as rc1 w1 E1. apply ret_Some in E as [[= -> ->] ->].
    destruct (closeIntern_spec q w rc1 w1 G E1) as [C S]. split; [apply closes_others, C|]. intros _. left. exact S. }
  apply bool_decide_eq_false in B0.
  destruct (_ && _ && _ && _) eqn:B1.
  2: { step E as rc1 w1 E1. apply ret_Some in E as [[= -> ->] ->]. exact (checkStatus_steps_spec q stat w rc1 w1 G B0 E1). }
  apply andb_true_iff in B1 as [B1 ->]. apply andb_true_iff in B1 as [B1 ->]. apply andb_true_iff in B1 as [B1 B2].
  apply bool_decide_eq_true in B1 as ->. apply Z.ltb_lt in B2. rewrite (Hd eq_refl), andb_true_r in E.
  step E as rc1 w1 E1.
  assert (others q w w1 /\ (rc1 = false -> status_of q w1 = STMT_PREPARED)) as [O1 S1].
  { destruct (bool_decide (status_of q w = STMT_IDLE)) eqn:B3.
    - apply bool_decide_eq_true in B3. pose proof (prepareIntern_spec q w rc1 w1 G B3 E1) as P. destruct rc1.
      + split; [apply closes_others, P|discriminate].
      + split; [exact (becomes_others _ _ _ _ P)|]. intros _. apply P.
    - apply bool_decide_eq_false in B3. apply ret_Some in E1 as [_ ->]. split; [apply others_refl, G|]. intros _.
      destruct (status_of q w); try congruence; discriminate. }
  pose proof (others_good _ _ _ O1) as G1.
  destruct rc1; [apply ret_Some in E as [[= -> ->] ->]; split; [exact O1|discriminate]|].
  step E as rc2 w2 E2.
  pose proof (exec_with_spec DExecDescribe q w1 rc2 w2 (or_intror eq_refl) G1 (or_introl (S1 eq_refl)) E2) as P. destruct rc2.
  { apply ret_Some in E as [[= -> ->] ->]. split; [|discriminate].
    apply (others_trans _ _ w1); [exact O1|apply closes_others, P]. }
  pose proof (others_trans _ _ _ _ O1 (becomes_others _ _ _ _ P)) as O2. destruct P as (G2 & S2 & _).
  step E as rc3 w3 E3. apply ret_Some in E as [[= -> ->] ->].
  pose proof (defineIntern_spec q w2 rc3 w3 G2 S2 E3) as P. destruct rc3.
  - split; [|discriminate]. apply (others_trans _ _ w2); [exact O2|apply closes_others, P].
  - split; [apply (others_trans _ _ w2); [exact O2|exact (becomes_others _ _ _ _ P)]|]. intros _. left. apply P.
Qed.

(** A method that asks for a status and makes a call: [Q] is what the call
    leads to. *)
Lemma checked_spec ed dsc q stat body w rc cl w' (Q : status -> Prop) :
  good w -> (ed && dsc = true -> st_sql (stmt_of q w) = true) ->
  (forall w1 rc w2, good w1 -> reached stat (status_of q w1) -> body w1 = Some (rc, w2) ->
     others q w1 w2 /\ (rc = false -> Q (status_of q w2))) ->
  checked ed dsc q stat body w = Some ((rc, cl), w') -> others q w w' /\ (rc = false -> Q (status_of q w')).
Proof.
  intros G Hd B E. unfold checked in E. step E as x w1 E1. destruct x as [rc1 cl1].
  destruct (checkStatus_spec ed dsc q stat w rc1 cl1 w1 G Hd E1) as [O1 R1]. cbn [fst snd] in E. destruct rc1.
  - apply ret_Some in E as [[= -> ->] ->]. split; [exact O1|discriminate].
  - step E as rc2 w2 E2. apply ret_Some in E as [[= -> ->] ->].
    destruct (B w1 rc2 w2 (others_good _ _ _ O1) (R1 eq_refl) E2) as [O2 Q2].
    split; [exact (others_trans _ _ _ _ O1 O2)|exact Q2].
Qed.

(** The calls that have their place at a status and do not change it *)
Lemma drv_reached stat c q w rc w' : good w -> reached stat (status_of q w) ->
  match stat with
  | STMT_PREPARED => is_bind c | STMT_EXECED => is_result c | STMT_DEFINED => is_fetch c || match c with DNext | DDescribe => true | _ => false end
  | STMT_IDLE => false
  end = true ->
  drv q c w = Some (rc, w') -> others q w w' /\ (rc = false -> reached stat (status_of q w')).
Proof.
  intros G R A E. pose proof (good_handle q w G) as Hh.
  destruct (drv_neutral q c w rc w' G) as [C K]; [|intros r; rewrite Hh|exact E|].
  - destruct stat, c; discriminate.
  - destruct R as [-> | [-> ->]]; [destruct stat|]; destruct c; try discriminate; reflexivity.
  - split; [apply closes_others, C|]. intros ->. rewrite (K eq_refl q). exact R.
Qed.

(** The status of a statement behind a method that returned [v] without an
    error *)
Definition status_after (m : smethod) (v : bool) (st : status) : Prop :=
  match m with
  | SPrepare _ _ => v = false -> st = STMT_IDLE
  | SBind _ => v = false -> st = STMT_PREPARED \/ st = STMT_EXECED
  | SExec _ | SResult _ => v = false -> st = STMT_EXECED
  | SNext _ => v = true -> st = STMT_DEFINED
  | SFetch _ | SDescribe => v = false -> st = STMT_DEFINED
  | SClose | SCommit | SRollback => st = STMT_IDLE
  | _ => True
  end.

Lemma endIntern_closes q o w rc w' : good w -> endIntern q o w = Some (rc, w') -> closes w w'.
Proof.
  intros G E. unfold endIntern in E. step E as x w1 E1. apply get_ds_Some in E1 as ->. destruct x as [i d].
  step E as u w1 E1. apply assert_Some in E1 as [_ ->]. step E as v w1 E1. apply modify_Some in E1 as ->.
  step E as z w1 E1. apply ret_Some in E as [_ ->]. set (w0 := on_helper _ w) in *.
  assert (closes w w0) as C0 by (apply closes_helper, G).
  destruct o; try (apply ret_Some in E1 as [_ ->]; exact C0).
  apply (closes_trans w w0); [exact C0|]. exact (ds_connectionAborted_closes _ _ _ _ (proj1 C0) E1).
Qed.

Lemma begin_on_closes q o w rc w' : good w -> begin_on q o w = Some (rc, w') -> closes w w'.
Proof.
  intros G E. unfold begin_on in E. step E as x w1 E1. apply get_ds_Some in E1 as ->. destruct x as [i d].
  destruct (autocommit d); [apply ret_Some in E as [_ ->]; apply closes_refl, G|]. destruct o.
  - step E as u w1 E1. apply ret_Some in E as [_ ->].
    destruct (in_transaction d); [apply ret_Some in E1 as [_ ->]; apply closes_refl, G|].
    step E1 as v w2 E2. apply assert_Some in E2 as [_ ->]. apply modify_Some in E1 as ->. apply closes_helper, G.
  - apply ret_Some in E as [_ ->]. apply closes_refl, G.
  - step E as u w1 E1. apply ret_Some in E as [_ ->]. exact (ds_connectionAborted_closes _ _ _ _ G E1).
Qed.

Lemma quiet_valid b : quiet_change (set_validp b).
Proof. intros s. split; reflexivity. Qed.
Lemma quiet_sql a b : quiet_change (set_sql a b).
Proof. intros s. split; reflexivity. Qed.
Lemma quiet_ds d : quiet_change (set_st_ds d).
Proof. intros s. split; reflexivity. Qed.

Lemma others_update q q' f w w' : quiet_change f -> others q w w' ->
  others q w (on_stmt q' f w') /\ forall q1, status_of q1 (on_stmt q' f w') = status_of q1 w'.
Proof.
  intros F O. destruct (good_update q' f w' F (others_good _ _ _ O)) as [G E]. split; [|exact E].
  apply (others_trans _ _ w'); [exact O|]. split; [exact G|]. intros q1 _. left. apply E.
Qed.

Lemma status_reached stat st : stat <> STMT_PREPARED -> reached stat st -> st = stat.
Proof. intros N [E|[E _]]; congruence. Qed.

Lemma method_body_spec ed m o q nt w v cl w' : good w -> method_ok m = true ->
  (m = SDescribe -> ed = true -> st_sql (stmt_of q w) = true) ->
  method_body ed m o q nt w = Some ((v, cl), w') -> others q w w' /\ status_after m v (status_of q w').
Proof.
  intros G Mo Hd E. assert (forall d, ed && false = true -> st_sql (stmt_of q w) = d) as Nd by (destruct ed; discriminate).
  destruct m as [raw ne|c|args|c|more| |c| | | | | | |]; cbn [method_body method_ok status_after] in *.
  - step E as x w1 E1. destruct x as [rc cl1]. destruct (checkStatus_spec _ _ _ _ _ _ _ _ G (Nd _) E1) as [O1 R1].
    cbn [fst snd] in E. destruct rc.
    + apply ret_Some in E as [[= -> ->] ->]. split; [exact O1|discriminate].
    + step E as u w2 E2. apply modify_Some in E2 as ->. apply ret_Some in E as [[= -> ->] ->].
      destruct (others_update q q (set_sql ne raw) w w1 (quiet_sql ne raw) O1) as [O2 K]. split; [exact O2|].
      intros _. rewrite K. apply status_reached; [discriminate|apply R1; reflexivity].
  - apply (checked_spec ed false q STMT_PREPARED (drv q c) w v cl w' (λ st, st = STMT_PREPARED \/ st = STMT_EXECED) G (Nd _)); [|exact E].
    intros w1 rc w2 G1 R1 E1. destruct (drv_reached STMT_PREPARED c q w1 rc w2 G1 R1 Mo E1) as [O R].
    split; [exact O|]. intros F. destruct (R F) as [|[_ ?]]; auto.
  - unfold exec in E. step E as s w1 E1. apply gets_Some in E1 as [-> ->].
    destruct (negb (st_sql _)); [apply ret_Some in E as [[= -> ->] ->]; split; [apply others_refl, G|discriminate]|].
    refine (checked_spec ed false q STMT_PREPARED _ w v cl w' (λ st, st = STMT_EXECED) G (Nd _) _ E).
    intros w1 rc w2 G1 R1 E1. step E1 as rc1 w3 E3.
    assert (others q w1 w3 /\ (rc1 = false -> reached STMT_PREPARED (status_of q w3))) as [O3 R3].
    { destruct args; [exact (drv_reached STMT_PREPARED DBind q w1 rc1 w3 G1 R1 eq_refl E3)|].
      apply ret_Some in E3 as [-> ->]. split; [apply others_refl, G1|auto]. }
    destruct rc1; [apply ret_Some in E1 as [-> ->]; split; [exact O3|discriminate]|].
    assert (status_of q w3 = STMT_PREPARED \/ status_of q w3 = STMT_EXECED) as S3 by (destruct (R3 eq_refl) as [|[_ ?]]; auto).
    pose proof (exec_with_spec DExec q w3 rc w2 (or_introl eq_refl) (others_good _ _ _ O3) S3 E1) as P.
    destruct rc; [split; [apply (others_trans _ _ w3); [exact O3|apply closes_others, P]|discriminate]|].
    split; [apply (others_trans _ _ w3); [exact O3|exact (becomes_others _ _ _ _ P)]|]. intros _. apply P.
  - apply (checked_spec ed false q STMT_EXECED (drv q c) w v cl w' (λ st, st = STMT_EXECED) G (Nd _)); [|exact E].
    intros w1 rc w2 G1 R1 E1. destruct (drv_reached STMT_EXECED c q w1 rc w2 G1 R1 Mo E1) as [O R].
    split; [exact O|]. intros F. apply status_reached; [discriminate|exact (R F)].
  - unfold next in E. step E as x w1 E1. destruct x as [rc cl1]. step E as u w2 E2. apply modify_Some in E2 as ->.
    apply ret_Some in E as [[= -> ->] ->]. cbn [fst snd].
    destruct (checked_spec ed false q STMT_DEFINED (drv q DNext) w rc cl1 w1 (λ st, st = STMT_DEFINED) G (Nd _)) as [O1 Q1].
    { intros w2 rc2 w3 G2 R2 E2. destruct (drv_reached STMT_DEFINED DNext q w2 rc2 w3 G2 R2 eq_refl E2) as [O R].
      split; [exact O|]. intros F. apply status_reached; [discriminate|exact (R F)]. }
    { exact E1. }
    destruct (others_update q q (set_validp (negb rc && more)) w w1 (quiet_valid _) O1) as [O2 K]. split; [exact O2|].
    intros V. apply andb_true_iff in V as [V _]. apply negb_true_iff in V. rewrite K. exact (Q1 V).
  - step E as x w1 E1. destruct x as [rc cl1]. destruct (checkStatus_spec _ _ _ _ _ _ _ _ G (Nd _) E1) as [O1 R1].
    cbn [fst snd] in E. split; [|exact I]. destruct rc; [apply ret_Some in E as [_ ->]; exact O1|].
    step E as rc2 w2 E2. apply ret_Some in E as [_ ->].
    pose proof (defineIntern_spec q w1 rc2 w2 (others_good _ _ _ O1) (status_reached STMT_EXECED _ ltac:(discriminate) (R1 eq_refl)) E2) as P.
    apply (others_trans _ _ w1); [exact O1|]. destruct rc2; [apply closes_others, P|exact (becomes_others _ _ _ _ P)].
  - apply (checked_spec ed false q STMT_DEFINED (drv q c) w v cl w' (λ st, st = STMT_DEFINED) G (Nd _)); [|exact E].
    intros w1 rc w2 G1 R1 E1. destruct (drv_reached STMT_DEFINED c q w1 rc w2 G1 R1) as [O R]; [rewrite Mo; reflexivity|exact E1|].
    split; [exact O|]. intros F. apply status_reached; [discriminate|exact (R F)].
  - apply (checked_spec ed true q STMT_DEFINED (drv q DDescribe) w v cl w' (λ st, st = STMT_DEFINED) G); [|
      |exact E]; [rewrite andb_true_r; exact (Hd eq_refl)|].
    intros w1 rc w2 G1 R1 E1. destruct (drv_reached STMT_DEFINED DDescribe q w1 rc w2 G1 R1 eq_refl E1) as [O R].
    split; [exact O|]. intros F. apply status_reached; [discriminate|exact (R F)].
  - step E as rc w1 E1. apply ret_Some in E as [_ ->]. destruct (closeIntern_spec q w rc w1 G E1) as [C S].
    split; [apply closes_others, C|exact S].
  - step E as rc w1 E1. destruct (closeIntern_spec q w rc w1 G E1) as [C S]. step E as rc2 w2 E2.
    apply ret_Some in E as [_ ->]. pose proof (endIntern_closes q o w1 rc2 w2 (proj1 C) E2) as C2.
    split; [apply closes_others, (closes_trans w w1); assumption|]. destruct (proj2 C2 q); congruence.
  - step E as rc w1 E1. destruct (closeIntern_spec q w rc w1 G E1) as [C S]. step E as rc2 w2 E2.
    apply ret_Some in E as [_ ->]. pose proof (endIntern_closes q o w1 rc2 w2 (proj1 C) E2) as C2.
    split; [apply closes_others, (closes_trans w w1); assumption|]. destruct (proj2 C2 q); congruence.
  - step E as rc w1 E1. apply ret_Some in E as [_ ->]. split; [|exact I]. apply closes_others. exact (begin_on_closes q o w rc w1 G E1).
  - apply ret_Some in E as [_ ->]. split; [apply others_refl, G|exact I].
  - step E as s w1 E1. apply gets_Some in E1 as [-> ->]. apply ret_Some in E as [_ ->]. split; [apply others_refl, G|exact I].
Qed.

(** *** Whole calls *)

Lemma end_action_closes t oc wk cmd nt w d w' : good w -> end_action t oc wk cmd nt w = Some (d, w') -> closes w w'.
Proof.
  intros G E. unfold end_action in E. step E as x w1 E1. apply lookup_Some in E1 as [_ ->]. destruct x as [[h d'] done].
  step E as u w1 E1. apply modify_Some in E1 as ->. step E as v w1 E1. apply ret_Some in E as [_ ->].
  apply (closes_trans w (on_helper (λ _, h) w)); [apply closes_helper, G|].
  exact (all_done_closes _ _ _ _ _ _ (good_helper _ _ G) E1).
Qed.

Lemma end_helper_closes t oc wk q cmd nt close w u w' : good w ->
  end_helper t oc wk q cmd nt close w = Some (u, w') -> closes w w'.
Proof.
  intros G E. unfold end_helper in E. step E as s w1 E1. apply gets_Some in E1 as [-> ->].
  destruct (st_ds (stmt_of q w)); [|apply ret_Some in E as [_ ->]; apply closes_refl, G].
  step E as u1 w1 E1.
  assert (closes w w1) as C1.
  { destruct close; [|apply ret_Some in E1 as [_ ->]; apply closes_refl, G].
    step E1 as x w2 E2. apply get_ds_Some in E2 as ->. step E1 as v w2 E2. apply assert_Some in E2 as [_ ->].
    step E1 as rc w2 E2. apply ret_Some in E1 as [_ ->]. apply (closeIntern_spec q w rc w2 G E2). }
  step E as x w2 E2. apply get_ds_Some in E2 as ->. destruct x as [i d].
  set (cmd' := if _ : bool then DAH_RELEASE else cmd) in E. step E as v w2 E2.
  assert (closes w w2) as C2.
  { apply (closes_trans w w1); [exact C1|]. destruct cmd'; try (apply ret_Some in E2 as [_ ->]; apply closes_refl, C1).
    apply modify_Some in E2 as ->. apply closes_helper, C1. }
  step E as d' w3 E3. pose proof (end_action_closes _ _ _ _ _ _ _ _ (proj1 C2) E3) as C3.
  step E as z w4 E4. apply modify_Some in E4 as ->. apply assert_Some in E as [_ ->].
  apply (closes_trans w w2); [exact C2|]. apply (closes_trans w2 w3); [exact C3|].
  apply closes_update; [apply quiet_ds|apply C3].
Qed.

Lemma method_invalid_closes m q w v w' : good w -> method_invalid m q w = Some (v, w') -> closes w w'.
Proof.
  intros G E. destruct m; cbn [method_invalid] in E; try (apply ret_Some in E as [_ ->]; apply closes_refl, G).
  step E as u w1 E1. apply modify_Some in E1 as ->. apply ret_Some in E as [_ ->]. apply closes_update; [apply quiet_valid|exact G].
Qed.

Lemma call_method_good ed t q m r o oc wk w res w' : good w -> method_ok m = true ->
  (m = SDescribe -> ed = true -> st_sql (stmt_of q w) = true) ->
  call_method ed t q m r o oc wk w = Some (res, w') -> good w'.
Proof.
  intros G Mo Hd E. unfold call_method, with_action in E. step E as h w1 E1. apply gets_Some in E1 as [-> ->].
  destruct (helperStartAction t r (helper w)) as [| |h newds nt exc] eqn:Es.
  - apply ret_Some in E as [_ ->]. exact G.
  - step E as u w1 E1. apply assert_Some in E1 as [[=] _].
  - step E as u w1 E1. apply modify_Some in E1 as ->. step E as s w1 E1. apply gets_Some in E1 as [-> ->].
    set (w0 := on_helper (λ _, h) w) in *. assert (good w0) as G0 by (apply good_helper, G).
    destruct (match newds with Some i => _ | None => false end).
    + step E as d w1 E1. step E as v w2 E2. apply ret_Some in E as [_ ->].
      pose proof (end_action_closes _ _ _ _ _ _ _ _ G0 E1) as [G1 _]. apply (method_invalid_closes m q w1 v w2 G1 E2).
    + step E as u1 w1 E1. apply assert_Some in E1 as [_ ->]. step E as u2 w1 E1.
      assert (good w1 /\ forall q, stmt_of q w1 = stmt_of q w) as [G1 S1].
      { destruct newds as [i|], (st_ds (stmt_of q w0)); try (apply ret_Some in E1 as [_ ->]; split; [exact G0|reflexivity]).
        unfold add_statement in E1. step E1 as d w2 E2. apply lookup_Some in E2 as [_ ->].
        step E1 as u3 w2 E2. apply assert_Some in E2 as [_ ->]. apply modify_Some in E1 as ->. split; [apply good_helper, G0|reflexivity]. }
      step E as u3 w2 E2. apply modify_Some in E2 as ->. set (w2 := on_stmt q (set_st_ds newds) w1) in *.
      destruct (good_update q (set_st_ds newds) w1 (quiet_ds newds) G1) as [G2 _].
      destruct newds as [i|].
      2: { step E as v w3 E3. apply ret_Some in E as [_ ->]. apply (method_invalid_closes m q w2 v w3 G2 E3). }
      step E as x w3 E3. destruct x as [v cl]. step E as u4 w4 E4. apply ret_Some in E as [_ ->].
      assert (m = SDescribe -> ed = true -> st_sql (stmt_of q w2) = true) as Hd2.
      { intros -> He. unfold w2. rewrite stmt_of_update, decide_True by reflexivity. cbn. rewrite S1. auto. }
      destruct (method_body_spec ed m o q nt w2 v cl w3 G2 Mo Hd2 E3) as [O3 _].
      apply (end_helper_closes _ _ _ _ _ _ _ _ _ _ (others_good _ _ _ O3) E4).
Qed.

Lemma good_script l w : good w -> good (mkWorld (helper w) (stmts w) l (dbi_log w)).
Proof. exact (λ G, G). Qed.

Lemma deref_good q w u w' : good w -> deref q w = Some (u, w') -> good w'.
Proof.
  intros G E. unfold deref in E. step E as rc w1 E1. destruct (closeIntern_spec q w rc w1 G E1) as [[G1 _] S1].
  step E as s w2 E2. apply gets_Some in E2 as [-> ->]. step E as v w2 E2.
  assert (good w2 /\ stmts w2 = stmts w1 /\ dbi_log w2 = dbi_log w1) as (G2 & Es & _).
  { destruct (st_ds _); [|apply ret_Some in E2 as [_ ->]; auto].
    step E2 as d w3 E3. apply lookup_Some in E3 as [_ ->]. apply modify_Some in E2 as ->. auto. }
  step E as z w3 E3. apply assert_Some in E3 as [D ->]. apply modify_Some in E as ->.
  apply negb_true_iff in D.
  assert (forall q', q' <> q -> stmt_of q' (mkWorld (helper w2) (delete q (stmts w2)) (script w2) (dbi_log w2)) = stmt_of q' w2) as Eo.
  { intros q' N. unfold stmt_of. cbn. rewrite lookup_delete_ne by congruence. reflexivity. }
  assert (stmt_of q (mkWorld (helper w2) (delete q (stmts w2)) (script w2) (dbi_log w2)) = new_stmt) as Eq.
  { unfold stmt_of. cbn. rewrite lookup_delete_eq. reflexivity. }
  destruct G2 as [L S]. split; intros q'; (destruct (decide (q' = q)) as [->|N]; [rewrite Eq|rewrite Eo by exact N]);
    [| |reflexivity|apply S].
  - cbn. rewrite (L q). rewrite (same_stmts _ _ q Es). unfold handle_of. rewrite D. reflexivity.
  - cbn. apply L.
Qed.

(** The SQL of a statement is set before it is described. *)
Definition proper (e : sevent (H := H)) w : Prop :=
  match e with
  | CallMethod true _ q SDescribe _ _ _ _ _ => st_sql (stmt_of q w) = true
  | _ => True
  end.

Inductive sreach : world (H := H) -> Prop :=
  | sreach_start h : sreach (mkWorld h ∅ [] [])
  | sreach_step e w w' : sreach w -> proper e w -> run_sevent e w = Some (tt, w') -> sreach w'.

Lemma sreach_good w : sreach w -> good w.
Proof.
  induction 1 as [h|e w w' _ G P E].
  - split; intros q; unfold stmt_of; cbn; rewrite lookup_empty; reflexivity.
  - destruct e as [q|ed t q m r o oc wk l|q l|i clear close l|h]; cbn [run_sevent] in E.
    + step E as x w1 E1. apply gets_Some in E1 as [-> ->]. step E as u w1 E1. apply assert_Some in E1 as [N ->].
      apply bool_decide_eq_true in N. apply modify_Some in E as ->.
      assert (forall q', stmt_of q' (mkWorld (helper w) (<[q := new_stmt]> (stmts w)) (script w) (dbi_log w)) = stmt_of q' w) as Eq.
      { intros q'. unfold stmt_of. cbn. destruct (decide (q = q')) as [<-|Nq]; [rewrite lookup_insert_eq, N; reflexivity|].
        rewrite lookup_insert_ne by exact Nq. reflexivity. }
      destruct G as [L S]. split; intros q'; rewrite Eq; [apply L|apply S].
    + step E as x w1 E1. apply gets_Some in E1 as [-> ->]. step E as u w1 E1. apply assert_Some in E1 as [B ->].
      apply andb_true_iff in B as [_ Mo]. step E as res w1 E1. apply ret_Some in E as [_ ->].
      unfold with_script in E1. step E1 as u2 w2 E2. apply modify_Some in E2 as ->.
      apply (call_method_good ed t q m r o oc wk _ res w1 (good_script l w G) Mo); [|exact E1].
      intros -> ->. exact P.
    + unfold with_script in E. step E as u2 w2 E2. apply modify_Some in E2 as ->. exact (deref_good q _ _ _ (good_script l w G) E).
    + unfold with_script in E. step E as u2 w2 E2. apply modify_Some in E2 as ->.
      apply (ds_transactionDone_closes _ _ _ _ _ _ (good_script l w G) E).
    + apply modify_Some in E as ->. exact G.
Qed.

(** Runs without a description of a statement that is not executed *)
Lemma sreach_run es : forall w w',
  forallb (λ e, match e with CallMethod true _ _ SDescribe _ _ _ _ _ => false | _ => true end) es = true ->
  sreach w -> run_sevents es w = Some w' -> sreach w'.
Proof.
  induction es as [|e es IH]; intros w w' P R E; cbn [run_sevents] in E; [injection E as <-; exact R|].
  cbn [forallb] in P. apply andb_true_iff in P as [Pe P].
  destruct (run_sevent e w) as [[[] w1]|] eqn:E1; [|discriminate].
  apply (IH w1 w' P); [|exact E]. apply (sreach_step e w w1 R); [|exact E1].
  destruct e as [|ed t q m| | |]; try exact I. destruct ed, m; try exact I; discriminate.
Qed.

(** C30: In every run without failed assertions, in which the SQL of a statement is set before it is described
    ([describe_without_sql] of SqlHelpers.v shows that this is needed), the driver sees the calls for each
    statement in the order of its protocol, whatever methods of whatever statements are called in whatever
    threads, however the driver answers and whenever connections are lost: a statement is prepared once,
    executed after that, defined after that, fetched from after that, and what was prepared is closed once.
    The status of the statement is what the driver knows of it. *)
Theorem statement_protocol w q : sreach w ->
  follow q NoHandle (dbi_log w) =
  Some (match st_status (stmt_of q w) with
        | STMT_IDLE => NoHandle | STMT_PREPARED => Prepared | STMT_EXECED => Executed | STMT_DEFINED => Defined end).
Proof.
  intros G%sreach_good. rewrite (proj1 G q). f_equal. exact (good_handle q w G).
Qed.

(** A method brings a statement to its status: [exec] leaves it executed, [next] and the fetches defined,
    [commit], [rollback] and [close] idle, also when they fail; and another statement stays as it is or is
    closed. *)
Theorem statement_status ed m o q nt w v cl w' : sreach w -> method_ok m = true ->
  (m = SDescribe -> ed = true -> st_sql (stmt_of q w) = true) ->
  method_body ed m o q nt w = Some ((v, cl), w') ->
  status_after m v (st_status (stmt_of q w')) /\
  forall q', q' <> q -> st_status (stmt_of q' w') = st_status (stmt_of q' w) \/ st_status (stmt_of q' w') = STMT_IDLE.
Proof.
  intros G%sreach_good Mo Hd E. destruct (method_body_spec ed m o q nt w v cl w' G Mo Hd E) as [[_ K] S].
  split; [exact S|exact K].
Qed.
End Protocol.

(** ** The theorems on concrete runs *)

(** A thread prepares, executes and reads a statement of a datasource with a
    lock; the second row comes with the loss of the connection. *)
Definition select_two : list (sevent (H := ManagedDatasource.state)) :=
  let call m l := CallMethod false 1 7 m (mkReply false OpenOk None) DrvOk DrvOk None l in
  [NewStatement 7; call (SPrepare false true) []; call (SExec true) [Done; Done; Done]; call (SNext true) [Done; Done];
   call (SFetch DFetchRow) [Done]].

Lemma statement_protocol_witness :
  follow 7 NoHandle [(7%nat, DPrepare, Done); (7%nat, DBind, Done); (7%nat, DExec, Done); (7%nat, DDefine, Done);
                     (7%nat, DNext, Done); (7%nat, DFetchRow, Done)] = Some Defined.
Proof.
  destruct (run_sevents select_two (mkWorld (start false) ∅ [] [])) as [w|] eqn:E; [|vm_compute in E; discriminate].
  pose proof (statement_protocol w 7 (sreach_run select_two _ w eq_refl (sreach_start _) E)) as P.
  vm_compute in E. injection E as <-. exact P.
Defined.

Lemma statement_status_witness : exists w w' : world (H := ManagedDatasource.state), sreach w /\
  method_body false (SNext true) DrvOk 7 false w = Some ((true, false), w') /\ st_status (stmt_of 7 w') = STMT_DEFINED.
Proof.
  destruct (run_sevents (firstn 3 select_two) (mkWorld (start false) ∅ [] [])) as [w|] eqn:E; [|vm_compute in E; discriminate].
  pose proof (sreach_run (firstn 3 select_two) _ w eq_refl (sreach_start _) E) as R.
  destruct (method_body false (SNext true) DrvOk 7 false w) as [[[v cl] w']|] eqn:E2;
    [|vm_compute in E; injection E as <-; vm_compute in E2; discriminate].
  exists w, w'. pose proof (statement_status false (SNext true) DrvOk 7 false w v cl w' R eq_refl ltac:(discriminate) E2) as [S _].
  vm_compute in E. injection E as <-. split; [exact R|]. vm_compute in E2. injection E2 as <- <- <-. split; [reflexivity|].
  apply S. reflexivity.
Defined.
