(* ===== verification/SqlHelpers.v ===== *)
(** * Statements give their datasources back

    What the objects that have datasources promise to a statement, as laws of
    the interface; that the transaction lock and the pool keep them; and what
    follows for the calls of statements: no call that should leave a thread
    without a datasource leaves it with one. *)

From S2P Require Import Prelude DatasourcePool ManagedDatasource ManagedSpec.
From S2P Require Import SqlStatement SqlSpec.

#[local] Open Scope Z_scope.

Class HelperLaws (H : Type) {HH : DatasourceStatementHelper H} := {
  (* the thread has a datasource *)
  owns : H -> nat -> Prop;
  owns_set_ds i d h t : owns (helper_set_ds i d h) t <-> owns h t;
  start_none t r h h' nt exc : helperStartAction t r h = Started h' None nt exc -> ~ owns h' t;
  start_new t r h h' i nt exc : helperStartAction t r h = Started h' (Some i) nt exc -> ~ owns h t -> nt = true;
  start_owns t r h h' i nt exc : helperStartAction t r h = Started h' (Some i) nt exc -> owns h' t;
  end_release t nt oc wk h h' d done : helperEndAction t DAH_RELEASE nt oc wk h = Some (h', d, done) -> ~ owns h' t }.

(** ** The two helpers *)

Lemma forceRelease_free w s s' : forceReleaseLockIntern w s = Some s' -> tid (managed s') = None.
Proof.
  unfold forceReleaseLockIntern. cbn. destruct (waiting_threads _ =? 0)%nat.
  - destruct w; [discriminate|]. intros [= <-]. reflexivity.
  - intros (-> & _)%cond_signal_spec. reflexivity.
Qed.

#[export] Program Instance managed_laws : HelperLaws ManagedDatasource.state := {
  owns s t := tid (managed s) = Some t }.
Next Obligation. reflexivity. Qed.
Next Obligation.
  intros t r s s' nt exc. cbn. unfold managed_startAction. cbn. destruct (bool_decide (tid (managed s) = Some t)) eqn:Hd; cbn [negb andb].
  - destruct (isopen _); [discriminate|]. destruct (open _ _) as [[d rc] e]. destruct (_ || e); discriminate.
  - apply bool_decide_eq_false in Hd. destruct (bool_decide (tid (managed s) = None)); cbn [negb].
    + destruct (isopen _); [discriminate|]. destruct (open _ _) as [[d rc] e]. destruct (_ || e); [|discriminate].
      destruct (forceReleaseLockIntern _ _) as [s1|] eqn:Ef; [|discriminate]. intros [= <- _ _].
      rewrite (forceRelease_free _ _ _ Ef). discriminate.
    + destruct (timeout r); [|discriminate]. intros [= <- _ _]. exact Hd.
Qed.
Next Obligation.
  intros t r s s' i nt exc. cbn. unfold managed_startAction. cbn. intros E N. revert E. rewrite (bool_decide_eq_false_2 _ N). cbn [negb andb].
  destruct (bool_decide (tid (managed s) = None)); cbn [negb]; [|destruct (timeout r); discriminate].
  destruct (isopen _); [intros [= _ _ <- _]; reflexivity|]. destruct (open _ _) as [[d rc] e].
  destruct (_ || e); [destruct (forceReleaseLockIntern _ _); discriminate|]. intros [= _ _ <- _]. reflexivity.
Qed.
Next Obligation.
  intros t r s s' i nt exc. cbn. unfold managed_startAction. cbn. destruct (_ && _); [destruct (timeout r); discriminate|].
  destruct (isopen _); [intros [= <- _ _ _]; reflexivity|]. destruct (open _ _) as [[d rc] e].
  destruct (_ || e); [destruct (bool_decide _); [|destruct (forceReleaseLockIntern _ _)]|]; try discriminate; intros [= <- _ _ _]; reflexivity.
Qed.
Next Obligation.
  intros t nt oc wk s s' d done. cbn. unfold managed_endAction. cbn. unfold release_and_leave. destruct (decide _); [|discriminate].
  unfold then_leave. destruct (forceReleaseLockIntern _ _) as [s1|] eqn:E; [|discriminate]. intros [= <- _ _].
  cbn. rewrite (forceRelease_free _ _ _ E). discriminate.
Qed.

Lemma getDSIntern_tmap t p l p' : getDSIntern t p = (l, p') ->
  match l with
  | Leased => is_Some (tmap p !! t) /\ tmap p' = tmap p
  | NewLease => tmap p !! t = None /\ is_Some (tmap p' !! t)
  | MustWait => tmap p !! t = None /\ tmap p' = tmap p
  end.
Proof.
  unfold getDSIntern. cbn [tmap free_list cmax max set_stats]. destruct (tmap p !! t) eqn:E; [intros [= <- <-]; cbn; eauto|].
  unfold assign. cbn [tmap free_list cmax max set_stats].
  destruct (free_list p) as [|fi rest]; [destruct (cmax p <? max p)%nat|]; intros [= <- <-]; try (split; [reflexivity|]).
  - destruct (_ >? _); apply lookup_insert_is_Some; left; reflexivity.
  - reflexivity.
  - destruct (_ >? _); apply lookup_insert_is_Some; left; reflexivity.
Qed.

Lemma freeDS_tmap t p p' : freeDS t p = Some p' -> tmap p' !! t = None.
Proof.
  unfold freeDS. destruct (getAllocatedDS t p) as [[i d]|]; [|discriminate]. destruct (in_transaction d); [discriminate|].
  intros [= <-]. cbn. apply lookup_delete_eq.
Qed.

#[export] Program Instance pool_laws : HelperLaws system := { owns s t := is_Some (tmap (dsp s) !! t) }.
Next Obligation. reflexivity. Qed.
Next Obligation.
  intros t r s s' nt exc. cbn. unfold pool_startAction. destruct (getDSIntern t (dsp s)) as [l p] eqn:E. pose proof (getDSIntern_tmap _ _ _ _ E) as P.
  destruct l.
  - destruct (getAllocatedDS t p) as [[i d]|]; [|discriminate]. destruct (isopen d); discriminate.
  - destruct (getAllocatedDS t p) as [[i d]|]; [|discriminate]. destruct (isopen d); [discriminate|]. cbn [negb].
    destruct (open _ d) as [[d' rc] e]. destruct (negb (rc =? 0)); [|destruct e; discriminate].
    destruct (freeDS t _) as [p'|] eqn:F; [|discriminate]. destruct (signal_waiting _ _ _); [|discriminate]. intros [= <- _ _]. cbn.
    rewrite (freeDS_tmap _ _ _ F). intros [? [=]].
  - destruct (timeout r); [|discriminate]. intros [= <- _ _]. cbn. destruct P as [P ->]. rewrite P. intros [? [=]].
Qed.
Next Obligation.
  intros t r s s' i nt exc. cbn. unfold pool_startAction. destruct (getDSIntern t (dsp s)) as [l p] eqn:E. pose proof (getDSIntern_tmap _ _ _ _ E) as P.
  intros Es N. destruct l.
  - destruct P as [P _]. contradiction.
  - revert Es. destruct (getAllocatedDS t p) as [[i' d]|]; [|discriminate]. destruct (isopen d); [intros [= _ _ <- _]; reflexivity|].
    cbn [negb]. destruct (open _ d) as [[d' rc] e]. destruct (negb (rc =? 0)); [destruct (freeDS t _); [destruct (signal_waiting _ _ _)|]; discriminate|].
    destruct e; [discriminate|]. intros [= _ _ <- _]. reflexivity.
  - destruct (timeout r); discriminate.
Qed.
Next Obligation.
  intros t r s s' i nt exc. cbn. unfold pool_startAction. destruct (getDSIntern t (dsp s)) as [l p] eqn:E. pose proof (getDSIntern_tmap _ _ _ _ E) as P.
  assert (l <> MustWait -> is_Some (tmap p !! t)) as Hp by (destruct l; [destruct P as [P ->]; auto|intros _; apply P|congruence]).
  destruct l; [| |destruct (timeout r); discriminate].
  - destruct (getAllocatedDS t p) as [[i' d]|]; [|discriminate]. destruct (isopen d); [|discriminate].
    intros [= <- _ _ _]. apply Hp. discriminate.
  - destruct (getAllocatedDS t p) as [[i' d]|]; [|discriminate]. destruct (isopen d); cbn [negb].
    + intros [= <- _ _ _]. apply Hp. discriminate.
    + destruct (open _ d) as [[d' rc] e]. destruct (negb (rc =? 0)); [destruct (freeDS t _); [destruct (signal_waiting _ _ _)|]; discriminate|].
      destruct e; [discriminate|]. intros [= <- _ _ _]. apply Hp. discriminate.
Qed.
Next Obligation.
  intros t nt oc wk s s' d done. cbn. unfold pool_endAction. destruct (getAllocatedDS t (dsp s)) as [[i d0]|]; [|discriminate].
  destruct (freeDS t (dsp s)) as [p|] eqn:F; [|discriminate]. destruct (signal_waiting wk p (threads s)); [|discriminate].
  intros [= <- _ _]. cbn. rewrite (freeDS_tmap _ _ _ F). intros [? [=]].
Qed.

(** ** The bodies of the methods keep the datasource *)

Section Releases.
Context {H : Type} {HH : DatasourceStatementHelper H} {HL : HelperLaws H}.
Implicit Types (w : world (H := H)).

(** No statement gets or loses its datasource, and no thread. *)
Definition same_owners w w' : Prop :=
  (forall q, st_ds (stmt_of q w') = st_ds (stmt_of q w)) /\ forall t, owns (helper w') t <-> owns (helper w) t.

Definition keeps {A} (m : M (H := H) A) : Prop := forall w a w', m w = Some (a, w') -> same_owners w w'.

Lemma keeps_bind {A B} (m : M A) (f : A -> M B) : keeps m -> (forall a, keeps (f a)) -> keeps (m ≫= f).
Proof.
  intros Km Kf w b w' (a & w1 & [S1 O1]%Km & [S2 O2]%Kf)%M_bind_Some. split.
  - intros q. rewrite S2. apply S1.
  - intros t. rewrite O2. apply O1.
Qed.

Lemma keeps_same {A} (m : M A) : (forall w a w', m w = Some (a, w') -> w' = w) -> keeps m.
Proof. intros S w a w' ->%S. split; reflexivity. Qed.

Lemma keeps_ret {A} (x : A) : keeps (mret x).
Proof. apply keeps_same. intros w a w' [_ E]%ret_Some. exact E. Qed.

Lemma keeps_assert b : keeps (assert b).
Proof. apply keeps_same. intros w a w' [_ E]%assert_Some. exact E. Qed.

Lemma keeps_gets {A} (f : world -> A) : keeps (gets f).
Proof. apply keeps_same. intros w a w' [_ E]%gets_Some. exact E. Qed.

Lemma keeps_lookup {A} (f : world -> option A) : keeps (lookup_world f).
Proof. apply keeps_same. intros w a w' [_ E]%lookup_Some. exact E. Qed.

Lemma keeps_update q f : (forall s, st_ds (f s) = st_ds s) -> keeps (update q f).
Proof.
  intros F w a w' ->%modify_Some. split; [|reflexivity]. intros q'. rewrite stmt_of_update.
  destruct (decide _) as [->|]; [apply F|reflexivity].
Qed.

Lemma keeps_put_ds i d : keeps (put_ds i d).
Proof. intros w a w' ->%modify_Some. split; [reflexivity|]. intros t. apply owns_set_ds. Qed.

Lemma keeps_answer q c : keeps (answer q c).
Proof. intros w a w' (_ & Es & Eh)%answer_Some. split; [intros q'; rewrite (same_stmts _ _ q' Es)|rewrite Eh]; reflexivity. Qed.

Create HintDb keeps.
#[local] Hint Resolve keeps_ret keeps_assert keeps_gets keeps_lookup keeps_put_ds keeps_answer : keeps.
#[local] Hint Extern 1 (keeps (get_stmt _)) => apply keeps_gets : keeps.
#[local] Hint Extern 1 (keeps (update _ _)) => apply keeps_update; reflexivity : keeps.

(** Through the binds and the cases of a method to the parts that are known *)
Ltac keeps_steps :=
  repeat match goal with
  | |- keeps (_ ≫= _) => apply keeps_bind
  | |- forall _, keeps _ => intros ?
  | |- keeps _ => solve [auto with keeps]
  | |- keeps (match ?x with _ => _ end) => destruct x
  | |- keeps (let '(_, _) := ?x in _) => destruct x
  | |- keeps (let _ := _ in _) => intros ?
  end.

Lemma keeps_get_ds q : keeps (get_ds q).
Proof. unfold get_ds. keeps_steps. Qed.

Lemma keeps_drv_close q : keeps (drv_close q).
Proof. unfold drv_close. keeps_steps. Qed.
#[local] Hint Resolve keeps_get_ds keeps_drv_close : keeps.

Lemma keeps_all_done close qs : keeps (all_done false close qs).
Proof. induction qs as [|q qs IH]; cbn [all_done]; unfold stmt_transactionDone; keeps_steps; exact IH. Qed.
#[local] Hint Resolve keeps_all_done : keeps.

Lemma keeps_connectionAborted i : keeps (ds_connectionAborted i).
Proof. unfold ds_connectionAborted, ds_transactionDone. keeps_steps. Qed.
#[local] Hint Resolve keeps_connectionAborted : keeps.

Lemma keeps_drv q c : keeps (drv q c).
Proof. unfold drv. keeps_steps. Qed.

Lemma keeps_closeIntern q : keeps (closeIntern q).
Proof. unfold closeIntern. keeps_steps. Qed.
#[local] Hint Resolve keeps_drv keeps_closeIntern : keeps.

Lemma keeps_prepareIntern q : keeps (prepareIntern q).
Proof. unfold prepareIntern. keeps_steps. Qed.

Lemma keeps_exec_with c q : keeps (exec_with c q).
Proof. unfold exec_with. keeps_steps. Qed.

Lemma keeps_defineIntern q : keeps (defineIntern q).
Proof. unfold defineIntern. keeps_steps. Qed.
#[local] Hint Resolve keeps_prepareIntern keeps_exec_with keeps_defineIntern : keeps.

Lemma keeps_checkStatus ed dsc q stat : keeps (checkStatus ed dsc q stat).
Proof. unfold checkStatus, checkStatus_steps, execIntern, execDescribeIntern. keeps_steps. Qed.
#[local] Hint Resolve keeps_checkStatus : keeps.

Lemma keeps_method_body ed m o q nt : keeps (method_body ed m o q nt).
Proof.
  destruct m; cbn [method_body]; unfold exec, next, checked, endIntern, begin_on, execIntern; keeps_steps.
Qed.

Lemma keeps_method_invalid m q : keeps (method_invalid m q).
Proof. destruct m; cbn [method_invalid]; keeps_steps. Qed.

(** ** Whole calls *)

(** The end of an action changes the owners only with [helperEndAction]. *)
Lemma all_done_owners clear close qs t : forall w u w', all_done clear close qs w = Some (u, w') ->
  owns (helper w') t <-> owns (helper w) t.
Proof.
  induction qs as [|q qs IH]; intros w u w' E; cbn [all_done] in E.
  - apply ret_Some in E as [_ ->]. reflexivity.
  - apply M_bind_Some in E as (u1 & w1 & E1 & ->%IH). unfold stmt_transactionDone in E1.
    apply M_bind_Some in E1 as (s & w2 & [-> ->]%gets_Some & E1). apply M_bind_Some in E1 as (u2 & w2 & E2 & E1).
    assert (owns (helper w1) t <-> owns (helper w2) t) as ->.
    { destruct clear; [apply modify_Some in E1 as ->|apply ret_Some in E1 as [_ ->]]; reflexivity. }
    revert E2. match goal with |- ?m w = _ -> _ => assert (keeps m) as K by keeps_steps end. intros [_ ->]%K. reflexivity.
Qed.

Lemma end_action_releases t oc wk nt w d w' : end_action t oc wk DAH_RELEASE nt w = Some (d, w') -> ~ owns (helper w') t.
Proof.
  unfold end_action. intros (x & w1 & [E ->]%lookup_Some & R)%M_bind_Some. destruct x as [[h d'] done].
  apply M_bind_Some in R as (u & w1 & ->%modify_Some & R). apply M_bind_Some in R as (v & w1 & O & [_ ->]%ret_Some).
  rewrite (all_done_owners _ _ _ t _ _ _ O). exact (end_release _ _ _ _ _ _ _ _ E).
Qed.

Lemma end_helper_releases t oc wk q cmd nt close w u w' i : st_ds (stmt_of q w) = Some i ->
  cmd = DAH_RELEASE \/ cmd = DAH_NOCHANGE /\ nt = true ->
  end_helper t oc wk q cmd nt close w = Some (u, w') -> ~ owns (helper w') t.
Proof.
  intros S C E. unfold end_helper in E. apply M_bind_Some in E as (s & w1 & [-> ->]%gets_Some & E). rewrite S in E.
  apply M_bind_Some in E as (u1 & w1 & _ & E). apply M_bind_Some in E as (x & w2 & _ & E). destruct x as [j d].
  assert ((if connection_aborted d || negb (isopen d) || nt && match cmd with DAH_NOCHANGE => true | _ => false end
           then DAH_RELEASE else cmd) = DAH_RELEASE) as Ec.
  { destruct C as [-> | [-> ->]]; [destruct (_ || _); reflexivity|]. rewrite orb_true_r. reflexivity. }
  rewrite Ec in E. apply M_bind_Some in E as (u2 & w3 & _ & E). apply M_bind_Some in E as (d' & w4 & E4 & E).
  apply M_bind_Some in E as (u3 & w5 & ->%modify_Some & [_ ->]%assert_Some). exact (end_action_releases _ _ _ _ _ _ _ E4).
Qed.

(** Statements give their datasources back, to a datasource with a lock and to a pool alike: when a
    commit or a rollback of a statement has returned, however it ended, the thread has no datasource, and so
    it is behind [prepare], [close], [currentThreadInTransaction] and [getSQL] in a thread that had none
    before. In between no method gives away or takes a datasource, the loss of a connection included. *)
Theorem statement_releases ed t q m r o oc wk w v w' :
  m = SCommit \/ m = SRollback \/ method_cmd m = DAH_NOCHANGE /\ ~ owns (helper w) t ->
  call_method ed t q m r o oc wk w = Some (Returns v, w') -> ~ owns (helper w') t.
Proof.
  intros Hm E. unfold call_method, with_action in E. apply M_bind_Some in E as (h & w1 & [-> ->]%gets_Some & E).
  destruct (helperStartAction t r (helper w)) as [| |h newds nt exc] eqn:Es.
  - apply ret_Some in E as [[=] _].
  - apply M_bind_Some in E as (u & w1 & [[=] _]%assert_Some & _).
  - assert (forall i, newds = Some i -> method_cmd m = DAH_RELEASE \/ method_cmd m = DAH_NOCHANGE /\ nt = true) as C.
    { intros i ->. destruct Hm as [-> | [-> | [Ec N]]]; [left; reflexivity..|right]. split; [exact Ec|].
      exact (start_new _ _ _ _ _ _ _ Es N). }
    apply M_bind_Some in E as (u & w1 & ->%modify_Some & E). apply M_bind_Some in E as (s & w1 & [-> ->]%gets_Some & E).
    destruct (match newds with Some i => _ | None => false end).
    { apply M_bind_Some in E as (d & w1 & E1 & E). apply M_bind_Some in E as (v1 & w2 & [_ Eo]%keeps_method_invalid & [_ ->]%ret_Some).
      rewrite Eo. exact (end_action_releases _ _ _ _ _ _ _ E1). }
    apply M_bind_Some in E as (u1 & w1 & [_ ->]%assert_Some & E). apply M_bind_Some in E as (u2 & w1 & E1 & E).
    apply M_bind_Some in E as (u3 & w2 & ->%modify_Some & E). destruct newds as [i|].
    + apply M_bind_Some in E as (x & w3 & E3 & E). apply M_bind_Some in E as (u4 & w4 & E4 & [_ ->]%ret_Some).
      destruct (keeps_method_body _ _ _ _ _ _ _ _ E3) as [Sd _]. specialize (Sd q).
      rewrite stmt_of_update, decide_True in Sd by reflexivity.
      exact (end_helper_releases _ _ _ _ _ _ _ _ _ _ i Sd (C i eq_refl) E4).
    + apply M_bind_Some in E as (v1 & w3 & [_ Eo]%keeps_method_invalid & [_ ->]%ret_Some). rewrite Eo.
      apply ret_Some in E1 as [_ ->]. exact (start_none _ _ _ _ _ _ Es).
Qed.
End Releases.

(** ** Examples *)

Abbreviation managed_world := (world (H := ManagedDatasource.state)).
Abbreviation pool_world := (world (H := system)).

Definition managed_start : managed_world := mkWorld (start false) ∅ [] [].
Definition pool_start : pool_world := mkWorld (mkSys (new_DatasourcePool [OpenOk] 1 2).1 ∅ ∅) ∅ [] [].

(** A thread calls a method; the wait for a datasource, if there is one, ends
    with an exception. *)
Definition calls {H} (t q : nat) (m : smethod) (l : list reply) : sevent (H := H) :=
  CallMethod false t q m (mkReply true OpenOk None) DrvOk DrvOk None l.
Definition executes {H} (t q : nat) : list (sevent (H := H)) :=
  [NewStatement q; calls t q (SPrepare false true) []; calls t q (SExec false) []].

(** Whether the run comes to its last event, and fails in an assertion there *)
Definition fails_last {H} {HH : DatasourceStatementHelper H} (es : list sevent) (w : world (H := H)) : bool :=
  match run_sevents (removelast es) w, run_sevents es w with Some _, None => true | _, _ => false end.

(** A thread in a transaction of its own that calls a method of another
    thread's statement gives its own connection back to the pool. *)
Example other_thread_gives_own_back :
  fails_last (executes 1 7 ++ executes 2 8 ++ [calls 2 7 (SNext true) []]) pool_start = true.
Proof. vm_compute. reflexivity. Qed.

(** A commit with one statement leaves the other statements of the datasource
    open; a call that does not keep the lock then takes their datasource from
    them, and they cannot be closed any more. *)
Example other_commit_leaves_open :
  fails_last (executes 1 7 ++ [NewStatement 8; calls 1 8 SCommit []; calls 1 7 SGetSQL []; Deref 7 []]) managed_start = true.
Proof. vm_compute. reflexivity. Qed.

(** Describing a statement without SQL executes a handle that was not
    prepared. *)
Example describe_without_sql :
  (λ w, dbi_log w) <$>
    run_sevents [NewStatement 7; CallMethod true 1 7 SDescribe (mkReply true OpenOk None) DrvOk DrvOk None [Error false]] managed_start
  = Some [(7%nat, DExecDescribe, Error false)] /\
  protocol NoHandle DExecDescribe (Error false) = None.
Proof. vm_compute. split; reflexivity. Qed.

(** A call of another thread that does not get the lock takes the datasource
    from the statement that the owner of the lock uses. *)
Example timeout_takes_datasource :
  fails_last (executes 1 7 ++ [calls 2 7 (SNext true) []; calls 1 7 (SNext true) []]) managed_start = true.
Proof. vm_compute. reflexivity. Qed.

(** The connection is lost while a statement is described that was executed
    for that only. *)
Example describe_lost :
  fails_last [NewStatement 7; calls 1 7 (SPrepare false true) [];
              CallMethod true 1 7 SDescribe (mkReply true OpenOk None) DrvOk DrvOk None [Done; Done; Done; Lost]] managed_start = true.
Proof. vm_compute. reflexivity. Qed.

(** A bind before the first execution keeps the lock without a transaction;
    the assertion of [cleanup] fails when the thread ends. *)
Example bind_without_transaction :
  (λ w, ManagedDatasource.step (Cleanup 1 DrvOk DrvOk None) (helper w)) <$>
    run_sevents [NewStatement 7; calls 1 7 (SPrepare false true) []; calls 1 7 (SBind DBind) []] managed_start = Some Failed.
Proof. vm_compute. reflexivity. Qed.

(** [define] returns 0, which is success, when it fails. *)
Example define_fails :
  (λ x, x.1) <$> call_method false 1 7 SDefine (mkReply true OpenOk None) DrvOk DrvOk None
                   (mkWorld (start false) {[7%nat := new_stmt]} [] []) = Some (Returns false).
Proof. vm_compute. reflexivity. Qed.

Lemma statement_releases_witness :
  exists w w', run_sevents (executes 1 7) pool_start = Some w /\ owns (helper w) 1 /\
    call_method false 1 7 SCommit (mkReply false OpenOk None) DrvAborted DrvOk None w = Some (Returns true, w') /\ ~ owns (helper w') 1.
Proof.
  destruct (run_sevents (executes 1 7) pool_start) as [w|] eqn:E; [|vm_compute in E; discriminate].
  destruct (call_method false 1 7 SCommit (mkReply false OpenOk None) DrvAborted DrvOk None w) as [[[|v] w']|] eqn:E2;
    [vm_compute in E; injection E as <-; vm_compute in E2; discriminate| |vm_compute in E; injection E as <-; vm_compute in E2; discriminate].
  exists w, w'. pose proof (statement_releases false 1 7 SCommit (mkReply false OpenOk None) DrvAborted DrvOk None w v w' (or_introl eq_refl) E2) as R.
  split; [reflexivity|]. vm_compute in E. injection E as <-. split; [eexists; vm_compute; reflexivity|].
  rewrite E2. vm_compute in E2. injection E2 as <- _. split; [reflexivity|exact R].
Defined.
