(* ===== verification/Exceptions.v ===== *)
(** * Exceptions

    The exception objects of the runtime and the exception sink in which they
    are collected: [QoreException] and [qore_es_private] with the operations of
    [ExceptionSink]. Exceptions are chained through their member [next]; the
    sink keeps a pointer to the first and to the last one. *)

From S2P Require Import Prelude.

#[local] Open Scope Z_scope.

(** ** Data *)

(** The kind of a call-stack entry and of an exception. *)
Inductive qore_call_t := CT_USER | CT_BUILTIN | CT_NEWTHREAD | CT_RETHROW.

#[export] Instance qore_call_t_eq_dec : EqDecision qore_call_t.
Proof. solve_decision. Defined.

Section exceptions.
(** Values, with the empty value [QoreValue()]. *)
Context {V : Type} (nothing : V).

(** An exception without its source location; the entries of the call stack
    are given by their kind. The member [next] is the rest of the chain in
    which the exception is. *)
Record QoreException := Exn {
  ex_type : qore_call_t; ex_err : V; ex_desc : V; ex_arg : V;
  ex_callStack : list qore_call_t }.

(** The exceptions reached from [head], the position of [tail] among them, and
    the other members. An empty chain stands for two null pointers. *)
Record qore_es_private := Sink {
  es_list : list QoreException; es_tail : nat; es_count : Z;
  es_thread_exit : bool; es_rethrown : bool; es_externally_managed : bool }.

Definition new_sink : qore_es_private := Sink [] 0 0 false false false.

(** The operations answer the sink and the change of the number of active
    exceptions of the thread ([inc_active_exceptions]). *)
Definition sink_result : Type := qore_es_private * Z.

(** ** Exceptions *)

Definition getReferencedEntry (l : list V) (i : nat) : V := default nothing (l !! i).

(** The constructor from an argument list, the exception of a throw statement:
    more than one argument value is kept as a list. *)
Definition user_exception (as_list : list V -> V) (stack : list qore_call_t) (n : list V)
  : QoreException :=
  Exn CT_USER (getReferencedEntry n 0) (getReferencedEntry n 1)
    (if (3 <? length n)%nat then as_list (drop 2 n) else getReferencedEntry n 2) stack.

(** The constructor of the runtime itself *)
Definition system_exception (err desc arg : V) (stack : list qore_call_t) : QoreException :=
  Exn CT_BUILTIN err desc arg stack.

(** The members that are given replace those of the first exception. *)
Definition replaceTop (chain : list QoreException) (new_ex : list V) : list QoreException :=
  match chain with
  | [] => []
  | e :: chain =>
    let err := if (0 <? length new_ex)%nat then getReferencedEntry new_ex 0 else ex_err e in
    let desc := if (1 <? length new_ex)%nat then getReferencedEntry new_ex 1 else ex_desc e in
    let arg := if (2 <? length new_ex)%nat then getReferencedEntry new_ex 2 else ex_arg e in
    Exn (ex_type e) err desc arg (ex_callStack e) :: chain
  end.

(** A copy of the exception and of those behind it, with an entry for the
    rethrow in front of its call stack. *)
Definition rethrow_copy (chain : list QoreException) : list QoreException :=
  match chain with
  | [] => []
  | e :: chain => Exn (ex_type e) (ex_err e) (ex_desc e) (ex_arg e) (CT_RETHROW :: ex_callStack e) :: chain
  end.

(** The hash that a catch block gets; [next] holds the following exception. *)
Inductive exception_object :=
  | ExceptionInfo (user : bool) (err desc arg : V) (callstack : list qore_call_t)
      (next : option exception_object).

Definition QORE_MAX_EXCEPTIONS : Z := 20.

Fixpoint makeExceptionObject (chain : list QoreException) (level : Z) : option exception_object :=
  match chain with
  | [] => None
  | e :: chain =>
    Some (ExceptionInfo (bool_decide (ex_type e = CT_USER)) (ex_err e) (ex_desc e) (ex_arg e)
      (ex_callStack e)
      (if level <? QORE_MAX_EXCEPTIONS then makeExceptionObject chain (level + 1) else None))
  end.

(** ** The sink *)

(** [qore_es_private::insert]: [e] is the exception with those chained behind
    it. The new tail is [e] itself. *)
Definition insert (es : qore_es_private) (e : list QoreException) : sink_result :=
  let l := match es_list es with [] => e | _ => take (S (es_tail es)) (es_list es) ++ e end in
  let t := match es_list es with [] => O | _ => S (es_tail es) end in
  if es_externally_managed es
  then (Sink l t (es_count es) (es_thread_exit es) (es_rethrown es) true, 0)
  else (Sink l t (es_count es + 1) (es_thread_exit es) (es_rethrown es) false, 1).

(** [qore_es_private::assimilate]: both sinks afterwards. *)
Definition assimilate (es xs : qore_es_private) : qore_es_private * qore_es_private :=
  let te := es_thread_exit es || es_thread_exit xs in
  match es_list xs with
  | [] =>
    (Sink (es_list es) (es_tail es) (es_count es) te (es_rethrown es) (es_externally_managed es),
     Sink [] (es_tail xs) (es_count xs) false (es_rethrown xs) (es_externally_managed xs))
  | _ =>
    let l := match es_list es with
             | [] => es_list xs
             | _ => take (S (es_tail es)) (es_list es) ++ es_list xs
             end in
    let t := match es_list es with [] => es_tail xs | _ => (S (es_tail es) + es_tail xs)%nat end in
    let cnt := if es_externally_managed xs then 0 else es_count xs in
    (Sink l t (es_count es + cnt) te (es_rethrown es) (es_externally_managed es),
     Sink [] 0 (es_count xs - cnt) false (es_rethrown xs) (es_externally_managed xs))
  end.

(** [qore_es_private::rethrow] *)
Definition rethrow (es : qore_es_private) (old : list QoreException) : sink_result :=
  let r := insert es (rethrow_copy old) in
  (Sink (es_list (fst r)) (es_tail (fst r)) (es_count (fst r)) (es_thread_exit (fst r)) true
     (es_externally_managed (fst r)), snd r).

(** [ExceptionSink::raiseException] of a new exception *)
Definition raiseException (es : qore_es_private) (e : QoreException) : sink_result := insert es [e].

Definition raiseThreadExit (es : qore_es_private) : qore_es_private :=
  Sink (es_list es) (es_tail es) (es_count es) true (es_rethrown es) (es_externally_managed es).

Definition isException (es : qore_es_private) : bool :=
  match es_list es with [] => false | _ => true end.

Definition isEvent (es : qore_es_private) : bool := isException es || es_thread_exit es.

(** [catchException]: the sink, the exceptions it held, and the change of the
    active exceptions. *)
Definition catchException (es : qore_es_private) : qore_es_private * list QoreException * Z :=
  (Sink [] 0 (if es_count es =? 0 then es_count es else 0) (es_thread_exit es) (es_rethrown es)
     (es_externally_managed es), es_list es, - es_count es).

Definition getException (es : qore_es_private) : list QoreException := es_list es.

Definition clear (es : qore_es_private) : sink_result :=
  (Sink [] 0 0 false (es_rethrown es) (es_externally_managed es), - es_count es).

(** [handleExceptions] without the output of the default handler *)
Definition handleExceptions (es : qore_es_private) : sink_result :=
  if isException es then clear es
  else (Sink (es_list es) (es_tail es) (es_count es) false (es_rethrown es) (es_externally_managed es), 0).

Definition markExternallyManaged (es : qore_es_private) : sink_result :=
  if es_externally_managed es then (es, 0)
  else (Sink (es_list es) (es_tail es) 0 (es_thread_exit es) (es_rethrown es) true, - es_count es).

Definition getExceptionErr (es : qore_es_private) : V :=
  match es_list es with [] => nothing | e :: _ => ex_err e end.
Definition getExceptionDesc (es : qore_es_private) : V :=
  match es_list es with [] => nothing | e :: _ => ex_desc e end.
Definition getExceptionArg (es : qore_es_private) : V :=
  match es_list es with [] => nothing | e :: _ => ex_arg e end.

(** ** Invariant *)

(** [tail] is the last exception of the chain. *)
Definition sink_wf (es : qore_es_private) : Prop :=
  match es_list es with [] => es_tail es = O | l => S (es_tail es) = length l end.

(** The exceptions of a sink that is not managed externally are counted one by
    one. *)
Definition sink_counted (es : qore_es_private) : Prop :=
  es_externally_managed es = false /\ es_count es = Z.of_nat (length (es_list es)).

Lemma new_sink_wf : sink_wf new_sink.
Proof. reflexivity. Qed.

Lemma new_sink_counted : sink_counted new_sink.
Proof. split; reflexivity. Qed.

Lemma take_tail es : sink_wf es -> es_list es <> [] -> take (S (es_tail es)) (es_list es) = es_list es.
Proof.
  unfold sink_wf. destruct (es_list es) as [|e l]; [congruence|]. intros -> _.
  apply take_ge. reflexivity.
Qed.

Lemma insert_list es e : sink_wf es -> es_list (fst (insert es e)) = es_list es ++ e.
Proof.
  intros W. unfold insert. pose proof (take_tail es W) as T.
  destruct (es_externally_managed es); simpl; destruct (es_list es); try reflexivity;
    rewrite T by congruence; reflexivity.
Qed.

Lemma insert_wf es e : sink_wf es -> sink_wf (fst (insert es [e])).
Proof.
  intros W. pose proof (insert_list es [e] W) as E. unfold sink_wf in *. rewrite E.
  unfold insert. destruct (es_list es) as [|x l], (es_externally_managed es); simpl in *;
    rewrite ?length_app; simpl; lia.
Qed.

Lemma insert_counted es e : sink_wf es -> sink_counted es -> sink_counted (fst (insert es [e])).
Proof.
  intros W [M C]. split.
  - unfold insert. rewrite M. reflexivity.
  - rewrite (insert_list es [e] W), length_app. unfold insert. rewrite M. simpl. lia.
Qed.

Lemma assimilate_list es xs :
  sink_wf es -> es_list (fst (assimilate es xs)) = es_list es ++ es_list xs.
Proof.
  intros W. unfold assimilate. pose proof (take_tail es W) as T.
  destruct (es_list xs); simpl; [rewrite app_nil_r; reflexivity|].
  destruct (es_list es); [reflexivity|]. rewrite T by congruence. reflexivity.
Qed.

Lemma assimilate_wf es xs :
  sink_wf es -> sink_wf xs ->
  sink_wf (fst (assimilate es xs)) /\ es_list (snd (assimilate es xs)) = [].
Proof.
  intros W X. pose proof (assimilate_list es xs W) as E. unfold sink_wf in *. rewrite E.
  unfold assimilate. destruct (es_list xs) as [|x l]; simpl in *.
  - rewrite app_nil_r. destruct (es_list es); auto.
  - split; [|reflexivity]. destruct (es_list es) as [|y m]; simpl in *; [lia|].
    rewrite length_app. simpl. lia.
Qed.

Lemma assimilate_counted es xs :
  sink_wf es -> sink_counted es -> sink_counted xs ->
  sink_counted (fst (assimilate es xs)) /\ es_count (snd (assimilate es xs)) = 0.
Proof.
  intros W [M C] [Mx Cx]. unfold sink_counted. rewrite (assimilate_list es xs W), length_app.
  unfold assimilate. rewrite Mx. destruct (es_list xs) as [|x l]; simpl in *; repeat split; auto; lia.
Qed.

(** ** The exceptions raised in a piece of code *)

(** What happens to a sink until its exceptions are caught: an exception is
    raised, or those of another sink are taken over. *)
Inductive sink_event := Raise (e : QoreException) | Assimilate (xs : qore_es_private).

Definition sink_step (s : qore_es_private * Z) (ev : sink_event) : qore_es_private * Z :=
  match ev with
  | Raise e => let r := raiseException (fst s) e in (fst r, snd s + snd r)
  | Assimilate xs => (fst (assimilate (fst s) xs), snd s)
  end.

Definition event_exceptions (ev : sink_event) : list QoreException :=
  match ev with Raise e => [e] | Assimilate xs => es_list xs end.

(** The active exceptions that other sinks brought in. *)
Definition event_active (ev : sink_event) : Z :=
  match ev with Raise _ => 0 | Assimilate xs => es_count xs end.

Definition imported_active (evs : list sink_event) : Z :=
  foldr (λ ev z, event_active ev + z) 0 evs.

Definition event_ok (ev : sink_event) : Prop :=
  match ev with Raise _ => True | Assimilate xs => sink_wf xs /\ sink_counted xs end.

Lemma sink_steps evs es a :
  Forall event_ok evs -> sink_wf es -> sink_counted es ->
  let r := foldl sink_step (es, a) evs in
  sink_wf (fst r) /\ sink_counted (fst r) /\
  es_list (fst r) = es_list es ++ (evs ≫= event_exceptions) /\
  snd r + imported_active evs = a + es_count (fst r) - es_count es.
Proof.
  revert es a. induction evs as [|ev evs IH]; intros es a Hev W C; inversion_clear Hev.
  { simpl. rewrite app_nil_r. repeat split; try apply C; auto. lia. }
  set (s := fst (sink_step (es, a) ev)). set (d := snd (sink_step (es, a) ev)).
  assert (sink_wf s /\ sink_counted s /\ es_list s = es_list es ++ event_exceptions ev /\
          d + event_active ev = a + es_count s - es_count es) as (W' & C' & L & D).
  { subst s d. destruct ev as [e|xs]; simpl.
    - split; [apply insert_wf, W|]. split; [apply insert_counted; assumption|].
      split; [apply insert_list, W|]. unfold raiseException, insert. destruct C as [-> _]. simpl. lia.
    - destruct H as [Wx Cx]. split; [apply (assimilate_wf es xs W Wx)|].
      split; [apply (assimilate_counted es xs W C Cx)|]. split; [apply assimilate_list, W|].
      unfold assimilate. destruct Cx as [-> Cx]. destruct (es_list xs); simpl in *; lia. }
  specialize (IH s d H0 W' C'). simpl foldl. rewrite (surjective_pairing (sink_step (es, a) ev)).
  fold s d. cbn zeta in IH |- *. destruct IH as (W2 & C2 & L2 & D2).
  split; [exact W2|]. split; [exact C2|]. split.
  - rewrite L2, L. simpl. rewrite app_assoc. reflexivity.
  - simpl imported_active. lia.
Qed.

(** ** The object of a catch block *)

(** The values [err] of an object and of the objects linked by [next]. *)
Fixpoint object_errs (o : exception_object) : list V :=
  match o with
  | ExceptionInfo _ err _ _ _ next =>
    err :: match next with Some o => object_errs o | None => [] end
  end.

Lemma makeExceptionObject_errs chain level o :
  0 <= level <= QORE_MAX_EXCEPTIONS -> makeExceptionObject chain level = Some o ->
  object_errs o = map ex_err (take (Z.to_nat (QORE_MAX_EXCEPTIONS - level + 1)) chain).
Proof.
  revert level o. induction chain as [|e chain IH]; intros level o Hl [= <-].
  replace (Z.to_nat (QORE_MAX_EXCEPTIONS - level + 1))
    with (S (Z.to_nat (QORE_MAX_EXCEPTIONS - level))) by lia.
  simpl. f_equal. destruct (Z.ltb_spec level QORE_MAX_EXCEPTIONS) as [L|L].
  - destruct (makeExceptionObject chain (level + 1)) as [o|] eqn:E.
    + rewrite (IH (level + 1) o) by (auto; lia). do 2 f_equal. lia.
    + destruct chain; [rewrite take_nil; reflexivity|discriminate].
  - replace (Z.to_nat (QORE_MAX_EXCEPTIONS - level)) with O by lia. reflexivity.
Qed.
End exceptions.

Arguments QoreException : clear implicits.
Arguments qore_es_private : clear implicits.
Arguments exception_object : clear implicits.
Arguments sink_event : clear implicits.

(** ** Properties *)

(** C26: a new sink collects the exceptions that are raised and those of the
    sinks it takes over, in the order in which this happens; catching them
    gives exactly this chain, leaves no exception behind and takes them off the
    number of active exceptions. *)
Theorem sink_collects {V : Type} (evs : list (sink_event V)) (a : Z)
  (H : Forall event_ok evs) :
  let r := foldl sink_step (new_sink, a) evs in
  let '(es, chain, d) := catchException (fst r) in
  chain = evs ≫= event_exceptions /\ isException es = false /\
  snd r + d = a - imported_active evs.
Proof.
  destruct (sink_steps evs new_sink a H new_sink_wf new_sink_counted) as (W & C & L & D).
  simpl in *. repeat split; [exact L|]. lia.
Qed.

Definition exn1 (n : nat) : QoreException nat := Exn CT_USER n 0%nat 0%nat [].

Lemma sink_collects_witness :
  let evs := [Raise (exn1 1); Assimilate (Sink [exn1 2; exn1 3] 1 2 false true false); Raise (exn1 4)] in
  let '(es, chain, d) := catchException (fst (foldl sink_step (new_sink, 0) evs)) in
  chain = [exn1 1; exn1 2; exn1 3; exn1 4] /\ isException es = false /\
  snd (foldl sink_step (new_sink, 0) evs) + d = -2.
Proof.
  apply (sink_collects [Raise (exn1 1);
    Assimilate (Sink [exn1 2; exn1 3] 1 2 false true false); Raise (exn1 4)] 0).
  repeat constructor.
Defined.

(** the object for a catch block describes the chain of exceptions in its
    order, and at most the first 21 of them ([QORE_MAX_EXCEPTIONS] levels behind
    the first). *)
Theorem exception_object_bounded {V : Type} (e : QoreException V) (chain : list (QoreException V)) :
  exists o, makeExceptionObject (e :: chain) 0 = Some o /\
    object_errs o = map ex_err (take 21 (e :: chain)) /\
    (length (object_errs o) <= 21)%nat.
Proof.
  eexists. split; [reflexivity|]. erewrite (makeExceptionObject_errs (e :: chain) 0);
    [|split; [lia|discriminate]|reflexivity].
  split; [reflexivity|]. rewrite length_map, length_take. apply Nat.le_min_l.
Qed.

(** ** What the code does beside its intention *)

(** A rethrown chain of two exceptions, and one that is raised behind it: the
    sink takes the first one of the chain for its tail, so that the second one
    is cut off. *)
Example rethrow_loses_chain :
  let es := fst (rethrow new_sink [exn1 1; exn1 2]) in
  map ex_err (es_list (fst (raiseException es (exn1 3)))) = [1; 3]%nat /\
  map ex_err (es_list es) = [1; 2]%nat.
Proof. split; reflexivity. Qed.

(** Taking over the exceptions of a sink into one that is managed externally
    counts them, although such a sink must have a count of zero. *)
Example assimilate_counts_in_managed_sink :
  let es := fst (markExternallyManaged (@new_sink nat)) in
  es_count (fst (assimilate es (fst (raiseException new_sink (exn1 1))))) = 1.
Proof. reflexivity. Qed.
