(* ===== verification/Statements.v ===== *)
(** * Statements

    The statement interpreter: [StatementBlock] with its [on_exit],
    [on_success] and [on_error] handlers, and the statements that a block is
    made of, each with its [execImpl] and [parseInitImpl]. Expressions, local
    variables and assignments are the operations of an interface. *)

From S2P Require Import Prelude Exceptions.

#[local] Open Scope Z_scope.

(** ** The interface to expressions and variables *)

(** What the statements use of the rest of the runtime. [world] is the state of
    the program that expressions work on. An operation that gets an exception
    sink can raise exceptions in it. *)
Class Lang := {
  value : Type; expr : Type; lvar : Type; world : Type;
  iterator : Type; reference : Type; op_log_func : Type; regex : Type;
  nothing : value;
  isNothing : value -> bool;
  getAsBool : value -> bool;
  isEqualHard : value -> value -> bool;
  list_value : list value -> value;
  get_list : value -> option (list value);                (* the entries of a list *)
  exception_value : option (exception_object value) -> value;
  (* expressions *)
  eval : expr -> world -> qore_es_private value -> value * world * qore_es_private value;
  eval_list : expr -> world -> qore_es_private value -> list value * world * qore_es_private value;
  runtime_stack : world -> list qore_call_t;
  op_func : op_log_func -> value -> value -> world -> qore_es_private value ->
            bool * world * qore_es_private value;
  regex_exec : regex -> value -> world -> qore_es_private value ->
               bool * world * qore_es_private value;
  (* the return value is converted to the type of the function *)
  accept_return : value -> world -> qore_es_private value -> value * world * qore_es_private value;
  (* local variables, the implicit arguments and the implicit element *)
  instantiate : lvar -> world -> world;
  instantiate_value : lvar -> value -> world -> world;
  uninstantiate : lvar -> world -> qore_es_private value -> world * qore_es_private value;
  push_argv : value -> world -> world;
  pop_argv : world -> qore_es_private value -> world * qore_es_private value;
  implicit_element : world -> Z;
  set_implicit_element : Z -> world -> world;
  (* foreach: the iterator of a list expression; [getNext] gives None at its
     end; assignments give false when they fail *)
  getFunctionalIterator : expr -> world -> qore_es_private value ->
                          option iterator * world * qore_es_private value;
  getNext : iterator -> world -> qore_es_private value ->
            option value * iterator * world * qore_es_private value;
  assign_lvalue : expr -> value -> world -> qore_es_private value ->
                  bool * world * qore_es_private value;
  evalToRef : expr -> world -> qore_es_private value -> reference * world * qore_es_private value;
  eval_ref : reference -> world -> qore_es_private value -> value * world * qore_es_private value;
  assign_ref : reference -> value -> world -> qore_es_private value ->
               bool * world * qore_es_private value;
  (* the parse option PO_BROKEN_LOOP_STATEMENT of the program *)
  broken_loop : bool }.

Abbreviation sink L := (qore_es_private (@value L)).

Section statements.
Context {L : Lang}.

(** ** Data *)

Inductive obe_type_e := OBE_Unconditional | OBE_Success | OBE_Error.

(** The classes derived from [CaseNode]. *)
Inductive case_kind :=
  | CaseNode_ (val : value)
  | CaseNodeWithOperator (val : value) (op : op_log_func)
  | CaseNodeRegex (re : regex)
  | CaseNodeNegRegex (re : regex).

(** The statements and blocks. A null pointer to a block, an empty expression
    and a catch block without a parameter are [None]. [lvars] are the variables
    that live as long as the statement. *)
Inductive AbstractStatement :=
  | ExpressionStatement (exp : expr)
  | IfStatement (lvars : list lvar) (cond : expr) (if_code else_code : option StatementBlock)
  | WhileStatement (lvars : list lvar) (cond : expr) (code : option StatementBlock)
  | DoWhileStatement (lvars : list lvar) (cond : expr) (code : option StatementBlock)
  | ForStatement (lvars : list lvar) (assignment cond iter : option expr) (code : option StatementBlock)
  | ForEachStatement (lvars : list lvar) (var lst : expr) (is_ref : bool) (code : option StatementBlock)
  | TryStatement (try_block catch_block : option StatementBlock) (id : option lvar)
  | SwitchStatement (lvars : list lvar) (sexp : expr) (cases : list CaseNode)
  | ThrowStatement (args : expr)
  | RethrowStatement (args : option expr)
  | ReturnStatement (exp : option expr)
  | BreakStatement
  | ContinueStatement
  | OnBlockExitStatement (type : obe_type_e) (code : option StatementBlock)
  | ThreadExitStatement
with StatementBlock :=
  | Block (lvars : list lvar) (statement_list : list AbstractStatement)
with CaseNode :=
  | Case (kind : case_kind) (code : option StatementBlock) (def : bool).

Definition statement_list (b : StatementBlock) : list AbstractStatement :=
  match b with Block _ l => l end.

(** [StatementBlock::addStatement]: handlers are put in front of the list. *)
Definition addStatement (l : list (obe_type_e * option StatementBlock)) (s : AbstractStatement)
  : list (obe_type_e * option StatementBlock) :=
  match s with OnBlockExitStatement ty code => (ty, code) :: l | _ => l end.

Definition on_block_exit_list (b : StatementBlock) : list (obe_type_e * option StatementBlock) :=
  foldl addStatement [] (statement_list b).

(** The results of [exec]. *)
Definition RC_RETURN : Z := 1.
Definition RC_BREAK : Z := 2.
Definition RC_CONTINUE : Z := 3.

(** [endsBlock]: the statements after it are skipped. *)
Definition endsBlock (st : AbstractStatement) : bool :=
  match st with
  | ThrowStatement _ | RethrowStatement _ | ReturnStatement _ | BreakStatement | ContinueStatement
  | ThreadExitStatement => true
  | _ => false
  end.

(** [hasFinalReturn]: answered with true where the check is left to run time. *)
Fixpoint hasFinalReturn (st : AbstractStatement) : bool :=
  match st with
  | IfStatement _ _ (Some i) (Some e) => block_hasFinalReturn i && block_hasFinalReturn e
  | TryStatement (Some t) (Some c) _ => block_hasFinalReturn t && block_hasFinalReturn c
  | WhileStatement _ _ _ | DoWhileStatement _ _ _ | ForStatement _ _ _ _ _ | ForEachStatement _ _ _ _ _
  | SwitchStatement _ _ _ | OnBlockExitStatement _ _ => true
  | ThrowStatement _ | RethrowStatement _ | ReturnStatement _ => true
  | _ => false
  end
with block_hasFinalReturn (b : StatementBlock) : bool :=
  match b with
  | Block _ l =>
    (fix last_return (l : list AbstractStatement) : bool :=
       match l with
       | [] => false
       | [st] => hasFinalReturn st
       | _ :: l => last_return l
       end) l
  end.

(** ** The state of a thread *)

(** Besides the program: the exception sink in use, the caught exception with
    those behind it ([catchException] of the thread, empty for a null pointer),
    the stack of handler iterators ([on_block_exit_list] of the thread) and the
    return value that the running code was given by reference. An iterator is
    the number of elements from it to the end of the list. *)
Record state := State {
  st_world : world; st_xsink : sink L; st_catch : list (QoreException value);
  st_blocks : list nat; st_rv : value }.

Definition set_world (w : world) (s : state) : state :=
  State w (st_xsink s) (st_catch s) (st_blocks s) (st_rv s).
Definition set_xsink (x : sink L) (s : state) : state :=
  State (st_world s) x (st_catch s) (st_blocks s) (st_rv s).
Definition set_catch (e : list (QoreException value)) (s : state) : state :=
  State (st_world s) (st_xsink s) e (st_blocks s) (st_rv s).
Definition set_blocks (l : list nat) (s : state) : state :=
  State (st_world s) (st_xsink s) (st_catch s) l (st_rv s).
Definition set_rv (v : value) (s : state) : state :=
  State (st_world s) (st_xsink s) (st_catch s) (st_blocks s) v.

(** A null pointer that is dereferenced: the exception to be rethrown, the
    exception of an [on_error] handler, or the handler iterator of a block
    without one. *)
Inductive crash := NullCatch | NullException | NoBlock.

Inductive result (A : Type) :=
  | Ok (a : A) (s : state)
  | Crash (e : crash)
  | OutOfFuel.
#[global] Arguments Ok {A} a s.
#[global] Arguments Crash {A} e.
#[global] Arguments OutOfFuel {A}.

Definition M (A : Type) : Type := state -> result A.

#[global] Instance M_ret : MRet M := λ A a s, Ok a s.
#[global] Instance M_bind : MBind M := λ A B f m s,
  match m s with Ok a s => f a s | Crash e => Crash e | OutOfFuel => OutOfFuel end.

Definition get {A} (f : state -> A) : M A := λ s, Ok (f s) s.
Definition modify (f : state -> state) : M unit := λ s, Ok tt (f s).
Definition crashed {A} (e : crash) : M A := λ _, Crash e.
Definition out_of_fuel {A} : M A := λ _, OutOfFuel.

(** An operation of the interface. *)
Definition call {A} (f : world -> sink L -> A * world * sink L) : M A := λ s,
  let '(a, w, x) := f (st_world s) (st_xsink s) in Ok a (set_xsink x (set_world w s)).

(** The condition [*xsink] *)
Definition pending : M bool := get (λ s, isEvent (st_xsink s)).

(** ** Execution *)

(** [LVListInstantiator]: the variables exist while [m] runs, and leave in the
    reverse order. *)
Definition uninstantiate_all (lvars : list lvar) (s : state) : state :=
  foldr (λ v s, let '(w, x) := uninstantiate v (st_world s) (st_xsink s) in
                set_xsink x (set_world w s)) s lvars.

Definition with_lvars {A} (lvars : list lvar) (m : M A) : M A :=
  modify (λ s, set_world (foldl (λ w v, instantiate v w) (st_world s) lvars) s) ;;
  a ← m;
  modify (uninstantiate_all lvars) ;;
  mret a.

(** [AbstractStatement::exec] *)
Definition statement_exec (execImpl : AbstractStatement -> M Z) (st : AbstractStatement) : M Z :=
  b ← pending;
  if b : bool then mret 0 else execImpl st.

(** The loop over the statements in [StatementBlock::execIntern] *)
Fixpoint exec_statements (execImpl : AbstractStatement -> M Z) (l : list AbstractStatement) : M Z :=
  match l with
  | [] => mret 0
  | st :: l =>
    rc ← statement_exec execImpl st;
    if rc =? 0 then exec_statements execImpl l else mret rc
  end.

Section block.
(** [StatementBlock::execImpl] of the nested blocks, and the fuel for loops. *)
Variable blk : StatementBlock -> M Z.
Variable fuel : nat.

Definition exec_opt (code : option StatementBlock) : M Z :=
  match code with Some b => blk b | None => mret 0 end.

(** The thread's stack of handler iterators *)
Definition pushBlock (i : nat) : M unit := modify (λ s, set_blocks (i :: st_blocks s) s).

Definition popBlock : M nat := λ s,
  match st_blocks s with
  | i :: l => Ok i (set_blocks l s)
  | [] => Crash NoBlock
  end.

Definition advance_on_block_exit : M unit := λ s,
  match st_blocks s with
  | i :: l => Ok tt (set_blocks (S i :: l) s)
  | [] => Crash NoBlock
  end.

Definition obe_applies (type : obe_type_e) (error : bool) : bool :=
  match type with
  | OBE_Unconditional => true
  | OBE_Success => negb error
  | OBE_Error => error
  end.

(** A handler that is not an [on_error] handler runs with the sink [obe]; the
    results are its result and the sink afterwards. *)
Definition run_handler (b : StatementBlock) (obe : sink L) : M (Z * sink L) :=
  x ← get st_xsink;
  modify (set_xsink obe) ;;
  nrc ← blk b;
  obe ← get st_xsink;
  modify (set_xsink x) ;;
  mret (nrc, obe).

(** The chain of a sink is replaced after its first exception was changed
    through the pointer to the caught exception. *)
Definition update_list (x : sink L) (l : list (QoreException value)) : sink L :=
  Sink l (es_tail x) (es_count x) (es_thread_exit x) (es_rethrown x) (es_externally_managed x).

(** An [on_error] handler: the first exception of the sink is the caught
    exception and the implicit argument while it runs, and the sink is cleared
    when an exception was rethrown. *)
Definition run_error_handler (b : StatementBlock) (obe : sink L) : M (Z * sink L) :=
  x ← get st_xsink;
  match getException x with
  | [] => crashed NullException
  | except =>
    old ← get st_catch;
    modify (set_catch except) ;;
    modify (λ s, set_world (push_argv (exception_value (makeExceptionObject except 0)) (st_world s)) s) ;;
    '(nrc, obe) ← run_handler b obe;
    modify (λ s, set_xsink (update_list (st_xsink s) (st_catch s)) s) ;;
    (if es_rethrown obe then modify (λ s, set_xsink (fst (clear (st_xsink s))) s) else mret tt) ;;
    modify (set_catch old) ;;
    call (λ w x, let '(w, x) := pop_argv w x in (tt, w, x)) ;;
    mret (nrc, obe)
  end.

(** The loop over the activated handlers *)
Fixpoint run_handlers (hs : list (obe_type_e * option StatementBlock)) (obe : sink L) (nrc : Z)
  (error : bool) : M Z :=
  match hs with
  | [] => mret nrc
  | (type, code) :: hs =>
    match obe_applies type error, code with
    | true, Some b =>
      '(nrc, obe) ← (match type with OBE_Error => run_error_handler b obe | _ => run_handler b obe end);
      if isEvent obe then
        x ← get st_xsink;
        modify (set_xsink (fst (assimilate x obe))) ;;
        run_handlers hs (snd (assimilate x obe)) nrc true
      else run_handlers hs obe nrc error
    | _, _ => run_handlers hs obe nrc error
    end
  end.

(** [StatementBlock::execIntern] without a debugger *)
Definition execIntern (execImpl : AbstractStatement -> M Z) (b : StatementBlock) : M Z :=
  let handlers := on_block_exit_list b in
  let obe := match handlers with [] => false | _ => true end in
  (if obe : bool then pushBlock 0 else mret tt) ;;
  p ← pending;
  rc ← (if p : bool then mret 0 else exec_statements execImpl (statement_list b));
  if obe : bool then
    error ← get (λ s, isException (st_xsink s));
    i ← popBlock;
    nrc ← run_handlers (drop (length handlers - i) handlers) new_sink 0 error;
    mret (if nrc =? 0 then rc else nrc)
  else mret rc.

(** [IfStatement::execImpl] *)
Definition IfStatement_execImpl (lvars : list lvar) (cond : expr) (if_code else_code : option StatementBlock)
  : M Z :=
  with_lvars lvars (
    val ← call (eval cond);
    p ← pending;
    if p : bool then mret 0
    else if getAsBool val then exec_opt if_code else exec_opt else_code).

(** What the loops do with the result [rc] of their body: go on with a new
    [rc], or leave. *)
Inductive loop_next := LoopOn (rc : Z) | LoopLeave (rc : Z).

Definition after_body (rc : Z) : M loop_next :=
  p ← pending;
  mret (if p || (rc =? RC_BREAK) then LoopLeave 0
        else if rc =? RC_RETURN then LoopLeave rc
        else if rc =? RC_CONTINUE then LoopOn 0
        else LoopOn rc).

Definition loop_body (code : option StatementBlock) (rc : Z) : M loop_next :=
  match code with
  | Some b => rc ← blk b; after_body rc
  | None => mret (LoopOn rc)
  end.

(** [WhileStatement::execImpl] *)
Fixpoint while_loop (n : nat) (cond : expr) (code : option StatementBlock) (rc : Z) : M Z :=
  match n with
  | O => out_of_fuel
  | S n =>
    val ← call (eval cond);
    p ← pending;
    if p || negb (getAsBool val) then mret rc
    else
      r ← loop_body code rc;
      match r with LoopOn rc => while_loop n cond code rc | LoopLeave rc => mret rc end
  end.

Definition WhileStatement_execImpl (lvars : list lvar) (cond : expr) (code : option StatementBlock) : M Z :=
  with_lvars lvars (while_loop fuel cond code 0).

(** [DoWhileStatement::execImpl] *)
Fixpoint do_while_loop (n : nat) (cond : expr) (code : option StatementBlock) (rc : Z) : M Z :=
  match n with
  | O => out_of_fuel
  | S n =>
    r ← loop_body code rc;
    match r with
    | LoopLeave rc => mret rc
    | LoopOn rc =>
      val ← call (eval cond);
      p ← pending;
      if p || negb (getAsBool val) then mret rc else do_while_loop n cond code rc
    end
  end.

Definition DoWhileStatement_execImpl (lvars : list lvar) (cond : expr) (code : option StatementBlock) : M Z :=
  with_lvars lvars (do_while_loop fuel cond code 0).

(** An expression that can be missing: its value, or None *)
Definition eval_opt (e : option expr) : M (option value) :=
  match e with Some e => v ← call (eval e); mret (Some v) | None => mret None end.

(** [ForStatement::execImpl] *)
Fixpoint for_loop (n : nat) (cond iter : option expr) (code : option StatementBlock) (rc : Z) : M Z :=
  match n with
  | O => out_of_fuel
  | S n =>
    p ← pending;
    if p : bool then mret rc
    else
      val ← eval_opt cond;
      p ← pending;
      if match val with Some v => p || negb (getAsBool v) | None => false end then mret rc
      else
        r ← loop_body code rc;
        match r with
        | LoopLeave rc => mret rc
        | LoopOn rc =>
          val ← eval_opt iter;
          p ← pending;
          if match val with Some _ => p | None => false end then mret rc
          else for_loop n cond iter code rc
        end
  end.

Definition ForStatement_execImpl (lvars : list lvar) (assignment cond iter : option expr)
  (code : option StatementBlock) : M Z :=
  with_lvars lvars (
    val ← eval_opt assignment;
    p ← pending;
    if match val with Some _ => p | None => false end then mret 0
    else for_loop fuel cond iter code 0).

(** [ImplicitElementHelper]: the value of the implicit element during [m]. *)
Definition with_element {A} (i : Z) (m : M A) : M A :=
  old ← get (λ s, implicit_element (st_world s));
  modify (λ s, set_world (set_implicit_element (i32 i) (st_world s)) s) ;;
  a ← m;
  modify (λ s, set_world (set_implicit_element old (st_world s)) s) ;;
  mret a.

(** [ForEachStatement::execImpl]: [getNext] of the iterator, the assignment of
    the variable and the body. *)
Fixpoint foreach_loop (n : nat) (var : expr) (b : StatementBlock) (f : iterator) (i : Z) (rc : Z) : M Z :=
  match n with
  | O => out_of_fuel
  | S n =>
    '(iv, f) ← call (λ w x, let '(iv, f, w, x) := getNext f w x in (iv, f, w, x));
    match iv with
    | None => mret rc
    | Some v =>
      p ← pending;
      if p : bool then mret rc
      else
        ok ← call (assign_lvalue var v);
        if negb ok then mret rc
        else
          r ← with_element i (rc ← blk b; after_body rc);
          match r with LoopOn rc => foreach_loop n var b f (u32 (i + 1)) rc | LoopLeave rc => mret rc end
    end
  end.

(** [ForEachStatement::execRef]: the loop over the entries of the list. The
    results are [rc] and the new entries, or None for a return without writing
    them back. *)
Fixpoint ref_loop (var : expr) (b : StatementBlock) (entries : list value) (i : Z) (ln : list value)
  : M (option (Z * list value)) :=
  match entries with
  | [] => mret (Some (0, ln))
  | v :: entries =>
    ok ← call (assign_lvalue var v);
    if negb ok then mret None
    else
      r ← with_element i (
        rc ← blk b;
        p ← pending;
        if p : bool then mret None
        else
          nv ← call (eval var);
          p ← pending;
          mret (if p : bool then None else Some (rc, nv)));
      match r with
      | None => mret None
      | Some (rc, nv) =>
        let ln := ln ++ [nv] in
        if rc =? RC_BREAK then mret (Some (0, ln ++ entries))
        else if rc =? RC_RETURN then mret (Some (rc, ln))
        else
          let rc := if rc =? RC_CONTINUE then 0 else rc in
          match entries with
          | [] => mret (Some (rc, ln))
          | _ => ref_loop var b entries (u32 (i + 1)) ln
          end
      end
  end.

(** [ForEachStatement::execRef]: a value that is not a list is a single entry. *)
Definition execRef (lvars : list lvar) (var lst : expr) (code : option StatementBlock) : M Z :=
  with_lvars lvars (
    vr ← call (evalToRef lst);
    p ← pending;
    if p : bool then mret 0
    else
      tlist ← call (eval_ref vr);
      p ← pending;
      match code with
      | None => mret 0
      | Some b =>
        if p || isNothing tlist then mret 0
        else
          match get_list tlist with
          | Some [] => mret 0
          | l =>
            r ← ref_loop var b (default [tlist] l) 0 [];
            match r with
            | None => mret 0
            | Some (rc, ln) =>
              ok ← call (assign_ref vr (match l with
                                        | Some _ => list_value ln
                                        | None => default nothing (last ln)
                                        end));
              mret (if ok : bool then rc else 0)
            end
          end
      end).

(** [ForEachStatement::execImpl] *)
Definition ForEachStatement_execImpl (lvars : list lvar) (var lst : expr) (is_ref : bool)
  (code : option StatementBlock) : M Z :=
  if is_ref then execRef lvars var lst code
  else with_lvars lvars (
    f ← call (getFunctionalIterator lst);
    p ← pending;
    match p, f, code with
    | false, Some f, Some b => foreach_loop fuel var b f 0 0
    | _, _, _ => mret 0
    end).

(** [TryStatement::execImpl] *)
Definition TryStatement_execImpl (try_block catch_block : option StatementBlock) (id : option lvar) : M Z :=
  return_value ← get st_rv;
  modify (set_rv nothing) ;;
  rc ← exec_opt try_block;
  except ← get (λ s, snd (fst (catchException (st_xsink s))));
  modify (λ s, set_xsink (fst (fst (catchException (st_xsink s)))) s) ;;
  rc ← (match except, catch_block with
        | [], _ => mret rc
        | _, None => mret 0
        | _, Some b =>
          old ← get st_catch;
          modify (set_catch except) ;;
          (match id with
           | Some id => modify (λ s, set_world (instantiate_value id
                          (exception_value (makeExceptionObject except 0)) (st_world s)) s)
           | None => mret tt
           end) ;;
          rc ← blk b;
          (match id with
           | Some id => call (λ w x, let '(w, x) := uninstantiate id w x in (tt, w, x))
           | None => mret tt
           end) ;;
          modify (set_catch old) ;;
          mret rc
        end);
  trv ← get st_rv;
  modify (set_rv (if negb (isNothing trv) && isNothing return_value then trv else return_value)) ;;
  mret rc.

(** [CaseNode::matches] of the classes of case nodes *)
Definition matches (kind : case_kind) (lhs_value : value) : M bool :=
  match kind with
  | CaseNode_ val => mret (isEqualHard lhs_value val)
  | CaseNodeWithOperator val op => call (op_func op lhs_value val)
  | CaseNodeRegex re => call (regex_exec re lhs_value)
  | CaseNodeNegRegex re => b ← call (regex_exec re lhs_value); mret (negb b)
  end.

Definition isDefault (w : CaseNode) : bool := match w with Case _ _ def => def end.
Definition case_code (w : CaseNode) : option StatementBlock := match w with Case _ code _ => code end.
Definition case_kind_of (w : CaseNode) : case_kind := match w with Case kind _ _ => kind end.

(** The first case that matches, with those behind it *)
Fixpoint find_case (se : value) (w : list CaseNode) : M (list CaseNode) :=
  match w with
  | [] => mret []
  | c :: w' =>
    b ← matches (case_kind_of c) se;
    if b : bool then mret w else find_case se w'
  end.

(** The member [deflt]: the last default case; the result starts there. *)
Fixpoint default_case (w : list CaseNode) : list CaseNode :=
  match w with
  | [] => []
  | c :: w' =>
    match default_case w' with
    | [] => if isDefault c then w else []
    | d => d
    end
  end.

(** From the case on, the code of all cases until one of them leaves *)
Fixpoint run_cases (w : list CaseNode) (rc : Z) : M Z :=
  p ← pending;
  match w with
  | [] => mret rc
  | c :: w =>
    if (rc =? 0) && negb p then
      rc ← (match case_code c with Some b => blk b | None => mret rc end);
      run_cases w rc
    else mret rc
  end.

(** [SwitchStatement::execImpl] *)
Definition SwitchStatement_execImpl (lvars : list lvar) (sexp : expr) (cases : list CaseNode) : M Z :=
  with_lvars lvars (
    se ← call (eval sexp);
    p ← pending;
    if p : bool then mret 0
    else
      w ← find_case se cases;
      rc ← run_cases (match w with [] => default_case cases | _ => w end) 0;
      mret (if (rc =? RC_BREAK) || (broken_loop && (rc =? RC_CONTINUE)) then 0 else rc)).

(** An exception goes into the sink in use. *)
Definition raise (f : state -> sink L) : M unit := modify (λ s, set_xsink (f s) s).

(** [ThrowStatement::execImpl] *)
Definition ThrowStatement_execImpl (args : expr) : M Z :=
  a ← call (eval_list args);
  p ← pending;
  if p : bool then mret 0
  else
    raise (λ s, fst (raiseException (st_xsink s)
                       (user_exception nothing list_value (runtime_stack (st_world s)) a))) ;;
    mret 0.

(** [qore_es_private::rethrow] of the caught exception, whose first one is
    changed by the arguments. *)
Definition rethrow_caught (args : list value) : M unit :=
  e ← get st_catch;
  match e with
  | [] => crashed NullCatch
  | _ =>
    modify (set_catch (replaceTop nothing e args)) ;;
    raise (λ s, fst (rethrow (st_xsink s) (st_catch s)))
  end.

(** [RethrowStatement::execImpl] *)
Definition RethrowStatement_execImpl (args : option expr) : M Z :=
  match args with
  | None => rethrow_caught [] ;; mret 0
  | Some args =>
    v ← call (eval_list args);
    p ← pending;
    (if p : bool then mret tt else rethrow_caught v) ;;
    mret 0
  end.

(** [ReturnStatement::execImpl] *)
Definition ReturnStatement_execImpl (exp : option expr) : M Z :=
  val ← eval_opt exp;
  p ← pending;
  (if p : bool then modify (set_rv nothing)
   else
     v ← call (accept_return (default nothing val));
     modify (set_rv v)) ;;
  mret RC_RETURN.

(** [OnBlockExitStatement::execImpl] *)
Definition OnBlockExitStatement_execImpl : M Z := advance_on_block_exit ;; mret 0.

(** [execImpl] of the statements *)
Definition execImpl (st : AbstractStatement) : M Z :=
  match st with
  | ExpressionStatement exp => _ ← call (eval exp); mret 0
  | IfStatement lvars cond if_code else_code => IfStatement_execImpl lvars cond if_code else_code
  | WhileStatement lvars cond code => WhileStatement_execImpl lvars cond code
  | DoWhileStatement lvars cond code => DoWhileStatement_execImpl lvars cond code
  | ForStatement lvars assignment cond iter code => ForStatement_execImpl lvars assignment cond iter code
  | ForEachStatement lvars var lst is_ref code => ForEachStatement_execImpl lvars var lst is_ref code
  | TryStatement try_block catch_block id => TryStatement_execImpl try_block catch_block id
  | SwitchStatement lvars sexp cases => SwitchStatement_execImpl lvars sexp cases
  | ThrowStatement args => ThrowStatement_execImpl args
  | RethrowStatement args => RethrowStatement_execImpl args
  | ReturnStatement exp => ReturnStatement_execImpl exp
  | BreakStatement => mret RC_BREAK
  | ContinueStatement => mret RC_CONTINUE
  | OnBlockExitStatement _ _ => OnBlockExitStatement_execImpl
  | ThreadExitStatement => modify (λ s, set_xsink (raiseThreadExit (st_xsink s)) s) ;; mret 0
  end.
End block.

(** [StatementBlock::execImpl]. The fuel bounds the nesting of the blocks and
    the iterations of each loop. *)
Fixpoint block_execImpl (n : nat) (b : StatementBlock) : M Z :=
  match n with
  | O => out_of_fuel
  | S n =>
    match b with
    | Block lvars _ =>
      with_lvars lvars (execIntern (block_execImpl n) (execImpl (block_execImpl n) n) b)
    end
  end.

(** [TopLevelStatementBlock::execImpl]: its variables belong to the program. *)
Definition top_level_execImpl (n : nat) (b : StatementBlock) : M Z :=
  execIntern (block_execImpl n) (execImpl (block_execImpl n) n) b.

(** [StatementBlock::exec]: the code of a function, with its return value. *)
Definition block_exec (n : nat) (b : StatementBlock) : M value :=
  old ← get st_rv;
  modify (set_rv nothing) ;;
  block_execImpl n b ;;
  return_value ← get st_rv;
  modify (set_rv old) ;;
  mret return_value.

(** ** Parsing *)

(** The flags of the parse context that the statements use. *)
Definition PF_RETURN_VALUE_IGNORED : Z := Z.shiftl 1 0.
Definition PF_RETHROW_OK : Z := Z.shiftl 1 2.
Definition PF_CONST_EXPRESSION : Z := Z.shiftl 1 4.
Definition PF_TOP_LEVEL : Z := Z.shiftl 1 5.
Definition PF_BREAK_OK : Z := Z.shiftl 1 6.
Definition PF_CONTINUE_OK : Z := Z.shiftl 1 7.

Record QoreParseContext := ParseContext { pflag : Z; lvids : Z }.

(** The parse exceptions of the statements; the others come from expressions. *)
Inductive parse_error :=
  | BREAK_NOT_ALLOWED | CONTINUE_NOT_ALLOWED | RETHROW_NOT_IN_CATCH_BLOCK
  | FOREACH_VARIABLE | CASE_DECLARATION | DUPLICATE_CASE | MISSING_RETURN | EXPRESSION_ERROR (n : Z).

(** The result of a parse function, the exceptions raised, and the context;
    None when the parser runs into undefined behaviour. *)
Definition P : Type := QoreParseContext -> option (Z * list parse_error * QoreParseContext).

(** What the parser gets from expressions: [parse_init_value], the checks of
    the type of a catch variable and of a return value. *)
Class ParseLang := {
  parse_init_value : expr -> QoreParseContext -> Z * list parse_error * QoreParseContext;
  parse_init_case : value -> QoreParseContext -> Z * list parse_error * QoreParseContext;
  is_variable : expr -> bool;
  parse_catch_param : lvar -> Z * list parse_error;
  parse_return_type : option expr -> Z * list parse_error }.

Context `{PL : ParseLang}.

Definition set_lvids (n : Z) (pc : QoreParseContext) : QoreParseContext := ParseContext (pflag pc) n.

Definition p_ok : P := λ pc, Some (0, [], pc).
Definition p_raise (e : parse_error) : P := λ pc, Some (-1, [e], pc).
Definition p_value (e : expr) : P := λ pc, Some (parse_init_value e pc).
Definition p_value_opt (e : option expr) : P := match e with Some e => p_value e | None => p_ok end.
Definition p_check (r : Z * list parse_error) : P := λ pc, Some (fst r, snd r, pc).

(** [err = p; if (q && !err) err = -1;] *)
Definition then_parse (p q : P) : P := λ pc,
  '(e1, r1, pc) ← p pc;
  '(e2, r2, pc) ← q pc;
  Some (if negb (e2 =? 0) && (e1 =? 0) then -1 else e1, r1 ++ r2, pc).

(** [err = p; err = q;] *)
Definition override_parse (p q : P) : P := λ pc,
  '(e1, r1, pc) ← p pc;
  '(e2, r2, pc) ← q pc;
  Some (e2, r1 ++ r2, pc).

(** [err = p; if (!err && q) err = -1;] *)
Definition and_parse (p q : P) : P := λ pc,
  '(e1, r1, pc) ← p pc;
  if e1 =? 0 then
    '(e2, r2, pc) ← q pc;
    Some (if e2 =? 0 then 0 else -1, r1 ++ r2, pc)
  else Some (e1, r1, pc).

(** [QoreParseContextFlagHelper] *)
Definition with_flags (unset set : Z) (p : P) : P := λ pc,
  '(e, r, pc') ← p (ParseContext (Z.lor (Z.ldiff (pflag pc) unset) set) (lvids pc));
  Some (e, r, ParseContext (pflag pc) (lvids pc')).

(** [QoreParseContextLvarHelper], and [BlockStartHelper] with [setupLVList]: a
    negative number of variables breaks the vector of the list. *)
Definition with_lvids (p : P) : P := λ pc,
  '(e, r, pc') ← p (set_lvids 0 pc);
  if lvids pc' <? 0 then None else Some (e, r, set_lvids (lvids pc) pc').

(** [isCaseNode] *)
Definition isCaseNode (w : CaseNode) : bool :=
  match w with Case (CaseNode_ _) _ def => negb def | _ => false end.

Definition case_value (w : CaseNode) : value :=
  match w with
  | Case (CaseNode_ val) _ _ | Case (CaseNodeWithOperator val _) _ _ => val
  | _ => nothing
  end.

(** The earlier cases with the same value *)
Definition duplicates (prev : list CaseNode) (w : CaseNode) : list parse_error :=
  map (λ _, DUPLICATE_CASE)
    (List.filter (λ cw, isCaseNode w && isCaseNode cw
                        && isEqualHard (case_value w) (case_value cw)) prev).

(** A block that can be missing *)
Definition p_opt (parse_block : StatementBlock -> P) (code : option StatementBlock) : P :=
  match code with Some b => parse_block b | None => p_ok end.

(** [parseInitImpl] of the statements; the parameters that are parse functions
    parse the blocks. *)
Definition loop_flags : Z := Z.lor PF_BREAK_OK PF_CONTINUE_OK.

Definition ExpressionStatement_parse (exp : expr) : P := with_flags 0 PF_RETURN_VALUE_IGNORED (p_value exp).

Definition IfStatement_parse (cond : expr) (if_code else_code : P) : P :=
  with_flags PF_TOP_LEVEL 0 (with_lvids (then_parse (then_parse (p_value cond) if_code) else_code)).

Definition WhileStatement_parse (cond : expr) (code : P) : P :=
  with_flags PF_TOP_LEVEL 0 (with_lvids (then_parse (p_value cond) (with_flags 0 loop_flags code))).

Definition DoWhileStatement_parse (cond : expr) (code : P) : P :=
  with_flags PF_TOP_LEVEL 0 (with_lvids (then_parse (with_flags 0 loop_flags code) (p_value cond))).

Definition ForStatement_parse (assignment cond iter : option expr) (code : P) : P :=
  let p := then_parse (with_flags 0 PF_RETURN_VALUE_IGNORED (p_value_opt assignment)) (p_value_opt cond) in
  let p := match iter with
           | Some e => override_parse p (with_flags 0 PF_RETURN_VALUE_IGNORED (p_value e))
           | None => p
           end in
  with_flags PF_TOP_LEVEL 0 (with_lvids (then_parse p (with_flags 0 loop_flags code))).

Definition ForEachStatement_parse (var lst : expr) (code : option P) : P :=
  let p := then_parse (and_parse (p_value var)
             (if is_variable var then p_ok else p_raise FOREACH_VARIABLE)) (p_value lst) in
  with_flags PF_TOP_LEVEL 0 (with_lvids (
    match code with
    | Some code => override_parse p (with_flags 0 loop_flags code)
    | None => p
    end)).

Definition TryStatement_parse (try_block : P) (id : option lvar) (catch_block : P) : P :=
  with_flags PF_TOP_LEVEL 0 (
    then_parse (then_parse try_block
      (match id with Some v => p_check (parse_catch_param v) | None => p_ok end))
      (with_flags 0 PF_RETHROW_OK catch_block)).

Definition ThrowStatement_parse (args : expr) : P := with_flags PF_TOP_LEVEL 0 (p_value args).

Definition RethrowStatement_parse (args : option expr) : P := λ pc,
  '(e, r, pc) ← with_flags PF_TOP_LEVEL 0 (p_value_opt args) pc;
  if Z.land (pflag pc) PF_RETHROW_OK =? 0 then Some (-1, r ++ [RETHROW_NOT_IN_CATCH_BLOCK], pc)
  else Some (e, r, pc).

Definition ReturnStatement_parse (exp : option expr) : P :=
  with_flags PF_TOP_LEVEL 0 (then_parse (p_value_opt exp) (p_check (parse_return_type exp))).

Definition BreakStatement_parse : P := λ pc,
  if (Z.land (pflag pc) PF_BREAK_OK =? 0) && negb broken_loop then p_raise BREAK_NOT_ALLOWED pc
  else p_ok pc.

Definition ContinueStatement_parse : P := λ pc,
  if (Z.land (pflag pc) PF_CONTINUE_OK =? 0) && negb broken_loop then p_raise CONTINUE_NOT_ALLOWED pc
  else p_ok pc.

Definition OnBlockExitStatement_parse (type : obe_type_e) (code : P) : P :=
  with_flags (Z.lor PF_TOP_LEVEL loop_flags)
    (match type with OBE_Error => PF_RETHROW_OK | _ => 0 end) code.

(** [parseInitImpl], with that of the switch statement and its loop over the
    cases; [StatementBlock::parseInitImpl] with [parseInitIntern]. *)
Fixpoint parseInitImpl (st : AbstractStatement) : P :=
  match st with
  | ExpressionStatement exp => ExpressionStatement_parse exp
  | IfStatement _ cond if_code else_code =>
    IfStatement_parse cond (p_opt parse_block if_code) (p_opt parse_block else_code)
  | WhileStatement _ cond code => WhileStatement_parse cond (p_opt parse_block code)
  | DoWhileStatement _ cond code => DoWhileStatement_parse cond (p_opt parse_block code)
  | ForStatement _ assignment cond iter code =>
    ForStatement_parse assignment cond iter (p_opt parse_block code)
  | ForEachStatement _ var lst _ code =>
    ForEachStatement_parse var lst (match code with Some b => Some (parse_block b) | None => None end)
  | TryStatement try_block catch_block id =>
    TryStatement_parse (p_opt parse_block try_block) id (p_opt parse_block catch_block)
  | SwitchStatement _ sexp cases =>
    with_flags PF_TOP_LEVEL 0 (with_lvids (
      then_parse (p_value sexp) (
        (fix parse_cases (prev w : list CaseNode) : P :=
           match w with
           | [] => p_ok
           | c :: w => λ pc,
             '(e1, r1, pc) ← with_flags 0 PF_CONST_EXPRESSION
                               (λ pc, Some (parse_init_case (case_value c) pc)) pc;
             if lvids pc <? 0 then None
             else if 0 <? lvids pc then
               '(e2, r2, pc) ← parse_cases (prev ++ [c]) w (set_lvids (-1) pc);
               Some (-1, r1 ++ CASE_DECLARATION :: r2, pc)
             else
               '(e2, r2, pc) ← with_flags 0 PF_BREAK_OK
                                 (match c with Case _ code _ => p_opt parse_block code end) pc;
               '(e3, r3, pc) ← parse_cases (prev ++ [c]) w pc;
               let dup := duplicates prev c in
               Some (if (e1 =? 0) && bool_decide (dup = []) && (e2 =? 0) && (e3 =? 0) then 0 else -1,
                     r1 ++ dup ++ r2 ++ r3, pc)
           end) [] cases)))
  | ThrowStatement args => ThrowStatement_parse args
  | RethrowStatement args => RethrowStatement_parse args
  | ReturnStatement exp => ReturnStatement_parse exp
  | BreakStatement => BreakStatement_parse
  | ContinueStatement => ContinueStatement_parse
  | OnBlockExitStatement type code => OnBlockExitStatement_parse type (p_opt parse_block code)
  | ThreadExitStatement => p_ok
  end
with parse_block (b : StatementBlock) : P :=
  match b with
  | Block _ l =>
    with_lvids (with_flags PF_TOP_LEVEL 0 (
      (fix parse_statements (l : list AbstractStatement) : P :=
         match l with
         | [] => p_ok
         | st :: l => then_parse (then_parse p_ok (parseInitImpl st)) (parse_statements l)
         end) l))
  end.

(** [StatementBlock::parseInit] of the code of a function; [returns] tells
    whether a return value is required ([parseCheckReturn]). *)
Definition block_parseInit (b : StatementBlock) (returns : bool) : P :=
  then_parse (parse_block b)
    (if returns && negb (block_hasFinalReturn b) then p_raise MISSING_RETURN else p_ok).
End statements.

Arguments result {L} A.
Arguments M {L} A.
