(* ===== verification/MiniLang.v ===== *)
(** * A small language of expressions

    An instance of the interface of [Statements] with integers, lists and
    numbered variables. The concrete programs in the witnesses and examples of
    the statement files are written in it. *)

From S2P Require Import Prelude Exceptions Statements.

#[local] Open Scope Z_scope.

Inductive val :=
  | VNothing | VInt (z : Z) | VList (l : list val) | VException (errs : list val).

Inductive exp :=
  | EVal (v : val)
  | EVar (x : nat)
  | ESet (x : nat) (e : exp)
  | EAdd (a b : exp)
  | ELess (a b : exp)
  | EFail (v : val)          (* raises an exception *)
  | EHandled.                (* a call in which an exception was rethrown and caught *)

(** The variables, the implicit argument lists and the implicit element. *)
Record mini_world := World { m_vars : list val; m_argv : list val; m_element : Z }.

Definition get_var (x : nat) (w : mini_world) : val := default VNothing (m_vars w !! x).

Definition set_var (x : nat) (v : val) (w : mini_world) : mini_world :=
  let l := m_vars w in
  let l := if (x <? length l)%nat then l else l ++ replicate (S x - length l) VNothing in
  World (<[x := v]> l) (m_argv w) (m_element w).

Definition as_int (v : val) : Z := match v with VInt z => z | _ => 0 end.

Fixpoint mini_eval (e : exp) (w : mini_world) (x : qore_es_private val)
  : val * mini_world * qore_es_private val :=
  match e with
  | EVal v => (v, w, x)
  | EVar n => (get_var n w, w, x)
  | ESet n e =>
    let '(v, w, x) := mini_eval e w x in
    if isEvent x then (VNothing, w, x) else (v, set_var n v w, x)
  | EAdd a b =>
    let '(va, w, x) := mini_eval a w x in
    let '(vb, w, x) := mini_eval b w x in (VInt (as_int va + as_int vb), w, x)
  | ELess a b =>
    let '(va, w, x) := mini_eval a w x in
    let '(vb, w, x) := mini_eval b w x in (VInt (if as_int va <? as_int vb then 1 else 0), w, x)
  | EFail v => (VNothing, w, fst (raiseException x (system_exception v VNothing VNothing [])))
  | EHandled => (VNothing, w, Sink (es_list x) (es_tail x) (es_count x) (es_thread_exit x) true
                                (es_externally_managed x))
  end.

Fixpoint val_eqb (a b : val) : bool :=
  match a, b with
  | VNothing, VNothing => true
  | VInt x, VInt y => x =? y
  | VList l, VList r | VException l, VException r =>
    (fix eqb_list (l r : list val) : bool :=
       match l, r with
       | [], [] => true
       | a :: l, b :: r => val_eqb a b && eqb_list l r
       | _, _ => false
       end) l r
  | _, _ => false
  end.

#[export] Instance mini : Lang := {|
  value := val; expr := exp; lvar := nat; world := mini_world;
  iterator := list val; reference := nat; op_log_func := val -> val -> bool; regex := Empty_set;
  nothing := VNothing;
  isNothing v := match v with VNothing => true | _ => false end;
  getAsBool v := negb (as_int v =? 0);
  isEqualHard := val_eqb;
  list_value := VList;
  get_list v := match v with VList l => Some l | _ => None end;
  exception_value o := match o with Some o => VException (object_errs o) | None => VNothing end;
  eval := mini_eval;
  eval_list e w x := let '(v, w, x) := mini_eval e w x in
                     (match v with VList l => l | VNothing => [] | v => [v] end, w, x);
  runtime_stack _ := [CT_USER];
  op_func op a b w x := (op a b, w, x);
  regex_exec re _ _ _ := match re with end;
  accept_return v w x := (v, w, x);
  instantiate n w := set_var n VNothing w;
  instantiate_value n v w := set_var n v w;
  uninstantiate n w x := (set_var n VNothing w, x);
  push_argv v w := World (m_vars w) (v :: m_argv w) (m_element w);
  pop_argv w x := (World (m_vars w) (tail (m_argv w)) (m_element w), x);
  implicit_element := m_element;
  set_implicit_element i w := World (m_vars w) (m_argv w) i;
  getFunctionalIterator e w x :=
    let '(v, w, x) := mini_eval e w x in
    (match v with VNothing => None | VList l => Some l | v => Some [v] end, w, x);
  getNext it w x := match it with [] => (None, [], w, x) | v :: it => (Some v, it, w, x) end;
  assign_lvalue e v w x := match e with EVar n => (true, set_var n v w, x) | _ => (false, w, x) end;
  evalToRef e w x := (match e with EVar n => n | _ => O end, w, x);
  eval_ref n w x := (get_var n w, w, x);
  assign_ref n v w x := (true, set_var n v w, x);
  broken_loop := false |}.

#[export] Instance mini_parse : ParseLang := {|
  parse_init_value _ pc := (0, [], pc);
  parse_init_case _ pc := (0, [], pc);
  is_variable e := match e with EVar _ => true | _ => false end;
  parse_catch_param _ := (0, []);
  parse_return_type _ := (0, []) |}.

(** ** Notations for the concrete programs *)

Definition new_world : mini_world := World [] [] 0.
Definition start_state : state := State new_world new_sink [] [] VNothing.
Definition block (l : list AbstractStatement) : StatementBlock := Block [] l.
Definition int (z : Z) : exp := EVal (VInt z).
Definition parsed (b : StatementBlock) : option (Z * list parse_error * QoreParseContext) :=
  block_parseInit b false (ParseContext 0 0).

(** The result of a run: the return value, the variables, the values [err] of
    the exceptions that are left. *)
Definition outcome (r : result value) : option (val * list val * list val) :=
  match r with
  | Ok v s => Some (v, m_vars (st_world s), map ex_err (es_list (st_xsink s)))
  | _ => None
  end.
Definition run (b : StatementBlock) : option (val * list val * list val) :=
  outcome (block_exec 20 b start_state).

(** ** Programs *)

(** 1 + ... + 4, with a loop that is left by [break]. *)
Example run_loop :
  let body := block [
    IfStatement [] (ELess (int 3) (EVar 0)) (Some (block [BreakStatement])) None;
    ExpressionStatement (ESet 0 (EAdd (EVar 0) (int 1)));
    ExpressionStatement (ESet 1 (EAdd (EVar 1) (EVar 0)))] in
  run (block [WhileStatement [] (int 1) (Some body); ReturnStatement (Some (EVar 1))])
    = Some (VInt 10, [VInt 4; VInt 10], []).
Proof. reflexivity. Qed.

(** Handlers run in the reverse order, by the way in which the block is left. *)
Example run_handlers_order :
  let log n := ExpressionStatement (ESet 0 (EAdd (EAdd (EVar 0) (EVar 0)) (int n))) in
  let on ty n := OnBlockExitStatement ty (Some (block [log n])) in
  run (block [on OBE_Unconditional 1; on OBE_Success 0; on OBE_Error 1; on OBE_Unconditional 0;
              ThrowStatement (EVal (VList [VInt 7]))])
    = Some (VNothing, [VInt 3], [VInt 7]).
Proof. reflexivity. Qed.

(** A caught exception. *)
Example run_try :
  run (block [TryStatement (Some (block [ThrowStatement (EVal (VList [VInt 7]))]))
                (Some (block [ReturnStatement (Some (EVar 0))])) (Some O)])
    = Some (VException [VInt 7], [VNothing], []).
Proof. reflexivity. Qed.

(** ** What the code does beside its intention *)

(** Two [on_error] handlers of which the first to run rethrows the exception:
    after the second one the exception is gone. *)
Example on_error_rethrow_loses_exception :
  let b := block [OnBlockExitStatement OBE_Error (Some (block []));
                  OnBlockExitStatement OBE_Error (Some (block [RethrowStatement None]));
                  ThrowStatement (EVal (VList [VInt 7]))] in
  parsed b = Some (0, [], ParseContext 0 0) /\ run b = Some (VNothing, [], []).
Proof. split; reflexivity. Qed.

(** With a third one, the null pointer of the missing exception is used. *)
Example on_error_rethrow_crash :
  let b := block [OnBlockExitStatement OBE_Error (Some (block []));
                  OnBlockExitStatement OBE_Error (Some (block []));
                  OnBlockExitStatement OBE_Error (Some (block [RethrowStatement None]));
                  ThrowStatement (EVal (VList [VInt 7]))] in
  parsed b = Some (0, [], ParseContext 0 0) /\ block_exec 20 b start_state = Crash NullException.
Proof. split; reflexivity. Qed.

(** An [on_error] handler in which some call rethrew an exception that was
    caught again: the exception of the block is gone. *)
Example on_error_handled_loses_exception :
  run (block [OnBlockExitStatement OBE_Error (Some (block [ExpressionStatement EHandled]));
              ThrowStatement (EVal (VList [VInt 7]))]) = Some (VNothing, [], []).
Proof. reflexivity. Qed.

(** The return value of a try block that was left by an exception stays, and
    the value of a later try block is dropped. *)
Example try_stale_return_value :
  let fail := OnBlockExitStatement OBE_Unconditional
                (Some (block [ThrowStatement (EVal (VList [VInt 7]))])) in
  let t := TryStatement (Some (block [fail; ReturnStatement (Some (int 1))])) (Some (block [])) None in
  run (block [t]) = Some (VInt 1, [], []) /\
  run (block [t; TryStatement (Some (block [ReturnStatement (Some (int 2))])) (Some (block [])) None])
    = Some (VInt 1, [], []).
Proof. split; reflexivity. Qed.

(** A return in the body of a foreach statement over a reference cuts the list
    off; a break keeps the other entries. *)
Example foreach_ref_return_truncates :
  let prog st := block [ExpressionStatement (ESet 0 (EVal (VList [VInt 1; VInt 2; VInt 3])));
                        ForEachStatement [] (EVar 1) (EVar 0) true (Some (block [st]))] in
  run (prog (ReturnStatement None)) = Some (VNothing, [VList [VInt 1]; VInt 1], []) /\
  run (prog BreakStatement) = Some (VNothing, [VList [VInt 1; VInt 2; VInt 3]; VInt 1], []).
Proof. split; reflexivity. Qed.

(** The result of a handler that returns is overwritten by the next handler:
    the statements after the block are executed. *)
Example handler_return_forgotten :
  let on l := OnBlockExitStatement OBE_Unconditional (Some (block l)) in
  let set := ExpressionStatement (ESet 0 (int 5)) in
  let prog hs := block [IfStatement [] (int 1) (Some (block hs)) None; set] in
  run (prog [on [ReturnStatement None]]) = Some (VNothing, [], []) /\
  run (prog [on []; on [ReturnStatement None]]) = Some (VNothing, [VInt 5], []).
Proof. split; reflexivity. Qed.

(** A bare rethrow after one with arguments throws the changed exception. *)
Example rethrow_changes_caught_exception :
  let inner := TryStatement (Some (block [RethrowStatement (Some (EVal (VList [VInt 8])))]))
                 (Some (block [])) None in
  run (block [TryStatement (Some (block [ThrowStatement (EVal (VList [VInt 7]))]))
                (Some (block [inner; RethrowStatement None])) None])
    = Some (VNothing, [], [VInt 8]).
Proof. reflexivity. Qed.
