(* ===== verification/StatementTypes.v ===== *)
(** * The static checks of statements and their execution

    What the parser checks of statements is enough for their execution: where
    [break], [continue] and [rethrow] are accepted, and which statements end a
    block. The proofs use a small logic for the monad of [Statements]. *)

From S2P Require Import Prelude Exceptions Statements MiniLang.

#[local] Open Scope Z_scope.

(** ** A logic for the interpreter *)

Section wp.
Context {L : Lang}.

(** Running [m] in [s] gives a result with [Q], or crashes with [E], or runs
    out of fuel. *)
Definition wp {A} (m : M A) (Q : A -> state -> Prop) (E : crash -> Prop) (s : state) : Prop :=
  match m s with Ok a s' => Q a s' | Crash e => E e | OutOfFuel => True end.

Lemma wp_ret {A} (a : A) Q E s : Q a s -> wp (mret a) Q E s.
Proof. exact (λ H, H). Qed.

Lemma wp_bind {A B} (m : M A) (f : A -> M B) Q E s :
  wp m (λ a s', wp (f a) Q E s') E s -> wp (m ≫= f) Q E s.
Proof. unfold wp, mbind, M_bind. destruct (m s); auto. Qed.

Lemma wp_mono {A} (m : M A) (Q Q' : A -> state -> Prop) E s :
  wp m Q E s -> (forall a s', Q a s' -> Q' a s') -> wp m Q' E s.
Proof. unfold wp. destruct (m s); auto. Qed.

Lemma wp_get {A} (f : state -> A) Q E s : Q (f s) s -> wp (get f) Q E s.
Proof. exact (λ H, H). Qed.

Lemma wp_modify f Q E s : Q tt (f s) -> wp (modify f) Q E s.
Proof. exact (λ H, H). Qed.

Lemma wp_fuel {A} Q E s : wp (@out_of_fuel L A) Q E s.
Proof. exact I. Qed.

(** An operation of the interface changes the world and the sink. *)
Lemma wp_call {A} (f : world -> sink L -> A * world * sink L) Q E s :
  (forall a w x, Q a (set_xsink x (set_world w s))) -> wp (call f) Q E s.
Proof. intros H. unfold wp, call. destruct (f _ _) as [[a w] x]. apply H. Qed.

Lemma wp_popBlock i l Q E s : st_blocks s = i :: l -> Q i (set_blocks l s) -> wp popBlock Q E s.
Proof. intros H HQ. unfold wp, popBlock. rewrite H. exact HQ. Qed.

(** ** States that agree on the control data of the thread *)

(** What becomes of the caught exception: it is the same, unless [A] allows that a
    [rethrow] changes it through the pointer; then there still is one. *)
Definition same_catch (A : Prop) (e e' : list (QoreException value)) : Prop :=
  (e' = [] <-> e = []) /\ (A \/ e' = e).
Definition same_control (A : Prop) (s s' : state) : Prop :=
  st_blocks s' = st_blocks s /\ same_catch A (st_catch s) (st_catch s').

#[global] Instance same_catch_refl A : Reflexive (same_catch A).
Proof. intros e. split; [tauto|auto]. Qed.
#[global] Instance same_catch_trans A : Transitive (same_catch A).
Proof. intros a b c [H1 H2] [H3 H4]. split; [tauto|]. destruct H2, H4; auto. right. congruence. Qed.

#[global] Instance same_control_refl A : Reflexive (same_control A).
Proof. intros s. split; reflexivity. Qed.

#[global] Instance same_control_trans A : Transitive (same_control A).
Proof. intros a b c [H1 H2] [H3 H4]. split; [congruence|]. etransitivity; eassumption. Qed.

Lemma same_control_uninstantiate A lvars s : same_control A s (uninstantiate_all lvars s).
Proof.
  induction lvars as [|v l IH]; [reflexivity|]. simpl. transitivity (uninstantiate_all l s); [exact IH|].
  fold (uninstantiate_all l s). destruct (uninstantiate v _ _). split; reflexivity.
Qed.

Lemma replaceTop_nil (e : list (QoreException value)) args : replaceTop nothing e args = [] <-> e = [].
Proof. destruct e; simpl; split; congruence. Qed.
End wp.

Create HintDb stmt.
#[global] Hint Extern 1 (same_control _ ?s ?s) => reflexivity : stmt.
#[global] Hint Extern 2 (same_control _ _ (set_xsink _ _)) => (split; reflexivity) : stmt.
#[global] Hint Extern 2 (same_control _ _ (set_world _ _)) => (split; reflexivity) : stmt.

(** Two states that differ in the world and the sinks only. *)
Ltac same := solve [assumption | split; reflexivity
  | etransitivity; [eassumption|]; split; reflexivity].

(** Symbolic execution up to the first call of a block or loop. *)
Ltac wp_step :=
  match goal with
  | |- wp (_ ≫= _) _ _ _ => apply wp_bind
  | |- wp (mret _) _ _ _ => apply wp_ret
  | |- wp (get _) _ _ _ => apply wp_get
  | |- wp pending _ _ _ => apply wp_get
  | |- wp (modify _) _ _ _ => apply wp_modify
  | |- wp (raise _) _ _ _ => apply wp_modify
  | |- wp out_of_fuel _ _ _ => apply wp_fuel
  | |- wp (call _) _ _ _ => apply wp_call; intros
  | |- wp (if ?b then _ else _) _ _ _ => lazymatch type of b with bool => let E := fresh "Hif" in destruct b eqn:E end
  end; cbv beta.
Ltac wp_steps := repeat wp_step.

(** ** What the parser accepts *)

Class ParseLaws {L : Lang} {PL : @ParseLang L} := {
  parse_init_value_pflag : forall e pc, pflag (snd (parse_init_value e pc)) = pflag pc;
  parse_init_case_pflag : forall v pc, pflag (snd (parse_init_case v pc)) = pflag pc }.

(** The parse functions of the statements *)
Ltac parse_defs := unfold ExpressionStatement_parse, IfStatement_parse, WhileStatement_parse,
  DoWhileStatement_parse, ForStatement_parse, ForEachStatement_parse, TryStatement_parse,
  ThrowStatement_parse, RethrowStatement_parse, ReturnStatement_parse, BreakStatement_parse,
  ContinueStatement_parse, OnBlockExitStatement_parse, loop_flags in *.

Section types.
Context {L : Lang} {PL : @ParseLang L} {PW : ParseLaws}.

(** [break] and [continue] leave a block only where the flags allow it, or
    everywhere under [PO_BROKEN_LOOP_STATEMENT]. *)
Definition may_break (f : Z) : Prop := broken_loop = true \/ Z.testbit f 6 = true.
Definition may_continue (f : Z) : Prop := broken_loop = true \/ Z.testbit f 7 = true.

Definition rc_ok (f rc : Z) : Prop :=
  rc = 0 \/ rc = RC_RETURN \/ (rc = RC_BREAK /\ may_break f) \/ (rc = RC_CONTINUE /\ may_continue f).

(** A caught exception is there where [rethrow] is allowed. *)
Definition catch_ok (A : Prop) (f : Z) (s : state) : Prop :=
  Z.testbit f 2 = true -> st_catch s <> [] /\ A.

Definition typed (f : Z) (m : M Z) : Prop := forall (A : Prop) s,
  catch_ok A f s -> wp m (λ rc s', rc_ok f rc /\ same_control A s s') (λ e, e = NullException) s.

Lemma catch_ok_same {A : Prop} f s s' : same_control A s s' -> catch_ok A f s -> catch_ok A f s'.
Proof. unfold catch_ok. intros [_ [H _]] C B. destruct (C B) as [N a]. tauto. Qed.

(** *** Inversion of the parse functions *)

Lemma then_parse_inv p q pc e pc' :
  then_parse p q pc = Some (e, [], pc') ->
  exists e1 pc1 e2, p pc = Some (e1, [], pc1) /\ q pc1 = Some (e2, [], pc').
Proof.
  unfold then_parse. destruct (p pc) as [[[e1 r1] pc1]|] eqn:E1; [|discriminate]. simpl.
  destruct (q pc1) as [[[e2 r2] pc2]|] eqn:E2; [|discriminate]. simpl.
  intros [= _ Hr <-]. apply app_eq_nil in Hr as [-> ->]. exists e1, pc1, e2. auto.
Qed.

Lemma and_parse_inv p q pc e pc' :
  and_parse p q pc = Some (e, [], pc') ->
  exists e1 pc1, p pc = Some (e1, [], pc1) /\
    (pc' = pc1 \/ exists e2, q pc1 = Some (e2, [], pc')).
Proof.
  unfold and_parse. destruct (p pc) as [[[e1 r1] pc1]|] eqn:E1; [|discriminate]. simpl.
  destruct (e1 =? 0); [|intros [= _ -> <-]; eauto].
  destruct (q pc1) as [[[e2 r2] pc2]|] eqn:E2; [|discriminate]. simpl.
  intros [= _ Hr <-]. apply app_eq_nil in Hr as [-> ->]. eauto 6.
Qed.

Lemma override_parse_inv p q pc e pc' :
  override_parse p q pc = Some (e, [], pc') ->
  exists e1 pc1 e2, p pc = Some (e1, [], pc1) /\ q pc1 = Some (e2, [], pc').
Proof.
  unfold override_parse. destruct (p pc) as [[[e1 r1] pc1]|] eqn:E1; [|discriminate]. simpl.
  destruct (q pc1) as [[[e2 r2] pc2]|] eqn:E2; [|discriminate]. simpl.
  intros [= _ Hr <-]. apply app_eq_nil in Hr as [-> ->]. exists e1, pc1, e2. auto.
Qed.

Lemma with_flags_inv u t p pc e r pc' :
  with_flags u t p pc = Some (e, r, pc') ->
  pflag pc' = pflag pc /\
  exists pc1 pc2, pflag pc1 = Z.lor (Z.ldiff (pflag pc) u) t /\ p pc1 = Some (e, r, pc2).
Proof.
  unfold with_flags. destruct (p _) as [[[e1 r1] pc1]|] eqn:E; [|discriminate]. simpl.
  intros [= <- <- <-]. split; [reflexivity|]. eexists _, _. split; [|exact E]. reflexivity.
Qed.

Lemma with_lvids_inv p pc e r pc' :
  with_lvids p pc = Some (e, r, pc') ->
  exists pc1 pc2, pflag pc1 = pflag pc /\ pflag pc' = pflag pc2 /\ p pc1 = Some (e, r, pc2).
Proof.
  unfold with_lvids. destruct (p _) as [[[e1 r1] pc1]|] eqn:E; [|discriminate]. simpl.
  destruct (lvids pc1 <? 0); [discriminate|]. intros [= <- <- <-].
  eexists _, _. split; [|split; [|exact E]]; reflexivity.
Qed.

Lemma p_value_inv v pc e r pc' : p_value v pc = Some (e, r, pc') -> pflag pc' = pflag pc.
Proof. unfold p_value. intros [= H]. rewrite <- (parse_init_value_pflag v pc), H. reflexivity. Qed.

Lemma p_value_opt_inv v pc e r pc' : p_value_opt v pc = Some (e, r, pc') -> pflag pc' = pflag pc.
Proof. destruct v; simpl; [apply p_value_inv|]. intros [= _ _ <-]. reflexivity. Qed.

(** *** Flags *)

Lemma flags_spec f u t k :
  0 <= k -> Z.testbit (Z.lor (Z.ldiff f u) t) k = (Z.testbit f k && negb (Z.testbit u k)) || Z.testbit t k.
Proof. intros. rewrite Z.lor_spec, Z.ldiff_spec. reflexivity. Qed.

Lemma flag_test f k : 0 <= k -> (Z.land f (Z.shiftl 1 k) =? 0) = negb (Z.testbit f k).
Proof.
  intros Hk. assert (Z.shiftl 1 k = 2 ^ k) as -> by (rewrite Z.shiftl_mul_pow2; lia).
  destruct (Z.testbit f k) eqn:T; simpl; [apply Z.eqb_neq|apply Z.eqb_eq].
  - intros H. assert (Z.testbit (Z.land f (2 ^ k)) k = true) as B.
    { rewrite Z.land_spec, T, Z.pow2_bits_true; [reflexivity|lia]. }
    rewrite H, Z.bits_0 in B. discriminate.
  - apply Z.bits_inj'. intros j Hj. rewrite Z.land_spec, Z.bits_0.
    destruct (Z.eq_dec k j) as [->|N]; [rewrite T; reflexivity|].
    rewrite Z.pow2_bits_false by lia. apply andb_false_r.
Qed.

(** A block that is parsed with other flags can be run where it was parsed
    when the bits that were added are harmless. *)
Lemma rc_ok_weaken f g rc :
  (may_break f -> may_break g) -> (may_continue f -> may_continue g) -> rc_ok f rc -> rc_ok g rc.
Proof. unfold rc_ok. tauto. Qed.

Lemma parse_block_pflag b pc e r pc' : parse_block b pc = Some (e, r, pc') -> pflag pc' = pflag pc.
Proof.
  destruct b. simpl. intros H. apply with_lvids_inv in H as (pc1 & pc2 & E1 & E2 & H).
  apply with_flags_inv in H as [E3 _]. congruence.
Qed.

Lemma p_opt_pflag code pc e r pc' : p_opt parse_block code pc = Some (e, r, pc') -> pflag pc' = pflag pc.
Proof. destruct code; simpl; [apply parse_block_pflag|]. intros [= _ _ <-]. reflexivity. Qed.

Lemma p_check_inv x pc e r pc' : p_check x pc = Some (e, r, pc') -> pc' = pc.
Proof. unfold p_check. congruence. Qed.

Lemma p_ok_inv pc e r pc' : p_ok pc = Some (e, r, pc') -> pc' = pc.
Proof. unfold p_ok. congruence. Qed.

(** The loops over cases and statements on their own *)
Fixpoint parse_cases (prev w : list CaseNode) : P :=
  match w with
  | [] => p_ok
  | c :: w => λ pc,
    '(e1, r1, pc) ← with_flags 0 PF_CONST_EXPRESSION
                      (λ pc, Some (parse_init_case (case_value c) pc)) pc;
    if lvids pc <? 0 then None
    else if 0 <? lvids pc then
      '(e2, r2, pc) ← parse_cases (prev ++ [c]) w (set_lvids (-1) pc);
      Some (-1, r1 ++ CASE_DECLARATION :: r2, pc)
    else
      '(e2, r2, pc) ← with_flags 0 PF_BREAK_OK
                        (match c with Case _ code _ => p_opt parse_block code end) pc;
      '(e3, r3, pc) ← parse_cases (prev ++ [c]) w pc;
      let dup := duplicates prev c in
      Some (if (e1 =? 0) && bool_decide (dup = []) && (e2 =? 0) && (e3 =? 0) then 0 else -1,
            r1 ++ dup ++ r2 ++ r3, pc)
  end.

Lemma parse_switch lvars sexp cases :
  parseInitImpl (SwitchStatement lvars sexp cases) =
  with_flags PF_TOP_LEVEL 0 (with_lvids (then_parse (p_value sexp) (parse_cases [] cases))).
Proof. reflexivity. Qed.

(** A part was parsed with the flags [f] and without an exception. *)
Definition code_ok (f : Z) (code : option StatementBlock) : Prop :=
  exists pc e pc', pflag pc = f /\ p_opt parse_block code pc = Some (e, [], pc').

Lemma parse_cases_inv prev w pc e pc' :
  parse_cases prev w pc = Some (e, [], pc') ->
  Forall (λ c, code_ok (Z.lor (Z.ldiff (pflag pc) 0) PF_BREAK_OK) (case_code c)) w.
Proof.
  revert prev pc e pc'. induction w as [|c w IH]; intros prev pc e pc' H; [constructor|].
  cbn [parse_cases] in H.
  destruct (with_flags 0 PF_CONST_EXPRESSION _ pc) as [[[e1 r1] pc1]|] eqn:E1; [|discriminate].
  cbn in H. apply with_flags_inv in E1 as [F1 _].
  destruct (lvids pc1 <? 0); [discriminate|]. destruct (0 <? lvids pc1).
  { destruct (parse_cases _ w _) as [[[e2 r2] pc2]|]; [|discriminate]. cbn in H.
    injection H as _ H _. destruct r1; discriminate. }
  destruct (with_flags 0 PF_BREAK_OK _ pc1) as [[[e2 r2] pc2]|] eqn:E2; [|discriminate]. cbn in H.
  destruct (parse_cases _ w pc2) as [[[e3 r3] pc3]|] eqn:E3; [|discriminate]. cbn in H.
  injection H as _ H _. apply app_eq_nil in H as [_ H]. apply app_eq_nil in H as [_ H].
  apply app_eq_nil in H as [-> ->].
  apply with_flags_inv in E2 as (F2 & pc4 & pc5 & F4 & E2). constructor.
  - exists pc4, e2, pc5. split; [rewrite F4, F1; reflexivity|]. destruct c. exact E2.
  - rewrite <- F1, <- F2. eapply IH, E3.
Qed.

Fixpoint parse_statements (l : list AbstractStatement) : P :=
  match l with
  | [] => p_ok
  | st :: l => then_parse (then_parse p_ok (parseInitImpl st)) (parse_statements l)
  end.

Lemma parse_block_eq lvars l :
  parse_block (Block lvars l) = with_lvids (with_flags PF_TOP_LEVEL 0 (parse_statements l)).
Proof. reflexivity. Qed.

Definition statement_ok (f : Z) (st : AbstractStatement) : Prop :=
  exists pc e pc', pflag pc = f /\ parseInitImpl st pc = Some (e, [], pc').

Lemma parseInitImpl_pflag st pc e r pc' :
  parseInitImpl st pc = Some (e, r, pc') -> pflag pc' = pflag pc.
Proof.
  destruct st; cbn [parseInitImpl]; parse_defs; intros H; try (apply with_flags_inv in H as [H _]; exact H).
  - destruct (with_flags _ _ _ _) as [[[e1 r1] pc1]|] eqn:E; [|discriminate]. simpl in H.
    apply with_flags_inv in E as [E _]. destruct (_ =? _); injection H as _ _ <-; exact E.
  - destruct (_ && _); injection H as _ _ <-; reflexivity.
  - destruct (_ && _); injection H as _ _ <-; reflexivity.
  - injection H as _ _ <-. reflexivity.
Qed.

Lemma parse_statements_inv l pc e pc' :
  parse_statements l pc = Some (e, [], pc') -> Forall (statement_ok (pflag pc)) l.
Proof.
  revert pc e pc'. induction l as [|st l IH]; intros pc e pc' H; [constructor|].
  cbn [parse_statements] in H. apply then_parse_inv in H as (e1 & pc1 & e2 & H1 & H2).
  apply then_parse_inv in H1 as (e3 & pc3 & e4 & H3 & H1). apply p_ok_inv in H3 as ->.
  constructor; [exists pc, e4, pc1; auto|].
  rewrite <- (parseInitImpl_pflag _ _ _ _ _ H1). eapply IH, H2.
Qed.

End types.

(** The parse functions of the parts of a statement, and the flags that they
    were called with. *)
Ltac pinv := parse_defs; repeat match goal with
  | H : with_flags _ _ _ _ = Some _ |- _ => apply with_flags_inv in H as (? & ? & ? & ? & H)
  | H : with_lvids _ _ = Some _ |- _ => apply with_lvids_inv in H as (? & ? & ? & ? & H)
  | H : then_parse _ _ _ = Some (_, [], _) |- _ => apply then_parse_inv in H as (? & ? & ? & ? & H)
  | H : and_parse _ _ _ = Some (_, [], _) |- _ => apply and_parse_inv in H as (? & ? & ? & H)
  | H : override_parse _ _ _ = Some (_, [], _) |- _ => apply override_parse_inv in H as (? & ? & ? & ? & H)
  | H : p_value _ _ = Some _ |- _ => apply p_value_inv in H
  | H : p_value_opt _ _ = Some _ |- _ => apply p_value_opt_inv in H
  | H : p_check _ _ = Some _ |- _ => apply p_check_inv in H; subst
  | H : p_ok _ = Some _ |- _ => apply p_ok_inv in H; subst
  end;
  repeat match goal with
  | H : p_opt parse_block ?c ?p = Some (_, _, ?q) |- _ =>
    lazymatch goal with
    | _ : pflag q = pflag p |- _ => fail
    | _ => pose proof (p_opt_pflag _ _ _ _ _ H)
    end
  end.

Ltac bits := unfold may_break, may_continue;
  repeat match goal with H : pflag ?p = _ |- context [pflag ?p] => rewrite H end;
  rewrite ?flags_spec by lia;
  repeat match goal with
  | |- context [Z.testbit ?c ?k] =>
    let v := eval vm_compute in (Z.testbit c k) in
    lazymatch v with true => idtac | false => idtac end; change (Z.testbit c k) with v
  end;
  rewrite ?andb_true_r, ?orb_false_r, ?orb_true_r; simpl; try reflexivity; auto.

Section statements.
Context {L : Lang} {PL : @ParseLang L} {PW : ParseLaws}.

Lemma if_code_ok lvars cond ic ec pc e pc' :
  parseInitImpl (IfStatement lvars cond ic ec) pc = Some (e, [], pc') ->
  code_ok (Z.lor (Z.ldiff (pflag pc) PF_TOP_LEVEL) 0) ic /\
  code_ok (Z.lor (Z.ldiff (pflag pc) PF_TOP_LEVEL) 0) ec.
Proof. simpl. intros H. pinv. split; (do 3 eexists; split; [|eassumption]; congruence). Qed.

Lemma try_code_ok tb cb id pc e pc' :
  parseInitImpl (TryStatement tb cb id) pc = Some (e, [], pc') ->
  code_ok (Z.lor (Z.ldiff (pflag pc) PF_TOP_LEVEL) 0) tb /\
  code_ok (Z.lor (Z.ldiff (Z.lor (Z.ldiff (pflag pc) PF_TOP_LEVEL) 0) 0) PF_RETHROW_OK) cb.
Proof.
  simpl. intros H. pinv. split; destruct id as [v|]; pinv;
    (do 3 eexists; split; [|eassumption]; congruence).
Qed.

(** *** Statements over typed blocks *)

Section body.
Variable blk : StatementBlock -> M Z.
Variable fuel : nat.
Hypothesis Hblk : forall b pc e pc', parse_block b pc = Some (e, [], pc') -> typed (pflag pc) (blk b).

(** All runs below are compared with the state [s0] in which they started. *)
Lemma typed_use {A : Prop} f m s0 s (Q : Z -> state -> Prop) :
  typed f m -> catch_ok A f s0 -> same_control A s0 s ->
  (forall rc s', rc_ok f rc -> same_control A s0 s' -> Q rc s') -> wp m Q (λ e, e = NullException) s.
Proof.
  intros T C S H. eapply wp_mono; [apply T; eapply catch_ok_same; eassumption|].
  intros rc s' [R S']. apply H; [exact R|]. etransitivity; eassumption.
Qed.

Lemma with_lvars_typed {B} {A : Prop} lvars (m : M B) (Q : B -> Prop) s0 s :
  same_control A s0 s ->
  (forall s1, same_control A s0 s1 ->
     wp m (λ a s', Q a /\ same_control A s0 s') (λ e, e = NullException) s1) ->
  wp (with_lvars lvars m) (λ a s', Q a /\ same_control A s0 s') (λ e, e = NullException) s.
Proof.
  intros S H. unfold with_lvars. wp_steps. eapply wp_mono.
  { apply H. etransitivity; [exact S|]. auto with stmt. }
  intros a s' [HQ S']. wp_steps. split; [exact HQ|].
  etransitivity; [exact S'|]. apply same_control_uninstantiate.
Qed.

Lemma typed_opt code pc e pc' :
  p_opt parse_block code pc = Some (e, [], pc') -> typed (pflag pc) (exec_opt blk code).
Proof.
  destruct code as [b|]; simpl; [apply Hblk|]. intros _ A s _. wp_steps.
  split; [left; reflexivity|reflexivity].
Qed.

(** The body of a loop leaves it with 0 or [RC_RETURN], or lets it go on. *)
Lemma loop_body_typed {A : Prop} f code pc e pc' s0 s :
  Z.testbit (pflag pc) 2 = Z.testbit f 2 ->
  p_opt parse_block code pc = Some (e, [], pc') -> catch_ok A f s0 -> same_control A s0 s ->
  wp (loop_body blk code 0)
    (λ r s', same_control A s0 s' /\ (r = LoopOn 0 \/ r = LoopLeave 0 \/ r = LoopLeave RC_RETURN))
    (λ e, e = NullException) s.
Proof.
  intros F Hp C S. destruct code as [b|]; simpl; [|wp_steps; auto].
  wp_steps. eapply (typed_use (pflag pc)); [eapply Hblk, Hp| |exact S|].
  { unfold catch_ok. rewrite F. exact C. }
  intros rc s' R S'. unfold after_body. wp_steps. split; [exact S'|].
  destruct (isEvent (st_xsink s')); simpl; [auto|].
  destruct R as [->|[->|[[-> _]| [-> _]]]]; simpl; auto.
Qed.

Definition loop_ok (rc : Z) : Prop := rc = 0 \/ rc = RC_RETURN.

Lemma loop_ok_rc f rc : loop_ok rc -> rc_ok f rc.
Proof. unfold loop_ok, rc_ok. tauto. Qed.

Section loop.
Context {A : Prop} (f : Z) (code : option StatementBlock) (s0 : state).
Context (pc pc' : QoreParseContext) (e : Z).
Hypothesis Hflag : Z.testbit (pflag pc) 2 = Z.testbit f 2.
Hypothesis Hcode : p_opt parse_block code pc = Some (e, [], pc').
Hypothesis Hcatch : catch_ok A f s0.

Ltac body := eapply wp_mono; [eapply loop_body_typed; try eassumption; same|];
  cbv beta; intros r s' [S' [->|[->| ->]]].
Ltac done_loop := wp_steps; split; [unfold loop_ok; tauto|same].

Lemma while_loop_typed n cond s :
  same_control A s0 s ->
  wp (while_loop blk n cond code 0) (λ rc s', loop_ok rc /\ same_control A s0 s') (λ e, e = NullException) s.
Proof.
  revert s. induction n as [|n IH]; intros s S; [exact I|]. simpl. wp_steps.
  - done_loop.
  - body; [apply IH; assumption| |]; done_loop.
Qed.

Lemma do_while_loop_typed n cond s :
  same_control A s0 s ->
  wp (do_while_loop blk n cond code 0) (λ rc s', loop_ok rc /\ same_control A s0 s')
    (λ e, e = NullException) s.
Proof.
  revert s. induction n as [|n IH]; intros s S; [exact I|]. simpl. wp_steps.
  body; [|done_loop|done_loop]. wp_steps; [done_loop|]. apply IH. same.
Qed.

Lemma for_loop_typed n cond iter s :
  same_control A s0 s ->
  wp (for_loop blk n cond iter code 0) (λ rc s', loop_ok rc /\ same_control A s0 s')
    (λ e, e = NullException) s.
Proof.
  revert s. induction n as [|n IH]; intros s S; [exact I|]. simpl. wp_steps; [done_loop|].
  apply (wp_mono _ (λ _ s', same_control A s0 s')).
  { destruct cond; simpl; wp_steps; same. }
  intros val s1 S1. wp_steps; [done_loop|]. body; [|done_loop|done_loop]. wp_steps.
  apply (wp_mono _ (λ _ s', same_control A s0 s')).
  { destruct iter; simpl; wp_steps; same. }
  intros val' s2 S2. wp_steps; [done_loop|]. apply IH. same.
Qed.

Lemma after_body_typed b s :
  code = Some b -> same_control A s0 s ->
  wp (rc ← blk b; after_body rc)
    (λ r s', same_control A s0 s' /\ (r = LoopOn 0 \/ r = LoopLeave 0 \/ r = LoopLeave RC_RETURN))
    (λ e, e = NullException) s.
Proof.
  intros -> S. apply (loop_body_typed f (Some b) pc e pc' s0 s); assumption.
Qed.

Lemma with_element_typed {B} i (m : M B) (Q : B -> state -> Prop) E s :
  (forall w, same_control A s (set_world w s) ->
     wp m (λ a s', forall w, Q a (set_world w s')) E (set_world w s)) ->
  wp (with_element i m) Q E s.
Proof.
  intros H. unfold with_element. wp_steps. eapply wp_mono; [apply H; same|].
  intros a s' HQ. wp_steps. apply HQ.
Qed.

Lemma foreach_loop_typed n var b it i s :
  code = Some b -> same_control A s0 s ->
  wp (foreach_loop blk n var b it i 0) (λ rc s', loop_ok rc /\ same_control A s0 s')
    (λ e, e = NullException) s.
Proof.
  intros Hb. revert it i s. induction n as [|n IH]; intros it i s S; [exact I|]. simpl.
  wp_steps. destruct a as [[v|] it']; [|done_loop]. wp_steps; [done_loop|done_loop|].
  apply with_element_typed. intros wE _. eapply wp_mono; [apply after_body_typed; [assumption|same]|].
  cbv beta; intros r s' [S' [->|[->| ->]]]; intros wF; [apply IH; same|done_loop|done_loop].
Qed.

Lemma ref_loop_typed var b entries i ln s :
  code = Some b -> same_control A s0 s ->
  wp (ref_loop blk var b entries i ln)
    (λ r s', same_control A s0 s' /\ forall rc l, r = Some (rc, l) -> loop_ok rc)
    (λ e, e = NullException) s.
Proof.
  intros Hb. revert i ln s. induction entries as [|v entries IH]; intros i ln s S; simpl.
  { wp_steps. split; [exact S|]. intros rc l [= <- _]. left. reflexivity. }
  wp_steps; [split; [same|congruence]|].
  apply with_element_typed. intros wE _. wp_steps. subst code.
  eapply (typed_use (pflag pc) _ s0); [eapply Hblk, Hcode| |same|].
  { unfold catch_ok. rewrite Hflag. exact Hcatch. }
  intros rc s' R S'. wp_steps; [intros wF; wp_steps; split; [same|congruence]|].
  intros wF. destruct (isEvent (st_xsink (set_xsink _ _))); cbv iota beta; wp_steps; split_and?; try same.
  - congruence.
  - intros rc' l [= <- _]. left. reflexivity.
  - intros rc' l [= <- _]. right. apply Z.eqb_eq. assumption.
  - destruct entries; [|apply IH; same]. wp_steps. split; [same|]. intros rc' l [= <- _].
    destruct R as [->|[->|[[-> _]| [-> _]]]]; try discriminate; left; reflexivity.
Qed.
End loop.

(** Running a block that was parsed with flags between which and [f] the
    difference does not matter. *)
Lemma typed_opt_weaken {A : Prop} f code pc e pc' s0 s (Q : Z -> state -> Prop) :
  p_opt parse_block code pc = Some (e, [], pc') ->
  Z.testbit (pflag pc) 2 = Z.testbit f 2 ->
  (may_break (pflag pc) -> may_break f) -> (may_continue (pflag pc) -> may_continue f) ->
  catch_ok A f s0 -> same_control A s0 s ->
  (forall rc s', rc_ok f rc -> same_control A s0 s' -> Q rc s') ->
  wp (exec_opt blk code) Q (λ e, e = NullException) s.
Proof.
  intros H F B N C S K. eapply typed_use; [eapply typed_opt, H| |exact S|].
  - unfold catch_ok. rewrite F. exact C.
  - intros rc s' R. apply K. eapply rc_ok_weaken; eassumption.
Qed.

Lemma IfStatement_typed lvars cond ic ec pc e pc' :
  parseInitImpl (IfStatement lvars cond ic ec) pc = Some (e, [], pc') ->
  typed (pflag pc) (IfStatement_execImpl blk lvars cond ic ec).
Proof.
  simpl. intros H. pinv. intros A s C. unfold IfStatement_execImpl.
  apply with_lvars_typed; [reflexivity|]. intros s1 S1. wp_steps; [split; [left; reflexivity|same]| |].
  all: eapply (typed_opt_weaken (pflag pc)); [eassumption|bits..|exact C|same|auto].
Qed.

Lemma loops_typed st pc e pc' :
  match st with
  | WhileStatement _ _ _ | DoWhileStatement _ _ _ | ForStatement _ _ _ _ _
  | ForEachStatement _ _ _ _ _ => True
  | _ => False
  end ->
  parseInitImpl st pc = Some (e, [], pc') -> typed (pflag pc) (execImpl blk fuel st).
Proof.
  intros Hl H A s C. assert (Hrc : forall rc s', loop_ok rc /\ same_control A s s' ->
    rc_ok (pflag pc) rc /\ same_control A s s') by (intros rc s' [R S]; auto using loop_ok_rc).
  destruct st as [| |lvars cond code|lvars cond code|lvars a cond iter code|lvars var lst is_ref code
                 | | | | | | | | |]; try contradiction; cbn [execImpl parseInitImpl] in H |- *.
  - pinv. apply with_lvars_typed; [reflexivity|]. intros s1 S1.
    eapply wp_mono; [|apply Hrc].
    eapply while_loop_typed; [|eassumption|exact C|exact S1]. bits.
  - pinv. apply with_lvars_typed; [reflexivity|]. intros s1 S1.
    eapply wp_mono; [|apply Hrc].
    eapply do_while_loop_typed; [|eassumption|exact C|exact S1]. bits.
  - assert (exists pc1 e1 pc2, p_opt parse_block code pc1 = Some (e1, [], pc2) /\
              Z.testbit (pflag pc1) 2 = Z.testbit (pflag pc) 2) as (pc1 & e1 & pc2 & Hcode & Hf).
    { destruct iter; pinv; eexists _, _, _; (split; [eassumption|bits]). }
    apply with_lvars_typed; [reflexivity|]. intros s1 S1. wp_steps.
    apply (wp_mono _ (λ _ s', same_control A s s')).
    { destruct a; simpl; wp_steps; same. }
    intros val s2 S2. wp_steps; [apply Hrc; split; [left; reflexivity|exact S2]|].
    eapply wp_mono; [|apply Hrc].
    eapply for_loop_typed; [exact Hf|exact Hcode|exact C|exact S2].
  - assert (forall b, code = Some b -> exists pc1 e1 pc2, parse_block b pc1 = Some (e1, [], pc2) /\
              Z.testbit (pflag pc1) 2 = Z.testbit (pflag pc) 2) as Hcode.
    { intros b ->. pinv.
      match goal with H : _ \/ _ |- _ => destruct H as [->|[? Hv]] end;
        [|destruct (is_variable var); [|discriminate]];
      pinv; eexists _, _, _; (split; [eassumption|bits]). }
    clear H. unfold ForEachStatement_execImpl, execRef.
    destruct is_ref; (apply with_lvars_typed; [reflexivity|]); intros s1 S1; wp_steps;
      try (apply Hrc; split; [left; reflexivity|same]).
    + destruct code as [b|]; [|wp_steps; apply Hrc; split; [left; reflexivity|same]].
      destruct (Hcode b eq_refl) as (pc1 & e1 & pc2 & Hp & Hf).
      wp_steps; [apply Hrc; split; [left; reflexivity|same]|].
      destruct (get_list a0) as [[|v l]|] eqn:El.
      { wp_steps. apply Hrc; split; [left; reflexivity|same]. }
      all: wp_steps; eapply wp_mono;
        [eapply (ref_loop_typed (pflag pc) (Some b) s); [exact Hf|exact Hp|exact C|reflexivity|same]|];
        cbv beta; intros [[rc ln]|] s' [S' HQ]; wp_steps; apply Hrc;
        (split; [try (destruct a1; [exact (HQ _ _ eq_refl)|]); left; reflexivity|same]).
    + destruct (isEvent _), a as [it|], code as [b|]; wp_steps;
        try (apply Hrc; split; [left; reflexivity|same]).
      all: destruct (Hcode b eq_refl) as (pc1 & e1 & pc2 & Hp & Hf); eapply wp_mono; [|apply Hrc].
      all: eapply (foreach_loop_typed (pflag pc) (Some b)); [exact Hf|exact Hp|exact C|reflexivity|same].
Qed.

Lemma ReturnStatement_typed f exp : typed f (ReturnStatement_execImpl exp).
Proof.
  intros A s _. unfold ReturnStatement_execImpl. wp_steps.
  apply (wp_mono _ (λ _ s', same_control A s s')).
  { destruct exp; simpl; wp_steps; [same|reflexivity]. }
  intros v s' S. assert (forall v s', same_control A s s' -> same_control A s (set_rv v s')) as Srv.
  { intros v' s'' [B D]. split; assumption. }
  wp_steps; (split; [right; left; reflexivity|]); apply Srv; same.
Qed.

Lemma ThrowStatement_typed f args : typed f (ThrowStatement_execImpl args).
Proof.
  intros A s _. unfold ThrowStatement_execImpl. wp_steps; split; try same; left; reflexivity.
Qed.

Lemma rethrow_caught_typed {A : Prop} s0 s args (Q : unit -> state -> Prop) :
  A -> st_catch s0 <> [] -> same_control A s0 s ->
  (forall s', same_control A s0 s' -> Q tt s') ->
  wp (rethrow_caught args) Q (λ e, e = NullException) s.
Proof.
  intros a C [B [D _]] K. unfold rethrow_caught. wp_steps.
  destruct (st_catch s) as [|x l] eqn:E; [exfalso; tauto|]. wp_steps. apply K.
  split; [exact B|]. simpl. split; [|left; exact a]. split; intros H; [discriminate|tauto].
Qed.

Lemma RethrowStatement_typed args pc e pc' :
  parseInitImpl (RethrowStatement args) pc = Some (e, [], pc') ->
  typed (pflag pc) (RethrowStatement_execImpl args).
Proof.
  cbn [parseInitImpl]. parse_defs. intros H A s C. assert (st_catch s <> [] /\ A) as [N a].
  { apply C. destruct (with_flags _ _ _ _) as [[[e1 r1] pc1]|] eqn:E; [|discriminate]. simpl in H.
    apply with_flags_inv in E as (F & _). unfold PF_RETHROW_OK in H. rewrite F, flag_test in H by lia.
    destruct (Z.testbit (pflag pc) 2); [reflexivity|]. simpl in H. injection H as _ H _.
    destruct r1; discriminate. }
  unfold RethrowStatement_execImpl.
  destruct args as [args|]; wp_steps; try (split; [left; reflexivity|same]);
    (eapply rethrow_caught_typed; [exact a|exact N|same|]); intros s' S'; wp_steps;
    (split; [left; reflexivity|same]).
Qed.

Lemma TryStatement_typed tb cb id pc e pc' :
  parseInitImpl (TryStatement tb cb id) pc = Some (e, [], pc') ->
  typed (pflag pc) (TryStatement_execImpl blk tb cb id).
Proof.
  intros H A s C. unfold TryStatement_execImpl.
  destruct (try_code_ok _ _ _ _ _ _ H) as [(pc1 & e1 & pc2 & F1 & Ht) (pc3 & e3 & pc4 & F3 & Hc)].
  clear H. wp_steps.
  eapply (typed_opt_weaken (pflag pc)); [exact Ht|bits..|exact C|same|]. intros rc s1 R S1. wp_steps.
  destruct (es_list (st_xsink s1)) as [|x l] eqn:E, cb as [b|]; simpl; rewrite ?E; wp_steps;
    try (split; [first [exact R|left; reflexivity]|same]).
  apply (wp_mono _ (λ _ s2, st_catch s2 <> [] /\ st_blocks s2 = st_blocks s)).
  { destruct id; wp_steps; (split; [discriminate|apply S1]). }
  intros _ s2 [N2 B2]. wp_steps.
  eapply wp_mono; [apply (Hblk b _ _ _ Hc True); intros _; split; [exact N2|exact I]|]. intros rc2 s3 [R3 [B3 D3]]. wp_steps.
  apply (wp_mono _ (λ _ s4, st_blocks s4 = st_blocks s)).
  { destruct id; wp_steps; simpl; congruence. }
  intros _ s4 B4. wp_steps. split; [|split; [exact B4|simpl; apply S1]].
  eapply rc_ok_weaken; [| |exact R3]; bits.
Qed.

Lemma find_case_typed {A : Prop} se w s0 s :
  same_control A s0 s ->
  wp (find_case se w) (λ r s', (exists p, w = p ++ r) /\ same_control A s0 s') (λ e, e = NullException) s.
Proof.
  revert s. induction w as [|c w IH]; intros s S; simpl; wp_steps.
  { split; [exists []; reflexivity|exact S]. }
  apply (wp_mono _ (λ _ s', same_control A s0 s')).
  { destruct (case_kind_of c); simpl; wp_steps; same. }
  intros b s1 S1. wp_steps; [split; [exists []; reflexivity|exact S1]|].
  eapply wp_mono; [apply IH, S1|]. intros r s2 [(p & ->) S2]. split; [exists (c :: p); reflexivity|exact S2].
Qed.

Lemma default_case_suffix w : exists p, w = p ++ default_case w.
Proof.
  induction w as [|c w [p IH]]; [exists []; reflexivity|]. simpl.
  destruct (default_case w) as [|d l] eqn:E.
  - destruct (isDefault c); [exists []; reflexivity|exists (c :: w); rewrite app_nil_r; reflexivity].
  - exists (c :: p). simpl. rewrite <- IH. reflexivity.
Qed.

Lemma run_cases_typed {A : Prop} f g w rc s0 s :
  Z.testbit g 2 = Z.testbit f 2 -> Forall (λ c, code_ok g (case_code c)) w ->
  catch_ok A f s0 -> same_control A s0 s -> rc_ok g rc ->
  wp (run_cases blk w rc) (λ rc s', rc_ok g rc /\ same_control A s0 s') (λ e, e = NullException) s.
Proof.
  intros F H C. revert rc s. induction H as [|c w (pc & e & pc' & Hf & Hp) Hw IH]; intros rc s S R;
    simpl; wp_steps; auto.
  apply (wp_mono _ (λ rc s', rc_ok g rc /\ same_control A s0 s')); [|intros rc' s' [R' S']; auto].
  destruct (case_code c) as [b|]; simpl in Hp; [|wp_steps; auto].
  eapply (typed_use g _ s0); [rewrite <- Hf; eapply Hblk, Hp| |exact S|auto].
  unfold catch_ok. rewrite F. exact C.
Qed.

Lemma SwitchStatement_typed lvars sexp cases pc e pc' :
  parseInitImpl (SwitchStatement lvars sexp cases) pc = Some (e, [], pc') ->
  typed (pflag pc) (SwitchStatement_execImpl blk lvars sexp cases).
Proof.
  rewrite parse_switch. intros H A s C. pinv. apply parse_cases_inv in H.
  match type of H with Forall (λ c, code_ok ?x _) _ => remember x as g eqn:Hg end.
  assert (Z.testbit g 2 = Z.testbit (pflag pc) 2) as G2 by (rewrite Hg; bits).
  assert (Z.testbit g 7 = Z.testbit (pflag pc) 7) as G7 by (rewrite Hg; bits). clear Hg.
  apply with_lvars_typed; [reflexivity|]. intros s1 S1. wp_steps; [split; [left; reflexivity|same]|].
  eapply wp_mono; [apply (find_case_typed (A := A) _ _ s); same|]. intros ws s2 [(pre & Hw) S2]. wp_steps.
  eapply wp_mono; [eapply (run_cases_typed (pflag pc) g); [exact G2| |exact C|exact S2|left; reflexivity]|].
  { destruct ws as [|c ws].
    - destruct (default_case_suffix cases) as [q Hq]. rewrite Hq in H. apply Forall_app in H. apply H.
    - rewrite Hw in H. apply Forall_app in H. apply H. }
  intros rc s3 [R S3]. wp_steps. split; [|exact S3].
  match goal with |- rc_ok _ (if ?b then _ else _) => destruct b eqn:Hb end; [left; reflexivity|].
  destruct R as [->|[->|[[-> _]| [-> N]]]]; try discriminate;
    [left; reflexivity|right; left; reflexivity|right; right; right; split; [reflexivity|]].
  unfold may_continue in *. rewrite <- G7. exact N.
Qed.

(** The statements other than handlers *)
Lemma statement_typed st pc e pc' :
  parseInitImpl st pc = Some (e, [], pc') -> (forall ty code, st <> OnBlockExitStatement ty code) ->
  typed (pflag pc) (execImpl blk fuel st).
Proof.
  intros H N. destruct st; try (eapply loops_typed; [exact I|exact H]); cbn [execImpl].
  - intros A s _. wp_steps. split; [left; reflexivity|same].
  - eapply IfStatement_typed, H.
  - eapply TryStatement_typed, H.
  - eapply SwitchStatement_typed, H.
  - apply ThrowStatement_typed.
  - eapply RethrowStatement_typed, H.
  - apply ReturnStatement_typed.
  - intros A s _. wp_steps. split; [|reflexivity]. right. right. left. split; [reflexivity|].
    cbn [parseInitImpl] in H. parse_defs. unfold PF_BREAK_OK in H. rewrite flag_test in H by lia. unfold may_break.
    destruct (Z.testbit (pflag pc) 6), broken_loop; auto; discriminate.
  - intros A s _. wp_steps. split; [|reflexivity]. right. right. right. split; [reflexivity|].
    cbn [parseInitImpl] in H. parse_defs. unfold PF_CONTINUE_OK in H. rewrite flag_test in H by lia. unfold may_continue.
    destruct (Z.testbit (pflag pc) 7), broken_loop; auto; discriminate.
  - exfalso. eapply N. reflexivity.
  - intros A s _. wp_steps. split; [left; reflexivity|same].
Qed.

(** *** Handlers *)

(** The flags that [OnBlockExitStatement::parseInitImpl] parses its code with *)
Definition handler_flags (f : Z) (type : obe_type_e) : Z :=
  Z.lor (Z.ldiff f (Z.lor PF_TOP_LEVEL (Z.lor PF_BREAK_OK PF_CONTINUE_OK)))
    (match type with OBE_Error => PF_RETHROW_OK | _ => 0 end).

Definition handler_ok (f : Z) (h : obe_type_e * option StatementBlock) : Prop :=
  code_ok (handler_flags f (fst h)) (snd h).

Lemma run_handler_typed {A : Prop} f type b obe s0 s (Q : Z * sink L -> state -> Prop) :
  code_ok (handler_flags f type) (Some b) ->
  (type <> OBE_Error -> catch_ok A f s) -> (type = OBE_Error -> st_catch s <> [] /\ A) ->
  st_blocks s = st_blocks s0 ->
  (forall nrc obe s', rc_ok f nrc -> st_blocks s' = st_blocks s0 ->
     same_catch A (st_catch s) (st_catch s') -> Q (nrc, obe) s') ->
  wp (run_handler blk b obe) Q (λ e, e = NullException) s.
Proof.
  intros (pc & e & pc' & F & H) C1 C2 B K. unfold run_handler. wp_steps.
  eapply wp_mono; [eapply Hblk; [exact H|]|].
  { rewrite F. intros T. simpl. destruct type; try (apply C2; reflexivity); apply C1; try congruence;
      revert T; unfold handler_flags; bits. }
  intros nrc s1 [R [B1 D1]]. wp_steps. apply K; [|simpl in *; congruence|exact D1].
  rewrite F in R. eapply rc_ok_weaken; [| |exact R]; unfold handler_flags; destruct type; bits;
    rewrite ?andb_false_r; intros [N|N]; auto; discriminate.
Qed.

Lemma run_error_handler_typed {A : Prop} f b obe s0 s (Q : Z * sink L -> state -> Prop) :
  code_ok (handler_flags f OBE_Error) (Some b) -> same_control A s0 s ->
  (forall nrc obe s', rc_ok f nrc -> same_control A s0 s' -> Q (nrc, obe) s') ->
  wp (run_error_handler blk b obe) Q (λ e, e = NullException) s.
Proof.
  intros H [B D] K. unfold run_error_handler. wp_steps.
  destruct (getException (st_xsink s)) as [|x l]; [reflexivity|]. wp_steps.
  eapply (run_handler_typed (A := True) f OBE_Error b obe s0);
    [exact H|congruence|split; [discriminate|exact I]|exact B|].
  intros nrc obe' s1 R B1 _. wp_steps; (apply K; [exact R|split; [exact B1|exact D]]).
Qed.

Lemma run_handlers_typed {A : Prop} f hs obe nrc error s0 s :
  Forall (handler_ok f) hs -> catch_ok A f s0 -> same_control A s0 s -> rc_ok f nrc ->
  wp (run_handlers blk hs obe nrc error) (λ rc s', rc_ok f rc /\ same_control A s0 s')
    (λ e, e = NullException) s.
Proof.
  intros H C. revert obe nrc error s. induction H as [|[type code] hs Hh Hs IH]; intros obe nrc error s S R;
    simpl; [wp_steps; auto|].
  destruct (obe_applies type error), code as [b|]; try (apply IH; assumption). apply wp_bind.
  assert (forall nrc obe s', rc_ok f nrc -> same_control A s0 s' ->
    wp (if isEvent obe then
          x ← get st_xsink;
          modify (set_xsink (fst (assimilate x obe))) ;;
          run_handlers blk hs (snd (assimilate x obe)) nrc true
        else run_handlers blk hs obe nrc error)
      (λ rc s', rc_ok f rc /\ same_control A s0 s') (λ e, e = NullException) s') as K.
  { intros nrc' obe' s' R' S'. wp_steps; (apply IH; [same|exact R']). }
  destruct type; [| |apply (run_error_handler_typed (A := A) f b obe s0); [exact Hh|exact S|exact K]].
  all: eapply (run_handler_typed (A := A) f _ b obe s0);
    [exact Hh|intros _; eapply catch_ok_same; eassumption|simpl; congruence|apply S|].
  all: intros nrc' obe' s' R' B' D'; apply K; [exact R'|split; [exact B'|etransitivity; [apply S|exact D']]].
Qed.

(** The handlers of a list of statements *)
Definition as_handler (st : AbstractStatement) : option (obe_type_e * option StatementBlock) :=
  match st with OnBlockExitStatement ty code => Some (ty, code) | _ => None end.

Lemma foldl_addStatement acc l : foldl addStatement acc l = rev (omap as_handler l) ++ acc.
Proof.
  revert acc. induction l as [|st l IH]; intros acc; [reflexivity|]. simpl. rewrite IH.
  destruct st; simpl; try reflexivity. rewrite <- app_assoc. reflexivity.
Qed.

Lemma handlers_ok f l : Forall (statement_ok f) l -> Forall (handler_ok f) (omap as_handler l).
Proof.
  induction 1 as [|st l (pc & e & pc' & F & H) Hl IH]; [constructor|].
  destruct st; simpl; try exact IH. constructor; [|exact IH].
  apply with_flags_inv in H as (_ & pc1 & pc2 & F1 & H). exists pc1, e, pc2. split; [|exact H].
  rewrite F1, F. reflexivity.
Qed.

(** Executing statements changes at most the topmost handler iterator, and only
    when there are handlers. *)
Definition top_only (A : Prop) (l : list AbstractStatement) (s s' : state) : Prop :=
  (omap as_handler l = [] -> st_blocks s' = st_blocks s) /\
  (forall i bl, st_blocks s = i :: bl -> exists j, st_blocks s' = j :: bl) /\
  same_catch A (st_catch s) (st_catch s').

Lemma statement_exec_typed {A : Prop} f st s :
  statement_ok f st -> catch_ok A f s -> (as_handler st <> None -> st_blocks s <> []) ->
  wp (statement_exec (execImpl blk fuel) st) (λ rc s', rc_ok f rc /\ top_only A [st] s s')
    (λ e, e = NullException) s.
Proof.
  intros (pc & e & pc' & <- & H) C N. unfold statement_exec, top_only. wp_steps.
  { split; [left; reflexivity|]. split_and!; [auto|eauto|reflexivity]. }
  destruct (as_handler st) as [h|] eqn:E.
  - destruct st; try discriminate. simpl. unfold OnBlockExitStatement_execImpl, wp, mbind, M_bind,
      advance_on_block_exit. destruct (st_blocks s) as [|i bl]; [exfalso; apply N; [discriminate|reflexivity]|].
    simpl. split; [left; reflexivity|]. split_and!; [discriminate| |reflexivity].
    intros i' bl' [= <- <-]. eauto.
  - eapply wp_mono; [eapply statement_typed; [exact H| |exact C]|]; [intros ty code ->; discriminate|].
    intros rc s' [R [B D]]. split; [exact R|]. split_and!; [auto| |exact D].
    intros i bl E2. rewrite B, E2. eauto.
Qed.

Lemma top_only_cons {A : Prop} st l s s1 s2 : top_only A [st] s s1 -> top_only A l s1 s2 -> top_only A (st :: l) s s2.
Proof.
  intros (A1 & B1 & C1) (A2 & B2 & C2). split_and!; [| |etransitivity; eassumption].
  - intros H. simpl in H, A1. destruct (as_handler st); [discriminate|]. rewrite A2, A1; auto.
  - intros i bl H. destruct (B1 _ _ H) as [j H1]. eauto.
Qed.

Lemma exec_statements_typed {A : Prop} f l s :
  Forall (statement_ok f) l -> catch_ok A f s -> (omap as_handler l <> [] -> st_blocks s <> []) ->
  wp (exec_statements (execImpl blk fuel) l) (λ rc s', rc_ok f rc /\ top_only A l s s')
    (λ e, e = NullException) s.
Proof.
  intros H. revert s. induction H as [|st l Hst Hl IH]; intros s C N; simpl; wp_steps.
  { split; [left; reflexivity|]. split_and!; [auto|eauto|reflexivity]. }
  eapply wp_mono; [apply (statement_exec_typed (A := A) f); [exact Hst|exact C|]|].
  { intros E. apply N. simpl. destruct (as_handler st); congruence. }
  intros rc s1 [R T1]. wp_steps.
  - eapply wp_mono; [apply IH|].
    + destruct T1 as (_ & _ & [D _]). intros B. destruct (C B) as [N0 a]. split; [tauto|exact a].
    + intros E. destruct T1 as (A1 & B1 & _).
      destruct (st_blocks s) as [|i bl] eqn:Es.
      * exfalso. apply N; [simpl; destruct (as_handler st); [discriminate|exact E]|reflexivity].
      * destruct (B1 _ _ eq_refl) as [j ->]. discriminate.
    + intros rc2 s2 [R2 T2]. split; [exact R2|]. eapply top_only_cons; eassumption.
  - split; [exact R|]. destruct T1 as (A1 & B1 & D1). split_and!; [|exact B1|exact D1].
    intros E. apply A1. simpl in *. destruct (as_handler st); [discriminate|reflexivity].
Qed.

Lemma execIntern_typed {A : Prop} f lvars l s :
  Forall (statement_ok f) l -> catch_ok A f s ->
  wp (execIntern blk (execImpl blk fuel) (Block lvars l)) (λ rc s', rc_ok f rc /\ same_control A s s')
    (λ e, e = NullException) s.
Proof.
  intros H C. unfold execIntern, on_block_exit_list. cbn [statement_list].
  rewrite foldl_addStatement, app_nil_r. pose proof (handlers_ok f l H) as Hh.
  destruct (rev (omap as_handler l)) as [|h hs] eqn:Eh.
  - apply (f_equal (@rev _)) in Eh. rewrite rev_involutive in Eh. simpl in Eh. wp_steps.
    + split; [left; reflexivity|same].
    + eapply wp_mono; [apply (exec_statements_typed (A := A) f); [exact H|exact C|intros N; destruct (N Eh)]|].
      intros rc s' [R (Ab & _ & D)]. wp_steps. split; [exact R|]. split; [apply Ab, Eh|exact D].
  - unfold pushBlock. cbv iota. do 5 wp_step. eapply (wp_mono _ (λ rc s', rc_ok f rc /\
      (exists j, st_blocks s' = j :: st_blocks s) /\ same_catch A (st_catch s) (st_catch s'))).
    + wp_steps; [split; [left; reflexivity|simpl; split; [eauto|reflexivity]]|].
      eapply wp_mono; [apply (exec_statements_typed (A := A) f); [exact H|exact C|discriminate]|].
      intros rc s' [R (_ & B & D)]. split; [exact R|]. split; [apply (B _ _ eq_refl)|exact D].
    + intros rc s' [R [[j B] D]]. do 3 wp_step.
      apply (wp_popBlock j (st_blocks s)); [exact B|]. apply wp_bind. eapply wp_mono; [apply (run_handlers_typed (A := A) f _ _ _ _ s)|].
      * rewrite <- Eh. apply Forall_drop, Forall_rev, Hh.
      * exact C.
      * split; [reflexivity|exact D].
      * left. reflexivity.
      * intros nrc s2 [R2 S2]. wp_steps. split; [destruct (nrc =? 0); assumption|exact S2].
Qed.
End body.

(** ** Type soundness *)

Lemma block_typed n b pc e pc' :
  parse_block b pc = Some (e, [], pc') -> typed (pflag pc) (block_execImpl n b).
Proof.
  revert b pc e pc'. induction n as [|n IH]; intros b pc e pc' H A s C; [exact I|].
  destruct b as [lvars l]. rewrite parse_block_eq in H.
  apply with_lvids_inv in H as (pc1 & pc2 & F1 & _ & H).
  apply with_flags_inv in H as (_ & pc3 & pc4 & F3 & H). apply parse_statements_inv in H.
  simpl. apply with_lvars_typed; [reflexivity|]. intros s1 S1.
  assert (catch_ok A (pflag pc3) s1) as C1.
  { eapply catch_ok_same; [exact S1|]. unfold catch_ok. rewrite F3, F1, flags_spec by lia.
    vm_compute (negb _). rewrite orb_false_r, andb_true_r. exact C. }
  eapply wp_mono; [apply (execIntern_typed (A := A) _ n IH (pflag pc3)); [exact H|exact C1]|].
  intros rc s2 [R S2]. split; [|etransitivity; eassumption].
  eapply rc_ok_weaken; [| |exact R]; unfold may_break, may_continue;
    rewrite F3, F1, flags_spec by lia; vm_compute (negb _); rewrite orb_false_r, andb_true_r; auto.
Qed.

(** Without the option for the old behaviour and at the level of a function. *)
Lemma function_rc f rc : broken_loop = false -> Z.testbit f 6 = false -> Z.testbit f 7 = false ->
  rc_ok f rc -> rc = 0 \/ rc = RC_RETURN.
Proof.
  unfold rc_ok, may_break, may_continue. intros B B6 B7 [?|[?|[[_ [N|N]]|[_ [N|N]]]]]; auto; congruence.
Qed.
End statements.

(** ** Statements that end a block *)

Section ends.
Context {L : Lang}.
Variable blk : StatementBlock -> M Z.
Variable fuel : nat.

(** A result that lets no later statement of the block run. *)
Definition stops (m : M Z) (s : state) : Prop :=
  match m s with Ok rc s' => rc <> 0 \/ isEvent (st_xsink s') = true | _ => True end.

Lemma isException_insert (x : sink L) e l : isEvent (fst (insert x (e :: l))) = true.
Proof.
  unfold insert, isEvent, isException.
  destruct (es_externally_managed x), (es_list x) as [|y m]; reflexivity.
Qed.

Lemma rethrow_event (x : sink L) e l : isEvent (fst (rethrow x (e :: l))) = true.
Proof.
  pose proof (isException_insert x
    (Exn (ex_type e) (ex_err e) (ex_desc e) (ex_arg e) (CT_RETHROW :: ex_callStack e)) l) as H.
  unfold rethrow, isEvent, isException in *. simpl in *. exact H.
Qed.

Lemma rethrow_caught_stops args s (Q : unit -> state -> Prop) :
  (forall s', isEvent (st_xsink s') = true -> Q tt s') -> wp (rethrow_caught args) Q (λ _, True) s.
Proof.
  intros K. unfold rethrow_caught. wp_steps. destruct (st_catch s) as [|x l]; [exact I|].
  wp_steps. apply K. apply rethrow_event.
Qed.

Lemma endsBlock_stops st s : endsBlock st = true -> stops (statement_exec (execImpl blk fuel) st) s.
Proof.
  intros H. change (wp (statement_exec (execImpl blk fuel) st)
    (λ rc s', rc <> 0 \/ isEvent (st_xsink s') = true) (λ _, True) s).
  unfold statement_exec. wp_steps; [auto|].
  destruct st; try discriminate; cbn [execImpl].
  - unfold ThrowStatement_execImpl. wp_steps; [auto|]. right. apply isException_insert.
  - unfold RethrowStatement_execImpl. destruct args; wp_steps; auto;
      apply rethrow_caught_stops; intros s' N; wp_steps; auto.
  - unfold ReturnStatement_execImpl. wp_steps.
    apply (wp_mono _ (λ _ _, True)); [destruct exp; simpl; wp_steps; exact I|].
    intros v s' _. wp_steps; left; discriminate.
  - wp_steps. left. discriminate.
  - wp_steps. left. discriminate.
  - wp_steps. right. unfold isEvent. simpl. apply orb_true_r.
Qed.

(** With an exception pending no statement runs. *)
Lemma exec_statements_pending l s :
  isEvent (st_xsink s) = true -> exec_statements (execImpl blk fuel) l s = Ok 0 s.
Proof.
  intros H. induction l as [|st l IH]; [reflexivity|].
  simpl. unfold statement_exec, mbind, M_bind, pending, get in *. rewrite H. exact IH.
Qed.

Lemma exec_statements_stop st l s :
  stops (statement_exec (execImpl blk fuel) st) s ->
  exec_statements (execImpl blk fuel) (st :: l) s = exec_statements (execImpl blk fuel) [st] s.
Proof.
  unfold stops. intros H. simpl. unfold mbind, M_bind in *.
  destruct (statement_exec (execImpl blk fuel) st s) as [rc s'| |]; try reflexivity.
  destruct (Z.eqb_spec rc 0) as [->|]; [|reflexivity]. destruct H as [H|H]; [congruence|].
  apply exec_statements_pending, H.
Qed.
End ends.

(** ** Blocks that end with a return statement *)

(** [hasFinalReturn] without the statements for which it answers true without
    a check, in blocks without handlers. *)
Section final.
Context {L : Lang}.

Fixpoint certain_return (st : AbstractStatement) : bool :=
  match st with
  | IfStatement _ _ (Some i) (Some e) => block_certain_return i && block_certain_return e
  | TryStatement (Some t) (Some c) _ => block_certain_return t && block_certain_return c
  | ThrowStatement _ | RethrowStatement _ | ReturnStatement _ => true
  | _ => false
  end
with block_certain_return (b : StatementBlock) : bool :=
  match b with
  | Block _ l =>
    forallb (λ st, match st with OnBlockExitStatement _ _ => false | _ => true end) l &&
    (fix last_return (l : list AbstractStatement) : bool :=
       match l with
       | [] => false
       | [st] => certain_return st
       | _ :: l => last_return l
       end) l
  end.

Fixpoint last_certain (l : list AbstractStatement) : bool :=
  match l with [] => false | [st] => certain_return st | _ :: l => last_certain l end.

Lemma block_certain_eq lvars l :
  block_certain_return (Block lvars l) =
  forallb (λ st, match st with OnBlockExitStatement _ _ => false | _ => true end) l && last_certain l.
Proof. reflexivity. Qed.

(** The end of a local variable does not remove exceptions. *)
Class SinkLaws := {
  uninstantiate_event : forall v w x,
    isEvent x = true -> isEvent (snd (uninstantiate v w x)) = true }.
Context `{SL : SinkLaws} `{PL : @ParseLang L} `{PW : !ParseLaws}.

Definition returned (rc : Z) (s : state) : Prop := isEvent (st_xsink s) = true \/ rc = RC_RETURN.

Lemma wp_and {A} (m : M A) Q Q' E E' s :
  wp m Q E s -> wp m Q' E' s -> wp m (λ a s', Q a s' /\ Q' a s') (λ e, E e /\ E' e) s.
Proof. unfold wp. destruct (m s); auto. Qed.

Lemma wp_weaken {A} (m : M A) Q (E E' : crash -> Prop) s :
  wp m Q E s -> (forall e, E e -> E' e) -> wp m Q E' s.
Proof. unfold wp. destruct (m s); auto. Qed.

Lemma uninstantiate_all_event lvars s :
  isEvent (st_xsink s) = true -> isEvent (st_xsink (uninstantiate_all lvars s)) = true.
Proof.
  intros H. induction lvars as [|v l IH]; [exact H|]. simpl. fold (uninstantiate_all l s).
  pose proof (uninstantiate_event v (st_world (uninstantiate_all l s)) _ IH) as N.
  destruct (uninstantiate v _ _). exact N.
Qed.

Lemma with_lvars_returned lvars m s :
  (forall s1, same_control True s s1 -> wp m returned (λ _, True) s1) -> wp (with_lvars lvars m) returned (λ _, True) s.
Proof.
  intros H. unfold with_lvars. wp_steps. eapply wp_mono; [apply H; same|]. intros rc s' [N|N]; wp_steps;
    [left; apply uninstantiate_all_event, N|right; exact N].
Qed.

Lemma uninstantiate_returned v rc s :
  returned rc s ->
  wp (call (λ w x, let '(w, x) := uninstantiate v w x in (tt, w, x))) (λ _ s', returned rc s')
    (λ _, True) s.
Proof.
  intros R. unfold wp, call. pose proof (uninstantiate_event v (st_world s) (st_xsink s)) as N.
  destruct (uninstantiate _ _ _) as [w x]. destruct R as [R|R]; [left; exact (N R)|right; exact R].
Qed.

(** Flags under which a statement can only fall through or return *)
Definition safe_flags (f : Z) : Prop :=
  broken_loop = false /\ Z.testbit f 6 = false /\ Z.testbit f 7 = false.

Lemma safe_flags_eq f g :
  safe_flags f -> Z.testbit g 6 = Z.testbit f 6 -> Z.testbit g 7 = Z.testbit f 7 -> safe_flags g.
Proof. unfold safe_flags. intros (B & F6 & F7) E6 E7. rewrite E6, E7. auto. Qed.

Section induction.
Variable n : nat.

Lemma stops_returned f st s :
  statement_ok f st -> safe_flags f -> catch_ok True f s -> endsBlock st = true ->
  wp (statement_exec (execImpl (block_execImpl n) n) st) returned (λ _, True) s.
Proof.
  intros H (B & F6 & F7) C N.
  assert (as_handler st = None) as Hn by (destruct st; auto; discriminate).
  pose proof (statement_exec_typed _ n (block_typed n) f st s H C
    ltac:(rewrite Hn; congruence)) as T.
  pose proof (endsBlock_stops (block_execImpl n) n st s N) as S. unfold stops, wp, returned in *.
  destruct (statement_exec _ st s); auto. destruct T as [R _].
  destruct (function_rc f a B F6 F7 R) as [->| ->]; [left|right; reflexivity].
  destruct S; [congruence|assumption].
Qed.

Hypothesis IH : forall b pc e pc' s,
  parse_block b pc = Some (e, [], pc') -> safe_flags (pflag pc) -> block_certain_return b = true ->
  catch_ok True (pflag pc) s -> wp (block_execImpl n b) returned (λ _, True) s.

Lemma code_returned f b s0 s (Q : Z -> state -> Prop) :
  code_ok f (Some b) -> safe_flags f -> block_certain_return b = true ->
  catch_ok True f s0 -> same_control True s0 s -> (forall rc s', returned rc s' -> same_control True s0 s' -> Q rc s') ->
  wp (block_execImpl n b) Q (λ _, True) s.
Proof.
  intros (pc & e & pc' & <- & H) F N C S K. assert (catch_ok True (pflag pc) s) as C' by (eapply catch_ok_same; eassumption).
  eapply wp_weaken; [|intros _ _; exact I]. eapply wp_mono.
  { apply wp_and; [eapply IH; eassumption|eapply block_typed; eassumption]. }
  intros rc s' [R [_ S']]. apply K; [exact R|]. etransitivity; eassumption.
Qed.

Lemma statement_returned f st s :
  statement_ok f st -> safe_flags f -> certain_return st = true -> catch_ok True f s ->
  wp (statement_exec (execImpl (block_execImpl n) n) st) returned (λ _, True) s.
Proof.
  intros H F N C. destruct (endsBlock st) eqn:E; [eapply stops_returned; eassumption|].
  unfold statement_exec. wp_steps; [left; assumption|].
  destruct H as (pc & er & pc' & <- & H).
  destruct st as [|lv cond [i|] [e|]| | | | |[t|] [c|] id| | | | | | | |]; try discriminate;
    apply andb_true_iff in N as [N1 N2]; cbn [execImpl].
  - destruct (if_code_ok _ _ _ _ _ _ _ H) as [Hi He].
    apply with_lvars_returned. intros s1 S1. wp_steps; [left; assumption|..].
    all: eapply (code_returned _ _ s1); [eassumption|eapply safe_flags_eq; [exact F|bits..]
      |assumption|unfold catch_ok; bits; eapply catch_ok_same; eassumption|same|auto].
  - pose proof (try_code_ok _ _ _ _ _ _ H) as [Ht Hc]. unfold TryStatement_execImpl. wp_steps.
    eapply (code_returned _ _ s); [exact Ht|eapply safe_flags_eq; [exact F|bits..]|exact N1
      |unfold catch_ok; bits|same|]. intros rc s1 R S1. wp_steps.
    destruct (es_list (st_xsink s1)) as [|x l] eqn:El; simpl; rewrite ?El; wp_steps.
    + destruct R as [R|R]; [left|right; exact R]. simpl. unfold isEvent, isException in *.
      rewrite El in R. exact R.
    + apply (wp_mono _ (λ _ s2, st_catch s2 <> [])); [destruct id; wp_steps; discriminate|].
      intros _ s2 C2. wp_steps. eapply (code_returned _ _ s2); [exact Hc|eapply safe_flags_eq; [exact F|bits..]
        |exact N2|intros _; split; [exact C2|exact I]|reflexivity|]. intros rc2 s3 R2 _. wp_steps.
      apply (wp_mono _ (λ _ s4, returned rc2 s4)).
      { destruct id as [v|]; [apply uninstantiate_returned, R2|wp_steps; exact R2]. }
      intros _ s4 R4. wp_steps. exact R4.
Qed.

Lemma exec_statements_returned f l s :
  Forall (statement_ok f) l -> safe_flags f ->
  forallb (λ st, match st with OnBlockExitStatement _ _ => false | _ => true end) l = true ->
  last_certain l = true -> catch_ok True f s ->
  wp (exec_statements (execImpl (block_execImpl n) n) l) returned (λ _, True) s.
Proof.
  intros H F. revert s. induction H as [|st l Hst Hl IHl]; intros s Hn N C; [discriminate|].
  simpl in Hn. apply andb_true_iff in Hn as [Hn1 Hn]. simpl. wp_steps. destruct l as [|st2 l].
  - eapply wp_mono; [eapply statement_returned; eassumption|]. intros rc s' R. wp_steps; [|exact R].
    apply Z.eqb_eq in Hif as ->. exact R.
  - eapply wp_weaken; [|intros _ _; exact I]. eapply wp_mono.
    { apply (statement_exec_typed (A := True) _ n (block_typed n) f); [exact Hst|exact C|]. destruct st; try discriminate;
        simpl; congruence. }
    intros rc s1 [R (_ & _ & [D _])]. wp_steps.
    + apply IHl; [exact Hn|exact N|]. intros B. destruct (C B) as [N0 _]. split; [tauto|exact I].
    + destruct (function_rc f rc) as [->| ->]; try apply F; [exact R|discriminate|right; reflexivity].
Qed.

Lemma execIntern_returned f lvars l s :
  Forall (statement_ok f) l -> safe_flags f -> block_certain_return (Block lvars l) = true ->
  catch_ok True f s ->
  wp (execIntern (block_execImpl n) (execImpl (block_execImpl n) n) (Block lvars l)) returned (λ _, True) s.
Proof.
  intros H F N C. rewrite block_certain_eq in N. apply andb_true_iff in N as [Hn N].
  assert (on_block_exit_list (Block lvars l) = []) as E.
  { unfold on_block_exit_list. simpl. rewrite foldl_addStatement, app_nil_r.
    clear H N. induction l as [|st l IHl]; [reflexivity|]. simpl in *.
    apply andb_true_iff in Hn as [Hn1 Hn]. specialize (IHl Hn). destruct st; try discriminate; exact IHl. }
  unfold execIntern. rewrite E. wp_steps; [left; assumption|].
  eapply wp_mono; [eapply exec_statements_returned; eassumption|]. intros rc s' R. wp_steps. exact R.
Qed.
End induction.

Lemma block_returned n b pc e pc' s :
  parse_block b pc = Some (e, [], pc') -> safe_flags (pflag pc) -> block_certain_return b = true ->
  catch_ok True (pflag pc) s -> wp (block_execImpl n b) returned (λ _, True) s.
Proof.
  revert b pc e pc' s. induction n as [|n IH]; intros b pc e pc' s H F N C; [exact I|].
  destruct b as [lvars l]. rewrite parse_block_eq in H. pinv. apply parse_statements_inv in H.
  simpl. apply with_lvars_returned. intros s1 S1.
  eapply execIntern_returned; [exact IH|exact H|eapply safe_flags_eq; [exact F|bits..]|exact N|].
  unfold catch_ok. bits. eapply catch_ok_same; eassumption.
Qed.
End final.

(** the statements after one for which the parser warns about unreachable
    code ([endsBlock]) are never executed. *)
Theorem endsBlock_unreachable {L : Lang} n l1 st l2 s (H : endsBlock st = true) :
  exec_statements (execImpl (block_execImpl n) n) (l1 ++ st :: l2) s =
  exec_statements (execImpl (block_execImpl n) n) (l1 ++ [st]) s.
Proof.
  revert s. induction l1 as [|st1 l1 IH]; intros s.
  - apply exec_statements_stop, endsBlock_stops, H.
  - simpl. unfold mbind, M_bind in *.
    destruct (statement_exec _ st1 s) as [rc s'| |]; try reflexivity.
    destruct (rc =? 0); [apply IH|reflexivity].
Qed.

Lemma endsBlock_unreachable_witness :
  let ex := exec_statements (execImpl (block_execImpl 5) 5) in
  let set := ExpressionStatement (ESet 0 (int 5)) in
  ex ([set] ++ ThrowStatement (EVal (VList [VInt 7])) :: [set]) start_state =
  ex ([set] ++ [ThrowStatement (EVal (VList [VInt 7]))]) start_state.
Proof. apply endsBlock_unreachable. reflexivity. Defined.

(** ** Type soundness of the code of functions *)

(** C5: the code of a function that the parser accepted without an exception, in a
    program without [PO_BROKEN_LOOP_STATEMENT], when it ends, never leaves with [break]
    or [continue], and gives the stack of handler iterators and the caught exception
    of the thread back exactly as they were: what is caught inside, also by handlers,
    and what [rethrow] does to it is undone. It never rethrows where no exception was
    caught, and no handler is activated outside of a block with handlers. The one crash
    that is left is an [on_error] handler that finds no exception in the sink. *)
Theorem statement_types {L : Lang} {PL : ParseLang} {PW : ParseLaws} n b returns e pc'
  (s : state) (H : block_parseInit b returns (ParseContext 0 0) = Some (e, [], pc'))
  (HB : broken_loop = false) :
  match block_execImpl n b s with
  | Ok rc s' => (rc = 0 \/ rc = RC_RETURN) /\ st_blocks s' = st_blocks s /\ st_catch s' = st_catch s
  | Crash e => e = NullException
  | OutOfFuel => True
  end.
Proof.
  apply then_parse_inv in H as (e1 & pc1 & e2 & H & _).
  pose proof (block_typed n b _ _ _ H False s) as T. unfold wp in T.
  destruct (block_execImpl n b s); auto; [|apply T; discriminate].
  destruct T as [R [B [_ [[]|S]]]]; [discriminate|]. split; [|split; [exact B|exact S]].
  apply (function_rc 0); auto.
Qed.

#[export] Instance mini_laws : ParseLaws.
Proof. split; reflexivity. Qed.

#[export] Instance mini_sinks : SinkLaws.
Proof. split. intros v w x H. exact H. Qed.

(** [hasFinalReturn] is right where it looks at the statements: when the
    last statement of an accepted function is a return, throw or rethrow
    statement, or an if or try statement all of whose parts end like this (in
    blocks without handlers), a run of the function returns or leaves an
    exception behind. *)
Theorem hasFinalReturn_sound {L : Lang} {SL : SinkLaws} {PL : ParseLang} {PW : ParseLaws} n b e pc'
  (s : state) (H : block_parseInit b true (ParseContext 0 0) = Some (e, [], pc'))
  (HB : broken_loop = false) (HR : block_certain_return b = true) :
  match block_execImpl n b s with
  | Ok rc s' => isEvent (st_xsink s') = true \/ rc = RC_RETURN
  | _ => True
  end.
Proof.
  apply then_parse_inv in H as (e1 & pc1 & e2 & H & _).
  eapply (block_returned n b _ _ _ s H); [|exact HR|discriminate].
  split; [exact HB|split; reflexivity].
Qed.

Lemma hasFinalReturn_sound_witness :
  let ret z := block [ReturnStatement (Some (int z))] in
  let b := block [IfStatement [] (EVar 0) (Some (ret 1)) (Some (
             block [TryStatement (Some (ret 2)) (Some (ret 3)) None]))] in
  match block_execImpl 9 b start_state with
  | Ok rc s' => isEvent (st_xsink s') = true \/ rc = RC_RETURN
  | _ => True
  end.
Proof. eapply hasFinalReturn_sound; reflexivity. Defined.

(** Where it answers true without a check, or with a handler, a function can
    end without a return value. *)
Example hasFinalReturn_faked :
  let b := block [WhileStatement [] (int 0) (Some (block [ReturnStatement (Some (int 1))]))] in
  block_parseInit b true (ParseContext 0 0) = Some (0, [], ParseContext 0 0) /\
  run b = Some (VNothing, [], []).
Proof. split; reflexivity. Qed.

Lemma statement_types_witness :
  let b := block [WhileStatement [] (int 1) (Some (block [BreakStatement]));
                  ReturnStatement (Some (int 3))] in
  match block_execImpl 5 b start_state with
  | Ok rc s' => (rc = 0 \/ rc = RC_RETURN) /\ st_blocks s' = st_blocks start_state /\
               st_catch s' = st_catch start_state
  | Crash e => e = NullException
  | OutOfFuel => True
  end.
Proof. apply (@statement_types mini mini_parse mini_laws 5 _ true 0 (ParseContext 0 0) start_state); reflexivity. Defined.
