(* ===== verification/StatementFuel.v ===== *)
(** * The fuel of the statement interpreter

    The fuel of [block_execImpl] only bounds the search for a result: more fuel
    never changes one, and code without loops needs no more fuel than its
    blocks are nested. *)

From S2P Require Import Prelude Exceptions Statements MiniLang StatementTypes.

#[local] Open Scope Z_scope.

Section fuel.
Context {L : Lang}.

(** ** Runs with less fuel *)

Definition le_result {A} (r1 r2 : result A) : Prop := r1 = OutOfFuel \/ r1 = r2.

Definition refines {A} (m1 m2 : M A) : Prop := forall s, le_result (m1 s) (m2 s).

#[global] Instance refines_preorder A : PreOrder (@refines A).
Proof.
  split; [intros m s; right; reflexivity|].
  intros m1 m2 m3 H1 H2 s. destruct (H1 s) as [->| ->]; [left; reflexivity|apply H2].
Qed.

#[global] Instance bind_refines A B :
  Proper (refines ==> pointwise_relation A refines ==> refines) (λ m f, @mbind M M_bind A B f m).
Proof.
  intros m m' Hm f f' Hf s. unfold mbind, M_bind. destruct (Hm s) as [->| ->]; [left; reflexivity|].
  destruct (m' s); [apply Hf|right; reflexivity..].
Qed.

Lemma refines_bind {A B} (m m' : M A) (f f' : A -> M B) :
  refines m m' -> (forall a, refines (f a) (f' a)) -> refines (m ≫= f) (m' ≫= f').
Proof. intros Hm Hf. exact (bind_refines A B m m' Hm f f' Hf). Qed.

Lemma refines_fuel {A} (m : M A) : refines out_of_fuel m.
Proof. left. reflexivity. Qed.

(** ** Runs that have a result *)

Definition halts {A} (m : M A) : Prop := forall s, m s <> OutOfFuel.

Lemma halts_bind {A B} (m : M A) (f : A -> M B) : halts m -> (forall a, halts (f a)) -> halts (m ≫= f).
Proof.
  intros Hm Hf s. unfold mbind, M_bind. destruct (m s) eqn:E; [apply Hf|discriminate|].
  destruct (Hm s E).
Qed.

Lemma halts_bind_result {A B} (m : M A) (f : A -> M B) :
  halts m -> (forall a s s', m s = Ok a s' -> halts (f a)) -> halts (m ≫= f).
Proof.
  intros Hm Hf s. unfold mbind, M_bind. destruct (m s) eqn:E; [exact (Hf _ _ _ E _)|discriminate|].
  destruct (Hm s E).
Qed.

Lemma halts_ret {A} (a : A) : halts (mret a).
Proof. discriminate. Qed.

Lemma halts_get {A} (f : state -> A) : halts (get f).
Proof. discriminate. Qed.

Lemma halts_modify f : halts (modify f).
Proof. discriminate. Qed.

Lemma halts_pending : halts pending.
Proof. discriminate. Qed.

Lemma halts_crashed {A} e : halts (@crashed L A e).
Proof. discriminate. Qed.

Lemma halts_call {A} (f : world -> sink L -> A * world * sink L) : halts (call f).
Proof. intros s. unfold call. destruct (f _ _) as [[a w] x]. discriminate. Qed.

Lemma halts_popBlock : halts popBlock.
Proof. intros s. unfold popBlock. destruct (st_blocks s); discriminate. Qed.

Lemma halts_advance : halts advance_on_block_exit.
Proof. intros s. unfold advance_on_block_exit. destruct (st_blocks s); discriminate. Qed.
End fuel.

Create HintDb fuel.
#[export] Hint Resolve halts_ret halts_get halts_pending halts_modify halts_crashed halts_call halts_popBlock halts_advance
  : fuel.
#[export] Hint Resolve refines_fuel : fuel.
#[export] Hint Extern 1 (refines ?m ?m) => reflexivity : fuel.

(** Both relations go through the monad and through case distinctions. *)
Ltac fuel_step :=
  first
    [ solve [auto 2 with fuel]
    | apply refines_bind; [|intros ?]
    | apply halts_bind; [|intros ?]
    | match goal with
      | |- refines (match ?x with _ => _ end) _ => destruct x
      | |- halts (match ?x with _ => _ end) => destruct x
      end ].
Ltac fuel_steps := repeat fuel_step.

Section monotone.
Context {L : Lang}.
Variables blk1 blk2 : StatementBlock -> M Z.
Variables n1 n2 : nat.
Hypothesis Hblk : forall b, refines (blk1 b) (blk2 b).
Hypothesis Hn : (n1 <= n2)%nat.

#[local] Hint Resolve Hblk : fuel.

Lemma with_lvars_refines {A} lvars (m m' : M A) :
  refines m m' -> refines (with_lvars lvars m) (with_lvars lvars m').
Proof. intros H. unfold with_lvars. fuel_steps. Qed.

Lemma exec_opt_refines code : refines (exec_opt blk1 code) (exec_opt blk2 code).
Proof. destruct code; simpl; fuel_steps. Qed.

Lemma loop_body_refines code rc : refines (loop_body blk1 code rc) (loop_body blk2 code rc).
Proof. destruct code; simpl; fuel_steps. Qed.

#[local] Hint Resolve exec_opt_refines loop_body_refines : fuel.

Lemma while_refines c code rc : refines (while_loop blk1 n1 c code rc) (while_loop blk2 n2 c code rc).
Proof.
  revert n2 Hn rc. induction n1 as [|k IH]; intros [|k2] H rc; simpl; fuel_steps; [lia|]. apply IH. lia.
Qed.

Lemma do_while_refines c code rc :
  refines (do_while_loop blk1 n1 c code rc) (do_while_loop blk2 n2 c code rc).
Proof.
  revert n2 Hn rc. induction n1 as [|k IH]; intros [|k2] H rc; simpl; fuel_steps; [lia|]. apply IH. lia.
Qed.

Lemma for_refines c it code rc : refines (for_loop blk1 n1 c it code rc) (for_loop blk2 n2 c it code rc).
Proof.
  revert n2 Hn rc. induction n1 as [|k IH]; intros [|k2] H rc; simpl; fuel_steps; [lia|]. apply IH. lia.
Qed.

Lemma foreach_refines var b f i rc :
  refines (foreach_loop blk1 n1 var b f i rc) (foreach_loop blk2 n2 var b f i rc).
Proof.
  revert n2 Hn f i rc. induction n1 as [|k IH]; intros [|k2] H f i rc; simpl; unfold with_element;
    fuel_steps; [lia|]. apply IH. lia.
Qed.

Lemma ref_loop_refines var b entries i ln :
  refines (ref_loop blk1 var b entries i ln) (ref_loop blk2 var b entries i ln).
Proof.
  revert i ln. induction entries as [|v l IH]; intros i ln; simpl; unfold with_element; fuel_steps.
Qed.

Lemma run_cases_refines w rc : refines (run_cases blk1 w rc) (run_cases blk2 w rc).
Proof. revert rc. induction w as [|c w IH]; intros rc; simpl; fuel_steps. Qed.

#[local] Hint Resolve while_refines do_while_refines for_refines foreach_refines ref_loop_refines
  run_cases_refines with_lvars_refines : fuel.

Lemma execImpl_refines st : refines (execImpl blk1 n1 st) (execImpl blk2 n2 st).
Proof.
  destruct st; cbn [execImpl]; try reflexivity;
    unfold IfStatement_execImpl, WhileStatement_execImpl, DoWhileStatement_execImpl, ForStatement_execImpl,
      ForEachStatement_execImpl, execRef, TryStatement_execImpl, SwitchStatement_execImpl;
    repeat first [apply with_lvars_refines|fuel_step].
Qed.

Lemma run_handlers_refines hs obe nrc error :
  refines (run_handlers blk1 hs obe nrc error) (run_handlers blk2 hs obe nrc error).
Proof.
  revert obe nrc error. induction hs as [|[ty code] hs IH]; intros obe nrc error; simpl; fuel_steps;
    unfold run_error_handler, run_handler; fuel_steps; apply IH.
Qed.

Lemma exec_statements_refines l :
  refines (exec_statements (execImpl blk1 n1) l) (exec_statements (execImpl blk2 n2) l).
Proof.
  induction l as [|st l IH]; simpl; unfold statement_exec; fuel_steps; apply execImpl_refines.
Qed.

Lemma execIntern_refines b :
  refines (execIntern blk1 (execImpl blk1 n1) b) (execIntern blk2 (execImpl blk2 n2) b).
Proof.
  unfold execIntern. fuel_steps; auto using exec_statements_refines, run_handlers_refines.
Qed.
End monotone.

Lemma block_execImpl_refines {L : Lang} n1 n2 b :
  (n1 <= n2)%nat -> refines (block_execImpl n1 b) (block_execImpl n2 b).
Proof.
  revert n2 b. induction n1 as [|k IH]; intros n2 [lv l] H; [apply refines_fuel|].
  destruct n2 as [|k2]; [lia|]. assert (k <= k2)%nat as Hk by lia.
  apply with_lvars_refines, execIntern_refines; auto.
Qed.

(** ** Code without loops *)

Section cases.
Context {L : Lang}.

(** The cases that run are the last ones. *)
Lemma switch_cases_suffix v cases s w s' :
  find_case v cases s = Ok w s' ->
  exists p, cases = p ++ match w with [] => default_case cases | _ => w end.
Proof.
  intros Hw. pose proof (find_case_typed (A := True) v cases s s ltac:(reflexivity)) as F. unfold wp in F.
  rewrite Hw in F. destruct F as [F _]. destruct w; [apply default_case_suffix|exact F].
Qed.
End cases.

(** The statements whose iterations are not bounded by their data are the loops
    and [foreach] over an iterator. *)
Section depth.
Context {L : Lang}.

Definition max_of {A} (f : A -> nat) (l : list A) : nat := foldr (λ a n, max (f a) n) O l.
Definition opt_depth (f : StatementBlock -> nat) (code : option StatementBlock) : nat :=
  match code with Some b => f b | None => O end.

Fixpoint loop_free (st : AbstractStatement) : bool :=
  let opt code := match code with Some b => block_loop_free b | None => true end in
  match st with
  | IfStatement _ _ ic ec => opt ic && opt ec
  | WhileStatement _ _ _ | DoWhileStatement _ _ _ | ForStatement _ _ _ _ _ => false
  | ForEachStatement _ _ _ is_ref code => is_ref && opt code
  | TryStatement tb cb _ => opt tb && opt cb
  | SwitchStatement _ _ cases => forallb (λ c, match c with Case _ code _ => opt code end) cases
  | OnBlockExitStatement _ code => opt code
  | _ => true
  end
with block_loop_free (b : StatementBlock) : bool := match b with Block _ l => forallb loop_free l end.

(** How deep the blocks in a statement are nested *)
Fixpoint depth (st : AbstractStatement) : nat :=
  match st with
  | IfStatement _ _ ic ec => max (opt_depth block_depth ic) (opt_depth block_depth ec)
  | ForEachStatement _ _ _ _ code => opt_depth block_depth code
  | TryStatement tb cb _ => max (opt_depth block_depth tb) (opt_depth block_depth cb)
  | SwitchStatement _ _ cases =>
    max_of (λ c, match c with Case _ code _ => opt_depth block_depth code end) cases
  | OnBlockExitStatement _ code => opt_depth block_depth code
  | _ => O
  end
with block_depth (b : StatementBlock) : nat := match b with Block _ l => S (max_of depth l) end.

Lemma max_of_In {A} (f : A -> nat) l a n : (max_of f l <= n)%nat -> In a l -> (f a <= n)%nat.
Proof.
  induction l as [|x l IH]; simpl; [tauto|]. intros H [->|Hin]; [lia|]. apply IH; [lia|exact Hin].
Qed.

(** The blocks that the fuel is enough for *)
Variable n : nat.
Definition opt_fits (code : option StatementBlock) : Prop :=
  match code with Some b => block_loop_free b = true /\ (block_depth b <= n)%nat | None => True end.

Variable blk : StatementBlock -> M Z.
Hypothesis Hblk : forall b, opt_fits (Some b) -> halts (blk b).
Variable fuel : nat.

Lemma with_lvars_halts {A} lvars (m : M A) : halts m -> halts (with_lvars lvars m).
Proof. intros H. unfold with_lvars. fuel_steps. Qed.

Lemma exec_opt_halts code : opt_fits code -> halts (exec_opt blk code).
Proof. destruct code; simpl; fuel_steps. Qed.

Lemma ref_loop_halts var b entries i ln :
  opt_fits (Some b) -> halts (ref_loop blk var b entries i ln).
Proof.
  intros Hb. revert i ln. induction entries as [|v l IH]; intros i ln; simpl; unfold with_element;
    fuel_steps; auto.
Qed.

Lemma find_case_halts v w : halts (find_case v w).
Proof.
  induction w as [|c w IH]; simpl; fuel_steps. unfold matches. destruct (case_kind_of c); fuel_steps.
Qed.

Lemma run_cases_halts w rc : Forall (λ c, opt_fits (case_code c)) w -> halts (run_cases blk w rc).
Proof.
  intros H. revert rc. induction H as [|c w Hc _ IH]; intros rc; simpl; fuel_steps; auto.
Qed.

Lemma switch_halts lvars e cases :
  Forall (λ c, opt_fits (case_code c)) cases -> halts (SwitchStatement_execImpl blk lvars e cases).
Proof.
  intros H. apply with_lvars_halts. apply halts_bind; [auto with fuel|intros v].
  apply halts_bind; [auto with fuel|intros p]. destruct p; [apply halts_ret|]. apply halts_bind_result; [apply find_case_halts|].
  intros w s s' Hw. apply halts_bind; [|intros rc; apply halts_ret]. apply run_cases_halts.
  destruct (switch_cases_suffix _ _ _ _ _ Hw) as [q Hq]. rewrite Hq in H. apply Forall_app in H. apply H.
Qed.

(** A statement whose blocks the fuel is enough for *)
Definition fits (st : AbstractStatement) : Prop := loop_free st = true /\ (depth st <= n)%nat.

Lemma opt_fits_intro code :
  match code with Some b => block_loop_free b | None => true end = true ->
  (opt_depth block_depth code <= n)%nat -> opt_fits code.
Proof. destruct code; simpl; auto. Qed.

Lemma cases_fit lvars e cases :
  fits (SwitchStatement lvars e cases) -> Forall (λ c, opt_fits (case_code c)) cases.
Proof.
  intros [Hf Hd]. simpl in Hf, Hd. apply List.Forall_forall. intros c Hc.
  rewrite forallb_forall in Hf. specialize (Hf c Hc). pose proof (max_of_In _ _ c n Hd Hc) as Hn.
  destruct c as [k code d]. apply opt_fits_intro; assumption.
Qed.

Lemma execRef_halts lvars var lst code : opt_fits code -> halts (execRef blk lvars var lst code).
Proof.
  intros H. apply with_lvars_halts. repeat first [apply ref_loop_halts; assumption|fuel_step].
Qed.

Lemma execImpl_halts st : fits st -> halts (execImpl blk fuel st).
Proof.
  intros F. destruct st as [| | | | |lvars var lst is_ref code| | | | | | | | |]; cbn [execImpl];
    try (destruct F; discriminate);
    try (apply switch_halts; eapply cases_fit, F);
    destruct F as [Hf Hd]; simpl in Hf, Hd;
    try apply andb_true_iff in Hf as [Hf1 Hf2];
    try (destruct is_ref; [|discriminate]; apply execRef_halts, opt_fits_intro; assumption);
    unfold IfStatement_execImpl, TryStatement_execImpl,
      ThrowStatement_execImpl, RethrowStatement_execImpl, rethrow_caught, ReturnStatement_execImpl,
      OnBlockExitStatement_execImpl, raise, eval_opt;
    repeat first
      [ apply with_lvars_halts
      | apply exec_opt_halts, opt_fits_intro; [assumption|lia]
      | apply (Hblk _), (opt_fits_intro (Some _)); [assumption|simpl in *; lia]
      | fuel_step ].
Qed.

Lemma exec_statements_halts l : Forall fits l -> halts (exec_statements (execImpl blk fuel) l).
Proof.
  induction 1 as [|st l F _ IH]; simpl; unfold statement_exec; fuel_steps. apply execImpl_halts, F.
Qed.

Lemma run_handlers_halts hs obe nrc error :
  Forall (λ h, opt_fits (snd h)) hs -> halts (run_handlers blk hs obe nrc error).
Proof.
  intros H. revert obe nrc error. induction H as [|[ty code] hs F _ IH]; intros obe nrc error; simpl;
    fuel_steps; unfold run_error_handler, run_handler; fuel_steps; auto.
Qed.

Lemma handlers_fit lvars l : Forall fits l -> Forall (λ h, opt_fits (snd h)) (on_block_exit_list (Block lvars l)).
Proof.
  intros H. unfold on_block_exit_list. cbn [statement_list].
  assert (forall acc, Forall (λ h, opt_fits (snd h)) acc ->
    Forall (λ h, opt_fits (snd h)) (foldl addStatement acc l)) as K.
  { induction H as [|st l [Hf Hd] _ IH]; intros acc Ha; simpl; [exact Ha|]. apply IH.
    destruct st; try exact Ha. constructor; [|exact Ha]. apply opt_fits_intro; assumption. }
  apply K. constructor.
Qed.

Lemma execIntern_halts lvars l :
  Forall fits l -> halts (execIntern blk (execImpl blk fuel) (Block lvars l)).
Proof.
  intros H. pose proof (handlers_fit lvars l H) as Hh. unfold execIntern. fuel_steps;
    auto using exec_statements_halts, run_handlers_halts, Forall_drop.
  apply halts_modify.
Qed.
End depth.

Lemma block_execImpl_halts {L : Lang} n b :
  block_loop_free b = true -> (block_depth b <= n)%nat -> halts (block_execImpl n b).
Proof.
  revert b. induction n as [|n IH]; intros [lvars l] Hf Hd; simpl in Hd; [lia|].
  apply with_lvars_halts, (execIntern_halts n); [intros b [H1 H2]; apply IH; assumption|].
  apply List.Forall_forall. intros st Hst. split.
  - simpl in Hf. rewrite forallb_forall in Hf. exact (Hf st Hst).
  - eapply max_of_In; [|exact Hst]. lia.
Qed.

(** The fuel of the interpreter does not influence what code does: when a block has a result with
    some fuel (normally, or as a null pointer that is dereferenced), then it has the same result and
    leaves the same state with any larger fuel. *)
Theorem fuel_irrelevant {L : Lang} n m b :
  (n <= m)%nat ->
  refines (block_execImpl n b) (block_execImpl m b) /\
  forall s r, block_execImpl n b s = r -> r <> OutOfFuel -> block_execImpl m b s = r.
Proof.
  intros Hm. pose proof (block_execImpl_refines n m b Hm) as R. split; [exact R|].
  intros s r H N. destruct (R s) as [E|E]; congruence.
Qed.

Lemma fuel_irrelevant_witness :
  let b := block [WhileStatement [] (ELess (EVar 0) (int 3))
             (Some (block [ExpressionStatement (ESet 0 (EAdd (EVar 0) (int 1)))]))] in
  block_execImpl 5 b start_state <> OutOfFuel /\
  block_execImpl 100 b start_state = block_execImpl 5 b start_state.
Proof.
  split; [discriminate|].
  eapply (fuel_irrelevant 5 100); [lia|reflexivity|vm_compute; discriminate].
Defined.

(** Code whose only loops are over the entries of a list that is given by reference ends: the
    interpreter has a result for a block without [while], [do], [for] and [foreach] over an iterator, in
    every state and with a fuel of the depth to which its blocks are nested. This covers the handlers of a
    block, which run when an exception leaves it, too. *)
Theorem loop_free_terminates {L : Lang} b s :
  block_loop_free b = true ->
  exists r, r <> OutOfFuel /\ forall n, (block_depth b <= n)%nat -> block_execImpl n b s = r.
Proof.
  intros Hf. exists (block_execImpl (block_depth b) b s).
  pose proof (block_execImpl_halts _ b Hf (le_n _) s) as N. split; [exact N|]. intros n Hn.
  destruct (block_execImpl_refines _ _ b Hn s) as [E|E]; [destruct (N E)|congruence].
Qed.

Lemma loop_free_terminates_witness :
  let b := block [
    ForEachStatement [] (EVar 1) (EVar 0) true (Some (block [BreakStatement]));
    OnBlockExitStatement OBE_Error (Some (block [TryStatement (Some (block [])) None None]));
    ThrowStatement (int 1)] in
  block_loop_free b = true /\
  exists r, r <> OutOfFuel /\ forall n, (3 <= n)%nat -> block_execImpl n b start_state = r.
Proof. intros b. split; [reflexivity|]. exact (loop_free_terminates b start_state eq_refl). Defined.
