(* ===== verification/StatementSpec.v ===== *)
(** * What the statement interpreter implements

    A reference description of a block: its statements, the handlers that they
    activate, and the order in which the handlers run when it is left. *)

From S2P Require Import Prelude Exceptions Statements MiniLang StatementTypes.

#[local] Open Scope Z_scope.

Section handlers.
Context {L : Lang} {PL : @ParseLang L} {PW : ParseLaws}.

(** The statements of a block are executed one by one until one of them leaves
    the block; [acc] collects the handlers that were passed, the last one
    first. *)
Fixpoint execute_collecting (ex : AbstractStatement -> M Z) (l : list AbstractStatement)
  (acc : list (obe_type_e * option StatementBlock))
  : M (Z * list (obe_type_e * option StatementBlock)) :=
  match l with
  | [] => mret (0, acc)
  | st :: l =>
    p ← pending;
    if p : bool then mret (0, acc)
    else
      rc ← ex st;
      let acc := match as_handler st with Some h => h :: acc | None => acc end in
      if rc =? 0 then execute_collecting ex l acc else mret (rc, acc)
  end.

(** A block runs its statements and then these handlers, which are the ones that it has
    passed instead of those behind the iterator of the thread. *)
Definition block_reference (blk : StatementBlock -> M Z) (ex : AbstractStatement -> M Z)
  (b : StatementBlock) : M Z :=
  match omap as_handler (statement_list b) with
  | [] => '(rc, _) ← execute_collecting ex (statement_list b) []; mret rc
  | _ =>
    pushBlock 0 ;;
    '(rc, passed) ← execute_collecting ex (statement_list b) [];
    error ← get (λ s, isException (st_xsink s));
    popBlock ;;
    nrc ← run_handlers blk passed new_sink 0 error;
    mret (if nrc =? 0 then rc else nrc)
  end.

Section run.
Variable n : nat.
Abbreviation ex := (execImpl (block_execImpl n) n).

(** The two loops in step: the iterator counts the handlers in [acc]. *)
Definition in_step (l : list AbstractStatement) (acc : list (obe_type_e * option StatementBlock))
  (bl : list nat) (r1 : result Z) (r2 : result (Z * list (obe_type_e * option StatementBlock))) : Prop :=
  match r1, r2 with
  | Ok rc s1, Ok (rc2, acc2) s2 =>
    rc = rc2 /\ s1 = s2 /\ st_blocks s1 = length acc2 :: bl /\
    exists l1 l2, l = l1 ++ l2 /\ acc2 = rev (omap as_handler l1) ++ acc
  | Crash e1, Crash e2 => e1 = e2
  | OutOfFuel, OutOfFuel => True
  | _, _ => False
  end.

Lemma in_step_cons st l acc bl r1 r2 :
  in_step l (match as_handler st with Some h => h :: acc | None => acc end) bl r1 r2 ->
  in_step (st :: l) acc bl r1 r2.
Proof.
  unfold in_step. destruct r1, r2 as [[rc2 acc2] s2| |]; auto.
  intros (E1 & E2 & B & l1 & l2 & -> & ->). split_and!; auto. exists (st :: l1), l2. split; [reflexivity|].
  simpl. destruct (as_handler st); [|reflexivity]. simpl. rewrite <- app_assoc. reflexivity.
Qed.

Lemma in_step_nil l rc acc bl s :
  st_blocks s = length acc :: bl -> in_step l acc bl (Ok rc s) (Ok (rc, acc) s).
Proof. intros H. repeat split; auto. exists [], l. auto. Qed.

Lemma exec_collecting f l acc bl s :
  Forall (statement_ok f) l -> catch_ok True f s -> st_blocks s = length acc :: bl ->
  in_step l acc bl (exec_statements ex l s) (execute_collecting ex l acc s).
Proof.
  intros H. revert acc s. induction H as [|st l Hst Hl IH]; intros acc s C B; [apply in_step_nil, B|].
  cbn [execute_collecting exec_statements]. unfold mbind, M_bind, mret, M_ret, pending, get.
  destruct (isEvent (st_xsink s)) eqn:P.
  { unfold statement_exec, mbind, M_bind, mret, M_ret, pending, get. rewrite P. simpl.
    rewrite exec_statements_pending by exact P. apply in_step_nil, B. }
  pose proof (statement_exec_typed (A := True) (block_execImpl n) n (block_typed n) f st s Hst C
    ltac:(rewrite B; discriminate)) as T.
  unfold statement_exec, wp, mbind, M_bind, mret, M_ret, pending, get in *. rewrite P in *.
  assert (match ex st s with
          | Ok rc s1 => st_blocks s1 =
              length (match as_handler st with Some h => h :: acc | None => acc end) :: bl
          | _ => True end) as B1.
  { destruct (as_handler st) as [h|] eqn:E.
    - destruct st; try discriminate. simpl. unfold OnBlockExitStatement_execImpl, advance_on_block_exit,
        mbind, M_bind. rewrite B. reflexivity.
    - destruct (ex st s); auto. destruct T as (_ & A & _). rewrite A; [exact B|].
      simpl. rewrite E. reflexivity. }
  destruct (ex st s) as [rc s1| |]; auto; [|reflexivity]. apply in_step_cons.
  destruct (rc =? 0); [|apply in_step_nil, B1].
  apply IH; [|exact B1]. destruct T as (_ & _ & _ & [D _]). intros F. destruct (C F) as [N0 _]. split; [tauto|exact I].
Qed.

Lemma exec_no_handlers l s :
  omap as_handler l = [] ->
  exec_statements ex l s = ('(rc, _) ← execute_collecting ex l []; mret rc) s.
Proof.
  revert s. induction l as [|st l IH]; intros s H; [reflexivity|].
  simpl in H. destruct (as_handler st) eqn:E; [discriminate|].
  specialize (IH). cbn [execute_collecting exec_statements]. rewrite E.
  unfold statement_exec. unfold mbind, M_bind, mret, M_ret, pending, get in *.
  destruct (isEvent (st_xsink s)) eqn:P.
  { exact (exec_statements_pending (block_execImpl n) n l s P). }
  destruct (ex st s) as [rc s1| |]; try reflexivity. destruct (rc =? 0); [|reflexivity].
  apply IH, H.
Qed.

(** The part of [execIntern] behind the statements, and its counterpart *)
Definition leave_block (l : list AbstractStatement) (r : result Z) : result Z :=
  match r with
  | Ok rc s =>
    (error ← get (λ s, isException (st_xsink s));
     i ← popBlock;
     nrc ← run_handlers (block_execImpl n)
             (drop (length (rev (omap as_handler l)) - i) (rev (omap as_handler l))) new_sink 0 error;
     mret (if nrc =? 0 then rc else nrc)) s
  | Crash e => Crash e
  | OutOfFuel => OutOfFuel
  end.

Lemma leave_block_reference l bl r1 r2 :
  in_step l [] bl r1 r2 ->
  leave_block l r1 =
  match r2 with
  | Ok (rc, passed) s =>
    (error ← get (λ s, isException (st_xsink s));
     popBlock ;;
     nrc ← run_handlers (block_execImpl n) passed new_sink 0 error;
     mret (if nrc =? 0 then rc else nrc)) s
  | Crash e => Crash e
  | OutOfFuel => OutOfFuel
  end.
Proof.
  unfold in_step. destruct r1 as [rc s1| |], r2 as [[rc2 acc] s2| |]; try contradiction;
    [|intros ->; reflexivity|reflexivity].
  intros (-> & <- & B & l1 & l2 & -> & Ea). rewrite app_nil_r in Ea. subst acc.
  unfold leave_block, mbind, M_bind, get, popBlock. rewrite B.
  rewrite omap_app, rev_app_distr, length_app, !length_rev, Nat.add_sub.
  rewrite drop_app_length' by (rewrite length_rev; reflexivity). reflexivity.
Qed.

Lemma execIntern_reference f lvars l s :
  Forall (statement_ok f) l -> catch_ok True f s ->
  execIntern (block_execImpl n) ex (Block lvars l) s =
  block_reference (block_execImpl n) ex (Block lvars l) s.
Proof.
  intros H C. unfold execIntern, block_reference, on_block_exit_list. cbn [statement_list].
  rewrite foldl_addStatement, app_nil_r. destruct (omap as_handler l) as [|h hs] eqn:E.
  - simpl. rewrite <- exec_no_handlers by exact E.
    unfold mbind, M_bind, pending, get, mret, M_ret. destruct (isEvent (st_xsink s)) eqn:P.
    + symmetry. apply exec_statements_pending, P.
    + destruct (exec_statements ex l s); reflexivity.
  - rewrite <- E. destruct (rev (omap as_handler l)) as [|h' hs'] eqn:R.
    { apply (f_equal length) in R. rewrite length_rev, E in R. discriminate. }
    rewrite <- R.
    pose proof (exec_collecting f l [] (st_blocks s) (set_blocks (0%nat :: st_blocks s) s) H C eq_refl) as T.
    set (s1 := set_blocks (0%nat :: st_blocks s) s) in *.
    transitivity (leave_block l (exec_statements ex l s1)).
    + destruct (isEvent (st_xsink s1)) eqn:P;
        [rewrite (exec_statements_pending _ _ l _ P)|];
        unfold mbind, M_bind, pending, get, pushBlock, modify; fold s1; rewrite P; reflexivity.
    + rewrite (leave_block_reference l _ _ _ T). unfold mbind, M_bind, pushBlock, modify. fold s1.
      destruct (execute_collecting ex l [] s1) as [[? ?] ?| |]; reflexivity.
Qed.
End run.
End handlers.

(** ** The reference for handlers *)

Section reference.
Context {L : Lang}.
Variable blk : StatementBlock -> M Z.

(** Which handlers apply: all [on_exit], and [on_error] or [on_success] with or without
    an exception. *)
Inductive applies : obe_type_e -> bool -> Prop :=
  | applies_exit error : applies OBE_Unconditional error
  | applies_success : applies OBE_Success false
  | applies_error : applies OBE_Error true.

(** One handler, from the state [s] with the sink [obe] for its exceptions: it has the
    result [rc] and leaves the sink [obe'] and the state [s']. An [on_error] handler runs
    with the exceptions of the block as the caught ones and the first as its implicit
    argument; when it rethrows, those of the block are given up. *)
Inductive runs_handler (s : state) (obe : sink L) (b : StatementBlock)
  : obe_type_e -> Z -> sink L -> state -> Prop :=
  | runs_plain type rc s1 :
      type <> OBE_Error ->
      blk b (set_xsink obe s) = Ok rc s1 ->
      runs_handler s obe b type rc (st_xsink s1) (set_xsink (st_xsink s) s1)
  | runs_error except rc s1 x w x' :
      getException (st_xsink s) = except -> except <> [] ->
      blk b (State (push_argv (exception_value (makeExceptionObject except 0)) (st_world s))
               obe except (st_blocks s) (st_rv s)) = Ok rc s1 ->
      x = (if es_rethrown (st_xsink s1) then fst (clear (update_list (st_xsink s) (st_catch s1)))
           else update_list (st_xsink s) (st_catch s1)) ->
      pop_argv (st_world s1) x = (w, x') ->
      runs_handler s obe b OBE_Error rc (st_xsink s1)
        (State w x' (st_catch s) (st_blocks s1) (st_rv s1)).

(** Handlers one after another, in the order of the list. The exceptions of each are
    added to those of the block before the next one, which then counts as left with an
    exception. The result is that of the last handler that ran. *)
Inductive runs_handlers : list (obe_type_e * option StatementBlock) -> bool -> Z -> sink L ->
    state -> Z -> state -> Prop :=
  | runs_none error rc obe s : runs_handlers [] error rc obe s rc s
  | runs_not type code hs error rc obe s rc' s' :
      ~ applies type error \/ code = None ->
      runs_handlers hs error rc obe s rc' s' ->
      runs_handlers ((type, code) :: hs) error rc obe s rc' s'
  | runs_quiet type b hs error rc obe s rc1 obe1 s1 rc' s' :
      applies type error -> runs_handler s obe b type rc1 obe1 s1 -> isEvent obe1 = false ->
      runs_handlers hs error rc1 obe1 s1 rc' s' ->
      runs_handlers ((type, Some b) :: hs) error rc obe s rc' s'
  | runs_raising type b hs error rc obe s rc1 obe1 s1 rc' s' :
      applies type error -> runs_handler s obe b type rc1 obe1 s1 -> isEvent obe1 = true ->
      runs_handlers hs true rc1 (snd (assimilate (st_xsink s1) obe1))
        (set_xsink (fst (assimilate (st_xsink s1) obe1)) s1) rc' s' ->
      runs_handlers ((type, Some b) :: hs) error rc obe s rc' s'.

(** A block: its statements, up to the one that leaves it, and then the handlers that it
    has passed, the last one first; a result of the handlers replaces that of the
    statements. The thread has an entry for the block while its statements run. *)
Inductive runs_block (ex : AbstractStatement -> M Z) (l : list AbstractStatement) (s : state)
  : Z -> state -> Prop :=
  | block_without rc passed s' :
      omap as_handler l = [] -> execute_collecting ex l [] s = Ok (rc, passed) s' ->
      runs_block ex l s rc s'
  | block_with rc passed s1 i bl rc' s' :
      omap as_handler l <> [] ->
      execute_collecting ex l [] (set_blocks (0%nat :: st_blocks s) s) = Ok (rc, passed) s1 ->
      st_blocks s1 = i :: bl ->
      runs_handlers passed (isException (st_xsink s1)) 0 new_sink (set_blocks bl s1) rc' s' ->
      runs_block ex l s (if rc' =? 0 then rc else rc') s'.

(** *** The loop of the code implements it *)

Lemma obe_applies_spec type error : obe_applies type error = true <-> applies type error.
Proof.
  destruct type, error; simpl; split; try discriminate; try (intros _; constructor); try done;
    inversion 1.
Qed.

Lemma run_handler_spec type b obe s rc obe' s' : type <> OBE_Error ->
  run_handler blk b obe s = Ok (rc, obe') s' <-> runs_handler s obe b type rc obe' s'.
Proof.
  intros N. unfold run_handler, mbind, M_bind, get, modify, mret, M_ret. split.
  - destruct (blk b (set_xsink obe s)) as [rc1 s1| |] eqn:E; [|done..].
    intros [= <- <- <-]. by apply runs_plain.
  - inversion 1; [|congruence]. match goal with H : blk _ _ = _ |- _ => rewrite H end. done.
Qed.

Lemma run_error_handler_spec b obe s rc obe' s' :
  run_error_handler blk b obe s = Ok (rc, obe') s' <-> runs_handler s obe b OBE_Error rc obe' s'.
Proof.
  unfold run_error_handler, run_handler, mbind, M_bind, get, modify, mret, M_ret, crashed. split.
  - destruct (getException (st_xsink s)) as [|e l] eqn:Ee; [done|].
    cbn [set_catch set_world set_xsink st_world st_xsink st_catch st_blocks st_rv].
    destruct (blk b _) as [rc1 s1| |] eqn:E; [|done..].
    unfold call. destruct (es_rethrown (st_xsink s1)) eqn:Er; cbn;
      destruct (pop_argv _ _) as [w x'] eqn:Ep; intros [= <- <- <-];
      match goal with |- runs_handler _ _ _ _ _ _ ?t =>
        change t with (State w x' (st_catch s) (st_blocks s1) (st_rv s1)) end;
      (eapply runs_error; [exact Ee|done|exact E|by rewrite Er|exact Ep]).
  - inversion 1 as [type ? s1 N|except ? s1 x w x' Ee Hn E Ex Ep]; subst; [done|].
    destruct (getException (st_xsink s)) as [|e l] eqn:Ee; [done|].
    match type of E with blk b ?t = _ => match goal with |- context [blk b ?u] =>
      change (blk b u) with (blk b t) end end.
    rewrite E. unfold call. destruct (es_rethrown (st_xsink s1)) eqn:Er; cbn in Ep |- *;
      rewrite Ep; reflexivity.
Qed.

Lemma one_handler_spec type b obe s rc obe' s' :
  (match type with OBE_Error => run_error_handler blk b obe | _ => run_handler blk b obe end) s =
    Ok (rc, obe') s' <-> runs_handler s obe b type rc obe' s'.
Proof.
  destruct type; [| |apply run_error_handler_spec]; by apply run_handler_spec.
Qed.

Lemma run_handlers_spec hs obe rc error s rc' s' :
  run_handlers blk hs obe rc error s = Ok rc' s' <-> runs_handlers hs error rc obe s rc' s'.
Proof.
  revert obe rc error s. induction hs as [|[type code] hs IH]; intros obe rc error s; cbn [run_handlers].
  { split; [intros [= <- <-]; constructor|inversion 1; reflexivity]. }
  pose proof (obe_applies_spec type error) as A.
  destruct (obe_applies type error), code as [b|].
  2-4: rewrite IH; split; [intros H; apply runs_not; [|done]; (by right) || (left; intros B; by apply A in B)
    |inversion 1; subst; try done; discriminate (proj2 A ltac:(assumption))].
  unfold mbind, M_bind, get, modify. split.
  - destruct (_ s) as [[rc1 obe1] s1| |] eqn:E; [|done..]. apply one_handler_spec in E.
    destruct (isEvent obe1) eqn:Ev; intros H%IH; [eapply runs_raising|eapply runs_quiet]; try done;
      by apply A.
  - inversion 1 as [|? ? ? ? ? ? ? ? ? [N|N] H1|? ? ? ? ? ? ? rc1 obe1 s1 ? ? _ H1 Ev H2
      |? ? ? ? ? ? ? rc1 obe1 s1 ? ? _ H1 Ev H2]; subst; try done.
    + exfalso. apply N. by apply A.
    + apply one_handler_spec in H1. rewrite H1, Ev. by apply IH.
    + apply one_handler_spec in H1. rewrite H1, Ev. by apply IH.
Qed.

Lemma block_reference_spec ex lvars l s rc s' :
  block_reference blk ex (Block lvars l) s = Ok rc s' <-> runs_block ex l s rc s'.
Proof.
  unfold block_reference. cbn [statement_list]. destruct (omap as_handler l) as [|h hs] eqn:E.
  - unfold mbind, M_bind, mret, M_ret. split.
    + destruct (execute_collecting _ _ _ _) as [[rc1 passed] s1| |] eqn:X; [|done..].
      intros [= <- <-]. by eapply block_without.
    + inversion 1 as [? ? ? _ X|? ? ? ? ? ? ? N]; subst; [by rewrite X|]. by rewrite E in N.
  - unfold mbind, M_bind, mret, M_ret, get, pushBlock, modify, popBlock. split.
    + destruct (execute_collecting _ _ _ _) as [[rc1 passed] s1| |] eqn:X; [|done..].
      destruct (st_blocks s1) as [|i bl] eqn:B; [done|].
      destruct (run_handlers _ _ _ _ _ _) as [rc2 s2| |] eqn:R; [|done..]. intros [= <- <-].
      apply run_handlers_spec in R. eapply block_with; [by rewrite E|exact X|exact B|exact R].
    + inversion 1 as [? ? ? N|? ? s1 i bl rc2 ? _ X B R]; subst; [by rewrite E in N|].
      rewrite X, B. apply run_handlers_spec in R. by rewrite R.
Qed.
End reference.

(** C19: an accepted block executes its statements one by one until one of them leaves
    it, and then runs exactly the handlers of the [on_exit], [on_success] and [on_error]
    statements that were executed, the last one first, each if it applies: [on_error] and
    [on_success] by whether there is an exception, also one of a handler that ran before.
    The handler iterators of the thread, with the test for each type, implement this:
    the block ends with a result and a state exactly if the reference does. *)
Theorem block_handlers {L : Lang} {PL : ParseLang} {PW : ParseLaws} n lvars l pc e pc' (s : state)
  rc s' (H : parse_block (Block lvars l) pc = Some (e, [], pc')) (HC : catch_ok True (pflag pc) s) :
  block_execImpl (S n) (Block lvars l) s = Ok rc s' <->
  exists s1, runs_block (block_execImpl n) (execImpl (block_execImpl n) n) l
      (set_world (foldl (λ w v, instantiate v w) (st_world s) lvars) s) rc s1 /\
    s' = uninstantiate_all lvars s1.
Proof.
  rewrite parse_block_eq in H. pinv. apply parse_statements_inv in H.
  set (s0 := set_world _ s).
  assert (execIntern (block_execImpl n) (execImpl (block_execImpl n) n) (Block lvars l) s0 =
    block_reference (block_execImpl n) (execImpl (block_execImpl n) n) (Block lvars l) s0) as E.
  { eapply execIntern_reference; [exact H|]. unfold catch_ok. bits. }
  cbn [block_execImpl]. unfold with_lvars, mbind, M_bind, modify, mret, M_ret. fold s0. rewrite E.
  split.
  - destruct (block_reference _ _ _ _) as [rc1 s1| |] eqn:R; [|done..]. intros [= <- <-].
    exists s1. split; [|done]. by apply (block_reference_spec _ _ lvars).
  - intros (s1 & R & ->). apply (block_reference_spec _ _ lvars) in R. by rewrite R.
Qed.

Lemma block_handlers_witness :
  let log n := ExpressionStatement (ESet 0 (EAdd (EAdd (EVar 0) (EVar 0)) (int n))) in
  let on n := OnBlockExitStatement OBE_Unconditional (Some (block [log n])) in
  let l := [on 1; on 0; ReturnStatement None; on 1] in
  run (Block [] l) = Some (VNothing, [VInt 1], []) /\
  forall rc s', block_execImpl 6 (Block [] l) start_state = Ok rc s' ->
    exists s1, runs_block (block_execImpl 5) (execImpl (block_execImpl 5) 5) l start_state rc s1 /\
      s' = s1.
Proof.
  split; [reflexivity|]. intros rc s' E.
  eapply (@block_handlers mini mini_parse mini_laws 5 [] _ (ParseContext 0 0)) in E; [exact E|reflexivity|discriminate].
Defined.
