(* ===== verification/BigStep.v ===== *)
(** * A big-step semantics of the statements

    An inductive semantics in which a statement ends normally, with [break],
    [continue] or [return], or with an exception, and no result codes occur.
    The interpreter of [Statements] implements it: a run has a derivation, and
    a derivation has a run from some fuel on. *)

From S2P Require Import Prelude Exceptions Statements MiniLang StatementTypes.
From S2P Require Import StatementFuel StatementSpec.

#[local] Open Scope Z_scope.

(** ** The semantics *)

(** How a statement ends. *)
Inductive outcome := ONormal | OBreak | OContinue | OReturn | OThrow.

#[global] Instance outcome_eq_dec : EqDecision outcome.
Proof. solve_decision. Defined.

Section bigstep.
Context {L : Lang}.

(** An exception that is pending hides the other outcomes. *)
Definition throw_if (s : state) (o : outcome) : outcome :=
  if isEvent (st_xsink s) then OThrow else o.

Definition rc_outcome (rc : Z) : outcome :=
  if rc =? RC_RETURN then OReturn
  else if rc =? RC_BREAK then OBreak
  else if rc =? RC_CONTINUE then OContinue
  else ONormal.

(** What a result code and the sink mean together. *)
Definition view (rc : Z) (s : state) : outcome := throw_if s (rc_outcome rc).

(** What a loop does after its body: go on, or end with an outcome. *)
Definition loop_exit (o : outcome) : option outcome :=
  match o with
  | ONormal | OContinue => None
  | OBreak => Some ONormal
  | OReturn => Some OReturn
  | OThrow => Some OThrow
  end.

(** The outcome of a switch statement. *)
Definition switch_exit (o : outcome) : outcome :=
  match o with
  | OBreak => ONormal
  | OContinue => if broken_loop then ONormal else OContinue
  | o => o
  end.

Definition enter (lvars : list lvar) (s : state) : state :=
  set_world (foldl (λ w v, instantiate v w) (st_world s) lvars) s.
Definition getNext_call (f : iterator) : M (option value * iterator) :=
  call (λ w x, let '(iv, f, w, x) := getNext f w x in (iv, f, w, x)).
Definition set_element (i : Z) (s : state) : state :=
  set_world (set_implicit_element i (st_world s)) s.
Definition restore_element (s0 s : state) : state :=
  set_world (set_implicit_element (implicit_element (st_world s0)) (st_world s)) s.

(** The sink after its exceptions were taken out, and the state in which the
    handler of a try statement runs. *)
Definition taken (s : state) : state := set_xsink (fst (fst (catchException (st_xsink s)))) s.
Definition enter_catch (id : option lvar) (except : list (QoreException value)) (s : state) : state :=
  let s := set_catch except s in
  match id with
  | Some id => set_world (instantiate_value id (exception_value (makeExceptionObject except 0)) (st_world s)) s
  | None => s
  end.
Definition leave_catch (id : option lvar) (s0 s : state) : state :=
  set_catch (st_catch s0)
    (match id with
     | Some id => let '(w, x) := uninstantiate id (st_world s) (st_xsink s) in set_xsink x (set_world w s)
     | None => s
     end).
(** The return value of a try statement is passed on when none was set. *)
Definition pass_return_value (s0 s : state) : state :=
  set_rv (if negb (isNothing (st_rv s)) && isNothing (st_rv s0) then st_rv s else st_rv s0) s.

Abbreviation pending_in s := (isEvent (st_xsink s) = true).
Abbreviation quiet s := (isEvent (st_xsink s) = false).

(** The condition of a loop holds, or there is none. *)
Inductive holds : option expr -> state -> state -> Prop :=
  | holds_none s : holds None s s
  | holds_true c s v s' : call (eval c) s = Ok v s' -> quiet s' -> getAsBool v = true ->
      holds (Some c) s s'.

(** The iterator expression of a for statement. *)
Inductive iterates : option expr -> state -> state -> Prop :=
  | iterates_none s : iterates None s s
  | iterates_some c s v s' : call (eval c) s = Ok v s' -> quiet s' -> iterates (Some c) s s'.

(** Statements that end by themselves *)
Definition leaf (st : AbstractStatement) : option (M Z) :=
  match st with
  | ExpressionStatement exp => Some (_ ← call (eval exp); mret 0)
  | ThrowStatement args => Some (ThrowStatement_execImpl args)
  | RethrowStatement args => Some (RethrowStatement_execImpl args)
  | ReturnStatement exp => Some (ReturnStatement_execImpl exp)
  | BreakStatement => Some (mret RC_BREAK)
  | ContinueStatement => Some (mret RC_CONTINUE)
  | ThreadExitStatement => Some (modify (λ s, set_xsink (raiseThreadExit (st_xsink s)) s) ;; mret 0)
  | _ => None
  end.

Inductive bs_block : StatementBlock -> state -> outcome -> state -> Prop :=
  | bs_Block lvars l s o s1 s2 :
      bs_list l (enter lvars s) o s1 -> s2 = uninstantiate_all lvars s1 ->
      bs_block (Block lvars l) s (throw_if s2 o) s2
with bs_list : list AbstractStatement -> state -> outcome -> state -> Prop :=
  | bs_nil s : quiet s -> bs_list [] s ONormal s
  | bs_skip l s : pending_in s -> bs_list l s OThrow s
  | bs_next st l s s1 o s2 :
      quiet s -> bs_stmt st s ONormal s1 -> bs_list l s1 o s2 -> bs_list (st :: l) s o s2
  | bs_leave st l s o s1 :
      quiet s -> bs_stmt st s o s1 -> o <> ONormal -> bs_list (st :: l) s o s1
with bs_opt : option StatementBlock -> state -> outcome -> state -> Prop :=
  | bs_none s : bs_opt None s (throw_if s ONormal) s
  | bs_some b s o s' : bs_block b s o s' -> bs_opt (Some b) s o s'
with bs_stmt : AbstractStatement -> state -> outcome -> state -> Prop :=
  | bs_leaf st m s rc s' : leaf st = Some m -> m s = Ok rc s' -> bs_stmt st s (view rc s') s'
  | bs_if_throw lvars c ic ec s v s1 s2 :
      call (eval c) (enter lvars s) = Ok v s1 -> pending_in s1 -> s2 = uninstantiate_all lvars s1 ->
      bs_stmt (IfStatement lvars c ic ec) s OThrow s2
  | bs_if lvars c ic ec s v s1 o s2 s3 :
      call (eval c) (enter lvars s) = Ok v s1 -> quiet s1 ->
      bs_opt (if getAsBool v then ic else ec) s1 o s2 -> s3 = uninstantiate_all lvars s2 ->
      bs_stmt (IfStatement lvars c ic ec) s (throw_if s3 o) s3
  | bs_while lvars c code s o s1 s2 :
      bs_loop (Some c) None code (enter lvars s) o s1 -> s2 = uninstantiate_all lvars s1 ->
      bs_stmt (WhileStatement lvars c code) s (throw_if s2 o) s2
  | bs_do_leave lvars c code s o o' s1 s2 :
      bs_opt code (enter lvars s) o s1 -> loop_exit o = Some o' -> s2 = uninstantiate_all lvars s1 ->
      bs_stmt (DoWhileStatement lvars c code) s (throw_if s2 o') s2
  | bs_do lvars c code s o s1 o' s2 s3 :
      bs_opt code (enter lvars s) o s1 -> loop_exit o = None ->
      bs_loop (Some c) None code s1 o' s2 -> s3 = uninstantiate_all lvars s2 ->
      bs_stmt (DoWhileStatement lvars c code) s (throw_if s3 o') s3
  | bs_for_throw lvars a c it code s v s1 s2 :
      call (eval a) (enter lvars s) = Ok v s1 -> pending_in s1 -> s2 = uninstantiate_all lvars s1 ->
      bs_stmt (ForStatement lvars (Some a) c it code) s OThrow s2
  | bs_for lvars a c it code s s1 o s2 s3 :
      iterates a (enter lvars s) s1 -> bs_loop c it code s1 o s2 -> s3 = uninstantiate_all lvars s2 ->
      bs_stmt (ForStatement lvars a c it code) s (throw_if s3 o) s3
  | bs_foreach lvars var lst code s f s1 o s2 s3 :
      call (getFunctionalIterator lst) (enter lvars s) = Ok f s1 ->
      (match f, code with
       | Some _, Some _ => pending_in s1
       | _, _ => True
       end) -> s2 = s1 -> o = ONormal -> s3 = uninstantiate_all lvars s2 ->
      bs_stmt (ForEachStatement lvars var lst false code) s (throw_if s3 (throw_if s2 o)) s3
  | bs_foreach_run lvars var lst b s f s1 o s2 s3 :
      call (getFunctionalIterator lst) (enter lvars s) = Ok (Some f) s1 -> quiet s1 ->
      bs_foreach_loop var b f 0 s1 o s2 -> s3 = uninstantiate_all lvars s2 ->
      bs_stmt (ForEachStatement lvars var lst false (Some b)) s (throw_if s3 o) s3
  | bs_try tb cb id s o s1 s2 :
      bs_opt tb (set_rv nothing s) o s1 -> es_list (st_xsink s1) = [] ->
      s2 = pass_return_value s (taken s1) -> bs_stmt (TryStatement tb cb id) s o s2
  | bs_try_drop tb id s o s1 s2 :
      bs_opt tb (set_rv nothing s) o s1 -> es_list (st_xsink s1) <> [] ->
      s2 = pass_return_value s (taken s1) ->
      bs_stmt (TryStatement tb None id) s (throw_if s2 ONormal) s2
  | bs_try_catch tb b id s o s1 o' s2 s3 :
      bs_opt tb (set_rv nothing s) o s1 -> es_list (st_xsink s1) <> [] ->
      bs_block b (enter_catch id (es_list (st_xsink s1)) (taken s1)) o' s2 ->
      s3 = pass_return_value s (leave_catch id s1 s2) ->
      bs_stmt (TryStatement tb (Some b) id) s (throw_if s3 o') s3
  | bs_switch_throw lvars e cases s v s1 s2 :
      call (eval e) (enter lvars s) = Ok v s1 -> pending_in s1 -> s2 = uninstantiate_all lvars s1 ->
      bs_stmt (SwitchStatement lvars e cases) s OThrow s2
  | bs_switch lvars e cases s v s1 w s2 o s3 s4 :
      call (eval e) (enter lvars s) = Ok v s1 -> quiet s1 -> find_case v cases s1 = Ok w s2 ->
      bs_cases (match w with [] => default_case cases | _ => w end) s2 o s3 ->
      s4 = uninstantiate_all lvars s3 ->
      bs_stmt (SwitchStatement lvars e cases) s (throw_if s4 (switch_exit o)) s4
with bs_loop : option expr -> option expr -> option StatementBlock -> state -> outcome -> state -> Prop :=
  | bs_cond_throw c it code s v s1 :
      call (eval c) s = Ok v s1 -> pending_in s1 -> bs_loop (Some c) it code s OThrow s1
  | bs_cond_false c it code s v s1 :
      call (eval c) s = Ok v s1 -> quiet s1 -> getAsBool v = false ->
      bs_loop (Some c) it code s ONormal s1
  | bs_body_leave c it code s s1 o o' s2 :
      holds c s s1 -> bs_opt code s1 o s2 -> loop_exit o = Some o' -> bs_loop c it code s o' s2
  | bs_iter_throw c e code s s1 o s2 v s3 :
      holds c s s1 -> bs_opt code s1 o s2 -> loop_exit o = None ->
      call (eval e) s2 = Ok v s3 -> pending_in s3 -> bs_loop c (Some e) code s OThrow s3
  | bs_again c it code s s1 o s2 s3 o' s4 :
      holds c s s1 -> bs_opt code s1 o s2 -> loop_exit o = None -> iterates it s2 s3 ->
      bs_loop c it code s3 o' s4 -> bs_loop c it code s o' s4
with bs_foreach_loop : expr -> StatementBlock -> iterator -> Z -> state -> outcome -> state -> Prop :=
  | bs_each_end var b f i s f' s1 :
      getNext_call f s = Ok (None, f') s1 -> bs_foreach_loop var b f i s (throw_if s1 ONormal) s1
  | bs_each_throw var b f i s v f' s1 :
      getNext_call f s = Ok (Some v, f') s1 -> pending_in s1 -> bs_foreach_loop var b f i s OThrow s1
  | bs_each_assign var b f i s v f' s1 s2 :
      getNext_call f s = Ok (Some v, f') s1 -> quiet s1 ->
      call (assign_lvalue var v) s1 = Ok false s2 -> bs_foreach_loop var b f i s (throw_if s2 ONormal) s2
  | bs_each_leave var b f i s v f' s1 s2 o o' s3 :
      getNext_call f s = Ok (Some v, f') s1 -> quiet s1 ->
      call (assign_lvalue var v) s1 = Ok true s2 ->
      bs_block b (set_element (i32 i) s2) o s3 -> loop_exit o = Some o' ->
      bs_foreach_loop var b f i s o' (restore_element s2 s3)
  | bs_each_next var b f i s v f' s1 s2 o s3 o' s4 :
      getNext_call f s = Ok (Some v, f') s1 -> quiet s1 ->
      call (assign_lvalue var v) s1 = Ok true s2 ->
      bs_block b (set_element (i32 i) s2) o s3 -> loop_exit o = None ->
      bs_foreach_loop var b f' (u32 (i + 1)) (restore_element s2 s3) o' s4 ->
      bs_foreach_loop var b f i s o' s4
with bs_cases : list CaseNode -> state -> outcome -> state -> Prop :=
  | bs_cases_end s : quiet s -> bs_cases [] s ONormal s
  | bs_cases_throw w s : pending_in s -> bs_cases w s OThrow s
  | bs_case_next c w s s1 o s2 :
      quiet s -> bs_opt (case_code c) s ONormal s1 -> bs_cases w s1 o s2 -> bs_cases (c :: w) s o s2
  | bs_case_leave c w s o s1 :
      quiet s -> bs_opt (case_code c) s o s1 -> o <> ONormal -> bs_cases (c :: w) s o s1.

(** The statements that the semantics describes: no handlers (for which see
    [block_handlers]) and no foreach statement over a reference. *)
Definition opt_all (p : StatementBlock -> bool) (code : option StatementBlock) : bool :=
  match code with Some b => p b | None => true end.

Fixpoint plain (st : AbstractStatement) : bool :=
  match st with
  | OnBlockExitStatement _ _ => false
  | IfStatement _ _ ic ec => opt_all plain_block ic && opt_all plain_block ec
  | WhileStatement _ _ code | DoWhileStatement _ _ code | ForStatement _ _ _ _ code =>
    opt_all plain_block code
  | ForEachStatement _ _ _ is_ref code => negb is_ref && opt_all plain_block code
  | TryStatement tb cb _ => opt_all plain_block tb && opt_all plain_block cb
  | SwitchStatement _ _ cases =>
    forallb (λ c, match c with Case _ code _ => opt_all plain_block code end) cases
  | _ => true
  end
with plain_block (b : StatementBlock) : bool := match b with Block _ l => forallb plain l end.

(** *** Soundness: a run has a derivation *)

Context {SL : SinkLaws}.

Definition rc4 (rc : Z) : Prop := rc = 0 \/ rc = RC_RETURN \/ rc = RC_BREAK \/ rc = RC_CONTINUE.

Lemma wp_call_eq {A} (f : world -> sink L -> A * world * sink L) Q E (s : state) :
  (forall a s', call f s = Ok a s' -> Q a s') -> wp (call f) Q E s.
Proof. intros H. unfold wp. destruct (call f s) eqn:R; [apply H; reflexivity|..];
  unfold call in R; destruct (f _ _) as [[? ?] ?]; discriminate. Qed.

Lemma view_zero s : view 0 s = throw_if s ONormal.
Proof. reflexivity. Qed.

Lemma view_quiet rc s : quiet s -> view rc s = rc_outcome rc.
Proof. unfold view, throw_if. intros ->. reflexivity. Qed.

Lemma view_pending rc s : pending_in s -> view rc s = OThrow.
Proof. unfold view, throw_if. intros ->. reflexivity. Qed.

(** The end of the variables of a statement *)
Lemma view_leave lvars rc s :
  view rc (uninstantiate_all lvars s) = throw_if (uninstantiate_all lvars s) (view rc s).
Proof.
  unfold view, throw_if. destruct (isEvent (st_xsink s)) eqn:P; [|reflexivity].
  rewrite uninstantiate_all_event by exact P. reflexivity.
Qed.

Lemma throw_leave lvars s o : pending_in s -> throw_if (uninstantiate_all lvars s) o = OThrow.
Proof. intros P. unfold throw_if. rewrite uninstantiate_all_event by exact P. reflexivity. Qed.

Lemma with_lvars_wp {A} lvars (m : M A) Q E s :
  wp m (λ a s', Q a (uninstantiate_all lvars s')) E (enter lvars s) -> wp (with_lvars lvars m) Q E s.
Proof.
  intros H. unfold with_lvars. apply wp_bind, wp_modify, wp_bind. eapply wp_mono; [exact H|].
  intros a s' HQ. wp_steps. exact HQ.
Qed.

(** What is proved of the runs of a block *)
Definition sound_block (blk : StatementBlock -> M Z) (b : StatementBlock) : Prop := forall s,
  wp (blk b) (λ rc s', rc4 rc /\ bs_block b s (view rc s') s') (λ _, True) s.

Lemma plain_no_handlers lvars l :
  forallb plain l = true -> on_block_exit_list (Block lvars l) = [].
Proof.
  intros H. unfold on_block_exit_list. cbn [statement_list]. rewrite foldl_addStatement, app_nil_r.
  induction l as [|st l IH]; [reflexivity|]. simpl in H. apply andb_true_iff in H as [H1 H2].
  destruct st; try discriminate; exact (IH H2).
Qed.

Section sound.
Variable blk : StatementBlock -> M Z.
Variable fuel : nat.
Hypothesis Hblk : forall b, plain_block b = true -> sound_block blk b.

Lemma opt_sound code s :
  opt_all plain_block code = true ->
  wp (exec_opt blk code) (λ rc s', rc4 rc /\ bs_opt code s (view rc s') s') (λ _, True) s.
Proof.
  destruct code as [b|]; intros H; simpl.
  - eapply wp_mono; [apply Hblk, H|]. intros rc s' [R D]. split; [exact R|]. constructor. exact D.
  - wp_steps. split; [left; reflexivity|]. constructor.
Qed.

(** The body of a loop *)
Lemma after_body_sound rc s (Q : loop_next -> state -> Prop) :
  rc4 rc ->
  (forall rc', rc4 rc' -> loop_exit (view rc s) = Some (view rc' s) -> Q (LoopLeave rc') s) ->
  (loop_exit (view rc s) = None -> quiet s -> Q (LoopOn 0) s) ->
  wp (after_body rc) Q (λ _, True) s.
Proof.
  intros R Hleave Hon. unfold after_body. wp_steps.
  destruct (isEvent (st_xsink s)) eqn:P; simpl.
  { apply Hleave; [left; reflexivity|]. rewrite !view_pending by exact P. reflexivity. }
  rewrite (view_quiet rc s P) in *.
  destruct R as [->|[->|[->| ->]]]; simpl; auto; apply Hleave; try (unfold rc4; tauto);
    rewrite view_quiet by exact P; reflexivity.
Qed.

Lemma loop_body_sound code s (Q : loop_next -> state -> Prop) :
  opt_all plain_block code = true -> quiet s ->
  (forall rc o s', rc4 rc -> bs_opt code s o s' -> loop_exit o = Some (view rc s') -> Q (LoopLeave rc) s') ->
  (forall o s', bs_opt code s o s' -> loop_exit o = None -> quiet s' -> Q (LoopOn 0) s') ->
  wp (loop_body blk code 0) Q (λ _, True) s.
Proof.
  intros Hp P Hleave Hon. destruct code as [b|]; simpl.
  - wp_steps. eapply wp_mono; [apply Hblk, Hp|]. intros rc s' [R D].
    apply after_body_sound; [exact R|..].
    + intros rc' R' E. eapply Hleave; [exact R'|constructor; exact D|exact E].
    + intros E P'. eapply Hon; [constructor; exact D|exact E|exact P'].
  - wp_steps. eapply Hon; [constructor| |exact P]. unfold throw_if. rewrite P. reflexivity.
Qed.

Lemma while_loop_sound n c code s :
  opt_all plain_block code = true ->
  wp (while_loop blk n c code 0)
    (λ rc s', rc4 rc /\ bs_loop (Some c) None code s (view rc s') s') (λ _, True) s.
Proof.
  intros Hp. revert s. induction n as [|n IH]; intros s; [exact I|]. simpl. wp_step.
  apply wp_call_eq. intros v s1 Hv. do 3 wp_step.
  - wp_steps. split; [left; reflexivity|]. destruct (isEvent (st_xsink s1)) eqn:P; simpl in Hif.
    + rewrite view_pending by exact P. eapply bs_cond_throw; eassumption.
    + rewrite view_quiet by exact P. eapply bs_cond_false; [exact Hv|exact P|].
      destruct (getAsBool v); [discriminate|reflexivity].
  - apply orb_false_iff in Hif as [P Hb]. apply negb_false_iff in Hb. wp_step.
    apply loop_body_sound; [exact Hp|exact P|..].
    + intros rc o s2 R D E. wp_steps. split; [exact R|].
      eapply bs_body_leave; [eapply holds_true; eassumption|exact D|exact E].
    + intros o s2 D E P2. eapply wp_mono; [apply IH|]. intros rc s3 [R D3]. split; [exact R|].
      eapply bs_again; [eapply holds_true; eassumption|exact D|exact E|apply iterates_none|exact D3].
Qed.

(** After its first iteration, a do statement is a while statement. *)
Lemma do_while_loop_sound n c code s (Q : Z -> state -> Prop) :
  opt_all plain_block code = true -> quiet s ->
  (forall rc s', rc4 rc ->
     (exists o, bs_opt code s o s' /\ loop_exit o = Some (view rc s')) \/
     (exists o s1, bs_opt code s o s1 /\ loop_exit o = None /\
        bs_loop (Some c) None code s1 (view rc s') s') -> Q rc s') ->
  wp (do_while_loop blk n c code 0) Q (λ _, True) s.
Proof.
  intros Hp. revert s Q. induction n as [|n IH]; intros s Q P K; [exact I|]. simpl. wp_step.
  apply loop_body_sound; [exact Hp|exact P|..].
  - intros rc o s1 R D E. wp_steps. apply K; [exact R|]. left. eauto.
  - intros o s1 D E P1. wp_step. apply wp_call_eq. intros v s2 Hv. do 3 wp_step.
    + wp_steps. apply K; [left; reflexivity|]. right. exists o, s1. split; [exact D|]. split; [exact E|].
      destruct (isEvent (st_xsink s2)) eqn:P2; simpl in Hif.
      * rewrite view_pending by exact P2. eapply bs_cond_throw; eassumption.
      * rewrite view_quiet by exact P2. eapply bs_cond_false; [exact Hv|exact P2|].
        destruct (getAsBool v); [discriminate|reflexivity].
    + apply orb_false_iff in Hif as [P2 Hb]. apply negb_false_iff in Hb.
      assert (holds (Some c) s1 s2) as Hc by (eapply holds_true; eassumption).
      apply IH; [exact P2|]. intros rc s3 R H. apply K; [exact R|]. right. exists o, s1.
      split; [exact D|]. split; [exact E|]. destruct H as [(o2 & D2 & E2)|(o2 & s4 & D2 & E2 & D3)].
      * eapply bs_body_leave; eassumption.
      * eapply bs_again; [exact Hc|exact D2|exact E2|apply iterates_none|exact D3].
Qed.

Lemma for_loop_sound n c it code s :
  opt_all plain_block code = true -> quiet s ->
  wp (for_loop blk n c it code 0)
    (λ rc s', rc4 rc /\ bs_loop c it code s (view rc s') s') (λ _, True) s.
Proof.
  intros Hp. revert s. induction n as [|n IH]; intros s P; [exact I|]. cbn [for_loop]. wp_step. wp_step.
  rewrite P. wp_step.
  apply (wp_mono _ (λ val s1,
    match c, val with
    | Some c, Some v => call (eval c) s = Ok v s1
    | None, None => s1 = s
    | _, _ => False
    end)).
  { destruct c; simpl; wp_step; [apply wp_call_eq; intros v s1 Hv; wp_step; exact Hv|reflexivity]. }
  intros val s1 Hval. do 3 wp_step.
  - destruct c as [c|], val as [v|]; try contradiction; [|discriminate]. wp_steps.
    split; [left; reflexivity|]. destruct (isEvent (st_xsink s1)) eqn:P1; simpl in Hif.
    + rewrite view_pending by exact P1. eapply bs_cond_throw; eassumption.
    + rewrite view_quiet by exact P1. eapply bs_cond_false; [exact Hval|exact P1|].
      destruct (getAsBool v); [discriminate|reflexivity].
  - assert (quiet s1 /\ holds c s s1) as [P1 Hc].
    { destruct c as [c|], val as [v|]; try contradiction.
      - apply orb_false_iff in Hif as [P1 Hb]. apply negb_false_iff in Hb.
        split; [exact P1|]. eapply holds_true; eassumption.
      - subst s1. split; [exact P|]. constructor. }
    wp_step. apply loop_body_sound; [exact Hp|exact P1|..].
    + intros rc o s2 R D E. wp_steps. split; [exact R|]. eapply bs_body_leave; eassumption.
    + intros o s2 D E P2. wp_step.
      apply (wp_mono _ (λ val s3,
        match it, val with
        | Some e, Some v => call (eval e) s2 = Ok v s3
        | None, None => s3 = s2
        | _, _ => False
        end)).
      { destruct it; simpl; wp_step; [apply wp_call_eq; intros v s3 Hv; wp_step; exact Hv|reflexivity]. }
      intros val' s3 Hval'. do 3 wp_step.
      * destruct it as [e|], val' as [v|]; try contradiction; [|discriminate]. wp_steps.
        split; [left; reflexivity|]. rewrite view_pending by assumption.
        eapply bs_iter_throw; eassumption.
      * assert (quiet s3 /\ iterates it s2 s3) as [P3 Hi].
        { destruct it as [e|], val' as [v|]; try contradiction.
          - split; [assumption|]. econstructor; eassumption.
          - subst s3. split; [exact P2|constructor]. }
        eapply wp_mono; [apply IH, P3|]. intros rc s4 [R D4]. split; [exact R|].
        eapply bs_again; eassumption.
Qed.

Lemma foreach_loop_sound n var b f i s :
  plain_block b = true ->
  wp (foreach_loop blk n var b f i 0)
    (λ rc s', rc4 rc /\ bs_foreach_loop var b f i s (view rc s') s') (λ _, True) s.
Proof.
  intros Hp. revert f i s. induction n as [|n IH]; intros f i s; [exact I|]. cbn [foreach_loop]. wp_step.
  fold (getNext_call f). apply (wp_mono _ (λ a s', getNext_call f s = Ok a s')).
  { unfold getNext_call at 1. apply wp_call_eq. auto. }
  intros [[v|] f'] s1 Hn; [|wp_steps; split; [left; reflexivity|eapply bs_each_end; exact Hn]].
  do 3 wp_step.
  { wp_steps. split; [left; reflexivity|]. rewrite view_pending by assumption.
    eapply bs_each_throw; eassumption. }
  wp_step. apply wp_call_eq. intros ok s2 Ha. wp_step.
  { destruct ok; [discriminate|]. wp_steps. split; [left; reflexivity|].
    eapply bs_each_assign; eassumption. }
  destruct ok; [|discriminate]. wp_step. unfold with_element. wp_step. wp_step. wp_step. wp_step. wp_step.
  wp_step. fold (set_element (i32 i) s2). eapply wp_mono; [apply Hblk, Hp|]. intros rc s3 [R D].
  apply after_body_sound; [exact R|..].
  - intros rc' R' E. wp_steps. split; [exact R'|].
    change (view rc' (set_world (set_implicit_element (implicit_element (st_world s2)) (st_world s3)) s3))
      with (view rc' s3).
    eapply bs_each_leave; eassumption.
  - intros E P3. wp_steps. eapply wp_mono; [apply IH|]. intros rc' s4 [R' D']. split; [exact R'|].
    eapply bs_each_next; eassumption.
Qed.

Lemma cases_sound w s :
  forallb (λ c, match c with Case _ code _ => opt_all plain_block code end) w = true ->
  wp (run_cases blk w 0) (λ rc s', rc4 rc /\ bs_cases w s (view rc s') s') (λ _, True) s.
Proof.
  revert s. induction w as [|c w IH]; intros s Hp; cbn [run_cases].
  - wp_steps. split; [left; reflexivity|]. destruct (isEvent (st_xsink s)) eqn:P.
    + rewrite view_pending by exact P. constructor. exact P.
    + rewrite view_quiet by exact P. constructor. exact P.
  - wp_step. wp_step. simpl in Hp. apply andb_true_iff in Hp as [Hc Hw]. cbn [andb Z.eqb].
    destruct (isEvent (st_xsink s)) eqn:P; cbn [negb andb].
    { wp_steps. split; [left; reflexivity|]. rewrite view_pending by exact P.
      constructor. exact P. }
    wp_step. change (match case_code c with Some b => blk b | None => mret 0 end)
      with (exec_opt blk (case_code c)).
    eapply wp_mono; [apply opt_sound; destruct c; exact Hc|]. intros rc s1 [R D].
    destruct (isEvent (st_xsink s1)) eqn:P1.
    { destruct w; cbn [run_cases]; wp_step; wp_step; rewrite ?P1, ?andb_false_r; wp_steps;
        (split; [exact R|]); rewrite view_pending in * by exact P1;
        (eapply bs_case_leave; [exact P|exact D|discriminate]). }
    destruct (Z.eqb_spec rc 0) as [->|N].
    + eapply wp_mono; [apply IH, Hw|]. intros rc2 s2 [R2 D2]. split; [exact R2|].
      eapply bs_case_next; [exact P| |exact D2]. rewrite view_quiet in D by exact P1. exact D.
    + assert (view rc s1 <> ONormal) as Nv.
      { rewrite view_quiet by exact P1. destruct R as [->|[->|[->| ->]]]; [congruence|discriminate..]. }
      destruct w; cbn [run_cases]; wp_step; wp_step; rewrite ?P1;
        [|replace (rc =? 0) with false by (symmetry; apply Z.eqb_neq, N); cbn [andb]]; wp_steps;
        (split; [exact R|]); (eapply bs_case_leave; eassumption).
Qed.

Lemma leaf_sound st m s :
  leaf st = Some m -> execImpl blk fuel st = m /\
  wp m (λ rc s', rc4 rc /\ bs_stmt st s (view rc s') s') (λ _, True) s.
Proof.
  intros H. split; [destruct st; try discriminate; injection H as <-; reflexivity|].
  apply (wp_mono _ (λ rc s', rc4 rc /\ m s = Ok rc s')).
  2: { intros rc s' [R E]. split; [exact R|]. eapply bs_leaf; eassumption. }
  assert (wp m (λ rc _, rc4 rc) (λ _, True) s) as W.
  { unfold rc4. destruct st; try discriminate; injection H as <-.
    - wp_steps. auto.
    - unfold ThrowStatement_execImpl. wp_steps; auto.
    - unfold RethrowStatement_execImpl. destruct args; wp_steps; auto;
        unfold rethrow_caught; wp_steps;
        destruct (st_catch _); try exact I; wp_steps; auto.
    - unfold ReturnStatement_execImpl. wp_steps. apply (wp_mono _ (λ _ _, True));
        [match goal with |- wp (eval_opt ?e) _ _ _ => destruct e end; simpl; wp_steps; exact I|]. intros. wp_steps; auto.
    - wp_steps. auto.
    - wp_steps. auto.
    - wp_steps. auto. }
  unfold wp in *. destruct (m s); auto.
Qed.

Ltac leave := split; [unfold rc4; auto|]; rewrite view_leave.

Lemma if_sound lvars c ic ec s :
  plain (IfStatement lvars c ic ec) = true ->
  wp (IfStatement_execImpl blk lvars c ic ec)
    (λ rc s', rc4 rc /\ bs_stmt (IfStatement lvars c ic ec) s (view rc s') s') (λ _, True) s.
Proof.
  intros H. apply andb_true_iff in H as [Hi He]. apply with_lvars_wp. wp_step.
  apply wp_call_eq. intros v s1 Hv. do 3 wp_step.
  - wp_steps. leave. rewrite throw_leave by assumption. eapply bs_if_throw; eauto.
  - change (if getAsBool v then exec_opt blk ic else exec_opt blk ec) with
      (if getAsBool v then exec_opt blk ic else exec_opt blk ec).
    assert ((if getAsBool v then exec_opt blk ic else exec_opt blk ec)
            = exec_opt blk (if getAsBool v then ic else ec)) as -> by (destruct (getAsBool v); reflexivity).
    eapply wp_mono; [apply opt_sound; destruct (getAsBool v); assumption|].
    intros rc s2 [R D]. split; [exact R|]. rewrite view_leave. eapply bs_if; eauto.
Qed.

Lemma loops_sound st s :
  match st with
  | WhileStatement _ _ _ | DoWhileStatement _ _ _ | ForStatement _ _ _ _ _
  | ForEachStatement _ _ _ _ _ => True
  | _ => False
  end -> plain st = true -> quiet s ->
  wp (execImpl blk fuel st) (λ rc s', rc4 rc /\ bs_stmt st s (view rc s') s') (λ _, True) s.
Proof.
  intros Hl Hp P. destruct st as [| |lvars c code|lvars c code|lvars a c it code|lvars var lst is_ref code
                 | | | | | | | | |]; try contradiction; cbn [execImpl plain] in Hp |- *.
  - apply with_lvars_wp. eapply wp_mono; [apply while_loop_sound, Hp|]. intros rc s1 [R D].
    split; [exact R|]. rewrite view_leave. eapply bs_while; eauto.
  - apply with_lvars_wp. apply do_while_loop_sound; [exact Hp|exact P|]. intros rc s1 R H.
    split; [exact R|]. rewrite view_leave. destruct H as [(o & D & E)|(o & s2 & D & E & D2)].
    + eapply bs_do_leave; eauto.
    + eapply bs_do; eauto.
  - apply with_lvars_wp. wp_step.
    apply (wp_mono _ (λ val s1,
      match a, val with
      | Some e, Some v => call (eval e) (enter lvars s) = Ok v s1
      | None, None => s1 = enter lvars s
      | _, _ => False
      end)).
    { destruct a; simpl; wp_step; [apply wp_call_eq; intros v s1 Hv; wp_step; exact Hv|reflexivity]. }
    intros val s1 Hval. do 3 wp_step.
    + destruct a as [e|], val as [v|]; try contradiction; [|discriminate]. wp_steps. leave.
      rewrite throw_leave by assumption. eapply bs_for_throw; eauto.
    + assert (quiet s1 /\ iterates a (enter lvars s) s1) as [P1 Hi].
      { destruct a as [e|], val as [v|]; try contradiction.
        - split; [assumption|]. econstructor; eassumption.
        - subst s1. split; [exact P|constructor]. }
      eapply wp_mono; [apply for_loop_sound; assumption|]. intros rc s2 [R D]. split; [exact R|].
      rewrite view_leave. eapply bs_for; eauto.
  - apply andb_true_iff in Hp as [Hr Hc]. destruct is_ref; [discriminate|].
    apply with_lvars_wp. wp_step. apply wp_call_eq. intros f s1 Hf. do 2 wp_step.
    destruct (isEvent (st_xsink s1)) eqn:P1, f as [f|], code as [b|]; wp_steps;
      try (leave; rewrite view_zero; eapply bs_foreach; [exact Hf|auto|auto..]; fail).
    eapply wp_mono; [apply foreach_loop_sound, Hc|]. intros rc s2 [R D]. split; [exact R|].
    rewrite view_leave. eapply bs_foreach_run; eauto.
Qed.

Lemma view_pass_return rc s0 s : view rc (pass_return_value s0 s) = view rc s.
Proof. reflexivity. Qed.

Lemma view_taken rc s : es_list (st_xsink s) = [] -> view rc (taken s) = view rc s.
Proof. intros H. unfold view, throw_if, taken, isEvent, isException. simpl. rewrite H. reflexivity. Qed.

Lemma leave_catch_event id s0 s :
  pending_in s -> pending_in (leave_catch id s0 s).
Proof.
  intros P. unfold leave_catch. destruct id as [v|]; [|exact P].
  pose proof (uninstantiate_event v (st_world s) (st_xsink s) P) as N.
  destruct (uninstantiate _ _ _). exact N.
Qed.

Lemma view_leave_catch rc id s0 s :
  view rc (leave_catch id s0 s) = throw_if (leave_catch id s0 s) (view rc s).
Proof.
  unfold view, throw_if. destruct (isEvent (st_xsink s)) eqn:P; [|reflexivity].
  rewrite (leave_catch_event id s0 s P). reflexivity.
Qed.

Lemma try_sound tb cb id s :
  plain (TryStatement tb cb id) = true ->
  wp (TryStatement_execImpl blk tb cb id)
    (λ rc s', rc4 rc /\ bs_stmt (TryStatement tb cb id) s (view rc s') s') (λ _, True) s.
Proof.
  intros H. apply andb_true_iff in H as [Ht Hc]. unfold TryStatement_execImpl. do 5 wp_step.
  eapply wp_mono; [apply opt_sound, Ht|]. intros rc s1 [R D]. do 5 wp_step.
  change (snd (fst (catchException (st_xsink s1)))) with (es_list (st_xsink s1)).
  fold (taken s1). destruct (es_list (st_xsink s1)) as [|x l] eqn:El.
  { wp_steps. split; [exact R|]. fold (pass_return_value s (taken s1)).
    rewrite view_pass_return, view_taken by exact El. eapply bs_try; eauto. }
  assert (es_list (st_xsink s1) <> []) as N by (rewrite El; discriminate).
  destruct cb as [b|].
  2: { wp_steps. split; [left; reflexivity|]. fold (pass_return_value s (taken s1)). eapply bs_try_drop; eauto. }
  do 5 wp_step.
  apply (wp_mono _ (λ _ s2, s2 = enter_catch id (x :: l) (taken s1))); [destruct id; wp_steps; reflexivity|].
  intros _ s2 ->. wp_step. eapply wp_mono; [apply Hblk, Hc|]. intros rc2 s2 [R2 D2]. wp_step.
  apply (wp_mono _ (λ _ s3, set_catch (st_catch s1) s3 = leave_catch id s1 s2)).
  { unfold leave_catch. destruct id as [v|]; [|wp_step; reflexivity]. apply wp_call_eq. intros [] s3 E.
    unfold call in E. destruct (uninstantiate _ _ _). injection E as <-. reflexivity. }
  intros _ s3 E. change (st_catch (taken s1)) with (st_catch s1). do 4 wp_step. rewrite E. do 4 wp_step.
  split; [exact R2|]. fold (pass_return_value s (leave_catch id s1 s2)).
  assert (view rc2 (pass_return_value s (leave_catch id s1 s2))
    = throw_if (pass_return_value s (leave_catch id s1 s2)) (view rc2 s2)) as ->
    by exact (view_leave_catch rc2 id s1 s2).
  rewrite <- El in D2.
  eapply (bs_try_catch tb b id s _ s1 _ s2); eauto.
Qed.

Lemma view_switch rc s :
  rc4 rc ->
  view (if (rc =? RC_BREAK) || broken_loop && (rc =? RC_CONTINUE) then 0 else rc) s
  = switch_exit (view rc s).
Proof.
  intros R. unfold view, throw_if. destruct (isEvent (st_xsink s)); [reflexivity|].
  destruct R as [->|[->|[->| ->]]]; simpl; try reflexivity; destruct broken_loop; reflexivity.
Qed.

Lemma switch_sound lvars e cases s :
  plain (SwitchStatement lvars e cases) = true ->
  wp (SwitchStatement_execImpl blk lvars e cases)
    (λ rc s', rc4 rc /\ bs_stmt (SwitchStatement lvars e cases) s (view rc s') s') (λ _, True) s.
Proof.
  intros H. cbn [plain] in H. apply with_lvars_wp. wp_step. apply wp_call_eq. intros v s1 Hv. do 3 wp_step.
  { wp_steps. leave. rewrite throw_leave by assumption. eapply bs_switch_throw; eauto. }
  wp_step. apply (wp_mono _ (λ w s', find_case v cases s1 = Ok w s')).
  { pose proof ((find_case_typed (A := True)) v cases s1 s1 ltac:(reflexivity)) as F. unfold wp in *.
    destruct (find_case v cases s1); auto. }
  intros w s2 Hw. wp_step.
  eapply wp_mono; [apply cases_sound|].
  { destruct (switch_cases_suffix v cases s1 w s2 Hw) as [q Hq]. rewrite Hq, forallb_app in H.
    apply andb_true_iff in H. apply H. }
  intros rc s3 [R D]. wp_step. split.
  { unfold rc4 in *. destruct ((rc =? RC_BREAK) || _); auto. }
  rewrite view_leave.
  rewrite view_switch by exact R.
  eapply bs_switch; eauto.
Qed.

Lemma statement_sound st s :
  plain st = true -> quiet s ->
  wp (execImpl blk fuel st) (λ rc s', rc4 rc /\ bs_stmt st s (view rc s') s') (λ _, True) s.
Proof.
  intros H P. destruct (leaf st) as [m|] eqn:E.
  - destruct (leaf_sound st m s E) as [-> W]. exact W.
  - destruct st; try discriminate; try (apply loops_sound; [exact I|exact H|exact P]).
    + apply if_sound, H.
    + apply try_sound, H.
    + apply switch_sound, H.
Qed.

Lemma list_sound l s :
  forallb plain l = true ->
  wp (exec_statements (execImpl blk fuel) l) (λ rc s', rc4 rc /\ bs_list l s (view rc s') s') (λ _, True) s.
Proof.
  intros H. destruct (isEvent (st_xsink s)) eqn:P.
  { unfold wp. rewrite exec_statements_pending by exact P. split; [left; reflexivity|].
    rewrite view_pending by exact P. constructor. exact P. }
  revert s P. induction l as [|st l IH]; intros s P; cbn [exec_statements].
  { wp_steps. split; [left; reflexivity|]. rewrite view_quiet by exact P. constructor. exact P. }
  simpl in H. apply andb_true_iff in H as [H1 H2]. unfold statement_exec. do 3 wp_step. rewrite P.
  eapply wp_mono; [apply statement_sound; assumption|]. intros rc s1 [R D].
  destruct (isEvent (st_xsink s1)) eqn:P1.
  - assert (bs_list (st :: l) s OThrow s1) as D1.
    { rewrite view_pending in D by exact P1. eapply bs_leave; [exact P|exact D|discriminate]. }
    destruct (rc =? 0).
    + unfold wp. rewrite exec_statements_pending by exact P1. split; [left; reflexivity|].
      rewrite view_pending by exact P1. exact D1.
    + wp_steps. split; [exact R|]. rewrite view_pending by exact P1. exact D1.
  - destruct (Z.eqb_spec rc 0) as [->|N].
    + eapply wp_mono; [apply IH; assumption|]. intros rc2 s2 [R2 D2]. split; [exact R2|].
      rewrite view_quiet in D by exact P1. eapply bs_next; [exact P|exact D|exact D2].
    + wp_steps. split; [exact R|]. eapply bs_leave; [exact P|exact D|]. rewrite view_quiet by exact P1.
      destruct R as [->|[->|[->| ->]]]; [congruence|discriminate..].
Qed.

Lemma block_sound lvars l s :
  forallb plain l = true ->
  wp (with_lvars lvars (execIntern blk (execImpl blk fuel) (Block lvars l)))
    (λ rc s', rc4 rc /\ bs_block (Block lvars l) s (view rc s') s') (λ _, True) s.
Proof.
  intros H. apply with_lvars_wp. unfold execIntern. rewrite plain_no_handlers by exact H. simpl. wp_step. wp_step. do 3 wp_step.
  apply (wp_mono _ (λ rc s', rc4 rc /\ bs_list l (enter lvars s) (view rc s') s')).
  { destruct (isEvent (st_xsink (enter lvars s))) eqn:P; [|apply list_sound, H].
    wp_steps. split; [left; reflexivity|]. rewrite view_pending by exact P. constructor. exact P. }
  intros rc s1 [R D]. wp_steps. split; [exact R|]. rewrite view_leave. econstructor; [exact D|reflexivity].
Qed.
End sound.

Lemma exec_sound n b : plain_block b = true -> sound_block (block_execImpl n) b.
Proof.
  revert b. induction n as [|n IH]; intros b H s; [exact I|]. destruct b as [lvars l].
  apply block_sound; assumption.
Qed.

(** *** Completeness: with enough fuel, a derivation has a run *)

Definition runs {A} (m : M A) (s : state) (a : A) (s' : state) : Prop := m s = Ok a s'.

Lemma runs_bind {A B} (m : M A) (f : A -> M B) s a s1 b s2 :
  runs m s a s1 -> runs (f a) s1 b s2 -> runs (m ≫= f) s b s2.
Proof. unfold runs, mbind, M_bind. intros ->. auto. Qed.

Lemma runs_ret {A} (a : A) s : runs (mret a) s a s.
Proof. reflexivity. Qed.

Lemma runs_get {A} (f : state -> A) s : runs (get f) s (f s) s.
Proof. reflexivity. Qed.

Lemma runs_modify f s : runs (modify f) s tt (f s).
Proof. reflexivity. Qed.

Lemma runs_pending s b : isEvent (st_xsink s) = b -> runs pending s b s.
Proof. intros <-. reflexivity. Qed.

Lemma runs_with_lvars {A} lvars (m : M A) s a s1 :
  runs m (enter lvars s) a s1 -> runs (with_lvars lvars m) s a (uninstantiate_all lvars s1).
Proof.
  intros H. unfold with_lvars. eapply runs_bind; [apply runs_modify|].
  eapply runs_bind; [exact H|]. eapply runs_bind; [apply runs_modify|]. apply runs_ret.
Qed.

(** The computation [m] ends with a result that means [o]. *)
Definition ends (m : M Z) (s : state) (o : outcome) (s' : state) : Prop :=
  exists rc, rc4 rc /\ runs m s rc s' /\ view rc s' = o.

(** From some fuel on *)
Definition eventually (m : nat -> M Z) (s : state) (o : outcome) (s' : state) : Prop :=
  exists n0, forall n, (n0 <= n)%nat -> ends (m n) s o s'.

Lemma ends_zero s : runs (mret 0) s 0 s /\ view 0 s = throw_if s ONormal.
Proof. split; reflexivity. Qed.

Lemma ends_with_lvars lvars m s o s1 :
  ends m (enter lvars s) o s1 ->
  ends (with_lvars lvars m) s (throw_if (uninstantiate_all lvars s1) o) (uninstantiate_all lvars s1).
Proof.
  intros (rc & R & H & <-). exists rc. split; [exact R|]. split; [apply runs_with_lvars, H|apply view_leave].
Qed.

Lemma eventually_map (m m' : nat -> M Z) s o s' t o' t' :
  (forall n, ends (m n) s o s' -> ends (m' n) t o' t') -> eventually m s o s' -> eventually m' t o' t'.
Proof. intros H [n0 E]. exists n0. auto. Qed.

Lemma eventually_now (m : nat -> M Z) s o s' : (forall n, ends (m n) s o s') -> eventually m s o s'.
Proof. intros H. exists O. auto. Qed.

Lemma eventually_and (m1 m2 m : nat -> M Z) s1 o1 s1' s2 o2 s2' s o s' :
  eventually m1 s1 o1 s1' -> eventually m2 s2 o2 s2' ->
  (forall n, ends (m1 n) s1 o1 s1' -> ends (m2 n) s2 o2 s2' -> ends (m n) s o s') ->
  eventually m s o s'.
Proof.
  intros [n1 E1] [n2 E2] H. exists (max n1 n2). intros n Hn. apply H; [apply E1|apply E2]; lia.
Qed.

Lemma view_normal rc s : rc4 rc -> view rc s = ONormal -> rc = 0 /\ quiet s.
Proof.
  intros R V. unfold view, throw_if in V. destruct (isEvent (st_xsink s)); [discriminate|].
  destruct R as [->|[->|[->| ->]]]; try discriminate. split; reflexivity.
Qed.

Lemma zero_pending s o : view 0 s = o -> o <> ONormal -> pending_in s.
Proof.
  unfold view, throw_if. destruct (isEvent (st_xsink s)); [reflexivity|]. intros <- N.
  destruct (N eq_refl).
Qed.

(** The body of a loop *)
Lemma body_runs (m : M Z) s o s' :
  ends m s o s' ->
  match loop_exit o with
  | Some o' => exists rc, rc4 rc /\ runs (rc ← m; after_body rc) s (LoopLeave rc) s' /\ view rc s' = o'
  | None => runs (rc ← m; after_body rc) s (LoopOn 0) s' /\ quiet s'
  end.
Proof.
  intros (rc & R & H & <-).
  assert (forall b r, isEvent (st_xsink s') = b ->
     (if b || (rc =? RC_BREAK) then LoopLeave 0
        else if rc =? RC_RETURN then LoopLeave rc
        else if rc =? RC_CONTINUE then LoopOn 0 else LoopOn rc) = r ->
     runs (rc ← m; after_body rc) s r s') as K.
  { intros b r Hb <-. eapply runs_bind; [exact H|]. unfold after_body.
    eapply runs_bind; [apply runs_pending, Hb|]. apply runs_ret. }
  destruct (isEvent (st_xsink s')) eqn:P'.
  { rewrite view_pending by exact P'. exists 0. split; [left; reflexivity|].
    split; [eapply K; reflexivity|apply view_pending, P']. }
  rewrite view_quiet by exact P'. destruct R as [->|[->|[->| ->]]]; simpl.
  - split; [eapply K; reflexivity|reflexivity].
  - exists 1. split; [right; left; reflexivity|]. split; [eapply K; reflexivity|apply view_quiet, P'].
  - exists 0. split; [left; reflexivity|]. split; [eapply K; reflexivity|apply view_quiet, P'].
  - split; [eapply K; reflexivity|reflexivity].
Qed.

Lemma loop_body_runs blk code s o s' :
  quiet s -> ends (exec_opt blk code) s o s' ->
  match loop_exit o with
  | Some o' => exists rc, rc4 rc /\ runs (loop_body blk code 0) s (LoopLeave rc) s' /\ view rc s' = o'
  | None => runs (loop_body blk code 0) s (LoopOn 0) s' /\ quiet s'
  end.
Proof.
  intros P H. destruct code as [b|]; [exact (body_runs (blk b) s o s' H)|].
  destruct H as (rc & _ & [= <- <-] & <-). rewrite view_quiet by exact P. split; [reflexivity|exact P].
Qed.

Lemma ends_bind {A} (m : M A) (f : A -> M Z) s a s1 o s' :
  runs m s a s1 -> ends (f a) s1 o s' -> ends (m ≫= f) s o s'.
Proof. intros H (rc & R & H2 & V). exists rc. split; [exact R|]. split; [eapply runs_bind; eassumption|exact V]. Qed.

Lemma ends_ret rc s o : rc4 rc -> view rc s = o -> ends (mret rc) s o s.
Proof. intros R V. exists rc. split; [exact R|]. split; [reflexivity|exact V]. Qed.

Lemma ends_pending s b (f : bool -> M Z) o s' :
  isEvent (st_xsink s) = b -> ends (f b) s o s' -> ends (pending ≫= f) s o s'.
Proof. intros E. apply ends_bind, runs_pending, E. Qed.

Lemma ends_body blk code s1 o s2 (f : loop_next -> M Z) o' s' :
  quiet s1 -> ends (exec_opt blk code) s1 o s2 ->
  match loop_exit o with
  | Some ox => forall rc, rc4 rc -> view rc s2 = ox -> ends (f (LoopLeave rc)) s2 o' s'
  | None => quiet s2 -> ends (f (LoopOn 0)) s2 o' s'
  end -> ends (loop_body blk code 0 ≫= f) s1 o' s'.
Proof.
  intros P H K. pose proof (loop_body_runs blk code s1 o s2 P H) as B.
  destruct (loop_exit o).
  - destruct B as (rc & R & B & V). eapply ends_bind; [exact B|]. apply K; assumption.
  - destruct B as [B P2]. eapply ends_bind; [exact B|]. apply K, P2.
Qed.

Lemma holds_quiet c s s1 : quiet s -> holds c s s1 -> quiet s1.
Proof. intros P H. destruct H; assumption. Qed.

Lemma iterates_quiet c s s1 : quiet s -> iterates c s s1 -> quiet s1.
Proof. intros P H. destruct H; assumption. Qed.

Section loops.
Variable blk : StatementBlock -> M Z.

(** The condition of a do statement and what follows. *)
Definition do_rest (k : nat) (c : expr) (code : option StatementBlock) : M Z :=
  val ← call (eval c);
  p ← pending;
  if p || negb (getAsBool val) then mret 0 else do_while_loop blk k c code 0.

Definition for_ends (k : nat) (c it : option expr) (code : option StatementBlock) (s : state)
  (o : outcome) (s' : state) : Prop :=
  ends (for_loop blk k c it code 0) s o s' /\
  forall c0, c = Some c0 -> it = None ->
    ends (while_loop blk k c0 code 0) s o s' /\ ends (do_rest k c0 code) s o s'.

Lemma for_holds k c it code s s1 o s' :
  quiet s -> holds c s s1 ->
  ends (r ← loop_body blk code 0;
        match r with
        | LoopLeave rc => mret rc
        | LoopOn rc =>
          val ← eval_opt it;
          p ← pending;
          if match val with Some _ => p | None => false end then mret rc else for_loop blk k c it code rc
        end) s1 o s' ->
  ends (for_loop blk (S k) c it code 0) s o s'.
Proof.
  intros P H E. cbn [for_loop]. eapply ends_pending; [exact P|]. cbv iota.
  destruct H as [s|c s v s1 Hv P1 Hb]; unfold eval_opt at 1.
  - eapply ends_bind; [apply runs_ret|]. eapply ends_pending; [exact P|]. exact E.
  - eapply ends_bind; [eapply runs_bind; [exact Hv|apply runs_ret]|].
    eapply ends_pending; [exact P1|]. rewrite Hb. exact E.
Qed.

Lemma cond_ends c s v s1 (m : M Z) o s' :
  call (eval c) s = Ok v s1 ->
  (if isEvent (st_xsink s1) || negb (getAsBool v) then ends (mret 0) s1 o s' else ends m s1 o s') ->
  ends (val ← call (eval c); p ← pending; if p || negb (getAsBool val) then mret 0 else m) s o s'.
Proof.
  intros Hv H. eapply ends_bind; [exact Hv|]. eapply ends_pending; [reflexivity|].
  destruct (isEvent (st_xsink s1) || negb (getAsBool v)); exact H.
Qed.

Lemma while_ends c code k s v s1 o s' :
  call (eval c) s = Ok v s1 ->
  (if isEvent (st_xsink s1) || negb (getAsBool v) then ends (mret 0) s1 o s'
   else ends (r ← loop_body blk code 0;
              match r with LoopOn rc => while_loop blk k c code rc | LoopLeave rc => mret rc end) s1 o s') ->
  ends (while_loop blk (S k) c code 0) s o s'.
Proof. intros Hv H. exact (cond_ends c s v s1 _ o s' Hv H). Qed.

(** One lemma for each rule of [bs_loop] *)
Lemma loop_cond_stop c it code s v s1 k o :
  quiet s -> call (eval c) s = Ok v s1 -> isEvent (st_xsink s1) || negb (getAsBool v) = true ->
  view 0 s1 = o -> for_ends (S k) (Some c) it code s o s1.
Proof.
  intros P Hv Hb V. assert (ends (mret 0) s1 o s1) as E by (apply ends_ret; [left; reflexivity|exact V]).
  split.
  - cbn [for_loop]. eapply ends_pending; [exact P|]. cbv iota.
    eapply ends_bind; [eapply runs_bind; [exact Hv|apply runs_ret]|].
    eapply ends_pending; [reflexivity|]. rewrite Hb. exact E.
  - intros c0 [= <-] ->. split.
    + eapply while_ends; [exact Hv|]. rewrite Hb. exact E.
    + eapply cond_ends; [exact Hv|]. rewrite Hb. exact E.
Qed.

Lemma holds_some c s s1 :
  holds (Some c) s s1 ->
  exists v, call (eval c) s = Ok v s1 /\ isEvent (st_xsink s1) || negb (getAsBool v) = false.
Proof. intros H. inversion H; subst. eexists. split; [eassumption|]. apply orb_false_iff. split; [assumption|].
  apply negb_false_iff. assumption. Qed.

Lemma loop_leave c it code s s1 o o' s2 k :
  quiet s -> holds c s s1 -> ends (exec_opt blk code) s1 o s2 -> loop_exit o = Some o' ->
  for_ends (S k) c it code s o' s2.
Proof.
  intros P H E X. pose proof (holds_quiet _ _ _ P H) as P1.
  assert (forall f : loop_next -> M Z, (forall rc, f (LoopLeave rc) = mret rc) ->
    ends (loop_body blk code 0 ≫= f) s1 o' s2) as K.
  { intros f Hf. eapply ends_body; [exact P1|exact E|]. rewrite X. intros rc R V. rewrite Hf.
    apply ends_ret; assumption. }
  split; [eapply for_holds; [exact P|exact H|]; apply K; reflexivity|].
  intros c0 -> ->. destruct (holds_some _ _ _ H) as (v & Hv & Hb). split.
  - eapply while_ends; [exact Hv|]. rewrite Hb. apply K. reflexivity.
  - eapply cond_ends; [exact Hv|]. rewrite Hb. cbn [do_while_loop]. apply K. reflexivity.
Qed.

Lemma loop_iter_throw c e code s s1 o s2 v s3 k :
  quiet s -> holds c s s1 -> ends (exec_opt blk code) s1 o s2 -> loop_exit o = None ->
  call (eval e) s2 = Ok v s3 -> pending_in s3 -> for_ends (S k) c (Some e) code s OThrow s3.
Proof.
  intros P H E X Hv P3. pose proof (holds_quiet _ _ _ P H) as P1. split; [|discriminate].
  eapply for_holds; [exact P|exact H|]. eapply ends_body; [exact P1|exact E|]. rewrite X. intros P2.
  cbv iota. unfold eval_opt. eapply ends_bind; [eapply runs_bind; [exact Hv|apply runs_ret]|].
  eapply ends_pending; [exact P3|]. apply ends_ret; [left; reflexivity|apply view_pending, P3].
Qed.

Lemma loop_again c it code s s1 o s2 s3 o' s4 k :
  quiet s -> holds c s s1 -> ends (exec_opt blk code) s1 o s2 -> loop_exit o = None ->
  iterates it s2 s3 -> (quiet s3 -> for_ends k c it code s3 o' s4) ->
  for_ends (S k) c it code s o' s4.
Proof.
  intros P H E X I K. pose proof (holds_quiet _ _ _ P H) as P1. split.
  - eapply for_holds; [exact P|exact H|]. eapply ends_body; [exact P1|exact E|]. rewrite X. intros P2.
    pose proof (iterates_quiet _ _ _ P2 I) as P3. cbv iota.
    destruct I as [s2|e s2 v s3 Hv _]; unfold eval_opt.
    + eapply ends_bind; [apply runs_ret|]. eapply ends_pending; [exact P2|]. apply K, P3.
    + eapply ends_bind; [eapply runs_bind; [exact Hv|apply runs_ret]|].
      eapply ends_pending; [exact P3|]. apply K, P3.
  - intros c0 -> ->. inversion I; subst. destruct (holds_some _ _ _ H) as (v & Hv & Hb). split.
    + eapply while_ends; [exact Hv|]. rewrite Hb. eapply ends_body; [exact P1|exact E|]. rewrite X.
      intros P2. apply (K P2); reflexivity.
    + eapply cond_ends; [exact Hv|]. rewrite Hb. cbn [do_while_loop].
      eapply ends_body; [exact P1|exact E|]. rewrite X. intros P2. apply (K P2); reflexivity.
Qed.

(** The code of the cases of a switch statement *)
Lemma cases_pending w rc s : pending_in s -> runs (run_cases blk w rc) s rc s.
Proof.
  intros P. destruct w; cbn [run_cases]; (eapply runs_bind; [apply runs_pending, P|]);
    rewrite ?andb_false_r; apply runs_ret.
Qed.

Lemma cases_leave w rc s : rc <> 0 -> runs (run_cases blk w rc) s rc s.
Proof.
  intros N. destruct w; cbn [run_cases]; (eapply runs_bind; [apply runs_pending; reflexivity|]);
    [|replace (rc =? 0) with false by (symmetry; apply Z.eqb_neq, N)]; apply runs_ret.
Qed.

Lemma cases_step c w s o s1 o' s' :
  quiet s -> ends (exec_opt blk (case_code c)) s o s1 ->
  (if bool_decide (o = ONormal) then ends (run_cases blk w 0) s1 o' s' else o' = o /\ s' = s1) ->
  ends (run_cases blk (c :: w) 0) s o' s'.
Proof.
  intros P (rc & R & H & V) K. cbn [run_cases]. eapply ends_pending; [exact P|]. simpl.
  eapply ends_bind; [exact H|]. case_bool_decide as N.
  - subst o. destruct (view_normal rc s1 R N) as [-> _]. exact K.
  - destruct K as [-> ->]. exists rc. split; [exact R|]. split; [|exact V].
    destruct (Z.eqb_spec rc 0) as [->|Z0]; [|apply cases_leave, Z0].
    apply cases_pending, (zero_pending s1 o V N).
Qed.

(** The statements of a block *)
Lemma list_step fuel st l s o s1 o' s' :
  quiet s -> ends (execImpl blk fuel st) s o s1 ->
  (if bool_decide (o = ONormal) then ends (exec_statements (execImpl blk fuel) l) s1 o' s'
   else o' = o /\ s' = s1) ->
  ends (exec_statements (execImpl blk fuel) (st :: l)) s o' s'.
Proof.
  intros P (rc & R & H & V) K. cbn [exec_statements]. eapply ends_bind.
  { unfold statement_exec. eapply runs_bind; [apply runs_pending, P|]. exact H. }
  case_bool_decide as N.
  - subst o. destruct (view_normal rc s1 R N) as [-> _]. exact K.
  - destruct K as [-> ->]. exists rc. split; [exact R|]. split; [|exact V].
    destruct (Z.eqb_spec rc 0) as [->|Z0]; [|apply runs_ret].
    apply exec_statements_pending, (zero_pending s1 o V N).
Qed.
End loops.

Scheme bs_block_rec := Minimality for bs_block Sort Prop
  with bs_list_rec := Minimality for bs_list Sort Prop
  with bs_opt_rec := Minimality for bs_opt Sort Prop
  with bs_stmt_rec := Minimality for bs_stmt Sort Prop
  with bs_loop_rec := Minimality for bs_loop Sort Prop
  with bs_foreach_loop_rec := Minimality for bs_foreach_loop Sort Prop
  with bs_cases_rec := Minimality for bs_cases Sort Prop.

Combined Scheme bs_mutind from bs_block_rec, bs_list_rec, bs_opt_rec, bs_stmt_rec, bs_loop_rec,
  bs_foreach_loop_rec, bs_cases_rec.

(** What is proved of a derivation. The fuel [n] is that of the nested blocks,
    [k] that of the loop. *)
Definition run_block (b : StatementBlock) s o s' : Prop :=
  plain_block b = true -> eventually (λ n, block_execImpl n b) s o s'.
Definition run_list (l : list AbstractStatement) s o s' : Prop :=
  forallb plain l = true -> eventually (λ n, exec_statements (execImpl (block_execImpl n) n) l) s o s'.
Definition run_opt (code : option StatementBlock) s o s' : Prop :=
  opt_all plain_block code = true -> eventually (λ n, exec_opt (block_execImpl n) code) s o s'.
Definition run_stmt (st : AbstractStatement) s o s' : Prop :=
  plain st = true -> quiet s -> eventually (λ n, execImpl (block_execImpl n) n st) s o s'.
Definition run_loop (c it : option expr) (code : option StatementBlock) s o s' : Prop :=
  opt_all plain_block code = true -> quiet s ->
  exists n0, forall n k, (n0 <= n)%nat -> (n0 <= k)%nat -> for_ends (block_execImpl n) k c it code s o s'.
Definition run_foreach (var : expr) (b : StatementBlock) (f : iterator) (i : Z) s o s' : Prop :=
  plain_block b = true ->
  exists n0, forall n k, (n0 <= n)%nat -> (n0 <= k)%nat ->
    ends (foreach_loop (block_execImpl n) k var b f i 0) s o s'.
Definition plain_case (c : CaseNode) : bool :=
  match c with Case _ code _ => opt_all plain_block code end.
Definition run_cases_of (w : list CaseNode) s o s' : Prop :=
  forallb plain_case w = true -> eventually (λ n, run_cases (block_execImpl n) w 0) s o s'.

(** Fuel of at least one more *)
Lemma fuel_succ n0 (P : nat -> Prop) :
  (forall k, (n0 <= k)%nat -> P (S k)) -> forall k, (S n0 <= k)%nat -> P k.
Proof. intros H [|k] Hk; [lia|]. apply H. lia. Qed.

Lemma loop_throw_runs c it code s v s1 :
  call (eval c) s = Ok v s1 -> pending_in s1 -> run_loop (Some c) it code s OThrow s1.
Proof.
  intros Hv P1 _ P. exists 1%nat. intros n k _. revert k. apply fuel_succ. intros k _.
  eapply loop_cond_stop; [exact P|exact Hv|rewrite P1; reflexivity|apply view_pending, P1].
Qed.

Lemma loop_false_runs c it code s v s1 :
  call (eval c) s = Ok v s1 -> quiet s1 -> getAsBool v = false -> run_loop (Some c) it code s ONormal s1.
Proof.
  intros Hv P1 Hb _ P. exists 1%nat. intros n k _. revert k. apply fuel_succ. intros k _.
  eapply loop_cond_stop; [exact P|exact Hv|rewrite P1, Hb; reflexivity|apply view_quiet, P1].
Qed.

Lemma loop_leave_runs c it code s s1 o o' s2 :
  holds c s s1 -> run_opt code s1 o s2 -> loop_exit o = Some o' -> run_loop c it code s o' s2.
Proof.
  intros H R X Hp P. destruct (R Hp) as [n0 E]. exists (S n0). intros n k Hn. revert k.
  apply fuel_succ. intros k _. eapply loop_leave; [exact P|exact H| |exact X]. apply E. lia.
Qed.

Lemma loop_iter_throw_runs c e code s s1 o s2 v s3 :
  holds c s s1 -> run_opt code s1 o s2 -> loop_exit o = None ->
  call (eval e) s2 = Ok v s3 -> pending_in s3 -> run_loop c (Some e) code s OThrow s3.
Proof.
  intros H R X Hv P3 Hp P. destruct (R Hp) as [n0 E]. exists (S n0). intros n k Hn. revert k.
  apply fuel_succ. intros k _. eapply loop_iter_throw; [exact P|exact H| |exact X|exact Hv|exact P3].
  apply E. lia.
Qed.

Lemma opt_quiet code s o s' :
  quiet s -> loop_exit o = None -> run_opt code s o s' -> opt_all plain_block code = true -> quiet s'.
Proof.
  intros P X R Hp. destruct (R Hp) as [n0 E]. specialize (E n0 (le_n n0)).
  pose proof (loop_body_runs _ _ _ _ _ P E) as B. rewrite X in B. apply B.
Qed.

Lemma loop_again_runs c it code s s1 o s2 s3 o' s4 :
  holds c s s1 -> run_opt code s1 o s2 -> loop_exit o = None -> iterates it s2 s3 ->
  run_loop c it code s3 o' s4 -> run_loop c it code s o' s4.
Proof.
  intros H R X I RL Hp P.
  assert (quiet s3) as P3.
  { eapply iterates_quiet; [|exact I]. eapply opt_quiet; [|exact X|exact R|exact Hp].
    eapply holds_quiet; eassumption. }
  destruct (R Hp) as [n1 E1], (RL Hp P3) as [n2 E2]. exists (S (max n1 n2)). intros n k Hn. revert k.
  apply fuel_succ. intros k Hk. eapply loop_again; [exact P|exact H| |exact X|exact I|].
  - apply E1. lia.
  - intros _. apply E2; lia.
Qed.

(** foreach *)
Lemma with_element_runs {A} i (m : M A) s a s' :
  runs m (set_element (i32 i) s) a s' -> runs (with_element i m) s a (restore_element s s').
Proof.
  intros H. unfold with_element. eapply runs_bind; [apply runs_get|].
  eapply runs_bind; [apply runs_modify|]. eapply runs_bind; [exact H|].
  eapply runs_bind; [apply runs_modify|]. apply runs_ret.
Qed.

Lemma foreach_elem blk k var b f i s v f' s1 s2 o s' :
  getNext_call f s = Ok (Some v, f') s1 -> quiet s1 -> call (assign_lvalue var v) s1 = Ok true s2 ->
  ends (r ← with_element i (rc ← blk b; after_body rc);
        match r with LoopOn rc => foreach_loop blk k var b f' (u32 (i + 1)) rc | LoopLeave rc => mret rc end)
    s2 o s' ->
  ends (foreach_loop blk (S k) var b f i 0) s o s'.
Proof.
  intros Hn P Ha E. cbn [foreach_loop]. eapply ends_bind; [exact Hn|]. cbv iota beta.
  eapply ends_pending; [exact P|]. cbv iota. eapply ends_bind; [exact Ha|]. exact E.
Qed.

Lemma foreach_stop blk k var b f i s iv f' s1 o s' :
  getNext_call f s = Ok (iv, f') s1 ->
  match iv with
  | None => view 0 s1 = o /\ s' = s1
  | Some v => (pending_in s1 /\ o = OThrow /\ s' = s1) \/
              (quiet s1 /\ call (assign_lvalue var v) s1 = Ok false s' /\ view 0 s' = o)
  end -> ends (foreach_loop blk (S k) var b f i 0) s o s'.
Proof.
  intros Hn H. cbn [foreach_loop]. eapply ends_bind; [exact Hn|]. cbv iota beta. destruct iv as [v|].
  - destruct H as [(P & -> & ->)|(P & Ha & V)]; (eapply ends_pending; [exact P|]); cbv iota.
    + apply ends_ret; [left; reflexivity|apply view_pending, P].
    + eapply ends_bind; [exact Ha|]. apply ends_ret; [left; reflexivity|exact V].
  - destruct H as [V ->]. apply ends_ret; [left; reflexivity|exact V].
Qed.

Lemma foreach_stop_runs var b f i s iv f' s1 o s' :
  getNext_call f s = Ok (iv, f') s1 ->
  match iv with
  | None => view 0 s1 = o /\ s' = s1
  | Some v => (pending_in s1 /\ o = OThrow /\ s' = s1) \/
              (quiet s1 /\ call (assign_lvalue var v) s1 = Ok false s' /\ view 0 s' = o)
  end -> run_foreach var b f i s o s'.
Proof.
  intros Hn H _. exists 1%nat. intros n k _. revert k. apply fuel_succ. intros k _.
  eapply foreach_stop; eassumption.
Qed.

Lemma foreach_leave_runs var b f i s v f' s1 s2 o o' s3 :
  getNext_call f s = Ok (Some v, f') s1 -> quiet s1 -> call (assign_lvalue var v) s1 = Ok true s2 ->
  run_block b (set_element (i32 i) s2) o s3 -> loop_exit o = Some o' ->
  run_foreach var b f i s o' (restore_element s2 s3).
Proof.
  intros Hn P Ha R X Hp. destruct (R Hp) as [n0 E]. exists (S n0). intros n k Hn0. revert k.
  apply fuel_succ. intros k _. eapply foreach_elem; [exact Hn|exact P|exact Ha|].
  pose proof (body_runs _ _ _ _ (E n ltac:(lia))) as B. rewrite X in B.
  destruct B as (rc & R' & B & V). eapply ends_bind; [apply with_element_runs, B|].
  apply ends_ret; assumption.
Qed.

Lemma foreach_next_runs var b f i s v f' s1 s2 o s3 o' s4 :
  getNext_call f s = Ok (Some v, f') s1 -> quiet s1 -> call (assign_lvalue var v) s1 = Ok true s2 ->
  run_block b (set_element (i32 i) s2) o s3 -> loop_exit o = None ->
  run_foreach var b f' (u32 (i + 1)) (restore_element s2 s3) o' s4 ->
  run_foreach var b f i s o' s4.
Proof.
  intros Hn P Ha R X RL Hp. destruct (R Hp) as [n1 E1], (RL Hp) as [n2 E2].
  exists (S (max n1 n2)). intros n k Hn0. revert k. apply fuel_succ. intros k Hk.
  eapply foreach_elem; [exact Hn|exact P|exact Ha|].
  pose proof (body_runs _ _ _ _ (E1 n ltac:(lia))) as B. rewrite X in B. destruct B as [B _].
  eapply ends_bind; [apply with_element_runs, B|]. apply E2; lia.
Qed.

(** Lists of statements and cases *)
Lemma case_runs c w s o s1 o' s' :
  quiet s -> run_opt (case_code c) s o s1 ->
  (o = ONormal /\ run_cases_of w s1 o' s' \/ o <> ONormal /\ o' = o /\ s' = s1) ->
  run_cases_of (c :: w) s o' s'.
Proof.
  intros P R K Hp. simpl in Hp. apply andb_true_iff in Hp as [Hc Hw].
  assert (opt_all plain_block (case_code c) = true) as Hc' by (destruct c; exact Hc).
  destruct K as [[-> RW]|(N & -> & ->)].
  - eapply eventually_and; [apply R, Hc'|apply RW, Hw|]. intros n E1 E2.
    eapply cases_step; [exact P|exact E1|exact E2].
  - eapply eventually_map; [|apply R, Hc']. intros n E. eapply cases_step; [exact P|exact E|].
    rewrite bool_decide_false by exact N. split; reflexivity.
Qed.

Lemma list_runs st l s o s1 o' s' :
  quiet s -> run_stmt st s o s1 ->
  (o = ONormal /\ run_list l s1 o' s' \/ o <> ONormal /\ o' = o /\ s' = s1) ->
  run_list (st :: l) s o' s'.
Proof.
  intros P R K Hp. simpl in Hp. apply andb_true_iff in Hp as [Hc Hw].
  destruct K as [[-> RW]|(N & -> & ->)].
  - eapply eventually_and; [apply (R Hc P)|apply RW, Hw|]. intros n E1 E2.
    eapply list_step; [exact P|exact E1|exact E2].
  - eapply eventually_map; [|apply (R Hc P)]. intros n E. eapply list_step; [exact P|exact E|].
    rewrite bool_decide_false by exact N. split; reflexivity.
Qed.

Lemma block_runs lvars l s o s1 :
  run_list l (enter lvars s) o s1 ->
  run_block (Block lvars l) s (throw_if (uninstantiate_all lvars s1) o) (uninstantiate_all lvars s1).
Proof.
  intros R Hp. destruct (R Hp) as [n0 E]. exists (S n0). intros n. revert n. apply fuel_succ. intros n Hn.
  cbn [block_execImpl]. apply ends_with_lvars. specialize (E n Hn).
  unfold execIntern. rewrite plain_no_handlers by exact Hp. simpl.
  eapply ends_bind; [apply runs_ret|]. eapply ends_pending; [reflexivity|].
  destruct E as (rc & R' & H & V). exists rc. split; [exact R'|]. split; [|exact V].
  eapply runs_bind; [|apply runs_ret]. destruct (isEvent (st_xsink (enter lvars s))) eqn:P; [|exact H].
  unfold runs in H. rewrite exec_statements_pending in H by exact P. exact H.
Qed.

(** The statements *)
Lemma lvars_runs (m : nat -> M Z) lvars s o s1 :
  eventually m (enter lvars s) o s1 ->
  eventually (λ n, with_lvars lvars (m n)) s (throw_if (uninstantiate_all lvars s1) o)
    (uninstantiate_all lvars s1).
Proof. apply eventually_map. intros n. apply ends_with_lvars. Qed.

Lemma lvars_throw_runs (m : nat -> M Z) lvars s s1 :
  pending_in s1 -> eventually m (enter lvars s) OThrow s1 ->
  eventually (λ n, with_lvars lvars (m n)) s OThrow (uninstantiate_all lvars s1).
Proof. intros P E. rewrite <- (throw_leave lvars s1 OThrow P). apply lvars_runs, E. Qed.

(** An expression is evaluated, and an exception in it ends the statement. *)
Lemma throw_runs {A} (f : world -> sink L -> A * world * sink L) (m : nat -> A -> M Z) s a s1 :
  call f s = Ok a s1 -> pending_in s1 ->
  eventually (λ n, a ← call f; p ← pending; if p : bool then mret 0 else m n a) s OThrow s1.
Proof.
  intros Hv P. apply eventually_now. intros n. eapply ends_bind; [exact Hv|].
  eapply ends_pending; [exact P|]. apply ends_ret; [left; reflexivity|apply view_pending, P].
Qed.

Lemma eval_runs {A} (f : world -> sink L -> A * world * sink L) (m : nat -> A -> M Z) s a s1 o s' :
  call f s = Ok a s1 -> quiet s1 -> eventually (λ n, m n a) s1 o s' ->
  eventually (λ n, a ← call f; p ← pending; if p : bool then mret 0 else m n a) s o s'.
Proof.
  intros Hv P. apply eventually_map. intros n E. eapply ends_bind; [exact Hv|].
  eapply ends_pending; [exact P|]. exact E.
Qed.

Lemma if_runs lvars c ic ec s v s1 o s2 :
  call (eval c) (enter lvars s) = Ok v s1 -> quiet s1 -> run_opt (if getAsBool v then ic else ec) s1 o s2 ->
  run_stmt (IfStatement lvars c ic ec) s (throw_if (uninstantiate_all lvars s2) o) (uninstantiate_all lvars s2).
Proof.
  intros Hv P R Hp _. cbn [plain] in Hp. apply andb_true_iff in Hp as [Hi He].
  cbn [execImpl]. apply lvars_runs. eapply eval_runs; [exact Hv|exact P|].
  destruct (getAsBool v); apply R; assumption.
Qed.

Lemma while_runs lvars c code s o s1 :
  run_loop (Some c) None code (enter lvars s) o s1 ->
  run_stmt (WhileStatement lvars c code) s (throw_if (uninstantiate_all lvars s1) o) (uninstantiate_all lvars s1).
Proof.
  intros R Hp P. cbn [execImpl]. apply lvars_runs. destruct (R Hp P) as [n0 E]. exists n0. intros n Hn.
  apply (E n n Hn Hn); reflexivity.
Qed.

Lemma do_runs lvars c code s o s1 o' s2 :
  run_opt code (enter lvars s) o s1 ->
  match loop_exit o with
  | Some ox => o' = ox /\ s2 = s1
  | None => run_loop (Some c) None code s1 o' s2
  end ->
  run_stmt (DoWhileStatement lvars c code) s (throw_if (uninstantiate_all lvars s2) o') (uninstantiate_all lvars s2).
Proof.
  intros R K Hp P. cbn [execImpl plain] in Hp |- *. apply lvars_runs.
  assert (quiet (enter lvars s)) as P0 by exact P.
  pose proof (λ X, opt_quiet _ _ _ _ P0 X R Hp) as P1. destruct (R Hp) as [n1 E1].
  destruct (loop_exit o) eqn:X.
  - destruct K as [-> ->]. exists (S n1). intros n Hn. destruct n as [|k]; [lia|]. cbn [do_while_loop].
    eapply ends_body; [exact P|apply E1; lia|]. rewrite X. intros rc R' V. apply ends_ret; assumption.
  - destruct (K Hp (P1 eq_refl)) as [n2 E2]. exists (S (max n1 n2)). intros n Hn. destruct n as [|k]; [lia|].
    cbn [do_while_loop]. eapply ends_body; [exact P|apply E1; lia|]. rewrite X. intros _.
    apply (E2 (S k) k); [lia..|reflexivity|reflexivity].
Qed.

Lemma for_runs lvars a c it code s s1 o s2 :
  iterates a (enter lvars s) s1 -> run_loop c it code s1 o s2 ->
  run_stmt (ForStatement lvars a c it code) s (throw_if (uninstantiate_all lvars s2) o) (uninstantiate_all lvars s2).
Proof.
  intros I R Hp P. cbn [execImpl]. apply lvars_runs.
  assert (quiet (enter lvars s)) as P0 by exact P.
  pose proof (iterates_quiet _ _ _ P0 I) as P1. destruct (R Hp P1) as [n0 E]. exists n0.
  intros n Hn. specialize (E n n Hn Hn). destruct E as [E _].
  destruct I as [s0|e s0 v s1 Hv _]; unfold eval_opt.
  - eapply ends_bind; [apply runs_ret|]. eapply ends_pending; [exact P1|]. exact E.
  - eapply ends_bind; [eapply runs_bind; [exact Hv|apply runs_ret]|]. eapply ends_pending; [exact P1|].
    exact E.
Qed.

Lemma for_throw_runs lvars a c it code s v s1 :
  call (eval a) (enter lvars s) = Ok v s1 -> pending_in s1 ->
  run_stmt (ForStatement lvars (Some a) c it code) s OThrow (uninstantiate_all lvars s1).
Proof.
  intros Hv P1 _ _. cbn [execImpl]. apply lvars_throw_runs; [exact P1|]. apply eventually_now. intros n.
  unfold eval_opt. eapply ends_bind; [eapply runs_bind; [exact Hv|apply runs_ret]|].
  eapply ends_pending; [exact P1|]. apply ends_ret; [left; reflexivity|apply view_pending, P1].
Qed.

Lemma foreach_runs lvars var lst code s f s1 o s2 :
  call (getFunctionalIterator lst) (enter lvars s) = Ok f s1 ->
  match f, code, isEvent (st_xsink s1) with
  | Some f, Some b, false => run_foreach var b f 0 s1 o s2
  | _, _, _ => s2 = s1 /\ o = throw_if s1 ONormal
  end ->
  run_stmt (ForEachStatement lvars var lst false code) s (throw_if (uninstantiate_all lvars s2) o)
    (uninstantiate_all lvars s2).
Proof.
  intros Hf R Hp _. cbn [plain negb andb] in Hp. cbn [execImpl]. apply lvars_runs.
  assert (s2 = s1 /\ o = throw_if s1 ONormal -> ends (mret 0) s1 o s2) as E0.
  { intros [-> ->]. apply ends_ret; [left; reflexivity|reflexivity]. }
  destruct f as [f|], code as [b|], (isEvent (st_xsink s1)) eqn:P1;
    try (apply eventually_now; intros n; eapply ends_bind; [exact Hf|];
         eapply ends_pending; [exact P1|]; exact (E0 R)).
  destruct (R Hp) as [n0 E]. exists n0. intros n Hn. eapply ends_bind; [exact Hf|].
  eapply ends_pending; [exact P1|]. exact (E n n Hn Hn).
Qed.

Lemma try_end_runs (m : M Z) s s0 o s' :
  ends m s o s' ->
  ends (rc ← m; trv ← get st_rv;
        modify (set_rv (if negb (isNothing trv) && isNothing (st_rv s0) then trv else st_rv s0)) ;;
        mret rc) s o (pass_return_value s0 s').
Proof.
  intros (rc & R & H & V). exists rc. split; [exact R|]. split; [|exact V].
  eapply runs_bind; [exact H|]. reflexivity.
Qed.

Lemma catch_runs (blk : StatementBlock -> M Z) b id except s o s2 :
  ends (blk b) (enter_catch id except s) o s2 ->
  ends (old ← get st_catch;
        modify (set_catch except) ;;
        (match id with
         | Some id => modify (λ s, set_world (instantiate_value id
                        (exception_value (makeExceptionObject except 0)) (st_world s)) s)
         | None => mret tt
         end) ;;
        rc ← blk b;
        (match id with
         | Some id => call (λ w x, let '(w, x) := uninstantiate id w x in (tt, w, x))
         | None => mret tt
         end) ;;
        modify (set_catch old) ;;
        mret rc) s (throw_if (leave_catch id s s2) o) (leave_catch id s s2).
Proof.
  intros (rc & R & H & <-). exists rc. split; [exact R|]. split; [|apply view_leave_catch].
  eapply runs_bind; [reflexivity|]. eapply runs_bind; [reflexivity|].
  eapply (runs_bind _ _ _ tt (enter_catch id except s)); [destruct id; reflexivity|].
  eapply runs_bind; [exact H|].
  eapply (runs_bind _ _ _ tt (match id with
    | Some id => let '(w, x) := uninstantiate id (st_world s2) (st_xsink s2) in set_xsink x (set_world w s2)
    | None => s2 end)).
  { destruct id; [|reflexivity]. unfold runs, call. destruct (uninstantiate _ _ _). reflexivity. }
  eapply runs_bind; [reflexivity|]. destruct id; reflexivity.
Qed.

Lemma try_ends blk tb cb id s o s1 o' s2 :
  ends (exec_opt blk tb) (set_rv nothing s) o s1 ->
  match es_list (st_xsink s1), cb with
  | [], _ => o' = o /\ s2 = taken s1
  | _, None => o' = throw_if (taken s1) ONormal /\ s2 = taken s1
  | l, Some b => exists ox sx, ends (blk b) (enter_catch id l (taken s1)) ox sx /\
                  s2 = leave_catch id (taken s1) sx /\ o' = throw_if s2 ox
  end -> ends (TryStatement_execImpl blk tb cb id) s o' (pass_return_value s s2).
Proof.
  intros (rc & R & H & V) K. unfold TryStatement_execImpl. eapply ends_bind; [apply runs_get|].
  eapply ends_bind; [apply runs_modify|]. eapply ends_bind; [exact H|].
  eapply ends_bind; [apply runs_get|]. eapply ends_bind; [apply runs_modify|].
  change (snd (fst (catchException (st_xsink s1)))) with (es_list (st_xsink s1)).
  fold (taken s1). apply try_end_runs. destruct (es_list (st_xsink s1)) as [|x l] eqn:El.
  - destruct K as [-> ->]. apply ends_ret; [exact R|]. rewrite view_taken by exact El. exact V.
  - destruct cb as [b|].
    + destruct K as (ox & sx & E & -> & ->). apply catch_runs. exact E.
    + destruct K as [-> ->]. apply ends_ret; [left; reflexivity|reflexivity].
Qed.

Lemma try_runs tb cb id s o s1 o' s2 :
  run_opt tb (set_rv nothing s) o s1 ->
  match es_list (st_xsink s1), cb with
  | [], _ => o' = o /\ s2 = taken s1
  | _, None => o' = throw_if (taken s1) ONormal /\ s2 = taken s1
  | l, Some b => exists ox sx, run_block b (enter_catch id l (taken s1)) ox sx /\
                  s2 = leave_catch id s1 sx /\ o' = throw_if s2 ox
  end -> run_stmt (TryStatement tb cb id) s o' (pass_return_value s s2).
Proof.
  intros R K Hp _. cbn [plain] in Hp. apply andb_true_iff in Hp as [Ht Hc]. cbn [execImpl].
  destruct (es_list (st_xsink s1)) as [|x l] eqn:El.
  { eapply eventually_map; [|apply R, Ht]. intros n E. eapply try_ends; [exact E|]. rewrite El. exact K. }
  destruct cb as [b|].
  - destruct K as (ox & sx & RB & -> & ->).
    eapply eventually_and; [apply R, Ht|apply RB, Hc|]. intros n E1 E2. eapply try_ends; [exact E1|].
    rewrite El. exists ox, sx. split; [exact E2|]. split; reflexivity.
  - eapply eventually_map; [|apply R, Ht]. intros n E. eapply try_ends; [exact E|]. rewrite El. exact K.
Qed.

Lemma switch_runs lvars e cases s v s1 w s2 o s3 :
  call (eval e) (enter lvars s) = Ok v s1 -> quiet s1 -> find_case v cases s1 = Ok w s2 ->
  run_cases_of (match w with [] => default_case cases | _ => w end) s2 o s3 ->
  run_stmt (SwitchStatement lvars e cases) s (throw_if (uninstantiate_all lvars s3) (switch_exit o))
    (uninstantiate_all lvars s3).
Proof.
  intros Hv P Hw R Hp _. cbn [execImpl]. apply lvars_runs. eapply eval_runs; [exact Hv|exact P|].
  eapply eventually_map; [|apply R; destruct (switch_cases_suffix v cases s1 w s2 Hw) as [p Hq];
    cbn [plain] in Hp; rewrite Hq, forallb_app in Hp; apply andb_true_iff in Hp as [_ Hp];
    exact Hp].
  intros n (rc & R' & H & V). eapply ends_bind; [exact Hw|]. eapply ends_bind; [exact H|].
  apply ends_ret.
  - unfold rc4 in *. destruct ((rc =? RC_BREAK) || _); auto.
  - rewrite <- V. apply view_switch, R'.
Qed.

Lemma foreach_none_runs lvars var lst code s f s1 :
  call (getFunctionalIterator lst) (enter lvars s) = Ok f s1 ->
  match f, code with Some _, Some _ => pending_in s1 | _, _ => True end ->
  run_stmt (ForEachStatement lvars var lst false code) s
    (throw_if (uninstantiate_all lvars s1) (throw_if s1 ONormal)) (uninstantiate_all lvars s1).
Proof.
  intros Hf P. eapply foreach_runs; [exact Hf|].
  destruct f, code; auto. rewrite P. auto.
Qed.

Lemma foreach_some_runs lvars var lst b s f s1 o s2 :
  call (getFunctionalIterator lst) (enter lvars s) = Ok (Some f) s1 -> quiet s1 ->
  run_foreach var b f 0 s1 o s2 ->
  run_stmt (ForEachStatement lvars var lst false (Some b)) s (throw_if (uninstantiate_all lvars s2) o)
    (uninstantiate_all lvars s2).
Proof. intros Hf P R. eapply foreach_runs; [exact Hf|]. rewrite P. exact R. Qed.

Lemma throw_stmt_runs lvars c v s s1 (st : AbstractStatement) :
  call (eval c) (enter lvars s) = Ok v s1 -> pending_in s1 ->
  match st with
  | IfStatement lv e _ _ | SwitchStatement lv e _ => lv = lvars /\ e = c
  | _ => False
  end -> run_stmt st s OThrow (uninstantiate_all lvars s1).
Proof.
  intros Hv P1 H _ _. destruct st; try contradiction; destruct H as [-> ->]; cbn [execImpl];
    (apply lvars_throw_runs; [exact P1|]); eapply throw_runs; eassumption.
Qed.

Lemma leaf_runs st m s rc s' : leaf st = Some m -> m s = Ok rc s' -> run_stmt st s (view rc s') s'.
Proof.
  intros Hl H _ _. apply eventually_now. intros n. exists rc.
  destruct (leaf_sound (block_execImpl n) n st m s Hl) as [-> W]. unfold wp in W. rewrite H in W.
  split; [apply W|]. split; [exact H|reflexivity].
Qed.

(** A derivation has a run. *)
Lemma completeness :
  (forall b s o s', bs_block b s o s' -> run_block b s o s') /\
  (forall l s o s', bs_list l s o s' -> run_list l s o s') /\
  (forall code s o s', bs_opt code s o s' -> run_opt code s o s') /\
  (forall st s o s', bs_stmt st s o s' -> run_stmt st s o s') /\
  (forall c it code s o s', bs_loop c it code s o s' -> run_loop c it code s o s') /\
  (forall var b f i s o s', bs_foreach_loop var b f i s o s' -> run_foreach var b f i s o s') /\
  (forall w s o s', bs_cases w s o s' -> run_cases_of w s o s').
Proof.
  apply bs_mutind; intros; subst;
    eauto using leaf_runs, if_runs, while_runs, for_throw_runs, for_runs, foreach_none_runs, foreach_some_runs,
      switch_runs, loop_throw_runs, loop_false_runs, loop_leave_runs, loop_iter_throw_runs, loop_again_runs,
      foreach_leave_runs, foreach_next_runs, block_runs.
  - intros _. apply eventually_now. intros n. apply ends_ret; [left; reflexivity|apply view_quiet; assumption].
  - intros _. apply eventually_now. intros n. exists 0. split; [left; reflexivity|].
    split; [apply exec_statements_pending; assumption|apply view_pending; assumption].
  - eapply list_runs; eauto.
  - eapply list_runs; [assumption|eassumption|]. right. auto.
  - intros _. apply eventually_now. intros n. apply ends_ret; [left; reflexivity|reflexivity].
  - eapply throw_stmt_runs; [eassumption|assumption|split; reflexivity].
  - eapply do_runs; [eassumption|]. match goal with H : loop_exit _ = _ |- _ => rewrite H end. auto.
  - eapply do_runs; [eassumption|]. match goal with H : loop_exit _ = _ |- _ => rewrite H end. assumption.
  - eapply try_runs; [eassumption|]. match goal with H : es_list _ = [] |- _ => rewrite H end. auto.
  - eapply (try_runs _ None id s o s1 _ (taken s1)); [eassumption|]. destruct (es_list _); [congruence|auto].
  - eapply (try_runs _ (Some b) id s o s1 _ (leave_catch id s1 s2)); [eassumption|].
    destruct (es_list _); [congruence|]. exists o', s2. auto.
  - eapply throw_stmt_runs; [eassumption|assumption|split; reflexivity].
  - eapply foreach_stop_runs; [eassumption|]. split; reflexivity.
  - eapply foreach_stop_runs; [eassumption|]. left. auto.
  - eapply foreach_stop_runs; [eassumption|]. right. auto.
  - intros _. apply eventually_now. intros n. exists 0. split; [left; reflexivity|].
    split; [|apply view_quiet; assumption]. cbn [run_cases]. eapply runs_bind; [apply runs_pending; reflexivity|].
    apply runs_ret.
  - intros _. apply eventually_now. intros n. exists 0. split; [left; reflexivity|].
    split; [apply cases_pending; assumption|apply view_pending; assumption].
  - eapply case_runs; eauto.
  - eapply case_runs; [assumption|eassumption|]. right. auto.
Qed.
End bigstep.

(** C18: The interpreter implements the big-step semantics of statements: for a block without handlers and
    without [foreach] over a reference, the block can end in the state [s'] with an outcome (normally, by
    [break], [continue] or [return], or with an exception) exactly when the interpreter, with enough
    fuel, ends in [s'] with a result code that means this outcome. So the tests of the result codes and of
    the exception sink that every statement makes after each of its parts (statements after a [return] in
    nested blocks, loops left from inside a switch, exceptions in conditions or iterator expressions,
    a try statement that swallows the exception) amount to the structured outcomes. The removal of local
    variables is assumed not to make an exception in the sink disappear ([SinkLaws]). *)
Theorem exec_bigstep {L : Lang} {SL : SinkLaws} b s o s' :
  plain_block b = true ->
  bs_block b s o s' <->
  exists n0, forall n, (n0 <= n)%nat -> exists rc, block_execImpl n b s = Ok rc s' /\ view rc s' = o.
Proof.
  intros Hp. split.
  - intros D. destruct completeness as [H _]. destruct (H b s o s' D Hp) as [n0 E]. exists n0.
    intros n Hn. destruct (E n Hn) as (rc & _ & R & V). exists rc. split; assumption.
  - intros [n0 E]. destruct (E n0 (le_n n0)) as (rc & R & <-).
    pose proof (exec_sound n0 b Hp s) as W. unfold wp in W. rewrite R in W. apply W.
Qed.

Lemma exec_bigstep_witness :
  let st := IfStatement [] (int 1) (Some (block [ContinueStatement])) None in
  let b := block [st; ExpressionStatement (EVar 0)] in
  bs_block b start_state OContinue start_state.
Proof.
  intros st b. apply (exec_bigstep b); [reflexivity|]. exists 5%nat. intros n Hn.
  exists RC_CONTINUE. split; [|reflexivity].
  do 5 (destruct n as [|n]; [lia|]). reflexivity.
Defined.

(** C1: The semantics of statements is deterministic: a block has at most one outcome and one final state. *)
Theorem bs_block_deterministic {L : Lang} {SL : SinkLaws} b s o1 s1 o2 s2 :
  plain_block b = true -> bs_block b s o1 s1 -> bs_block b s o2 s2 -> o1 = o2 /\ s1 = s2.
Proof.
  intros Hp D1 D2. destruct completeness as [H _].
  destruct (H b s o1 s1 D1 Hp) as [n1 E1], (H b s o2 s2 D2 Hp) as [n2 E2].
  destruct (E1 (max n1 n2) ltac:(lia)) as (r1 & _ & R1 & V1).
  destruct (E2 (max n1 n2) ltac:(lia)) as (r2 & _ & R2 & V2).
  unfold runs in R1, R2. rewrite R1 in R2. injection R2 as <- <-. split; congruence.
Qed.
