(* ===== verification/Encoding.v ===== *)
(** * Character encodings

    [QoreEncoding] and the encodings of charset.cpp: the width of a character
    in UTF-8 and UTF-16, the loops that count characters and bytes with it,
    the code point of a character, and the encoding manager with its names
    and aliases. A string is the list of its bytes as unsigned numbers; the
    byte behind the last one is NUL. *)

From S2P Require Import Prelude.

#[local] Open Scope Z_scope.

Definition is_byte (b : Z) : Prop := 0 <= b < 256.

(** Reading [p[i]] *)
Definition byte_at (p : list Z) (i : nat) : Z := nth i p 0.

(** The value of a [char], which is signed *)
Definition schar (b : Z) : Z := if b <? 128 then b else b - 256.

Definition nonzero (z : Z) : bool := negb (z =? 0).

(** ** The width of a character

    The argument is the rest of the string. The result is the number of
    bytes, 0 for an invalid character, or the negated number of bytes when
    the string ends too early. *)
Definition q_UTF8_get_char_len (p : list Z) : Z :=
  let len := Z.of_nat (length p) in
  if Z.land (byte_at p 0) 192 =? 192 then
    if nonzero (Z.land (byte_at p 0) 32) then
      if nonzero (Z.land (byte_at p 0) 16) then
        if 4 <=? len then
          if nonzero (Z.land (byte_at p 1) 128) && nonzero (Z.land (byte_at p 2) 128)
             && nonzero (Z.land (byte_at p 3) 128)
          then 4 else 0
        else -4
      else
        if 3 <=? len then
          if nonzero (Z.land (byte_at p 1) 128) && nonzero (Z.land (byte_at p 2) 128) then 3 else 0
        else -3
    else
      if 2 <=? len then if nonzero (Z.land (byte_at p 1) 128) then 2 else 0 else -2
  else 1.

(** Whether a byte starts a pair of code units *)
Definition high_surrogate_byte (c : Z) : bool := (216 <=? c) && (c <? 220).

Definition q_UTF16LE_get_char_len (p : list Z) : Z :=
  let len := Z.of_nat (length p) in
  if len =? 1 then -2
  else
    let l := if high_surrogate_byte (byte_at p 1) then 4 else 2 in
    if l <=? len then l else - l.

Definition q_UTF16BE_get_char_len (p : list Z) : Z :=
  let len := Z.of_nat (length p) in
  let l := if high_surrogate_byte (byte_at p 0) then 4 else 2 in
  if l <=? len then l else - l.

(** ** The loops

    [p += l] leaves out the next [l] bytes: [skip] counts those that are
    still to be left out. The results are a number and whether the encoding
    is invalid. *)
Section Loops.
Context (char_len : list Z -> Z).

(** [getLength]: the number of characters *)
Fixpoint length_loop (p : list Z) (skip : nat) (i : Z) : Z * bool :=
  match p with
  | [] => (i, false)
  | _ :: q =>
    match skip with
    | S k => length_loop q k i
    | O =>
      let l := char_len p in
      if l <=? 0 then (i, true) else length_loop q (Z.to_nat (l - 1)) (i + 1)
    end
  end.

(** [getByteLen]: the number of bytes of the first [l] characters *)
Fixpoint byte_len_loop (p : list Z) (skip : nat) (l b : Z) : Z * bool :=
  match p with
  | [] => (b, false)
  | _ :: q =>
    match skip with
    | S k => byte_len_loop q k l b
    | O =>
      if l =? 0 then (b, false)
      else
        let bl := char_len p in
        if bl <=? 0 then (b, true) else byte_len_loop q (Z.to_nat (bl - 1)) (l - 1) (b + bl)
    end
  end.
End Loops.

(** The argument is the text between the pointers [p] and [end]. *)
Definition UTF8_getLength (p : list Z) : Z * bool := length_loop q_UTF8_get_char_len p 0 0.
Definition UTF8_getByteLen (p : list Z) (l : Z) : Z * bool := byte_len_loop q_UTF8_get_char_len p 0 l 0.
Definition UTF8_getCharPos (p : list Z) : Z * bool := length_loop q_UTF8_get_char_len p 0 0.

Definition UTF16LE_getLength (p : list Z) : Z * bool := length_loop q_UTF16LE_get_char_len p 0 0.
Definition UTF16LE_getByteLen (p : list Z) (l : Z) : Z * bool :=
  byte_len_loop q_UTF16LE_get_char_len p 0 l 0.
Definition UTF16LE_getCharPos (p : list Z) : Z * bool := length_loop q_UTF16LE_get_char_len p 0 0.

Definition UTF16BE_getLength (p : list Z) : Z * bool := length_loop q_UTF16BE_get_char_len p 0 0.
Definition UTF16BE_getByteLen (p : list Z) (l : Z) : Z * bool :=
  byte_len_loop q_UTF16BE_get_char_len p 0 l 0.
Definition UTF16BE_getCharPos (p : list Z) : Z * bool := length_loop q_UTF16BE_get_char_len p 0 0.

(** ** The code point of a character *)
Definition UTF8_getUnicode (p : list Z) : Z :=
  if Z.land (byte_at p 0) 192 =? 192 then
    if nonzero (Z.land (byte_at p 0) 32) then
      if nonzero (Z.land (byte_at p 0) 16) then
        Z.lor (Z.lor (Z.lor (Z.shiftl (Z.land (byte_at p 0) 7) 18) (Z.shiftl (Z.land (byte_at p 1) 63) 12))
                 (Z.shiftl (Z.land (byte_at p 2) 63) 6))
          (Z.land (byte_at p 3) 63)
      else
        Z.lor (Z.lor (Z.shiftl (Z.land (byte_at p 0) 15) 12) (Z.shiftl (Z.land (byte_at p 1) 63) 6))
          (Z.land (byte_at p 2) 63)
    else Z.lor (Z.shiftl (Z.land (byte_at p 0) 31) 6) (Z.land (byte_at p 1) 63)
  else u32 (schar (byte_at p 0)).

(** [concatUTF8FromUnicode]: the bytes that are added *)
Definition concatUTF8FromUnicode (c : Z) : list Z :=
  if 65535 <? c then
    [Z.lor 240 (Z.shiftr (Z.land c (Z.shiftl 7 18)) 18);
     Z.lor 128 (Z.shiftr (Z.land c (Z.shiftl 63 12)) 12);
     Z.lor 128 (Z.shiftr (Z.land c (Z.shiftl 63 6)) 6);
     Z.lor 128 (Z.land c 63)]
  else if 2047 <? c then
    [Z.lor 224 (Z.shiftr (Z.land c (Z.shiftl 15 12)) 12);
     Z.lor 128 (Z.shiftr (Z.land c (Z.shiftl 63 6)) 6);
     Z.lor 128 (Z.land c 63)]
  else if 127 <? c then
    [Z.lor 192 (Z.shiftr (Z.land c (Z.shiftl 47 6)) 6);
     Z.lor 128 (Z.land c 63)]
  else [c].

(** The part that UTF-16 has in common: the code units of the character *)
Definition from_code_units (code_unit code_unit_2 : Z) : Z :=
  if (55296 <=? code_unit) && (code_unit <=? 56319) then
    if (56320 <=? code_unit_2) && (code_unit_2 <=? 57343)
    then u32 (Z.shiftl code_unit 10 + code_unit_2 - 56613888)
    else code_unit
  else code_unit.

Definition UTF16LE_getUnicode (p : list Z) : Z :=
  from_code_units (Z.shiftl (byte_at p 1) 8 + byte_at p 0) (Z.shiftl (byte_at p 3) 8 + byte_at p 2).

Definition UTF16BE_getUnicode (p : list Z) : Z :=
  from_code_units (Z.shiftl (byte_at p 0) 8 + byte_at p 1) (Z.shiftl (byte_at p 2) 8 + byte_at p 3).

(** ** Encodings *)

Record QoreEncoding := mkEncoding {
  code : string; minwidth : Z; maxwidth : Z;
  flength : option (list Z -> Z * bool);
  fend : option (list Z -> Z -> Z * bool);
  fpos : option (list Z -> Z * bool);
  fcharlen : option (list Z -> Z);
  get_unicode : option (list Z -> Z);
  ascii_compat : bool }.

(** [strlen]: the bytes before the first NUL *)
Fixpoint strlen (p : list Z) : Z :=
  match p with
  | [] => 0
  | b :: q => if b =? 0 then 0 else 1 + strlen q
  end.

Inductive error := INVALID_ENCODING | UNSUPPORTED_ENCODING.

(** The result of the functions that get an exception sink: a value or the
    exception that was raised *)
Definition checked {A} (r : A * bool) : A + error :=
  if r.2 then inr INVALID_ENCODING else inl r.1.

Section Methods.
Context (e : QoreEncoding).

(** The overloads with [invalid], which single-byte encodings do not set, and
    those with an exception sink *)
Definition getLength (p : list Z) : Z * bool :=
  match flength e with Some f => f p | None => (strlen p, false) end.

Definition getLength_x (p : list Z) : Z + error :=
  match flength e with Some f => checked (f p) | None => inl (strlen p) end.

Definition getByteLen (p : list Z) (c : Z) : Z * bool :=
  match fend e with Some f => f p c | None => (c, false) end.

Definition getByteLen_x (p : list Z) (c : Z) : Z + error :=
  match fend e with
  | Some f => checked (f p c)
  | None => let len := Z.of_nat (length p) in inl (if len <? c then len else c)
  end.

Definition getCharPos (p : list Z) : Z * bool :=
  match fpos e with Some f => f p | None => (Z.of_nat (length p), false) end.

Definition getCharPos_x (p : list Z) : Z + error :=
  match fpos e with Some f => checked (f p) | None => inl (Z.of_nat (length p)) end.

Definition getCharLen (p : list Z) : Z :=
  match fcharlen e with Some f => f p | None => 1 end.

Definition isMultiByte : bool := match flength e with Some _ => true | None => false end.

(** [q_get_char_len] *)
Definition q_get_char_len (p : list Z) : Z + error :=
  let rc := getCharLen p in
  if rc <=? 0 then inr INVALID_ENCODING else inl rc.

(** [getUnicode]: the code point and the length of the first character.
    [to_utf8] is the conversion of iconv, for the characters of a single-byte
    encoding that are not ASCII. *)
Definition getUnicode (to_utf8 : QoreEncoding -> Z -> list Z) (p : list Z) : Z * Z + error :=
  match getByteLen_x p 1 with
  | inr x => inr x
  | inl clen =>
    match get_unicode e with
    | Some f => inl (f p, clen)
    | None =>
      let c := byte_at p 0 in
      inl (if c <? 128 then c else UTF8_getUnicode (to_utf8 e c), clen)
    end
  end.
End Methods.

Definition single_byte (name : string) : QoreEncoding :=
  mkEncoding name 1 1 None None None None None true.

Definition QCS_UTF8 : QoreEncoding :=
  mkEncoding "UTF-8" 1 4 (Some UTF8_getLength) (Some UTF8_getByteLen) (Some UTF8_getCharPos)
    (Some q_UTF8_get_char_len) (Some UTF8_getUnicode) true.

Definition utf16be (name : string) : QoreEncoding :=
  mkEncoding name 2 4 (Some UTF16BE_getLength) (Some UTF16BE_getByteLen) (Some UTF16BE_getCharPos)
    (Some q_UTF16BE_get_char_len) (Some UTF16BE_getUnicode) false.

Definition QCS_UTF16 : QoreEncoding := utf16be "UTF-16".
Definition QCS_UTF16BE : QoreEncoding := utf16be "UTF-16BE".

Definition QCS_UTF16LE : QoreEncoding :=
  mkEncoding "UTF-16LE" 2 4 (Some UTF16LE_getLength) (Some UTF16LE_getByteLen)
    (Some UTF16LE_getCharPos) (Some q_UTF16LE_get_char_len) (Some UTF16LE_getUnicode) false.

(** ** The encoding manager

    The maps compare the names without regard to the case of letters. *)

Definition lower (a : ascii) : ascii :=
  let n := nat_of_ascii a in
  if (65 <=? n)%nat && (n <=? 90)%nat then ascii_of_nat (n + 32) else a.

Fixpoint lowercase (s : string) : string :=
  match s with
  | EmptyString => EmptyString
  | String a s => String (lower a) (lowercase s)
  end.

Record QoreEncodingManager := mkManager {
  emap : gmap string QoreEncoding; amap : gmap string QoreEncoding }.

Definition addUnlocked (e : QoreEncoding) (m : QoreEncodingManager) : QoreEncodingManager :=
  mkManager (<[lowercase (code e) := e]> (emap m)) (amap m).

Definition addAlias (e : QoreEncoding) (alias : string) (m : QoreEncodingManager) : QoreEncodingManager :=
  mkManager (emap m) (<[lowercase alias := e]> (amap m)).

Definition findUnlocked (name : string) (m : QoreEncodingManager) : option QoreEncoding :=
  match emap m !! lowercase name with
  | Some e => Some e
  | None => amap m !! lowercase name
  end.

(** [findCreate]: a name that is not known is added as a single-byte encoding. *)
Definition findCreate (name : string) (m : QoreEncodingManager) : QoreEncoding * QoreEncodingManager :=
  match findUnlocked name m with
  | Some e => (e, m)
  | None => (single_byte name, addUnlocked (single_byte name) m)
  end.

(** The encodings and aliases of the constructor *)
Definition iso_8859 (n : string) (extra : list string) : QoreEncoding * list string :=
  (single_byte ("ISO-8859-" ++ n),
   ["ISO8859" ++ n; "ISO-8859-" ++ n; "ISO8859-" ++ n; "ISO-8859" ++ n; "ISO8859P" ++ n; "ISO8" ++ n]%string
   ++ extra).

Definition windows (n : string) : QoreEncoding * list string :=
  (single_byte ("WINDOWS-" ++ n), ["WINDOWS" ++ n; "CP-" ++ n; "CP" ++ n]%string).

Definition builtin_encodings : list (QoreEncoding * list string) :=
  [(single_byte "US-ASCII", ["ASCII"; "USASCII"; "US-ASCII"]);
   (QCS_UTF8, ["UTF8"]); (QCS_UTF16, ["UTF16"]); (QCS_UTF16BE, ["UTF16BE"]); (QCS_UTF16LE, ["UTF16LE"]);
   iso_8859 "1" ["LATIN1"; "LATIN-1"]; iso_8859 "2" ["LATIN2"; "LATIN-2"];
   iso_8859 "3" ["LATIN3"; "LATIN-3"]; iso_8859 "4" ["LATIN4"; "LATIN-4"];
   iso_8859 "5" []; iso_8859 "6" []; iso_8859 "7" []; iso_8859 "8" [];
   iso_8859 "9" ["LATIN5"; "LATIN-5"]; iso_8859 "10" ["LATIN6"; "LATIN-6"]; iso_8859 "11" [];
   iso_8859 "13" ["LATIN7"; "LATIN-7"]; iso_8859 "14" ["LATIN8"; "LATIN-8"];
   iso_8859 "15" ["LATIN9"; "LATIN-9"]; iso_8859 "16" ["LATIN10"; "LATIN-10"];
   (single_byte "KOI8-R", ["KOI8R"]); (single_byte "KOI8-U", ["KOI8U"]); (single_byte "KOI7", []);
   windows "874"; windows "936"; windows "1250"; windows "1251"; windows "1252"; windows "1253";
   windows "1254"; windows "1255"; windows "1256"; windows "1257"; windows "1258"]%string.

Definition add_builtin (m : QoreEncodingManager) (x : QoreEncoding * list string) : QoreEncodingManager :=
  fold_left (λ m a, addAlias x.1 a m) x.2 (addUnlocked x.1 m).

Definition new_QoreEncodingManager : QoreEncodingManager :=
  fold_left add_builtin builtin_encodings (mkManager ∅ ∅).

(** [init]: the default encoding. The arguments are the one of the call and
    the environment variables QORE_CHARSET and LANG. *)
Fixpoint after_last (c : ascii) (s : string) : option string :=
  match s with
  | EmptyString => None
  | String a t =>
    match after_last c t with
    | Some r => Some r
    | None => if Ascii.eqb a c then Some t else None
    end
  end.

Fixpoint before_first (c : ascii) (s : string) : string :=
  match s with
  | EmptyString => EmptyString
  | String a t => if Ascii.eqb a c then EmptyString else String a (before_first c t)
  end.

Definition init (def QORE_CHARSET LANG : option string) (m : QoreEncodingManager)
    : QoreEncoding * QoreEncodingManager :=
  match def, QORE_CHARSET with
  | Some d, _ => findCreate d m
  | None, Some s => findCreate s m
  | None, None =>
    match LANG with
    | Some s =>
      match after_last "." s with
      | Some p => findCreate (before_first "@" p) m
      | None => (QCS_UTF8, m)
      end
    | None => (QCS_UTF8, m)
    end
  end.
