(* ===== verification/EncodingSpec.v ===== *)
(** * Character encodings: correctness

    A text is divided into characters by the width function of its encoding;
    the class [CharEncoding] states what the encodings promise to the string
    operations: their loops follow that division. UTF-8 and UTF-16 are
    compared with their definitions in the Unicode standard. *)

From S2P Require Import Prelude Encoding.

#[local] Open Scope Z_scope.

(** ** Characters of a text *)

Section Characters.
Context (cl : list Z -> Z).

(** The text is divided into the characters [cs]. *)
Inductive characters : list Z -> list (list Z) -> Prop :=
  | chars_nil : characters [] []
  | chars_cons c q cs :
      c <> [] -> cl (c ++ q) = Z.of_nat (length c) -> characters q cs -> characters (c ++ q) (c :: cs).

Lemma characters_concat p cs : characters p cs -> p = concat cs.
Proof. induction 1 as [|c q cs _ _ _ IH]; [reflexivity|]. simpl. rewrite <-IH. reflexivity. Qed.

(** The first [k] bytes are left out. *)
Lemma length_loop_skip c q i : length_loop cl (c ++ q) (length c) i = length_loop cl q 0 i.
Proof. induction c as [|b c IH]; [reflexivity|exact IH]. Qed.

Lemma byte_len_loop_skip c q l b : byte_len_loop cl (c ++ q) (length c) l b = byte_len_loop cl q 0 l b.
Proof. induction c as [|a c IH]; [reflexivity|exact IH]. Qed.

Lemma length_loop_drop p k i : (k <= length p)%nat -> length_loop cl p k i = length_loop cl (drop k p) 0 i.
Proof.
  intros H. rewrite <-(length_loop_skip (take k p) (drop k p) i), take_drop, length_take.
  f_equal. lia.
Qed.

Lemma length_loop_chars p cs : characters p cs -> forall i,
  length_loop cl p 0 i = (i + Z.of_nat (length cs), false).
Proof.
  induction 1 as [|c q cs N E H IH]; intros i; [simpl; f_equal; lia|].
  destruct c as [|b c]; [congruence|]. simpl. simpl in E. rewrite E.
  destruct (Z.leb_spec (Z.of_nat (S (length c))) 0); [lia|].
  replace (Z.to_nat (Z.of_nat (S (length c)) - 1)) with (length c) by lia.
  rewrite length_loop_skip, IH. f_equal. lia.
Qed.

Lemma byte_len_loop_chars p cs : characters p cs -> forall n b, 0 <= n ->
  byte_len_loop cl p 0 n b = (b + Z.of_nat (length (concat (take (Z.to_nat n) cs))), false).
Proof.
  induction 1 as [|c q cs N E H IH]; intros n b Hn; [rewrite take_nil; simpl; f_equal; lia|].
  destruct c as [|a c]; [congruence|]. simpl. simpl in E. rewrite E.
  destruct (Z.eqb_spec n 0) as [->|Nz]; [simpl; f_equal; lia|].
  destruct (Z.leb_spec (Z.of_nat (S (length c))) 0); [lia|].
  replace (Z.to_nat (Z.of_nat (S (length c)) - 1)) with (length c) by lia.
  rewrite byte_len_loop_skip, IH by lia.
  replace (Z.to_nat n) with (S (Z.to_nat (n - 1))) by lia. simpl. rewrite length_app. f_equal. lia.
Qed.

(** Characters end inside the text and do not depend on what follows. *)
Context (cl_bound : forall p, p <> [] -> cl p <= Z.of_nat (length p)).
Context (cl_local : forall c q q', c <> [] -> cl (c ++ q) = Z.of_nat (length c) ->
                                   cl (c ++ q') = Z.of_nat (length c)).

Lemma length_loop_valid n : forall p i k, (length p <= n)%nat ->
  length_loop cl p 0 i = (k, false) -> exists cs, characters p cs.
Proof.
  induction n as [|n IH]; intros p i k Hn E.
  { destruct p; [exists []; constructor|simpl in Hn; lia]. }
  destruct p as [|b p]; [exists []; constructor|]. simpl in E.
  destruct (Z.leb_spec (cl (b :: p)) 0) as [L|L]; [discriminate|].
  pose proof (cl_bound (b :: p) ltac:(discriminate)) as B. simpl in B.
  set (k' := Z.to_nat (cl (b :: p) - 1)) in E. assert (k' <= length p)%nat as Lk by lia.
  rewrite length_loop_drop in E by exact Lk.
  destruct (IH (drop k' p) _ _ ltac:(rewrite length_drop; simpl in Hn; lia) E) as [cs H].
  exists ((b :: take k' p) :: cs).
  assert (b :: p = (b :: take k' p) ++ drop k' p) as Ep by (simpl; rewrite take_drop; reflexivity).
  rewrite Ep. constructor; [discriminate| |exact H]. rewrite <-Ep. simpl. rewrite length_take. lia.
Qed.

Lemma characters_app p cs q ds : characters p cs -> characters q ds -> characters (p ++ q) (cs ++ ds).
Proof.
  intros H Hq. induction H as [|c p cs N E H IH]; [exact Hq|]. simpl. rewrite <-app_assoc.
  constructor; [exact N| |exact IH]. exact (cl_local c p _ N E).
Qed.

Lemma characters_take p cs n : characters p cs -> characters (concat (take n cs)) (take n cs).
Proof.
  intros H. revert n. induction H as [|c p cs N E H IH]; intros n; [rewrite take_nil; constructor|].
  destruct n as [|n]; [constructor|]. simpl. constructor; [exact N| |apply IH]. exact (cl_local c p _ N E).
Qed.

Lemma characters_drop p cs n : characters p cs -> characters (concat (drop n cs)) (drop n cs).
Proof.
  intros H. revert n. induction H as [|c p cs N E H IH]; intros n; [rewrite drop_nil; constructor|].
  destruct n as [|n]; simpl; [|apply IH]. rewrite <-(characters_concat _ _ H). constructor; assumption.
Qed.

Lemma characters_det p cs : characters p cs -> forall ds, characters p ds -> cs = ds.
Proof.
  induction 1 as [|c q cs N E H IH]; intros ds D.
  - inversion D as [|d r ds' Nd]; [reflexivity|]. destruct d; [congruence|discriminate].
  - inversion D as [Eq|d r ds' Nd Ed Hd Eq].
    + destruct c; [congruence|discriminate].
    + assert (c = d /\ q = r) as [-> ->]; [|f_equal; apply IH; exact Hd].
      rewrite Eq in Ed. assert (length c = length d) as L by lia.
      symmetry in Eq. apply app_inj_1 in Eq; assumption.
Qed.

(** The loops agree on whether a text is valid. *)
Lemma length_loop_or p :
  (exists cs, characters p cs) \/ (snd (length_loop cl p 0 0) = true /\ forall cs, ~ characters p cs).
Proof.
  destruct (length_loop cl p 0 0) as [k []] eqn:E.
  - right. split; [reflexivity|]. intros cs H. rewrite (length_loop_chars _ _ H) in E. discriminate.
  - left. exact (length_loop_valid (length p) p 0 k (le_n _) E).
Qed.
End Characters.

(** ** What an encoding promises *)

Class CharEncoding (e : QoreEncoding) (cl : list Z -> Z) : Prop := {
  ce_length : flength e = Some (λ p, length_loop cl p 0 0);
  ce_end : fend e = Some (λ p l, byte_len_loop cl p 0 l 0);
  ce_pos : fpos e = Some (λ p, length_loop cl p 0 0);
  ce_charlen : fcharlen e = Some cl;
  ce_bound : forall p, p <> [] -> cl p <= Z.of_nat (length p);
  ce_local : forall c q q', c <> [] -> cl (c ++ q) = Z.of_nat (length c) ->
                            cl (c ++ q') = Z.of_nat (length c) }.

(** The bytes of a character are read inside of it. *)
Lemma byte_at_app c q i : (i < length c)%nat -> byte_at (c ++ q) i = byte_at c i.
Proof. intros H. apply app_nth1, H. Qed.

Ltac split_ifs :=
  repeat match goal with
         | H : context [if ?b then _ else _] |- _ => destruct b eqn:?
         | |- context [if ?b then _ else _] => destruct b eqn:?
         end;
  repeat match goal with
         | H : (_ <=? _) = true |- _ => apply Z.leb_le in H
         | H : (_ <=? _) = false |- _ => apply Z.leb_gt in H
         | H : (_ =? _) = true |- _ => apply Z.eqb_eq in H
         | H : (_ =? _) = false |- _ => apply Z.eqb_neq in H
         end.

Lemma UTF8_bound p : p <> [] -> q_UTF8_get_char_len p <= Z.of_nat (length p).
Proof.
  intros N. assert (1 <= Z.of_nat (length p)) by (destruct p; [congruence|simpl; lia]).
  unfold q_UTF8_get_char_len. split_ifs; lia.
Qed.

Lemma UTF8_local c q q' : c <> [] -> q_UTF8_get_char_len (c ++ q) = Z.of_nat (length c) ->
  q_UTF8_get_char_len (c ++ q') = Z.of_nat (length c).
Proof.
  intros N. unfold q_UTF8_get_char_len. rewrite !length_app.
  destruct c as [|b0 [|b1 [|b2 [|b3 [|b4 c]]]]]; [congruence|..]; cbn [length app Nat.add];
    unfold byte_at; cbn [nth app]; intros H; split_ifs; try lia; try congruence.
Qed.

Lemma UTF16LE_bound p : p <> [] -> q_UTF16LE_get_char_len p <= Z.of_nat (length p).
Proof. intros _. unfold q_UTF16LE_get_char_len. split_ifs; lia. Qed.

Lemma UTF16LE_local c q q' : c <> [] -> q_UTF16LE_get_char_len (c ++ q) = Z.of_nat (length c) ->
  q_UTF16LE_get_char_len (c ++ q') = Z.of_nat (length c).
Proof.
  intros N. unfold q_UTF16LE_get_char_len. rewrite !length_app.
  destruct c as [|b0 [|b1 [|b2 [|b3 c]]]]; [congruence|..]; cbn [length app Nat.add]; unfold byte_at; cbn [nth app]; intros H;
    split_ifs; lia.
Qed.

Lemma UTF16BE_bound p : p <> [] -> q_UTF16BE_get_char_len p <= Z.of_nat (length p).
Proof. intros _. unfold q_UTF16BE_get_char_len. split_ifs; lia. Qed.

Lemma UTF16BE_local c q q' : c <> [] -> q_UTF16BE_get_char_len (c ++ q) = Z.of_nat (length c) ->
  q_UTF16BE_get_char_len (c ++ q') = Z.of_nat (length c).
Proof.
  intros N. unfold q_UTF16BE_get_char_len. rewrite !length_app.
  destruct c as [|b0 c]; [congruence|]. cbn [length app Nat.add]; unfold byte_at; cbn [nth app]; intros H;
    split_ifs; lia.
Qed.

#[export] Instance UTF8_encoding : CharEncoding QCS_UTF8 q_UTF8_get_char_len.
Proof. split; try reflexivity; [exact UTF8_bound|exact UTF8_local]. Qed.
#[export] Instance UTF16LE_encoding : CharEncoding QCS_UTF16LE q_UTF16LE_get_char_len.
Proof. split; try reflexivity; [exact UTF16LE_bound|exact UTF16LE_local]. Qed.
#[export] Instance UTF16BE_encoding name : CharEncoding (utf16be name) q_UTF16BE_get_char_len.
Proof. split; try reflexivity; [exact UTF16BE_bound|exact UTF16BE_local]. Qed.

Section Encoding.
Context {e : QoreEncoding} {cl : list Z -> Z} {HE : CharEncoding e cl}.

Lemma getLength_chars p cs : characters cl p cs -> getLength e p = (Z.of_nat (length cs), false).
Proof. intros H. unfold getLength. rewrite (ce_length (cl := cl)). apply (length_loop_chars cl _ _ H). Qed.

Lemma getLength_x_chars p cs : characters cl p cs -> getLength_x e p = inl (Z.of_nat (length cs)).
Proof.
  intros H. unfold getLength_x. rewrite (ce_length (cl := cl)), (length_loop_chars cl _ _ H). reflexivity.
Qed.

Lemma getByteLen_x_chars p cs n : characters cl p cs -> 0 <= n ->
  getByteLen_x e p n = inl (Z.of_nat (length (concat (take (Z.to_nat n) cs)))).
Proof.
  intros H Hn. unfold getByteLen_x. rewrite (ce_end (cl := cl)), (byte_len_loop_chars cl _ _ H) by exact Hn.
  reflexivity.
Qed.

Lemma getByteLen_chars p cs n : characters cl p cs -> 0 <= n ->
  getByteLen e p n = (Z.of_nat (length (concat (take (Z.to_nat n) cs))), false).
Proof.
  intros H Hn. unfold getByteLen. rewrite (ce_end (cl := cl)), (byte_len_loop_chars cl _ _ H) by exact Hn.
  reflexivity.
Qed.

Lemma getCharPos_x_chars p cs : characters cl p cs -> getCharPos_x e p = inl (Z.of_nat (length cs)).
Proof.
  intros H. unfold getCharPos_x. rewrite (ce_pos (cl := cl)), (length_loop_chars cl _ _ H). reflexivity.
Qed.

Lemma getLength_x_cases p :
  (exists cs, characters cl p cs) \/
  (getLength_x e p = inr INVALID_ENCODING /\ forall cs, ~ characters cl p cs).
Proof.
  destruct (length_loop_or cl ce_bound p) as [H|[H N]]; [left; exact H|right]. split; [|exact N].
  unfold getLength_x, checked. rewrite (ce_length (cl := cl)), H. reflexivity.
Qed.

Lemma isMultiByte_true : isMultiByte e = true.
Proof. unfold isMultiByte. rewrite (ce_length (cl := cl)). reflexivity. Qed.

(** The bytes of a text before its [n]-th character *)
Lemma take_chars (cs : list (list Z)) n : take (length (concat (take n cs))) (concat cs) = concat (take n cs).
Proof.
  rewrite <-(take_drop n cs) at 2. rewrite concat_app. apply take_app_length.
Qed.

Lemma drop_chars (cs : list (list Z)) n : drop (length (concat (take n cs))) (concat cs) = concat (drop n cs).
Proof.
  rewrite <-(take_drop n cs) at 2. rewrite concat_app. apply drop_app_length.
Qed.
End Encoding.

(** ** The encodings of the Unicode standard *)

(** The code points that can be encoded *)
Definition scalar (c : Z) : Prop := 0 <= c < 55296 \/ 57344 <= c < 1114112.

#[export] Instance scalar_dec c : Decision (scalar c).
Proof. unfold scalar. apply _. Defined.

Definition utf8_bytes (c : Z) : list Z :=
  if c <? 128 then [c]
  else if c <? 2048 then [192 + c / 64; 128 + c mod 64]
  else if c <? 65536 then [224 + c / 4096; 128 + (c / 64) mod 64; 128 + c mod 64]
  else [240 + c / 262144; 128 + (c / 4096) mod 64; 128 + (c / 64) mod 64; 128 + c mod 64].

Definition utf16_units (c : Z) : list Z :=
  if c <? 65536 then [c]
  else [55296 + (c - 65536) / 1024; 56320 + (c - 65536) mod 1024].

Definition be_bytes (u : Z) : list Z := [u / 256; u mod 256].
Definition le_bytes (u : Z) : list Z := [u mod 256; u / 256].

Definition utf16be_bytes (c : Z) : list Z := concat (map be_bytes (utf16_units c)).
Definition utf16le_bytes (c : Z) : list Z := concat (map le_bytes (utf16_units c)).

Lemma lead2 b : 192 <= b < 224 ->
  Z.land b 192 = 192 /\ Z.land b 32 = 0 /\ Z.land b 31 = b - 192.
Proof.
  intros Hb. pose proof (z_forall_from_spec 32 192
    (λ b, (Z.land b 192 =? 192) && (Z.land b 32 =? 0) && (Z.land b 31 =? b - 192)) b eq_refl ltac:(simpl; lia)) as E.
  rewrite !andb_true_iff, !Z.eqb_eq in E. tauto.
Qed.

Lemma lead3 b : 224 <= b < 240 ->
  Z.land b 192 = 192 /\ Z.land b 32 = 32 /\ Z.land b 16 = 0 /\ Z.land b 15 = b - 224.
Proof.
  intros Hb. pose proof (z_forall_from_spec 16 224
    (λ b, (Z.land b 192 =? 192) && (Z.land b 32 =? 32) && (Z.land b 16 =? 0) && (Z.land b 15 =? b - 224))
    b eq_refl ltac:(simpl; lia)) as E.
  rewrite !andb_true_iff, !Z.eqb_eq in E. tauto.
Qed.

Lemma lead4 b : 240 <= b < 248 ->
  Z.land b 192 = 192 /\ Z.land b 32 = 32 /\ Z.land b 16 = 16 /\ Z.land b 7 = b - 240.
Proof.
  intros Hb. pose proof (z_forall_from_spec 8 240
    (λ b, (Z.land b 192 =? 192) && (Z.land b 32 =? 32) && (Z.land b 16 =? 16) && (Z.land b 7 =? b - 240))
    b eq_refl ltac:(simpl; lia)) as E.
  rewrite !andb_true_iff, !Z.eqb_eq in E. tauto.
Qed.

Lemma trail x : 0 <= x < 64 -> nonzero (Z.land (128 + x) 128) = true /\ Z.land (128 + x) 63 = x.
Proof.
  intros Hx. pose proof (z_forall_from_spec 64 0
    (λ x, nonzero (Z.land (128 + x) 128) && (Z.land (128 + x) 63 =? x)) x eq_refl ltac:(simpl; lia)) as E.
  rewrite !andb_true_iff, !Z.eqb_eq in E. tauto.
Qed.

Lemma ascii_lead c : 0 <= c < 128 -> Z.land c 192 <> 192 /\ schar c = c.
Proof.
  intros Hc. split.
  - pose proof (z_forall_from_spec 128 0 (λ b, negb (Z.land b 192 =? 192)) c eq_refl ltac:(simpl; lia)) as E.
    apply negb_true_iff, Z.eqb_neq in E. exact E.
  - unfold schar. destruct (Z.ltb_spec c 128); lia.
Qed.

(** A UTF-8 character from its groups of bits *)
Lemma utf8_two a x q : 0 <= a < 32 -> 0 <= x < 64 ->
  q_UTF8_get_char_len ([192 + a; 128 + x] ++ q) = 2 /\
  UTF8_getUnicode ([192 + a; 128 + x] ++ q) = a * 64 + x.
Proof.
  intros Ha Hx. destruct (lead2 (192 + a) ltac:(lia)) as (E1 & E2 & E3). destruct (trail x Hx) as [T1 T2].
  unfold q_UTF8_get_char_len, UTF8_getUnicode, byte_at. cbn [nth app length]. rewrite E1, E2, E3, T1, T2.
  cbn [nonzero negb Z.eqb]. split.
  - destruct (Z.leb_spec 2 (Z.of_nat (S (S (length q))))); [reflexivity|lia].
  - replace (192 + a - 192) with a by lia. apply (lor_shiftl_add a x 6); lia.
Qed.

Lemma utf8_three a x y q : 0 <= a < 16 -> 0 <= x < 64 -> 0 <= y < 64 ->
  q_UTF8_get_char_len ([224 + a; 128 + x; 128 + y] ++ q) = 3 /\
  UTF8_getUnicode ([224 + a; 128 + x; 128 + y] ++ q) = a * 4096 + x * 64 + y.
Proof.
  intros Ha Hx Hy. destruct (lead3 (224 + a) ltac:(lia)) as (E1 & E2 & E3 & E4).
  destruct (trail x Hx) as [T1 T2]. destruct (trail y Hy) as [U1 U2].
  unfold q_UTF8_get_char_len, UTF8_getUnicode, byte_at. cbn [nth app length].
  rewrite E1, E2, E3, E4, T1, T2, U1, U2. cbn [nonzero negb Z.eqb Pos.eqb andb]. split.
  - destruct (Z.leb_spec 3 (Z.of_nat (S (S (S (length q)))))); [reflexivity|lia].
  - replace (224 + a - 224) with a by lia.
    replace (Z.lor (Z.shiftl a 12) (Z.shiftl x 6)) with (Z.shiftl (a * 64 + x) 6).
    + rewrite (lor_shiftl_add _ y 6) by lia. lia.
    + rewrite (Z.shiftl_mul_pow2 x), (lor_shiftl_add a (x * 2 ^ 6) 12) by lia.
      rewrite Z.shiftl_mul_pow2 by lia. lia.
Qed.

Lemma utf8_four a x y z q : 0 <= a < 8 -> 0 <= x < 64 -> 0 <= y < 64 -> 0 <= z < 64 ->
  q_UTF8_get_char_len ([240 + a; 128 + x; 128 + y; 128 + z] ++ q) = 4 /\
  UTF8_getUnicode ([240 + a; 128 + x; 128 + y; 128 + z] ++ q) = a * 262144 + x * 4096 + y * 64 + z.
Proof.
  intros Ha Hx Hy Hz. destruct (lead4 (240 + a) ltac:(lia)) as (E1 & E2 & E3 & E4).
  destruct (trail x Hx) as [T1 T2]. destruct (trail y Hy) as [U1 U2]. destruct (trail z Hz) as [V1 V2].
  unfold q_UTF8_get_char_len, UTF8_getUnicode, byte_at. cbn [nth app length].
  rewrite E1, E2, E3, E4, T1, T2, U1, U2, V1, V2. cbn [nonzero negb Z.eqb Pos.eqb andb]. split.
  - destruct (Z.leb_spec 4 (Z.of_nat (S (S (S (S (length q))))))); [reflexivity|lia].
  - replace (240 + a - 240) with a by lia.
    rewrite (Z.shiftl_mul_pow2 x), (lor_shiftl_add a (x * 2 ^ 12) 18) by lia.
    replace (a * 2 ^ 18 + x * 2 ^ 12) with (Z.shiftl (a * 64 + x) 12) by (rewrite Z.shiftl_mul_pow2; lia).
    rewrite (Z.shiftl_mul_pow2 y), (lor_shiftl_add _ (y * 2 ^ 6) 12) by lia.
    replace ((a * 64 + x) * 2 ^ 12 + y * 2 ^ 6) with (Z.shiftl (a * 4096 + x * 64 + y) 6)
      by (rewrite Z.shiftl_mul_pow2; lia).
    rewrite (lor_shiftl_add _ z 6) by lia. lia.
Qed.

Lemma utf8_one c q : 0 <= c < 128 ->
  q_UTF8_get_char_len (c :: q) = 1 /\ UTF8_getUnicode (c :: q) = c.
Proof.
  intros Hc. destruct (ascii_lead c Hc) as [N S].
  unfold q_UTF8_get_char_len, UTF8_getUnicode, byte_at. cbn [nth].
  destruct (Z.eqb_spec (Z.land c 192) 192); [congruence|]. rewrite S. split; [reflexivity|].
  apply u32_id. unfold in_u32. lia.
Qed.

(** UTF-8 characters are recognised and decoded. *)
Lemma utf8_spec c q : 0 <= c < 2097152 ->
  q_UTF8_get_char_len (utf8_bytes c ++ q) = Z.of_nat (length (utf8_bytes c)) /\
  UTF8_getUnicode (utf8_bytes c ++ q) = c.
Proof.
  intros Hc. unfold utf8_bytes.
  pose proof (Z.div_mod c 64 ltac:(lia)). pose proof (Z.mod_pos_bound c 64 ltac:(lia)).
  destruct (Z.ltb_spec c 128); [apply utf8_one; lia|].
  destruct (Z.ltb_spec c 2048).
  { destruct (utf8_two (c / 64) (c mod 64) q) as [-> ->]; [lia..|]. split; [reflexivity|lia]. }
  pose proof (Z.div_mod (c / 64) 64 ltac:(lia)). pose proof (Z.mod_pos_bound (c / 64) 64 ltac:(lia)).
  pose proof (Z.div_div c 64 64 ltac:(lia) ltac:(lia)) as D. change (64 * 64) with 4096 in D.
  destruct (Z.ltb_spec c 65536).
  { destruct (utf8_three (c / 4096) ((c / 64) mod 64) (c mod 64) q) as [-> ->]; [lia..|]. split; [reflexivity|lia]. }
  pose proof (Z.div_mod (c / 4096) 64 ltac:(lia)). pose proof (Z.mod_pos_bound (c / 4096) 64 ltac:(lia)).
  pose proof (Z.div_div c 4096 64 ltac:(lia) ltac:(lia)) as D'. change (4096 * 64) with 262144 in D'.
  destruct (utf8_four (c / 262144) ((c / 4096) mod 64) ((c / 64) mod 64) (c mod 64) q) as [-> ->]; [lia..|].
  split; [reflexivity|lia].
Qed.

Lemma mask_shift c m n : 0 <= n -> Z.shiftr (Z.land c (Z.shiftl m n)) n = Z.land (c / 2 ^ n) m.
Proof.
  intros Hn. rewrite Z.shiftr_land, Z.shiftr_shiftl_l, Z.sub_diag, Z.shiftl_0_r by exact Hn.
  rewrite Z.shiftr_div_pow2 by exact Hn. reflexivity.
Qed.

Lemma lor_trail x : 0 <= x < 64 -> Z.lor 128 x = 128 + x.
Proof. intros H. apply (lor_shiftl_add 2 x 6); lia. Qed.

Lemma lor_lead4 x : 0 <= x < 8 -> Z.lor 240 x = 240 + x.
Proof. intros H. apply (lor_shiftl_add 30 x 3); lia. Qed.

Lemma lor_lead3 x : 0 <= x < 16 -> Z.lor 224 x = 224 + x.
Proof. intros H. apply (lor_shiftl_add 14 x 4); lia. Qed.

(** The bytes that [concatUTF8FromUnicode] adds. The mask for the first byte of a
    two-byte character has a wrong bit: of the code points from 0x400 to
    0x7ff the highest bit is lost. *)
Lemma concatUTF8_spec c : 0 <= c < 2097152 ->
  concatUTF8FromUnicode c =
  if (1024 <=? c) && (c <? 2048) then [192 + (c - 1024) / 64; 128 + c mod 64] else utf8_bytes c.
Proof.
  intros Hc. unfold concatUTF8FromUnicode, utf8_bytes.
  rewrite !mask_shift, !land_63 by lia. change (2 ^ 18) with 262144. change (2 ^ 12) with 4096.
  change (2 ^ 6) with 64.
  pose proof (Z.div_mod c 64 ltac:(lia)).
  pose proof (Z.mod_pos_bound c 64 ltac:(lia)). pose proof (Z.mod_pos_bound (c / 64) 64 ltac:(lia)).
  pose proof (Z.mod_pos_bound (c / 4096) 64 ltac:(lia)). rewrite !lor_trail by assumption.
  destruct (Z.ltb_spec 65535 c).
  { destruct (Z.leb_spec 1024 c), (Z.ltb_spec c 2048); try lia. cbn [andb].
    destruct (Z.ltb_spec c 128); [lia|]. destruct (Z.ltb_spec c 65536); [lia|].
    assert (0 <= c / 262144 < 8) as B by (split; [apply Z.div_pos|apply Z.div_lt_upper_bound]; lia).
    replace (Z.land (c / 262144) 7) with (c / 262144).
    - rewrite lor_lead4 by exact B. reflexivity.
    - rewrite land_7, (Z.mod_small (c / 262144) 8) by exact B. reflexivity. }
  destruct (Z.ltb_spec 2047 c).
  { destruct (Z.leb_spec 1024 c), (Z.ltb_spec c 2048); try lia. cbn [andb].
    destruct (Z.ltb_spec c 128); [lia|]. destruct (Z.ltb_spec c 65536); [|lia].
    assert (0 <= c / 4096 < 16) as B by (split; [apply Z.div_pos|apply Z.div_lt_upper_bound]; lia).
    rewrite land_15, (Z.mod_small (c / 4096) 16), lor_lead3 by exact B. reflexivity. }
  destruct (Z.ltb_spec 127 c).
  { destruct (Z.ltb_spec c 2048); [|lia]. destruct (Z.ltb_spec c 128); [lia|].
    pose proof (z_forall_from_spec 32 0 (λ x, Z.lor 192 (Z.land x 47) =? (if 16 <=? x then 192 + (x - 16) else 192 + x))
      (c / 64) eq_refl ltac:(simpl; lia)) as E. apply Z.eqb_eq in E. rewrite E.
    destruct (Z.leb_spec 1024 c), (Z.leb_spec 16 (c / 64)); try lia; cbn [andb]; [|reflexivity].
    replace (c - 1024) with (c + (-16) * 64) by lia. rewrite Z.div_add by lia. f_equal. }
  destruct (Z.ltb_spec c 128); [|lia]. destruct (Z.leb_spec 1024 c); [lia|]. reflexivity.
Qed.

(** ** UTF-16 *)

Lemma high_surrogate u : 0 <= u < 65536 ->
  high_surrogate_byte (u / 256) = (55296 <=? u) && (u <=? 56319).
Proof.
  intros H. unfold high_surrogate_byte.
  pose proof (Z.div_mod u 256 ltac:(lia)). pose proof (Z.mod_pos_bound u 256 ltac:(lia)).
  destruct (Z.leb_spec 216 (u / 256)), (Z.ltb_spec (u / 256) 220),
    (Z.leb_spec 55296 u), (Z.leb_spec u 56319); try reflexivity; lia.
Qed.

Lemma code_unit_bytes u : Z.shiftl (u / 256) 8 + u mod 256 = u.
Proof. rewrite Z.shiftl_mul_pow2 by lia. change (2 ^ 8) with 256. pose proof (Z.div_mod u 256). lia. Qed.

Lemma from_one_unit u v : ~ 55296 <= u <= 56319 -> from_code_units u v = u.
Proof.
  intros H. unfold from_code_units. destruct (Z.leb_spec 55296 u), (Z.leb_spec u 56319); try reflexivity. lia.
Qed.

Lemma from_two_units x y : 0 <= x < 1024 -> 0 <= y < 1024 ->
  from_code_units (55296 + x) (56320 + y) = x * 1024 + y + 65536.
Proof.
  intros Hx Hy. unfold from_code_units.
  destruct (Z.leb_spec 55296 (55296 + x)), (Z.leb_spec (55296 + x) 56319),
    (Z.leb_spec 56320 (56320 + y)), (Z.leb_spec (56320 + y) 57343); try lia. cbn [andb].
  rewrite Z.shiftl_mul_pow2 by lia. change (2 ^ 10) with 1024.
  rewrite u32_id; [lia|]. unfold in_u32. lia.
Qed.

Lemma utf16_cases c : scalar c ->
  (c < 65536 /\ utf16_units c = [c] /\ ~ 55296 <= c <= 56319) \/
  exists x y, utf16_units c = [55296 + x; 56320 + y] /\ 0 <= x < 1024 /\ 0 <= y < 1024 /\
              c = x * 1024 + y + 65536.
Proof.
  intros S. unfold utf16_units. unfold scalar in S.
  destruct (Z.ltb_spec c 65536) as [L|L]; [left; repeat split; lia|right].
  exists ((c - 65536) / 1024), ((c - 65536) mod 1024).
  pose proof (Z.div_mod (c - 65536) 1024 ltac:(lia)). pose proof (Z.mod_pos_bound (c - 65536) 1024 ltac:(lia)).
  repeat split; lia.
Qed.

Lemma utf16be_spec c q : scalar c ->
  q_UTF16BE_get_char_len (utf16be_bytes c ++ q) = Z.of_nat (length (utf16be_bytes c)) /\
  UTF16BE_getUnicode (utf16be_bytes c ++ q) = c.
Proof.
  intros S. unfold utf16be_bytes, q_UTF16BE_get_char_len, UTF16BE_getUnicode, byte_at.
  destruct (utf16_cases c S) as [(L & -> & N)|(x & y & -> & Hx & Hy & ->)];
    cbn [map concat be_bytes app length nth]; rewrite !code_unit_bytes.
  - unfold scalar in S. rewrite high_surrogate by lia.
    destruct (Z.leb_spec 55296 c), (Z.leb_spec c 56319); try lia; cbn [andb];
      (split; [|apply from_one_unit; lia]);
      (destruct (Z.leb_spec 2 (Z.of_nat (Datatypes.S (Datatypes.S (length q))))); [reflexivity|lia]).
  - rewrite high_surrogate by lia.
    destruct (Z.leb_spec 55296 (55296 + x)), (Z.leb_spec (55296 + x) 56319); try lia. cbn [andb].
    split; [|apply from_two_units; lia].
    match goal with |- context [4 <=? ?n] => destruct (Z.leb_spec 4 n); [reflexivity|lia] end.
Qed.

Lemma utf16le_spec c q : scalar c ->
  q_UTF16LE_get_char_len (utf16le_bytes c ++ q) = Z.of_nat (length (utf16le_bytes c)) /\
  UTF16LE_getUnicode (utf16le_bytes c ++ q) = c.
Proof.
  intros S. unfold utf16le_bytes, q_UTF16LE_get_char_len, UTF16LE_getUnicode, byte_at.
  destruct (utf16_cases c S) as [(L & -> & N)|(x & y & -> & Hx & Hy & ->)];
    cbn [map concat le_bytes app length nth]; rewrite !code_unit_bytes.
  - unfold scalar in S. rewrite high_surrogate by lia.
    match goal with |- context [?n =? 1] => destruct (Z.eqb_spec n 1); [lia|] end.
    destruct (Z.leb_spec 55296 c), (Z.leb_spec c 56319); try lia; cbn [andb];
      (split; [|apply from_one_unit; lia]);
      (match goal with |- context [2 <=? ?n] => destruct (Z.leb_spec 2 n); [reflexivity|lia] end).
  - rewrite high_surrogate by lia.
    match goal with |- context [?n =? 1] => destruct (Z.eqb_spec n 1); [lia|] end.
    destruct (Z.leb_spec 55296 (55296 + x)), (Z.leb_spec (55296 + x) 56319); try lia. cbn [andb].
    split; [|apply from_two_units; lia].
    match goal with |- context [4 <=? ?n] => destruct (Z.leb_spec 4 n); [reflexivity|lia] end.
Qed.

(** ** Properties *)

(** Positions in a text are consistent, for every encoding whose functions follow a width function: a
    text is invalid for [getLength] exactly when it is not a sequence of characters, and for a sequence of
    characters [getLength] is their number, [getByteLen] the number of bytes of the first [n], which
    ends between two characters and never behind the text, and [getCharPos] finds [n] again from there. *)
Theorem char_positions {e cl} {HE : CharEncoding e cl} p :
  (getLength_x e p = inr INVALID_ENCODING <-> ~ exists cs, characters cl p cs) /\
  (forall cs, characters cl p cs ->
     concat cs = p /\ getLength_x e p = inl (Z.of_nat (length cs)) /\
     forall n, 0 <= n ->
       let k := Z.to_nat n in
       let b := length (concat (take k cs)) in
       getByteLen_x e p n = inl (Z.of_nat b) /\ (b <= length p)%nat /\
       take b p = concat (take k cs) /\ drop b p = concat (drop k cs) /\
       getCharPos_x e (take b p) = inl (Z.of_nat (length (take k cs)))).
Proof.
  split.
  - destruct (getLength_x_cases (HE := HE) p) as [[cs H]|[E N]].
    + rewrite (getLength_x_chars (HE := HE) _ _ H). split; [discriminate|intros N; destruct N; eauto].
    + split; [|intros _; exact E]. intros _ [cs H]. exact (N cs H).
  - intros cs H. pose proof (characters_concat _ _ _ H) as E.
    split; [congruence|]. split; [exact (getLength_x_chars (HE := HE) _ _ H)|].
    intros n Hn k b. split; [exact (getByteLen_x_chars (HE := HE) _ _ _ H Hn)|].
    assert (take b p = concat (take k cs)) as Et by (rewrite E; apply take_chars).
    split; [|split; [exact Et|split; [rewrite E; apply drop_chars|]]].
    + assert (length (take b p) = b) as L by (rewrite Et; reflexivity). rewrite length_take in L. lia.
    + rewrite Et. apply (getCharPos_x_chars (HE := HE)), (characters_take cl ce_local _ _ _ H).
Qed.

(** C34: A code point that is added to a UTF-8 string is read back from it, together with the length of the
    character, for all code points of up to 21 bits but those from 0x400 to 0x7ff: of these the string
    contains another one, without the highest bit. *)
Theorem utf8_unicode_roundtrip conv c q : 0 <= c < 2097152 ->
  getUnicode QCS_UTF8 conv (concatUTF8FromUnicode c ++ q) =
  inl (if (1024 <=? c) && (c <? 2048) then c - 1024 else c, Z.of_nat (length (concatUTF8FromUnicode c))).
Proof.
  intros Hc. rewrite (concatUTF8_spec c Hc).
  set (bad := (1024 <=? c) && (c <? 2048)).
  assert (exists b, (if bad then [192 + (c - 1024) / 64; 128 + c mod 64] else utf8_bytes c) = b /\ b <> [] /\
    q_UTF8_get_char_len (b ++ q) = Z.of_nat (length b) /\
    UTF8_getUnicode (b ++ q) = if bad then c - 1024 else c) as (b & -> & N & L & U).
  { eexists. split; [reflexivity|]. destruct bad eqn:E; unfold bad in E.
    - split; [discriminate|]. apply andb_true_iff in E as [E1%Z.leb_le E2%Z.ltb_lt].
      pose proof (Z.div_mod (c - 1024) 64 ltac:(lia)). pose proof (Z.mod_pos_bound (c - 1024) 64 ltac:(lia)).
      assert ((c - 1024) mod 64 = c mod 64) as Em.
      { replace (c - 1024) with (c + (-16) * 64) by lia. apply Z.mod_add. lia. }
      destruct (utf8_two ((c - 1024) / 64) (c mod 64) q) as [-> ->]; [lia..|]. split; [reflexivity|lia].
    - destruct (utf8_spec c q Hc) as [L U].
      split; [|split; [exact L|exact U]]. unfold utf8_bytes. split_ifs; discriminate. }
  unfold getUnicode, getByteLen_x. cbn [fend get_unicode QCS_UTF8]. unfold UTF8_getByteLen.
  destruct b as [|b0 b]; [congruence|]. cbn [app byte_len_loop]. cbn [app] in L, U. rewrite L, U.
  destruct (Z.leb_spec (Z.of_nat (length (b0 :: b))) 0) as [Z0|Z0]; [simpl in Z0; lia|].
  cbn [Z.eqb]. replace (Z.to_nat (Z.of_nat (length (b0 :: b)) - 1)) with (length b) by (simpl; lia).
  rewrite byte_len_loop_skip. change (1 - 1) with 0. rewrite Z.add_0_l.
  destruct q; reflexivity.
Qed.

(** A text of code points in one of the encodings of the standard *)
Lemma characters_map cl bytes cps :
  (forall c q, scalar c -> bytes c <> [] /\ cl (bytes c ++ q) = Z.of_nat (length (bytes c))) ->
  Forall scalar cps -> characters cl (concat (map bytes cps)) (map bytes cps).
Proof.
  intros Hb. induction 1 as [|c cps Hc _ IH]; simpl; [constructor|].
  destruct (Hb c (concat (map bytes cps)) Hc) as [N L]. constructor; assumption.
Qed.

Definition standard_encodings : list (QoreEncoding * (Z -> list Z)) :=
  [(QCS_UTF8, utf8_bytes); (QCS_UTF16, utf16be_bytes); (QCS_UTF16BE, utf16be_bytes);
   (QCS_UTF16LE, utf16le_bytes)].

Lemma standard_text e cl bytes getu conv cps {HE : CharEncoding e cl} :
  (forall c q, scalar c -> bytes c <> [] /\ cl (bytes c ++ q) = Z.of_nat (length (bytes c)) /\
                           getu (bytes c ++ q) = c) ->
  get_unicode e = Some getu -> Forall scalar cps ->
  let text := concat (map bytes cps) in
  getLength_x e text = inl (Z.of_nat (length cps)) /\
  forall n c, cps !! n = Some c ->
    exists b, getByteLen_x e text (Z.of_nat n) = inl (Z.of_nat b) /\
              getUnicode e conv (drop b text) = inl (c, Z.of_nat (length (bytes c))).
Proof.
  intros Hb Hu Hs text.
  assert (characters cl text (map bytes cps)) as H.
  { apply characters_map; [|exact Hs]. intros c q Hc. destruct (Hb c q Hc) as (? & ? & _). auto. }
  split; [rewrite (getLength_x_chars (HE := HE) _ _ H), length_map; reflexivity|].
  intros n c Hn. exists (length (concat (take n (map bytes cps)))).
  split; [rewrite (getByteLen_x_chars (HE := HE) _ _ _ H), Nat2Z.id by lia; reflexivity|].
  unfold text. rewrite drop_chars. pose proof (characters_drop cl _ _ n H) as Hd.
  rewrite (drop_S _ (bytes c) n) in Hd |- * by (rewrite list_lookup_fmap, Hn; reflexivity).
  unfold getUnicode. rewrite (getByteLen_x_chars (HE := HE) _ _ 1 Hd), Hu by lia.
  simpl. rewrite app_nil_r. rewrite Forall_lookup in Hs.
  destruct (Hb c (concat (drop (S n) (map bytes cps))) (Hs _ _ Hn)) as (_ & _ & ->). reflexivity.
Qed.

(** UTF-8 and UTF-16 of both byte orders are read as the Unicode standard defines them: a text that is
    the encoding of a sequence of code points has that many characters, and the code point of the [n]-th
    character is the [n]-th of the sequence. *)
Theorem unicode_texts conv e bytes cps :
  In (e, bytes) standard_encodings -> Forall scalar cps ->
  let text := concat (map bytes cps) in
  getLength_x e text = inl (Z.of_nat (length cps)) /\
  forall n c, cps !! n = Some c ->
    exists b, getByteLen_x e text (Z.of_nat n) = inl (Z.of_nat b) /\
              getUnicode e conv (drop b text) = inl (c, Z.of_nat (length (bytes c))).
Proof.
  intros Hin Hs.
  assert (forall c q, scalar c -> utf8_bytes c <> [] /\
    q_UTF8_get_char_len (utf8_bytes c ++ q) = Z.of_nat (length (utf8_bytes c)) /\
    UTF8_getUnicode (utf8_bytes c ++ q) = c) as H8.
  { intros c q Hc. split; [unfold utf8_bytes; split_ifs; discriminate|].
    apply utf8_spec. unfold scalar in Hc. lia. }
  assert (forall c, utf16_units c <> []) as Hu by (intros c; unfold utf16_units; split_ifs; discriminate).
  assert (forall c, utf16be_bytes c <> []) as Nbe.
  { intros c. unfold utf16be_bytes. specialize (Hu c). destruct (utf16_units c); [congruence|discriminate]. }
  assert (forall c, utf16le_bytes c <> []) as Nle.
  { intros c. unfold utf16le_bytes. specialize (Hu c). destruct (utf16_units c); [congruence|discriminate]. }
  repeat (destruct Hin as [[= <- <-]|Hin]); [| | | |destruct Hin].
  - apply (standard_text QCS_UTF8 q_UTF8_get_char_len utf8_bytes UTF8_getUnicode conv cps H8 eq_refl Hs).
  - refine (standard_text QCS_UTF16 q_UTF16BE_get_char_len utf16be_bytes UTF16BE_getUnicode conv cps _ eq_refl Hs).
    intros c q Hc. split; [apply Nbe|apply utf16be_spec, Hc].
  - refine (standard_text QCS_UTF16BE q_UTF16BE_get_char_len utf16be_bytes UTF16BE_getUnicode conv cps _ eq_refl Hs).
    intros c q Hc. split; [apply Nbe|apply utf16be_spec, Hc].
  - refine (standard_text QCS_UTF16LE q_UTF16LE_get_char_len utf16le_bytes UTF16LE_getUnicode conv cps _ eq_refl Hs).
    intros c q Hc. split; [apply Nle|apply utf16le_spec, Hc].
Qed.

(** ** The encoding manager *)

Lemma lower_lower a : lower (lower a) = lower a.
Proof. destruct a as [[] [] [] [] [] [] [] []]; reflexivity. Qed.

Lemma findCreate_result name m e m' : findCreate name m = (e, m') ->
  findUnlocked name m' = Some e /\
  (forall n x, findUnlocked n m = Some x -> findUnlocked n m' = Some x) /\
  amap m' = amap m.
Proof.
  unfold findCreate. destruct (findUnlocked name m) as [x|] eqn:E.
  - intros [= <- <-]. auto.
  - intros [= <- <-]. unfold findUnlocked, addUnlocked in *. cbn [emap amap code single_byte] in *.
    destruct (emap m !! lowercase name) as [y|] eqn:Ey; [discriminate|].
    split; [rewrite lookup_insert_eq; reflexivity|]. split; [|reflexivity].
    intros n x. destruct (decide (lowercase n = lowercase name)) as [En|N].
    + rewrite En, Ey, E. discriminate.
    + rewrite lookup_insert_ne by congruence. auto.
Qed.

(** The names of the built-in encodings *)
Definition names (x : QoreEncoding * list string) : list string := code x.1 :: x.2.

Lemma builtin_codes :
  map (λ x, map (λ n, code <$> findUnlocked n new_QoreEncodingManager) (names x)) builtin_encodings =
  map (λ x, map (λ _, Some (code x.1)) (names x)) builtin_encodings.
Proof. vm_compute. reflexivity. Qed.

(** The entries of a manager *)
Definition entry (e : QoreEncoding) (m : QoreEncodingManager) : Prop :=
  exists k, emap m !! k = Some e \/ amap m !! k = Some e.

Lemma entry_add_aliases e x l : forall m,
  entry e (fold_left (λ m a, addAlias x a m) l m) -> entry e m \/ e = x.
Proof.
  induction l as [|a l IH]; intros m H; [left; exact H|]. simpl in H.
  destruct (IH _ H) as [(k & [E|E])|E]; [left; exists k; auto| |right; exact E].
  simpl in E. apply lookup_insert_Some in E as [[_ E]|[_ E]]; [right; congruence|left; exists k; auto].
Qed.

Lemma entry_builtin e l : forall m,
  entry e (fold_left add_builtin l m) -> entry e m \/ In e (map fst l).
Proof.
  induction l as [|x l IH]; intros m H; [left; exact H|]. simpl in H |- *.
  destruct (IH _ H) as [E|E]; [|auto]. unfold add_builtin in E.
  apply entry_add_aliases in E as [(k & E)|E]; [|auto]. simpl in E.
  destruct E as [E|E]; [apply lookup_insert_Some in E as [[_ E]|[_ E]]; [auto|]|]; left; exists k; auto.
Qed.

Lemma code_inj_list (l : list QoreEncoding) e e' :
  List.NoDup (map code l) -> In e l -> In e' l -> code e = code e' -> e = e'.
Proof.
  induction l as [|x l IH]; simpl; [tauto|]. intros N He He' E. inversion N as [|? ? Hx N']; subst.
  destruct He as [->|He], He' as [->|He']; auto.
  - destruct Hx. rewrite E. apply in_map, He'.
  - destruct Hx. rewrite <-E. apply in_map, He.
Qed.

Lemma builtin_distinct : List.NoDup (map code (map fst builtin_encodings)).
Proof. apply NoDup_ListNoDup, (bool_decide_unpack _). vm_compute. exact I. Qed.

Lemma builtin_names x n : In x builtin_encodings -> In n (names x) ->
  findUnlocked n new_QoreEncodingManager = Some x.1.
Proof.
  intros Hx Hn. pose proof (ext_in_map builtin_codes _ Hx) as B. cbv beta in B.
  pose proof (ext_in_map B _ Hn) as E. cbv beta in E.
  destruct (findUnlocked n new_QoreEncodingManager) as [e|] eqn:F; [|discriminate].
  injection E as E. f_equal. apply (code_inj_list _ _ _ builtin_distinct); [|apply in_map, Hx|exact E].
  assert (entry e new_QoreEncodingManager) as He.
  { unfold findUnlocked in F. exists (lowercase n).
    destruct (emap new_QoreEncodingManager !! lowercase n); [left; exact F|right; exact F]. }
    apply entry_builtin in He as [(k & [He|He])|He]; [cbn [emap amap] in He; rewrite lookup_empty in He; discriminate..|exact He].
Qed.

(** What calls of [findCreate] make of a manager *)
Inductive lookups : QoreEncodingManager -> QoreEncodingManager -> Prop :=
  | lookups_nil m : lookups m m
  | lookups_cons name m e m' m'' : findCreate name m = (e, m') -> lookups m' m'' -> lookups m m''.

Lemma lookups_keep m m' n x : lookups m m' -> findUnlocked n m = Some x -> findUnlocked n m' = Some x.
Proof.
  induction 1 as [m|name m e m' m'' E _ IH]; [auto|]. intros F. apply IH.
  apply (findCreate_result _ _ _ _ E), F.
Qed.

Lemma findCreate_known n m e : findUnlocked n m = Some e -> findCreate n m = (e, m).
Proof. intros E. unfold findCreate. rewrite E. reflexivity. Qed.

(** The encoding manager knows every built-in encoding by its name and each of its aliases, in any case
    of the letters, whatever names were looked up before; and [findCreate] returns the same encoding
    for a name after any other lookups, without adding one again. *)
Theorem findCreate_names m :
  lookups new_QoreEncodingManager m ->
  (forall x n n', In x builtin_encodings -> In n (names x) -> lowercase n' = lowercase n ->
     findCreate n' m = (x.1, m)) /\
  (forall n e m1 m2, findCreate n m = (e, m1) -> lookups m1 m2 -> findCreate n m2 = (e, m2)).
Proof.
  intros R. split.
  - intros x n n' Hx Hn El. pose proof (builtin_names x n Hx Hn) as E. apply findCreate_known.
    apply (lookups_keep _ _ _ _ R) in E. unfold findUnlocked in *. rewrite El. exact E.
  - intros n e m1 m2 E L. destruct (findCreate_result _ _ _ _ E) as (F & _).
    apply findCreate_known, (lookups_keep _ _ _ _ L), F.
Qed.

(** ** Examples *)

(** CYRILLIC CAPITAL LETTER A is written as DATA LINK ESCAPE. *)
Example cyrillic_lost conv :
  concatUTF8FromUnicode 1040 = [192; 144] /\
  getUnicode QCS_UTF8 conv (concatUTF8FromUnicode 1040) = inl (16, 2) /\ utf8_bytes 1040 = [208; 144].
Proof. vm_compute. auto. Qed.

(** A continuation byte at the start of a character is a character of its own;
    its code point is computed from a signed byte. *)
Example stray_continuation conv :
  UTF8_getLength [128; 191] = (2, false) /\ getUnicode QCS_UTF8 conv [128] = inl (4294967168, 1).
Proof. vm_compute. auto. Qed.

(** The second byte of a character need not be a continuation byte. *)
Example bad_continuation : UTF8_getLength [195; 195; 65] = (2, false).
Proof. reflexivity. Qed.

(** A high surrogate that is followed by another character hides it. *)
Example lone_surrogate conv :
  UTF16BE_getLength [216; 0; 0; 65] = (1, false) /\
  getUnicode QCS_UTF16BE conv [216; 0; 0; 65] = inl (55296, 4).
Proof. vm_compute. auto. Qed.

(** The length of a single-byte string ends at the first NUL byte. *)
Example length_stops_at_nul : getLength (single_byte "ISO-8859-1") [65; 0; 66] = (1, false).
Proof. reflexivity. Qed.

(** ** Witnesses *)

Lemma utf8_unicode_roundtrip_witness :
  getUnicode QCS_UTF8 (λ _ _, []) (concatUTF8FromUnicode 8364 ++ [33]) = inl (8364, 3).
Proof. rewrite (utf8_unicode_roundtrip (λ _ _, []) 8364 [33]) by lia. vm_compute. reflexivity. Defined.

Lemma unicode_texts_witness :
  getLength_x QCS_UTF16LE (concat (map utf16le_bytes [65; 128512; 8364])) = inl 3.
Proof.
  apply (unicode_texts (λ _ _, []) QCS_UTF16LE utf16le_bytes [65; 128512; 8364]).
  - simpl. auto.
  - repeat constructor; unfold scalar; lia.
Defined.

Lemma char_positions_witness :
  getLength_x QCS_UTF8 [226; 130; 172; 65] = inl 2 /\ getByteLen_x QCS_UTF8 [226; 130; 172; 65] 1 = inl 3.
Proof.
  assert (characters q_UTF8_get_char_len [226; 130; 172; 65] [[226; 130; 172]; [65]]) as H.
  { apply (chars_cons _ [226; 130; 172] [65]); [discriminate|reflexivity|].
    apply (chars_cons _ [65] []); [discriminate|reflexivity|constructor]. }
  destruct (proj2 (char_positions (e := QCS_UTF8) [226; 130; 172; 65]) _ H) as (_ & L & P).
  split; [exact L|]. apply (P 1). lia.
Defined.

Lemma findCreate_names_witness :
  (findCreate "Latin-1" (findCreate "x-user" new_QoreEncodingManager).2).1 = single_byte "ISO-8859-1".
Proof.
  assert (lookups new_QoreEncodingManager (findCreate "x-user" new_QoreEncodingManager).2) as L.
  { eapply lookups_cons; [apply surjective_pairing|constructor]. }
  rewrite (proj1 (findCreate_names _ L) (iso_8859 "1" ["LATIN1"; "LATIN-1"]) "LATIN-1" "Latin-1");
    [reflexivity|simpl; tauto|simpl; tauto|reflexivity].
Defined.
