(* ===== verification/StringCodec.v ===== *)
(** * Text encodings of binary data and URLs

    Base 64 (also the one for URLs) and hexadecimal numbers between binary
    data and strings, and the percent encoding of URLs and request URIs. Data
    and strings are lists of bytes; reading behind the last byte of a string
    gives NUL. *)

From S2P Require Import Prelude Encoding.

#[local] Open Scope Z_scope.

Definition chr (a : ascii) : Z := Z.of_nat (nat_of_ascii a).
Notation "'ch' c" := (chr c%char) (at level 9, c at level 0).

(** The bytes of a text of the source *)
Definition txt (s : string) : list Z := map chr (list_ascii_of_string s).

(** ** Base 64 *)

Definition table64 : list Z :=
  txt "ABCDEFGHIJKLMNOPQRSTUVWXYZabcdefghijklmnopqrstuvwxyz0123456789+/".

(** [base64_concat]: the bytes that are added for a 6-bit value, and the new
    length of the line *)
Definition base64_concat (c linelen maxlinelen : Z) (url_encode : bool) : list Z * Z :=
  let c := byte_at table64 (Z.to_nat c) in
  if url_encode then
    ((if c =? ch "+" then [ch "-"] else if c =? ch "/" then [ch "_"] else [c]), linelen)
  else
    let linelen := linelen + 1 in
    if (0 <? maxlinelen) && (linelen =? maxlinelen) then ([c; 13; 10], 0) else ([c], linelen).

Fixpoint concatBase64_loop (p : list Z) (linelen maxlinelen : Z) (url_encode : bool) : list Z :=
  match p with
  | [] => []
  | p0 :: rest =>
    let '(t1, linelen) := base64_concat (Z.shiftr p0 2) linelen maxlinelen url_encode in
    let c := Z.shiftl (Z.land p0 3) 4 in
    match rest with
    | [] =>
      let '(t2, _) := base64_concat c linelen maxlinelen url_encode in
      t1 ++ t2 ++ (if url_encode then [] else [ch "="; ch "="])
    | p1 :: rest =>
      let '(t2, linelen) := base64_concat (Z.lor c (Z.shiftr p1 4)) linelen maxlinelen url_encode in
      let c := Z.shiftl (Z.land p1 15) 2 in
      match rest with
      | [] =>
        let '(t3, _) := base64_concat c linelen maxlinelen url_encode in
        t1 ++ t2 ++ t3 ++ (if url_encode then [] else [ch "="])
      | p2 :: rest =>
        let '(t3, linelen) := base64_concat (Z.lor c (Z.shiftr p2 6)) linelen maxlinelen url_encode in
        let '(t4, linelen) := base64_concat (Z.land p2 63) linelen maxlinelen url_encode in
        t1 ++ t2 ++ t3 ++ t4 ++ concatBase64_loop rest linelen maxlinelen url_encode
      end
    end
  end.

Definition concatBase64 (p : list Z) (maxlinelen : Z) (url_encode : bool) : list Z :=
  concatBase64_loop p 0 maxlinelen url_encode.

Inductive codec_error :=
  | BASE64_PARSE_ERROR | PARSE_HEX_ERROR | URL_ENCODING_ERROR | INVALID_ENCODING | UNSUPPORTED_ENCODING
  | Overrun       (* the text is read behind its end *)
  | Assertion     (* a failed assertion *)
  | OutOfFuel.

Fixpoint skip_eol (p : list Z) : list Z :=
  match p with
  | b :: q => if (b =? 10) || (b =? 13) then skip_eol q else p
  | [] => []
  end.

(** The value of a character; [None] for a character that is not valid *)
Definition base64_value (url : bool) (c : Z) : option Z :=
  if (ch "A" <=? c) && (c <=? ch "Z") then Some (c - ch "A")
  else if (ch "a" <=? c) && (c <=? ch "z") then Some (c - ch "a" + 26)
  else if (ch "0" <=? c) && (c <=? ch "9") then Some (c - ch "0" + 52)
  else if url then (if c =? ch "-" then Some 62 else if c =? ch "_" then Some 63 else None)
  else if c =? ch "+" then Some 62 else if c =? ch "/" then Some 63 else None.

(** [get_base64_value]: the value and the text from its character on *)
Definition get_base64_value (p : list Z) (end_ok url : bool) : Z * list Z + codec_error :=
  let p := skip_eol p in
  match base64_value url (byte_at p 0) with
  | Some v => inl (v, p)
  | None => if (byte_at p 0 =? 0) && end_ok then inl (-1, p) else inr BASE64_PARSE_ERROR
  end.

Definition at_end (url : bool) (p : list Z) : bool :=
  (byte_at p 0 =? ch "=") || (url && (byte_at p 0 =? 0)).

Definition to_byte (z : Z) : Z := z mod 256.

(** One pass of the loop: up to four characters are added to [out] as up to
    three bytes, and [parse_rest] goes on behind them. *)
Definition parse_base64_group (parse_rest : list Z -> list Z -> list Z + codec_error) (url : bool)
    (p out : list Z) : list Z + codec_error :=
  match get_base64_value p true url with
  | inr e => inr e
  | inl (b, p) =>
    if byte_at p 0 =? 0 then inl out
    else
      match get_base64_value (tl p) false url with
      | inr e => inr e
      | inl (c, p) =>
        let out := out ++ [to_byte (Z.lor (Z.shiftl b 2) (Z.shiftr c 4))] in
        let p := tl p in
        if at_end url p then inl out
        else
          let b := Z.shiftl (Z.land c 15) 4 in
          match get_base64_value p false url with
          | inr e => inr e
          | inl (c, p) =>
            let out := out ++ [to_byte (Z.lor b (Z.shiftr c 2))] in
            let p := tl p in
            if at_end url p then inl out
            else
              let b := Z.shiftl (Z.land c 3) 6 in
              match get_base64_value p false url with
              | inr e => inr e
              | inl (c, p) => parse_rest (tl p) (out ++ [to_byte (Z.lor b c)])
              end
          end
      end
  end.

Fixpoint parse_base64_loop (fuel : nat) (url : bool) (p out : list Z) : list Z + codec_error :=
  match fuel with
  | O => inr OutOfFuel
  | S fuel =>
    match p with
    | [] => inl out
    | _ => parse_base64_group (parse_base64_loop fuel url) url p out
    end
  end.

Definition parse_base64_intern (url : bool) (buf : list Z) : list Z + codec_error :=
  parse_base64_loop (S (length buf)) url buf [].

Definition parseBase64 : list Z -> list Z + codec_error := parse_base64_intern false.
Definition parseBase64Url : list Z -> list Z + codec_error := parse_base64_intern true.

(** [binary_to_string]: a NUL at the end of the data becomes the one behind the
    string. *)
Definition binary_to_string (b : list Z) : list Z :=
  if bool_decide (last b = Some 0) then removelast b else b.

Definition to_string (r : list Z + codec_error) : list Z + codec_error :=
  match r with inl b => inl (binary_to_string b) | inr e => inr e end.

Definition parseBase64ToString (buf : list Z) : list Z + codec_error := to_string (parseBase64 buf).
Definition parseBase64UrlToString (buf : list Z) : list Z + codec_error := to_string (parseBase64Url buf).

(** The overload without an encoding *)
Definition parseBase64UrlToString_default (buf : list Z) : list Z + codec_error := parseBase64ToString buf.

(** ** Hexadecimal numbers *)

Definition DO_HEX_CHAR (b : Z) : Z := b + (if 9 <? b then 87 else 48).

Definition concatHex (p : list Z) : list Z :=
  concat (map (λ b, [DO_HEX_CHAR (Z.shiftr (Z.land b 240) 4); DO_HEX_CHAR (Z.land b 15)]) p).

Definition get_nibble (c : Z) : Z + codec_error :=
  if (ch "0" <=? c) && (c <=? ch "9") then inl (c - 48)
  else if (ch "A" <=? c) && (c <=? ch "F") then inl (c - 55)
  else if (ch "a" <=? c) && (c <=? ch "f") then inl (c - 87)
  else inr PARSE_HEX_ERROR.

Fixpoint parseHex_loop (buf : list Z) : list Z + codec_error :=
  match buf with
  | [] => inl []
  | c1 :: rest =>
    match get_nibble c1, rest with
    | inr e, _ => inr e
    | inl b, c2 :: rest =>
      match get_nibble c2 with
      | inr e => inr e
      | inl l =>
        match parseHex_loop rest with
        | inr e => inr e
        | inl out => inl (to_byte (Z.lor (Z.shiftl b 4) l) :: out)
        end
      end
    | inl _, [] => inr PARSE_HEX_ERROR     (* the NUL behind the text is no digit *)
    end
  end.

Definition parseHex (buf : list Z) : list Z + codec_error :=
  let len := Z.of_nat (length buf) in
  if len =? 0 then inl []
  else if negb ((len /c 2) * 2 =? len) then inr PARSE_HEX_ERROR
  else parseHex_loop buf.

(** ** Percent encoding

    The functions add to a string. Their result is what they add and the
    exception they raise, if any: what was added before it stays there. *)
Definition added : Type := list Z * option codec_error.

Definition add (x : list Z) (r : added) : added := (x ++ r.1, r.2).
Definition fail (e : codec_error) : added := ([], Some e).
Definition done : added := ([], None).

Definition isxdigit (c : Z) : bool :=
  ((ch "0" <=? c) && (c <=? ch "9")) || ((ch "A" <=? c) && (c <=? ch "F"))
  || ((ch "a" <=? c) && (c <=? ch "f")).

(** [strtol] with base 16 for hexadecimal digits *)
Definition xvalue (c : Z) : Z := if c <=? ch "9" then c - 48 else if c <=? ch "F" then c - 55 else c - 87.
Definition strtol16 (x : list Z) : Z := fold_left (λ v c, 16 * v + xvalue c) x 0.

(** [getHex]: the value, or -1, and the text behind it *)
Definition getHex (p : list Z) : Z * list Z :=
  if (byte_at p 0 =? ch "%") && isxdigit (byte_at p 1) && isxdigit (byte_at p 2)
  then (strtol16 [byte_at p 1; byte_at p 2], drop 3 p) else (-1, p).

(** [sprintf] of a byte with the format %%%X *)
Definition hex_digit (d : Z) : Z := if d <? 10 then 48 + d else 55 + d.
Definition percent (b : Z) : list Z :=
  ch "%" :: (if b <? 16 then [hex_digit b] else [hex_digit (b / 16); hex_digit (b mod 16)]).

(** The deprecated [concatDecodeUrl] for C strings *)
Fixpoint concatDecodeUrl_old_loop (fuel : nat) (url : list Z) : added :=
  match fuel with
  | O => fail OutOfFuel
  | S fuel =>
    if byte_at url 0 =? 0 then done
    else if (byte_at url 0 =? ch "%") && isxdigit (byte_at url 1) && isxdigit (byte_at url 2)
    then add [strtol16 [byte_at url 1; byte_at url 2]] (concatDecodeUrl_old_loop fuel (drop 3 url))
    else add [byte_at url 0] (concatDecodeUrl_old_loop fuel (tl url))
  end.
Definition concatDecodeUrl_old (url : list Z) : added := concatDecodeUrl_old_loop (S (length url)) url.

Section Uri.
(** The encoding of the string that is added to, and the conversions of iconv
    between it and UTF-8 *)
Context (enc : QoreEncoding) (from_utf8 : list Z -> list Z + codec_error).
Context (to_utf8 : list Z -> list Z + codec_error).

Definition is_utf8 : bool := String.eqb (code enc) (code QCS_UTF8).

Definition concatUnicode (cp : Z) : added :=
  if is_utf8 then (concatUTF8FromUnicode cp, None)
  else match from_utf8 (concatUTF8FromUnicode cp) with inl t => (t, None) | inr e => fail e end.

(** The character is added, then [k] adds the rest. *)
Definition and_then (r k : added) : added :=
  match r.2 with None => add r.1 k | Some _ => r end.

(** [concatDecodeUriIntern] *)
Fixpoint decode_loop (fuel : nat) (detect_query in_query : bool) (url : list Z) : added :=
  match fuel with
  | O => fail OutOfFuel
  | S fuel =>
    if byte_at url 0 =? 0 then done
    else
      let '(x1, u1) := getHex url in
      if 0 <=? x1 then
        if Z.land x1 192 =? 192 then
          let '(x2, u2) := getHex u1 in
          if x2 =? -1 then fail URL_ENCODING_ERROR
          else if nonzero (Z.land x1 32) then
            let '(x3, u3) := getHex u2 in
            if x3 =? -1 then fail URL_ENCODING_ERROR
            else if nonzero (Z.land x1 16) then
              let '(x4, u4) := getHex u3 in
              if x4 =? -1 then fail URL_ENCODING_ERROR
              else if negb (nonzero (Z.land x2 128) && nonzero (Z.land x3 128) && nonzero (Z.land x4 128))
              then fail URL_ENCODING_ERROR
              else
                and_then
                  (if is_utf8 then ([x1; x2; x3; x4], None)
                   else concatUnicode (Z.lor (Z.lor (Z.lor (Z.shiftl (Z.land x1 7) 18) (Z.shiftl (Z.land x2 63) 12))
                                                (Z.shiftl (Z.land x3 63) 6)) (Z.land x4 63)))
                  (decode_loop fuel detect_query in_query u4)
            else if negb (nonzero (Z.land x2 128) && nonzero (Z.land x3 128)) then fail URL_ENCODING_ERROR
            else
              and_then
                (if is_utf8 then ([x1; x2; x3], None)
                 else concatUnicode (Z.lor (Z.lor (Z.shiftl (Z.land x1 15) 12) (Z.shiftl (Z.land x2 63) 6))
                                       (Z.land x3 63)))
                (decode_loop fuel detect_query in_query u3)
          else if negb (nonzero (Z.land x2 128)) then fail URL_ENCODING_ERROR
          else
            and_then
              (if is_utf8 then ([x1; x2], None)
               else concatUnicode (Z.lor (Z.shiftl (Z.land x1 31) 6) (Z.land x2 63)))
              (decode_loop fuel detect_query in_query u2)
        else add [x1] (decode_loop fuel detect_query in_query u1)
      else
        let c := byte_at url 0 in
        if detect_query then
          if negb in_query then add [c] (decode_loop fuel detect_query (c =? ch "?") (tl url))
          else if c =? ch "+" then add [ch " "] (decode_loop fuel detect_query in_query (tl url))
          else add [c] (decode_loop fuel detect_query (negb (c =? ch "#")) (tl url))
        else add [c] (decode_loop fuel detect_query in_query (tl url))
  end.

Definition concatDecodeUriIntern (url : list Z) (detect_query : bool) : added :=
  if negb (ascii_compat enc) then fail UNSUPPORTED_ENCODING
  else decode_loop (S (length url)) detect_query false url.

(** [TempEncodingHelper]: the text in the encoding that is needed *)
Definition with_encoding (conv : list Z -> list Z + codec_error) (url : list Z) (k : list Z -> added) : added :=
  match conv url with inr e => fail e | inl str => k str end.

Definition concatDecodeUrl (to_enc : list Z -> list Z + codec_error) (url : list Z) : added :=
  with_encoding to_enc url (λ str, concatDecodeUriIntern str false).

Definition concatDecodeUriRequest (to_enc : list Z -> list Z + codec_error) (url : list Z) : added :=
  with_encoding to_enc url (λ str, concatDecodeUriIntern str true).

Definition url_reserved : list Z := txt "!*'();:@&=+$,/?#[]%'".

(** What [concatEncodeUrl] and [concatEncodeUriRequest] do with a byte that is
    not ASCII, [k] with the rest of the text. A length of less than 0 is a
    very large number without its sign. *)
Definition encode_char (p : list Z) (k : list Z -> added) : added :=
  let len := q_UTF8_get_char_len p in
  if len =? 0 then fail INVALID_ENCODING
  else if len <? 0 then fail Overrun
  else add (concat (map percent (take (Z.to_nat len) p))) (k (drop (Z.to_nat len) p)).

(** [concatEncodeUrl] *)
Fixpoint encode_url_loop (fuel : nat) (encode_all : bool) (p : list Z) : added :=
  match fuel with
  | O => fail OutOfFuel
  | S fuel =>
    let c := byte_at p 0 in
    if c =? 0 then done
    else if c =? ch "%" then add (txt "%25") (encode_url_loop fuel encode_all (tl p))
    else if c =? ch " " then add (txt "%20") (encode_url_loop fuel encode_all (tl p))
    else if 127 <? c then encode_char p (encode_url_loop fuel encode_all)
    else if encode_all && existsb (Z.eqb c) url_reserved
    then add (percent c) (encode_url_loop fuel encode_all (tl p))
    else add [c] (encode_url_loop fuel encode_all (tl p))
  end.

Definition concatEncodeUrl (url : list Z) (encode_all : bool) : added :=
  if Z.of_nat (length url) =? 0 then done
  else if negb (ascii_compat enc) then fail UNSUPPORTED_ENCODING
  else with_encoding to_utf8 url (λ str, encode_url_loop (S (length str)) encode_all str).

Inductive uri_state := QUS_PATH | QUS_QUERY | QUS_FRAGMENT.

(** [qore_string_private::concatEncodeUriRequest] *)
Fixpoint encode_uri_loop (fuel : nat) (state : uri_state) (p : list Z) : added :=
  match fuel with
  | O => fail OutOfFuel
  | S fuel =>
    let c := byte_at p 0 in
    if c =? 0 then done
    else if c =? ch "%" then add (txt "%25") (encode_uri_loop fuel state (tl p))
    else if 127 <? c then encode_char p (encode_uri_loop fuel state)
    else
      match state with
      | QUS_PATH =>
        if c =? ch "?" then add [c] (encode_uri_loop fuel QUS_QUERY (tl p))
        else if c =? ch "#" then add [c] (encode_uri_loop fuel QUS_FRAGMENT (tl p))
        else if c =? ch " " then add (txt "%20") (encode_uri_loop fuel state (tl p))
        else add [c] (encode_uri_loop fuel state (tl p))
      | QUS_QUERY =>
        if c =? ch " " then add [ch "+"] (encode_uri_loop fuel state (tl p))
        else if c =? ch "+" then add (txt "%2b") (encode_uri_loop fuel state (tl p))
        else add [c] (encode_uri_loop fuel state (tl p))
      | QUS_FRAGMENT => fail Assertion
      end
  end.

Definition priv_concatEncodeUriRequest (str : list Z) : added :=
  if Z.of_nat (length str) =? 0 then fail Assertion
  else if negb (ascii_compat enc) then fail UNSUPPORTED_ENCODING
  else encode_uri_loop (S (length str)) QUS_PATH str.

(** The conversion of the text is checked, but the text itself is used. *)
Definition concatEncodeUriRequest (url : list Z) : added :=
  if Z.of_nat (length url) =? 0 then done
  else with_encoding to_utf8 url (λ _, priv_concatEncodeUriRequest url).
End Uri.
