(* ===== verification/StringCodecSpec.v ===== *)
(** * What the text encodings guarantee

    Base 64, hexadecimal and percent encoding can be read back; the exact
    conditions are part of the theorems. *)

From S2P Require Import Prelude Encoding EncodingSpec StringCodec.

#[local] Open Scope Z_scope.

Definition is_text : list Z -> Prop := Forall (λ b, is_byte b /\ b <> 0).

(** The codes of the characters in a goal *)
Ltac char_values :=
  repeat match goal with |- context [chr ?a] =>
           let v := eval vm_compute in (chr a) in progress change (chr a) with v end.

(** A condition on small numbers that is checked for each of them *)
Lemma forall_below n (P : Z -> bool) : forallb P (map Z.of_nat (seq 0 n)) = true ->
  forall v, 0 <= v < Z.of_nat n -> P v = true.
Proof.
  rewrite forallb_forall. intros H v Hv. apply H, in_map_iff. exists (Z.to_nat v). rewrite in_seq. split; lia.
Qed.

(** ** Base 64 *)

Definition code64 (v : Z) : Z := byte_at table64 (Z.to_nat v).
Definition url64 (c : Z) : Z := if c =? ch "+" then ch "-" else if c =? ch "/" then ch "_" else c.

(** The character of a value *)
Definition char64 (url : bool) (v : Z) : Z := if url then url64 (code64 v) else code64 v.

Definition good64 (url : bool) (v : Z) : bool :=
  let c := char64 url v in
  bool_decide (base64_value url c = Some v) && negb (c =? 0) && negb (c =? 10) && negb (c =? 13)
  && negb (c =? ch "=").

Lemma char64_good url v : 0 <= v < 64 ->
  base64_value url (char64 url v) = Some v /\ char64 url v <> 0 /\ char64 url v <> 10 /\
  char64 url v <> 13 /\ char64 url v <> ch "=".
Proof.
  intros Hv. assert (good64 url v = true) as H.
  { apply (forall_below 64); [destruct url; vm_compute; reflexivity|exact Hv]. }
  unfold good64 in H. rewrite !andb_true_iff, !negb_true_iff, !Z.eqb_neq in H.
  destruct H as [[[[Hb H1] H2] H3] H4]. apply bool_decide_eq_true in Hb. tauto.
Qed.

(** *** Lines

    After [k] characters the length of the line is [line k]; [eol k] is what
    follows the [k]-th character. *)
Section Lines.
Context (max : Z) (url : bool).

Definition line (k : Z) : Z := if url then 0 else if 0 <? max then k mod max else k.
Definition breaks (k : Z) : bool := negb url && (0 <? max) && (k mod max =? 0).
Definition eol (k : Z) : list Z := if breaks k then [13; 10] else [].

Lemma base64_concat_spec v k : 0 <= k -> 
  base64_concat v (line k) max url = (char64 url v :: eol (k + 1), line (k + 1)).
Proof.
  intros Hk. unfold base64_concat, eol, breaks, line, char64, url64, code64. destruct url; cbn [negb andb].
  - destruct (_ =? _); [reflexivity|]. destruct (_ =? _); reflexivity.
  - destruct (Z.ltb_spec 0 max) as [Hm|Hm]; cbn [andb]; [|reflexivity].
    pose proof (Z.mod_pos_bound k max Hm) as B. pose proof (Z.add_mod_idemp_l k 1 max ltac:(lia)) as E.
    destruct (Z.eqb_spec (k mod max + 1) max) as [Heq|Hne].
    + rewrite Heq, Z_mod_same_full in E. rewrite <- E. reflexivity.
    + rewrite Z.mod_small in E by lia. rewrite <- E.
      destruct (Z.eqb_spec (k mod max + 1) 0); [lia|reflexivity].
Qed.

Lemma skip_eol_char k v q : 0 <= v < 64 -> skip_eol (eol k ++ char64 url v :: q) = char64 url v :: q.
Proof.
  intros Hv. destruct (char64_good url v Hv) as (_ & _ & H10 & H13 & _). unfold eol.
  destruct (breaks k); cbn -[char64];
    destruct (Z.eqb_spec (char64 url v) 10), (Z.eqb_spec (char64 url v) 13); try contradiction; reflexivity.
Qed.

Lemma get_base64_char k v q b : 0 <= v < 64 ->
  get_base64_value (eol k ++ char64 url v :: q) b url = inl (v, char64 url v :: q).
Proof.
  intros Hv. unfold get_base64_value. rewrite skip_eol_char by exact Hv.
  unfold byte_at; cbn [nth]. destruct (char64_good url v Hv) as (-> & _); reflexivity.
Qed.

Lemma at_end_char k v q : 0 <= v < 64 -> at_end url (eol k ++ char64 url v :: q) = false.
Proof.
  intros Hv. unfold at_end, byte_at, eol. destruct (char64_good url v Hv) as (_ & H0 & _ & _ & He).
  destruct (breaks k); cbn [app nth].
  - destruct url; reflexivity.
  - destruct (Z.eqb_spec (char64 url v) (chr "=")), (Z.eqb_spec (char64 url v) 0); try contradiction.
    destruct url; reflexivity.
Qed.
End Lines.

(** *** Bytes from 6-bit values *)

Lemma sextets p0 p1 p2 : is_byte p0 -> is_byte p1 -> is_byte p2 ->
  let v0 := Z.shiftr p0 2 in
  let v1 := Z.lor (Z.shiftl (Z.land p0 3) 4) (Z.shiftr p1 4) in
  let v2 := Z.lor (Z.shiftl (Z.land p1 15) 2) (Z.shiftr p2 6) in
  let v3 := Z.land p2 63 in
  0 <= v0 < 64 /\ 0 <= v1 < 64 /\ 0 <= v2 < 64 /\ 0 <= v3 < 64 /\
  to_byte (Z.lor (Z.shiftl v0 2) (Z.shiftr v1 4)) = p0 /\
  to_byte (Z.lor (Z.shiftl (Z.land v1 15) 4) (Z.shiftr v2 2)) = p1 /\
  to_byte (Z.lor (Z.shiftl (Z.land v2 3) 6) v3) = p2.
Proof.
  unfold is_byte, to_byte. intros H0 H1 H2. rewrite !land_15, !land_3, !land_63, !Z.shiftr_div_pow2 by lia.
  assert (0 <= p1 / 2 ^ 4 < 2 ^ 4) by (Z.to_euclidean_division_equations; lia).
  assert (0 <= p2 / 2 ^ 6 < 2 ^ 2) by (Z.to_euclidean_division_equations; lia).
  rewrite !(lor_shiftl_add (p0 mod 4)), !(lor_shiftl_add (p1 mod 16)) by lia.
  rewrite !lor_shiftl_add by (Z.to_euclidean_division_equations; lia).
  repeat split; Z.to_euclidean_division_equations; lia.
Qed.

(** *** Reading the text back *)

Lemma loop_step fuel url p out : p <> [] ->
  parse_base64_loop (S fuel) url p out = parse_base64_group (parse_base64_loop fuel url) url p out.
Proof. destruct p; [contradiction|reflexivity]. Qed.

Lemma app_cons_ne {A} (l : list A) x q : l ++ x :: q <> [].
Proof. destruct l; discriminate. Qed.

Lemma char_at_start url v q : 0 <= v < 64 -> (byte_at (char64 url v :: q) 0 =? 0) = false.
Proof. intros Hv. destruct (char64_good url v Hv) as (_ & H & _). apply Z.eqb_neq, H. Qed.

Section Base64.
Context (max : Z) (url : bool).

(** Whether a line ends just before the padding of [n] bytes, the only case
    in which the text cannot be read *)
Definition broken (n : Z) : bool := negb (n mod 3 =? 0) && breaks max url ((8 * n + 5) / 6).

Lemma base64_concat_one c l m b : (1 <= length (base64_concat c l m b).1)%nat.
Proof. unfold base64_concat. destruct b; [|destruct (_ && _)]; cbn; try lia. repeat destruct (_ =? _); cbn; lia. Qed.

Lemma concat_longer n : forall p l, (length p <= n)%nat -> (length p <= length (concatBase64_loop p l max url))%nat.
Proof.
  induction n as [|n IH]; intros p l Hn; [destruct p; cbn in Hn |- *; lia|].
  assert (forall c l, exists x t l', base64_concat c l max url = (x :: t, l')) as B.
  { intros c l0. pose proof (base64_concat_one c l0 max url) as H.
    destruct (base64_concat c l0 max url) as [[|x t] l']; cbn in H; [lia|eauto]. }
  destruct p as [|p0 [|p1 [|p2 rest]]]; cbn [concatBase64_loop length] in *; [lia|..];
    repeat match goal with |- context [base64_concat ?c ?l max url] =>
             destruct (B c l) as (? & ? & ? & ->) end;
    rewrite ?length_app; cbn [length]; rewrite ?length_app; cbn [length]; try lia.
  match goal with |- context [concatBase64_loop rest ?l' _ _] => pose proof (IH rest l' ltac:(lia)) end.
  lia.
Qed.
(** What is left of the text of [n] bytes when [k] of its characters are read:
    it is just the end of the line. *)
Lemma parse_nothing fuel k out : parse_base64_loop (S fuel) url (eol max url k) out = inl out.
Proof. unfold eol. destruct (breaks max url k); [destruct url|]; reflexivity. Qed.

Lemma parse_eol fuel k p out :
  parse_base64_loop (S fuel) url (eol max url k ++ p) out = parse_base64_loop (S fuel) url p out.
Proof.
  destruct p as [|x p]; [rewrite app_nil_r; apply parse_nothing|].
  rewrite !loop_step by (discriminate || apply app_cons_ne). unfold eol. destruct (breaks max url k); reflexivity.
Qed.

Lemma parse_start rest k k1 v w q out : 0 <= v < 64 -> 0 <= w < 64 ->
  parse_base64_group rest url (eol max url k ++ char64 url v :: eol max url k1 ++ char64 url w :: q) out =
  let out := out ++ [to_byte (Z.lor (Z.shiftl v 2) (Z.shiftr w 4))] in
  if at_end url q then inl out
  else
    match get_base64_value q false url with
    | inr e => inr e
    | inl (c, p) =>
      let out := out ++ [to_byte (Z.lor (Z.shiftl (Z.land w 15) 4) (Z.shiftr c 2))] in
      let p := tl p in
      if at_end url p then inl out
      else
        match get_base64_value p false url with
        | inr e => inr e
        | inl (c', p) => rest (tl p) (out ++ [to_byte (Z.lor (Z.shiftl (Z.land c 3) 6) c')])
        end
    end.
Proof.
  intros Hv Hw. unfold parse_base64_group. rewrite get_base64_char, char_at_start by exact Hv.
  cbn [tl]. rewrite get_base64_char by exact Hw. reflexivity.
Qed.

(** The padding, behind a line that ends after the [k]-th character *)
Lemma padding k x : 
  let q := eol max url k ++ (if url then [] else ch "=" :: x) in
  if breaks max url k then at_end url q = false /\ get_base64_value q false url = inr BASE64_PARSE_ERROR
  else at_end url q = true.
Proof. unfold eol, breaks. destruct url; [reflexivity|]. cbn [negb andb]. destruct (_ && _); [split|]; reflexivity. Qed.

Lemma quarter n k : 0 <= n -> (8 * (n + 3) + 5) / 6 + k = (8 * n + 5) / 6 + (k + 4).
Proof. intros H. Z.to_euclidean_division_equations; lia. Qed.

Lemma parse_concat n : forall p k fuel out, (length p <= n)%nat -> (length p < fuel)%nat ->
  Forall is_byte p -> 0 <= k ->
  parse_base64_loop fuel url (eol max url k ++ concatBase64_loop p (line max url k) max url) out =
  let n := Z.of_nat (length p) in
  if negb (n mod 3 =? 0) && breaks max url ((8 * n + 5) / 6 + k) then inr BASE64_PARSE_ERROR
  else inl (out ++ p).
Proof.
  assert (is_byte 0) as H00 by (split; lia).
  induction n as [|n IH]; intros [|p0 rest] k [|fuel] out Hn Hf Hb Hk; try (cbn in Hn, Hf; lia);
    [cbn [concatBase64_loop]; rewrite !app_nil_r, parse_nothing; reflexivity..|].
  apply Forall_cons in Hb as [B0 Hb]. rewrite loop_step.
  2: { intros E. apply (f_equal length) in E. rewrite length_app in E.
       pose proof (concat_longer _ (p0 :: rest) (line max url k) Hn). cbn [length] in *. lia. }
  cbn [concatBase64_loop]. rewrite base64_concat_spec by exact Hk.
  destruct rest as [|p1 rest].
  - destruct (sextets p0 0 0 B0 H00 H00) as (V0 & V1 & _ & _ & E0 & _). rewrite Z.lor_0_r in V1, E0.
    rewrite base64_concat_spec by lia. cbn [app]. rewrite parse_start by assumption. rewrite E0.
    pose proof (padding (k + 1 + 1) [ch "="]) as P. cbn zeta in *. replace ((8 * _ + 5) / 6 + k) with (k + 1 + 1)
      by (cbn; Z.to_euclidean_division_equations; lia).
    destruct (breaks max url (k + 1 + 1)); [destruct P as [-> ->]|rewrite P]; reflexivity.
  - apply Forall_cons in Hb as [B1 Hb]. rewrite base64_concat_spec by lia. destruct rest as [|p2 rest].
    + destruct (sextets p0 p1 0 B0 B1 H00) as (V0 & V1 & V2 & _ & E0 & E1 & _). rewrite Z.lor_0_r in V2, E1.
      rewrite base64_concat_spec by lia. cbn [app]. rewrite parse_start by assumption. cbn zeta.
      rewrite at_end_char, get_base64_char, E0, E1 by assumption. cbn [tl].
      pose proof (padding (k + 1 + 1 + 1) []) as P. cbn zeta in *.
      replace ((8 * _ + 5) / 6 + k) with (k + 1 + 1 + 1) by (cbn; Z.to_euclidean_division_equations; lia).
      rewrite <-app_assoc. 
      destruct (breaks max url (k + 1 + 1 + 1)); [destruct P as [-> ->]|rewrite P]; reflexivity.
    + apply Forall_cons in Hb as [B2 Hb].
      destruct (sextets p0 p1 p2 B0 B1 B2) as (V0 & V1 & V2 & V3 & E0 & E1 & E2).
      do 2 (rewrite base64_concat_spec by lia; cbn [app]). rewrite <-?app_assoc. cbn [app].
      rewrite parse_start by assumption. cbn zeta. rewrite at_end_char, get_base64_char by assumption. cbn [tl].
      rewrite at_end_char, get_base64_char, E0, E1, E2 by assumption. cbn [tl].
      cbn [length] in *. rewrite IH by (lia || assumption). cbn zeta.
      rewrite <-!app_assoc. cbn [app].
      replace (Z.of_nat (S (S (S (length rest))))) with (Z.of_nat (length rest) + 3) by lia.
      replace (k + 1 + 1 + 1 + 1) with (k + 4) by lia. rewrite quarter by lia.
      replace ((Z.of_nat (length rest) + 3) mod 3) with (Z.of_nat (length rest) mod 3)
        by (Z.to_euclidean_division_equations; lia).
      reflexivity.
Qed.

End Base64.

(** *** Any text is read to its end *)

Lemma skip_eol_shorter p : (length (skip_eol p) <= length p)%nat.
Proof. induction p as [|b p IH]; cbn; [lia|]. destruct (_ || _); cbn; lia. Qed.

Lemma get_base64_value_cases p end_ok url :
  match get_base64_value p end_ok url with
  | inl (v, q) => (length q <= length p)%nat /\ (byte_at q 0 <> 0 -> 0 <= v < 64) /\
                  (q = [] -> end_ok = true)
  | inr e => e = BASE64_PARSE_ERROR
  end.
Proof.
  unfold get_base64_value, base64_value. pose proof (skip_eol_shorter p) as L.
  remember (byte_at (skip_eol p) 0) as c eqn:Hc.
  assert (skip_eol p = [] -> c = 0) as E by (intros E; rewrite Hc, E; reflexivity).
  char_values.
  repeat match goal with |- context [if ?b then _ else _] => destruct b eqn:? end; try reflexivity;
    repeat match goal with H : (_ && _) = true |- _ => apply andb_true_iff in H as [? ?] end;
    (split; [exact L|]; split; [lia|intros Hq; specialize (E Hq); try assumption; lia]).
Qed.

Lemma to_byte_is_byte z : is_byte (to_byte z).
Proof. unfold is_byte, to_byte. pose proof (Z.mod_pos_bound z 256). lia. Qed.

(** The bytes that are added to [out] are in the room for them, which is one
    byte for each character. *)
Definition fits (p out : list Z) (r : list Z + codec_error) : Prop :=
  match r with
  | inl b => exists d, b = out ++ d /\ Forall is_byte d /\ (length d <= length p)%nat
  | inr e => e = BASE64_PARSE_ERROR
  end.

Lemma fits_more p q out x r : (length q < length p)%nat -> is_byte x -> fits q (out ++ [x]) r -> fits p out r.
Proof.
  intros L Hx. destruct r as [b|e]; [|trivial]. intros (d & -> & Hd & Ld). exists (x :: d).
  rewrite <-app_assoc. cbn. repeat split; [constructor; assumption|lia].
Qed.

Lemma fits_nothing p out : fits p out (inl out).
Proof. exists []. rewrite app_nil_r. repeat split; [constructor|cbn; lia]. Qed.

Lemma tl_shorter (p : list Z) : p <> [] -> (length (tl p) < length p)%nat.
Proof. destruct p; [contradiction|cbn; lia]. Qed.

#[local] Hint Resolve fits_nothing to_byte_is_byte : core.

Ltac add_byte q := eapply (fits_more _ q); [lia|apply to_byte_is_byte|].

Lemma group_fits rest url p out :
  (forall q out', (length q < length p)%nat -> fits q out' (rest q out')) ->
  fits p out (parse_base64_group rest url p out).
Proof.
  intros Hrest. unfold parse_base64_group.
  pose proof (get_base64_value_cases p true url) as H1.
  destruct (get_base64_value p true url) as [[b p1]|e]; [|exact H1]. destruct H1 as (L1 & _ & _).
  destruct (Z.eqb_spec (byte_at p1 0) 0) as [|N1]; [auto|].
  assert (p1 <> []) as N1' by (intros ->; apply N1; reflexivity). apply tl_shorter in N1'.
  pose proof (get_base64_value_cases (tl p1) false url) as H2.
  destruct (get_base64_value (tl p1) false url) as [[c p2]|e]; [|exact H2]. destruct H2 as (L2 & _ & N2).
  assert (p2 <> []) as N2' by (intros E; discriminate (N2 E)). apply tl_shorter in N2'.
  cbv zeta. destruct (at_end url (tl p2)); [add_byte (tl p2); apply fits_nothing|].
  pose proof (get_base64_value_cases (tl p2) false url) as H3.
  destruct (get_base64_value (tl p2) false url) as [[d p3]|e]; [|exact H3]. destruct H3 as (L3 & _ & N3).
  assert (p3 <> []) as N3' by (intros E; discriminate (N3 E)). apply tl_shorter in N3'.
  destruct (at_end url (tl p3)).
  { add_byte (tl p2). add_byte (tl p3); apply fits_nothing. }
  pose proof (get_base64_value_cases (tl p3) false url) as H4.
  destruct (get_base64_value (tl p3) false url) as [[f p4]|e]; [|exact H4]. destruct H4 as (L4 & _ & N4).
  assert (p4 <> []) as N4' by (intros E; discriminate (N4 E)). apply tl_shorter in N4'.
  add_byte (tl p2). add_byte (tl p3).
  add_byte (tl p4). apply Hrest. lia.
Qed.

Lemma parse_fits url fuel : forall p out, (length p < fuel)%nat -> fits p out (parse_base64_loop fuel url p out).
Proof.
  induction fuel as [|fuel IH]; intros p out L; [lia|].
  destruct p as [|x p]; [apply fits_nothing|]. rewrite loop_step by discriminate. apply group_fits.
  intros q out' Lq. apply IH. cbn [length] in *. lia.
Qed.

(** ** Hexadecimal numbers *)

Fixpoint hex_pairs (t : list Z) : list Z :=
  match t with
  | c1 :: c2 :: rest => 16 * xvalue c1 + xvalue c2 :: hex_pairs rest
  | _ => []
  end.

Lemma get_nibble_spec c : get_nibble c = if isxdigit c then inl (xvalue c) else inr PARSE_HEX_ERROR.
Proof.
  unfold get_nibble, isxdigit, xvalue. char_values.
  destruct (Z.leb_spec 48 c), (Z.leb_spec c 57), (Z.leb_spec 65 c), (Z.leb_spec c 70), (Z.leb_spec 97 c),
    (Z.leb_spec c 102); try lia; reflexivity.
Qed.

Lemma xvalue_bound c : isxdigit c = true -> 0 <= xvalue c < 16.
Proof.
  unfold isxdigit, xvalue. char_values. intros H.
  destruct (Z.leb_spec 48 c), (Z.leb_spec c 57), (Z.leb_spec 65 c), (Z.leb_spec c 70), (Z.leb_spec 97 c),
    (Z.leb_spec c 102); try lia; discriminate.
Qed.

Lemma byte_of_nibbles b l : 0 <= b < 16 -> 0 <= l < 16 -> to_byte (Z.lor (Z.shiftl b 4) l) = 16 * b + l.
Proof. intros Hb Hl. rewrite lor_shiftl_add by lia. unfold to_byte. rewrite Z.mod_small; lia. Qed.

Lemma parseHex_loop_spec n : forall t, (length t <= n)%nat -> Nat.even (length t) = true ->
  parseHex_loop t = if forallb isxdigit t then inl (hex_pairs t) else inr PARSE_HEX_ERROR.
Proof.
  induction n as [|n IH]; intros [|c1 [|c2 t]] L E; cbn in L, E; try lia; try discriminate; [reflexivity..|].
  cbn [parseHex_loop forallb hex_pairs]. rewrite !get_nibble_spec.
  destruct (isxdigit c1) eqn:D1; [|reflexivity]. destruct (isxdigit c2) eqn:D2; [|reflexivity].
  rewrite IH by (lia || exact E). cbn [andb]. destruct (forallb isxdigit t); [|reflexivity].
  rewrite byte_of_nibbles by (apply xvalue_bound; assumption). reflexivity.
Qed.

Lemma hex_char d : 0 <= d < 16 -> isxdigit (DO_HEX_CHAR d) = true /\ xvalue (DO_HEX_CHAR d) = d.
Proof.
  intros Hd. unfold DO_HEX_CHAR, isxdigit, xvalue. char_values. destruct (Z.ltb_spec 9 d).
  - destruct (Z.leb_spec 48 (d + 87)), (Z.leb_spec (d + 87) 57), (Z.leb_spec 97 (d + 87)),
      (Z.leb_spec (d + 87) 102), (Z.leb_spec (d + 87) 70); try lia; cbn; lia.
  - destruct (Z.leb_spec 48 (d + 48)), (Z.leb_spec (d + 48) 57); try lia; cbn; lia.
Qed.

Lemma nibbles b : is_byte b -> let h := Z.shiftr (Z.land b 240) 4 in let l := Z.land b 15 in
  0 <= h < 16 /\ 0 <= l < 16 /\ 16 * h + l = b.
Proof.
  unfold is_byte. intros H. cbv zeta. rewrite land_15.
  assert (Z.shiftr (Z.land b 240) 4 = b / 16) as ->.
  { rewrite Z.shiftr_land. change (Z.shiftr 240 4) with 15. rewrite land_15, Z.shiftr_div_pow2 by lia.
    Z.to_euclidean_division_equations; lia. }
  Z.to_euclidean_division_equations; lia.
Qed.

Lemma concatHex_spec b : Forall is_byte b ->
  length (concatHex b) = (2 * length b)%nat /\ forallb isxdigit (concatHex b) = true /\ hex_pairs (concatHex b) = b.
Proof.
  induction 1 as [|x b Hx _ (L & D & P)]; [repeat split|].
  destruct (nibbles x Hx) as (Hh & Hl & E). cbn zeta in *.
  destruct (hex_char _ Hh) as (Dh & Vh), (hex_char _ Hl) as (Dl & Vl).
  change (concatHex (x :: b)) with
    (DO_HEX_CHAR (Z.shiftr (Z.land x 240) 4) :: DO_HEX_CHAR (Z.land x 15) :: concatHex b).
  cbn [length forallb hex_pairs]. rewrite Dh, Dl, D, Vh, Vl, P, E, L. repeat split. lia.
Qed.

(** ** Percent encoding *)

Definition good_percent (b : Z) : bool :=
  bool_decide (percent b = [ch "%"; hex_digit (b / 16); hex_digit (b mod 16)]) &&
  isxdigit (hex_digit (b / 16)) && isxdigit (hex_digit (b mod 16)) &&
  (strtol16 [hex_digit (b / 16); hex_digit (b mod 16)] =? b).

Lemma getHex_percent b q : 16 <= b -> is_byte b -> getHex (percent b ++ q) = (b, q).
Proof.
  intros Hb [H0 H]. assert ((b <? 16) || good_percent b = true) as G.
  { apply (forall_below 256 (λ b, (b <? 16) || good_percent b)); [vm_compute; reflexivity|lia]. }
  destruct (Z.ltb_spec b 16); [lia|]. cbn [orb] in G. unfold good_percent in G.
  rewrite !andb_true_iff, bool_decide_eq_true, Z.eqb_eq in G. destruct G as [[[E D1] D2] V].
  rewrite E. unfold getHex, byte_at. cbn [app nth drop]. rewrite D1, D2, V. reflexivity.
Qed.

Lemma getHex_plain c q : c <> ch "%" -> getHex (c :: q) = (-1, c :: q).
Proof. intros H. unfold getHex, byte_at. cbn [nth]. apply Z.eqb_neq in H. rewrite H. reflexivity. Qed.

Lemma high_bit b : is_byte b -> nonzero (Z.land b 128) = true -> 128 <= b.
Proof.
  intros [H0 H] N. assert (negb (nonzero (Z.land b 128)) || (128 <=? b) = true) as G.
  { apply (forall_below 256 (λ b, negb (nonzero (Z.land b 128)) || (128 <=? b))); [vm_compute; reflexivity|lia]. }
  rewrite N in G. cbn in G. lia.
Qed.

(** The forms of a character in UTF-8 *)
Inductive utf8_form : list Z -> Prop :=
  | form1 x1 : Z.land x1 192 <> 192 -> utf8_form [x1]
  | form2 x1 x2 : Z.land x1 192 = 192 -> nonzero (Z.land x1 32) = false ->
      nonzero (Z.land x2 128) = true -> utf8_form [x1; x2]
  | form3 x1 x2 x3 : Z.land x1 192 = 192 -> nonzero (Z.land x1 32) = true -> nonzero (Z.land x1 16) = false ->
      nonzero (Z.land x2 128) = true -> nonzero (Z.land x3 128) = true -> utf8_form [x1; x2; x3]
  | form4 x1 x2 x3 x4 : Z.land x1 192 = 192 -> nonzero (Z.land x1 32) = true ->
      nonzero (Z.land x1 16) = true -> nonzero (Z.land x2 128) = true -> nonzero (Z.land x3 128) = true ->
      nonzero (Z.land x4 128) = true -> utf8_form [x1; x2; x3; x4].

Lemma utf8_forms c q : c <> [] -> q_UTF8_get_char_len (c ++ q) = Z.of_nat (length c) -> utf8_form c.
Proof.
  intros Hc. destruct c as [|x1 c]; [contradiction|]. unfold q_UTF8_get_char_len.
  remember (Z.of_nat (length ((x1 :: c) ++ q))) as n. unfold byte_at. cbn [app nth].
  destruct (Z.eqb_spec (Z.land x1 192) 192) as [E1|N1].
  2: { destruct c; [constructor; exact N1|cbn; lia]. }
  destruct (nonzero (Z.land x1 32)) eqn:N32; [destruct (nonzero (Z.land x1 16)) eqn:N16|].
  - destruct (4 <=? n); [|cbn; lia]. destruct (_ && _) eqn:B; [|cbn; lia].
    destruct c as [|x2 [|x3 [|x4 [|? ?]]]]; cbn -[Z.land nonzero] in B |- *; try lia. intros _.
    rewrite !andb_true_iff in B. destruct B as [[? ?] ?]. constructor; assumption.
  - destruct (3 <=? n); [|cbn; lia]. destruct (_ && _) eqn:B; [|cbn; lia].
    destruct c as [|x2 [|x3 [|? ?]]]; cbn -[Z.land nonzero] in B |- *; try lia. intros _.
    rewrite !andb_true_iff in B. destruct B as [? ?]. constructor; assumption.
  - destruct (2 <=? n); [|cbn; lia]. destruct (nonzero (Z.land (nth _ _ _) _)) eqn:B; [|cbn; lia].
    destruct c as [|x2 [|? ?]]; cbn -[Z.land nonzero] in B |- *; try lia. intros _. constructor; assumption.
Qed.

Section Decode.
Context (from_utf8 : list Z -> list Z + codec_error) (dq iq : bool).

#[local] Abbreviation decode := (decode_loop QCS_UTF8 from_utf8).

Lemma percent_ne b q : (byte_at (percent b ++ q) 0 =? 0) = false.
Proof. reflexivity. Qed.

Lemma decode_single fuel b q : 16 <= b -> is_byte b -> Z.land b 192 <> 192 ->
  decode (S fuel) dq iq (percent b ++ q) = add [b] (decode fuel dq iq q).
Proof.
  intros Hb Hy Hs. cbn [decode_loop]. rewrite percent_ne, getHex_percent by assumption.
  apply Z.eqb_neq in Hs. rewrite Hs. destruct (Z.leb_spec 0 b); [reflexivity|lia].
Qed.

(** The bytes of a character that is not ASCII *)
Lemma decode_char fuel c q q' : Forall is_byte c -> 127 < byte_at c 0 ->
  q_UTF8_get_char_len (c ++ q) = Z.of_nat (length c) ->
  decode (S fuel) dq iq (concat (map percent c) ++ q') = add c (decode fuel dq iq q').
Proof.
  intros Hc Hh L. assert (c <> []) as Hne by (intros ->; cbn in Hh; lia).
  assert (forall x, is_byte x -> nonzero (Z.land x 128) = true ->
            (x =? -1) = false /\ forall u, getHex (percent x ++ u) = (x, u)) as G.
  { intros x Hx N. apply high_bit in N; [|exact Hx]. split; [apply Z.eqb_neq; lia|].
    intros u. apply getHex_percent; [lia|exact Hx]. }
  destruct (utf8_forms c q Hne L) as [x1 N1|x1 x2 E1 N32 B2|x1 x2 x3 E1 N32 N16 B2 B3
                                     |x1 x2 x3 x4 E1 N32 N16 B2 B3 B4];
    change (127 < x1) in Hh; repeat (apply Forall_cons in Hc as [? Hc]);
    cbn [map concat]; rewrite <-?app_assoc; cbn [app]; [apply decode_single; trivial; lia|..];
    cbn [decode_loop]; rewrite percent_ne, getHex_percent, (proj2 (Z.leb_le 0 x1)), E1 by (trivial; lia);
    change (192 =? 192) with true; cbv iota;
    repeat match goal with
      | |- context [getHex (percent ?x ++ ?u)] =>
        let E := fresh in destruct (G x ltac:(assumption) ltac:(assumption)) as [E ->]; rewrite E
      end; rewrite ?N32, ?N16, ?B2, ?B3, ?B4; reflexivity.
Qed.
End Decode.

(** *** Encoding and decoding step by step *)

#[local] Abbreviation cl := q_UTF8_get_char_len.
#[local] Abbreviation valid p := (exists cs, characters cl p cs).

Lemma valid_cons c q : c <> [] -> cl (c ++ q) = Z.of_nat (length c) -> valid (c ++ q) <-> valid q.
Proof.
  intros Hc L. split; intros [cs H]; [|exists (c :: cs); constructor; assumption].
  inversion H as [E|c' q' cs' Hc' L' H' E]; [destruct c; [contradiction|discriminate]|].
  rewrite E, L in L'. apply app_inj_1 in E as [_ ->]; [exists cs'; exact H'|lia].
Qed.

Lemma not_valid p : p <> [] -> cl p <= 0 -> ~ valid p.
Proof.
  intros Hp L [cs H]. destruct H as [|c q cs Hc L']; [contradiction|].
  destruct c; [contradiction|]. cbn [length] in L'. lia.
Qed.

Lemma ascii_char c q : 0 <= c < 128 -> cl ([c] ++ q) = Z.of_nat (length [c]).
Proof.
  intros Hc. unfold q_UTF8_get_char_len. change (byte_at ([c] ++ q) 0) with c.
  destruct (ascii_lead c Hc) as [N _]. apply Z.eqb_neq in N. rewrite N. reflexivity.
Qed.

(** What was added for the text [p], and that [decode] gets [p] back *)
Definition reads_back (decode : nat -> list Z -> added) (p : list Z) (r : added) : Prop :=
  match r.2 with
  | None => valid p /\ forall f, (length r.1 < f)%nat -> decode f r.1 = (p, None)
  | Some e => (e = INVALID_ENCODING \/ e = Overrun) /\ ~ valid p
  end.

Lemma reads_back_add decode decode' c q x r : c <> [] -> cl (c ++ q) = Z.of_nat (length c) -> x <> [] ->
  (forall f t, decode (S f) (x ++ t) = add c (decode' f t)) ->
  reads_back decode' q r -> reads_back decode (c ++ q) (add x r).
Proof.
  intros Hc L Hx Hd. unfold reads_back, add. cbn [fst snd]. pose proof (valid_cons c q Hc L) as V.
  destruct r.2 as [e|]; [tauto|]. intros [Vq D]. split; [tauto|].
  intros [|f] Hf; [lia|]. rewrite Hd, D; [reflexivity|].
  destruct x; [contradiction|]. rewrite length_app in Hf. cbn in Hf. lia.
Qed.

Lemma reads_back_done decode : (forall f, decode (S f) [] = done) -> reads_back decode [] done.
Proof. intros H. split; [exists []; constructor|]. intros [|f] Hf; [lia|apply H]. Qed.

Lemma take_bytes n p : is_text p -> Forall is_byte (take n p).
Proof. intros H. apply Forall_take. apply (Forall_impl _ _ _ H). intros b [B _]. exact B. Qed.

Lemma reads_back_char decode decode' p k : is_text p -> 127 < byte_at p 0 ->
  (forall c f q t, Forall is_byte c -> 127 < byte_at c 0 -> cl (c ++ q) = Z.of_nat (length c) ->
     decode (S f) (concat (map percent c) ++ t) = add c (decode' f t)) ->
  (forall n, (length (drop n p) < length p)%nat -> reads_back decode' (drop n p) (k (drop n p))) ->
  reads_back decode p (encode_char p k).
Proof.
  intros Hp Hh Hd Hk. assert (p <> []) as Np by (intros ->; cbn in Hh; lia). unfold encode_char.
  destruct (Z.eqb_spec (cl p) 0) as [E0|N0]; [split; [auto|apply not_valid; [exact Np|lia]]|].
  destruct (Z.ltb_spec (cl p) 0) as [Hn|Hn]; [split; [auto|apply not_valid; [exact Np|lia]]|].
  pose proof (UTF8_bound p Np) as Hb. set (n := Z.to_nat (cl p)).
  assert (length (take n p) = n) as Ln by (rewrite length_take; lia).
  assert (byte_at (take n p) 0 = byte_at p 0) as Hhd.
  { transitivity (byte_at (take n p ++ drop n p) 0); [|rewrite take_drop; reflexivity].
    symmetry. apply byte_at_app. lia. }
  assert (cl (take n p ++ drop n p) = Z.of_nat (length (take n p))) as Lc by (rewrite take_drop, Ln; lia).
  rewrite <-(take_drop n p) at 1. apply (reads_back_add _ decode').
  - intros E. rewrite E in Ln. cbn in Ln. lia.
  - exact Lc.
  - destruct (take n p); [cbn in Ln; lia|discriminate].
  - intros f t. apply (Hd _ _ (drop n p)); [|rewrite Hhd; exact Hh|exact Lc].
    apply take_bytes, Hp.
  - apply Hk. rewrite length_drop. lia.
Qed.

(** *** URLs *)

Definition url_char (encode_all : bool) (c : Z) : bool :=
  (0 <? c) && (c <? 128) && negb (c =? ch " ") &&
  ((c =? ch "%") || negb (encode_all && existsb (Z.eqb c) url_reserved)).

Lemma percent_chars encode_all b : is_byte b -> Forall (url_char encode_all) (percent b).
Proof.
  intros Hb. assert (forallb (url_char encode_all) (percent b) = true) as G.
  { apply (forall_below 256 (λ b, forallb (url_char encode_all) (percent b)));
      [destruct encode_all; vm_compute; reflexivity|exact Hb]. }
  rewrite forallb_forall in G. apply Forall_forall. intros c Hc. apply Is_true_true, G, list_elem_of_In, Hc.
Qed.

Lemma percents_chars encode_all c : Forall is_byte c -> Forall (url_char encode_all) (concat (map percent c)).
Proof. induction 1; cbn [map concat]; [constructor|]. apply Forall_app. split; [apply percent_chars|]; assumption. Qed.

Section Url.
Context (encode_all : bool).
#[local] Abbreviation loop := (fun fuel => encode_url_loop fuel encode_all).

Lemma url_chars fuel : forall p, is_text p -> Forall (url_char encode_all) (loop fuel p).1.
Proof.
  induction fuel as [|fuel IH]; intros [|c q] Hp; cbn [encode_url_loop]; try constructor.
  change (byte_at (c :: q) 0) with c. cbn [tl]. pose proof Hp as Hq. apply Forall_cons in Hp as [[Hc H0] Hp].
  unfold add, done, fail. destruct (Z.eqb_spec c 0); [constructor|].
  destruct (Z.eqb_spec c (chr "%")).
  { apply Forall_app. split; [|apply IH; exact Hp]. apply (percent_chars _ 37). split; lia. }
  destruct (Z.eqb_spec c (chr " ")).
  { apply Forall_app. split; [|apply IH; exact Hp]. apply (percent_chars _ 32). split; lia. }
  destruct (Z.ltb_spec 127 c).
  { unfold encode_char. destruct (_ =? 0); [constructor|]. destruct (_ <? 0); [constructor|].
    apply Forall_app. split; [apply percents_chars, take_bytes, Hq|apply IH, Forall_drop, Hq]. }
  destruct (encode_all && _) eqn:R; apply Forall_app; (split; [|apply IH; exact Hp]).
  - apply percent_chars, Hc.
  - constructor; [|constructor]. unfold url_char. rewrite R, orb_true_r.
    destruct (Z.ltb_spec 0 c), (Z.ltb_spec c 128), (Z.eqb_spec c (chr " ")); try (unfold is_byte in Hc; lia).
    exact I.
Qed.

Lemma decode_plain from_utf8 fuel c q : c <> 0 -> c <> ch "%" ->
  decode_loop QCS_UTF8 from_utf8 (S fuel) false false (c :: q) =
  add [c] (decode_loop QCS_UTF8 from_utf8 fuel false false q).
Proof.
  intros H0 Hp. cbn [decode_loop]. change (byte_at (c :: q) 0) with c. rewrite getHex_plain by exact Hp.
  apply Z.eqb_neq in H0. rewrite H0. reflexivity.
Qed.

Lemma url_reads_back from_utf8 fuel : forall p, is_text p -> (length p < fuel)%nat ->
  reads_back (λ f, decode_loop QCS_UTF8 from_utf8 f false false) p (encode_url_loop fuel encode_all p).
Proof.
  induction fuel as [|fuel IH]; intros [|c q] Hp L; cbn [length] in L; try lia.
  { apply reads_back_done. reflexivity. }
  pose proof Hp as Hq. apply Forall_cons in Hp as [[[Hc1 Hc2] H0] Hp]. pose proof (IH q Hp ltac:(lia)) as IHq.
  cbn [encode_url_loop]. change (byte_at (c :: q) 0) with c. cbn [tl].
  destruct (Z.eqb_spec c 0); [contradiction|].
  destruct (Z.ltb_spec 127 c) as [Hb|Hb].
  { destruct (Z.eqb_spec c (chr "%")) as [->|_]; [discriminate|].
    destruct (Z.eqb_spec c (chr " ")) as [->|_]; [discriminate|].
    eapply reads_back_char; [exact Hq|exact Hb|intros; eapply decode_char; eassumption|].
    intros n0 Ln. apply IH; [apply Forall_drop, Hq|cbn [length] in Ln; lia]. }
  assert (forall x, x <> [] -> (forall f t, decode_loop QCS_UTF8 from_utf8 (S f) false false (x ++ t) =
            add [c] (decode_loop QCS_UTF8 from_utf8 f false false t)) ->
          reads_back (λ f, decode_loop QCS_UTF8 from_utf8 f false false) ([c] ++ q)
            (add x (encode_url_loop fuel encode_all q))) as step.
  { intros x Hx Hd. eapply reads_back_add; [discriminate|apply ascii_char; lia|exact Hx|exact Hd|exact IHq]. }
  assert (Z.land c 192 <> 192) as A by (apply ascii_lead; lia).
  destruct (Z.eqb_spec c (chr "%")) as [->|N1]; [apply step; [discriminate|reflexivity]|].
  destruct (Z.eqb_spec c (chr " ")) as [->|N2]; [apply step; [discriminate|reflexivity]|].
  destruct (encode_all && _) eqn:R.
  - apply step; [discriminate|]. intros f t. apply decode_single; [|split; lia|exact A].
    apply andb_prop in R as [_ R]. apply existsb_exists in R as (r & Hr & ->%Z.eqb_eq).
    assert (forallb (Z.leb 16) url_reserved = true) as G by reflexivity. rewrite forallb_forall in G.
    specialize (G r Hr). lia.
  - apply step; [discriminate|]. intros f t. apply decode_plain; assumption.
Qed.
End Url.

(** *** Request URIs *)

Definition in_query (state : uri_state) : bool := match state with QUS_QUERY => true | _ => false end.

Lemma decode_raw from_utf8 fuel iq c q : c <> 0 -> c <> ch "%" ->
  decode_loop QCS_UTF8 from_utf8 (S fuel) true iq (c :: q) =
  if iq then
    if c =? ch "+" then add [ch " "] (decode_loop QCS_UTF8 from_utf8 fuel true true q)
    else add [c] (decode_loop QCS_UTF8 from_utf8 fuel true (negb (c =? ch "#")) q)
  else add [c] (decode_loop QCS_UTF8 from_utf8 fuel true (c =? ch "?") q).
Proof.
  intros H0 Hp. cbn [decode_loop]. change (byte_at (c :: q) 0) with c. rewrite getHex_plain by exact Hp.
  apply Z.eqb_neq in H0. rewrite H0. destruct iq; reflexivity.
Qed.

Lemma uri_reads_back from_utf8 fuel : forall state p, state <> QUS_FRAGMENT -> ~ In (ch "#") p ->
  is_text p -> (length p < fuel)%nat ->
  reads_back (λ f, decode_loop QCS_UTF8 from_utf8 f true (in_query state)) p (encode_uri_loop fuel state p).
Proof.
  induction fuel as [|fuel IH]; intros state [|c q] Hst Hn Hp L; cbn [length] in L; try lia.
  { apply reads_back_done. reflexivity. }
  pose proof Hp as Hq. apply Forall_cons in Hp as [[[Hc1 Hc2] H0] Hp].
  assert (~ In (ch "#") q) as Hnq by (intros H; apply Hn; right; exact H).
  assert (c <> ch "#") as Nh by (intros ->; apply Hn; left; reflexivity).
  cbn [encode_uri_loop]. change (byte_at (c :: q) 0) with c. cbn [tl].
  destruct (Z.eqb_spec c 0); [contradiction|].
  destruct (Z.ltb_spec 127 c) as [Hb|Hb].
  { destruct (Z.eqb_spec c (chr "%")) as [->|_]; [discriminate|].
    eapply reads_back_char; [exact Hq|exact Hb|intros; eapply decode_char; eassumption|].
    intros n0 Ln. apply IH; [exact Hst| |apply Forall_drop, Hq|cbn [length] in Ln; lia].
    intros H. apply Hn. rewrite <-(take_drop n0 (c :: q)). apply in_or_app. right. exact H. }
  assert (forall state' x, state' <> QUS_FRAGMENT -> x <> [] ->
          (forall f t, decode_loop QCS_UTF8 from_utf8 (S f) true (in_query state) (x ++ t) =
            add [c] (decode_loop QCS_UTF8 from_utf8 f true (in_query state') t)) ->
          reads_back (λ f, decode_loop QCS_UTF8 from_utf8 f true (in_query state)) ([c] ++ q)
            (add x (encode_uri_loop fuel state' q))) as step.
  { intros state' x Hs Hx Hd. eapply reads_back_add; [discriminate|apply ascii_char; lia|exact Hx|exact Hd|].
    apply IH; trivial; lia. }
  destruct (Z.eqb_spec c (chr "%")) as [->|N1]; [apply step; [exact Hst|discriminate|reflexivity]|].
  apply Z.eqb_neq in Nh.
  destruct state; [| |contradiction].
  - destruct (Z.eqb_spec c (chr "?")) as [->|N2]; [apply step; [discriminate..|reflexivity]|]. rewrite Nh.
    destruct (Z.eqb_spec c (chr " ")) as [->|N3]; [apply step; [discriminate..|reflexivity]|].
    apply step; [discriminate..|]. intros f t. cbn [app]. rewrite decode_raw by assumption.
    apply Z.eqb_neq in N2. cbn [in_query]. rewrite N2. reflexivity.
  - destruct (Z.eqb_spec c (chr " ")) as [->|N2]; [apply step; [discriminate..|reflexivity]|].
    destruct (Z.eqb_spec c (chr "+")) as [->|N3]; [apply step; [discriminate..|reflexivity]|].
    apply step; [discriminate..|]. intros f t. cbn [app]. rewrite decode_raw by assumption.
    apply Z.eqb_neq in N3. cbn [in_query]. rewrite N3, Nh. reflexivity.
Qed.

(** *** Every text is decoded *)

Lemma getHex_shorter p x q : getHex p = (x, q) -> 0 <= x -> (length q < length p)%nat.
Proof.
  unfold getHex. destruct p as [|a p]; [cbn; intros [= <- <-] H; lia|].
  destruct (_ && _); intros [= <- <-] H; [|lia]. cbn [drop length]. rewrite length_drop. lia.
Qed.

Lemma getHex_value p x q : getHex p = (x, q) -> x = -1 \/ 0 <= x.
Proof.
  unfold getHex. destruct (_ && _) eqn:B; intros [= <- _]; [right|left; reflexivity].
  rewrite !andb_true_iff in B. destruct B as [[_ B1] B2]. cbn.
  pose proof (xvalue_bound _ B1). pose proof (xvalue_bound _ B2). unfold byte_at in *. cbn in *. lia.
Qed.

(** The exceptions of decoding *)
Definition decoded (r : added) : Prop := r.2 = None \/ r.2 = Some URL_ENCODING_ERROR.

Lemma decoded_add x r : decoded r -> decoded (add x r).
Proof. trivial. Qed.

Lemma decoded_fail : decoded (fail URL_ENCODING_ERROR).
Proof. right. reflexivity. Qed.

Lemma decoded_done : decoded done.
Proof. left. reflexivity. Qed.

#[local] Hint Resolve decoded_add decoded_fail decoded_done : core.

Lemma decode_total from_utf8 dq fuel : forall iq p, (length p < fuel)%nat ->
  decoded (decode_loop QCS_UTF8 from_utf8 fuel dq iq p).
Proof.
  induction fuel as [|fuel IH]; intros iq p L; [lia|]. cbn [decode_loop].
  destruct (Z.eqb_spec (byte_at p 0) 0) as [|N]; [apply decoded_done|].
  assert (length (tl p) < fuel)%nat as Lt.
  { destruct p; [cbn in N; contradiction|cbn in L |- *; lia]. }
  assert (forall q x r, getHex q = (x, r) -> (x =? -1) = false -> (length r < length q)%nat) as S.
  { intros q x r E X%Z.eqb_neq. destruct (getHex_value _ _ _ E); [contradiction|].
    exact (getHex_shorter _ _ _ E ltac:(assumption)). }
  destruct (getHex p) as [x1 u1] eqn:E1. destruct (Z.leb_spec 0 x1) as [P1|_].
  - pose proof (getHex_shorter _ _ _ E1 P1) as L1.
    repeat match goal with
      | |- decoded (if ?x =? -1 then _ else _) => destruct (x =? -1) eqn:?; [apply decoded_fail|]
      | E : getHex ?q = (?x, ?r), X : (?x =? -1) = false |- _ => pose proof (S _ _ _ E X); clear E
      | |- decoded (let '(_, _) := getHex ?q in _) => destruct (getHex q) as [? ?] eqn:?
      | |- decoded (fail URL_ENCODING_ERROR) => apply decoded_fail
      | |- decoded (add _ _) => apply decoded_add, IH; lia
      | |- decoded (and_then _ _) => apply decoded_add, IH; lia
      | |- decoded (if ?b then _ else _) => destruct b
      end.
  - destruct dq; [destruct iq; cbn [negb]; [destruct (_ =? _)|]|]; apply decoded_add, IH; lia.
Qed.

(** ** Properties *)

(** Base 64 can be read back. The variant for URLs always can. The other one can for every length of the
    lines but one kind: padding that follows just behind the end of a line is an error for the parser. This
    cannot happen without lines or with lines of a multiple of four characters. *)
Theorem base64_roundtrip b max : Forall is_byte b ->
  let n := Z.of_nat (length b) in
  let bad := negb (n mod 3 =? 0) && (0 <? max) && (((8 * n + 5) / 6) mod max =? 0) in
  parseBase64Url (concatBase64 b max true) = inl b /\
  parseBase64 (concatBase64 b max false) = (if bad then inr BASE64_PARSE_ERROR else inl b) /\
  (max <= 0 \/ max mod 4 = 0 -> bad = false).
Proof.
  intros Hb n bad.
  assert (forall url, parse_base64_intern url (concatBase64 b max url) =
            if negb (n mod 3 =? 0) && breaks max url ((8 * n + 5) / 6) then inr BASE64_PARSE_ERROR
            else inl b) as G.
  { intros url. pose proof (concat_longer max url _ b 0 (le_n _)) as L.
    pose proof (parse_concat max url _ b 0 (S (length (concatBase64 b max url))) [] (le_n _)) as P.
    rewrite parse_eol in P. cbn zeta in P. fold n in P. rewrite Z.add_0_r in P.
    etransitivity; [|apply P; [unfold concatBase64; lia|exact Hb|lia]]. unfold parse_base64_intern. f_equal.
    unfold concatBase64, line. destruct url; [|destruct (0 <? max); rewrite ?Zmod_0_l]; reflexivity. }
  split; [|split].
  - unfold parseBase64Url. rewrite G. unfold breaks. cbn [negb andb]. rewrite andb_false_r. reflexivity.
  - unfold parseBase64. rewrite G. unfold breaks, bad. cbn [negb andb]. rewrite andb_assoc. reflexivity.
  - intros M. subst bad. destruct (Z.ltb_spec 0 max) as [Hm|Hm]; [|rewrite andb_false_r; reflexivity].
    destruct M as [M|M]; [lia|]. destruct (Z.eqb_spec (n mod 3) 0) as [E|E]; [reflexivity|].
    apply Z.eqb_neq. intros E'. apply Z.div_exact in E', M; try lia.
    remember (((8 * n + 5) / 6) / max) as j eqn:Ej. clear Ej. rewrite M in E'.
    assert (4 * (max / 4) * j = 4 * (max / 4 * j)) as E4 by ring. rewrite E4 in E'.
    clear - E E'. remember (max / 4 * j) as z eqn:Ez. clear Ez. Z.to_euclidean_division_equations; lia.
Qed.

(** A hexadecimal text is read exactly when it has an even number of digits, upper or lower case, and each
    pair of digits gives its byte; what [concatHex] writes for bytes is read back as these bytes. *)
Theorem parseHex_correct t b : Forall is_byte b ->
  parseHex t = (if Nat.even (length t) && forallb isxdigit t then inl (hex_pairs t) else inr PARSE_HEX_ERROR) /\
  length (concatHex b) = (2 * length b)%nat /\ parseHex (concatHex b) = inl b.
Proof.
  intros Hb.
  assert (forall u, parseHex u =
            if Nat.even (length u) && forallb isxdigit u then inl (hex_pairs u) else inr PARSE_HEX_ERROR) as G.
  { intros u. unfold parseHex. destruct u as [|c u]; [reflexivity|]. cbn [length].
    destruct (Z.eqb_spec (Z.of_nat (S (length u))) 0); [lia|]. rewrite Z.quot_div_nonneg by lia.
    destruct (Nat.even (S (length u))) eqn:E.
    - pose proof E as E2. apply Nat.even_spec in E2 as [m Em].
      destruct (Z.eqb_spec (Z.of_nat (S (length u)) / 2 * 2) (Z.of_nat (S (length u)))) as [_|N].
      + apply (parseHex_loop_spec (S (length u))); [reflexivity|exact E].
      + destruct N. rewrite Em. Z.to_euclidean_division_equations; lia.
    - assert (Nat.odd (S (length u)) = true) as O by (rewrite <-Nat.negb_even, E; reflexivity).
      apply Nat.odd_spec in O as [m Em].
      destruct (Z.eqb_spec (Z.of_nat (S (length u)) / 2 * 2) (Z.of_nat (S (length u)))) as [N|_]; [|reflexivity].
      rewrite Em in N. Z.to_euclidean_division_equations; lia. }
  destruct (concatHex_spec b Hb) as (L & D & P).
  split; [apply G|]. split; [exact L|]. rewrite G, D, P, L.
  rewrite (proj2 (Nat.even_spec _)) by (exists (length b); reflexivity). reflexivity.
Qed.

(** Encoding a text for a URL and decoding it gives the text again, whether all reserved characters are
    encoded or not. It works for every text without NUL whose characters are valid in UTF-8, and the result
    has only ASCII characters but the space, and with [encode_all] no reserved ones but the percent signs;
    for another text there is an exception, unless it ends within a character, which is an overrun. *)
Theorem url_roundtrip enc to_utf8 from_utf8 url str encode_all :
  ascii_compat enc = true -> url <> [] -> to_utf8 url = inl str -> is_text str ->
  let r := concatEncodeUrl enc to_utf8 url encode_all in
  Forall (url_char encode_all) r.1 /\
  match r.2 with
  | None => (exists cs, characters q_UTF8_get_char_len str cs) /\
            concatDecodeUrl QCS_UTF8 from_utf8 inl r.1 = (str, None)
  | Some e => (e = INVALID_ENCODING \/ e = Overrun) /\ ~ exists cs, characters q_UTF8_get_char_len str cs
  end.
Proof.
  intros Ha Hu Hs Ht r. subst r. unfold concatEncodeUrl, with_encoding. rewrite Ha, Hs.
  replace (Z.of_nat (length url) =? 0) with false
    by (symmetry; apply Z.eqb_neq; destruct url; [contradiction|cbn; lia]). cbn [negb].
  split; [apply url_chars, Ht|].
  pose proof (url_reads_back encode_all from_utf8 (S (length str)) str Ht (le_n _)) as R. unfold reads_back in R.
  destruct (encode_url_loop _ _ _) as [t [e|]]; [exact R|]. destruct R as [V D]. split; [exact V|].
  apply D, le_n.
Qed.

(** Encoding a request URI and decoding it gives the URI again, with the plus sign for a space behind the
    question mark and only there, for every text in UTF-8 without NUL and without a number sign. *)
Theorem request_uri_roundtrip to_utf8 from_utf8 url str :
  url <> [] -> to_utf8 url = inl str -> is_text url -> ~ In (ch "#") url ->
  let r := concatEncodeUriRequest QCS_UTF8 to_utf8 url in
  match r.2 with
  | None => (exists cs, characters q_UTF8_get_char_len url cs) /\
            concatDecodeUriRequest QCS_UTF8 from_utf8 inl r.1 = (url, None)
  | Some e => (e = INVALID_ENCODING \/ e = Overrun) /\ ~ exists cs, characters q_UTF8_get_char_len url cs
  end.
Proof.
  intros Hu Hs Ht Hn r. subst r. unfold concatEncodeUriRequest, with_encoding, priv_concatEncodeUriRequest.
  rewrite Hs. replace (Z.of_nat (length url) =? 0) with false
    by (symmetry; apply Z.eqb_neq; destruct url; [contradiction|cbn; lia]). cbn [ascii_compat QCS_UTF8 negb].
  pose proof (uri_reads_back from_utf8 (S (length url)) QUS_PATH url ltac:(discriminate) Hn Ht (le_n _)) as R.
  unfold reads_back in R. destruct (encode_uri_loop _ _ _) as [t [e|]]; [exact R|]. destruct R as [V D].
  split; [exact V|]. apply D, le_n.
Qed.

(** The room for the bytes of a base 64 text is as large as the text, which is enough: it gives bytes, not more
    than the text has characters, or a parse error. Percent decoding raises no exception but the one for an
    incomplete or invalid UTF-8 character. *)
Theorem decoders_total url text from_utf8 detect_query :
  match parse_base64_intern url text with
  | inl b => Forall is_byte b /\ (length b <= length text)%nat
  | inr e => e = BASE64_PARSE_ERROR
  end /\
  let r := concatDecodeUriIntern QCS_UTF8 from_utf8 text detect_query in
  r.2 = None \/ r.2 = Some URL_ENCODING_ERROR.
Proof.
  split; [|apply decode_total; lia].
  pose proof (parse_fits url (S (length text)) text [] (le_n _)) as F. unfold parse_base64_intern, fits in *.
  destruct (parse_base64_loop _ _ _ _); [|exact F]. destruct F as (d & -> & H). exact H.
Qed.

(** ** Examples *)

(** A line that ends before the padding: the result cannot be parsed. *)
Example broken_padding :
  concatBase64 (txt "ABCD") 6 false = txt "QUJDRA" ++ [13; 10] ++ txt "==" /\
  parseBase64 (concatBase64 (txt "ABCD") 6 false) = inr BASE64_PARSE_ERROR.
Proof. split; reflexivity. Qed.

(** Text behind the padding is left out without an exception. *)
Example after_padding : parseBase64 (txt "QQ==????") = inl (txt "A").
Proof. reflexivity. Qed.

(** Of the parsers of strings for the variant for URLs, the one without an encoding does not know its
    characters. *)
Example url_to_string :
  parseBase64UrlToString (concatBase64 [251; 255] 0 true) = inl [251; 255] /\
  parseBase64UrlToString_default (concatBase64 [251; 255] 0 true) = inr BASE64_PARSE_ERROR.
Proof. split; reflexivity. Qed.

(** Data that ends with NUL loses it. *)
Example last_nul : parseBase64ToString (concatBase64 [65; 0] 0 false) = inl [65].
Proof. reflexivity. Qed.

(** A text that ends within a character is read behind its end. *)
Example truncated_character :
  concatEncodeUrl QCS_UTF8 inl [65; 195] false = ([65], Some Overrun) /\
  concatEncodeUriRequest QCS_UTF8 inl [65; 195] = ([65], Some Overrun).
Proof. split; reflexivity. Qed.

(** The text in ISO-8859-1 is converted, but its own bytes are used. *)
Example request_not_converted to_utf8 : to_utf8 [252; 65; 66; 67] = inl [195; 188; 65; 66; 67] ->
  concatEncodeUriRequest QCS_UTF8 to_utf8 [252; 65; 66; 67] = ([], Some INVALID_ENCODING).
Proof. intros H. unfold concatEncodeUriRequest, with_encoding. rewrite H. reflexivity. Qed.

(** A fragment fails an assertion. *)
Example fragment_fails : concatEncodeUriRequest QCS_UTF8 inl (txt "a#b") = (txt "a#", Some Assertion).
Proof. reflexivity. Qed.

(** The encoder stays in the query behind a number sign and the decoder does not. *)
Example fragment_of_query :
  concatEncodeUriRequest QCS_UTF8 inl (txt "?a#b c") = (txt "?a#b+c", None) /\
  concatDecodeUriRequest QCS_UTF8 inl inl (txt "?a#b+c") = (txt "?a#b+c", None).
Proof. split; reflexivity. Qed.

(** ** Witnesses *)

Lemma is_text_check p : forallb (λ b, (0 <? b) && (b <? 256)) p = true -> is_text p.
Proof.
  rewrite forallb_forall. intros H. apply Forall_forall. intros b Hb%list_elem_of_In. specialize (H b Hb).
  unfold is_byte. lia.
Qed.

Lemma base64_roundtrip_witness :
  parseBase64Url (concatBase64 [0; 255; 16; 131] 0 true) = inl [0; 255; 16; 131] /\
  parseBase64 (concatBase64 [0; 255; 16; 131] 4 false) = inl [0; 255; 16; 131].
Proof.
  pose proof (base64_roundtrip [0; 255; 16; 131] 4 ltac:(repeat constructor; lia)) as (H1 & H2 & H3).
  split; [exact H1|]. rewrite H2, H3; [reflexivity|]. right. reflexivity.
Defined.

Lemma parseHex_correct_witness : parseHex (txt "0aF") = inr PARSE_HEX_ERROR /\ parseHex (concatHex [10; 255]) = inl [10; 255].
Proof.
  destruct (parseHex_correct (txt "0aF") [10; 255] ltac:(repeat constructor; lia)) as (H1 & _ & H2).
  split; [exact H1|exact H2].
Defined.

Lemma url_roundtrip_witness :
  (concatEncodeUrl QCS_UTF8 inl (txt "a b/" ++ [195; 188]) true).2 = None /\
  concatDecodeUrl QCS_UTF8 inl inl (concatEncodeUrl QCS_UTF8 inl (txt "a b/" ++ [195; 188]) true).1 =
    (txt "a b/" ++ [195; 188], None).
Proof.
  assert (is_text (txt "a b/" ++ [195; 188])) as H by (apply is_text_check; reflexivity).
  destruct (url_roundtrip QCS_UTF8 inl inl (txt "a b/" ++ [195; 188]) _ true eq_refl ltac:(discriminate)
              eq_refl H) as [_ [_ R]].
  split; [reflexivity|exact R].
Defined.

Lemma request_uri_roundtrip_witness :
  concatEncodeUriRequest QCS_UTF8 inl (txt "/a b+?c d+%") = (txt "/a%20b+?c+d%2b%25", None) /\
  concatDecodeUriRequest QCS_UTF8 inl inl (txt "/a%20b+?c+d%2b%25") = (txt "/a b+?c d+%", None).
Proof.
  assert (is_text (txt "/a b+?c d+%")) as H by (apply is_text_check; reflexivity).
  assert (~ In (ch "#") (txt "/a b+?c d+%")) as N by (cbn; intuition discriminate).
  destruct (request_uri_roundtrip inl inl (txt "/a b+?c d+%") _ ltac:(discriminate) eq_refl H N) as [_ R].
  split; [reflexivity|exact R].
Defined.
