(* ===== verification/StringBuf.v ===== *)
(** * String buffers

    [qore_string_private] as memory: a block of bytes of which the first
    [len] are the text, followed by a NUL. The operations move bytes inside of
    the block and make it larger. Sizes have 64 bits without a sign; reading
    or writing outside of the block is an overrun. *)

From S2P Require Import Prelude Encoding.

#[local] Open Scope Z_scope.

(** The value of a size_t *)
Definition usz (z : Z) : Z := z mod 2 ^ 64.

(** ** Outcomes *)

Inductive outcome (A : Type) :=
  | Ret (a : A)
  | Raise (x : error)    (* an exception; the string is as before *)
  | MemError             (* memory outside of a block is read or written *)
  | AssertFailed
  | NoFuel.
Arguments Ret {A} a.
Arguments Raise {A} x.
Arguments MemError {A}.
Arguments AssertFailed {A}.
Arguments NoFuel {A}.

#[export] Instance outcome_ret : MRet outcome := λ A a, Ret a.
#[export] Instance outcome_bind : MBind outcome := λ A B f m,
  match m with Ret a => f a | Raise x => Raise x | MemError => MemError
                | AssertFailed => AssertFailed | NoFuel => NoFuel end.

(** The result of a function of the encoding *)
Definition enc_result {A} (r : A + error) : outcome A :=
  match r with inl a => Ret a | inr x => Raise x end.

(** ** Memory *)

Definition size (b : list Z) : Z := Z.of_nat (length b).

Definition mem_read (b : list Z) (i n : Z) : outcome (list Z) :=
  if (0 <=? i) && (0 <=? n) && (i + n <=? size b)
  then Ret (take (Z.to_nat n) (drop (Z.to_nat i) b)) else MemError.

Definition mem_write (b : list Z) (i : Z) (xs : list Z) : outcome (list Z) :=
  if (0 <=? i) && (i + size xs <=? size b)
  then Ret (take (Z.to_nat i) b ++ xs ++ drop (Z.to_nat i + length xs) b) else MemError.

Definition memmove (b : list Z) (dst src n : Z) : outcome (list Z) :=
  xs ← mem_read b src n; mem_write b dst xs.

(** ** Strings *)

Record qore_string := mkStr { buf : list Z; len : Z }.

Definition allocated (s : qore_string) : Z := size (buf s).
Definition text (s : qore_string) : list Z := take (Z.to_nat (len s)) (buf s).

Definition STR_CLASS_BLOCK : Z := 64.
Definition STR_CLASS_EXTRA : Z := 48.

Section Buffer.
(** The bytes of memory that is new *)
Context (garbage : nat -> Z).

Definition malloc (n : Z) : list Z := map garbage (seq 0 (Z.to_nat n)).

Definition realloc (b : list Z) (n : Z) : list Z :=
  take (Z.to_nat n) b ++ map garbage (seq (length b) (Z.to_nat n - length b)).

Definition check_char (i : Z) (s : qore_string) : qore_string :=
  if allocated s <=? i then
    let d := Z.shiftr i 2 in
    let a := i + (if d <? STR_CLASS_BLOCK then STR_CLASS_BLOCK else d) in
    mkStr (realloc (buf s) ((a /c 16 + 1) * 16)) (len s)
  else s.

(** [buf[len] = 0] with the new length *)
Definition set_len (b : list Z) (l : Z) : outcome qore_string :=
  b ← mem_write b l [0]; Ret (mkStr b l).

Definition new_string : outcome qore_string := set_len (malloc STR_CLASS_BLOCK) 0.

Definition terminate (l : Z) (s : qore_string) : outcome qore_string :=
  let s := if len s <? l then check_char l s else s in
  set_len (buf s) l.

(** [concat(char)] *)
Definition concat_char (c : Z) (s : qore_string) : outcome qore_string :=
  if allocated s =? 0 then
    b ← mem_write (malloc STR_CLASS_BLOCK) 0 [c]; set_len b 1
  else
    b ← mem_write (buf s) (len s) [c];
    let s := check_char (len s + 1) (mkStr b (len s + 1)) in
    set_len (buf s) (len s).

(** [check_char] for [room], then the bytes and the NUL are written. *)
Definition append (room : Z) (str : list Z) (s : qore_string) : outcome qore_string :=
  let s := check_char room s in
  b ← mem_write (buf s) (len s) str;
  set_len b (len s + size str).

(** [concat] of bytes and their number *)
Definition concat_mem (str : list Z) (s : qore_string) : outcome qore_string :=
  append (len s + size str) str s.

(** [concat] of another string, which has the same encoding *)
Definition concat_string (str : list Z) (s : qore_string) : outcome qore_string :=
  if size str =? 0 then Ret s else append (size str + len s + STR_CLASS_EXTRA) str s.

(** [concat] of a C string, which ends before the first NUL *)
Fixpoint cstr (p : list Z) : list Z :=
  match p with
  | [] => []
  | c :: q => if c =? 0 then [] else c :: cstr q
  end.

Fixpoint concat_cstr_loop (str : list Z) (s : qore_string) : outcome qore_string :=
  match str with
  | [] => let s := check_char (len s) s in set_len (buf s) (len s)
  | c :: str =>
    let s := check_char (len s) s in
    b ← mem_write (buf s) (len s) [c];
    concat_cstr_loop str (mkStr b (len s + 1))
  end.

Definition concat_cstr (str : list Z) (s : qore_string) : outcome qore_string :=
  concat_cstr_loop (cstr str) s.

(** [concat] of the start of another string: the room is computed with the
    length of the other string. *)
Definition concat_size (e : QoreEncoding) (str : list Z) (sz : Z) (s : qore_string) : outcome qore_string :=
  if size str =? 0 then Ret s
  else
    sz ← (if isMultiByte e then enc_result (getByteLen_x e str sz) else Ret sz);
    part ← mem_read (str ++ [0]) 0 sz;
    append (size str + sz + STR_CLASS_EXTRA) part s.

(** ** Offsets *)

Definition check_offset (offset l : Z) : Z :=
  if offset <? 0 then (if l + offset <? 0 then 0 else l + offset)
  else if l <? offset then l else offset.

Definition check_offset_num (offset num l : Z) : Z * Z :=
  let n_offset := check_offset offset l in
  (n_offset, if num <? 0 then (if l + num - n_offset <? 0 then 0 else l + num - n_offset) else num).

(** ** Splices

    The first component of a result are the bytes that are added to the
    string for the extract, if there is one. *)

Definition clip (l offset num : Z) : Z * Z :=
  if usz (l - offset) <? num then (l, usz (l - offset)) else (usz (offset + num), num).

Definition extract_bytes (b : list Z) (extract : bool) (offset num : Z) : outcome (list Z) :=
  if extract && negb (num =? 0) then mem_read b offset num else Ret [].

(** [splice_simple] without a string *)
Definition splice_simple_del (offset num : Z) (extract : bool) (s : qore_string)
    : outcome (list Z * qore_string) :=
  let '(end_, num) := clip (len s) offset num in
  ext ← extract_bytes (buf s) extract offset num;
  b ← (if end_ =? len s then Ret (buf s) else memmove (buf s) offset end_ (usz (len s - end_)));
  s' ← set_len b (usz (len s - num));
  Ret (ext, s').

(** The part that [splice_simple] and [splice_complex] with a string have in
    common: [num] bytes from [offset] to [end_] become the bytes of [str].
    They differ in how the places are computed to which and from which the
    bytes behind are moved to make the string bigger. *)
Definition replace_bytes (up_dst up_src offset end_ num : Z) (str : list Z) (s : qore_string) : outcome qore_string :=
  b ← (if num <? size str then
         let s' := check_char (usz (len s + size str - num)) s in
         if end_ =? len s then Ret (buf s')
         else memmove (buf s') up_dst up_src (usz (len s - end_))
       else if size str <? num then
         memmove (buf s) (usz (offset + size str)) (usz (offset + num)) (usz (len s - offset - size str))
       else Ret (buf s));
  b ← mem_write b offset str;
  set_len b (usz (len s - num + size str)).

Definition splice_simple_ins (offset num : Z) (str : list Z) (extract : bool) (s : qore_string)
    : outcome (list Z * qore_string) :=
  let '(end_, num) := clip (len s) offset num in
  ext ← extract_bytes (buf s) extract offset num;
  s' ← replace_bytes (usz (offset + size str)) (usz (offset + num)) offset end_ num str s;
  Ret (ext, s').

(** [splice_complex]: offsets are numbers of characters. *)
Section Complex.
Context (e : QoreEncoding).

(** With an offset only; the extract is added as a C string. *)
Definition splice_complex_off (offset : Z) (extract : bool) (s : qore_string)
    : outcome (list Z * qore_string) :=
  let t := text s in
  clen ← enc_result (getLength_x e t);
  if (0 <=? offset) && (clen <=? offset) then Ret ([], s)
  else
    let offset := if offset <? 0 then (if clen + offset <? 0 then 0 else clen + offset) else offset in
    n_offset ← (if offset =? 0 then Ret 0 else enc_result (getByteLen_x e t offset));
    let ext := if extract && (n_offset <? len s) then cstr (drop (Z.to_nat n_offset) (buf s)) else [] in
    s' ← set_len (buf s) n_offset;
    Ret (ext, s').

(** The characters from [offset] that are replaced: their byte offset, their
    end and the number of bytes *)
Definition complex_range (t : list Z) (clen offset num : Z) : outcome (Z * Z * Z) :=
  let num := if num <? 0 then (if clen + num - offset <? 0 then 0 else clen + num - offset) else num in
  let '(end_, num) := if clen - offset <? num then (clen, clen - offset) else (offset + num, num) in
  o ← enc_result (getByteLen_x e t offset);
  end_ ← enc_result (getByteLen_x e t end_);
  n ← enc_result (getByteLen_x e (drop (Z.to_nat o) t) num);
  Ret (o, end_, n).

Definition splice_complex_del (offset num : Z) (extract : bool) (s : qore_string)
    : outcome (list Z * qore_string) :=
  let t := text s in
  clen ← enc_result (getLength_x e t);
  if (0 <=? offset) && (clen <=? offset) then Ret ([], s)
  else
    let offset := if offset <? 0 then (if clen + offset <? 0 then 0 else clen + offset) else offset in
    r ← complex_range t clen offset num;
    let '(offset, end_, num) := r in
    ext ← extract_bytes (buf s) extract offset num;
    b ← (if end_ =? len s then Ret (buf s) else memmove (buf s) offset end_ (usz (len s - end_)));
    s' ← set_len b (usz (len s - num));
    Ret (ext, s').

Definition splice_complex_ins (offset num : Z) (str : list Z) (extract : bool) (s : qore_string)
    : outcome (list Z * qore_string) :=
  let t := text s in
  clen ← enc_result (getLength_x e t);
  let offset := if clen <=? offset then clen
                else if offset <? 0 then (if clen + offset <? 0 then 0 else clen + offset) else offset in
  r ← complex_range t clen offset num;
  let '(offset, end_, num) := r in
  ext ← extract_bytes (buf s) extract offset num;
  s' ← replace_bytes (usz (end_ - num + size str)) end_ offset end_ num str s;
  Ret (ext, s').
End Complex.
End Buffer.

(** ** Buffers and texts

    The buffer holds the text, its NUL and bytes that do not matter. *)
Definition rep (s : qore_string) (t : list Z) : Prop :=
  len s = size t /\ exists extra, buf s = t ++ 0 :: extra.

Lemma size_app a b : size (a ++ b) = size a + size b.
Proof. unfold size. rewrite length_app. lia. Qed.

Lemma size_nil : size [] = 0.
Proof. reflexivity. Qed.

Lemma size_cons x a : size (x :: a) = 1 + size a.
Proof. unfold size. cbn [length]. lia. Qed.

Lemma size_nonneg a : 0 <= size a.
Proof. unfold size. lia. Qed.

Lemma to_nat_size a : Z.to_nat (size a) = length a.
Proof. unfold size. lia. Qed.

Lemma size_garbage garbage i n : size (map garbage (seq i n)) = Z.of_nat n.
Proof. unfold size. rewrite length_map, length_seq. reflexivity. Qed.

Lemma size_nil_iff a : size a = 0 <-> a = [].
Proof. unfold size. destruct a; cbn; split; try discriminate; try reflexivity; lia. Qed.

Create Rewrite HintDb size.
#[export] Hint Rewrite size_nil size_app size_cons to_nat_size size_garbage : size.

(** [size_tac] decides linear facts about the sizes of lists. *)
Ltac size_tac :=
  autorewrite with size in *;
  repeat match goal with
    | |- context [size ?a] => lazymatch goal with H : 0 <= size a |- _ => fail | _ => pose proof (size_nonneg a) end
    | H0 : context [size ?a] |- _ => lazymatch goal with H : 0 <= size a |- _ => fail | _ => pose proof (size_nonneg a) end
    end; try lia.

Lemma usz_small z : 0 <= z < 2 ^ 64 -> usz z = z.
Proof. apply Z.mod_small. Qed.

(** Sizes that are in range *)
Ltac usz_simpl :=
  repeat match goal with |- context [usz ?z] => rewrite (usz_small z) by size_tac end.

Lemma mem_read_at a b c i n : i = size a -> n = size b -> mem_read (a ++ b ++ c) i n = Ret b.
Proof.
  intros -> ->. unfold mem_read. destruct (Z.leb_spec 0 (size a)), (Z.leb_spec 0 (size b)),
    (Z.leb_spec (size a + size b) (size (a ++ b ++ c))); cbn [andb]; size_tac.
  rewrite drop_app_length, take_app_length. reflexivity.
Qed.

Lemma mem_write_at a b c xs i : i = size a -> size xs = size b -> mem_write (a ++ b ++ c) i xs = Ret (a ++ xs ++ c).
Proof.
  intros -> E. unfold mem_write. destruct (Z.leb_spec 0 (size a)),
    (Z.leb_spec (size a + size xs) (size (a ++ b ++ c))); cbn [andb]; size_tac.
  f_equal. rewrite take_app_length, drop_app_ge by lia. do 2 f_equal.
  assert (length a + length xs - length a = length b)%nat as -> by (unfold size in E; lia).
  apply drop_app_length.
Qed.

Lemma mem_read_beyond b i n : size b < i + n -> mem_read b i n = MemError.
Proof. intros H. unfold mem_read. destruct (Z.leb_spec (i + n) (size b)); [lia|]. rewrite andb_false_r. reflexivity. Qed.

Lemma rep_text s t : rep s t -> text s = t.
Proof. intros (L & extra & E). unfold text. rewrite L, E, to_nat_size, take_app_length. reflexivity. Qed.

Lemma rep_allocated s t : rep s t -> size t < allocated s.
Proof. intros (_ & extra & E). unfold allocated. rewrite E. size_tac. Qed.

(** The buffer as text, NUL and the bytes behind it *)
Lemma rep_intro t x extra : set_len (t ++ x :: extra) (size t) = Ret (mkStr (t ++ 0 :: extra) (size t)).
Proof. unfold set_len. change (x :: extra) with ([x] ++ extra). rewrite mem_write_at; reflexivity. Qed.

Lemma rep_mk t extra l : l = size t -> rep (mkStr (t ++ 0 :: extra) l) t.
Proof. intros ->. split; [reflexivity|]. exists extra. reflexivity. Qed.

Lemma set_len_rep b t x extra l : b = t ++ x :: extra -> l = size t ->
  exists s, set_len b l = Ret s /\ rep s t /\ allocated s = size b.
Proof.
  intros -> ->. rewrite rep_intro. eexists. split; [reflexivity|]. split; [apply rep_mk; reflexivity|].
  unfold allocated. cbn. size_tac.
Qed.

Section Reallocation.
Context (garbage : nat -> Z).

Lemma realloc_grow b n : size b <= n -> exists extra, realloc garbage b n = b ++ extra /\ size extra = n - size b.
Proof.
  intros H. unfold realloc. rewrite take_ge by (unfold size in H; lia). eexists. split; [reflexivity|]. size_tac.
  unfold size in *. lia.
Qed.

Lemma check_char_spec i s : 0 <= i ->
  exists extra, buf (check_char garbage i s) = buf s ++ extra /\ len (check_char garbage i s) = len s /\
                i < allocated (check_char garbage i s).
Proof.
  intros Hi. unfold check_char. destruct (Z.leb_spec (allocated s) i).
  - cbn [buf len]. unfold allocated in *. cbn [buf]. set (a := i + _).
    assert (i + 64 <= a) as Ha.
    { subst a. unfold STR_CLASS_BLOCK. destruct (Z.ltb_spec (Z.shiftr i 2) 64); lia. }
    assert (a <= (a /c 16 + 1) * 16) as Hr by (rewrite quot_pos by lia; Z.to_euclidean_division_equations; lia).
    destruct (realloc_grow (buf s) ((a /c 16 + 1) * 16)) as (extra & E & L); [lia|]. rewrite E.
    exists extra. repeat split. size_tac.
  - exists []. rewrite app_nil_r. repeat split. lia.
Qed.

Lemma check_char_rep i s t : 0 <= i -> rep s t ->
  rep (check_char garbage i s) t /\ i < allocated (check_char garbage i s) /\
  allocated s <= allocated (check_char garbage i s).
Proof.
  intros Hi (L & extra & E). destruct (check_char_spec i s Hi) as (more & Eb & El & Ha).
  split; [|split; [exact Ha|unfold allocated; rewrite Eb; size_tac]].
  split; [congruence|]. exists (extra ++ more). rewrite Eb, E, <-app_assoc. reflexivity.
Qed.

(** A buffer that has room for [n] more bytes and a NUL *)
Lemma room s t n : rep s t -> 0 <= n -> size t + n < allocated s ->
  exists here there, buf s = t ++ here ++ there /\ size here = n /\ there <> [].
Proof.
  intros (L & extra & E) Hn Ha. unfold allocated in Ha. rewrite E in *. size_tac.
  exists (take (Z.to_nat n) (0 :: extra)), (drop (Z.to_nat n) (0 :: extra)).
  rewrite take_drop. split; [reflexivity|]. split.
  - unfold size in *. rewrite length_take. cbn [length]. lia.
  - intros D. apply (f_equal length) in D. rewrite length_drop in D. cbn [length] in D. unfold size in *. lia.
Qed.

Lemma append_rep r str s t : rep s t -> size t + size str <= r -> 
  exists s', append garbage r str s = Ret s' /\ rep s' (t ++ str).
Proof.
  intros R Hr. unfold append. pose proof (size_nonneg t). pose proof (size_nonneg str).
  destruct (check_char_rep r s t ltac:(lia) R) as (R' & Ha & _).
  set (s1 := check_char garbage r s) in *.
  destruct (room s1 t (size str) R' ltac:(lia) ltac:(lia)) as (here & there & E & Lh & N).
  destruct R' as [L _]. rewrite E, (mem_write_at _ _ _ _ _ L (eq_sym Lh)). cbn.
  destruct there as [|x there]; [contradiction|].
  destruct (set_len_rep (t ++ str ++ x :: there) (t ++ str) x there (len s1 + size str)) as (s' & Es & Rs & _).
  - rewrite <-app_assoc. reflexivity.
  - size_tac.
  - exists s'. split; assumption.
Qed.

Lemma concat_mem_rep str s t : rep s t -> exists s', concat_mem garbage str s = Ret s' /\ rep s' (t ++ str).
Proof. intros R. apply append_rep; [exact R|]. destruct R as [-> _]. lia. Qed.

Lemma concat_string_rep str s t : rep s t -> exists s', concat_string garbage str s = Ret s' /\ rep s' (t ++ str).
Proof.
  intros R. unfold concat_string. destruct (Z.eqb_spec (size str) 0) as [E|E].
  - apply size_nil_iff in E as ->. rewrite app_nil_r. eauto.
  - apply append_rep; [exact R|]. destruct R as [-> _]. unfold STR_CLASS_EXTRA. lia.
Qed.
Lemma concat_char_rep c s t : rep s t -> exists s', concat_char garbage c s = Ret s' /\ rep s' (t ++ [c]).
Proof.
  intros R. pose proof (rep_allocated s t R) as A. pose proof (size_nonneg t). unfold concat_char.
  destruct (Z.eqb_spec (allocated s) 0); [lia|]. destruct R as (L & extra & E).
  rewrite E, L. change (0 :: extra) with ([0] ++ extra). rewrite mem_write_at by reflexivity. cbn [mbind outcome_bind].
  set (s0 := mkStr _ _). assert (0 <= size t + 1) as Hp by lia.
  destruct (check_char_spec (size t + 1) s0 Hp) as (more & Eb & El & Ha).
  set (s1 := check_char garbage (size t + 1) s0) in *. rewrite El. cbn [len s0].
  unfold allocated in Ha. rewrite Eb in *. subst s0. cbn [buf len] in *.
  destruct (extra ++ more) as [|x rest] eqn:Er.
  { apply app_eq_nil in Er as [-> ->]. size_tac. }
  destruct (set_len_rep ((t ++ [c] ++ extra) ++ more) (t ++ [c]) x rest (size t + 1)) as (s' & Es & Rs & _).
  - rewrite <-!app_assoc, Er. reflexivity.
  - size_tac.
  - exists s'. split; assumption.
Qed.

Lemma concat_cstr_loop_rep str : forall s t, len s = size t ->
  (exists extra, buf s = t ++ extra) ->
  exists s', concat_cstr_loop garbage str s = Ret s' /\ rep s' (t ++ str).
Proof.
  induction str as [|c str IH]; intros s t L (extra & E); cbn [concat_cstr_loop].
  all: pose proof (size_nonneg t); destruct (check_char_spec (len s) s ltac:(lia)) as (more & Eb & El & Ha);
    set (s1 := check_char garbage (len s) s) in *; unfold allocated in Ha; rewrite Eb, E in *;
    destruct (extra ++ more) as [|x rest] eqn:Er;
      [apply app_eq_nil in Er as [-> ->]; rewrite !app_nil_r in Ha; lia|].
  - destruct (set_len_rep ((t ++ extra) ++ more) t x rest (len s1)) as (s' & Es & Rs & _);
      [rewrite <-app_assoc, Er; reflexivity|congruence|]. rewrite app_nil_r. eauto.
  - rewrite <-app_assoc, Er. change (x :: rest) with ([x] ++ rest).
    rewrite mem_write_at by (congruence || reflexivity). cbn [mbind outcome_bind].
    destruct (IH (mkStr (t ++ [c] ++ rest) (len s1 + 1)) (t ++ [c])) as (s' & Es & Rs).
    + cbn [len]. size_tac.
    + exists rest. cbn [buf]. rewrite <-app_assoc. reflexivity.
    + exists s'. split; [exact Es|]. rewrite <-app_assoc in Rs. exact Rs.
Qed.

Lemma concat_cstr_rep str s t : rep s t -> exists s', concat_cstr garbage str s = Ret s' /\ rep s' (t ++ cstr str).
Proof.
  intros (L & extra & E). apply concat_cstr_loop_rep; [exact L|]. exists (0 :: extra). exact E.
Qed.

(** Cutting the text off *)
Lemma cut_rep s t a c : rep s t -> t = a ++ c -> exists s', set_len (buf s) (size a) = Ret s' /\ rep s' a.
Proof.
  intros (L & extra & E) ->. rewrite E. destruct (c ++ 0 :: extra) as [|x rest] eqn:Er.
  { apply app_eq_nil in Er as [_ Er]. discriminate. }
  destruct (set_len_rep ((a ++ c) ++ 0 :: extra) a x rest (size a)) as (s' & Es & Rs & _);
    [rewrite <-app_assoc, Er; reflexivity|reflexivity|]. eauto.
Qed.

Lemma terminate_rep s t a c : rep s t -> t = a ++ c -> exists s', terminate garbage (size a) s = Ret s' /\ rep s' a.
Proof.
  intros R E. unfold terminate. destruct (Z.ltb_spec (len s) (size a)) as [H|H]; [|exact (cut_rep s t a c R E)].
  destruct R as [L _]. rewrite L, E in H. size_tac.
Qed.

Lemma new_string_rep : exists s, new_string garbage = Ret s /\ rep s [].
Proof.
  unfold new_string, malloc. cbn [seq map]. change (Z.to_nat STR_CLASS_BLOCK) with 64%nat. cbn [seq map].
  eexists. split; [reflexivity|]. split; [reflexivity|]. eexists. reflexivity.
Qed.

(** *** Replacing a part of the text *)

(** The sizes that occur have no more than 62 bits. *)
Definition fits (z : Z) : Prop := 0 <= z < 2 ^ 62.

Lemma clip_bytes a m c num : fits (size (a ++ m ++ c)) -> fits num ->
  (num = size m \/ c = [] /\ size m <= num) ->
  clip (size (a ++ m ++ c)) (size a) num = (size (a ++ m), size m).
Proof.
  unfold fits, clip. intros Hs Hn H. size_tac.
  rewrite usz_small by lia.
  destruct (Z.ltb_spec (size a + (size m + size c) - size a) num).
  - destruct H as [->|[-> _]]; [lia|]. f_equal; rewrite ?size_nil; lia.
  - destruct H as [->|[-> Hm]].
    + rewrite usz_small by lia. reflexivity.
    + rewrite size_nil in *. assert (num = size m) as -> by lia. rewrite usz_small by lia. reflexivity.
Qed.

Lemma extract_bytes_rep s a m c extract n : rep s (a ++ m ++ c) -> n = size m ->
  extract_bytes (buf s) extract (size a) n = Ret (if extract then m else []).
Proof.
  intros (_ & extra & E) ->. unfold extract_bytes. destruct extract; [|reflexivity]. cbn [andb].
  destruct (Z.eqb_spec (size m) 0) as [H|H]; cbn [negb].
  - apply size_nil_iff in H as ->. reflexivity.
  - rewrite E, <-!app_assoc. apply mem_read_at; reflexivity.
Qed.

Lemma splice_del_rep s a m c : rep s (a ++ m ++ c) -> fits (allocated s) ->
  exists s', (b ← (if size (a ++ m) =? len s then Ret (buf s)
                   else memmove (buf s) (size a) (size (a ++ m)) (usz (len s - size (a ++ m))));
              set_len b (usz (len s - size m))) = Ret s' /\ rep s' (a ++ c).
Proof.
  intros R Hf. pose proof (rep_allocated _ _ R) as A. destruct R as (L & extra & E). rewrite L. unfold fits in Hf.
  assert (usz (size (a ++ m ++ c) - size m) = size (a ++ c)) as -> by (rewrite usz_small; size_tac).
  destruct (Z.eqb_spec (size (a ++ m)) (size (a ++ m ++ c))) as [H|H].
  - assert (c = []) as -> by (apply size_nil_iff; size_tac). rewrite !app_nil_r in *. cbn [mbind outcome_bind].
    apply (cut_rep s (a ++ m) a m); [split; eauto|reflexivity].
  - rewrite usz_small by size_tac. unfold memmove. rewrite E.
    assert ((a ++ m ++ c) ++ 0 :: extra = (a ++ m) ++ c ++ 0 :: extra) as E1 by (rewrite <-!app_assoc; reflexivity).
    rewrite E1, mem_read_at by size_tac. cbn [mbind outcome_bind].
    assert (exists m' c', m ++ c = m' ++ c' /\ size m' = size c) as (m' & c' & E2 & L2).
    { exists (take (length c) (m ++ c)), (drop (length c) (m ++ c)). rewrite take_drop. split; [reflexivity|].
      unfold size. rewrite length_take, length_app. lia. }
    assert ((a ++ m) ++ c ++ 0 :: extra = a ++ m' ++ c' ++ 0 :: extra) as ->.
    { rewrite <-app_assoc. f_equal. rewrite !app_assoc, E2. reflexivity. }
    rewrite mem_write_at by (reflexivity || lia). cbn [mbind outcome_bind].
    destruct (c' ++ 0 :: extra) as [|x rest] eqn:Er; [apply app_eq_nil in Er as [_ Er]; discriminate|].
    destruct (set_len_rep (a ++ c ++ x :: rest) (a ++ c) x rest (size (a ++ c))) as (s' & Es & Rs & _);
      [rewrite <-app_assoc; reflexivity|reflexivity|]. eauto.
Qed.

(** The memory that a smaller string needs behind the text while its bytes are
    moved: the bytes are not counted from the end of the part that is moved. *)
Definition overreads (t_size num str_size alloc : Z) : Prop :=
  str_size < num /\ alloc < t_size + (num - str_size).

#[export] Instance overreads_dec t n m a : Decision (overreads t n m a).
Proof. unfold overreads. apply _. Defined.

(** Writing behind the start [a] of a block *)
Lemma mem_write_behind a b i xs : size a <= i -> i + size xs <= size (a ++ b) ->
  exists p r, mem_write (a ++ b) i xs = Ret (a ++ p ++ xs ++ r) /\ size p = i - size a /\
              size r = size (a ++ b) - i - size xs.
Proof.
  intros H1 H2. size_tac. set (k := Z.to_nat (i - size a)).
  assert (Z.of_nat k = i - size a) as Hk by lia. clearbody k.
  exists (take k b), (drop (length xs) (drop k b)).
  assert (size (take k b) = i - size a) as Lp by (unfold size in *; rewrite length_take; lia).
  assert (size (take (length xs) (drop k b)) = size xs) as Lq
    by (unfold size in *; rewrite length_take, length_drop; lia).
  assert (a ++ b = (a ++ take k b) ++ take (length xs) (drop k b) ++ drop (length xs) (drop k b)) as ->
    by (rewrite <-app_assoc, !take_drop; reflexivity).
  rewrite mem_write_at by size_tac. rewrite <-app_assoc.
  split; [reflexivity|]. split; [exact Lp|]. unfold size in *. rewrite !length_drop. lia.
Qed.

(** What [replace_bytes] does behind the move of the rest: [str] is written
    and the length is set. *)
Lemma write_and_cut a p c str r x : size p = size str ->
  exists s', (b ← mem_write (a ++ p ++ c ++ x :: r) (size a) str; set_len b (size (a ++ str ++ c))) = Ret s' /\
             rep s' (a ++ str ++ c).
Proof.
  intros L. rewrite mem_write_at by congruence. cbn [mbind outcome_bind].
  destruct (set_len_rep (a ++ str ++ c ++ x :: r) (a ++ str ++ c) x r (size (a ++ str ++ c))) as (s' & Es & Rs & _);
    [rewrite <-!app_assoc; reflexivity|reflexivity|]. eauto.
Qed.

(** A list with [n] bytes or more, or with more than [n] bytes *)
Lemma split_size l n : 0 <= n <= size l -> exists p r, l = p ++ r /\ size p = n.
Proof.
  intros H. exists (take (Z.to_nat n) l), (drop (Z.to_nat n) l). rewrite take_drop. split; [reflexivity|].
  unfold size in *. rewrite length_take. lia.
Qed.

Lemma split_room l n : 0 <= n < size l -> exists p x r, l = p ++ x :: r /\ size p = n.
Proof.
  intros H. destruct (split_size l n) as (p & [|x r] & -> & L); [lia| |eauto].
  rewrite app_nil_r in H. lia.
Qed.

(** Making room for [str] behind [a]: the bytes [c] are moved up over the
    bytes [m], when there are any. *)
Lemma move_up s a m c str : rep s (a ++ m ++ c) -> size m <= size str ->
  size (a ++ str ++ c) < allocated s ->
  exists s', (b ← (if size (a ++ m) =? size (a ++ m ++ c) then Ret (buf s)
                   else memmove (buf s) (size a + size str) (size a + size m) (size c));
              b ← mem_write b (size a) str;
              set_len b (size (a ++ str ++ c))) = Ret s' /\ rep s' (a ++ str ++ c).
Proof.
  intros (L & extra & E) Hm Hroom. unfold allocated in Hroom. rewrite E in *.
  destruct (Z.eqb_spec (size (a ++ m)) (size (a ++ m ++ c))) as [Hc|Hc].
  - assert (c = []) as -> by (apply size_nil_iff; size_tac). cbn [mbind outcome_bind].
    rewrite !app_nil_r in *. rewrite <-app_assoc in Hroom |- *.
    destruct (split_room (m ++ 0 :: extra) (size str)) as (p & x & r & -> & Lp); [size_tac|].
    destruct (write_and_cut a p [] str r x Lp) as (s2 & E2 & R2). rewrite app_nil_r in *. eauto.
  - unfold memmove.
    assert ((a ++ m ++ c) ++ 0 :: extra = (a ++ m) ++ c ++ 0 :: extra) as -> by (rewrite <-!app_assoc; reflexivity).
    rewrite mem_read_at by size_tac. cbn [mbind outcome_bind].
    destruct (mem_write_behind a (m ++ c ++ 0 :: extra) (size a + size str) c) as (p & r & Ew & Lp & Lr);
      [size_tac..|].
    rewrite app_assoc in Ew. rewrite Ew. cbn [mbind outcome_bind].
    destruct r as [|x r]; [size_tac|]. apply write_and_cut. lia.
Qed.

(** Moving the bytes behind the part down, with [k] more bytes than needed *)
Lemma move_down s a m c str : rep s (a ++ m ++ c) -> size str < size m ->
  size (a ++ m ++ c) + (size m - size str) <= allocated s ->
  exists s', (b ← memmove (buf s) (size a + size str) (size a + size m) (size (a ++ m ++ c) - size a - size str);
              b ← mem_write b (size a) str;
              set_len b (size (a ++ str ++ c))) = Ret s' /\ rep s' (a ++ str ++ c).
Proof.
  intros (L & extra & E) Hm Hroom. unfold memmove, allocated in *. rewrite E in *.
  destruct (split_size (0 :: extra) (size m - size str)) as (z & v & Ez & Lz); [size_tac|].
  assert ((a ++ m ++ c) ++ 0 :: extra = (a ++ m) ++ (c ++ z) ++ v) as -> by (rewrite Ez, <-!app_assoc; reflexivity).
  rewrite mem_read_at by size_tac. cbn [mbind outcome_bind]. rewrite <-app_assoc.
  destruct (mem_write_behind a (m ++ (c ++ z) ++ v) (size a + size str) (c ++ z)) as (p & r & Ew & Lp & Lr);
    [size_tac..|].
  rewrite Ew. cbn [mbind outcome_bind].
  destruct z as [|x w]; [size_tac|]. rewrite <-!app_assoc. cbn [app]. apply write_and_cut. lia.
Qed.

Lemma replace_bytes_rep s a m c str dst src : rep s (a ++ m ++ c) -> fits (allocated s) -> fits (size str) ->
  dst = size a + size str -> src = size a + size m ->
  if decide (overreads (size (a ++ m ++ c)) (size m) (size str) (allocated s))
  then replace_bytes garbage dst src (size a) (size (a ++ m)) (size m) str s = MemError
  else exists s', replace_bytes garbage dst src (size a) (size (a ++ m)) (size m) str s = Ret s' /\ rep s' (a ++ str ++ c).
Proof.
  intros R Ha Hs -> ->. pose proof (rep_allocated _ _ R) as Hl. pose proof R as (L & extra & E).
  unfold fits, overreads in *. unfold replace_bytes. rewrite L.
  assert (usz (size (a ++ m ++ c) - size m + size str) = size (a ++ str ++ c)) as -> by (rewrite usz_small; size_tac).
  destruct (Z.ltb_spec (size m) (size str)) as [Hm|Hm]; [|destruct (Z.ltb_spec (size str) (size m)) as [Hm'|Hm']].
  - destruct (decide _) as [[? _]|_]; [lia|].
    replace (size (a ++ m ++ c) - size (a ++ m)) with (size c) by size_tac. usz_simpl.
    destruct (check_char_rep (size (a ++ m ++ c) + size str - size m) s _ ltac:(size_tac) R) as (R' & Hi & _).
    apply move_up; [exact R'|lia|size_tac].
  - destruct (decide _) as [[_ O]|N].
    + unfold memmove. rewrite mem_read_beyond; [reflexivity|]. unfold allocated in O. usz_simpl. size_tac.
    + usz_simpl. apply move_down; [exact R|exact Hm'|lia].
  - destruct (decide _) as [[? _]|_]; [lia|]. cbn [mbind outcome_bind]. rewrite E.
    assert (size m = size str) as Hm2 by lia. rewrite <-!app_assoc. apply write_and_cut. exact Hm2.
Qed.
End Reallocation.
