(* ===== verification/StringFind.v ===== *)
(** * Searching, comparing and reading strings

    The functions that leave a string as it is. They get its text; the byte
    behind the text is NUL. Results that are positions are -1 when there is
    none. *)

From S2P Require Import Prelude Encoding StringBuf.

#[local] Open Scope Z_scope.

(** ** Memory functions *)

Fixpoint starts_with (big little : list Z) : bool :=
  match little, big with
  | [], _ => true
  | c :: little, b :: big => (b =? c) && starts_with big little
  | _ :: _, [] => false
  end.

(** [memmem]: the first place of [little] in [big] *)
Fixpoint memmem (big little : list Z) : option nat :=
  if starts_with big little then Some O
  else match big with [] => None | _ :: big => S <$> memmem big little end.

(** [q_memrmem]: the last one. The bytes are compared from the end of
    [little]; [n] is the number of bytes up to where it can end. *)
Fixpoint memrmem_loop (n : nat) (big little : list Z) : option nat :=
  if (length little <=? n)%nat then
    if starts_with (rev (take n big)) (rev little) then Some (n - length little)%nat
    else match n with O => None | S n => memrmem_loop n big little end
  else None.

Definition q_memrmem (big little : list Z) : option nat :=
  if (length big =? 0)%nat || (length big <? length little)%nat then None
  else if (length little =? 0)%nat then Some O
  else memrmem_loop (length big) big little.

Definition position (r : option nat) : Z := match r with Some i => Z.of_nat i | None => -1 end.

(** [memcmp]: the sign of the first difference *)
Fixpoint memcmp (a b : list Z) : Z :=
  match a, b with
  | x :: a, y :: b => if x =? y then memcmp a b else if x <? y then -1 else 1
  | _, _ => 0
  end.

Fixpoint strchr (p : list Z) (c : Z) : option nat :=
  match p with
  | [] => if c =? 0 then Some O else None
  | b :: q => if b =? c then Some O else if b =? 0 then None else S <$> strchr q c
  end.

(** [strstr] on the C string at the start of the text *)
Definition strstr (p str : list Z) : option nat := memmem (cstr p) (cstr str).

(** [strncmp] of at most [n] bytes is 0. *)
Fixpoint strn_equal (n : nat) (a b : list Z) : bool :=
  match n with
  | O => true
  | S n =>
    let x := byte_at a 0 in
    let y := byte_at b 0 in
    (x =? y) && ((x =? 0) || strn_equal n (tl a) (tl b))
  end.

(** ** Positions of bytes *)
Section Bytes.
Context (t : list Z).

Definition find (c pos : Z) : Z :=
  if pos <? 0 then
    let pos := if size t + pos <? 0 then 0 else size t + pos in
    match strchr (drop (Z.to_nat pos) t) c with Some i => pos + Z.of_nat i | None => -1 end
  else if (0 <? pos) && (size t <? pos) then -1
  else match strchr (drop (Z.to_nat pos) t) c with Some i => pos + Z.of_nat i | None => -1 end.

(** The last of the bytes up to [p] for which [f] holds. Reading begins at [p],
    which can be the NUL behind the text. *)
Fixpoint last_at (f : Z -> bool) (p : nat) : Z :=
  if f (byte_at t p) then Z.of_nat p
  else match p with O => -1 | S p => last_at f p end.

Definition last_up_to (f : Z -> bool) (pos : Z) : Z :=
  if pos <? 0 then
    if size t + pos <? 0 then -1 else last_at f (Z.to_nat (size t + pos))
  else
    let pos := if (0 <? pos) && (size t <? pos) then size t - 1 else pos in
    if pos <? 0 then -1 else last_at f (Z.to_nat pos).

Definition rfind (c pos : Z) : Z := last_up_to (λ b, b =? c) pos.
Definition rfindAny (str : list Z) (pos : Z) : Z := last_up_to (λ b, existsb (Z.eqb b) (cstr str)) pos.

(** [findAny], which looks for the whole string *)
Definition findAny (str : list Z) (pos : Z) : Z :=
  if pos <? 0 then
    let pos := if size t + pos <? 0 then 0 else size t + pos in
    match strstr (drop (Z.to_nat pos) t) str with Some i => pos + Z.of_nat i | None => -1 end
  else if (0 <? pos) && (size t <? pos) then -1
  else match strstr (drop (Z.to_nat pos) t) str with Some i => pos + Z.of_nat i | None => -1 end.
End Bytes.

(** ** Positions of strings *)

Definition index_simple (haystack needle : list Z) (pos : Z) : Z :=
  match memmem (drop (Z.to_nat pos) haystack) needle with
  | Some i => Z.of_nat i + pos
  | None => -1
  end.

Definition rindex_simple (haystack needle : list Z) (pos : Z) : Z :=
  if pos <? 0 then
    let pos := size haystack + pos in
    if pos <? 0 then -1 else position (q_memrmem (take (Z.to_nat (pos + 1)) haystack) needle)
  else
    let pos := if size haystack <=? pos then size haystack - 1 else pos in
    position (q_memrmem (take (Z.to_nat (pos + 1)) haystack) needle).

(** [bindex] of a C string, with its size, or 0 to have it counted *)
Definition bindex_c (t needle : list Z) (pos nsize : Z) : Z :=
  let needle := if nsize =? 0 then cstr needle else needle in
  if pos <? 0 then index_simple t needle (if size t + pos <? 0 then 0 else size t + pos)
  else if size t <=? pos then -1
  else index_simple t needle pos.

(** [bindex] of a string: the sum is one of sizes without a sign. *)
Definition bindex (t needle : list Z) (pos : Z) : Z :=
  if size t <? usz (size needle + pos) then -1 else bindex_c t needle pos (size needle).

Definition brindex (t needle : list Z) (pos : Z) : Z :=
  let pos := if pos <? 0 then size t + pos else pos in
  let pos := if size t <=? pos then size t - 1 else pos in
  if pos <? 0 then
    if (pos =? -1) && (size t =? 0) && (size needle =? 0) then 0 else -1
  else if size t <? size needle + (size t - pos) then -1
  else rindex_simple t needle pos.

Section Characters.
Context (e : QoreEncoding).

(** [findByteOffset] *)
Definition findByteOffset (t : list Z) (pos : Z) : outcome Z :=
  if pos =? 0 then Ret 0
  else
    pos ← (if pos <? 0 then
             clen ← enc_result (getLength_x e t); Ret (clen + pos)
           else Ret pos);
    enc_result (getByteLen_x e t (usz pos)).

Definition index (t needle : list Z) (pos : Z) : outcome Z :=
  if negb (isMultiByte e) then
    Ret (if pos <? 0 then index_simple t needle (if size t + pos <? 0 then 0 else size t + pos)
         else if size t <=? pos then -1 else index_simple t needle pos)
  else
    pos ← findByteOffset t pos;
    if size t <=? pos then Ret (-1)
    else
      let ind := index_simple (drop (Z.to_nat pos) t) needle 0 in
      if negb (ind =? -1) then enc_result (getCharPos_x e (take (Z.to_nat (pos + ind)) t)) else Ret ind.

Definition rindex (t needle : list Z) (pos : Z) : outcome Z :=
  if negb (isMultiByte e) then
    if pos <? 0 then
      if size t + pos <? 0 then Ret (-1) else Ret (rindex_simple t needle (size t + pos))
    else Ret (rindex_simple t needle pos)
  else
    pos ← findByteOffset t pos;
    let ind := rindex_simple t needle pos in
    if negb (ind =? 0) && negb (ind =? -1)
    then enc_result (getCharPos_x e (take (Z.to_nat ind) t)) else Ret ind.

Definition getByteOffset (t : list Z) (i : Z) : outcome Z :=
  rc ← (if i =? 0 then Ret 0 else enc_result (getByteLen_x e t i));
  Ret (if size t <? rc then -1 else rc).

(** [QoreString::length] *)
Definition length_chars (t : list Z) : Z :=
  if isMultiByte e then (getLength e t).1 else size t.

(** ** Parts of a string *)

Definition substr_simple_off (t : list Z) (offset : Z) : option (list Z) :=
  let n_offset := usz (if offset <? 0 then size t + offset else offset) in
  if size t <=? n_offset then None else Some (drop (Z.to_nat n_offset) t).

Definition substr_simple (t : list Z) (offset num : Z) : option (list Z) :=
  let n_offset := usz (if offset <? 0 then size t + offset else offset) in
  if size t <=? n_offset then None
  else
    let rest := size t - n_offset in
    let n_length := if num <? 0 then (if rest + num <? 0 then 0 else rest + num)
                    else if rest <? num then rest else num in
    Some (take (Z.to_nat n_length) (drop (Z.to_nat n_offset) t)).

(** The offset in characters; in the variant with a length, the number of
    characters is an int. *)
Definition complex_offset (wrap : Z -> Z) (t : list Z) (offset : Z) : outcome (option Z) :=
  if offset <? 0 then
    clen ← enc_result (getLength_x e t);
    let clen := wrap clen in
    let offset := clen + offset in
    Ret (if (offset <? 0) || (clen <=? offset) then None else Some offset)
  else Ret (Some offset).

Definition substr_complex_off (t : list Z) (offset : Z) : outcome (option (list Z)) :=
  o ← complex_offset (λ z, z) t offset;
  match o with
  | None => Ret None
  | Some offset =>
    start ← enc_result (getByteLen_x e t offset);
    Ret (if start =? size t then None else Some (drop (Z.to_nat start) t))
  end.

Definition substr_complex (t : list Z) (offset num : Z) : outcome (option (list Z)) :=
  o ← complex_offset i32 t offset;
  match o with
  | None => Ret None
  | Some offset =>
    start ← enc_result (getByteLen_x e t offset);
    if start =? size t then Ret None
    else
      let rest := drop (Z.to_nat start) t in
      num ← (if num <? 0 then
               l ← enc_result (getLength_x e rest);
               Ret (if l + num <? 0 then 0 else l + num)
             else Ret num);
      end_ ← enc_result (getByteLen_x e rest num);
      Ret (Some (take (Z.to_nat end_) rest))
  end.

(** [QoreString::substr] *)
Definition substr_off (t : list Z) (offset : Z) : outcome (option (list Z)) :=
  if negb (isMultiByte e) then Ret (substr_simple_off t offset) else substr_complex_off t offset.

Definition substr (t : list Z) (offset num : Z) : outcome (option (list Z)) :=
  if negb (isMultiByte e) then Ret (substr_simple t offset num) else substr_complex t offset num.

(** [concat_reverse]: the characters are copied by [strncpy] to the place
    before the one for the last character. *)
Definition strncpy (p : list Z) (n : nat) : list Z :=
  let c := take n (cstr p) in c ++ replicate (n - length c) 0.

Fixpoint reverse_loop (fuel : nat) (p targ : list Z) (room : Z) : outcome (list Z) :=
  match fuel with
  | O => NoFuel
  | S fuel =>
    match p with
    | [] => Ret targ
    | _ =>
      let '(bl, invalid) := getByteLen e p 1 in
      let bl := if invalid : bool then 1 else bl in
      let room := room - bl in
      if room <? 0 then Ret targ
      else reverse_loop fuel (drop (Z.to_nat bl) p) (strncpy p (Z.to_nat bl) ++ targ) room
    end
  end.

(** The new text; bytes that are not written are unspecified. *)
Definition concat_reverse (garbage : nat -> Z) (t : list Z) : outcome (list Z) :=
  if isMultiByte e then
    r ← reverse_loop (S (length t)) t [] (size t);
    Ret (map garbage (seq 0 (length t - length r)) ++ r)
  else Ret (rev t).
End Characters.

(** ** Comparisons *)
Section Compare.
(** The encodings are compared by their addresses. *)
Context (same_encoding : bool) (a b : list Z).

Definition compare : Z :=
  if size a =? 0 then (if size b =? 0 then 0 else 1)
  else if negb same_encoding then 1
  else
    let n := Nat.min (length a) (length b) in
    let rc := memcmp (take n a) (take n b) in
    if rc =? 0 then (if size a <? size b then -1 else if size b <? size a then 1 else 0)
    else if rc <? 0 then -1 else 1.

Definition equal : bool :=
  if negb (size a =? size b) then false
  else if size a =? 0 then true
  else if negb same_encoding then false
  else memcmp a b =? 0.

Definition equalPartial : bool :=
  if size a =? 0 then size b =? 0
  else if size b =? 0 then false
  else if negb same_encoding then false
  else if size a <? size b then false
  else memcmp (take (length b) a) b =? 0.
End Compare.

(** [compareSoft] of a string with one that is converted to its encoding *)
Definition compareSoft (a b : list Z) : Z :=
  if size a =? 0 then (if size b =? 0 then 0 else 1)
  else
    let n := Nat.min (length a) (length b) in
    let rc := memcmp (take n a) (take n b) in
    if rc <? 0 then -1 else if rc =? 0 then 0 else 1.

Definition startsWith (t str : list Z) : bool := strn_equal (length str) str t.
Definition endsWith (t str : list Z) : bool :=
  if size t <? size str then false else strn_equal (length str) str (drop (length t - length str) t).

Definition isDataAscii (t : list Z) : bool := forallb (λ b, negb (127 <? b)) t.
Definition isDataPrintableAscii (t : list Z) : bool :=
  forallb (λ b, negb ((schar b <? 32) || (126 <? schar b))) t.
