(* ===== verification/StringOps.v ===== *)
(** * The operations on strings

    The methods of [QoreString] that change a string: splices and extracts,
    replacing, inserting, trimming. They choose between bytes and characters
    by the encoding. A string that is converted to the encoding first is an
    argument in that encoding already. *)

From S2P Require Import Prelude Encoding StringBuf StringFind.

#[local] Open Scope Z_scope.

Section Methods.
Context (garbage : nat -> Z) (e : QoreEncoding).

(** ** Splices and extracts *)

Definition splice_off (extract : bool) (offset : Z) (s : qore_string) : outcome (list Z * qore_string) :=
  if negb (isMultiByte e) then
    let n_offset := check_offset offset (len s) in
    if n_offset =? len s then Ret ([], s)
    else splice_simple_del n_offset (len s - n_offset) extract s
  else splice_complex_off e offset extract s.

Definition splice_del (extract : bool) (offset num : Z) (s : qore_string) : outcome (list Z * qore_string) :=
  if negb (isMultiByte e) then
    let '(n_offset, n_num) := check_offset_num offset num (len s) in
    if (n_offset =? len s) || (n_num =? 0) then Ret ([], s)
    else splice_simple_del n_offset n_num extract s
  else splice_complex_del e offset num extract s.

Definition splice_ins (extract : bool) (offset num : Z) (str : list Z) (s : qore_string)
    : outcome (list Z * qore_string) :=
  if isMultiByte e then splice_complex_ins garbage e offset num str extract s
  else
    let '(n_offset, n_num) := check_offset_num offset num (len s) in
    if (n_offset =? len s) && (size str =? 0) then Ret ([], s)
    else
      let n_num := if n_offset =? len s then 0 else n_num in
      splice_simple_ins garbage n_offset n_num str extract s.

(** [QoreString::splice] and [QoreString::extract] with a value *)
Definition splice_value (extract : bool) (offset num : Z) (str : list Z) (s : qore_string)
    : outcome (list Z * qore_string) :=
  if size str =? 0 then splice_del extract offset num s else splice_ins extract offset num str s.

Definition only_string (r : outcome (list Z * qore_string)) : outcome qore_string :=
  '(_, s) ← r; Ret s.

(** ** Replacing *)

Definition replace (offset dlen : Z) (str : list Z) (s : qore_string) : outcome qore_string :=
  let str := cstr str in
  only_string
    (if size str =? 0 then splice_simple_del offset dlen false s
     else splice_simple_ins garbage offset dlen str false s).

Definition replaceChar (offset c : Z) (s : qore_string) : outcome qore_string :=
  if len s <=? offset then Ret s
  else b ← mem_write (buf s) offset [c]; Ret (mkStr b (len s)).

Fixpoint replaceAll_loop (fuel : nat) (old_str new_str : list Z) (start : Z) (s : qore_string)
    : outcome qore_string :=
  match fuel with
  | O => NoFuel
  | S fuel =>
    let i := bindex_c (text s) old_str start 0 in
    if i <? 0 then Ret s
    else
      s ← replace i (i32 (size (cstr old_str))) new_str s;
      replaceAll_loop fuel old_str new_str (i + i32 (size (cstr new_str))) s
  end.

(** [replaceAll], with fuel for each byte of the string *)
Definition replaceAll (old_str new_str : list Z) (s : qore_string) : outcome qore_string :=
  replaceAll_loop (S (Z.to_nat (len s))) old_str new_str 0 s.

(** ** Inserting *)

Definition addch (c times : Z) (s : qore_string) : outcome qore_string :=
  append garbage (len s + times) (replicate (Z.to_nat times) c) s.

(** The bytes behind [pos] are moved to make room for [str]. *)
Definition insert_bytes (pos : Z) (str : list Z) (s : qore_string) : outcome qore_string :=
  let s := check_char garbage (len s + size str) s in
  b ← (if pos <? len s then memmove (buf s) (pos + size str) pos (len s - pos) else Ret (buf s));
  b ← mem_write b pos str;
  set_len b (len s + size str).

(** The result is false when nothing is inserted. *)
Definition insertch (c pos times : Z) (s : qore_string) : outcome (bool * qore_string) :=
  if (len s <? pos) || (times =? 0) then Ret (false, s)
  else s ← insert_bytes pos (replicate (Z.to_nat times) c) s; Ret (true, s).

Definition insert (str : list Z) (pos : Z) (s : qore_string) : outcome (bool * qore_string) :=
  if len s <? pos then Ret (false, s)
  else s ← insert_bytes pos (cstr str) s; Ret (true, s).

Definition prepend (str : list Z) (s : qore_string) : outcome qore_string :=
  let s := check_char garbage (len s + size str + 1) s in
  b ← memmove (buf s) (size str) 0 (len s + 1);
  b ← mem_write b 0 str;
  Ret (mkStr b (len s + size str)).

(** ** Adding a part of another string *)

Definition concat_intern (p : list Z) (s : qore_string) : outcome qore_string :=
  if size p =? 0 then AssertFailed else append garbage (len s + size p) p s.

Definition concat_simple (str : list Z) (pos : Z) (s : qore_string) : outcome qore_string :=
  if pos <? 0 then
    concat_intern (drop (Z.to_nat (if size str + pos <? 0 then 0 else size str + pos)) str) s
  else if size str <=? pos then Ret s
  else concat_intern (drop (Z.to_nat pos) str) s.

(** [concat] of the characters from [pos] *)
Definition concat_from (str : list Z) (pos : Z) (s : qore_string) : outcome qore_string :=
  if size str =? 0 then Ret s
  else if negb (isMultiByte e) then concat_simple str pos s
  else
    pos ← findByteOffset e str pos;
    if size str <? pos then Ret s else concat_intern (drop (Z.to_nat pos) str) s.

(** [concat] of [plen] characters from [pos]; the number is not used when a
    character has one byte. *)
Definition concat_part (str : list Z) (pos plen : Z) (s : qore_string) : outcome qore_string :=
  if (size str =? 0) || (plen =? 0) then Ret s
  else if negb (isMultiByte e) then concat_simple str pos s
  else
    pos ← findByteOffset e str pos;
    if size str <? pos then Ret s
    else
      plen ← findByteOffset e (drop (Z.to_nat pos) str) plen;
      if plen <=? 0 then Ret s
      else
        part ← mem_read (str ++ [0]) pos (if size str <? plen then size str else plen);
        concat_intern part s.

(** ** Taking off *)

Definition clear (s : qore_string) : outcome qore_string :=
  if negb (allocated s =? 0) then set_len (buf s) 0 else Ret s.

(** [chomp]: the number of bytes that are taken off *)
Definition ends_with_byte (c : Z) (s : qore_string) : outcome bool :=
  if negb (len s =? 0) then
    x ← mem_read (buf s) (len s - 1) 1; Ret (bool_decide (x = [c]))
  else Ret false.

Definition chomp (s : qore_string) : outcome (Z * qore_string) :=
  nl ← ends_with_byte 10 s;
  if nl : bool then
    s ← terminate garbage (len s - 1) s;
    cr ← ends_with_byte 13 s;
    if cr : bool then s ← terminate garbage (len s - 1) s; Ret (2, s) else Ret (1, s)
  else Ret (0, s).

(** The number of bytes at the start and at the end for which [f] holds *)
Fixpoint count_while (f : Z -> bool) (p : list Z) : nat :=
  match p with
  | [] => O
  | c :: q => if f c then S (count_while f q) else O
  end.

Definition trim_trailing (f : Z -> bool) (s : qore_string) : outcome qore_string :=
  if len s =? 0 then Ret s
  else terminate garbage (len s - Z.of_nat (count_while f (rev (text s)))) s.

Definition trim_leading (f : Z -> bool) (s : qore_string) : outcome qore_string :=
  if len s =? 0 then Ret s
  else
    let i := Z.of_nat (count_while f (text s)) in
    if i =? 0 then Ret s
    else b ← memmove (buf s) 0 i (len s + 1 - i); Ret (mkStr b (len s - i)).

(** [trim] of a character and of a set of characters *)
Definition trim (f : Z -> bool) (s : qore_string) : outcome qore_string :=
  s ← trim_trailing f s; trim_leading f s.

Definition trim_single_trailing (c : Z) (s : qore_string) : outcome qore_string :=
  y ← ends_with_byte c s; if y : bool then terminate garbage (len s - 1) s else Ret s.

Definition trim_single_leading (c : Z) (s : qore_string) : outcome qore_string :=
  if negb (len s =? 0) && (byte_at (buf s) 0 =? c)
  then b ← memmove (buf s) 0 1 (len s); Ret (mkStr b (len s - 1)) else Ret s.

Definition default_whitespace : list Z := [32; 9; 10; 13; 11].

(** The set of [trim_leading] and [trim_trailing]: [None] for the default;
    [strchr] also finds NUL. *)
Definition in_chars (chars : option (list Z)) (c : Z) : bool :=
  match chars with
  | None => existsb (Z.eqb c) default_whitespace
  | Some l => match strchr l c with Some _ => true | None => false end
  end.

(** ** Trimming characters

    [trimLeading] and [trimTrailing] compare code points. *)
Context (to_utf8 : QoreEncoding -> Z -> list Z).

Definition in_vector (c : Z) (cvec : list Z) : bool := existsb (Z.eqb (i32 c)) cvec.

(** [getUnicodeCharArray] of a string with its own encoding *)
Fixpoint unicode_chars (enc : QoreEncoding) (fuel : nat) (p : list Z) : outcome (list Z) :=
  match fuel with
  | O => NoFuel
  | S fuel =>
    match p with
    | [] => Ret []
    | _ =>
      r ← enc_result (getUnicode enc to_utf8 p);
      let '(c, clen) := r in
      l ← unicode_chars enc fuel (drop (Z.to_nat clen) p);
      Ret (i32 c :: l)
    end
  end.

Definition char_set (chars : option (QoreEncoding * list Z)) : outcome (list Z) :=
  match chars with
  | None => Ret default_whitespace
  | Some (enc, t) => unicode_chars enc (S (length t)) t
  end.

(** The number of bytes of the characters that are taken off the start *)
Fixpoint leading_bytes (fuel : nat) (cvec p : list Z) : outcome Z :=
  match fuel with
  | O => NoFuel
  | S fuel =>
    match p with
    | [] => Ret 0
    | _ =>
      r ← enc_result (getUnicode e to_utf8 p);
      let '(c, clen) := r in
      if negb (c =? 0) && negb (in_vector c cvec) then Ret 0
      else n ← leading_bytes fuel cvec (drop (Z.to_nat clen) p); Ret (clen + n)
    end
  end.

Definition trimLeading (chars : option (QoreEncoding * list Z)) (s : qore_string) : outcome qore_string :=
  if len s =? 0 then Ret s
  else
    cvec ← char_set chars;
    i ← leading_bytes (S (length (text s))) cvec (text s);
    b ← memmove (buf s) 0 i (len s + 1 - i);
    Ret (mkStr b (len s - i)).

Fixpoint trimTrailing_loop (i : nat) (cvec : list Z) (s : qore_string) : outcome qore_string :=
  match i with
  | O => Ret s
  | S i =>
    bpos ← enc_result (getByteLen_x e (text s) (Z.of_nat i));
    r ← enc_result (getUnicode e to_utf8 (drop (Z.to_nat bpos) (text s)));
    let '(c, _) := r in
    if negb (c =? 0) && negb (in_vector c cvec) then Ret s
    else s ← terminate garbage bpos s; trimTrailing_loop i cvec s
  end.

Definition trimTrailing (chars : option (QoreEncoding * list Z)) (s : qore_string) : outcome qore_string :=
  if len s =? 0 then Ret s
  else
    cvec ← char_set chars;
    i ← enc_result (getLength_x e (text s));
    if i =? 0 then AssertFailed else trimTrailing_loop (Z.to_nat i) cvec s.

(** [QoreString::trim] of characters *)
Definition trim_chars (chars : option (QoreEncoding * list Z)) (s : qore_string) : outcome qore_string :=
  s ← trimLeading chars s; trimTrailing chars s.
End Methods.
