(* ===== verification/StringSpec.v ===== *)
(** * What the operations on strings guarantee

    The abstract string is the list of its bytes, and for an encoding with
    more than one byte the list of its characters. *)

From S2P Require Import Prelude Encoding EncodingSpec StringBuf StringFind.
From S2P Require Import StringOps.

#[local] Open Scope Z_scope.

(** ** Specification on lists *)
Section Lists.
Context {A : Type}.

(** The offset and the number of elements that arguments mean: a negative
    offset counts from the end, and so does a negative number. *)
Definition norm_offset (l : list A) (offset : Z) : nat :=
  let n := Z.of_nat (length l) in
  Z.to_nat (if offset <? 0 then Z.max 0 (n + offset) else Z.min n offset).

Definition norm_count (l : list A) (offset num : Z) : nat :=
  let n := Z.of_nat (length l) in
  let o := Z.of_nat (norm_offset l offset) in
  Z.to_nat (if num <? 0 then Z.max 0 (n + num - o) else Z.min (n - o) num).

(** The part that is taken out, and the list with [new] in its place *)
Definition spliced (l : list A) (offset num : Z) (new : list A) : list A * list A :=
  let o := norm_offset l offset in
  let m := norm_count l offset num in
  (take m (drop o l), take o l ++ new ++ drop (o + m) l).

(** The three parts of a list *)
Lemma split_at (l : list A) o m : (o + m <= length l)%nat ->
  l = take o l ++ take m (drop o l) ++ drop (o + m) l /\ length (take o l) = o /\
  length (take m (drop o l)) = m.
Proof.
  intros H. split; [|split].
  - rewrite <-drop_drop, !take_drop. reflexivity.
  - rewrite length_take. lia.
  - rewrite length_take, length_drop. lia.
Qed.

Lemma norm_bounds (l : list A) offset num : (norm_offset l offset + norm_count l offset num <= length l)%nat.
Proof. unfold norm_count, norm_offset. zcases; lia. Qed.
End Lists.

(** ** Bytes *)
Section Bytes.
Context (garbage : nat -> Z).

Lemma check_offset_spec t offset : check_offset offset (size t) = Z.of_nat (norm_offset t offset).
Proof. unfold check_offset, norm_offset, size. zcases; lia. Qed.

(** A number of bytes that is [m], or more when the bytes behind [o] are the
    last [m] *)
Definition covers (t : list Z) (o m : nat) (num : Z) : Prop :=
  num = Z.of_nat m \/ (o + m)%nat = length t /\ Z.of_nat m <= num.

(** [check_offset_num] gives the offset and such a number. *)
Lemma check_offset_num_spec t offset num : exists n,
  check_offset_num offset num (size t) = (Z.of_nat (norm_offset t offset), n) /\
  covers t (norm_offset t offset) (norm_count t offset num) n /\
  0 <= n /\ (n = num \/ n = Z.of_nat (norm_count t offset num)).
Proof.
  unfold check_offset_num, covers. rewrite check_offset_spec. eexists. split; [reflexivity|].
  unfold norm_count. pose proof (norm_bounds t offset 0) as B. unfold norm_count, size in *.
  revert B. generalize (norm_offset t offset). intros o B. zcases; lia.
Qed.

(** The buffer and the three parts of its text *)
Lemma parts t o m : (o + m <= length t)%nat -> exists a b c,
  t = a ++ b ++ c /\ take o t = a /\ take m (drop o t) = b /\ drop (o + m) t = c /\
  Z.of_nat o = size a /\ Z.of_nat m = size b.
Proof.
  intros H. destruct (split_at t o m H) as (E & La & Lb). exists (take o t), (take m (drop o t)), (drop (o + m) t).
  unfold size. rewrite La, Lb. repeat split. exact E.
Qed.

Lemma covers_clip t o m num : (o + m <= length t)%nat -> covers t o m num -> fits (size t) -> fits num ->
  clip (size t) (Z.of_nat o) num = (Z.of_nat (o + m), Z.of_nat m).
Proof.
  intros H C Ht Hn. destruct (parts t o m H) as (a & b & c & Et & _ & _ & Ec & Lo & Lm).
  rewrite Nat2Z.inj_add, Lo, Lm, <-size_app. rewrite Et in Ht |- *. apply clip_bytes; [exact Ht|exact Hn|].
  destruct C as [->|[C1 C2]]; [left; exact Lm|]. right. split; [|lia].
  rewrite <-Ec. apply drop_ge. lia.
Qed.

Lemma splice_simple_del_rep s t o m num ex : rep s t -> fits (allocated s) -> fits num ->
  (o + m <= length t)%nat -> covers t o m num ->
  exists s', splice_simple_del (Z.of_nat o) num ex s = Ret (if ex then take m (drop o t) else [], s') /\
             rep s' (take o t ++ drop (o + m) t).
Proof.
  intros R Ha Hn H C. pose proof (rep_allocated _ _ R) as Al. unfold splice_simple_del.
  destruct R as [L R0]. rewrite L. rewrite (covers_clip t o m num H C) by (unfold fits in *; pose proof (size_nonneg t); (assumption || lia)).
  assert (rep s t) as R by (split; assumption). clear R0.
  destruct (parts t o m H) as (a & b & c & Et & -> & -> & -> & Lo & Lm). subst t.
  rewrite Lo, (extract_bytes_rep s a b c ex _ R Lm). cbn [mbind outcome_bind].
  destruct (splice_del_rep s a b c R Ha) as (s' & Es & Rs). rewrite L in Es.
  rewrite Nat2Z.inj_add, Lo, Lm, <-size_app. revert Es.
  destruct (if _ =? _ then _ else _); cbn [mbind outcome_bind]; try discriminate.
  intros ->. eauto.
Qed.

Lemma splice_simple_ins_rep s t o m num str ex : rep s t -> fits (allocated s) -> fits (size str) -> fits num ->
  (o + m <= length t)%nat -> covers t o m num ->
  if decide (overreads (size t) (Z.of_nat m) (size str) (allocated s))
  then splice_simple_ins garbage (Z.of_nat o) num str ex s = MemError
  else exists s', splice_simple_ins garbage (Z.of_nat o) num str ex s = Ret (if ex then take m (drop o t) else [], s') /\
                  rep s' (take o t ++ str ++ drop (o + m) t).
Proof.
  intros R Ha Hs Hn H C. pose proof (rep_allocated _ _ R) as Al. unfold splice_simple_ins.
  pose proof R as [L _]. rewrite L. rewrite (covers_clip t o m num H C) by (unfold fits in *; pose proof (size_nonneg t); (assumption || lia)).
  destruct (parts t o m H) as (a & b & c & Et & -> & -> & -> & Lo & Lm). subst t.
  rewrite Lo, (extract_bytes_rep s a b c ex _ R Lm), Nat2Z.inj_add, Lo, Lm. cbn [mbind outcome_bind].
  assert (usz (size a + size str) = size a + size str /\ usz (size a + size b) = size a + size b) as [Ud Us]
    by (split; rewrite usz_small; unfold fits in *; size_tac).
  pose proof (replace_bytes_rep garbage s a b c str _ _ R Ha Hs Ud Us) as P. rewrite (size_app a b) in P.
  destruct (decide _) as [O|O].
  - rewrite P. reflexivity.
  - destruct P as (s' & -> & Rs). eauto.
Qed.
(** *** Inserting and taking off *)

Lemma insert_bytes_rep s a c str : rep s (a ++ c) -> exists s',
  insert_bytes garbage (size a) str s = Ret s' /\ rep s' (a ++ str ++ c).
Proof.
  intros R. unfold insert_bytes.
  destruct (check_char_rep garbage (len s + size str) s _ ltac:(destruct R as [-> _]; size_tac) R) as (R' & Hi & _).
  set (s1 := check_char garbage (len s + size str) s) in *.
  assert (len s = size (a ++ c)) as L by apply R. assert (len s1 = size (a ++ c)) as L1 by apply R'.
  rewrite L in Hi. rewrite L1.
  destruct (move_up s1 a [] c str R') as (s' & Es & Rs); [size_tac..|].
  exists s'. split; [|exact Rs]. rewrite <-Es, app_nil_r, size_nil, Z.add_0_r.
  replace (size (a ++ c) - size a) with (size c) by size_tac.
  replace (size (a ++ c) + size str) with (size (a ++ str ++ c)) by size_tac.
  cbn [app]. destruct (Z.ltb_spec (size a) (size (a ++ c))), (Z.eqb_spec (size a) (size (a ++ c))); size_tac; reflexivity.
Qed.

Lemma prepend_rep s t str : rep s t -> exists s', prepend garbage str s = Ret s' /\ rep s' (str ++ t).
Proof.
  intros R. unfold prepend. pose proof (size_nonneg str). pose proof (size_nonneg t).
  destruct (check_char_rep garbage (len s + size str + 1) s _ ltac:(destruct R as [-> _]; lia) R)
    as ((L1 & extra & E) & Hi & _).
  set (s1 := check_char _ _ _) in *. destruct R as [L _]. rewrite L, L1 in *. unfold allocated in Hi. rewrite E in *.
  unfold memmove.
  assert (mem_read (t ++ 0 :: extra) 0 (size t + 1) = Ret (t ++ [0])) as ->.
  { assert (t ++ 0 :: extra = [] ++ (t ++ [0]) ++ extra) as -> by (rewrite <-app_assoc; reflexivity).
    apply mem_read_at; size_tac. }
  cbn [mbind outcome_bind].
  destruct (mem_write_behind [] (t ++ 0 :: extra) (size str) (t ++ [0])) as (p & r & Ew & Lp & Lr);
    [rewrite size_nil; size_tac|cbn [app]; size_tac|].
  cbn [app] in Ew. rewrite Ew. cbn [mbind outcome_bind].
  rewrite size_nil in Lp. change (p ++ (t ++ [0]) ++ r) with ([] ++ p ++ (t ++ [0]) ++ r).
  rewrite mem_write_at by (rewrite ?size_nil; lia). cbn [mbind outcome_bind app].
  eexists. split; [reflexivity|]. split; [cbn [len]; size_tac|]. exists r. cbn [buf]. rewrite <-!app_assoc. reflexivity.
Qed.

(** Taking off the start of the text *)
Lemma move_to_start s a c n : rep s (a ++ c) -> n = size c + 1 -> exists b,
  memmove (buf s) 0 (size a) n = Ret b /\ rep (mkStr b (size c)) c.
Proof.
  intros (L & extra & E) ->. rewrite E. unfold memmove.
  assert ((a ++ c) ++ 0 :: extra = a ++ (c ++ [0]) ++ extra) as -> by (rewrite <-!app_assoc; reflexivity).
  rewrite mem_read_at by size_tac. cbn [mbind outcome_bind].
  destruct (split_size (a ++ (c ++ [0]) ++ extra) (size (c ++ [0]))) as (p & r & -> & Lp); [size_tac|].
  change (p ++ r) with ([] ++ p ++ r). rewrite mem_write_at by (rewrite ?size_nil; lia).
  eexists. split; [reflexivity|]. split; [reflexivity|]. exists r. cbn [buf app]. rewrite <-app_assoc. reflexivity.
Qed.

Lemma clear_rep s t : rep s t -> exists s', clear s = Ret s' /\ rep s' [].
Proof.
  intros R. pose proof (rep_allocated _ _ R). pose proof (size_nonneg t). unfold clear.
  destruct (Z.eqb_spec (allocated s) 0); [lia|]. cbn [negb]. apply (cut_rep s t [] t R). reflexivity.
Qed.

(** The last byte *)
Definition last_is (c : Z) (t : list Z) : bool := bool_decide (last t = Some c).

Lemma ends_with_byte_rep c s t : rep s t -> ends_with_byte c s = Ret (last_is c t).
Proof.
  intros R. unfold ends_with_byte, last_is. pose proof R as (L & extra & E). rewrite L, E.
  destruct t as [|x t _] using rev_ind.
  - rewrite size_nil. reflexivity.
  - destruct (Z.eqb_spec (size (t ++ [x])) 0) as [H|_]; [size_tac|]. cbn [negb].
    rewrite <-app_assoc, mem_read_at by size_tac. cbn [mbind outcome_bind]. rewrite last_snoc. f_equal.
    apply bool_decide_ext. split; congruence.
Qed.

(** Without the last byte *)
Lemma drop_last_rep s t c : rep s t -> last_is c t = true ->
  exists t' s', t = t' ++ [c] /\ terminate garbage (len s - 1) s = Ret s' /\ rep s' t'.
Proof.
  intros R H. apply bool_decide_eq_true in H. destruct t as [|x t _] using rev_ind; [discriminate|].
  rewrite last_snoc in H. injection H as ->. exists t.
  destruct (terminate_rep garbage s _ t [c] R eq_refl) as (s' & Es & Rs). exists s'.
  replace (len s - 1) with (size t) by (destruct R as [-> _]; size_tac). auto.
Qed.

Fixpoint drop_while (f : Z -> bool) (t : list Z) : list Z :=
  match t with [] => [] | c :: q => if f c then drop_while f q else t end.

Definition drop_trailing (f : Z -> bool) (t : list Z) : list Z := rev (drop_while f (rev t)).

Lemma count_while_spec f t : exists a, t = a ++ drop_while f t /\ Forall f a /\ length a = count_while f t.
Proof.
  induction t as [|c q (a & E & Ha & La)]; cbn [drop_while count_while]; [exists []; repeat split; constructor|].
  destruct (f c) eqn:Hc.
  - exists (c :: a). cbn. rewrite <-E, La. repeat split. constructor; [rewrite Hc; exact I|exact Ha].
  - exists []. repeat split. constructor.
Qed.

Lemma trim_trailing_rep f s t : rep s t -> exists s', trim_trailing garbage f s = Ret s' /\ rep s' (drop_trailing f t).
Proof.
  intros R. unfold trim_trailing, drop_trailing. pose proof R as [L _]. rewrite (rep_text _ _ R), L.
  destruct (Z.eqb_spec (size t) 0) as [H|_]; [apply size_nil_iff in H as ->; eauto|].
  destruct (count_while_spec f (rev t)) as (a & E & _ & La). apply (f_equal (@rev Z)) in E.
  rewrite rev_involutive, rev_app_distr in E.
  replace (size t - Z.of_nat (count_while f (rev t))) with (size (rev (drop_while f (rev t)))).
  - exact (terminate_rep garbage s t _ (rev a) R E).
  - rewrite E at 2. unfold size. rewrite length_app, (length_rev a). lia.
Qed.

Lemma trim_leading_rep f s t : rep s t -> exists s', trim_leading f s = Ret s' /\ rep s' (drop_while f t).
Proof.
  intros R. unfold trim_leading. pose proof R as [L _]. rewrite (rep_text _ _ R), L.
  destruct (Z.eqb_spec (size t) 0) as [H|_]; [apply size_nil_iff in H as ->; eauto|].
  destruct (count_while_spec f t) as (a & E & _ & La). rewrite <-La.
  destruct (Z.eqb_spec (Z.of_nat (length a)) 0) as [H|_].
  { destruct a; [|discriminate]. cbn [app] in E. rewrite <-E. eauto. }
  rewrite E in R. destruct (move_to_start s a _ (size t + 1 - size a) R) as (b & Eb & Rb); [rewrite E at 1; size_tac|].
  fold (size a). rewrite Eb. cbn [mbind outcome_bind]. eexists. split; [reflexivity|].
  replace (size t - size a) with (size (drop_while f t)); [exact Rb|].
  rewrite E at 2. unfold size. rewrite length_app. lia.
Qed.

Lemma trim_single_leading_rep c s t : rep s t -> exists s', trim_single_leading c s = Ret s' /\
  rep s' (match t with x :: q => if x =? c then q else t | [] => [] end).
Proof.
  intros R. unfold trim_single_leading. pose proof R as (L & extra & E). rewrite L, E.
  destruct t as [|x q]; [rewrite size_nil; cbn; eauto|]. cbn [app byte_at nth].
  destruct (Z.eqb_spec (size (x :: q)) 0) as [H|_]; [size_tac|]. cbn [negb andb]. unfold byte_at. cbn [nth].
  destruct (x =? c); [|eauto].
  destruct (move_to_start s [x] q (size (x :: q)) R) as (b & Eb & Rb); [size_tac|]. rewrite E in Eb.
  change (size [x]) with 1 in Eb. cbn [app] in Eb. rewrite Eb. cbn [mbind outcome_bind]. eexists. split; [reflexivity|].
  replace (size (x :: q) - 1) with (size q) by size_tac. exact Rb.
Qed.
End Bytes.

(** ** Every operation on bytes *)

Inductive string_op :=
  | OpConcat (str : list Z)
  | OpConcatString (str : list Z)
  | OpConcatCstr (str : list Z)
  | OpConcatChar (c : Z)
  | OpSpliceOff (extract : bool) (offset : Z)
  | OpSplice (extract : bool) (offset num : Z) (str : list Z)
  | OpReplace (offset dlen : Z) (str : list Z)
  | OpReplaceChar (offset c : Z)
  | OpInsert (str : list Z) (pos : Z)
  | OpInsertch (c pos times : Z)
  | OpAddch (c times : Z)
  | OpPrepend (str : list Z)
  | OpClear
  | OpChomp
  | OpTrim (f : Z -> bool)
  | OpTrimSingleLeading (c : Z)
  | OpTrimSingleTrailing (c : Z).

Definition no_result (r : outcome qore_string) : outcome (list Z * qore_string) := s ← r; Ret ([], s).
Definition flag_result (r : outcome (bool * qore_string)) : outcome (list Z * qore_string) :=
  '(b, s) ← r; Ret ([Z.b2z b], s).
Definition number_result (r : outcome (Z * qore_string)) : outcome (list Z * qore_string) :=
  '(n, s) ← r; Ret ([n], s).

Definition run_op (garbage : nat -> Z) (e : QoreEncoding) (op : string_op) (s : qore_string)
    : outcome (list Z * qore_string) :=
  match op with
  | OpConcat str => no_result (concat_mem garbage str s)
  | OpConcatString str => no_result (concat_string garbage str s)
  | OpConcatCstr str => no_result (concat_cstr garbage str s)
  | OpConcatChar c => no_result (concat_char garbage c s)
  | OpSpliceOff ex offset => splice_off e ex offset s
  | OpSplice ex offset num str => splice_value garbage e ex offset num str s
  | OpReplace offset dlen str => no_result (replace garbage offset dlen str s)
  | OpReplaceChar offset c => no_result (replaceChar offset c s)
  | OpInsert str pos => flag_result (insert garbage str pos s)
  | OpInsertch c pos times => flag_result (insertch garbage c pos times s)
  | OpAddch c times => no_result (addch garbage c times s)
  | OpPrepend str => no_result (prepend garbage str s)
  | OpClear => no_result (clear s)
  | OpChomp => number_result (chomp garbage s)
  | OpTrim f => no_result (trim garbage f s)
  | OpTrimSingleLeading c => no_result (trim_single_leading c s)
  | OpTrimSingleTrailing c => no_result (trim_single_trailing garbage c s)
  end.

(** The result and the new text *)
Definition inserted (t : list Z) (pos : Z) (str : list Z) : list Z * list Z :=
  if size t <? pos then ([0], t) else ([1], take (Z.to_nat pos) t ++ str ++ drop (Z.to_nat pos) t).

Definition only (ex : bool) (r : list Z * list Z) : list Z * list Z := (if ex then r.1 else [], r.2).

Definition chomped (t : list Z) : list Z * list Z :=
  if last_is 10 t then
    let t := removelast t in if last_is 13 t then ([2], removelast t) else ([1], t)
  else ([0], t).

Definition spec_op (t : list Z) (op : string_op) : list Z * list Z :=
  match op with
  | OpConcat str | OpConcatString str => ([], t ++ str)
  | OpConcatCstr str => ([], t ++ cstr str)
  | OpConcatChar c => ([], t ++ [c])
  | OpSpliceOff ex offset => only ex (spliced t offset (size t) [])
  | OpSplice ex offset num str => only ex (spliced t offset num str)
  | OpReplace offset dlen str => only false (spliced t offset dlen (cstr str))
  | OpReplaceChar offset c => ([], if size t <=? offset then t else <[Z.to_nat offset := c]> t)
  | OpInsert str pos => inserted t pos (cstr str)
  | OpInsertch c pos times => if times =? 0 then ([0], t) else inserted t pos (replicate (Z.to_nat times) c)
  | OpAddch c times => ([], t ++ replicate (Z.to_nat times) c)
  | OpPrepend str => ([], str ++ t)
  | OpClear => ([], [])
  | OpChomp => chomped t
  | OpTrim f => ([], drop_while f (drop_trailing f t))
  | OpTrimSingleLeading c => ([], match t with x :: q => if x =? c then q else t | [] => [] end)
  | OpTrimSingleTrailing c => ([], if last_is c t then removelast t else t)
  end.

(** Sizes are not negative, and [replace] is called with an offset inside of the
    text. *)
Definition op_ok (t : list Z) (op : string_op) : Prop :=
  match op with
  | OpSplice _ _ num str => (num < 0 \/ fits num) /\ fits (size str)
  | OpReplace offset dlen str => 0 <= offset <= size t /\ fits dlen /\ fits (size str)
  | OpReplaceChar offset _ => 0 <= offset
  | OpInsert _ pos => 0 <= pos
  | OpInsertch _ pos times => 0 <= pos /\ 0 <= times
  | OpAddch _ times => 0 <= times
  | _ => True
  end.

(** The operation reads memory behind the buffer: a part is replaced by a
    smaller one that is not empty. *)
Definition overrun (t : list Z) (alloc : Z) (op : string_op) : Prop :=
  match op with
  | OpSplice _ offset num str => str <> [] /\ overreads (size t) (Z.of_nat (norm_count t offset num)) (size str) alloc
  | OpReplace offset dlen str =>
    cstr str <> [] /\ overreads (size t) (Z.of_nat (norm_count t offset dlen)) (size (cstr str)) alloc
  | _ => False
  end.

#[export] Instance overrun_dec t a op : Decision (overrun t a op).
Proof. destruct op; apply _. Defined.

Section Refinement.
Context (garbage : nat -> Z) (e : QoreEncoding) (single : isMultiByte e = false).

(** The result of an operation, with its text *)
Definition returns (r : outcome (list Z * qore_string)) (x : list Z * list Z) : Prop :=
  exists s, r = Ret (x.1, s) /\ rep s x.2.

Lemma returns_no r t : (exists s, r = Ret s /\ rep s t) -> returns (no_result r) ([], t).
Proof. intros (s & -> & R). exists s. split; [reflexivity|exact R]. Qed.

Lemma splice_off_single s t ex offset : rep s t -> fits (allocated s) ->
  returns (splice_off e ex offset s) (only ex (spliced t offset (size t) [])).
Proof.
  intros R Ha. unfold splice_off, returns, only, spliced. rewrite single. cbn [negb fst snd].
  pose proof (rep_allocated _ _ R) as Al. pose proof R as [L _]. rewrite L, check_offset_spec.
  pose proof (norm_bounds t offset (size t)) as B.
  assert (norm_offset t offset + norm_count t offset (size t) = length t)%nat as B2.
  { revert B. unfold norm_count, norm_offset, size. zcases; lia. }
  set (o := norm_offset t offset) in *. set (m := norm_count t offset (size t)) in *.
  destruct (Z.eqb_spec (Z.of_nat o) (size t)) as [H|H].
  - assert (m = 0)%nat as -> by (unfold size in H; lia). exists s.
    rewrite take_0. split; [destruct ex; reflexivity|].
    cbn [app]. rewrite Nat.add_0_r, take_drop. exact R.
  - destruct (splice_simple_del_rep s t o m (size t - Z.of_nat o) ex R Ha) as (s' & -> & Rs); [| |right|eauto].
    + unfold fits, size in *. lia.
    + lia.
    + unfold size. lia.
Qed.

Lemma splice_value_single s t ex offset num str : rep s t -> fits (allocated s) ->
  op_ok t (OpSplice ex offset num str) ->
  if decide (overrun t (allocated s) (OpSplice ex offset num str))
  then splice_value garbage e ex offset num str s = MemError
  else returns (splice_value garbage e ex offset num str s) (only ex (spliced t offset num str)).
Proof.
  intros R Ha [Hn Hs]. unfold splice_value, splice_del, splice_ins, returns, only, spliced. rewrite single. cbn [negb fst snd].
  pose proof (rep_allocated _ _ R) as Al. pose proof R as [L _]. rewrite L.
  destruct (check_offset_num_spec t offset num) as (n & -> & C & Hn0 & Hn1).
  pose proof (norm_bounds t offset num) as B. cbn [overrun].
  set (o := norm_offset t offset) in *. set (m := norm_count t offset num) in *.
  assert (fits n) as Fn by (unfold fits, size in *; lia).
  destruct (Z.eqb_spec (size str) 0) as [E|E].
  - apply size_nil_iff in E as ->. destruct (decide _) as [[N _]|_]; [contradiction|].
    destruct ((Z.of_nat o =? size t) || (n =? 0)) eqn:Z0.
    + assert (m = 0)%nat as Hm0.
      { apply orb_true_iff in Z0 as [H%Z.eqb_eq|H%Z.eqb_eq]; unfold covers, size in *; lia. }
      rewrite Hm0, take_0. exists s. split; [destruct ex; reflexivity|].
      cbn [app]. rewrite Nat.add_0_r, take_drop. exact R.
    + destruct (splice_simple_del_rep s t o m n ex R Ha Fn B C) as (s' & -> & Rs). eauto.
  - rewrite andb_false_r.
    set (n' := if Z.of_nat o =? size t then 0 else n).
    assert (covers t o m n' /\ fits n') as [C' F'].
    { subst n'. destruct (Z.eqb_spec (Z.of_nat o) (size t)) as [H|H]; [|split; assumption].
      unfold covers, fits, size in *. split; lia. }
    pose proof (splice_simple_ins_rep garbage s t o m n' str ex R Ha Hs F' B C') as P.
    destruct (decide (overreads _ _ _ _)) as [O|O]; destruct (decide (_ /\ _)) as [[N O']|N]; try contradiction; try exact P.
    destruct N. split; [intros ->; apply E; reflexivity|exact O].
Qed.

Lemma replace_single s t offset dlen str : rep s t -> fits (allocated s) ->
  op_ok t (OpReplace offset dlen str) ->
  if decide (overrun t (allocated s) (OpReplace offset dlen str))
  then no_result (replace garbage offset dlen str s) = MemError
  else returns (no_result (replace garbage offset dlen str s)) (only false (spliced t offset dlen (cstr str))).
Proof.
  intros R Ha (Ho & Hd & Hs). unfold replace, only, spliced. cbn [fst snd overrun].
  pose proof (rep_allocated _ _ R) as Al. pose proof (norm_bounds t offset dlen) as B.
  assert (Z.of_nat (norm_offset t offset) = offset) as Eo by (unfold norm_offset, size in *; zcases; lia).
  assert (covers t (norm_offset t offset) (norm_count t offset dlen) dlen) as C.
  { unfold covers, norm_count. rewrite Eo. unfold fits, size in *. zcases; lia. }
  set (o := norm_offset t offset) in *. set (m := norm_count t offset dlen) in *.
  assert (fits (size (cstr str))) as Fs.
  { enough (size (cstr str) <= size str) by (unfold fits in *; pose proof (size_nonneg (cstr str)); lia).
    clear. induction str as [|c q IH]; cbn [cstr]; [lia|]. destruct (c =? 0); size_tac. }
  destruct (Z.eqb_spec (size (cstr str)) 0) as [E|E].
  - apply size_nil_iff in E. destruct (decide _) as [[N _]|_]; [contradiction|]. rewrite E.
    destruct (splice_simple_del_rep s t o m dlen false R Ha Hd B C) as (s' & Es & Rs). rewrite Eo in Es. rewrite Es.
    apply returns_no. eauto.
  - pose proof (splice_simple_ins_rep garbage s t o m dlen (cstr str) false R Ha Fs Hd B C) as P. rewrite Eo in P.
    destruct (decide (overreads _ _ _ _)) as [O|O]; destruct (decide (_ /\ _)) as [[N O']|N]; try contradiction.
    + rewrite P. reflexivity.
    + destruct N. split; [intros N; apply E; rewrite N; reflexivity|exact O].
    + destruct P as (s' & -> & Rs). apply returns_no. eauto.
Qed.
Lemma replaceChar_rep s t offset c : rep s t -> 0 <= offset ->
  exists s', replaceChar offset c s = Ret s' /\
             rep s' (if size t <=? offset then t else <[Z.to_nat offset := c]> t).
Proof.
  intros R Ho. unfold replaceChar. pose proof R as (L & extra & E). rewrite L.
  destruct (Z.leb_spec (size t) offset) as [H|H]; [eauto|].
  destruct (split_room t offset) as (a & x & b & -> & La); [lia|].
  rewrite E, <-app_assoc. cbn [app]. change (x :: b ++ 0 :: extra) with ([x] ++ b ++ 0 :: extra).
  rewrite mem_write_at by (congruence || reflexivity). cbn [mbind outcome_bind]. eexists. split; [reflexivity|].
  assert (Z.to_nat offset = length a + 0)%nat as -> by (unfold size in La; lia). rewrite insert_app_r. cbn.
  replace (a ++ c :: b ++ 0 :: extra) with ((a ++ c :: b) ++ 0 :: extra) by (rewrite <-app_assoc; reflexivity).
  apply rep_mk. size_tac.
Qed.

Lemma inserted_rep s t pos str : rep s t -> 0 <= pos ->
  returns (flag_result (if len s <? pos then Ret (false, s)
                        else s ← insert_bytes garbage pos str s; Ret (true, s)))
    (inserted t pos str).
Proof.
  intros R Ho. unfold inserted, returns. pose proof R as [L _]. rewrite L.
  destruct (Z.ltb_spec (size t) pos) as [H|H]; [cbn; eauto|].
  destruct (split_size t pos) as (a & c & -> & La); [lia|].
  assert (Z.to_nat pos = length a) as -> by (unfold size in La; lia). rewrite take_app_length, drop_app_length.
  destruct (insert_bytes_rep garbage s a c str R) as (s' & Es & Rs). rewrite <-La, Es. cbn. eauto.
Qed.

Lemma addch_rep s t c times : rep s t -> 0 <= times -> exists s',
  addch garbage c times s = Ret s' /\ rep s' (t ++ replicate (Z.to_nat times) c).
Proof.
  intros R Ht. apply append_rep; [exact R|]. destruct R as [-> _]. unfold size. rewrite length_replicate. lia.
Qed.

Lemma trim_rep f s t : rep s t -> exists s', trim garbage f s = Ret s' /\ rep s' (drop_while f (drop_trailing f t)).
Proof.
  intros R. unfold trim. destruct (trim_trailing_rep garbage f s t R) as (s1 & -> & R1).
  destruct (trim_leading_rep f s1 _ R1) as (s2 & E2 & R2). cbn [mbind outcome_bind]. eauto.
Qed.

Lemma trim_single_trailing_rep c s t : rep s t -> exists s', trim_single_trailing garbage c s = Ret s' /\
  rep s' (if last_is c t then removelast t else t).
Proof.
  intros R. unfold trim_single_trailing. rewrite (ends_with_byte_rep c s t R). cbn [mbind outcome_bind].
  destruct (last_is c t) eqn:H; [|eauto]. destruct (drop_last_rep garbage s t c R H) as (t' & s' & -> & Es & Rs).
  rewrite removelast_last. eauto.
Qed.

Lemma chomp_rep s t : rep s t -> returns (number_result (chomp garbage s)) (chomped t).
Proof.
  intros R. unfold chomp, chomped, returns. rewrite (ends_with_byte_rep 10 s t R). cbn [mbind outcome_bind].
  destruct (last_is 10 t) eqn:H; [|cbn; eauto].
  destruct (drop_last_rep garbage s t 10 R H) as (t1 & s1 & -> & -> & R1). cbn [mbind outcome_bind].
  rewrite removelast_last, (ends_with_byte_rep 13 s1 t1 R1). cbn [mbind outcome_bind].
  destruct (last_is 13 t1) eqn:H1; [|cbn; eauto].
  destruct (drop_last_rep garbage s1 t1 13 R1 H1) as (t2 & s2 & -> & -> & R2). rewrite removelast_last. cbn. eauto.
Qed.

#[local] Hint Resolve concat_mem_rep concat_string_rep concat_cstr_rep concat_char_rep splice_off_single
  replaceChar_rep addch_rep prepend_rep clear_rep chomp_rep trim_rep trim_single_leading_rep
  trim_single_trailing_rep inserted_rep returns_no : core.

Lemma op_step s t op : rep s t -> fits (allocated s) -> op_ok t op ->
  if decide (overrun t (allocated s) op) then run_op garbage e op s = MemError
  else returns (run_op garbage e op s) (spec_op t op).
Proof.
  intros R Ha Hok.
  destruct op; try (apply splice_value_single; assumption); try (apply replace_single; assumption);
    (destruct (decide _) as [F|_]; [contradiction|]); cbn [run_op spec_op op_ok] in *; auto.
  - apply inserted_rep; assumption.
  - destruct Hok as [Hp Ht]. unfold insertch. destruct (Z.eqb_spec times 0) as [->|N].
    + rewrite orb_true_r. cbn. unfold returns. eauto.
    + rewrite orb_false_r. apply inserted_rep; assumption.
  - eapply returns_no, clear_rep, R.
Qed.
End Refinement.

(** ** Properties *)

(** C4: The operations on the buffer of a string with one byte for each character do what they mean for the
    list of its bytes: a new string is empty, and adding a string or characters, splice, replace at an offset
    inside the text, insert, clear, chomp and trim, with arguments in the range of [op_ok], give the result and
    the text of their specification and keep the buffer in order, whatever the rest of the memory contains. They
    read behind the buffer exactly when a part of the text is replaced by a smaller one, and the difference is
    larger than the rest of the buffer. Concat with a size or of a part of a string, and [replace] behind the
    end, are not covered, see [concat_size_overflow] and [replace_behind_the_end]. *)
Theorem string_ops_refine garbage e : isMultiByte e = false ->
  (exists s, new_string garbage = Ret s /\ rep s []) /\
  forall s t op, rep s t -> fits (allocated s) -> op_ok t op ->
    if decide (overrun t (allocated s) op) then run_op garbage e op s = MemError
    else exists s', run_op garbage e op s = Ret ((spec_op t op).1, s') /\ rep s' (spec_op t op).2.
Proof.
  intros single. split; [apply new_string_rep|]. intros s t op. apply op_step, single.
Qed.

(** ** Examples *)

(** A text of 63 bytes is in a block of 64: when its first three characters become one, the memory behind the
    block is read. *)
Example splice_reads_behind :
  (s ← new_string (λ _, 0); s ← concat_mem (λ _, 0) (replicate 63 65) s;
   splice_value (λ _, 0) (single_byte "US-ASCII") false 0 3 [120] s) = MemError.
Proof. vm_compute. reflexivity. Qed.

(** [replace] does not look at its offset: with one behind the end, the bytes behind the text are written. *)
Example replace_behind_the_end :
  (s ← new_string (λ _, 0); s ← concat_mem (λ _, 0) [65; 66] s; s ← replace (λ _, 0) 4 0 [120] s;
   Ret (take 8 (buf s), len s)) = MemError.
Proof. vm_compute. reflexivity. Qed.

(** The room is computed with the length of the other string, not with the one of this string. *)
Example concat_size_overflow :
  (s ← new_string (λ _, 0); s ← concat_mem (λ _, 0) (replicate 170 65) s;
   concat_size (λ _, 0) (single_byte "US-ASCII") (replicate 75 66) 75 s) = MemError.
Proof. vm_compute. reflexivity. Qed.

(** The number of characters to be added is not used when a character has one byte, and the assertion of
    [concat_intern] fails for a position behind the last character. *)
Example concat_part_number :
  (s ← concat_part (λ _, 0) (single_byte "US-ASCII") [65; 66; 67] 1 1 (mkStr [0] 0); Ret (text s)) = Ret [66; 67] /\
  (s ← concat_part (λ _, 0) QCS_UTF8 [65; 66; 67] 1 1 (mkStr [0] 0); Ret (text s)) = Ret [66] /\
  concat_from (λ _, 0) QCS_UTF8 [65; 66; 67] 3 (mkStr [0] 0) = AssertFailed.
Proof. vm_compute. repeat split; reflexivity. Qed.

Lemma string_ops_refine_witness :
  exists s, run_op (λ _, 7) (single_byte "US-ASCII") (OpSplice true (-4) 3 [120]) (mkStr ([65; 66; 67; 68; 69; 0] ++ replicate 58 1) 5)
            = Ret ([66; 67; 68], s) /\ rep s [65; 120; 69].
Proof.
  assert (rep (mkStr ([65; 66; 67; 68; 69; 0] ++ replicate 58 1) 5) [65; 66; 67; 68; 69]) as R
    by (split; [reflexivity|exists (replicate 58 1); reflexivity]).
  pose proof (proj2 (string_ops_refine (λ _, 7) (single_byte "US-ASCII") eq_refl) _ _ (OpSplice true (-4) 3 [120]) R
    ltac:(unfold fits, allocated; vm_compute; split; [discriminate|reflexivity])
    ltac:(unfold op_ok, fits; vm_compute; intuition discriminate)) as P.
  destruct (decide _) as [[_ O]|_]; [exfalso; revert O; vm_compute; intuition discriminate|exact P].
Defined.
