(* ===== verification/StringChars.v ===== *)
(** * Strings with characters of several bytes

    The operations on strings in an encoding with more than one byte for a
    character do for the characters what the others do for bytes. *)

From S2P Require Import Prelude Encoding EncodingSpec StringBuf StringFind.
From S2P Require Import StringOps StringSpec.

#[local] Open Scope Z_scope.

Section Characters.
Context (garbage : nat -> Z) {e : QoreEncoding} {cl : list Z -> Z} {HE : CharEncoding e cl}.

#[local] Abbreviation csize cs := (size (concat cs)).

Lemma csize_app (a b : list (list Z)) : csize (a ++ b) = csize a + csize b.
Proof. rewrite concat_app. apply size_app. Qed.

Lemma byte_len t cs n : characters cl t cs -> 0 <= n ->
  getByteLen_x e t n = inl (csize (take (Z.to_nat n) cs)).
Proof. apply (getByteLen_x_chars (HE := HE)). Qed.

Lemma char_len t cs : characters cl t cs -> getLength_x e t = inl (Z.of_nat (length cs)).
Proof. apply (getLength_x_chars (HE := HE)). Qed.

(** The three parts of the characters of a text *)
Lemma char_parts t cs o m : characters cl t cs -> (o + m <= length cs)%nat -> exists a b c,
  cs = a ++ b ++ c /\ take o cs = a /\ take m (drop o cs) = b /\ drop (o + m) cs = c /\
  length a = o /\ length b = m /\ t = concat a ++ concat b ++ concat c /\ characters cl (concat c) c /\
  characters cl (concat b ++ concat c) (b ++ c).
Proof.
  intros Hc H. destruct (split_at cs o m H) as (E & La & Lb).
  exists (take o cs), (take m (drop o cs)), (drop (o + m) cs). repeat split; try assumption.
  - rewrite (characters_concat _ _ _ Hc). rewrite E at 1. rewrite !concat_app. reflexivity.
  - apply (characters_drop cl t), Hc.
  - rewrite <-concat_app. assert (take m (drop o cs) ++ drop (o + m) cs = drop o cs) as ->.
    { rewrite <-drop_drop, take_drop. reflexivity. }
    apply (characters_drop cl t), Hc.
Qed.

Definition norm_num (clen offset num : Z) : Z :=
  if num <? 0 then (if clen + num - offset <? 0 then 0 else clen + num - offset) else num.

Lemma complex_range_chars t cs o m num : characters cl t cs -> (o + m <= length cs)%nat ->
  (num = Z.of_nat m \/ (o + m)%nat = length cs /\ Z.of_nat m <= num) ->
  forall num0, norm_num (Z.of_nat (length cs)) (Z.of_nat o) num0 = num ->
  complex_range e t (Z.of_nat (length cs)) (Z.of_nat o) num0 =
  Ret (csize (take o cs), csize (take (o + m) cs), csize (take m (drop o cs))).
Proof.
  intros Hc H C num0 N. unfold complex_range. fold (norm_num (Z.of_nat (length cs)) (Z.of_nat o) num0). rewrite N.
  assert ((if Z.of_nat (length cs) - Z.of_nat o <? num
           then (Z.of_nat (length cs), Z.of_nat (length cs) - Z.of_nat o) else (Z.of_nat o + num, num)) =
          (Z.of_nat (o + m), Z.of_nat m)) as -> by (destruct (Z.ltb_spec (Z.of_nat (length cs) - Z.of_nat o) num); f_equal; lia).
  destruct (char_parts t cs o m Hc H) as (a & b & c & E & Ea & Eb & Ec & La & Lb & Et & Hcc & Hbc).
  rewrite !(byte_len t cs) by (assumption || lia). cbn [mbind outcome_bind enc_result].
  rewrite !Nat2Z.id, to_nat_size, Ea, Et, drop_app_length.
  rewrite (byte_len _ (b ++ c)) by (assumption || lia). cbn [mbind outcome_bind enc_result].
  rewrite Nat2Z.id, Eb, <-Lb, take_app_length. reflexivity.
Qed.

(** The offsets of [splice_complex] are the ones of the specification. *)
Lemma complex_norm_offset (cs : list (list Z)) offset : 
  (if Z.of_nat (length cs) <=? offset then Z.of_nat (length cs)
   else if offset <? 0 then (if Z.of_nat (length cs) + offset <? 0 then 0 else Z.of_nat (length cs) + offset)
   else offset) = Z.of_nat (norm_offset cs offset).
Proof. unfold norm_offset. zcases; lia. Qed.

Lemma complex_norm_num (cs : list (list Z)) offset num :
  let o := norm_offset cs offset in
  let m := norm_count cs offset num in
  let n := norm_num (Z.of_nat (length cs)) (Z.of_nat o) num in
  n = Z.of_nat m \/ (o + m)%nat = length cs /\ Z.of_nat m <= n.
Proof.
  cbv zeta. unfold norm_num, norm_count. pose proof (norm_bounds cs offset 0) as B. unfold norm_count in B.
  revert B. generalize (norm_offset cs offset). intros o B. zcases; lia.
Qed.

(** The result for the characters: the extract and the text *)
Definition returns_chars (r : outcome (list Z * qore_string)) (ex : bool) (x : list (list Z) * list (list Z)) : Prop :=
  exists s', r = Ret (if ex then concat x.1 else [], s') /\ rep s' (concat x.2).

Lemma char_split (cs : list (list Z)) o m : (o + m <= length cs)%nat -> exists a b c,
  cs = a ++ b ++ c /\ take o cs = a /\ take m (drop o cs) = b /\ drop (o + m) cs = c /\ take (o + m) cs = a ++ b.
Proof.
  intros H. destruct (split_at cs o m H) as (E & _ & _).
  exists (take o cs), (take m (drop o cs)), (drop (o + m) cs). repeat split; [exact E|].
  symmetry. apply take_take_drop.
Qed.

Lemma splice_complex_del_chars s t cs ex offset num : rep s t -> fits (allocated s) -> characters cl t cs ->
  returns_chars (splice_complex_del e offset num ex s) ex (spliced cs offset num []).
Proof.
  intros R Ha Hc. unfold splice_complex_del, returns_chars, spliced. cbn [fst snd].
  rewrite (rep_text _ _ R), (char_len t cs Hc). cbn [mbind outcome_bind enc_result].
  pose proof (norm_bounds cs offset num) as B. pose proof (complex_norm_offset cs offset) as No.
  pose proof (complex_norm_num cs offset num) as Nn. cbn zeta in Nn.
  set (o := norm_offset cs offset) in *. set (m := norm_count cs offset num) in *.
  assert (t = concat cs) as Et by (apply (characters_concat _ _ _ Hc)).
  destruct (Z.leb_spec (Z.of_nat (length cs)) offset) as [H|H].
  - rewrite andb_true_r. destruct (Z.leb_spec 0 offset); [|lia]. cbn [andb].
    assert (m = 0)%nat as -> by lia. exists s. rewrite take_0. cbn [app]. rewrite Nat.add_0_r, take_drop, <-Et.
    split; [destruct ex; reflexivity|exact R].
  - rewrite andb_false_r, No.
    rewrite (complex_range_chars t cs o m _ Hc B Nn num eq_refl). cbn [mbind outcome_bind].
    destruct (char_split cs o m B) as (a & b & c & E & -> & -> & -> & ->).
    rewrite Et, E, !concat_app in R.
    rewrite (extract_bytes_rep s _ _ _ ex _ R eq_refl). cbn [mbind outcome_bind].
    destruct (splice_del_rep s _ _ _ R Ha) as (s' & Es & Rs). rewrite concat_app. revert Es.
    destruct (if _ =? _ then _ else _); cbn [mbind outcome_bind]; try discriminate. intros ->.
    exists s'. cbn [app]. rewrite concat_app. split; [reflexivity|exact Rs].
Qed.

Lemma splice_complex_ins_chars s t cs ex offset num str ds : rep s t -> fits (allocated s) -> fits (size str) ->
  characters cl t cs -> characters cl str ds -> str <> [] ->
  let b := take (norm_count cs offset num) (drop (norm_offset cs offset) cs) in
  if decide (overreads (csize cs) (csize b) (size str) (allocated s))
  then splice_complex_ins garbage e offset num str ex s = MemError
  else returns_chars (splice_complex_ins garbage e offset num str ex s) ex (spliced cs offset num ds).
Proof.
  intros R Ha Hs Hc Hd Hne. unfold splice_complex_ins, returns_chars, spliced. cbn [fst snd].
  rewrite (rep_text _ _ R), (char_len t cs Hc). cbn [mbind outcome_bind enc_result].
  pose proof (norm_bounds cs offset num) as B. rewrite complex_norm_offset.
  pose proof (complex_norm_num cs offset num) as Nn. cbv zeta in *.
  set (o := norm_offset cs offset) in *. set (m := norm_count cs offset num) in *.
  rewrite (complex_range_chars t cs o m _ Hc B Nn num eq_refl). cbn [mbind outcome_bind].
  assert (t = concat cs) as Et by (apply (characters_concat _ _ _ Hc)).
  assert (str = concat ds) as Ed by (apply (characters_concat _ _ _ Hd)).
  destruct (char_split cs o m B) as (a & b & c & E & Ea & Eb & Ec & Eab). rewrite Ea, Eab, Eb, Ec.
  rewrite Et, E, !concat_app in R.
  rewrite (extract_bytes_rep s _ _ _ ex _ R eq_refl). cbn [mbind outcome_bind]. rewrite concat_app.
  pose proof (rep_allocated _ _ R) as Al.
  assert (usz (size (concat a ++ concat b) - size (concat b) + size str) = size (concat a) + size str) as Ed'
    by (rewrite usz_small; unfold fits in *; size_tac).
  pose proof (replace_bytes_rep garbage s _ _ _ str _ _ R Ha Hs Ed' (size_app (concat a) (concat b))) as P.
  replace (csize cs) with (size (concat a ++ concat b ++ concat c)) by (rewrite E, !concat_app; reflexivity).
  destruct (decide (overreads _ _ _ _)) as [O|O].
  - rewrite P. reflexivity.
  - destruct P as (s' & -> & Rs). exists s'. rewrite !concat_app, <-Ed. split; [reflexivity|exact Rs].
Qed.
Lemma cstr_terminated t extra : cstr (t ++ 0 :: extra) = cstr t.
Proof. induction t as [|c q IH]; cbn [app cstr]; [reflexivity|]. destruct (c =? 0); [reflexivity|]. rewrite IH. reflexivity. Qed.

Lemma splice_complex_off_chars s t cs ex offset : rep s t -> characters cl t cs ->
  let o := norm_offset cs offset in
  exists s', splice_complex_off e offset ex s = Ret (if ex then cstr (concat (drop o cs)) else [], s') /\
             rep s' (concat (take o cs)).
Proof.
  intros R Hc o. unfold splice_complex_off. rewrite (rep_text _ _ R), (char_len t cs Hc). cbn [mbind outcome_bind enc_result].
  pose proof (complex_norm_offset cs offset) as No. fold o in No.
  assert (t = concat cs) as Et by (apply (characters_concat _ _ _ Hc)).
  assert (o <= length cs)%nat as Ho by (pose proof (norm_bounds cs offset 0); lia).
  destruct (Z.leb_spec (Z.of_nat (length cs)) offset) as [H|H].
  - destruct (Z.leb_spec 0 offset); [|lia]. cbn [andb]. exists s.
    rewrite drop_ge, take_ge, <-Et by lia. split; [destruct ex; reflexivity|exact R].
  - rewrite andb_false_r, No.
    assert ((if Z.of_nat o =? 0 then Ret 0 else enc_result (getByteLen_x e t (Z.of_nat o))) =
            Ret (csize (take o cs))) as ->.
    { destruct (Z.eqb_spec (Z.of_nat o) 0) as [E|E].
      - assert (o = 0)%nat as -> by lia. reflexivity.
      - rewrite (byte_len t cs) by (assumption || lia). rewrite Nat2Z.id. reflexivity. }
    cbn [mbind outcome_bind]. rewrite <-(take_drop o cs), concat_app in Et.
    destruct (cut_rep s t (concat (take o cs)) (concat (drop o cs)) R Et) as (s' & -> & Rs).
    exists s'. split; [|exact Rs]. cbn [mbind outcome_bind]. f_equal. f_equal. destruct ex; [|reflexivity]. cbn [andb].
    destruct R as (L & extra & E). rewrite L, E, to_nat_size, Et, <-app_assoc, drop_app_length, cstr_terminated.
    destruct (Z.ltb_spec (csize (take o cs)) (size (concat (take o cs) ++ concat (drop o cs)))) as [Hl|Hl]; [reflexivity|].
    assert (concat (drop o cs) = []) as -> by (apply size_nil_iff; size_tac). reflexivity.
Qed.

Lemma spliced_characters t cs offset num str ds : characters cl t cs -> characters cl str ds ->
  characters cl (concat (spliced cs offset num ds).2) (spliced cs offset num ds).2.
Proof.
  intros Hc Hd. unfold spliced. cbn [snd]. rewrite !concat_app.
  apply (characters_app cl ce_local); [apply (characters_take cl ce_local t), Hc|].
  apply (characters_app cl ce_local); [|apply (characters_drop cl t), Hc].
  rewrite <-(characters_concat _ _ _ Hd). exact Hd.
Qed.

Lemma splice_value_chars s t cs ex offset num str ds : rep s t -> fits (allocated s) -> fits (size str) ->
  characters cl t cs -> characters cl str ds ->
  let b := take (norm_count cs offset num) (drop (norm_offset cs offset) cs) in
  if decide (str <> [] /\ overreads (csize cs) (csize b) (size str) (allocated s))
  then splice_value garbage e ex offset num str s = MemError
  else returns_chars (splice_value garbage e ex offset num str s) ex (spliced cs offset num ds).
Proof.
  intros R Ha Hs Hc Hd b. unfold splice_value, splice_del, splice_ins. rewrite (isMultiByte_true (HE := HE)). cbn [negb].
  destruct (Z.eqb_spec (size str) 0) as [E|E].
  - apply size_nil_iff in E. destruct (decide _) as [[N _]|_]; [contradiction|].
    assert (ds = []) as ->.
    { subst str. inversion Hd as [|c q ds' Hne L Hq Eq]; [reflexivity|]. destruct c; [congruence|discriminate]. }
    apply (splice_complex_del_chars s t); assumption.
  - assert (str <> []) as Hne by (intros ->; apply E; reflexivity).
    pose proof (splice_complex_ins_chars s t cs ex offset num str ds R Ha Hs Hc Hd Hne) as P. cbv zeta in P. fold b in P.
    destruct (decide (overreads _ _ _ _)) as [O|O]; destruct (decide (_ /\ _)) as [[N O']|N]; try contradiction; try exact P.
    destruct N. split; assumption.
Qed.
End Characters.

(** A splice, extract or replacement of a string in an encoding with several bytes for a character does
    for its characters what the specification says, for all offsets and numbers, negative ones and those
    behind the end included, and the characters of the result are again a text of the encoding. Only an extract
    to the end of the string stops at a NUL byte. A text that is not valid raises an exception and stays
    as it is. *)
Theorem splice_characters garbage {e cl} {HE : CharEncoding e cl} s t :
  rep s t -> fits (allocated s) ->
  (forall cs, characters cl t cs ->
     (forall ex offset, let o := norm_offset cs offset in
        exists s', splice_off e ex offset s = Ret (if ex then cstr (concat (drop o cs)) else [], s') /\
                   rep s' (concat (take o cs))) /\
     (forall ex offset num str ds, characters cl str ds -> fits (size str) ->
        let r := spliced cs offset num ds in
        if decide (str <> [] /\ overreads (size t) (size (concat r.1)) (size str) (allocated s))
        then splice_value garbage e ex offset num str s = MemError
        else exists s', splice_value garbage e ex offset num str s = Ret (if ex then concat r.1 else [], s') /\
                        rep s' (concat r.2) /\ characters cl (concat r.2) r.2)) /\
  ((forall cs, ~ characters cl t cs) ->
     forall ex offset num str, splice_off e ex offset s = Raise INVALID_ENCODING /\
                               splice_value garbage e ex offset num str s = Raise INVALID_ENCODING).
Proof.
  intros R Ha. split.
  - intros cs Hc. split.
    + intros ex offset. unfold splice_off. rewrite (isMultiByte_true (HE := HE)).
      exact (splice_complex_off_chars s t cs ex offset R Hc).
    + intros ex offset num str ds Hd Hs r.
      pose proof (splice_value_chars garbage s t cs ex offset num str ds R Ha Hs Hc Hd) as P. cbv zeta in P.
      rewrite <-(characters_concat _ _ _ Hc) in P. change (take _ (drop _ cs)) with r.1 in P.
      destruct (decide _); [exact P|]. destruct P as (s' & E & Rs). exists s'. split; [exact E|]. split; [exact Rs|].
      exact (spliced_characters t cs offset num str ds Hc Hd).
  - intros N ex offset num str.
    destruct (getLength_x_cases (HE := HE) t) as [[cs H]|[E _]]; [destruct (N cs H)|].
    unfold splice_off, splice_value, splice_del, splice_ins, splice_complex_off, splice_complex_del, splice_complex_ins.
    rewrite (isMultiByte_true (HE := HE)), (rep_text _ _ R), E. cbn [negb mbind outcome_bind enc_result].
    split; [reflexivity|]. destruct (_ =? _); reflexivity.
Qed.

(** ** Examples *)

(** The extract of the rest of a UTF-16 text is lost: it is added as a C string. *)
Example extract_utf16 :
  exists b, splice_off QCS_UTF16BE true 1 (mkStr [0; 65; 0; 66; 0; 67; 0] 6) = Ret ([], mkStr b 2).
Proof. eexists. vm_compute. reflexivity. Qed.

Lemma splice_characters_witness :
  let t := [226; 130; 172; 65; 66] in
  let s := mkStr (t ++ replicate 59 0) 5 in
  (exists s', splice_value (λ _, 7) QCS_UTF8 true (-3) 2 [195; 169] s = Ret ([226; 130; 172; 65], s') /\
              rep s' [195; 169; 66] /\ characters q_UTF8_get_char_len [195; 169; 66] [[195; 169]; [66]]) /\
  splice_off QCS_UTF8 true 0 (mkStr [255; 0] 1) = Raise INVALID_ENCODING.
Proof.
  intros t s.
  assert (rep s t) as R by (split; [reflexivity|exists (replicate 58 0); reflexivity]).
  assert (characters q_UTF8_get_char_len t [[226; 130; 172]; [65]; [66]]) as H.
  { apply (chars_cons _ [226; 130; 172] [65; 66]); [discriminate|reflexivity|].
    apply (chars_cons _ [65] [66]); [discriminate|reflexivity|].
    apply (chars_cons _ [66] []); [discriminate|reflexivity|constructor]. }
  assert (characters q_UTF8_get_char_len [195; 169] [[195; 169]]) as D
    by (apply (chars_cons _ [195; 169] []); [discriminate|reflexivity|constructor]).
  split.
  - pose proof (proj2 (proj1 (splice_characters (λ _, 7) (e := QCS_UTF8) s t R ltac:(vm_compute; split; [discriminate|reflexivity]))
      _ H) true (-3) 2 [195; 169] [[195; 169]] D ltac:(vm_compute; split; [discriminate|reflexivity])) as P.
    cbv zeta in P. destruct (decide _) as [[_ O]|_]; [exfalso; revert O; vm_compute; intuition discriminate|].
    destruct P as (s' & E & Rs & C). exists s'. split; [exact E|]. split; [exact Rs|exact C].
  - apply (proj2 (splice_characters (λ _, 7) (e := QCS_UTF8) (mkStr [255; 0] 1) [255]
      (conj eq_refl (ex_intro _ [] eq_refl)) ltac:(vm_compute; split; [discriminate|reflexivity])))
      with (num := 0) (str := []).
    intros cs C. inversion C as [|c l cs' Hn Hc Hl E]; subst.
    destruct c as [|b c]; [contradiction|]. injection E as -> E. apply app_eq_nil in E as [-> ->].
    discriminate (Hc : q_UTF8_get_char_len [255] = 1).
Defined.
