(* ===== verification/StringFindSpec.v ===== *)
(** * Searching in strings: what is found

    Positions in UTF-8 texts are positions of code points, and parts of a
    string are parts of the list of its characters. *)

From S2P Require Import Prelude Encoding EncodingSpec StringCodec StringBuf.
From S2P Require Import StringFind StringOps StringSpec StringChars.

#[local] Open Scope Z_scope.

(** ** Searching in lists *)

Lemma starts_with_spec big little : starts_with big little = true <-> exists r, big = little ++ r.
Proof.
  revert big. induction little as [|c little IH]; intros big; [destruct big; cbn; split; eauto|].
  destruct big as [|b big]; cbn; [split; [discriminate|intros [r E]; discriminate]|].
  rewrite andb_true_iff, Z.eqb_eq, IH. split.
  - intros [-> [r ->]]. eauto.
  - intros [r [= -> ->]]. eauto.
Qed.

(** The first place: the text before it, and no earlier one *)
Lemma memmem_Some big little i : memmem big little = Some i ->
  exists r, big = take i big ++ little ++ r /\ (i <= length big)%nat /\
            forall j, (j < i)%nat -> starts_with (drop j big) little = false.
Proof.
  revert i. induction big as [|b big IH]; intros i; cbn [memmem]; destruct (starts_with _ _) eqn:S.
  1, 3: intros [= <-]; apply starts_with_spec in S as [r E]; exists r; split; [exact E|]; split; [lia|]; intros j Hj; lia.
  - discriminate.
  - destruct (memmem big little) as [k|]; [|discriminate]. intros [= <-].
    destruct (IH k eq_refl) as (r & E & L & N). exists r. cbn [take app length]. rewrite <-E.
    split; [reflexivity|]. split; [lia|]. intros [|j] Hj; [exact S|]. cbn [drop]. apply N. lia.
Qed.

Lemma memmem_None big little : memmem big little = None -> forall a r, big <> a ++ little ++ r.
Proof.
  induction big as [|b big IH]; cbn [memmem]; destruct (starts_with _ _) eqn:S; try discriminate.
  - intros _ a r E. symmetry in E. apply app_eq_nil in E as [-> E]. rewrite (proj2 (starts_with_spec _ _)) in S; [discriminate|].
    exists r. rewrite E. reflexivity.
  - destruct (memmem big little); [discriminate|]. intros _ [|x a] r E.
    + rewrite (proj2 (starts_with_spec _ _)) in S; [discriminate|]. exists r. exact E.
    + injection E as -> E. exact (IH eq_refl a r E).
Qed.

(** ** Code points in UTF-8 *)

Definition is_trail (b : Z) : Prop := 128 <= b < 192.

Lemma utf8_shape c : scalar c -> exists b l, utf8_bytes c = b :: l /\ ~ is_trail b /\ Forall is_trail l.
Proof.
  unfold scalar, utf8_bytes, is_trail. intros Hc.
  destruct (Z.ltb_spec c 128); [exists c, []; repeat split; [lia|constructor]|].
  destruct (Z.ltb_spec c 2048); [|destruct (Z.ltb_spec c 65536)]; eexists _, _; (split; [reflexivity|]);
    (split; [|repeat constructor]); clia.
Qed.

Abbreviation utf8_text cps := (concat (map utf8_bytes cps)).

Lemma utf8_prefix c d x y : scalar c -> scalar d -> utf8_bytes c ++ x = utf8_bytes d ++ y -> c = d /\ x = y.
Proof.
  intros Hc Hd E. assert (0 <= c < 2097152 /\ 0 <= d < 2097152) as [Bc Bd] by (unfold scalar in *; lia).
  destruct (utf8_spec c x Bc) as [_ Uc], (utf8_spec d y Bd) as [_ Ud].
  assert (c = d) as -> by congruence. split; [reflexivity|]. apply app_inv_head in E. exact E.
Qed.

Lemma utf8_nonempty c : utf8_bytes c <> [].
Proof. unfold utf8_bytes. repeat destruct (_ <? _); discriminate. Qed.

Lemma starts_with_utf8 ns : Forall scalar ns -> forall cps, Forall scalar cps ->
  starts_with (utf8_text cps) (utf8_text ns) = starts_with cps ns.
Proof.
  intros Hn cps Hc. apply eq_bool_prop_intro. rewrite !Is_true_true, !starts_with_spec. split.
  - revert cps Hc. induction Hn as [|n ns Hn Hns IH]; intros cps Hc [r E]; [exists cps; reflexivity|].
    destruct Hc as [|c cps Hc Hcs]; cbn [map concat] in E.
    { pose proof (utf8_nonempty n). destruct (utf8_bytes n); [contradiction|discriminate]. }
    rewrite <-app_assoc in E. destruct (utf8_prefix c n _ _ Hc Hn E) as [-> E'].
    destruct (IH cps Hcs) as [r' ->]; [eauto|]. exists r'. reflexivity.
  - intros [r ->]. exists (utf8_text r). rewrite map_app, concat_app. reflexivity.
Qed.

(** Continuation bytes are not the start of a text. *)
Lemma memmem_trail l rest b little : Forall is_trail l -> ~ is_trail b ->
  memmem (l ++ rest) (b :: little) = Nat.add (length l) <$> memmem rest (b :: little).
Proof.
  intros Hl Hb. induction Hl as [|x l Hx _ IH]; cbn [app length].
  - destruct (memmem rest (b :: little)); reflexivity.
  - cbn [memmem starts_with]. destruct (Z.eqb_spec x b) as [->|_]; [contradiction|]. cbn [andb]. rewrite IH.
    destruct (memmem rest (b :: little)); reflexivity.
Qed.

Lemma memmem_utf8 ns cps : Forall scalar ns -> ns <> [] -> Forall scalar cps ->
  memmem (utf8_text cps) (utf8_text ns) = (λ i, length (utf8_text (take i cps))) <$> memmem cps ns.
Proof.
  intros Hn Nn Hc. pose proof (starts_with_utf8 ns Hn) as S.
  destruct ns as [|n ns]; [contradiction|]. pose proof Hn as Hns. apply Forall_cons in Hn as [Hn _].
  destruct (utf8_shape n Hn) as (b & l & En & Hb & _).
  assert (exists little, utf8_text (n :: ns) = b :: little) as [little El]
    by (cbn [map concat]; rewrite En; cbn [app]; eauto).
  rewrite El in *. induction Hc as [|c cps Hc Hcs IH].
  - reflexivity.
  - pose proof (S (c :: cps) ltac:(constructor; assumption)) as S1.
    destruct (utf8_shape c Hc) as (b' & l' & Ec & _ & Hl').
    cbn [map concat] in S1 |- *. rewrite Ec in S1 |- *. cbn [app] in S1 |- *.
    cbn [memmem]. rewrite S1. change (memmem cps (n :: ns)) with (memmem cps (n :: ns)).
    destruct (starts_with (c :: cps) (n :: ns)) eqn:S2; [reflexivity|].
    rewrite (memmem_trail l' _ b little Hl' Hb), IH.
    destruct (memmem cps (n :: ns)) as [i|]; [|reflexivity]. cbn [fmap option_fmap option_map take map concat].
    rewrite Ec, length_app. reflexivity.
Qed.

Lemma utf8_characters cps : Forall scalar cps -> characters q_UTF8_get_char_len (utf8_text cps) (map utf8_bytes cps).
Proof.
  apply characters_map. intros c q Hc. split; [apply utf8_nonempty|]. apply utf8_spec. unfold scalar in Hc. lia.
Qed.

Lemma utf8_text_take cps n : take n (map utf8_bytes cps) = map utf8_bytes (take n cps).
Proof. apply firstn_map. Qed.

Lemma size_concat_take (cs : list (list Z)) n : (n <= length cs)%nat ->
  Forall (λ c, c <> []) cs -> (n <= length (concat (take n cs)))%nat.
Proof.
  revert n. induction cs as [|c cs IH]; intros [|n] Hn Hc; cbn in *; try lia.
  apply Forall_cons in Hc as [Hc Hcs]. rewrite length_app. specialize (IH n ltac:(lia) Hcs).
  destruct c; [contradiction|]. cbn. lia.
Qed.

Lemma take_all_size (cs : list (list Z)) n : (n < length cs)%nat -> Forall (λ c, c <> []) cs ->
  size (concat (take n cs)) < size (concat cs).
Proof.
  intros Hn Hc. rewrite <-(take_drop n cs) at 2. rewrite concat_app, size_app.
  destruct (drop n cs) as [|c r] eqn:D.
  - apply (f_equal length) in D. rewrite length_drop in D. cbn in D. lia.
  - assert (c <> []) as Nc.
    { rewrite Forall_forall in Hc. apply Hc. rewrite <-(take_drop n cs), D. set_solver. }
    cbn [concat]. rewrite size_app. destruct c; [contradiction|]. rewrite size_cons. pose proof (size_nonneg c).
    pose proof (size_nonneg (concat r)). lia.
Qed.

(** [findByteOffset] for a position in characters, counted from the end when
    it is negative *)
Lemma findByteOffset_chars {e cl} {HE : CharEncoding e cl} t cs pos : characters cl t cs ->
  - 2 ^ 63 <= pos < 2 ^ 63 -> Z.of_nat (length cs) < 2 ^ 63 ->
  findByteOffset e t pos =
  Ret (size (concat (take (Z.to_nat (usz (if pos <? 0 then Z.of_nat (length cs) + pos else pos))) cs))).
Proof.
  intros Hc Hp Hn. unfold findByteOffset. destruct (Z.eqb_spec pos 0) as [->|N]; [reflexivity|].
  assert (forall z, 0 <= usz z) as P by (intros z; apply Z.mod_pos_bound; lia).
  destruct (Z.ltb_spec pos 0).
  - rewrite (char_len t cs Hc). cbn [mbind outcome_bind enc_result].
    rewrite (byte_len t cs) by (assumption || apply P). reflexivity.
  - cbn [mbind outcome_bind]. rewrite (byte_len t cs) by (assumption || apply P). reflexivity.
Qed.

(** [index] finds code points: in a UTF-8 text the position of another one, not empty, is the first place
    at or behind the start position where its code points are a part of those of the text, although the
    bytes are compared. A negative start position counts from the end; -1 is the result when there is no
    such place, when the start position is behind the text and when it is before it. *)
Theorem index_code_points cps ns pos : Forall scalar cps -> Forall scalar ns -> ns <> [] ->
  Z.of_nat (length cps) < 2 ^ 63 -> - 2 ^ 63 <= pos < 2 ^ 63 ->
  let n := Z.of_nat (length cps) in
  let p := if pos <? 0 then n + pos else pos in
  index QCS_UTF8 (utf8_text cps) (utf8_text ns) pos =
  Ret (if (p <? 0) || (n <=? p) then -1
       else match memmem (drop (Z.to_nat p) cps) ns with Some i => p + Z.of_nat i | None => -1 end).
Proof.
  intros Hc Hn Nn Hl Hp n p. pose proof (utf8_characters cps Hc) as C.
  assert (Forall (λ c, c <> []) (map utf8_bytes cps)) as Ne by (apply Forall_map, Forall_forall; intros; apply utf8_nonempty).
  unfold index. cbn [isMultiByte negb QCS_UTF8 flength].
  rewrite (findByteOffset_chars (e := QCS_UTF8) _ _ pos C Hp) by (rewrite length_map; exact Hl).
  rewrite length_map. fold n p. cbn [mbind outcome_bind].
  destruct ((p <? 0) || (n <=? p)) eqn:B.
  - assert (n <= usz p) as U.
    { assert (- 2 ^ 63 <= p < 2 ^ 63) as Pb by (subst n p; destruct (Z.ltb_spec pos 0); lia).
      unfold usz. apply orb_true_iff in B as [B%Z.ltb_lt|B%Z.leb_le].
      - rewrite <-(Z.mod_add p 1 (2 ^ 64)), Z.mod_small by lia. subst n. lia.
      - rewrite Z.mod_small by lia. exact B. }
    rewrite take_ge by (rewrite length_map; subst n; lia). rewrite Z.leb_refl. reflexivity.
  - apply orb_false_iff in B as [B1%Z.ltb_ge B2%Z.leb_gt]. rewrite usz_small by lia.
    pose proof (take_all_size (map utf8_bytes cps) (Z.to_nat p)) as T. rewrite length_map in T.
    specialize (T ltac:(subst n; lia) Ne). destruct (Z.leb_spec (size (utf8_text cps)) (size (concat (take (Z.to_nat p) (map utf8_bytes cps))))); [lia|].
    rewrite to_nat_size, drop_chars, skipn_map. unfold index_simple. change (Z.to_nat 0) with 0%nat. rewrite drop_0.
    rewrite memmem_utf8 by (try apply Forall_drop; assumption).
    destruct (memmem (drop (Z.to_nat p) cps) ns) as [i|] eqn:M; [|reflexivity].
    cbn [fmap option_fmap option_map]. destruct (Z.eqb_spec (Z.of_nat (length (utf8_text (take i (drop (Z.to_nat p) cps)))) + 0) (-1)); [lia|].
    cbn [negb]. rewrite utf8_text_take.
    replace (Z.to_nat (size (utf8_text (take (Z.to_nat p) cps)) + (Z.of_nat (length (utf8_text (take i (drop (Z.to_nat p) cps)))) + 0)))
      with (length (utf8_text (take (Z.to_nat p + i) cps))).
    2: { rewrite <-take_take_drop, map_app, concat_app, length_app. unfold size. lia. }
    rewrite <-utf8_text_take, take_chars, utf8_text_take.
    destruct (memmem_Some _ _ _ M) as (r & _ & Li & _). rewrite length_drop in Li.
    rewrite (getCharPos_x_chars (e := QCS_UTF8) _ (map utf8_bytes (take (Z.to_nat p + i) cps)))
      by (apply utf8_characters, Forall_take, Hc).
    cbn [enc_result]. rewrite length_map, length_take. f_equal. subst n. lia.
Qed.

(** ** Parts of a string *)

Definition substring {A} (l : list A) (offset num : Z) : option (list A) :=
  let n := Z.of_nat (length l) in
  let o := if offset <? 0 then n + offset else offset in
  if (o <? 0) || (n <=? o) then None
  else Some (take (Z.to_nat (if num <? 0 then n - o + num else num)) (drop (Z.to_nat o) l)).

Lemma substr_offset t offset : - 2 ^ 63 <= offset < 2 ^ 63 -> size t < 2 ^ 63 ->
  let o := if offset <? 0 then size t + offset else offset in
  (size t <=? usz o) = (o <? 0) || (size t <=? o) /\ (0 <= o -> usz o = o).
Proof.
  intros Hb Hs o. pose proof (size_nonneg t).
  assert (- 2 ^ 63 <= o < 2 ^ 63) as Ho by (subst o; destruct (Z.ltb_spec offset 0); lia).
  unfold usz. destruct (Z.ltb_spec o 0) as [N|N]; cbn [orb].
  - rewrite <-(Z.mod_add o 1 (2 ^ 64)), Z.mod_small by lia. split; [apply Z.leb_le|]; lia.
  - rewrite Z.mod_small by lia. auto.
Qed.

Lemma substr_simple_spec t offset num : - 2 ^ 63 <= offset < 2 ^ 63 -> size t < 2 ^ 63 ->
  substr_simple t offset num = substring t offset num.
Proof.
  intros Hb Hs. unfold substr_simple, substring. fold (size t).
  destruct (substr_offset t offset Hb Hs) as [-> U].
  destruct (_ || _) eqn:B; [reflexivity|]. apply orb_false_iff in B as [B1%Z.ltb_ge B2%Z.leb_gt].
  rewrite (U B1). set (o := if offset <? 0 then _ else _) in *. f_equal.
  destruct (Z.ltb_spec num 0).
  - destruct (Z.ltb_spec (size t - o + num) 0); [|reflexivity].
    assert (Z.to_nat (size t - o + num) = 0)%nat as -> by lia. reflexivity.
  - destruct (Z.ltb_spec (size t - o) num); [|reflexivity].
    rewrite !take_ge; [reflexivity|rewrite length_drop; unfold size in *; lia..].
Qed.

Section Chars.
Context {e cl} {HE : CharEncoding e cl} (t : list Z) (cs : list (list Z)) (Hc : characters cl t cs).
Context (small : Z.of_nat (length cs) < 2 ^ 31).

Lemma characters_nonempty : Forall (λ c, c <> []) cs.
Proof.
  clear small. induction Hc as [|c q cs' Hne L Hq IH]; [apply Forall_nil_2|apply Forall_cons_2; [exact Hne|apply IH, Hq]].
Qed.

Lemma complex_offset_spec wrap offset : wrap (Z.of_nat (length cs)) = Z.of_nat (length cs) ->
  let o := if offset <? 0 then Z.of_nat (length cs) + offset else offset in
  complex_offset e wrap t offset =
  Ret (if (offset <? 0) && ((o <? 0) || (Z.of_nat (length cs) <=? o)) then None else Some o).
Proof.
  intros W o. unfold complex_offset. subst o. destruct (offset <? 0); [|reflexivity].
  rewrite (char_len t cs Hc). cbn [mbind outcome_bind enc_result]. rewrite W. cbn [andb].
  destruct (_ || _); reflexivity.
Qed.

(** The start in bytes, for an offset that is not before the text *)
Lemma start_in_text o : 0 <= o ->
  getByteLen_x e t o = inl (size (concat (take (Z.to_nat o) cs))) /\
  ((size (concat (take (Z.to_nat o) cs)) =? size t) = (Z.of_nat (length cs) <=? o)) /\
  drop (length (concat (take (Z.to_nat o) cs))) t = concat (drop (Z.to_nat o) cs).
Proof.
  intros Ho. split; [apply byte_len; [exact Hc|lia]|]. rewrite (characters_concat _ _ _ Hc), drop_chars.
  split; [|reflexivity]. destruct (Z.leb_spec (Z.of_nat (length cs)) o).
  - rewrite take_ge by lia. apply Z.eqb_refl.
  - pose proof (take_all_size cs (Z.to_nat o) ltac:(lia) characters_nonempty). apply Z.eqb_neq. lia.
Qed.

Lemma substr_complex_spec offset num :
  substr_complex e t offset num = Ret (@concat Z <$> substring cs offset num).
Proof.
  unfold substr_complex, substring. rewrite (complex_offset_spec i32)
    by (apply i32_id; unfold in_i32; lia). cbn [mbind outcome_bind].
  set (o := if offset <? 0 then Z.of_nat (length cs) + offset else offset).
  destruct ((o <? 0) || (Z.of_nat (length cs) <=? o)) eqn:B.
  - destruct (Z.ltb_spec offset 0) as [H|H]; [reflexivity|]. cbn [andb].
    apply orb_true_iff in B as [B%Z.ltb_lt|B]; [subst o; lia|]. apply Z.leb_le in B as B'.
    destruct (start_in_text o) as (E1 & E2 & _); [lia|]. rewrite E1. cbn [mbind outcome_bind enc_result].
    rewrite E2, B. reflexivity.
  - rewrite andb_false_r. apply orb_false_iff in B as [B1%Z.ltb_ge B2].
    destruct (start_in_text o B1) as (E1 & E2 & D). rewrite E1. cbn [mbind outcome_bind enc_result].
    rewrite E2, B2, to_nat_size, D.
    apply Z.leb_gt in B2. pose proof (characters_drop cl t cs (Z.to_nat o) Hc) as Hd.
    assert ((if num <? 0 then l ← enc_result (getLength_x e (concat (drop (Z.to_nat o) cs)));
                              Ret (if l + num <? 0 then 0 else l + num) else Ret num) =
            Ret (Z.max 0 (if num <? 0 then Z.of_nat (length cs) - o + num else num))) as ->.
    { destruct (Z.ltb_spec num 0); [|f_equal; lia].
      rewrite (char_len _ _ Hd), length_drop. cbn [mbind outcome_bind enc_result]. f_equal.
      destruct (Z.ltb_spec (Z.of_nat (length cs - Z.to_nat o) + num) 0); lia. }
    cbn [mbind outcome_bind]. rewrite (byte_len _ _ _ Hd) by lia. cbn [mbind outcome_bind enc_result].
    rewrite to_nat_size, take_chars. cbn [fmap option_fmap option_map]. do 4 f_equal. lia.
Qed.

Lemma substr_complex_off_spec offset :
  substr_complex_off e t offset = Ret (@concat Z <$> substring cs offset (Z.of_nat (length cs))).
Proof.
  unfold substr_complex_off, substring. rewrite (complex_offset_spec (λ z, z)) by reflexivity. cbn [mbind outcome_bind].
  set (o := if offset <? 0 then Z.of_nat (length cs) + offset else offset).
  destruct ((o <? 0) || (Z.of_nat (length cs) <=? o)) eqn:B.
  - destruct (Z.ltb_spec offset 0) as [H|H]; [reflexivity|]. cbn [andb].
    apply orb_true_iff in B as [B%Z.ltb_lt|B]; [subst o; lia|]. apply Z.leb_le in B as B'.
    destruct (start_in_text o) as (E1 & E2 & _); [lia|]. rewrite E1. cbn [mbind outcome_bind enc_result].
    rewrite E2, B. reflexivity.
  - rewrite andb_false_r. apply orb_false_iff in B as [B1%Z.ltb_ge B2].
    destruct (start_in_text o B1) as (E1 & E2 & D). rewrite E1. cbn [mbind outcome_bind enc_result].
    rewrite E2, B2, to_nat_size, D.
    destruct (Z.ltb_spec (Z.of_nat (length cs)) 0); [lia|]. rewrite Nat2Z.id, take_ge; [reflexivity|].
    rewrite length_drop. lia.
Qed.
End Chars.

(** [substr] gives the part of the string that its arguments mean, or nothing when the offset is outside of
    it: of the bytes for an encoding with one byte for a character, and of the characters for another. *)
Theorem substr_parts e t offset num : - 2 ^ 63 <= offset < 2 ^ 63 -> size t < 2 ^ 31 ->
  (isMultiByte e = false ->
     substr e t offset num = Ret (substring t offset num) /\
     substr_off e t offset = Ret (substring t offset (size t))) /\
  (forall cl (HE : CharEncoding e cl) cs, characters cl t cs ->
     substr e t offset num = Ret (@concat Z <$> substring cs offset num) /\
     substr_off e t offset = Ret (@concat Z <$> substring cs offset (Z.of_nat (length cs)))).
Proof.
  intros Hb Hs. unfold substr, substr_off. split.
  - intros ->. cbn [negb]. rewrite substr_simple_spec by lia. split; [reflexivity|]. f_equal.
    unfold substr_simple_off, substring. fold (size t).
    destruct (substr_offset t offset Hb ltac:(lia)) as [-> U].
    destruct (_ || _) eqn:B; [reflexivity|]. apply orb_false_iff in B as [B1%Z.ltb_ge _]. rewrite (U B1).
    pose proof (size_nonneg t). destruct (Z.ltb_spec (size t) 0); [lia|].
    rewrite take_ge; [reflexivity|]. rewrite to_nat_size, length_drop. lia.
  - intros cl HE cs Hc. rewrite (isMultiByte_true (HE := HE)). cbn [negb].
    assert (Z.of_nat (length cs) < 2 ^ 31) as small.
    { pose proof (size_concat_take cs (length cs) (le_n _) (characters_nonempty t cs Hc)) as L.
      rewrite take_ge, <-(characters_concat _ _ _ Hc) in L by lia. unfold size in Hs. lia. }
    split; [apply (substr_complex_spec (HE := HE) t cs Hc small)|apply (substr_complex_off_spec (HE := HE) t cs Hc)].
Qed.

(** ** Examples *)

(** [findAny] looks for the whole string. *)
Example findAny_is_strstr : findAny (txt "abc") (txt "cb") 0 = -1 /\ findAny (txt "abc") (txt "bc") 0 = 1.
Proof. vm_compute. split; reflexivity. Qed.

(** Only the bytes that both strings have are compared. *)
Example compareSoft_prefix : compareSoft (txt "ab") (txt "abc") = 0 /\ compareSoft (txt "abc") [] = 0 /\
  compareSoft [] (txt "abc") = 1 /\ compare true (txt "ab") (txt "abc") = -1.
Proof. vm_compute. repeat split; reflexivity. Qed.

(** [bindex] of a string with a negative position: the sum of the sizes wraps around. *)
Example bindex_negative : bindex (txt "abcabc") (txt "bc") (-3) = -1 /\ bindex_c (txt "abcabc") (txt "bc") (-3) 2 = 4.
Proof. vm_compute. split; reflexivity. Qed.

(** [brindex] does not find the string itself. *)
Example brindex_itself : brindex (txt "abc") (txt "abc") (-1) = -1 /\ rindex_simple (txt "abc") (txt "abc") 2 = 0.
Proof. vm_compute. split; reflexivity. Qed.

(** [rindex] searches up to the first byte of the character at the position. *)
Example rindex_last_character : rindex QCS_UTF8 (utf8_text [97; 233]) (utf8_text [233]) (-1) = Ret (-1).
Proof. vm_compute. reflexivity. Qed.

(** A place can be in the middle of a character of a UTF-16 text. *)
Example index_between_characters : index QCS_UTF16BE [1; 65; 66; 1] [65; 66] 0 = Raise Encoding.INVALID_ENCODING.
Proof. vm_compute. reflexivity. Qed.

Lemma index_code_points_witness :
  index QCS_UTF8 (utf8_text [8364; 65; 8364; 66]) (utf8_text [8364; 66]) (-3) = Ret 2.
Proof.
  apply (index_code_points [8364; 65; 8364; 66] [8364; 66] (-3));
    [repeat constructor; unfold scalar; lia..|discriminate|vm_compute; reflexivity|lia].
Defined.

Lemma substr_parts_witness :
  substr QCS_UTF8 [226; 130; 172; 65; 66] (-2) 1 = Ret (Some [65]) /\
  substr (single_byte "US-ASCII") [65; 66; 67] (-2) 1 = Ret (Some [66]).
Proof.
  assert (characters q_UTF8_get_char_len [226; 130; 172; 65; 66] [[226; 130; 172]; [65]; [66]]) as H.
  { apply (chars_cons _ [226; 130; 172] [65; 66]); [discriminate|reflexivity|].
    apply (chars_cons _ [65] [66]); [discriminate|reflexivity|].
    apply (chars_cons _ [66] []); [discriminate|reflexivity|constructor]. }
  split.
  - exact (proj1 (proj2 (substr_parts QCS_UTF8 [226; 130; 172; 65; 66] (-2) 1 ltac:(lia) ltac:(vm_compute; reflexivity))
                    _ _ _ H)).
  - exact (proj1 (proj1 (substr_parts (single_byte "US-ASCII") [65; 66; 67] (-2) 1 ltac:(lia) ltac:(vm_compute; reflexivity))
                    eq_refl)).
Defined.
