(* ===== verification/StringReplace.v ===== *)
(** * Replacing all places of a string

    [replaceAll] ends, and replaces the places from left to right without
    going back to what it has written. *)

From S2P Require Import Prelude Encoding EncodingSpec StringBuf StringFind.
From S2P Require Import StringOps StringSpec StringChars StringFindSpec.

#[local] Open Scope Z_scope.

(** ** The memory that operations need *)

Lemma bind_Ret {A B} (m : outcome A) (f : A -> outcome B) x : m ≫= f = Ret x -> exists a, m = Ret a /\ f a = Ret x.
Proof. destruct m; try discriminate. eauto. Qed.

Ltac inv_bind H :=
  let a := fresh "a" in let Ha := fresh "Ha" in
  apply bind_Ret in H as (a & Ha & H).

Lemma mem_write_size b i xs b' : mem_write b i xs = Ret b' -> size b' = size b.
Proof.
  unfold mem_write. destruct (Z.leb_spec 0 i), (Z.leb_spec (i + size xs) (size b)); try discriminate. cbn.
  intros [= <-]. unfold size in *. rewrite !length_app, length_take, length_drop. lia.
Qed.

Lemma memmove_size b d s n b' : memmove b d s n = Ret b' -> size b' = size b.
Proof. unfold memmove. intros H. inv_bind H. exact (mem_write_size _ _ _ _ H). Qed.

Lemma set_len_alloc b l s : set_len b l = Ret s -> allocated s = size b.
Proof. unfold set_len. intros H. inv_bind H. injection H as <-. exact (mem_write_size _ _ _ _ Ha). Qed.

Section Replace.
Context (garbage : nat -> Z).

Lemma check_char_alloc i s : 0 <= i -> allocated (check_char garbage i s) <= Z.max (allocated s) (2 * i + 80).
Proof.
  intros Hi. unfold check_char. destruct (Z.leb_spec (allocated s) i); [|lia].
  set (d := Z.shiftr i 2). assert (0 <= d <= i) as Hd by (subst d; rewrite Z.shiftr_div_pow2 by lia; clia).
  unfold allocated in *. cbn [buf]. unfold realloc, size, STR_CLASS_BLOCK in *.
  rewrite length_app, length_take, length_map, length_seq.
  destruct (Z.ltb_spec d 64); rewrite quot_pos by lia; clia.
Qed.

Lemma replace_bytes_alloc dst src o end_ n str s s' : replace_bytes garbage dst src o end_ n str s = Ret s' ->
  0 <= usz (len s + size str - n) <= len s + size str ->
  allocated s' <= Z.max (allocated s) (2 * (len s + size str) + 80).
Proof.
  unfold replace_bytes. intros H Hu. inv_bind H. inv_bind H.
  rewrite (set_len_alloc _ _ _ H), (mem_write_size _ _ _ _ Ha0). fold (allocated s).
  destruct (_ <? _); [|destruct (_ <? _)].
  - pose proof (check_char_alloc (usz (len s + size str - n)) s ltac:(lia)) as C.
    destruct (_ =? _); [injection Ha as <-|apply memmove_size in Ha; rewrite Ha]; unfold allocated in *; lia.
  - apply memmove_size in Ha. unfold allocated. lia.
  - injection Ha as <-. unfold allocated. lia.
Qed.

Lemma replace_alloc s t offset dlen str s' : rep s t -> fits (allocated s) -> fits (size (cstr str)) ->
  0 <= offset -> 0 <= dlen -> offset + dlen <= size t ->
  replace garbage offset dlen str s = Ret s' ->
  allocated s' <= Z.max (allocated s) (2 * (size t + size (cstr str)) + 80).
Proof.
  intros R Ha Hs Ho Hd Hod. pose proof (rep_allocated _ _ R) as Al. pose proof (size_nonneg (cstr str)).
  unfold replace, only_string, fits in *. intros H0. inv_bind H0. destruct a as [x s1]. injection H0 as ->.
  destruct (Z.eqb_spec (size (cstr str)) 0) as [E|E]; [clear E|].
  - unfold splice_simple_del in Ha0. destruct (clip _ _ _). inv_bind Ha0. inv_bind Ha0. inv_bind Ha0.
    injection Ha0 as _ ->. apply set_len_alloc in Ha3. rewrite Ha3.
    destruct (_ =? _); [injection Ha2 as <-|apply memmove_size in Ha2]; unfold allocated in *; lia.
  - unfold splice_simple_ins in Ha0. destruct R as [L _].
    rewrite L in Ha0. unfold clip in Ha0. rewrite (usz_small (size t - offset)) in Ha0 by lia.
    destruct (Z.ltb_spec (size t - offset) dlen); [lia|]. inv_bind Ha0. inv_bind Ha0. injection Ha0 as _ ->.
    rewrite <-L. apply (replace_bytes_alloc _ _ _ _ _ _ _ _ Ha2). rewrite L, usz_small; lia.
Qed.

(** ** The specification *)

Fixpoint replace_spec (fuel : nat) (old_str new_str t : list Z) : list Z :=
  match fuel with
  | O => t
  | S fuel =>
    match memmem t old_str with
    | None => t
    | Some i => take i t ++ new_str ++ replace_spec fuel old_str new_str (drop (i + length old_str) t)
    end
  end.

Context (old_str new_str : list Z).
#[local] Abbreviation old := (cstr old_str).
#[local] Abbreviation new := (cstr new_str).
Context (old_nonempty : old <> []) (sizes : size old < 2 ^ 31 /\ size new < 2 ^ 31 /\ size new_str < 2 ^ 62).

(** A place is replaced by fewer bytes, so that the rest of the text moves down. *)
Definition shrinks : Prop := new <> [] /\ size new < size old.

Lemma bindex_start a r : bindex_c (a ++ r) old_str (size a) 0 =
  match memmem r old with Some i => Z.of_nat i + size a | None => -1 end.
Proof.
  unfold bindex_c. cbn [Z.eqb]. pose proof (size_nonneg a). destruct (Z.ltb_spec (size a) 0); [lia|].
  rewrite size_app. destruct (Z.leb_spec (size a + size r) (size a)) as [H1|H1].
  - assert (r = []) as -> by (apply size_nil_iff; pose proof (size_nonneg r); lia).
    destruct old; [contradiction|reflexivity].
  - unfold index_simple. rewrite to_nat_size, drop_app_length. reflexivity.
Qed.

Lemma replace_step s a r i : rep s (a ++ r) -> memmem r old = Some i ->
  allocated s <= 2 ^ 61 ->
  2 * (size (a ++ r) + size new) + 80 <= 2 ^ 61 ->
  replace garbage (Z.of_nat i + size a) (i32 (size old)) new_str s = MemError /\ shrinks \/
  exists s', replace garbage (Z.of_nat i + size a) (i32 (size old)) new_str s = Ret s' /\
             rep s' ((a ++ take i r ++ new) ++ drop (i + length old) r) /\ allocated s' <= 2 ^ 61.
Proof.
  intros R M Hal Hsz. destruct sizes as (So & Sn & Sn'). pose proof (size_nonneg old). pose proof (size_nonneg new).
  pose proof (size_nonneg a). pose proof (rep_allocated _ _ R) as Al.
  rewrite i32_id by (unfold in_i32; lia).
  destruct (memmem_Some _ _ _ M) as (q & Er & Li & _).
  assert (i + length old <= length r)%nat as Lr.
  { rewrite Er, !length_app, length_take. lia. }
  assert (fits (allocated s)) as Fa by (unfold fits; pose proof (size_nonneg (a ++ r)); lia).
  pose proof (replace_single garbage s (a ++ r) (Z.of_nat i + size a) (size old) new_str R Fa) as P.
  assert (op_ok (a ++ r) (OpReplace (Z.of_nat i + size a) (size old) new_str)) as Hok.
  { cbn [op_ok]. unfold fits. rewrite size_app. pose proof (size_nonneg new_str). unfold size in *. lia. }
  specialize (P Hok).
  assert (norm_offset (a ++ r) (Z.of_nat i + size a) = length a + i)%nat as No.
  { unfold norm_offset. rewrite length_app. unfold size. destruct (Z.ltb_spec (Z.of_nat i + Z.of_nat (length a)) 0); lia. }
  assert (norm_count (a ++ r) (Z.of_nat i + size a) (size old) = length old) as Nc.
  { unfold norm_count. rewrite No, length_app. unfold size. destruct (Z.ltb_spec (Z.of_nat (length old)) 0); lia. }
  destruct (decide _) as [O|_].
  { left. cbn [overrun] in O. rewrite Nc in O. destruct O as [N [O _]]. fold (size old) in O.
    split; [|split; [exact N|lia]]. unfold no_result in P. destruct (replace _ _ _ _ s); try discriminate. reflexivity. }
  destruct P as (s' & Es & Rs). unfold only, spliced in Es, Rs. cbn [fst snd] in Es, Rs. rewrite No, Nc in Rs.
  unfold no_result in Es. inv_bind Es. injection Es as <-. right. exists a0. split; [exact Ha|].
  split.
  - rewrite take_app_add, <-Nat.add_assoc, drop_app_add, <-!app_assoc in Rs. rewrite <-!app_assoc. exact Rs.
  - pose proof (replace_alloc s (a ++ r) (Z.of_nat i + size a) (size old) new_str a0 R Fa) as B. rewrite size_app in *.
    assert (Z.of_nat i + size old <= size r) by (unfold size; lia).
    specialize (B ltac:(unfold fits; lia) ltac:(lia) ltac:(lia) ltac:(lia) Ha). lia.
Qed.

Lemma replaceAll_loop_spec fuel : forall s a r, rep s (a ++ r) -> (length r < fuel)%nat ->
  allocated s <= 2 ^ 61 -> 2 * (size a + size r * (1 + size new) + size new) + 80 <= 2 ^ 61 ->
  replaceAll_loop garbage fuel old_str new_str (size a) s = MemError /\ shrinks \/
  exists s', replaceAll_loop garbage fuel old_str new_str (size a) s = Ret s' /\
             rep s' (a ++ replace_spec fuel old new r).
Proof.
  induction fuel as [|fuel IH]; intros s a r R Hf Hal Hsz; [lia|]. cbn [replaceAll_loop replace_spec].
  pose proof (size_nonneg a). pose proof (size_nonneg r). pose proof (size_nonneg new). destruct sizes as (So & Sn & Sn').
  rewrite (rep_text _ _ R), bindex_start. destruct (memmem r old) as [i|] eqn:M.
  2: { cbn. eauto. }
  destruct (Z.ltb_spec (Z.of_nat i + size a) 0); [lia|].
  destruct (replace_step s a r i R M Hal) as [[-> Sh]|(s1 & -> & R1 & Hal1)];
    [rewrite size_app; nia|left; split; [reflexivity|exact Sh]|].
  cbn [mbind outcome_bind]. rewrite i32_id by (unfold in_i32; lia).
  destruct (memmem_Some _ _ _ M) as (q & Er & Li & _).
  assert (length old <> 0)%nat as Lo by (destruct old; [contradiction|discriminate]).
  assert (i + length old <= length r)%nat as Lr by (rewrite Er, !length_app, length_take; lia).
  replace (Z.of_nat i + size a + size new) with (size (a ++ take i r ++ new)).
  2: { rewrite !size_app. unfold size. rewrite length_take. lia. }
  destruct (IH s1 (a ++ take i r ++ new) (drop (i + length old) r) R1) as [[E2 Sh]|(s2 & E2 & R2)].
  - rewrite length_drop. lia.
  - exact Hal1.
  - rewrite !size_app. unfold size at 2 4. rewrite length_take, length_drop.
    assert (size r = Z.of_nat (length r)) as Sr by reflexivity. rewrite Sr in Hsz.
    assert (Z.of_nat (length r - (i + length old)) <= Z.of_nat (length r) - Z.of_nat i - 1) by lia.
    nia.
  - left. split; [exact E2|exact Sh].
  - right. exists s2. split; [exact E2|]. rewrite <-!app_assoc in R2. exact R2.
Qed.
End Replace.

Lemma replace_spec_fuel old new : old <> [] -> forall n m t, (length t < n)%nat -> (length t < m)%nat ->
  replace_spec n old new t = replace_spec m old new t.
Proof.
  intros N. induction n as [|n IH]; intros [|m] t Hn Hm; try lia. cbn [replace_spec].
  destruct (memmem t old) as [i|] eqn:M; [|reflexivity]. destruct (memmem_Some _ _ _ M) as (q & Er & Li & _).
  assert (length old <> 0)%nat by (destruct old; [contradiction|discriminate]).
  assert (i + length old <= length t)%nat by (rewrite Er, !length_app, length_take; lia).
  do 2 f_equal. apply IH; rewrite length_drop; lia.
Qed.

(** What is left of [old] is at the borders of the parts that are kept. *)
Definition replaced (old new t : list Z) : list Z := replace_spec (S (length t)) old new t.

Lemma replaced_step old new t : old <> [] ->
  replaced old new t =
  match memmem t old with
  | None => t
  | Some i => take i t ++ new ++ replaced old new (drop (i + length old) t)
  end.
Proof.
  intros N. unfold replaced at 1. cbn [replace_spec]. destruct (memmem t old) as [i|] eqn:M; [|reflexivity].
  do 2 f_equal. unfold replaced. destruct (memmem_Some _ _ _ M) as (q & Er & Li & _).
  assert (length old <> 0)%nat by (destruct old; [contradiction|discriminate]).
  assert (i + length old <= length t)%nat by (rewrite Er, !length_app, length_take; lia).
  apply replace_spec_fuel; [exact N|rewrite length_drop; lia..].
Qed.

(** C33: [replaceAll] of a string that is not empty ends, with one pass for each place and one more, for all
    sizes for which the numbers of the program are wide enough. The text is then the one with all places
    replaced from left to right. The one other end is a read behind the buffer, which needs a new string that
    is smaller than the old one and not empty: then the splice of a place moves too many bytes. *)
Theorem replaceAll_correct garbage s t old_str new_str :
  rep s t -> cstr old_str <> [] ->
  size (cstr old_str) < 2 ^ 31 /\ size (cstr new_str) < 2 ^ 31 /\ size new_str < 2 ^ 62 ->
  allocated s <= 2 ^ 61 -> 2 * (size t * (1 + size (cstr new_str)) + size (cstr new_str)) + 80 <= 2 ^ 61 ->
  replaceAll garbage old_str new_str s = MemError /\ (cstr new_str <> [] /\ size (cstr new_str) < size (cstr old_str)) \/
  exists s', replaceAll garbage old_str new_str s = Ret s' /\
             rep s' (replaced (cstr old_str) (cstr new_str) t).
Proof.
  intros R No Hs Ha Hsz. unfold replaceAll, replaced. pose proof R as [L _]. rewrite L, to_nat_size.
  exact (replaceAll_loop_spec garbage old_str new_str No Hs (S (length t)) s [] t R (le_n _) Ha Hsz).
Qed.

(** ** Examples *)

(** The empty string is found at every place, so that replacing it does not end. *)
Example replaceAll_empty fuel : replaceAll_loop (λ _, 0) fuel [] [] 0 (mkStr [65; 0] 1) = NoFuel.
Proof. induction fuel as [|fuel IH]; [reflexivity|exact IH]. Qed.

Lemma replaceAll_correct_witness :
  exists s', replaceAll (λ _, 7) [97; 98] [120; 121; 122] (mkStr [97; 98; 97; 97; 98; 0] 5) = Ret s' /\
             rep s' [120; 121; 122; 97; 120; 121; 122].
Proof.
  destruct (replaceAll_correct (λ _, 7) (mkStr [97; 98; 97; 97; 98; 0] 5) [97; 98; 97; 97; 98] [97; 98] [120; 121; 122])
    as [[_ [_ H]]|H].
  - split; [reflexivity|exists []; reflexivity].
  - discriminate.
  - repeat split.
  - discriminate.
  - discriminate.
  - discriminate.
  - exact H.
Defined.
