(* ===== verification/StringTrim.v ===== *)
(** * Trimming characters and reversing a string

    The functions that take characters off both ends of a UTF-8 text compare
    code points; [reverse] puts the characters in the opposite order. *)

From S2P Require Import Prelude Encoding EncodingSpec StringBuf StringFind.
From S2P Require Import StringOps StringSpec StringChars StringFindSpec.

#[local] Open Scope Z_scope.

Section Trim.
Context (garbage : nat -> Z) (conv : QoreEncoding -> Z -> list Z).

Lemma getUnicode_utf8 c cps : scalar c -> Forall scalar cps ->
  getUnicode QCS_UTF8 conv (utf8_text (c :: cps)) = inl (c, size (utf8_bytes c)).
Proof.
  intros Hc Hcs. unfold getUnicode.
  rewrite (byte_len (e := QCS_UTF8) _ (map utf8_bytes (c :: cps))) by (try lia; apply utf8_characters; constructor; assumption).
  change (Z.to_nat 1) with 1%nat. cbn [map take concat get_unicode QCS_UTF8]. rewrite app_nil_r.
  destruct (utf8_spec c (utf8_text cps)) as [_ ->]; [unfold scalar in Hc; lia|]. reflexivity.
Qed.

Lemma i32_scalar c : scalar c -> i32 c = c.
Proof. intros H. apply i32_id. unfold scalar, in_i32 in *. lia. Qed.

Lemma drop_utf8 c cps : drop (Z.to_nat (size (utf8_bytes c))) (utf8_text (c :: cps)) = utf8_text cps.
Proof. rewrite to_nat_size. cbn [map concat]. apply drop_app_length. Qed.

Lemma utf8_cons_nonempty c cps : exists b l, utf8_text (c :: cps) = b :: l.
Proof. pose proof (utf8_nonempty c). cbn [map concat]. destruct (utf8_bytes c); [contradiction|]. cbn [app]. eauto. Qed.

Lemma utf8_text_longer cps : (length cps <= length (utf8_text cps))%nat.
Proof.
  pose proof (size_concat_take (map utf8_bytes cps) (length cps)) as H. rewrite length_map in H.
  rewrite take_ge in H by (rewrite length_map; lia). apply H; [lia|]. apply Forall_map, Forall_forall.
  intros; apply utf8_nonempty.
Qed.

Lemma unicode_chars_utf8 fuel : forall cps, Forall scalar cps -> (length cps < fuel)%nat ->
  unicode_chars conv QCS_UTF8 fuel (utf8_text cps) = Ret cps.
Proof.
  induction fuel as [|fuel IH]; intros cps Hc L; [lia|]. destruct Hc as [|c cps Hc Hcs]; [reflexivity|].
  cbn [unicode_chars]. destruct (utf8_cons_nonempty c cps) as (b & l & E). rewrite E. rewrite <-E.
  rewrite getUnicode_utf8 by assumption. cbn [mbind outcome_bind enc_result].
  rewrite drop_utf8, IH by (cbn in L; assumption || lia). cbn [mbind outcome_bind]. rewrite i32_scalar by exact Hc.
  reflexivity.
Qed.

(** The characters that are taken off *)
Definition trimmed_char (cvec : list Z) (c : Z) : bool := (c =? 0) || in_vector c cvec.

Lemma leading_bytes_utf8 cvec fuel : forall cps, Forall scalar cps -> (length cps < fuel)%nat ->
  exists a, cps = a ++ drop_while (trimmed_char cvec) cps /\
            leading_bytes QCS_UTF8 conv fuel cvec (utf8_text cps) = Ret (size (utf8_text a)).
Proof.
  induction fuel as [|fuel IH]; intros cps Hc L; [lia|]. destruct Hc as [|c cps Hc Hcs]; [exists []; split; reflexivity|].
  cbn [leading_bytes]. destruct (utf8_cons_nonempty c cps) as (b & l & E). rewrite E. rewrite <-E.
  rewrite getUnicode_utf8 by assumption. cbn [mbind outcome_bind enc_result drop_while].
  unfold trimmed_char. rewrite <-negb_orb. destruct ((c =? 0) || in_vector c cvec) eqn:T; cbn [negb].
  - rewrite drop_utf8. destruct (IH cps Hcs ltac:(cbn in L; lia)) as (a & Ea & ->). exists (c :: a).
    cbn [app map concat mbind outcome_bind]. rewrite size_app. split; [f_equal; exact Ea|reflexivity].
  - exists []. split; reflexivity.
Qed.

Lemma char_set_utf8 vs : Forall scalar vs -> char_set conv (Some (QCS_UTF8, utf8_text vs)) = Ret vs.
Proof.
  intros H. apply unicode_chars_utf8; [exact H|]. pose proof (utf8_text_longer vs). lia.
Qed.

Lemma trimLeading_utf8 chars cvec s cps : char_set conv chars = Ret cvec -> Forall scalar cps ->
  rep s (utf8_text cps) ->
  exists s', trimLeading QCS_UTF8 conv chars s = Ret s' /\ rep s' (utf8_text (drop_while (trimmed_char cvec) cps)).
Proof.
  intros Hv Hc R. unfold trimLeading. rewrite Hv. cbn [mbind outcome_bind]. pose proof R as [L _].
  rewrite (rep_text _ _ R), L. destruct (Z.eqb_spec (size (utf8_text cps)) 0) as [E|_].
  { apply size_nil_iff in E. destruct cps as [|c cps]; [eauto|].
    destruct (utf8_cons_nonempty c cps) as (b & l & E'). congruence. }
  destruct (leading_bytes_utf8 cvec (S (length (utf8_text cps))) cps Hc) as (a & Ea & ->);
    [pose proof (utf8_text_longer cps); lia|]. cbn [mbind outcome_bind].
  set (r := drop_while _ cps) in *.
  assert (size (utf8_text cps) = size (utf8_text a) + size (utf8_text r)) as Es
    by (rewrite Ea, map_app, concat_app, size_app; reflexivity).
  rewrite Ea, map_app, concat_app in R.
  destruct (move_to_start s (utf8_text a) (utf8_text r) (size (utf8_text cps) + 1 - size (utf8_text a)) R) as (b & -> & Rb);
    [lia|]. cbn [mbind outcome_bind]. eexists. split; [reflexivity|].
  replace (size (utf8_text cps) - size (utf8_text a)) with (size (utf8_text r)) by lia. exact Rb.
Qed.

Lemma trimTrailing_loop_utf8 cvec cps : Forall scalar cps -> forall s, rep s (utf8_text cps) ->
  exists s', trimTrailing_loop garbage QCS_UTF8 conv (length cps) cvec s = Ret s' /\
             rep s' (utf8_text (drop_trailing (trimmed_char cvec) cps)).
Proof.
  induction cps as [|c l IH] using rev_ind; intros Hc s R; [cbn; eauto|].
  apply Forall_app in Hc as [Hl Hc]. apply Forall_cons in Hc as [Hc _].
  rewrite length_app, Nat.add_1_r. cbn [trimTrailing_loop]. rewrite (rep_text _ _ R).
  assert (characters q_UTF8_get_char_len (utf8_text (l ++ [c])) (map utf8_bytes (l ++ [c]))) as C
    by (apply utf8_characters, Forall_app; auto).
  rewrite (byte_len (e := QCS_UTF8) _ _ _ C) by lia. cbn [mbind outcome_bind enc_result].
  rewrite Nat2Z.id, utf8_text_take, take_app_length, to_nat_size.
  rewrite map_app, concat_app, drop_app_length, getUnicode_utf8 by (assumption || constructor).
  cbn [mbind outcome_bind enc_result]. unfold drop_trailing. rewrite rev_app_distr. cbn [rev app drop_while].
  unfold trimmed_char at 1. rewrite <-negb_orb. destruct ((c =? 0) || in_vector c cvec) eqn:T; cbn [negb].
  - rewrite map_app, concat_app in R.
    destruct (terminate_rep garbage s _ (utf8_text l) (utf8_text [c]) R eq_refl) as (s1 & -> & R1).
    cbn [mbind outcome_bind]. exact (IH Hl s1 R1).
  - exists s. split; [reflexivity|]. cbn [rev]. rewrite rev_involutive. exact R.
Qed.

Lemma trimTrailing_utf8 chars cvec s cps : char_set conv chars = Ret cvec -> Forall scalar cps ->
  rep s (utf8_text cps) ->
  exists s', trimTrailing garbage QCS_UTF8 conv chars s = Ret s' /\
             rep s' (utf8_text (drop_trailing (trimmed_char cvec) cps)).
Proof.
  intros Hv Hc R. unfold trimTrailing. rewrite Hv. cbn [mbind outcome_bind]. pose proof R as [L _].
  rewrite (rep_text _ _ R), L. destruct (Z.eqb_spec (size (utf8_text cps)) 0) as [E|E].
  { apply size_nil_iff in E. destruct cps as [|c cps]; [eauto|].
    destruct (utf8_cons_nonempty c cps) as (b & l & E'). congruence. }
  rewrite (char_len (e := QCS_UTF8) _ _ (utf8_characters cps Hc)), length_map. cbn [mbind outcome_bind enc_result].
  destruct (Z.eqb_spec (Z.of_nat (length cps)) 0) as [E0|_].
  { destruct cps; [destruct E; reflexivity|discriminate]. }
  rewrite Nat2Z.id. apply trimTrailing_loop_utf8; assumption.
Qed.

Lemma scalar_drop_while f cps : Forall scalar cps -> Forall scalar (drop_while f cps).
Proof. induction 1 as [|c cps Hc Hcs IH]; cbn; [constructor|]. destruct (f c); [exact IH|constructor; assumption]. Qed.

(** Trimming a UTF-8 text takes off exactly the code points at its start and end that are in the given
    set, the white space by default, and NUL. *)
Theorem trim_code_points vs s cps : Forall scalar vs -> Forall scalar cps -> rep s (utf8_text cps) ->
  let trims (chars : option (QoreEncoding * list Z)) (set : list Z) :=
    let f c := (c =? 0) || existsb (Z.eqb c) set in
    exists s', trim_chars garbage QCS_UTF8 conv chars s = Ret s' /\
               rep s' (utf8_text (drop_trailing f (drop_while f cps))) in
  trims (Some (QCS_UTF8, utf8_text vs)) vs /\ trims None default_whitespace.
Proof.
  intros Hv Hc R trims.
  assert (forall chars set, char_set conv chars = Ret set -> trims chars set) as T.
  { intros chars set E. unfold trims, trim_chars.
    destruct (trimLeading_utf8 chars set s cps E Hc R) as (s1 & -> & R1). cbn [mbind outcome_bind].
    destruct (trimTrailing_utf8 chars set s1 _ E (scalar_drop_while _ _ Hc) R1) as (s2 & -> & R2).
    exists s2. split; [reflexivity|].
    assert (forall l, Forall scalar l -> drop_while (trimmed_char set) l =
                      drop_while (λ c, (c =? 0) || existsb (Z.eqb c) set) l) as D.
    { induction 1 as [|c l Hl _ IH]; cbn; [reflexivity|]. unfold trimmed_char at 1, in_vector.
      rewrite i32_scalar, IH by exact Hl. reflexivity. }
    unfold drop_trailing in *. pose proof (scalar_drop_while (trimmed_char set) _ Hc) as Hd.
    rewrite D in R2 by (apply Forall_rev, Hd). rewrite D in R2 by exact Hc. exact R2. }
  split; apply T; [apply char_set_utf8, Hv|reflexivity].
Qed.
End Trim.

(** ** Examples *)

(** [strncpy] stops at a NUL byte: the reverse of a UTF-16 text of Latin characters has no characters. *)
Example reverse_utf16 : concat_reverse QCS_UTF16BE (λ _, 0) [0; 65; 0; 66] = Ret [0; 0; 0; 0].
Proof. vm_compute. reflexivity. Qed.

(** In an encoding with one byte for a character, the length that [trimTrailing] uses ends at a NUL byte: what
    follows it is taken off, and the assertion fails when the string starts with one. *)
Example trim_behind_nul :
  trimTrailing (λ _, 0) (single_byte "ISO-8859-1") (λ _ b, [b]) None (mkStr [65; 32; 0; 66; 0] 4) =
    Ret (mkStr [65; 0; 0; 66; 0] 1) /\
  trimTrailing (λ _, 0) (single_byte "ISO-8859-1") (λ _ b, [b]) None (mkStr [0; 66; 0] 2) = AssertFailed.
Proof. vm_compute. split; reflexivity. Qed.

Lemma trim_code_points_witness :
  exists s', trim_chars (λ _, 7) QCS_UTF8 (λ _ _, []) (Some (QCS_UTF8, utf8_text [8364; 45]))
               (mkStr (utf8_text [45; 8364; 65; 8364; 66; 45] ++ [0]) 10) = Ret s' /\
             rep s' (utf8_text [65; 8364; 66]).
Proof.
  assert (forall l, forallb (λ c, (0 <=? c) && (c <? 55296)) l = true -> Forall scalar l) as S.
  { intros l H. apply Forall_forall. intros c Hc. rewrite forallb_forall in H.
    specialize (H c (proj1 (list_elem_of_In _ _) Hc)). unfold scalar. lia. }
  destruct (trim_code_points (λ _, 7) (λ _ _, []) [8364; 45]
              (mkStr (utf8_text [45; 8364; 65; 8364; 66; 45] ++ [0]) 10) [45; 8364; 65; 8364; 66; 45]
              (S [8364; 45] eq_refl) (S [45; 8364; 65; 8364; 66; 45] eq_refl) (conj eq_refl (ex_intro _ [] eq_refl))) as [(s' & E & R) _].
  exists s'. split; [exact E|]. revert R. set (l := drop_trailing _ _).
  assert (l = [65; 8364; 66]) as -> by (vm_compute; reflexivity). intros R. exact R.
Defined.
