(* ===== verification/RefScan.v ===== *)
(** * The collector of recursive references

    Objects and closure-bound variables are counted by reference; those that
    refer to each other in circles are found by a scan. [RSetHelper] walks
    through the members of an object, puts the objects on circles into sets
    ([RSet]) and counts for each object the references that come from its own
    set. When these are all its references, the whole set can be deleted. The
    scan is a transaction: it locks what it visits, gives everything back when
    a lock is taken, and stores its results at the end.

    The atomic counters are natural numbers; a scan runs by itself but for the
    locks of other threads, [busy]. An assertion that fails, and the use of an
    object or a set that is gone, is [Failed]. *)

From S2P Require Import Prelude.

#[local] Open Scope nat_scope.

(** ** The heap *)

(** What a value leads to: [AbstractQoreNode] by its type. A closure has the
    variables that it captured, each with whether its type can hold something
    to scan; a reference may be to a closure-bound variable. *)
Inductive node :=
  | NOther
  | NObject (o : nat)
  | NContainer (ns : list node)      (* NT_LIST, NT_HASH *)
  | NClosure (c : nat) (vars : list (nat * bool))
  | NReference (v : option nat).

(** The queue that an object of the class [Queue] has as its private data: whether the
    object counts it among what has to be scanned, whether another thread has its lock,
    and its entries. An object without one has an empty queue. *)
Record private_queue := mkQueue {
  scan_private_data : bool; queue_locked : bool; queue_entries : list node }.
Definition no_queue : private_queue := mkQueue false false [].

(** An object with its member data and the internal data of its classes, or a
    closure-bound variable with its value *)
Inductive robject_kind :=
  | KObject (ok in_destructor : bool) (queue : private_queue)   (* whether the status is OS_OK *)
  | KVariable (scans : bool).        (* the type of the variable can hold something to scan *)

Record RObject := mkRObject {
  kind : robject_kind;
  members : list (list node);        (* [data] and the internal data *)
  references : nat;
  rrefs : nat;                       (* the references that are on no circle *)
  deferred_scan : bool;
  rcount : nat;                      (* the references from the own set *)
  rcycle : nat;
  rset : option nat }.

Record RSet := mkRSet { set : list nat; acnt : nat; valid : bool }.

Record RSetStat := mkRSetStat { st_rset : option nat; st_rcount : nat; in_cycle : bool; ok : bool }.

(** A running transaction: the objects that were visited, the ones that are
    being visited, the sets that become invalid, the objects that leave their
    set, and the closures that were scanned *)
Record RSetHelper := mkHelper {
  fomap : gmap nat RSetStat;
  ovec : list nat;
  tr_invalidate : gset nat;
  tr_out : gset nat;
  closure_set : gset nat }.

(** [held] are the objects whose rsection lock this thread has. *)
Record world := mkWorld {
  objects : gmap nat RObject;
  rsets : gmap nat RSet;
  next_rset : nat;
  held : gset nat;
  tx : RSetHelper }.

Definition no_tx (cs : gset nat) : RSetHelper := mkHelper ∅ [] ∅ ∅ cs.

Definition set_deferred (b : bool) (x : RObject) :=
  mkRObject (kind x) (members x) (references x) (rrefs x) b (rcount x) (rcycle x) (rset x).
Definition set_rset (r : option nat) (n : nat) (x : RObject) :=
  mkRObject (kind x) (members x) (references x) (rrefs x) (deferred_scan x) n (rcycle x) r.
Definition inc_rcycle (x : RObject) :=
  mkRObject (kind x) (members x) (references x) (rrefs x) (deferred_scan x) (rcount x) (S (rcycle x)) (rset x).

Definition with_objects (l : gmap nat RObject) (w : world) := mkWorld l (rsets w) (next_rset w) (held w) (tx w).
Definition with_rsets (l : gmap nat RSet) (w : world) := mkWorld (objects w) l (next_rset w) (held w) (tx w).
Definition with_held (l : gset nat) (w : world) := mkWorld (objects w) (rsets w) (next_rset w) l (tx w).
Definition with_tx (t : RSetHelper) (w : world) := mkWorld (objects w) (rsets w) (next_rset w) (held w) t.

Definition with_fomap (m : gmap nat RSetStat) (w : world) :=
  with_tx (mkHelper m (ovec (tx w)) (tr_invalidate (tx w)) (tr_out (tx w)) (closure_set (tx w))) w.
Definition with_ovec (l : list nat) (w : world) :=
  with_tx (mkHelper (fomap (tx w)) l (tr_invalidate (tx w)) (tr_out (tx w)) (closure_set (tx w))) w.
Definition with_invalidate (l : gset nat) (w : world) :=
  with_tx (mkHelper (fomap (tx w)) (ovec (tx w)) l (tr_out (tx w)) (closure_set (tx w))) w.
Definition with_out (l : gset nat) (w : world) :=
  with_tx (mkHelper (fomap (tx w)) (ovec (tx w)) (tr_invalidate (tx w)) l (closure_set (tx w))) w.
Definition with_closures (l : gset nat) (w : world) :=
  with_tx (mkHelper (fomap (tx w)) (ovec (tx w)) (tr_invalidate (tx w)) (tr_out (tx w)) l) w.

(** ** Computations *)

Inductive outcome (A : Type) := Done (a : A) (w : world) | Failed | OutOfFuel.
Arguments Done {A} a w.
Arguments Failed {A}.
Arguments OutOfFuel {A}.

Definition M (A : Type) : Type := world -> outcome A.
#[export] Instance M_ret : MRet M := λ A a w, Done a w.
#[export] Instance M_bind : MBind M := λ A B f m w,
  match m w with Done a w => f a w | Failed => Failed | OutOfFuel => OutOfFuel end.

Definition gets {A} (f : world -> A) : M A := λ w, Done (f w) w.
Definition modify (f : world -> world) : M unit := λ w, Done tt (f w).
Definition assert (b : bool) : M unit := λ w, if b then Done tt w else Failed.
Definition look {A} (f : world -> option A) : M A := λ w, match f w with Some a => Done a w | None => Failed end.

Definition get_object (o : nat) : M RObject := look (λ w, objects w !! o).
Definition put_object (o : nat) (x : RObject) : M unit := modify (λ w, with_objects (<[o := x]> (objects w)) w).
Definition get_rset (r : nat) : M RSet := look (λ w, rsets w !! r).
Definition put_rset (r : nat) (s : RSet) : M unit := modify (λ w, with_rsets (<[r := s]> (rsets w)) w).
Definition delete_rset (r : nat) : M unit := modify (λ w, with_rsets (delete r (rsets w)) w).
Definition get_stat (o : nat) : M RSetStat := look (λ w, fomap (tx w) !! o).
Definition put_stat (o : nat) (st : RSetStat) : M unit := modify (λ w, with_fomap (<[o := st]> (fomap (tx w))) w).

(** A loop that ends at the first element for which the action is true *)
Definition any_of {A} (f : A -> M bool) : list A -> M bool :=
  fix go l :=
    match l with
    | [] => mret false
    | x :: l => rc ← f x; if rc : bool then mret true else go l
    end.

Definition for_each {A} (f : A -> M unit) : list A -> M unit :=
  fix go l := match l with [] => mret tt | x :: l => f x;; go l end.

(** ** What has to be scanned *)

Definition needs_scan : node -> bool :=
  fix go n :=
    match n with
    | NOther => false
    | NObject _ | NReference _ => true
    | NContainer ns => existsb go ns          (* the scan count of the container *)
    | NClosure _ vars => existsb snd vars
    end.

Definition isValid (x : RObject) : bool := match kind x with KObject ok d _ => ok && negb d | KVariable _ => true end.
Definition getScanCount (x : RObject) : bool := existsb (existsb needs_scan) (members x).

(** ** Sets *)

(** [RSet::invalidate] without the weak references *)
Definition invalidate (r : nat) : M unit :=
  s ← get_rset r;
  if valid s then put_rset r (mkRSet [] (acnt s) false) else mret tt.

Definition invalidateDeref (r : nat) : M unit :=
  invalidate r;;
  s ← get_rset r;
  assert (0 <? acnt s);;
  if acnt s =? 1 then delete_rset r else put_rset r (mkRSet (set s) (pred (acnt s)) (valid s)).

Definition rset_insert (o r : nat) : M unit :=
  s ← get_rset r;
  assert (negb (bool_decide (o ∈ set s)));;
  put_rset r (mkRSet (set s ++ [o]) (acnt s) (valid s)).

(** [RSet::pop], and the set is deleted when it is empty, which nothing may refer to *)
Definition pop_delete (r : nat) : M unit :=
  s ← get_rset r;
  match set s with
  | [] => assert false
  | [_] => assert (acnt s =? 0);; delete_rset r
  | _ :: l => put_rset r (mkRSet l (acnt s) (valid s))
  end.

Definition new_rset : M nat := λ w,
  Done (next_rset w)
       (mkWorld (objects w) (<[next_rset w := mkRSet [] 0 true]> (rsets w)) (S (next_rset w)) (held w) (tx w)).

(** ** Objects *)

(** [RObject::setRSet] *)
Definition setRSet (o : nat) (rs : option nat) (rcnt : nat) : M unit :=
  b ← gets (λ w, bool_decide (o ∈ held w));
  assert b;;
  x ← get_object o;
  (match rset x with Some r => invalidateDeref r | None => mret tt end);;
  assert (rcnt <=? references x);;
  put_object o (inc_rcycle (set_rset rs rcnt x));;
  match rs with
  | Some r => s ← get_rset r; put_rset r (mkRSet (set s) (S (acnt s)) (valid s))
  | None => mret tt
  end.

Definition removeInvalidateRSetIntern (o : nat) : M unit :=
  x ← get_object o;
  match rset x with
  | Some r => invalidateDeref r;; put_object o (set_rset None 0 x)
  | None => mret tt
  end.

(** [checkDeferScan]: whether the scan is deferred *)
Definition checkDeferScan (o : nat) : M bool :=
  x ← get_object o;
  if rrefs x =? 0 then put_object o (set_deferred false x);; mret false
  else if deferred_scan x then mret true
  else put_object o (set_deferred true x);; removeInvalidateRSetIntern o;; mret true.

(** [needsScan] with the scan to be made now *)
Definition needsScan (o : nat) : M bool :=
  x ← get_object o;
  match kind x with
  | KVariable scans => mret scans
  | KObject ok _ q =>
    if (negb (getScanCount x) && negb (scan_private_data q)) || negb ok then mret false
    else if deferred_scan x then
      if rrefs x =? 0 then put_object o (set_deferred false x);; mret true else mret false
    else if rrefs x =? 0 then mret true
    else put_object o (set_deferred true x);; removeInvalidateRSetIntern o;; mret false
  end.

(** ** The scan *)

Section Scan.
(** The objects whose rsection another thread has *)
Context (busy : gset nat).

(** [tryRSectionLockNotifyWaitRead]: whether it fails *)
Definition try_lock (o : nat) : M bool := λ w,
  if decide (o ∈ held w) then Done false w
  else if decide (o ∈ busy) then Done true w
  else Done false (with_held ({[o]} ∪ held w) w).

(** [rSectionUnlock] asserts that the thread has the lock. *)
Definition unlock (o : nat) : M unit := λ w,
  if decide (o ∈ held w) then Done tt (with_held (held w ∖ {[o]}) w) else Failed.

(** The locks of the other members of a set; the result is whether one is
    taken, and the members that were locked by this call and are valid. *)
Fixpoint lock_members (l got : list nat) : M (bool * list nat) :=
  match l with
  | [] => mret (false, got)
  | x :: l =>
    h ← gets (λ w, bool_decide (x ∈ held w));
    if h : bool then lock_members l got
    else
      c ← try_lock x;
      if c : bool then for_each unlock got;; mret (true, [])
      else
        obj ← get_object x;
        if negb (isValid obj) then unlock x;; lock_members l got else lock_members l (got ++ [x])
  end.

Definition add_out (ors x : nat) : M unit :=
  obj ← get_object x;
  b ← gets (λ w, bool_decide (x ∈ held w));
  assert (b && bool_decide (rset obj = Some ors));;
  if isValid obj then modify (λ w, with_out ({[x]} ∪ tr_out (tx w)) w) else mret tt.

(** [RSetHelper::removeInvalidate]: an old set is to become invalid, and its
    members that are not visited leave it. *)
Definition removeInvalidate (ors : nat) : M bool :=
  s ← get_rset ors;
  if negb (valid s) then mret false
  else
    x ← lock_members (set s) [];
    if x.1 : bool then mret true
    else
      modify (λ w, with_invalidate ({[ors]} ∪ tr_invalidate (tx w)) w);;
      for_each (add_out ors) x.2;;
      mret false.

Definition set_tag (o : nat) (r : nat) : M unit :=
  st ← get_stat o;
  put_stat o (mkRSetStat (Some r) (st_rcount st) (in_cycle st) (ok st)).

Definition inc_rcount (o : nat) : M unit :=
  st ← get_stat o;
  put_stat o (mkRSetStat (st_rset st) (S (st_rcount st)) (in_cycle st) (ok st)).

(** The number of references of an object bounds its count. *)
Definition assert_rcount (o : nat) : M unit :=
  st ← get_stat o;
  x ← get_object o;
  assert (st_rcount st <=? references x).

(** [addToRSet] *)
Definition addToRSet (o r : nat) : M bool :=
  s ← get_rset r;
  assert (negb (bool_decide (o ∈ set s)));;
  st ← get_stat o;
  assert (negb (ok st) && bool_decide (st_rset st = None));;
  set_tag o r;;
  rset_insert o r;;
  x ← get_object o;
  c ← match rset x with
      | Some ors => assert (negb (r =? ors));; removeInvalidate ors
      | None => mret false
      end;
  if c : bool then mret true
  else
    st ← get_stat o;
    assert (negb (in_cycle st));;
    put_stat o (mkRSetStat (st_rset st) (S (st_rcount st)) true (ok st));;
    mret false.

(** The members of the set [old] go to the set [r]. *)
Definition assimilate (r old : nat) : M unit :=
  s ← get_rset old;
  for_each (λ x, rset_insert x r;; set_tag x r) (set s);;
  assert (acnt s =? 0);;
  delete_rset old.

(** [mergeRSet]: the set of [o], and the current one if there is one, are made
    one set, the result. *)
Definition mergeRSet (o : nat) (rs : option nat) : M nat :=
  st ← get_stat o;
  match st_rset st with
  | None => assert false;; mret 0
  | Some r' =>
    match rs with
    | None => mret r'
    | Some r =>
      if r =? r' then mret r
      else
        s ← get_rset r;
        s' ← get_rset r';
        if length (set s') <? length (set s) then assimilate r r';; mret r
        else assimilate r' r;; mret r'
    end
  end.

(** [makeChain]: [l] are the entries of [ovec] behind the index. *)
Fixpoint makeChain (fi : nat) (l : list nat) : M bool :=
  match l with
  | [] => mret false
  | x :: l =>
    st ← get_stat x;
    match st_rset st with
    | None =>
      fst ← get_stat fi;
      match st_rset fst with
      | None => assert false;; mret false
      | Some r =>
        c ← addToRSet x r;
        if c : bool then mret true
        else
          (match l with [] => inc_rcount fi;; assert_rcount fi | _ => mret tt end);;
          makeChain fi l
      end
    | Some _ =>
      fst ← get_stat fi;
      r ← mergeRSet x (st_rset fst);
      set_tag fi r;;
      makeChain fi l
    end
  end.

(** In the loop below: the reference from the object under it, which is not in
    a set yet, counts for an object that is in one. *)
Definition count_parent (o x : nat) (below : list nat) : M unit :=
  match below with
  | p :: _ => if x =? o then mret tt else pst ← get_stat p; if in_cycle pst then mret tt else inc_rcount x
  | [] => mret tt
  end.

Definition current_set (rs : option nat) : M nat := match rs with Some r => mret r | None => new_rset end.

(** The loop that closes a circle: [l] is [ovec] from the top. *)
Fixpoint finalize (o : nat) (rs : option nat) (l : list nat) : M bool :=
  match l with
  | [] => mret false
  | x :: below =>
    st ← get_stat x;
    res ← match st_rset st with
          | None => r ← current_set rs; c ← addToRSet x r; mret (r, c)
          | Some _ => count_parent o x below;; r ← mergeRSet x rs; mret (r, false)
          end;
    if (res : nat * bool).2 then mret true
    else if x =? o then mret false
    else finalize o (Some res.1) below
  end.

(** The entries of [ovec] behind the last one for which [p] holds *)
Fixpoint behind_last (p : nat -> bool) (l : list nat) : option (list nat) :=
  match l with
  | [] => None
  | x :: l =>
    match behind_last p l with
    | Some t => Some t
    | None => if p x then Some l else None
    end
  end.

(** An object that was visited before *)
Definition revisit (o : nat) (st : RSetStat) : M bool :=
  if ok st then assert (negb (in_cycle st));; mret false
  else
    v ← gets (λ w, ovec (tx w));
    let current := bool_decide (o ∈ v) in
    if in_cycle st then
      match st_rset st with
      | None => assert false;; mret false
      | Some r =>
        if current then inc_rcount o;; assert_rcount o;; finalize o (Some r) (reverse v)
        else
          match last v with
          | None => mret false
          | Some p =>
            pst ← get_stat p;
            if bool_decide (st_rset pst = Some r) then inc_rcount o;; assert_rcount o;; mret false
            else
              tag ← gets (λ w x, default None (st_rset <$> fomap (tx w) !! x));
              match behind_last (λ x, bool_decide (tag x = Some r)) v with
              | Some l => makeChain o l
              | None =>
                s ← get_rset r;
                match behind_last (λ x, bool_decide (x ∈ set s)) v with
                | Some l => makeChain o l
                | None => mret false
                end
              end
          end
      end
    else if current then finalize o (st_rset st) (reverse v)
    else mret false.

(** A captured variable with [RSectionScanHelper]: the lock that this takes is
    given back when nothing was found, or at the end of the scan. *)
Definition scan_var (visit : nat -> M bool) (v : nat * bool) : M bool :=
  if negb v.2 then mret false
  else
    h ← gets (λ w, bool_decide (v.1 ∈ held w));
    if h : bool then visit v.1
    else
      c ← try_lock v.1;
      if c : bool then mret true
      else
        n ← gets (λ w, size (fomap (tx w)));
        rc ← visit v.1;
        n' ← gets (λ w, size (fomap (tx w)));
        (if n' =? n then unlock v.1
         else
           b ← gets (λ w, bool_decide (is_Some (fomap (tx w) !! v.1)));
           if b : bool then mret tt else modify (λ w, with_out ({[v.1]} ∪ tr_out (tx w)) w));;
        mret rc.

(** The values of a container, the variables of a closure *)
Definition scan_node (visit : nat -> M bool) : node -> M bool :=
  fix go n :=
    if negb (needs_scan n) then mret false
    else
      match n with
      | NOther | NReference None => mret false
      | NObject o | NReference (Some o) => visit o
      | NContainer ns => any_of go ns
      | NClosure c vars =>
        seen ← gets (λ w, bool_decide (c ∈ closure_set (tx w)));
        if seen : bool then mret false
        else
          modify (λ w, with_closures ({[c]} ∪ closure_set (tx w)) w);;
          any_of (scan_var visit) vars
      end.

(** [qore_queue_private::scanMembers]: a queue that another thread has locked is not
    scanned. *)
Definition queue_scanMembers (visit : nat -> M bool) (q : private_queue) : M bool :=
  if queue_locked q then mret false else any_of (scan_node visit) (queue_entries q).

(** [scanMembers]; the members of an object with real references are left out. *)
Definition scanMembers (visit : nat -> M bool) (o : nat) : M bool :=
  x ← get_object o;
  match kind x with
  | KVariable _ => any_of (any_of (scan_node visit)) (members x)
  | KObject _ _ q =>
    rc ← (if negb (getScanCount x) then mret false
          else
            any_of (λ ns,
              x ← get_object o;
              if negb (rrefs x =? 0) then
                put_object o (set_deferred true x);; removeInvalidateRSetIntern o;; mret false
              else any_of (scan_node visit) ns) (members x));
    if rc : bool then mret true
    else if scan_private_data q then queue_scanMembers visit q else mret false
  end.

(** [RSetHelper::checkIntern] of an object *)
Definition check_object (visit : nat -> M bool) (o : nat) : M bool :=
  c ← try_lock o;
  if c : bool then mret true
  else
    x ← get_object o;
    if negb (isValid x) then unlock o;; mret false
    else
      found ← gets (λ w, fomap (tx w) !! o);
      match found with
      | Some st => revisit o st
      | None =>
        put_stat o (mkRSetStat None 0 false false);;
        ns ← needsScan o;
        modify (λ w, with_out (tr_out (tx w) ∖ {[o]}) w);;
        if negb ns then put_stat o (mkRSetStat None 0 false true);; mret false
        else
          modify (λ w, with_ovec (ovec (tx w) ++ [o]) w);;
          rc ← scanMembers visit o;
          if rc : bool then mret true
          else modify (λ w, with_ovec (removelast (ovec (tx w))) w);; mret false
      end.

(** The recursion: the fuel is the number of objects on the way. *)
Fixpoint checkIntern (fuel : nat) (o : nat) : M bool :=
  match fuel with
  | O => λ _, OutOfFuel
  | S fuel => check_object (checkIntern fuel) o
  end.

(** ** The end of a transaction *)

(** An object that left its set has no entry. *)
Definition unlock_out (x : nat) : M unit :=
  b ← gets (λ w, bool_decide (fomap (tx w) !! x = None));
  assert b;;
  unlock x.

Definition rollback : M unit :=
  f ← gets (λ w, map_to_list (fomap (tx w)));
  for_each (λ x, (match st_rset x.2 with Some r => pop_delete r | None => mret tt end);; unlock x.1) f;;
  out ← gets (λ w, elements (tr_out (tx w)));
  for_each unlock_out out;;
  modify (λ w, with_tx (no_tx (closure_set (tx w))) w).

(** The members of a new set have it, and its counter is their number. *)
Definition check_set (r : nat) : M unit :=
  s ← get_rset r;
  assert (length (set s) =? acnt s);;
  for_each (λ o, x ← get_object o; assert (bool_decide (rset x = Some r))) (set s).

Definition commit (o : nat) : M unit :=
  h ← gets (λ w, bool_decide (o ∈ held w));
  assert h;;
  inv ← gets (λ w, elements (tr_invalidate (tx w)));
  for_each invalidate inv;;
  out ← gets (λ w, elements (tr_out (tx w)));
  for_each unlock_out out;;
  f ← gets (λ w, map_to_list (fomap (tx w)));
  for_each (λ x,
    b ← gets (λ w, bool_decide (x.1 ∉ tr_out (tx w)));
    assert b;;
    setRSet x.1 (st_rset x.2) (st_rcount x.2)) f;;
  for_each (λ x, match st_rset x.2 with Some r => check_set r | None => mret tt end) f;;
  for_each (λ x, unlock x.1) f;;
  b ← gets (λ w, bool_decide (fomap (tx w) = ∅ \/ is_Some (fomap (tx w) !! o)));
  assert b.

(** One round of the loop of [RSetHelper::RSetHelper]: whether it is done *)
Definition transaction (o : nat) : M bool :=
  n ← gets (λ w, size (objects w));
  c ← checkIntern (S n) o;
  if c : bool then rollback;; mret false
  else
    x ← get_object o;
    (if isValid x then commit o else mret tt);;
    modify (λ w, with_tx (no_tx (closure_set (tx w))) w);;
    mret true.
End Scan.

(** [RSetHelper::RSetHelper]: a round for each entry of the list, which has
    the objects that other threads have locked in that round, and whether the
    object was scanned by another thread when the round has failed. The result
    is whether the list was long enough. *)
Fixpoint rounds (o : nat) (l : list (gset nat * bool)) : M bool :=
  match l with
  | [] => mret false
  | (busy, elsewhere) :: l =>
    d ← transaction busy o;
    if (d : bool) || elsewhere then mret true else rounds o l
  end.

Definition new_RSetHelper (o : nat) (l : list (gset nat * bool)) : M bool :=
  d ← checkDeferScan o;
  if d : bool then mret true
  else
    modify (λ w, with_tx (no_tx ∅) w);;
    rounds o l.

(** ** Deleting *)

(** [RSet::canDelete]; the second argument is the flag that turns the
    collector off. *)
Inductive deletable := Unknown | Keep | Delete.

Definition canDelete (r : nat) (disable_gc : bool) (ref_copy rcnt : nat) : M deletable :=
  s ← get_rset r;
  if disable_gc then mret Keep
  else if negb (valid s) then mret Unknown
  else if negb (ref_copy =? rcnt) then mret Keep
  else
    c ← any_of (λ x, obj ← get_object x; mret (negb (isValid obj) || negb (rcount obj =? references obj))) (set s);
    if c : bool then mret Keep else invalidate r;; mret Delete.
