(* ===== verification/RefScanSets.v ===== *)
(** * The scan for recursive references: sets and counts

    The invariant of a running transaction, and that the steps that build the
    sets keep it: joining an object to a set, merging sets, closing a circle,
    and a further way into a set. The count of an object never exceeds the
    number of scanned references that come from its own set. *)

From S2P Require Import Prelude RefScan.

#[local] Open Scope nat_scope.

(** ** Computations without a failure *)

Definition returns {A} (m : M A) (Q : A -> world -> Prop) (w : world) : Prop :=
  match m w with Done a w' => Q a w' | _ => False end.

Lemma returns_mono {A} (m : M A) (Q Q' : A -> world -> Prop) w :
  returns m Q w -> (forall a w', Q a w' -> Q' a w') -> returns m Q' w.
Proof. unfold returns. destruct (m w); auto. Qed.

Lemma returns_bind {A B} (m : M A) (f : A -> M B) Q w :
  returns m (λ a, returns (f a) Q) w -> returns (m ≫= f) Q w.
Proof. unfold returns, mbind, M_bind. destruct (m w); auto. Qed.

Lemma returns_look {A} (f : world -> option A) Q w a : f w = Some a -> Q a w -> returns (look f) Q w.
Proof. unfold returns, look. intros ->. auto. Qed.

Lemma returns_assert (b : bool) (Q : unit -> world -> Prop) w : b = true -> Q tt w -> returns (assert b) Q w.
Proof. intros ->. auto. Qed.

Lemma returns_if {A} (b : bool) (m1 m2 : M A) Q w :
  (b = true -> returns m1 Q w) -> (b = false -> returns m2 Q w) -> returns (if b then m1 else m2) Q w.
Proof. destruct b; auto. Qed.

(** One step into a sequence of commands *)
Ltac step := apply returns_bind.
Ltac look E := step; eapply returns_look; [exact E|].
Ltac check := step; apply returns_assert.

(** ** Edges *)

(** The objects that a value leads to, and the references of an object *)
Definition targets : node -> list nat :=
  fix go n :=
    match n with
    | NOther | NReference None => []
    | NObject o | NReference (Some o) => [o]
    | NContainer ns => concat (go <$> ns)
    | NClosure _ vars => (filter (λ v, v.2 = true) vars).*1
    end.

Definition entries (x : RObject) : list node :=
  match kind x with KObject _ _ q => queue_entries q | KVariable _ => [] end.

Definition contents (x : RObject) : list (list node) := members x ++ [entries x].

Definition object_targets (x : RObject) : list nat := concat (targets <$> concat (contents x)).

Definition edges_of (p : nat * RObject) : list (nat * nat) := pair p.1 <$> object_targets p.2.

Definition all_edges (m : gmap nat RObject) : list (nat * nat) := concat (edges_of <$> map_to_list m).

(** The edges to [o] from the objects with the same tag *)
Definition internal (t : nat -> option nat) (D : list (nat * nat)) (o : nat) : nat :=
  length (filter (λ e, e.2 = o /\ t e.1 = t o /\ is_Some (t o)) D).

Definition in_degree (D : list (nat * nat)) (o : nat) : nat := length (filter (λ e, e.2 = o) D).

(** The tags only become coarser. *)
Definition coarser (t t' : nat -> option nat) : Prop :=
  forall p q, t p = t q -> is_Some (t p) -> t' p = t' q /\ is_Some (t' p).

Lemma coarser_refl t : coarser t t.
Proof. intros p q E S. auto. Qed.

Lemma coarser_trans t1 t2 t3 : coarser t1 t2 -> coarser t2 t3 -> coarser t1 t3.
Proof. intros C1 C2 p q E S. destruct (C1 p q E S) as [E' S']. exact (C2 p q E' S'). Qed.

Lemma coarser_tagged t t' o : coarser t t' -> is_Some (t o) -> is_Some (t' o).
Proof. intros C S. apply (C o o eq_refl S). Qed.

Lemma internal_app t D D' o : internal t (D ++ D') o = internal t D o + internal t D' o.
Proof. unfold internal. rewrite filter_app, length_app. reflexivity. Qed.

Lemma filter_impl_length {A} (P Q : A -> Prop) `{!forall x, Decision (P x), !forall x, Decision (Q x)} (l : list A) :
  (forall x, P x -> Q x) -> length (filter P l) <= length (filter Q l).
Proof.
  intros I. induction l as [|x l IH]; [reflexivity|]. rewrite !filter_cons.
  destruct (decide (P x)) as [Hp|_]; [rewrite decide_True by auto; cbn; lia|]. destruct (decide (Q x)); cbn; lia.
Qed.

Lemma internal_mono t t' D o : coarser t t' -> internal t D o <= internal t' D o.
Proof.
  intros C. apply filter_impl_length. intros e (E & T & S). split; [exact E|].
  destruct (C e.1 o T) as [T' S']; [rewrite T; exact S|]. rewrite <- T'. auto.
Qed.

Lemma internal_degree t D o : internal t D o <= in_degree D o.
Proof. apply filter_impl_length. intros e [E _]. exact E. Qed.

Lemma in_degree_app D D' o : in_degree (D ++ D') o = in_degree D o + in_degree D' o.
Proof. unfold in_degree. rewrite filter_app, length_app. reflexivity. Qed.

(** An edge that becomes internal counts. *)
Lemma internal_credit t t' D p o : coarser t t' -> (p, o) ∈ D -> t o = None \/ t p = None ->
  t' p = t' o -> is_Some (t' o) -> S (internal t D o) <= internal t' D o.
Proof.
  intros C In N E S. apply list_elem_of_split in In as (D1 & D2 & ->).
  pose proof (internal_mono t t' D1 o C). pose proof (internal_mono t t' D2 o C).
  change ((p, o) :: D2) with ([(p, o)] ++ D2). rewrite !internal_app.
  assert (internal t [(p, o)] o = 0) as ->.
  { unfold internal. rewrite filter_cons, decide_False; [reflexivity|]. cbn. intros (_ & T & [r Hr]). destruct N; congruence. }
  assert (internal t' [(p, o)] o = 1) as ->.
  { unfold internal. rewrite filter_cons, decide_True; [reflexivity|]. cbn. auto. }
  lia.
Qed.

Lemma internal_new t t' D p o : coarser t t' -> t' p = t' o -> is_Some (t' o) ->
  S (internal t D o) <= internal t' (D ++ [(p, o)]) o.
Proof.
  intros C E S. rewrite internal_app. pose proof (internal_mono t t' D o C).
  assert (internal t' [(p, o)] o = 1) as ->; [|lia].
  unfold internal. rewrite filter_cons, decide_True; [reflexivity|]. cbn. auto.
Qed.

Lemma filter_submseteq_length {A} (P : A -> Prop) `{!forall x, Decision (P x)} (l k : list A) :
  l ⊆+ k -> length (filter P l) <= length (filter P k).
Proof.
  intros (r & Hp)%submseteq_Permutation. rewrite Hp, filter_app, length_app. lia.
Qed.

Lemma internal_submseteq t D D' o : D ⊆+ D' -> internal t D o <= internal t D' o.
Proof. apply filter_submseteq_length. Qed.

Lemma in_degree_submseteq D D' o : D ⊆+ D' -> in_degree D o <= in_degree D' o.
Proof. apply filter_submseteq_length. Qed.

(** ** The invariant of a transaction *)

Definition stat (w : world) (o : nat) : option RSetStat := fomap (tx w) !! o.
Definition tag (w : world) (o : nat) : option nat := stat w o ≫= st_rset.
Definition rset_of (w : world) (o : nat) : option nat := objects w !! o ≫= rset.
Definition valid_object (w : world) (o : nat) : Prop := exists x, objects w !! o = Some x /\ isValid x = true.

(** The objects that have the set *)
Definition pointers (m : gmap nat RObject) (r : nat) : nat := size (filter (λ p, rset p.2 = Some r) m).

(** The graph does not change; an object may lose its set. *)
Definition same_object (x0 x : RObject) : Prop :=
  kind x = kind x0 /\ members x = members x0 /\ references x = references x0 /\ rrefs x = rrefs x0 /\ (rset x = None \/ rset x = rset x0 /\ rcount x = rcount x0).

(** What there was before the transaction: the number of its first new set,
    and the sets that were valid *)
Record before := mkBefore { first_new :> nat; was_valid : nat -> bool }.

Section Transaction.
(** The objects and the sets before the transaction *)
Context (objects0 : gmap nat RObject) (b : before).

Implicit Types (w : world).

(** [e] is a new set that may still be empty, [X] the objects that are locked
    before they are visited. *)
Record winv (e : option nat) (X : gset nat) (w : world) : Prop := {
  wi_objects o : match objects0 !! o, objects w !! o with
                 | Some x0, Some x => same_object x0 x
                 | None, None => True
                 | _, _ => False
                 end;
  wi_stats o : is_Some (stat w o) -> valid_object w o;
  wi_tags o r : tag w o = Some r -> b <= r /\ is_Some (rsets w !! r);
  wi_new r s : b <= r -> rsets w !! r = Some s ->
    r < next_rset w /\ valid s = true /\ acnt s = 0 /\ NoDup (set s) /\ (forall o, o ∈ set s <-> tag w o = Some r) /\ (e <> Some r -> set s <> []);
  wi_next : b <= next_rset w;
  wi_old r s : r < b -> rsets w !! r = Some s ->
    acnt s = pointers (objects w) r /\ 0 < acnt s /\
    (valid s = true -> was_valid b r = true /\ forall o, (o ∈ set s <-> rset_of w o = Some r) /\ (objects0 !! o ≫= rset = Some r -> rset_of w o = Some r));
  wi_ptr o r : rset_of w o = Some r -> r < b /\ is_Some (rsets w !! r);
  wi_inv r : r ∈ tr_invalidate (tx w) -> exists o, is_Some (tag w o) /\ rset_of w o = Some r;
  wi_out o : o ∈ tr_out (tx w) -> stat w o = None /\ valid_object w o;
  wi_held o : o ∈ held w <-> is_Some (stat w o) \/ o ∈ tr_out (tx w) \/ o ∈ X }.

(** What a step does not touch *)
Definition same_world w w' : Prop :=
  objects w' = objects w /\ ovec (tx w') = ovec (tx w) /\ closure_set (tx w') = closure_set (tx w) /\
  forall y, is_Some (stat w y) <-> is_Some (stat w' y).

Lemma same_world_refl w : same_world w w.
Proof. repeat split; auto. Qed.

Lemma same_world_trans w1 w2 w3 : same_world w1 w2 -> same_world w2 w3 -> same_world w1 w3.
Proof.
  intros (E1 & E2 & E3 & D1) (E4 & E5 & E6 & D2). do 3 (split; [congruence|]). intros y. rewrite D1. apply D2.
Qed.

(** *** Locks *)

Context (busy : gset nat).

Lemma try_lock_spec o w : returns (try_lock busy o)
  (λ c w', if c then w' = w /\ o ∉ held w else w' = with_held ({[o]} ∪ held w) w) w.
Proof.
  unfold returns, try_lock. destruct (decide (o ∈ held w)) as [H|H].
  - destruct w; unfold with_held; cbn in *. f_equal. set_solver.
  - destruct (decide (o ∈ busy)); auto.
Qed.

Lemma unlock_spec o w : o ∈ held w -> returns (unlock o) (λ _ w', w' = with_held (held w ∖ {[o]}) w) w.
Proof. intros H. unfold returns, unlock. rewrite decide_True by exact H. reflexivity. Qed.

Lemma unlock_all_spec l : forall w, NoDup l -> (forall o, o ∈ l -> o ∈ held w) ->
  returns (for_each unlock l) (λ _ w', w' = with_held (held w ∖ list_to_set l) w) w.
Proof.
  induction l as [|o l IH]; intros w N H.
  - cbn. unfold returns. destruct w; unfold with_held; cbn. f_equal. set_solver.
  - apply NoDup_cons in N as [N1 N2]. cbn. step. eapply returns_mono; [apply unlock_spec, H; left|].
    intros _ w' ->. eapply returns_mono; [apply IH; [exact N2|]|].
    + intros x Hx. cbn. assert (x <> o) by (intros ->; contradiction). specialize (H x ltac:(right; exact Hx)). set_solver.
    + intros _ w' ->. unfold with_held. cbn. f_equal. set_solver.
Qed.

(** The members that were locked are new; nothing else changes. *)
Lemma lock_members_spec l : forall got w H0,
  NoDup got -> (forall o, o ∈ got -> o ∉ H0 /\ valid_object w o) -> held w = H0 ∪ list_to_set got ->
  (forall o, o ∈ l -> is_Some (objects w !! o)) ->
  returns (lock_members busy l got) (λ x w',
    exists h, w' = with_held h w /\ if x.1 then h = H0
    else NoDup x.2 /\ h = H0 ∪ list_to_set x.2 /\ (forall o, o ∈ x.2 -> o ∉ H0 /\ valid_object w o /\ (o ∈ l \/ o ∈ got))) w.
Proof.
  induction l as [|x l IH]; intros got w H0 N G Hh L; cbn [lock_members].
  - exists (held w). split; [destruct w; reflexivity|]. split; [exact N|]. split; [exact Hh|].
    intros o Ho. destruct (G o Ho). auto.
  - assert (forall o, o ∈ l -> is_Some (objects w !! o)) as L' by (intros o Ho; apply L; right; exact Ho).
    step. unfold gets, returns. apply returns_if; intros Hx.
    + eapply returns_mono; [apply (IH got w H0); assumption|]. intros y w' (h & -> & P). exists h. split; [reflexivity|].
      destruct y.1; [exact P|]. destruct P as (P1 & P2 & P3). split; [exact P1|]. split; [exact P2|].
      intros o Ho. destruct (P3 o Ho) as (A & B & [C|C]); (split; [exact A|]; split; [exact B|]); [left; right; exact C|right; exact C].
    + apply bool_decide_eq_false in Hx. step. eapply returns_mono; [apply try_lock_spec|]. intros c w' Hc. apply returns_if; intros ->.
      * destruct Hc as [-> _]. step. eapply returns_mono; [apply unlock_all_spec; [exact N|]|].
        -- intros o Ho. rewrite Hh. apply elem_of_union. right. apply elem_of_list_to_set, Ho.
        -- intros _ w' ->. eexists. split; [reflexivity|]. cbn. rewrite Hh. apply set_eq. intros o.
           rewrite elem_of_difference, elem_of_union, elem_of_list_to_set.
           split; [intros [[|] ?]; [assumption|contradiction]|]. intros Ho. split; [auto|]. intros Hg. apply (G o Hg), Ho.
      * subst w'. destruct (L x ltac:(left)) as [obj Eo].
        step. eapply returns_look; [exact Eo|]. apply returns_if; intros Hv.
        -- step. eapply returns_mono; [apply unlock_spec; cbn; clear; set_solver|]. intros _ w' ->.
           assert (with_held (held (with_held ({[x]} ∪ held w) w) ∖ {[x]}) (with_held ({[x]} ∪ held w) w) = w) as ->.
           { destruct w; unfold with_held; cbn in *. f_equal. clear -Hx. set_solver. }
           eapply returns_mono; [apply (IH got w H0); assumption|]. intros y w' (h & -> & P). exists h. split; [reflexivity|].
           destruct y.1; [exact P|]. destruct P as (P1 & P2 & P3). split; [exact P1|]. split; [exact P2|].
           intros o Ho. destruct (P3 o Ho) as (A & B & [C|C]); (split; [exact A|]; split; [exact B|]); [left; right; exact C|right; exact C].
        -- apply negb_false_iff in Hv.
           assert (x ∉ got) as Ng by (intros Hg; apply Hx; rewrite Hh; clear -Hg; set_solver).
           eapply returns_mono; [apply (IH (got ++ [x]) (with_held ({[x]} ∪ held w) w) H0)|].
           ++ apply NoDup_app. split; [exact N|]. split; [|apply NoDup_singleton]. intros o Ho ->%list_elem_of_singleton. contradiction.
           ++ intros o [Ho| ->%list_elem_of_singleton]%elem_of_app; [exact (G o Ho)|]. split; [rewrite Hh in Hx; clear -Hx; set_solver|].
              exists obj. auto.
           ++ cbn. rewrite Hh. clear. set_solver.
           ++ exact L'.
           ++ intros y w' (h & -> & P). exists h. split; [reflexivity|].
              destruct y.1; [exact P|]. destruct P as (P1 & P2 & P3). split; [exact P1|]. split; [exact P2|].
              intros o Ho. destruct (P3 o Ho) as (A & B & [C|[C|C]%elem_of_app]); (split; [exact A|]; split; [exact B|]).
              ** left. right. exact C.
              ** right. exact C.
              ** left. apply list_elem_of_singleton in C as ->. left.
Qed.

Lemma add_out_spec ors o w : valid_object w o -> rset_of w o = Some ors -> o ∈ held w ->
  returns (add_out ors o) (λ _ w', w' = with_out ({[o]} ∪ tr_out (tx w)) w) w.
Proof.
  intros (x & Eo & V) R Hh. unfold add_out. look Eo. step. unfold gets, returns.
  unfold rset_of in R. rewrite Eo in R. cbn in R.
  check; [rewrite bool_decide_eq_true_2 by exact Hh; rewrite R; apply bool_decide_eq_true_2; reflexivity|].
  rewrite V. reflexivity.
Qed.

Lemma add_out_all_spec ors l : forall w,
  (forall o, o ∈ l -> valid_object w o /\ rset_of w o = Some ors /\ o ∈ held w) ->
  returns (for_each (add_out ors) l) (λ _ w', w' = with_out (list_to_set l ∪ tr_out (tx w)) w) w.
Proof.
  induction l as [|o l IH]; intros w H.
  - unfold returns. cbn. destruct w as [? ? ? ? []]; unfold with_out, with_tx; cbn. do 2 f_equal. clear. set_solver.
  - destruct (H o ltac:(left)) as (V & R & Hh). cbn. step.
    eapply returns_mono; [exact (add_out_spec ors o w V R Hh)|]. intros _ w' ->.
    eapply returns_mono; [apply IH|].
    + intros o' Ho'. apply H. right. exact Ho'.
    + intros _ w' ->. unfold with_out, with_tx. cbn. do 2 f_equal. clear. set_solver.
Qed.

(** The set of a visited object is to become invalid; what else is in it
    leaves it. *)
Lemma removeInvalidate_spec e X ors o w : winv e X w -> is_Some (tag w o) -> rset_of w o = Some ors ->
  returns (removeInvalidate busy ors) (λ _ w', winv e X w' /\ same_world w w' /\
    fomap (tx w') = fomap (tx w) /\ rsets w' = rsets w /\ next_rset w' = next_rset w) w.
Proof.
  intros I T R. destruct (wi_ptr _ _ _ I o ors R) as [Lb [s Es]]. unfold removeInvalidate. look Es.
  apply returns_if; intros V; [split; [exact I|]; split; [apply same_world_refl|auto]|]. apply negb_false_iff in V.
  destruct (wi_old _ _ _ I ors s Lb Es) as (_ & _ & M'). pose proof (λ o, proj1 (proj2 (M' V) o)) as M. clear M'.
  step. eapply returns_mono.
  { apply (lock_members_spec (set s) [] w (held w)); [constructor| |cbn; clear; set_solver|].
    - intros x Hx. inversion Hx.
    - intros x Hx. apply M in Hx. unfold rset_of in Hx. destruct (objects w !! x); [eauto|discriminate]. }
  intros [c res] w1 (h & -> & P). cbn [fst snd] in *. apply returns_if; intros ->.
  - subst h. assert (with_held (held w) w = w) as -> by (destruct w; reflexivity).
    split; [exact I|]. split; [apply same_world_refl|auto].
  - destruct P as (N & -> & P). step. unfold modify, returns. step. eapply returns_mono; [apply add_out_all_spec|].
    + intros x Hx. destruct (P x Hx) as (Nh & Vx & [Hs|Hs]); [|inversion Hs]. split; [exact Vx|]. split; [apply M, Hs|].
      cbn. apply elem_of_union. right. apply elem_of_list_to_set, Hx.
    + intros _ w2 ->. unfold returns. cbn. split; [|split; [repeat split; auto|auto]].
      destruct I. constructor; try assumption.
      * intros r [ ->%elem_of_singleton|Hr]%elem_of_union; [exists o; auto|exact (wi_inv0 r Hr)].
      * intros x [Hx%elem_of_list_to_set|Hx]%elem_of_union; [|exact (wi_out0 x Hx)].
        destruct (P x Hx) as (Nh & Vx & _). split; [|exact Vx]. destruct (stat w x) eqn:Ex; [|exact Ex].
        exfalso. apply Nh, wi_held0. left. rewrite Ex. eauto.
      * intros x. cbn. rewrite !elem_of_union, elem_of_list_to_set, wi_held0. unfold stat. cbn. tauto.
Qed.

(** *** Changes of the entries *)

Lemma stat_put o st w o' : stat (with_fomap (<[o := st]> (fomap (tx w))) w) o' = if decide (o' = o) then Some st else stat w o'.
Proof.
  unfold stat. cbn. destruct (decide (o' = o)) as [->|N]; [apply lookup_insert_eq|apply lookup_insert_ne; congruence].
Qed.

Lemma tag_stat w o st : stat w o = Some st -> tag w o = st_rset st.
Proof. unfold tag. intros ->. reflexivity. Qed.

Lemma same_world_put o st st' w : stat w o = Some st -> same_world w (with_fomap (<[o := st']> (fomap (tx w))) w).
Proof.
  intros E. do 3 (split; [reflexivity|]). intros y. rewrite stat_put. destruct (decide (y = o)) as [->|]; [rewrite E; split; eauto|reflexivity].
Qed.

(** An entry keeps its set. *)
Lemma winv_put e X o st st' w : winv e X w -> stat w o = Some st -> st_rset st' = st_rset st ->
  winv e X (with_fomap (<[o := st']> (fomap (tx w))) w) /\
  forall o', tag (with_fomap (<[o := st']> (fomap (tx w))) w) o' = tag w o'.
Proof.
  intros I E R. set (w' := with_fomap _ w).
  assert (forall o', stat w' o' = if decide (o' = o) then Some st' else stat w o') as S by (intros; apply stat_put).
  assert (forall o', tag w' o' = tag w o') as T.
  { intros o'. unfold tag. rewrite S. destruct (decide (o' = o)) as [->|]; [rewrite E; exact R|reflexivity]. }
  assert (forall o', is_Some (stat w' o') <-> is_Some (stat w o')) as D.
  { intros o'. rewrite S. destruct (decide (o' = o)) as [->|]; [rewrite E; split; eauto|reflexivity]. }
  split; [|exact T]. destruct I. constructor; try assumption.
  - intros x Hx. apply wi_stats0, D, Hx.
  - intros x r. rewrite T. apply wi_tags0.
  - intros r s L Es. destruct (wi_new0 r s L Es) as (A1 & A2 & A3 & A4 & A5 & A6). split; [exact A1|].
    split; [exact A2|]. split; [exact A3|]. split; [exact A4|]. split; [|exact A6]. intros x. rewrite T. apply A5.
  - intros r Hr. destruct (wi_inv0 r Hr) as (x & Tx & Rx). exists x. rewrite T. auto.
  - intros x Hx. destruct (wi_out0 x Hx) as [Ex V]. split; [|exact V]. destruct (stat w' x) eqn:Ex'; [|reflexivity].
    assert (is_Some (stat w x)) as [? Y] by (apply D; rewrite Ex'; eauto). congruence.
  - intros x. rewrite D. apply wi_held0.
Qed.

(** An object without a set gets one of the new sets. *)
Lemma winv_join e X o r s n w : winv e X w -> e = None \/ e = Some r -> b <= r -> rsets w !! r = Some s ->
  stat w o = Some (mkRSetStat None n false false) ->
  winv None X (with_rsets (<[r := mkRSet (set s ++ [o]) (acnt s) (valid s)]> (rsets w))
                 (with_fomap (<[o := mkRSetStat (Some r) n false false]> (fomap (tx w))) w)).
Proof.
  intros I He L Es E. set (w' := with_rsets _ _).
  assert (forall o', stat w' o' = if decide (o' = o) then Some (mkRSetStat (Some r) n false false) else stat w o') as S
    by (intros; apply stat_put).
  assert (forall o', tag w' o' = if decide (o' = o) then Some r else tag w o') as T.
  { intros o'. unfold tag. rewrite S. destruct (decide (o' = o)); reflexivity. }
  assert (tag w o = None) as To by exact (tag_stat _ _ _ E).
  assert (forall o', is_Some (stat w' o') <-> is_Some (stat w o')) as D.
  { intros o'. rewrite S. destruct (decide (o' = o)) as [->|]; [rewrite E; split; eauto|reflexivity]. }
  destruct I. constructor; try assumption.
  - intros x Hx. apply wi_stats0, D, Hx.
  - intros x r'. rewrite T. destruct (decide (x = o)) as [->|N].
    + intros [= <-]. split; [exact L|]. cbn. rewrite lookup_insert_eq. eauto.
    + intros Hx. destruct (wi_tags0 x r' Hx) as [L' Y]. split; [exact L'|]. apply lookup_insert_is_Some'. auto.
  - cbn. intros r' s' L' Es'. destruct (decide (r' = r)) as [->|Nr].
    + rewrite lookup_insert_eq in Es'. injection Es' as <-. destruct (wi_new0 r s L Es) as (A1 & A2 & A3 & A4 & A5 & _). cbn.
      split; [exact A1|]. split; [exact A2|]. split; [exact A3|]. split; [|split].
      * apply NoDup_app. split; [exact A4|]. split; [|apply NoDup_singleton]. intros x Hx ->%list_elem_of_singleton.
        apply A5 in Hx. congruence.
      * intros x. rewrite elem_of_app, list_elem_of_singleton, A5, T. destruct (decide (x = o)) as [->|N]; [tauto|].
        split; [intros [|]; [assumption|contradiction]|auto].
      * intros _ Hn. apply app_eq_nil in Hn as [_ Hn]. discriminate.
    + rewrite lookup_insert_ne in Es' by congruence. destruct (wi_new0 r' s' L' Es') as (A1 & A2 & A3 & A4 & A5 & A6).
      split; [exact A1|]. split; [exact A2|]. split; [exact A3|]. split; [exact A4|]. split.
      * intros x. rewrite A5, T. destruct (decide (x = o)) as [->|N]; [|reflexivity]. rewrite To. split; congruence.
      * intros _. apply A6. destruct He; congruence.
  - cbn. intros r' s' L'. rewrite lookup_insert_ne by lia. apply wi_old0, L'.
  - intros x r' Hx. destruct (wi_ptr0 x r' Hx) as [L' Y]. split; [exact L'|]. apply lookup_insert_is_Some'. auto.
  - intros r' Hr. destruct (wi_inv0 r' Hr) as (x & Tx & Rx). exists x. rewrite T. split; [|exact Rx].
    destruct (decide (x = o)); [eauto|exact Tx].
  - intros x Hx. destruct (wi_out0 x Hx) as [Ex V]. split; [|exact V]. destruct (stat w' x) eqn:Ex'; [|reflexivity].
    assert (is_Some (stat w x)) as [? Y] by (apply D; rewrite Ex'; eauto). congruence.
  - intros x. rewrite D. apply wi_held0.
Qed.

Lemma addToRSet_spec e X o r n s w : winv e X w -> e = None \/ e = Some r -> b <= r -> rsets w !! r = Some s ->
  stat w o = Some (mkRSetStat None n false false) ->
  returns (addToRSet busy o r) (λ c w', winv None X w' /\ same_world w w' /\
    if c then True else fomap (tx w') = <[o := mkRSetStat (Some r) (S n) true false]> (fomap (tx w))) w.
Proof.
  intros I He L Es E. pose proof (wi_new _ _ _ I r s L Es) as (_ & _ & _ & _ & Ms & _).
  assert (o ∉ set s) as Ns by (intros Ho; apply Ms in Ho; rewrite (tag_stat _ _ _ E) in Ho; discriminate).
  assert (forall w, stat w o = fomap (tx w) !! o) as St by reflexivity.
  unfold addToRSet, set_tag, rset_insert. look Es. check; [rewrite bool_decide_eq_false_2 by exact Ns; reflexivity|].
  look E. check; [reflexivity|]. step. look E. unfold put_stat, modify, returns. step. cbn [st_rcount in_cycle ok].
  look Es. check; [rewrite bool_decide_eq_false_2 by exact Ns; reflexivity|]. unfold put_rset, modify, returns.
  pose proof (winv_join e X o r s n w I He L Es E) as I2. cbn [rsets with_fomap with_tx] in I2 |- *.
  set (w2 := with_rsets _ (with_fomap _ w)) in *. fold w2.
  assert (stat w2 o = Some (mkRSetStat (Some r) n false false)) as E2 by (apply lookup_insert_eq).
  destruct (wi_stats _ _ _ I2 o) as (x & Ex & Vx); [rewrite E2; eauto|]. look Ex. step.
  assert (same_world w w2) as Sw2 by exact (same_world_put o _ (mkRSetStat (Some r) n false false) w E).
  eapply (returns_mono _ (λ _ w', winv None X w' /\ same_world w w' /\ fomap (tx w') = fomap (tx w2))).
  - destruct (rset x) as [ors|] eqn:Rx; [|exact (conj I2 (conj Sw2 eq_refl))].
    assert (rset_of w2 o = Some ors) as Ro by (unfold rset_of; rewrite Ex; exact Rx).
    check. { apply negb_true_iff, Nat.eqb_neq. destruct (wi_ptr _ _ _ I2 o ors Ro). lia. }
    eapply returns_mono; [apply (removeInvalidate_spec None X ors o w2 I2); [rewrite (tag_stat _ _ _ E2); eauto|exact Ro]|].
    intros c w' (I' & Sw & Ef & _). split; [exact I'|]. split; [|exact Ef].
    apply (same_world_trans _ w2); [exact Sw2|exact Sw].
  - intros c w' (I' & Sw & Ef). apply returns_if; intros ->; [exact (conj I' (conj Sw Logic.I))|].
    assert (stat w' o = Some (mkRSetStat (Some r) n false false)) as E' by (rewrite St, Ef; exact E2).
    look E'. check; [reflexivity|]. unfold put_stat, modify, returns. cbn [st_rset st_rcount ok].
    split; [apply (winv_put None X o _ (mkRSetStat (Some r) (S n) true false) w' I' E' eq_refl)|].
    split; [exact (same_world_trans _ _ _ Sw (same_world_put o _ _ w' E'))|].
    cbn. rewrite Ef. cbn. apply insert_insert_eq.
Qed.

(** *** Merging *)

Definition with_tag (r : nat) (st : RSetStat) : RSetStat := mkRSetStat (Some r) (st_rcount st) (in_cycle st) (ok st).

Lemma assimilate_loop_spec r l : forall w sr, rsets w !! r = Some sr -> NoDup l -> (forall x, x ∈ l -> x ∉ set sr) ->
  (forall x, x ∈ l -> is_Some (stat w x)) ->
  returns (for_each (λ x, rset_insert x r;; set_tag x r) l)
    (λ _ w', exists fm, w' = with_rsets (<[r := mkRSet (set sr ++ l) (acnt sr) (valid sr)]> (rsets w)) (with_fomap fm w) /\
       forall y, fm !! y = if decide (y ∈ l) then with_tag r <$> stat w y else stat w y) w.
Proof.
  induction l as [|x l IH]; intros w sr Er N Ds St.
  - unfold returns. cbn. exists (fomap (tx w)). split.
    + rewrite app_nil_r. destruct sr as [? ? ?]. cbn. rewrite insert_id by exact Er.
      destruct w as [? ? ? ? []]. reflexivity.
    + intros y. rewrite decide_False by (intros Hy; inversion Hy). reflexivity.
  - apply NoDup_cons in N as [Nx N]. cbn [for_each]. step. step. unfold rset_insert, set_tag. look Er.
    check; [rewrite bool_decide_eq_false_2 by (apply Ds; left); reflexivity|]. unfold put_rset, modify, returns.
    destruct (St x ltac:(left)) as [st Ex]. look Ex. unfold put_stat, modify, returns.
    set (w1 := with_fomap _ _). fold (with_tag r st) in w1.
    eapply returns_mono; [apply (IH w1 (mkRSet (set sr ++ [x]) (acnt sr) (valid sr)))|].
    + apply lookup_insert_eq.
    + exact N.
    + intros y Hy. cbn. intros [Hy'| ->%list_elem_of_singleton]%elem_of_app; [|contradiction].
      apply (Ds y); [right; exact Hy|exact Hy'].
    + intros y Hy. unfold w1. change (is_Some (stat (with_fomap (<[x := with_tag r st]> (fomap (tx w))) w) y)).
      rewrite stat_put. destruct (decide _); [eauto|]. apply St. right. exact Hy.
    + intros _ w' (fm & -> & Hf). exists fm. split.
      * unfold w1, with_rsets, with_fomap, with_tx. cbn. rewrite insert_insert_eq, <- app_assoc. reflexivity.
      * intros y. rewrite Hf. change (stat w1 y) with (stat (with_fomap (<[x := with_tag r st]> (fomap (tx w))) w) y).
        rewrite stat_put. destruct (decide (y = x)) as [->|Ny].
        -- rewrite decide_False by exact Nx. rewrite decide_True by left. rewrite Ex. reflexivity.
        -- destruct (decide (y ∈ l)); [rewrite decide_True by (right; assumption); reflexivity|].
           rewrite decide_False; [reflexivity|]. intros [?|?]%elem_of_cons; [congruence|contradiction].
Qed.

(** The entries with the tag [old] get the tag [r]. *)
Definition retag (r old : nat) (st : RSetStat) : RSetStat :=
  if decide (st_rset st = Some old) then with_tag r st else st.

Definition merged (r old : nat) w w' : Prop := forall y, stat w' y = retag r old <$> stat w y.

Lemma merged_tag r old w w' y : merged r old w w' -> tag w' y = if decide (tag w y = Some old) then Some r else tag w y.
Proof.
  intros Mg. unfold tag. rewrite Mg. destruct (stat w y) as [st|]; cbn; [|reflexivity]. unfold retag.
  destruct (decide (st_rset st = Some old)); [reflexivity|]. reflexivity.
Qed.

Lemma assimilate_spec X r old w sr so : winv None X w -> b <= r -> b <= old -> r <> old ->
  rsets w !! r = Some sr -> rsets w !! old = Some so ->
  returns (assimilate r old) (λ _ w', winv None X w' /\ same_world w w' /\ merged r old w w') w.
Proof.
  intros I Lr Lo Nr Er Eo. destruct (wi_new _ _ _ I r sr Lr Er) as (R1 & R2 & R3 & R4 & R5 & R6).
  destruct (wi_new _ _ _ I old so Lo Eo) as (O1 & O2 & O3 & O4 & O5 & O6).
  unfold assimilate. look Eo. step. eapply returns_mono; [apply (assimilate_loop_spec r (set so) w sr Er O4)|].
  - intros x Hx Hr. apply O5 in Hx. apply R5 in Hr. congruence.
  - intros x Hx. apply O5 in Hx. unfold tag in Hx. destruct (stat w x); [eauto|discriminate].
  - intros _ w1 (fm & -> & Hf). check; [apply Nat.eqb_eq; exact O3|]. unfold delete_rset, modify, returns.
    set (w' := with_rsets _ (with_rsets _ _)).
    assert (merged r old w w') as Mg.
    { intros y. change (stat w' y) with (fm !! y). rewrite Hf. destruct (decide (y ∈ set so)) as [Hy|Hy].
      - apply O5 in Hy. unfold tag in Hy. destruct (stat w y) as [st|]; [|reflexivity]. cbn in Hy |- *. unfold retag.
        rewrite decide_True by exact Hy. reflexivity.
      - destruct (stat w y) as [st|] eqn:Ey; [|reflexivity]. cbn. unfold retag. rewrite decide_False; [reflexivity|].
        intros Hs. apply Hy, O5. unfold tag. rewrite Ey. exact Hs. }
    pose proof (λ y, merged_tag r old w w' y Mg) as T.
    assert (forall y, is_Some (stat w' y) <-> is_Some (stat w y)) as D by (intros y; rewrite Mg; apply fmap_is_Some).
    split; [|split; [repeat split; [apply D|apply D]|exact Mg]].
    destruct I. constructor; try assumption.
    + intros x Hx. apply wi_stats0, D, Hx.
    + intros x r'. rewrite T. cbn. destruct (decide (tag w x = Some old)) as [Ht|Ht].
      * intros [= <-]. split; [exact Lr|]. rewrite lookup_delete_ne by congruence. rewrite lookup_insert_eq. eauto.
      * intros Hx. destruct (wi_tags0 x r' Hx) as [L' Y]. split; [exact L'|].
        rewrite lookup_delete_ne by congruence. apply lookup_insert_is_Some'. auto.
    + cbn. intros r' s' L' Es'. apply lookup_delete_Some in Es' as [Nd Es'].
      destruct (decide (r' = r)) as [->|Nr'].
      * rewrite lookup_insert_eq in Es'. injection Es' as <-. cbn.
        split; [exact R1|]. split; [exact R2|]. split; [exact R3|]. split; [|split].
        -- apply NoDup_app. split; [exact R4|]. split; [|exact O4]. intros x Hx Hs. apply R5 in Hx. apply O5 in Hs. congruence.
        -- intros x. rewrite elem_of_app, R5, O5, T. destruct (decide (tag w x = Some old)); [tauto|].
           split; [intros [|]; [assumption|contradiction]|auto].
        -- intros _ Hn. apply app_eq_nil in Hn as [Hn _]. apply R6 in Hn; [exact Hn|discriminate].
      * rewrite lookup_insert_ne in Es' by congruence. destruct (wi_new0 r' s' L' Es') as (A1 & A2 & A3 & A4 & A5 & A6).
        split; [exact A1|]. split; [exact A2|]. split; [exact A3|]. split; [exact A4|]. split; [|exact A6].
        intros x. rewrite A5, T. destruct (decide (tag w x = Some old)) as [Ht|Ht]; [|reflexivity]. rewrite Ht.
        split; congruence.
    + cbn. intros r' s' L'. rewrite lookup_delete_ne, lookup_insert_ne by lia. apply wi_old0, L'.
    + intros x r' Hx. destruct (wi_ptr0 x r' Hx) as [L' Y]. split; [exact L'|]. cbn.
      rewrite lookup_delete_ne by lia. apply lookup_insert_is_Some'. auto.
    + intros r' Hr. destruct (wi_inv0 r' Hr) as (x & Tx & Rx). exists x. rewrite T. split; [|exact Rx].
      destruct (decide _); [eauto|exact Tx].
    + intros x Hx. destruct (wi_out0 x Hx) as [Ex V]. split; [|exact V]. rewrite Mg, Ex. reflexivity.
    + intros x. rewrite D. apply wi_held0.
Qed.

(** Nothing but the sets of entries changes. *)
Definition only_tags w w' : Prop :=
  forall y, stat w' y = (λ st, mkRSetStat (tag w' y) (st_rcount st) (in_cycle st) (ok st)) <$> stat w y.

Lemma only_tags_refl w : only_tags w w.
Proof. intros y. unfold tag. destruct (stat w y) as [[]|]; reflexivity. Qed.

Lemma merged_only_tags r old w w' : merged r old w w' -> only_tags w w'.
Proof.
  intros Mg y. unfold tag. rewrite Mg. destruct (stat w y) as [st|]; [|reflexivity]. cbn. unfold retag.
  destruct (decide _); destruct st; reflexivity.
Qed.

(** The result is one of the two sets, and the entries of both have it. *)
Lemma mergeRSet_spec X o rs r' w : winv None X w -> tag w o = Some r' ->
  (forall r, rs = Some r -> b <= r /\ is_Some (rsets w !! r)) ->
  returns (mergeRSet o rs) (λ r'' w', winv None X w' /\ same_world w w' /\ only_tags w w' /\
    (forall y, tag w' y = if decide (tag w y = Some r' \/ is_Some rs /\ tag w y = rs) then Some r'' else tag w y)) w.
Proof.
  intros I T Hrs. destruct (stat w o) as [st|] eqn:E; [|unfold tag in T; rewrite E in T; discriminate].
  assert (st_rset st = Some r') as Et by (rewrite <- (tag_stat _ _ _ E); exact T).
  unfold mergeRSet. look E. rewrite Et. destruct (wi_tags _ _ _ I o r' T) as [L' [s' Es']].
  assert (winv None X w /\ same_world w w /\ only_tags w w /\
            (rs = None \/ rs = Some r') -> winv None X w /\ same_world w w /\ only_tags w w /\
    (forall y, tag w y = if decide (tag w y = Some r' \/ is_Some rs /\ tag w y = rs) then Some r' else tag w y)) as Same.
  { intros (A1 & A2 & A3 & A4). split; [exact A1|]. split; [exact A2|]. split; [exact A3|]. intros y.
    destruct (decide _) as [D|D]; [|reflexivity]. destruct A4 as [-> | ->]; destruct D as [D|[D1 D2]]; try exact D; try exact D2.
    destruct D1; discriminate. }
  destruct rs as [r|]; [|apply Same; auto using same_world_refl, only_tags_refl].
  destruct (Hrs r eq_refl) as [L [s Es]]. apply returns_if; intros Hr.
  - apply Nat.eqb_eq in Hr as ->. apply Same. auto using same_world_refl, only_tags_refl.
  - apply Nat.eqb_neq in Hr. look Es. look Es'.
    apply returns_if; intros _; step; (eapply returns_mono; [eapply (assimilate_spec X); eassumption || congruence|]);
      intros _ w' (I' & Sw & Mg); (split; [exact I'|]; split; [exact Sw|]; split; [exact (merged_only_tags _ _ _ _ Mg)|]);
      intros y; rewrite (merged_tag _ _ _ _ _ Mg).
    + destruct (decide (tag w y = Some r')) as [->|N]; [rewrite decide_True by auto; reflexivity|].
      destruct (decide _) as [[D|[_ D]]|D]; [contradiction|exact D|reflexivity].
    + destruct (decide (tag w y = Some r)) as [->|N]; [rewrite decide_True by eauto; reflexivity|].
      destruct (decide _) as [[D|[_ D]]|D]; [exact D|contradiction|reflexivity].
Qed.

(** ** Steps of the scan *)

Definition cnt (w : world) (o : nat) : nat := from_option st_rcount 0 (stat w o).

(** What the parts of an entry say about each other *)
Definition sane w : Prop := forall y st, stat w y = Some st ->
  (in_cycle st = true <-> is_Some (st_rset st)) /\ (st_rset st = None -> st_rcount st = 0) /\
  (ok st = true -> st_rset st = None).

(** The entries after a step: sets grow, nothing gets out of its set. *)
Definition grown w w' : Prop :=
  sane w' /\ coarser (tag w) (tag w') /\ forall y, ok <$> stat w' y = ok <$> stat w y.

Lemma grown_refl w : sane w -> grown w w.
Proof. intros S. split; [exact S|]. split; [apply coarser_refl|reflexivity]. Qed.

Lemma grown_trans w1 w2 w3 : grown w1 w2 -> grown w2 w3 -> grown w1 w3.
Proof.
  intros (_ & C1 & K1) (S2 & C2 & K2). split; [exact S2|]. split; [exact (coarser_trans _ _ _ C1 C2)|].
  intros y. rewrite K2. apply K1.
Qed.

Lemma grown_stat w w' y : grown w w' -> is_Some (stat w' y) <-> is_Some (stat w y).
Proof. intros (_ & _ & K). rewrite <- (fmap_is_Some ok (stat w' y)), K. apply fmap_is_Some. Qed.

(** A set is one of the new ones. *)
Definition is_new w (r : nat) : Prop := b <= r /\ is_Some (rsets w !! r).

Lemma tag_is_new e X w o r : winv e X w -> tag w o = Some r -> is_new w r.
Proof. intros I T. exact (wi_tags _ _ _ I o r T). Qed.

Lemma new_rset_spec X w : winv None X w ->
  returns new_rset (λ r w', winv (Some r) X w' /\ same_world w w' /\ fomap (tx w') = fomap (tx w) /\ b <= r /\
    rsets w' !! r = Some (mkRSet [] 0 true)) w.
Proof.
  intros I. unfold returns, new_rset. pose proof (wi_next _ _ _ I) as Ln.
  assert (rsets w !! next_rset w = None) as Nn.
  { destruct (rsets w !! next_rset w) as [s|] eqn:Es; [|reflexivity]. destruct (wi_new _ _ _ I _ _ Ln Es). lia. }
  split; [|split; [repeat split; auto|split; [reflexivity|split; [exact Ln|apply lookup_insert_eq]]]].
  destruct I. constructor; cbn; try assumption; try lia.
  - intros o r T. destruct (wi_tags0 o r T) as [L Y]. split; [exact L|]. apply lookup_insert_is_Some'. auto.
  - intros r s L Es. destruct (decide (r = next_rset w)) as [->|N].
    + rewrite lookup_insert_eq in Es. injection Es as <-. cbn. split; [lia|]. split; [reflexivity|]. split; [reflexivity|].
      split; [constructor|]. split; [|congruence]. intros o. split; [intros Ho; inversion Ho|]. intros T.
      destruct (wi_tags0 o _ T) as [_ [? Y]]. congruence.
    + rewrite lookup_insert_ne in Es by congruence. destruct (wi_new0 r s L Es) as (A1 & A2 & A3 & A4 & A5 & A6).
      split; [lia|]. split; [exact A2|]. split; [exact A3|]. split; [exact A4|]. split; [exact A5|]. intros _. apply A6. discriminate.
  - intros r s L. rewrite lookup_insert_ne by lia. apply wi_old0, L.
  - intros o r R. destruct (wi_ptr0 o r R) as [L Y]. split; [exact L|]. apply lookup_insert_is_Some'. auto.
Qed.

(** An entry with a new set, and the world behind *)
Lemma joined_grown w w' o r : sane w -> stat w o = Some (mkRSetStat None 0 false false) ->
  fomap (tx w') = <[o := mkRSetStat (Some r) 1 true false]> (fomap (tx w)) ->
  grown w w' /\ (forall y, tag w' y = if decide (y = o) then Some r else tag w y) /\
  (forall y, cnt w' y = if decide (y = o) then 1 else cnt w y).
Proof.
  intros S E Ef.
  assert (forall y, stat w' y = if decide (y = o) then Some (mkRSetStat (Some r) 1 true false) else stat w y) as St.
  { intros y. unfold stat. rewrite Ef. destruct (decide (y = o)) as [->|N]; [apply lookup_insert_eq|apply lookup_insert_ne; congruence]. }
  assert (forall y, tag w' y = if decide (y = o) then Some r else tag w y) as T
    by (intros y; unfold tag; rewrite St; destruct (decide _); reflexivity).
  split; [|split; [exact T|intros y; unfold cnt; rewrite St; destruct (decide _); reflexivity]].
  split; [|split].
  - intros y st. rewrite St. destruct (decide (y = o)) as [->|N]; [|apply S]. intros [= <-]. cbn.
    split; [split; eauto|]. split; discriminate.
  - pose proof (tag_stat _ _ _ E) as To. cbn in To. intros p q Epq [t Tp]. rewrite !T.
    assert (p <> o) by congruence. assert (q <> o) by congruence. rewrite !decide_False by assumption. split; [exact Epq|eauto].
  - intros y. rewrite St. destruct (decide (y = o)) as [->|N]; [rewrite E; reflexivity|reflexivity].
Qed.

(** Merging leaves the counts. *)
Lemma merge_grown w w' rs r' r'' : sane w -> only_tags w w' ->
  (forall y, tag w' y = if decide (tag w y = Some r' \/ is_Some rs /\ tag w y = rs) then Some r'' else tag w y) ->
  grown w w' /\ (forall y, cnt w' y = cnt w y) /\ forall y, tag w' y = None <-> tag w y = None.
Proof.
  intros S O T.
  assert (forall y, tag w' y = None <-> tag w y = None) as Nn.
  { intros y. rewrite T. destruct (decide _) as [D|D]; [|reflexivity]. split; [discriminate|]. intros E. rewrite E in D.
    destruct D as [D|[[? D1] D2]]; congruence. }
  split; [|split; [intros y; unfold cnt; rewrite (O y); destruct (stat w y); reflexivity|exact Nn]].
  split; [|split].
  - intros y st. rewrite (O y). destruct (stat w y) as [st0|] eqn:E; [|discriminate]. intros [= <-]. cbn.
    destruct (S y st0 E) as (A1 & A2 & A3). rewrite <- (tag_stat _ _ _ E) in A1, A2, A3.
    assert (is_Some (tag w' y) <-> is_Some (tag w y)) as Is.
    { rewrite <- !not_eq_None_Some, Nn. reflexivity. }
    split; [rewrite Is; exact A1|]. split; [rewrite Nn; exact A2|rewrite Nn; exact A3].
  - intros p q E Sp. rewrite !T, E. split; [reflexivity|]. destruct (decide _); [eauto|]. rewrite <- E. exact Sp.
  - intros y. rewrite (O y). destruct (stat w y); reflexivity.
Qed.

Lemma inc_rcount_spec e X o st w : winv e X w -> sane w -> stat w o = Some st -> is_Some (st_rset st) ->
  returns (inc_rcount o) (λ _ w', winv e X w' /\ same_world w w' /\ rsets w' = rsets w /\ grown w w' /\
    (forall y, tag w' y = tag w y) /\ forall y, cnt w' y = if decide (y = o) then S (cnt w o) else cnt w y) w.
Proof.
  intros I S E R. unfold inc_rcount. look E. unfold put_stat, modify, returns.
  set (st' := mkRSetStat (st_rset st) (Datatypes.S (st_rcount st)) (in_cycle st) (ok st)).
  destruct (winv_put e X o st st' w I E eq_refl) as [I' T].
  pose proof (stat_put o st' w) as St. set (w' := with_fomap _ w) in *.
  split; [exact I'|]. split; [exact (same_world_put o st st' w E)|]. split; [reflexivity|]. split; [|split; [exact T|]].
  - split; [|split].
    + intros y sy. rewrite St. destruct (decide (y = o)) as [->|N]; [|apply S]. intros [= <-]. cbn.
      destruct (S o st E) as (A1 & A2 & A3). split; [exact A1|]. split; [|exact A3]. intros Hn. rewrite Hn in R. destruct R; discriminate.
    + intros p q. rewrite !T. auto.
    + intros y. rewrite St. destruct (decide (y = o)) as [->|N]; [rewrite E|]; reflexivity.
  - intros y. unfold cnt. rewrite St. destruct (decide (y = o)) as [->|N]; [rewrite E|]; reflexivity.
Qed.

Lemma blank_entry w y st : sane w -> stat w y = Some st -> ok st = false -> tag w y = None ->
  stat w y = Some (mkRSetStat None 0 false false).
Proof.
  intros S E Ek T. rewrite (tag_stat _ _ _ E) in T. destruct (S y st E) as (A1 & A2 & _). rewrite E. f_equal.
  destruct st as [r n c k]. cbn in *. subst. rewrite (A2 eq_refl). destruct c; [|reflexivity].
  destruct (proj1 A1 eq_refl). discriminate.
Qed.

Lemma grown_ok w w' y st : grown w w' -> stat w y = Some st -> ok st = false ->
  exists st', stat w' y = Some st' /\ ok st' = false.
Proof.
  intros (_ & _ & K) E O. specialize (K y). rewrite E in K. cbn in K. destruct (stat w' y) as [st'|]; [|discriminate].
  exists st'. split; [reflexivity|]. injection K. congruence.
Qed.

(** What closing a circle or a chain does to the counts: only the given
    entries change, by one at most, and for a reason. *)
Definition counted (P : nat -> Prop) (why : nat -> Prop) w w' : Prop :=
  forall y, cnt w' y = cnt w y \/ P y /\ cnt w' y = S (cnt w y) /\ why y.

Lemma current_set_spec X rs w : winv None X w -> (forall r, rs = Some r -> is_new w r) ->
  returns (current_set rs) (λ r w', winv (Some r) X w' /\ same_world w w' /\ fomap (tx w') = fomap (tx w) /\
    b <= r /\ is_Some (rsets w' !! r) /\ (forall r0, rs = Some r0 -> r0 = r)) w.
Proof.
  intros I Hrs. destruct rs as [r|]; cbn [current_set].
  - destruct (Hrs r eq_refl) as [L Es]. unfold returns. cbn. split; [|split; [apply same_world_refl|]].
    + destruct I. constructor; try assumption. intros r0 s0 L0 Es0.
      destruct (wi_new0 r0 s0 L0 Es0) as (A1 & A2 & A3 & A4 & A5 & A6). do 5 (split; [assumption|]). intros _. apply A6. discriminate.
    + split; [reflexivity|]. split; [exact L|]. split; [exact Es|]. congruence.
  - eapply returns_mono; [apply (new_rset_spec X w I)|]. intros r w' (A1 & A2 & A3 & A4 & A5).
    split; [exact A1|]. split; [exact A2|]. split; [exact A3|]. split; [exact A4|]. split; [eauto|discriminate].
Qed.

(** An object without a set joins the current one. *)
Lemma join_current_spec X o rs w : winv None X w -> sane w -> stat w o = Some (mkRSetStat None 0 false false) ->
  (forall r, rs = Some r -> is_new w r) ->
  returns (r ← current_set rs; c ← addToRSet busy o r; mret (r, c)) (λ x w', winv None X w' /\ same_world w w' /\
    if x.2 then True
    else grown w w' /\ (forall y, tag w' y = if decide (y = o) then Some x.1 else tag w y) /\
      (forall r0, rs = Some r0 -> r0 = x.1) /\ (forall y, cnt w' y = if decide (y = o) then 1 else cnt w y)) w.
Proof.
  intros I S Eb Hrs. step. eapply returns_mono; [exact (current_set_spec X rs w I Hrs)|].
  intros r w1 (I1 & Sw1 & Ef & L & [s Es] & Hr). step.
  eapply returns_mono.
  { apply (addToRSet_spec (Some r) X o r 0 s w1 I1 (or_intror eq_refl) L Es). unfold stat. rewrite Ef. exact Eb. }
  intros c w' (I' & Sw & Ef'). unfold returns. cbn. split; [exact I'|]. split; [exact (same_world_trans _ _ _ Sw1 Sw)|].
  destruct c; [exact Logic.I|]. rewrite Ef in Ef'. destruct (joined_grown w w' o r S Eb Ef') as (Gr & Tg & Cn). auto.
Qed.

(** An object in a set: the reference from below may count, and the set is
    merged with the current one. *)
Lemma merge_current_spec X o x below rs r' w : winv None X w -> sane w -> tag w x = Some r' ->
  (forall p l, below = p :: l -> is_Some (stat w p)) -> (forall r, rs = Some r -> is_new w r) ->
  returns (count_parent o x below;; r ← mergeRSet x rs; mret (r, false)) (λ y w', winv None X w' /\ same_world w w' /\ y.2 = false /\
    grown w w' /\ tag w' x = Some y.1 /\ (forall z, tag w z = rs -> is_Some rs -> tag w' z = Some y.1) /\
    (forall z, tag w' z = None <-> tag w z = None) /\
    forall z, cnt w' z = cnt w z \/
      z = x /\ cnt w' z = Datatypes.S (cnt w z) /\ x <> o /\ exists p l, below = p :: l /\ tag w p = None) w.
Proof.
  intros I S T Hb Hrs. step.
  eapply (returns_mono _ (λ _ w1, winv None X w1 /\ same_world w w1 /\ rsets w1 = rsets w /\ grown w w1 /\
    (forall z, tag w1 z = tag w z) /\ forall z, cnt w1 z = cnt w z \/
      z = x /\ cnt w1 z = Datatypes.S (cnt w z) /\ x <> o /\ exists p l, below = p :: l /\ tag w p = None)).
  - assert (winv None X w /\ same_world w w /\ rsets w = rsets w /\ grown w w /\
      (forall z, tag w z = tag w z) /\ forall z, cnt w z = cnt w z \/
      z = x /\ cnt w z = Datatypes.S (cnt w z) /\ x <> o /\ exists p l, below = p :: l /\ tag w p = None) as Triv.
    { split; [exact I|]. split; [apply same_world_refl|]. split; [reflexivity|]. split; [exact (grown_refl w S)|]. auto. }
    destruct below as [|p l]; cbn [count_parent]; [exact Triv|]. apply returns_if; intros Hx; [exact Triv|].
    apply Nat.eqb_neq in Hx. destruct (Hb p l eq_refl) as [pst Ep]. look Ep. apply returns_if; intros Hc; [exact Triv|].
    destruct (stat w x) as [st|] eqn:E; [|unfold tag in T; rewrite E in T; discriminate].
    assert (st_rset st = Some r') as Et by (rewrite <- (tag_stat _ _ _ E); exact T).
    eapply returns_mono; [apply (inc_rcount_spec None X x st w I S E); rewrite Et; eauto|].
    intros _ w1 (I1 & Sw & Er & Gr & Tg & Cn). do 5 (split; [assumption|]). intros z. rewrite Cn.
    destruct (decide (z = x)) as [->|]; [right|left; reflexivity]. split; [reflexivity|]. split; [reflexivity|]. split; [exact Hx|].
    exists p, l. split; [reflexivity|]. destruct (S p pst Ep) as (A1 & _ & _). rewrite (tag_stat _ _ _ Ep).
    destruct (st_rset pst) eqn:Etp; [|reflexivity]. rewrite (proj2 A1) in Hc by eauto. discriminate.
  - intros _ w1 (I1 & Sw1 & Er & Gr1 & Tg1 & Cn1). step. assert (tag w1 x = Some r') as T1 by (rewrite Tg1; exact T).
    eapply returns_mono.
    { apply (mergeRSet_spec X x rs r' w1 I1 T1). intros r Hr. destruct (Hrs r Hr). rewrite Er. auto. }
    intros r'' w' (I' & Sw & O & Tg). destruct (merge_grown _ _ _ _ _ (proj1 Gr1) O Tg) as (Gr & Cn & Nn).
    unfold returns. cbn. split; [exact I'|]. split; [exact (same_world_trans _ _ _ Sw1 Sw)|]. split; [reflexivity|].
    split; [exact (grown_trans _ _ _ Gr1 Gr)|]. split; [rewrite Tg, decide_True by auto; reflexivity|]. split; [|split].
    + intros z Tz Sr. rewrite Tg, decide_True; [reflexivity|]. right. split; [exact Sr|]. rewrite Tg1. exact Tz.
    + intros z. rewrite Nn, Tg1. reflexivity.
    + intros z. rewrite Cn. apply Cn1.
Qed.

(** The loop that closes a circle at [o], from the top of the list down to
    it *)
Lemma finalize_spec X o l2 l1 : forall rs w, winv None X w -> sane w -> NoDup (l1 ++ [o]) ->
  (forall y, y ∈ l1 ++ o :: l2 -> exists st, stat w y = Some st /\ ok st = false) ->
  (forall r, rs = Some r -> is_new w r) ->
  returns (finalize busy o rs (l1 ++ o :: l2)) (λ c w', winv None X w' /\ same_world w w' /\
    if c then True
    else grown w w' /\
      (exists r', (forall y, y ∈ l1 ++ [o] -> tag w' y = Some r') /\
                  (forall y, is_Some rs -> tag w y = rs -> tag w' y = Some r')) /\
      counted (λ y, y ∈ l1 ++ [o])
        (λ y, tag w y = None \/ y <> o /\ exists i p, (l1 ++ [o]) !! i = Some y /\ (l1 ++ [o]) !! S i = Some p /\ tag w p = None)
        w w') w.
Proof.
  induction l1 as [|x l1 IH]; intros rs w I S N Ex Hrs; cbn [app] in *.
  - (* the object itself *)
    destruct (Ex o ltac:(left)) as (st & E & Ek). cbn [finalize]. look E. pose proof (tag_stat _ _ _ E) as T.
    destruct (st_rset st) as [r'|] eqn:Et; step.
    + eapply returns_mono; [apply (merge_current_spec X o o l2 rs r' w I S T)|].
      { intros p l ->. destruct (Ex p) as (pst & Ep & _); [right; left|eauto]. }
      { exact Hrs. }
      intros [r'' c] w' (I' & Sw & -> & Gr & To & Tr & _ & Cn). cbn [fst snd] in *. unfold returns. rewrite Nat.eqb_refl. cbn.
      split; [exact I'|]. split; [exact Sw|]. split; [exact Gr|]. split.
      * exists r''. split; [intros y ->%list_elem_of_singleton; exact To|]. intros y Hs Ty. exact (Tr y Ty Hs).
      * intros y. destruct (Cn y) as [|(_ & _ & Ne & _)]; [left; assumption|congruence].
    + pose proof (blank_entry _ _ _ S E Ek T) as Eb.
      eapply returns_mono; [exact (join_current_spec X o rs w I S Eb Hrs)|].
      intros [r c] w' (I' & Sw & P). cbn [fst snd] in *. unfold returns. destruct c; cbn; [auto|]. rewrite Nat.eqb_refl. cbn.
      destruct P as (Gr & Tg & Hr & Cn). split; [exact I'|]. split; [exact Sw|]. split; [exact Gr|]. split.
      * exists r. split; [intros y ->%list_elem_of_singleton; rewrite Tg, decide_True; reflexivity|].
        intros y [r0 Hr0] Ty. rewrite Tg. destruct (decide _); [reflexivity|]. rewrite Ty, Hr0, (Hr r0 Hr0). reflexivity.
      * intros y. rewrite Cn. destruct (decide (y = o)) as [->|]; [right|left; reflexivity].
        split; [left|]. unfold cnt. rewrite Eb. split; [reflexivity|]. left. exact T.
  - apply NoDup_cons in N as [Nx N]. destruct (Ex x ltac:(left)) as (st & E & Ek). cbn [finalize]. look E.
    pose proof (tag_stat _ _ _ E) as T. assert (x <> o) as Nxo by (intros ->; apply Nx; apply elem_of_app; right; left).
    assert (forall w1, grown w w1 -> forall y, y ∈ l1 ++ o :: l2 -> exists st, stat w1 y = Some st /\ ok st = false) as Ex1.
    { intros w1 G y Hy. destruct (Ex y) as (sy & Ey & Oy); [right; exact Hy|]. exact (grown_ok w w1 y sy G Ey Oy). }
    (* the rest of the loop, from what the first round leads to *)
    assert (forall r1 w1, winv None X w1 -> same_world w w1 -> grown w w1 -> tag w1 x = Some r1 ->
      (forall y, is_Some rs -> tag w y = rs -> tag w1 y = Some r1) ->
      (forall y, y <> x -> tag w1 y = None -> tag w y = None) ->
      (forall y, cnt w1 y = cnt w y \/ y = x /\ cnt w1 y = Datatypes.S (cnt w y) /\
         (tag w y = None \/ y <> o /\ exists i p, (x :: l1 ++ [o]) !! i = Some y /\ (x :: l1 ++ [o]) !! Datatypes.S i = Some p /\ tag w p = None)) ->
      returns (if x =? o then mret false else finalize busy o (Some r1) (l1 ++ o :: l2)) (λ c w', winv None X w' /\ same_world w w' /\
        if c then True
        else grown w w' /\
          (exists r', (forall y, y ∈ x :: l1 ++ [o] -> tag w' y = Some r') /\
                      (forall y, is_Some rs -> tag w y = rs -> tag w' y = Some r')) /\
          counted (λ y, y ∈ x :: l1 ++ [o])
            (λ y, tag w y = None \/ y <> o /\ exists i p, (x :: l1 ++ [o]) !! i = Some y /\ (x :: l1 ++ [o]) !! Datatypes.S i = Some p /\ tag w p = None)
            w w') w1) as Rest.
    { intros r1 w1 I1 Sw1 Gr1 Tx Tr Nn Cn. rewrite (proj2 (Nat.eqb_neq x o) Nxo).
      eapply returns_mono.
      { apply (IH (Some r1) w1 I1 (proj1 Gr1) N (Ex1 w1 Gr1)). intros r [= <-]. exact (tag_is_new _ _ _ _ _ I1 Tx). }
      intros c w' (I' & Sw' & P). split; [exact I'|]. split; [exact (same_world_trans _ _ _ Sw1 Sw')|]. destruct c; [exact Logic.I|].
      destruct P as (Gr & (r' & T1 & T2) & Ct). split; [exact (grown_trans _ _ _ Gr1 Gr)|]. split.
      - exists r'. split.
        + intros y [->|Hy]%elem_of_cons; [apply T2; [eauto|exact Tx]|apply T1, Hy].
        + intros y Hs Ty. apply T2; [eauto|]. exact (Tr y Hs Ty).
      - intros y. destruct (Ct y) as [Ec|(Hy & Ec & W)].
        + rewrite Ec. destruct (Cn y) as [|(-> & Ec' & W)]; [left; assumption|right]. split; [left|]. auto.
        + assert (y <> x) as Nyx by (intros ->; contradiction). right. split; [right; exact Hy|].
          destruct (Cn y) as [Ec'|(? & _)]; [|contradiction]. split; [rewrite Ec, Ec'; reflexivity|].
          destruct W as [W|(Nyo & i & p & Li & Lp & W)]; [left; exact (Nn y Nyx W)|right]. split; [exact Nyo|].
          exists (Datatypes.S i), p. split; [exact Li|]. split; [exact Lp|]. apply Nn; [|exact W]. intros ->.
          apply Nx. exact (list_elem_of_lookup_2 _ _ _ Lp). }
    destruct (st_rset st) as [r'|] eqn:Et; step.
    + eapply returns_mono; [apply (merge_current_spec X o x (l1 ++ o :: l2) rs r' w I S T)|].
      { intros p l Hl. destruct (Ex p) as (pst & Ep & _); [right; rewrite Hl; left|eauto]. }
      { exact Hrs. }
      intros [r1 c] w1 (I1 & Sw & -> & Gr & Tx & Tr & Nn & Cn). cbn [fst snd] in *.
      apply (Rest r1 w1 I1 Sw Gr Tx); [intros y Hs Ty; exact (Tr y Ty Hs)|intros y _; apply Nn|].
      intros y. destruct (Cn y) as [|(-> & Ec & _ & p & l & Hl & Tp)]; [left; assumption|right]. split; [reflexivity|].
      split; [exact Ec|]. right. split; [exact Nxo|]. exists 0, p. split; [reflexivity|]. split; [|exact Tp].
      destruct l1; cbn in Hl |- *; congruence.
    + pose proof (blank_entry _ _ _ S E Ek T) as Eb.
      eapply returns_mono; [exact (join_current_spec X x rs w I S Eb Hrs)|].
      intros [r1 c] w1 (I1 & Sw & P). cbn [fst snd] in *. destruct c; [exact (conj I1 (conj Sw Logic.I))|].
      destruct P as (Gr & Tg & Hr & Cn). apply (Rest r1 w1 I1 Sw Gr).
      * rewrite Tg, decide_True by reflexivity. reflexivity.
      * intros y [r0 Hr0] Ty. rewrite Tg. destruct (decide _); [reflexivity|]. rewrite Ty, Hr0, (Hr r0 Hr0). reflexivity.
      * intros y Ny. rewrite Tg, decide_False by exact Ny. auto.
      * intros y. rewrite Cn. destruct (decide (y = x)) as [->|]; [right|left; reflexivity].
        split; [reflexivity|]. unfold cnt. rewrite Eb. split; [reflexivity|]. left. exact T.
Qed.

Lemma assert_rcount_spec o st x w : stat w o = Some st -> objects w !! o = Some x -> st_rcount st <= references x ->
  returns (assert_rcount o) (λ _ w', w' = w) w.
Proof.
  intros E Ex L. unfold assert_rcount. look E. look Ex. apply returns_assert; [apply Nat.leb_le, L|reflexivity].
Qed.

(** A set that an object gets again *)
Lemma set_tag_same_spec e X o r w : winv e X w -> tag w o = Some r ->
  returns (set_tag o r) (λ _ w', winv e X w' /\ same_world w w' /\ rsets w' = rsets w /\ only_tags w w' /\ forall y, tag w' y = tag w y) w.
Proof.
  intros I T. unfold set_tag. destruct (stat w o) as [st|] eqn:E; [|unfold tag in T; rewrite E in T; discriminate].
  look E. unfold put_stat, modify, returns. rewrite (tag_stat _ _ _ E) in T.
  assert (mkRSetStat (Some r) (st_rcount st) (in_cycle st) (ok st) = st) as -> by (destruct st; cbn in *; congruence).
  destruct (winv_put e X o st st w I E eq_refl) as [I' Tg]. split; [exact I'|]. split; [exact (same_world_put o st st w E)|].
  split; [reflexivity|]. split; [|exact Tg]. intros y. rewrite stat_put, Tg. destruct (decide (y = o)) as [->|].
  - rewrite E, (tag_stat _ _ _ E). cbn. rewrite T. destruct st; cbn in *; congruence.
  - pose proof (only_tags_refl w y) as O. exact O.
Qed.

(** A further way into the set of [fi]: the objects of the list join it. *)
Lemma makeChain_spec X fi l : forall w, winv None X w -> sane w -> NoDup l -> fi ∉ l -> is_Some (tag w fi) ->
  (forall y, y ∈ l -> exists st, stat w y = Some st /\ ok st = false) ->
  (forall x, objects w !! fi = Some x -> Datatypes.S (cnt w fi) <= references x) ->
  returns (makeChain busy fi l) (λ c w', winv None X w' /\ same_world w w' /\
    if c then True
    else grown w w' /\ (forall y, y ∈ l -> tag w' y = tag w' fi) /\
      counted (λ y, y ∈ l \/ y = fi /\ l <> []) (λ y, y = fi \/ tag w y = None) w w') w.
Proof.
  induction l as [|x l IH]; intros w I S N Nf [r Tf] Ex Bd.
  - unfold returns. cbn. split; [exact I|]. split; [apply same_world_refl|]. split; [exact (grown_refl w S)|].
    split; [intros y Hy; inversion Hy|]. intros y. left. reflexivity.
  - apply NoDup_cons in N as [Nx N]. apply not_elem_of_cons in Nf as [Nfx Nf].
    destruct (Ex x ltac:(left)) as (st & E & Ek). pose proof (tag_stat _ _ _ E) as T.
    destruct (stat w fi) as [sf|] eqn:Ef; [|unfold tag in Tf; rewrite Ef in Tf; discriminate].
    pose proof (tag_stat _ _ _ Ef) as Tf'. rewrite Tf in Tf'. symmetry in Tf'.
    (* the rest of the list *)
    assert (forall w1, winv None X w1 -> same_world w w1 -> grown w w1 -> tag w1 x = tag w1 fi ->
      (forall y, y <> x -> tag w1 y = None -> tag w y = None) ->
      (forall y, cnt w1 y = cnt w y \/ (y = x /\ tag w y = None \/ y = fi /\ l = []) /\ cnt w1 y = Datatypes.S (cnt w y)) ->
      returns (makeChain busy fi l) (λ c w', winv None X w' /\ same_world w w' /\
        if c then True
        else grown w w' /\ (forall y, y ∈ x :: l -> tag w' y = tag w' fi) /\
          counted (λ y, y ∈ x :: l \/ y = fi /\ x :: l <> []) (λ y, y = fi \/ tag w y = None) w w') w1) as Rest.
    { intros w1 I1 Sw1 Gr1 Tx Nn Cn. destruct Gr1 as (S1 & C1 & K1).
      assert (is_Some (tag w1 fi)) as Sf by (apply (coarser_tagged _ _ fi C1); rewrite Tf; eauto).
      destruct (decide (l = [])) as [->|Nl].
      { unfold returns. cbn. split; [exact I1|]. split; [exact Sw1|]. split; [exact (conj S1 (conj C1 K1))|].
        split; [intros y ->%list_elem_of_singleton; exact Tx|]. intros y.
        destruct (Cn y) as [|[[[-> W]|[-> _]] Ec]]; [left; assumption|right..].
        - split; [left; left|]. auto.
        - split; [right; split; [reflexivity|discriminate]|]. auto. }
      eapply returns_mono.
      { apply (IH w1 I1 S1 N Nf Sf).
        - intros y Hy. destruct (Ex y) as (sy & Ey & Oy); [right; exact Hy|]. exact (grown_ok w w1 y sy (conj S1 (conj C1 K1)) Ey Oy).
        - intros x0 Ex0. destruct Sw1 as (Eo & _ & _ & _). rewrite Eo in Ex0.
          destruct (Cn fi) as [->|[[[? _]|[_ ?]] _]]; [exact (Bd x0 Ex0)|congruence|contradiction]. }
      intros c w' (I' & Sw' & P). split; [exact I'|]. split; [exact (same_world_trans _ _ _ Sw1 Sw')|]. destruct c; [exact Logic.I|].
      destruct P as (Gr & T1 & Ct). split; [exact (grown_trans _ _ _ (conj S1 (conj C1 K1)) Gr)|]. split.
      - intros y [->|Hy]%elem_of_cons; [|exact (T1 y Hy)]. destruct Gr as (_ & C2 & _). apply C2; [exact Tx|rewrite Tx; exact Sf].
      - intros y. destruct (Ct y) as [Ec|(Hy & Ec & W)].
        + rewrite Ec. destruct (Cn y) as [|[[[-> W]|[_ ?]] Ec']]; [left; assumption| |contradiction]. right. split; [left; left|]. auto.
        + right. assert (y <> x) as Ny by (intros ->; destruct Hy as [Hy|[Hy _]]; [contradiction|congruence]).
          destruct (Cn y) as [Ec'|[[[? _]|[_ ?]] _]]; [|contradiction|contradiction].
          split; [|split; [rewrite Ec, Ec'; reflexivity|]].
          * destruct Hy as [Hy|[-> _]]; [left; right; exact Hy|right; split; [reflexivity|discriminate]].
          * destruct W as [W|W]; [left; exact W|right; exact (Nn y Ny W)]. }
    cbn [makeChain]. look E. destruct (st_rset st) as [r'|] eqn:Et.
    + look Ef. step. rewrite Tf'. eapply returns_mono.
      { apply (mergeRSet_spec X x (Some r) r' w I T). intros r0 [= <-]. exact (tag_is_new _ _ _ _ _ I Tf). }
      intros r'' w1 (I1 & Sw1 & O & Tg). destruct (merge_grown _ _ _ _ _ S O Tg) as (Gr & Cn & Nn).
      assert (tag w1 fi = Some r'') as Tf1 by (rewrite Tg, decide_True; [reflexivity|right; split; [eauto|exact Tf]]).
      step. eapply returns_mono; [exact (set_tag_same_spec None X fi r'' w1 I1 Tf1)|].
      intros _ w2 (I2 & Sw2 & Er & O2 & Tg2).
      assert (grown w1 w2 /\ forall y, cnt w2 y = cnt w1 y) as [Gr2 Cn2].
      { destruct (merge_grown w1 w2 None r'' r'' (proj1 Gr) O2) as (A1 & A2 & _); [|auto].
        intros y. rewrite Tg2. destruct (decide _) as [[D|[[? D] _]]|]; [exact D|discriminate|reflexivity]. }
      apply (Rest w2 I2 (same_world_trans _ _ _ Sw1 Sw2) (grown_trans _ _ _ Gr Gr2)).
      * rewrite !Tg2, Tf1, Tg, decide_True by auto. reflexivity.
      * intros y _ Hn. rewrite Tg2 in Hn. apply Nn, Hn.
      * intros y. left. rewrite Cn2. apply Cn.
    + look Ef. rewrite Tf'. pose proof (blank_entry _ _ _ S E Ek T) as Eb. destruct (tag_is_new _ _ _ _ _ I Tf) as [L [s Es]].
      step. eapply returns_mono; [exact (addToRSet_spec None X x r 0 s w I (or_introl eq_refl) L Es Eb)|].
      intros c w1 (I1 & Sw1 & P). apply returns_if; intros ->; [exact (conj I1 (conj Sw1 Logic.I))|].
      destruct (joined_grown w w1 x r S Eb P) as (Gr & Tg & Cn).
      assert (tag w1 x = Some r) as Tx1 by (rewrite Tg, decide_True by reflexivity; reflexivity).
      assert (tag w1 fi = Some r) as Tf1 by (rewrite Tg, decide_False by congruence; exact Tf).
      assert (cnt w x = 0) as Cx by (unfold cnt; rewrite Eb; reflexivity).
      step. destruct l as [|x' l'].
      * assert (stat w1 fi = Some sf) as Ef1.
        { unfold stat. rewrite P, lookup_insert_ne by congruence. exact Ef. }
        destruct (wi_stats _ _ _ I fi) as (xf & Exf & _); [rewrite Ef; eauto|].
        step. eapply returns_mono; [apply (inc_rcount_spec None X fi sf w1 I1 (proj1 Gr) Ef1); rewrite Tf'; eauto|].
        intros _ w2 (I2 & Sw2 & _ & Gr2 & Tg2 & Cn2).
        assert (exists sf2, stat w2 fi = Some sf2 /\ st_rcount sf2 = Datatypes.S (cnt w fi)) as (sf2 & Ef2 & Ec2).
        { pose proof (Cn2 fi) as C2. rewrite decide_True in C2 by reflexivity. rewrite Cn, decide_False in C2 by congruence.
          assert (is_Some (stat w2 fi)) as [sf2 Ef2] by (apply (grown_stat w1 w2 fi Gr2); rewrite Ef1; eauto).
          exists sf2. split; [exact Ef2|]. unfold cnt in C2. rewrite Ef2 in C2. exact C2. }
        eapply returns_mono.
        { apply (assert_rcount_spec fi sf2 xf w2 Ef2); [|rewrite Ec2; exact (Bd xf Exf)].
          destruct Sw2 as (-> & _), Sw1 as (-> & _). exact Exf. }
        intros _ w3 ->. apply (Rest w2 I2 (same_world_trans _ _ _ Sw1 Sw2) (grown_trans _ _ _ Gr Gr2)).
        -- rewrite !Tg2. congruence.
        -- intros y Ny Hn. rewrite Tg2, Tg, decide_False in Hn by exact Ny. exact Hn.
        -- intros y. rewrite Cn2. destruct (decide (y = fi)) as [->|Ny].
           ++ right. split; [right; auto|]. rewrite Cn, decide_False by congruence. reflexivity.
           ++ rewrite Cn. destruct (decide (y = x)) as [->|]; [right|left; reflexivity]. split; [left; auto|]. rewrite Cx. reflexivity.
      * unfold returns at 1. cbn. apply (Rest w1 I1 Sw1 Gr).
        -- congruence.
        -- intros y Ny Hn. rewrite Tg, decide_False in Hn by exact Ny. exact Hn.
        -- intros y. rewrite Cn. destruct (decide (y = x)) as [->|]; [right|left; reflexivity]. split; [left; auto|]. rewrite Cx. reflexivity.
Qed.
End Transaction.
