(* ===== verification/RefScanTx.v ===== *)
(** * The scan for recursive references: steps of a transaction

    The invariant between visits, a further reference to an object that was
    visited before, and an object that leaves its old set because it must not
    be scanned. *)

From S2P Require Import Prelude RefScan RefScanSets.

#[local] Open Scope nat_scope.

Section Scan.
Context (objects0 : gmap nat RObject) (b : before) (busy : gset nat).
Implicit Types (w : world).

Abbreviation winv := (winv objects0 b).
Abbreviation graph := (all_edges objects0).

(** An object has at least the references that the graph shows. *)
Context (counted_refs : forall o x, objects0 !! o = Some x -> in_degree graph o <= references x).

(** ** The invariant between visits *)

(** [D] are the references that were scanned. *)
Record inv (X : gset nat) (D : list (nat * nat)) w : Prop := {
  iv_w : winv None X w;
  iv_sane : sane w;
  iv_nodup : NoDup (ovec (tx w));
  iv_stack o : o ∈ ovec (tx w) -> exists st, stat w o = Some st /\ ok st = false;
  iv_chain i p q : ovec (tx w) !! i = Some p -> ovec (tx w) !! S i = Some q -> (p, q) ∈ D;
  iv_count o : cnt w o <= internal (tag w) D o }.

(** The reference from the object that is being visited *)
Definition edge (V : list nat) (o : nat) : list (nat * nat) := match last V with Some p => [(p, o)] | None => [] end.

Lemma inv_more X D D' w : inv X D w -> inv X (D ++ D') w.
Proof.
  intros []. constructor; try assumption.
  - intros i p q Hp Hq. apply elem_of_app. left. exact (iv_chain0 i p q Hp Hq).
  - intros o. rewrite internal_app. specialize (iv_count0 o). lia.
Qed.

Lemma references_same w o x : winv None ∅ w \/ (exists X, winv None X w) -> objects w !! o = Some x ->
  exists x0, objects0 !! o = Some x0 /\ references x = references x0.
Proof.
  intros H E. assert (exists X, winv None X w) as [X I] by (destruct H; eauto).
  pose proof (wi_objects _ _ _ _ _ I o) as M. rewrite E in M. destruct (objects0 !! o) as [x0|]; [|contradiction].
  exists x0. split; [reflexivity|]. apply M.
Qed.

(** The count of an object can grow with a new reference. *)
Lemma count_bound X D w o p x : inv X D w -> D ++ [(p, o)] ⊆+ graph -> objects w !! o = Some x -> S (cnt w o) <= references x.
Proof.
  intros I B E. destruct (references_same w o x) as (x0 & E0 & ->); [right; exists X; apply I|exact E|].
  pose proof (counted_refs o x0 E0). pose proof (in_degree_submseteq _ _ o B) as S.
  rewrite in_degree_app in S. assert (in_degree [(p, o)] o = 1) as S1.
  { unfold in_degree. rewrite filter_cons, decide_True by reflexivity. reflexivity. }
  pose proof (iv_count _ _ _ I o). pose proof (internal_degree (tag w) D o). lia.
Qed.

(** ** An object that was visited before *)

Lemma behind_last_Some P l t : behind_last P l = Some t -> exists A x, l = A ++ x :: t /\ P x = true.
Proof.
  revert t. induction l as [|y l IH]; intros t; cbn; [discriminate|]. destruct (behind_last P l) as [t'|].
  - intros [= <-]. destruct (IH t' eq_refl) as (A & x & -> & Px). exists (y :: A), x. auto.
  - destruct (P y) eqn:Py; [|discriminate]. intros [= <-]. exists [], y. auto.
Qed.

Lemma reverse_succ {A} (l : list A) i x y : reverse l !! i = Some x -> reverse l !! S i = Some y ->
  exists j, l !! j = Some y /\ l !! S j = Some x.
Proof.
  intros Hx Hy. pose proof (lookup_lt_Some _ _ _ Hy) as L. rewrite length_reverse in L.
  rewrite reverse_lookup in Hx by lia. rewrite reverse_lookup in Hy by lia.
  exists (length l - S (S i)). split; [exact Hy|]. replace (S (length l - S (S i))) with (length l - S i) by lia. exact Hx.
Qed.

(** The counts behind a step, when each of them that has grown has a reason:
    the new reference, or one on the way that was between sets before *)
Lemma inv_after X D p o w w' : inv X D w -> winv None X w' -> same_world w w' -> grown w w' ->
  (forall y, cnt w' y = cnt w y \/ cnt w' y = S (cnt w y) /\
     (y = o /\ tag w' p = tag w' o /\ is_Some (tag w' o) \/
      exists q, (q, y) ∈ D /\ (tag w y = None \/ tag w q = None) /\ tag w' q = tag w' y /\ is_Some (tag w' y))) ->
  inv X (D ++ [(p, o)]) w'.
Proof.
  intros I I' (_ & Ev & _ & _) Gr C. constructor; try assumption.
  - apply Gr.
  - rewrite Ev. apply I.
  - rewrite Ev. intros y Hy. destruct (iv_stack _ _ _ I y Hy) as (st & E & O). exact (grown_ok w w' y st Gr E O).
  - rewrite Ev. intros i q y Hq Hy. apply elem_of_app. left. exact (iv_chain _ _ _ I i q y Hq Hy).
  - destruct Gr as (_ & Co & _). intros y. pose proof (iv_count _ _ _ I y) as B.
    destruct (C y) as [->|[-> [(-> & T & S)|(q & In & N & T & S)]]].
    + rewrite internal_app. pose proof (internal_mono _ _ D y Co). lia.
    + pose proof (internal_new _ _ D p o Co T S). lia.
    + rewrite internal_app. pose proof (internal_credit _ _ D q y Co In N T S). lia.
Qed.

Lemma last_suffix {A} (l1 l2 : list A) x : last (l1 ++ x :: l2) = last (x :: l2).
Proof. rewrite last_app. destruct (last (x :: l2)) eqn:E; [reflexivity|]. apply last_None in E. discriminate. Qed.

(** A circle is closed. [w1] is [w], or with the new reference counted
    already. *)
Lemma close_spec X D p o w w1 : inv X D w -> o ∈ ovec (tx w) -> last (ovec (tx w)) = Some p ->
  winv None X w1 -> same_world w w1 -> grown w w1 -> (forall y, tag w1 y = tag w y) ->
  (forall y, cnt w1 y = if decide (y = o /\ is_Some (tag w o)) then S (cnt w o) else cnt w y) ->
  returns (finalize busy o (tag w o) (reverse (ovec (tx w)))) (λ c w', winv None X w' /\ same_world w w' /\
    if c then True else inv X (D ++ [(p, o)]) w') w1.
Proof.
  intros I Ho La I1 Sw1 Gr1 Tg1 Cn1. apply list_elem_of_split in Ho as (A & B & Ev).
  rewrite Ev, reverse_app, reverse_cons, <- app_assoc. cbn [app].
  assert (reverse B ++ [o] = reverse (o :: B)) as Er by (rewrite reverse_cons; reflexivity).
  pose proof (iv_nodup _ _ _ I) as N. rewrite Ev in N.
  assert (NoDup (o :: B)) as NB by (apply NoDup_app in N; apply N).
  assert (forall j q y, (o :: B) !! j = Some q -> (o :: B) !! S j = Some y -> (q, y) ∈ D) as Ch.
  { intros j q y Hq Hy. apply (iv_chain _ _ _ I (length A + j)); rewrite Ev.
    - rewrite lookup_app_r by lia. replace (length A + j - length A) with j by lia. exact Hq.
    - rewrite lookup_app_r by lia. replace (S (length A + j) - length A) with (S j) by lia. exact Hy. }
  assert (p ∈ o :: B) as Hp by (rewrite Ev, last_suffix in La; apply last_Some_elem_of, La).
  eapply returns_mono.
  { apply (finalize_spec objects0 b busy X o (reverse A) (reverse B) (tag w o) w1 I1 (proj1 Gr1)).
    - rewrite Er. rewrite reverse_Permutation. exact NB.
    - intros y Hy. assert (y ∈ ovec (tx w)) as Hv.
      { rewrite Ev. rewrite elem_of_app, elem_of_cons, !elem_of_reverse in Hy. rewrite elem_of_app, elem_of_cons. tauto. }
      destruct (iv_stack _ _ _ I y Hv) as (st & E & O). exact (grown_ok w w1 y st Gr1 E O).
    - intros r Hr. destruct (wi_tags _ _ _ _ _ I1 o r) as [L S]; [rewrite Tg1; exact Hr|]. split; assumption. }
  intros c w' (I' & Sw' & P). split; [exact I'|]. split; [exact (same_world_trans _ _ _ Sw1 Sw')|]. destruct c; [exact Logic.I|].
  destruct P as (Gr & (r' & T1 & T2) & Ct). rewrite Er in *.
  assert (forall y, y ∈ o :: B -> tag w' y = Some r') as Tr by (intros y Hy; apply T1, elem_of_reverse, Hy).
  assert (tag w' o = Some r') as To by (apply Tr; left).
  apply (inv_after X D p o w w' I I' (same_world_trans _ _ _ Sw1 Sw') (grown_trans _ _ _ Gr1 Gr)).
  intros y. destruct (decide (y = o)) as [->|Ny].
  - assert (cnt w' o = cnt w o \/ cnt w' o = S (cnt w o)) as [E|E].
    { specialize (Cn1 o). destruct (Ct o) as [Ec|(_ & Ec & [Tn|[? _]])]; [|rewrite Tg1 in Tn|congruence]; rewrite Ec.
      - rewrite Cn1. destruct (decide _); auto.
      - rewrite Cn1. rewrite decide_False by (rewrite Tn; intros [_ [? ?]]; discriminate). auto. }
    + left. exact E.
    + right. split; [exact E|]. left. split; [reflexivity|]. rewrite To. split; [apply Tr, Hp|eauto].
  - specialize (Cn1 y). rewrite decide_False in Cn1 by (intros [? _]; contradiction).
    destruct (Ct y) as [Ec|(Hy & Ec & W)]; [left; congruence|right]. split; [congruence|]. right.
    assert (exists i q, reverse (o :: B) !! i = Some y /\ reverse (o :: B) !! S i = Some q /\ (tag w y = None \/ tag w q = None))
      as (i & q & Li & Lq & W').
    { destruct W as [Tn|(_ & i & q & Li & Lq & Tn)]; rewrite Tg1 in Tn; [|exists i, q; auto].
      apply list_elem_of_lookup_1 in Hy as [i Li]. pose proof (lookup_lt_Some _ _ _ Li) as Lt.
      destruct (reverse (o :: B) !! S i) as [q|] eqn:Lq; [exists i, q; auto|]. exfalso.
      apply lookup_ge_None in Lq. rewrite <- Er, length_app in Lq, Lt. cbn in Lq, Lt.
      rewrite <- Er, lookup_app_r in Li by lia. replace (i - length (reverse B)) with 0 in Li by lia. cbn in Li. congruence. }
    destruct (reverse_succ _ _ _ _ Li Lq) as (j & Lj & Ly). exists q. split; [exact (Ch j q y Lj Ly)|]. split; [exact W'|].
    rewrite (Tr q), (Tr y); eauto using list_elem_of_lookup_2.
Qed.

(** A chain leads from an object in the set of [o] back to it. *)
Lemma chain_spec X D p o w A x l : inv X D w -> ovec (tx w) = A ++ x :: l -> last (ovec (tx w)) = Some p ->
  o ∉ ovec (tx w) -> tag w x = tag w o -> is_Some (tag w o) -> D ++ [(p, o)] ⊆+ graph ->
  returns (makeChain busy o l) (λ c w', winv None X w' /\ same_world w w' /\
    if c then True else inv X (D ++ [(p, o)]) w') w.
Proof.
  intros I Ev La No Tx So Bd. pose proof (iv_nodup _ _ _ I) as N. rewrite Ev in N, La, No.
  assert (NoDup (x :: l)) as Nl by (apply NoDup_app in N; apply N). rewrite last_suffix in La.
  eapply returns_mono.
  { apply (makeChain_spec objects0 b busy X o l w (iv_w _ _ _ I) (iv_sane _ _ _ I)); [| |exact So| |].
    - apply NoDup_cons in Nl. apply Nl.
    - intros Ho. apply No. rewrite elem_of_app, elem_of_cons. auto.
    - intros y Hy. apply (iv_stack _ _ _ I). rewrite Ev, elem_of_app, elem_of_cons. auto.
    - intros xo. exact (count_bound X D w o p xo I Bd). }
  intros c w' (I' & Sw' & P). split; [exact I'|]. split; [exact Sw'|]. destruct c; [exact Logic.I|].
  destruct P as (Gr & Tl & Ct). apply (inv_after X D p o w w' I I' Sw' Gr). intros y.
  destruct Gr as (_ & Co & _). assert (is_Some (tag w' o)) as So' by exact (coarser_tagged _ _ o Co So).
  assert (forall q, q ∈ x :: l -> tag w' q = tag w' o) as Tq.
  { intros q [->|Hq]%elem_of_cons; [|exact (Tl q Hq)]. apply Co; [exact Tx|rewrite Tx; exact So]. }
  destruct (Ct y) as [|(Hy & Ec & W)]; [left; assumption|right]. split; [exact Ec|].
  destruct Hy as [Hy|[-> Nn]].
  - right. assert (tag w y = None) as Tn.
    { destruct W as [->|]; [|assumption]. exfalso. apply No. rewrite elem_of_app, elem_of_cons. auto. }
    apply list_elem_of_lookup_1 in Hy as [i Li].
    destruct ((x :: l) !! i) as [q|] eqn:Lq; [|apply lookup_ge_None in Lq; apply lookup_lt_Some in Li; cbn in Lq; lia].
    exists q. split; [|split; [left; exact Tn|]].
    + apply (iv_chain _ _ _ I (length A + i)); rewrite Ev; rewrite lookup_app_r by lia.
      * replace (length A + i - length A) with i by lia. exact Lq.
      * replace (S (length A + i) - length A) with (S i) by lia. exact Li.
    + rewrite (Tq q) by exact (list_elem_of_lookup_2 _ _ _ Lq). rewrite (Tq y); [auto|].
      right. exact (list_elem_of_lookup_2 _ _ _ Li).
  - left. split; [reflexivity|]. split; [|exact So']. apply Tq, last_Some_elem_of, La.
Qed.

(** A new reference counts, and the assertion behind it holds. *)
Lemma count_new_spec X D o p st w : inv X D w -> stat w o = Some st -> is_Some (st_rset st) -> D ++ [(p, o)] ⊆+ graph ->
  returns (inc_rcount o;; assert_rcount o) (λ _ w', winv None X w' /\ same_world w w' /\ grown w w' /\
    (forall y, tag w' y = tag w y) /\ forall y, cnt w' y = if decide (y = o) then S (cnt w o) else cnt w y) w.
Proof.
  intros I E R Bd. pose proof (iv_w _ _ _ I) as Iw. step.
  eapply returns_mono; [apply (inc_rcount_spec objects0 b None X o st w Iw (iv_sane _ _ _ I) E R)|].
  intros _ w1 (I1 & Sw1 & _ & Gr1 & Tg1 & Cn1).
  assert (is_Some (stat w1 o)) as [s1 E1] by (apply (grown_stat _ _ _ Gr1); rewrite E; eauto).
  destruct (wi_stats _ _ _ _ _ Iw o) as (x & Ex & _); [rewrite E; eauto|].
  eapply returns_mono.
  { apply (assert_rcount_spec o s1 x w1 E1); [destruct Sw1 as (-> & _); exact Ex|].
    pose proof (count_bound X D w o p x I Bd Ex) as B. specialize (Cn1 o). rewrite decide_True in Cn1 by reflexivity.
    unfold cnt in Cn1. rewrite E1 in Cn1. cbn in Cn1. rewrite Cn1. exact B. }
  intros _ w2 ->. auto.
Qed.

Lemma revisit_spec X D o st w : inv X D w -> stat w o = Some st ->
  D ++ edge (ovec (tx w)) o ⊆+ graph ->
  returns (revisit busy o st) (λ c w', winv None X w' /\ same_world w w' /\
    if c then True else inv X (D ++ edge (ovec (tx w)) o) w') w.
Proof.
  intros I E Bd. pose proof (iv_w _ _ _ I) as Iw. pose proof (iv_sane _ _ _ I) as S.
  destruct (S o st E) as (A1 & A2 & A3). pose proof (tag_stat _ _ _ E) as T.
  assert (forall v : bool, returns (mret false : M bool) (λ c w', winv None X w' /\ same_world w w' /\
    if c then True else inv X (D ++ edge (ovec (tx w)) o) w') w) as Keep.
  { intros _. split; [exact Iw|]. split; [apply same_world_refl|]. apply inv_more, I. }
  unfold revisit. apply returns_if; intros Ek.
  { check; [|exact (Keep true)]. destruct (in_cycle st); [|reflexivity]. destruct (proj1 A1 eq_refl). rewrite A3 in * by exact Ek. discriminate. }
  step. unfold gets, returns. cbn zeta. fold (returns (A := bool)). apply returns_if; intros Ec.
  - destruct (proj1 A1 Ec) as [r Er]. rewrite Er in *. apply returns_if; intros Hc.
    + apply bool_decide_eq_true in Hc. destruct (last (ovec (tx w))) as [p|] eqn:La; [|apply last_None in La; rewrite La in Hc; inversion Hc].
      unfold edge in *. rewrite La in *.
      assert (is_Some (st_rset st)) as So by (rewrite Er; eauto).
      pose proof (count_new_spec X D o p st w I E So Bd) as Cs. unfold returns, mbind, M_bind in Cs |- *.
      destruct (inc_rcount o w) as [u w0| |]; try contradiction. destruct (assert_rcount o w0) as [u' w1| |]; try contradiction.
      destruct Cs as (I1 & Sw1 & Gr1 & Tg1 & Cn1). rewrite <- T. apply (close_spec X D p o w w1 I Hc La I1 Sw1 Gr1 Tg1).
      intros y. rewrite Cn1, T. destruct (decide (y = o)) as [->|N]; [rewrite decide_True by eauto|rewrite decide_False by tauto]; reflexivity.
    + apply bool_decide_eq_false in Hc. destruct (last (ovec (tx w))) as [p|] eqn:La; [|exact (Keep true)].
      destruct (iv_stack _ _ _ I p (last_Some_elem_of _ _ La)) as (sp & Ep & _). look Ep.
      assert (edge (ovec (tx w)) o = [(p, o)]) as Ee by (unfold edge; rewrite La; reflexivity).
      apply returns_if; intros Hs.
      * apply bool_decide_eq_true in Hs. rewrite Ee in *. assert (is_Some (st_rset st)) as So by (rewrite Er; eauto).
        pose proof (count_new_spec X D o p st w I E So Bd) as Cs. unfold returns, mbind, M_bind in Cs |- *.
        destruct (inc_rcount o w) as [u w0| |]; try contradiction. destruct (assert_rcount o w0) as [u' w1| |]; try contradiction.
        destruct Cs as (I1 & Sw1 & Gr1 & Tg1 & Cn1). cbn. split; [exact I1|]. split; [exact Sw1|].
        apply (inv_after X D p o w w1 I I1 Sw1 Gr1). intros y. rewrite Cn1.
        destruct (decide (y = o)) as [->|N]; [right|left; reflexivity]. split; [reflexivity|]. left. split; [reflexivity|].
        rewrite !Tg1, T, (tag_stat _ _ _ Ep), Hs. eauto.
      * assert (forall A x l, ovec (tx w) = A ++ x :: l -> tag w x = Some r ->
          returns (makeChain busy o l) (λ c w', winv None X w' /\ same_world w w' /\
            if c then True else inv X (D ++ edge (ovec (tx w)) o) w') w) as Chain.
        { intros A x l Ev Tx. rewrite Ee in *. apply (chain_spec X D p o w A x l I Ev La Hc); [congruence|rewrite T; eauto|exact Bd]. }
        step. unfold gets, returns. fold (returns (A := bool)).
        destruct (behind_last _ (ovec (tx w))) as [l|] eqn:B1.
        -- destruct (behind_last_Some _ _ _ B1) as (A & x & Ev & Hx). apply bool_decide_eq_true in Hx.
           apply (Chain A x l Ev). unfold tag, stat. destruct (fomap (tx w) !! x); [exact Hx|discriminate].
        -- destruct (wi_tags _ _ _ _ _ Iw o r T) as [L [s Es]]. look Es.
           destruct (behind_last (λ x, bool_decide (x ∈ set s)) (ovec (tx w))) as [l|] eqn:B2; [|exact (Keep true)].
           destruct (behind_last_Some _ _ _ B2) as (A & x & Ev & Hx). apply bool_decide_eq_true in Hx.
           apply (Chain A x l Ev). apply (wi_new _ _ _ _ _ Iw r s L Es), Hx.
  - assert (st_rset st = None) as Er by (destruct (st_rset st); [|reflexivity]; rewrite (proj2 A1) in Ec by eauto; discriminate).
    apply returns_if; intros Hc; [|exact (Keep true)]. apply bool_decide_eq_true in Hc.
    destruct (last (ovec (tx w))) as [p|] eqn:La; [|apply last_None in La; rewrite La in Hc; inversion Hc].
    unfold edge in *. rewrite La in *. rewrite <- T.
    apply (close_spec X D p o w w I Hc La Iw (same_world_refl w) (grown_refl w S) (λ _, eq_refl)).
    intros y. rewrite T, Er. rewrite decide_False by (intros [_ [? ?]]; discriminate). reflexivity.
Qed.

(** ** An object leaves its set *)

Lemma pointers_delete m o r : m !! o = None -> forall x,
  pointers (<[o := x]> m) r = pointers m r + if decide (rset x = Some r) then 1 else 0.
Proof.
  intros N x. unfold pointers. rewrite map_filter_insert. destruct (decide (rset x = Some r)) as [E|E].
  - rewrite decide_True by exact E. rewrite map_size_insert_None; [lia|]. apply map_lookup_filter_None. auto.
  - rewrite decide_False by exact E. rewrite delete_id by exact N. lia.
Qed.

Lemma pointers_insert m o x y r : m !! o = Some x ->
  pointers (<[o := y]> m) r + (if decide (rset x = Some r) then 1 else 0) =
  pointers m r + (if decide (rset y = Some r) then 1 else 0).
Proof.
  intros E. pose proof (pointers_delete (delete o m) o r (lookup_delete_eq m o)) as P.
  pose proof (P x) as Px. pose proof (P y) as Py. rewrite insert_delete_id in Px by exact E.
  rewrite insert_delete_eq in Py. lia.
Qed.

(** The sets from before the transaction *)
Record old_sets (m : gmap nat RObject) (l : gmap nat RSet) : Prop := {
  os_set r s : r < b -> l !! r = Some s ->
    acnt s = pointers m r /\ 0 < acnt s /\
    (valid s = true -> was_valid b r = true /\ forall o, (o ∈ set s <-> m !! o ≫= rset = Some r) /\
                                 (objects0 !! o ≫= rset = Some r -> m !! o ≫= rset = Some r));
  os_ptr o r : m !! o ≫= rset = Some r -> r < b -> is_Some (l !! r) }.

Lemma winv_old_sets e X w : RefScanSets.winv objects0 b e X w -> old_sets (objects w) (rsets w).
Proof. intros I. constructor; [exact (wi_old _ _ _ _ _ I)|]. intros o r R _. exact (proj2 (wi_ptr _ _ _ _ _ I o r R)). Qed.

Definition same_but (r : nat) (l l' : gmap nat RSet) : Prop := forall r', r' <> r -> l' !! r' = l !! r'.

(** The set of an object that loses it becomes invalid, and is deleted with
    the last pointer to it. *)
Lemma invalidateDeref_spec o x r w : old_sets (objects w) (rsets w) -> objects w !! o = Some x -> rset x = Some r -> r < b ->
  returns (invalidateDeref r) (λ _ w', exists l, w' = with_rsets l w /\ same_but r (rsets w) l /\
    forall y, (forall r', rset y = Some r' -> b <= r') -> old_sets (<[o := y]> (objects w)) l) w.
Proof.
  intros O Eo Er L. assert (objects w !! o ≫= rset = Some r) as R by (rewrite Eo; exact Er).
  destruct (os_ptr _ _ O o r R L) as [s Es]. destruct (os_set _ _ O r s L Es) as (C & P & V).
  set (s1 := if valid s then mkRSet [] (acnt s) false else s).
  assert (acnt s1 = acnt s) as Ca by (unfold s1; destruct (valid s); reflexivity).
  assert (valid s1 = false) as Vs by (unfold s1; destruct (valid s) eqn:Q; [reflexivity|exact Q]).
  set (l1 := <[r := s1]> (rsets w)).
  assert (forall l, same_but r (rsets w) l ->
    (match l !! r with Some s2 => acnt s2 = pred (acnt s) /\ 0 < pred (acnt s) /\ valid s2 = false | None => acnt s = 1 end) ->
    forall y, (forall r', rset y = Some r' -> b <= r') -> old_sets (<[o := y]> (objects w)) l) as Keep.
  { intros l Sb Hr y Hy.
    assert (forall r', r' < b -> pointers (<[o := y]> (objects w)) r' = pointers (objects w) r' - if decide (r' = r) then 1 else 0) as Pt.
    { intros r' L'. pose proof (pointers_insert _ _ _ y r' Eo) as Q. rewrite Er in Q.
      rewrite (decide_False (P := rset y = Some r')) in Q by (intros Hn; apply Hy in Hn; lia).
      destruct (decide (Some r = Some r')) as [[= ->]|N]; [rewrite decide_True by reflexivity; lia|].
      rewrite decide_False by congruence. lia. }
    constructor.
    - intros r' s' L' Es'. rewrite Pt by exact L'. destruct (decide (r' = r)) as [->|N].
      + rewrite Es' in Hr. destruct Hr as (A1 & A2 & A3). split; [lia|]. split; [lia|]. congruence.
      + rewrite Sb in Es' by exact N. destruct (os_set _ _ O r' s' L' Es') as (A1 & A2 & A3). split; [lia|]. split; [lia|].
        intros Vs'. destruct (A3 Vs') as [Wv A4]. split; [exact Wv|]. intros o'. destruct (A4 o') as [B1 B2]. destruct (decide (o' = o)) as [->|No].
        * assert (rset y <> Some r') as Ny by (intros Hn; apply Hy in Hn; lia). rewrite lookup_insert_eq. cbn.
          assert (objects w !! o ≫= rset <> Some r') as Nx by (rewrite R; congruence).
          split; [split; [intros H; apply B1 in H; contradiction|contradiction]|]. intros H. apply B2 in H. contradiction.
        * rewrite lookup_insert_ne by congruence. auto.
    - intros o' r' R' L'. destruct (decide (o' = o)) as [->|No].
      + rewrite lookup_insert_eq in R'. apply Hy in R'. lia.
      + rewrite lookup_insert_ne in R' by congruence. destruct (decide (r' = r)) as [->|N].
        * destruct (l !! r); [eauto|]. exfalso.
          (* two pointers, and a count of one *)
          assert (2 <= pointers (objects w) r) as Two; [|lia].
          pose proof (pointers_insert _ _ _ (set_rset None 0 x) r Eo) as Q1. rewrite Er in Q1.
          rewrite decide_True in Q1 by reflexivity. cbn in Q1. rewrite decide_False in Q1 by discriminate.
          assert (0 < pointers (<[o := set_rset None 0 x]> (objects w)) r) as Q2; [|lia].
          unfold pointers. destruct (objects w !! o') as [x'|] eqn:Eo'; [|discriminate].
          destruct (decide (size (filter (λ p, rset p.2 = Some r) (<[o := set_rset None 0 x]> (objects w))) = 0)) as [Z|]; [|lia].
          apply map_size_empty_iff in Z. pose proof (map_lookup_filter_Some_2 (λ p, rset p.2 = Some r) (<[o := set_rset None 0 x]> (objects w)) o' x') as F.
          rewrite Z in F. rewrite lookup_empty in F. rewrite lookup_insert_ne in F by congruence. discriminate F; [exact Eo'|exact R'].
        * rewrite Sb by exact N. exact (os_ptr _ _ O o' r' R' L'). }
  assert (returns (invalidate r) (λ _ w1, w1 = with_rsets l1 w) w) as Inv.
  { unfold invalidate. look Es. unfold l1, s1. destruct (valid s); [reflexivity|]. unfold returns. cbn.
    rewrite insert_id by exact Es. destruct w; reflexivity. }
  unfold invalidateDeref. step. eapply returns_mono; [exact Inv|]. intros _ w1 ->.
  assert (rsets (with_rsets l1 w) !! r = Some s1) as Es1 by apply lookup_insert_eq.
  look Es1. check; [apply Nat.ltb_lt; lia|].
  assert (same_but r (rsets w) l1) as Sb1 by (intros r' N; apply lookup_insert_ne; congruence).
  apply returns_if; intros H1.
  - apply Nat.eqb_eq in H1. unfold delete_rset, modify, returns. exists (delete r l1).
    assert (same_but r (rsets w) (delete r l1)) as Sb by (intros r' N; rewrite lookup_delete_ne by congruence; apply Sb1, N).
    split; [reflexivity|]. split; [exact Sb|]. apply Keep; [exact Sb|]. rewrite lookup_delete_eq. lia.
  - apply Nat.eqb_neq in H1. unfold put_rset, modify, returns. eexists. split; [reflexivity|].
    assert (same_but r (rsets w) (<[r := mkRSet (set s1) (pred (acnt s1)) (valid s1)]> l1)) as Sb
      by (intros r' N; rewrite lookup_insert_ne by congruence; apply Sb1, N).
    split; [exact Sb|]. apply Keep; [exact Sb|]. rewrite lookup_insert_eq. cbn. split; [lia|]. split; [lia|exact Vs].
Qed.

Lemma same_object_trans x y z : same_object x y -> same_object y z -> same_object x z.
Proof.
  intros (A1 & A2 & A3 & A4 & A5) (B1 & B2 & B3 & B4 & B5). do 4 (split; [congruence|]).
  destruct B5 as [->|[-> ->]]; [auto|]. exact A5.
Qed.

(** An object is changed, and the old sets with it. *)
Lemma winv_object X w o x y l : winv None X w -> objects w !! o = Some x -> same_object x y ->
  (rset y <> rset x -> tag w o = None) -> old_sets (<[o := y]> (objects w)) l -> (forall r, b <= r -> l !! r = rsets w !! r) ->
  winv None X (with_rsets l (with_objects (<[o := y]> (objects w)) w)).
Proof.
  intros I Eo So Ht Os Hl. set (w' := with_rsets _ _).
  assert (forall o', objects w' !! o' = if decide (o' = o) then Some y else objects w !! o') as Ob.
  { intros o'. cbn. destruct (decide (o' = o)) as [->|N]; [apply lookup_insert_eq|apply lookup_insert_ne; congruence]. }
  assert (forall o', valid_object w o' -> valid_object w' o') as Va.
  { intros o' (x' & Ex & V). unfold valid_object. rewrite Ob. destruct (decide (o' = o)) as [->|N]; [|eauto].
    exists y. split; [reflexivity|]. assert (x' = x) as -> by congruence. unfold isValid in *. destruct So as (-> & _). exact V. }
  assert (forall o', o' <> o -> rset_of w' o' = rset_of w o') as Ro.
  { intros o' N. unfold rset_of. rewrite Ob, decide_False by exact N. reflexivity. }
  assert (rset_of w' o = rset y) as Ry by (unfold rset_of; rewrite Ob, decide_True by reflexivity; reflexivity).
  assert (rset_of w o = rset x) as Rx by (unfold rset_of; rewrite Eo; reflexivity).
  destruct I. constructor.
  - intros o'. rewrite Ob. specialize (wi_objects o'). destruct (decide (o' = o)) as [->|N]; [|exact wi_objects].
    rewrite Eo in wi_objects. destruct (objects0 !! o) as [x0|]; [|contradiction]. exact (same_object_trans x0 x y wi_objects So).
  - intros o' H. apply Va, wi_stats, H.
  - intros o' r T. destruct (wi_tags o' r T) as [L S]. split; [exact L|]. cbn. rewrite Hl by exact L. exact S.
  - intros r s L. cbn. rewrite Hl by exact L. apply wi_new, L.
  - exact wi_next.
  - intros r s L Es. exact (os_set _ _ Os r s L Es).
  - intros o' r R. assert (r < b) as L; [|split; [exact L|exact (os_ptr _ _ Os o' r R L)]].
    destruct (decide (o' = o)) as [->|N]; [|rewrite Ro in R by exact N; apply (wi_ptr o' r R)].
    rewrite Ry in R. destruct So as (_ & _ & _ & _ & [Hn|[Hn _]]); [congruence|]. rewrite Hn in R. apply (wi_ptr o r). congruence.
  - intros r Hr. destruct (wi_inv r Hr) as (o' & T & R). exists o'. split; [exact T|].
    destruct (decide (o' = o)) as [->|N]; [|rewrite Ro by exact N; exact R]. rewrite Ry.
    destruct (decide (rset y = rset x)) as [E|E]; [congruence|]. apply Ht in E. unfold tag, stat in E, T. cbn in T.
    rewrite E in T. destruct T. discriminate.
  - intros o' H. destruct (wi_out o' H) as [A V]. split; [exact A|apply Va, V].
  - exact wi_held.
Qed.

(** Nothing but objects and old sets changes. *)
Definition same_tx w w' : Prop := tx w' = tx w /\ held w' = held w.

Lemma set_deferred_spec X w o x d : winv None X w -> objects w !! o = Some x ->
  winv None X (with_objects (<[o := set_deferred d x]> (objects w)) w).
Proof.
  intros I Eo. pose proof (winv_object X w o x (set_deferred d x) (rsets w) I Eo) as W.
  apply W; [repeat split; auto|intros N; contradiction N; reflexivity| |reflexivity].
  pose proof (winv_old_sets None X w I) as O.
  assert (forall r, pointers (<[o := set_deferred d x]> (objects w)) r = pointers (objects w) r) as P.
  { intros r. pose proof (pointers_insert _ _ _ (set_deferred d x) r Eo) as Q. change (rset (set_deferred d x)) with (rset x) in Q. lia. }
  assert (forall o', <[o := set_deferred d x]> (objects w) !! o' ≫= rset = objects w !! o' ≫= rset) as R.
  { intros o'. destruct (decide (o' = o)) as [->|N]; [rewrite lookup_insert_eq, Eo; reflexivity|].
    rewrite lookup_insert_ne by congruence. reflexivity. }
  destruct O as [O1 O2]. constructor.
  - intros r s L Es. rewrite P. destruct (O1 r s L Es) as (A1 & A2 & A3). do 2 (split; [assumption|]). intros V. destruct (A3 V) as [Wv A4]. split; [exact Wv|]. intros o'. rewrite R. apply A4.
  - intros o' r. rewrite R. apply O2.
Qed.

Lemma detach_spec X w o x : winv None X w -> objects w !! o = Some x -> tag w o = None ->
  returns (put_object o (set_deferred true x);; removeInvalidateRSetIntern o)
    (λ _ w', winv None X w' /\ same_tx w w') w.
Proof.
  intros I Eo T. step. unfold put_object, modify, returns.
  pose proof (set_deferred_spec X w o x true I Eo) as I1. set (y := set_deferred true x) in *. set (w1 := with_objects _ w) in *. fold w1.
  assert (objects w1 !! o = Some y) as Ey by apply lookup_insert_eq.
  unfold removeInvalidateRSetIntern. look Ey. destruct (rset y) as [r|] eqn:Er; [|exact (conj I1 (conj eq_refl eq_refl))].
  destruct (wi_ptr _ _ _ _ _ I1 o r) as [L _]; [unfold rset_of; rewrite Ey; exact Er|].
  step. eapply returns_mono; [exact (invalidateDeref_spec o y r w1 (winv_old_sets _ _ _ I1) Ey Er L)|].
  intros _ w2 (l & -> & Sb & Os). unfold put_object, modify, returns. split; [|split; reflexivity].
  apply (winv_object X w1 o y (set_rset None 0 y) l I1 Ey); [repeat split; auto|intros _; exact T| |].
  - apply Os. discriminate.
  - intros r' L'. apply Sb. lia.
Qed.

Lemma needsScan_spec X w o x : winv None X w -> objects w !! o = Some x -> tag w o = None ->
  returns (needsScan o) (λ c w', winv None X w' /\ same_tx w w' /\
    (c = true -> rrefs x = 0 \/ exists k, kind x = KVariable k)) w.
Proof.
  intros I Eo T. unfold needsScan. look Eo.
  assert (forall c, (c = true -> rrefs x = 0 \/ exists k, kind x = KVariable k) -> returns (mret c : M bool)
    (λ c w', winv None X w' /\ same_tx w w' /\ (c = true -> rrefs x = 0 \/ exists k, kind x = KVariable k)) w) as Keep.
  { intros c Hc. split; [exact I|]. split; [split; reflexivity|exact Hc]. }
  destruct (kind x) as [v i q|k] eqn:Ek; [|apply Keep; eauto].
  apply returns_if; intros Hs; [apply Keep; discriminate|]. apply returns_if; intros Hd.
  - apply returns_if; intros Hr; [|apply Keep; discriminate]. step. unfold put_object, modify, returns. cbn.
    split; [exact (set_deferred_spec X w o x false I Eo)|]. split; [split; reflexivity|]. apply Nat.eqb_eq in Hr. auto.
  - apply returns_if; intros Hr; [apply Keep; apply Nat.eqb_eq in Hr; auto|].
    pose proof (detach_spec X w o x I Eo T) as Dt. unfold returns, mbind, M_bind in Dt |- *.
    destruct (put_object o (set_deferred true x) w) as [u w1| |]; try contradiction.
    destruct (removeInvalidateRSetIntern o w1) as [u' w2| |]; try contradiction.
    destruct Dt as [I2 S2]. cbn. split; [exact I2|]. split; [exact S2|discriminate].
Qed.
End Scan.
