(* ===== verification/RefScanWalk.v ===== *)
(** * The scan for recursive references: the walk

    [checkIntern] visits every object that can be reached, fails nowhere and
    needs no more fuel than there are objects. The references that are still
    to be scanned are part of what a visit is given: each is counted once. *)

From S2P Require Import Prelude RefScan RefScanSets RefScanTx.

#[local] Open Scope nat_scope.

(** ** Well-formed heaps *)

(** What a value leads to exists, and a variable that was captured is usable. *)
Definition node_ok (m : gmap nat RObject) : node -> bool :=
  fix go n :=
    match n with
    | NOther | NReference None => true
    | NObject o | NReference (Some o) => bool_decide (is_Some (m !! o))
    | NContainer ns => forallb go ns
    | NClosure _ vars => forallb (λ v, negb v.2 || from_option isValid false (m !! v.1)) vars
    end.

Definition heap_ok (m : gmap nat RObject) : Prop :=
  map_Forall (λ _ x, forallb (forallb (node_ok m)) (contents x) = true) m.

Lemma node_rec_nested (P : node -> Prop) : P NOther -> (forall o, P (NObject o)) ->
  (forall ns, Forall P ns -> P (NContainer ns)) -> (forall c vars, P (NClosure c vars)) -> (forall v, P (NReference v)) ->
  forall n, P n.
Proof.
  intros H1 H2 H3 H4 H5. fix IH 1. intros [|o|ns|c vars|v]; [exact H1|apply H2| |apply H4|apply H5].
  apply H3. induction ns as [|n ns IHns]; constructor; [apply IH|exact IHns].
Qed.

(** ** Steps outside the transaction *)

(** What a computation does is independent of the transaction. *)
Definition tx_free {A} (f : M A) : Prop := forall u w, f (with_tx u w) =
  match f w with Done c w' => Done c (with_tx u w') | Failed => Failed | OutOfFuel => OutOfFuel end.

Lemma tx_free_bind {A B} (f : M A) (g : A -> M B) : tx_free f -> (forall a, tx_free (g a)) -> tx_free (f ≫= g).
Proof. intros F G u w. unfold mbind, M_bind. rewrite F. destruct (f w); [apply G|reflexivity|reflexivity]. Qed.

Lemma tx_free_look {A} (f : world -> option A) : (forall u w, f (with_tx u w) = f w) -> tx_free (look f).
Proof. intros F u w. unfold look. rewrite F. destruct (f w); reflexivity. Qed.

Lemma tx_free_modify f : (forall u w, f (with_tx u w) = with_tx u (f w)) -> tx_free (modify f).
Proof. intros F u w. unfold modify. rewrite F. reflexivity. Qed.

Lemma tx_free_assert c : tx_free (assert c).
Proof. intros u w. unfold assert. destruct c; reflexivity. Qed.

Lemma tx_free_ret {A} (a : A) : tx_free (mret a : M A).
Proof. intros u w. reflexivity. Qed.

Lemma tx_free_if {A} (c : bool) (f g : M A) : tx_free f -> tx_free g -> tx_free (if c then f else g).
Proof. destruct c; auto. Qed.

Create HintDb tx_free.
#[local] Hint Resolve tx_free_bind tx_free_look tx_free_modify tx_free_assert tx_free_ret tx_free_if : tx_free.

Lemma invalidateDeref_tx r : tx_free (invalidateDeref r).
Proof.
  unfold invalidateDeref, invalidate, get_rset, put_rset, delete_rset. auto 20 with tx_free.
Qed.
#[local] Hint Resolve invalidateDeref_tx : tx_free.

Lemma removeInvalidateRSetIntern_tx o : tx_free (removeInvalidateRSetIntern o).
Proof.
  unfold removeInvalidateRSetIntern, get_object, put_object. apply tx_free_bind; [auto with tx_free|].
  intros x. destruct (rset x); auto with tx_free.
Qed.
#[local] Hint Resolve removeInvalidateRSetIntern_tx : tx_free.

Lemma needsScan_tx o : tx_free (needsScan o).
Proof.
  unfold needsScan, get_object, put_object. apply tx_free_bind; [auto with tx_free|]. intros x. destruct (kind x); auto 20 with tx_free.
Qed.

Section Walk.
Context (objects0 : gmap nat RObject) (b : before) (busy : gset nat).
Implicit Types (w : world).

Abbreviation winv := (winv objects0 b).
Abbreviation inv := (inv objects0 b).
Abbreviation graph := (all_edges objects0).

Context (counted_refs : forall o x, objects0 !! o = Some x -> in_degree graph o <= references x).
Context (objects_ok : heap_ok objects0).

(** ** What a visit is given *)

(** The references of the objects that were not visited *)
Definition unscanned w : list (nat * nat) := filter (λ e, stat w e.1 = None) graph.

(** [V] is the way to here, [E] the references that are still to be followed. *)
Definition ready (X : gset nat) (V : list nat) (E : list (nat * nat)) w : Prop :=
  exists D, inv X D w /\ ovec (tx w) = V /\ D ++ E ++ unscanned w ⊆+ graph.

Definition later w w' : Prop := forall y, is_Some (stat w y) -> is_Some (stat w' y).

Definition walked V E w (c : bool) w' : Prop := later w w' /\ if c then winv None ∅ w' else ready ∅ V E w'.

(** There is fuel for the objects that were not visited. *)
Definition enough (m : nat) w : Prop := size objects0 < m + size (fomap (tx w)).

Lemma later_refl w : later w w.
Proof. intros y H. exact H. Qed.

Lemma later_trans w1 w2 w3 : later w1 w2 -> later w2 w3 -> later w1 w3.
Proof. intros A B y H. apply B, A, H. Qed.

Lemma later_size w w' : later w w' -> size (fomap (tx w)) <= size (fomap (tx w')).
Proof.
  intros L. rewrite <- !size_dom. apply subseteq_size. intros y. rewrite !elem_of_dom. apply L.
Qed.

Lemma enough_later m w w' : enough m w -> later w w' -> enough m w'.
Proof. intros N L%later_size. unfold enough in *. lia. Qed.

Lemma later_unscanned w w' : later w w' -> unscanned w' ⊆+ unscanned w.
Proof.
  intros L. unfold unscanned. generalize graph. clear -L. induction l as [|e l IH]; [reflexivity|]. rewrite !filter_cons.
  destruct (decide (stat w' e.1 = None)) as [N|N].
  - rewrite decide_True; [apply submseteq_skip, IH|]. destruct (stat w e.1) eqn:E; [|reflexivity].
    destruct (L e.1) as [? E']; [rewrite E; eauto|congruence].
  - destruct (decide _); [apply submseteq_cons, IH|exact IH].
Qed.

Lemma ready_incl X V E E' w : ready X V E w -> E' ⊆+ E -> ready X V E' w.
Proof.
  intros (D & I & Ev & B) S. exists D. split; [exact I|]. split; [exact Ev|]. etrans; [|exact B].
  apply submseteq_skips_l, submseteq_skips_r, S.
Qed.

Lemma ready_skip X V E1 E w : ready X V (E1 ++ E) w -> ready X V E w.
Proof. intros R. apply (ready_incl X V (E1 ++ E)); [exact R|]. apply submseteq_inserts_l. reflexivity. Qed.

Lemma walked_keep V E1 E w : ready ∅ V (E1 ++ E) w -> walked V E w false w.
Proof. intros R. split; [apply later_refl|exact (ready_skip _ _ _ _ _ R)]. Qed.

Lemma walked_later V E w w' c w'' : later w w' -> walked V E w' c w'' -> walked V E w c w''.
Proof. intros L [L' H]. split; [exact (later_trans _ _ _ L L')|exact H]. Qed.

Lemma any_of_spec {A} (f : A -> M bool) (es : A -> list (nat * nat)) V m l : forall E w,
  (forall x E w, x ∈ l -> ready ∅ V (es x ++ E) w -> enough m w -> returns (f x) (walked V E w) w) ->
  ready ∅ V (concat (es <$> l) ++ E) w -> enough m w -> returns (any_of f l) (walked V E w) w.
Proof.
  induction l as [|x l IH]; intros E w F R N; cbn [any_of].
  - exact (walked_keep V [] E w R).
  - cbn in R. rewrite <- app_assoc in R. step. eapply returns_mono; [apply (F x _ w ltac:(left) R N)|].
    intros c w' [L H]. apply returns_if; intros ->; [exact (conj L H)|].
    eapply returns_mono; [apply (IH E w'); [intros y E' w2 Hy; apply F; right; exact Hy|exact H|exact (enough_later _ _ _ N L)]|].
    intros c w'' Hw. exact (walked_later _ _ _ _ _ _ L Hw).
Qed.

(** ** Values *)

(** What is known about a visit of an object: the variable of a closure is
    locked before. *)
Definition visits (visit : nat -> M bool) (V : list nat) (m : nat) : Prop := forall X t E w,
  X = ∅ \/ X = {[t]} /\ valid_object w t -> ready X V (edge V t ++ E) w -> is_Some (objects0 !! t) -> enough m w ->
  returns (visit t) (λ c w', walked V E w c w' /\ (X = {[t]} -> is_Some (stat w' t))) w.

Lemma inv_lock X D w t : X = ∅ \/ X = {[t]} -> inv X D w -> inv {[t]} D (with_held ({[t]} ∪ held w) w).
Proof.
  intros HX []. constructor; try assumption. destruct iv_w. constructor; try assumption.
  intros o. cbn. change (stat (with_held ({[t]} ∪ held w) w) o) with (stat w o). rewrite elem_of_union, wi_held.
  destruct HX as [-> | ->]; clear; set_solver.
Qed.

(** An entry makes the lock from before superfluous. *)
Lemma winv_visited t w : winv None {[t]} w -> is_Some (stat w t) -> winv None ∅ w.
Proof.
  intros [] St. constructor; try assumption. intros o. rewrite wi_held. split.
  - intros [?|[?| ->%elem_of_singleton]]; auto.
  - intros [?|[?|H]]; [auto|auto|]. apply not_elem_of_empty in H. contradiction.
Qed.

Lemma inv_closures X D w cs : inv X D w -> inv X D (with_closures cs w).
Proof. intros []. constructor; try assumption. destruct iv_w. constructor; assumption. Qed.

Lemma ready_closures X V E w cs : ready X V E w -> ready X V E (with_closures cs w).
Proof. intros (D & I & H). exists D. split; [exact (inv_closures X D w cs I)|exact H]. Qed.

Lemma valid_variable t x0 w : winv None ∅ w -> objects0 !! t = Some x0 -> isValid x0 = true -> valid_object w t.
Proof.
  intros I E V. pose proof (wi_objects _ _ _ _ _ I t) as M. rewrite E in M.
  destruct (objects w !! t) as [x|] eqn:Ex; [|contradiction]. exists x. split; [exact Ex|].
  destruct M as (K & _). unfold isValid in *. rewrite K. exact V.
Qed.

Section Visit.
Context (visit : nat -> M bool) (V : list nat) (p m : nat) (Hp : last V = Some p).
Context (visit_ok : visits visit V m).

Lemma visit_spec t E w : ready ∅ V ((p, t) :: E) w -> is_Some (objects0 !! t) -> enough m w ->
  returns (visit t) (walked V E w) w.
Proof.
  intros R S N. eapply returns_mono; [apply (visit_ok ∅ t E w (or_introl eq_refl)); [|exact S|exact N]|].
  - unfold edge. rewrite Hp. exact R.
  - intros c w' [H _]. exact H.
Qed.

Lemma scan_var_spec v E w : negb v.2 || from_option isValid false (objects0 !! v.1) = true ->
  ready ∅ V ((if v.2 then [(p, v.1)] else []) ++ E) w -> enough m w -> returns (scan_var busy visit v) (walked V E w) w.
Proof.
  destruct v as [t [|]]; cbn [fst snd negb orb]; intros Ok R N; unfold scan_var; cbn [fst snd negb]; [|exact (walked_keep V [] E w R)].
  destruct (objects0 !! t) as [x0|] eqn:E0; [|discriminate]. cbn in Ok. assert (is_Some (objects0 !! t)) as S0 by (rewrite E0; eauto).
  step. unfold gets, returns. fold (returns (A := bool)). apply returns_if; intros Hh; [exact (visit_spec t E w R S0 N)|].
  apply bool_decide_eq_false in Hh. pose proof R as (D & I & Ev & B). pose proof (iv_w _ _ _ _ _ I) as Iw.
  step. eapply returns_mono; [apply try_lock_spec|]. intros c w1 Hc. apply returns_if; intros ->.
  { destruct Hc as [-> _]. split; [apply later_refl|exact Iw]. }
  subst w1. set (w1 := with_held ({[t]} ∪ held w) w). step. unfold gets, returns. step.
  assert (stat w t = None) as St.
  { destruct (stat w t) eqn:St; [|reflexivity]. exfalso. apply Hh, (wi_held _ _ _ _ _ Iw). left. rewrite St. eauto. }
  eapply returns_mono.
  { apply (visit_ok {[t]} t E w1); [|unfold edge; rewrite Hp| exact S0|exact N].
    - right. split; [reflexivity|]. exact (valid_variable t x0 w Iw E0 Ok).
    - exists D. split; [exact (inv_lock ∅ D w t (or_introl eq_refl) I)|]. split; [exact Ev|exact B]. }
  cbn beta. intros c w2 [Hw Hs]. specialize (Hs eq_refl). step. unfold gets, returns. step.
  assert (size (fomap (tx w)) < size (fomap (tx w2))) as Lt.
  { rewrite <- !size_dom. apply subset_size. split.
    - intros y. rewrite !elem_of_dom. apply (proj1 Hw).
    - intros Sb. specialize (Sb t). rewrite !elem_of_dom in Sb. unfold stat in Sb, St. destruct (Sb Hs). congruence. }
  rewrite (proj2 (Nat.eqb_neq _ _)) by (cbn; lia). step. unfold gets, returns.
  rewrite bool_decide_eq_true_2 by exact Hs. cbn. exact Hw.
Qed.

Lemma scan_node_spec n : node_ok objects0 n = true -> forall E w, ready ∅ V ((pair p <$> targets n) ++ E) w -> enough m w ->
  returns (scan_node busy visit n) (walked V E w) w.
Proof.
  induction n as [|o|ns IH|c vars|r] using node_rec_nested; intros Ok E w R N; cbn [scan_node];
    (apply returns_if; intros Hn; [exact (walked_keep V _ E w R)|clear Hn]).
  - exact (walked_keep V [] E w R).
  - cbn in Ok. apply bool_decide_eq_true in Ok. exact (visit_spec o E w R Ok N).
  - apply (any_of_spec _ (λ n, pair p <$> targets n) V m ns E w).
    + intros n E' w' Hn R' N'. rewrite Forall_forall in IH. apply (IH n Hn); [|exact R'|exact N'].
      cbn in Ok. change (forallb (node_ok objects0) ns = true) in Ok. rewrite forallb_forall in Ok. apply Ok, list_elem_of_In, Hn.
    + change (targets (NContainer ns)) with (concat (targets <$> ns)) in R.
      assert (concat ((λ n, pair p <$> targets n) <$> ns) = pair p <$> concat (targets <$> ns)) as ->; [|exact R].
      clear. induction ns as [|n ns IH]; [reflexivity|]. cbn. rewrite fmap_app. f_equal. exact IH.
    + exact N.
  - step. unfold gets, returns. fold (returns (A := bool)). apply returns_if; intros Hs; [exact (walked_keep V _ E w R)|].
    step. unfold modify, returns. set (w1 := with_closures _ w).
        apply (any_of_spec (scan_var busy visit) (λ v, if v.2 then [(p, v.1)] else []) V m vars E w1).
    + intros v E' w' Hv R' N'. apply scan_var_spec; [|exact R'|exact N'].
      cbn in Ok. rewrite forallb_forall in Ok. apply Ok, list_elem_of_In, Hv.
    + apply ready_closures. cbn in R.
      assert (concat ((λ v : nat * bool, if v.2 then [(p, v.1)] else []) <$> vars) = pair p <$> (filter (λ v, v.2 = true) vars).*1) as ->; [|exact R].
      clear. induction vars as [|[v [|]] vars IH]; [reflexivity| |]; rewrite filter_cons;
        [rewrite decide_True by reflexivity; cbn; f_equal|rewrite decide_False by discriminate]; exact IH.
    + exact N.
  - destruct r as [o|]; [|exact (walked_keep V [] E w R)]. cbn in Ok. apply bool_decide_eq_true in Ok. exact (visit_spec o E w R Ok N).
Qed.

(** The object that is scanned is the last one on the way. *)
Lemma scanMembers_spec x0 E w : objects0 !! p = Some x0 -> rrefs x0 = 0 \/ (exists k, kind x0 = KVariable k) ->
  ready ∅ V ((pair p <$> object_targets x0) ++ E) w -> enough m w ->
  returns (scanMembers busy visit p) (walked V E w) w.
Proof.
  intros E0 Hr R N. pose proof (objects_ok p x0 E0) as Ok. cbn beta in Ok.
  assert (forall w', winv None ∅ w' -> exists x, objects w' !! p = Some x /\ same_object x0 x) as Ob.
  { intros w' I. pose proof (wi_objects _ _ _ _ _ I p) as M. rewrite E0 in M.
    destruct (objects w' !! p) as [x|]; [eauto|contradiction]. }
  assert (forall ns E w, ns ∈ contents x0 -> ready ∅ V ((pair p <$> concat (targets <$> ns)) ++ E) w -> enough m w ->
            returns (any_of (scan_node busy visit) ns) (walked V E w) w) as Val.
  { intros ns E' w' Hns R' N'. apply (any_of_spec _ (λ n, pair p <$> targets n) V m ns E' w').
    - intros n E2 w2 Hn R2 N2. apply scan_node_spec; [|exact R2|exact N2].
      rewrite forallb_forall in Ok. specialize (Ok ns (proj1 (list_elem_of_In _ _) Hns)). rewrite forallb_forall in Ok.
      apply Ok, list_elem_of_In, Hn.
    - assert (concat ((λ n, pair p <$> targets n) <$> ns) = pair p <$> concat (targets <$> ns)) as ->; [|exact R'].
      clear. induction ns as [|n ns IH]; [reflexivity|]. cbn. rewrite fmap_app. f_equal. exact IH.
    - exact N'. }
  set (es := λ ns, pair p <$> concat (targets <$> ns)) in *.
  assert (pair p <$> object_targets x0 = concat (es <$> members x0) ++ es (entries x0)) as Ec.
  { transitivity (concat (es <$> contents x0));
      [|unfold contents; rewrite fmap_app, concat_app; cbn; rewrite app_nil_r; reflexivity].
    symmetry. unfold object_targets. clear. induction (contents x0) as [|ns l IH]; [reflexivity|]. cbn. rewrite fmap_app, concat_app, fmap_app.
    f_equal. exact IH. }
  rewrite Ec, <- app_assoc in R. pose proof R as (D & I & _ & _).
  destruct (Ob w (iv_w _ _ _ _ _ I)) as (x & Ex & Kx & Mx & _ & Rx & _).
  unfold scanMembers. look Ex. rewrite Kx, Mx. destruct (kind x0) as [v i q|k] eqn:Ek.
  - destruct Hr as [Hr|[k Hk]]; [|congruence]. step. eapply (returns_mono _ (walked V (es (entries x0) ++ E) w)).
    + apply returns_if; intros Hc; [exact (walked_keep V _ _ w R)|].
      apply (any_of_spec _ es V m); [|exact R|exact N].
      intros ns E' w' Hns R' N'. pose proof R' as (D' & I' & _ & _).
      destruct (Ob w' (iv_w _ _ _ _ _ I')) as (x' & Ex' & _ & _ & _ & Rx' & _). look Ex'. rewrite Rx', Hr. cbn.
      apply (Val ns E' w'); [apply elem_of_app; left; exact Hns|exact R'|exact N'].
    + intros c w' [L H]. apply returns_if; intros ->; [exact (conj L H)|].
      assert (forall f, returns f (walked V E w') w' -> returns f (walked V E w) w') as Later.
      { intros f F. eapply returns_mono; [exact F|]. intros c w'' Hw. exact (walked_later _ _ _ _ _ _ L Hw). }
      apply Later. assert (entries x0 = queue_entries q) as Eq by (unfold entries; rewrite Ek; reflexivity).
      apply returns_if; intros Hq; [|exact (walked_keep V _ E w' H)]. unfold queue_scanMembers.
      apply returns_if; intros Hl; [exact (walked_keep V _ E w' H)|]. rewrite <- Eq.
      apply (Val (entries x0)); [|exact H|exact (enough_later _ _ _ N L)].
      unfold contents. apply elem_of_app. right. left.
  - apply (any_of_spec _ es V m).
    + intros ns E' w' Hns. apply (Val ns E' w'). apply elem_of_app. left. exact Hns.
    + apply (ready_incl _ _ _ _ _ R). apply submseteq_skips_l, submseteq_inserts_l. reflexivity.
    + exact N.
Qed.
End Visit.

(** ** Visiting an object *)

Lemma all_edges_split m t x : m !! t = Some x -> all_edges m ≡ₚ edges_of (t, x) ++ all_edges (delete t m).
Proof.
  intros E. unfold all_edges. rewrite <- (insert_delete_id m t x E) at 1.
  rewrite map_to_list_insert by apply lookup_delete_eq. reflexivity.
Qed.

Lemma all_edges_from m e : e ∈ all_edges m -> is_Some (m !! e.1).
Proof.
  unfold all_edges. rewrite list_elem_of_In, in_concat. intros (l & Hl & He).
  apply list_elem_of_In, list_elem_of_fmap in Hl as ([o x] & -> & Hx). apply list_elem_of_In in He. unfold edges_of in He. apply list_elem_of_fmap in He as (t & -> & _). cbn. apply elem_of_map_to_list in Hx. eauto.
Qed.

Lemma filter_nil {A} (P : A -> Prop) `{!forall x, Decision (P x)} (l : list A) : (forall x, x ∈ l -> ~ P x) -> filter P l = [].
Proof.
  intros HP. induction l as [|x l IH]; [reflexivity|]. rewrite filter_cons, decide_False by (apply HP; left).
  apply IH. intros y Hy. apply HP. right. exact Hy.
Qed.

Lemma filter_ext_in {A} (P Q : A -> Prop) `{!forall x, Decision (P x), !forall x, Decision (Q x)} (l : list A) :
  (forall x, x ∈ l -> P x <-> Q x) -> filter P l = filter Q l.
Proof.
  intros HP. induction l as [|x l IH]; [reflexivity|]. rewrite !filter_cons.
  assert (filter P l = filter Q l) as -> by (apply IH; intros y Hy; apply HP; right; exact Hy).
  specialize (HP x ltac:(left)). destruct (decide (P x)), (decide (Q x)); tauto.
Qed.

Lemma filter_all {A} (P : A -> Prop) `{!forall x, Decision (P x)} (l : list A) : (forall x, x ∈ l -> P x) -> filter P l = l.
Proof.
  intros HP. rewrite (filter_ext_in P (λ _, True)) by (intros x Hx; split; auto). clear HP.
  induction l as [|x l IH]; [reflexivity|]. rewrite filter_cons. cbn. f_equal. exact IH.
Qed.

(** The references of an object that is visited are no longer unscanned. *)
Lemma unscanned_visit w w' t x : objects0 !! t = Some x -> stat w t = None -> is_Some (stat w' t) ->
  (forall y, y <> t -> stat w' y = stat w y) ->
  (pair t <$> object_targets x) ++ unscanned w' ≡ₚ unscanned w.
Proof.
  intros E S S' Ot. unfold unscanned. rewrite (all_edges_split objects0 t x E), !filter_app. change (edges_of (t, x)) with (pair t <$> object_targets x).
  rewrite (filter_nil (λ e, stat w' e.1 = None) (pair t <$> object_targets x)).
  2: { intros e (y & -> & _)%list_elem_of_fmap. cbn [fst]. intros N. rewrite N in S'. destruct S'. discriminate. }
  rewrite (filter_all (λ e, stat w e.1 = None) (pair t <$> object_targets x)).
  2: { intros e (y & -> & _)%list_elem_of_fmap. exact S. }
  cbn [app]. apply Permutation_app_head. erewrite filter_ext_in; [reflexivity|].
  intros e He%all_edges_from. rewrite Ot; [reflexivity|]. intros Ht. rewrite Ht, lookup_delete_eq in He. destruct He. discriminate.
Qed.

Lemma stats_bound w : winv None ∅ w \/ (exists X, winv None X w) -> size (fomap (tx w)) <= size objects0.
Proof.
  intros H. assert (exists X, winv None X w) as [X I] by (destruct H; eauto). rewrite <- !size_dom. apply subseteq_size.
  intros y. rewrite !elem_of_dom. intros Hy. destruct (wi_stats _ _ _ _ _ I y Hy) as (x & Ex & _).
  pose proof (wi_objects _ _ _ _ _ I y) as M. rewrite Ex in M. destruct (objects0 !! y); [eauto|contradiction].
Qed.

Lemma inv_tx X X' D w w' : inv X D w -> winv None X' w' -> tx w' = tx w -> inv X' D w'.
Proof.
  intros I I' Et. assert (forall y, stat w' y = stat w y) as S by (intros; unfold stat; rewrite Et; reflexivity).
  assert (forall y, tag w' y = tag w y) as T by (intros; unfold tag; rewrite S; reflexivity).
  destruct I. constructor; rewrite ?Et; try assumption.
  - intros y st. rewrite S. apply iv_sane.
  - intros o Ho. rewrite S. apply iv_stack, Ho.
  - intros o. unfold cnt. rewrite S. etrans; [apply iv_count|]. apply internal_mono. intros p q. rewrite !T. auto.
Qed.

(** An entry without a set is added or changed. *)
Lemma inv_blank X X' D w w' t k : inv X D w -> winv None X' w' -> ovec (tx w') = ovec (tx w) -> t ∉ ovec (tx w) ->
  (stat w t = None \/ tag w t = None) ->
  (forall y, stat w' y = if decide (y = t) then Some (mkRSetStat None 0 false k) else stat w y) -> inv X' D w'.
Proof.
  intros I I' Ev Nt N S.
  assert (tag w t = None) as Tt by (destruct N as [N|N]; [unfold tag; rewrite N; reflexivity|exact N]).
  assert (forall y, tag w' y = tag w y) as T.
  { intros y. unfold tag at 1. rewrite S. destruct (decide (y = t)) as [->|]; [rewrite Tt; reflexivity|reflexivity]. }
  destruct I. constructor; rewrite ?Ev; try assumption.
  - intros y st. rewrite S. destruct (decide (y = t)) as [->|]; [|apply iv_sane]. intros [= <-]. cbn.
    split; [split; [discriminate|intros [? ?]; discriminate]|]. auto.
  - intros o Ho. rewrite S. rewrite decide_False by (intros ->; contradiction). apply iv_stack, Ho.
  - intros o. unfold cnt. rewrite S. destruct (decide (o = t)); [cbn; lia|]. etrans; [apply iv_count|].
    apply internal_mono. intros p q. rewrite !T. auto.
Qed.

(** A valid object that was not visited gets its entry. *)
Lemma winv_visit t w k : winv None {[t]} w -> valid_object w t -> stat w t = None ->
  let w' := with_out (tr_out (tx w) ∖ {[t]}) (with_fomap (<[t := mkRSetStat None 0 false k]> (fomap (tx w))) w) in
  winv None ∅ w' /\ forall y, stat w' y = if decide (y = t) then Some (mkRSetStat None 0 false k) else stat w y.
Proof.
  intros I Vt St w'.
  assert (forall y, stat w' y = if decide (y = t) then Some (mkRSetStat None 0 false k) else stat w y) as S by (intros; apply stat_put).
  assert (forall y, tag w' y = tag w y) as T.
  { intros y. unfold tag. rewrite S. destruct (decide (y = t)) as [->|]; [rewrite St|]; reflexivity. }
  split; [|exact S]. destruct I. constructor; try assumption.
  - intros o. rewrite S. destruct (decide (o = t)) as [->|]; [intros _; exact Vt|apply wi_stats].
  - intros o r. rewrite T. apply wi_tags.
  - intros r s L Es. destruct (wi_new r s L Es) as (A1 & A2 & A3 & A4 & A5 & A6). do 4 (split; [assumption|]).
    split; [|exact A6]. intros o. rewrite T. apply A5.
  - intros r Hr. destruct (wi_inv r Hr) as (o & To & Ro). exists o. rewrite T. auto.
  - intros o. cbn. intros [Ho Nt]%elem_of_difference. rewrite S, decide_False by (intros ->; apply Nt, elem_of_singleton; reflexivity).
    apply wi_out, Ho.
  - intros o. cbn. rewrite wi_held, S, elem_of_difference, elem_of_singleton.
    change (tr_out (tx (with_fomap (<[t := mkRSetStat None 0 false k]> (fomap (tx w))) w))) with (tr_out (tx w)).
    destruct (decide (o = t)) as [->|N]; [split; [intros _; left; eauto|auto]|].
    split; [intros [?|[?|?]]; auto; contradiction|intros [?|[[? _]|H]]; [auto|auto|apply not_elem_of_empty in H; contradiction]].
Qed.

(** [needsScan] between the new entry and the removal from [tr_out] *)
Lemma needsScan_entry t w x k :
  winv None {[t]} w -> objects w !! t = Some x -> isValid x = true -> stat w t = None ->
  returns (ns ← needsScan t; modify (λ w, with_out (tr_out (tx w) ∖ {[t]}) w);; mret ns)
    (λ c w', winv None ∅ w' /\ ovec (tx w') = ovec (tx w) /\
      (forall y, stat w' y = if decide (y = t) then Some (mkRSetStat None 0 false k) else stat w y) /\
      (c = true -> rrefs x = 0 \/ exists k, kind x = KVariable k))
    (with_fomap (<[t := mkRSetStat None 0 false k]> (fomap (tx w))) w).
Proof.
  intros I Ex V St. set (w2 := with_fomap _ w).
  destruct (winv_visit t w k I (ex_intro _ x (conj Ex V)) St) as [I3 S3].
  change (with_out _ _) with (with_tx (tx (with_out (tr_out (tx w2) ∖ {[t]}) w2)) w2) in I3, S3.
  set (u := tx (with_out (tr_out (tx w2) ∖ {[t]}) w2)) in *.
  assert (tag (with_tx u w2) t = None) as T3 by (unfold tag; rewrite S3, decide_True by reflexivity; reflexivity).
  pose proof (needsScan_spec objects0 b ∅ (with_tx u w2) t x I3 Ex T3) as Ns.
  pose proof (needsScan_tx t (tx w2) w2) as N2. replace (with_tx (tx w2) w2) with w2 in N2 by (destruct w2; reflexivity).
  unfold returns, mbind, M_bind in Ns |- *. rewrite (needsScan_tx t u w2) in Ns.
  destruct (needsScan t w2) as [c w3| |]; try contradiction. destruct Ns as (I4 & [_ _] & Hc). injection N2 as E3.
  assert (tx w3 = tx w2) as Et by (rewrite E3; reflexivity).
  set (w' := with_out (tr_out (tx w3) ∖ {[t]}) w3). assert (w' = with_tx u w3) as Ew by (unfold w', with_out; rewrite Et; reflexivity).
  cbn beta iota delta [modify mret M_ret]. fold w'. rewrite Ew. split; [exact I4|]. split; [reflexivity|]. split; [exact S3|exact Hc].
Qed.

Lemma inv_push D w t : inv ∅ (D ++ edge (ovec (tx w)) t) w -> t ∉ ovec (tx w) -> (exists st, stat w t = Some st /\ ok st = false) ->
  inv ∅ (D ++ edge (ovec (tx w)) t) (with_ovec (ovec (tx w) ++ [t]) w).
Proof.
  intros [] Nt St. constructor; try assumption.
  - destruct iv_w. constructor; assumption.
  - cbn. apply NoDup_app. split; [exact iv_nodup|]. split; [|apply NoDup_singleton]. intros o Ho ->%list_elem_of_singleton. contradiction.
  - cbn. intros o [Ho| ->%list_elem_of_singleton]%elem_of_app; [exact (iv_stack o Ho)|exact St].
  - cbn. intros i p q Hp Hq. apply lookup_app_Some in Hq as [Hq|[L Hq]].
    + rewrite lookup_app_l in Hp by (apply lookup_lt_Some in Hq; lia). exact (iv_chain i p q Hp Hq).
    + apply list_lookup_singleton_Some in Hq as [Z <-]. assert (S i = length (ovec (tx w))) as Ei by lia.
      rewrite lookup_app_l in Hp by lia. apply elem_of_app. right. unfold edge.
      rewrite last_lookup, <- Ei. cbn. rewrite Hp. left.
Qed.

Lemma inv_pop D w V t : inv ∅ D w -> ovec (tx w) = V ++ [t] -> inv ∅ D (with_ovec (removelast (ovec (tx w))) w).
Proof.
  intros [] E. rewrite E, removelast_last. constructor; cbn; try assumption.
  - destruct iv_w. constructor; assumption.
  - rewrite E in iv_nodup. apply NoDup_app in iv_nodup. apply iv_nodup.
  - intros o Ho. apply iv_stack. rewrite E, elem_of_app. auto.
  - intros i p q Hp Hq. apply (iv_chain i); rewrite E; apply lookup_app_l_Some; assumption.
Qed.

(** What a visit leads to *)
Definition visited (X : gset nat) V E (t : nat) w (c : bool) w' : Prop :=
  walked V E w c w' /\ (X = {[t]} -> is_Some (stat w' t)) /\
  (c = false -> valid_object w t /\ is_Some (stat w' t) \/ ~ valid_object w t /\ w' = w).

(** The members of an object that has its entry *)
Lemma scan_entry_spec visit m V t E w w1 x0 D :
  (forall V, visits visit V m) -> objects0 !! t = Some x0 -> enough (S m) w ->
  rrefs x0 = 0 \/ (exists k, kind x0 = KVariable k) ->
  inv ∅ (D ++ edge V t) w1 -> ovec (tx w) = V -> ovec (tx w1) = V -> stat w t = None -> t ∉ V ->
  (D ++ edge V t) ++ E ++ unscanned w ⊆+ graph ->
  (forall y, stat w1 y = if decide (y = t) then Some (mkRSetStat None 0 false false) else stat w y) ->
  returns (modify (λ w, with_ovec (ovec (tx w) ++ [t]) w);;
           rc ← scanMembers busy visit t;
           if rc : bool then mret true else modify (λ w, with_ovec (removelast (ovec (tx w))) w);; mret false)
    (λ c w', walked V E w c w' /\ is_Some (stat w' t)) w1.
Proof.
  intros Vs E0 En Hr I Ev Ev1 St Nt B S1. step. unfold modify at 1, returns. fold (returns (A := bool)).
  rewrite Ev1. set (w2 := with_ovec (V ++ [t]) w1).
  assert (forall y, stat w2 y = stat w1 y) as S2 by reflexivity.
  assert (stat w1 t = Some (mkRSetStat None 0 false false)) as St1 by (rewrite S1, decide_True by reflexivity; reflexivity).
  assert (later w w2) as L2.
  { intros y Hy. rewrite S2, S1. destruct (decide _); [eauto|exact Hy]. }
  assert (inv ∅ (D ++ edge V t) w2) as I2.
  { unfold w2. rewrite <- Ev1 in *. apply inv_push; [exact I|exact Nt|eauto]. }
  step. eapply returns_mono.
  { apply (scanMembers_spec visit (V ++ [t]) t m (last_snoc _ _) (Vs _) x0 E w2 E0 Hr).
    - exists (D ++ edge V t). split; [exact I2|]. split; [reflexivity|]. etrans; [|exact B].
      apply submseteq_skips_l. rewrite (Permutation_app_comm _ E), <- app_assoc.
      apply submseteq_skips_l, Permutation_submseteq, unscanned_visit; [exact E0|exact St|rewrite S2, St1; eauto|].
      intros y N. rewrite S2, S1, decide_False by exact N. reflexivity.
    - assert (size (fomap (tx w)) < size (fomap (tx w2))) as Lt; [|unfold enough in *; lia].
      rewrite <- !size_dom. apply subset_size. split; [intros y; rewrite !elem_of_dom; apply L2|].
      intros Sb. specialize (Sb t). rewrite !elem_of_dom in Sb. change (is_Some (stat w2 t) -> is_Some (stat w t)) in Sb.
      rewrite S2, St1, St in Sb. destruct Sb; [eauto|discriminate]. }
  intros c w3 [L3 H3]. assert (is_Some (stat w3 t)) as St3 by (apply L3; rewrite S2, St1; eauto).
  apply returns_if; intros ->; [split; [exact (conj (later_trans _ _ _ L2 L3) H3)|exact St3]|].
  step. unfold modify, returns. split; [|exact St3]. destruct H3 as (D3 & I3 & Ev3 & B3).
  split; [exact (later_trans _ _ _ L2 L3)|]. exists D3. split; [exact (inv_pop D3 w3 V t I3 Ev3)|]. split; [|exact B3].
  cbn. rewrite Ev3. apply removelast_last.
Qed.
(** An object that has an entry *)
Lemma revisit_entry_spec V t E w st D : inv ∅ D w -> ovec (tx w) = V -> stat w t = Some st ->
  D ++ (edge V t ++ E) ++ unscanned w ⊆+ graph ->
  returns (revisit busy t st) (λ c w', walked V E w c w' /\ is_Some (stat w' t)) w.
Proof.
  intros I Ev St B. eapply returns_mono.
  { apply (revisit_spec objects0 b busy counted_refs ∅ D t st w I St). rewrite Ev. etrans; [|exact B].
    rewrite <- app_assoc. apply submseteq_skips_l, submseteq_inserts_r. reflexivity. }
  intros c w' (I' & (_ & Ev' & _ & Dm) & P). split; [|apply Dm; rewrite St; eauto].
  assert (later w w') as L by (intros y; apply Dm). split; [exact L|]. destruct c; [exact I'|].
  exists (D ++ edge V t). rewrite <- Ev. split; [exact P|]. split; [exact Ev'|]. etrans; [|exact B].
  rewrite Ev, <- !app_assoc. do 3 apply submseteq_skips_l. apply later_unscanned, L.
Qed.

Lemma check_object_spec visit m X V t E w : (forall V, visits visit V m) ->
  X = ∅ \/ X = {[t]} /\ valid_object w t -> ready X V (edge V t ++ E) w -> is_Some (objects0 !! t) -> enough (S m) w ->
  returns (check_object busy visit t) (visited X V E t w) w.
Proof.
  intros Vs HX (D & I & Ev & B) [x0 E0] En. pose proof (iv_w _ _ _ _ _ I) as Iw.
  pose proof (wi_objects _ _ _ _ _ Iw t) as Mx. rewrite E0 in Mx. destruct (objects w !! t) as [x|] eqn:Ex; [|contradiction].
  unfold check_object. step. eapply returns_mono; [apply try_lock_spec|]. intros c w1 Hc. apply returns_if; intros ->.
  { destruct Hc as [-> Nh]. destruct HX as [->|[-> _]].
    - split; [exact (conj (later_refl w) Iw)|]. split; [clear; set_solver|discriminate].
    - exfalso. apply Nh, (wi_held _ _ _ _ _ Iw). right. right. apply elem_of_singleton. reflexivity. }
  assert (inv {[t]} D w1) as I1.
  { subst w1. apply (inv_lock X); [destruct HX as [->|[-> _]]; auto|exact I]. }
  assert (objects w1 !! t = Some x) as Ex1 by (subst w1; exact Ex). look Ex1.
  apply returns_if; intros V1.
  { apply negb_true_iff in V1. assert (~ valid_object w t) as Nv by (intros (x' & Ex' & Vx); congruence).
    step. eapply returns_mono; [apply unlock_spec; subst w1; cbn; clear; set_solver|]. intros _ w2 ->.
    destruct HX as [->|[-> Vt]]; [|contradiction].
    assert (t ∉ held w) as Nh.
    { intros Hh. apply (wi_held _ _ _ _ _ Iw) in Hh as [Hh|[Hh|Hh]]; [exact (Nv (wi_stats _ _ _ _ _ Iw t Hh))| |clear -Hh; set_solver].
      apply Nv, (wi_out _ _ _ _ _ Iw t Hh). }
    assert (with_held (held w1 ∖ {[t]}) w1 = w) as ->.
    { subst w1. destruct w; unfold with_held; cbn in *. f_equal. clear -Nh. set_solver. }
    split; [|split; [clear; set_solver|intros _; right; auto]]. split; [apply later_refl|].
    apply (ready_skip _ _ (edge V t)). exists D. auto. }
  apply negb_false_iff in V1. assert (valid_object w t) as Vw by (exists x; auto).
  assert (valid_object w1 t) as Vw1 by (exists x; auto).
  assert (forall y, stat w1 y = stat w y) as S1 by (subst w1; reflexivity).
  assert (unscanned w1 = unscanned w) as U1 by (subst w1; reflexivity).
  assert (later w w1) as L1 by (intros y; rewrite S1; auto).
  assert (ovec (tx w1) = V) as Ev1 by (subst w1; exact Ev).
  assert (enough (S m) w1) as En1 by (subst w1; exact En). clear Hc.
  step. unfold gets, returns. fold (returns (A := bool)). change (fomap (tx w1) !! t) with (stat w1 t).
  assert (forall f, returns f (λ c w', walked V E w1 c w' /\ is_Some (stat w' t)) w1 -> returns f (visited X V E t w) w1) as Close.
  { intros f R. eapply returns_mono; [exact R|]. intros c w' [H St]. split; [exact (walked_later _ _ _ _ _ _ L1 H)|]. auto. }
  apply Close. destruct (stat w1 t) as [st|] eqn:St.
  - assert (is_Some (stat w1 t)) as Hs by (rewrite St; eauto).
    assert (inv ∅ D w1) as I2 by exact (inv_tx {[t]} ∅ D w1 w1 I1 (winv_visited t w1 (iv_w _ _ _ _ _ I1) Hs) eq_refl).
    apply (revisit_entry_spec V t E w1 st D I2 Ev1 St). rewrite U1. exact B.
  - assert (t ∉ ovec (tx w1)) as Nt.
    { intros Ht. destruct (iv_stack _ _ _ _ _ I1 t Ht) as (st & Est & _). congruence. }
    pose proof (needsScan_entry t w1 x false (iv_w _ _ _ _ _ I1) Ex1 V1 St) as Ns.
    step. unfold put_stat at 1, modify, returns. fold (returns (A := bool)).
    set (w2 := with_fomap _ w1) in *. unfold returns, mbind, M_bind in Ns |- *.
    destruct (needsScan t w2) as [c w3| |]; try contradiction. cbn beta iota delta [modify mret M_ret] in Ns |- *.
    set (w4 := with_out _ w3) in *. destruct Ns as (I4 & Ev4 & S4 & Hr).
    assert (inv ∅ (D ++ edge V t) w4) as I4'.
    { apply inv_more. apply (inv_blank {[t]} ∅ D w1 w4 t false I1 I4 Ev4 Nt (or_introl St) S4). }
    assert (stat w4 t = Some (mkRSetStat None 0 false false)) as St4 by (rewrite S4, decide_True by reflexivity; reflexivity).
    assert ((D ++ edge V t) ++ E ++ unscanned w1 ⊆+ graph) as B1 by (rewrite U1, <- app_assoc; rewrite <- app_assoc in B; exact B).
    destruct c; cbn [negb].
    + apply (scan_entry_spec visit m V t E w1 w4 x0 D Vs E0); try assumption.
      * destruct Mx as (<- & _ & _ & <- & _). exact (Hr eq_refl).
      * congruence.
      * congruence.
    + unfold put_stat, modify, mret, M_ret. set (w5 := with_fomap _ w4).
      destruct (winv_put objects0 b None ∅ t _ (mkRSetStat None 0 false true) w4 I4 St4 eq_refl) as [I5 _]. fold w5 in I5.
      assert (forall y, stat w5 y = if decide (y = t) then Some (mkRSetStat None 0 false true) else stat w4 y) as S5 by (intros; apply stat_put).
      assert (later w1 w5) as L5.
      { intros y Hy. rewrite S5. destruct (decide _); [eauto|]. rewrite S4. destruct (decide _); [eauto|exact Hy]. }
      split; [|rewrite S5, decide_True by reflexivity; eauto]. split; [exact L5|].
      exists (D ++ edge V t). split; [|split; [rewrite <- Ev1; exact Ev4|]].
      * apply (inv_blank ∅ ∅ _ w4 w5 t true I4' I5 eq_refl); [rewrite Ev4; exact Nt|right|exact S5]. exact (tag_stat _ _ _ St4).
      * etrans; [|exact B1]. apply submseteq_skips_l, submseteq_skips_l. apply later_unscanned, L5.
Qed.

(** Every visit ends, with the fuel for the objects that are not visited. *)
Lemma checkIntern_spec m : forall X V t E w,
  X = ∅ \/ X = {[t]} /\ valid_object w t -> ready X V (edge V t ++ E) w -> is_Some (objects0 !! t) -> enough m w ->
  returns (checkIntern busy m t) (visited X V E t w) w.
Proof.
  induction m as [|m IH]; intros X V t E w HX R S N.
  - exfalso. destruct R as (D & I & _). pose proof (stats_bound w (or_intror (ex_intro _ X (iv_w _ _ _ _ _ I)))).
    unfold enough in N. lia.
  - cbn [checkIntern]. apply (check_object_spec (checkIntern busy m) m X V t E w); try assumption.
    intros V' X' t' E' w' HX' R' S' N'. eapply returns_mono; [apply (IH X' V' t' E' w' HX' R' S' N')|].
    intros c w'' (H1 & H2 & _). auto.
Qed.
End Walk.
