(* ===== verification/RefScanSpec.v ===== *)
(** * The scan for recursive references: what it promises

    The end of a transaction: [commit] stores the sets and counts, [rollback]
    leaves nothing behind but objects without a set. A heap stays well-formed,
    and in a well-formed heap [canDelete] allows only what nobody else refers
    to. *)

From S2P Require Import Prelude RefScan RefScanSets RefScanTx RefScanWalk.

#[local] Open Scope nat_scope.

(** ** Well-formed worlds between transactions *)

(** The references to [o] from the objects that have the set [r] *)
Definition from_set (w : world) (r o : nat) : nat :=
  length (filter (λ e, e.2 = o /\ rset_of w e.1 = Some r) (all_edges (objects w))).

Record wf (w : world) : Prop := {
  wf_held : held w = ∅;
  wf_tx : exists cs, tx w = no_tx cs;
  wf_sets r s : rsets w !! r = Some s ->
    r < next_rset w /\ acnt s = pointers (objects w) r /\ 0 < acnt s /\
    (valid s = true -> forall o, o ∈ set s <-> rset_of w o = Some r);
  wf_ptr o r : rset_of w o = Some r -> is_Some (rsets w !! r);
  wf_count o x r s : objects w !! o = Some x -> rset x = Some r -> rsets w !! r = Some s -> valid s = true ->
    rcount x <= from_set w r o }.

(** An object has the references that the graph shows, and [external] ones. *)
Definition counted_by (external : nat -> nat) (m : gmap nat RObject) : Prop :=
  forall o x, m !! o = Some x -> in_degree (all_edges m) o + external o <= references x.

(** What the program sees of an object stays the same. *)
Definition same_members (x0 x : RObject) : Prop :=
  kind x = kind x0 /\ members x = members x0 /\ references x = references x0 /\ rrefs x = rrefs x0.

Definition same_heap (m m' : gmap nat RObject) : Prop :=
  forall o, match m !! o, m' !! o with Some x0, Some x => same_members x0 x | None, None => True | _, _ => False end.

Lemma same_heap_refl m : same_heap m m.
Proof. intros o. destruct (m !! o); [repeat split|]; auto. Qed.

Lemma same_heap_trans m1 m2 m3 : same_heap m1 m2 -> same_heap m2 m3 -> same_heap m1 m3.
Proof.
  intros A B o. specialize (A o). specialize (B o). destruct (m1 !! o), (m2 !! o), (m3 !! o); try contradiction; auto.
  destruct A as (? & ? & ? & ?), B as (? & ? & ? & ?). repeat split; congruence.
Qed.

Lemma same_members_contents x0 x : same_members x0 x -> contents x = contents x0.
Proof. intros (K & M & _). unfold contents, entries. rewrite K, M. reflexivity. Qed.

Lemma same_heap_contents m m' : same_heap m m' -> contents <$> m' = contents <$> m.
Proof.
  intros H. apply map_eq. intros o. rewrite !lookup_fmap. specialize (H o).
  destruct (m !! o), (m' !! o); try contradiction; [|reflexivity]. cbn. f_equal. apply same_members_contents, H.
Qed.

Lemma same_heap_edges m m' : same_heap m m' -> all_edges m' = all_edges m.
Proof.
  intros H%same_heap_contents.
  assert (forall m, all_edges m = concat ((λ p, pair p.1 <$> concat (targets <$> concat p.2)) <$> map_to_list (contents <$> m))) as E.
  { intros m0. unfold all_edges. rewrite map_to_list_fmap, <- list_fmap_compose. reflexivity. }
  rewrite !E, H. reflexivity.
Qed.

Lemma same_heap_ok m m' : same_heap m m' -> heap_ok m -> heap_ok m'.
Proof.
  intros H O o x' E'. pose proof (H o) as Ho. rewrite E' in Ho. destruct (m !! o) as [x|] eqn:E; [|contradiction].
  apply same_members_contents in Ho as ->. specialize (O o x E). cbn beta in O |- *.
  assert (forall n, node_ok m n = true -> node_ok m' n = true) as N.
  { assert (forall o, is_Some (m !! o) -> is_Some (m' !! o)) as Dm.
    { intros o' [y Ey]. specialize (H o'). rewrite Ey in H. destruct (m' !! o'); [eauto|contradiction]. }
    induction n as [|o'|ns IH|c vars|[o'|]] using node_rec_nested; cbn; auto.
    - intros Hb%bool_decide_eq_true. apply bool_decide_eq_true. auto.
    - change (forallb (node_ok m) ns = true -> forallb (node_ok m') ns = true). rewrite !forallb_forall, Forall_forall in *.
      intros F n Hn. apply IH; [apply list_elem_of_In, Hn|apply F, Hn].
    - rewrite !forallb_forall. intros F v Hv. specialize (F v Hv). destruct (negb v.2); [reflexivity|]. cbn in F |- *.
      specialize (H v.1). destruct (m !! v.1) as [y|]; [|discriminate]. destruct (m' !! v.1) as [y'|]; [|contradiction].
      cbn in F |- *. unfold isValid in *. destruct H as (-> & _). exact F.
    - intros Hb%bool_decide_eq_true. apply bool_decide_eq_true. auto. }
  rewrite forallb_forall in *. intros l Hl. specialize (O l Hl). rewrite forallb_forall in *. auto.
Qed.

Lemma same_heap_counted ext m m' : same_heap m m' -> counted_by ext m -> counted_by ext m'.
Proof.
  intros H C o x' E'. rewrite (same_heap_edges _ _ H). specialize (H o). rewrite E' in H.
  destruct (m !! o) as [x|] eqn:E; [|contradiction]. destruct H as (_ & _ & -> & _). exact (C o x E).
Qed.

Lemma same_object_members x y : same_object x y -> same_members x y.
Proof. intros (A1 & A2 & A3 & A4 & _). repeat split; assumption. Qed.

Section Ends.
Context (objects0 : gmap nat RObject) (b : before) (busy : gset nat).
Implicit Types (w : world).

Abbreviation winv := (winv objects0 b).
Abbreviation inv := (inv objects0 b).
Abbreviation graph := (all_edges objects0).
Abbreviation old_sets := (old_sets objects0 b).

Context (counted_refs : forall o x, objects0 !! o = Some x -> in_degree graph o <= references x).

(** ** The end of a scan *)

(** While the results are stored: [F] are the entries, [todo] the objects
    that still have their old set. *)
Record storing (F : gmap nat RSetStat) (todo : list nat) w : Prop := {
  sg_objects o : match objects0 !! o, objects w !! o with
                 | Some x0, Some x =>
                   match F !! o with
                   | Some st => if decide (o ∈ todo) then same_object x0 x
                                else same_members x0 x /\ rset x = st_rset st /\ rcount x = st_rcount st
                   | None => same_object x0 x
                   end
                 | None, None => F !! o = None
                 | _, _ => False
                 end;
  sg_old : old_sets (objects w) (rsets w);
  sg_next : b <= next_rset w;
  sg_todo o x r : objects w !! o = Some x -> rset x = Some r -> o ∈ todo \/ F !! o = None -> r < b;
  sg_tags o st r : F !! o = Some st -> st_rset st = Some r -> b <= r /\ is_Some (rsets w !! r);
  sg_new r s : b <= r -> rsets w !! r = Some s ->
    r < next_rset w /\ acnt s = pointers (objects w) r /\ NoDup (set s) /\ set s <> [] /\
    forall o, o ∈ set s <-> F !! o ≫= st_rset = Some r }.

Lemma old_sets_new m l l' : old_sets m l -> (forall r, r < b -> l' !! r = l !! r) -> old_sets m l'.
Proof.
  intros [O1 O2] E. constructor.
  - intros r s L. rewrite E by exact L. apply O1, L.
  - intros o r R L. rewrite E by exact L. exact (O2 o r R L).
Qed.

Lemma setRSet_spec F todo o st w : NoDup (o :: todo) -> storing F (o :: todo) w -> F !! o = Some st -> o ∈ held w ->
  (forall x0, objects0 !! o = Some x0 -> st_rcount st <= references x0) ->
  returns (setRSet o (st_rset st) (st_rcount st)) (λ _ w', storing F todo w' /\ tx w' = tx w /\ held w' = held w) w.
Proof.
  intros [No _]%NoDup_cons S Ef Hh Bd. pose proof (sg_objects _ _ _ S o) as Mo. rewrite Ef in Mo.
  destruct (objects0 !! o) as [x0|] eqn:E0, (objects w !! o) as [x|] eqn:Ex; try contradiction; [|discriminate].
  rewrite decide_True in Mo by left. specialize (Bd x0 eq_refl).
  unfold setRSet. step. unfold gets, returns. fold (returns (A := unit)). check; [apply bool_decide_eq_true_2, Hh|]. look Ex.
  set (y := inc_rcycle (set_rset (st_rset st) (st_rcount st) x)).
  assert (forall r, rset x = Some r -> r < b) as Lx by (intros r Hr; apply (sg_todo _ _ _ S o x r Ex Hr); left; left).
  assert (forall r, rset y = Some r -> b <= r) as Ly by (intros r Hr; apply (sg_tags _ _ _ S o st r Ef Hr)).
  step. eapply (returns_mono _ (λ _ w', exists l, w' = with_rsets l w /\ (forall r, b <= r -> l !! r = rsets w !! r) /\
    old_sets (<[o := y]> (objects w)) l)).
  { destruct (rset x) as [r|] eqn:Er.
    - eapply returns_mono; [exact (invalidateDeref_spec objects0 b o x r w (sg_old _ _ _ S) Ex Er (Lx r eq_refl))|].
      intros _ w' (l & -> & Sb & Os). exists l. split; [reflexivity|]. split; [|exact (Os y Ly)].
      intros r' L'. specialize (Lx r eq_refl). apply Sb. lia.
    - exists (rsets w). split; [destruct w; reflexivity|]. split; [reflexivity|].
      assert (forall r, r < b -> pointers (<[o := y]> (objects w)) r = pointers (objects w) r) as Pt.
      { intros r L. pose proof (pointers_insert _ _ _ y r Ex) as Q. rewrite Er in Q. rewrite decide_False in Q by discriminate.
        rewrite decide_False in Q by (intros Hr; apply Ly in Hr; lia). lia. }
      assert (forall o' r, r < b -> <[o := y]> (objects w) !! o' ≫= rset = Some r <-> objects w !! o' ≫= rset = Some r) as Rs.
      { intros o' r L. destruct (decide (o' = o)) as [->|N]; [|rewrite lookup_insert_ne by congruence; reflexivity].
        rewrite lookup_insert_eq, Ex. cbn. rewrite Er. split; [intros Hr; apply Ly in Hr; lia|discriminate]. }
      destruct (sg_old _ _ _ S) as [O1 O2]. constructor.
      + intros r s L Es. rewrite (Pt r L). destruct (O1 r s L Es) as (A1 & A2 & A3). do 2 (split; [assumption|]).
        intros V. destruct (A3 V) as [Wv A4]. split; [exact Wv|]. intros o'. rewrite (Rs o' r L). apply A4.
      + intros o' r R L. apply (O2 o' r); [apply Rs; assumption|exact L]. }
  intros _ w1 (l & -> & Hl & Os). destruct Mo as (M1 & M2 & M3 & M4 & M5). check; [apply Nat.leb_le; rewrite M3; exact Bd|].
  step. unfold put_object, modify, returns. cbn [objects with_rsets].
  fold y. set (w2 := with_objects _ _).
  (* the new world, where only the number of pointers is still to be set *)
  assert (forall l', (forall r, r < b -> l' !! r = l !! r) -> (forall r, is_Some (l !! r) -> is_Some (l' !! r)) ->
    (forall r s, b <= r -> l' !! r = Some s -> exists s0, rsets w !! r = Some s0 /\ set s = set s0 /\
       acnt s = acnt s0 + if decide (st_rset st = Some r) then 1 else 0) ->
    storing F todo (with_rsets l' w2)) as Fin.
  { intros l' A1 A2 A3. constructor.
    - intros o'. cbn. destruct (decide (o' = o)) as [->|N].
      + rewrite lookup_insert_eq, E0, Ef, decide_False by exact No. repeat split; assumption.
      + rewrite lookup_insert_ne by congruence. pose proof (sg_objects _ _ _ S o') as Q.
        destruct (objects0 !! o'), (objects w !! o'), (F !! o'); try exact Q.
        destruct (decide (o' ∈ todo)) as [D|D]; [rewrite decide_True in Q by (right; exact D)|rewrite decide_False in Q]; try exact Q.
        intros [?|?]%elem_of_cons; contradiction.
    - cbn. exact (old_sets_new _ _ _ Os A1).
    - exact (sg_next _ _ _ S).
    - cbn. intros o' x' r Ex' Er' Ho'. destruct (decide (o' = o)) as [->|N]; [destruct Ho'; [contradiction|congruence]|].
      rewrite lookup_insert_ne in Ex' by congruence. apply (sg_todo _ _ _ S o' x' r Ex' Er'). destruct Ho'; [left; right; assumption|auto].
    - cbn. intros o' st' r Ef' Er'. destruct (sg_tags _ _ _ S o' st' r Ef' Er') as [L Y]. split; [exact L|].
      apply A2. rewrite Hl by exact L. exact Y.
    - cbn. intros r s L Es. destruct (A3 r s L Es) as (s0 & Es0 & -> & ->).
      destruct (sg_new _ _ _ S r s0 L Es0) as (B1 & B2 & B3). split; [exact B1|]. split; [|exact B3].
      pose proof (pointers_insert _ _ _ y r Ex) as Q. rewrite (decide_False (P := rset x = Some r)) in Q by (intros Hr; apply Lx in Hr; lia).
      rewrite B2. rewrite Nat.add_0_r in Q. symmetry. exact Q. }
  destruct (st_rset st) as [r|] eqn:Er.
  - destruct (sg_tags _ _ _ S o st r Ef Er) as [L [s Es]].
    assert (rsets w2 !! r = Some s) as Es2 by (cbn; rewrite Hl by exact L; exact Es).
    look Es2. unfold put_rset, modify, returns. split; [|split; reflexivity]. apply Fin.
    + intros r' L'. cbn. apply lookup_insert_ne. lia.
    + intros r' Y. cbn. apply lookup_insert_is_Some'. auto.
    + cbn. intros r' s' L' Es'. destruct (decide (r' = r)) as [->|N].
      * rewrite lookup_insert_eq in Es'. injection Es' as <-. exists s. split; [exact Es|]. split; [reflexivity|].
        rewrite decide_True by reflexivity. cbn. lia.
      * rewrite lookup_insert_ne in Es' by congruence. rewrite Hl in Es' by exact L'. exists s'. split; [exact Es'|]. split; [reflexivity|].
        rewrite decide_False by congruence. lia.
  - unfold returns. cbn. split; [|split; reflexivity].
    specialize (Fin l ltac:(auto) ltac:(auto)). replace (with_rsets l w2) with w2 in Fin by (destruct w; reflexivity). apply Fin.
    intros r s L Es. rewrite Hl in Es by exact L. exists s. split; [exact Es|]. split; [reflexivity|]. rewrite decide_False by discriminate. lia.
Qed.
(** A loop keeps an invariant of what is left. *)
Lemma for_each_spec {A} (f : A -> M unit) (I : list A -> world -> Prop) l : forall w,
  (forall x l' w, I (x :: l') w -> returns (f x) (λ _ w', I l' w') w) -> I l w ->
  returns (for_each f l) (λ _ w', I [] w') w.
Proof.
  induction l as [|x l IH]; intros w F Hw; cbn [for_each]; [exact Hw|]. step.
  eapply returns_mono; [exact (F x l w Hw)|]. intros u w' Hw'. exact (IH w' F Hw').
Qed.

(** The old sets that are to become invalid *)
Lemma invalidate_all_spec l w : old_sets (objects w) (rsets w) -> (forall r, r ∈ l -> r < b /\ is_Some (rsets w !! r)) ->
  returns (for_each invalidate l) (λ _ w', exists rs, w' = with_rsets rs w /\ old_sets (objects w) rs /\
    forall r, b <= r -> rs !! r = rsets w !! r) w.
Proof.
  intros O L. set (I := λ (l : list nat) w', exists rs, w' = with_rsets rs w /\ old_sets (objects w) rs /\
    (forall r, b <= r -> rs !! r = rsets w !! r) /\ forall r, r ∈ l -> r < b /\ is_Some (rs !! r)).
  eapply returns_mono; [apply (for_each_spec _ I)|].
  - intros r l' w' (rs & -> & Os & Hl & Hr). destruct (Hr r ltac:(left)) as [Lr [s Es]]. unfold invalidate. look Es.
    assert (forall x, x ∈ l' -> x < b /\ is_Some (rs !! x)) as Hr' by (intros x Hx; apply Hr; right; exact Hx).
    apply returns_if; intros V; [|exists rs; auto]. unfold put_rset, modify, returns.
    eexists. split; [reflexivity|]. cbn. split; [|split].
    + destruct Os as [O1 O2]. constructor.
      * intros r' s' L' Es'. destruct (decide (r' = r)) as [->|N]; [|rewrite lookup_insert_ne in Es' by congruence; exact (O1 r' s' L' Es')].
        rewrite lookup_insert_eq in Es'. injection Es' as <-. destruct (O1 r s L' Es) as (A1 & A2 & _). cbn.
        split; [exact A1|]. split; [exact A2|discriminate].
      * intros o r' R L'. apply lookup_insert_is_Some'. right. exact (O2 o r' R L').
    + intros r' L'. rewrite lookup_insert_ne by lia. exact (Hl r' L').
    + intros x Hx. destruct (Hr' x Hx) as [Lx Sx]. split; [exact Lx|]. apply lookup_insert_is_Some'. auto.
  - exists (rsets w). split; [destruct w; reflexivity|]. auto.
  - intros _ w' (rs & E & Os & Hl & _). exists rs. auto.
Qed.

(** The locks that are given back *)
Lemma unlock_each_spec {A} (f : A -> M unit) (key : A -> nat) l H w :
  (forall x w', x ∈ l -> tx w' = tx w -> key x ∈ held w' ->
     returns (f x) (λ _ w'', w'' = with_held (held w' ∖ {[key x]}) w') w') ->
  NoDup (key <$> l) -> (forall o, o ∈ held w <-> o ∈ H \/ o ∈ key <$> l) -> (forall o, o ∈ H -> o ∉ key <$> l) ->
  returns (for_each f l) (λ _ w', w' = with_held H w) w.
Proof.
  intros F N Hh Ds. set (I := λ (l' : list A) w', w' = with_held (held w') w /\ NoDup (key <$> l') /\
    (forall o, o ∈ held w' <-> o ∈ H \/ o ∈ key <$> l') /\ (forall o, o ∈ H -> o ∉ key <$> l') /\ forall x, x ∈ l' -> x ∈ l).
  eapply returns_mono; [apply (for_each_spec _ I)|].
  - intros x l' w' (Ew & Nx & Hh' & Ds' & Sb). cbn in Nx, Hh', Ds'. apply NoDup_cons in Nx as [Nx N'].
    eapply returns_mono; [apply (F x w'); [apply Sb; left|rewrite Ew; reflexivity|apply Hh'; right; left]|].
    intros _ w'' ->. split; [rewrite Ew; reflexivity|]. split; [exact N'|]. split; [|split].
    + intros o. cbn. rewrite elem_of_difference, elem_of_singleton, Hh', elem_of_cons.
      split; [intros [[?|[?|?]] ?]; [auto|contradiction|auto]|].
      intros [Ho|Ho]; (split; [auto|intros ->]); [apply (Ds' _ Ho); left|contradiction].
    + intros o Ho Hl. apply (Ds' o Ho). right. exact Hl.
    + intros y Hy. apply Sb. right. exact Hy.
  - split; [destruct w; reflexivity|]. auto.
  - intros _ w' (-> & _ & Hh' & _). unfold with_held. cbn. f_equal. apply set_eq. intros o. cbn in Hh'. rewrite Hh'.
    split; [intros [?|Hn]; [assumption|inversion Hn]|auto].
Qed.

Lemma storing_start D w rs : inv ∅ D w -> old_sets (objects w) rs -> (forall r, b <= r -> rs !! r = rsets w !! r) ->
  storing (fomap (tx w)) (map_to_list (fomap (tx w))).*1 (with_rsets rs w).
Proof.
  intros I O Hl. pose proof (iv_w _ _ _ _ _ I) as Iw.
  assert (forall o, o ∈ (map_to_list (fomap (tx w))).*1 <-> is_Some (fomap (tx w) !! o)) as El.
  { intros o. rewrite list_elem_of_fmap. split; [intros ([o' st] & -> & E%elem_of_map_to_list); eauto|].
    intros [st E]. exists (o, st). split; [reflexivity|]. apply elem_of_map_to_list, E. }
  constructor; cbn.
  - intros o. pose proof (wi_objects _ _ _ _ _ Iw o) as Q. destruct (objects0 !! o), (objects w !! o) eqn:Ex; try contradiction.
    + destruct (fomap (tx w) !! o) as [st|] eqn:Ef; [|exact Q]. rewrite decide_True by (apply El; eauto). exact Q.
    + destruct (fomap (tx w) !! o) as [st|] eqn:Ef; [|reflexivity]. exfalso.
      destruct (wi_stats _ _ _ _ _ Iw o) as (x & Ex' & _); [unfold stat; rewrite Ef; eauto|congruence].
  - exact O.
  - exact (wi_next _ _ _ _ _ Iw).
  - intros o x r Ex Er _. apply (wi_ptr _ _ _ _ _ Iw o r). unfold rset_of. rewrite Ex. exact Er.
  - intros o st r Ef Er. destruct (wi_tags _ _ _ _ _ Iw o r) as [L S]; [unfold tag, stat; rewrite Ef; exact Er|].
    split; [exact L|]. rewrite Hl by exact L. exact S.
  - intros r s L Es. rewrite Hl in Es by exact L. destruct (wi_new _ _ _ _ _ Iw r s L Es) as (A1 & A2 & A3 & A4 & A5 & A6).
    split; [exact A1|]. split; [|split; [exact A4|split; [apply A6; discriminate|exact A5]]]. rewrite A3. symmetry. apply map_size_empty_iff, map_empty. intros o.
    apply map_lookup_filter_None. right. intros x Ex Er. destruct (wi_ptr _ _ _ _ _ Iw o r); [unfold rset_of; rewrite Ex; exact Er|lia].
Qed.

(** The counts that are stored are at most the references. *)
Lemma stored_bound D w o st x0 : inv ∅ D w -> D ⊆+ graph -> fomap (tx w) !! o = Some st -> objects0 !! o = Some x0 ->
  st_rcount st <= references x0.
Proof.
  intros I B Ef E0. pose proof (iv_count _ _ _ _ _ I o) as C. unfold cnt, stat in C. rewrite Ef in C. cbn in C.
  pose proof (internal_degree (tag w) D o). pose proof (in_degree_submseteq _ _ o B). pose proof (counted_refs o x0 E0). lia.
Qed.

Lemma unlock_out_spec x w : fomap (tx w) !! x = None -> x ∈ held w ->
  returns (unlock_out x) (λ _ w', w' = with_held (held w ∖ {[x]}) w) w.
Proof.
  intros N Hh. unfold unlock_out. step. unfold gets, returns at 1. check; [apply bool_decide_eq_true_2, N|]. apply unlock_spec, Hh.
Qed.

(** The members of a new set when all results are stored *)
Lemma stored_members F w r o : storing F [] w -> b <= r -> rset_of w o = Some r <-> F !! o ≫= st_rset = Some r.
Proof.
  intros S L. unfold rset_of. pose proof (sg_objects _ _ _ S o) as Q.
  destruct (objects w !! o) as [x|] eqn:Ex, (objects0 !! o), (F !! o) as [st|] eqn:Ef; try contradiction; try discriminate; cbn; try reflexivity.
  - rewrite decide_False in Q by (intros H; inversion H). destruct Q as (_ & -> & _). reflexivity.
  - split; [|discriminate]. intros R. pose proof (sg_todo _ _ _ S o x r Ex R (or_intror Ef)). lia.
Qed.

Lemma pointers_length w r l : NoDup l -> (forall o, o ∈ l <-> rset_of w o = Some r) -> length l = pointers (objects w) r.
Proof.
  intros N M. unfold pointers. rewrite <- size_dom, <- (size_list_to_set (C := gset nat)) by exact N. f_equal. apply set_eq.
  intros o. rewrite elem_of_list_to_set, M, elem_of_dom. unfold rset_of. split.
  - intros R. destruct (objects w !! o) as [x|] eqn:Ex; [|discriminate]. exists x. apply map_lookup_filter_Some. split; [exact Ex|exact R].
  - intros [x [Ex R]%map_lookup_filter_Some]. rewrite Ex. exact R.
Qed.

Lemma for_each_done {A} (f : A -> M unit) l w : (forall x, x ∈ l -> returns (f x) (λ _ w', w' = w) w) ->
  returns (for_each f l) (λ _ w', w' = w) w.
Proof.
  intros F. eapply returns_mono; [apply (for_each_spec f (λ l' w', w' = w /\ forall x, x ∈ l' -> x ∈ l))|].
  - intros x l' w' [-> H]. eapply returns_mono; [apply F, H; left|]. intros _ w'' ->. split; [reflexivity|].
    intros y Hy. apply H. right. exact Hy.
  - auto.
  - intros u w' [-> _]. reflexivity.
Qed.

Lemma check_all_spec F l w : storing F [] w -> (forall p, p ∈ l -> F !! p.1 = Some p.2) ->
  returns (for_each (λ x : nat * RSetStat, match st_rset x.2 with Some r => check_set r | None => mret tt end) l) (λ _ w', w' = w) w.
Proof.
  intros S E. apply for_each_done. intros p Hp. destruct (st_rset p.2) as [r|] eqn:Er; [|reflexivity].
  destruct (sg_tags _ _ _ S p.1 p.2 r (E p Hp) Er) as [L [s Es]]. destruct (sg_new _ _ _ S r s L Es) as (_ & A2 & A3 & _ & A5).
  assert (forall o, o ∈ set s <-> rset_of w o = Some r) as M by (intros o; rewrite (stored_members F w r o S L); apply A5).
  unfold check_set. look Es. check; [apply Nat.eqb_eq; rewrite A2; exact (pointers_length w r _ A3 M)|].
  apply for_each_done. intros o Ho%M. unfold rset_of in Ho. destruct (objects w !! o) as [x|] eqn:Ex; [|discriminate].
  look Ex. apply returns_assert; [apply bool_decide_eq_true_2, Ho|reflexivity].
Qed.

Lemma commit_spec D o w : inv ∅ D w -> D ⊆+ graph -> is_Some (stat w o) ->
  returns (commit o) (λ _ w', storing (fomap (tx w)) [] w' /\ held w' = ∅) w.
Proof.
  intros I B So. pose proof (iv_w _ _ _ _ _ I) as Iw. set (F := fomap (tx w)).
  unfold commit. step. unfold gets, returns at 1.
  check; [apply bool_decide_eq_true_2, (wi_held _ _ _ _ _ Iw); left; exact So|]. step. unfold gets, returns at 1. step.
  eapply returns_mono; [apply (invalidate_all_spec _ w (winv_old_sets _ _ _ _ _ Iw))|].
  { intros r Hr%elem_of_elements. destruct (wi_inv _ _ _ _ _ Iw r Hr) as (x & _ & R). exact (wi_ptr _ _ _ _ _ Iw x r R). }
  intros _ w1 (rs & -> & Os & Hl). pose proof (storing_start D w rs I Os Hl) as S1. fold F in S1. set (w1 := with_rsets rs w) in *.
  assert (tx w1 = tx w /\ held w1 = held w) as [Et1 Eh1] by (split; reflexivity). clearbody w1.
  step. unfold gets, returns at 1. rewrite Et1. step.
  eapply returns_mono.
  { apply (unlock_each_spec _ id (elements (tr_out (tx w))) (dom F) w1).
    - intros x w' Hx%elem_of_elements Et Hh. apply unlock_out_spec; [rewrite Et, Et1|exact Hh].
      apply (wi_out _ _ _ _ _ Iw x Hx).
    - rewrite list_fmap_id. apply NoDup_elements.
    - intros x. rewrite list_fmap_id, Eh1, (wi_held _ _ _ _ _ Iw), elem_of_elements, elem_of_dom. unfold stat.
      split; [intros [?|[?|H]]; [auto|auto|apply not_elem_of_empty in H; contradiction]|tauto].
    - intros x. rewrite list_fmap_id, elem_of_elements, elem_of_dom. intros [st E] Hx.
      destruct (wi_out _ _ _ _ _ Iw x Hx) as [Sx _]. unfold stat in Sx. subst F. congruence. }
  intros _ w2 ->. set (w2 := with_held (dom F) w1).
  assert (storing F (map_to_list F).*1 w2) as S2 by (destruct S1; constructor; assumption).
  assert (tx w2 = tx w /\ held w2 = dom F) as [Et2 Eh2] by (split; [exact Et1|reflexivity]). clearbody w2. clear S1 Et1 Eh1 w1.
  step. unfold gets, returns at 1. rewrite Et2. fold F. step.
  eapply returns_mono.
  { apply (for_each_spec _ (λ l w', storing F l.*1 w' /\ tx w' = tx w /\ held w' = dom F /\ NoDup l.*1 /\ forall p, p ∈ l -> F !! p.1 = Some p.2)).
    - intros [x st] l w' (S & Et & Eh & N & E). pose proof (E (x, st) ltac:(left)) as Ex. cbn in Ex.
      step. unfold gets, returns at 1. check.
      { apply bool_decide_eq_true_2. rewrite Et. intros Hx. destruct (wi_out _ _ _ _ _ Iw x Hx) as [Sx _]. unfold stat in Sx. subst F. congruence. }
      eapply returns_mono; [apply (setRSet_spec F l.*1 x st w' N S Ex)|].
      + rewrite Eh. apply elem_of_dom. eauto.
      + intros x0 E0. exact (stored_bound D w x st x0 I B Ex E0).
      + intros _ w'' (S' & Et' & Eh'). split; [exact S'|]. split; [congruence|]. split; [congruence|].
        apply NoDup_cons in N as [_ N]. split; [exact N|]. intros p Hp. apply E. right. exact Hp.
    - split; [exact S2|]. split; [exact Et2|]. split; [exact Eh2|]. split; [apply NoDup_fst_map_to_list|].
      intros [x st] Hp%elem_of_map_to_list. exact Hp. }
  intros _ w3 (S3 & Et3 & Eh3 & _). step. eapply returns_mono; [apply (check_all_spec F _ w3 S3)|].
  { intros [x st] Hp%elem_of_map_to_list. exact Hp. }
  intros _ w3' ->. step.
  eapply returns_mono.
  { apply (unlock_each_spec _ fst (map_to_list F) ∅ w3).
    - intros x w' _ _ Hh. apply unlock_spec, Hh.
    - apply NoDup_fst_map_to_list.
    - intros x. rewrite Eh3, elem_of_dom, list_elem_of_fmap. split.
      + intros [st E]. right. exists (x, st). split; [reflexivity|]. apply elem_of_map_to_list, E.
      + intros [H|([y st] & -> & E%elem_of_map_to_list)]; [apply not_elem_of_empty in H; contradiction|eauto].
    - intros x H. apply not_elem_of_empty in H. contradiction. }
  intros _ w4 ->. step. unfold gets, returns at 1. cbn [tx with_held]. rewrite Et3.
  apply returns_assert; [apply bool_decide_eq_true_2; right; exact So|]. split; [|reflexivity].
  destruct S3; constructor; assumption.
Qed.
(** ** A scan that is given up *)

Lemma count_tagged w r s : winv None ∅ w -> b <= r -> rsets w !! r = Some s ->
  length (set s) = length (filter (λ p, st_rset p.2 = Some r) (map_to_list (fomap (tx w)))).
Proof.
  intros I L Es. destruct (wi_new _ _ _ _ _ I r s L Es) as (_ & _ & _ & N & M & _).
  set (l := filter _ _). rewrite <- (length_fmap fst l). apply Permutation_length, NoDup_Permutation.
  - exact N.
  - apply NoDup_fmap_fst; [|apply NoDup_filter, NoDup_map_to_list].
    intros x y1 y2 H1%list_elem_of_filter H2%list_elem_of_filter. destruct H1 as [_ H1%elem_of_map_to_list], H2 as [_ H2%elem_of_map_to_list].
    congruence.
  - intros o. rewrite M, list_elem_of_fmap. unfold tag, stat, l. split.
    + intros H. destruct (fomap (tx w) !! o) as [st|] eqn:E; [|discriminate]. exists (o, st). split; [reflexivity|].
      apply list_elem_of_filter. split; [exact H|]. apply elem_of_map_to_list, E.
    + intros ([o' st] & -> & [H E%elem_of_map_to_list]%list_elem_of_filter). cbn in *. rewrite E. exact H.
Qed.

(** What is left of the new sets while they are taken apart *)
Record undoing (w : world) (l : list (nat * RSetStat)) w' : Prop := {
  un_rest : w' = with_held (held w') (with_rsets (rsets w') w);
  un_old r : r < b -> rsets w' !! r = rsets w !! r;
  un_new r s : b <= r -> rsets w' !! r = Some s ->
    (acnt s = 0 /\ set s <> []) /\ length (set s) = length (filter (λ p, st_rset p.2 = Some r) l);
  un_tags p r : p ∈ l -> st_rset p.2 = Some r -> b <= r /\ is_Some (rsets w' !! r);
  un_nodup : NoDup l.*1;
  un_held o : o ∈ held w' <-> o ∈ tr_out (tx w) \/ o ∈ l.*1;
  un_out o : o ∈ tr_out (tx w) -> o ∉ l.*1 }.

Lemma undo_step_spec w p l w' : undoing w (p :: l) w' ->
  returns ((match st_rset p.2 with Some r => pop_delete r | None => mret tt end);; unlock p.1)
    (λ _ w'', undoing w l w'') w'.
Proof.
  intros U. destruct (proj1 (NoDup_cons _ _) (un_nodup _ _ _ U)) as [Np Nl].
  assert (p.1 ∈ held w') as Hp by (apply (un_held _ _ _ U); right; left).
  assert (forall rs, (forall r, r < b -> rs !! r = rsets w' !! r) ->
    (forall r s, b <= r -> rs !! r = Some s -> (acnt s = 0 /\ set s <> []) /\ length (set s) = length (filter (λ p, st_rset p.2 = Some r) l)) ->
    (forall q r, q ∈ l -> st_rset q.2 = Some r -> is_Some (rs !! r)) ->
    returns (unlock p.1) (λ _ w'', undoing w l w'') (with_rsets rs w')) as Fin.
  { intros rs A1 A2 A3. eapply returns_mono; [apply unlock_spec; exact Hp|]. intros _ w'' ->. constructor; cbn.
    - rewrite (un_rest _ _ _ U). reflexivity.
    - intros r L. rewrite A1 by exact L. exact (un_old _ _ _ U r L).
    - exact A2.
    - intros q r Hq Er. split; [|exact (A3 q r Hq Er)]. apply (un_tags _ _ _ U q r); [right; exact Hq|exact Er].
    - exact Nl.
    - intros o. rewrite elem_of_difference, elem_of_singleton, (un_held _ _ _ U). cbn. rewrite elem_of_cons.
      split; [intros [[?|[?|?]] ?]; auto; contradiction|]. intros [Ho|Ho]; (split; [auto|intros ->]).
      + apply (un_out _ _ _ U _ Ho). left.
      + contradiction.
    - intros o Ho Hl. apply (un_out _ _ _ U o Ho). right. exact Hl. }
  step. destruct (st_rset p.2) as [r|] eqn:Er.
  - destruct (un_tags _ _ _ U p r ltac:(left) Er) as [L [s Es]]. destruct (un_new _ _ _ U r s L Es) as [[Z Ne] Ln].
    rewrite filter_cons, decide_True in Ln by exact Er. cbn in Ln.
    assert (forall r' s', r' <> r -> b <= r' -> rsets w' !! r' = Some s' ->
      (acnt s' = 0 /\ set s' <> []) /\ length (set s') = length (filter (λ p, st_rset p.2 = Some r') l)) as Oth.
    { intros r' s' N L' Es'. destruct (un_new _ _ _ U r' s' L' Es') as [A1 A2]. split; [exact A1|].
      rewrite filter_cons, decide_False in A2 by congruence. exact A2. }
    assert (forall q r, q ∈ l -> st_rset q.2 = Some r -> is_Some (rsets w' !! r)) as Tg.
    { intros q r' Hq Eq. apply (un_tags _ _ _ U q r'); [right; exact Hq|exact Eq]. }
    unfold pop_delete. look Es. destruct (set s) as [|x [|y k]] eqn:Ek; [contradiction| |].
    + check; [apply Nat.eqb_eq; exact Z|]. unfold delete_rset, modify, returns. apply Fin.
      * intros r' L'. apply lookup_delete_ne. lia.
      * intros r' s' L' [N Es']%lookup_delete_Some. apply Oth; [congruence|exact L'|exact Es'].
      * intros q r' Hq Eq. destruct (decide (r' = r)) as [->|N].
        -- exfalso. cbn in Ln. assert (q ∈ filter (λ p, st_rset p.2 = Some r) l) as Hf by (apply list_elem_of_filter; auto).
           destruct (filter _ l); [inversion Hf|cbn in Ln; lia].
        -- rewrite lookup_delete_ne by congruence. exact (Tg q r' Hq Eq).
    + unfold put_rset, modify, returns. apply Fin.
      * intros r' L'. apply lookup_insert_ne. lia.
      * intros r' s' L' Es'. destruct (decide (r' = r)) as [->|N].
        -- rewrite lookup_insert_eq in Es'. injection Es' as <-. cbn in Ln |- *. split; [split; [exact Z|discriminate]|lia].
        -- rewrite lookup_insert_ne in Es' by congruence. exact (Oth r' s' N L' Es').
      * intros q r' Hq Eq. apply lookup_insert_is_Some'. right. exact (Tg q r' Hq Eq).
  - unfold returns. cbn. specialize (Fin (rsets w')). replace (with_rsets (rsets w') w') with w' in Fin by (destruct w'; reflexivity).
    apply Fin; [reflexivity| |].
    + intros r s L Es. destruct (un_new _ _ _ U r s L Es) as [A1 A2]. split; [exact A1|].
      rewrite filter_cons, decide_False in A2 by congruence. exact A2.
    + intros q r Hq Eq. apply (un_tags _ _ _ U q r); [right; exact Hq|exact Eq].
Qed.

(** Only the new sets and the locks are gone. *)
Definition undone w w' : Prop :=
  objects w' = objects w /\ next_rset w' = next_rset w /\ held w' = ∅ /\ tx w' = no_tx (closure_set (tx w)) /\
  (forall r, r < b -> rsets w' !! r = rsets w !! r) /\ forall r, b <= r -> rsets w' !! r = None.

Lemma rollback_spec w : winv None ∅ w -> returns rollback (λ _ w', undone w w') w.
Proof.
  intros Iw. set (F := fomap (tx w)). unfold rollback. step. unfold gets, returns at 1. step.
  assert (forall o, o ∈ (map_to_list F).*1 <-> is_Some (stat w o)) as El.
  { intros o. rewrite list_elem_of_fmap. split; [intros ([o' st] & -> & E%elem_of_map_to_list)|intros [st E]].
    - unfold stat. subst F. cbn. rewrite E. eauto.
    - exists (o, st). split; [reflexivity|]. apply elem_of_map_to_list, E. }
  fold F. eapply returns_mono; [apply (for_each_spec _ (undoing w)); [intros p l w'; exact (undo_step_spec w p l w')|]|].
  { constructor.
    - destruct w; reflexivity.
    - reflexivity.
    - intros r s L Es. split; [|exact (count_tagged w r s Iw L Es)].
      destruct (wi_new _ _ _ _ _ Iw r s L Es) as (_ & _ & Z & _ & _ & A). split; [exact Z|].
      apply A. discriminate.
    - intros [o st] r Hp%elem_of_map_to_list Er. apply (wi_tags _ _ _ _ _ Iw o r). unfold tag, stat. subst F. cbn in *. rewrite Hp. exact Er.
    - apply NoDup_fst_map_to_list.
    - intros o. rewrite El, (wi_held _ _ _ _ _ Iw). split; [intros [?|[?|H]]; [auto|auto|apply not_elem_of_empty in H; contradiction]|tauto].
    - intros o Ho. rewrite El. intros [st E]. destruct (wi_out _ _ _ _ _ Iw o Ho). congruence. }
  intros u w1 U. cbn beta in U. clear u. step. unfold gets, returns at 1. step.
  assert (tx w1 = tx w) as Et by (rewrite (un_rest _ _ _ U); reflexivity).
  eapply returns_mono.
  { apply (unlock_each_spec _ id (elements (tr_out (tx w1))) ∅ w1).
    - intros x w' Hx%elem_of_elements Et' Hh. apply unlock_out_spec; [rewrite Et', Et|exact Hh].
      apply (wi_out _ _ _ _ _ Iw x). rewrite <- Et. exact Hx.
    - rewrite list_fmap_id. apply NoDup_elements.
    - intros o. rewrite list_fmap_id, (un_held _ _ _ U), elem_of_elements, Et. cbn.
      split; [intros [?|Hn]; [auto|inversion Hn]|intros [H|?]; [apply not_elem_of_empty in H; contradiction|auto]].
    - intros o H. apply not_elem_of_empty in H. contradiction. }
  intros _ w2 ->. unfold modify, returns. split; [|split; [|split; [|split; [|split]]]]; cbn.
  - rewrite (un_rest _ _ _ U). reflexivity.
  - rewrite (un_rest _ _ _ U). reflexivity.
  - reflexivity.
  - rewrite Et. reflexivity.
  - exact (un_old _ _ _ U).
  - intros r L. destruct (rsets w1 !! r) as [s|] eqn:Es; [|reflexivity]. destruct (un_new _ _ _ U r s L Es) as [[_ A1] A2].
    cbn in A2. destruct (set s); [contradiction|discriminate].
Qed.
End Ends.

(** ** A transaction *)

Definition start (w : world) : before := mkBefore (next_rset w) (λ r, from_option valid false (rsets w !! r)).

Lemma wf_ready w : wf w -> ready (objects w) (start w) ∅ [] [] w.
Proof.
  intros W. destruct (wf_tx _ W) as [cs Et].
  assert (forall o, stat w o = None) as St by (intros o; unfold stat; rewrite Et; apply lookup_empty).
  assert (forall o, tag w o = None) as Tg by (intros o; unfold tag; rewrite St; reflexivity).
  exists []. split; [|split; [rewrite Et; reflexivity|]].
  2: { cbn [app]. unfold unscanned. apply sublist_submseteq, sublist_filter. }
  constructor.
  - constructor.
    + intros o. destruct (objects w !! o); [repeat split; auto|auto].
    + intros o [st E]. rewrite St in E. discriminate.
    + intros o r. rewrite Tg. discriminate.
    + cbn. intros r s L Es. destruct (wf_sets _ W r s Es). lia.
    + cbn. lia.
    + cbn. intros r s L Es. destruct (wf_sets _ W r s Es) as (_ & A2 & A3 & A4). split; [exact A2|]. split; [exact A3|].
      intros V. split; [rewrite Es; exact V|]. intros o. split; [exact (A4 V o)|auto].
    + cbn. intros o r R. destruct (wf_ptr _ W o r R) as [s Es]. split; [|eauto]. apply (wf_sets _ W r s Es).
    + intros r. rewrite Et. intros H. apply not_elem_of_empty in H. contradiction.
    + intros o. rewrite Et. intros H. apply not_elem_of_empty in H. contradiction.
    + intros o. rewrite (wf_held _ W), Et, St. cbn. split; [intros H; apply not_elem_of_empty in H; contradiction|].
      intros [[? ?]|[H|H]]; [discriminate| |]; apply not_elem_of_empty in H; contradiction.
  - intros o st E. rewrite St in E. discriminate.
  - rewrite Et. constructor.
  - intros o. rewrite Et. intros H. inversion H.
  - intros i p q. rewrite Et. discriminate.
  - intros o. unfold cnt. rewrite St. cbn. lia.
Qed.

(** A set from before that is still valid has its members and counts. *)
Lemma old_count w0 w o x0 x r s : wf w0 -> same_heap (objects w0) (objects w) ->
  old_sets (objects w0) (start w0) (objects w) (rsets w) -> r < next_rset w0 -> rsets w !! r = Some s -> valid s = true ->
  objects w0 !! o = Some x0 -> same_object x0 x -> rset x = Some r -> rcount x <= from_set w r o.
Proof.
  intros W H O L Es V E0 So Er. destruct (os_set _ _ _ _ O r s L Es) as (_ & _ & A). destruct (A V) as [Wv M]. cbn in Wv.
  destruct (rsets w0 !! r) as [s0|] eqn:Es0; [|discriminate]. cbn in Wv.
  destruct So as (_ & _ & _ & _ & [Hn|[Hr ->]]); [congruence|].
  etrans; [apply (wf_count _ W o x0 r s0 E0); [congruence|exact Es0|exact Wv]|].
  unfold from_set. rewrite (same_heap_edges _ _ H). apply filter_impl_length. intros e [E R]. split; [exact E|].
  apply M, R.
Qed.

Lemma wf_undone w0 w w' : wf w0 -> winv (objects w0) (start w0) None ∅ w -> undone (start w0) w w' -> wf w'.
Proof.
  intros W I (Eo & En & Eh & Et & Ol & Nw). pose proof (winv_old_sets _ _ _ _ _ I) as O. cbn in *.
  assert (old_sets (objects w0) (start w0) (objects w') (rsets w')) as O' by (rewrite Eo; exact (old_sets_new _ _ _ _ _ O Ol)).
  assert (forall r s, rsets w' !! r = Some s -> r < next_rset w0) as Lr.
  { intros r s Es. destruct (decide (r < next_rset w0)) as [|N]; [assumption|]. rewrite Nw in Es by lia. discriminate. }
  assert (forall o r, rset_of w' o = Some r -> r < next_rset w0) as Lp.
  { intros o r R. apply (wi_ptr _ _ _ _ _ I o r). unfold rset_of in *. rewrite <- Eo. exact R. }
  constructor.
  - exact Eh.
  - eauto.
  - intros r s Es. pose proof (Lr r s Es) as L. destruct (os_set _ _ _ _ O' r s L Es) as (A1 & A2 & A3).
    split; [rewrite En; pose proof (wi_next _ _ _ _ _ I); cbn in *; lia|]. split; [exact A1|]. split; [exact A2|].
    intros V o. apply (proj2 (A3 V) o).
  - intros o r R. exact (os_ptr _ _ _ _ O' o r R (Lp o r R)).
  - intros o x r s Ex Er Es V. pose proof (wi_objects _ _ _ _ _ I o) as Q. rewrite <- Eo, Ex in Q.
    destruct (objects w0 !! o) as [x0|] eqn:E0; [|contradiction].
    apply (old_count w0 w' o x0 x r s W); try assumption; [|exact (Lr r s Es)].
    intros o'. rewrite Eo. pose proof (wi_objects _ _ _ _ _ I o') as Q'. destruct (objects w0 !! o'), (objects w !! o'); try assumption.
    apply same_object_members, Q'.
Qed.

Lemma storing_heap w0 F w : storing (objects w0) (start w0) F [] w -> same_heap (objects w0) (objects w).
Proof.
  intros S o. pose proof (sg_objects _ _ _ _ _ S o) as Q. destruct (objects w0 !! o), (objects w !! o); try contradiction; [|exact Logic.I].
  destruct (F !! o); [|apply same_object_members, Q]. rewrite decide_False in Q by (intros H; inversion H). apply Q.
Qed.

Lemma wf_stored w0 w1 D w cs : wf w0 -> inv (objects w0) (start w0) ∅ D w1 -> D ⊆+ all_edges (objects w0) ->
  storing (objects w0) (start w0) (fomap (tx w1)) [] w -> held w = ∅ -> wf (with_tx (no_tx cs) w).
Proof.
  intros W I B S Eh. set (F := fomap (tx w1)) in *. pose proof (storing_heap w0 F w S) as H.
  assert (forall o r, F !! o ≫= st_rset = Some r -> rset_of w o = Some r) as Tr.
  { intros o r T. pose proof (sg_objects _ _ _ _ _ S o) as Q. destruct (F !! o) as [st|] eqn:Ef; [|discriminate]. cbn in T.
    unfold rset_of. destruct (objects w0 !! o), (objects w !! o) as [x|]; try contradiction; [|discriminate].
    rewrite decide_False in Q by (intros Hn; inversion Hn). destruct Q as (_ & Er & _). cbn. congruence. }
  assert (forall o r, rset_of w o = Some r -> r < next_rset w0 \/ next_rset w0 <= r /\ F !! o ≫= st_rset = Some r) as Rt.
  { intros o r R. unfold rset_of in R. pose proof (sg_objects _ _ _ _ _ S o) as Q.
    destruct (objects w !! o) as [x|] eqn:Ex; [|discriminate]. cbn in R. destruct (F !! o) as [st|] eqn:Ef.
    - right. destruct (objects w0 !! o); [|contradiction]. rewrite decide_False in Q by (intros Hn; inversion Hn).
      destruct Q as (_ & Er & _). cbn. split; [|congruence]. apply (sg_tags _ _ _ _ _ S o st r Ef). congruence.
    - left. apply (sg_todo _ _ _ _ _ S o x r Ex R). auto. }
  constructor; cbn.
  - exact Eh.
  - eauto.
  - intros r s Es. destruct (decide (r < next_rset w0)) as [L|L].
    + destruct (os_set _ _ _ _ (sg_old _ _ _ _ _ S) r s L Es) as (A1 & A2 & A3). pose proof (sg_next _ _ _ _ _ S) as Ln. cbn in Ln.
      split; [lia|]. split; [exact A1|]. split; [exact A2|]. intros V o. apply (proj2 (A3 V) o).
    + assert (next_rset w0 <= r) as L' by lia. destruct (sg_new _ _ _ _ _ S r s L' Es) as (A1 & A2 & _ & A3 & A4).
      split; [exact A1|]. split; [exact A2|]. split.
      * rewrite A2. destruct (set s) as [|o l]; [contradiction|]. assert (rset_of w o = Some r) as R by (apply Tr, A4; left).
        unfold rset_of in R. destruct (objects w !! o) as [x|] eqn:Ex; [|discriminate]. unfold pointers.
        destruct (decide (size (filter (λ p, rset p.2 = Some r) (objects w)) = 0)) as [Z|]; [|lia].
        apply map_size_empty_iff in Z. pose proof (map_lookup_filter_Some_2 (λ p, rset p.2 = Some r) (objects w) o x Ex R) as Q.
        rewrite Z, lookup_empty in Q. discriminate.
      * intros _ o. rewrite A4. split; [apply Tr|]. intros R. destruct (Rt o r R) as [|[_ T]]; [lia|exact T].
  - intros o r R. destruct (Rt o r R) as [L|[_ T]].
    + exact (os_ptr _ _ _ _ (sg_old _ _ _ _ _ S) o r R L).
    + destruct (F !! o) as [st|] eqn:Ef; [|discriminate]. exact (proj2 (sg_tags _ _ _ _ _ S o st r Ef T)).
  - intros o x r s Ex Er Es V. change (from_set (with_tx (no_tx cs) w) r o) with (from_set w r o).
    assert (rset_of w o = Some r) as R by (unfold rset_of; rewrite Ex; exact Er).
    pose proof (sg_objects _ _ _ _ _ S o) as Q. rewrite Ex in Q. destruct (objects w0 !! o) as [x0|] eqn:E0; [|contradiction].
    destruct (Rt o r R) as [L|[L T]].
    + assert (F !! o = None) as Ef.
      { destruct (F !! o) as [st|] eqn:Ef; [|reflexivity]. rewrite decide_False in Q by (intros Hn; inversion Hn).
        destruct Q as (_ & Q & _). destruct (sg_tags _ _ _ _ _ S o st r Ef); [congruence|cbn in *; lia]. }
      rewrite Ef in Q. exact (old_count w0 w o x0 x r s W H (sg_old _ _ _ _ _ S) L Es V E0 Q Er).
    + destruct (F !! o) as [st|] eqn:Ef; [|discriminate]. rewrite decide_False in Q by (intros Hn; inversion Hn).
      destruct Q as (_ & _ & ->). cbn in T. pose proof (iv_count _ _ _ _ _ I o) as C. unfold cnt, stat in C. fold F in C. rewrite Ef in C. cbn in C.
      etrans; [exact C|]. etrans; [apply internal_submseteq, B|]. unfold from_set. rewrite (same_heap_edges _ _ H).
      apply filter_impl_length. intros e (E & Te & _). split; [exact E|]. apply Tr. fold (stat w1 e.1) (tag w1 e.1) in Te |- *.
      change (tag w1 e.1 = Some r). rewrite Te. unfold tag, stat. fold F. rewrite Ef. exact T.
Qed.

(** What is left when a scan is given up *)
Definition given_up w w' : Prop :=
  (forall r, is_Some (rsets w' !! r) -> is_Some (rsets w !! r)) /\
  forall o x0 x, objects w !! o = Some x0 -> objects w' !! o = Some x -> same_object x0 x.

Lemma undone_given_up w0 w w' : wf w0 -> winv (objects w0) (start w0) None ∅ w -> undone (start w0) w w' -> given_up w0 w'.
Proof.
  intros W I U. pose proof (wf_undone w0 w w' W I U) as W'. destruct U as (Eo & _). split.
  - intros r [s Es]. destruct (wf_sets _ W' r s Es) as (_ & A2 & A3 & _). rewrite A2, Eo in A3. unfold pointers in A3.
    destruct (map_choose (filter (λ p, rset p.2 = Some r) (objects w))) as (o & x & E%map_lookup_filter_Some).
    { intros Z. rewrite Z in A3. rewrite map_size_empty in A3. lia. }
    destruct E as [Ex Er]. pose proof (wi_objects _ _ _ _ _ I o) as Q. rewrite Ex in Q.
    destruct (objects w0 !! o) as [x0|] eqn:E0; [|contradiction]. destruct Q as (_ & _ & _ & _ & [Hn|[Hr _]]); [cbn in Er; congruence|].
    apply (wf_ptr _ W o r). unfold rset_of. rewrite E0. cbn in *. congruence.
  - intros o x0 x E0 Ex. pose proof (wi_objects _ _ _ _ _ I o) as Q. rewrite Eo in Ex. rewrite E0, Ex in Q. exact Q.
Qed.

(** No transaction runs, and no new set was made. *)
Lemma wf_idle w0 w : wf w0 -> winv (objects w0) (start w0) None ∅ w -> (exists cs, tx w = no_tx cs) -> wf w /\ same_heap (objects w0) (objects w).
Proof.
  intros W I [cs Et].
  assert (forall o, stat w o = None) as St by (intros o; unfold stat; rewrite Et; apply lookup_empty). split.
  - apply (wf_undone w0 w w W I). split; [reflexivity|]. split; [reflexivity|]. split; [|split; [rewrite Et; reflexivity|split; [reflexivity|]]].
    + apply set_eq. intros o. rewrite (wi_held _ _ _ _ _ I), St, Et. cbn. split; [intros [[? ?]|[H|H]]; [discriminate|exact H|exact H]|auto].
    + intros r L. destruct (rsets w !! r) as [s|] eqn:Es; [|reflexivity].
      destruct (wi_new _ _ _ _ _ I r s L Es) as (_ & _ & _ & _ & M & A). specialize (A ltac:(discriminate)).
      destruct (set s) as [|o l]; [contradiction|]. assert (tag w o = Some r) as T by (apply M; left).
      unfold tag in T. rewrite St in T. discriminate.
  - intros o. pose proof (wi_objects _ _ _ _ _ I o) as Q. destruct (objects w0 !! o), (objects w !! o); try exact Q.
    apply same_object_members, Q.
Qed.

(** A heap that the program may have *)
Record ready_heap (ext : nat -> nat) (w : world) : Prop := {
  rh_wf : wf w;
  rh_ok : heap_ok (objects w);
  rh_counted : counted_by ext (objects w) }.

Lemma ready_heap_next ext w w' : ready_heap ext w -> wf w' -> same_heap (objects w) (objects w') -> ready_heap ext w'.
Proof.
  intros [W O C] W' H. constructor; [exact W'|exact (same_heap_ok _ _ H O)|exact (same_heap_counted _ _ _ H C)].
Qed.

Lemma transaction_spec ext busy o w : ready_heap ext w -> is_Some (objects w !! o) ->
  returns (transaction busy o) (λ d w', wf w' /\ same_heap (objects w) (objects w') /\ (d = false -> given_up w w')) w.
Proof.
  intros [W O C] So.
  assert (forall y x, objects w !! y = Some x -> in_degree (all_edges (objects w)) y <= references x) as Cr.
  { intros y x E. specialize (C y x E). lia. }
  unfold transaction. step. unfold gets, returns at 1. step. eapply returns_mono.
  { apply (checkIntern_spec (objects w) (start w) busy Cr O (S (size (objects w))) ∅ [] o [] w (or_introl eq_refl));
      [exact (wf_ready w W)|exact So|]. unfold enough. lia. }
  intros c w1 ([L P] & _ & Q). apply returns_if; intros ->.
  - step. eapply returns_mono; [exact (rollback_spec (objects w) (start w) w1 P)|]. intros u w2 U. cbn beta in U. clear u. unfold returns. cbn.
    split; [exact (wf_undone w w1 w2 W P U)|]. split; [|intros _; exact (undone_given_up w w1 w2 W P U)].
    destruct U as (-> & _). intros y. pose proof (wi_objects _ _ _ _ _ P y) as My.
    destruct (objects w !! y), (objects w1 !! y); try exact My. apply same_object_members, My.
  - destruct P as (D & I & _ & B). assert (D ⊆+ all_edges (objects w)) as B'.
    { etrans; [|exact B]. apply submseteq_inserts_r. reflexivity. }
    destruct (Q eq_refl) as [[(x & Ex & V) S1]|[Nv ->]].
    + pose proof (wi_objects _ _ _ _ _ (iv_w _ _ _ _ _ I) o) as M1. rewrite Ex in M1.
      destruct (objects w1 !! o) as [x1|] eqn:Ex1; [|contradiction]. look Ex1.
      assert (isValid x1 = true) as -> by (unfold isValid in *; destruct M1 as (-> & _); exact V). step. eapply returns_mono; [exact (commit_spec (objects w) (start w) Cr D o w1 I B' S1)|].
      intros _ w2 [St Eh]. step. unfold modify, returns. cbn. split; [exact (wf_stored w w1 D w2 _ W I B' St Eh)|].
      split; [exact (storing_heap _ _ _ St)|discriminate].
    + destruct So as [x Ex]. look Ex. destruct (isValid x) eqn:V; [exfalso; apply Nv; exists x; auto|].
      step. unfold returns at 1. cbn. step. unfold modify, returns. cbn.
      destruct (wf_tx _ W) as [cs Et]. assert (with_tx (no_tx (closure_set (tx w))) w = w) as -> by (destruct w; cbn in *; subst; reflexivity).
      split; [exact W|]. split; [apply same_heap_refl|discriminate].
Qed.

Lemma rounds_spec ext o l : forall w, ready_heap ext w -> is_Some (objects w !! o) ->
  returns (rounds o l) (λ _ w', wf w' /\ same_heap (objects w) (objects w')) w.
Proof.
  induction l as [|[busy e] l IH]; intros w R So; cbn [rounds].
  - split; [exact (rh_wf _ _ R)|apply same_heap_refl].
  - step. eapply returns_mono; [exact (transaction_spec ext busy o w R So)|]. intros d w1 (W1 & H1 & _).
    apply returns_if; intros _; [exact (conj W1 H1)|].
    eapply returns_mono; [apply (IH w1 (ready_heap_next _ _ _ R W1 H1))|].
    + destruct So as [x Ex]. specialize (H1 o). rewrite Ex in H1. destruct (objects w1 !! o); [eauto|contradiction].
    + intros _ w2 [W2 H2]. split; [exact W2|exact (same_heap_trans _ _ _ H1 H2)].
Qed.

Lemma with_no_tx_wf w cs : wf w -> wf (with_tx (no_tx cs) w).
Proof.
  intros []. constructor; cbn; try assumption. eauto.
Qed.

Lemma checkDeferScan_spec o w : wf w -> is_Some (objects w !! o) ->
  returns (checkDeferScan o) (λ _ w', wf w' /\ same_heap (objects w) (objects w')) w.
Proof.
  intros W [x Ex]. destruct (wf_ready w W) as (D & I0 & _). pose proof (iv_w _ _ _ _ _ I0) as I.
  pose proof (wf_tx _ W) as Et. assert (tag w o = None) as T.
  { destruct Et as [cs Et]. unfold tag, stat. rewrite Et. cbn. rewrite lookup_empty. reflexivity. }
  unfold checkDeferScan. look Ex. apply returns_if; intros _; [|apply returns_if; intros _].
  - step. unfold put_object, modify, returns.
    exact (wf_idle w _ W (set_deferred_spec _ _ _ w o x false I Ex) Et).
  - split; [exact W|apply same_heap_refl].
  - pose proof (detach_spec _ _ _ w o x I Ex T) as Dt. unfold returns, mbind, M_bind in Dt |- *.
    destruct (put_object o (set_deferred true x) w) as [u w1| |]; try contradiction.
    destruct (removeInvalidateRSetIntern o w1) as [u' w2| |]; try contradiction.
    destruct Dt as [I2 [Et2 Eh2]]. cbn. apply (wf_idle w w2 W I2). rewrite Et2. exact Et.
Qed.

Lemma new_RSetHelper_spec ext o l w : ready_heap ext w -> is_Some (objects w !! o) ->
  returns (new_RSetHelper o l) (λ _ w', wf w' /\ same_heap (objects w) (objects w')) w.
Proof.
  intros R So. unfold new_RSetHelper. step. eapply returns_mono; [exact (checkDeferScan_spec o w (rh_wf _ _ R) So)|].
  intros d w1 [W1 H1]. apply returns_if; intros _; [exact (conj W1 H1)|]. step. unfold modify, returns at 1.
  pose proof (with_no_tx_wf w1 ∅ W1) as W2. set (w2 := with_tx _ w1) in *.
  eapply returns_mono; [apply (rounds_spec ext o l w2 (ready_heap_next _ _ _ R W2 H1))|].
  - destruct So as [x Ex]. specialize (H1 o). rewrite Ex in H1. cbn. destruct (objects w1 !! o); [eauto|contradiction].
  - intros _ w3 [W3 H3]. split; [exact W3|exact (same_heap_trans _ _ _ H1 H3)].
Qed.

(** ** Deleting *)

Lemma returns_done {A} (m : M A) (Q : A -> world -> Prop) w a w' : m w = Done a w' -> Q a w' -> returns m Q w.
Proof. unfold returns. intros ->. auto. Qed.

Lemma any_of_pure {A} (f : A -> M bool) (g : A -> bool) l w :
  (forall x, x ∈ l -> f x w = Done (g x) w) -> any_of f l w = Done (existsb g l) w.
Proof.
  induction l as [|x l IH]; intros F; [reflexivity|]. cbn [any_of existsb]. unfold mbind, M_bind. rewrite F by left.
  destruct (g x); [reflexivity|]. apply IH. intros y Hy. apply F. right. exact Hy.
Qed.

Lemma filter_length_all {A} (P Q : A -> Prop) `{!forall x, Decision (P x), !forall x, Decision (Q x)} (l : list A) :
  (forall x, P x -> Q x) -> length (filter Q l) <= length (filter P l) -> forall x, x ∈ l -> Q x -> P x.
Proof.
  intros PQ. induction l as [|y l IH]; intros L x Hx Qx; [inversion Hx|]. rewrite !filter_cons in L.
  pose proof (filter_impl_length P Q l PQ) as M.
  destruct (decide (P y)) as [Py|Py], (decide (Q y)) as [Qy|Qy]; cbn in L; [| |lia|].
  - apply elem_of_cons in Hx as [->|Hx]; [exact Py|]. apply IH; [lia|exact Hx|exact Qx].
  - apply PQ in Py. contradiction.
  - apply elem_of_cons in Hx as [->|Hx]; [contradiction|]. apply IH; [lia|exact Hx|exact Qx].
Qed.

(** Each reference to the object comes from its set. *)
Lemma all_from_set ext w o x r s : ready_heap ext w -> rsets w !! r = Some s -> valid s = true ->
  objects w !! o = Some x -> rset x = Some r -> rcount x = references x ->
  ext o = 0 /\ forall p, (p, o) ∈ all_edges (objects w) -> p ∈ set s.
Proof.
  intros [W _ C] Es V Ex Er Ec. pose proof (wf_count _ W o x r s Ex Er Es V) as B. specialize (C o x Ex).
  destruct (wf_sets _ W r s Es) as (_ & _ & _ & M). specialize (M V).
  assert (from_set w r o <= in_degree (all_edges (objects w)) o) as L by (apply filter_impl_length; intros e [E _]; exact E).
  split; [lia|]. intros p Hp. apply M.
  apply (filter_length_all (λ e, e.2 = o /\ rset_of w e.1 = Some r) (λ e, e.2 = o) (all_edges (objects w))
           ltac:(intros e [E _]; exact E) ltac:(unfold from_set, in_degree in *; lia) (p, o) Hp eq_refl).
Qed.

Lemma canDelete_spec ext r flag rc n w s : ready_heap ext w -> rsets w !! r = Some s ->
  returns (canDelete r flag rc n) (λ d w', d = Delete -> valid s = true /\
    forall o, o ∈ set s -> exists x, objects w !! o = Some x /\ isValid x = true /\ rset x = Some r /\ rcount x = references x) w.
Proof.
  intros R Es. unfold canDelete. look Es. apply returns_if; intros _; [discriminate|].
  apply returns_if; intros V; [discriminate|]. apply negb_false_iff in V. apply returns_if; intros _; [discriminate|].
  destruct (wf_sets _ (rh_wf _ _ R) r s Es) as (_ & _ & _ & M). specialize (M V).
  set (g := λ o, match objects w !! o with Some x => negb (isValid x) || negb (rcount x =? references x) | None => true end).
  step. eapply returns_done; [apply (any_of_pure _ g)|].
  { intros o Ho. apply M in Ho. unfold rset_of in Ho. unfold g, get_object, look.
       unfold mbind, M_bind. destruct (objects w !! o) as [x|]; [reflexivity|discriminate]. }
  apply returns_if; intros Eg; [discriminate|]. unfold invalidate. step. look Es. rewrite V.
  unfold put_rset, modify, returns. cbn. intros _. split; [reflexivity|]. intros o Ho. pose proof (proj1 (M o) Ho) as Ro. unfold rset_of in Ro.
  assert (g o = false) as Go.
  { destruct (g o) eqn:G; [|reflexivity]. rewrite (proj2 (existsb_exists g (set s))) in Eg; [discriminate|].
    exists o. split; [apply list_elem_of_In, Ho|exact G]. }
  unfold g in Go. destruct (objects w !! o) as [x|]; [|discriminate]. apply orb_false_iff in Go as [G1 G2].
  exists x. split; [reflexivity|]. split; [destruct (isValid x); [reflexivity|discriminate]|]. split; [exact Ro|].
  apply Nat.eqb_eq. destruct (rcount x =? references x); [reflexivity|discriminate].
Qed.

(** ** The properties *)

(** C21: a scan of a well-formed heap in which every object has at least the
    references that the scan sees ([counted_by], which shared containers can
    break, see [shared_list_fails]) ends without a failed assertion, whatever
    objects other threads have locked in its rounds; what the program sees of
    the objects is unchanged, all locks are given back, and the heap is
    well-formed again: a valid set has exactly the objects that point to it,
    it is counted by them, and the count of a member is at most the number of
    references that come from its set. *)
Theorem scan_total ext o l w : ready_heap ext w -> is_Some (objects w !! o) ->
  exists d w', new_RSetHelper o l w = Done d w' /\ ready_heap ext w' /\ same_heap (objects w) (objects w').
Proof.
  intros R So. pose proof (new_RSetHelper_spec ext o l w R So) as S. unfold returns in S.
  destruct (new_RSetHelper o l w) as [d w'| |]; try contradiction. destruct S as [W H].
  exists d, w'. split; [reflexivity|]. split; [exact (ready_heap_next _ _ _ R W H)|exact H].
Qed.

(** C22: a transaction that meets a lock of another thread is given up: it
    leaves no new set, no lock and no entry, and an object has the set and
    count from before, or none. *)
Theorem scan_rollback ext busy o w w' : ready_heap ext w -> is_Some (objects w !! o) ->
  transaction busy o w = Done false w' -> wf w' /\ given_up w w'.
Proof.
  intros R So E. pose proof (transaction_spec ext busy o w R So) as S. unfold returns in S. rewrite E in S.
  destruct S as (W & _ & G). auto.
Qed.

(** C20: the collector deletes only garbage: after any scan, a set that may be
    deleted has no reference from elsewhere, and every reference to one of its
    objects, from members or from the entries of a queue, comes from one of its
    objects. Every object must have at least the references that the scan sees
    and those from elsewhere ([counted_by]). This holds if no container and no
    closure with what it holds is shared: those are scanned from each place, see
    [shared_list_collected] for what happens then. *)
Theorem collect_safe ext o l w d w1 r s flag rc n w2 : ready_heap ext w -> is_Some (objects w !! o) ->
  new_RSetHelper o l w = Done d w1 -> rsets w1 !! r = Some s -> canDelete r flag rc n w1 = Done Delete w2 ->
  forall q, q ∈ set s -> ext q = 0 /\ forall p, (p, q) ∈ all_edges (objects w) -> p ∈ set s.
Proof.
  intros R So E Es Ed q Hq. pose proof (new_RSetHelper_spec ext o l w R So) as S. unfold returns in S. rewrite E in S.
  destruct S as [W H]. pose proof (ready_heap_next _ _ _ R W H) as R1.
  pose proof (canDelete_spec ext r flag rc n w1 s R1 Es) as C. unfold returns in C. rewrite Ed in C.
  destruct (C eq_refl) as [V Cs]. destruct (Cs q Hq) as (x & Ex & _ & Er & Ec).
  rewrite <- (same_heap_edges _ _ H). exact (all_from_set ext w1 q x r s R1 Es V Ex Er Ec).
Qed.

(** ** Examples *)

Definition obj (refs : nat) (ms : list node) : RObject := mkRObject (KObject true false no_queue) [ms] refs 0 false 0 0 None.
Definition var (refs : nat) (n : node) : RObject := mkRObject (KVariable true) [[n]] refs 0 false 0 0 None.
Definition heap (l : list (nat * RObject)) : world := mkWorld (list_to_map l) ∅ 0 ∅ (no_tx ∅).
Definition world_of {A} (r : outcome A) (w : world) : world := match r with Done _ w' => w' | _ => w end.

(** The set, the count and the references of the objects after a scan of the
    first one *)
Definition scanned (l : list (nat * RObject)) (rs : list (gset nat * bool)) : list (option nat * nat * nat) :=
  (λ p, match objects (world_of (new_RSetHelper 0 rs (heap l)) (heap l)) !! p.1 with
        | Some x => (rset x, rcount x, references x)
        | None => (None, 0, 0)
        end) <$> l.

Definition collected (l : list (nat * RObject)) (r : nat) : bool :=
  match canDelete r false 0 0 (world_of (new_RSetHelper 0 [(∅, false)] (heap l)) (heap l)) with Done Delete _ => true | _ => false end.

Lemma heap_wf l : map_Forall (λ _ x, rset x = None) (objects (heap l)) -> wf (heap l).
Proof.
  intros N. assert (forall o r, rset_of (heap l) o <> Some r) as R.
  { intros o r. unfold rset_of. destruct (objects (heap l) !! o) as [x|] eqn:E; [|discriminate]. cbn.
    rewrite (N o x E). discriminate. }
  constructor; cbn.
  - reflexivity.
  - eauto.
  - intros r s E. rewrite lookup_empty in E. discriminate.
  - intros o r E. destruct (R o r E).
  - intros o x r s _ _ E. rewrite lookup_empty in E. discriminate.
Qed.

Lemma heap_ready l ext :
  bool_decide (map_Forall (λ _ x, rset x = None) (objects (heap l))) &&
  bool_decide (map_Forall (λ _ x, forallb (forallb (node_ok (objects (heap l)))) (contents x) = true) (objects (heap l))) &&
  bool_decide (map_Forall (λ o x, in_degree (all_edges (objects (heap l))) o + ext o <= references x) (objects (heap l))) = true ->
  ready_heap ext (heap l).
Proof.
  intros [[H1%bool_decide_eq_true H2%bool_decide_eq_true]%andb_true_iff H3%bool_decide_eq_true]%andb_true_iff.
  constructor; [exact (heap_wf l H1)|exact H2|exact H3].
Qed.

(** A ring of three objects, and a fourth one that refers to it *)
Definition ring (refs : nat) : list (nat * RObject) :=
  [(0, obj refs [NObject 1]); (1, obj 1 [NContainer [NOther; NObject 2]]); (2, obj 1 [NReference (Some 0)])].
Definition ring_held : list (nat * RObject) := ring 2 ++ [(3, obj 1 [NObject 0])].

Example ring_scanned : scanned (ring 1) [(∅, false)] = [(Some 0, 1, 1); (Some 0, 1, 1); (Some 0, 1, 1)].
Proof. vm_compute. reflexivity. Qed.

Example ring_collected : collected (ring 1) 0 = true /\ collected ring_held 0 = false.
Proof. vm_compute. split; reflexivity. Qed.

Lemma scan_total_witness : exists d w', new_RSetHelper 0 [({[2]}, false); (∅, false)] (heap ring_held) = Done d w' /\
  ready_heap (λ o, if decide (o = 3) then 1 else 0) w' /\ same_heap (objects (heap ring_held)) (objects w').
Proof.
  apply (scan_total (λ o, if decide (o = 3) then 1 else 0) 0 [({[2]}, false); (∅, false)] (heap ring_held)).
  - apply heap_ready. vm_compute. reflexivity.
  - vm_compute. eauto.
Defined.

Lemma scan_rollback_witness :
  transaction {[2]} 0 (heap ring_held) = Done false (world_of (transaction {[2]} 0 (heap ring_held)) (heap [])) /\
  wf (world_of (transaction {[2]} 0 (heap ring_held)) (heap [])) /\
  given_up (heap ring_held) (world_of (transaction {[2]} 0 (heap ring_held)) (heap [])).
Proof.
  assert (transaction {[2]} 0 (heap ring_held) = Done false (world_of (transaction {[2]} 0 (heap ring_held)) (heap []))) as E
    by (vm_compute; reflexivity).
  split; [exact E|]. apply (scan_rollback (λ o, if decide (o = 3) then 1 else 0) {[2]} 0 (heap ring_held)); [| |exact E].
  - apply heap_ready. vm_compute. reflexivity.
  - vm_compute. eauto.
Defined.

Lemma collect_safe_witness :
  0 = 0 /\ forall p, (p, 0) ∈ all_edges (objects (heap (ring 1))) -> p ∈ set (mkRSet [2; 1; 0] 3 true).
Proof.
  set (w1 := world_of (new_RSetHelper 0 [(∅, false)] (heap (ring 1))) (heap [])).
  apply (collect_safe (λ _, 0) 0 [(∅, false)] (heap (ring 1)) true w1 0 (mkRSet [2; 1; 0] 3 true) false 0 0
           (world_of (canDelete 0 false 0 0 w1) w1)).
  - apply heap_ready. vm_compute. reflexivity.
  - vm_compute. eauto.
  - vm_compute. reflexivity.
  - vm_compute. reflexivity.
  - vm_compute. reflexivity.
  - right. right. left.
Defined.

(** Two circles that are joined later: the reference between them is not
    counted, and the set is never collected although nothing refers to it. *)
Example joined_circles_kept :
  let l := [(0, obj 2 [NObject 0; NObject 1]); (1, obj 2 [NObject 1; NObject 0])] in
  scanned l [(∅, false)] = [(Some 1, 2, 2); (Some 1, 1, 2)] /\ collected l 1 = false.
Proof. vm_compute. split; reflexivity. Qed.

(** A list that two members share is scanned twice: the object has two
    references, one from the list and one from another object, and both are
    taken for references from its set. *)
Example shared_list_collected :
  let l := [(0, obj 2 [NContainer [NObject 0]; NContainer [NObject 0]]); (1, obj 1 [NObject 0])] in
  scanned l [(∅, false)] = [(Some 0, 2, 2); (None, 0, 1)] /\ collected l 0 = true.
Proof. vm_compute. split; reflexivity. Qed.

(** When the list has the only reference, the assertion on the count fails. *)
Example shared_list_fails :
  new_RSetHelper 0 [(∅, false)] (heap [(0, obj 1 [NContainer [NObject 0]; NContainer [NObject 0]])]) = Failed.
Proof. vm_compute. reflexivity. Qed.

(** A circle through an entry of a queue is found, unless another thread has the queue
    locked. *)
Definition queue_ring (locked : bool) : list (nat * RObject) :=
  [(0, mkRObject (KObject true false (mkQueue true locked [NOther; NObject 1])) [] 1 0 false 0 0 None);
   (1, obj 1 [NObject 0])].
Example queue_scanned :
  scanned (queue_ring false) [(∅, false)] = [(Some 0, 1, 1); (Some 0, 1, 1)] /\
  collected (queue_ring false) 0 = true /\
  scanned (queue_ring true) [(∅, false)] = [(None, 0, 1); (None, 0, 1)].
Proof. vm_compute. repeat split; reflexivity. Qed.

(** The closures of a transaction that is given up count as scanned in the
    next one: the circle through the variable is not found. *)
Example closure_forgotten :
  let l := [(0, obj 1 [NClosure 9 [(1, true)]; NObject 2]); (1, var 1 (NObject 0)); (2, obj 1 [])] in
  scanned l [(∅, false)] = [(Some 0, 1, 1); (Some 0, 1, 1); (None, 0, 1)] /\
  scanned l [({[2]}, false); (∅, false)] = [(None, 0, 1); (None, 0, 1); (None, 0, 1)].
Proof. vm_compute. split; reflexivity. Qed.
