(* ===== verification/TypeInfo.v ===== *)
(** * Types: their specifications and values

    The data of lib/QoreTypeInfo.cpp and include/qore/intern/QoreTypeInfo.h.
    A type (class [QoreTypeInfo] of the code, here [ty]) is known by its
    address: built-in types are static objects, complex types are made once per
    value type and kept in maps, so equality of addresses is equality in [ty].
    A type has a vector of what it accepts, with conversions, and a vector of
    what it returns: each C++ class of a type is a definition here, of the same
    name. *)
From S2P Require Import Prelude.
From stdpp Require Import sorting.

(** The type codes of values (qore_type_t). [NT_POINTER_BITS] stands for what
    is read when the member [t] of the union of a type specification is read
    while the union holds a pointer. *)
Inductive qore_type_t :=
| NT_NOTHING | NT_INT | NT_FLOAT | NT_STRING | NT_DATE | NT_BOOLEAN | NT_NULL
| NT_BINARY | NT_LIST | NT_HASH | NT_OBJECT | NT_NUMBER | NT_REFERENCE
| NT_FUNCREF | NT_RUNTIME_CLOSURE | NT_WEAKREF | NT_WEAKREF_HASH
| NT_WEAKREF_LIST | NT_ALL | NT_POINTER_BITS.

#[export] Instance qore_type_t_eq_dec : EqDecision qore_type_t.
Proof. solve_decision. Defined.

(** Results of matching, in increasing order (qore_type_result_e); the first two are
    used in the search for variants. *)
Inductive qore_type_result_e :=
| QTI_IGNORE | QTI_UNASSIGNED
| QTI_NOT_EQUAL | QTI_WILDCARD | QTI_AMBIGUOUS | QTI_NEAR | QTI_IDENT.

#[export] Instance qore_type_result_e_eq_dec : EqDecision qore_type_result_e.
Proof. solve_decision. Defined.

(** Its integer value, for the comparisons of the code. *)
Definition qti_rank (r : qore_type_result_e) : Z :=
  match r with
  | QTI_IGNORE => -2 | QTI_UNASSIGNED => -1
  | QTI_NOT_EQUAL => 0 | QTI_WILDCARD => 1 | QTI_AMBIGUOUS => 2
  | QTI_NEAR => 3 | QTI_IDENT => 4
  end.

(** The static types (the variables [anyTypeInfo], ...). *)
Inductive base_type :=
| any_ | auto_ | bigInt_ | float_ | bool_ | string_ | binary_ | date_ | object_
| hash_ | emptyHash_ | list_ | emptyList_ | nothing_ | null_ | number_
| runTimeClosure_ | callReference_ | reference_ | hardReference_ | code_
| hexBinary_ | base64Binary_ | base64UrlBinary_ | softBinary_ | softBigInt_
| softFloat_ | softNumber_ | softBool_ | softString_ | softDate_ | softList_
| data_ | timeout_ | bigIntOrFloat_ | bigIntFloatOrNumber_ | floatOrNumber_
| bigIntOrNothing_ | floatOrNothing_ | numberOrNothing_ | stringOrNothing_
| boolOrNothing_ | binaryOrNothing_ | objectOrNothing_ | dateOrNothing_
| hashOrNothing_ | listOrNothing_ | nullOrNothing_ | codeOrNothing_
| closureOrNothing_ | callReferenceOrNothing_ | dataOrNothing_
| referenceOrNothing_ | hardReferenceOrNothing_ | hexBinaryOrNothing_
| base64BinaryOrNothing_ | base64UrlBinaryOrNothing_ | softBinaryOrNothing_
| softBigIntOrNothing_ | softFloatOrNothing_ | softNumberOrNothing_
| softBoolOrNothing_ | softStringOrNothing_ | softDateOrNothing_
| softListOrNothing_ | timeoutOrNothing_.

#[export] Instance base_type_eq_dec : EqDecision base_type.
Proof. solve_decision. Defined.

(** All types. Classes and hash declarations are known by the number of their
    object. *)
Inductive ty :=
| Base (b : base_type)
| ClassT (qc : Z)
| ClassOrNothingT (qc : Z)
| HashDeclT (hd : Z)
| HashDeclOrNothingT (hd : Z)
| ComplexHash (vti : ty)
| ComplexHashOrNothing (vti : ty)
| ComplexList (vti : ty)
| ComplexListOrNothing (vti : ty)
| ComplexSoftList (vti : ty)
| ComplexSoftListOrNothing (vti : ty)
| ComplexHardReference (vti : ty)
| ComplexHardReferenceOrNothing (vti : ty)
| ComplexReference (vti : ty)
| ComplexReferenceOrNothing (vti : ty).

#[export] Instance ty_eq_dec : EqDecision ty.
Proof. solve_decision. Defined.

Notation anyTypeInfo := (Base any_).
Notation autoTypeInfo := (Base auto_).
Notation nothingTypeInfo := (Base nothing_).
Notation hashTypeInfo := (Base hash_).
Notation listTypeInfo := (Base list_).

(** The types [hash<auto>], [*hash<auto>], [list<auto>], [*list<auto>],
    [softlist<auto>] and [*softlist<auto>] are static objects: the functions
    that look up complex types return them for the value type [auto]. *)
Definition autoHashTypeInfo : ty := ComplexHash autoTypeInfo.
Definition autoHashOrNothingTypeInfo : ty := ComplexHashOrNothing autoTypeInfo.
Definition autoListTypeInfo : ty := ComplexList autoTypeInfo.
Definition autoListOrNothingTypeInfo : ty := ComplexListOrNothing autoTypeInfo.
Definition softAutoListTypeInfo : ty := ComplexSoftList autoTypeInfo.
Definition softAutoListOrNothingTypeInfo : ty :=
  ComplexSoftListOrNothing autoTypeInfo.

(** How deep value types are nested: the measure of the recursive functions. *)
Fixpoint depth (T : ty) : nat :=
  match T with
  | Base _ | ClassT _ | ClassOrNothingT _ | HashDeclT _ | HashDeclOrNothingT _ =>
      0%nat
  | ComplexHash U | ComplexHashOrNothing U | ComplexList U
  | ComplexListOrNothing U | ComplexSoftList U | ComplexSoftListOrNothing U
  | ComplexHardReference U | ComplexHardReferenceOrNothing U
  | ComplexReference U | ComplexReferenceOrNothing U => S (depth U)
  end.

(** ** Values *)

(** Values. Floating-point numbers are given by their bits, arbitrary-precision
    numbers by their text, dates by a handle: types only convert them, with
    the functions of [Scalars]. A container has the flag of [is_unique]; [weak]
    marks the node of a weak reference to a container or object
    (WeakHashReferenceNode, WeakListReferenceNode, WeakReferenceNode), where
    the rest describes what it refers to. *)
Inductive value :=
| VNothing
| VNull
| VInt (n : Z)
| VFloat (bits : Z)
| VBool (b : bool)
| VString (s : string)
| VBinary (s : string)
| VDate (d : Z)
| VNumber (s : string)
| VClosure (id : Z)
| VFuncRef (id : Z)
| VRef (lvalue : Z) (typeInfo : ty)
| VObject (weak : bool) (cls : Z) (id : Z) (valid : bool)
| VList (weak : bool) (complexTypeInfo : option ty) (unique : bool)
    (entry : list value)
| VHash (weak : bool) (hashdecl : option Z) (complexTypeInfo : option ty)
    (unique : bool) (members : list (string * value)).

(** Induction over nested values. *)
Section value_induction.
Context (P : value -> Prop).
Context (Pscalar : forall v,
  match v with VList _ _ _ _ | VHash _ _ _ _ _ => True | _ => P v end).
Context (Plist : forall w t u l, Forall P l -> P (VList w t u l)).
Context (Phash : forall w h t u l,
  Forall (fun kv => P kv.2) l -> P (VHash w h t u l)).

Fixpoint value_nested_ind (v : value) : P v :=
  match v with
  | VList w t u l =>
      Plist w t u l ((fix go l : Forall P l :=
        match l with
        | [] => Forall_nil_2 P
        | x :: l' => Forall_cons_2 P x l' (value_nested_ind x) (go l')
        end) l)
  | VHash w h t u l =>
      Phash w h t u l ((fix go l : Forall (fun kv => P kv.2) l :=
        match l with
        | [] => Forall_nil_2 _
        | x :: l' => Forall_cons_2 (fun kv : string * value => P kv.2) x l'
                       (value_nested_ind x.2) (go l')
        end) l)
  | x => Pscalar x
  end.
End value_induction.

(** QoreValue::getType *)
Definition getType (n : value) : qore_type_t :=
  match n with
  | VNothing => NT_NOTHING
  | VNull => NT_NULL
  | VInt _ => NT_INT
  | VFloat _ => NT_FLOAT
  | VBool _ => NT_BOOLEAN
  | VString _ => NT_STRING
  | VBinary _ => NT_BINARY
  | VDate _ => NT_DATE
  | VNumber _ => NT_NUMBER
  | VClosure _ => NT_RUNTIME_CLOSURE
  | VFuncRef _ => NT_FUNCREF
  | VRef _ _ => NT_REFERENCE
  | VObject false _ _ _ => NT_OBJECT
  | VObject true _ _ _ => NT_WEAKREF
  | VList false _ _ _ => NT_LIST
  | VList true _ _ _ => NT_WEAKREF_LIST
  | VHash false _ _ _ _ => NT_HASH
  | VHash true _ _ _ _ => NT_WEAKREF_HASH
  end.

(** ** Type specifications *)

(** QoreTypeSpec: one kind of value that a type accepts or returns. *)
Inductive QoreTypeSpec :=
| QTS_TYPE (t : qore_type_t)
| QTS_CLASS (qc : Z)
| QTS_HASHDECL (hd : Z)
| QTS_HARDREF
| QTS_COMPLEXHASH (ti : ty)
| QTS_COMPLEXLIST (ti : ty)
| QTS_COMPLEXHARDREF (ti : ty)
| QTS_COMPLEXREF (ti : ty)
| QTS_COMPLEXSOFTLIST (ti : ty)
| QTS_EMPTYLIST
| QTS_EMPTYHASH.

#[export] Instance QoreTypeSpec_eq_dec : EqDecision QoreTypeSpec.
Proof. solve_decision. Defined.

(** The member [t] of the union. *)
Definition union_t (s : QoreTypeSpec) : qore_type_t :=
  match s with
  | QTS_TYPE t => t
  | QTS_HARDREF => NT_REFERENCE
  | QTS_EMPTYLIST => NT_LIST
  | QTS_EMPTYHASH => NT_HASH
  | _ => NT_POINTER_BITS
  end.

(** QoreTypeSpec::getType *)
Definition spec_getType (s : QoreTypeSpec) : qore_type_t :=
  match s with
  | QTS_TYPE t => t
  | QTS_EMPTYLIST => NT_LIST
  | QTS_EMPTYHASH => NT_HASH
  | QTS_CLASS _ => NT_OBJECT
  | QTS_COMPLEXHASH _ | QTS_HASHDECL _ => NT_HASH
  | QTS_COMPLEXLIST _ | QTS_COMPLEXSOFTLIST _ => NT_LIST
  | QTS_HARDREF | QTS_COMPLEXHARDREF _ | QTS_COMPLEXREF _ => NT_REFERENCE
  end.

(** QoreTypeSpec::isComplex *)
Definition spec_isComplex (s : QoreTypeSpec) : bool :=
  match s with
  | QTS_HASHDECL _ | QTS_COMPLEXHASH _ | QTS_COMPLEXLIST _
  | QTS_COMPLEXSOFTLIST _ | QTS_COMPLEXHARDREF _ | QTS_COMPLEXREF _ => true
  | _ => false
  end.

(** getClass, getHashDecl, getComplexHash, getComplexList, getComplexSoftList,
    getComplexReference *)
Definition spec_getClass (s : QoreTypeSpec) : option Z :=
  match s with QTS_CLASS qc => Some qc | _ => None end.
Definition spec_getHashDecl (s : QoreTypeSpec) : option Z :=
  match s with QTS_HASHDECL hd => Some hd | _ => None end.
Definition spec_getComplexHash (s : QoreTypeSpec) : option ty :=
  match s with QTS_COMPLEXHASH ti => Some ti | _ => None end.
Definition spec_getComplexList (s : QoreTypeSpec) : option ty :=
  match s with
  | QTS_COMPLEXLIST ti | QTS_COMPLEXSOFTLIST ti => Some ti
  | _ => None
  end.
Definition spec_getComplexSoftList (s : QoreTypeSpec) : option ty :=
  match s with QTS_COMPLEXSOFTLIST ti => Some ti | _ => None end.
Definition spec_getComplexReference (s : QoreTypeSpec) : option ty :=
  match s with
  | QTS_COMPLEXREF ti | QTS_COMPLEXHARDREF ti => Some ti
  | _ => None
  end.

(** The conversions of the types (the lambda functions of the accept vectors):
    what they do with a value is [apply_map] of TypeAccept. *)
Inductive q_type_map_t :=
| assignNothing
| map_parseHex | map_parseBase64 | map_parseBase64Url
| map_get_plain_hash | map_get_plain_list
| map_number_float | map_number_int | map_number_string | map_number_zero
| map_float_int | map_asBigInt | map_int_zero | map_asFloat | map_float_zero
| map_asBool | map_false | map_binary_string | map_binary_empty
| map_string_int | map_string_float | map_string_node | map_string_empty
| map_date_node | map_date_int | map_date_zero
| map_list_empty | map_list_value | map_auto_list_empty | map_auto_list_value
| map_timeout
| map_softlist (vti : ty) | map_softlist_or_nothing (vti : ty)
| map_new_list (vti : ty) | map_typed_list_empty (vti : ty).

Record QoreReturnSpec := Ret { r_spec : QoreTypeSpec; r_exact : bool }.
Record QoreAcceptSpec := Acc {
  a_spec : QoreTypeSpec;
  a_map : option q_type_map_t;
  a_exact : bool
}.

(** What the C++ object of a type has: its vectors, and the answers of its
    virtual functions needsScanImpl, canConvertToScalarImpl,
    hasDefaultValueImpl and getDefaultQoreValueImpl (the last two as an
    option). *)
Record QoreTypeInfo := TI {
  accept_vec : list QoreAcceptSpec;
  return_vec : list QoreReturnSpec;
  needsScanImpl : bool;
  canConvertToScalarImpl : bool;
  getDefaultQoreValueImpl : option value
}.

Definition acc (t : qore_type_t) : QoreAcceptSpec := Acc (QTS_TYPE t) None false.
Definition acc_exact (t : qore_type_t) : QoreAcceptSpec :=
  Acc (QTS_TYPE t) None true.
Definition acc_map (t : qore_type_t) (m : q_type_map_t) : QoreAcceptSpec :=
  Acc (QTS_TYPE t) (Some m) false.
Definition ret (t : qore_type_t) : QoreReturnSpec := Ret (QTS_TYPE t) false.
Definition ret_exact (t : qore_type_t) : QoreReturnSpec := Ret (QTS_TYPE t) true.

(** The two specifications that all "or nothing" types end with. *)
Definition or_nothing : list QoreAcceptSpec :=
  [acc NT_NOTHING; acc_map NT_NULL assignNothing].

(** ** The classes of types *)

Definition QoreAnyTypeInfo : QoreTypeInfo :=
  TI [acc NT_ALL] [ret NT_ALL] true true None.
Definition QoreAutoTypeInfo : QoreTypeInfo :=
  TI [acc NT_ALL] [ret NT_ALL] true true None.

Definition QoreClassTypeInfo (qc : Z) : QoreTypeInfo :=
  TI [Acc (QTS_CLASS qc) None true] [Ret (QTS_CLASS qc) true] true false None.
Definition QoreClassOrNothingTypeInfo (qc : Z) : QoreTypeInfo :=
  TI (Acc (QTS_CLASS qc) None false :: or_nothing)
     [Ret (QTS_CLASS qc) false; ret NT_NOTHING] true false None.

Definition QoreHashDeclTypeInfo (hd : Z) : QoreTypeInfo :=
  TI [Acc (QTS_HASHDECL hd) None true] [Ret (QTS_HASHDECL hd) true] true false
     (Some (VHash false (Some hd) None true [])).
Definition QoreHashDeclOrNothingTypeInfo (hd : Z) : QoreTypeInfo :=
  TI (Acc (QTS_HASHDECL hd) None false :: or_nothing)
     [Ret (QTS_HASHDECL hd) false; ret NT_NOTHING] true false None.

(** What the constructors QoreHashNode(valueTypeInfo) and
    QoreListNode(valueTypeInfo) make: the type is set unless the value type is
    [any]. *)
Definition new_hash (vti : ty) : value :=
  VHash false None (if decide (vti = anyTypeInfo) then None
                    else Some (ComplexHash vti)) true [].
Definition new_list (vti : ty) : value :=
  VList false (if decide (vti = anyTypeInfo) then None
               else Some (ComplexList vti)) true [].

Definition QoreComplexHashTypeInfo (vti : ty) : QoreTypeInfo :=
  TI [Acc (QTS_COMPLEXHASH vti) None true] [Ret (QTS_COMPLEXHASH vti) true]
     true false (Some (new_hash vti)).
Definition QoreComplexHashOrNothingTypeInfo (vti : ty) : QoreTypeInfo :=
  TI (Acc (QTS_COMPLEXHASH vti) None true :: or_nothing)
     [Ret (QTS_COMPLEXHASH vti) false; ret NT_NOTHING] true false None.
Definition QoreComplexListTypeInfo (vti : ty) : QoreTypeInfo :=
  TI [Acc (QTS_COMPLEXLIST vti) None true] [Ret (QTS_COMPLEXLIST vti) true]
     true false (Some (new_list vti)).
Definition QoreComplexListOrNothingTypeInfo (vti : ty) : QoreTypeInfo :=
  TI (Acc (QTS_COMPLEXLIST vti) None false :: or_nothing)
     [Ret (QTS_COMPLEXLIST vti) false; ret NT_NOTHING] true false None.

Definition QoreComplexSoftListTypeInfo (vti : ty) : QoreTypeInfo :=
  TI [Acc (QTS_COMPLEXSOFTLIST vti) (Some (map_softlist vti)) true;
      acc_map NT_LIST (map_new_list vti);
      acc_map NT_NOTHING (map_typed_list_empty vti)]
     [Ret (QTS_COMPLEXSOFTLIST vti) true] true false (Some (new_list vti)).
Definition QoreComplexSoftListOrNothingTypeInfo (vti : ty) : QoreTypeInfo :=
  TI (Acc (QTS_COMPLEXSOFTLIST vti) (Some (map_softlist_or_nothing vti)) true ::
      acc_map NT_LIST (map_new_list vti) :: or_nothing)
     [Ret (QTS_COMPLEXSOFTLIST vti) false; ret NT_NOTHING] true false None.
Definition QoreSoftAutoListTypeInfo : QoreTypeInfo :=
  TI [Acc (QTS_COMPLEXLIST autoTypeInfo) None true;
      acc_map NT_NOTHING map_auto_list_empty;
      acc_map NT_ALL map_auto_list_value]
     [Ret (QTS_COMPLEXLIST autoTypeInfo) true] true false
     (Some (new_list autoTypeInfo)).
Definition QoreSoftAutoListOrNothingTypeInfo : QoreTypeInfo :=
  TI [Acc (QTS_COMPLEXLIST autoTypeInfo) None false;
      acc NT_NOTHING; acc_map NT_NULL assignNothing;
      acc_map NT_ALL map_auto_list_value]
     [Ret (QTS_COMPLEXLIST autoTypeInfo) false; ret NT_NOTHING] true false
     (Some (new_list autoTypeInfo)).

Definition QoreHardReferenceTypeInfo : QoreTypeInfo :=
  TI [Acc QTS_HARDREF None true] [Ret QTS_HARDREF true] true false None.
Definition QoreHardReferenceOrNothingTypeInfo : QoreTypeInfo :=
  TI (Acc QTS_HARDREF None true :: or_nothing)
     [Ret QTS_HARDREF true; ret NT_NOTHING] true false None.
Definition QoreComplexHardReferenceTypeInfo (vti : ty) : QoreTypeInfo :=
  TI [Acc (QTS_COMPLEXHARDREF vti) None true]
     [Ret (QTS_COMPLEXHARDREF vti) true] true false None.
Definition QoreComplexHardReferenceOrNothingTypeInfo (vti : ty) : QoreTypeInfo :=
  TI (Acc (QTS_COMPLEXHARDREF vti) None true :: or_nothing)
     [Ret (QTS_COMPLEXHARDREF vti) true; ret NT_NOTHING] true false None.
Definition QoreComplexReferenceTypeInfo (vti : ty) : QoreTypeInfo :=
  TI [Acc (QTS_COMPLEXREF vti) None true] [Ret (QTS_COMPLEXREF vti) true]
     true false None.
Definition QoreComplexReferenceOrNothingTypeInfo (vti : ty) : QoreTypeInfo :=
  TI (Acc (QTS_COMPLEXREF vti) None true :: or_nothing)
     [Ret (QTS_COMPLEXREF vti) false; ret NT_NOTHING] true false None.

(** The base classes of the types with one type code; [scan], [scalar] and
    [dflt] are what the derived classes override. *)
Definition QoreBaseTypeInfo (t : qore_type_t) (scan scalar : bool)
    (dflt : option value) : QoreTypeInfo :=
  TI [acc_exact t] [ret_exact t] scan scalar dflt.
Definition QoreBaseOrNothingTypeInfo (t : qore_type_t) (scan scalar : bool)
    : QoreTypeInfo :=
  TI (acc t :: or_nothing) [ret t; ret NT_NOTHING] scan scalar None.

Definition QoreBigIntTypeInfo := QoreBaseTypeInfo NT_INT false true (Some (VInt 0)).
Definition QoreBigIntOrNothingTypeInfo := QoreBaseOrNothingTypeInfo NT_INT false true.
Definition QoreStringTypeInfo :=
  QoreBaseTypeInfo NT_STRING false true (Some (VString "")).
Definition QoreStringOrNothingTypeInfo :=
  QoreBaseOrNothingTypeInfo NT_STRING false true.
Definition QoreBoolTypeInfo :=
  QoreBaseTypeInfo NT_BOOLEAN false true (Some (VBool false)).
Definition QoreBoolOrNothingTypeInfo :=
  QoreBaseOrNothingTypeInfo NT_BOOLEAN false true.
Definition QoreBinaryTypeInfo :=
  QoreBaseTypeInfo NT_BINARY false false (Some (VBinary "")).
Definition QoreBinaryOrNothingTypeInfo :=
  QoreBaseOrNothingTypeInfo NT_BINARY false false.

Definition QoreHexBinaryTypeInfo : QoreTypeInfo :=
  TI [acc_exact NT_BINARY; acc_map NT_STRING map_parseHex]
     [ret_exact NT_BINARY] false false (Some (VBinary "")).
Definition QoreHexBinaryOrNothingTypeInfo : QoreTypeInfo :=
  TI (acc_exact NT_BINARY :: acc_map NT_STRING map_parseHex :: or_nothing)
     [ret NT_HASH; ret NT_NOTHING] false false None.
Definition QoreBase64BinaryTypeInfo : QoreTypeInfo :=
  TI [acc_exact NT_BINARY; acc_map NT_STRING map_parseBase64]
     [ret_exact NT_BINARY] false false (Some (VBinary "")).
Definition QoreBase64BinaryOrNothingTypeInfo : QoreTypeInfo :=
  TI (acc_exact NT_BINARY :: acc_map NT_STRING map_parseBase64 :: or_nothing)
     [ret NT_HASH; ret NT_NOTHING] false false None.
Definition QoreBase64UrlBinaryTypeInfo : QoreTypeInfo :=
  TI [acc_exact NT_BINARY; acc_map NT_STRING map_parseBase64Url]
     [ret_exact NT_BINARY] false false (Some (VBinary "")).
Definition QoreBase64UrlBinaryOrNothingTypeInfo : QoreTypeInfo :=
  TI (acc_exact NT_BINARY :: acc_map NT_STRING map_parseBase64Url :: or_nothing)
     [ret NT_HASH; ret NT_NOTHING] false false None.

Definition QoreObjectTypeInfo := QoreBaseTypeInfo NT_OBJECT true false None.
Definition QoreObjectOrNothingTypeInfo :=
  QoreBaseOrNothingTypeInfo NT_OBJECT true false.
Definition QoreDateTypeInfo := QoreBaseTypeInfo NT_DATE false true (Some (VDate 0)).
Definition QoreDateOrNothingTypeInfo := QoreBaseOrNothingTypeInfo NT_DATE false true.

(** The default values of [hash], [list] and [softlist] are the shared empty
    containers. *)
Definition emptyHash : value := VHash false None None false [].
Definition emptyList : value := VList false None false [].

Definition QoreHashTypeInfo : QoreTypeInfo :=
  TI [Acc (QTS_TYPE NT_HASH) (Some map_get_plain_hash) true] [ret_exact NT_HASH]
     true false (Some emptyHash).
Definition QoreEmptyHashTypeInfo : QoreTypeInfo :=
  TI [Acc (QTS_TYPE NT_HASH) (Some map_get_plain_hash) true]
     [Ret QTS_EMPTYHASH true] true false (Some emptyHash).
Definition QoreHashOrNothingTypeInfo : QoreTypeInfo :=
  TI (acc_map NT_HASH map_get_plain_hash :: or_nothing)
     [ret NT_HASH; ret NT_NOTHING] true false None.
Definition QoreListTypeInfo : QoreTypeInfo :=
  TI [Acc (QTS_TYPE NT_LIST) (Some map_get_plain_list) true] [ret_exact NT_LIST]
     true false (Some emptyList).
Definition QoreEmptyListTypeInfo : QoreTypeInfo :=
  TI [acc_exact NT_LIST] [Ret QTS_EMPTYLIST true] true false (Some emptyList).
Definition QoreListOrNothingTypeInfo : QoreTypeInfo :=
  TI (acc_map NT_LIST map_get_plain_list :: or_nothing)
     [ret NT_LIST; ret NT_NOTHING] true false None.

Definition QoreNothingTypeInfo := QoreBaseTypeInfo NT_NOTHING true false None.
Definition QoreNullTypeInfo := QoreBaseTypeInfo NT_NULL false false (Some VNull).
Definition QoreNullOrNothingTypeInfo := QoreBaseOrNothingTypeInfo NT_NULL false false.
Definition QoreClosureTypeInfo := QoreBaseTypeInfo NT_RUNTIME_CLOSURE true false None.
Definition QoreClosureOrNothingTypeInfo :=
  QoreBaseOrNothingTypeInfo NT_RUNTIME_CLOSURE true false.
Definition QoreCallReferenceTypeInfo := QoreBaseTypeInfo NT_FUNCREF false false None.
Definition QoreCallReferenceOrNothingTypeInfo :=
  QoreBaseOrNothingTypeInfo NT_FUNCREF false false.
Definition QoreReferenceTypeInfo := QoreBaseTypeInfo NT_REFERENCE false false None.
Definition QoreReferenceOrNothingTypeInfo :=
  QoreBaseOrNothingTypeInfo NT_REFERENCE false false.

Definition QoreNumberTypeInfo : QoreTypeInfo :=
  TI [acc_exact NT_NUMBER; acc_map NT_FLOAT map_number_float;
      acc_map NT_INT map_number_int] [ret_exact NT_NUMBER] false true
     (Some (VNumber "0")).
Definition QoreNumberOrNothingTypeInfo : QoreTypeInfo :=
  TI (acc NT_NUMBER :: acc_map NT_FLOAT map_number_float ::
      acc_map NT_INT map_number_int :: or_nothing)
     [ret NT_NUMBER; ret NT_NOTHING] false true None.
Definition QoreFloatTypeInfo : QoreTypeInfo :=
  TI [acc_exact NT_FLOAT; acc_map NT_INT map_float_int] [ret_exact NT_FLOAT]
     false true (Some (VFloat 0)).
Definition QoreFloatOrNothingTypeInfo : QoreTypeInfo :=
  TI (acc NT_FLOAT :: acc_map NT_INT map_float_int :: or_nothing)
     [ret NT_FLOAT; ret NT_NOTHING] false true None.
Definition QoreCodeTypeInfo : QoreTypeInfo :=
  TI [acc NT_RUNTIME_CLOSURE; acc NT_FUNCREF]
     [ret NT_RUNTIME_CLOSURE; ret NT_FUNCREF] true false None.
Definition QoreCodeOrNothingTypeInfo : QoreTypeInfo :=
  TI (acc NT_RUNTIME_CLOSURE :: acc NT_FUNCREF :: or_nothing)
     [ret NT_RUNTIME_CLOSURE; ret NT_FUNCREF; ret NT_NOTHING] true false None.
Definition QoreDataTypeInfo : QoreTypeInfo :=
  TI [acc NT_STRING; acc NT_BINARY] [ret NT_STRING; ret NT_BINARY]
     false true None.
Definition QoreDataOrNothingTypeInfo : QoreTypeInfo :=
  TI (acc NT_STRING :: acc NT_BINARY :: or_nothing)
     [ret NT_STRING; ret NT_BINARY; ret NT_NOTHING] false true None.

Definition QoreSoftBigIntTypeInfo : QoreTypeInfo :=
  TI [acc_exact NT_INT; acc_map NT_FLOAT map_asBigInt;
      acc_map NT_STRING map_asBigInt; acc_map NT_DATE map_asBigInt;
      acc_map NT_BOOLEAN map_asBigInt; acc_map NT_NUMBER map_asBigInt;
      acc_map NT_NULL map_int_zero] [ret_exact NT_INT] false true (Some (VInt 0)).
Definition QoreSoftBigIntOrNothingTypeInfo : QoreTypeInfo :=
  TI (acc NT_INT :: acc_map NT_FLOAT map_asBigInt ::
      acc_map NT_STRING map_asBigInt :: acc_map NT_DATE map_asBigInt ::
      acc_map NT_BOOLEAN map_asBigInt :: acc_map NT_NUMBER map_asBigInt ::
      or_nothing) [ret NT_INT; ret NT_NOTHING] false true None.
Definition QoreSoftFloatTypeInfo : QoreTypeInfo :=
  TI [acc_exact NT_FLOAT; acc_map NT_INT map_asFloat;
      acc_map NT_STRING map_asFloat; acc_map NT_DATE map_asFloat;
      acc_map NT_BOOLEAN map_asFloat; acc_map NT_NUMBER map_asFloat;
      acc_map NT_NULL map_float_zero] [ret_exact NT_FLOAT] false true
     (Some (VFloat 0)).
Definition QoreSoftFloatOrNothingTypeInfo : QoreTypeInfo :=
  TI (acc NT_FLOAT :: acc_map NT_INT map_asFloat ::
      acc_map NT_STRING map_asFloat :: acc_map NT_DATE map_asFloat ::
      acc_map NT_BOOLEAN map_asFloat :: acc_map NT_NUMBER map_asFloat ::
      or_nothing) [ret NT_FLOAT; ret NT_NOTHING] false true None.
Definition QoreSoftNumberTypeInfo : QoreTypeInfo :=
  TI [acc_exact NT_NUMBER; acc_map NT_FLOAT map_number_float;
      acc_map NT_INT map_number_int; acc_map NT_STRING map_number_string;
      acc_map NT_DATE map_number_float; acc_map NT_BOOLEAN map_number_float;
      acc_map NT_NULL map_number_zero] [ret_exact NT_NUMBER] false true
     (Some (VNumber "0")).
Definition QoreSoftNumberOrNothingTypeInfo : QoreTypeInfo :=
  TI (acc NT_NUMBER :: acc_map NT_FLOAT map_number_float ::
      acc_map NT_INT map_number_int :: acc_map NT_STRING map_number_string ::
      acc_map NT_DATE map_number_float :: acc_map NT_BOOLEAN map_number_float ::
      or_nothing) [ret NT_NUMBER; ret NT_NOTHING] false true None.
Definition QoreSoftBinaryTypeInfo : QoreTypeInfo :=
  TI [acc_exact NT_BINARY; acc_map NT_STRING map_binary_string;
      acc_map NT_NULL map_binary_empty] [ret_exact NT_BINARY] false false
     (Some (VBinary "")).
Definition QoreSoftBinaryOrNothingTypeInfo : QoreTypeInfo :=
  TI (acc_exact NT_BINARY :: acc_map NT_STRING map_binary_string :: or_nothing)
     [ret NT_BINARY; ret NT_NOTHING] false false None.
Definition QoreSoftBoolTypeInfo : QoreTypeInfo :=
  TI [acc_exact NT_BOOLEAN; acc_map NT_FLOAT map_asBool;
      acc_map NT_INT map_asBool; acc_map NT_STRING map_asBool;
      acc_map NT_DATE map_asBool; acc_map NT_NUMBER map_asBool;
      acc_map NT_NULL map_false] [ret_exact NT_BOOLEAN] false true
     (Some (VBool false)).
Definition QoreSoftBoolOrNothingTypeInfo : QoreTypeInfo :=
  TI (acc NT_BOOLEAN :: acc_map NT_FLOAT map_asBool ::
      acc_map NT_INT map_asBool :: acc_map NT_STRING map_asBool ::
      acc_map NT_DATE map_asBool :: acc_map NT_NUMBER map_asBool ::
      or_nothing) [ret NT_BOOLEAN; ret NT_NOTHING] false true None.
Definition QoreSoftStringTypeInfo : QoreTypeInfo :=
  TI [acc_exact NT_STRING; acc_map NT_BOOLEAN map_string_int;
      acc_map NT_FLOAT map_string_float; acc_map NT_INT map_string_int;
      acc_map NT_DATE map_string_node; acc_map NT_NUMBER map_string_node;
      acc_map NT_NULL map_string_empty] [ret_exact NT_STRING] false true
     (Some (VString "")).
Definition QoreSoftStringOrNothingTypeInfo : QoreTypeInfo :=
  TI (acc NT_STRING :: acc_map NT_BOOLEAN map_string_int ::
      acc_map NT_FLOAT map_string_float :: acc_map NT_INT map_string_int ::
      acc_map NT_DATE map_string_node :: acc_map NT_NUMBER map_string_node ::
      or_nothing) [ret NT_STRING; ret NT_NOTHING] false true None.
Definition QoreSoftDateTypeInfo : QoreTypeInfo :=
  TI [acc_exact NT_DATE; acc_map NT_STRING map_date_node;
      acc_map NT_BOOLEAN map_date_int; acc_map NT_FLOAT map_date_int;
      acc_map NT_INT map_date_int; acc_map NT_NUMBER map_date_node;
      acc_map NT_NULL map_date_zero] [ret_exact NT_DATE] false true
     (Some (VDate 0)).
Definition QoreSoftDateOrNothingTypeInfo : QoreTypeInfo :=
  TI (acc NT_DATE :: acc_map NT_STRING map_date_node ::
      acc_map NT_BOOLEAN map_date_int :: acc_map NT_FLOAT map_date_int ::
      acc_map NT_INT map_date_int :: acc_map NT_NUMBER map_date_node ::
      or_nothing) [ret NT_DATE; ret NT_NOTHING] false true None.
Definition QoreSoftListTypeInfo : QoreTypeInfo :=
  TI [Acc (QTS_TYPE NT_LIST) (Some map_get_plain_list) true;
      acc_map NT_NOTHING map_list_empty; acc_map NT_ALL map_list_value]
     [ret_exact NT_LIST] true false (Some emptyList).
Definition QoreSoftListOrNothingTypeInfo : QoreTypeInfo :=
  TI [acc_map NT_LIST map_get_plain_list; acc NT_NOTHING;
      acc_map NT_NULL assignNothing; acc_map NT_ALL map_list_value]
     [ret NT_LIST; ret NT_NOTHING] true false None.
Definition QoreTimeoutTypeInfo : QoreTypeInfo :=
  TI [acc NT_INT; acc_map NT_DATE map_timeout] [ret_exact NT_INT] false true
     (Some (VInt 0)).
Definition QoreTimeoutOrNothingTypeInfo : QoreTypeInfo :=
  TI (acc NT_INT :: acc_map NT_DATE map_timeout :: or_nothing)
     [ret NT_INT; ret NT_NOTHING] false true None.
Definition QoreIntOrFloatTypeInfo : QoreTypeInfo :=
  TI [acc NT_INT; acc NT_FLOAT] [ret NT_INT; ret NT_FLOAT] false true None.
Definition QoreIntFloatOrNumberTypeInfo : QoreTypeInfo :=
  TI [acc NT_INT; acc NT_FLOAT; acc NT_NUMBER]
     [ret NT_INT; ret NT_FLOAT; ret NT_NUMBER] false true None.
Definition QoreFloatOrNumberTypeInfo : QoreTypeInfo :=
  TI [acc NT_FLOAT; acc NT_NUMBER] [ret NT_FLOAT; ret NT_NUMBER]
     false true None.

(** The static objects of the types (the variables static...TypeInfo). *)
Definition static_type (b : base_type) : QoreTypeInfo :=
  match b with
  | any_ => QoreAnyTypeInfo
  | auto_ => QoreAutoTypeInfo
  | bigInt_ => QoreBigIntTypeInfo
  | float_ => QoreFloatTypeInfo
  | bool_ => QoreBoolTypeInfo
  | string_ => QoreStringTypeInfo
  | binary_ => QoreBinaryTypeInfo
  | date_ => QoreDateTypeInfo
  | object_ => QoreObjectTypeInfo
  | hash_ => QoreHashTypeInfo
  | emptyHash_ => QoreEmptyHashTypeInfo
  | list_ => QoreListTypeInfo
  | emptyList_ => QoreEmptyListTypeInfo
  | nothing_ => QoreNothingTypeInfo
  | null_ => QoreNullTypeInfo
  | number_ => QoreNumberTypeInfo
  | runTimeClosure_ => QoreClosureTypeInfo
  | callReference_ => QoreCallReferenceTypeInfo
  | reference_ => QoreReferenceTypeInfo
  | hardReference_ => QoreHardReferenceTypeInfo
  | code_ => QoreCodeTypeInfo
  | hexBinary_ => QoreHexBinaryTypeInfo
  | base64Binary_ => QoreBase64BinaryTypeInfo
  | base64UrlBinary_ => QoreBase64UrlBinaryTypeInfo
  | softBinary_ => QoreSoftBinaryTypeInfo
  | softBigInt_ => QoreSoftBigIntTypeInfo
  | softFloat_ => QoreSoftFloatTypeInfo
  | softNumber_ => QoreSoftNumberTypeInfo
  | softBool_ => QoreSoftBoolTypeInfo
  | softString_ => QoreSoftStringTypeInfo
  | softDate_ => QoreSoftDateTypeInfo
  | softList_ => QoreSoftListTypeInfo
  | data_ => QoreDataTypeInfo
  | timeout_ => QoreTimeoutTypeInfo
  | bigIntOrFloat_ => QoreIntOrFloatTypeInfo
  | bigIntFloatOrNumber_ => QoreIntFloatOrNumberTypeInfo
  | floatOrNumber_ => QoreFloatOrNumberTypeInfo
  | bigIntOrNothing_ => QoreBigIntOrNothingTypeInfo
  | floatOrNothing_ => QoreFloatOrNothingTypeInfo
  | numberOrNothing_ => QoreNumberOrNothingTypeInfo
  | stringOrNothing_ => QoreStringOrNothingTypeInfo
  | boolOrNothing_ => QoreBoolOrNothingTypeInfo
  | binaryOrNothing_ => QoreBinaryOrNothingTypeInfo
  | objectOrNothing_ => QoreObjectOrNothingTypeInfo
  | dateOrNothing_ => QoreDateOrNothingTypeInfo
  | hashOrNothing_ => QoreHashOrNothingTypeInfo
  | listOrNothing_ => QoreListOrNothingTypeInfo
  | nullOrNothing_ => QoreNullOrNothingTypeInfo
  | codeOrNothing_ => QoreCodeOrNothingTypeInfo
  | closureOrNothing_ => QoreClosureOrNothingTypeInfo
  | callReferenceOrNothing_ => QoreCallReferenceOrNothingTypeInfo
  | dataOrNothing_ => QoreDataOrNothingTypeInfo
  | referenceOrNothing_ => QoreReferenceOrNothingTypeInfo
  | hardReferenceOrNothing_ => QoreHardReferenceOrNothingTypeInfo
  | hexBinaryOrNothing_ => QoreHexBinaryOrNothingTypeInfo
  | base64BinaryOrNothing_ => QoreBase64BinaryOrNothingTypeInfo
  | base64UrlBinaryOrNothing_ => QoreBase64UrlBinaryOrNothingTypeInfo
  | softBinaryOrNothing_ => QoreSoftBinaryOrNothingTypeInfo
  | softBigIntOrNothing_ => QoreSoftBigIntOrNothingTypeInfo
  | softFloatOrNothing_ => QoreSoftFloatOrNothingTypeInfo
  | softNumberOrNothing_ => QoreSoftNumberOrNothingTypeInfo
  | softBoolOrNothing_ => QoreSoftBoolOrNothingTypeInfo
  | softStringOrNothing_ => QoreSoftStringOrNothingTypeInfo
  | softDateOrNothing_ => QoreSoftDateOrNothingTypeInfo
  | softListOrNothing_ => QoreSoftListOrNothingTypeInfo
  | timeoutOrNothing_ => QoreTimeoutOrNothingTypeInfo
  end.

(** The object of a type. *)
Definition type_info (T : ty) : QoreTypeInfo :=
  match T with
  | Base b => static_type b
  | ClassT qc => QoreClassTypeInfo qc
  | ClassOrNothingT qc => QoreClassOrNothingTypeInfo qc
  | HashDeclT hd => QoreHashDeclTypeInfo hd
  | HashDeclOrNothingT hd => QoreHashDeclOrNothingTypeInfo hd
  | ComplexHash U => QoreComplexHashTypeInfo U
  | ComplexHashOrNothing U => QoreComplexHashOrNothingTypeInfo U
  | ComplexList U => QoreComplexListTypeInfo U
  | ComplexListOrNothing U => QoreComplexListOrNothingTypeInfo U
  | ComplexSoftList U =>
      if decide (U = autoTypeInfo) then QoreSoftAutoListTypeInfo
      else QoreComplexSoftListTypeInfo U
  | ComplexSoftListOrNothing U =>
      if decide (U = autoTypeInfo) then QoreSoftAutoListOrNothingTypeInfo
      else QoreComplexSoftListOrNothingTypeInfo U
  | ComplexHardReference U => QoreComplexHardReferenceTypeInfo U
  | ComplexHardReferenceOrNothing U => QoreComplexHardReferenceOrNothingTypeInfo U
  | ComplexReference U => QoreComplexReferenceTypeInfo U
  | ComplexReferenceOrNothing U => QoreComplexReferenceOrNothingTypeInfo U
  end.

Definition accepts (T : ty) : list QoreAcceptSpec := accept_vec (type_info T).
Definition returns (T : ty) : list QoreReturnSpec := return_vec (type_info T).

(** The type in a specification (member [ti] of the union), and the value type
    of a complex type: all specifications of a type have the same one. *)
Definition spec_ti (s : QoreTypeSpec) : option ty :=
  match s with
  | QTS_COMPLEXHASH U | QTS_COMPLEXLIST U | QTS_COMPLEXHARDREF U
  | QTS_COMPLEXREF U | QTS_COMPLEXSOFTLIST U => Some U
  | _ => None
  end.
Definition value_type (T : ty) : option ty :=
  match T with
  | ComplexHash U | ComplexHashOrNothing U | ComplexList U
  | ComplexListOrNothing U | ComplexSoftList U | ComplexSoftListOrNothing U
  | ComplexHardReference U | ComplexHardReferenceOrNothing U
  | ComplexReference U | ComplexReferenceOrNothing U => Some U
  | _ => None
  end.

(** ** Queries *)

(** QoreTypeInfo::hasType: [any] and [auto] count as no type. *)
Definition hasType (T : ty) : bool :=
  match accepts T with
  | a :: _ => bool_decide (spec_getType (a_spec a) <> NT_ALL)
  | [] => false
  end.
Definition hasType_opt (T : option ty) : bool :=
  match T with Some T => hasType T | None => false end.

(** QoreTypeInfo::isComplex, hasComplexType *)
Definition isComplex (T : ty) : bool :=
  existsb (fun r => spec_isComplex (r_spec r)) (returns T).
Definition hasComplexType (T : ty) : bool :=
  bool_decide (T = autoTypeInfo) || isComplex T.

(** QoreTypeInfo::isType *)
Definition isType (T : ty) (t : qore_type_t) : bool :=
  match returns T with
  | [r] => bool_decide (t = spec_getType (r_spec r))
  | _ => false
  end.

(** QoreTypeInfo::needsScan *)
Definition needsScan (T : ty) : bool :=
  if hasType T then needsScanImpl (type_info T) else true.

(** QoreTypeInfo::getDefaultQoreValue, with hasDefaultValue *)
Definition getDefaultQoreValue (T : ty) : option value :=
  getDefaultQoreValueImpl (type_info T).

(** The single return specification of a type that has one. *)
Definition unique_return (T : ty) : option QoreTypeSpec :=
  if hasType T then
    match returns T with [r] => Some (r_spec r) | _ => None end
  else None.

(** QoreTypeInfo::getUniqueReturnClass, getUniqueReturnHashDecl,
    getUniqueReturnComplexHash, getUniqueReturnComplexList,
    getUniqueReturnComplexSoftList, getUniqueReturnComplexReference *)
Definition getUniqueReturnClass (T : ty) : option Z :=
  s ← unique_return T; spec_getClass s.
Definition getUniqueReturnHashDecl (T : ty) : option Z :=
  s ← unique_return T; spec_getHashDecl s.
Definition getUniqueReturnComplexHash (T : ty) : option ty :=
  s ← unique_return T;
  if decide (T = autoHashTypeInfo) then Some autoTypeInfo else spec_getComplexHash s.
Definition getUniqueReturnComplexList (T : ty) : option ty :=
  s ← unique_return T;
  if decide (T = autoListTypeInfo \/ T = softAutoListTypeInfo)
  then Some autoTypeInfo else spec_getComplexList s.
Definition getUniqueReturnComplexSoftList (T : ty) : option ty :=
  s ← unique_return T;
  if decide (T = softAutoListTypeInfo) then Some autoTypeInfo
  else spec_getComplexSoftList s.
Definition getUniqueReturnComplexReference (T : ty) : option ty :=
  s ← unique_return T; spec_getComplexReference s.

(** The first return specification of a type. *)
Definition first_return (T : ty) : option QoreTypeSpec :=
  if hasType T then r_spec <$> head (returns T) else None.

(** QoreTypeInfo::getTypedHash, getReturnClass *)
Definition getTypedHash (T : ty) : option Z := s ← first_return T; spec_getHashDecl s.
Definition getReturnClass (T : ty) : option Z := s ← first_return T; spec_getClass s.

(** QoreTypeInfo::getComplexHashValueType, getComplexListValueType *)
Definition getComplexHashValueType (T : ty) : option ty :=
  s ← first_return T;
  if decide (T = autoHashTypeInfo \/ T = autoHashOrNothingTypeInfo)
  then Some autoTypeInfo else spec_getComplexHash s.
Definition getComplexListValueType (T : ty) : option ty :=
  s ← first_return T;
  if decide (T = autoListTypeInfo \/ T = autoListOrNothingTypeInfo)
  then Some autoTypeInfo else spec_getComplexList s.

(** qore_list_private::getValueTypeInfo, qore_hash_private::getValueTypeInfo *)
Definition list_getValueTypeInfo (complexTypeInfo : option ty) : option ty :=
  T ← complexTypeInfo; getComplexListValueType T.
Definition hash_getValueTypeInfo (complexTypeInfo : option ty) : option ty :=
  T ← complexTypeInfo; getComplexHashValueType T.

(** The functions that return complex types. *)
Definition qore_get_complex_hash_type (vti : ty) : ty :=
  if decide (vti = anyTypeInfo) then hashTypeInfo else ComplexHash vti.
Definition qore_get_complex_hash_or_nothing_type (vti : ty) : ty :=
  if decide (vti = anyTypeInfo) then Base hashOrNothing_ else ComplexHashOrNothing vti.
Definition qore_get_complex_list_type (vti : ty) : ty :=
  if decide (vti = anyTypeInfo) then listTypeInfo else ComplexList vti.
Definition qore_get_complex_list_or_nothing_type (vti : ty) : ty :=
  if decide (vti = anyTypeInfo) then Base listOrNothing_ else ComplexListOrNothing vti.
Definition qore_get_complex_softlist_type (vti : ty) : ty :=
  if decide (vti = anyTypeInfo) then Base softList_ else ComplexSoftList vti.
Definition qore_get_complex_softlist_or_nothing_type (vti : ty) : ty :=
  if decide (vti = anyTypeInfo) then Base softListOrNothing_
  else ComplexSoftListOrNothing vti.
Definition qore_get_complex_hard_reference_type (vti : ty) : ty :=
  ComplexHardReference vti.
Definition qore_get_complex_reference_type (vti : ty) : ty := ComplexReference vti.
Definition qore_get_complex_reference_or_nothing_type (vti : ty) : ty :=
  ComplexReferenceOrNothing vti.

(** getTypeInfoForType: the map that init_qore_types fills; entries that are
    written twice have the last value. *)
Definition getTypeInfoForType (t : qore_type_t) : ty :=
  match t with
  | NT_NOTHING => nothingTypeInfo
  | NT_INT => Base bigInt_
  | NT_FLOAT => Base float_
  | NT_STRING => Base string_
  | NT_DATE => Base date_
  | NT_BOOLEAN => Base bool_
  | NT_NULL => Base null_
  | NT_BINARY => Base binary_
  | NT_LIST => listTypeInfo
  | NT_HASH => hashTypeInfo
  | NT_OBJECT => Base object_
  | NT_NUMBER => Base number_
  | NT_REFERENCE => Base reference_
  | NT_FUNCREF | NT_RUNTIME_CLOSURE => Base code_
  | NT_ALL => autoTypeInfo
  | NT_WEAKREF | NT_WEAKREF_HASH | NT_WEAKREF_LIST | NT_POINTER_BITS => anyTypeInfo
  end.

(** QoreTypeSpec::getTypeInfo and getBaseTypeInfo *)
Definition spec_getTypeInfo (s : QoreTypeSpec) : ty :=
  match s with
  | QTS_HASHDECL hd => HashDeclT hd
  | QTS_COMPLEXLIST U | QTS_COMPLEXSOFTLIST U => qore_get_complex_list_type U
  | QTS_COMPLEXHASH U => qore_get_complex_hash_type U
  | QTS_COMPLEXHARDREF U => qore_get_complex_hard_reference_type U
  | QTS_COMPLEXREF U => qore_get_complex_reference_type U
  | QTS_CLASS qc => ClassT qc
  | QTS_TYPE t => getTypeInfoForType t
  | QTS_HARDREF => Base reference_
  | QTS_EMPTYLIST => Base emptyList_
  | QTS_EMPTYHASH => Base emptyHash_
  end.
Definition getBaseTypeInfo (s : QoreTypeSpec) : ty :=
  match s with
  | QTS_HASHDECL _ | QTS_COMPLEXHASH _ => hashTypeInfo
  | QTS_COMPLEXLIST _ | QTS_COMPLEXSOFTLIST _ => listTypeInfo
  | QTS_CLASS _ => Base object_
  | QTS_HARDREF | QTS_COMPLEXHARDREF _ | QTS_COMPLEXREF _ => Base reference_
  | QTS_TYPE t => getTypeInfoForType t
  | QTS_EMPTYLIST => Base emptyList_
  | QTS_EMPTYHASH => Base emptyHash_
  end.

(** QoreValue::getTypeInfo, with getTypeInfoForValue and the functions
    getTypeInfo of hashes and lists: the type that a value has by itself. *)
Definition getTypeInfo (n : value) : ty :=
  match n with
  | VObject _ cls _ _ => ClassT cls
  | VHash _ (Some hd) _ _ _ => HashDeclT hd
  | VHash _ None (Some T) _ _ => T
  | VHash _ None None _ _ => hashTypeInfo
  | VList _ (Some T) _ _ => T
  | VList _ None _ _ => listTypeInfo
  | VRef _ T => T
  | n => getTypeInfoForType (getType n)
  end.
