(* ===== verification/TypeMatch.v ===== *)
(** * Matching of types

    The comparison of types in lib/QoreTypeInfo.cpp and QoreTypeInfo.h: the
    equality of types, the test if a value of one type may be assigned to an
    lvalue of another one (parseAccepts, with QoreTypeSpec::match), "or nothing"
    types, and the common type of several values (matchCommonType). *)
From S2P Require Import Prelude TypeInfo.

(** What the type system takes from other parts: the parse option
    PO_STRICT_TYPES, the equality of hash declarations (typed_hash_decl_private)
    and the functions of classes (QoreClass.cpp; [ClassAccess] has an instance).
    Classes are known by the number of their object. *)
Class TypeEnv := {
  (** parse_get_parse_options() & PO_STRICT_TYPES *)
  strict_types : bool;
  (** typed_hash_decl_private::equal *)
  hd_equal : Z -> Z -> bool;
  (** qore_class_private::equal *)
  class_equal : Z -> Z -> bool;
  (** [class_parse_check t u may_not_match]: parseCheckCompatibleClass on class
      t with the class u that is expected *)
  class_parse_check : Z -> Z -> bool -> qore_type_result_e * bool;
  (** [class_get u o]: o.getClass(u, priv): the class u in the hierarchy of
      the class o of an object, with the flag of private access *)
  class_get : Z -> Z -> option bool;
  (** qore_class_private::runtimeCheckPrivateClassAccess in the current class *)
  class_private_access : Z -> bool;
  (** [class_runtime_check u o]: runtimeCheckCompatibleClass on class u with
      the class o of an object *)
  class_runtime_check : Z -> Z -> qore_type_result_e
}.

Section Match.
Context {TE : TypeEnv}.

(** ** Equality *)

(** QoreTypeSpec::operator==, where [eq] is QoreTypeInfo::equal on the value
    types. *)
Definition spec_eq_ (eq : ty -> bool) (s t : QoreTypeSpec) : bool :=
  match s, t with
  | QTS_TYPE a, QTS_TYPE b => bool_decide (a = b)
  | QTS_EMPTYLIST, QTS_EMPTYLIST => true
  | QTS_EMPTYHASH, QTS_EMPTYHASH => true
  | QTS_CLASS a, QTS_CLASS b => class_equal a b
  | QTS_HASHDECL a, QTS_HASHDECL b => hd_equal a b
  | QTS_COMPLEXHASH _, QTS_COMPLEXHASH b => eq b
  | QTS_COMPLEXLIST _, QTS_COMPLEXLIST b => eq b
  | QTS_COMPLEXSOFTLIST _, QTS_COMPLEXSOFTLIST b => eq b
  | QTS_COMPLEXHARDREF _, QTS_COMPLEXHARDREF b => eq b
  | QTS_COMPLEXREF _, QTS_COMPLEXREF b => eq b
  | QTS_HARDREF, QTS_HARDREF => true
  | _, _ => false
  end.

(** typespec_vec_compare *)
Fixpoint typespec_vec_compare (eq : ty -> bool) (a b : list QoreTypeSpec) : bool :=
  match a, b with
  | [], [] => true
  | s :: a, t :: b => spec_eq_ eq s t && typespec_vec_compare eq a b
  | _, _ => false
  end.

Definition accept_specs (T : ty) : list QoreTypeSpec := a_spec <$> accepts T.
Definition return_specs (T : ty) : list QoreTypeSpec := r_spec <$> returns T.

(** QoreTypeInfo::equal *)
Fixpoint equal (a b : ty) {struct a} : bool :=
  let eq := match a with
            | ComplexHash U | ComplexHashOrNothing U | ComplexList U
            | ComplexListOrNothing U | ComplexSoftList U
            | ComplexSoftListOrNothing U | ComplexHardReference U
            | ComplexHardReferenceOrNothing U | ComplexReference U
            | ComplexReferenceOrNothing U => equal U
            | _ => fun _ => false
            end in
  if decide (a = b) then true
  else if hasType a && hasType b
  then typespec_vec_compare eq (accept_specs a) (accept_specs b) &&
       typespec_vec_compare eq (return_specs a) (return_specs b)
  else negb (hasType a || hasType b).

Definition equal_opt (a : ty) (b : option ty) : bool :=
  match b with Some b => equal a b | None => negb (hasType a) end.

Definition spec_eq (s t : QoreTypeSpec) : bool :=
  spec_eq_ (match spec_ti s with Some U => equal U | None => fun _ => false end) s t.

(** QoreTypeInfo::superSetOf (the member function: the specifications of [t] are
    a prefix of those of [a], in the accept and in the return vector) and the
    static one, for pointers that may be null. *)
Fixpoint spec_prefix (t a : list QoreTypeSpec) : bool :=
  match t, a with
  | [], _ => true
  | s :: t, r :: a => spec_eq s r && spec_prefix t a
  | _ :: _, [] => false
  end.
Definition superSetOf_ (a t : ty) : bool :=
  spec_prefix (accept_specs t) (accept_specs a) &&
  spec_prefix (return_specs t) (return_specs a).
Definition superSetOf (a : option ty) (t : ty) : bool :=
  match a with
  | Some a => if hasType a then (if hasType t then superSetOf_ a t else false)
              else hasType t
  | None => hasType t
  end.

(** ** Match by type code *)

(** QoreTypeSpec::matchType; [sub] is parseAcceptsReturns of the value type,
    [has] its hasType. *)
Definition matchType_ (has sub : bool) (s : QoreTypeSpec) (t : qore_type_t)
    : qore_type_result_e :=
  match s with
  | QTS_CLASS _ => if decide (t = NT_OBJECT) then QTI_IDENT else QTI_NOT_EQUAL
  | QTS_HASHDECL _ | QTS_COMPLEXHASH _ =>
      if decide (t = NT_HASH) then QTI_IDENT else QTI_NOT_EQUAL
  | QTS_COMPLEXLIST _ => if decide (t = NT_LIST) then QTI_IDENT else QTI_NOT_EQUAL
  | QTS_COMPLEXSOFTLIST _ =>
      if decide (t = NT_LIST) then QTI_IDENT
      else if sub then QTI_NEAR else QTI_NOT_EQUAL
  | QTS_COMPLEXHARDREF _ | QTS_HARDREF =>
      if decide (t = NT_REFERENCE) then QTI_IDENT else QTI_NOT_EQUAL
  | QTS_COMPLEXREF _ =>
      if decide (t = NT_REFERENCE) then QTI_NEAR
      else if has then (if sub then QTI_AMBIGUOUS else QTI_NOT_EQUAL)
      else QTI_WILDCARD
  | QTS_TYPE _ | QTS_EMPTYLIST | QTS_EMPTYHASH =>
      let u := union_t s in
      if decide (u = NT_ALL \/ u = NT_REFERENCE) then QTI_WILDCARD
      else if decide (u = t) then QTI_IDENT else QTI_NOT_EQUAL
  end.

(** QoreTypeInfo::parseAcceptsReturns (static) *)
Fixpoint parseAcceptsReturns (T : ty) (t : qore_type_t) {struct T} : bool :=
  let '(has, sub) := match T with
             | ComplexHash U | ComplexHashOrNothing U | ComplexList U
             | ComplexListOrNothing U | ComplexSoftList U
             | ComplexSoftListOrNothing U | ComplexHardReference U
             | ComplexHardReferenceOrNothing U | ComplexReference U
             | ComplexReferenceOrNothing U => (hasType U, parseAcceptsReturns U t)
             | _ => (false, false)
             end in
  let m s := bool_decide (matchType_ has sub s t <> QTI_NOT_EQUAL) in
  if hasType T then existsb m (accept_specs T) && existsb m (return_specs T)
  else true.

Definition matchType (s : QoreTypeSpec) (t : qore_type_t) : qore_type_result_e :=
  match spec_ti s with
  | Some U => matchType_ (hasType U) (parseAcceptsReturns U t) s t
  | None => matchType_ false false s t
  end.

(** ** Match of specifications *)

(** The output parameters of the matching functions. *)
Record match_state := MS {
  may_not_match : bool;
  may_need_filter : bool;
  max_result : qore_type_result_e
}.
Definition set_may (b : bool) (st : match_state) : match_state :=
  MS b (may_need_filter st) (max_result st).
Definition set_filter (b : bool) (st : match_state) : match_state :=
  MS (may_not_match st) b (max_result st).
Definition set_max (r : qore_type_result_e) (st : match_state) : match_state :=
  MS (may_not_match st) (may_need_filter st) r.
Definition mresult : Type := qore_type_result_e * match_state.

(** [max_result = rv > QTI_NOT_EQUAL ? QTI_IDENT : rv] *)
Definition max_of (r : qore_type_result_e) : qore_type_result_e :=
  if decide (qti_rank QTI_NOT_EQUAL < qti_rank r) then QTI_IDENT else r.
Definition with_max (m : mresult) : mresult := (m.1, set_max (max_of m.1) m.2).

(** QoreTypeSpec::checkMatchType *)
Definition checkMatchType (s t : QoreTypeSpec) (st : match_state) : mresult :=
  let ot := spec_getType t in
  let u := union_t s in
  if decide (u = NT_ALL) then
    let rv := if decide (ot = NT_ALL) then QTI_NEAR else QTI_WILDCARD in
    (rv, set_max rv st)
  else if decide (ot = NT_ALL) then
    if strict_types then (QTI_NOT_EQUAL, set_max QTI_NOT_EQUAL st)
    else (QTI_AMBIGUOUS, set_max QTI_IDENT (set_may true st))
  else if decide (u = ot) then
    match t with
    | QTS_TYPE _ | QTS_EMPTYLIST | QTS_EMPTYHASH => (QTI_IDENT, set_max QTI_IDENT st)
    | _ => if decide (u = NT_LIST \/ u = NT_HASH)
           then (QTI_NEAR, set_max QTI_NEAR st)
           else (QTI_IDENT, set_max QTI_IDENT st)
    end
  else (QTI_NOT_EQUAL, set_max QTI_NOT_EQUAL st).

(** The loops over the specifications of a reference target, in
    tryMatchReferenceType and in match: the best result, and [may_not_match] if
    one of them does not match. *)
Fixpoint best_match (m : QoreTypeSpec -> match_state -> mresult)
    (l : list QoreTypeSpec) (rv : qore_type_result_e) (st : match_state) : mresult :=
  match l with
  | [] => (rv, st)
  | s :: l =>
      let '(res, st1) := m s (set_max QTI_NOT_EQUAL st) in
      let may := may_not_match st1 || bool_decide (res = QTI_NOT_EQUAL) in
      let better := bool_decide (qti_rank rv < qti_rank res) in
      let mx := if better && bool_decide (qti_rank (max_result st) <
                                          qti_rank (max_result st1))
                then max_result st1 else max_result st in
      best_match m l (if better then res else rv)
        (MS may (may_need_filter st1) mx)
  end.
Definition at_most_ambiguous (n : nat) (rv : qore_type_result_e) : qore_type_result_e :=
  if decide (n = 1%nat) then rv
  else if decide (qti_rank QTI_AMBIGUOUS < qti_rank rv) then QTI_AMBIGUOUS else rv.

(** QoreTypeSpec::tryMatchReferenceType: only [may_not_match] goes out. *)
Definition tryMatchReferenceType (s t : QoreTypeSpec) (st : match_state) : mresult :=
  match t with
  | QTS_TYPE q =>
      (if decide (q = NT_REFERENCE) then QTI_AMBIGUOUS else QTI_NOT_EQUAL, st)
  | QTS_COMPLEXREF U =>
      let rs := return_specs U in
      if decide (rs = []) then (QTI_AMBIGUOUS, st) else
      let '(rv, st1) := best_match (checkMatchType s) rs QTI_NOT_EQUAL st in
      (at_most_ambiguous (length rs) rv, set_max (max_result st) st1)
  | _ => (QTI_NOT_EQUAL, st)
  end.

(** ** Match of types

    [match] of specifications and the functions on types call each other: the
    functions on types are written with [m] for QoreTypeSpec::match. *)
Section Open.
Context (m : QoreTypeSpec -> QoreTypeSpec -> bool -> match_state -> mresult).

Definition need_filter (a : QoreAcceptSpec) (st : match_state) : match_state :=
  match a_map a with Some _ => set_filter true st | None => st end.

(** QoreTypeInfo::parseAcceptsIntern; [tnm] is [t_no_match]. *)
Definition parseAcceptsIntern (a : QoreAcceptSpec) (r : QoreReturnSpec)
    (known tnm ok : bool) (st : match_state) : mresult * bool * bool :=
  let '(res, st) := m (a_spec a) (r_spec r) known st in
  if decide (res = QTI_NOT_EQUAL) then (QTI_NOT_EQUAL, st, tnm, ok)
  else if decide (res = QTI_IDENT /\ a_exact a = true /\ r_exact r = true)
  then (QTI_IDENT, need_filter a st, tnm, ok)
  else
    let st := need_filter a st in
    if tnm then
      if ok then (QTI_NOT_EQUAL, st, false, true)
      else if may_not_match st then (res, st, false, true)
      else (QTI_NOT_EQUAL, st, false, true)
    else (QTI_NOT_EQUAL, st, tnm, ok).

(** The inner loop of parseAccepts, over what is accepted: with [Some r] the
    function returns r. *)
Fixpoint accept_loop (l : list QoreAcceptSpec) (r : QoreReturnSpec)
    (known tnm ok : bool) (st : match_state)
    : option qore_type_result_e * match_state * bool * bool :=
  match l with
  | [] => (None, st, tnm, ok)
  | a :: l =>
      let '(res, st1, tnm, ok) :=
        parseAcceptsIntern a r known tnm ok (set_max QTI_NOT_EQUAL st) in
      match res with
      | QTI_IDENT => (Some res, st1, tnm, ok)
      | QTI_NOT_EQUAL => accept_loop l r known tnm ok (set_max (max_result st) st1)
      | _ => (if may_not_match st1 then Some res else None, st1, tnm, ok)
      end
  end.

(** The outer loop, over what the other type returns. *)
Fixpoint return_loop (T : ty) (l : list QoreReturnSpec) (known ok : bool)
    (st : match_state) : mresult :=
  match l with
  | [] => if ok then (QTI_AMBIGUOUS, st) else (QTI_NOT_EQUAL, set_may false st)
  | r :: l =>
      let '(res, st, tnm, ok) := accept_loop (accepts T) r known true ok st in
      match res with
      | Some res => (res, st)
      | None =>
          if tnm && negb (may_not_match st) then
            if strict_types then (QTI_NOT_EQUAL, set_max QTI_NOT_EQUAL st)
            else if ok then (QTI_AMBIGUOUS, set_may true st)
            else return_loop T l known ok (set_may true st)
          else return_loop T l known ok st
      end
  end.

(** QoreTypeInfo::parseAccepts (the member function) *)
Definition parseAccepts_ (T S : ty) (known : bool) (st : match_state) : mresult :=
  if decide (length (accepts T) < length (returns S))%nat then
    if strict_types then (QTI_NOT_EQUAL, set_max QTI_NOT_EQUAL st)
    else return_loop T (returns S) known false (set_may true st)
  else return_loop T (returns S) known false st.

(** QoreTypeInfo::parseAccepts (static, with all parameters) *)
Definition parseAccepts6 (T S : ty) (known : bool) (st : match_state) : mresult :=
  if decide (T = autoTypeInfo) then (QTI_WILDCARD, set_max QTI_WILDCARD st)
  else if negb (hasType T) then
    (QTI_WILDCARD, set_max QTI_WILDCARD
       (set_filter (may_need_filter st || isComplex S) st))
  else if negb (hasType S) then
    let st := set_filter (may_need_filter st ||
                existsb (fun a => bool_decide (is_Some (a_map a))) (accepts T)) st in
    if strict_types then (QTI_NOT_EQUAL, set_max QTI_NOT_EQUAL st)
    else (QTI_AMBIGUOUS, set_may true (set_max QTI_IDENT st))
  else parseAccepts_ T S known st.

(** QoreTypeInfo::parseAccepts (static, without [max_result]) *)
Definition parseAccepts4 (T S : ty) (st : match_state) : mresult :=
  if decide (T = S) then (QTI_IDENT, st)
  else let '(r, st1) := parseAccepts6 T S false (set_max QTI_NOT_EQUAL st) in
       (r, set_max (max_result st) st1).

(** match_type, for the value types of complex hashes and lists *)
Definition match_type (T S : ty) (st : match_state) : mresult :=
  let '(res, st) := parseAccepts4 T S st in
  if may_not_match st && strict_types then (QTI_NOT_EQUAL, st)
  else if decide (res = QTI_IDENT) then
    if negb (may_need_filter st) && negb (equal T S)
    then (QTI_AMBIGUOUS, set_filter true st)
    else (res, st)
  else (res, st).

(** The comparison of vectors in runtimeTypeMatch: nothing worse than NEAR. *)
Fixpoint near_match (l k : list QoreTypeSpec) (rc : qore_type_result_e)
    : qore_type_result_e :=
  match l, k with
  | s :: l, t :: k =>
      let res := (m s t false (MS false false QTI_NOT_EQUAL)).1 in
      if decide (qti_rank res < qti_rank QTI_NEAR) then QTI_NOT_EQUAL
      else near_match l k (if decide (qti_rank res < qti_rank rc) then res else rc)
  | _, _ => rc
  end.

(** QoreTypeInfo::runtimeTypeMatch (the member function, and the static one) *)
Definition runtimeTypeMatch_ (T S : ty) : qore_type_result_e :=
  if decide (length (returns S) = length (returns T) /\
             length (accepts S) = length (accepts T)) then
    match near_match (accept_specs T) (accept_specs S) QTI_IDENT with
    | QTI_NOT_EQUAL => QTI_NOT_EQUAL
    | rc => near_match (return_specs T) (return_specs S) rc
    end
  else QTI_NOT_EQUAL.
Definition runtimeTypeMatch (T S : ty) : qore_type_result_e :=
  if decide (T = S) then QTI_IDENT
  else if negb (hasType S) then
    (if negb (hasType T) then QTI_NEAR else QTI_AMBIGUOUS)
  else if hasType T then runtimeTypeMatch_ T S else QTI_AMBIGUOUS.

(** QoreTypeInfo::outputSuperSetOf (the member function, and the static one) *)
Fixpoint output_prefix (l k : list QoreTypeSpec) : bool :=
  match l, k with
  | _, [] => true
  | [], _ :: _ => false
  | s :: l, t :: k =>
      let '(r, st) := m s t false (MS false false QTI_NOT_EQUAL) in
      bool_decide (r <> QTI_NOT_EQUAL) && negb (may_not_match st) && output_prefix l k
  end.
Definition outputSuperSetOf (T S : ty) : bool :=
  if negb (hasType T) then true
  else if hasType S then
    if decide (T = S) then true
    else bool_decide (length (returns S) <= length (returns T))%nat &&
         output_prefix (return_specs T) (return_specs S)
  else false.

(** The branches of QoreTypeSpec::match where the type [t] may only match at
    run time. *)
Definition may_match (st : match_state) : mresult :=
  if strict_types then (QTI_NOT_EQUAL, st)
  else (QTI_AMBIGUOUS, set_max QTI_IDENT (set_may true st)).

(** QoreTypeSpec::match, for complex lists *)
Definition match_list (soft : bool) (U : ty) (s t : QoreTypeSpec)
    (st : match_state) : mresult :=
  let other := if soft then match_type U (spec_getTypeInfo t) st
               else with_max (tryMatchReferenceType s t st) in
  match t with
  | QTS_COMPLEXSOFTLIST W | QTS_COMPLEXLIST W =>
      with_max (if decide (U = autoTypeInfo) then (QTI_NEAR, st)
                else match_type U W st)
  | QTS_EMPTYLIST => (QTI_NEAR, set_max QTI_NEAR st)
  | QTS_CLASS qc =>
      if soft then with_max (match_type U (ClassT qc) st) else other
  | QTS_TYPE q =>
      if decide (q = NT_LIST /\ U = autoTypeInfo)
      then (QTI_NEAR, set_max QTI_IDENT st)
      else if decide (q = NT_ALL) then may_match st
      else other
  | _ => other
  end.

(** QoreTypeSpec::match, for complex hashes *)
Definition match_hash (U : ty) (s t : QoreTypeSpec) (st : match_state) : mresult :=
  let other := with_max (tryMatchReferenceType s t st) in
  match t with
  | QTS_COMPLEXHASH W =>
      with_max (if decide (U = autoTypeInfo) then (QTI_NEAR, st)
                else match_type U W st)
  | QTS_EMPTYHASH => (QTI_NEAR, set_max QTI_NEAR st)
  | QTS_HASHDECL _ =>
      let rv := if decide (U = autoTypeInfo) then QTI_NEAR else QTI_NOT_EQUAL in
      (rv, set_max rv st)
  | QTS_TYPE q =>
      if decide (q = NT_HASH /\ U = autoTypeInfo)
      then (QTI_NEAR, set_max QTI_IDENT st)
      else if decide (q = NT_ALL) then may_match st
      else other
  | _ => other
  end.

(** QoreTypeSpec::match, for references with a type *)
Definition match_reference (U : ty) (t : QoreTypeSpec) (st : match_state) : mresult :=
  match t with
  | QTS_COMPLEXHARDREF W | QTS_COMPLEXREF W =>
      match runtimeTypeMatch W U with
      | QTI_NOT_EQUAL =>
          with_max (if outputSuperSetOf W U then QTI_AMBIGUOUS else QTI_NOT_EQUAL, st)
      | r => (r, set_max QTI_IDENT st)
      end
  | QTS_HARDREF => (QTI_IDENT, set_max QTI_IDENT st)
  | QTS_TYPE NT_REFERENCE => may_match st
  | QTS_EMPTYLIST | QTS_EMPTYHASH =>
      let '(rv, st1) := best_match (fun a => checkMatchType a t) (accept_specs U)
                          QTI_NOT_EQUAL st in
      (at_most_ambiguous (length (accept_specs U)) rv, st1)
  | _ => (QTI_NOT_EQUAL, st)
  end.

(** QoreTypeSpec::match, for references that are not assigned through, with a
    type; other specifications fall through to checkMatchType *)
Definition match_hard_reference (U : ty) (s t : QoreTypeSpec) (st : match_state)
    : mresult :=
  match t with
  | QTS_HARDREF => (QTI_IDENT, set_max QTI_IDENT st)
  | QTS_COMPLEXHARDREF W =>
      let '(rv, st) := parseAccepts6 W U false st in
      (if may_not_match st then QTI_NOT_EQUAL else rv, st)
  | QTS_TYPE q =>
      with_max (if decide (q = NT_REFERENCE) then QTI_IDENT else QTI_NOT_EQUAL, st)
  | _ => checkMatchType s t st
  end.

Definition is_reference_spec (t : QoreTypeSpec) : bool :=
  match t with
  | QTS_TYPE NT_REFERENCE | QTS_HARDREF | QTS_COMPLEXHARDREF _ | QTS_COMPLEXREF _ =>
      true
  | _ => false
  end.

(** QoreTypeSpec::match, for simple types and empty containers *)
Definition match_simple (s t : QoreTypeSpec) (st : match_state) : mresult :=
  let '(rv, st1) := checkMatchType s t st in
  if decide (rv = QTI_NOT_EQUAL) then with_max (tryMatchReferenceType s t st1)
  else (rv, st1).

(** QoreTypeSpec::match *)
Definition match_body (s t : QoreTypeSpec) (known : bool) (st : match_state)
    : mresult :=
  match s with
  | QTS_CLASS u =>
      match t with
      | QTS_CLASS c =>
          let '(rv, may) := class_parse_check c u (may_not_match st) in
          with_max (rv, set_may may st)
      | _ =>
          if decide (spec_getType t = NT_ALL \/ spec_getType t = NT_OBJECT)
          then may_match st
          else with_max (tryMatchReferenceType s t st)
      end
  | QTS_HASHDECL u =>
      match t with
      | QTS_HASHDECL h =>
          let rv := if hd_equal h u then QTI_IDENT else QTI_NOT_EQUAL in
          (rv, set_max rv st)
      | QTS_TYPE q =>
          if decide (q = NT_ALL \/ q = NT_HASH) then
            (if strict_types then (QTI_NOT_EQUAL, set_max QTI_NOT_EQUAL st)
             else may_match st)
          else with_max (tryMatchReferenceType s t st)
      | _ => with_max (tryMatchReferenceType s t st)
      end
  | QTS_COMPLEXHASH U => match_hash U s t st
  | QTS_COMPLEXSOFTLIST U => match_list true U s t st
  | QTS_COMPLEXLIST U => match_list false U s t st
  | QTS_COMPLEXREF U => match_reference U t st
  | QTS_TYPE NT_REFERENCE =>
      if negb known || is_reference_spec t
      then (QTI_AMBIGUOUS, set_max QTI_IDENT st)
      else match_simple s t st
  | QTS_TYPE _ | QTS_EMPTYLIST | QTS_EMPTYHASH => match_simple s t st
  | QTS_COMPLEXHARDREF U => match_hard_reference U s t st
  | QTS_HARDREF => checkMatchType s t st
  end.
End Open.

(** QoreTypeSpec::match, with fuel for the nesting of value types:
    [match_fuel] is enough ([match_fuel_enough] in TypeParse). *)
Fixpoint match_ (fuel : nat) (s t : QoreTypeSpec) (known : bool)
    (st : match_state) : mresult :=
  match fuel with
  | O => (QTI_NOT_EQUAL, st)
  | S fuel => match_body (match_ fuel) s t known st
  end.

Definition spec_depth (s : QoreTypeSpec) : nat :=
  match spec_ti s with Some U => S (depth U) | None => 0%nat end.
Definition match_fuel (s t : QoreTypeSpec) : nat := S (spec_depth s + spec_depth t).
Definition QoreTypeSpec_match (s t : QoreTypeSpec) (known : bool)
    (st : match_state) : mresult :=
  match_ (match_fuel s t) s t known st.

Definition no_flags : match_state := MS false false QTI_NOT_EQUAL.

(** The entry points of QoreTypeInfo::parseAccepts. *)
Definition parseAccepts (T S : ty) (known : bool) (st : match_state) : mresult :=
  parseAccepts6 QoreTypeSpec_match T S known st.
Definition parseAccepts_result (T S : ty) : qore_type_result_e :=
  if decide (T = S) then QTI_IDENT else (parseAccepts T S false no_flags).1.

(** QoreTypeInfo::parseReturns *)
Fixpoint parse_returns_loop (t : QoreTypeSpec) (l : list QoreReturnSpec)
    : qore_type_result_e :=
  match l with
  | [] => QTI_NOT_EQUAL
  | r :: l =>
      if decide ((QoreTypeSpec_match t (r_spec r) false no_flags).1 <> QTI_NOT_EQUAL)
      then (if r_exact r then QTI_IDENT else QTI_AMBIGUOUS)
      else parse_returns_loop t l
  end.
Definition parseReturns (T : ty) (t : QoreTypeSpec) : qore_type_result_e :=
  if hasType T then
    match returns T with
    | [r] => (QoreTypeSpec_match t (r_spec r) false no_flags).1
    | l => parse_returns_loop t l
    end
  else QTI_WILDCARD.

(** QoreTypeInfo::getReturnComplexHashOrNothing, getReturnComplexListOrNothing:
    types with more than one return specification must be "or nothing" types. *)
Definition returns_or_nothing (T : ty) : bool :=
  match returns T with
  | [_] => true
  | [_; r] => bool_decide ((QoreTypeSpec_match (r_spec r) (QTS_TYPE NT_NOTHING)
                              false no_flags).1 = QTI_IDENT)
  | _ => false
  end.
Definition getReturnComplexHashOrNothing (T : ty) : option ty :=
  s ← first_return T;
  if returns_or_nothing T then
    if decide (T = autoHashTypeInfo \/ T = autoHashOrNothingTypeInfo)
    then Some autoTypeInfo else spec_getComplexHash s
  else None.
Definition getReturnComplexListOrNothing (T : ty) : option ty :=
  s ← first_return T;
  if returns_or_nothing T then
    if decide (T = autoListTypeInfo \/ T = autoListOrNothingTypeInfo \/
               T = softAutoListTypeInfo \/ T = softAutoListOrNothingTypeInfo)
    then Some autoTypeInfo else spec_getComplexList s
  else None.

(** QoreTypeInfo::getReferenceTarget *)
Definition getReferenceTarget (T : ty) : option ty :=
  s ← r_spec <$> head (returns T);
  if decide (spec_getType s = NT_REFERENCE)
  then Some (from_option id anyTypeInfo (spec_getComplexReference s)) else None.

(** ** "Or nothing" types *)

(** The map from types to "or nothing" types ([typeinfo_map], filled by
    init_qore_types). *)
Definition typeinfo_map (T : ty) : option ty :=
  match T with
  | Base b =>
      match b with
      | any_ => Some anyTypeInfo
      | auto_ => Some autoTypeInfo
      | nothing_ => Some nothingTypeInfo
      | bigInt_ => Some (Base bigIntOrNothing_)
      | string_ => Some (Base stringOrNothing_)
      | bool_ => Some (Base boolOrNothing_)
      | float_ => Some (Base floatOrNothing_)
      | number_ => Some (Base numberOrNothing_)
      | binary_ => Some (Base binaryOrNothing_)
      | list_ => Some (Base listOrNothing_)
      | hash_ => Some (Base hashOrNothing_)
      | object_ => Some (Base objectOrNothing_)
      | date_ => Some (Base dateOrNothing_)
      | code_ => Some (Base codeOrNothing_)
      | data_ => Some (Base dataOrNothing_)
      | reference_ => Some (Base referenceOrNothing_)
      | null_ => Some (Base nullOrNothing_)
      | softBigInt_ => Some (Base softBigIntOrNothing_)
      | softFloat_ => Some (Base softFloatOrNothing_)
      | softNumber_ => Some (Base softNumberOrNothing_)
      | softBool_ => Some (Base softBoolOrNothing_)
      | softString_ => Some (Base softStringOrNothing_)
      | softDate_ => Some (Base softDateOrNothing_)
      | softList_ => Some (Base softListOrNothing_)
      | softBinary_ => Some (Base softBinaryOrNothing_)
      | hexBinary_ => Some (Base hexBinaryOrNothing_)
      | base64Binary_ => Some (Base base64BinaryOrNothing_)
      | base64UrlBinary_ => Some (Base base64UrlBinaryOrNothing_)
      | timeout_ => Some (Base timeoutOrNothing_)
      | _ => None
      end
  | _ => None
  end.

(** The first answer that is there. *)
Definition or_else {A} (a b : option A) : option A :=
  match a with Some _ => a | None => b end.

(** get_or_nothing_type *)
Definition get_or_nothing_type (T : ty) : ty :=
  from_option id autoTypeInfo
    (or_else (typeinfo_map T)
    (or_else (HashDeclOrNothingT <$> getUniqueReturnHashDecl T)
    (or_else (ClassOrNothingT <$> getUniqueReturnClass T)
    (or_else (qore_get_complex_hash_or_nothing_type <$> getUniqueReturnComplexHash T)
    (or_else (qore_get_complex_softlist_or_nothing_type <$>
                getUniqueReturnComplexSoftList T)
    (or_else (qore_get_complex_list_or_nothing_type <$> getUniqueReturnComplexList T)
             (qore_get_complex_reference_or_nothing_type <$>
                getUniqueReturnComplexReference T))))))).

(** get_or_nothing_type_check *)
Definition get_or_nothing_type_check (T : ty) : ty :=
  if parseAcceptsReturns T NT_NOTHING then T else get_or_nothing_type T.

(** get_value_type, with get_value_type_intern *)
Definition get_value_type (T : ty) : ty :=
  if parseAcceptsReturns T NT_NOTHING then
    from_option id autoTypeInfo
      (or_else (typeinfo_map T)
      (or_else (HashDeclT <$> getTypedHash T)
      (or_else (ClassT <$> getReturnClass T)
      (or_else (qore_get_complex_hash_type <$> getReturnComplexHashOrNothing T)
      (or_else (qore_get_complex_list_type <$> getReturnComplexListOrNothing T)
               (qore_get_complex_reference_type <$> getReferenceTarget T))))))
  else T.

(** ** Common types *)

(** The type of containers that have a base type in common. *)
Definition common_base (bti : ty) : ty :=
  if decide (bti = hashTypeInfo) then autoHashTypeInfo
  else if decide (bti = listTypeInfo) then autoListTypeInfo
  else if decide (bti = Base softList_) then softAutoListTypeInfo
  else if decide (bti = Base hashOrNothing_) then autoHashOrNothingTypeInfo
  else if decide (bti = Base listOrNothing_) then autoListOrNothingTypeInfo
  else if decide (bti = Base softListOrNothing_) then softAutoListOrNothingTypeInfo
  else bti.

(** QoreTypeInfo::matchCommonType: the new value of [ctype], and the result.
    Both pointers may be null. *)
Definition matchCommonType (ctype ntype : option ty) : option ty * bool :=
  match ctype with
  | None => (None, false)
  | Some c =>
      if decide (c = anyTypeInfo) then (None, false)
      else if decide (Some c = ntype) then (ctype, true)
      else match ntype with
      | None => (None, false)
      | Some n =>
          if negb (hasType n) then
            (if decide (n = anyTypeInfo) then None else Some n, false)
          else if decide (parseReturns c (QTS_TYPE NT_NOTHING) = QTI_NOT_EQUAL /\
                          isType n NT_NOTHING = true) then
            let t := get_or_nothing_type c in (Some t, bool_decide (t <> autoTypeInfo))
          else if isType c NT_NOTHING then
            let t := get_or_nothing_type_check n in
            (Some t, bool_decide (t <> autoTypeInfo))
          else if superSetOf_ n c then (Some n, true)
          else match returns c, returns n with
          | [r], [r'] =>
              if decide (getBaseTypeInfo (r_spec r) = getBaseTypeInfo (r_spec r'))
              then (Some (common_base (getBaseTypeInfo (r_spec r))), true)
              else (Some autoTypeInfo, false)
          | _, _ => (Some autoTypeInfo, false)
          end
      end
  end.
End Match.
