(* ===== verification/TypeAccept.v ===== *)
(** * Acceptance of values

    What happens when a value is assigned to an lvalue, parameter or member with
    a type (lib/QoreTypeInfo.cpp: acceptInput, runtimeAcceptsValue), with the
    conversions of the types, the folding of containers into complex types and
    the stripping of complex types (lib/AbstractQoreNode.cpp). *)
From S2P Require Import Prelude TypeInfo TypeMatch.

(** The outcome of an assignment through a reference: the value of the lvalue is
    assigned to it again with the type of the reference. *)
Inductive lvalue_result :=
| LvAssigned                (* assigned, or the lvalue has no value *)
| LvMissing                 (* no lvalue, and no exception *)
| LvError (e : string)      (* no lvalue, with an exception *)
| LvAssignError (e : string).

(** Conversions that are made elsewhere: QoreValue::getAsBigInt and so on, the
    parsers of binary data, and assignments through references. *)
Class Conversions := {
  getAsBigInt : value -> Z;
  getAsFloat : value -> Z;
  getAsBool : value -> bool;
  float_of_int : Z -> Z;
  number_of_float : Z -> string;
  number_of_int : Z -> string;
  number_of_string : string -> string;
  string_of_int : Z -> string;
  string_of_float : Z -> string;
  string_of_node : value -> string;
  date_of_node : value -> Z;
  date_of_int : Z -> Z;
  getRelativeMilliseconds : Z -> Z;
  (** the binary data, or the code of the exception *)
  parseHex : string -> string + string;
  parseBase64 : string -> string + string;
  parseBase64Url : string -> string + string;
  lvalue_assign : Z -> ty -> lvalue_result
}.

(** ** Exceptions *)

(** What is assigned to: arg_type, obj, param_num, param_name. *)
Record arg_info := Arg {
  arg_type : string;
  arg_obj : bool;
  param_num : Z;
  param_name : option string
}.

Inductive exception_kind :=
| RuntimeTypeError (priv_error : bool) (a : arg_info) (expected : ty) (got : value)
| ConversionError (code : string)
| LvalueException (code : string)
| HashError (code : string)
| CallError (code : string).

(** What appendLastDescription adds. *)
Inductive description :=
| while_folding_hash (vti : ty)
| while_folding_list (vti : ty)
| while_converting (T : ty)
| while_converting_element (vti : ty)
| while_initializing_hashdecl (hd : Z)
| while_assigning_hashdecl (hd : Z)
| block_missing_return.

Record exception := Exc { kind : exception_kind; appended : list description }.

(** The exceptions of the sink, the last one first. *)
Definition sink : Type := list exception.

Definition raise (k : exception_kind) (xs : sink) : sink := Exc k [] :: xs.
Definition appendLastDescription (d : description) (xs : sink) : sink :=
  match xs with
  | e :: xs => Exc (kind e) (appended e ++ [d]) :: xs
  | [] => []
  end.
Definition failed (xs : sink) : bool := bool_decide (xs <> []).

(** ** Containers *)

(** QoreValue::refSelf on a node that stays in use: it is not unique any more. *)
Definition refSelf (v : value) : value :=
  match v with
  | VList false t _ l => VList false t false l
  | VHash false h t _ l => VHash false h t false l
  | v => v
  end.
Definition map_members (f : value -> value) (l : list (string * value))
    : list (string * value) := (fun kv => (kv.1, f kv.2)) <$> l.

(** has_complex_type *)
Definition some_value_type (t : option ty) : bool :=
  match t with Some T => bool_decide (T <> anyTypeInfo) | None => false end.
Definition has_complex_type (n : value) : bool :=
  match n with
  | VList false t _ _ => some_value_type (list_getValueTypeInfo t)
  | VHash false h t _ _ =>
      bool_decide (is_Some h) || some_value_type (hash_getValueTypeInfo t)
  | _ => false
  end.

(** copy_strip_complex_types and do_copy_strip; with [keep] the original stays in
    use, else it is released after the copy. *)
Fixpoint copy_strip_complex_types (keep : bool) (n : value) : value :=
  let self := if keep then refSelf n else n in
  if negb (has_complex_type n) then self
  else match n with
  | VList false t u l =>
      if decide (getTypeInfo n = listTypeInfo) then self
      else VList false None true
             ((fix go l := match l with
               | [] => []
               | v :: l => copy_strip_complex_types (keep || negb u) v :: go l
               end) l)
  | VHash false h t u l =>
      if decide (getTypeInfo n = hashTypeInfo) then self
      else VHash false None None true
             ((fix go l := match l with
               | [] => []
               | (k, v) :: l =>
                   (k, copy_strip_complex_types (keep || negb u) v) :: go l
               end) l)
  | _ => self
  end.

(** map_get_plain_hash, map_get_plain_list *)
Definition get_plain_hash (n : value) : value := copy_strip_complex_types false n.
Definition get_plain_list (n : value) : value := copy_strip_complex_types false n.

(** QoreTypeInfo::stripTypeInfo, without the helper that keeps the old value of an
    lvalue until the assignment is done *)
Definition stripTypeInfo (n : value) : value :=
  match getType n with
  | NT_HASH => get_plain_hash n
  | NT_LIST => get_plain_list n
  | _ => n
  end.

(** qore_list_private::stripVal *)
Definition stripVal (n : value) : value :=
  match getType n with
  | NT_LIST | NT_HASH => copy_strip_complex_types false n
  | _ => n
  end.

(** The answer of type_spec_accept_object: accepted, or not, or a class that is
    inherited privately. *)
Inductive object_match := Accepted | Rejected | PrivError.

#[export] Instance object_match_eq_dec : EqDecision object_match.
Proof. solve_decision. Defined.

Section Accept.
Context {TE : TypeEnv} {CV : Conversions}.

(** ** What a type accepts at run time *)

(** QoreTypeSpec::runtimeAcceptsValue; [sub] is runtimeAcceptsValue of the value
    type of soft lists. *)
Definition exact_result (exact : bool) : qore_type_result_e :=
  if exact then QTI_IDENT else QTI_AMBIGUOUS.
Definition accepts_elements (U : ty) (ti : option ty) : bool :=
  match ti with
  | Some ti => hasType ti && bool_decide (parseAccepts_result U ti <> QTI_NOT_EQUAL)
  | None => false
  end.
Definition spec_runtimeAcceptsValue (sub : value -> qore_type_result_e)
    (s : QoreTypeSpec) (n : value) (exact : bool) : qore_type_result_e :=
  let simple u :=
    match n, u with
    | VHash _ h t _ _, NT_HASH =>
        if bool_decide (is_Some h) || bool_decide (is_Some t)
        then QTI_NEAR else exact_result exact
    | VList _ t _ _, NT_LIST =>
        if bool_decide (is_Some t) then QTI_NEAR else exact_result exact
    | _, _ => if decide (u = NT_ALL \/ u = getType n) then exact_result exact
              else QTI_NOT_EQUAL
    end in
  let lists U :=
    match n with
    | VList _ t _ _ =>
        if decide (U = autoTypeInfo) then QTI_NEAR
        else if accepts_elements U (list_getValueTypeInfo t)
        then exact_result exact else QTI_NOT_EQUAL
    | _ => QTI_NOT_EQUAL
    end in
  match s with
  | QTS_CLASS u =>
      match n with
      | VObject _ o _ valid =>
          match class_runtime_check u o with
          | QTI_NOT_EQUAL => QTI_NOT_EQUAL
          | rv => if negb valid then QTI_NOT_EQUAL
                  else match rv with QTI_IDENT => exact_result exact
                       | _ => QTI_AMBIGUOUS end
          end
      | _ => QTI_NOT_EQUAL
      end
  | QTS_HASHDECL u =>
      match n with
      | VHash _ (Some hd) _ _ _ =>
          if hd_equal u hd then exact_result exact else QTI_NOT_EQUAL
      | _ => QTI_NOT_EQUAL
      end
  | QTS_COMPLEXHASH U =>
      match n with
      | VHash _ _ t _ _ =>
          if decide (U = autoTypeInfo) then QTI_NEAR
          else if accepts_elements U (hash_getValueTypeInfo t)
          then exact_result exact else QTI_NOT_EQUAL
      | _ => QTI_NOT_EQUAL
      end
  | QTS_COMPLEXLIST U => lists U
  | QTS_COMPLEXSOFTLIST U =>
      match lists U with
      | QTI_NOT_EQUAL => match sub n with QTI_IDENT => QTI_NEAR | rv => rv end
      | rv => rv
      end
  | QTS_COMPLEXREF U =>
      match n with
      | VRef _ T =>
          let ti := getUniqueReturnComplexReference T in
          if equal_opt U ti then QTI_IDENT
          else if match ti with
                  | Some ti => outputSuperSetOf QoreTypeSpec_match ti U
                  | None => true
                  end then exact_result exact else QTI_NOT_EQUAL
      | _ => QTI_NOT_EQUAL
      end
  | QTS_EMPTYLIST | QTS_EMPTYHASH | QTS_TYPE _ => simple (union_t s)
  | QTS_HARDREF | QTS_COMPLEXHARDREF _ => QTI_NOT_EQUAL
  end.

Fixpoint runtime_loop (sub : value -> qore_type_result_e) (l : list QoreAcceptSpec)
    (n : value) : qore_type_result_e :=
  match l with
  | [] => QTI_NOT_EQUAL
  | a :: l =>
      match spec_runtimeAcceptsValue sub (a_spec a) n (a_exact a) with
      | QTI_NOT_EQUAL => runtime_loop sub l n
      | rv => rv
      end
  end.

(** QoreTypeInfo::runtimeAcceptsValue (static) *)
Fixpoint runtimeAcceptsValue (T : ty) (n : value) {struct T} : qore_type_result_e :=
  let sub := match T with
             | ComplexHash U | ComplexHashOrNothing U | ComplexList U
             | ComplexListOrNothing U | ComplexSoftList U
             | ComplexSoftListOrNothing U | ComplexHardReference U
             | ComplexHardReferenceOrNothing U | ComplexReference U
             | ComplexReferenceOrNothing U => runtimeAcceptsValue U
             | _ => fun _ => QTI_NOT_EQUAL
             end in
  if hasType T then runtime_loop sub (accepts T) n else QTI_WILDCARD.

(** type_spec_accept_object *)
Definition type_spec_accept_object (type_class object_class : Z) : object_match :=
  match class_get type_class object_class with
  | None => Rejected
  | Some false => Accepted
  | Some true => if class_private_access type_class then Accepted else PrivError
  end.

(** ** acceptInput

    [accept] is QoreTypeInfo::acceptInputIntern of the value type of a complex
    type, and [accepts_value] its runtimeAcceptsValue. *)
Section Open.
Context (accept : arg_info -> value -> sink -> value * sink).
Context (accepts_value : value -> qore_type_result_e).

(** The static functions acceptInputParam, acceptAssignment on the value type,
    or on no type. *)
Definition accept_static (vti : option ty) (a : arg_info) (n : value) (xs : sink)
    : value * sink :=
  if hasType_opt vti then accept a n xs
  else if decide (vti = Some autoTypeInfo) then (n, xs)
  else (stripTypeInfo n, xs).

(** The loops that fold the values of a container; they end at an exception. *)
Fixpoint fold_list (a : arg_info) (l : list value) (xs : sink)
    : list value * sink * bool :=
  match l with
  | [] => ([], xs, false)
  | v :: l =>
      let '(v, xs) := accept a v xs in
      if failed xs then (v :: l, xs, true)
      else let '(l, xs, err) := fold_list a l xs in (v :: l, xs, err)
  end.
Fixpoint fold_hash (a : arg_info) (l : list (string * value)) (xs : sink)
    : list (string * value) * sink * bool :=
  match l with
  | [] => ([], xs, false)
  | (k, v) :: l =>
      let '(v, xs) := accept a v xs in
      if failed xs then ((k, v) :: l, xs, true)
      else let '(l, xs, err) := fold_hash a l xs in ((k, v) :: l, xs, err)
  end.

(** The end of acceptInputComplexHash and acceptInputComplexList: the values are
    folded into the type; the message of an exception is extended. *)
Definition folded_hash (U : ty) (a : arg_info) (w : bool) (h : option Z) (t : ty)
    (l : list (string * value)) (xs : sink) : value * sink * bool :=
  let '(l, xs, err) := fold_hash a l xs in
  (VHash w h (Some t) true l,
   if err then appendLastDescription (while_folding_hash U) xs else xs, err).
Definition folded_list (U : ty) (a : arg_info) (w : bool) (t : ty) (l : list value)
    (xs : sink) : value * sink * bool :=
  let '(l, xs, err) := fold_list a l xs in
  (VList w (Some t) true l,
   if err then appendLastDescription (while_folding_list U) xs else xs, err).

(** QoreTypeSpec::acceptInputComplexHash: the new value, the sink, and [err]. *)
Definition acceptInputComplexHash (U T : ty) (a : arg_info) (w : bool)
    (h : option Z) (t : option ty) (unique : bool) (l : list (string * value))
    (xs : sink) : value * sink * bool :=
  if equal_opt U (hash_getValueTypeInfo t) then (VHash w h t unique l, xs, false)
  else
    let '(w, h, t, l) :=
      if unique then (w, h, T, l)
      else (false, None, get_value_type T, map_members refSelf l) in
    if negb unique && failed xs then (VHash w h (Some t) true l, xs, true)
    else folded_hash U a w h t l xs.

(** QoreTypeSpec::acceptInputComplexList *)
Definition acceptInputComplexList (U T : ty) (a : arg_info) (w : bool)
    (t : option ty) (unique : bool) (l : list value) (xs : sink)
    : value * sink * bool :=
  if equal_opt U (list_getValueTypeInfo t) then (VList w t unique l, xs, false)
  else
    let '(w, t, l) :=
      if unique then (w, T, l) else (false, get_value_type T, refSelf <$> l) in
    if negb unique && failed xs then (VList w (Some t) true l, xs, true)
    else folded_list U a w t l xs.

(** The loop of newComplexListFromValue over the elements of a list. *)
Fixpoint fold_elements (vti : option ty) (i : Z) (l : list value) (xs : sink)
    : list value * sink * bool :=
  match l with
  | [] => ([], xs, false)
  | v :: l =>
      if superSetOf vti (getTypeInfo v) then
        let '(l, xs, err) := fold_elements vti (i + 1) l xs in (v :: l, xs, err)
      else
        let '(v, xs) := accept_static vti (Arg "parameter" false i None) v xs in
        if failed xs then (v :: l, xs, true)
        else let '(l, xs, err) := fold_elements vti (i + 1) l xs in (v :: l, xs, err)
  end.

(** qore_list_private::newComplexListFromValue; a null pointer is NOTHING *)
Definition newComplexListFromValue (T : ty) (init : value) (xs : sink)
    : value * sink :=
  let vti := getReturnComplexListOrNothing T in
  match init with
  | VList false t u l =>
      if match t with Some t => equal T t | None => false end then (init, xs)
      else
        let l := if u then l else refSelf <$> l in
        let '(l, xs, err) := fold_elements vti 0 l xs in
        if err then (VNothing, xs) else (VList false (Some T) true l, xs)
  | VNothing => (VList false (Some T) true [], xs)
  | _ =>
      let '(v, xs) := accept_static vti
          (Arg "lvalue" false (-1) (Some "<list assignment>"%string)) init xs in
      if failed xs then (VNothing, xs)
      else (VList false (Some T) true [v], xs)
  end.

Definition of_parse (r : string + string) (xs : sink) : value * sink :=
  match r with
  | inl s => (VBinary s, xs)
  | inr e => (VNothing, raise (ConversionError e) xs)
  end.
Definition string_of (n : value) : string :=
  match n with VString s => s | _ => ""%string end.
Definition date_of (n : value) : Z := match n with VDate d => d | _ => 0 end.

Definition map_softlist_value (vti : ty) (n : value) (xs : sink) : value * sink :=
  match n with
  | VList false t _ _ =>
      if decide (list_getValueTypeInfo t = Some vti) then (n, xs)
      else newComplexListFromValue (qore_get_complex_list_type vti) n xs
  | _ => newComplexListFromValue (qore_get_complex_list_type vti) n xs
  end.

(** The conversions of the accept vectors. *)
Definition apply_map (f : q_type_map_t) (n : value) (xs : sink) : value * sink :=
  match f with
  | assignNothing => (VNothing, xs)
  | map_parseHex => of_parse (parseHex (string_of n)) xs
  | map_parseBase64 => of_parse (parseBase64 (string_of n)) xs
  | map_parseBase64Url => of_parse (parseBase64Url (string_of n)) xs
  | map_get_plain_hash => (get_plain_hash n, xs)
  | map_get_plain_list => (get_plain_list n, xs)
  | map_number_float => (VNumber (number_of_float (getAsFloat n)), xs)
  | map_number_int => (VNumber (number_of_int (getAsBigInt n)), xs)
  | map_number_string => (VNumber (number_of_string (string_of n)), xs)
  | map_number_zero => (VNumber (number_of_float 0), xs)
  | map_float_int => (VFloat (float_of_int (getAsBigInt n)), xs)
  | map_asBigInt => (VInt (getAsBigInt n), xs)
  | map_int_zero => (VInt 0, xs)
  | map_asFloat => (VFloat (getAsFloat n), xs)
  | map_float_zero => (VFloat 0, xs)
  | map_asBool => (VBool (getAsBool n), xs)
  | map_false => (VBool false, xs)
  | map_binary_string => (VBinary (string_of n), xs)
  | map_binary_empty => (VBinary "", xs)
  | map_string_int => (VString (string_of_int (getAsBigInt n)), xs)
  | map_string_float => (VString (string_of_float (getAsFloat n)), xs)
  | map_string_node => (VString (string_of_node n), xs)
  | map_string_empty => (VString "", xs)
  | map_date_node => (VDate (date_of_node n), xs)
  | map_date_int => (VDate (date_of_int (getAsBigInt n)), xs)
  | map_date_zero => (VDate (date_of_int 0), xs)
  | map_list_empty => (VList false None true [], xs)
  | map_list_value => (VList false None true [stripVal n], xs)
  | map_auto_list_empty => (VList false (Some autoListTypeInfo) true [], xs)
  | map_auto_list_value => (VList false (Some autoListTypeInfo) true [n], xs)
  | map_timeout => (VInt (getRelativeMilliseconds (date_of n)), xs)
  | map_softlist vti => map_softlist_value vti n xs
  | map_softlist_or_nothing vti =>
      match n with
      | VNothing => (n, xs)
      | VNull => newComplexListFromValue (qore_get_complex_list_type vti) n xs
      | _ => map_softlist_value vti n xs
      end
  | map_new_list vti =>
      newComplexListFromValue (qore_get_complex_list_type vti) n xs
  | map_typed_list_empty vti => (new_list vti, xs)
  end.

(** The part of acceptInput before the conversion: [Some ok] with the new value
    and the sink, [None] where it returns true at once; the last component is
    [priv_error]. *)
Definition accept_spec (s : QoreTypeSpec) (T : ty) (a : arg_info) (n : value)
    (xs : sink) : option bool * value * sink * bool :=
  match s with
  | QTS_CLASS u =>
      match n with
      | VObject _ o _ _ =>
          match type_spec_accept_object u o with
          | Accepted => (Some true, n, xs, false)
          | Rejected => (Some false, n, xs, false)
          | PrivError => (Some false, n, xs, true)
          end
      | _ => (Some false, n, xs, false)
      end
  | QTS_HASHDECL u =>
      match n with
      | VHash _ (Some hd) _ _ _ => (Some (hd_equal hd u), n, xs, false)
      | _ => (Some false, n, xs, false)
      end
  | QTS_COMPLEXHASH U =>
      match n with
      | VHash w h t u l =>
          if decide (U = autoTypeInfo) then (Some true, n, xs, false)
          else
            let '(n, xs, err) := acceptInputComplexHash U T a w h t u l xs in
            (if err then None else Some true, n, xs, false)
      | _ => (Some false, n, xs, false)
      end
  | QTS_COMPLEXLIST U =>
      match n with
      | VList false t u l =>
          if decide (U = autoTypeInfo) then (Some true, n, xs, false)
          else
            let '(n, xs, _) := acceptInputComplexList U T a false t u l xs in
            (Some true, n, xs, false)
      | _ => (Some false, n, xs, false)
      end
  | QTS_COMPLEXSOFTLIST U =>
      match n with
      | VList false t u l =>
          if decide (U = autoTypeInfo) then (Some true, n, xs, false)
          else
            let '(n, xs, _) := acceptInputComplexList U T a false t u l xs in
            (Some true, n, xs, false)
      | _ =>
          (Some (bool_decide (0 < qti_rank (accepts_value n))), n, xs, false)
      end
  | QTS_HARDREF => (Some (bool_decide (getType n = NT_REFERENCE)), n, xs, false)
  | QTS_COMPLEXHARDREF U | QTS_COMPLEXREF U =>
      match n with
      | VRef lv R =>
          if match getUniqueReturnComplexReference R with
             | Some ti => outputSuperSetOf QoreTypeSpec_match ti U
             | None => true
             end
          then match lvalue_assign lv U with
               | LvAssigned => (Some true, n, xs, false)
               | LvMissing => (Some (negb (failed xs)), n, xs, false)
               | LvError e => (Some false, n, raise (LvalueException e) xs, false)
               | LvAssignError e => (Some true, n, raise (LvalueException e) xs, false)
               end
          else (Some false, n, xs, false)
      | _ => (Some false, n, xs, false)
      end
  | QTS_TYPE _ | QTS_EMPTYLIST | QTS_EMPTYHASH =>
      (Some (bool_decide (union_t s = NT_ALL \/ union_t s = getType n)), n, xs, false)
  end.

(** QoreTypeSpec::acceptInput: the new value, the sink, and the result. *)
Definition acceptInput (s : QoreTypeSpec) (T : ty) (map : option q_type_map_t)
    (a : arg_info) (n : value) (xs : sink) : value * sink * bool :=
  match accept_spec s T a n xs with
  | (None, n, xs, _) => (n, xs, true)
  | (Some true, n, xs, _) =>
      match map with
      | None => (n, xs, true)
      | Some f =>
          let '(n, xs) := apply_map f n xs in
          (n, if failed xs then appendLastDescription (while_converting T) xs else xs,
           true)
      end
  | (Some false, n, xs, true) => (n, raise (RuntimeTypeError true a T n) xs, true)
  | (Some false, n, xs, false) => (n, xs, false)
  end.

(** The loop of acceptInputIntern. *)
Fixpoint accept_specs_loop (l : list QoreAcceptSpec) (T : ty) (a : arg_info)
    (n : value) (xs : sink) : value * sink :=
  match l with
  | [] => (n, raise (RuntimeTypeError false a T n) xs)
  | s :: l =>
      let '(n, xs, ok) := acceptInput (a_spec s) T (a_map s) a n xs in
      if ok then (n, xs) else accept_specs_loop l T a n xs
  end.
End Open.

(** QoreTypeInfo::acceptInputIntern. The lvhelper parameter of the code is null
    in every call. *)
Fixpoint acceptInputIntern (T : ty) (a : arg_info) (n : value) (xs : sink)
    {struct T} : value * sink :=
  let '(accept, accepts_value) :=
    match T with
    | ComplexHash U | ComplexHashOrNothing U | ComplexList U
    | ComplexListOrNothing U | ComplexSoftList U | ComplexSoftListOrNothing U
    | ComplexHardReference U | ComplexHardReferenceOrNothing U
    | ComplexReference U | ComplexReferenceOrNothing U =>
        (acceptInputIntern U, runtimeAcceptsValue U)
    | _ => (fun _ n xs => (n, xs), fun _ => QTI_NOT_EQUAL)
    end in
  accept_specs_loop accept accepts_value (accepts T) T a n xs.

(** The static functions: acceptInputParam, acceptInputMember, acceptInputKey,
    acceptAssignment. *)
Definition acceptAny (T : ty) (a : arg_info) (n : value) (xs : sink) : value * sink :=
  accept_static (acceptInputIntern T) (Some T) a n xs.
Definition acceptInputParam (T : ty) (num : Z) (name : option string) (n : value)
    (xs : sink) : value * sink := acceptAny T (Arg "parameter" false num name) n xs.
Definition acceptInputMember (T : ty) (name : string) (n : value) (xs : sink)
    : value * sink := acceptAny T (Arg "member" true (-1) (Some name)) n xs.
Definition acceptInputKey (T : ty) (name : string) (n : value) (xs : sink)
    : value * sink := acceptAny T (Arg "key" false (-1) (Some name)) n xs.
Definition acceptAssignment (T : ty) (text : string) (n : value) (xs : sink)
    : value * sink := acceptAny T (Arg "lvalue" false (-1) (Some text)) n xs.
End Accept.
