(* ===== verification/TypeSpec.v ===== *)
(** * What types mean

    The values of a type, and that assignments respect them: a value that was
    accepted is a value of the type, a value of the type is accepted as it is,
    and equal types have the same values. *)
From S2P Require Import Prelude TypeInfo TypeMatch TypeAccept.

(** What the theorems use of hash declarations and classes. *)
Class TypeLaws `{TypeEnv} := {
  hd_equal_equiv : Equivalence (fun a b => hd_equal a b = true);
  class_equal_equiv : Equivalence (fun a b => class_equal a b = true);
  class_get_self c : class_get c c = Some false;
  class_get_equal u u' o : class_equal u u' = true -> class_get u o = class_get u' o;
  class_access_equal u u' : class_equal u u' = true ->
    class_private_access u = class_private_access u';
  class_check_kept t u r may : class_parse_check t u true = (r, may) ->
    r <> QTI_NOT_EQUAL -> may = true;
  class_check_sound t u r o : class_parse_check t u false = (r, false) ->
    r <> QTI_NOT_EQUAL -> type_spec_accept_object t o = Accepted ->
    type_spec_accept_object u o = Accepted
}.

(** ** The values of a type *)

(** No complex type in a value, except behind weak references. *)
Fixpoint plain (n : value) : bool :=
  match n with
  | VList false t _ l => bool_decide (t = None) && forallb plain l
  | VHash false h t _ l =>
      bool_decide (h = None) && bool_decide (t = None) &&
      forallb (fun kv => plain kv.2) l
  | _ => true
  end.

(** The type [any] is not a value type: the functions that return complex types
    see to this. *)
Fixpoint wf_type (T : ty) : bool :=
  match value_type T with
  | None => true
  | Some _ =>
      match T with
      | ComplexHash U | ComplexHashOrNothing U | ComplexList U
      | ComplexListOrNothing U | ComplexSoftList U | ComplexSoftListOrNothing U
      | ComplexHardReference U | ComplexHardReferenceOrNothing U
      | ComplexReference U | ComplexReferenceOrNothing U =>
          bool_decide (U <> anyTypeInfo) && wf_type U
      | _ => true
      end
  end.

Section Values.
Context {TE : TypeEnv}.

(** The values that a specification stands for, where [e] are those of the value
    type. *)
Definition in_spec_ (e : value -> bool) (s : QoreTypeSpec) (n : value) : bool :=
  match s, n with
  | QTS_TYPE NT_ALL, _ => true
  | QTS_TYPE NT_LIST, VList _ None _ _ => true
  | QTS_TYPE NT_HASH, VHash _ None None _ _ => true
  | QTS_TYPE NT_OBJECT, VObject _ _ _ _ => true
  | QTS_TYPE (NT_LIST | NT_HASH | NT_OBJECT), _ => false
  | QTS_TYPE q, _ => bool_decide (getType n = q)
  | QTS_EMPTYLIST, VList _ _ _ [] => true
  | QTS_EMPTYHASH, VHash _ None _ _ [] => true
  | QTS_CLASS u, VObject _ o _ _ => bool_decide (type_spec_accept_object u o = Accepted)
  | QTS_HASHDECL u, VHash _ (Some hd) _ _ _ => hd_equal hd u
  | QTS_COMPLEXHASH _, VHash _ _ _ _ l => forallb (fun kv => e kv.2) l
  | (QTS_COMPLEXLIST _ | QTS_COMPLEXSOFTLIST _), VList _ _ _ l => forallb e l
  | (QTS_HARDREF | QTS_COMPLEXHARDREF _ | QTS_COMPLEXREF _), VRef _ _ => true
  | _, _ => false
  end.

(** The values of a type: those of the specifications that it returns. *)
Fixpoint in_type (T : ty) (n : value) {struct T} : bool :=
  let e := match T with
           | ComplexHash U | ComplexHashOrNothing U | ComplexList U
           | ComplexListOrNothing U | ComplexSoftList U
           | ComplexSoftListOrNothing U | ComplexHardReference U
           | ComplexHardReferenceOrNothing U | ComplexReference U
           | ComplexReferenceOrNothing U => in_type U
           | _ => fun _ => true
           end in
  existsb (fun s => in_spec_ e s n) (return_specs T).

Definition in_spec (s : QoreTypeSpec) (n : value) : bool :=
  in_spec_ (match spec_ti s with Some U => in_type U | None => fun _ => true end) s n.

(** ** Well-formed values

    The elements of a container are values of its value type; a container without
    a type has no complex types in it. *)
Definition wf_tag (vt : option ty) : bool :=
  match vt with
  | Some U => bool_decide (U <> anyTypeInfo) && wf_type U
  | None => false
  end.
Fixpoint wf_value (n : value) : bool :=
  match n with
  | VList _ t _ l =>
      match t with
      | None => forallb plain l
      | Some T => wf_tag (getComplexListValueType T) &&
                  forallb (from_option in_type (fun _ => false)
                             (getComplexListValueType T)) l
      end && forallb wf_value l
  | VHash _ h t _ l =>
      match t, h with
      | Some T, _ => wf_tag (getComplexHashValueType T) &&
                     forallb (fun kv => from_option in_type (fun _ => false)
                                (getComplexHashValueType T) kv.2) l
      | None, None => forallb (fun kv => plain kv.2) l
      | None, Some _ => true
      end && forallb (fun kv => wf_value kv.2) l
  | VRef _ R => existsb is_reference_spec (return_specs R)
  | _ => true
  end.
End Values.

(** Types that can be declared: no types of empty literals, no hard references
    (they are made inside of the parser), and not the three types whose vectors
    disagree ([or_nothing_binary_returns_hash]). *)
Fixpoint declarable (T : ty) : bool :=
  match T with
  | Base (emptyHash_ | emptyList_ | hardReference_ | hardReferenceOrNothing_
          | hexBinaryOrNothing_ | base64BinaryOrNothing_
          | base64UrlBinaryOrNothing_) => false
  | ComplexHardReference _ | ComplexHardReferenceOrNothing _ => false
  | ComplexHash U | ComplexHashOrNothing U | ComplexList U
  | ComplexListOrNothing U | ComplexSoftList U | ComplexSoftListOrNothing U
  | ComplexReference U | ComplexReferenceOrNothing U => declarable U
  | _ => true
  end.

(** The cases of a value, weak references apart. *)
Ltac destruct_value v :=
  destruct v as [| | | | | | | | | | | |[] ? ? ?|[] ? ? ?|[] ? ? ? ?].

(** ** Loops over lists *)
Lemma forallb_ext_on {A} (f g : A -> bool) l :
  (forall x, f x = g x) -> forallb f l = forallb g l.
Proof. intros H. induction l as [|x l IH]; cbn; [done|]. by rewrite H, IH. Qed.

Lemma forallb_map_on {A B} (f : B -> bool) (g : A -> B) l :
  forallb f (g <$> l) = forallb (fun x => f (g x)) l.
Proof. induction l as [|x l IH]; cbn; [done|]. by rewrite IH. Qed.

Lemma existsb_Forall2 {A} (R : A -> A -> Prop) f g l k :
  Forall2 R l k -> (forall x y, x ∈ l -> R x y -> f x = g y) ->
  existsb f l = existsb g k.
Proof.
  induction 1 as [|x y l k Hxy H IH]; cbn; intros Hfg; [done|].
  rewrite (Hfg x y), IH; set_solver.
Qed.

Lemma Forall2_sym_on {A} (R : A -> A -> Prop) l k :
  Forall (fun x => forall y, R x y -> R y x) l -> Forall2 R l k -> Forall2 R k l.
Proof.
  intros Hl H. induction H; constructor; inversion_clear Hl; auto.
Qed.
Lemma Forall2_trans_on {A} (R : A -> A -> Prop) l k m :
  Forall (fun x => forall y z, R x y -> R y z -> R x z) l ->
  Forall2 R l k -> Forall2 R k m -> Forall2 R l m.
Proof.
  intros Hl H. revert m. induction H; intros m Hm; inversion_clear Hm;
    inversion_clear Hl; constructor; eauto.
Qed.

(** ** Equations *)
Section Equations.
Context {TE : TypeEnv} {CV : Conversions}.

Lemma in_type_eq T n : in_type T n = existsb (fun s => in_spec s n) (return_specs T).
Proof.
  destruct T as [b| | | | | | | | |U|U| | | |]; try reflexivity.
  - destruct b; reflexivity.
  - cbn [in_type]. unfold return_specs, returns. cbn [type_info].
    destruct (decide _); [subst|]; reflexivity.
  - cbn [in_type]. unfold return_specs, returns. cbn [type_info].
    destruct (decide _); [subst|]; reflexivity.
Qed.

(** All specifications of a type have its value type. *)
Definition spec_of (T : ty) (s : QoreTypeSpec) : Prop :=
  forall U, spec_ti s = Some U -> value_type T = Some U.

Lemma specs_of T :
  Forall (spec_of T) (accept_specs T) /\ Forall (spec_of T) (return_specs T).
Proof.
  unfold accept_specs, return_specs, accepts, returns, spec_of.
  destruct T as [b| | | | | | | | | | | | | |];
    [destruct b|..]; cbn [type_info value_type]; try case_decide; subst;
    cbn; repeat constructor; cbn; congruence.
Qed.

Lemma accept_spec_of T s : s ∈ accept_specs T -> spec_of T s.
Proof. intros Hs. exact (proj1 (Forall_forall _ _) (proj1 (specs_of T)) s Hs). Qed.
Lemma return_spec_of T s : s ∈ return_specs T -> spec_of T s.
Proof. intros Hs. exact (proj1 (Forall_forall _ _) (proj2 (specs_of T)) s Hs). Qed.

Lemma value_type_depth T U : value_type T = Some U -> (depth U < depth T)%nat.
Proof. destruct T; cbn; intros [= ->]; lia. Qed.

Lemma spec_ti_depth T s U :
  s ∈ accept_specs T \/ s ∈ return_specs T -> spec_ti s = Some U ->
  (depth U < depth T)%nat.
Proof.
  intros [Hs|Hs] HU; apply value_type_depth;
    [eapply accept_spec_of|eapply return_spec_of]; eassumption.
Qed.

Lemma vec_compare_ext eq a b :
  Forall (fun s => forall t, spec_eq_ eq s t = spec_eq s t) a ->
  typespec_vec_compare eq a b =
  (bool_decide (length a = length b) && forallb (fun st => spec_eq st.1 st.2) (zip a b)).
Proof.
  revert b. induction a as [|s a IH]; intros [|t b] Ha; cbn;
    rewrite ?bool_decide_true by done; try reflexivity.
  inversion_clear Ha as [|? ? Hs Ha']. rewrite Hs, IH by done.
  destruct (decide (length a = length b)) as [E|E].
  - rewrite !bool_decide_true by lia. reflexivity.
  - rewrite !bool_decide_false by lia. cbn. apply andb_false_r.
Qed.

(** The comparison of vectors by [spec_eq]. *)
Definition specs_eq (a b : list QoreTypeSpec) : bool :=
  bool_decide (length a = length b) && forallb (fun st => spec_eq st.1 st.2) (zip a b).

Lemma equal_eq a b :
  equal a b =
  if decide (a = b) then true
  else if hasType a && hasType b
  then specs_eq (accept_specs a) (accept_specs b) &&
       specs_eq (return_specs a) (return_specs b)
  else negb (hasType a || hasType b).
Proof.
  assert (Hv : forall s eq, (s ∈ accept_specs a \/ s ∈ return_specs a) ->
    (forall U, value_type a = Some U -> eq = equal U) ->
    forall t, spec_eq_ eq s t = spec_eq s t).
  { intros s eq Hs Heq t. unfold spec_eq.
    destruct (spec_ti s) as [U|] eqn:E.
    - rewrite (Heq U); [done|].
      destruct Hs; [eapply accept_spec_of|eapply return_spec_of]; eassumption.
    - destruct s, t; cbn in *; congruence. }
  assert (Hc : forall eq, (forall U, value_type a = Some U -> eq = equal U) ->
    typespec_vec_compare eq (accept_specs a) (accept_specs b) =
      specs_eq (accept_specs a) (accept_specs b) /\
    typespec_vec_compare eq (return_specs a) (return_specs b) =
      specs_eq (return_specs a) (return_specs b)).
  { intros eq Heq. split; apply vec_compare_ext, Forall_forall; intros s Hs;
      apply (Hv s eq); auto. }
  destruct a; cbn [equal];
    match goal with |- context [typespec_vec_compare ?e (accept_specs ?x)] =>
      destruct (Hc e) as [-> ->]; [cbn; congruence|reflexivity] end.
Qed.

Lemma spec_eq_ti s t U : spec_ti s = Some U -> spec_eq s t = true ->
  exists W, spec_ti t = Some W /\ equal U W = true.
Proof.
  unfold spec_eq. intros E. rewrite E.
  destruct s, t; cbn in *; try discriminate; eauto.
Qed.

(** acceptInputIntern, with the functions on the value type. *)
Definition accept_value (T : ty) : arg_info -> value -> sink -> value * sink :=
  match value_type T with
  | Some U => acceptInputIntern U
  | None => fun _ n xs => (n, xs)
  end.
Definition accepts_value_of (T : ty) : value -> qore_type_result_e :=
  match value_type T with
  | Some U => runtimeAcceptsValue U
  | None => fun _ => QTI_NOT_EQUAL
  end.
Lemma acceptInputIntern_eq T a n xs :
  acceptInputIntern T a n xs =
  accept_specs_loop (accept_value T) (accepts_value_of T) (accepts T) T a n xs.
Proof. destruct T; reflexivity. Qed.
End Equations.

(** ** Equal types *)
Section Equality.
Context {TE : TypeEnv} {TL : TypeLaws}.

#[local] Instance hd_equiv : Equivalence (fun a b => hd_equal a b = true) :=
  hd_equal_equiv.
#[local] Instance class_equiv : Equivalence (fun a b => class_equal a b = true) :=
  class_equal_equiv.

Lemma hd_equal_refl a : hd_equal a a = true.
Proof. by apply (reflexivity (R := fun a b => hd_equal a b = true)). Qed.
Lemma hd_equal_trans a b c :
  hd_equal a b = true -> hd_equal b c = true -> hd_equal a c = true.
Proof. apply (transitivity (R := fun a b => hd_equal a b = true)). Qed.

Lemma equal_refl T : equal T T = true.
Proof. rewrite equal_eq. by rewrite decide_True. Qed.

Lemma spec_eq_refl s : spec_eq s s = true.
Proof.
  unfold spec_eq. destruct s; cbn; rewrite ?bool_decide_true by done;
    auto using equal_refl.
  - by apply (reflexivity (R := fun a b => class_equal a b = true)).
  - by apply (reflexivity (R := fun a b => hd_equal a b = true)).
Qed.

Lemma specs_eq_spec a b : specs_eq a b = true <-> Forall2 (fun s t => spec_eq s t = true) a b.
Proof.
  unfold specs_eq. rewrite andb_true_iff, bool_decide_eq_true. split.
  - intros [Hl Hz]. revert b Hl Hz.
    induction a as [|s a IH]; intros [|t b]; cbn; try discriminate; constructor.
    + by apply andb_true_iff in Hz as [? _].
    + apply IH; [lia|]. by apply andb_true_iff in Hz as [_ ?].
  - induction 1 as [|s t a b H Hab IH]; cbn; [done|].
    destruct IH as [IH1 IH2]. rewrite H, IH2. split; [lia|done].
Qed.

Lemma specs_eq_refl a : specs_eq a a = true.
Proof. apply specs_eq_spec. induction a; constructor; auto using spec_eq_refl. Qed.

(** Types are equal exactly if both are no types, or both have equal vectors. *)
Definition type_eqv (a b : ty) : Prop :=
  (hasType a = false /\ hasType b = false) \/
  (hasType a = true /\ hasType b = true /\
   Forall2 (fun s t => spec_eq s t = true) (accept_specs a) (accept_specs b) /\
   Forall2 (fun s t => spec_eq s t = true) (return_specs a) (return_specs b)).

Lemma equal_spec a b : equal a b = true <-> type_eqv a b.
Proof.
  rewrite equal_eq. unfold type_eqv. case_decide as E.
  - subst b. split; [intros _|done].
    destruct (hasType a); [right|by left].
    split_and!; try done; apply specs_eq_spec, specs_eq_refl.
  - destruct (hasType a), (hasType b); cbn;
      rewrite ?andb_true_iff, ?specs_eq_spec; intuition congruence.
Qed.

Lemma spec_eq_sym_of s t :
  (forall U W, spec_ti s = Some U -> equal U W = true -> equal W U = true) ->
  spec_eq s t = true -> spec_eq t s = true.
Proof.
  intros HU. unfold spec_eq. destruct s, t; cbn in *; try discriminate;
    rewrite ?bool_decide_eq_true; try congruence; eauto.
  - by apply (symmetry (R := fun a b => class_equal a b = true)).
  - by apply (symmetry (R := fun a b => hd_equal a b = true)).
Qed.

Lemma spec_eq_trans_of r s t :
  (forall U V W, spec_ti r = Some U -> equal U V = true -> equal V W = true ->
     equal U W = true) ->
  spec_eq r s = true -> spec_eq s t = true -> spec_eq r t = true.
Proof.
  intros HU. unfold spec_eq. destruct r, s; cbn in *; try discriminate;
    destruct t; cbn in *; try discriminate;
    rewrite ?bool_decide_eq_true; try congruence; eauto.
  - apply (transitivity (R := fun a b => class_equal a b = true)).
  - apply (transitivity (R := fun a b => hd_equal a b = true)).
Qed.

Lemma equal_sym a b : equal a b = true -> equal b a = true.
Proof.
  revert b. induction a as [a IH] using (well_founded_induction
    (Wf_nat.well_founded_ltof _ depth)).
  intros b. rewrite !equal_spec. unfold type_eqv.
  intros [[]|(Ha & Hb & H1 & H2)]; [by left|right].
  split_and!; try done; eapply Forall2_sym_on; try eassumption;
    apply Forall_forall; intros s Hs t; apply spec_eq_sym_of; intros U W HU;
    apply IH; unfold Wf_nat.ltof; eapply spec_ti_depth; eauto.
Qed.

Lemma equal_trans a b c : equal a b = true -> equal b c = true -> equal a c = true.
Proof.
  revert b c. induction a as [a IH] using (well_founded_induction
    (Wf_nat.well_founded_ltof _ depth)).
  intros b c. rewrite !equal_spec. unfold type_eqv.
  intros [[]|(Ha & Hb & H1 & H2)] [[]|(Hb' & Hc & H3 & H4)];
    try congruence; [by left|right].
  split_and!; try done; eapply Forall2_trans_on; try eassumption;
    apply Forall_forall; intros s Hs t u; apply spec_eq_trans_of;
    intros U V W HU; apply IH; unfold Wf_nat.ltof; eapply spec_ti_depth; eauto.
Qed.

(** Equal types have the same values. *)
Lemma in_type_no_type T n : hasType T = false -> in_type T n = true.
Proof.
  destruct T as [b| | | | | | | | | | | | | |]; try discriminate.
  - destruct b; try discriminate; reflexivity.
  - unfold hasType, accepts. cbn [type_info]. by case_decide.
  - unfold hasType, accepts. cbn [type_info]. by case_decide.
Qed.

Lemma accept_object_equal u u' o : class_equal u u' = true ->
  type_spec_accept_object u o = type_spec_accept_object u' o.
Proof.
  intros H. unfold type_spec_accept_object.
  by rewrite (class_get_equal u u' o H), (class_access_equal u u' H).
Qed.

Lemma hd_equal_right a b c : hd_equal a b = true -> hd_equal c a = hd_equal c b.
Proof.
  intros H. apply eq_true_iff_eq. split; intros H'.
  - exact (transitivity (R := fun a b => hd_equal a b = true) H' H).
  - exact (transitivity (R := fun a b => hd_equal a b = true) H'
             (symmetry (R := fun a b => hd_equal a b = true) H)).
Qed.

Lemma in_spec_equal s t n :
  (forall U W m, spec_ti s = Some U -> equal U W = true -> in_type U m = in_type W m) ->
  spec_eq s t = true -> in_spec s n = in_spec t n.
Proof.
  intros HU. unfold spec_eq, in_spec.
  destruct s, t; cbn; try discriminate; rewrite ?bool_decide_eq_true;
    intros E; subst; try reflexivity.
  - destruct n; try reflexivity. by rewrite (accept_object_equal _ _ _ E).
  - destruct n as [| | | | | | | | | | | | | |? [?|]]; try reflexivity.
    by apply hd_equal_right.
  - destruct n; try reflexivity. apply forallb_ext_on. intros. by apply HU.
  - destruct n; try reflexivity. apply forallb_ext_on. intros. by apply HU.
  - destruct n; try reflexivity. apply forallb_ext_on. intros. by apply HU.
Qed.

Lemma in_type_equal a b n : equal a b = true -> in_type a n = in_type b n.
Proof.
  revert b n. induction a as [a IH] using (well_founded_induction
    (Wf_nat.well_founded_ltof _ depth)).
  intros b n. rewrite equal_spec. intros [[Ha Hb]|(_ & _ & _ & H)].
  - by rewrite !in_type_no_type.
  - rewrite !in_type_eq. eapply existsb_Forall2; [exact H|].
    intros s t Hs Hst. apply in_spec_equal; [|exact Hst].
    intros U W m HU. apply IH. unfold Wf_nat.ltof. eapply spec_ti_depth; eauto.
Qed.

(** A superset by its vectors has the values of the other type. *)
Lemma spec_prefix_spec t a :
  spec_prefix t a = true <->
  exists a1 a2, a = a1 ++ a2 /\ Forall2 (fun s r => spec_eq s r = true) t a1.
Proof.
  revert a. induction t as [|s t IH]; intros a; cbn.
  - split; [|done]. intros _. exists [], a. by split; [|constructor].
  - destruct a as [|r a]; [split; [done|]|].
    { intros (a1 & a2 & E & H). inversion H; subst; discriminate. }
    rewrite andb_true_iff, IH. split.
    + intros [Hs (a1 & a2 & -> & H)]. exists (r :: a1), a2. split; [done|by constructor].
    + intros (a1 & a2 & E & H). inversion H; subst. injection E as -> ->. eauto 6.
Qed.

Lemma superSetOf_in_type a t n :
  superSetOf_ a t = true -> in_type t n = true -> in_type a n = true.
Proof.
  unfold superSetOf_. rewrite andb_true_iff. intros [_ H].
  apply spec_prefix_spec in H as (a1 & a2 & E & H).
  rewrite !in_type_eq, E, existsb_app. intros Hn. apply orb_true_iff. left.
  rewrite <- Hn. symmetry. eapply existsb_Forall2; [exact H|].
  intros s r Hs Hsr. apply in_spec_equal; [|exact Hsr].
  intros. by apply in_type_equal.
Qed.
End Equality.

(** ** Stripping *)
Section Strip.
Context {TE : TypeEnv}.

Lemma plain_refSelf v : plain (refSelf v) = plain v.
Proof. by destruct_value v. Qed.

Lemma in_spec_refSelf e s v : in_spec_ e s (refSelf v) = in_spec_ e s v.
Proof. by destruct_value v; destruct s as [[]| | | | | | | | | |]. Qed.

Lemma in_type_refSelf T v : in_type T (refSelf v) = in_type T v.
Proof.
  rewrite !in_type_eq. induction (return_specs T) as [|s l IH]; cbn; [done|].
  unfold in_spec at 1 3. by rewrite in_spec_refSelf, IH.
Qed.

Lemma wf_refSelf v : wf_value (refSelf v) = wf_value v.
Proof. by destruct_value v. Qed.

Lemma getTypeInfo_refSelf v : getTypeInfo (refSelf v) = getTypeInfo v.
Proof. by destruct v as [| | | | | | | | | | | | |[] [] ? ?|[] [] [] ? ?]. Qed.

(** The equations of copy_strip_complex_types. *)
Lemma copy_strip_list keep t u l :
  copy_strip_complex_types keep (VList false t u l) =
  if negb (some_value_type (list_getValueTypeInfo t)) ||
     bool_decide (getTypeInfo (VList false t u l) = listTypeInfo)
  then (if keep then VList false t false l else VList false t u l)
  else VList false None true (copy_strip_complex_types (keep || negb u) <$> l).
Proof.
  cbn [copy_strip_complex_types has_complex_type refSelf].
  destruct (some_value_type _); cbn [negb orb]; [|by destruct keep].
  case_decide as E;
    [rewrite bool_decide_true by done; by destruct keep
    |rewrite bool_decide_false by done].
  reflexivity.
Qed.

Lemma copy_strip_hash keep h t u l :
  copy_strip_complex_types keep (VHash false h t u l) =
  if negb (bool_decide (is_Some h) || some_value_type (hash_getValueTypeInfo t)) ||
     bool_decide (getTypeInfo (VHash false h t u l) = hashTypeInfo)
  then (if keep then VHash false h t false l else VHash false h t u l)
  else VHash false None None true
         (map_members (copy_strip_complex_types (keep || negb u)) l).
Proof.
  cbn [copy_strip_complex_types has_complex_type refSelf].
  destruct (bool_decide _ || some_value_type _); cbn [negb orb]; [|by destruct keep].
  case_decide as E;
    [rewrite bool_decide_true by done; by destruct keep
    |rewrite bool_decide_false by done].
  f_equal. unfold map_members. by induction l as [|[k v] l IH]; cbn; [|rewrite IH].
Qed.

Lemma copy_strip_other keep n :
  getType n <> NT_LIST -> getType n <> NT_HASH ->
  copy_strip_complex_types keep n = n.
Proof. by destruct_value n; destruct keep. Qed.

Lemma getTypeInfo_list_tag w T u l : wf_tag (getComplexListValueType T) = true ->
  getTypeInfo (VList w (Some T) u l) <> listTypeInfo.
Proof. cbn. intros H ->. done. Qed.
Lemma getTypeInfo_hash_tag w T u l : wf_tag (getComplexHashValueType T) = true ->
  getTypeInfo (VHash w None (Some T) u l) <> hashTypeInfo.
Proof. cbn. intros H ->. done. Qed.

Lemma some_value_type_tag o : wf_tag o = true -> some_value_type o = true.
Proof.
  destruct o as [U|]; cbn; [|done]. intros [H _]%andb_true_iff. exact H.
Qed.

(** A stripped value has no complex types, and is well-formed. *)
Lemma copy_strip_plain keep n : wf_value n = true ->
  plain (copy_strip_complex_types keep n) = true /\
  wf_value (copy_strip_complex_types keep n) = true.
Proof.
  revert keep. pattern n. apply value_nested_ind; clear n;
    [intros v|intros w t u l IH keep Hwf|intros w h t u l IH keep Hwf].
  - destruct v; try exact I; intros keep Hwf; by destruct keep.
  - destruct w; [by rewrite copy_strip_other|].
    rewrite copy_strip_list. cbn in Hwf. apply andb_true_iff in Hwf as [Ht Hl].
    destruct t as [T|]; cbn [list_getValueTypeInfo mbind option_bind].
    + apply andb_true_iff in Ht as [Ht _].
      rewrite some_value_type_tag by done.
      rewrite bool_decide_false by (by apply getTypeInfo_list_tag). cbn.
      clear Ht. rewrite !forallb_map_on.
      induction IH as [|v l Hv IHl IH2]; cbn in *; [done|].
      apply andb_true_iff in Hl as [Hvl Hl].
      specialize (Hv (keep || negb u) Hvl) as [-> ->]. cbn. auto.
    + cbn. by destruct keep; cbn; rewrite Ht, Hl.
  - destruct w; [by rewrite copy_strip_other|].
    rewrite copy_strip_hash. cbn in Hwf. apply andb_true_iff in Hwf as [Ht Hl].
    assert (Hstrip : plain (VHash false None None true
        (map_members (copy_strip_complex_types (keep || negb u)) l)) = true /\
      wf_value (VHash false None None true
        (map_members (copy_strip_complex_types (keep || negb u)) l)) = true).
    { clear Ht. cbn. unfold map_members. rewrite !forallb_map_on. cbn.
      induction IH as [|[k v] l Hv IHl IH2]; cbn in *; [done|].
      apply andb_true_iff in Hl as [Hvl Hl].
      specialize (Hv (keep || negb u) Hvl) as [-> ->]. cbn. auto. }
    destruct h as [hd|]; [|destruct t as [T|]].
    + rewrite (bool_decide_true (is_Some (Some hd))) by eauto. cbn [orb negb].
      rewrite bool_decide_false by done. exact Hstrip.
    + apply andb_true_iff in Ht as [Ht _]. cbn [hash_getValueTypeInfo mbind option_bind].
      rewrite some_value_type_tag, orb_true_r by done.
      rewrite bool_decide_false by (by apply getTypeInfo_hash_tag). exact Hstrip.
    + cbn. by destruct keep; cbn; rewrite Ht, Hl.
Qed.
End Strip.
