(* ===== verification/TypeSound.v ===== *)
(** * Assignments give values of the type

    What acceptInputIntern gives without an exception is a well-formed value of
    the type: for each specification of each type, and for the loops that fold
    containers. *)
From S2P Require Import Prelude TypeInfo TypeMatch TypeAccept TypeSpec.

(** ** Sinks

    Exceptions stay in the sink. *)
Lemma failed_nil xs : failed xs = false <-> xs = [].
Proof. unfold failed. rewrite bool_decide_eq_false. destruct xs; intuition congruence. Qed.
Lemma failed_raise k xs : failed (raise k xs) = true.
Proof. by apply bool_decide_eq_true. Qed.
#[local] Arguments raise : simpl never.
Lemma failed_append d xs : failed (appendLastDescription d xs) = failed xs.
Proof. by destruct xs. Qed.

Section Sinks.
Context {TE : TypeEnv} {CV : Conversions}.
Context (accept : arg_info -> value -> sink -> value * sink).
Context (accepts_value : value -> qore_type_result_e).

Definition grows (f : sink -> sink) : Prop :=
  forall xs, failed xs = true -> failed (f xs) = true.

Context (Haccept : forall a n, grows (fun xs => (accept a n xs).2)).

Lemma accept_static_grows vti a n : grows (fun xs => (accept_static accept vti a n xs).2).
Proof.
  intros xs Hx. unfold accept_static. repeat case_match; try done. by apply Haccept.
Qed.

Lemma fold_list_grows a l xs : failed xs = true ->
  failed (fold_list accept a l xs).1.2 = true.
Proof.
  revert xs. induction l as [|v l IH]; intros xs Hx; cbn; [done|].
  pose proof (Haccept a v xs Hx) as Hg. cbn beta in Hg. destruct (accept a v xs) as [v' xs'].
  cbn in Hg. by rewrite Hg.
Qed.
Lemma fold_hash_grows a l xs : failed xs = true ->
  failed (fold_hash accept a l xs).1.2 = true.
Proof.
  revert xs. induction l as [|[k v] l IH]; intros xs Hx; cbn; [done|].
  pose proof (Haccept a v xs Hx) as Hg. cbn beta in Hg. destruct (accept a v xs) as [v' xs'].
  cbn in Hg. by rewrite Hg.
Qed.
Lemma fold_elements_grows vti i l xs : failed xs = true ->
  failed (fold_elements accept vti i l xs).1.2 = true.
Proof.
  revert i xs. induction l as [|v l IH]; intros i xs Hx; cbn; [done|].
  case_match.
  - specialize (IH (i + 1) xs Hx). by destruct (fold_elements _ _ _ _ _) as [[]].
  - pose proof (accept_static_grows vti (Arg "parameter" false i None) v xs Hx) as Hg.
    cbn in Hg. destruct (accept_static _ _ _ _ _) as [v' xs']. cbn in Hg. by rewrite Hg.
Qed.

Lemma newComplexList_grows T n : grows (fun xs => (newComplexListFromValue accept T n xs).2).
Proof.
  intros xs Hx. unfold newComplexListFromValue.
  assert (Hs : forall v, failed (let '(v, xs) := accept_static accept
      (getReturnComplexListOrNothing T)
      (Arg "lvalue" false (-1) (Some "<list assignment>"%string)) v xs in
      if failed xs then (VNothing, xs) else (VList false (Some T) true [v], xs)).2 = true).
  { intros v. pose proof (accept_static_grows (getReturnComplexListOrNothing T)
      (Arg "lvalue" false (-1) (Some "<list assignment>"%string)) v xs Hx) as Hg.
    cbn in Hg. destruct (accept_static _ _ _ _ _). cbn in Hg. by rewrite Hg. }
  destruct n as [| | | | | | | | | | | | |[] t u l|]; try apply Hs; [done|].
  destruct (match t with Some _ => _ | None => _ end); [done|].
  pose proof (fold_elements_grows (getReturnComplexListOrNothing T) 0
    (if u then l else refSelf <$> l) xs Hx) as Hg.
  destruct (fold_elements _ _ _ _ _) as [[l' xs'] err]. by destruct err.
Qed.

Lemma apply_map_grows f n : grows (fun xs => (apply_map accept f n xs).2).
Proof.
  intros xs Hx.
  assert (Hp : forall r, failed (of_parse r xs).2 = true).
  { intros []; [done|apply failed_raise]. }
  assert (Hs : forall vti, failed (map_softlist_value accept vti n xs).2 = true).
  { intros vti. unfold map_softlist_value.
    repeat case_match; try done; by apply newComplexList_grows. }
  destruct f; cbn; try done; try apply Hp; try apply Hs; try by apply newComplexList_grows.
  case_match; try done; apply Hs.
Qed.

Lemma complex_hash_grows U T a w h t u l xs : failed xs = true ->
  failed (acceptInputComplexHash accept U T a w h t u l xs).1.2 = true.
Proof.
  intros Hx. unfold acceptInputComplexHash, folded_hash. case_match; [done|].
  destruct u; cbn [negb andb]; [|by rewrite Hx].
  pose proof (fold_hash_grows a l xs Hx) as Hg.
  destruct (fold_hash _ _ _ _) as [[l' xs'] []]; cbn in *; by rewrite ?failed_append.
Qed.
Lemma complex_list_grows U T a w t u l xs : failed xs = true ->
  failed (acceptInputComplexList accept U T a w t u l xs).1.2 = true.
Proof.
  intros Hx. unfold acceptInputComplexList, folded_list. case_match; [done|].
  destruct u; cbn [negb andb]; [|by rewrite Hx].
  pose proof (fold_list_grows a l xs Hx) as Hg.
  destruct (fold_list _ _ _ _) as [[l' xs'] []]; cbn in *; by rewrite ?failed_append.
Qed.

Lemma accept_spec_grows s T a n xs : failed xs = true ->
  failed (accept_spec accept accepts_value s T a n xs).1.2 = true.
Proof.
  intros Hx. destruct s; cbn; try done;
    repeat (match goal with
            | |- context [match ?x with _ => _ end] =>
                lazymatch x with
                | acceptInputComplexHash _ ?U ?T ?a ?w ?h ?t ?u ?l _ =>
                    pose proof (complex_hash_grows U T a w h t u l xs Hx);
                    destruct x as [[? ?] ?]
                | acceptInputComplexList _ ?U ?T ?a ?w ?t ?u ?l _ =>
                    pose proof (complex_list_grows U T a w t u l xs Hx);
                    destruct x as [[? ?] ?]
                | _ => destruct x
                end
            end; cbn in *); try done.
Qed.

Lemma acceptInput_grows s T map a n xs : failed xs = true ->
  failed (acceptInput accept accepts_value s T map a n xs).1.2 = true.
Proof.
  intros Hx. unfold acceptInput.
  pose proof (accept_spec_grows s T a n xs Hx) as Hg.
  destruct (accept_spec _ _ _ _ _ _ _) as [[[[[]|] n'] xs'] p]; cbn in Hg; [| |done].
  - destruct map as [f|]; [|done].
    pose proof (apply_map_grows f n' xs' Hg) as Hf. cbn in Hf.
    destruct (apply_map _ _ _ _) as [n2 xs2]. cbn in *. rewrite Hf.
    by rewrite failed_append.
  - destruct p; [apply failed_raise|done].
Qed.

Lemma accept_specs_grows l T a n xs : failed xs = true ->
  failed (accept_specs_loop accept accepts_value l T a n xs).2 = true.
Proof.
  revert n xs. induction l as [|s l IH]; intros n xs Hx; cbn; [apply failed_raise|].
  pose proof (acceptInput_grows (a_spec s) T (a_map s) a n xs Hx) as Hg.
  destruct (acceptInput _ _ _ _ _ _ _ _) as [[n' xs'] []]; cbn in *; [done|].
  by apply IH.
Qed.
End Sinks.

Lemma acceptInputIntern_grows `{TE : TypeEnv} `{CV : Conversions} T a n :
  grows (fun xs => (acceptInputIntern T a n xs).2).
Proof.
  revert a n. induction T as [T IH] using (well_founded_induction
    (Wf_nat.well_founded_ltof _ depth)).
  intros a n xs Hx. rewrite acceptInputIntern_eq. apply accept_specs_grows; [|done].
  intros a' n' ys Hy. unfold accept_value.
  destruct (value_type T) as [U|] eqn:E; [|done].
  apply IH; [|done]. by apply value_type_depth.
Qed.

(** ** Soundness *)
Section Sound.
Context {TE : TypeEnv} {TL : TypeLaws} {CV : Conversions}.

Definition good (T : ty) (v : value) : Prop :=
  in_type T v = true /\ wf_value v = true.

Lemma in_type_intro T s v :
  s ∈ return_specs T -> in_spec s v = true -> in_type T v = true.
Proof.
  intros Hs Hv. rewrite in_type_eq. apply existsb_exists. exists s. split; [|done].
  by apply list_elem_of_In.
Qed.

(** The types of lists and hashes. *)
Lemma list_type_cases T U : getComplexListValueType T = Some U ->
  T = ComplexList U \/ T = ComplexListOrNothing U \/
  T = ComplexSoftList U \/ T = ComplexSoftListOrNothing U.
Proof.
  unfold getComplexListValueType, first_return, returns. destruct (hasType T); [|done].
  destruct T as [b| | | | | | | | | | | | | |]; cbn [type_info];
    [by destruct b|..]; repeat case_decide; cbn; intros E;
    repeat match goal with H : _ \/ _ |- _ => destruct H as [[=]|[=]] end;
    simplify_eq; eauto 6.
Qed.
Lemma hash_type_cases T U : getComplexHashValueType T = Some U ->
  T = ComplexHash U \/ T = ComplexHashOrNothing U.
Proof.
  unfold getComplexHashValueType, first_return, returns. destruct (hasType T); [|done].
  destruct T as [b| | | | | | | | | | | | | |]; cbn [type_info];
    [by destruct b|..]; repeat case_decide; cbn; intros E;
    repeat match goal with H : _ \/ _ |- _ => destruct H as [[=]|[=]] end;
    simplify_eq; eauto 6.
Qed.

Lemma value_type_in_type T U :
  getComplexListValueType T = Some U -> forall w t u l,
  in_type T (VList w t u l) = forallb (in_type U) l.
Proof.
  intros HU w t u l. rewrite in_type_eq.
  destruct (list_type_cases T U HU) as [->|[->|[->| ->]]];
    unfold return_specs, returns; cbn [type_info];
    try destruct (decide (U = autoTypeInfo)); subst; cbn; destruct w;
    by rewrite ?orb_false_r.
Qed.
Lemma value_type_in_hash T U :
  getComplexHashValueType T = Some U -> forall w h t u l,
  in_type T (VHash w h t u l) = forallb (fun kv => in_type U kv.2) l.
Proof.
  intros HU w h t u l. rewrite in_type_eq.
  destruct (hash_type_cases T U HU) as [->| ->];
    unfold return_specs, returns; cbn [type_info]; cbn; destruct w;
    by rewrite ?orb_false_r.
Qed.

(** A value has its own type. *)
Lemma own_type v : wf_value v = true -> in_type (getTypeInfo v) v = true.
Proof.
  destruct v as [| | | | | | | | | | | |w o id vd|w t u l|w h t u l]; intros Hwf;
    try reflexivity.
  - cbn in Hwf. apply existsb_exists in Hwf as (s & Hs & Hr).
    apply (in_type_intro _ s); [by apply list_elem_of_In|].
    by destruct s as [[]| | | | | | | | | |].
  - cbn. unfold type_spec_accept_object. by rewrite class_get_self.
  - cbn in Hwf. apply andb_true_iff in Hwf as [Ht Hl].
    destruct t as [T|]; [|reflexivity]. cbn [getTypeInfo].
    destruct (getComplexListValueType T) as [U|] eqn:E; [|done].
    rewrite (value_type_in_type T U E). by apply andb_true_iff in Ht as [_ Ht].
  - cbn in Hwf. apply andb_true_iff in Hwf as [Ht Hl].
    destruct h as [hd|]; [|destruct t as [T|]; [|reflexivity]].
    + cbn. by rewrite orb_false_r, hd_equal_refl.
    + cbn [getTypeInfo].
      destruct (getComplexHashValueType T) as [U|] eqn:E; [|done].
      rewrite (value_type_in_hash T U E). by apply andb_true_iff in Ht as [_ Ht].
Qed.

Lemma superSetOf_own U v : wf_value v = true -> U <> anyTypeInfo ->
  superSetOf (Some U) (getTypeInfo v) = true -> in_type U v = true.
Proof.
  intros Hwf HU. cbn. destruct (hasType U) eqn:E.
  - destruct (hasType (getTypeInfo v)); [|done]. intros Hs.
    eapply superSetOf_in_type; [exact Hs|]. by apply own_type.
  - intros _. by apply in_type_no_type.
Qed.

(** What a conversion makes, by its type code; [None] for conversions to lists with
    a type. *)
Definition map_type (f : q_type_map_t) : option qore_type_t :=
  match f with
  | assignNothing => Some NT_NOTHING
  | map_parseHex | map_parseBase64 | map_parseBase64Url
  | map_binary_string | map_binary_empty => Some NT_BINARY
  | map_get_plain_hash => Some NT_HASH
  | map_get_plain_list | map_list_empty | map_list_value => Some NT_LIST
  | map_number_float | map_number_int | map_number_string | map_number_zero =>
      Some NT_NUMBER
  | map_float_int | map_asFloat | map_float_zero => Some NT_FLOAT
  | map_asBigInt | map_int_zero | map_timeout => Some NT_INT
  | map_asBool | map_false => Some NT_BOOLEAN
  | map_string_int | map_string_float | map_string_node | map_string_empty =>
      Some NT_STRING
  | map_date_node | map_date_int | map_date_zero => Some NT_DATE
  | _ => None
  end.

(** A specification with a type code is answered by the return vector. *)
Definition simple_checked (T : ty) (a : QoreAcceptSpec) : bool :=
  match a_spec a with
  | QTS_TYPE q =>
      match a_map a with
      | None => bool_decide (q <> NT_LIST) && bool_decide (q <> NT_HASH) &&
                bool_decide (QTS_TYPE q ∈ return_specs T)
      | Some f =>
          match map_type f with
          | Some q' =>
              bool_decide (QTS_TYPE q' ∈ return_specs T) &&
              match f with
              | map_get_plain_hash => bool_decide (q = NT_HASH)
              | map_get_plain_list => bool_decide (q = NT_LIST)
              | _ => true
              end
          | None => false
          end
      end
  | _ => false
  end.

Lemma base_checked b : declarable (Base b) = true ->
  forallb (simple_checked (Base b)) (accepts (Base b)) = true.
Proof. destruct b; try discriminate; intros _; vm_compute; reflexivity. Qed.

(** What is to be shown of a specification of a type. *)
Definition spec_sound (T : ty) (s : QoreAcceptSpec) : Prop :=
  forall a v, wf_value v = true ->
  let '(v', xs', ok) := acceptInput (accept_value T) (accepts_value_of T)
                          (a_spec s) T (a_map s) a v [] in
  if ok then xs' = [] -> good T v' else v' = v.

Lemma accept_value_grows T a n : grows (fun xs => (accept_value T a n xs).2).
Proof.
  unfold accept_value. destruct (value_type T); [apply acceptInputIntern_grows|by intros xs].
Qed.

Lemma loop_sound T l a v : Forall (spec_sound T) l -> wf_value v = true ->
  (accept_specs_loop (accept_value T) (accepts_value_of T) l T a v []).2 = [] ->
  good T (accept_specs_loop (accept_value T) (accepts_value_of T) l T a v []).1.
Proof.
  intros Hl Hwf. induction Hl as [|s l Hs Hl IH]; cbn; [done|].
  specialize (Hs a v Hwf). destruct (acceptInput _ _ _ _ _ _ _ _) as [[v' xs'] []].
  - cbn. auto.
  - subst v'. destruct xs' as [|x xs']; [exact IH|].
    intros E. exfalso.
    pose proof (accept_specs_grows (accept_value T) (accepts_value_of T)
      (accept_value_grows T) l T a v (x :: xs') eq_refl) as Hg.
    rewrite E in Hg. discriminate.
Qed.

Lemma stripVal_plain v : wf_value v = true ->
  plain (stripVal v) = true /\ wf_value (stripVal v) = true.
Proof.
  intros Hwf. unfold stripVal.
  destruct_value v; try done;
    cbn [getType]; by apply copy_strip_plain.
Qed.

Lemma map_sound acc f q v : map_type f = Some q -> wf_value v = true ->
  (f = map_get_plain_hash -> getType v = NT_HASH) ->
  (f = map_get_plain_list -> getType v = NT_LIST) ->
  (apply_map acc f v []).2 = [] ->
  in_spec (QTS_TYPE q) (apply_map acc f v []).1 = true /\
  wf_value (apply_map acc f v []).1 = true.
Proof.
  intros Hf Hwf Hh Hl.
  destruct f; try discriminate; injection Hf as <-; cbn; try (by split);
    try (match goal with |- (of_parse ?r _).2 = _ -> _ => by destruct r end);
    intros _.
  - specialize (Hh eq_refl). unfold get_plain_hash.
    destruct (copy_strip_plain false v Hwf) as [Hp Hw]. split; [|done].
    destruct v as [| | | | | | | | | | | |[] ? ? ?|[] ? ? ?|[] h t u l];
      try discriminate.
    rewrite copy_strip_hash in *. case_match; [|done].
    cbn in Hp. apply andb_true_iff in Hp as [Hp _].
    apply andb_true_iff in Hp as [->%bool_decide_eq_true ->%bool_decide_eq_true]. done.
  - specialize (Hl eq_refl). unfold get_plain_list.
    destruct (copy_strip_plain false v Hwf) as [Hp Hw]. split; [|done].
    destruct v as [| | | | | | | | | | | |[] ? ? ?|[] t u l|[] ? ? ? ?];
      try discriminate.
    rewrite copy_strip_list in *. case_match; [|done].
    cbn in Hp. by apply andb_true_iff in Hp as [->%bool_decide_eq_true _].
  - destruct (stripVal_plain v Hwf) as [-> ->]. done.
Qed.

Lemma simple_sound T s : simple_checked T s = true -> spec_sound T s.
Proof.
  unfold simple_checked, spec_sound, acceptInput.
  destruct s as [[q| | | | | | | | | |] f e]; try discriminate. cbn [a_spec a_map].
  intros Hc a v Hwf. cbn [accept_spec union_t].
  destruct (bool_decide (q = NT_ALL \/ q = getType v)) eqn:Hq; [|reflexivity].
  apply bool_decide_eq_true in Hq. destruct f as [f|].
  - destruct (map_type f) as [q'|] eqn:Ef; [|done].
    apply andb_true_iff in Hc as [Hr%bool_decide_eq_true Hc].
    pose proof (map_sound (accept_value T) f q' v Ef Hwf) as Hm.
    destruct (apply_map _ _ _ _) as [v' xs']. cbn in Hm. intros Hxs.
    assert (xs' = []) as -> by (destruct xs'; [done|discriminate]).
    destruct Hm as [Hs Hw]; [intros ->; apply bool_decide_eq_true in Hc;
      destruct Hq; congruence..|done|].
    split; [by eapply in_type_intro|done].
  - rewrite !andb_true_iff, !bool_decide_eq_true in Hc. destruct Hc as [[Hl Hh] Hr].
    intros _. split; [|done]. eapply in_type_intro; [exact Hr|].
    destruct Hq as [->| ->]; [done|].
    by destruct_value v.
Qed.

(** ** Soundness of folding *)
Definition sound_at (U : ty) : Prop :=
  forall a v, wf_value v = true -> (acceptInputIntern U a v []).2 = [] ->
  good U (acceptInputIntern U a v []).1.

Definition all_good (U : ty) (l : list value) : Prop :=
  forallb (in_type U) l = true /\ forallb wf_value l = true.

Lemma all_good_cons U v l : good U v -> all_good U l -> all_good U (v :: l).
Proof. intros [H1 H2] [H3 H4]. split; cbn; by rewrite ?H1, ?H2, ?H3, ?H4. Qed.

Lemma all_good_refSelf U l : all_good U l -> all_good U (refSelf <$> l).
Proof.
  unfold all_good. rewrite !forallb_map_on.
  intros [H1 H2]. split; [rewrite <- H1|rewrite <- H2]; apply forallb_ext_on;
    intros; apply in_type_refSelf || apply wf_refSelf.
Qed.
Lemma wf_refSelf_list l : forallb wf_value (refSelf <$> l) = forallb wf_value l.
Proof. rewrite forallb_map_on. apply forallb_ext_on, wf_refSelf. Qed.

Lemma fold_list_sound U a l : sound_at U -> forallb wf_value l = true ->
  (fold_list (acceptInputIntern U) a l []).1.2 = [] ->
  (fold_list (acceptInputIntern U) a l []).2 = false /\
  all_good U (fold_list (acceptInputIntern U) a l []).1.1.
Proof.
  intros HU. induction l as [|v l IH]; cbn; [done|].
  intros [Hv Hl]%andb_true_iff. specialize (HU a v Hv).
  destruct (acceptInputIntern U a v []) as [v' xs']. cbn in HU.
  destruct (failed xs') eqn:E; [intros Hx; cbn in Hx; by subst|].
  apply failed_nil in E as ->. specialize (IH Hl).
  destruct (fold_list _ _ _ _) as [[l' xs'] err]. cbn in *.
  intros Hx. destruct (IH Hx) as [-> Hl']. split; [done|]. apply all_good_cons; auto.
Qed.

Lemma fold_hash_sound U a l : sound_at U ->
  forallb (fun kv => wf_value kv.2) l = true ->
  (fold_hash (acceptInputIntern U) a l []).1.2 = [] ->
  (fold_hash (acceptInputIntern U) a l []).2 = false /\
  all_good U (snd <$> (fold_hash (acceptInputIntern U) a l []).1.1).
Proof.
  intros HU. induction l as [|[k v] l IH]; cbn; [done|].
  intros [Hv Hl]%andb_true_iff. specialize (HU a v Hv).
  destruct (acceptInputIntern U a v []) as [v' xs']. cbn in HU.
  destruct (failed xs') eqn:E; [intros Hx; cbn in Hx; by subst|].
  apply failed_nil in E as ->. specialize (IH Hl).
  destruct (fold_hash _ _ _ _) as [[l' xs'] err]. cbn in *.
  intros Hx. destruct (IH Hx) as [-> Hl']. split; [done|]. apply all_good_cons; auto.
Qed.

(** The type that a folded container gets has the value type. *)
Definition list_type (T U : ty) : Prop :=
  T = ComplexList U \/ T = ComplexListOrNothing U \/
  T = ComplexSoftList U \/ T = ComplexSoftListOrNothing U.
Definition hash_type (T U : ty) : Prop :=
  T = ComplexHash U \/ T = ComplexHashOrNothing U.

Lemma hash_type_value T U : hash_type T U ->
  getComplexHashValueType T = Some U.
Proof.
  intros [->| ->]; unfold getComplexHashValueType; cbn; case_decide as E; try done;
    destruct E as [[=]|[=]]; by subst.
Qed.
Lemma list_type_value T U : list_type T U -> U <> autoTypeInfo ->
  getComplexListValueType T = Some U.
Proof.
  unfold getComplexListValueType, first_return, hasType, accepts, returns.
  intros [->|[->|[->| ->]]] HU; cbn; rewrite ?decide_False by done; cbn;
    rewrite ?bool_decide_true by done; cbn;
    rewrite ?decide_False by (by intros [[=]|[=]]); done.
Qed.

(** The value types of "or nothing" types of containers. *)
Lemma getReturnComplexHash_type T U : hash_type T U ->
  getReturnComplexHashOrNothing T = Some U.
Proof.
  intros HT. unfold getReturnComplexHashOrNothing.
  assert (returns_or_nothing T = true) as -> by (by destruct HT as [->| ->]).
  destruct HT as [->| ->]; cbn; rewrite ?bool_decide_true by done; cbn;
    case_decide as E; try done; by destruct E as [[=]|[=]]; subst.
Qed.
Lemma getReturnComplexList_type T U : list_type T U ->
  getReturnComplexListOrNothing T = Some U.
Proof.
  intros HT. unfold getReturnComplexListOrNothing.
  assert (returns_or_nothing T = true) as ->.
  { destruct HT as [->|[->|[->| ->]]]; try reflexivity;
      unfold returns_or_nothing, returns; cbn [type_info]; by case_decide. }
  assert (exists s, first_return T = Some s /\ spec_getComplexList s = Some U)
    as (s & -> & Hs).
  { unfold first_return, hasType, accepts, returns.
    destruct HT as [->|[->|[->| ->]]]; cbn [type_info]; try case_decide; subst;
      cbn; rewrite ?bool_decide_true by done; cbn; eauto. }
  cbn. case_decide as E; [|done].
  destruct HT as [->|[->|[->| ->]]];
    by destruct E as [[=]|[[=]|[[=]|[=]]]]; subst.
Qed.

Lemma hash_get_value_type T U : hash_type T U -> U <> anyTypeInfo ->
  hash_type (get_value_type T) U.
Proof.
  intros HT HU. unfold get_value_type. case_match; [|done]. left.
  rewrite (getReturnComplexHash_type T U HT).
  destruct HT as [->| ->]; cbn; rewrite ?bool_decide_true by done; cbn;
    unfold qore_get_complex_hash_type; by rewrite decide_False.
Qed.
Lemma list_get_value_type T U : list_type T U -> U <> anyTypeInfo ->
  list_type (get_value_type T) U.
Proof.
  intros HT HU. unfold get_value_type. case_match; [|done]. left.
  rewrite (getReturnComplexList_type T U HT).
  assert (typeinfo_map T = None /\ getTypedHash T = None /\ getReturnClass T = None /\
          getReturnComplexHashOrNothing T = None) as (-> & -> & -> & ->).
  { unfold getTypedHash, getReturnClass, getReturnComplexHashOrNothing, first_return,
      hasType, accepts, returns_or_nothing, returns.
    destruct HT as [->|[->|[->| ->]]]; cbn [type_info]; try case_decide; subst;
      cbn; rewrite ?bool_decide_true by done; cbn;
      split_and!; try done; repeat case_match; try done;
      match goal with H : _ \/ _ |- _ => by destruct H as [[=]|[=]] end. }
  cbn. unfold qore_get_complex_list_type. by rewrite decide_False.
Qed.

Lemma forallb_snd {A} (f : value -> bool) (l : list (A * value)) :
  forallb (fun kv => f kv.2) l = forallb f (snd <$> l).
Proof. by rewrite forallb_map_on. Qed.

Lemma equal_elements U vt (l : list value) :
  equal_opt U vt = true ->
  (forall W, vt = Some W -> forallb (in_type W) l = true) ->
  forallb (in_type U) l = true.
Proof.
  intros E Hl. destruct vt as [W|].
  - rewrite <- (Hl W eq_refl). apply forallb_ext_on. intros n. by apply in_type_equal.
  - apply negb_true_iff in E.
    induction l as [|v l IH]; cbn; [done|]. rewrite in_type_no_type by done.
    apply IH. discriminate.
Qed.

Lemma wf_list_elements w t u l W : wf_value (VList w t u l) = true ->
  list_getValueTypeInfo t = Some W -> forallb (in_type W) l = true.
Proof.
  cbn. intros [Ht _]%andb_true_iff HW. destruct t as [T|]; [|done].
  cbn in HW. rewrite HW in Ht. by apply andb_true_iff in Ht as [_ Ht].
Qed.
Lemma wf_hash_elements w h t u l W : wf_value (VHash w h t u l) = true ->
  hash_getValueTypeInfo t = Some W -> forallb (in_type W) (snd <$> l) = true.
Proof.
  cbn. intros [Ht _]%andb_true_iff HW. destruct t as [T|]; [|done].
  cbn in HW. rewrite HW in Ht. apply andb_true_iff in Ht as [_ Ht].
  by rewrite forallb_map_on.
Qed.
Lemma wf_list_values w t u l : wf_value (VList w t u l) = true ->
  forallb wf_value l = true.
Proof. cbn. by intros [_ H]%andb_true_iff. Qed.
Lemma wf_hash_values w h t u l : wf_value (VHash w h t u l) = true ->
  forallb (fun kv => wf_value kv.2) l = true.
Proof. cbn. by intros [_ H]%andb_true_iff. Qed.

Lemma wf_tag_some U : U <> anyTypeInfo -> wf_type U = true -> wf_tag (Some U) = true.
Proof. intros H1 H2. cbn. by rewrite bool_decide_true, H2. Qed.

Lemma typed_list_wf w T U u l : list_type T U -> U <> anyTypeInfo ->
  wf_type U = true -> U <> autoTypeInfo -> all_good U l ->
  wf_value (VList w (Some T) u l) = true.
Proof.
  intros HT H1 H2 H3 [Hl Hw]. cbn. rewrite (list_type_value T U HT H3).
  rewrite wf_tag_some by done. cbn. by rewrite Hl, Hw.
Qed.
Lemma typed_hash_wf w h T U u l : hash_type T U -> U <> anyTypeInfo ->
  wf_type U = true -> all_good U (snd <$> l) ->
  wf_value (VHash w h (Some T) u l) = true.
Proof.
  intros HT H1 H2 [Hl Hw]. cbn. rewrite (hash_type_value T U HT).
  rewrite wf_tag_some by done. cbn. by rewrite !forallb_snd, Hl, Hw.
Qed.

Lemma folded_hash_sound T T' U a w h l :
  hash_type T U -> hash_type T' U -> U <> anyTypeInfo -> wf_type U = true ->
  sound_at U -> forallb (fun kv => wf_value kv.2) l = true ->
  (folded_hash (acceptInputIntern U) U a w h T' l []).1.2 = [] ->
  (folded_hash (acceptInputIntern U) U a w h T' l []).2 = false /\
  good T (folded_hash (acceptInputIntern U) U a w h T' l []).1.1.
Proof.
  intros HT HT' HU HwU Hs Hl. unfold folded_hash.
  pose proof (fold_hash_sound U a l Hs Hl) as Hf.
  destruct (fold_hash _ _ _ _) as [[l2 xs2] err]. cbn in Hf |- *. intros Hx.
  destruct Hf as [-> Hg]; [destruct err; [by destruct xs2|done]|].
  split; [done|]. split; [|by eapply typed_hash_wf].
  rewrite (value_type_in_hash T U) by (by apply hash_type_value).
  rewrite forallb_snd. apply Hg.
Qed.
Lemma folded_list_sound T T' U a w l :
  list_type T U -> list_type T' U -> U <> anyTypeInfo -> U <> autoTypeInfo ->
  wf_type U = true -> sound_at U -> forallb wf_value l = true ->
  (folded_list (acceptInputIntern U) U a w T' l []).1.2 = [] ->
  (folded_list (acceptInputIntern U) U a w T' l []).2 = false /\
  good T (folded_list (acceptInputIntern U) U a w T' l []).1.1.
Proof.
  intros HT HT' HU HA HwU Hs Hl. unfold folded_list.
  pose proof (fold_list_sound U a l Hs Hl) as Hf.
  destruct (fold_list _ _ _ _) as [[l2 xs2] err]. cbn in Hf |- *. intros Hx.
  destruct Hf as [-> Hg]; [destruct err; [by destruct xs2|done]|].
  split; [done|]. split; [|by eapply typed_list_wf].
  rewrite (value_type_in_type T U) by (by apply list_type_value). apply Hg.
Qed.

Lemma complex_hash_sound T U a w h t u l :
  hash_type T U -> U <> anyTypeInfo -> wf_type U = true -> sound_at U ->
  wf_value (VHash w h t u l) = true ->
  (acceptInputComplexHash (acceptInputIntern U) U T a w h t u l []).1.2 = [] ->
  (acceptInputComplexHash (acceptInputIntern U) U T a w h t u l []).2 = false /\
  good T (acceptInputComplexHash (acceptInputIntern U) U T a w h t u l []).1.1.
Proof.
  intros HT HU HwU Hs Hwf. unfold acceptInputComplexHash.
  destruct (equal_opt U (hash_getValueTypeInfo t)) eqn:E.
  - cbn. intros _. split; [done|]. split; [|done].
    rewrite (value_type_in_hash T U) by (by apply hash_type_value).
    rewrite forallb_snd. apply (equal_elements U _ _ E).
    intros W. by apply wf_hash_elements with (1 := Hwf).
  - apply wf_hash_values in Hwf. destruct u; cbn [negb andb failed];
      apply folded_hash_sound; auto using hash_get_value_type.
    unfold map_members. rewrite forallb_map_on. rewrite <- Hwf.
    apply forallb_ext_on. intros [k v]. apply wf_refSelf.
Qed.

Lemma complex_list_sound T U a w t u l :
  list_type T U -> U <> anyTypeInfo -> U <> autoTypeInfo -> wf_type U = true ->
  sound_at U -> wf_value (VList w t u l) = true ->
  (acceptInputComplexList (acceptInputIntern U) U T a w t u l []).1.2 = [] ->
  (acceptInputComplexList (acceptInputIntern U) U T a w t u l []).2 = false /\
  good T (acceptInputComplexList (acceptInputIntern U) U T a w t u l []).1.1.
Proof.
  intros HT HU HA HwU Hs Hwf. unfold acceptInputComplexList.
  destruct (equal_opt U (list_getValueTypeInfo t)) eqn:E.
  - cbn. intros _. split; [done|]. split; [|done].
    rewrite (value_type_in_type T U) by (by apply list_type_value).
    apply (equal_elements U _ _ E). intros W. by apply wf_list_elements with (1 := Hwf).
  - apply wf_list_values in Hwf. destruct u; cbn [negb andb failed];
      apply folded_list_sound; auto using list_get_value_type.
    by rewrite wf_refSelf_list.
Qed.

(** *** newComplexListFromValue *)
Lemma accept_static_sound U a v : U <> anyTypeInfo -> sound_at U ->
  wf_value v = true ->
  (accept_static (acceptInputIntern U) (Some U) a v []).2 = [] ->
  good U (accept_static (acceptInputIntern U) (Some U) a v []).1.
Proof.
  intros HU Hs Hwf. unfold accept_static. cbn [hasType_opt].
  destruct (hasType U) eqn:E; [by apply Hs|].
  assert (forall v, wf_value v = true -> good U v) as Hall.
  { intros v' Hw. split; [by apply in_type_no_type|done]. }
  case_decide as EU; cbn; intros _; apply Hall; [done|].
  unfold stripTypeInfo, get_plain_hash, get_plain_list.
  case_match; try done; by apply copy_strip_plain.
Qed.

Lemma fold_elements_sound U i l : U <> anyTypeInfo -> sound_at U ->
  forallb wf_value l = true ->
  (fold_elements (acceptInputIntern U) (Some U) i l []).1.2 = [] ->
  (fold_elements (acceptInputIntern U) (Some U) i l []).2 = false /\
  all_good U (fold_elements (acceptInputIntern U) (Some U) i l []).1.1.
Proof.
  intros HU Hs. revert i. induction l as [|v l IH]; intros i; cbn [fold_elements]; [done|].
  intros [Hv Hl]%andb_true_iff. specialize (IH (i + 1) Hl).
  destruct (superSetOf (Some U) (getTypeInfo v)) eqn:E.
  - destruct (fold_elements _ _ _ _ _) as [[l' xs'] err]. cbn in *.
    intros Hx. destruct (IH Hx) as [-> Hl']. split; [done|].
    apply all_good_cons; [|done]. split; [by apply superSetOf_own|done].
  - pose proof (accept_static_sound U (Arg "parameter" false i None) v HU Hs Hv) as Ha.
    destruct (accept_static _ _ _ _ _) as [v' xs']. cbn in Ha.
    destruct (failed xs') eqn:Ex; [intros Hx; cbn in Hx; by subst|].
    apply failed_nil in Ex as ->.
    destruct (fold_elements _ _ _ _ _) as [[l' xs'] err]. cbn in *.
    intros Hx. destruct (IH Hx) as [-> Hl']. split; [done|]. apply all_good_cons; auto.
Qed.

Lemma newComplexList_sound U v : U <> anyTypeInfo -> U <> autoTypeInfo ->
  wf_type U = true -> sound_at U -> wf_value v = true ->
  (newComplexListFromValue (acceptInputIntern U) (ComplexList U) v []).2 = [] ->
  exists w t u l,
    (newComplexListFromValue (acceptInputIntern U) (ComplexList U) v []).1 =
      VList w t u l /\ forallb (in_type U) l = true /\
    wf_value (VList w t u l) = true.
Proof.
  intros HU HA HwU Hs Hwf. unfold newComplexListFromValue.
  rewrite (getReturnComplexList_type (ComplexList U) U) by (by left).
  assert (Hother : let r := let '(v, xs) := accept_static (acceptInputIntern U) (Some U)
      (Arg "lvalue" false (-1) (Some "<list assignment>"%string)) v [] in
      if failed xs then (VNothing, xs) else (VList false (Some (ComplexList U)) true [v], xs)
      in r.2 = [] -> exists w t u l, r.1 = VList w t u l /\
        forallb (in_type U) l = true /\ wf_value (VList w t u l) = true).
  { pose proof (accept_static_sound U
      (Arg "lvalue" false (-1) (Some "<list assignment>"%string)) v HU Hs Hwf) as Ha.
    destruct (accept_static _ _ _ _ _) as [v' xs']. cbn in Ha.
    destruct (failed xs') eqn:E; [cbn; by intros ->|]. cbn. intros Hx.
    destruct (Ha Hx) as [H1 H2].
    exists false, (Some (ComplexList U)), true, [v']. split; [done|].
    split; [cbn; by rewrite H1|]. apply (typed_list_wf false (ComplexList U) U true); try done; [by left|].
    split; cbn; by rewrite ?H1, ?H2. }
  destruct v as [| | | | | | | | | | | |[] ? ? ?|[] t u l|[] ? ? ? ?];
    try exact Hother.
  - cbn. intros _. do 4 eexists. split; [done|]. split; [done|].
    apply (typed_list_wf false (ComplexList U) U true); try done; by left.
  - destruct (match t with Some _ => _ | None => _ end) eqn:E.
    + cbn. intros _. destruct t as [T|]; [|done]. do 4 eexists. split; [done|].
      split; [|done].
      assert (Hl : in_type (ComplexList U) (VList false (Some T) u l) = true).
      { rewrite (in_type_equal _ T) by done. by apply (own_type (VList false (Some T) u l)). }
      rewrite (value_type_in_type _ U) in Hl; [done|].
      apply list_type_value; [by left|done].
    + pose proof (fold_elements_sound U 0 (if u then l else refSelf <$> l) HU Hs) as Hf.
      apply wf_list_values in Hwf.
      destruct (fold_elements _ _ _ _ _) as [[l' xs'] err]. cbn in Hf.
      destruct err; cbn; intros Hx;
        (destruct Hf as [Hf Hg]; [by destruct u; rewrite ?wf_refSelf_list|done|]);
        [done|].
      do 4 eexists. split; [done|]. split; [apply Hg|].
      apply (typed_list_wf false (ComplexList U) U true); try done. by left.
Qed.

(** ** Soundness of the specifications of complex types *)
Lemma class_spec_sound T u e : QTS_CLASS u ∈ return_specs T ->
  spec_sound T (Acc (QTS_CLASS u) None e).
Proof.
  intros Hr a v Hwf. unfold acceptInput. cbn [a_spec a_map accept_spec].
  destruct v; try done. destruct (type_spec_accept_object u cls) eqn:E; cbn; try done.
  intros _. split; [|done]. eapply in_type_intro; [exact Hr|]. cbn.
  by apply bool_decide_eq_true.
Qed.

Lemma hashdecl_spec_sound T hd e : QTS_HASHDECL hd ∈ return_specs T ->
  spec_sound T (Acc (QTS_HASHDECL hd) None e).
Proof.
  intros Hr a v Hwf. unfold acceptInput. cbn [a_spec a_map accept_spec].
  destruct v as [| | | | | | | | | | | | | |w [h|] t u l]; try done.
  destruct (hd_equal h hd) eqn:E; cbn; try done.
  intros _. split; [|done]. by eapply in_type_intro.
Qed.

Lemma reference_spec_sound T s e : is_reference_spec s = true ->
  s <> QTS_TYPE NT_REFERENCE -> s ∈ return_specs T -> spec_sound T (Acc s None e).
Proof.
  intros Hs Hn Hr a v Hwf. unfold acceptInput. cbn [a_spec a_map].
  assert (Hgood : forall lv R, v = VRef lv R -> good T v).
  { intros lv R ->. split; [|done]. eapply in_type_intro; [exact Hr|].
    by destruct s as [[]| | | | | | | | | |]. }
  destruct s as [[]| | | | | | | | | |]; try done; cbn [accept_spec].
  - destruct (bool_decide (getType v = NT_REFERENCE)) eqn:E; [|done].
    apply bool_decide_eq_true in E. intros _. destruct_value v; try done. by eapply Hgood.
  - destruct v; cbn; try done.
    destruct (match getUniqueReturnComplexReference _ with Some _ => _ | None => _ end);
      [|done].
    destruct (lvalue_assign _ _); cbn; try done; intros; by eapply Hgood.
  - destruct v; cbn; try done.
    destruct (match getUniqueReturnComplexReference _ with Some _ => _ | None => _ end);
      [|done].
    destruct (lvalue_assign _ _); cbn; try done; intros; by eapply Hgood.
Qed.

Lemma hash_spec_sound T U e : hash_type T U -> U <> anyTypeInfo ->
  wf_type U = true -> sound_at U -> spec_sound T (Acc (QTS_COMPLEXHASH U) None e).
Proof.
  intros HT HU HwU Hs a v Hwf. unfold acceptInput. cbn [a_spec a_map accept_spec].
  assert (accept_value T = acceptInputIntern U) as -> by (by destruct HT as [->| ->]).
  destruct v as [| | | | | | | | | | | | | |w h t u l]; try done.
  case_decide as EU; cbn.
  - intros _. split; [|done]. subst U.
    rewrite (value_type_in_hash T autoTypeInfo) by (by apply hash_type_value).
    by apply forallb_forall.
  - pose proof (complex_hash_sound T U a w h t u l HT HU HwU Hs Hwf) as Hc.
    destruct (acceptInputComplexHash _ _ _ _ _ _ _ _ _ _) as [[v' xs'] err].
    cbn in Hc. destruct err; cbn; intros Hx; by destruct (Hc Hx).
Qed.

Lemma list_spec_sound T U e : list_type T U -> U <> anyTypeInfo ->
  U = autoTypeInfo \/ sound_at U -> wf_type U = true ->
  QTS_COMPLEXLIST U ∈ return_specs T -> spec_sound T (Acc (QTS_COMPLEXLIST U) None e).
Proof.
  intros HT HU Hs HwU Hr a v Hwf. unfold acceptInput. cbn [a_spec a_map accept_spec].
  assert (accept_value T = acceptInputIntern U) as ->
    by (by destruct HT as [->|[->|[->| ->]]]).
  destruct v as [| | | | | | | | | | | | |[] t u l|]; try done.
  case_decide as EU; cbn.
  - intros _. split; [|done]. subst U. eapply in_type_intro; [exact Hr|].
    cbn. by apply forallb_forall.
  - destruct Hs as [|Hs]; [done|].
    pose proof (complex_list_sound T U a false t u l HT HU EU HwU Hs Hwf) as Hc.
    destruct (acceptInputComplexList _ _ _ _ _ _ _ _ _) as [[v' xs'] err].
    cbn in Hc. cbn. intros Hx. by destruct (Hc Hx).
Qed.

Lemma list_value_good T U w t u l : list_type T U -> U <> autoTypeInfo ->
  forallb (in_type U) l = true -> wf_value (VList w t u l) = true ->
  good T (VList w t u l).
Proof.
  intros HT HA Hl Hw. split; [|done].
  by rewrite (value_type_in_type T U) by (by apply list_type_value).
Qed.

Lemma new_list_good T U v : list_type T U -> U <> anyTypeInfo ->
  U <> autoTypeInfo -> wf_type U = true -> sound_at U -> wf_value v = true ->
  (newComplexListFromValue (acceptInputIntern U) (qore_get_complex_list_type U) v []).2 = [] ->
  good T (newComplexListFromValue (acceptInputIntern U) (qore_get_complex_list_type U) v []).1.
Proof.
  intros HT HU HA HwU Hs Hwf. unfold qore_get_complex_list_type.
  rewrite decide_False by done. intros Hx.
  destruct (newComplexList_sound U v HU HA HwU Hs Hwf Hx) as (w & t & u & l & -> & H1 & H2).
  by apply (list_value_good T U).
Qed.

(** The two conversions of soft lists. *)
Definition softlist_map (U : ty) (f : q_type_map_t) : Prop :=
  f = map_softlist U \/ f = map_softlist_or_nothing U.

Lemma softlist_map_good T U f v : list_type T U -> softlist_map U f ->
  U <> anyTypeInfo -> U <> autoTypeInfo -> wf_type U = true -> sound_at U ->
  wf_value v = true -> (v = VNothing -> f = map_softlist_or_nothing U -> good T v) ->
  (forall t u l, v = VList false t u l -> list_getValueTypeInfo t = Some U -> good T v) ->
  (apply_map (acceptInputIntern U) f v []).2 = [] ->
  good T (apply_map (acceptInputIntern U) f v []).1.
Proof.
  intros HT Hf HU HA HwU Hs Hwf Hn Hl.
  pose proof (new_list_good T U v HT HU HA HwU Hs Hwf) as Hnew.
  assert (Hm : (map_softlist_value (acceptInputIntern U) U v []).2 = [] ->
    good T (map_softlist_value (acceptInputIntern U) U v []).1).
  { unfold map_softlist_value. destruct v; try exact Hnew.
    destruct weak; [exact Hnew|]. case_decide; [|exact Hnew].
    intros _. by eapply Hl. }
  destruct Hf as [->| ->]; cbn [apply_map]; [exact Hm|].
  destruct v; try exact Hm; try exact Hnew. intros _. by apply Hn.
Qed.

Lemma softlist_spec_sound T U f : list_type T U -> softlist_map U f ->
  U <> anyTypeInfo -> U <> autoTypeInfo -> wf_type U = true -> sound_at U ->
  (f = map_softlist_or_nothing U -> good T VNothing) ->
  spec_sound T (Acc (QTS_COMPLEXSOFTLIST U) (Some f) true).
Proof.
  intros HT Hf HU HA HwU Hs Hn a v Hwf. unfold acceptInput. cbn [a_spec a_map].
  assert (accept_value T = acceptInputIntern U) as ->
    by (by destruct HT as [->|[->|[->| ->]]]).
  assert (Hmap : forall v, wf_value v = true ->
    (forall t u l, v = VList false t u l -> list_getValueTypeInfo t = Some U -> good T v) ->
    let '(v', xs') := apply_map (acceptInputIntern U) f v [] in
    (if failed xs' then appendLastDescription (while_converting T) xs' else xs') = [] ->
    good T v').
  { intros w Hw Hv. pose proof (softlist_map_good T U f w HT Hf HU HA HwU Hs Hw) as Hm.
    destruct (apply_map _ _ _ _) as [v' xs']. cbn in Hm. intros Hx.
    apply Hm; [by intros ->|done|]. destruct xs'; [done|discriminate]. }
  assert (Hother : (forall t u l, v <> VList false t u l) ->
    let '(v', xs') := apply_map (acceptInputIntern U) f v [] in
    (if failed xs' then appendLastDescription (while_converting T) xs' else xs') = [] ->
    good T v') by (intros Hv; apply Hmap; [done|]; intros; exfalso; by eapply Hv).
  destruct v as [| | | | | | | | | | | |w o i vd|[] t u l|w h t u l]; cbn [accept_spec];
    try (case_bool_decide; [|reflexivity]; cbn;
         specialize (Hother ltac:(discriminate));
         destruct (apply_map _ _ _ _) as [v' xs']; exact Hother).
  rewrite decide_False by done. clear Hother.
  pose proof (complex_list_sound T U a false t u l HT HU HA HwU Hs Hwf) as Hc.
  destruct (acceptInputComplexList _ _ _ _ _ _ _ _ _) as [[v' xs'] err].
  cbn in Hc. destruct xs' as [|x xs'].
  - destruct (Hc eq_refl) as [_ [Hi Hw]]. specialize (Hmap v' Hw).
    destruct (apply_map _ _ _ _) as [v2 xs2]. apply Hmap. by split.
  - pose proof (apply_map_grows (acceptInputIntern U) (acceptInputIntern_grows U) f v'
      (x :: xs') eq_refl) as Hg. cbn in Hg.
    destruct (apply_map _ _ _ _) as [v2 xs2]. cbn in Hg. rewrite Hg.
    by destruct xs2.
Qed.

(** The specifications of soft lists for lists and for NOTHING. *)
Lemma new_list_spec_sound T U : list_type T U -> U <> anyTypeInfo ->
  U <> autoTypeInfo -> wf_type U = true -> sound_at U ->
  spec_sound T (acc_map NT_LIST (map_new_list U)).
Proof.
  intros HT HU HA HwU Hs a v Hwf. unfold acceptInput. cbn [a_spec a_map acc_map accept_spec].
  case_bool_decide as Hq; [|done]. cbn [apply_map].
  assert (accept_value T = acceptInputIntern U) as ->
    by (by destruct HT as [->|[->|[->| ->]]]).
  pose proof (new_list_good T U v HT HU HA HwU Hs Hwf) as Hm.
  destruct (newComplexListFromValue _ _ _ _) as [v' xs']. cbn in Hm. intros Hx.
  apply Hm. destruct xs'; [done|discriminate].
Qed.
Lemma typed_list_empty_sound T U : list_type T U -> U <> anyTypeInfo ->
  U <> autoTypeInfo -> wf_type U = true ->
  spec_sound T (acc_map NT_NOTHING (map_typed_list_empty U)).
Proof.
  intros HT HU HA HwU a v Hwf. unfold acceptInput. cbn [a_spec a_map acc_map accept_spec].
  case_bool_decide as Hq; [|done]. cbn. intros _. unfold new_list.
  rewrite decide_False by done.
  apply (list_value_good T U); [done..|].
  apply (typed_list_wf false (ComplexList U) U true); try done. by left.
Qed.

(** Soft lists without a value type. *)
Lemma auto_list_sound T q f : QTS_COMPLEXLIST autoTypeInfo ∈ return_specs T ->
  f = map_auto_list_value \/ f = map_auto_list_empty ->
  spec_sound T (acc_map q f).
Proof.
  intros Hr Hf a v Hwf. unfold acceptInput. cbn [a_spec a_map acc_map accept_spec].
  case_bool_decide; [|done].
  assert (Hg : forall l, forallb wf_value l = true ->
    good T (VList false (Some autoListTypeInfo) true l)).
  { intros l Hl.
    assert (Hall : forallb (in_type autoTypeInfo) l = true)
      by (by apply forallb_forall; intros; apply in_type_no_type).
    split; [by eapply in_type_intro|]. cbn.
    change (forallb (in_type autoTypeInfo) l && forallb wf_value l = true).
    by rewrite Hall, Hl. }
  destruct Hf as [->| ->]; cbn; intros _; apply Hg; cbn; by rewrite ?Hwf.
Qed.

Lemma simple_list_sound T l :
  forallb (simple_checked T) l = true -> Forall (spec_sound T) l.
Proof.
  intros H. apply Forall_forall. intros s Hs. apply simple_sound.
  rewrite forallb_forall in H. apply H. by apply list_elem_of_In.
Qed.

Lemma or_nothing_sound T : QTS_TYPE NT_NOTHING ∈ return_specs T ->
  Forall (spec_sound T) or_nothing.
Proof.
  intros Hr. apply simple_list_sound. cbn. unfold simple_checked. cbn.
  by rewrite !bool_decide_true by done.
Qed.

(** All specifications of a type are sound, if those of its value type are. *)
Lemma accepts_sound T : wf_type T = true -> declarable T = true ->
  (forall U, value_type T = Some U -> wf_type U = true -> declarable U = true ->
   sound_at U) ->
  Forall (spec_sound T) (accepts T).
Proof.
  intros Hw Hd IH.
  assert (Hv : forall U, value_type T = Some U -> U <> anyTypeInfo /\ wf_type U = true /\
    sound_at U).
  { intros U HU. assert (bool_decide (U <> anyTypeInfo) && wf_type U = true) as
      [H1%bool_decide_eq_true H2]%andb_true_iff
      by (destruct T; try discriminate HU; by injection HU as <-).
    split_and!; try done. apply IH; try done.
    destruct T; try discriminate HU; try discriminate Hd; by injection HU as <-. }
  clear IH. destruct T as [b|qc|qc|hd|hd|U|U|U|U|U|U|U|U|U|U]; try discriminate Hd;
    try (destruct (Hv U eq_refl) as (HU & HwU & Hs)); clear Hv.
  - apply simple_list_sound, base_checked, Hd.
  - repeat constructor. apply class_spec_sound. by left.
  - constructor; [apply class_spec_sound; by left|apply or_nothing_sound; right; left].
  - repeat constructor. apply hashdecl_spec_sound. by left.
  - constructor; [apply hashdecl_spec_sound; by left|apply or_nothing_sound; right; left].
  - repeat constructor. apply hash_spec_sound; try done. by left.
  - constructor; [apply hash_spec_sound; try done; by right|apply or_nothing_sound; right; left].
  - repeat constructor. apply list_spec_sound; auto; [by left|by left].
  - constructor; [|apply or_nothing_sound; right; left].
    apply list_spec_sound; auto; [by right; left|by left].
  - assert (list_type (ComplexSoftList U) U) as HT by (unfold list_type; auto).
    unfold accepts. cbn [type_info]. case_decide as EU.
    + assert (QTS_COMPLEXLIST autoTypeInfo ∈ return_specs (ComplexSoftList U)) as Hr
        by (subst U; by left).
      constructor; [subst U; apply list_spec_sound; auto|].
      constructor; [|constructor; [|constructor]]; eapply auto_list_sound; eauto.
    + constructor; [apply softlist_spec_sound; auto; [by left|discriminate]|].
      constructor; [by apply new_list_spec_sound|].
      constructor; [by apply typed_list_empty_sound|constructor].
  - assert (list_type (ComplexSoftListOrNothing U) U) as HT by (unfold list_type; auto).
    unfold accepts. cbn [type_info]. case_decide as EU.
    + assert (QTS_COMPLEXLIST autoTypeInfo ∈ return_specs (ComplexSoftListOrNothing U) /\
              QTS_TYPE NT_NOTHING ∈ return_specs (ComplexSoftListOrNothing U)) as [Hr Hn]
        by (subst U; split; [left|right; left]).
      constructor; [subst U; apply list_spec_sound; auto|].
      apply (Forall_app _ or_nothing [_]).
      split; [by apply or_nothing_sound|].
      constructor; [eapply auto_list_sound; eauto|constructor].
    + assert (QTS_TYPE NT_NOTHING ∈ return_specs (ComplexSoftListOrNothing U)) as Hn
        by (unfold return_specs, returns; cbn [type_info]; rewrite decide_False by done;
            cbn; right; left).
      constructor; [|constructor; [by apply new_list_spec_sound|by apply or_nothing_sound]].
      apply softlist_spec_sound; auto; [by right|].
      intros _. split; [|done]. by eapply in_type_intro.
  - repeat constructor. apply reference_spec_sound; [done|done|by left].
  - constructor; [|apply or_nothing_sound; right; left].
    apply reference_spec_sound; [done|done|by left].
Qed.

Lemma declarable_sound T : wf_type T = true -> declarable T = true -> sound_at T.
Proof.
  induction T as [T IH] using (well_founded_induction (Wf_nat.well_founded_ltof _ depth)).
  intros Hw Hd a v Hwf. rewrite acceptInputIntern_eq. intros Hx.
  apply loop_sound; try done. apply accepts_sound; try done.
  intros U HU. apply IH. by apply value_type_depth.
Qed.
End Sound.
