(* ===== verification/TypeComplete.v ===== *)
(** * Assignments keep the values of the type

    A value of the type is accepted, without an exception, and keeps its
    contents: only the types and the sharing of its containers may change. *)
From S2P Require Import Prelude TypeInfo TypeMatch TypeAccept TypeSpec TypeSound.

(** The contents of a value: without types and reference counts of containers. *)
Fixpoint contents (n : value) : value :=
  match n with
  | VList w _ _ l => VList w None true (contents <$> l)
  | VHash w _ _ _ l => VHash w None None true ((fun kv => (kv.1, contents kv.2)) <$> l)
  | n => n
  end.

(** No references in a value, neither weak ones nor those to lvalues. *)
Fixpoint strong (n : value) : bool :=
  match n with
  | VRef _ _ => false
  | VObject w _ _ _ => negb w
  | VList w _ _ l => negb w && forallb strong l
  | VHash w _ _ _ l => negb w && forallb (fun kv => strong kv.2) l
  | _ => true
  end.

Lemma strong_contents v : strong (contents v) = strong v.
Proof.
  pattern v. apply value_nested_ind; clear v; [by intros []|..].
  - intros w t u l IH. cbn. f_equal.
    induction IH as [|v l Hv IHl IH]; cbn; [done|]. by rewrite Hv, IH.
  - intros w h t u l IH. cbn. f_equal.
    induction IH as [|[k v] l Hv IHl IH]; cbn in *; [done|]. by rewrite Hv, IH.
Qed.
Lemma contents_strong v v' : contents v' = contents v -> strong v' = strong v.
Proof. intros E. by rewrite <- (strong_contents v'), E, strong_contents. Qed.

Lemma snd_map_members f l : snd <$> map_members f l = f <$> (snd <$> l).
Proof. unfold map_members. by rewrite <- !list_fmap_compose. Qed.

Lemma contents_refSelf v : contents (refSelf v) = contents v.
Proof. by destruct_value v. Qed.
Lemma strong_refSelf v : strong (refSelf v) = strong v.
Proof. apply contents_strong, contents_refSelf. Qed.

Lemma contents_copy_strip `{TE : TypeEnv} keep v :
  contents (copy_strip_complex_types keep v) = contents v.
Proof.
  revert keep. pattern v. apply value_nested_ind; clear v.
  - intros []; try exact I; intros []; by try destruct weak.
  - intros w t u l IH keep. destruct w; [by rewrite copy_strip_other|].
    rewrite copy_strip_list. destruct (_ || _); [by destruct keep|]. cbn. f_equal.
    induction IH as [|v l Hv IHl IH]; cbn; [done|]. by rewrite Hv, IH.
  - intros w h t u l IH keep. destruct w; [by rewrite copy_strip_other|].
    rewrite copy_strip_hash. destruct (_ || _); [by destruct keep|].
    cbn. f_equal. unfold map_members.
    induction IH as [|[k v] l Hv IHl IH]; cbn in *; [done|]. by rewrite Hv, IH.
Qed.

Lemma contents_stripTypeInfo `{TE : TypeEnv} v : contents (stripTypeInfo v) = contents v.
Proof.
  unfold stripTypeInfo, get_plain_hash, get_plain_list.
  case_match; by rewrite ?contents_copy_strip.
Qed.

(** If the first specification with the type code [q] keeps values of this code;
    [NT_ALL] stands for all values. *)
Fixpoint first_takes (q : qore_type_t) (l : list QoreAcceptSpec) : bool :=
  match l with
  | Acc (QTS_TYPE p) m _ :: l =>
      if decide (p = NT_ALL \/ p = q) then
        match m with
        | None => true
        | Some (map_get_plain_list | map_get_plain_hash) => true
        | Some _ => false
        end
      else bool_decide (q <> NT_ALL) && first_takes q l
  | _ => false
  end.
Lemma base_takes b : declarable (Base b) = true ->
  forallb (fun s => match s with
                    | QTS_TYPE q => first_takes q (accepts (Base b))
                    | _ => false
                    end) (r_spec <$> returns (Base b)) = true.
Proof. destruct b; try discriminate; intros _; vm_compute; reflexivity. Qed.

Section Complete.
Context {TE : TypeEnv} {TL : TypeLaws} {CV : Conversions}.

(** A value that may be given to a type. *)
Definition fits (T : ty) (v : value) : Prop :=
  in_type T v = true /\ wf_value v = true /\ strong v = true.

(** A function of a value takes it as it is. *)
Definition kept (v : value) (r : value * sink) : Prop :=
  r.2 = [] /\ contents r.1 = contents v.

Definition complete_at (U : ty) : Prop :=
  forall a v, fits U v -> kept v (acceptInputIntern U a v []).

(** ** Loops *)
Definition all_fit (U : ty) (l : list value) : Prop :=
  forallb (in_type U) l = true /\ forallb wf_value l = true /\ forallb strong l = true.
Lemma all_fit_cons U v l : all_fit U (v :: l) <-> fits U v /\ all_fit U l.
Proof. unfold all_fit, fits. cbn. rewrite !andb_true_iff. tauto. Qed.
Lemma all_fit_refSelf U l : all_fit U (refSelf <$> l) <-> all_fit U l.
Proof.
  unfold all_fit. rewrite !forallb_map_on.
  rewrite (forallb_ext_on (fun x => in_type U (refSelf x)) (in_type U)) by (intros; apply in_type_refSelf).
  rewrite (forallb_ext_on (fun x => wf_value (refSelf x)) wf_value) by (intros; apply wf_refSelf).
  by rewrite (forallb_ext_on (fun x => strong (refSelf x)) strong) by (intros; apply strong_refSelf).
Qed.

Lemma fold_list_kept U a l : complete_at U -> all_fit U l ->
  exists l', fold_list (acceptInputIntern U) a l [] = (l', [], false) /\
    contents <$> l' = contents <$> l.
Proof.
  intros HU. induction l as [|v l IH]; cbn; [eauto|].
  rewrite all_fit_cons. intros [Hv Hl]. destruct (HU a v Hv) as [H1 H2].
  destruct (acceptInputIntern U a v []) as [v' xs']. cbn in H1, H2. subst xs'. cbn.
  destruct (IH Hl) as (l' & -> & E). eexists. split; [done|]. cbn. by rewrite H2, E.
Qed.
Lemma fold_hash_kept U a l : complete_at U -> all_fit U (snd <$> l) ->
  exists l', fold_hash (acceptInputIntern U) a l [] = (l', [], false) /\
    map_members contents l' = map_members contents l.
Proof.
  intros HU. induction l as [|[k v] l IH]; cbn; [eauto|].
  rewrite all_fit_cons. intros [Hv Hl]. destruct (HU a v Hv) as [H1 H2].
  destruct (acceptInputIntern U a v []) as [v' xs']. cbn in H1, H2. subst xs'. cbn.
  destruct (IH Hl) as (l' & -> & E). eexists. split; [done|]. cbn.
  unfold map_members in E. by rewrite H2, E.
Qed.

Lemma accept_static_kept U a v : complete_at U -> fits U v ->
  kept v (accept_static (acceptInputIntern U) (Some U) a v []).
Proof.
  intros HU Hv. unfold accept_static. cbn [hasType_opt].
  destruct (hasType U); [by apply HU|]. case_decide; split; try done.
  apply contents_stripTypeInfo.
Qed.

Lemma fold_elements_kept U i l : complete_at U -> all_fit U l ->
  exists l', fold_elements (acceptInputIntern U) (Some U) i l [] = (l', [], false) /\
    contents <$> l' = contents <$> l.
Proof.
  intros HU. revert i. induction l as [|v l IH]; intros i; cbn [fold_elements]; [eauto|].
  rewrite all_fit_cons. intros [Hv Hl]. destruct (IH (i + 1) Hl) as (l' & El & E).
  destruct (superSetOf (Some U) (getTypeInfo v)).
  - rewrite El. eexists. split; [done|]. cbn. by rewrite E.
  - destruct (accept_static_kept U (Arg "parameter" false i None) v HU Hv) as [H1 H2].
    destruct (accept_static _ _ _ _ _) as [v' xs']. cbn in H1, H2. subst xs'. cbn.
    rewrite El. eexists. split; [done|]. cbn. by rewrite H2, E.
Qed.

(** ** Folding *)
Lemma complex_list_kept T U a w t u l : list_type T U -> complete_at U ->
  strong (VList w t u l) = true -> all_fit U l ->
  exists t' u' l', acceptInputComplexList (acceptInputIntern U) U T a w t u l [] =
      (VList w t' u' l', [], false) /\ contents <$> l' = contents <$> l.
Proof.
  intros HT HU Hw Hl. unfold acceptInputComplexList.
  assert (w = false) as -> by (by destruct w).
  destruct (equal_opt _ _); [eauto 10|].
  assert (Hf : forall T' l, all_fit U l -> exists l',
    folded_list (acceptInputIntern U) U a false T' l [] =
      (VList false (Some T') true l', [], false) /\ contents <$> l' = contents <$> l).
  { intros T' k Hk. unfold folded_list.
    destruct (fold_list_kept U a k HU Hk) as (l' & -> & E). eauto. }
  destruct u; cbn [negb andb failed].
  - destruct (Hf T l Hl) as (l' & -> & E). eauto 10.
  - destruct (Hf (get_value_type T) (refSelf <$> l)) as (l' & El & E);
      [by apply all_fit_refSelf|].
    change (failed []) with false. cbn [andb]. rewrite El. do 3 eexists. split; [done|].
    rewrite E. clear. induction l as [|v l IH]; cbn; [done|].
    by rewrite contents_refSelf, IH.
Qed.

Lemma complex_hash_kept T U a w h t u l : complete_at U ->
  strong (VHash w h t u l) = true -> all_fit U (snd <$> l) ->
  exists h' t' u' l', acceptInputComplexHash (acceptInputIntern U) U T a w h t u l [] =
      (VHash w h' t' u' l', [], false) /\ map_members contents l' = map_members contents l.
Proof.
  intros HU Hw Hl. unfold acceptInputComplexHash.
  assert (w = false) as -> by (by destruct w).
  destruct (equal_opt _ _); [eauto 10|].
  assert (Hf : forall h T' l, all_fit U (snd <$> l) -> exists l',
    folded_hash (acceptInputIntern U) U a false h T' l [] =
      (VHash false h (Some T') true l', [], false) /\
    map_members contents l' = map_members contents l).
  { intros h' T' k Hk. unfold folded_hash.
    destruct (fold_hash_kept U a k HU Hk) as (l' & -> & E). eauto. }
  destruct u; cbn [negb andb].
  - destruct (Hf h T l Hl) as (l' & -> & E). eauto 10.
  - change (failed []) with false. cbn [andb].
    destruct (Hf None (get_value_type T) (map_members refSelf l)) as (l' & -> & E).
    + rewrite snd_map_members. by apply all_fit_refSelf.
    + do 4 eexists. split; [done|]. rewrite E. clear. unfold map_members.
      induction l as [|[k v] l IH]; cbn; [done|]. by rewrite contents_refSelf, IH.
Qed.

(** ** newComplexListFromValue *)
Lemma newComplexList_kept U t u l : U <> anyTypeInfo -> complete_at U -> all_fit U l ->
  kept (VList false t u l)
    (newComplexListFromValue (acceptInputIntern U) (qore_get_complex_list_type U)
       (VList false t u l) []).
Proof.
  intros HU Hs Hl. unfold newComplexListFromValue, qore_get_complex_list_type.
  rewrite decide_False by done.
  rewrite (getReturnComplexList_type (ComplexList U) U) by (by left).
  destruct (match t with Some _ => _ | None => _ end); [done|].
  destruct (fold_elements_kept U 0 (if u then l else refSelf <$> l) Hs) as (l' & -> & E);
    [destruct u; by rewrite ?all_fit_refSelf|].
  split; [done|]. cbn. rewrite E. f_equal. destruct u; [done|].
  clear. induction l as [|v l IH]; cbn; [done|]. by rewrite contents_refSelf, IH.
Qed.

Lemma map_softlist_kept U t u l : U <> anyTypeInfo -> complete_at U -> all_fit U l ->
  kept (VList false t u l)
    (map_softlist_value (acceptInputIntern U) U (VList false t u l) []).
Proof.
  intros HU Hs Hl. unfold map_softlist_value. case_decide; [done|].
  by apply newComplexList_kept.
Qed.

(** ** The first specification that takes a value *)
Definition takes (T : ty) (v : value) (l : list QoreAcceptSpec) : Prop :=
  forall a, kept v (accept_specs_loop (accept_value T) (accepts_value_of T) l T a v []).

Lemma takes_head T v s l :
  (forall a, exists v', acceptInput (accept_value T) (accepts_value_of T) (a_spec s) T
                (a_map s) a v [] = (v', [], true) /\ contents v' = contents v) ->
  takes T v (s :: l).
Proof. intros H a. cbn. destruct (H a) as (v' & -> & E). done. Qed.
Lemma takes_tail T v s l :
  (forall a, acceptInput (accept_value T) (accepts_value_of T) (a_spec s) T
                (a_map s) a v [] = (v, [], false)) ->
  takes T v l -> takes T v (s :: l).
Proof. intros H Hl a. cbn. rewrite H. apply Hl. Qed.

Lemma first_takes_sound T q l v : first_takes q l = true ->
  q = NT_ALL \/ getType v = q -> takes T v l.
Proof.
  intros Hl Hq. induction l as [|[[p| | | | | | | | | |] m e] l IH]; try discriminate.
  cbn in Hl. case_decide as Hp.
  - apply takes_head. intros a. unfold acceptInput. cbn [a_spec a_map accept_spec union_t].
    rewrite bool_decide_true by (destruct Hp, Hq; subst; auto).
    destruct m as [[]|]; try discriminate; cbn; eauto;
      eexists; (split; [done|]); apply contents_copy_strip.
  - apply andb_true_iff in Hl as [Hn%bool_decide_eq_true Hl].
    apply takes_tail; [|by apply IH]. intros a. unfold acceptInput.
    cbn [a_spec a_map accept_spec union_t]. rewrite bool_decide_false; [done|].
    destruct Hq; naive_solver.
Qed.

Lemma in_spec_code q v : strong v = true -> in_spec (QTS_TYPE q) v = true ->
  q = NT_ALL \/ getType v = q.
Proof.
  intros Hs Hv. destruct (decide (q = NT_ALL)) as [|Hq]; [by left|right].
  destruct q; try done; destruct_value v; try done;
    unfold in_spec in Hv; cbn in Hv; destruct_value v; try done;
    by apply bool_decide_eq_true in Hv.
Qed.

(** ** Specifications of complex types *)
Lemma class_takes T u e l v : in_spec (QTS_CLASS u) v = true ->
  takes T v (Acc (QTS_CLASS u) None e :: l).
Proof.
  unfold in_spec. cbn. destruct v; try done.
  intros Hv%bool_decide_eq_true. apply takes_head. intros a. eexists. split; [|done].
  unfold acceptInput. cbn. by rewrite Hv.
Qed.

Lemma hashdecl_takes T hd e l v : in_spec (QTS_HASHDECL hd) v = true ->
  takes T v (Acc (QTS_HASHDECL hd) None e :: l).
Proof.
  unfold in_spec. cbn. destruct v as [| | | | | | | | | | | | | |? [h|]]; try done.
  intros Hv. apply takes_head. intros a. eexists. split; [|done].
  unfold acceptInput. cbn. by rewrite Hv.
Qed.

Lemma hash_takes T U e l v : hash_type T U -> complete_at U ->
  in_spec (QTS_COMPLEXHASH U) v = true -> wf_value v = true -> strong v = true ->
  takes T v (Acc (QTS_COMPLEXHASH U) None e :: l).
Proof.
  intros HT HU. unfold in_spec. cbn. destruct v as [| | | | | | | | | | | | | |w h t u k];
    try done.
  intros Hv Hwf Hs. apply takes_head. intros a. unfold acceptInput.
  cbn [a_spec a_map accept_spec].
  assert (accept_value T = acceptInputIntern U) as -> by (by destruct HT as [->| ->]).
  case_decide; [eauto|].
  destruct (complex_hash_kept T U a w h t u k) as (h' & t' & u' & k' & -> & E); try done.
  { rewrite forallb_snd in Hv. apply wf_hash_values in Hwf. rewrite forallb_snd in Hwf.
    apply andb_true_iff in Hs as [_ Hs]. rewrite forallb_snd in Hs. done. }
  eexists. split; [done|]. cbn. unfold map_members in E. by rewrite E.
Qed.

Lemma list_takes T U e l v : list_type T U -> complete_at U ->
  in_spec (QTS_COMPLEXLIST U) v = true -> wf_value v = true -> strong v = true ->
  takes T v (Acc (QTS_COMPLEXLIST U) None e :: l).
Proof.
  intros HT HU. unfold in_spec. cbn. destruct v as [| | | | | | | | | | | | |w t u k|];
    try done.
  intros Hv Hwf Hs. assert (w = false) as -> by (by destruct w).
  apply takes_head. intros a. unfold acceptInput. cbn [a_spec a_map accept_spec].
  assert (accept_value T = acceptInputIntern U) as ->
    by (by destruct HT as [->|[->|[->| ->]]]).
  case_decide; [eauto|].
  destruct (complex_list_kept T U a false t u k) as (t' & u' & k' & -> & E); try done.
  { split_and!; [done|by apply wf_list_values in Hwf|by apply andb_true_iff in Hs as []]. }
  eexists. split; [done|]. cbn. by rewrite E.
Qed.

Lemma all_fit_contents U l l' : contents <$> l' = contents <$> l ->
  forallb strong l = true -> forallb (in_type U) l' = true -> forallb wf_value l' = true ->
  all_fit U l'.
Proof.
  intros E Hs H1 H2. split_and!; [done..|]. revert l' E H1 H2.
  induction l as [|v l IH]; intros [|v' l'] E; try done. cbn in E.
  injection E as Ev El. cbn in *. apply andb_true_iff in Hs as [Hv Hs].
  intros [_ H1]%andb_true_iff [_ H2]%andb_true_iff.
  rewrite (contents_strong v v') by done. rewrite Hv. by apply IH.
Qed.

Lemma softlist_takes T U f l v : list_type T U -> softlist_map U f ->
  U <> anyTypeInfo -> U <> autoTypeInfo -> wf_type U = true -> sound_at U ->
  complete_at U ->
  in_spec (QTS_COMPLEXSOFTLIST U) v = true -> wf_value v = true -> strong v = true ->
  takes T v (Acc (QTS_COMPLEXSOFTLIST U) (Some f) true :: l).
Proof.
  intros HT Hf HU HA HwU Hso HC. unfold in_spec. cbn.
  destruct v as [| | | | | | | | | | | | |w t u k|]; try done.
  intros Hv Hwf Hs. assert (w = false) as -> by (by destruct w).
  apply takes_head. intros a. unfold acceptInput. cbn [a_spec a_map accept_spec].
  assert (accept_value T = acceptInputIntern U) as ->
    by (by destruct HT as [->|[->|[->| ->]]]).
  rewrite decide_False by done. apply andb_true_iff in Hs as [_ Hs].
  pose proof (complex_list_sound T U a false t u k HT HU HA HwU Hso Hwf) as Hc.
  destruct (complex_list_kept T U a false t u k) as (t' & u' & k' & E1 & E); try done.
  { split_and!; [done|by apply wf_list_values in Hwf|done]. }
  rewrite E1 in Hc |- *. cbn in Hc. destruct (Hc eq_refl) as [_ [Hi Hw]].
  rewrite (value_type_in_type T U) in Hi by (by apply list_type_value).
  assert (Hfit : all_fit U k')
    by (eapply all_fit_contents; eauto; by apply wf_list_values in Hw).
  destruct (map_softlist_kept U t' u' k' HU HC Hfit) as [H1 H2].
  assert (apply_map (acceptInputIntern U) f (VList false t' u' k') [] =
    map_softlist_value (acceptInputIntern U) U (VList false t' u' k') []) as ->
    by (by destruct Hf as [->| ->]).
  destruct (map_softlist_value _ _ _ _) as [v2 xs2]. cbn in H1, H2. subst xs2.
  eexists. split; [done|]. rewrite H2. cbn. by rewrite E.
Qed.

(** NOTHING in "or nothing" types. *)
Lemma nothing_takes T s e l : first_takes NT_NOTHING l = true ->
  match s with
  | QTS_CLASS _ | QTS_HASHDECL _ | QTS_COMPLEXHASH _ | QTS_COMPLEXLIST _ => True
  | _ => False
  end -> takes T VNothing (Acc s None e :: l).
Proof.
  intros Hl Hs. apply takes_tail.
  - intros a. unfold acceptInput. by destruct s.
  - eapply first_takes_sound; eauto.
Qed.

Lemma soft_nothing_takes T U l : first_takes NT_NOTHING l = true ->
  takes T VNothing (Acc (QTS_COMPLEXSOFTLIST U) (Some (map_softlist_or_nothing U)) true :: l).
Proof.
  intros Hl. unfold takes. cbn. unfold acceptInput. cbn.
  intros a. destruct (bool_decide _); cbn; [done|].
  eapply first_takes_sound; eauto.
Qed.

(** ** All types *)
Lemma in_nothing v : in_spec (QTS_TYPE NT_NOTHING) v = true -> v = VNothing.
Proof. unfold in_spec. cbn. by destruct_value v. Qed.

Ltac cases_of_type H :=
  rewrite in_type_eq in H; cbn in H; rewrite ?orb_false_r in H;
  repeat match type of H with
         | _ || _ = true => apply orb_true_iff in H as [H|H]
         end.

Lemma accepts_take T v : wf_type T = true -> declarable T = true -> fits T v ->
  (forall U, value_type T = Some U -> wf_type U = true -> declarable U = true ->
   complete_at U) ->
  takes T v (accepts T).
Proof.
  intros Hw Hd (Hin & Hwf & Hs) IH.
  assert (Hv : forall U, value_type T = Some U -> U <> anyTypeInfo /\ wf_type U = true /\
    sound_at U /\ complete_at U).
  { intros U HU. assert (bool_decide (U <> anyTypeInfo) && wf_type U = true) as
      [H1%bool_decide_eq_true H2]%andb_true_iff
      by (destruct T; try discriminate HU; by injection HU as <-).
    assert (declarable U = true)
      by (destruct T; try discriminate HU; try discriminate Hd; by injection HU as <-).
    split_and!; auto using declarable_sound. }
  clear IH. destruct T as [b|qc|qc|hd|hd|U|U|U|U|U|U|U|U|U|U]; try discriminate Hd;
    try (destruct (Hv U eq_refl) as (HU & HwU & Hso & HC)); clear Hv.
  - pose proof (base_takes b Hd) as Hb. rewrite forallb_forall in Hb.
    rewrite in_type_eq in Hin. apply existsb_exists in Hin as (s & Hr & Hin).
    specialize (Hb s Hr). destruct s as [q| | | | | | | | | |]; try discriminate Hb.
    eapply first_takes_sound; [exact Hb|]. by apply in_spec_code.
  - cases_of_type Hin. by apply class_takes.
  - cases_of_type Hin; [by apply class_takes|].
    apply in_nothing in Hin as ->. by apply nothing_takes.
  - cases_of_type Hin. by apply hashdecl_takes.
  - cases_of_type Hin; [by apply hashdecl_takes|].
    apply in_nothing in Hin as ->. by apply nothing_takes.
  - cases_of_type Hin. apply hash_takes; try done. by left.
  - cases_of_type Hin; [apply hash_takes; try done; by right|].
    apply in_nothing in Hin as ->. by apply nothing_takes.
  - cases_of_type Hin. apply list_takes; try done. by left.
  - cases_of_type Hin; [apply list_takes; try done; by right; left|].
    apply in_nothing in Hin as ->. by apply nothing_takes.
  - assert (list_type (ComplexSoftList U) U) as HT by (unfold list_type; auto).
    destruct (decide (U = autoTypeInfo)) as [->|EU].
    + rewrite in_type_eq in Hin. apply orb_true_iff in Hin as [Hin|]; [|done].
      by apply list_takes.
    + unfold accepts, return_specs, returns in *. rewrite in_type_eq in Hin.
      unfold return_specs, returns in Hin. cbn [type_info] in *.
      rewrite decide_False in Hin |- * by done. cbn in Hin. rewrite orb_false_r in Hin.
      apply softlist_takes; try done. by left.
  - assert (list_type (ComplexSoftListOrNothing U) U) as HT by (unfold list_type; auto).
    destruct (decide (U = autoTypeInfo)) as [->|EU].
    + rewrite in_type_eq in Hin. apply orb_true_iff in Hin as [Hin|Hin];
        [by apply list_takes|].
      apply orb_true_iff in Hin as [Hin|]; [|done].
      apply in_nothing in Hin as ->. by apply nothing_takes.
    + rewrite in_type_eq in Hin. unfold accepts, return_specs, returns in *.
      cbn [type_info] in *. rewrite decide_False in Hin |- * by done. cbn in Hin.
      rewrite orb_false_r in Hin. apply orb_true_iff in Hin as [Hin|Hin].
      * apply softlist_takes; try done. by right.
      * apply in_nothing in Hin as ->. by apply soft_nothing_takes.
  - exfalso. cases_of_type Hin. by destruct v.
  - cases_of_type Hin; [by destruct v|].
    apply in_nothing in Hin as ->. apply takes_tail; [done|].
    by eapply first_takes_sound; eauto.
Qed.

Lemma declarable_complete T : wf_type T = true -> declarable T = true -> complete_at T.
Proof.
  induction T as [T IH] using (well_founded_induction (Wf_nat.well_founded_ltof _ depth)).
  intros Hw Hd a v Hv. rewrite acceptInputIntern_eq.
  apply accepts_take; try done. intros U HU. apply IH. by apply value_type_depth.
Qed.
End Complete.
