(* ===== verification/TypeParse.v ===== *)
(** * What the parser finds out about assignments

    The recursion of QoreTypeSpec::match ends ([match_fuel] is enough), and an
    assignment that parseAccepts takes without reserve (the result is not
    NOT_EQUAL and [may_not_match] is not set) raises no type error. *)
From S2P Require Import Prelude TypeInfo TypeMatch TypeAccept TypeSpec TypeSound.
From S2P Require Import TypeComplete.

(** ** The recursion of match *)
Section Fuel.
Context {TE : TypeEnv}.

Lemma accept_depth T s : s ∈ accept_specs T -> (spec_depth s <= depth T)%nat.
Proof.
  intros Hs. unfold spec_depth. destruct (spec_ti s) eqn:E; [|lia].
  pose proof (spec_ti_depth T s _ (or_introl Hs) E). lia.
Qed.
Lemma return_depth T s : s ∈ return_specs T -> (spec_depth s <= depth T)%nat.
Proof.
  intros Hs. unfold spec_depth. destruct (spec_ti s) eqn:E; [|lia].
  pose proof (spec_ti_depth T s _ (or_intror Hs) E). lia.
Qed.

Lemma getTypeInfo_depth t : (depth (spec_getTypeInfo t) <= spec_depth t)%nat.
Proof.
  unfold spec_depth. destruct t; cbn; try lia;
    unfold qore_get_complex_hash_type, qore_get_complex_list_type;
    try case_decide; cbn; try lia. by destruct t.
Qed.

(** Two functions that agree on specifications of less depth. *)
Context (m m' : QoreTypeSpec -> QoreTypeSpec -> bool -> match_state -> mresult).
Context (n : nat).
Context (Hm : forall s t k st, (spec_depth s + spec_depth t < n)%nat ->
  m s t k st = m' s t k st).

Lemma accept_loop_ext l r k tnm ok st :
  Forall (fun a => (spec_depth (a_spec a) + spec_depth (r_spec r) < n)%nat) l ->
  accept_loop m l r k tnm ok st = accept_loop m' l r k tnm ok st.
Proof.
  intros Hl. revert tnm ok st. induction Hl as [|a l Ha Hl IH]; intros; cbn; [done|].
  unfold parseAcceptsIntern. rewrite Hm by done.
  repeat case_match; simplify_eq; try done; apply IH.
Qed.

Lemma return_loop_ext T l k ok st :
  Forall (fun r => (depth T + spec_depth (r_spec r) < n)%nat) l ->
  return_loop m T l k ok st = return_loop m' T l k ok st.
Proof.
  intros Hl. revert ok st. induction Hl as [|r l Hr Hl IH]; intros; cbn; [done|].
  rewrite accept_loop_ext.
  - repeat case_match; simplify_eq; try done; apply IH.
  - apply Forall_forall. intros a Ha.
    pose proof (accept_depth T (a_spec a)
      ltac:(unfold accept_specs; apply list_elem_of_fmap; eauto)). lia.
Qed.

Lemma parseAccepts6_ext T S k st : (depth T + depth S < n)%nat ->
  parseAccepts6 m T S k st = parseAccepts6 m' T S k st.
Proof.
  intros Hd. unfold parseAccepts6, parseAccepts_.
  assert (Hr : Forall (fun r => (depth T + spec_depth (r_spec r) < n)%nat) (returns S)).
  { apply Forall_forall. intros r Hr. pose proof (return_depth S (r_spec r)
      ltac:(unfold return_specs; apply list_elem_of_fmap; eauto)). lia. }
  repeat case_match; try done; by apply return_loop_ext.
Qed.
Lemma match_type_ext T S st : (depth T + depth S < n)%nat ->
  match_type m T S st = match_type m' T S st.
Proof.
  intros Hd. unfold match_type, parseAccepts4. by rewrite parseAccepts6_ext.
Qed.

Lemma near_match_ext l k rc d e : (d + e < n)%nat ->
  Forall (fun s => (spec_depth s <= d)%nat) l -> Forall (fun s => (spec_depth s <= e)%nat) k ->
  near_match m l k rc = near_match m' l k rc.
Proof.
  intros Hd Hl. revert k rc. induction Hl as [|s l Hs Hl IH]; intros k rc Hk;
    destruct Hk as [|t k Ht Hk]; cbn; try done.
  rewrite Hm by lia. repeat case_decide; try done; by apply IH.
Qed.
Lemma accept_depths T : Forall (fun s => (spec_depth s <= depth T)%nat) (accept_specs T).
Proof. apply Forall_forall, accept_depth. Qed.
Lemma return_depths T : Forall (fun s => (spec_depth s <= depth T)%nat) (return_specs T).
Proof. apply Forall_forall, return_depth. Qed.

Lemma runtimeTypeMatch_ext T S : (depth T + depth S < n)%nat ->
  runtimeTypeMatch m T S = runtimeTypeMatch m' T S.
Proof.
  intros Hd. unfold runtimeTypeMatch, runtimeTypeMatch_.
  rewrite (near_match_ext (accept_specs T) (accept_specs S) QTI_IDENT _ _ Hd)
    by apply accept_depths.
  repeat case_match; try done;
    apply (near_match_ext _ _ _ _ _ Hd); apply return_depths.
Qed.

Lemma output_prefix_ext l k d e : (d + e < n)%nat ->
  Forall (fun s => (spec_depth s <= d)%nat) l -> Forall (fun s => (spec_depth s <= e)%nat) k ->
  output_prefix m l k = output_prefix m' l k.
Proof.
  intros Hd Hl. revert k. induction Hl as [|s l Hs Hl IH]; intros k Hk;
    destruct Hk as [|t k Ht Hk]; cbn; try done.
  rewrite Hm by lia. repeat case_match; by rewrite IH.
Qed.
Lemma outputSuperSetOf_ext T S : (depth T + depth S < n)%nat ->
  outputSuperSetOf m T S = outputSuperSetOf m' T S.
Proof.
  intros Hd. unfold outputSuperSetOf.
  by rewrite (output_prefix_ext _ _ _ _ Hd) by apply return_depths.
Qed.

Lemma match_body_ext s t k st : (spec_depth s + spec_depth t <= n)%nat ->
  match_body m s t k st = match_body m' s t k st.
Proof.
  intros Hd. pose proof (getTypeInfo_depth t) as Ht.
  destruct s as [| | | |U|U|U|U|U| |]; cbn; try done.
  - destruct t; cbn in *; try done. by rewrite match_type_ext by lia.
  - destruct t; cbn in *; try done; by rewrite match_type_ext by lia.
  - destruct t; cbn in *; try done. by rewrite parseAccepts6_ext by lia.
  - destruct t; cbn in *; try done;
      by rewrite runtimeTypeMatch_ext, outputSuperSetOf_ext by lia.
  - destruct t; cbn in *; try done; by rewrite ?match_type_ext by (cbn; lia).
Qed.
End Fuel.

Section Equation.
Context {TE : TypeEnv}.

Lemma match_fuel_enough f g s t k st :
  (spec_depth s + spec_depth t < f)%nat -> (spec_depth s + spec_depth t < g)%nat ->
  match_ f s t k st = match_ g s t k st.
Proof.
  revert g s t k st. induction f as [|f IH]; intros [|g] s t k st Hf Hg; try lia.
  cbn [match_]. apply (match_body_ext _ _ (spec_depth s + spec_depth t)); [|lia].
  intros. apply IH; lia.
Qed.

Lemma match_eq s t k st :
  QoreTypeSpec_match s t k st = match_body QoreTypeSpec_match s t k st.
Proof.
  unfold QoreTypeSpec_match at 1, match_fuel. cbn [match_].
  apply (match_body_ext _ _ (spec_depth s + spec_depth t)); [|lia].
  intros. apply match_fuel_enough; unfold match_fuel; lia.
Qed.
End Equation.

(** ** The flag [may_not_match] *)
Section Flags.
Context {TE : TypeEnv}.

(** Where it is set it stays set. *)
Definition keeps_may (m : match_state -> mresult) : Prop :=
  forall st, may_not_match st = true -> may_not_match (m st).2 = true.

Lemma checkMatchType_may s t : keeps_may (checkMatchType s t).
Proof. intros st Hm. unfold checkMatchType. repeat case_match; done. Qed.

Lemma best_match_may m l rv : (forall s, keeps_may (m s)) -> keeps_may (best_match m l rv).
Proof.
  intros Hm. revert rv. induction l as [|s l IH]; intros rv st Hs; cbn; [done|].
  pose proof (Hm s (set_max QTI_NOT_EQUAL st) Hs) as H1.
  destruct (m s _) as [res st1]. cbn in H1. apply IH. cbn. by rewrite H1.
Qed.

Lemma tryMatch_may s t : keeps_may (tryMatchReferenceType s t).
Proof.
  intros st Hm. unfold tryMatchReferenceType. destruct t; try done.
  case_decide; [done|].
  pose proof (best_match_may (checkMatchType s) (return_specs ti) QTI_NOT_EQUAL
    (checkMatchType_may s) st Hm) as Hb.
  by destruct (best_match _ _ _ _).
Qed.

Lemma match_simple_may s t : keeps_may (match_simple s t).
Proof.
  intros st Hm. unfold match_simple.
  pose proof (checkMatchType_may s t st Hm) as Hc.
  destruct (checkMatchType s t st) as [rv st1]. cbn in Hc. case_decide; [|done].
  cbn. by apply tryMatch_may.
Qed.

(** A match is sound for [t] if the flag is not set. *)
Lemma may_match_reserve st r st' : may_match st = (r, st') ->
  r <> QTI_NOT_EQUAL -> may_not_match st' = true.
Proof. unfold may_match. case_match; intros [= <- <-]; done. Qed.

(** References match only references. *)
Lemma tryMatch_reference s t v st r st' : tryMatchReferenceType s t st = (r, st') ->
  r <> QTI_NOT_EQUAL -> strong v = true -> in_spec t v = false.
Proof.
  unfold tryMatchReferenceType. destruct t as [q| | | | | | | | | |];
    try (intros [= <- <-]; done).
  - case_decide; intros [= <- <-]; [subst|done]. intros _. unfold in_spec. cbn.
    by destruct_value v.
  - intros _ _. unfold in_spec. cbn. by destruct v.
Qed.
Lemma with_max_tryMatch s t v st r st' : with_max (tryMatchReferenceType s t st) = (r, st') ->
  r <> QTI_NOT_EQUAL -> strong v = true -> in_spec t v = true -> False.
Proof.
  unfold with_max. destruct (tryMatchReferenceType s t st) as [r0 st0] eqn:E.
  intros [= <- <-] Hr Hs Hv. by rewrite (tryMatch_reference _ _ _ _ _ _ E Hr Hs) in Hv.
Qed.

(** The code of a value of a specification. *)
Lemma spec_code t v : strong v = true -> in_spec t v = true ->
  spec_getType t = NT_ALL \/ spec_getType t = getType v.
Proof.
  intros Hs. destruct t as [q| | | | | | | | | |];
    try (unfold in_spec; cbn; destruct_value v; try done; auto; fail).
  intros Hv. destruct (in_spec_code q v Hs Hv); auto.
Qed.

Lemma match_simple_sound q t st r st' v : match_simple (QTS_TYPE q) t st = (r, st') ->
  r <> QTI_NOT_EQUAL -> may_not_match st' = false ->
  strong v = true -> in_spec t v = true -> q = NT_ALL \/ q = getType v.
Proof.
  unfold match_simple, checkMatchType. cbn [union_t]. intros E Hr Hm Hs Hv.
  assert (Hall : getType v <> NT_ALL) by (by destruct_value v).
  destruct (decide (q = NT_ALL)) as [|Hq]; [by left|].
  destruct (decide (q = getType v)) as [|Hn]; [by right|]. exfalso.
  destruct (spec_code t v Hs Hv) as [Ht|Ht]; rewrite Ht in E.
  - rewrite decide_True in E by done. destruct strict_types; cbn in E;
      repeat case_decide; try done; [by eapply with_max_tryMatch|by simplify_eq].
  - rewrite !decide_False in E by done. repeat case_decide; try done.
    by eapply with_max_tryMatch.
Qed.
End Flags.

(** ** Acceptance without type errors *)
Definition type_error (e : exception) : bool :=
  match kind e with RuntimeTypeError _ _ _ _ => true | _ => false end.
Definition no_type_error (xs : sink) : Prop := forallb (fun e => negb (type_error e)) xs = true.

Lemma no_type_error_append d xs : no_type_error xs -> no_type_error (appendLastDescription d xs).
Proof. by destruct xs. Qed.

(** Types whose assignments the parser decides: no references, and no soft lists
    with a value type. *)
Fixpoint decided (T : ty) : bool :=
  match T with
  | Base (reference_ | referenceOrNothing_) => false
  | ComplexReference _ | ComplexReferenceOrNothing _ => false
  | ComplexSoftList U | ComplexSoftListOrNothing U => bool_decide (U = autoTypeInfo)
  | ComplexHash U | ComplexHashOrNothing U | ComplexList U
  | ComplexListOrNothing U => decided U
  | _ => declarable T
  end.
Lemma decided_declarable T : decided T = true -> declarable T = true.
Proof.
  induction T as [b| | | | | | | | |U IH|U IH| | | |]; cbn; auto; try done.
  - by destruct b.
  - intros ->%bool_decide_eq_true. done.
  - intros ->%bool_decide_eq_true. done.
Qed.

(** Specifications with a type code, whose conversion makes no typed list. *)
Definition simple_accept (a : QoreAcceptSpec) : bool :=
  match a_spec a with
  | QTS_TYPE q =>
      bool_decide (q <> NT_REFERENCE) &&
      match a_map a with
      | None | Some (map_auto_list_empty | map_auto_list_value) => true
      | Some f => bool_decide (is_Some (map_type f))
      end
  | _ => false
  end.
Lemma base_decided b : decided (Base b) = true ->
  forallb simple_accept (accepts (Base b)) = true.
Proof. destruct b; try discriminate; intros _; vm_compute; reflexivity. Qed.

Section Safe.
Context {TE : TypeEnv} {TL : TypeLaws} {CV : Conversions}.

Definition safe (r : value * sink) : Prop := no_type_error r.2.
Definition safe_at (T : ty) (v : value) : Prop :=
  forall a, safe (acceptInputIntern T a v []).
Definition safe_takes (T : ty) (v : value) (l : list QoreAcceptSpec) : Prop :=
  forall a, safe (accept_specs_loop (accept_value T) (accepts_value_of T) l T a v []).

(** What accepts a value by its type code. *)
Definition code_taken (v : value) (a : QoreAcceptSpec) : bool :=
  match a_spec a with
  | QTS_TYPE q => bool_decide (q = NT_ALL \/ q = getType v)
  | _ => false
  end.

Lemma apply_map_safe acc f v : is_Some (map_type f) \/ f = map_auto_list_empty \/
  f = map_auto_list_value -> safe (apply_map acc f v []).
Proof.
  intros [[q Hf]|[->| ->]]; [|done..].
  destruct f; try discriminate; try done; cbn; by destruct (_ : string + string).
Qed.

Lemma simple_takes_safe T v l : forallb simple_accept l = true ->
  existsb (code_taken v) l = true -> safe_takes T v l.
Proof.
  intros Hl Hv a. induction l as [|s l IH]; [done|]. cbn in Hl, Hv |- *.
  apply andb_true_iff in Hl as [Hs Hl].
  destruct s as [[q| | | | | | | | | |] m e]; try discriminate Hs.
  unfold acceptInput, code_taken in *. cbn [a_spec a_map accept_spec union_t] in *.
  destruct (bool_decide (q = NT_ALL \/ q = getType v)); [|by apply IH].
  clear Hv IH. unfold simple_accept in Hs. cbn in Hs. apply andb_true_iff in Hs as [_ Hs].
  destruct m as [f|]; [|done].
  assert (Hm : safe (apply_map (accept_value T) f v [])).
  { apply apply_map_safe. destruct f; auto;
      left; by apply bool_decide_eq_true in Hs. }
  destruct (apply_map _ _ _ _) as [v' xs']. cbn in *. unfold safe in *. cbn in *.
  destruct (failed xs'); [by apply no_type_error_append|done].
Qed.

(** A first specification that does not take the value. *)
Lemma rejected_safe T v s l :
  (forall a, acceptInput (accept_value T) (accepts_value_of T) (a_spec s) T (a_map s)
     a v [] = (v, [], false)) ->
  safe_takes T v l -> safe_takes T v (s :: l).
Proof. intros Hs Hl a. cbn. rewrite Hs. apply Hl. Qed.
Lemma taken_safe T v s l :
  (forall a, exists v' xs', acceptInput (accept_value T) (accepts_value_of T) (a_spec s) T
     (a_map s) a v [] = (v', xs', true) /\ no_type_error xs') ->
  safe_takes T v (s :: l).
Proof. intros Hs a. cbn. destruct (Hs a) as (v' & xs' & -> & H). done. Qed.

(** Folding. *)
Lemma fold_list_safe U a l : Forall (safe_at U) l ->
  no_type_error (fold_list (acceptInputIntern U) a l []).1.2.
Proof.
  induction 1 as [|v l Hv Hl IH]; cbn; [done|]. specialize (Hv a). unfold safe in Hv.
  destruct (acceptInputIntern U a v []) as [v' xs']. cbn in Hv.
  destruct (failed xs') eqn:E; [done|]. apply failed_nil in E as ->.
  by destruct (fold_list _ _ _ _) as [[]].
Qed.
Lemma fold_hash_safe U a l : Forall (safe_at U) (snd <$> l) ->
  no_type_error (fold_hash (acceptInputIntern U) a l []).1.2.
Proof.
  induction l as [|[k v] l IH]; cbn; [done|]. rewrite Forall_cons. intros [Hv Hl].
  specialize (Hv a). specialize (IH Hl). unfold safe in Hv.
  destruct (acceptInputIntern U a v []) as [v' xs']. cbn in Hv.
  destruct (failed xs') eqn:E; [done|]. apply failed_nil in E as ->.
  by destruct (fold_hash _ _ _ _) as [[]].
Qed.

Lemma fits_refSelf T v : fits T v -> fits T (refSelf v).
Proof.
  unfold fits. by rewrite in_type_refSelf, wf_refSelf, strong_refSelf.
Qed.
Lemma all_fit_Forall W l (P : value -> Prop) :
  all_fit W l -> (forall v, fits W v -> P v) -> Forall P l.
Proof.
  intros Hl HP. induction l as [|v l IH]; [constructor|].
  apply all_fit_cons in Hl as [Hv Hl]. constructor; auto.
Qed.

Lemma complex_list_safe T U W a t u l : (forall v, fits W v -> safe_at U v) ->
  all_fit W l ->
  no_type_error (acceptInputComplexList (acceptInputIntern U) U T a false t u l []).1.2.
Proof.
  intros HW Hl. unfold acceptInputComplexList. destruct (equal_opt _ _); [done|].
  assert (Hf : forall T' l, Forall (safe_at U) l ->
    no_type_error (folded_list (acceptInputIntern U) U a false T' l []).1.2).
  { intros T' k Hk. unfold folded_list. pose proof (fold_list_safe U a k Hk) as H.
    destruct (fold_list _ _ _ _) as [[l' xs'] []]; cbn in *; [|done].
    by apply no_type_error_append. }
  destruct u; cbn [negb andb failed]; apply Hf.
  - by eapply all_fit_Forall.
  - apply (all_fit_Forall W); [by apply all_fit_refSelf|done].
Qed.
Lemma complex_hash_safe T U W a h t u l : (forall v, fits W v -> safe_at U v) ->
  all_fit W (snd <$> l) ->
  no_type_error (acceptInputComplexHash (acceptInputIntern U) U T a false h t u l []).1.2.
Proof.
  intros HW Hl. unfold acceptInputComplexHash. destruct (equal_opt _ _); [done|].
  assert (Hf : forall h T' l, Forall (safe_at U) (snd <$> l) ->
    no_type_error (folded_hash (acceptInputIntern U) U a false h T' l []).1.2).
  { intros h' T' k Hk. unfold folded_hash. pose proof (fold_hash_safe U a k Hk) as H.
    destruct (fold_hash _ _ _ _) as [[l' xs'] []]; cbn in *; [|done].
    by apply no_type_error_append. }
  destruct u; cbn [negb andb failed]; apply Hf.
  - by eapply all_fit_Forall.
  - rewrite snd_map_members. apply (all_fit_Forall W); [by apply all_fit_refSelf|done].
Qed.

(** ** The loops of parseAccepts *)

(** A specification that matches without reserve. *)
Definition matched (a : QoreAcceptSpec) (r : QoreReturnSpec) : Prop :=
  exists k st res st', QoreTypeSpec_match (a_spec a) (r_spec r) k st = (res, st') /\
    res <> QTI_NOT_EQUAL /\ may_not_match st' = false.
Definition exact_match (a : QoreAcceptSpec) (r : QoreReturnSpec) : Prop :=
  r_exact r = true /\
  exists k st, (QoreTypeSpec_match (a_spec a) (r_spec r) k st).1 = QTI_IDENT.

Lemma need_filter_may a st : may_not_match (need_filter a st) = may_not_match st.
Proof. unfold need_filter. by destruct (a_map a). Qed.

(** What one step of the inner loop finds. *)
Lemma parse_step a r k tnm ok st res st' tnm' ok' :
  parseAcceptsIntern QoreTypeSpec_match a r k tnm ok st = (res, st', tnm', ok') ->
  exists res1 st1, QoreTypeSpec_match (a_spec a) (r_spec r) k st = (res1, st1) /\
    may_not_match st' = may_not_match st1 /\
    ((res1 = QTI_NOT_EQUAL /\ res = QTI_NOT_EQUAL /\ tnm' = tnm /\ ok' = ok) \/
     (res1 <> QTI_NOT_EQUAL /\ res = QTI_IDENT /\ res1 = QTI_IDENT /\ r_exact r = true) \/
     (res1 <> QTI_NOT_EQUAL /\ res = QTI_NOT_EQUAL /\ tnm' = false) \/
     (res1 <> QTI_NOT_EQUAL /\ res <> QTI_NOT_EQUAL /\ may_not_match st' = true)).
Proof.
  unfold parseAcceptsIntern.
  destruct (QoreTypeSpec_match _ _ _ _) as [res1 st1] eqn:E. intros H.
  exists res1, st1. split; [done|].
  case_decide as H1; [simplify_eq; split; auto|].
  case_decide as H2; [destruct H2 as (-> & ? & ?); simplify_eq;
    rewrite need_filter_may; split; [done|right; left; auto]|].
  destruct tnm; [destruct ok; [|case_match]|]; simplify_eq;
    rewrite ?need_filter_may in *; (split; [done|]); try (right; right; left; done).
  right; right; right; auto.
Qed.

Lemma simple_keeps_may a t k : simple_accept a = true ->
  keeps_may (QoreTypeSpec_match (a_spec a) t k).
Proof.
  destruct a as [[q| | | | | | | | | |] m e]; try discriminate.
  unfold simple_accept. cbn [a_spec]. intros [Hq%bool_decide_eq_true _]%andb_true_iff st Hst.
  rewrite match_eq. destruct q; try done; by apply match_simple_may.
Qed.

(** The loop over specifications that keep the flag. *)
Lemma accept_loop_spec l r k tnm ok st res st' tnm' ok' :
  Forall (fun a => keeps_may (QoreTypeSpec_match (a_spec a) (r_spec r) k)) l ->
  accept_loop QoreTypeSpec_match l r k tnm ok st = (res, st', tnm', ok') ->
  (may_not_match st = true -> may_not_match st' = true) /\
  (may_not_match st' = false ->
   match res with
   | Some _ => Exists (fun a => matched a r /\ exact_match a r) l
   | None => tnm' = tnm \/ Exists (fun a => matched a r) l
   end).
Proof.
  intros Hl. revert tnm ok st. induction Hl as [|a l Ha Hl IH]; intros tnm ok st; cbn.
  { intros [= <- <- <- <-]. auto. }
  destruct (parseAcceptsIntern _ _ _ _ _ _ _) as [[[res1 st1] tnm1] ok1] eqn:E.
  destruct (parse_step _ _ _ _ _ _ _ _ _ _ E) as (r0 & st0 & Em & Hmay & Hcase).
  pose proof (Ha (set_max QTI_NOT_EQUAL st)) as Hk. rewrite Em in Hk. cbn in Hk.
  assert (Hmatch : r0 <> QTI_NOT_EQUAL -> may_not_match st1 = false -> matched a r).
  { intros Hr Hf. exists k, (set_max QTI_NOT_EQUAL st), r0, st0. by rewrite <- Hmay. }
  rewrite <- Hmay in Hk. clear Hmay E.
  destruct Hcase as [(-> & -> & -> & ->)|[(Hr & -> & -> & He)|[(Hr & -> & ->)|(Hr & H1 & H2)]]].
  - intros H. destruct (IH _ _ _ H) as [H1 H2]. cbn in H1. split; [auto|].
    intros Hf. specialize (H2 Hf). destruct res; [by right|]. destruct H2; auto.
  - intros [= <- <- <- <-]. split; [auto|]. intros Hf. left. split; [by apply Hmatch|].
    split; [done|]. exists k, (set_max QTI_NOT_EQUAL st). by rewrite Em.
  - intros H. destruct (IH _ _ _ H) as [H1 H2]. cbn in H1. split; [auto|].
    intros Hf. specialize (H2 Hf). destruct res; [by right|]. destruct H2; [|by auto].
    right. left. apply Hmatch; [done|].
    destruct (may_not_match st1); [|done]. by rewrite H1 in Hf.
  - destruct res1; try done; rewrite ?H2; intros [= <- <- <- <-];
      (split; [done|]); intros; congruence.
Qed.

(** The first specification of a type: when it matches it keeps the flag; what it
    does not match, but where it resets the flag, nothing else in the type
    matches. *)
Record first_ok (h : QoreAcceptSpec) (tail : list QoreAcceptSpec) : Prop := {
  first_keeps : forall t k st, may_not_match st = true ->
    (QoreTypeSpec_match (a_spec h) t k st).1 <> QTI_NOT_EQUAL ->
    may_not_match (QoreTypeSpec_match (a_spec h) t k st).2 = true;
  first_only : forall t, (forall k, keeps_may (QoreTypeSpec_match (a_spec h) t k)) \/
    Forall (fun b => forall k st, (QoreTypeSpec_match (a_spec b) t k st).1 = QTI_NOT_EQUAL)
      tail;
  tail_simple : forallb simple_accept tail = true
}.

Lemma accept_loop_none l r k tnm ok st :
  Forall (fun b => forall k st,
    (QoreTypeSpec_match (a_spec b) (r_spec r) k st).1 = QTI_NOT_EQUAL) l ->
  exists st', accept_loop QoreTypeSpec_match l r k tnm ok st = (None, st', tnm, ok).
Proof.
  intros Hl. revert st. induction Hl as [|b l Hb Hl IH]; intros st; cbn; [eauto|].
  unfold parseAcceptsIntern. specialize (Hb k (set_max QTI_NOT_EQUAL st)).
  destruct (QoreTypeSpec_match _ _ _ _) as [res st1]. cbn in Hb. subst res.
  rewrite decide_True by done. apply IH.
Qed.

Lemma tail_keeps_may tail t k : forallb simple_accept tail = true ->
  Forall (fun a => keeps_may (QoreTypeSpec_match (a_spec a) t k)) tail.
Proof.
  rewrite forallb_forall. intros H. apply Forall_forall. intros a Ha.
  apply simple_keeps_may, H. by apply list_elem_of_In.
Qed.

Lemma accept_loop_first h tail r k ok st res st' tnm' ok' : first_ok h tail ->
  accept_loop QoreTypeSpec_match (h :: tail) r k true ok st = (res, st', tnm', ok') ->
  (may_not_match st = true ->
   may_not_match st' = true \/ (res = None /\ tnm' = true /\ ok' = ok)) /\
  (may_not_match st' = false ->
   match res with
   | Some _ => Exists (fun a => matched a r /\ exact_match a r) (h :: tail)
   | None => tnm' = true \/ Exists (fun a => matched a r) (h :: tail)
   end).
Proof.
  intros [Hkeep Honly Htail] H.
  destruct (Honly (r_spec r)) as [Hk|Hnone].
  { apply accept_loop_spec in H as [H1 H2]; [by auto|].
    constructor; [apply Hk|by apply tail_keeps_may]. }
  cbn in H.
  destruct (parseAcceptsIntern _ _ _ _ _ _ _) as [[[res1 st1] tnm1] ok1] eqn:E.
  destruct (parse_step _ _ _ _ _ _ _ _ _ _ E) as (r0 & st0 & Em & Hmay & Hcase).
  specialize (Hkeep (r_spec r) k (set_max QTI_NOT_EQUAL st)).
  rewrite Em in Hkeep. cbn in Hkeep. rewrite <- Hmay in Hkeep.
  assert (Hmatch : r0 <> QTI_NOT_EQUAL -> may_not_match st1 = false -> matched h r).
  { intros Hr Hf. exists k, (set_max QTI_NOT_EQUAL st), r0, st0. by rewrite <- Hmay. }
  clear E Hmay.
  destruct Hcase as [(-> & -> & -> & ->)|[(Hr & -> & -> & He)|[(Hr & -> & ->)|(Hr & H1 & H2)]]].
  - destruct (accept_loop_none tail r k true ok (set_max (max_result st) st1) Hnone) as [st2 E2].
    rewrite E2 in H. simplify_eq. split; auto.
  - simplify_eq. split; [auto|]. intros Hf. left. split; [by apply Hmatch|].
    split; [done|]. exists k, (set_max QTI_NOT_EQUAL st). by rewrite Em.
  - apply accept_loop_spec in H as [H1 H2]; [|by apply tail_keeps_may].
    cbn in H1. split; [auto|]. intros Hf. specialize (H2 Hf).
    destruct res; [by right|]. right. left. apply Hmatch; [done|].
    destruct (may_not_match st1); [|done]. by rewrite H1 in Hf.
  - destruct res1; try done; rewrite ?H2 in H; simplify_eq; split; auto; congruence.
Qed.

(** The outer loop. *)
Lemma return_loop_keeps T h tail l k ok st r st' : accepts T = h :: tail ->
  first_ok h tail -> return_loop QoreTypeSpec_match T l k ok st = (r, st') ->
  may_not_match st = true -> r <> QTI_NOT_EQUAL -> may_not_match st' = true.
Proof.
  intros ET Hf. revert ok st. induction l as [|x l IH]; intros ok st; cbn [return_loop].
  { destruct ok; intros [= <- <-]; done. }
  rewrite ET. destruct (accept_loop _ _ _ _ _ _ _) as [[[res st1] tnm] ok1] eqn:E.
  apply (accept_loop_first _ _ _ _ _ _ _ _ _ _ Hf) in E as [H1 _].
  intros H Hm Hr. specialize (H1 Hm). destruct res as [res|].
  - simplify_eq. by destruct H1 as [|(? & _)].
  - destruct (tnm && negb (may_not_match st1)) eqn:Et.
    + destruct strict_types; [by simplify_eq|]. destruct ok1; [by simplify_eq|].
      by eapply IH.
    + eapply IH; try done. destruct H1 as [|(_ & -> & _)]; [done|].
      by destruct (may_not_match st1).
Qed.

Lemma return_loop_matched T h tail l k ok st r st' : accepts T = h :: tail ->
  first_ok h tail -> return_loop QoreTypeSpec_match T l k ok st = (r, st') ->
  r <> QTI_NOT_EQUAL -> may_not_match st' = false ->
  (forall x a, x ∈ l -> a ∈ accepts T -> exact_match a x -> l = [x]) ->
  Forall (fun x => Exists (fun a => matched a x) (accepts T)) l.
Proof.
  intros ET Hf. revert ok st. induction l as [|x l IH]; intros ok st; [constructor|].
  cbn [return_loop].
  destruct (accept_loop _ _ _ _ _ _ _) as [[[res st1] tnm] ok1] eqn:E.
  intros H Hr Hm Hex. rewrite ET in E.
  apply (accept_loop_first _ _ _ _ _ _ _ _ _ _ Hf) in E as [_ H1]. rewrite <- ET in H1.
  assert (Hkeep : forall ok st, return_loop QoreTypeSpec_match T l k ok st = (r, st') ->
    may_not_match st = false).
  { intros ok2 st2 E2. destruct (may_not_match st2) eqn:Es; [|done].
    rewrite (return_loop_keeps T h tail l k ok2 st2 r st') in Hm; done. }
  destruct res as [res|].
  - simplify_eq. specialize (H1 Hm). apply Exists_exists in H1 as (a & Ha & Hma & Hea).
    assert (x :: l = [x]) as [= ->] by (by apply (Hex x a); [left|..]).
    constructor; [|constructor]. apply Exists_exists. eauto.
  - assert (Hl : forall ok st, return_loop QoreTypeSpec_match T l k ok st = (r, st') ->
      Forall (fun x => Exists (fun a => matched a x) (accepts T)) l).
    { intros ok2 st2 E2. eapply IH; [exact E2|done..|].
      intros y a Hy Ha Hea. specialize (Hex y a (list_elem_of_further _ _ _ Hy) Ha Hea).
      injection Hex as -> ->. by apply elem_of_nil in Hy. }
    destruct (tnm && negb (may_not_match st1)) eqn:Et.
    + destruct strict_types; [by simplify_eq|]. destruct ok1; [by simplify_eq|].
      by apply Hkeep in H.
    + pose proof (Hkeep _ _ H) as Hst. constructor; [|by eapply Hl].
      destruct H1 as [->|H1]; [done| |done]. by rewrite Hst in Et.
Qed.

(** ** First specifications *)

(** A specification takes a value without a type error. *)
Definition takes_safely (T : ty) (s : QoreAcceptSpec) (v : value) : Prop :=
  forall a, exists v' xs', acceptInput (accept_value T) (accepts_value_of T) (a_spec s) T
    (a_map s) a v [] = (v', xs', true) /\ no_type_error xs'.
Definition leaves (T : ty) (s : QoreAcceptSpec) (v : value) : Prop :=
  forall a, acceptInput (accept_value T) (accepts_value_of T) (a_spec s) T
    (a_map s) a v [] = (v, [], false).

(** What is to be shown of a type: its first specification is in order, takes what
    it matches, and does not get in the way of the others. *)
Record type_ok (T : ty) (h : QoreAcceptSpec) (tail : list QoreAcceptSpec) : Prop := {
  ok_accepts : accepts T = h :: tail;
  ok_first : first_ok h tail;
  ok_takes : forall r v, matched h r -> in_spec (r_spec r) v = true ->
    wf_value v = true -> strong v = true -> safe_takes T v (h :: tail);
  ok_leaves : forall v, existsb (code_taken v) tail = true ->
    takes_safely T h v \/ leaves T h v
}.

Definition parse_ok (U : ty) : Prop := forall S k st r st',
  parseAccepts U S k st = (r, st') -> r <> QTI_NOT_EQUAL ->
  (may_not_match st = true -> may_not_match st' = true) /\
  (may_not_match st' = false -> forall v, fits S v -> safe_at U v).

Lemma own_safe U : wf_type U = true -> decided U = true ->
  forall v, fits U v -> safe_at U v.
Proof.
  intros Hw Hd v Hv a. destruct (declarable_complete U Hw) with a v as [H1 _];
    [by apply decided_declarable|done|]. unfold safe. by rewrite H1.
Qed.

Lemma match_type_ok U W st r st' : parse_ok U -> wf_type U = true -> decided U = true ->
  match_type QoreTypeSpec_match U W st = (r, st') -> r <> QTI_NOT_EQUAL ->
  (may_not_match st = true -> may_not_match st' = true) /\
  (may_not_match st' = false -> forall v, fits W v -> safe_at U v).
Proof.
  intros HU Hw Hd. unfold match_type.
  destruct (parseAccepts4 QoreTypeSpec_match U W st) as [r1 st1] eqn:E. intros H Hr.
  assert (Hr1 : r1 <> QTI_NOT_EQUAL /\ may_not_match st' = may_not_match st1).
  { repeat case_match; simplify_eq; done. }
  destruct Hr1 as [Hr1 ->]. clear H Hr. unfold parseAccepts4 in E.
  case_decide as EW; [subst W; simplify_eq|].
  - split; [done|]. intros _. by apply own_safe.
  - destruct (parseAccepts6 _ _ _ _ _) as [r2 st2] eqn:E2. simplify_eq. cbn.
    exact (HU _ _ _ _ _ E2 Hr1).
Qed.

(** Specifications that are no classes, and no complex hashes or lists. *)
Lemma with_max_keeps m : keeps_may m -> keeps_may (fun st => with_max (m st)).
Proof. intros H st Hst. unfold with_max. by apply H. Qed.
Lemma may_match_keeps : keeps_may may_match.
Proof. intros st Hst. unfold may_match. by case_match. Qed.

Lemma reject_code q t k st : q <> NT_ALL -> q <> NT_REFERENCE ->
  spec_getType t <> NT_ALL -> spec_getType t <> q ->
  (forall st, (tryMatchReferenceType (QTS_TYPE q) t st).1 = QTI_NOT_EQUAL) ->
  (QoreTypeSpec_match (QTS_TYPE q) t k st).1 = QTI_NOT_EQUAL.
Proof.
  intros H1 H2 H3 H4 Ht. rewrite match_eq. cbn [match_body].
  assert (match_simple (QTS_TYPE q) t st =
    with_max (tryMatchReferenceType (QTS_TYPE q) t (set_max QTI_NOT_EQUAL st))) as E.
  { unfold match_simple, checkMatchType. cbn [union_t].
    rewrite !decide_False by congruence. by rewrite decide_True. }
  destruct q; try done; rewrite E; apply Ht.
Qed.

Lemma or_nothing_rejects t : spec_getType t <> NT_ALL -> spec_getType t <> NT_NOTHING ->
  spec_getType t <> NT_NULL -> spec_getType t <> NT_REFERENCE ->
  Forall (fun b => forall k st, (QoreTypeSpec_match (a_spec b) t k st).1 = QTI_NOT_EQUAL)
    or_nothing.
Proof.
  intros. constructor; [|constructor; [|constructor]];
    intros k st; (apply (reject_code NT_NOTHING) || apply (reject_code NT_NULL));
    try done; intros; destruct t as [[]| | | | | | | | | |]; done.
Qed.

Definition short (tail : list QoreAcceptSpec) : Prop := tail = [] \/ tail = or_nothing.
Lemma short_simple tail : short tail -> forallb simple_accept tail = true.
Proof. by intros [->| ->]. Qed.
Lemma short_rejects tail t : short tail -> spec_getType t <> NT_ALL ->
  spec_getType t <> NT_NOTHING -> spec_getType t <> NT_NULL ->
  spec_getType t <> NT_REFERENCE ->
  Forall (fun b => forall k st, (QoreTypeSpec_match (a_spec b) t k st).1 = QTI_NOT_EQUAL)
    tail.
Proof. intros [->| ->] **; [constructor|by apply or_nothing_rejects]. Qed.
(** The rest of an "or nothing" type only takes NOTHING and NULL. *)
Lemma short_leaves T h tail : short tail ->
  match a_spec h with
  | QTS_CLASS _ | QTS_HASHDECL _ | QTS_COMPLEXHASH _ | QTS_COMPLEXLIST _ => True
  | _ => False
  end -> forall v, existsb (code_taken v) tail = true ->
  takes_safely T h v \/ leaves T h v.
Proof.
  intros [->| ->] Hh v Hv; [done|]. right. intros a. unfold acceptInput.
  destruct h as [s m e]. cbn [a_spec] in Hh. destruct_value v; try discriminate Hv; by destruct s.
Qed.

Lemma first_ok_intro h tail : forallb simple_accept tail = true ->
  (forall t k, keeps_may (QoreTypeSpec_match (a_spec h) t k)) -> first_ok h tail.
Proof. intros Ht Hk. split; [|by left|done]. intros. by apply Hk. Qed.

(** *** Classes *)
Lemma class_first u m e tail : short tail -> first_ok (Acc (QTS_CLASS u) m e) tail.
Proof.
  intros Hs. assert (Hk : forall t k, match t with QTS_CLASS _ => False | _ => True end ->
    keeps_may (QoreTypeSpec_match (QTS_CLASS u) t k)).
  { intros t k Ht st Hst. rewrite match_eq. cbn [match_body].
    destruct t; try done; (case_decide; [by apply may_match_keeps|]);
      by apply (with_max_keeps _ (tryMatch_may _ _)). }
  split; cbn [a_spec].
  - intros t k st Hst Hr. destruct t; try (by apply Hk).
    rewrite match_eq in Hr |- *. cbn [match_body] in *. rewrite Hst in *.
    destruct (class_parse_check qc u true) as [rv may] eqn:E. cbn in *.
    by eapply class_check_kept.
  - intros t. destruct t; try (left; intros; by apply Hk). right. by apply short_rejects.
  - by apply short_simple.
Qed.

Lemma class_ok T u e tail : short tail -> accepts T = Acc (QTS_CLASS u) None e :: tail ->
  type_ok T (Acc (QTS_CLASS u) None e) tail.
Proof.
  intros Hs HT. split; [done|by apply class_first| |by apply short_leaves].
  intros [t re] v (k & st & res & st' & Hm & Hr & Hf) Hv Hwf Hst. cbn [a_spec r_spec] in *.
  apply taken_safe. intros a. exists v, []. split; [|done]. unfold acceptInput.
  cbn [a_spec a_map accept_spec].
  assert (Hacc : exists w o id vd, v = VObject w o id vd /\
    type_spec_accept_object u o = Accepted).
  { rewrite match_eq in Hm. cbn [match_body] in Hm. destruct t; cbn beta iota in Hm;
      try (case_decide; [by rewrite (may_match_reserve _ _ _ Hm Hr) in Hf|
                         exfalso; by eapply with_max_tryMatch]).
    destruct (class_parse_check qc u (may_not_match st)) as [rv may] eqn:E.
    unfold with_max in Hm. cbn in Hm. simplify_eq. cbn in Hf. subst may.
    assert (may_not_match st = false) as Es.
    { destruct (may_not_match st) eqn:Em; [|done].
      by rewrite (class_check_kept _ _ _ _ E Hr) in *. }
    rewrite Es in E. unfold in_spec in Hv. cbn in Hv. destruct v; try done.
    apply bool_decide_eq_true in Hv. do 4 eexists. split; [done|].
    by eapply class_check_sound. }
  destruct Hacc as (w & o & id & vd & -> & ->). done.
Qed.

(** *** Hash declarations *)
Lemma hashdecl_ok T hd e tail : short tail ->
  accepts T = Acc (QTS_HASHDECL hd) None e :: tail ->
  type_ok T (Acc (QTS_HASHDECL hd) None e) tail.
Proof.
  intros Hs HT. split; [done| | |by apply short_leaves].
  - apply first_ok_intro; [by apply short_simple|]. intros t k st Hst. cbn [a_spec].
    rewrite match_eq. cbn [match_body].
    destruct t; try (by apply (with_max_keeps _ (tryMatch_may _ _))); [|done].
    case_decide; [case_match; [done|by apply may_match_keeps]|].
    by apply (with_max_keeps _ (tryMatch_may _ _)).
  - intros [t re] v (k & st & res & st' & Hm & Hr & Hf) Hv Hwf Hst. cbn [a_spec r_spec] in *.
    apply taken_safe. intros a. exists v, []. split; [|done]. unfold acceptInput.
    cbn [a_spec a_map accept_spec].
    rewrite match_eq in Hm. cbn [match_body] in Hm. destruct t; cbn beta iota in Hm;
      try (exfalso; by eapply with_max_tryMatch).
    + exfalso. case_decide; [|by eapply with_max_tryMatch].
      destruct strict_types; [by simplify_eq|].
      by rewrite (may_match_reserve _ _ _ Hm Hr) in Hf.
    + unfold in_spec in Hv. cbn in Hv.
      destruct v as [| | | | | | | | | | | | | |w [h|] vt u l]; try done.
      destruct (hd_equal hd0 hd) eqn:E; [|by simplify_eq].
      by rewrite (hd_equal_trans _ _ _ Hv E).
Qed.

(** *** Hashes with a value type *)
Lemma match_hash_keeps U t k : match t with QTS_COMPLEXHASH _ => False | _ => True end ->
  keeps_may (QoreTypeSpec_match (QTS_COMPLEXHASH U) t k).
Proof.
  intros Ht st Hst. rewrite match_eq. cbn [match_body].
  destruct t; try done; cbn [match_hash]; repeat case_decide; try done;
    try (by apply may_match_keeps); by apply (with_max_keeps _ (tryMatch_may _ _)).
Qed.
Lemma match_hash_eq U W k st : U <> autoTypeInfo ->
  QoreTypeSpec_match (QTS_COMPLEXHASH U) (QTS_COMPLEXHASH W) k st =
  with_max (match_type QoreTypeSpec_match U W st).
Proof. intros H. rewrite match_eq. cbn [match_body match_hash]. by rewrite decide_False. Qed.

Lemma hash_first U m e tail : short tail -> parse_ok U -> wf_type U = true ->
  decided U = true -> first_ok (Acc (QTS_COMPLEXHASH U) m e) tail.
Proof.
  intros Hs HU Hw Hd. split; cbn [a_spec].
  - intros t k st Hst Hr. destruct t; try (by apply match_hash_keeps).
    destruct (decide (U = autoTypeInfo)) as [EU|EU].
    { rewrite match_eq in *. cbn [match_body match_hash] in *. by rewrite decide_True in *. }
    rewrite match_hash_eq in Hr |- * by done.
    destruct (match_type _ U ti st) as [r1 st1] eqn:E.
    by apply (match_type_ok U ti st r1 st1 HU Hw Hd E).
  - intros t. destruct t; try (left; intros; by apply match_hash_keeps).
    right. by apply short_rejects.
  - by apply short_simple.
Qed.

Lemma hash_takes_safely T U e l v : hash_type T U ->
  (forall a w h vt u k, v = VHash w h vt u k -> U <> autoTypeInfo ->
   no_type_error (acceptInputComplexHash (acceptInputIntern U) U T a w h vt u k []).1.2) ->
  (exists w h vt u k, v = VHash w h vt u k) ->
  safe_takes T v (Acc (QTS_COMPLEXHASH U) None e :: l).
Proof.
  intros HT Hv (w & h & vt & u & k & ->). apply taken_safe. intros a. unfold acceptInput.
  cbn [a_spec a_map accept_spec].
  assert (accept_value T = acceptInputIntern U) as -> by (by destruct HT as [->| ->]).
  case_decide as EU; [by do 2 eexists|].
  specialize (Hv a w h vt u k eq_refl EU).
  destruct (acceptInputComplexHash _ _ _ _ _ _ _ _ _ _) as [[v' xs'] []]; cbn in *; eauto.
Qed.

Lemma hash_ok T U e tail : short tail ->
  accepts T = Acc (QTS_COMPLEXHASH U) None e :: tail -> hash_type T U ->
  parse_ok U -> wf_type U = true -> decided U = true ->
  type_ok T (Acc (QTS_COMPLEXHASH U) None e) tail.
Proof.
  intros Hs HA HT HU Hw Hd. split; [done|by apply hash_first| |by apply short_leaves].
  intros [t re] v (k & st & res & st' & Hm & Hr & Hf) Hv Hwf Hst. cbn [a_spec r_spec] in *.
  rewrite match_eq in Hm. cbn [match_body] in Hm.
  destruct t as [q| |hd| |W|W|W|W|W| |]; cbn [match_hash] in Hm;
    try (exfalso; by eapply with_max_tryMatch).
  - case_decide as E1; [|case_decide; exfalso;
      [by rewrite (may_match_reserve _ _ _ Hm Hr) in Hf|by eapply with_max_tryMatch]].
    destruct E1 as [-> ->]. apply hash_takes_safely; [done|done|].
    unfold in_spec in Hv. cbn in Hv. destruct v; try done. eauto 10.
  - case_decide as EU; [|by simplify_eq]. subst U.
    apply hash_takes_safely; [done|done|].
    unfold in_spec in Hv. cbn in Hv. destruct v; try done. eauto 10.
  - unfold in_spec in Hv. cbn in Hv.
    destruct v as [| | | | | | | | | | | | | |w h vt u l]; try done.
    apply hash_takes_safely; [done| |eauto 10].
    intros a w2 h2 vt2 u2 l2 [= <- <- <- <- <-] EU. rewrite decide_False in Hm by done.
    destruct (match_type _ U W st) as [r1 st1] eqn:E. unfold with_max in Hm.
    cbn in Hm. simplify_eq. cbn in Hf.
    destruct (match_type_ok U W st _ st1 HU Hw Hd E Hr) as [_ Hsafe].
    cbn in Hst. destruct w; [done|]. apply (complex_hash_safe T U W); [by apply Hsafe|].
    rewrite forallb_snd in Hv, Hst. apply wf_hash_values in Hwf.
    rewrite forallb_snd in Hwf. done.
  - unfold in_spec in Hv. cbn in Hv.
    destruct v as [| | | | | | | | | | | | | |w [h|] vt u [|]]; try done.
    apply hash_takes_safely; [done| |eauto 10].
    intros a w2 h2 vt2 u2 l2 [= <- <- <- <- <-] EU. cbn in Hst. destruct w; [done|].
    apply (complex_hash_safe T U U); [by apply own_safe|done].
Qed.

(** *** Lists with a value type *)
Lemma match_list_keeps U t k :
  match t with QTS_COMPLEXLIST _ | QTS_COMPLEXSOFTLIST _ => U = autoTypeInfo | _ => True end ->
  keeps_may (QoreTypeSpec_match (QTS_COMPLEXLIST U) t k).
Proof.
  intros Ht st Hst. rewrite match_eq. cbn [match_body].
  destruct t; cbn [match_list]; repeat case_decide; try done;
    try (by apply may_match_keeps); by apply (with_max_keeps _ (tryMatch_may _ _)).
Qed.

Lemma match_list_first U t k st : parse_ok U -> wf_type U = true -> decided U = true ->
  may_not_match st = true ->
  (QoreTypeSpec_match (QTS_COMPLEXLIST U) t k st).1 <> QTI_NOT_EQUAL ->
  may_not_match (QoreTypeSpec_match (QTS_COMPLEXLIST U) t k st).2 = true.
Proof.
  intros HU Hw Hd Hst Hr.
  destruct t; try (by apply match_list_keeps);
    (destruct (decide (U = autoTypeInfo)) as [EU|EU]; [by apply match_list_keeps|]);
    rewrite match_eq in Hr |- *; cbn [match_body match_list] in *;
    rewrite decide_False in Hr |- * by done;
    destruct (match_type _ U ti st) as [r1 st1] eqn:E;
    by apply (match_type_ok U ti st r1 st1 HU Hw Hd E).
Qed.

Lemma list_first U m e tail : short tail -> parse_ok U -> wf_type U = true ->
  decided U = true -> first_ok (Acc (QTS_COMPLEXLIST U) m e) tail.
Proof.
  intros Hs HU Hw Hd. split; cbn [a_spec].
  - intros t k st Hst Hr. by apply match_list_first.
  - intros t. destruct t; try (left; intros; by apply match_list_keeps);
      right; by apply short_rejects.
  - by apply short_simple.
Qed.

Lemma list_takes_safely T U e l v : U = autoTypeInfo \/ list_type T U ->
  (forall a vt u k, v = VList false vt u k -> U <> autoTypeInfo ->
   no_type_error (acceptInputComplexList (acceptInputIntern U) U T a false vt u k []).1.2) ->
  (exists vt u k, v = VList false vt u k) ->
  safe_takes T v (Acc (QTS_COMPLEXLIST U) None e :: l).
Proof.
  intros HT Hv (vt & u & k & ->). apply taken_safe. intros a. unfold acceptInput.
  cbn [a_spec a_map accept_spec]. case_decide as EU; [by do 2 eexists|].
  destruct HT as [|HT]; [done|].
  assert (accept_value T = acceptInputIntern U) as ->
    by (by destruct HT as [->|[->|[->| ->]]]).
  specialize (Hv a vt u k eq_refl EU).
  destruct (acceptInputComplexList _ _ _ _ _ _ _ _ _) as [[v' xs'] err]; cbn in *; eauto.
Qed.

(** What matches without reserve is a list, whose values are safe. *)
Lemma list_match_sound T U t k st res st' v : parse_ok U ->
  wf_type U = true -> decided U = true ->
  QoreTypeSpec_match (QTS_COMPLEXLIST U) t k st = (res, st') -> res <> QTI_NOT_EQUAL ->
  may_not_match st' = false -> in_spec t v = true -> wf_value v = true ->
  strong v = true ->
  exists vt u l, v = VList false vt u l /\ (U <> autoTypeInfo -> forall a,
    no_type_error (acceptInputComplexList (acceptInputIntern U) U T a false vt u l []).1.2).
Proof.
  intros HU Hw Hd Hm Hr Hf Hv Hwf Hst.
  rewrite match_eq in Hm. cbn [match_body] in Hm.
  assert (Hlist : forall W, (U <> autoTypeInfo -> exists r1 st1,
      match_type QoreTypeSpec_match U W st = (r1, st1) /\ r1 <> QTI_NOT_EQUAL /\
      may_not_match st1 = false) ->
    (exists w vt u l, v = VList w vt u l /\ forallb (in_type W) l = true) ->
    exists vt u l, v = VList false vt u l /\ (U <> autoTypeInfo -> forall a,
    no_type_error (acceptInputComplexList (acceptInputIntern U) U T a false vt u l []).1.2)).
  { intros W HW (w & vt & u & l & -> & Hl). destruct w; [done|].
    exists vt, u, l. split; [done|]. intros EU a.
    destruct (HW EU) as (r1 & st1 & E & Hr1 & Hf1).
    destruct (match_type_ok U W st r1 st1 HU Hw Hd E Hr1) as [_ Hs].
    apply (complex_list_safe T U W); [by apply Hs|]. split_and!;
      [done|by apply wf_list_values in Hwf|done]. }
  assert (Hmt : forall W, with_max (if decide (U = autoTypeInfo) then (QTI_NEAR, st)
      else match_type QoreTypeSpec_match U W st) = (res, st') -> U <> autoTypeInfo ->
    exists r1 st1, match_type QoreTypeSpec_match U W st = (r1, st1) /\
      r1 <> QTI_NOT_EQUAL /\ may_not_match st1 = false).
  { intros W E EU. rewrite decide_False in E by done.
    destruct (match_type _ U W st) as [r1 st1]. unfold with_max in E. cbn in E.
    simplify_eq. eauto. }
  destruct t as [q| |hd| |W|W|W|W|W| |]; cbn [match_list] in Hm;
    try (exfalso; by eapply with_max_tryMatch).
  - clear Hlist Hmt. case_decide as E1; [|case_decide; exfalso;
      [by rewrite (may_match_reserve _ _ _ Hm Hr) in Hf|by eapply with_max_tryMatch]].
    destruct E1 as [-> ->]. unfold in_spec in Hv. cbn in Hv. destruct v; try done.
    destruct weak; [done|]. do 3 eexists. split; [done|]. done.
  - apply (Hlist W); [by apply Hmt|]. unfold in_spec in Hv. cbn in Hv.
    destruct v; try done. eauto 10.
  - apply (Hlist W); [by apply Hmt|]. unfold in_spec in Hv. cbn in Hv.
    destruct v; try done. eauto 10.
  - unfold in_spec in Hv. cbn in Hv.
    destruct v as [| | | | | | | | | | | | |w vt u [|]|]; try done. destruct w; [done|].
    do 3 eexists. split; [done|]. intros _ a.
    apply (complex_list_safe T U U); [by apply own_safe|done].
Qed.

Lemma list_ok T U e tail : short tail ->
  accepts T = Acc (QTS_COMPLEXLIST U) None e :: tail -> list_type T U ->
  parse_ok U -> wf_type U = true -> decided U = true ->
  type_ok T (Acc (QTS_COMPLEXLIST U) None e) tail.
Proof.
  intros Hs HA HT HU Hw Hd. split; [done|by apply list_first| |by apply short_leaves].
  intros r v (k & st & res & st' & Hm & Hr & Hf) Hv Hwf Hst. cbn [a_spec] in Hm.
  destruct (list_match_sound T U _ _ _ _ _ _ HU Hw Hd Hm Hr Hf Hv Hwf Hst)
    as (vt & u & l & -> & Hl).
  apply list_takes_safely; [by right| |eauto].
  intros a vt2 u2 l2 [= <- <- <-] EU. by apply Hl.
Qed.

(** Soft lists without a value type. *)
Lemma auto_list_ok T e tail : forallb simple_accept tail = true ->
  accepts T = Acc (QTS_COMPLEXLIST autoTypeInfo) None e :: tail ->
  parse_ok autoTypeInfo -> type_ok T (Acc (QTS_COMPLEXLIST autoTypeInfo) None e) tail.
Proof.
  intros Hs HA HU. split; [done| | |].
  - apply first_ok_intro; [done|]. intros t k. apply match_list_keeps. by destruct t.
  - intros r v (k & st & res & st' & Hm & Hr & Hf) Hv Hwf Hst. cbn [a_spec] in Hm.
    destruct (list_match_sound T autoTypeInfo _ _ _ _ _ _ HU eq_refl eq_refl Hm Hr Hf Hv
      Hwf Hst) as (vt & u & l & -> & Hl).
    apply list_takes_safely; [by left|done|eauto].
  - intros v _. destruct_value v; try (by right).
    left. intros a. by do 2 eexists.
Qed.

(** *** Types without a value type *)
Lemma simple_ok T h tail : accepts T = h :: tail ->
  forallb simple_accept (h :: tail) = true -> type_ok T h tail.
Proof.
  intros HA Hl. pose proof Hl as [Hh Ht]%andb_true_iff. split; [done| | |].
  - apply first_ok_intro; [done|]. intros t k. by apply simple_keeps_may.
  - intros r v (k & st & res & st' & Hm & Hr & Hf) Hv Hwf Hst.
    apply simple_takes_safe; [done|]. cbn. apply orb_true_iff. left.
    destruct h as [[q| | | | | | | | | |] m e]; try discriminate Hh.
    unfold code_taken. cbn [a_spec] in *. apply bool_decide_eq_true.
    unfold simple_accept in Hh. cbn in Hh. apply andb_true_iff in Hh as [Hq _].
    apply bool_decide_eq_true in Hq. rewrite match_eq in Hm. cbn [match_body] in Hm.
    eapply match_simple_sound; [|exact Hr|exact Hf|exact Hst|exact Hv].
    by destruct q.
  - intros v _. destruct (code_taken v h) eqn:E.
    + left. intros a. pose proof (simple_takes_safe T v [h]) as Hs. cbn in Hs.
      rewrite Hh, E in Hs. specialize (Hs eq_refl eq_refl a). unfold safe in Hs. cbn in Hs.
      destruct h as [[q| | | | | | | | | |] m e]; try discriminate Hh.
      unfold acceptInput, code_taken in *. cbn [a_spec a_map accept_spec union_t] in *.
      rewrite E in *. destruct m as [f|]; [|by do 2 eexists].
      destruct (apply_map _ _ _ _) as [v' xs']. by do 2 eexists.
    + right. intros a. destruct h as [[q| | | | | | | | | |] m e]; try discriminate Hh.
      unfold acceptInput, code_taken in *. cbn [a_spec a_map accept_spec union_t] in *.
      by rewrite E.
Qed.

(** All types that are decided at parse time. *)
Lemma decided_ok T : wf_type T = true -> decided T = true ->
  (forall U, value_type T = Some U -> wf_type U = true -> decided U = true -> parse_ok U) ->
  parse_ok autoTypeInfo ->
  exists h tail, type_ok T h tail.
Proof.
  intros Hw Hd IH Hauto.
  assert (Hv : forall U, value_type T = Some U -> decided U = true ->
    wf_type U = true /\ parse_ok U).
  { intros U HU HdU. assert (bool_decide (U <> anyTypeInfo) && wf_type U = true) as
      [_ H2]%andb_true_iff
      by (destruct T; try discriminate HU; by injection HU as <-). auto. }
  clear IH. destruct T as [b|qc|qc|hd|hd|U|U|U|U|U|U|U|U|U|U]; try discriminate Hd;
    try (destruct (Hv U eq_refl Hd) as (HwU & HU)); clear Hv;
    try (do 2 eexists; first [apply class_ok; [|reflexivity]; (by left) || (by right)
                             |apply hashdecl_ok; [|reflexivity]; (by left) || (by right)]).
  - pose proof (base_decided b Hd) as Hs.
    destruct (accepts (Base b)) as [|h tail] eqn:E; [by destruct b|].
    exists h, tail. by apply simple_ok.
  - do 2 eexists. apply hash_ok; [|reflexivity|..]; try done; by left.
  - do 2 eexists. apply hash_ok; [|reflexivity|..]; try done; by right.
  - do 2 eexists. apply list_ok; [|reflexivity|..]; try done; by left.
  - do 2 eexists. apply list_ok; [|reflexivity|..]; try done; [by right|by right; left].
  - apply bool_decide_eq_true in Hd as ->. do 2 eexists.
    apply auto_list_ok; [|reflexivity|done]. by vm_compute.
  - apply bool_decide_eq_true in Hd as ->. do 2 eexists.
    apply auto_list_ok; [|reflexivity|done]. by vm_compute.
Qed.

(** Only references return something exactly, and something else. *)
Lemma returns_exact S x : x ∈ returns S -> r_exact x = true ->
  returns S = [x] \/ r_spec x = QTS_HARDREF \/ exists U, r_spec x = QTS_COMPLEXHARDREF U.
Proof.
  intros Hx He. assert (Hall : forallb (fun x => negb (r_exact x) ||
    (length (returns S) =? 1)%nat ||
    match r_spec x with QTS_HARDREF | QTS_COMPLEXHARDREF _ => true | _ => false end)
    (returns S) = true).
  { clear. unfold returns.
    destruct S as [b| | | | | | | | | | | | | |]; [by destruct b|..]; cbn [type_info];
      try case_decide; reflexivity. }
  rewrite forallb_forall in Hall. pose proof Hx as Hin. apply list_elem_of_In in Hin.
  specialize (Hall x Hin). rewrite He in Hall. cbn in Hall.
  apply orb_true_iff in Hall as [Hl%Nat.eqb_eq|Hs].
  - left. destruct (returns S) as [|y [|]]; try done.
    by apply list_elem_of_singleton in Hx as ->.
  - right. destruct (r_spec x); try done; eauto.
Qed.

Lemma no_exact_reference T a t k st : decided T = true -> a ∈ accepts T ->
  match t with QTS_HARDREF | QTS_COMPLEXHARDREF _ => True | _ => False end ->
  (QoreTypeSpec_match (a_spec a) t k st).1 <> QTI_IDENT.
Proof.
  intros Hd Ha Ht. rewrite match_eq.
  assert (Hs : match a_spec a with
    | QTS_TYPE q => q <> NT_REFERENCE
    | QTS_CLASS _ | QTS_HASHDECL _ | QTS_COMPLEXHASH _ | QTS_COMPLEXLIST _ => True
    | _ => False
    end).
  { assert (Hall : forallb (fun a => match a_spec a with
      | QTS_TYPE q => bool_decide (q <> NT_REFERENCE)
      | QTS_CLASS _ | QTS_HASHDECL _ | QTS_COMPLEXHASH _ | QTS_COMPLEXLIST _ => true
      | _ => false
      end) (accepts T) = true).
    { unfold accepts. clear -Hd.
      destruct T as [b| | | | | | | | |U|U| | | |]; try discriminate Hd;
        [by destruct b|..]; cbn [type_info];
        try (cbn in Hd; apply bool_decide_eq_true in Hd; rewrite decide_True by done);
        reflexivity. }
    rewrite forallb_forall in Hall. specialize (Hall a ltac:(by apply list_elem_of_In)).
    destruct (a_spec a); try done. by apply bool_decide_eq_true in Hall. }
  destruct (a_spec a) as [q| | | | | | | | | |]; try done; cbn [match_body].
  - assert (match_simple (QTS_TYPE q) t st <> (QTI_IDENT, (match_simple (QTS_TYPE q) t st).2))
      as Hm; [|by destruct q; try done; intros E; apply Hm; rewrite <- E; destruct (match_simple _ _ _)].
    unfold match_simple, checkMatchType. cbn [union_t].
    destruct t; try done; cbn [spec_getType]; repeat case_decide; try done.
  - by destruct t.
  - by destruct t.
  - by destruct t.
  - by destruct t.
Qed.

Lemma type_parse_ok T h tail : decided T = true -> type_ok T h tail -> parse_ok T.
Proof.
  intros Hd Hok S k st r st'. unfold parseAccepts, parseAccepts6.
  destruct (decide (T = autoTypeInfo)) as [->|HT].
  { intros [= <- <-] _. split; [done|]. intros _ v _ a. done. }
  destruct (hasType T) eqn:ET; cbn [negb].
  2: { intros [= <- <-] _. split; [done|]. intros _ v _ a.
       assert (T = anyTypeInfo) as -> by (destruct T as [b| | | | | | | | |U|U| | | |];
         try discriminate ET; [by destruct b|..]; cbn in Hd;
         apply bool_decide_eq_true in Hd; subst; discriminate).
       done. }
  destruct (hasType S); cbn [negb].
  2: { destruct strict_types; intros [= <- <-]; done. }
  assert (Hloop : forall st0, return_loop QoreTypeSpec_match T (returns S) k false st0 = (r, st') ->
    r <> QTI_NOT_EQUAL -> (may_not_match st0 = true -> may_not_match st' = true) /\
    (may_not_match st' = false -> forall v, fits S v -> safe_at T v)).
  { intros st0 E Hr. split.
    { intros Hst. eapply return_loop_keeps; [apply Hok..|exact E|done|done]. }
    intros Hf v (Hin & Hwf & Hst).
    assert (Hall : Forall (fun x => Exists (fun a => matched a x) (accepts T)) (returns S)).
    { eapply return_loop_matched; [apply Hok..|exact E|done|done|].
      intros x a Hx Ha (He & k0 & s0 & Hi).
      destruct (returns_exact S x Hx He) as [|Hx2]; [done|]. exfalso. revert Hi.
      apply (no_exact_reference T a); try done. by destruct Hx2 as [->|[U ->]]. }
    rewrite in_type_eq in Hin. apply existsb_exists in Hin as (t & Ht & Hv).
    apply list_elem_of_In in Ht. unfold return_specs in Ht.
    apply list_elem_of_fmap in Ht as (x & -> & Hx).
    apply (proj1 (Forall_forall _ _) Hall) in Hx. rewrite (ok_accepts _ _ _ Hok) in Hx.
    intros a. unfold safe. rewrite acceptInputIntern_eq, (ok_accepts _ _ _ Hok).
    revert a. change (safe_takes T v (h :: tail)).
    apply Exists_cons in Hx as [Hm|Hm]; [by apply (ok_takes _ _ _ Hok x v)|].
    pose proof (tail_simple _ _ (ok_first _ _ _ Hok)) as Hs.
    assert (Hc : existsb (code_taken v) tail = true).
    { apply Exists_exists in Hm as (a & Ha & k0 & s0 & res & s1 & Em & Hr1 & Hf1).
      apply existsb_exists. exists a. split; [by apply list_elem_of_In|].
      rewrite forallb_forall in Hs. specialize (Hs a ltac:(by apply list_elem_of_In)).
      destruct a as [[q| | | | | | | | | |] m e]; try discriminate Hs.
      unfold code_taken. cbn [a_spec] in *. apply bool_decide_eq_true.
      unfold simple_accept in Hs. cbn in Hs. apply andb_true_iff in Hs as [Hq _].
      apply bool_decide_eq_true in Hq. rewrite match_eq in Em. cbn [match_body] in Em.
      eapply match_simple_sound; [|exact Hr1|exact Hf1|exact Hst|exact Hv]. by destruct q. }
    destruct (ok_leaves _ _ _ Hok v Hc) as [Htake|Hleave].
    - by apply taken_safe.
    - apply rejected_safe; [done|]. by apply simple_takes_safe. }
  unfold parseAccepts_. case_decide; [|by apply Hloop].
  destruct strict_types; [by intros [= <- <-]|]. intros E Hr.
  destruct (Hloop _ E Hr) as [H1 H2]. split; [by intros _; apply H1|done].
Qed.

Lemma all_parse_ok T : wf_type T = true -> decided T = true -> parse_ok T.
Proof.
  assert (Hauto : parse_ok autoTypeInfo).
  { eapply (type_parse_ok _ (acc NT_ALL) []); [done|]. by apply simple_ok. }
  induction T as [T IH] using (well_founded_induction (Wf_nat.well_founded_ltof _ depth)).
  intros Hw Hd. destruct (decided_ok T Hw Hd) as (h & tail & Hok); [|done|].
  - intros U HU. apply IH. by apply value_type_depth.
  - by eapply type_parse_ok.
Qed.
End Safe.
