(* ===== verification/ClassAccess.v ===== *)
(** * Class hierarchies and access to base classes

    The functions of lib/QoreClass.cpp and QoreClassIntern.h that the type system
    uses: equality of classes, the search for a class in the hierarchy of another
    one with the access that the way there gives, and the two checks of
    compatibility, at parse time and at run time. For hierarchies with public
    inheritance they have what the theorems on types use ([TypeLaws]). *)
From S2P Require Import Prelude TypeInfo TypeMatch TypeAccept TypeSpec.

(** Access to classes (ClassAccess). *)
Inductive ClassAccess := Public | Private | Internal | Inaccessible.
#[export] Instance ClassAccess_eq_dec : EqDecision ClassAccess.
Proof. solve_decision. Defined.
Definition access_rank (a : ClassAccess) : Z :=
  match a with Public => 0 | Private => 1 | Internal => 2 | Inaccessible => 3 end.

(** qore_class_private: what the functions here read of a class. The base classes
    ([scl], an empty list for a null pointer) are its nodes: the class, which is
    missing if it could not be found, and the access. *)
Inductive cls := Class {
  classID : Z;
  name : string;
  hash : string;
  injectedClass : option cls;
  scl : list (option cls * ClassAccess)
}.

(** Induction over base classes. *)
Section cls_induction.
Context (P : cls -> Prop).
Context (Pclass : forall i n h j l,
  (forall c, j = Some c -> P c) ->
  Forall (fun b => forall c, b.1 = Some c -> P c) l -> P (Class i n h j l)).

Fixpoint cls_nested_ind (c : cls) : P c :=
  match c with
  | Class i n h j l =>
      Pclass i n h j l
        (match j with
         | Some c => fun c' (E : Some c = Some c') =>
             eq_ind c P (cls_nested_ind c) c' (f_equal (from_option id c) E)
         | None => fun c' E => False_ind _ (eq_ind None
                     (fun o => match o with None => True | Some _ => False end) I _ E)
         end)
        ((fix go l : Forall (fun b => forall c, b.1 = Some c -> P c) l :=
           match l with
           | [] => Forall_nil_2 _
           | (Some c, a) :: l => Forall_cons_2 (fun b => forall c, b.1 = Some c -> P c)
               (Some c, a) l
               (fun c' (E : Some c = Some c') =>
                  eq_ind c P (cls_nested_ind c) c' (f_equal (from_option id c) E)) (go l)
           | (None, a) :: l => Forall_cons_2 (fun b => forall c, b.1 = Some c -> P c)
               (None, a) l
               (fun c' E => False_ind _ (eq_ind None
                     (fun o => match o with None => True | Some _ => False end) I _ E)) (go l)
           end) l)
  end.
End cls_induction.

(** ** Equality *)

(** qore_class_private::strictEqual *)
Definition strictEqual (c qc : cls) : bool :=
  (classID qc =? classID c) || (bool_decide (name qc = name c) && bool_decide (hash qc = hash c)).

(** qore_class_private::equal and parseEqual, which are the same code. *)
Fixpoint equal (c : cls) : cls -> bool :=
  fix equal_to (qc : cls) : bool :=
    strictEqual c qc ||
    match injectedClass c with Some j => equal j qc | None => false end ||
    match injectedClass qc with Some j => equal_to j | None => false end.
Definition parseEqual : cls -> cls -> bool := equal.

(** ** The search for a class *)

(** The access after one more step. *)
Definition worse (a b : ClassAccess) : ClassAccess :=
  if decide (access_rank a < access_rank b) then b else a.

Section Nodes.
Context (get : cls -> ClassAccess -> option (cls * ClassAccess)).

(** BCNode::getClass: [get] is getClassIntern of the base class, not at the top
    level. *)
Definition BCNode_getClass (b : option cls * ClassAccess) (n_access : ClassAccess)
    (toplevel : bool) : option (cls * ClassAccess) :=
  match b.1 with
  | None => None
  | Some sclass =>
      if bool_decide (access_rank Internal <= access_rank b.2) && negb toplevel then None
      else match get sclass n_access with
           | Some (rv, n_access) => Some (rv, worse n_access b.2)
           | None => None
           end
  end.

(** BCList::getClass *)
Fixpoint BCList_getClass (l : list (option cls * ClassAccess)) (n_access : ClassAccess)
    (toplevel : bool) : option (cls * ClassAccess) :=
  match l with
  | [] => None
  | b :: l =>
      match BCNode_getClass b n_access toplevel with
      | Some rv => Some rv
      | None => BCList_getClass l n_access toplevel
      end
  end.
End Nodes.

(** qore_class_private::getClassIntern *)
Fixpoint getClassIntern (qc c : cls) (toplevel : bool) (n_access : ClassAccess)
    {struct c} : option (cls * ClassAccess) :=
  match c with
  | Class i n h j l =>
      if equal (Class i n h j l) qc then Some (Class i n h j l, n_access)
      else BCList_getClass (fun s => getClassIntern qc s false) l n_access toplevel
  end.

(** [scl->getClass(qc, access, true)] *)
Definition scl_getClass (qc c : cls) (n_access : ClassAccess)
    : option (cls * ClassAccess) :=
  BCList_getClass (fun s => getClassIntern qc s false) (scl c) n_access true.

(** QoreClass::getClass, with the flag of private access. *)
Definition getClass (c qc : cls) : option (cls * bool) :=
  match getClassIntern qc c true Public with
  | Some (rv, access) => Some (rv, bool_decide (access_rank Public < access_rank access))
  | None => None
  end.

(** qore_class_private::parseGetClass *)
Definition parseGetClass (c qc : cls) : option (cls * ClassAccess) :=
  if parseEqual c qc then Some (c, Public) else scl_getClass qc c Public.

(** ** Compatibility *)

(** qore_class_private::runtimeCheckPrivateClassAccess, for the class of the code
    that runs; parseCheckPrivateClassAccess, for the class that is parsed. *)
Definition runtimeCheckPrivateClassAccess (c : cls) (qc : option cls) : bool :=
  match qc with
  | None => false
  | Some qc => bool_decide (is_Some (getClassIntern c qc true Public)) ||
               bool_decide (is_Some (scl_getClass qc c Public))
  end.
Definition parseCheckPrivateClassAccess (c : cls) (opc : option cls) : bool :=
  match opc with
  | None => false
  | Some opc => bool_decide (is_Some (parseGetClass opc c)) ||
                bool_decide (is_Some (scl_getClass opc c Public))
  end.

(** qore_class_private::parseCheckCompatibleClassIntern *)
Definition parseCheckCompatibleClassIntern (ctx : option cls) (c oc : cls) (may : bool)
    : qore_type_result_e * bool :=
  if parseEqual c oc then (QTI_IDENT, may)
  else
    let found access may :=
      if decide (access = Public) then (QTI_AMBIGUOUS, may)
      else if parseCheckPrivateClassAccess c ctx then (QTI_AMBIGUOUS, may)
      else (QTI_NOT_EQUAL, false) in
    match parseGetClass c oc with
    | Some (_, access) => found access may
    | None =>
        match parseGetClass oc c with
        | Some (_, access) => found access true
        | None => (QTI_NOT_EQUAL, may)
        end
    end.

(** How many classes are injected one after the other: the fuel of
    parseCheckCompatibleClass. *)
Fixpoint injections (c : cls) : nat :=
  match c with
  | Class _ _ _ (Some j) _ => S (injections j)
  | Class _ _ _ None _ => 0%nat
  end.

(** qore_class_private::parseCheckCompatibleClass *)
Fixpoint parseCheckCompatibleClass_ (fuel : nat) (ctx : option cls) (c oc : cls)
    (may : bool) : qore_type_result_e * bool :=
  match fuel with
  | O => (QTI_NOT_EQUAL, may)
  | S fuel =>
      let '(rv, may) := parseCheckCompatibleClassIntern ctx c oc may in
      if decide (rv <> QTI_NOT_EQUAL) then (rv, may)
      else
        let '(rv, may) := match injectedClass c with
                          | Some j => parseCheckCompatibleClass_ fuel ctx j oc may
                          | None => (QTI_NOT_EQUAL, may)
                          end in
        if decide (rv <> QTI_NOT_EQUAL) then (rv, may)
        else match injectedClass oc with
             | Some j =>
                 let '(rv, may) := parseCheckCompatibleClass_ fuel ctx j c may in
                 (rv, may || bool_decide (rv <> QTI_NOT_EQUAL))
             | None => (QTI_NOT_EQUAL, may)
             end
  end.
Definition parseCheckCompatibleClass (ctx : option cls) (c oc : cls) (may : bool)
    : qore_type_result_e * bool :=
  parseCheckCompatibleClass_ (S (injections c + injections oc)) ctx c oc may.

(** qore_class_private::runtimeCheckCompatibleClassIntern and
    runtimeCheckCompatibleClass *)
Definition runtimeCheckCompatibleClassIntern (ctx : option cls) (c oc : cls)
    : qore_type_result_e :=
  if equal c oc then QTI_IDENT
  else match scl_getClass c oc Public with
       | None => QTI_NOT_EQUAL
       | Some (_, access) =>
           if decide (access = Public) then QTI_AMBIGUOUS
           else if runtimeCheckPrivateClassAccess c ctx then QTI_AMBIGUOUS
           else QTI_NOT_EQUAL
       end.
Definition runtimeCheckCompatibleClass (ctx : option cls) (c oc : cls)
    : qore_type_result_e :=
  match runtimeCheckCompatibleClassIntern ctx c oc with
  | QTI_NOT_EQUAL =>
      match injectedClass c with
      | Some j => runtimeCheckCompatibleClassIntern ctx j oc
      | None => QTI_NOT_EQUAL
      end
  | rv => rv
  end.

(** ** Equality is symmetric *)
Lemma strictEqual_sym c d : strictEqual c d = strictEqual d c.
Proof.
  unfold strictEqual. rewrite Z.eqb_sym. f_equal.
  f_equal; apply bool_decide_ext; split; congruence.
Qed.
Lemma strictEqual_refl c : strictEqual c c = true.
Proof. unfold strictEqual. by rewrite Z.eqb_refl. Qed.

Lemma class_equal_eq c qc :
  equal c qc = strictEqual c qc ||
    from_option (fun j => equal j qc) false (injectedClass c) ||
    from_option (fun j => equal c j) false (injectedClass qc).
Proof. destruct c as [i n h [j|] l], qc as [i' n' h' [j'|] l']; reflexivity. Qed.

Lemma class_equal_refl c : equal c c = true.
Proof. rewrite class_equal_eq. by rewrite strictEqual_refl. Qed.

Lemma class_equal_sym c qc : equal c qc = equal qc c.
Proof.
  revert qc. induction c as [i n h j l IHj _] using cls_nested_ind.
  intros qc. induction qc as [i' n' h' j' l' IHj' _] using cls_nested_ind.
  rewrite (class_equal_eq (Class i n h j l)), (class_equal_eq (Class i' n' h' j' l')).
  rewrite strictEqual_sym, <- !orb_assoc. f_equal. rewrite orb_comm. f_equal; cbn.
  - destruct j' as [c'|]; [|done]. cbn. by apply IHj'.
  - destruct j as [c|]; [|done]. cbn. by apply IHj.
Qed.

(** ** The two checks at run time agree *)
Lemma getClassIntern_eq qc c toplevel a :
  getClassIntern qc c toplevel a =
  if equal c qc then Some (c, a)
  else BCList_getClass (fun s => getClassIntern qc s false) (scl c) a toplevel.
Proof. by destruct c. Qed.

Section Table.
(** The classes by number, the class of the code that runs, the class that is
    parsed, and what else the type system uses. *)
Context (classes : Z -> cls) (runtime_class parse_class : option cls)
  (strict : bool) (hashdecl_equal : Z -> Z -> bool).

Definition class_env : TypeEnv := {|
  strict_types := strict;
  hd_equal := hashdecl_equal;
  class_equal a b := equal (classes a) (classes b);
  class_parse_check t u may :=
    parseCheckCompatibleClass parse_class (classes t) (classes u) may;
  class_get u o := snd <$> getClass (classes o) (classes u);
  class_private_access u := runtimeCheckPrivateClassAccess (classes u) runtime_class;
  class_runtime_check u o :=
    runtimeCheckCompatibleClass runtime_class (classes u) (classes o)
|}.
#[local] Existing Instance class_env.

Lemma accept_object_eq u o :
  type_spec_accept_object u o =
  if equal (classes u) (classes o) then Accepted
  else match scl_getClass (classes u) (classes o) Public with
       | None => Rejected
       | Some (_, access) =>
           if decide (access = Public) then Accepted
           else if runtimeCheckPrivateClassAccess (classes u) runtime_class
                then Accepted else PrivError
       end.
Proof.
  unfold type_spec_accept_object. cbn [class_get class_private_access class_env].
  unfold getClass. rewrite getClassIntern_eq, class_equal_sym.
  destruct (equal (classes u) (classes o)); [done|].
  unfold scl_getClass. destruct (BCList_getClass _ _ _ _) as [[rv access]|]; [|done].
  by destruct access.
Qed.

Lemma runtime_check_accepts u o : injectedClass (classes u) = None ->
  class_runtime_check u o <> QTI_NOT_EQUAL <-> type_spec_accept_object u o = Accepted.
Proof.
  intros Hj. rewrite accept_object_eq. cbn [class_runtime_check class_env].
  unfold runtimeCheckCompatibleClass, runtimeCheckCompatibleClassIntern. rewrite Hj.
  destruct (equal (classes u) (classes o)); [done|].
  destruct (scl_getClass _ _ _) as [[rv access]|]; [|done].
  case_decide; [done|]. by destruct (runtimeCheckPrivateClassAccess _ _).
Qed.

(** ** Hierarchies with public inheritance *)

(** The classes in the hierarchy of a class. *)
Inductive has_class : cls -> cls -> Prop :=
| has_self c : has_class c c
| has_base c b a d : (Some b, a) ∈ scl c -> has_class b d -> has_class c d.

Lemma has_class_trans c d e : has_class c d -> has_class d e -> has_class c e.
Proof. induction 1; eauto using has_class. Qed.

(** Every class of a hierarchy is the class with its number, and no other class has
    its name and hash; there are no injected classes, and inheritance is public. *)
Record public_table : Prop := {
  table_id i : classID (classes i) = i;
  table_node i n : has_class (classes i) n -> n = classes (classID n);
  table_public i n : has_class (classes i) n ->
    injectedClass n = None /\ Forall (fun b => is_Some b.1 /\ b.2 = Public) (scl n);
  table_unique i j : strictEqual (classes i) (classes j) = true -> i = j
}.

Context (HT : public_table).

Lemma table_equal i j : equal (classes i) (classes j) = true <-> i = j.
Proof.
  rewrite class_equal_eq. destruct (table_public HT i _ (has_self _)) as [-> _].
  destruct (table_public HT j _ (has_self _)) as [-> _]. cbn. rewrite !orb_false_r.
  split; [apply (table_unique HT)|intros ->; apply strictEqual_refl].
Qed.

(** What the search finds. *)
Definition finds (u : Z) (c : cls) (r : option (cls * ClassAccess)) : Prop :=
  match r with
  | Some (rv, access) => rv = classes u /\ access = Public /\ has_class c (classes u)
  | None => ~ has_class c (classes u)
  end.

Lemma BCList_finds u c l tl : (forall b, b ∈ l -> b ∈ scl c) ->
  Forall (fun b => exists s, b.1 = Some s /\ b.2 = Public /\
            finds u s (getClassIntern (classes u) s false Public)) l ->
  match BCList_getClass (fun s => getClassIntern (classes u) s false) l Public tl with
  | Some (rv, access) => rv = classes u /\ access = Public /\ has_class c (classes u)
  | None => forall s a, (Some s, a) ∈ l -> ~ has_class s (classes u)
  end.
Proof.
  intros Hin Hl. induction Hl as [|[bs ba] l (s & Es & Ea & Hs) Hl IH]; cbn.
  { intros s a H. by apply elem_of_nil in H. }
  cbn in Es, Ea. subst bs ba. unfold BCNode_getClass. cbn.
  destruct (getClassIntern (classes u) s false Public) as [[rv access]|]; cbn in Hs.
  - destruct Hs as (-> & -> & Hs). split_and!; [done..|].
    eapply has_base; [apply Hin; left|done].
  - destruct (BCList_getClass _ _ _ _) as [[rv access]|].
    + apply IH. intros b Hb. apply Hin. by right.
    + intros s' a Hs'. apply elem_of_cons in Hs' as [[= -> ->]|Hs']; [done|].
      eapply IH; [|exact Hs']. intros b Hb. apply Hin. by right.
Qed.

Lemma getClassIntern_finds u c tl : (exists i, has_class (classes i) c) ->
  finds u c (getClassIntern (classes u) c tl Public).
Proof.
  revert tl. induction c as [i n h j l IHj IHl] using cls_nested_ind.
  intros tl [k Hk]. rewrite getClassIntern_eq.
  pose proof (table_node HT k _ Hk) as Hc. cbn in Hc.
  destruct (equal _ (classes u)) eqn:E.
  - rewrite Hc in E. apply table_equal in E. subst u. cbn. rewrite <- Hc.
    split_and!; [done..|constructor].
  - pose proof (BCList_finds u (Class i n h j l) l tl) as Hf. cbn [scl] in *.
    assert (Hfor : Forall (fun b => exists s, b.1 = Some s /\ b.2 = Public /\
            finds u s (getClassIntern (classes u) s false Public)) l).
    { destruct (table_public HT k _ Hk) as [_ Hpub]. cbn in Hpub.
      apply Forall_forall. intros [bs ba] Hb.
      apply (proj1 (Forall_forall _ _) Hpub) in Hb as Hp. cbn in Hp.
      destruct Hp as [[s ->] ->]. exists s. split_and!; [done..|].
      apply (proj1 (Forall_forall _ _) IHl _ Hb s eq_refl).
      exists k. eapply has_class_trans; [exact Hk|]. eapply has_base; [exact Hb|constructor]. }
    specialize (Hf ltac:(done) Hfor).
    destruct (BCList_getClass _ _ _ _) as [[rv access]|]; [exact Hf|].
    cbn. intros H. inversion H as [c E1 E2|c b a d Hb Hd E1 E2]; subst.
    + by rewrite <- E2, class_equal_refl in E.
    + cbn in Hb. by apply (Hf b a).
Qed.

Lemma scl_finds u o : u <> o ->
  finds u (classes o) (scl_getClass (classes u) (classes o) Public).
Proof.
  intros Hn. pose proof (getClassIntern_finds u (classes o) true
    (ex_intro _ o (has_self _))) as H.
  rewrite getClassIntern_eq in H. destruct (equal (classes o) (classes u)) eqn:E; [|exact H].
  by apply table_equal in E.
Qed.

Lemma parse_check_public t u may :
  parseCheckCompatibleClass parse_class (classes t) (classes u) may =
  if decide (t = u) then (QTI_IDENT, may)
  else match scl_getClass (classes u) (classes t) Public with
       | Some _ => (QTI_AMBIGUOUS, may)
       | None => match scl_getClass (classes t) (classes u) Public with
                 | Some _ => (QTI_AMBIGUOUS, true)
                 | None => (QTI_NOT_EQUAL, may)
                 end
       end.
Proof.
  unfold parseCheckCompatibleClass. cbn [parseCheckCompatibleClass_].
  destruct (table_public HT t _ (has_self _)) as [-> _].
  destruct (table_public HT u _ (has_self _)) as [-> _].
  unfold parseCheckCompatibleClassIntern, parseGetClass, parseEqual.
  destruct (decide (t = u)) as [->|E].
  - rewrite class_equal_refl. done.
  - rewrite (class_equal_sym (classes u)).
    destruct (equal (classes t) (classes u)) eqn:Eq; [by apply table_equal in Eq|].
    pose proof (scl_finds u t ltac:(congruence)) as H1.
    pose proof (scl_finds t u ltac:(congruence)) as H2.
    destruct (scl_getClass (classes u) (classes t) Public) as [[rv access]|].
    + destruct H1 as (_ & -> & _). done.
    + destruct (scl_getClass (classes t) (classes u) Public) as [[rv access]|]; [|done].
      destruct H2 as (_ & -> & _). done.
Qed.

Lemma accept_public u o :
  type_spec_accept_object u o = Accepted <-> has_class (classes o) (classes u).
Proof.
  rewrite accept_object_eq. destruct (equal (classes u) (classes o)) eqn:E.
  - apply table_equal in E as ->. split; [constructor|done].
  - assert (Hn : u <> o) by (intros ->; by rewrite class_equal_refl in E).
    pose proof (scl_finds u o Hn) as H.
    destruct (scl_getClass _ _ _) as [[rv access]|].
    + destruct H as (_ & -> & H). done.
    + done.
Qed.

Lemma class_laws : Equivalence (fun a b => hashdecl_equal a b = true) -> TypeLaws.
Proof.
  intros Hhd. split; cbn [hd_equal class_equal class_get class_private_access
    class_parse_check class_env].
  - exact Hhd.
  - split; repeat intro; rewrite table_equal in *; congruence.
  - intros c. unfold getClass. rewrite getClassIntern_eq. by rewrite class_equal_refl.
  - intros u u' o ->%table_equal. done.
  - intros u u' ->%table_equal. done.
  - intros t u r may H Hr. rewrite parse_check_public in H.
    repeat case_match; simplify_eq; done.
  - intros t u r o H Hr Ho. rewrite parse_check_public in H. apply accept_public.
    apply accept_public in Ho. case_decide as E; [by subst|].
    pose proof (scl_finds u t ltac:(congruence)) as H1.
    destruct (scl_getClass (classes u) (classes t) Public) as [[rv access]|].
    + eapply has_class_trans; [exact Ho|]. by destruct H1 as (_ & _ & ?).
    + destruct (scl_getClass (classes t) (classes u) Public); simplify_eq; done.
Qed.
End Table.
