(* ===== verification/TypedList.v ===== *)
(** * Lists with types: common types, literals and operators

    The common type of two types (matchCommonType) has the values of both; the
    type that a list literal gets (lib/QoreParseListNode.cpp), and what push and
    the operator + do with the type of a list (qore_list_private.h), keep lists
    well-formed: the elements are values of the value type. *)
From S2P Require Import Prelude TypeInfo TypeMatch TypeAccept TypeSpec TypeSound.
From S2P Require Import TypeComplete TypeParse.

Section Lists.
Context {TE : TypeEnv} {CV : Conversions}.

(** ** Operations *)

(** qore_list_private::setListTypeFromNewElementType: the new complexTypeInfo. *)
Definition not_any (T : option ty) : bool :=
  match T with Some T => bool_decide (T <> anyTypeInfo) | None => false end.
Definition setListTypeFromNewElementType (complexTypeInfo newElementType : option ty)
    : option ty :=
  let ctype := T ← complexTypeInfo; getUniqueReturnComplexList T in
  if negb (not_any ctype) && negb (not_any newElementType) then None
  else match matchCommonType ctype newElementType with
       | (ctype', true) =>
           if decide (ctype' = ctype) then complexTypeInfo
           else qore_get_complex_list_type <$> ctype'
       | (_, false) => Some autoListTypeInfo
       end.

(** qore_list_private::mergeWithoutTypeConversion: the elements that are added to a
    list with the type [t]. *)
Definition merged (t : option ty) (l : list value) : list value :=
  match t with
  | None => copy_strip_complex_types true <$> l
  | Some _ => refSelf <$> l
  end.

(** qore_list_private::concatenate *)
Definition concatenate (t1 : option ty) (l1 : list value) (t2 : option ty)
    (l2 : list value) : value :=
  let t := setListTypeFromNewElementType t1 (T ← t2; getUniqueReturnComplexList T) in
  VList false t true ((refSelf <$> l1) ++ merged t l2).

(** qore_list_private::pushWithoutTypeConversion: the element that is added. *)
Definition pushed (t : option ty) (e : value) : value :=
  match t with None => stripVal e | Some _ => e end.

(** qore_list_private::concatenateElement and prependElement *)
Definition concatenateElement (t1 : option ty) (l1 : list value) (e : value) : value :=
  let t := setListTypeFromNewElementType t1 (Some (getTypeInfo e)) in
  VList false t true ((refSelf <$> l1) ++ [pushed t e]).
Definition prependElement (t1 : option ty) (l1 : list value) (e : value) : value :=
  let t0 := T ← t1; if hasType T || bool_decide (T = autoTypeInfo)
                    then Some (qore_get_complex_list_type T) else None in
  let t := setListTypeFromNewElementType t0 (Some (getTypeInfo e)) in
  VList false t true (pushed t e :: merged t l1).

(** QorePlusOperatorNode::evalImpl, if one operand is a list. *)
Definition plus_lists (l r : value) : option value :=
  match l, r with
  | VList false t1 _ l1, VList false t2 _ l2 => Some (concatenate t1 l1 t2 l2)
  | VList false t1 _ l1, e => Some (concatenateElement t1 l1 e)
  | e, VList false t2 _ l2 => Some (prependElement t2 l2 e)
  | _, _ => None
  end.

(** qore_list_private::checkVal and push: the element, the sink, and the result. *)
Definition checkVal (t : option ty) (v : value) (xs : sink) : value * sink * bool :=
  match t with
  | None =>
      (stripVal v, xs,
       negb (bool_decide (getType v = NT_LIST \/ getType v = NT_HASH) && failed xs))
  | Some T =>
      let vti := getUniqueReturnComplexList T in
      if hasType_opt vti && negb (superSetOf vti (getTypeInfo v)) then
        match vti with
        | Some U =>
            let '(v, xs) := acceptAssignment U "<list element assignment>" v xs in
            if failed xs
            then (v, appendLastDescription (while_converting_element U) xs, false)
            else (v, xs, true)
        | None => (v, xs, true)
        end
      else (v, xs, true)
  end.
Definition push (t : option ty) (l : list value) (v : value) (xs : sink)
    : list value * sink * bool :=
  let '(v, xs, ok) := checkVal t v xs in
  if ok then (l ++ [v], xs, true) else (l, xs, false).

(** qore_list_private::merge *)
Fixpoint merge (t : option ty) (l : list value) (k : list value) (xs : sink)
    : list value * sink * bool :=
  match k with
  | [] => (l, xs, true)
  | v :: k =>
      let '(l, xs, ok) := push t l (refSelf v) xs in
      if ok then merge t l k xs else (l, xs, false)
  end.

(** ** Literals *)

(** The common type of the values so far: [vtype], or a null pointer, and
    [vcommon]. *)
Definition next_common (st : option ty * bool) (vt : option ty) : option ty * bool :=
  if st.2 then matchCommonType st.1 vt else st.
Fixpoint common_rest (st : option ty * bool) (vts : list (option ty)) : option ty * bool :=
  match vts with
  | [] => st
  | vt :: vts => common_rest (next_common st vt) vts
  end.
Definition auto_if_none (T : option ty) : ty :=
  match T with
  | Some T => if decide (T = anyTypeInfo) then autoTypeInfo else T
  | None => autoTypeInfo
  end.

(** QoreParseListNode::parseInitIntern: the value type of the literal, from the
    types of its expressions. *)
Definition parse_list_vtype (vts : list (option ty)) : ty :=
  match vts with
  | [] => autoTypeInfo
  | vt :: vts =>
      auto_if_none (common_rest (if not_any vt then (vt, true) else (None, false)) vts).1
  end.

(** QoreParseListNode::evalImpl: values that have more of a type than their
    expression are folded. *)
Definition fold_literal (vtype : ty) (v : value) (xs : sink) : value * sink :=
  if bool_decide (vtype <> getTypeInfo v) && negb (hasComplexType vtype) &&
     hasComplexType (getTypeInfo v)
  then acceptAssignment vtype "<type folding>" v xs else (v, xs).
Fixpoint fold_literals (vtype : ty) (vs : list value) (xs : sink) : list value * sink :=
  match vs with
  | [] => ([], xs)
  | v :: vs =>
      let '(v, xs) := fold_literal vtype v xs in
      let '(vs, xs) := fold_literals vtype vs xs in (v :: vs, xs)
  end.
Definition eval_list_vtype (vs : list value) : ty :=
  match (fun v => Some (getTypeInfo v)) <$> vs with
  | [] => autoTypeInfo
  | vt :: vts => auto_if_none (common_rest (vt, true) vts).1
  end.
Definition evalImpl (vtype : ty) (vs : list value) (xs : sink) : value * sink :=
  let '(l, xs) := fold_literals vtype vs xs in
  (VList false (Some (qore_get_complex_list_type (eval_list_vtype vs))) true l, xs).
End Lists.

(** ** Common types *)

(** Types that expressions and values have by themselves: those that the parser
    decides, without the types whose "or nothing" types return hashes. *)
Definition common_ok (T : ty) : bool :=
  decided T && match T with
               | Base (hexBinary_ | base64Binary_ | base64UrlBinary_) => false
               | _ => true
               end.

(** The specifications of [c] and [s] are among those of [t]. *)
Definition returns_more (c : ty) (s : QoreTypeSpec) (t : ty) : bool :=
  forallb (fun s => bool_decide (s ∈ return_specs t)) (s :: return_specs c).

Section Common.
Context {TE : TypeEnv} {TL : TypeLaws}.

Lemma in_auto v : in_type autoTypeInfo v = true.
Proof. by apply in_type_no_type. Qed.

Lemma returns_more_in c s t v : returns_more c s t = true ->
  (in_type c v = true -> in_type t v = true) /\ (in_spec s v = true -> in_type t v = true).
Proof.
  unfold returns_more. rewrite forallb_forall. intros H.
  assert (Hs : forall s', In s' (s :: return_specs c) -> in_spec s' v = true ->
    in_type t v = true).
  { intros s' Hs' Hv. eapply in_type_intro; [|exact Hv].
    by specialize (H s' Hs'); apply bool_decide_eq_true in H. }
  split.
  - rewrite in_type_eq. intros Hv. apply existsb_exists in Hv as (s' & H1 & H2).
    apply (Hs s'); [by right|done].
  - apply Hs. by left.
Qed.

(** A type that may be the value type of a list. *)
Definition value_ok (t : ty) : Prop :=
  common_ok t = true /\ wf_type t = true /\ t <> anyTypeInfo.

Lemma base_or_nothing b : common_ok (Base b) = true -> b <> any_ ->
  let t := get_or_nothing_type (Base b) in
  t = autoTypeInfo \/
  (returns_more (Base b) (QTS_TYPE NT_NOTHING) t = true /\ value_ok t).
Proof.
  intros H Hb. destruct b; try discriminate H; try done; try (by left);
    right; split; (by vm_compute) || (split_and!; [by vm_compute|by vm_compute|done]).
Qed.

Lemma unique_hash U : getUniqueReturnComplexHash (ComplexHash U) = Some U.
Proof.
  unfold getUniqueReturnComplexHash. change (unique_return (ComplexHash U)) with
    (Some (QTS_COMPLEXHASH U)). cbn [mbind option_bind]. case_decide as E; [|done].
  by injection E as ->.
Qed.
Lemma unique_list U : getUniqueReturnComplexList (ComplexList U) = Some U.
Proof.
  unfold getUniqueReturnComplexList. change (unique_return (ComplexList U)) with
    (Some (QTS_COMPLEXLIST U)). cbn [mbind option_bind]. case_decide as E; [|done].
  by destruct E as [[= ->]|].
Qed.
Lemma hash_or_nothing U : U <> anyTypeInfo ->
  get_or_nothing_type (ComplexHash U) = ComplexHashOrNothing U.
Proof.
  intros H. unfold get_or_nothing_type. rewrite unique_hash.
  change (from_option id autoTypeInfo (Some (qore_get_complex_hash_or_nothing_type U)) =
    ComplexHashOrNothing U). cbn. unfold qore_get_complex_hash_or_nothing_type.
  by rewrite decide_False.
Qed.
Lemma list_or_nothing U : U <> anyTypeInfo ->
  get_or_nothing_type (ComplexList U) = ComplexListOrNothing U.
Proof.
  intros H. unfold get_or_nothing_type. rewrite unique_list.
  assert (getUniqueReturnComplexHash (ComplexList U) = None /\
          getUniqueReturnComplexSoftList (ComplexList U) = None) as [-> ->].
  { unfold getUniqueReturnComplexHash, getUniqueReturnComplexSoftList.
    change (unique_return (ComplexList U)) with (Some (QTS_COMPLEXLIST U)).
    cbn [mbind option_bind]. by rewrite !decide_False. }
  change (from_option id autoTypeInfo (Some (qore_get_complex_list_or_nothing_type U)) =
    ComplexListOrNothing U). cbn. unfold qore_get_complex_list_or_nothing_type.
  by rewrite decide_False.
Qed.

Lemma or_nothing_type c : common_ok c = true -> wf_type c = true -> c <> anyTypeInfo ->
  let t := get_or_nothing_type c in
  t = autoTypeInfo \/
  (returns_more c (QTS_TYPE NT_NOTHING) t = true /\ value_ok t).
Proof.
  intros Hc Hw Ha.
  assert (Hsub : forall t s, return_specs c = [s] -> return_specs t = [s; QTS_TYPE NT_NOTHING] ->
    returns_more c (QTS_TYPE NT_NOTHING) t = true).
  { intros t s E1 E2. unfold returns_more. rewrite E1, E2. cbn.
    rewrite !bool_decide_true; [done|left|right; left]. }
  destruct c as [b|qc|qc|hd|hd|U|U|U|U|U|U|U|U|U|U]; try discriminate Hc;
    try (left; reflexivity).
  - apply base_or_nothing; [done|]. by intros ->.
  - right. split; [by eapply Hsub|]. done.
  - right. split; [by eapply Hsub|]. done.
  - assert (HU : U <> anyTypeInfo) by (by apply andb_true_iff in Hw as [?%bool_decide_eq_true _]).
    rewrite hash_or_nothing by done.
    right. split; [by eapply Hsub|]. split_and!; [exact Hc|exact Hw|done].
  - assert (HU : U <> anyTypeInfo) by (by apply andb_true_iff in Hw as [?%bool_decide_eq_true _]).
    rewrite list_or_nothing by done.
    right. split; [by eapply Hsub|]. split_and!; [exact Hc|exact Hw|done].
  - unfold common_ok in Hc. cbn in Hc. rewrite andb_true_r in Hc.
    apply bool_decide_eq_true in Hc as ->. right. split; [by vm_compute|].
    split_and!; [by vm_compute|by vm_compute|done].
  - left. unfold common_ok in Hc. cbn in Hc. rewrite andb_true_r in Hc.
    apply bool_decide_eq_true in Hc as ->. by vm_compute.
Qed.

(** The base type of a type that returns one kind of value has its values. *)
Lemma value_ok_spec c s : common_ok c = true -> return_specs c = [s] -> c <> anyTypeInfo ->
  c <> autoTypeInfo ->
  match s with
  | QTS_TYPE q => (exists b, c = Base b) /\ q <> NT_ALL /\ q <> NT_POINTER_BITS /\
      q <> NT_WEAKREF /\ q <> NT_WEAKREF_HASH /\ q <> NT_WEAKREF_LIST /\ q <> NT_REFERENCE
  | QTS_CLASS _ | QTS_HASHDECL _ | QTS_COMPLEXHASH _ | QTS_COMPLEXLIST _ => True
  | _ => False
  end.
Proof.
  intros Hc Hs H1 H2.
  destruct c as [b|qc|qc|hd|hd|U|U|U|U|U|U|U|U|U|U]; try discriminate Hc;
    try (by injection Hs as <-).
  - destruct b; try discriminate Hc; try discriminate Hs; try done;
      injection Hs as <-; (split_and!; [by eexists|discriminate..]).
  - unfold common_ok in Hc. cbn in Hc. rewrite andb_true_r in Hc.
    apply bool_decide_eq_true in Hc as ->. by injection Hs as <-.
  - unfold common_ok in Hc. cbn in Hc. rewrite andb_true_r in Hc.
    apply bool_decide_eq_true in Hc as ->. discriminate Hs.
Qed.

Lemma base_covers c s : common_ok c = true -> return_specs c = [s] ->
  c <> anyTypeInfo -> c <> autoTypeInfo ->
  value_ok (common_base (getBaseTypeInfo s)) /\
  forall v, in_type c v = true -> in_type (common_base (getBaseTypeInfo s)) v = true.
Proof.
  intros Hc Hs H1 H2. pose proof (value_ok_spec c s Hc Hs H1 H2) as Hk.
  assert (Hin : forall v, in_type c v = true -> in_spec s v = true).
  { intros v. rewrite in_type_eq, Hs. cbn. by rewrite orb_false_r. }
  assert (Hall : forall (l : list value), forallb (in_type autoTypeInfo) l = true).
  { intros l. by apply forallb_forall. }
  destruct s as [q|qc|hd| |U|U|U|U|U| |]; try done.
  - destruct Hk as (_ & Hq).
    split; [destruct q; try (by destruct_and! Hq); split_and!; by vm_compute|].
    intros v Hv. apply Hin in Hv. unfold in_spec in Hv. cbn in Hv.
    destruct q; try (by destruct_and! Hq); destruct_value v; try discriminate Hv;
      try (by vm_compute);
      solve [change (forallb (in_type autoTypeInfo) entry || false = true); by rewrite Hall
            |change (forallb (fun kv => in_type autoTypeInfo kv.2) members || false = true);
             rewrite forallb_snd; by rewrite Hall].
  - split; [split_and!; by vm_compute|]. intros v Hv. apply Hin in Hv.
    unfold in_spec in Hv. cbn in Hv. by destruct v.
  - split; [split_and!; by vm_compute|]. intros v Hv. apply Hin in Hv.
    unfold in_spec in Hv. cbn in Hv. destruct v; try done.
    change (forallb (fun kv => in_type autoTypeInfo kv.2) members || false = true).
    rewrite forallb_snd, Hall. done.
  - split; [split_and!; by vm_compute|]. intros v Hv. apply Hin in Hv.
    unfold in_spec in Hv. cbn in Hv. destruct v; try done.
    change (forallb (fun kv => in_type autoTypeInfo kv.2) members || false = true).
    rewrite forallb_snd, Hall. done.
  - split; [split_and!; by vm_compute|]. intros v Hv. apply Hin in Hv.
    unfold in_spec in Hv. cbn in Hv. destruct v; try done.
    change (forallb (in_type autoTypeInfo) entry || false = true). by rewrite Hall.
Qed.

Lemma nothing_returned n : common_ok n = true ->
  parseAcceptsReturns n NT_NOTHING = true -> in_type n VNothing = true.
Proof.
  intros Hn Hp. destruct n as [b|qc|qc|hd|hd|U|U|U|U|U|U|U|U|U|U]; try discriminate Hn;
    try reflexivity; try discriminate Hp.
  - destruct b; try discriminate Hn; try discriminate Hp; by vm_compute.
  - unfold common_ok in Hn. cbn in Hn. rewrite andb_true_r in Hn.
    apply bool_decide_eq_true in Hn as ->. discriminate Hp.
  - unfold common_ok in Hn. cbn in Hn. rewrite andb_true_r in Hn.
    apply bool_decide_eq_true in Hn as ->. by vm_compute.
Qed.

Lemma only_nothing n v : common_ok n = true -> n <> anyTypeInfo -> n <> autoTypeInfo ->
  isType n NT_NOTHING = true -> in_type n v = true -> v = VNothing.
Proof.
  intros Hn H1 H2 Hi Hv. unfold isType in Hi.
  destruct (returns n) as [|r [|]] eqn:E; try done.
  apply bool_decide_eq_true in Hi.
  assert (Hs : return_specs n = [r_spec r]) by (unfold return_specs; by rewrite E).
  pose proof (value_ok_spec n (r_spec r) Hn Hs H1 H2) as Hk.
  rewrite in_type_eq, Hs in Hv. cbn in Hv. rewrite orb_false_r in Hv.
  destruct (r_spec r) as [q| | | | | | | | | |]; try done. cbn in Hi. subst q.
  by apply in_nothing.
Qed.

Lemma no_type_auto n : common_ok n = true -> n <> anyTypeInfo -> hasType n = false ->
  n = autoTypeInfo.
Proof.
  intros Hn H1 H2. destruct n as [b|qc|qc|hd|hd|U|U|U|U|U|U|U|U|U|U]; try discriminate Hn;
    try discriminate H2.
  - by destruct b.
  - unfold common_ok in Hn. cbn in Hn. rewrite andb_true_r in Hn.
    apply bool_decide_eq_true in Hn as ->. discriminate H2.
  - unfold common_ok in Hn. cbn in Hn. rewrite andb_true_r in Hn.
    apply bool_decide_eq_true in Hn as ->. discriminate H2.
Qed.

(** The common type has the values of both types; without one it is [auto], or
    there is none. *)
Lemma common_type_covers c n : value_ok c -> value_ok n ->
  match matchCommonType (Some c) (Some n) with
  | (Some t, true) => value_ok t /\
      forall v, in_type c v = true \/ in_type n v = true -> in_type t v = true
  | (None, true) => False
  | (T, false) => T = Some autoTypeInfo
  end.
Proof.
  intros Hc Hn. pose proof Hc as (Hc1 & Hc2 & Hc3). pose proof Hn as (Hn1 & Hn2 & Hn3).
  unfold matchCommonType. rewrite (decide_False (P := c = anyTypeInfo)) by done.
  destruct (decide (Some c = Some n)) as [[= ->]|Hne]; [split; [done|]; by intros v []|].
  destruct (hasType n) eqn:Hh; cbn [negb].
  2: { rewrite decide_False by done. f_equal. by apply no_type_auto. }
  assert (Hna : n <> autoTypeInfo) by (by intros ->).
  assert (Hor : forall c, value_ok c ->
    let t := get_or_nothing_type c in
    if bool_decide (t <> autoTypeInfo)
    then value_ok t /\ forall v, in_type c v = true \/ v = VNothing -> in_type t v = true
    else t = autoTypeInfo).
  { intros d (Hd1 & Hd2 & Hd3). destruct (or_nothing_type d Hd1 Hd2 Hd3) as [->|[Hr Hv]];
      [done|]. cbn zeta. case_bool_decide as Ha; [|exact Ha].
    split; [done|]. intros v. destruct (returns_more_in d _ _ v Hr) as [Hd Hno].
    intros [Hi| ->]; [by apply Hd|by apply Hno]. }
  destruct (decide (_ /\ _)) as [[_ Hi]|_].
  { specialize (Hor c Hc). cbn zeta in *. destruct (bool_decide _); [|congruence].
    destruct Hor as [Ht Hor]. split; [done|]. intros v [Hv|Hv]; apply Hor; [by left|right].
    by apply (only_nothing n). }
  destruct (isType c NT_NOTHING) eqn:Hi.
  { assert (Hca : c <> autoTypeInfo) by (by intros ->).
    unfold get_or_nothing_type_check. destruct (parseAcceptsReturns n NT_NOTHING) eqn:Ep.
    - rewrite bool_decide_true by done. split; [done|]. intros v [Hv|Hv]; [|done].
      rewrite (only_nothing c v) by done. by apply nothing_returned.
    - specialize (Hor n Hn). cbn zeta in *. destruct (bool_decide _); [|congruence].
      destruct Hor as [Ht Hor]. split; [done|]. intros v [Hv|Hv]; apply Hor; [right|by left].
      by apply (only_nothing c). }
  destruct (superSetOf_ n c) eqn:Es.
  { split; [done|]. intros v [Hv|Hv]; [by apply (superSetOf_in_type n c)|done]. }
  destruct (returns c) as [|r [|]] eqn:Ec; try done.
  destruct (returns n) as [|r' [|]] eqn:En; try done.
  case_decide as Eb; [|done].
  assert (return_specs c = [r_spec r] /\ return_specs n = [r_spec r']) as [Sc Sn]
    by (unfold return_specs; by rewrite Ec, En).
  destruct (decide (c = autoTypeInfo)) as [->|Hca].
  { exfalso. injection Sc as Sc. rewrite <- Sc in Eb.
    pose proof (value_ok_spec n _ Hn1 Sn Hn3 Hna) as Hk.
    destruct (r_spec r') as [q| | | | | | | | | |]; try done.
    destruct Hk as (_ & Hk). destruct_and! Hk. by destruct q. }
  destruct (base_covers c _ Hc1 Sc Hc3 Hca) as [Hv1 Hin1].
  destruct (base_covers n _ Hn1 Sn Hn3 Hna) as [Hv2 Hin2].
  split; [done|]. intros v [Hv|Hv]; [by apply Hin1|]. rewrite Eb. by apply Hin2.
Qed.

(** ** The types of values *)
Lemma own_value_ok v : wf_value v = true -> strong v = true ->
  common_ok (getTypeInfo v) = true -> value_ok (getTypeInfo v).
Proof.
  intros Hwf Hs Hc. destruct v as [| | | | | | | | | | | |w o i vd|w t u l|w h t u l];
    try discriminate Hs; try (by split_and!); [|].
  - destruct t as [T|]; [|by split_and!]. cbn [getTypeInfo] in *.
    cbn in Hwf. apply andb_true_iff in Hwf as [[Ht _]%andb_true_iff _].
    destruct (getComplexListValueType T) as [U|] eqn:E; [|done].
    destruct (list_type_cases T U E) as [->|[->|[->| ->]]]; by split_and!.
  - destruct h as [hd|]; [by split_and!|]. destruct t as [T|]; [|by split_and!].
    cbn [getTypeInfo] in *.
    cbn in Hwf. apply andb_true_iff in Hwf as [[Ht _]%andb_true_iff _].
    destruct (getComplexHashValueType T) as [U|] eqn:E; [|done].
    destruct (hash_type_cases T U E) as [->| ->]; by split_and!.
Qed.

(** ** Literals *)

(** A type with the value that its expression has. *)
Definition typed (T : option ty) (v : value) : Prop :=
  match T with Some T => value_ok T /\ in_type T v = true | None => False end.

(** The common type so far has the values so far. *)
Definition common_so_far (st : option ty * bool) (vs : list value) : Prop :=
  match st with
  | (Some t, true) => value_ok t /\ Forall (fun v => in_type t v = true) vs
  | (None, true) => False
  | (T, false) => T = Some autoTypeInfo
  end.

Lemma next_common_covers st vs T v : common_so_far st vs -> typed T v ->
  common_so_far (next_common st T) (vs ++ [v]).
Proof.
  destruct T as [n|]; [|done]. intros Hst [Hn Hv]. unfold next_common.
  destruct st as [[c|] []]; cbn [fst snd]; try done. destruct Hst as [Hc Hvs].
  pose proof (common_type_covers c n Hc Hn) as H.
  destruct (matchCommonType (Some c) (Some n)) as [[t|] []]; try done.
  destruct H as [Ht H]. split; [done|]. apply Forall_app. split.
  - eapply Forall_impl; [exact Hvs|]. auto.
  - constructor; [|constructor]. auto.
Qed.

Lemma common_rest_covers Ts vs st us : Forall2 typed Ts vs -> common_so_far st us ->
  common_so_far (common_rest st Ts) (us ++ vs).
Proof.
  intros H. revert st us. induction H as [|T v Ts vs HT H IH]; intros st us Hst; cbn.
  - by rewrite app_nil_r.
  - assert (us ++ v :: vs = (us ++ [v]) ++ vs) as -> by (by rewrite <- app_assoc).
    apply IH. by apply next_common_covers.
Qed.

Lemma common_so_far_type st vs : common_so_far st vs ->
  let t := auto_if_none st.1 in
  t <> anyTypeInfo /\ wf_type t = true /\ common_ok t = true /\
  forallb (in_type t) vs = true.
Proof.
  destruct st as [[t|] []]; cbn; try done.
  - intros [(H1 & H2 & H3) H]. rewrite decide_False by done. split_and!; [done..|].
    induction H as [|v vs Hv H IH]; cbn; [done|]. by rewrite Hv.
  - intros [= ->]. split_and!; try done.
    apply forallb_forall. intros. apply in_auto.
Qed.

Lemma list_vtype_covers T Ts v vs : typed T v -> Forall2 typed Ts vs ->
  let t := auto_if_none (common_rest (T, true) Ts).1 in
  t <> anyTypeInfo /\ wf_type t = true /\ common_ok t = true /\
  forallb (in_type t) (v :: vs) = true.
Proof.
  intros HT H. apply (common_so_far_type _ (v :: vs)).
  apply (common_rest_covers _ _ _ [v] H). destruct T as [T|]; [|done].
  destruct HT as [H1 H2]. split; [done|]. by constructor.
Qed.

Lemma parse_vtype_covers Ts vs : Forall2 typed Ts vs ->
  let t := parse_list_vtype Ts in
  t <> anyTypeInfo /\ wf_type t = true /\ common_ok t = true /\
  forallb (in_type t) vs = true.
Proof.
  intros H. destruct H as [|T v Ts vs HT H]; [by split_and!|]. cbn [parse_list_vtype].
  assert (not_any T = true) as ->.
  { destruct T as [T|]; [|done]. destruct HT as [(_ & _ & Hn) _]. by apply bool_decide_eq_true. }
  by apply list_vtype_covers.
Qed.

(** A value of a type without complex types has none itself, and is not folded. *)
Lemma own_not_complex T v : common_ok T = true -> T <> anyTypeInfo ->
  hasComplexType T = false -> strong v = true -> in_type T v = true ->
  hasComplexType (getTypeInfo v) = false.
Proof.
  intros Hc Ha Hx Hs Hv. unfold hasComplexType in Hx.
  apply orb_false_iff in Hx as [Hauto Hx]. apply bool_decide_eq_false in Hauto.
  rewrite in_type_eq in Hv. apply existsb_exists in Hv as (s & Hr & Hv).
  assert (Hcx : spec_isComplex s = false).
  { unfold isComplex in Hx. unfold return_specs in Hr.
    apply in_map_iff in Hr as (r & <- & Hr). destruct (spec_isComplex (r_spec r)) eqn:E; [|done].
    rewrite <- Hx. symmetry. apply existsb_exists. eauto. }
  assert (Hspec : match s with QTS_TYPE NT_ALL | QTS_EMPTYLIST | QTS_EMPTYHASH | QTS_HARDREF =>
    False | _ => True end).
  { assert (Hall : forallb (fun s => match s with
      | QTS_TYPE NT_ALL | QTS_EMPTYLIST | QTS_EMPTYHASH | QTS_HARDREF => false
      | _ => true end) (return_specs T) = true).
    { clear -Hc Ha Hauto. destruct T as [b|qc|qc|hd|hd|U|U|U|U|U|U|U|U|U|U];
        try discriminate Hc; try reflexivity.
      - destruct b; try discriminate Hc; try reflexivity; done.
      - unfold common_ok in Hc. cbn in Hc. rewrite andb_true_r in Hc.
        by apply bool_decide_eq_true in Hc as ->.
      - unfold common_ok in Hc. cbn in Hc. rewrite andb_true_r in Hc.
        by apply bool_decide_eq_true in Hc as ->. }
    rewrite forallb_forall in Hall. specialize (Hall s Hr). by destruct s as [[]| | | | | | | | | |]. }
  destruct v as [| | | | | | | | | | | |w o i vd|w t u l|w h t u l]; try reflexivity;
    try discriminate Hs.
  - unfold in_spec in Hv. destruct s as [[]| | | | | | | | | |]; try done; cbn in Hv;
      destruct w; try done; by destruct t.
  - unfold in_spec in Hv. destruct s as [[]| | | | | | | | | |]; try done; cbn in Hv;
      destruct w; try done; by destruct h, t.
Qed.
End Common.

Section TypedLists.
Context {TE : TypeEnv} {TL : TypeLaws} {CV : Conversions}.

Lemma fold_literal_keeps T v : common_ok T = true -> T <> anyTypeInfo ->
  strong v = true -> in_type T v = true -> fold_literal T v [] = (v, []).
Proof.
  intros Hc Ha Hs Hv. unfold fold_literal. destruct (hasComplexType T) eqn:E; cbn.
  - by rewrite andb_false_r.
  - by rewrite (own_not_complex T v), andb_false_r.
Qed.
Lemma fold_literals_keep T vs : common_ok T = true -> T <> anyTypeInfo ->
  forallb strong vs = true -> forallb (in_type T) vs = true ->
  fold_literals T vs [] = (vs, []).
Proof.
  intros Hc Ha. induction vs as [|v vs IH]; cbn [fold_literals forallb]; [done|].
  intros [Hs Hss]%andb_true_iff [Hv Hvs]%andb_true_iff.
  rewrite fold_literal_keeps by done. by rewrite IH.
Qed.

(** A list with a tag is well-formed with its elements. *)
Lemma tag_list_wf w T U u l : getComplexListValueType T = Some U -> U <> anyTypeInfo ->
  wf_type U = true -> all_good U l -> wf_value (VList w (Some T) u l) = true.
Proof.
  intros HT H1 H2 [Hl Hw]. cbn. rewrite HT. rewrite wf_tag_some by done. cbn.
  by rewrite Hl, Hw.
Qed.
Lemma complex_list_value U : U <> anyTypeInfo ->
  getComplexListValueType (qore_get_complex_list_type U) = Some U.
Proof.
  intros HU. unfold qore_get_complex_list_type. rewrite decide_False by done.
  destruct (decide (U = autoTypeInfo)) as [->|Ha]; [done|].
  apply list_type_value; [by left|done].
Qed.

(** The values of a literal, with the types of their expressions. *)
Definition literal_value (T : option ty) (v : value) : Prop :=
  typed T v /\ wf_value v = true /\ strong v = true /\ common_ok (getTypeInfo v) = true.

Lemma literal_list Ts vs : Forall2 literal_value Ts vs ->
  exists T, evalImpl (parse_list_vtype Ts) vs [] = (VList false (Some T) true vs, []) /\
    wf_value (VList false (Some T) true vs) = true /\
    in_type (qore_get_complex_list_type (parse_list_vtype Ts))
      (VList false (Some T) true vs) = true.
Proof.
  intros H.
  assert (Hty : Forall2 typed Ts vs) by (eapply Forall2_impl; [exact H|]; by intros ? ? []).
  assert (Hown : Forall2 typed ((fun v => Some (getTypeInfo v)) <$> vs) vs).
  { clear Hty. induction H as [|T v Ts vs (HT & Hw & Hs & Ho) H IH]; cbn; constructor; [|done].
    split; [by apply own_value_ok|by apply own_type]. }
  assert (Hgood : forallb wf_value vs = true /\ forallb strong vs = true).
  { clear Hty Hown. induction H as [|T v Ts vs (HT & Hw & Hs & Ho) H IH]; cbn; [done|].
    rewrite Hw, Hs. done. }
  destruct Hgood as [Hwf Hst].
  destruct (parse_vtype_covers Ts vs Hty) as (H1 & H2 & H3 & H4).
  assert (He : let t := eval_list_vtype vs in t <> anyTypeInfo /\ wf_type t = true /\
    forallb (in_type t) vs = true).
  { unfold eval_list_vtype. destruct vs as [|v vs]; [done|].
    cbn [fmap list_fmap] in Hown |- *. inversion Hown as [|? ? ? ? HT HTs]; subst.
    destruct (list_vtype_covers _ _ v vs HT HTs) as (? & ? & ? & ?). by split_and!. }
  destruct He as (E1 & E2 & E3).
  exists (qore_get_complex_list_type (eval_list_vtype vs)).
  unfold evalImpl. rewrite fold_literals_keep by done. split; [done|]. split.
  - eapply tag_list_wf; [by apply complex_list_value|done|done|]. by split.
  - by rewrite (value_type_in_type _ _ (complex_list_value _ H1)).
Qed.

(** ** Operations *)

(** The type of a list has a value type of its own: it is no "or nothing" type. *)
Definition tag_ok (t : option ty) : Prop :=
  match t with
  | Some T => exists U, getUniqueReturnComplexList T = Some U /\ common_ok U = true
  | None => True
  end.

Lemma unique_value T U : getUniqueReturnComplexList T = Some U ->
  getComplexListValueType T = Some U.
Proof.
  unfold getUniqueReturnComplexList, getComplexListValueType, unique_return, first_return,
    returns. destruct (hasType T); [|done].
  destruct T as [b| | | | | | | | | | | | | |]; cbn [type_info];
    [by destruct b|..]; repeat case_decide; cbn; intros E; try done;
    repeat match goal with
           | H : _ \/ _ |- _ => destruct H as [[=]|[=]]
           | H : ~ (_ \/ _) |- _ => exfalso; apply H; by left
           end; simplify_eq; try done.
Qed.

(** The type that a list gets for new elements of the type [n]. *)
Lemma new_type_covers t l n : wf_value (VList false t true l) = true -> tag_ok t ->
  match n with Some n => value_ok n | None => True end ->
  match setListTypeFromNewElementType t n with
  | None => t = None /\ n = None
  | Some T => exists U, getComplexListValueType T = Some U /\ U <> anyTypeInfo /\
      wf_type U = true /\ forallb (in_type U) l = true /\
      forall v, match n with Some n => in_type n v = true | None => True end ->
        in_type U v = true
  end.
Proof.
  intros Hwf Ht Hn. unfold setListTypeFromNewElementType.
  assert (Hauto : forall n, exists U, getComplexListValueType autoListTypeInfo = Some U /\
      U <> anyTypeInfo /\ wf_type U = true /\ forallb (in_type U) l = true /\
      forall v, match n with Some n => in_type n v = true | None => True end ->
        in_type U v = true).
  { intros n0. exists autoTypeInfo. split_and!; try done.
    apply forallb_forall. intros. apply in_auto. }
  destruct t as [T|]; cbn [mbind option_bind].
  - destruct Ht as (c & Hc & Hcok). rewrite Hc. pose proof (unique_value T c Hc) as HT.
    assert (Hcv : value_ok c /\ forallb (in_type c) l = true).
    { cbn in Hwf. rewrite HT in Hwf. apply andb_true_iff in Hwf as [[Hw Hl]%andb_true_iff _].
      cbn in Hw. apply andb_true_iff in Hw as [Hw%bool_decide_eq_true Hw2]. by split_and!. }
    destruct Hcv as [Hcv Hl]. destruct Hcv as (Hc1 & Hc2 & Hc3).
    cbn [not_any]. rewrite bool_decide_true by done. cbn [negb andb].
    destruct n as [n|]; [|cbn; rewrite decide_False by done; apply (Hauto None)].
    pose proof (common_type_covers c n ltac:(by split_and!) Hn) as H.
    destruct (matchCommonType (Some c) (Some n)) as [[t|] []]; try done; [|apply (Hauto (Some n))..].
    destruct H as ((H1 & H2 & H3) & H).
    assert (Hl' : forallb (in_type t) l = true).
    { apply forallb_forall. rewrite forallb_forall in Hl. auto. }
    case_decide as E.
    + injection E as ->. exists c. split_and!; try done. auto.
    + cbn. exists t. split_and!; try done; [by apply complex_list_value|]. auto.
  - destruct n as [n|]; cbn; [|done]. destruct Hn as (_ & _ & Hn).
    rewrite bool_decide_true by done. cbn. apply (Hauto (Some n)).
Qed.

Lemma plain_list_wf u l : forallb plain l = true -> forallb wf_value l = true ->
  wf_value (VList false None u l) = true.
Proof. cbn. by intros -> ->. Qed.
Lemma wf_plain_list w u l : wf_value (VList w None u l) = true ->
  forallb plain l = true /\ forallb wf_value l = true.
Proof. cbn. by intros []%andb_true_iff. Qed.

Lemma concatenate_wf t1 u1 l1 t2 u2 l2 :
  wf_value (VList false t1 u1 l1) = true -> wf_value (VList false t2 u2 l2) = true ->
  tag_ok t1 -> tag_ok t2 -> wf_value (concatenate t1 l1 t2 l2) = true.
Proof.
  intros H1 H2 Ht1 Ht2. unfold concatenate. set (n := (T ← t2; getUniqueReturnComplexList T)).
  assert (Hn : match n with Some n => value_ok n /\ forallb (in_type n) l2 = true
               | None => t2 = None end).
  { destruct t2 as [T|]; [|done]. unfold n. cbn [mbind option_bind].
    destruct Ht2 as (U & HU & HUok). rewrite HU. pose proof (unique_value T U HU) as HT.
    cbn in H2. rewrite HT in H2. apply andb_true_iff in H2 as [[Hw Hl]%andb_true_iff _].
    cbn in Hw. apply andb_true_iff in Hw as [Hw%bool_decide_eq_true Hw2]. by split_and!. }
  pose proof (new_type_covers t1 l1 n H1 Ht1) as Hnew.
  apply wf_list_values in H1 as Hw1. apply wf_list_values in H2 as Hw2.
  assert (Hn' : match n with Some n => value_ok n | None => True end)
    by (destruct n; [apply Hn|done]).
  specialize (Hnew Hn').
  destruct (setListTypeFromNewElementType t1 n) as [T|].
  - destruct Hnew as (U & HT & HU1 & HU2 & Hl1 & HU3). cbn [merged].
    eapply tag_list_wf; [exact HT|done|done|]. rewrite <- fmap_app.
    apply all_good_refSelf. split; rewrite forallb_app; [|by rewrite Hw1, Hw2].
    rewrite Hl1. cbn. apply forallb_forall. intros v Hv. apply HU3.
    destruct n as [n|]; [|done]. destruct Hn as [_ Hn]. rewrite forallb_forall in Hn. auto.
  - destruct Hnew as [-> En]. rewrite En in Hn. subst t2. cbn [merged].
    apply wf_plain_list in H1 as [Hp1 _]. apply wf_plain_list in H2 as [Hp2 _].
    apply plain_list_wf.
    + rewrite forallb_app, !forallb_map_on. apply andb_true_iff.
      split; [by rewrite (forallb_ext_on _ plain) by (intros; apply plain_refSelf)|].
      apply forallb_forall. intros v Hv. rewrite forallb_forall in Hw2.
      by apply copy_strip_plain, Hw2.
    + rewrite forallb_app, !forallb_map_on. apply andb_true_iff.
      split; [by rewrite (forallb_ext_on _ wf_value) by (intros; apply wf_refSelf)|].
      apply forallb_forall. intros v Hv. rewrite forallb_forall in Hw2.
      by apply copy_strip_plain, Hw2.
Qed.

(** An element with the type that it has by itself. *)
Definition element_ok (e : value) : Prop :=
  wf_value e = true /\ strong e = true /\ common_ok (getTypeInfo e) = true.

Lemma new_element t l e : wf_value (VList false t true l) = true -> tag_ok t ->
  element_ok e ->
  exists T U, setListTypeFromNewElementType t (Some (getTypeInfo e)) = Some T /\
    getComplexListValueType T = Some U /\ U <> anyTypeInfo /\ wf_type U = true /\
    forallb (in_type U) l = true /\ in_type U e = true.
Proof.
  intros Hl Ht (Hw & Hs & Hc).
  pose proof (new_type_covers t l (Some (getTypeInfo e)) Hl Ht
    (own_value_ok e Hw Hs Hc)) as H.
  destruct (setListTypeFromNewElementType _ _) as [T|]; [|by destruct H].
  destruct H as (U & H1 & H2 & H3 & H4 & H5). exists T, U. split_and!; try done.
  apply H5. by apply own_type.
Qed.

Lemma concatenateElement_wf t u l e : wf_value (VList false t u l) = true -> tag_ok t ->
  element_ok e -> wf_value (concatenateElement t l e) = true.
Proof.
  intros Hl Ht He. unfold concatenateElement.
  destruct (new_element t l e Hl Ht He) as (T & U & -> & HT & H1 & H2 & H3 & H4).
  cbn [pushed]. apply wf_list_values in Hl. destruct He as (Hw & _ & _).
  eapply tag_list_wf; [exact HT|done|done|].
  destruct (all_good_refSelf U l) as [Ha Hb]; [by split|].
  split; rewrite forallb_app; cbn; by rewrite ?Ha, ?Hb, ?H4, ?Hw.
Qed.

(** An element in front of a list: its type must not have a common type with the
    type of the list itself. *)
Lemma prependElement_wf t u l e : wf_value (VList false t u l) = true -> tag_ok t ->
  element_ok e ->
  (forall T, t = Some T -> (matchCommonType t (Some (getTypeInfo e))).2 = false) ->
  wf_value (prependElement t l e) = true.
Proof.
  intros Hl Ht He Hn. unfold prependElement.
  destruct He as (Hw & Hs & Hc). destruct (own_value_ok e Hw Hs Hc) as (_ & _ & Ha).
  apply wf_list_values in Hl as Hv.
  assert (Hauto : forall k, all_good autoTypeInfo k ->
    wf_value (VList false (Some autoListTypeInfo) true k) = true).
  { intros k Hk. by eapply tag_list_wf. }
  assert (Hgood : all_good autoTypeInfo (e :: (refSelf <$> l))).
  { split; [apply forallb_forall; intros; apply in_auto|]. cbn.
    by rewrite Hw, wf_refSelf_list. }
  destruct t as [T|]; cbn [mbind option_bind].
  - specialize (Hn T eq_refl). destruct Ht as (U & HU & _).
    assert (hasType T = true) as ->.
    { unfold getUniqueReturnComplexList, unique_return in HU. by destruct (hasType T). }
    cbn [orb]. unfold setListTypeFromNewElementType. cbn [mbind option_bind].
    assert (HTa : T <> anyTypeInfo) by (by intros ->).
    assert (getUniqueReturnComplexList (qore_get_complex_list_type T) = Some T) as ->.
    { unfold qore_get_complex_list_type. rewrite decide_False by done. apply unique_list. }
    cbn [not_any]. rewrite bool_decide_true by done. cbn [negb andb].
    destruct (matchCommonType (Some T) (Some (getTypeInfo e))) as [ct b]. cbn in Hn. subst b.
    by apply Hauto.
  - assert (setListTypeFromNewElementType None (Some (getTypeInfo e)) =
      Some autoListTypeInfo) as ->.
    { unfold setListTypeFromNewElementType. cbn. by rewrite bool_decide_true. }
    by apply Hauto.
Qed.

(** ** push *)
Lemma push_sound t u l v : wf_value (VList false t u l) = true -> tag_ok t ->
  wf_value v = true -> (push t l v []).1.2 = [] ->
  wf_value (VList false t u (push t l v []).1.1) = true /\ (push t l v []).2 = true /\
  exists v', (push t l v []).1.1 = l ++ [v'].
Proof.
  intros Hl Ht Hv. unfold push, checkVal. destruct t as [T|].
  - destruct Ht as (U & HU & Hc). rewrite HU. pose proof (unique_value T U HU) as HT.
    pose proof Hl as Hl2. cbn in Hl2. rewrite HT in Hl2.
    apply andb_true_iff in Hl2 as [[Hw Hi]%andb_true_iff Hwl].
    cbn in Hw, Hi. apply andb_true_iff in Hw as [Hw%bool_decide_eq_true Hw2].
    assert (Hgood : forall v', good U v' ->
      wf_value (VList false (Some T) u (l ++ [v'])) = true).
    { intros v' [H1 H2]. eapply tag_list_wf; [exact HT|done|done|].
      split; rewrite forallb_app; cbn; [by rewrite Hi, H1|by rewrite Hwl, H2]. }
    assert (HUd : declarable U = true).
    { apply decided_declarable. by apply andb_true_iff in Hc as [? _]. }
    destruct (hasType_opt (Some U) && negb (superSetOf (Some U) (getTypeInfo v))) eqn:E.
    + apply andb_true_iff in E as [Eh _]. cbn in Eh.
      pose proof (declarable_sound U Hw2 HUd
        (Arg "lvalue" false (-1) (Some "<list element assignment>"%string)) v Hv) as Hs.
      unfold acceptAssignment, acceptAny, accept_static. cbn [hasType_opt]. rewrite Eh.
      destruct (acceptInputIntern U _ v []) as [v' xs']. cbn in Hs.
      destruct (failed xs') eqn:Ef; cbn; [by destruct xs'|]. intros ->.
      split_and!; [by apply Hgood, Hs|done|eauto].
    + cbn. intros _. split_and!; [|done|eauto]. apply Hgood. split; [|done].
      destruct (hasType_opt (Some U)) eqn:Eh; cbn in Eh; [|by apply in_type_no_type].
      cbn [andb] in E. apply negb_false_iff in E. by apply superSetOf_own.
  - cbn. rewrite andb_false_r. cbn. intros _.
    destruct (stripVal_plain v Hv) as [Hp Hw]. destruct (wf_plain_list _ _ _ Hl) as [H1 H2].
    split_and!; [|done|eauto]. apply (plain_list_wf u); rewrite forallb_app; cbn;
      [by rewrite H1, Hp|by rewrite H2, Hw].
Qed.
End TypedLists.

(** ** Default values and scans *)
Section Defaults.
Context {TE : TypeEnv} {TL : TypeLaws}.

Lemma new_list_default T U : list_type T U -> U <> anyTypeInfo -> wf_type U = true ->
  in_type T (new_list U) = true /\ wf_value (new_list U) = true.
Proof.
  intros HT HU Hw. unfold new_list. rewrite decide_False by done. split.
  - rewrite in_type_eq. unfold return_specs, returns.
    destruct HT as [->|[->|[->| ->]]]; cbn [type_info]; try case_decide; reflexivity.
  - apply (tag_list_wf _ _ U); [|done|done|by split].
    pose proof (complex_list_value U HU) as H. unfold qore_get_complex_list_type in H.
    by rewrite decide_False in H.
Qed.

Lemma default_good T v : wf_type T = true -> getDefaultQoreValue T = Some v ->
  in_type T v = true /\ wf_value v = true.
Proof.
  intros Hw. unfold getDefaultQoreValue.
  assert (HU : forall U, value_type T = Some U -> U <> anyTypeInfo /\ wf_type U = true).
  { intros U HU. assert (bool_decide (U <> anyTypeInfo) && wf_type U = true) as
      [H1%bool_decide_eq_true H2]%andb_true_iff
      by (destruct T; try discriminate HU; by injection HU as <-). done. }
  destruct T as [b|qc|qc|hd|hd|U|U|U|U|U|U|U|U|U|U]; cbn [type_info]; try discriminate;
    try (destruct (HU U eq_refl) as [HUa HUw]).
  - destruct b; cbn; try discriminate; intros [= <-]; split; reflexivity.
  - cbn. intros [= <-]. split; [|done]. cbn. by rewrite hd_equal_refl.
  - cbn. intros [= <-]. unfold new_hash. rewrite decide_False by done.
    split; [done|]. apply (typed_hash_wf false None (ComplexHash U) U true); try done. by left.
  - intros E. cbn in E. injection E as <-. apply new_list_default; try done. by left.
  - case_decide as E; intros H; cbn in H; injection H as <-; subst;
      apply new_list_default; try done; unfold list_type; auto.
  - case_decide as E; intros H; cbn in H; [|discriminate]. injection H as <-. subst.
    apply new_list_default; try done; unfold list_type; auto.
Qed.

Lemma scan_free T v : declarable T = true -> needsScan T = false -> strong v = true ->
  in_type T v = true ->
  match v with
  | VObject _ _ _ _ | VClosure _ | VList _ _ _ _ | VHash _ _ _ _ _ => False
  | _ => True
  end.
Proof.
  intros Hd Hn Hs. unfold needsScan in Hn. destruct (hasType T); [|discriminate].
  assert (Hspec : forallb (fun s => match s with
      | QTS_TYPE (NT_ALL | NT_OBJECT | NT_LIST | NT_HASH | NT_RUNTIME_CLOSURE
                  | NT_WEAKREF | NT_WEAKREF_HASH | NT_WEAKREF_LIST) => false
      | QTS_TYPE _ => true | _ => false end) (return_specs T) = true).
  { destruct T as [b|qc|qc|hd|hd|U|U|U|U|U|U|U|U|U|U]; try discriminate Hn.
    - destruct b; try discriminate Hd; try discriminate Hn; reflexivity.
    - cbn [type_info] in Hn. by case_decide.
    - cbn [type_info] in Hn. by case_decide. }
  rewrite in_type_eq. intros Hv. apply existsb_exists in Hv as (s & Hr & Hv).
  rewrite forallb_forall in Hspec. specialize (Hspec s Hr).
  destruct s as [q| | | | | | | | | |]; try done.
  destruct (in_spec_code q v Hs Hv) as [->|<-]; [done|]. by destruct_value v.
Qed.
End Defaults.
