(* ===== verification/HashDecl.v ===== *)
(** * Hash declarations and hashes with types

    Hash declarations (lib/TypedHashDecl.cpp): their equality, the search for
    members, assignments to members and the creation of hashes; and what
    assignments to members, copies and the operator + do with the types of hashes
    (lib/QoreHashNode.cpp, QoreHashNodeIntern.h). *)
From S2P Require Import Prelude TypeInfo TypeMatch TypeAccept TypeSpec TypeSound.
From S2P Require Import TypeComplete TypeParse TypedList.

(** HashDeclMemberInfo: the type of a member, and what its initialization
    expression gives, if it has one: a value or an exception. *)
Record HashDeclMemberInfo := Member {
  m_typeInfo : ty;
  m_exp : option (value + string)
}.

(** typed_hash_decl_private: the name and the members in the order of their
    declaration. *)
Record typed_hash_decl := HashDecl {
  hd_name : string;
  hd_members : list (string * HashDeclMemberInfo)
}.

(** QoreMemberMapBase::find *)
Fixpoint find_member {A} (k : string) (l : list (string * A)) : option A :=
  match l with
  | [] => None
  | (k', m) :: l => if decide (k = k') then Some m else find_member k l
  end.

(** ** Equality *)

(** The environment with another equality of hash declarations. *)
Definition with_hd_equal (TE : TypeEnv) (eq : Z -> Z -> bool) : TypeEnv := {|
  strict_types := @strict_types TE;
  hd_equal := eq;
  class_equal := @class_equal TE;
  class_parse_check := @class_parse_check TE;
  class_get := @class_get TE;
  class_private_access := @class_private_access TE;
  class_runtime_check := @class_runtime_check TE
|}.

Section Decls.
Context {TE : TypeEnv}.
Context (decls : Z -> typed_hash_decl).

(** HashDeclMemberInfo::equal and typed_hash_decl_private::equal, where [eq] is
    QoreTypeInfo::equal. *)
Definition member_equal (eq : ty -> ty -> bool) (m m' : HashDeclMemberInfo) : bool :=
  eq (m_typeInfo m) (m_typeInfo m').
Fixpoint members_equal (eq : ty -> ty -> bool)
    (l l' : list (string * HashDeclMemberInfo)) : bool :=
  match l, l' with
  | (k, m) :: l, (k', m') :: l' =>
      bool_decide (k = k') && member_equal eq m m' && members_equal eq l l'
  | [], [] => true
  | _, _ => false
  end.
Definition decl_equal_ (eq : ty -> ty -> bool) (a b : typed_hash_decl) : bool :=
  bool_decide (hd_name a = hd_name b) &&
  bool_decide (length (hd_members a) = length (hd_members b)) &&
  members_equal eq (hd_members a) (hd_members b).

(** The equality of types and of hash declarations call each other. With no fuel
    left the answer is [stop]: the recursion has ended if the answer is the same
    for both values of [stop]. *)
Fixpoint decl_equal (stop : bool) (fuel : nat) (a b : Z) : bool :=
  match fuel with
  | O => stop
  | S fuel =>
      decl_equal_ (@TypeMatch.equal (with_hd_equal TE (decl_equal stop fuel)))
        (decls a) (decls b)
  end.
End Decls.

(** ** Hashes with types *)
Section Hashes.
Context {TE : TypeEnv} {CV : Conversions}.
Context (decls : Z -> typed_hash_decl).

(** Members in their order: a new one comes last. *)
Fixpoint set_member (k : string) (v : value) (l : list (string * value))
    : list (string * value) :=
  match l with
  | [] => [(k, v)]
  | (k', v') :: l => if decide (k = k') then (k', v) :: l else (k', v') :: set_member k v l
  end.

(** What a hash is: its hash declaration, its type and its members. *)
Record typed_hash := Hash {
  hashdecl : option Z;
  complexTypeInfo : option ty;
  members : list (string * value)
}.
Definition node (h : typed_hash) (u : bool) : value :=
  VHash false (hashdecl h) (complexTypeInfo h) u (members h).
Definition set_members (h : typed_hash) (l : list (string * value)) : typed_hash :=
  Hash (hashdecl h) (complexTypeInfo h) l.

(** The static function acceptInputKey, for a pointer that may be null. *)
Definition acceptInputKey_opt (T : option ty) (k : string) (v : value) (xs : sink)
    : value * sink :=
  match T with
  | Some T => acceptInputKey T k v xs
  | None => (stripTypeInfo v, xs)
  end.

(** typed_hash_decl_private::runtimeAssignKey: the value, the sink, and success. *)
Definition runtimeAssignKey (hd : Z) (k : string) (v : value) (xs : sink)
    : value * sink * bool :=
  match find_member k (hd_members (decls hd)) with
  | None => (v, raise (HashError "HASHDECL-KEY-ERROR") xs, false)
  | Some m =>
      let '(v, xs) := acceptInputKey (m_typeInfo m) k v xs in
      if failed xs then (v, appendLastDescription (while_assigning_hashdecl hd) xs, false)
      else (v, xs, true)
  end.

(** hash_assignment_priv (which makes the member, with no value) and assign. *)
Definition setKeyValue (h : typed_hash) (k : string) (v : value) (xs : sink)
    : typed_hash * sink :=
  let made := match find_member k (members h) with
              | Some _ => h
              | None => set_members h (set_member k VNothing (members h))
              end in
  match hashdecl h, complexTypeInfo h with
  | Some hd, _ =>
      let '(v, xs, ok) := runtimeAssignKey hd k v xs in
      (if ok then set_members h (set_member k v (members h)) else made, xs)
  | None, Some T =>
      let '(v, xs) := acceptInputKey_opt (getUniqueReturnComplexHash T) k v xs in
      (if failed xs then made else set_members h (set_member k v (members h)), xs)
  | None, None =>
      (set_members h (set_member k (copy_strip_complex_types false v) (members h)), xs)
  end.

(** qore_hash_private::merge *)
Fixpoint merge (h : typed_hash) (l : list (string * value)) (xs : sink)
    : typed_hash * sink :=
  match l with
  | [] => (h, xs)
  | (k, v) :: l => let '(h, xs) := setKeyValue h k (refSelf v) xs in merge h l xs
  end.

(** qore_hash_private::copyCheckNewType *)
Definition copyCheckNewType (h other : typed_hash) : typed_hash :=
  let l := map_members refSelf (members h) in
  match hashdecl h, hashdecl other with
  | None, None =>
      let ctype := T ← complexTypeInfo h; getUniqueReturnComplexHash T in
      let newElementType := T ← complexTypeInfo other; getUniqueReturnComplexHash T in
      Hash None
        (if negb (not_any ctype) && negb (not_any newElementType) then None
         else match matchCommonType ctype newElementType with
              | (ctype', true) =>
                  if decide (ctype' = ctype) then complexTypeInfo h
                  else qore_get_complex_hash_type <$> ctype'
              | (_, false) => Some autoHashTypeInfo
              end) l
  | Some hd, Some hd' =>
      if hd_equal hd hd' then Hash (Some hd) (complexTypeInfo h) l
      else Hash None (Some autoHashTypeInfo) l
  | _, _ => Hash None (Some autoHashTypeInfo) l
  end.

(** qore_hash_private::plusEquals: the operator + with two hashes; without a value
    after an exception. *)
Definition plusEquals (h other : typed_hash) (xs : sink) : option typed_hash * sink :=
  let '(rv, xs) := merge (copyCheckNewType h other) (members other) xs in
  (if failed xs then None else Some rv, xs).

(** ** Creation of hashes of a hash declaration *)

(** typed_hash_decl_private::initHashIntern, for one member and for all: the hash,
    the sink, and success. The flag is that a program with %strict-types runs. *)
Definition init_member (strict : bool) (init : option (list (string * value)))
    (k : string) (m : HashDeclMemberInfo) (h : typed_hash) (xs : sink)
    : typed_hash * sink * bool :=
  let set v := set_members h (set_member k v (members h)) in
  match (l ← init; find_member k l) with
  | Some v =>
      let '(v, xs) := acceptInputKey (m_typeInfo m) k (refSelf v) xs in
      if failed xs then (h, xs, false) else (set v, xs, true)
  | None =>
      match m_exp m with
      | Some (inr e) => (set VNothing, raise (HashError e) xs, false)
      | Some (inl v) =>
          if failed xs then (set VNothing, xs, false)
          else
            let '(v, xs) := acceptInputMember (m_typeInfo m) k v xs in
            if failed xs then (set VNothing, xs, false) else (set v, xs, true)
      | None =>
          if negb strict || parseAcceptsReturns (m_typeInfo m) NT_NOTHING then (h, xs, true)
          else match init with
               | Some _ => (h, raise (HashError "RUNTIME-TYPE-ERROR") xs, false)
               | None =>
                   (set (from_option id VNothing (getDefaultQoreValue (m_typeInfo m))),
                    xs, true)
               end
      end
  end.
Fixpoint initHashIntern (strict : bool) (init : option (list (string * value)))
    (l : list (string * HashDeclMemberInfo)) (h : typed_hash) (xs : sink)
    : typed_hash * sink * bool :=
  match l with
  | [] => (h, xs, true)
  | (k, m) :: l =>
      let '(h, xs, ok) := init_member strict init k m h xs in
      if ok then initHashIntern strict init l h xs else (h, xs, false)
  end.

(** typed_hash_decl_private::initHash *)
Definition initHash (strict : bool) (hd : Z) (init : option (list (string * value)))
    (h : typed_hash) (xs : sink) : typed_hash * sink * bool :=
  let '(h, xs, ok) := initHashIntern strict init (hd_members (decls hd)) h xs in
  (h, if failed xs then appendLastDescription (while_initializing_hashdecl hd) xs else xs,
   ok).

(** typed_hash_decl_private::newHash *)
Definition newHash (strict : bool) (hd : Z) (init : option (list (string * value)))
    (runtime_check : bool) (xs : sink) : option typed_hash * sink :=
  let unknown :=
    existsb (fun kv => bool_decide (find_member kv.1 (hd_members (decls hd)) = None))
      (from_option id [] init) in
  if runtime_check && unknown
  then (None, raise (HashError "HASHDECL-INIT-ERROR") xs)
  else
    let '(h, xs, _) := initHash strict hd init (Hash (Some hd) None []) xs in
    (if failed xs then None else Some h, xs).

(** ** Checks of the parser *)

(** typed_hash_decl_private::parseCheckHashDeclAssignment, for another hash
    declaration: the number of errors is not kept. *)
Definition member_matches (strict_check : bool) (T S : ty) : bool :=
  let '(res, st) := parseAccepts4 QoreTypeSpec_match T S no_flags in
  bool_decide (res <> QTI_NOT_EQUAL) &&
  (bool_decide (res = QTI_IDENT) || negb strict_check || negb (may_not_match st)).
Definition parseCheckHashDeclAssignment (strict_check : bool) (hd hd2 : Z) : bool :=
  let ok :=
    forallb (fun km =>
      match find_member km.1 (hd_members (decls hd)) with
      | None => negb strict_check
      | Some m =>
          member_matches strict_check (m_typeInfo m) (m_typeInfo km.2) ||
          let '(res, st) := parseAccepts4 QoreTypeSpec_match (m_typeInfo m)
                              (m_typeInfo km.2) no_flags in
          negb (bool_decide (res <> QTI_NOT_EQUAL) && may_not_match st) &&
          negb strict_check
      end) (hd_members (decls hd2)) in
  let possible :=
    existsb (fun km =>
      match find_member km.1 (hd_members (decls hd)) with
      | None => false
      | Some m => member_matches strict_check (m_typeInfo m) (m_typeInfo km.2)
      end) (hd_members (decls hd2)) in
  ok && possible.

(** The same for the values of a hash: success, and [runtime_check]. *)
Definition parseCheckHashInit (strict_check : bool) (hd : Z)
    (l : list (string * ty)) : bool * bool :=
  (forallb (fun kt =>
     match find_member kt.1 (hd_members (decls hd)) with
     | None => false
     | Some m => member_matches strict_check (m_typeInfo m) kt.2
     end) l,
   existsb (fun kt =>
     match find_member kt.1 (hd_members (decls hd)) with
     | None => false
     | Some m => may_not_match
         (parseAccepts4 QoreTypeSpec_match (m_typeInfo m) kt.2 no_flags).2
     end) l).

(** typed_hash_decl_private::parseCheckComplexHashAssignment *)
Definition parseCheckComplexHashAssignment (hd : Z) (vti : ty) : bool :=
  forallb (fun km => bool_decide
    ((parseAccepts4 QoreTypeSpec_match vti (m_typeInfo km.2) no_flags).1 <> QTI_NOT_EQUAL))
    (hd_members (decls hd)).
End Hashes.

(** ** Members *)
Lemma forallb_set_member (P : value -> bool) k v l : P v = true ->
  forallb (fun kv => P kv.2) l = true -> forallb (fun kv => P kv.2) (set_member k v l) = true.
Proof.
  intros Hv. induction l as [|[k' v'] l IH]; cbn; [by rewrite Hv|].
  intros [H1 H2]%andb_true_iff. case_decide; cbn; [by rewrite Hv|]. by rewrite H1, IH.
Qed.

Lemma Forall_set_member (P : string * value -> Prop) k v l : P (k, v) -> Forall P l ->
  Forall P (set_member k v l).
Proof.
  intros Hv H. induction H as [|[k' v'] l Hkv H IH]; cbn; [by constructor|].
  case_decide; [subst|]; by constructor.
Qed.

Lemma find_set_member k v l : find_member k (set_member k v l) = Some v.
Proof.
  induction l as [|[k' v'] l IH]; cbn; [by rewrite decide_True|].
  destruct (decide (k = k')); cbn; [by rewrite decide_True|by rewrite decide_False].
Qed.
Lemma find_set_other k k' v l : k <> k' ->
  find_member k (set_member k' v l) = find_member k l.
Proof.
  intros Hk. induction l as [|[k2 v2] l IH]; cbn; [by rewrite decide_False|].
  destruct (decide (k' = k2)); cbn; repeat case_decide; try done; congruence.
Qed.

Section HashTheorems.
Context {TE : TypeEnv} {TL : TypeLaws} {CV : Conversions}.
Context (decls : Z -> typed_hash_decl).

(** The types of members are types of the language. *)
Definition decls_ok : Prop := forall hd k m,
  find_member k (hd_members (decls hd)) = Some m ->
  wf_type (m_typeInfo m) = true /\ declarable (m_typeInfo m) = true.

(** The members of a hash of a declaration are declared, and have values of their
    types. *)
Definition decl_member (hd : Z) (kv : string * value) : Prop :=
  exists m, find_member kv.1 (hd_members (decls hd)) = Some m /\
    in_type (m_typeInfo m) kv.2 = true.

Definition hash_tag_ok (t : option ty) : Prop :=
  match t with
  | Some T => exists U, getUniqueReturnComplexHash T = Some U /\ common_ok U = true
  | None => True
  end.
Definition hash_wf (h : typed_hash) : Prop :=
  forallb (fun kv => wf_value kv.2) (members h) = true /\
  match hashdecl h with
  | Some hd => complexTypeInfo h = None /\ Forall (decl_member hd) (members h)
  | None => wf_value (node h true) = true /\ hash_tag_ok (complexTypeInfo h)
  end.

Lemma acceptAny_sound T a v : wf_type T = true -> declarable T = true ->
  wf_value v = true -> (acceptAny T a v []).2 = [] -> good T (acceptAny T a v []).1.
Proof.
  intros Hw Hd Hv. unfold acceptAny.
  destruct (decide (T = anyTypeInfo)) as [->|Ha].
  - intros _. split; [by apply in_type_no_type|].
    change (wf_value (stripTypeInfo v) = true).
    unfold stripTypeInfo, get_plain_hash, get_plain_list.
    case_match; try done; by apply copy_strip_plain.
  - by apply accept_static_sound; [|apply declarable_sound|..].
Qed.
Lemma acceptInputKey_sound T k v : wf_type T = true -> declarable T = true ->
  wf_value v = true -> (acceptInputKey T k v []).2 = [] ->
  good T (acceptInputKey T k v []).1.
Proof. apply acceptAny_sound. Qed.

Lemma unique_hash_type T U : getUniqueReturnComplexHash T = Some U -> T = ComplexHash U.
Proof.
  intros E. destruct T as [b|qc|qc|hd|hd|W|W|W|W|W|W|W|W|W|W]; try discriminate E.
  - by destruct b.
  - rewrite unique_hash in E. by injection E as ->.
  - exfalso. unfold getUniqueReturnComplexHash, unique_return, returns in E.
    destruct (hasType _); [|done]. cbn [type_info] in E.
    case_decide; cbn in E; repeat case_decide; simplify_eq; discriminate.
  - exfalso. unfold getUniqueReturnComplexHash, unique_return, returns in E.
    destruct (hasType _); [|done]. cbn [type_info] in E.
    case_decide; cbn in E; repeat case_decide; simplify_eq; discriminate.
Qed.
Lemma unique_hash_value T U : getUniqueReturnComplexHash T = Some U ->
  getComplexHashValueType T = Some U.
Proof. intros ->%unique_hash_type. apply hash_type_value. by left. Qed.

Lemma hash_node_wf T U l : getComplexHashValueType T = Some U -> U <> anyTypeInfo ->
  wf_type U = true -> forallb (fun kv => in_type U kv.2) l = true ->
  forallb (fun kv => wf_value kv.2) l = true ->
  wf_value (VHash false None (Some T) true l) = true.
Proof.
  intros HT H1 H2 Hl Hw. cbn. rewrite HT. rewrite wf_tag_some by done. cbn.
  by rewrite Hl, Hw.
Qed.
Lemma hash_node_elements T U l : getComplexHashValueType T = Some U ->
  wf_value (VHash false None (Some T) true l) = true ->
  U <> anyTypeInfo /\ wf_type U = true /\ forallb (fun kv => in_type U kv.2) l = true /\
  forallb (fun kv => wf_value kv.2) l = true.
Proof.
  intros HT. cbn. rewrite HT. intros [[Hw Hl]%andb_true_iff Hv]%andb_true_iff.
  cbn in Hw. apply andb_true_iff in Hw as [Hw%bool_decide_eq_true Hw2]. by split_and!.
Qed.

(** An assignment to a member that raises nothing. *)
Lemma setKeyValue_sound h k v : decls_ok -> hash_wf h -> wf_value v = true ->
  (setKeyValue decls h k v []).2 = [] ->
  hash_wf (setKeyValue decls h k v []).1 /\
  hashdecl (setKeyValue decls h k v []).1 = hashdecl h /\
  complexTypeInfo (setKeyValue decls h k v []).1 = complexTypeInfo h.
Proof.
  intros Hdecls [Hwf Hh] Hv. destruct h as [hd T l]. unfold setKeyValue. cbn in *.
  destruct hd as [hd|].
  - destruct Hh as [HT Hl]. unfold runtimeAssignKey.
    destruct (find_member k (hd_members (decls hd))) as [m|] eqn:Em; [|done].
    destruct (Hdecls hd k m Em) as [Hw Hd].
    pose proof (acceptInputKey_sound (m_typeInfo m) k v Hw Hd Hv) as Hs.
    destruct (acceptInputKey _ _ _ _) as [v' xs']. cbn in Hs.
    destruct (failed xs') eqn:Ef; cbn; [by destruct xs'|]. intros ->.
    destruct (Hs eq_refl) as [H1 H2]. split_and!; try done. split; cbn.
    + by apply forallb_set_member.
    + split; [done|]. apply Forall_set_member; [|done]. by exists m.
  - destruct Hh as [Hn Ht]. destruct T as [T|]; cbn in Hn.
    + destruct Ht as (U & HU & HUc). rewrite HU. cbn [acceptInputKey_opt].
      destruct (hash_node_elements T U l (unique_hash_value T U HU) Hn) as (H1 & H2 & H3 & _).
      assert (HUd : declarable U = true)
        by (apply decided_declarable; by apply andb_true_iff in HUc as [? _]).
      pose proof (acceptInputKey_sound U k v H2 HUd Hv) as Hs.
      destruct (acceptInputKey _ _ _ _) as [v' xs']. cbn in Hs.
      destruct (failed xs') eqn:Ef; cbn; [by destruct xs'|]. intros ->.
      destruct (Hs eq_refl) as [H4 H5]. split_and!; try done. split; cbn.
      * by apply forallb_set_member.
      * split; [|by exists U]. apply (hash_node_wf T U); try done;
          [by apply unique_hash_value|by apply forallb_set_member|by apply forallb_set_member].
    + intros _. destruct (copy_strip_plain false v Hv) as [Hp Hw].
      apply andb_true_iff in Hn as [Hn _]. split_and!; try done. split; cbn.
      * by apply forallb_set_member.
      * split; [|done]. apply andb_true_iff. split; by apply forallb_set_member.
Qed.

Lemma setKeyValue_grows h k v : grows (fun xs => (setKeyValue decls h k v xs).2).
Proof.
  intros xs Hx. unfold setKeyValue.
  assert (Ha : forall T, failed (acceptInputKey T k v xs).2 = true)
    by (intros T; unfold acceptInputKey, acceptAny;
        by apply accept_static_grows; [apply acceptInputIntern_grows|]).
  destruct (hashdecl h) as [hd|]; [|destruct (complexTypeInfo h) as [T|]]; [..|done].
  - unfold runtimeAssignKey. destruct (find_member _ _) as [m|]; [|apply failed_raise].
    specialize (Ha (m_typeInfo m)). destruct (acceptInputKey _ _ _ _) as [v' xs'].
    cbn in Ha |- *. rewrite Ha. cbn. by rewrite failed_append.
  - unfold acceptInputKey_opt. destruct (getUniqueReturnComplexHash T) as [U|]; [|done].
    specialize (Ha U). destruct (acceptInputKey _ _ _ _) as [v' xs']. cbn in *. by rewrite Ha.
Qed.
Lemma merge_grows h l : grows (fun xs => (merge decls h l xs).2).
Proof.
  intros xs. revert h xs. induction l as [|[k v] l IH]; intros h xs Hx; cbn; [done|].
  pose proof (setKeyValue_grows h k (refSelf v) xs Hx) as Hg. cbn beta in Hg.
  destruct (setKeyValue _ _ _ _ _) as [h' xs']. by apply IH.
Qed.

Lemma merge_sound h l : decls_ok -> hash_wf h ->
  forallb (fun kv => wf_value kv.2) l = true -> (merge decls h l []).2 = [] ->
  hash_wf (merge decls h l []).1 /\ hashdecl (merge decls h l []).1 = hashdecl h /\
  complexTypeInfo (merge decls h l []).1 = complexTypeInfo h.
Proof.
  intros Hd. revert h. induction l as [|[k v] l IH]; intros h Hh; cbn; [done|].
  intros [Hv Hl]%andb_true_iff.
  pose proof (setKeyValue_sound h k (refSelf v) Hd Hh ltac:(by rewrite wf_refSelf)) as Hs.
  destruct (setKeyValue _ _ _ _ _) as [h' xs']. cbn in Hs. destruct xs' as [|x xs'].
  - intros Hx. destruct (Hs eq_refl) as (H1 & H2 & H3).
    destruct (IH h' H1 Hl Hx) as (H4 & H5 & H6). split_and!; congruence || done.
  - intros Hx. pose proof (merge_grows h' l (x :: xs') eq_refl) as Hg. cbn beta in Hg.
    by rewrite Hx in Hg.
Qed.

(** *** The operator + *)
Lemma members_refSelf (P : value -> bool) l : (forall v, P (refSelf v) = P v) ->
  forallb (fun kv => P kv.2) (map_members refSelf l) = forallb (fun kv => P kv.2) l.
Proof.
  intros HP. unfold map_members. rewrite forallb_map_on. cbn.
  apply forallb_ext_on. intros [k v]. apply HP.
Qed.

Lemma auto_hash_wf l : forallb (fun kv => wf_value kv.2) l = true ->
  hash_wf (Hash None (Some autoHashTypeInfo) l).
Proof.
  intros Hl. split; [done|]. cbn [hashdecl complexTypeInfo]. split; [|by exists autoTypeInfo].
  apply (hash_node_wf _ autoTypeInfo); try done.
  apply forallb_forall. intros. apply in_auto.
Qed.

Lemma complex_hash_wf U l : value_ok U -> forallb (fun kv => in_type U kv.2) l = true ->
  forallb (fun kv => wf_value kv.2) l = true ->
  hash_wf (Hash None (qore_get_complex_hash_type <$> Some U) l).
Proof.
  intros (H1 & H2 & H3) Hi Hl. split; [done|]. cbn.
  unfold qore_get_complex_hash_type. rewrite decide_False by done. split.
  - apply (hash_node_wf (ComplexHash U) U); try done. apply hash_type_value. by left.
  - exists U. split; [apply unique_hash|done].
Qed.

(** The copy of the left operand has a type for its members. *)
Lemma copyCheckNewType_wf h other : hash_wf h -> hash_wf other ->
  hash_wf (copyCheckNewType h other).
Proof.
  destruct h as [hd T l], other as [hd' T' l']. intros [Hl Hh] [Hl' Hh']. cbn in Hl, Hl'.
  assert (Hlr : forallb (fun kv => wf_value kv.2) (map_members refSelf l) = true)
    by (rewrite members_refSelf by apply wf_refSelf; done).
  unfold copyCheckNewType. cbn [hashdecl complexTypeInfo members] in *.
  destruct hd as [hd|], hd' as [hd'|]; try (by apply auto_hash_wf).
  - destruct (hd_equal hd hd'); [|by apply auto_hash_wf]. destruct Hh as [-> Hm].
    split; [done|]. split; [done|]. cbn. unfold map_members. apply Forall_fmap.
    eapply Forall_impl; [exact Hm|]. intros [k v] (m & H1 & H2). exists m. split; [done|].
    cbn in *. by rewrite in_type_refSelf.
  - destruct Hh as [Hw Ht], Hh' as [Hw' Ht'].
    set (n := (T ← T'; getUniqueReturnComplexHash T)).
    assert (Hn : match n with Some n => value_ok n | None => T' = None end).
    { destruct T' as [T'|]; [|done]. unfold n. cbn [mbind option_bind].
      destruct Ht' as (U & HU & HUok). rewrite HU.
      destruct (hash_node_elements T' U l' (unique_hash_value T' U HU) Hw') as (? & ? & _).
      by split_and!. }
    destruct T as [T|]; cbn [mbind option_bind].
    + destruct Ht as (c & Hc & Hcok). rewrite Hc.
      pose proof (unique_hash_value T c Hc) as HT.
      destruct (hash_node_elements T c l HT Hw) as (Hc1 & Hc2 & Hc3 & _).
      cbn [not_any]. rewrite bool_decide_true by done. cbn [negb andb].
      destruct n as [n|]; [|cbn; rewrite decide_False by done; by apply auto_hash_wf].
      pose proof (common_type_covers c n ltac:(by split_and!) Hn) as H.
      destruct (matchCommonType (Some c) (Some n)) as [[t|] []]; try done;
        try (by apply auto_hash_wf).
      destruct H as (Ht & H).
      assert (Hl3 : forallb (fun kv => in_type t kv.2) (map_members refSelf l) = true).
      { rewrite members_refSelf by apply in_type_refSelf.
        apply forallb_forall. rewrite forallb_forall in Hc3. auto. }
      case_decide as E; [|by apply complex_hash_wf].
      injection E as ->. split; [done|]. cbn. split; [|by exists c].
      apply (hash_node_wf T c); try done; apply Ht.
    + cbn [not_any negb andb]. destruct (negb (not_any n)) eqn:En.
      * split; [done|]. split; [|done]. cbn in Hw |- *.
        apply andb_true_iff in Hw as [Hp _].
        apply andb_true_iff. split; [|done].
        rewrite members_refSelf by apply plain_refSelf. done.
      * destruct n as [n|]; [|done]. cbn. by apply auto_hash_wf.
Qed.

Lemma plusEquals_sound h other rv : decls_ok -> hash_wf h -> hash_wf other ->
  plusEquals decls h other [] = (Some rv, []) -> hash_wf rv.
Proof.
  intros Hd Hh Ho. unfold plusEquals.
  pose proof (merge_sound (copyCheckNewType h other) (members other) Hd
    (copyCheckNewType_wf h other Hh Ho) (proj1 Ho)) as H.
  destruct (merge _ _ _ _) as [h' xs']. cbn in H. destruct (failed xs'); [done|].
  intros [= <- ->]. by apply H.
Qed.

(** *** New hashes of a declaration *)

(** The value of a member of a new hash: one of its type, or none where the member
    has no default value. *)
Definition new_member (strict : bool) (init : option (list (string * value))) (hd : Z)
    (kv : string * value) : Prop :=
  decl_member hd kv \/
  (kv.2 = VNothing /\ strict = true /\ init = None /\
   exists m, (kv.1, m) ∈ hd_members (decls hd) /\
     getDefaultQoreValue (m_typeInfo m) = None).

(** All members that need a value have one. *)
Definition complete_to (l : list (string * HashDeclMemberInfo)) (h : typed_hash) : Prop :=
  Forall (fun km => parseAcceptsReturns (m_typeInfo km.2) NT_NOTHING = false ->
    is_Some (find_member km.1 (members h))) l.

Definition unique_members : Prop := forall hd k m,
  (k, m) ∈ hd_members (decls hd) -> find_member k (hd_members (decls hd)) = Some m.

Lemma find_member_wf k v l : forallb (fun kv => wf_value kv.2) l = true ->
  find_member k l = Some v -> wf_value v = true.
Proof.
  induction l as [|[k' v'] l IH]; cbn; [done|]. intros [Hv Hl]%andb_true_iff.
  case_decide; [by intros [= ->]|auto].
Qed.

Context (strict : bool) (init : option (list (string * value))) (hd : Z).
Context (Hdecls : decls_ok) (Huniq : unique_members).
Context (Hinit : forallb (fun kv => wf_value kv.2) (from_option id [] init) = true).
Context (Hexp : forall k m v, (k, m) ∈ hd_members (decls hd) -> m_exp m = Some (inl v) ->
  wf_value v = true).

Definition new_hash_ok (h : typed_hash) : Prop :=
  hashdecl h = Some hd /\ complexTypeInfo h = None /\
  forallb (fun kv => wf_value kv.2) (members h) = true /\
  Forall (new_member strict init hd) (members h).

Lemma new_hash_set h k v : new_hash_ok h -> wf_value v = true ->
  new_member strict init hd (k, v) -> new_hash_ok (set_members h (set_member k v (members h))).
Proof.
  intros (H1 & H2 & H3 & H4) Hv Hm. split_and!; [done|done| |].
  - by apply forallb_set_member.
  - by apply Forall_set_member.
Qed.

Lemma init_member_sound k m h : (k, m) ∈ hd_members (decls hd) -> new_hash_ok h ->
  (init_member strict init k m h []).1.2 = [] ->
  let '(h', xs, ok) := init_member strict init k m h [] in
  ok = true /\ new_hash_ok h' /\
  (strict = true -> parseAcceptsReturns (m_typeInfo m) NT_NOTHING = false ->
   is_Some (find_member k (members h'))) /\
  (forall k', is_Some (find_member k' (members h)) -> is_Some (find_member k' (members h'))).
Proof.
  intros Hin Hh. pose proof (Huniq hd k m Hin) as Hfind.
  destruct (Hdecls hd k m Hfind) as [Hw Hd].
  assert (Hset : forall v, good (m_typeInfo m) v ->
    new_hash_ok (set_members h (set_member k v (members h)))).
  { intros v [H1 H2]. apply new_hash_set; [done|done|]. left. by exists m. }
  assert (Hkeep : forall v k', is_Some (find_member k' (members h)) ->
    is_Some (find_member k' (set_member k v (members h)))).
  { intros v k' Hk. destruct (decide (k' = k)) as [->|E].
    - by rewrite find_set_member.
    - by rewrite find_set_other. }
  assert (Hhas : forall v, is_Some (find_member k (set_member k v (members h)))).
  { intros v. by rewrite find_set_member. }
  unfold init_member. destruct (l ← init; find_member k l) as [v|] eqn:Ei.
  - destruct init as [l|]; [|done]. cbn in Ei, Hinit.
    pose proof (acceptInputKey_sound (m_typeInfo m) k (refSelf v) Hw Hd
      ltac:(rewrite wf_refSelf; by eapply find_member_wf)) as Hs.
    destruct (acceptInputKey _ _ _ _) as [v' xs']. cbn in Hs.
    destruct (failed xs') eqn:Ef; cbn; [by intros ->|]. intros ->. split_and!; auto.
  - destruct (m_exp m) as [[v|e]|] eqn:Ee; [|done|].
    + cbn [failed]. change (failed []) with false. cbn iota.
      assert (Hs : (acceptInputMember (m_typeInfo m) k v []).2 = [] ->
        good (m_typeInfo m) (acceptInputMember (m_typeInfo m) k v []).1)
        by (apply acceptAny_sound; [done..|by eapply Hexp]).
      destruct (acceptInputMember _ _ _ _) as [v' xs']. cbn in Hs.
      destruct (failed xs') eqn:Ef; cbn; [by intros ->|]. intros ->. split_and!; auto.
    + destruct (negb strict || parseAcceptsReturns (m_typeInfo m) NT_NOTHING) eqn:Es.
      * intros _. split_and!; try done. intros Hst Hp. by rewrite Hst, Hp in Es.
      * apply orb_false_iff in Es as [Hst%negb_false_iff Hp].
        destruct init as [l|] eqn:Ein; [done|]. cbn. intros _. split_and!; auto.
        destruct (getDefaultQoreValue (m_typeInfo m)) as [v|] eqn:Edef; cbn.
        -- apply Hset. by apply default_good.
        -- apply new_hash_set; [done|done|]. right. split_and!; try done. by exists m.
Qed.

Lemma init_member_ok k m h : let '(h', xs, ok) := init_member strict init k m h [] in
  ok = bool_decide (xs = []).
Proof.
  assert (Hf : forall xs : sink, failed xs = negb (bool_decide (xs = []))) by (by intros []).
  unfold init_member. destruct (l ← init; find_member k l) as [v|].
  - destruct (acceptInputKey _ _ _ _) as [v' xs']. rewrite Hf.
    by destruct xs'.
  - destruct (m_exp m) as [[v|e]|]; [|done|].
    + change (failed []) with false. cbn iota.
      destruct (acceptInputMember _ _ _ _) as [v' xs']. rewrite Hf. by destruct xs'.
    + destruct (negb strict || _); [done|]. by destruct init.
Qed.

Lemma initHashIntern_sound l h : (forall km, km ∈ l -> km ∈ hd_members (decls hd)) ->
  new_hash_ok h -> (initHashIntern strict init l h []).1.2 = [] ->
  let '(h', _, ok) := initHashIntern strict init l h [] in
  ok = true /\ new_hash_ok h' /\ (strict = true -> complete_to l h') /\
  (forall k, is_Some (find_member k (members h)) -> is_Some (find_member k (members h'))).
Proof.
  revert h. induction l as [|[k m] l IH]; intros h Hl Hh; cbn [initHashIntern].
  { intros _. split_and!; try done. intros _. by constructor. }
  pose proof (init_member_ok k m h) as Hok.
  pose proof (init_member_sound k m h (Hl _ ltac:(by left)) Hh) as Hs.
  destruct (init_member _ _ _ _ _ _) as [[h1 xs1] ok1]. cbn in Hs. subst ok1.
  destruct xs1 as [|x xs1]; cbn; [|done]. destruct (Hs eq_refl) as (_ & Hh1 & Hc & Hk).
  specialize (IH h1 ltac:(intros km Hkm; apply Hl; by right) Hh1).
  destruct (initHashIntern _ _ _ _ _) as [[h2 xs2] ok2]. cbn in IH |- *. intros Hx.
  destruct (IH Hx) as (H1 & H2 & H3 & H4). split_and!; [done|done| |auto].
  intros Hst. constructor; [|by apply H3]. intros Hp. apply H4. by apply Hc.
Qed.

(** A new hash of the declaration. *)
Lemma newHash_sound runtime_check h :
  newHash decls strict hd init runtime_check [] = (Some h, []) ->
  new_hash_ok h /\ (strict = true -> complete_to (hd_members (decls hd)) h).
Proof.
  unfold newHash, initHash. destruct (runtime_check && _); [done|].
  pose proof (initHashIntern_sound (hd_members (decls hd)) (Hash (Some hd) None [])
    ltac:(done) ltac:(split_and!; constructor)) as H.
  destruct (initHashIntern _ _ _ _ _) as [[h' xs'] ok]. cbn in H.
  destruct (failed xs') eqn:E; [by rewrite failed_append, E|]. rewrite E.
  intros [= <- ->]. destruct (H eq_refl) as (_ & H1 & H2 & _). by split.
Qed.

(** With initial values, or where every required member has a default value, the
    new hash meets the invariant of its declaration. *)
Lemma new_hash_wf h : new_hash_ok h ->
  (init <> None \/ forall k m, (k, m) ∈ hd_members (decls hd) ->
     getDefaultQoreValue (m_typeInfo m) <> None) -> hash_wf h.
Proof.
  intros (H1 & H2 & H3 & H4) Hi. split; [done|]. rewrite H1. split; [done|].
  eapply Forall_impl; [exact H4|]. intros kv [?|(_ & _ & Hn & m & Hm & Hd)]; [done|].
  exfalso. destruct Hi as [Hi|Hi]; [done|]. by apply (Hi _ _ Hm).
Qed.
End HashTheorems.
