(* ===== verification/HashDeclEqual.v ===== *)
(** * The equality of hash declarations

    typed_hash_decl_private::equal and the equality of types call each other. For
    declarations that do not name themselves, directly or through others, the
    recursion ends and the equality is an equivalence, as [TypeSpec] expects it
    from the environment. *)
From S2P Require Import Prelude TypeInfo TypeMatch TypeAccept TypeSpec HashDecl.

(** ** Types that name a declaration *)

(** The hash declaration that a type names. *)
Fixpoint decl_of (T : ty) : option Z :=
  match T with
  | HashDeclT u | HashDeclOrNothingT u => Some u
  | ComplexHash U | ComplexHashOrNothing U | ComplexList U | ComplexListOrNothing U
  | ComplexSoftList U | ComplexSoftListOrNothing U | ComplexHardReference U
  | ComplexHardReferenceOrNothing U | ComplexReference U
  | ComplexReferenceOrNothing U => decl_of U
  | Base _ | ClassT _ | ClassOrNothingT _ => None
  end.
Definition spec_decl (s : QoreTypeSpec) : option Z :=
  match s with QTS_HASHDECL u => Some u | _ => None end.
Definition decl_spec_of (T : ty) (s : QoreTypeSpec) : Prop :=
  forall u, spec_decl s = Some u -> decl_of T = Some u.

Lemma decl_specs T : Forall (decl_spec_of T) (accept_specs T) /\
  Forall (decl_spec_of T) (return_specs T).
Proof.
  assert (Hd : forall l, Forall (fun s => spec_decl s = None) l ->
    Forall (decl_spec_of T) l).
  { intros l H. eapply Forall_impl; [exact H|]. intros s Hs u. congruence. }
  destruct T as [b|u|u|u|u|W|W|W|W|W|W|W|W|W|W]; try (by destruct b; split; apply Hd;
    repeat constructor);
    try (by split; apply Hd; repeat constructor);
    try (by split; repeat constructor; intros ? [= ->]).
  all: unfold accept_specs, return_specs, accepts, returns; cbn [type_info].
  all: by case_decide; cbn; repeat case_decide; split; apply Hd; repeat constructor.
Qed.
Lemma decl_of_value T U : value_type T = Some U -> decl_of T = decl_of U.
Proof. destruct T; cbn; intros [= ->]; done. Qed.

Lemma spec_of_both T s : s ∈ accept_specs T \/ s ∈ return_specs T ->
  spec_of T s /\ decl_spec_of T s.
Proof.
  destruct (decl_specs T) as [Ha Hr]. rewrite !Forall_forall in *.
  intros [Hs|Hs]; split; auto using accept_spec_of, return_spec_of.
Qed.

Lemma forallb_zip_ext {A B} (f g : A * B -> bool) (l : list A) (l' : list B) :
  (forall x y, x ∈ l -> y ∈ l' -> f (x, y) = g (x, y)) ->
  forallb f (zip l l') = forallb g (zip l l').
Proof.
  revert l'. induction l as [|x l IH]; intros [|y l'] H; cbn; [done..|].
  rewrite H by left. f_equal. apply IH. intros. apply H; by right.
Qed.

Section DeclEquality.
Context {TE : TypeEnv}.

(** The equality of types asks only for the declarations that they name. *)
Lemma equal_ext (eq1 eq2 : Z -> Z -> bool) a b :
  (forall u w, decl_of a = Some u -> decl_of b = Some w -> eq1 u w = eq2 u w) ->
  @equal (with_hd_equal TE eq1) a b = @equal (with_hd_equal TE eq2) a b.
Proof.
  revert b. induction a as [a IH] using (well_founded_induction
    (Wf_nat.well_founded_ltof _ depth)).
  intros b H. rewrite !equal_eq. case_decide; [done|].
  destruct (hasType a && hasType b); [|done].
  assert (Hs : forall s t, s ∈ accept_specs a \/ s ∈ return_specs a ->
    t ∈ accept_specs b \/ t ∈ return_specs b ->
    @spec_eq (with_hd_equal TE eq1) s t = @spec_eq (with_hd_equal TE eq2) s t).
  { intros s t Hs Ht. destruct (spec_of_both a s Hs) as [Hv Hd].
    destruct (spec_of_both b t Ht) as [Hv' Hd'].
    destruct s, t; try done; unfold spec_eq; cbn;
      try (by apply H; [apply Hd|apply Hd']);
      (apply IH; [by eapply spec_ti_depth|]; intros u w Hu Hw;
       apply H; [by rewrite (decl_of_value a _ (Hv _ eq_refl))
                |by rewrite (decl_of_value b _ (Hv' _ eq_refl))]). }
  unfold specs_eq. f_equal; f_equal; apply forallb_zip_ext; intros; cbn; apply Hs; auto.
Qed.

Lemma members_equal_ext eq1 eq2 l l' :
  (forall km km', km ∈ l -> km' ∈ l' ->
     eq1 (m_typeInfo km.2) (m_typeInfo km'.2) = eq2 (m_typeInfo km.2) (m_typeInfo km'.2)) ->
  members_equal eq1 l l' = members_equal eq2 l l'.
Proof.
  revert l'. induction l as [|[k m] l IH]; intros [|[k' m'] l'] H; cbn; [done..|].
  unfold member_equal.
  f_equal; [f_equal; apply (H (k, m) (k', m')); left|].
  apply IH. intros. apply H; by right.
Qed.

(** *** Every level is an equivalence *)
Lemma members_equal_equiv eq : Equivalence (fun a b => eq a b = true) ->
  Equivalence (fun l l' => members_equal eq l l' = true).
Proof.
  intros [Hr Hs Ht]. split.
  - intros l. induction l as [|[k m] l IH]; cbn; [done|].
    rewrite bool_decide_true by done. unfold member_equal. by rewrite Hr, IH.
  - intros l. induction l as [|[k m] l IH]; intros [|[k' m'] l']; cbn; try done.
    rewrite !andb_true_iff, !bool_decide_eq_true. unfold member_equal.
    intros [[-> H] H']. split_and!; auto.
  - intros l. induction l as [|[k m] l IH]; intros [|[k1 m1] l1] [|[k2 m2] l2]; cbn;
      try done. rewrite !andb_true_iff, !bool_decide_eq_true. unfold member_equal.
    intros [[-> H] H'] [[-> H1] H1']. split_and!; [done|by eapply Ht|by eapply IH].
Qed.

Lemma decl_equal_equiv_ eq : Equivalence (fun a b => eq a b = true) ->
  Equivalence (fun a b => decl_equal_ eq a b = true).
Proof.
  intros [Hr Hs Ht]%members_equal_equiv. unfold decl_equal_. split.
  - intros a. rewrite !bool_decide_true by done. apply Hr.
  - intros a b. rewrite !andb_true_iff, !bool_decide_eq_true. intros [[-> ->] H].
    split_and!; auto.
  - intros a b c. rewrite !andb_true_iff, !bool_decide_eq_true.
    intros [[-> ->] H] [[-> ->] H']. split_and!; auto. by eapply Ht.
Qed.

Lemma with_hd_equal_laws {TL : TypeLaws} eq : Equivalence (fun a b => eq a b = true) ->
  @TypeLaws (with_hd_equal TE eq).
Proof. intros Heq. destruct TL. by split. Qed.

Lemma type_equal_equiv {TL : TypeLaws} eq : Equivalence (fun a b => eq a b = true) ->
  Equivalence (fun a b => @equal (with_hd_equal TE eq) a b = true).
Proof.
  intros Heq. pose proof (with_hd_equal_laws eq Heq) as TL'. split.
  - intros a. apply equal_refl.
  - intros a b. apply equal_sym.
  - intros a b c. apply equal_trans.
Qed.

Context (decls : Z -> typed_hash_decl).

Lemma decl_equal_level {TL : TypeLaws} n :
  Equivalence (fun a b => decl_equal decls true n a b = true).
Proof.
  induction n as [|n IH]; [by split|].
  pose proof (decl_equal_equiv_ _ (type_equal_equiv _ IH)) as [Hr Hs Ht].
  split; cbn.
  - intros a. apply Hr.
  - intros a b. apply Hs.
  - intros a b c. apply Ht.
Qed.

(** *** Declarations that do not name themselves *)

Definition acyclic (rank : Z -> nat) : Prop := forall hd km u,
  km ∈ hd_members (decls hd) -> decl_of (m_typeInfo km.2) = Some u ->
  (rank u < rank hd)%nat.

Lemma decl_equal_enough rank (Hr : acyclic rank) n n' stop stop' a b :
  (rank a < n)%nat -> (rank a < n')%nat ->
  decl_equal decls stop n a b = decl_equal decls stop' n' a b.
Proof.
  revert n' a b. induction n as [|n IH]; intros n' a b Hn Hn'; [lia|].
  destruct n' as [|n']; [lia|]. cbn [decl_equal]. unfold decl_equal_. f_equal.
  apply members_equal_ext. intros km km' Hkm Hkm'. apply equal_ext.
  intros u w Hu _. pose proof (Hr a km u Hkm Hu). apply IH; lia.
Qed.

Definition decls_equal (rank : Z -> nat) (a b : Z) : bool :=
  decl_equal decls true (S (rank a)) a b.

Lemma decls_equal_at rank n a b : acyclic rank -> (rank a < n)%nat ->
  decls_equal rank a b = decl_equal decls true n a b.
Proof. intros Hr Hn. apply (decl_equal_enough rank); [done|lia|done]. Qed.

Lemma decls_equal_equiv {TL : TypeLaws} rank : acyclic rank ->
  Equivalence (fun a b => decls_equal rank a b = true).
Proof.
  intros Hr. split.
  - intros a. apply (decl_equal_level (S (rank a))).
  - intros a b.
    rewrite (decls_equal_at rank (S (rank a + rank b)) a b Hr ltac:(lia)),
      (decls_equal_at rank (S (rank a + rank b)) b a Hr ltac:(lia)).
    apply (decl_equal_level _).
  - intros a b c.
    rewrite (decls_equal_at rank (S (rank a + rank b)) a b Hr ltac:(lia)),
      (decls_equal_at rank (S (rank a + rank b)) b c Hr ltac:(lia)),
      (decls_equal_at rank (S (rank a + rank b)) a c Hr ltac:(lia)).
    apply (decl_equal_level _).
Qed.

(** The equation of the code. *)
Lemma decls_equal_eq rank a b : acyclic rank ->
  decls_equal rank a b =
  decl_equal_ (@equal (with_hd_equal TE (decls_equal rank))) (decls a) (decls b).
Proof.
  intros Hr. unfold decls_equal at 1. cbn [decl_equal]. unfold decl_equal_. f_equal.
  apply members_equal_ext. intros km km' Hkm Hkm'. apply equal_ext.
  intros u w Hu _. symmetry. apply decls_equal_at; [done|]. by apply (Hr a km).
Qed.
End DeclEquality.
