(* ===== verification/Types.v ===== *)
(** * What holds of types

    The theorems on types, with an environment to try them out (two classes with
    public inheritance, simple conversions), and examples of what the code does
    against the rules of its types. *)
From S2P Require Import Prelude TypeInfo TypeMatch TypeAccept TypeSpec TypeSound.
From S2P Require Import TypeComplete TypeParse ClassAccess TypedList HashDecl.
From S2P Require Import HashDeclEqual.
From stdpp Require Import pretty.
#[local] Open Scope Z_scope.

(** ** An environment *)
Section Demo.

(** Class 1 is the base of class 2; all other classes are on their own. *)
Definition demo_class (i : Z) : cls :=
  let c1 := Class 1 "c" (pretty 1) None [] in
  if decide (i = 2) then Class 2 "c" (pretty 2) None [(Some c1, Public)]
  else Class i "c" (pretty i) None [].

Lemma demo_has i n : has_class (demo_class i) n -> n = demo_class i \/ (i = 2 /\ n = demo_class 1).
Proof.
  intros H. inversion H as [c|c b a d Hb Hd]; subst; [by left|].
  unfold demo_class in Hb. case_decide as E.
  - right. split; [done|]. cbn in Hb. apply list_elem_of_singleton in Hb as [= ->].
    inversion Hd as [|? ? ? ? Hb']; subst; [done|]. by apply elem_of_nil in Hb'.
  - by apply elem_of_nil in Hb.
Qed.

Lemma demo_table : public_table demo_class.
Proof.
  split.
  - intros i. unfold demo_class. case_decide; by subst.
  - intros i n [->|[-> ->]]%demo_has; unfold demo_class; repeat case_decide; subst; done.
  - intros i n [->|[-> ->]]%demo_has; unfold demo_class; repeat case_decide; cbn;
      (split; [done|]); repeat constructor; by eauto.
  - intros i j [E|[_ E]%andb_true_iff]%orb_true_iff.
    + apply Z.eqb_eq in E. unfold demo_class in E. repeat case_decide; cbn in E; congruence.
    + apply bool_decide_eq_true in E. unfold demo_class in E. symmetry.
      apply (inj (pretty (A := Z))). repeat case_decide; cbn [hash] in E; congruence.
Qed.

Definition demo_env : TypeEnv := class_env demo_class None None false Z.eqb.
Lemma demo_laws : @TypeLaws demo_env.
Proof.
  apply class_laws; [apply demo_table|]. split; repeat intro; rewrite Z.eqb_eq in *; congruence.
Qed.

Definition demo_int (v : value) : Z :=
  match v with VInt n => n | VBool true => 1 | _ => 0 end.
Definition demo_conversions : Conversions := {|
  getAsBigInt := demo_int;
  getAsFloat := demo_int;
  getAsBool v := negb (demo_int v =? 0);
  float_of_int n := n;
  number_of_float n := pretty n;
  number_of_int n := pretty n;
  number_of_string s := s;
  string_of_int n := pretty n;
  string_of_float n := pretty n;
  string_of_node v := "node";
  date_of_node := demo_int;
  date_of_int n := n;
  getRelativeMilliseconds d := d * 1000;
  parseHex s := if decide (s = "") then inl "" else inr "PARSE-HEX-ERROR";
  parseBase64 s := inl s;
  parseBase64Url s := inl s;
  lvalue_assign _ _ := LvAssigned
|}.
End Demo.

(** Names for the values and types of the examples. *)
Definition param : arg_info := Arg "parameter" false 0 None.
Notation intT := (Base bigInt_).
Notation floatT := (Base float_).
Notation stringT := (Base string_).

(** ** Acceptance *)

(** C6: what an assignment to a parameter, member, key or variable of a type stores,
    when it raises no exception, is a value of the type, and a well-formed one:
    the elements of all its containers are values of their value types. It
    holds for all types that can be declared (with all conversions, the folding
    of containers that are shared or not, soft lists and "or nothing" types).
    The three types whose vectors disagree are excluded. *)
Theorem accept_sound `{TL : TypeLaws} `{CV : Conversions} T a v v' :
  wf_type T = true -> declarable T = true -> wf_value v = true ->
  acceptAny T a v [] = (v', []) ->
  in_type T v' = true /\ wf_value v' = true.
Proof.
  intros Hw Hd Hv. unfold acceptAny, accept_static. cbn [hasType_opt].
  destruct (hasType T) eqn:E.
  - intros Ha. pose proof (declarable_sound T Hw Hd a v Hv) as Hs.
    rewrite Ha in Hs. by apply Hs.
  - pose proof (in_type_no_type T v' E) as Hi.
    case_decide; intros [= <-]; split; try done.
    unfold stripTypeInfo, get_plain_hash, get_plain_list.
    case_match; try done; by apply copy_strip_plain.
Qed.

Lemma accept_sound_witness :
  let T := ComplexSoftList floatT in
  @in_type demo_env T (VList false (Some (ComplexList floatT)) true [VFloat 7]) = true /\
  @wf_value demo_env (VList false (Some (ComplexList floatT)) true [VFloat 7]) = true.
Proof.
  apply (@accept_sound demo_env demo_laws demo_conversions (ComplexSoftList floatT) param
    (VInt 7)); vm_compute; reflexivity.
Defined.

(** C7: a value of a type, without references in it, is accepted by the type
    without an exception, and keeps its contents: at every depth, only the types
    of containers and their sharing may change. Weak references and references to
    lvalues are excluded, which the types of containers do not accept. *)
Theorem accept_complete `{TL : TypeLaws} `{CV : Conversions} T a v :
  wf_type T = true -> declarable T = true ->
  in_type T v = true -> wf_value v = true -> strong v = true ->
  exists v', acceptAny T a v [] = (v', []) /\ contents v' = contents v /\
    in_type T v' = true.
Proof.
  intros Hw Hd Hi Hv Hs. destruct (accept_static_kept T a v) as [H1 H2];
    [by apply declarable_complete|by split_and!|].
  unfold acceptAny. destruct (accept_static _ _ _ _ _) as [v' xs'] eqn:E. cbn in H1, H2.
  subst xs'. exists v'. split_and!; [done..|].
  unfold accept_static in E. cbn [hasType_opt] in E. destruct (hasType T) eqn:Eh;
    [|by apply in_type_no_type].
  pose proof (declarable_sound T Hw Hd a v Hv) as Hok. rewrite E in Hok.
  by apply Hok.
Qed.

Lemma accept_complete_witness :
  let T := ComplexHash (ComplexList intT) in
  let v := VHash false None None false [("a", VList false None true [VInt 1])] in
  exists v', @acceptAny demo_env demo_conversions T param v [] = (v', []) /\
    contents v' = contents v /\ @in_type demo_env T v' = true.
Proof.
  apply (@accept_complete demo_env demo_laws demo_conversions); vm_compute; reflexivity.
Defined.

(** C8: what the parser finds out is true at run time. If parseAccepts takes an
    assignment without reserve (its result is not NOT_EQUAL, and may_not_match
    is not set), then a value of the type of the expression is assigned without a
    type error; conversions may still fail, as those of binary data, and when
    nothing fails the result is a value of the type of the lvalue. This covers
    the types without references and without conversions to soft lists with a
    value type (for those it is false, see [soft_list_reserve_lost]). *)
Theorem parse_accepts_safe `{TL : TypeLaws} `{CV : Conversions} T S known a v r st :
  wf_type T = true -> decided T = true ->
  in_type S v = true -> wf_value v = true -> strong v = true ->
  parseAccepts T S known no_flags = (r, st) ->
  r <> QTI_NOT_EQUAL -> may_not_match st = false ->
  no_type_error (acceptInputIntern T a v []).2 /\
  ((acceptInputIntern T a v []).2 = [] ->
   in_type T (acceptInputIntern T a v []).1 = true).
Proof.
  intros Hw Hd Hi Hv Hs Hp Hr Hm. split.
  - destruct (all_parse_ok T Hw Hd S known no_flags r st Hp Hr) as [_ Hok].
    apply Hok; [done|by split_and!].
  - intros Hx. by apply declarable_sound; [|apply decided_declarable|..].
Qed.

Lemma parse_accepts_safe_witness :
  let T := ComplexHashOrNothing (ClassT 1) in
  let v := VHash false None (Some (ComplexHash (ClassT 2))) true
             [("a", VObject false 2 10 true)] in
  no_type_error (@acceptInputIntern demo_env demo_conversions T param v []).2 /\
  ((@acceptInputIntern demo_env demo_conversions T param v []).2 = [] ->
   @in_type demo_env T (@acceptInputIntern demo_env demo_conversions T param v []).1 = true).
Proof.
  apply (@parse_accepts_safe demo_env demo_laws demo_conversions _
    (ComplexHash (ClassT 2)) false _ _
    (@parseAccepts demo_env (ComplexHashOrNothing (ClassT 1)) (ComplexHash (ClassT 2))
       false no_flags).1
    (@parseAccepts demo_env (ComplexHashOrNothing (ClassT 1)) (ComplexHash (ClassT 2))
       false no_flags).2); vm_compute; try reflexivity; discriminate.
Defined.

(** C17: the equality of types is an equivalence, and equal types have the same
    values. *)
Theorem type_equality `{TL : TypeLaws} :
  Equivalence (fun a b => TypeMatch.equal a b = true) /\
  forall a b v, TypeMatch.equal a b = true -> in_type a v = in_type b v.
Proof.
  split; [split|].
  - intros a. apply equal_refl.
  - intros a b. apply equal_sym.
  - intros a b c. apply equal_trans.
  - intros a b v. apply in_type_equal.
Qed.

Lemma type_equality_witness :
  Equivalence (fun a b => @TypeMatch.equal demo_env a b = true) /\
  forall a b v, @TypeMatch.equal demo_env a b = true ->
    @in_type demo_env a v = @in_type demo_env b v.
Proof. exact (@type_equality demo_env demo_laws). Defined.

(** the recursion of QoreTypeSpec::match over value types ends: the fuel of the
    definition is enough, more fuel gives the same, and so the function
    satisfies the recursive equation of the code, for all specifications. *)
Theorem match_terminates `{TE : TypeEnv} s t known st :
  QoreTypeSpec_match s t known st = match_body QoreTypeSpec_match s t known st /\
  forall fuel, (match_fuel s t <= fuel)%nat ->
    match_ fuel s t known st = QoreTypeSpec_match s t known st.
Proof.
  split; [apply match_eq|]. intros fuel Hf. unfold QoreTypeSpec_match, match_fuel in *.
  apply match_fuel_enough; lia.
Qed.

(** ** Lists *)

(** C14: a list literal is well-formed. Its expressions have types other than [any],
    no references, no soft lists with a value type and none of the encoded binary
    types, and values of them without references ([literal_value]; it is false for
    soft lists, see [soft_list_for_nothing]). Then evaluation folds nothing, raises nothing, keeps
    the values, and the list gets a type whose value type has all of them; the
    list is a value of the type that the parser gave to the literal. *)
Theorem list_literal_typed `{TL : TypeLaws} `{CV : Conversions} Ts vs :
  Forall2 literal_value Ts vs ->
  exists T, evalImpl (parse_list_vtype Ts) vs [] = (VList false (Some T) true vs, []) /\
    wf_value (VList false (Some T) true vs) = true /\
    in_type (qore_get_complex_list_type (parse_list_vtype Ts))
      (VList false (Some T) true vs) = true.
Proof. apply literal_list. Qed.

Lemma list_literal_typed_witness :
  let vs := [VInt 1; VNothing] in
  exists T, @evalImpl demo_env demo_conversions
      (@parse_list_vtype demo_env [Some intT; Some (Base bigIntOrNothing_)]) vs [] =
        (VList false (Some T) true vs, []) /\
    @wf_value demo_env (VList false (Some T) true vs) = true /\
    @in_type demo_env (qore_get_complex_list_type
        (@parse_list_vtype demo_env [Some intT; Some (Base bigIntOrNothing_)]))
      (VList false (Some T) true vs) = true.
Proof.
  apply (@list_literal_typed demo_env demo_laws demo_conversions).
  repeat constructor; (vm_compute; reflexivity) || discriminate.
Defined.



(** ** Hashes *)

(** Two declarations: [hashdecl a { int i; *string s; }] and, over it,
    [hashdecl b { list<hash<a>> l; }]; a copy of the second one, and one that names
    itself with a copy of it, [hashdecl n { *hash<n> next; }]. *)
Definition demo_decls (hd : Z) : typed_hash_decl :=
  if decide (hd = 1) then
    HashDecl "a" [("i", Member intT (Some (inl (VInt 1))));
                  ("s", Member (Base stringOrNothing_) None)]
  else if decide (hd = 2 \/ hd = 3) then
    HashDecl "b" [("l", Member (ComplexList (HashDeclT 1)) None)]
  else HashDecl "n" [("next", Member (HashDeclOrNothingT hd) None)].
Definition demo_rank (hd : Z) : nat := if decide (hd = 1) then 0 else 1.

Lemma demo_member hd k m : find_member k (hd_members (demo_decls hd)) = Some m ->
  wf_type (m_typeInfo m) = true /\ declarable (m_typeInfo m) = true.
Proof.
  unfold demo_decls. repeat case_decide; cbn; repeat case_decide; intros E;
    simplify_eq; done.
Qed.



(** C15: what newHash makes for a hash declaration, when it raises nothing. The hash
    is one of the declaration. If there are initial values, or all types of
    members have default values, every member is declared and has a value of its
    type; without a default value a required member may be NOTHING. With
    %strict-types all members are there that cannot be NOTHING. *)
Theorem new_hash_typed `{TL : TypeLaws} `{CV : Conversions} decls strict hd init check h :
  decls_ok decls -> unique_members decls ->
  forallb (fun kv => wf_value kv.2) (from_option id [] init) = true ->
  (forall k m v, (k, m) ∈ hd_members (decls hd) -> m_exp m = Some (inl v) ->
    wf_value v = true) ->
  newHash decls strict hd init check [] = (Some h, []) ->
  hashdecl h = Some hd /\
  (init <> None \/ (forall k m, (k, m) ∈ hd_members (decls hd) ->
     getDefaultQoreValue (m_typeInfo m) <> None) -> hash_wf decls h) /\
  (strict = true -> complete_to (hd_members (decls hd)) h).
Proof.
  intros Hd Hu Hi He Hn.
  destruct (newHash_sound decls strict init hd Hd Hu Hi He check h Hn) as [Hok Hc].
  split_and!; [apply Hok| |done]. by apply (new_hash_wf decls strict init hd).
Qed.

Lemma new_hash_typed_witness :
  let h := Hash (Some 1) None [("i", VInt 1); ("s", VString "x")] in
  hashdecl h = Some 1 /\
  (Some [("s", VString "x")] <> None \/ (forall k m, (k, m) ∈ hd_members (demo_decls 1) ->
     getDefaultQoreValue (m_typeInfo m) <> None) -> @hash_wf demo_env demo_decls h) /\
  (true = true -> complete_to (hd_members (demo_decls 1)) h).
Proof.
  apply (@new_hash_typed demo_env demo_laws demo_conversions demo_decls true 1
    (Some [("s", VString "x")]) true).
  - intros hd k m. apply demo_member.
  - intros hd k m. unfold demo_decls. repeat case_decide; cbn;
      rewrite ?elem_of_cons, elem_of_nil; naive_solver.
  - reflexivity.
  - intros k m v. unfold demo_decls. rewrite decide_True by done. cbn.
    rewrite !elem_of_cons, elem_of_nil. intros [[= -> ->]|[[= -> ->]|[]]] [= <-]; done.
  - vm_compute. reflexivity.
Defined.

(** C16: the equality of hash declarations and the equality of types, which call each
    other. If no declaration names itself, directly or over others, the recursion
    ends: the answer is the same for all fuel above the depth of the declaration,
    and does not depend on what stands for the calls beyond. The result satisfies
    the equation of the code and is an equivalence, so that the environment with
    it has the laws of [TypeLaws]. *)
Theorem hash_declarations_equal {TE : TypeEnv} {TL : TypeLaws} decls rank : acyclic decls rank ->
  (forall n stop a b, (rank a < n)%nat ->
     decl_equal decls stop n a b = decls_equal decls rank a b) /\
  (forall a b, decls_equal decls rank a b =
     decl_equal_ (@TypeMatch.equal (with_hd_equal TE (decls_equal decls rank)))
       (decls a) (decls b)) /\
  @TypeLaws (with_hd_equal TE (decls_equal decls rank)).
Proof.
  intros Hr. split_and!.
  - intros n stop a b Hn. apply (decl_equal_enough decls rank); [done..|lia].
  - intros a b. by apply decls_equal_eq.
  - by apply with_hd_equal_laws, decls_equal_equiv.
Qed.

Lemma hash_declarations_equal_witness :
  let decls hd := if decide (1 <= hd < 4) then demo_decls hd else HashDecl "e" [] in
  (forall n stop a b, (demo_rank a < n)%nat ->
     @decl_equal demo_env decls stop n a b = @decls_equal demo_env decls demo_rank a b) /\
  (forall a b, @decls_equal demo_env decls demo_rank a b =
     decl_equal_ (@TypeMatch.equal
       (with_hd_equal demo_env (@decls_equal demo_env decls demo_rank))) (decls a) (decls b)) /\
  @TypeLaws (with_hd_equal demo_env (@decls_equal demo_env decls demo_rank)).
Proof.
  apply (@hash_declarations_equal demo_env demo_laws
    (fun hd => if decide (1 <= hd < 4) then demo_decls hd else HashDecl "e" []) demo_rank).
  intros hd km u. unfold demo_decls, demo_rank.
  repeat case_decide; subst; cbn; rewrite ?elem_of_cons, ?elem_of_nil; naive_solver lia.
Defined.

(** ** Classes *)

(** the two tests of objects agree at run time: runtimeAcceptsValue finds a
    class compatible exactly if acceptInput takes the object, whatever the
    hierarchy and the access of its classes, if no class is injected for the
    class of the type. *)
Theorem object_checks_agree classes runtime_class parse_class strict hds u o :
  injectedClass (classes u) = None ->
  runtimeCheckCompatibleClass runtime_class (classes u) (classes o) <> QTI_NOT_EQUAL <->
  @type_spec_accept_object
    (class_env classes runtime_class parse_class strict hds) u o = Accepted.
Proof. apply (runtime_check_accepts classes runtime_class parse_class strict hds). Qed.

Lemma object_checks_agree_witness :
  runtimeCheckCompatibleClass None (demo_class 1) (demo_class 2) <> QTI_NOT_EQUAL <->
  @type_spec_accept_object demo_env 1 2 = Accepted.
Proof. apply (object_checks_agree demo_class None None false Z.eqb 1 2). reflexivity. Defined.

(** hierarchies with public inheritance do what the type system uses of
    classes: equality of classes is an equivalence that search and access
    respect, and what parseCheckCompatibleClass finds compatible without reserve
    is accepted at run time. *)
Theorem public_classes_refine classes runtime_class parse_class strict hds :
  public_table classes -> Equivalence (fun a b => hds a b = true) ->
  @TypeLaws (class_env classes runtime_class parse_class strict hds).
Proof. intros HT. by apply class_laws. Qed.

Lemma public_classes_refine_witness : @TypeLaws (class_env demo_class None None false Z.eqb).
Proof.
  apply public_classes_refine; [apply demo_table|].
  split; repeat intro; rewrite Z.eqb_eq in *; congruence.
Defined.

(** ** Default values and garbage collection *)

(** the default value of a type is a well-formed value of the type, and a type
    that needs no scan for recursive references has no objects, closures, lists
    or hashes (weak references and the three types with wrong vectors apart). *)
Theorem default_and_scan `{TL : TypeLaws} T : wf_type T = true ->
  (forall v, getDefaultQoreValue T = Some v -> in_type T v = true /\ wf_value v = true) /\
  (forall v, declarable T = true -> needsScan T = false -> strong v = true ->
   in_type T v = true ->
   match v with
   | VObject _ _ _ _ | VClosure _ | VList _ _ _ _ | VHash _ _ _ _ _ => False
   | _ => True
   end).
Proof.
  intros Hw. split; [by intros v; apply default_good|]. intros v Hd. by apply scan_free.
Qed.

Lemma default_and_scan_witness :
  let T := ComplexHash (ComplexList intT) in
  (forall v, getDefaultQoreValue T = Some v ->
     @in_type demo_env T v = true /\ @wf_value demo_env v = true) /\
  (forall v, declarable T = true -> needsScan T = false -> strong v = true ->
   @in_type demo_env T v = true ->
   match v with
   | VObject _ _ _ _ | VClosure _ | VList _ _ _ _ | VHash _ _ _ _ _ => False
   | _ => True
   end).
Proof. apply (@default_and_scan demo_env demo_laws). vm_compute. reflexivity. Defined.

(** ** Examples of what is excluded *)

(** The return vectors of [*hexbinary], [*base64binary] and [*base64urlbinary] have
    hashes in place of binary objects. *)
Example or_nothing_binary_returns_hash `{TE : TypeEnv} s :
  in_type (Base hexBinaryOrNothing_) (VBinary s) = false /\
  in_type (Base base64BinaryOrNothing_) (VBinary s) = false /\
  in_type (Base base64UrlBinaryOrNothing_) (VBinary s) = false.
Proof. done. Qed.

(** parseAccepts forgets its reserve when a soft list comes first: a string is a
    type error for [*softlist<int>]. *)
Example soft_list_reserve_lost :
  let T := ComplexSoftListOrNothing intT in
  let r := @parseAccepts demo_env T (Base stringOrNothing_) false no_flags in
  r.1 = QTI_AMBIGUOUS /\ may_not_match r.2 = false /\
  (@acceptInputIntern demo_env demo_conversions T param (VString "a") []).2 =
    [Exc (RuntimeTypeError false param T (VString "a")) []].
Proof. vm_compute. done. Qed.

(** The value type of an "or nothing" type is not found in the map of types: it is
    [auto] and not [int]. *)
Example value_type_of_or_nothing `{TE : TypeEnv} :
  get_value_type (Base bigIntOrNothing_) = autoTypeInfo.
Proof. done. Qed.

(** [NOTHING + list<int>] has the type [list<*list<int>>]. *)
Example prepend_nothing_wrong `{TE : TypeEnv} :
  prependElement (Some (ComplexList intT)) [VInt 1] VNothing =
    VList false (Some (ComplexList (ComplexListOrNothing intT))) true [VNothing; VInt 1] /\
  wf_value (prependElement (Some (ComplexList intT)) [VInt 1] VNothing) = false.
Proof. vm_compute. done. Qed.

(** A list that is not shared gets the type [*list<int>] when it is assigned, and
    push then checks nothing. *)
Example push_or_nothing_unchecked :
  let T := ComplexListOrNothing intT in
  let r := @acceptInputIntern demo_env demo_conversions T param
             (VList false None true [VInt 1]) [] in
  r = (VList false (Some T) true [VInt 1], []) /\
  push (TE := demo_env) (CV := demo_conversions) (Some T) [VInt 1] (VString "a") [] =
    ([VInt 1; VString "a"], [], true) /\
  @wf_value demo_env (VList false (Some T) true [VInt 1; VString "a"]) = false.
Proof. vm_compute. done. Qed.

(** A literal with NOTHING and a list of the type [softlist<*int>] takes this type
    for all of its elements. *)
Example soft_list_for_nothing `{TE : TypeEnv} :
  let T := ComplexSoftList (Base bigIntOrNothing_) in
  eval_list_vtype [VNothing; VList false (Some T) true []] = T /\
  in_type T VNothing = false.
Proof. vm_compute. done. Qed.

(** A hash of a hash declaration that is not shared keeps the declaration when its
    members are folded into a type. *)
Example folded_hashdecl_stays :
  @acceptInputIntern demo_env demo_conversions (ComplexHash floatT) param
    (VHash false (Some 5) None true [("a", VInt 1)]) [] =
  (VHash false (Some 5) (Some (ComplexHash floatT)) true [("a", VFloat 1)], []).
Proof. vm_compute. done. Qed.

(** At run time a [list<*int>] counts as a [list<int>] (in the search for variants),
    though its elements may be NOTHING. *)
Example runtime_accepts_or_nothing :
  let n := VList false (Some (ComplexList (Base bigIntOrNothing_))) true [VNothing] in
  @runtimeAcceptsValue demo_env (ComplexList intT) n = QTI_IDENT /\
  failed (@acceptInputIntern demo_env demo_conversions (ComplexList intT) param n []).2 = true.
Proof. vm_compute. done. Qed.

(** A weak reference to a list counts as a list, but is not accepted as one. *)
Example runtime_accepts_weak_list :
  let n := VList true None true [] in
  @runtimeAcceptsValue demo_env listTypeInfo n = QTI_IDENT /\
  failed (@acceptInputIntern demo_env demo_conversions listTypeInfo param n []).2 = true.
Proof. vm_compute. done. Qed.

(** The only "or nothing" type with a default value. *)
Example soft_list_or_nothing_default :
  getDefaultQoreValue softAutoListOrNothingTypeInfo = Some (new_list autoTypeInfo) /\
  getDefaultQoreValue autoListOrNothingTypeInfo = None.
Proof. done. Qed.

(** The assignment of a value to a key that a hash declaration does not have raises
    an exception, and leaves the key in the hash. *)
Example unknown_key_stays `{TE : TypeEnv} `{CV : Conversions} v :
  setKeyValue demo_decls (Hash (Some 1) None []) "x" v [] =
    (Hash (Some 1) None [("x", VNothing)], [Exc (HashError "HASHDECL-KEY-ERROR") []]).
Proof. done. Qed.

(** A type error leaves the key in the hash too, with NOTHING for an int. *)
Example failed_assignment_stays :
  let r := @setKeyValue demo_env demo_conversions demo_decls (Hash (Some 1) None []) "i"
             (VString "a") [] in
  r.1 = Hash (Some 1) None [("i", VNothing)] /\ failed r.2 = true.
Proof. vm_compute. done. Qed.

(** The comparison of a declaration that names itself with a copy of it (in another
    program) does not end: the answer is the one that stands for the calls beyond,
    whatever the fuel. *)
Example self_reference_diverges `{TE : TypeEnv} fuel stop :
  decl_equal demo_decls stop fuel 4 5 = stop.
Proof.
  assert (H : forall eq, decl_equal_ (@TypeMatch.equal (with_hd_equal TE eq))
    (demo_decls 4) (demo_decls 5) = eq 4 5).
  { intros eq. vm_compute. by destruct (eq 4 5). }
  induction fuel as [|fuel IH]; [done|]. cbn [decl_equal]. by rewrite H.
Qed.

(** Without initial values and without a default value a required member is
    NOTHING. *)
Example required_member_nothing :
  @newHash demo_env demo_conversions
      (fun _ => HashDecl "c" [("o", Member (ClassT 1) None)]) true 1 None true [] =
    (Some (Hash (Some 1) None [("o", VNothing)]), []) /\
  @in_type demo_env (ClassT 1) VNothing = false.
Proof. vm_compute. done. Qed.
