(* ===== verification/Variants.v ===== *)
(** * Variants of functions and calls

    The overloaded functions of the language (lib/Function.cpp, Function.h): the
    search for a variant by the types of the arguments, when the call is parsed, and
    by their values, when it is made; default arguments and the acceptance of
    arguments; the comparison of signatures; and the call of a function that is
    written in the language. *)
From S2P Require Import Prelude TypeInfo TypeMatch TypeAccept ClassAccess TypedList.

(** ** Flags *)

Definition PO_REQUIRE_TYPES : Z := Z.shiftl 1 21.
Definition PO_STRICT_ARGS : Z := Z.shiftl 1 26.
Definition PO_POSITIVE_OPTIONS : Z :=
  Z.lor (Z.lor (Z.shiftl 1 11) (Z.shiftl 1 36)) (Z.lor (Z.shiftl 1 50) (Z.shiftl 1 51)).
Definition QCF_NOOP : Z := 1.
Definition QCF_USES_EXTRA_ARGS : Z := Z.shiftl 1 1.
Definition QCF_RUNTIME_NOOP : Z := Z.shiftl 1 5.
Definition flag (x f : Z) : bool := negb (Z.land x f =? 0).

(** ** Signatures, variants, functions *)

(** AbstractFunctionSignature. A parameter without a declaration has no type. A
    default argument is what its expression gives: a value or an exception. *)
Record signature := Sig {
  typeList : list (option ty);
  defaultArgList : list (option (value + string));
  names : list string;
  num_param_types : nat;
  min_param_types : nat;
  varargs : bool;
  returnTypeInfo : option ty
}.
Definition numParams (sig : signature) : nat := length (typeList sig).
Definition getParamTypeInfo (sig : signature) (num : nat) : option ty :=
  T ← typeList sig !! num; T.
Definition hasDefaultArg (sig : signature) (i : nat) : bool :=
  match defaultArgList sig !! i with Some (Some _) => true | _ => false end.

(** UserSignature::pushParam with a declared variable: one more parameter. *)
Definition pushParam (sig : signature) (name : string) (ti : option ty)
    (defArg : option (value + string)) : signature :=
  let typed := match ti with Some T => hasType T | None => false end in
  Sig (typeList sig ++ [ti]) (defaultArgList sig ++ [defArg]) (names sig ++ [name])
    (if typed then S (num_param_types sig) else num_param_types sig)
    (if typed && bool_decide (defArg = None) then S (min_param_types sig)
     else min_param_types sig)
    (varargs sig) (returnTypeInfo sig).

(** UserVariantBase: the parse options of its statements, if it has some, and those of
    its program. *)
Record UserVariantBase := UserVariant {
  parse_options : option Z;
  pgm_options : Z
}.
(** AbstractQoreFunctionVariant and MethodVariantBase *)
Record variant := Variant {
  sig : signature;
  flags : Z;
  functionality : Z;
  user : option UserVariantBase;
  access : ClassAccess;
  abstract : bool;
  vclass : option cls
}.
Definition getParseOptions (v : variant) (po : Z) : Z :=
  from_option id po (u ← user v; parse_options u).
Definition isUser (v : variant) : bool := bool_decide (is_Some (user v)).
Definition hasVarargs (v : variant) : bool :=
  (isUser v && varargs (sig v)) || flag (flags v) QCF_USES_EXTRA_ARGS.
Definition strict_args (v : variant) (po : Z) : bool :=
  flag (getParseOptions v po) (Z.lor PO_REQUIRE_TYPES PO_STRICT_ARGS).

(** QoreFunction and MethodFunctionBase; an entry of the inheritance list has the
    access to its class. The first entry is the function itself. *)
Record function := Func {
  fclass : option cls;
  f_abstract : bool;
  vlist : list variant
}.
Notation ilist := (list (function * ClassAccess)).

(** IList::getFunction: the function, [last_class], [internal_access], [stop]. *)
Definition getFunction (class_ctx last_class : option cls) (node : function * ClassAccess)
    (internal_access : bool) : option function * option cls * bool * bool :=
  let stop := internal_access && bool_decide (node.2 = Internal) in
  if bool_decide (last_class = None) || bool_decide (node.2 = Public) || stop ||
     (bool_decide (is_Some class_ctx) && bool_decide (node.2 = Private))
  then
    match fclass node.1 with
    | Some fc =>
        (Some node.1, Some fc,
         match class_ctx with
         | Some ctx => ClassAccess.equal fc ctx
         | None => internal_access
         end, stop)
    | None => (Some node.1, last_class, internal_access, stop)
    end
  else (None, last_class, internal_access, stop).

(** skip_method_variant *)
Definition skip_method_variant (v : variant) (class_ctx : option cls)
    (internal_access : bool) : bool :=
  (bool_decide (class_ctx = None) && bool_decide (access_rank Public < access_rank (access v))) ||
  (bool_decide (access v = Internal) && negb internal_access).

(** Whether the parse options forbid the functionality of a variant. *)
Definition forbidden (v : variant) (po : Z) : bool :=
  let vflags := functionality v in
  let positive := Z.land vflags PO_POSITIVE_OPTIONS in
  flag (Z.land vflags po) (Z.lnot PO_POSITIVE_OPTIONS) ||
  (flag vflags PO_POSITIVE_OPTIONS && negb (Z.land positive po =? positive)).

(** ** Lists of arguments *)

(** QoreListNodeEvalOptionalRefHolder: the list, and whether it is in use elsewhere. *)
Record arg_holder := Args { in_use : bool; entries : list value }.
Definition retrieveEntry (l : list value) (i : nat) : value := from_option id VNothing (l !! i).
Definition isNothing (n : value) : bool := bool_decide (getType n = NT_NOTHING).

(** editIntern; and an assignment to the result of getEntryReference. *)
Definition editIntern (h : arg_holder) : list value :=
  if in_use h then refSelf <$> entries h else entries h.
Definition set_entry (h : arg_holder) (i : nat) (n : value) : arg_holder :=
  let l := editIntern h in
  Args false (<[i := n]> (l ++ replicate (S i - length l) VNothing)).

(** Names for types that may be absent. *)
Notation opt_type T := (from_option id anyTypeInfo T).
Definition opt_hasType (T : option ty) : bool := hasType (opt_type T).

(** QoreTypeInfo::mayRequireFilter *)
Definition mayRequireFilter {TE : TypeEnv} (T : option ty) (n : value) : bool :=
  if negb (opt_hasType T) && negb (bool_decide (T = Some autoTypeInfo))
  then isComplex (getTypeInfo n)
  else existsb (fun a => bool_decide (is_Some (a_map a)) &&
         bool_decide (matchType (a_spec a) (getType n) <> QTI_NOT_EQUAL)) (accepts (opt_type T)).

(** The loop over the inheritance list, where [one] is the loop over the variants of
    one function, and [finished] that a match was found. *)
Fixpoint find_in_ilist {A} (one : option cls -> bool -> list variant -> A -> A)
    (finished : A -> bool) (skip_abstract : bool) (ctx last_class : option cls)
    (internal_access : bool) (l : ilist) (st : A) : A :=
  match l with
  | [] => st
  | node :: l =>
      match getFunction ctx last_class node internal_access with
      | (None, _, _, _) => st
      | (Some aqf, last_class, internal_access, stop) =>
          if skip_abstract && bool_decide (is_Some last_class) && f_abstract aqf
          then find_in_ilist one finished skip_abstract ctx last_class internal_access l st
          else
            let st := one last_class internal_access (vlist aqf) st in
            if stop || finished st then st
            else find_in_ilist one finished skip_abstract ctx last_class internal_access l st
      end
  end.

Section Search.
Context {TE : TypeEnv}.

(** ** The search by values *)

(** The score of the parameters from the number [pi] on, if all accept their
    arguments. *)
Fixpoint value_score (sig : signature) (args : list value) (pi : nat)
    (l : list (option ty)) : option Z :=
  match l with
  | [] => Some 0
  | t :: l =>
      let n := retrieveEntry args pi in
      let rc := if isNothing n && hasDefaultArg sig pi then Some QTI_IGNORE
                else
                  let rc := match t with
                            | Some T => runtimeAcceptsValue T n
                            | None => QTI_WILDCARD
                            end in
                  if decide (rc = QTI_NOT_EQUAL) then None
                  else Some (if decide (length args <= pi)%nat then QTI_IGNORE else rc) in
      rc ← rc;
      rest ← value_score sig args (S pi) l;
      Some ((if bool_decide (is_Some t) && bool_decide (rc <> QTI_IGNORE)
             then qti_rank rc else 0) + rest)
  end.

(** Whether there is an argument that is not NOTHING behind the parameters. *)
Definition has_extra (sig : signature) (args : list value) : bool :=
  existsb (fun n => negb (isNothing n)) (drop (numParams sig) args).

(** The state of the search. *)
Record search := Search {
  score : Z;
  score_len : Z;
  found : option variant;
  cnt : nat
}.

Record call_context := Context_ {
  class_ctx : option cls;
  ppo : Z;                 (* runtime_get_parse_options() *)
  has_program : bool       (* getProgram() is not null *)
}.

(** Whether the variant is not looked at. *)
Definition skipped (cc : call_context) (only_user : bool) (last_class : option cls)
    (internal_access : bool) (v : variant) : bool :=
  (only_user && negb (isUser v)) ||
  (bool_decide (is_Some last_class) &&
   (skip_method_variant v (class_ctx cc) internal_access || abstract v)) ||
  (strict_args v (ppo cc) && flag (flags v) QCF_RUNTIME_NOOP).

(** QoreFunction::runtimeFindVariant (by values): the loop over the variants of one
    function. *)
Fixpoint find_in_vlist (cc : call_context) (only_user : bool) (last_class : option cls)
    (internal_access : bool) (args : list value) (l : list variant) (st : search) : search :=
  match l with
  | [] => st
  | v :: l =>
      let next := find_in_vlist cc only_user last_class internal_access args l in
      if skipped cc only_user last_class internal_access v then next st
      else
        let st := Search (score st) (score_len st) (found st) (S (cnt st)) in
        let sig := sig v in
        if bool_decide (args = []) && bool_decide (numParams sig = 0%nat)
        then Search (score st) (score_len st) (Some v) (cnt st)
        else if bool_decide (Z.of_nat (num_param_types sig) * qti_rank QTI_IDENT < score st)
        then next st
        else
          match value_score sig args 0 (typeList sig) with
          | None => next st
          | Some pscore =>
              if bool_decide (numParams sig < length args)%nat && strict_args v (ppo cc) &&
                 negb (flag (flags v) QCF_USES_EXTRA_ARGS) && has_extra sig args
              then next st
              else if bool_decide (score st < pscore) ||
                      (bool_decide (pscore = score st) &&
                       (bool_decide (score_len st = -1) ||
                        bool_decide (Z.of_nat (numParams sig) < score_len st)))
              then next (Search pscore (Z.of_nat (numParams sig)) (Some v) (cnt st))
              else next st
          end
  end.

Definition new_search : search := Search (-1) (-1) None 0.
Definition search_done (st : search) : bool := bool_decide (is_Some (found st)).

(** What the search gives to the caller. *)
Inductive find_result :=
| Found (v : variant)
| FoundNothing                         (* without an exception *)
| FindError (code : string).

(** QoreFunction::runtimeFindVariant (by values) *)
Definition runtimeFindVariant (cc : call_context) (l : ilist) (args : list value)
    (only_user : bool) : find_result :=
  let st := find_in_ilist
    (fun last_class internal_access vs st =>
       find_in_vlist cc only_user last_class internal_access args vs st)
    search_done true (class_ctx cc) None false l new_search in
  match found st with
  | None => if only_user then FoundNothing else FindError "RUNTIME-OVERLOAD-ERROR"
  | Some v =>
      if has_program cc && forbidden v (getParseOptions v (ppo cc)) then
        (if only_user then FoundNothing else FindError "INVALID-FUNCTION-ACCESS")
      else Found v
  end.

(** ** The search by types *)

(** The static functions of QoreTypeInfo for types that may be absent; an absent type
    behaves as [any], but for the identity of pointers. *)
Definition runtimeTypeMatch_opt (T S : option ty) : qore_type_result_e :=
  if decide (T = S) then QTI_IDENT
  else if negb (opt_hasType S) then
    (if negb (opt_hasType T) then QTI_NEAR else QTI_AMBIGUOUS)
  else runtimeTypeMatch QoreTypeSpec_match (opt_type T) (opt_type S).
Definition isInputIdentical (T S : option ty) : bool :=
  if decide (T = S) then true
  else
    let a := opt_type T in let b := opt_type S in
    if hasType a && hasType b
    then typespec_vec_compare (match value_type a with
                               | Some U => TypeMatch.equal U
                               | None => fun _ => false
                               end) (accept_specs a) (accept_specs b)
    else negb (hasType a || hasType b).

(** AbstractFunctionSignature::compare *)
Fixpoint params_match (relaxed_match : bool) (l : list (option ty)) (sig2 : signature) (i : nat)
    : bool :=
  match l with
  | [] => true
  | T :: l =>
      let S2 := getParamTypeInfo sig2 i in
      let rc := if relaxed_match
                then (if decide (T = S2) then QTI_IDENT
                      else (parseAccepts (opt_type T) (opt_type S2) false no_flags).1)
                else runtimeTypeMatch_opt T S2 in
      bool_decide (qti_rank (if relaxed_match then QTI_WILDCARD else QTI_NEAR) <= qti_rank rc) &&
      params_match relaxed_match l sig2 (S i)
  end.
Definition compare (sig1 sig2 : signature) (relaxed_match : bool) : bool :=
  bool_decide (varargs sig1 = varargs sig2) &&
  bool_decide (num_param_types sig1 = num_param_types sig2) &&
  bool_decide (min_param_types sig1 = min_param_types sig2) &&
  (bool_decide (returnTypeInfo sig2 = Some nothingTypeInfo) ||
   bool_decide (returnTypeInfo sig2 = returnTypeInfo sig1) ||
   (let '(rc, st) := parseAccepts (opt_type (returnTypeInfo sig2))
                       (opt_type (returnTypeInfo sig1)) false no_flags in
    bool_decide (rc <> QTI_NOT_EQUAL) && (negb (may_not_match st) || relaxed_match))) &&
  params_match relaxed_match (typeList sig1) sig2 0.

(** QoreFunction::existsVariant *)
Fixpoint inputs_identical (l k : list (option ty)) : bool :=
  match l, k with
  | T :: l, U :: k => isInputIdentical T U && inputs_identical l k
  | _, _ => true
  end.
Definition existsVariant (l : list variant) (paramTypeInfo : list (option ty)) : bool :=
  existsb (fun v =>
    bool_decide (numParams (sig v) = length paramTypeInfo) &&
    inputs_identical paramTypeInfo (typeList (sig v))) l.

(** QoreFunction::runtimeFindVariant (by types) *)
Fixpoint type_count (l k : list (option ty)) : option Z :=
  match l, k with
  | T :: l, U :: k =>
      let rc := runtimeTypeMatch_opt T U in
      if decide (qti_rank rc < qti_rank QTI_WILDCARD) then None
      else n ← type_count l k; Some (qti_rank rc + n)
  | _, _ => Some 0
  end.
Fixpoint type_find_in_vlist (cc : call_context) (last_class : option cls)
    (internal_access : bool) (args : list (option ty)) (l : list variant)
    (st : Z * option variant) : Z * option variant :=
  match l with
  | [] => st
  | v :: l =>
      let next := type_find_in_vlist cc last_class internal_access args l in
      if skipped cc false last_class internal_access v then next st
      else if bool_decide (args = []) && bool_decide (numParams (sig v) = 0%nat)
      then (st.1, Some v)
      else if bool_decide (numParams (sig v) <> length args) then next st
      else match type_count (typeList (sig v)) args with
           | Some count => next (if bool_decide (st.1 < count) then (count, Some v) else st)
           | None => next st
           end
  end.
Definition checkVariant (cc : call_context) (v : option variant) : find_result :=
  match v with
  | None => FindError "VARIANT-MATCH-ERROR"
  | Some v => if forbidden v (getParseOptions v (ppo cc))
              then FindError "INVALID-FUNCTION-ACCESS" else Found v
  end.
Definition runtimeFindVariant_types (cc : call_context) (l : ilist) (args : list (option ty))
    : find_result :=
  checkVariant cc (find_in_ilist
    (fun last_class internal_access vs st =>
       type_find_in_vlist cc last_class internal_access args vs st)
    (fun st => bool_decide (is_Some st.2)) true (class_ctx cc) None false l (-1, None)).2.

(** QoreFunction::runtimeFindExactVariant: the last one that fits. *)
Fixpoint exact_find_in_vlist (cc : call_context) (last_class : option cls)
    (internal_access : bool) (args : list (option ty)) (l : list variant)
    (st : option variant) : option variant :=
  match l with
  | [] => st
  | v :: l =>
      let next := exact_find_in_vlist cc last_class internal_access args l in
      if skipped cc false last_class internal_access v then next st
      else if bool_decide (args = []) && bool_decide (numParams (sig v) = 0%nat)
      then Some v
      else if bool_decide (numParams (sig v) <> length args) then next st
      else if forallb (fun ta => bool_decide (ta.1 = ta.2) ||
                (bool_decide (ta.1 = None) && bool_decide (ta.2 = Some anyTypeInfo)))
                (zip (typeList (sig v)) args)
      then next (Some v) else next st
  end.
Definition runtimeFindExactVariant (cc : call_context) (l : ilist) (args : list (option ty))
    : find_result :=
  checkVariant cc (find_in_ilist
    (fun last_class internal_access vs st =>
       exact_find_in_vlist cc last_class internal_access args vs st)
    (fun st => bool_decide (is_Some st)) true (class_ctx cc) None false l None).
End Search.

(** ** The search when the call is parsed *)
Section ParseSearch.
Context {TE : TypeEnv}.

(** What is known of a variant after some of its parameters. *)
Record pcount := PCount {
  variant_pmatch : Z;
  pscore : Z;
  max_pscore : Z;
  variant_nperfect : Z;
  variant_runtime_match : bool
}.

(** One parameter: the new counts, whether the loop goes on, and [ok]. *)
Inductive param_step :=
| ParamNext (c : pcount)
| ParamStop (c : pcount)       (* the match must be made at run time *)
| ParamFail (c : pcount).      (* [ok] is false *)

(** Whether a type is given, and the types are matched: the results [rc] and [max_rc],
    and the reserve; or [None] where there is no type at parse time. *)
Definition param_result (sig : signature) (args : list (option ty)) (pi : nat) (t : option ty)
    : option (qore_type_result_e * qore_type_result_e * bool * bool) :=
  let a := T ← args !! pi; T in
  let matched a :=
    let '(rc, st) := parseAccepts (opt_type t) (opt_type a) true
                       (MS false false QTI_UNASSIGNED) in
    Some (rc, max_result st, may_not_match st, true) in
  if opt_hasType t then
    if negb (opt_hasType a) then
      if bool_decide (pi < length args)%nat then None
      else if hasDefaultArg sig pi then Some (QTI_IGNORE, QTI_IGNORE, false, false)
      else matched (Some nothingTypeInfo)
    else if isType (opt_type a) NT_NOTHING && hasDefaultArg sig pi
    then Some (QTI_IDENT, QTI_IDENT, false, false)
    else matched a
  else matched a.

Definition try_param (sig : signature) (args : list (option ty)) (pi : nat) (t : option ty)
    (c : pcount) : param_step :=
  let pos_has_arg := opt_hasType (T ← args !! pi; T) in
  match param_result sig args pi t with
  | None => ParamStop (PCount (variant_pmatch c) (pscore c) (max_pscore c)
                         (variant_nperfect c) true)
  | Some (rc, max_rc, reserve, matched) =>
      if reserve then
        ParamNext (PCount (variant_pmatch c) (pscore c) (max_pscore c)
                     (variant_nperfect c) true)
      else
        let perfect := variant_nperfect c +
                       (if matched && bool_decide (rc = QTI_IDENT) then 1 else 0) in
        if decide (rc = QTI_NOT_EQUAL) then
          ParamFail (PCount (variant_pmatch c) (pscore c) (max_pscore c) perfect
                       (variant_runtime_match c))
        else
          let max_rc := if decide (max_rc = QTI_UNASSIGNED) then rc else max_rc in
          let counts := bool_decide (rc <> QTI_IGNORE) && pos_has_arg in
          ParamNext (PCount (variant_pmatch c + 1)
                       (pscore c + (if counts then qti_rank rc else 0))
                       (max_pscore c + (if counts then qti_rank max_rc else 0))
                       perfect (variant_runtime_match c))
  end.
Fixpoint try_params (sig : signature) (args : list (option ty)) (pi : nat)
    (l : list (option ty)) (c : pcount) : nat * param_step :=
  match l with
  | [] => (pi, ParamNext c)
  | t :: l =>
      match try_param sig args pi t c with
      | ParamNext c => try_params sig args (S pi) l c
      | r => (pi, r)
      end
  end.

(** check_extra_args *)
Definition check_extra_args (sig : signature) (args : list (option ty)) : bool :=
  existsb (fun a => negb (match a with
                          | Some T => parseAcceptsReturns T NT_NOTHING
                          | None => true
                          end)) (drop (numParams sig) args).

(** The state of the search. *)
Record parse_search := PSearch {
  ps_score_len : Z;
  ps_score : Z;
  ps_pmatch : Z;
  ps_nperfect : Z;
  npv : nat;
  ps_variant : option variant;
  pvariant : option variant;
  ps_cnt : nat;
  runtime_match : bool;
  single_error : option nat       (* doSingleVariantTypeException *)
}.
(** [max_score], which the code never changes. *)
Definition max_score : Z := -1.

Definition parse_skipped (class_ctx last_class : option cls) (internal_access : bool)
    (po : Z) (v : variant) : bool :=
  (bool_decide (is_Some last_class) && skip_method_variant v class_ctx internal_access) ||
  (strict_args v po && flag (flags v) (Z.lor QCF_NOOP QCF_RUNTIME_NOOP)).

(** The part behind the parameters, for a variant that may match: the new state, and
    whether the loop goes on. *)
Definition take_match (v : variant) (c : pcount) (st : parse_search) : parse_search * bool :=
  let np := Z.of_nat (numParams (sig v)) in
  let st := PSearch (ps_score_len st) (ps_score st) (ps_pmatch st) (ps_nperfect st)
              (S (npv st)) (ps_variant st)
              (if bool_decide (npv st = 0%nat) then ps_variant st else None)
              (ps_cnt st) (runtime_match st) None in
  if (bool_decide (ps_score st < pscore c) && bool_decide (max_score <= max_pscore c)) ||
     (bool_decide (pscore c = ps_score st) &&
      (bool_decide (ps_nperfect st < variant_nperfect c) ||
       (bool_decide (variant_nperfect c = ps_nperfect st) &&
        (bool_decide (ps_score_len st = -1) || bool_decide (np < ps_score_len st)))))
  then
    if bool_decide (variant_pmatch c < ps_pmatch st) then
      (PSearch (ps_score_len st) (ps_score st) (ps_pmatch st) (ps_nperfect st) (npv st)
         None (pvariant st) (ps_cnt st) true None, false)
    else
      (PSearch np (pscore c) (variant_pmatch c) (variant_nperfect c) (npv st)
         (Some v) (pvariant st) (ps_cnt st) (runtime_match st) None, true)
  else if negb (bool_decide (variant_pmatch c = 0)) &&
          (bool_decide (ps_pmatch st <= variant_pmatch c) ||
           bool_decide (max_score <= max_pscore c))
  then (PSearch (-1) (ps_score st) (variant_pmatch c) (ps_nperfect st) (npv st)
          None (pvariant st) (ps_cnt st) (runtime_match st) None, true)
  else (st, true).

(** What a call is parsed with: the class, the parse options, and whether the program
    takes parse exceptions. *)
Record parse_context := PContext {
  pc_class_ctx : option cls;
  pc_po : Z;
  parse_exceptions : bool
}.

(** The loop over the variants of one function; [single] that there is one only. *)
Fixpoint parse_in_vlist (pc : parse_context) (last_class : option cls)
    (internal_access single : bool) (args : list (option ty)) (l : list variant)
    (st : parse_search) : parse_search :=
  match l with
  | [] => st
  | v :: l =>
      let next := parse_in_vlist pc last_class internal_access single args l in
      if parse_skipped (pc_class_ctx pc) last_class internal_access (pc_po pc) v then next st
      else
        let with_variant st w rm e := PSearch (ps_score_len st) (ps_score st) (ps_pmatch st)
              (ps_nperfect st) (npv st) w (pvariant st) (ps_cnt st) rm e in
        let st := PSearch (ps_score_len st) (ps_score st) (ps_pmatch st) (ps_nperfect st)
              (npv st) (ps_variant st) (pvariant st) (S (ps_cnt st)) (runtime_match st) None in
        let sig := sig v in
        if bool_decide (args = []) && bool_decide (numParams sig = 0%nat)
        then with_variant st (Some v) (runtime_match st) None
        else if bool_decide (Z.of_nat (numParams sig) * qti_rank QTI_IDENT < ps_score st)
        then next st
        else
          match try_params sig args 0 (typeList sig) (PCount 0 0 0 0 false) with
          | (_, ParamStop _) => with_variant st None true None
          | (pi, ParamFail c) =>
              if single && parse_exceptions pc then with_variant st None false (Some pi)
              else if variant_runtime_match c then with_variant st None true None
              else next st
          | (_, ParamNext c) =>
              if variant_runtime_match c then with_variant st None true None
              else if bool_decide (numParams sig < length args)%nat &&
                      negb (hasVarargs v) && strict_args v (pc_po pc) &&
                      check_extra_args sig args
              then next st
              else
                let '(st, go) := take_match v c st in if go then next st else st
          end
  end.

Definition parse_done (st : parse_search) : bool :=
  bool_decide (is_Some (single_error st)) || runtime_match st ||
  bool_decide (is_Some (ps_variant st)).
Definition new_parse_search : parse_search :=
  PSearch (-1) (-1) (-1) (-1) 0 None None 0 false None.

Inductive parse_error :=
| SingleVariant (pi : nat)
| NoVariant
| ExcessArgs.

(** QoreFunction::parseFindVariant: the variant, and the error that is reported.
    Warnings are left out. *)
Definition parseFindVariant (pc : parse_context) (l : ilist) (args : list (option ty))
    : option variant * option parse_error :=
  let one_list := bool_decide (length l = 1%nat) in
  let st := find_in_ilist
    (fun last_class internal_access vs st =>
       parse_in_vlist pc last_class internal_access
         (one_list && bool_decide (length vs = 1%nat)) args vs st)
    parse_done false (pc_class_ctx pc) None false l new_parse_search in
  match single_error st with
  | Some pi => (None, Some (SingleVariant pi))
  | None =>
      match ps_variant st, pvariant st with
      | None, Some v => (Some v, None)
      | None, None =>
          (None, if negb (runtime_match st) && bool_decide (ps_pmatch st = -1) &&
                    parse_exceptions pc then Some NoVariant else None)
      | Some v, _ =>
          (Some v,
           if negb (hasVarargs v) && bool_decide (numParams (sig v) < length args)%nat &&
              flag (pc_po pc) (Z.lor PO_REQUIRE_TYPES PO_STRICT_ARGS)
           then Some ExcessArgs else None)
      end
  end.
End ParseSearch.
