(* ===== verification/VariantSpec.v ===== *)
(** * Which variant is found

    The variant that runtimeFindVariant gives is a best one: it accepts the arguments,
    and no accessible variant of the same function has a higher score, or the same
    score with fewer parameters; the function is the first one of the inheritance list
    that has such a variant. *)
From S2P Require Import Prelude TypeInfo TypeMatch TypeAccept TypeSpec ClassAccess Variants.

Section Best.
Context {TE : TypeEnv}.

(** ** Reference definitions *)

(** The functions that the search visits, with the class and the access. *)
Fixpoint visited (skip_abstract : bool) (ctx last_class : option cls)
    (internal_access : bool) (l : ilist) : list (option cls * bool * list variant) :=
  match l with
  | [] => []
  | node :: l =>
      match getFunction ctx last_class node internal_access with
      | (None, _, _, _) => []
      | (Some aqf, last_class, internal_access, stop) =>
          if skip_abstract && bool_decide (is_Some last_class) && f_abstract aqf
          then visited skip_abstract ctx last_class internal_access l
          else (last_class, internal_access, vlist aqf) ::
               (if stop then []
                else visited skip_abstract ctx last_class internal_access l)
      end
  end.

(** The score of a variant that can be called. *)
Definition candidate (cc : call_context) (only_user : bool) (last_class : option cls)
    (internal_access : bool) (args : list value) (v : variant) : option Z :=
  if skipped cc only_user last_class internal_access v then None
  else
    s ← value_score (sig v) args 0 (typeList (sig v));
    if bool_decide (numParams (sig v) < length args)%nat && strict_args v (ppo cc) &&
       negb (flag (flags v) QCF_USES_EXTRA_ARGS) && has_extra (sig v) args
    then None else Some s.

Definition best (cand : variant -> option Z) (vs : list variant) (r : option variant) : Prop :=
  match r with
  | None => forall v, v ∈ vs -> cand v = None
  | Some v => exists s, v ∈ vs /\ cand v = Some s /\
      forall w s', w ∈ vs -> cand w = Some s' ->
        s' < s \/ (s' = s /\ (numParams (sig v) <= numParams (sig w))%nat)
  end.

(** ** The inheritance list *)
Fixpoint first_found {A} (one : option cls -> bool -> list variant -> A -> A)
    (finished : A -> bool) (l : list (option cls * bool * list variant)) (st : A) : A :=
  match l with
  | [] => st
  | (lc, ia, vs) :: l =>
      let st := one lc ia vs st in
      if finished st then st else first_found one finished l st
  end.

Lemma find_in_ilist_visited {A} one (finished : A -> bool) skip ctx lc ia l st :
  find_in_ilist one finished skip ctx lc ia l st =
  first_found one finished (visited skip ctx lc ia l) st.
Proof.
  revert lc ia st. induction l as [|node l IH]; intros lc ia st; cbn; [done|].
  destruct (getFunction ctx lc node ia) as [[[[aqf|] lc'] ia'] stop]; [|done].
  destruct (skip && bool_decide (is_Some lc') && f_abstract aqf); [apply IH|].
  cbn. destruct stop; cbn; [by destruct (finished _)|].
  destruct (finished _); [done|apply IH].
Qed.

(** ** Scores *)

(** Every parameter with a type is counted in the signature. The types [any] and
    [auto] are not counted, see [any_not_counted] in Functions.v. *)
Definition counted (sig : signature) : Prop :=
  forall T, Some T ∈ typeList sig -> hasType T = true.
Definition pushed (sig : signature) : Prop :=
  num_param_types sig =
  length (filter (fun t : option ty => opt_hasType t = true) (typeList sig)).

Lemma pushParam_pushed sig name ti d : pushed sig -> pushed (pushParam sig name ti d).
Proof.
  unfold pushed. cbn [num_param_types typeList pushParam]. intros ->.
  rewrite filter_app, length_app, filter_cons, filter_nil.
  replace (match ti with Some T => hasType T | None => false end) with (opt_hasType ti)
    by (by destruct ti).
  generalize (length (filter (fun t : option ty => opt_hasType t = true) (typeList sig))).
  intros n. destruct (opt_hasType ti) eqn:E; case_decide; cbn; try lia; congruence.
Qed.

Lemma qti_rank_le r : qti_rank r <= 4.
Proof. by destruct r. Qed.

(** The types of the list that are given. *)
Definition given (l : list (option ty)) : Z :=
  Z.of_nat (length (filter (fun t : option ty => is_Some t) l)).
Lemma given_cons t l :
  given (t :: l) = (if bool_decide (is_Some t) then 1 else 0) + given l.
Proof.
  unfold given. rewrite filter_cons. case_bool_decide; case_decide; try done; cbn; lia.
Qed.
Lemma counted_given sig : pushed sig -> counted sig ->
  Z.of_nat (num_param_types sig) = given (typeList sig).
Proof.
  unfold pushed, counted, given. intros -> H. f_equal. f_equal.
  induction (typeList sig) as [|t l IH]; [done|].
  rewrite !filter_cons, IH by (intros T HT; apply H; set_solver).
  assert (opt_hasType t = true <-> is_Some t) as Ht.
  { destruct t as [T|]; [|by split; [intros [=]|intros []]].
    split; [done|]. intros _. apply (H T). set_solver. }
  repeat case_decide; cbn; try lia; tauto.
Qed.

(** The result for one parameter, without and with what the score adds for it. *)
Lemma value_score_inv sig args pi t l s : value_score sig args pi (t :: l) = Some s ->
  exists rc rest, value_score sig args (S pi) l = Some rest /\
    s = (if bool_decide (is_Some t) && bool_decide (rc <> QTI_IGNORE)
         then qti_rank rc else 0) + rest /\
    (rc = QTI_IGNORE \/ (pi < length args)%nat /\
     rc = match t with Some T => runtimeAcceptsValue T (retrieveEntry args pi)
                  | None => QTI_WILDCARD end).
Proof.
  cbn [value_score]. intros E.
  destruct (isNothing _ && _) eqn:Ed; cbn in E.
  - destruct (value_score sig args (S pi) l) as [rest|] eqn:Er; [|done]. injection E as <-.
    exists QTI_IGNORE, rest. auto.
  - destruct (decide (_ = QTI_NOT_EQUAL)); [done|]. cbn in E.
    destruct (value_score sig args (S pi) l) as [rest|] eqn:Er; [|done]. injection E as <-.
    eexists _, rest. split; [done|]. split; [done|].
    destruct (decide (length args <= pi)%nat); [by left|right]. split; [lia|done].
Qed.

Lemma value_score_le sig args pi l s : value_score sig args pi l = Some s ->
  s <= 4 * given l.
Proof.
  revert pi s. induction l as [|t l IH]; intros pi s; [intros [= <-]; done|].
  intros (rc & rest & Er & -> & _)%value_score_inv. apply IH in Er.
  rewrite given_cons. pose proof (qti_rank_le rc).
  destruct (bool_decide (is_Some t)); cbn; [|lia]. case_bool_decide; lia.
Qed.

(** Without arguments all scores are 0. *)
Lemma value_score_nil sig pi l s : value_score sig [] pi l = Some s -> s = 0.
Proof.
  revert pi s. induction l as [|t l IH]; intros pi s; [by intros [= <-]|].
  intros (rc & rest & Er & -> & [->|[? _]])%value_score_inv; [|cbn in *; lia].
  apply IH in Er as ->. by rewrite andb_false_r.
Qed.

(** ** Scores are not negative *)
Lemma spec_runtime_nonneg sub s n e : (forall n, 0 <= qti_rank (sub n)) ->
  0 <= qti_rank (spec_runtimeAcceptsValue sub s n e).
Proof.
  intros Hs. assert (He : 0 <= qti_rank (exact_result e)) by (by destruct e).
  unfold spec_runtimeAcceptsValue. destruct s; try done.
  all: repeat (case_match; try done; try (specialize (Hs n); congruence)).
  all: try (specialize (Hs n); by destruct (sub n)).
Qed.

Lemma runtime_loop_nonneg sub l n : (forall n, 0 <= qti_rank (sub n)) ->
  0 <= qti_rank (runtime_loop sub l n).
Proof.
  intros Hs. induction l as [|a l IH]; cbn; [done|].
  pose proof (spec_runtime_nonneg sub (a_spec a) n (a_exact a) Hs).
  by destruct (spec_runtimeAcceptsValue _ _ _ _).
Qed.

Lemma runtimeAcceptsValue_nonneg T n : 0 <= qti_rank (runtimeAcceptsValue T n).
Proof.
  revert n. induction T; intros n; cbn [runtimeAcceptsValue].
  all: destruct (hasType _); [apply runtime_loop_nonneg; (done || intros; auto)|done].
Qed.

Lemma value_score_nonneg sig args pi l s : value_score sig args pi l = Some s -> 0 <= s.
Proof.
  revert pi s. induction l as [|t l IH]; intros pi s; [intros [= <-]; done|].
  intros (rc & rest & Er & -> & Hrc)%value_score_inv. apply IH in Er.
  destruct t as [T|]; cbn; [|lia]. case_bool_decide; [|lia].
  destruct Hrc as [->|[_ ->]]; [done|].
  pose proof (runtimeAcceptsValue_nonneg T (retrieveEntry args pi)). lia.
Qed.

(** What a score says of the arguments: each parameter has a default value for an
    argument that is not given, or accepts its argument. *)
Definition accepts_args (sig : signature) (args : list value) : Prop :=
  forall i T, typeList sig !! i = Some (Some T) ->
    (isNothing (retrieveEntry args i) = true /\ hasDefaultArg sig i = true) \/
    runtimeAcceptsValue T (retrieveEntry args i) <> QTI_NOT_EQUAL.

Lemma value_score_accepts sig args pi l s : value_score sig args pi l = Some s ->
  forall i T, l !! i = Some (Some T) ->
    (isNothing (retrieveEntry args (pi + i)) = true /\ hasDefaultArg sig (pi + i) = true) \/
    runtimeAcceptsValue T (retrieveEntry args (pi + i)) <> QTI_NOT_EQUAL.
Proof.
  revert pi s. induction l as [|t l IH]; intros pi s; [done|].
  intros E [|i] T HT; cbn in HT.
  - injection HT as ->. rewrite Nat.add_0_r. cbn in E.
    destruct (isNothing _) eqn:En, (hasDefaultArg _ _) eqn:Ed; cbn in E; auto.
    all: right; intros Hn; rewrite Hn in E; by rewrite decide_True in E.
  - apply value_score_inv in E as (rc & rest & E & _).
    specialize (IH _ _ E i T HT). by rewrite Nat.add_succ_r.
Qed.

Lemma candidate_accepts cc only_user lc ia args v s :
  candidate cc only_user lc ia args v = Some s -> accepts_args (sig v) args.
Proof.
  unfold candidate. destruct (skipped _ _ _ _ _); [done|].
  destruct (value_score _ _ _ _) as [s'|] eqn:E; [|done]. intros _ i T HT.
  exact (value_score_accepts _ _ _ _ _ E i T HT).
Qed.

(** ** The loop over the variants of a function *)
Section Vlist.
Context (cc : call_context) (only_user : bool) (lc : option cls) (ia : bool)
  (args : list value).
Local Abbreviation cand := (candidate cc only_user lc ia args).

(** What holds of the state after some variants; [exact] as long as the search goes
    on. *)
Definition state_best (vs : list variant) (st : search) : Prop :=
  best cand vs (found st) /\
  (found st = None -> score st = -1 /\ score_len st = -1).
Definition exact (st : search) : Prop :=
  forall v, found st = Some v ->
    cand v = Some (score st) /\ score_len st = Z.of_nat (numParams (sig v)).

Lemma candidate_nonneg v s : cand v = Some s -> 0 <= s.
Proof.
  unfold candidate. destruct (skipped _ _ _ _ _); [done|].
  destruct (value_score _ _ _ _) as [s'|] eqn:E; [|done]. cbn.
  destruct (_ && has_extra _ _); [done|]. intros [= <-]. by apply value_score_nonneg in E.
Qed.
Lemma candidate_le v s : pushed (sig v) -> counted (sig v) -> cand v = Some s ->
  s <= Z.of_nat (num_param_types (sig v)) * qti_rank QTI_IDENT.
Proof.
  intros Hp Hc. unfold candidate. destruct (skipped _ _ _ _ _); [done|].
  destruct (value_score _ _ _ _) as [s'|] eqn:E; [|done]. cbn [mbind option_bind].
  destruct (_ && has_extra _ _); [done|]. intros [= <-]. apply value_score_le in E.
  rewrite counted_given by done. change (qti_rank QTI_IDENT) with 4. lia.
Qed.

Lemma best_snoc_none vs v r : best cand vs r -> cand v = None -> best cand (vs ++ [v]) r.
Proof.
  intros Hb Hv. destruct r as [w|]; cbn in *.
  - destruct Hb as (s & Hw & Hs & Hb). exists s. split; [set_solver|]. split; [done|].
    intros w' s' [Hin| ->%list_elem_of_singleton]%elem_of_app; [by apply Hb|congruence].
  - intros w [Hin| ->%list_elem_of_singleton]%elem_of_app; auto.
Qed.
Lemma best_snoc_worse vs v w s s' : best cand vs (Some w) ->
  cand w = Some s -> cand v = Some s' ->
  s' < s \/ (s' = s /\ (numParams (sig w) <= numParams (sig v))%nat) ->
  best cand (vs ++ [v]) (Some w).
Proof.
  intros (s0 & Hw & Hs & Hb) Hs1 Hv Hle. rewrite Hs in Hs1. injection Hs1 as ->.
  exists s. split; [set_solver|]. split; [done|].
  intros w' s1 [Hin| ->%list_elem_of_singleton]%elem_of_app E; [by apply Hb|].
  rewrite Hv in E. by injection E as <-.
Qed.
Lemma best_snoc_take vs v s r : best cand vs r -> cand v = Some s ->
  (forall w s', r = Some w -> cand w = Some s' ->
     s' < s \/ (s' = s /\ (numParams (sig v) <= numParams (sig w))%nat)) ->
  best cand (vs ++ [v]) (Some v).
Proof.
  intros Hb Hv Hr. exists s. split; [set_solver|]. split; [done|].
  intros w' s1 [Hin| ->%list_elem_of_singleton]%elem_of_app E; [|right; split; [congruence|done]].
  destruct r as [w|]; cbn in Hb.
  - destruct Hb as (s0 & Hw & Hs & Hb). specialize (Hr w s0 eq_refl Hs).
    destruct (Hb w' s1 Hin E); lia.
  - rewrite Hb in E by done. done.
Qed.

(** One variant that is not the end of the search. *)
Lemma state_best_none vs st n v : state_best vs st -> cand v = None ->
  state_best (vs ++ [v]) (Search (score st) (score_len st) (found st) n).
Proof. intros [Hb Hn] Hv. split; [by apply best_snoc_none|done]. Qed.
Lemma state_best_worse vs st n v s : state_best vs st -> exact st -> cand v = Some s ->
  ~ (score st < s \/ (s = score st /\
       (score_len st = -1 \/ Z.of_nat (numParams (sig v)) < score_len st))) ->
  state_best (vs ++ [v]) (Search (score st) (score_len st) (found st) n).
Proof.
  intros [Hb Hn] He Hv Hw. pose proof (candidate_nonneg _ _ Hv).
  destruct (found st) as [w|] eqn:Ef; [|by destruct (Hn eq_refl); lia].
  destruct (He w Ef) as [Hs Hl]. split; [|done].
  apply (best_snoc_worse vs v w (score st) s); auto. lia.
Qed.
Lemma state_best_take vs st n v s : state_best vs st -> exact st -> cand v = Some s ->
  score st < s \/ (s = score st /\
     (score_len st = -1 \/ Z.of_nat (numParams (sig v)) < score_len st)) ->
  let st' := Search s (Z.of_nat (numParams (sig v))) (Some v) n in
  state_best (vs ++ [v]) st' /\ exact st'.
Proof.
  intros [Hb Hn] He Hv Hw. split; [split; [|done]|by intros w [= <-]].
  cbn. apply (best_snoc_take vs v s (found st)); auto.
  intros w s' Ef Hs. destruct (He w Ef) as [Hs' Hl]. rewrite Hs in Hs'.
  injection Hs' as ->. lia.
Qed.
Lemma exact_cnt st n : exact st -> exact (Search (score st) (score_len st) (found st) n).
Proof. done. Qed.

(** A call without arguments ends the search at a variant without parameters. *)
Lemma best_perfect vs v l r : args = [] -> numParams (sig v) = 0%nat ->
  skipped cc only_user lc ia v = false -> best cand vs r ->
  best cand (vs ++ v :: l) (Some v).
Proof.
  intros -> Hp Hk _. exists 0. split; [set_solver|]. split.
  - unfold candidate. rewrite Hk. unfold numParams in Hp.
    by rewrite (nil_length_inv _ Hp).
  - intros w s' _. unfold candidate. destruct (skipped _ _ _ _ w); [done|].
    destruct (value_score _ _ _ _) as [s0|] eqn:E; [|done].
    apply value_score_nil in E as ->. cbn. destruct (_ && has_extra _ _); [done|].
    intros [= <-]. right. split; [done|lia].
Qed.

Theorem find_in_vlist_best vs l st :
  (forall v, v ∈ l -> pushed (sig v) /\ counted (sig v)) ->
  state_best vs st -> exact st ->
  state_best (vs ++ l) (find_in_vlist cc only_user lc ia args l st).
Proof.
  revert vs st. induction l as [|v l IH]; intros vs st Hl Hb He; cbn [find_in_vlist].
  { by rewrite app_nil_r. }
  assert (forall v, v ∈ l -> pushed (sig v) /\ counted (sig v)) as Hl'
    by (intros; apply Hl; set_solver).
  destruct (Hl v) as [Hp Hc]; [set_solver|].
  assert (forall st', state_best (vs ++ [v]) st' -> exact st' ->
    state_best (vs ++ v :: l) (find_in_vlist cc only_user lc ia args l st')) as Hnext.
  { intros st' H1 H2. rewrite (cons_middle v vs l), app_assoc. by apply IH. }
  pose proof (eq_refl (cand v)) as Ev. unfold candidate at 2 in Ev.
  destruct (skipped cc only_user lc ia v) eqn:Ek; cbn [mbind option_bind] in Ev.
  { apply Hnext; [|done]. destruct st as [a b f n].
    by apply (state_best_none vs (Search a b f n) n). }
  cbn [score score_len found cnt].
  destruct (bool_decide (args = []) && _) eqn:Ep.
  { apply andb_true_iff in Ep as [Ea%bool_decide_eq_true En%bool_decide_eq_true].
    split; [|done]. cbn. by apply (best_perfect vs v l (found st)); [..|apply Hb]. }
  destruct (bool_decide (_ * _ < score st)) eqn:Hs.
  { apply bool_decide_eq_true in Hs. assert (cand v = None \/ exists s, cand v = Some s /\ s < score st) as [Hn|(s & Es & Hlt)].
    { destruct (cand v) as [s|] eqn:E; [right|by left]. exists s. split; [done|].
      change (qti_rank QTI_IDENT) with 4 in Hs.
      apply candidate_le in E; [change (qti_rank QTI_IDENT) with 4 in E; lia|done..]. }
    - apply Hnext; [by apply state_best_none|done].
    - apply Hnext; [|done]. apply (state_best_worse _ _ _ _ s); auto. lia. }
  destruct (value_score (sig v) args 0 (typeList (sig v))) as [s|] eqn:Es;
    cbn in Ev; [|apply Hnext; [by apply state_best_none|done]].
  destruct (_ && has_extra _ _); [apply Hnext; [by apply state_best_none|done]|].
  destruct (bool_decide (score st < s) || _) eqn:Et.
  - assert (score st < s \/ (s = score st /\
      (score_len st = -1 \/ Z.of_nat (numParams (sig v)) < score_len st))) as Ht.
    { repeat case_bool_decide; cbn in Et; try done; auto. }
    by apply Hnext; eapply state_best_take.
  - apply Hnext; [|done]. apply (state_best_worse _ _ _ _ s); auto.
    repeat case_bool_decide; cbn in Et; try done; tauto.
Qed.
End Vlist.

(** ** The search *)

(** The variants of all functions have been declared with pushParam. *)
Definition well_counted (l : ilist) : Prop :=
  forall node v, node ∈ l -> v ∈ vlist node.1 -> pushed (sig v) /\ counted (sig v).

Lemma getFunction_node ctx lc node ia f lc' ia' stop :
  getFunction ctx lc node ia = (Some f, lc', ia', stop) -> f = node.1.
Proof.
  unfold getFunction. destruct (_ || _); [|done].
  destruct (fclass node.1); intros E; by injection E.
Qed.

Lemma visited_in skip ctx lc ia l f : f ∈ visited skip ctx lc ia l ->
  exists node, node ∈ l /\ f.2 = vlist node.1.
Proof.
  revert lc ia. induction l as [|node l IH]; intros lc ia; cbn; [set_solver|].
  destruct (getFunction ctx lc node ia) as [[[[aqf|] lc'] ia'] stop] eqn:E; [|set_solver].
  apply getFunction_node in E as ->.
  assert (f ∈ visited skip ctx lc' ia' l -> exists n, n ∈ node :: l /\ f.2 = vlist n.1) as H.
  { intros (n & Hn & ->)%IH. exists n. set_solver. }
  destruct (skip && _ && _); [done|].
  intros [->|Hin]%elem_of_cons; [exists node; set_solver|].
  destruct stop; [set_solver|auto].
Qed.

(** What is selected: the first function that has variants which can be called, and a
    best one of them. *)
Definition selected (cc : call_context) (only_user : bool) (args : list value)
    (fs : list (option cls * bool * list variant)) (r : option variant) : Prop :=
  match r with
  | None => forall f v, f ∈ fs -> v ∈ f.2 -> candidate cc only_user f.1.1 f.1.2 args v = None
  | Some v => exists before lc ia vs after, fs = before ++ (lc, ia, vs) :: after /\
      (forall f v, f ∈ before -> v ∈ f.2 -> candidate cc only_user f.1.1 f.1.2 args v = None) /\
      best (candidate cc only_user lc ia args) vs (Some v)
  end.

Lemma first_found_selected cc only_user args fs st :
  (forall f v, f ∈ fs -> v ∈ f.2 -> pushed (sig v) /\ counted (sig v)) ->
  found st = None -> score st = -1 -> score_len st = -1 ->
  selected cc only_user args fs (found (first_found
    (fun lc ia vs st => find_in_vlist cc only_user lc ia args vs st) search_done fs st)).
Proof.
  revert st. induction fs as [|[[lc ia] vs] fs IH]; intros st Hw Hf Hs Hl; cbn.
  { rewrite Hf. cbn. set_solver. }
  assert (state_best cc only_user lc ia args ([] ++ vs)
    (find_in_vlist cc only_user lc ia args vs st)) as [Hb Hn].
  { apply find_in_vlist_best; [intros v Hv; apply (Hw (lc, ia, vs)); set_solver| |].
    - split; [rewrite Hf; cbn; set_solver|done].
    - intros w. by rewrite Hf. }
  destruct (find_in_vlist cc only_user lc ia args vs st) as [sc sl [v|] n] eqn:E;
    cbn [app found score score_len] in *.
  - change (search_done (Search sc sl (Some v) n)) with true. cbn. exists [], lc, ia, vs, fs. split; [done|].
    split; [set_solver|done].
  - change (search_done (Search sc sl None n)) with false. destruct (Hn eq_refl) as [-> ->].
    assert (selected cc only_user args fs (found (first_found
      (fun lc ia vs st => find_in_vlist cc only_user lc ia args vs st) search_done fs
      (Search (-1) (-1) None n)))) as H by (apply IH; auto; intros; eapply Hw; set_solver).
    cbn iota. destruct (found (first_found _ _ _ _)) as [v|]; cbn in *.
    + destruct H as (before & lc' & ia' & vs' & after & -> & H1 & H2).
      exists ((lc, ia, vs) :: before), lc', ia', vs', after. split; [done|].
      split; [|done]. intros f w [->|Hf']%elem_of_cons Hw'; [by apply Hb|by apply (H1 f)].
    + intros f w [->|Hf']%elem_of_cons Hw'; [by apply Hb|by apply (H f)].
Qed.

Theorem runtimeFindVariant_selected cc l args only_user : well_counted l ->
  exists r, selected cc only_user args (visited true (class_ctx cc) None false l) r /\
    runtimeFindVariant cc l args only_user =
      match r with
      | None => if only_user then FoundNothing else FindError "RUNTIME-OVERLOAD-ERROR"
      | Some v =>
          if has_program cc && forbidden v (getParseOptions v (ppo cc)) then
            (if only_user then FoundNothing else FindError "INVALID-FUNCTION-ACCESS")
          else Found v
      end.
Proof.
  intros Hw. unfold runtimeFindVariant. rewrite find_in_ilist_visited.
  eexists. split; [|reflexivity]. apply first_found_selected; [|done..].
  intros f v Hin Hv. apply visited_in in Hin as (node & Hn & E). rewrite E in Hv.
  by apply (Hw node).
Qed.
End Best.
