(* ===== verification/CallEval.v ===== *)
(** * Calls

    What happens between the search for a variant and its code (lib/Function.cpp):
    default arguments, the acceptance of the arguments by the types of the parameters,
    excess arguments, the local variables of a function that is written in the
    language, and the check of its return value (lib/ReturnStatement.cpp). *)
From S2P Require Import Prelude TypeInfo TypeMatch TypeAccept ClassAccess TypedList Variants.

Section Calls.
Context {TE : TypeEnv} {CV : Conversions}.

(** ** Arguments *)

(** What is assigned to an argument, by acceptInputParam: the arguments, the sink, and
    success. *)
Definition accept_entry (sig : signature) (i : nat) (T : option ty) (tmp : arg_holder)
    (n : value) (xs : sink) : arg_holder * sink * bool :=
  let '(n, xs) := acceptInputParam (opt_type T) (Z.of_nat i) (names sig !! i) n xs in
  (set_entry tmp i n, xs, negb (failed xs)).

(** The loop of CodeEvaluationHelper::processDefaultArgs, for one parameter: with an
    argument, or with a default value. *)
Definition process_given (sig : signature) (check_args is_copy : bool) (i : nat)
    (T : option ty) (tmp : arg_holder) (xs : sink) : arg_holder * sink * bool :=
  let n := retrieveEntry (entries tmp) i in
  if is_copy && bool_decide (i = 0%nat) && isNothing n then (tmp, xs, true)
  else if bool_decide (T = None) then (tmp, xs, true)
  else if negb (opt_hasType T) ||
          (bool_decide (length (entries tmp) < i)%nat &&
           parseAcceptsReturns (opt_type T) NT_NOTHING) then (tmp, xs, true)
  else if check_args || mayRequireFilter T n
  then accept_entry sig i T tmp (retrieveEntry (editIntern tmp) i) xs
  else (tmp, xs, true).
Definition process_default (sig : signature) (i : nat) (d : value + string)
    (tmp : arg_holder) (xs : sink) : arg_holder * sink * bool :=
  match d with
  | inr e => (set_entry tmp i VNothing, raise (CallError e) xs, false)
  | inl p =>
      if failed xs then (set_entry tmp i p, xs, false)
      else
        let T := getParamTypeInfo sig i in
        if mayRequireFilter T p then accept_entry sig i T tmp p xs
        else (set_entry tmp i p, xs, true)
  end.
Definition process_arg (sig : signature) (check_args is_copy : bool) (i : nat)
    (tmp : arg_holder) (xs : sink) : arg_holder * sink * bool :=
  match (d ← defaultArgList sig !! i; d), isNothing (retrieveEntry (entries tmp) i) with
  | Some d, true => process_default sig i d tmp xs
  | _, _ =>
      match typeList sig !! i with
      | None => (tmp, xs, true)
      | Some T => process_given sig check_args is_copy i T tmp xs
      end
  end.
Fixpoint process_args (sig : signature) (check_args is_copy : bool) (k i : nat)
    (tmp : arg_holder) (xs : sink) : arg_holder * sink * bool :=
  match k with
  | O => (tmp, xs, true)
  | S k =>
      let '(tmp, xs, ok) := process_arg sig check_args is_copy i tmp xs in
      if ok then process_args sig check_args is_copy k (S i) tmp xs else (tmp, xs, false)
  end.

(** CodeEvaluationHelper::processDefaultArgs *)
Definition processDefaultArgs (ppo : Z) (v : variant) (check_args is_copy : bool)
    (tmp : arg_holder) (xs : sink) : arg_holder * sink * bool :=
  let sig := sig v in
  let '(tmp, xs, ok) := process_args sig check_args is_copy
    (Nat.max (length (defaultArgList sig)) (length (typeList sig))) 0 tmp xs in
  if negb ok then (tmp, xs, false)
  else
    let po := match user v with Some u => pgm_options u | None => ppo end in
    if bool_decide (numParams sig < length (entries tmp))%nat &&
       flag po (Z.lor PO_REQUIRE_TYPES PO_STRICT_ARGS) &&
       negb (flag (flags v) QCF_USES_EXTRA_ARGS) && has_extra sig (entries tmp)
    then (tmp, raise (CallError "CALL-WITH-TYPE-ERRORS") xs, false)
    else (tmp, xs, true).

(** The first part of CodeEvaluationHelper::init: the search for the variant, if the
    parser has not found it, and the check of its access. [runtime_class] is
    runtime_get_class(). *)
Definition init_variant (cc : call_context) (qc cctx runtime_class : option cls) (l : ilist)
    (args : list value) : variant + string :=
  let ctx := c ← qc; match cctx with Some x => Some x | None => runtime_class end in
  let ctx := match qc, ctx with
             | Some c, Some x => if runtimeCheckPrivateClassAccess c (Some x)
                                 then Some x else None
             | _, _ => None
             end in
  match runtimeFindVariant (Context_ ctx (ppo cc) (has_program cc)) l args false with
  | Found v =>
      let hidden :=
        bool_decide (is_Some qc) &&
        ((bool_decide (access_rank Public < access_rank (access v)) &&
          bool_decide (ctx = None)) ||
         (bool_decide (access v = Internal) &&
          match vclass v, qc with
          | Some c, Some q => negb (ClassAccess.equal c q)
          | _, _ => false
          end)) in
      if hidden then inr "METHOD-IS-PRIVATE"%string else inl v
  | FoundNothing => inr ""%string
  | FindError e => inr e
  end.

(** CodeEvaluationHelper::init *)
Definition init (cc : call_context) (qc cctx runtime_class : option cls) (l : ilist)
    (v : option variant) (is_copy : bool) (tmp : arg_holder) (xs : sink)
    : option variant * arg_holder * sink * bool :=
  match (match v with
         | Some v => inl v
         | None => init_variant cc qc cctx runtime_class l (entries tmp)
         end) with
  | inr e => (None, tmp, raise (CallError e) xs, false)
  | inl v =>
      let '(tmp, xs, ok) := processDefaultArgs (ppo cc) v true is_copy tmp xs in
      (Some v, tmp, xs, ok)
  end.

(** ** User code *)

(** UserVariantBase::setupCall: the values of the parameters, and argv. *)
Definition setupCall (sig : signature) (tmp : arg_holder) : list value * option value :=
  let np := numParams sig in
  (map (fun i => let n := retrieveEntry (entries tmp) i in
                 if in_use tmp then refSelf n else n) (seq 0 np),
   if bool_decide (np < length (entries tmp))%nat then
     Some (VList false (Some autoListTypeInfo) true
       ((fun n => if in_use tmp then refSelf n else n) <$> drop np (entries tmp)))
   else None).

(** What the statements of a function do: they return a value, or end without. *)
Inductive outcome :=
| Returned (v : value)
| Ended.

(** ReturnStatement::execImpl, for a value without an exception. *)
Definition return_value (rt : option ty) (v : value) (xs : sink) : value * sink :=
  acceptAssignment (opt_type rt) "<return statement>" v xs.

(** UserVariantBase::evalIntern; [body] are the statements, with the gate of a function
    that is synchronized. *)
Definition evalIntern (rt : option ty)
    (body : list value -> option value -> sink -> outcome * sink)
    (locals : list value) (argv : option value) (xs : sink) : value * sink :=
  let '(r, xs) := body locals argv xs in
  let '(val, xs) := match r with
                    | Returned v => if failed xs then (VNothing, xs) else return_value rt v xs
                    | Ended => (VNothing, xs)
                    end in
  if negb (failed xs) && isNothing val
  then
    let '(val, xs) := acceptAssignment (opt_type rt) "<block return>" val xs in
    (val, if failed xs then appendLastDescription block_missing_return xs else xs)
  else (val, xs).

(** A call of a user function: init, setupCall, evalIntern. *)
Definition call_user (cc : call_context) (l : ilist) (v : option variant)
    (body : variant -> list value -> option value -> sink -> outcome * sink)
    (tmp : arg_holder) (xs : sink) : value * sink :=
  match init cc None None None l v false tmp xs with
  | (Some v, tmp, xs, true) =>
      let '(locals, argv) := setupCall (sig v) tmp in
      evalIntern (returnTypeInfo (sig v)) (body v) locals argv xs
  | (_, _, xs, _) => (VNothing, xs)
  end.
End Calls.
