(* ===== verification/CallSpec.v ===== *)
(** * Arguments and results have their types

    What processDefaultArgs leaves in the list of arguments, what setupCall puts into
    the local variables, and what evalIntern gives to the caller. *)
From S2P Require Import Prelude TypeInfo TypeMatch TypeAccept TypeSpec TypeSound.
From S2P Require Import TypeComplete TypeParse ClassAccess TypedList HashDecl.
From S2P Require Import Variants VariantSpec CallEval.

(** ** Lists of arguments *)

Lemma retrieve_refSelf l j : retrieveEntry (refSelf <$> l) j = refSelf (retrieveEntry l j).
Proof. unfold retrieveEntry. rewrite list_lookup_fmap. by destruct (l !! j). Qed.
Lemma retrieve_edit h j :
  retrieveEntry (editIntern h) j =
  (if in_use h then refSelf (retrieveEntry (entries h) j) else retrieveEntry (entries h) j).
Proof. unfold editIntern. destruct (in_use h); [apply retrieve_refSelf|done]. Qed.
Lemma retrieve_nothing l k j : retrieveEntry (l ++ replicate k VNothing) j = retrieveEntry l j.
Proof.
  unfold retrieveEntry. destruct (decide (j < length l)%nat).
  - by rewrite lookup_app_l.
  - rewrite lookup_app_r, (lookup_ge_None_2 l) by lia. cbn.
    destruct (replicate k VNothing !! (j - length l)%nat) as [v|] eqn:E; [|done].
    by apply lookup_replicate in E as [-> _].
Qed.
Lemma retrieve_set h i n j :
  retrieveEntry (entries (set_entry h i n)) j =
  if decide (i = j) then n else retrieveEntry (editIntern h) j.
Proof.
  unfold set_entry. cbn [entries]. case_decide as E.
  - subst j. unfold retrieveEntry. rewrite list_lookup_insert_eq; [done|].
    rewrite length_app, length_replicate. lia.
  - unfold retrieveEntry. rewrite list_lookup_insert_ne by done.
    apply (retrieve_nothing (editIntern h)).
Qed.

Section CallSpec.
Context {TE : TypeEnv} {TL : TypeLaws} {CV : Conversions}.

Definition retrieve_wf (l : list value) : Prop :=
  forall j, wf_value (retrieveEntry l j) = true.

Lemma wf_edit h : retrieve_wf (entries h) -> retrieve_wf (editIntern h).
Proof.
  intros H j. rewrite retrieve_edit. destruct (in_use h); [by rewrite wf_refSelf|done].
Qed.
Lemma wf_set h i n : retrieve_wf (entries h) -> wf_value n = true ->
  retrieve_wf (entries (set_entry h i n)).
Proof.
  intros H Hn j. rewrite retrieve_set. case_decide; [done|by apply wf_edit].
Qed.

(** ** Parameters *)

(** A type that a value can be declared with. *)
Definition usable (T : option ty) : Prop :=
  wf_type (opt_type T) = true /\ declarable (opt_type T) = true.

(** The parameters of a signature. NOTHING, that a parameter keeps without a check if
    no argument is near it, is a value of its type if the type takes NOTHING; and a
    default value that is not checked is one, too. *)
Record params_ok (sig : signature) : Prop := {
  params_usable : forall i, usable (getParamTypeInfo sig i);
  params_nothing : forall i T, getParamTypeInfo sig i = Some T ->
    parseAcceptsReturns T NT_NOTHING = true -> in_type T VNothing = true;
  params_default : forall i p, defaultArgList sig !! i = Some (Some (inl p)) ->
    wf_value p = true /\
    (mayRequireFilter (getParamTypeInfo sig i) p = false ->
     in_type (opt_type (getParamTypeInfo sig i)) p = true)
}.

Definition typed_at (sig : signature) (l : list value) (i : nat) : Prop :=
  in_type (opt_type (getParamTypeInfo sig i)) (retrieveEntry l i) = true.
Definition typed_to (sig : signature) (l : list value) (i : nat) : Prop :=
  retrieve_wf l /\ forall j, (j < i)%nat -> typed_at sig l j.

Lemma typed_set sig h i n : typed_to sig (entries h) i -> wf_value n = true ->
  in_type (opt_type (getParamTypeInfo sig i)) n = true ->
  typed_to sig (entries (set_entry h i n)) (S i).
Proof.
  intros [Hw Ht] Hn Hi. split; [by apply wf_set|]. intros j Hj. unfold typed_at.
  rewrite retrieve_set. case_decide as E; [by subst j|].
  rewrite retrieve_edit. assert (typed_at sig (entries h) j) by (apply Ht; lia).
  destruct (in_use h); [by rewrite in_type_refSelf|done].
Qed.
Lemma typed_keep sig h i : typed_to sig (entries h) i -> typed_at sig (entries h) i ->
  typed_to sig (entries h) (S i).
Proof.
  intros [Hw Ht] Hi. split; [done|]. intros j Hj.
  destruct (decide (j = i)) as [->|]; [done|]. apply Ht. lia.
Qed.

Lemma accept_param T i nm n v : usable T -> wf_value n = true ->
  acceptInputParam (opt_type T) i nm n [] = (v, []) ->
  in_type (opt_type T) v = true /\ wf_value v = true.
Proof.
  intros [Hw Hd] Hn E.
  pose proof (acceptAny_sound (opt_type T) (Arg "parameter" false i nm) n Hw Hd Hn) as H.
  unfold acceptInputParam in E. rewrite E in H. by apply H.
Qed.

Section Param.
Context (sig : signature) (i : nat) (tmp : arg_holder).
Hypothesis Hok : params_ok sig.
Hypothesis Ht : typed_to sig (entries tmp) i.

(** Success means that there is no exception and that the argument has the type of the
    parameter. *)
Definition typed_step (r : arg_holder * sink * bool) : Prop :=
  r.2 = true -> r.1.2 = [] /\ typed_to sig (entries r.1.1) (S i).

Lemma accept_entry_typed n : wf_value n = true ->
  typed_step (accept_entry sig i (getParamTypeInfo sig i) tmp n []).
Proof.
  intros Hwn. unfold accept_entry.
  destruct (acceptInputParam _ _ _ _ _) as [v xs] eqn:E. unfold typed_step. cbn.
  intros Hf%negb_true_iff%bool_decide_eq_false. destruct xs; [|by destruct Hf].
  split; [done|]. apply accept_param in E as [Hi Hw]; [|apply Hok|done]. by apply typed_set.
Qed.

Lemma keep_typed : typed_at sig (entries tmp) i -> typed_step (tmp, [], true).
Proof. intros Hi _. split; [done|]. by apply typed_keep. Qed.

Lemma process_given_typed :
  typed_step (process_given sig true false i (getParamTypeInfo sig i) tmp []).
Proof.
  unfold process_given. cbn [andb orb].
  case_bool_decide as E0.
  { apply keep_typed. unfold typed_at. rewrite E0. by apply in_type_no_type. }
  destruct (opt_hasType _) eqn:Eh; cbn [negb orb].
  - destruct (bool_decide _ && _) eqn:Es.
    + apply keep_typed. apply andb_true_iff in Es as [Hl%bool_decide_eq_true Hp].
      destruct (getParamTypeInfo sig i) as [U|] eqn:ET; [|done].
      unfold typed_at. rewrite ET. unfold retrieveEntry.
      rewrite lookup_ge_None_2 by lia. by apply (params_nothing sig Hok i).
    + apply accept_entry_typed, wf_edit, Ht.
  - by apply keep_typed, in_type_no_type.
Qed.

Lemma process_default_typed d : defaultArgList sig !! i = Some (Some d) ->
  typed_step (process_default sig i d tmp []).
Proof.
  intros Ed. destruct d as [p|e]; cbn [process_default]; [|done].
  destruct (params_default sig Hok i p Ed) as [Hp1 Hp2].
  change (failed []) with false. cbn iota.
  destruct (mayRequireFilter _ p) eqn:Em; [by apply accept_entry_typed|].
  intros _. split; [done|]. apply typed_set; auto.
Qed.

Lemma process_arg_typed : typed_step (process_arg sig true false i tmp []).
Proof.
  assert (typed_step match typeList sig !! i with
    | None => (tmp, [], true)
    | Some T => process_given sig true false i T tmp []
    end) as Hgiven.
  { pose proof process_given_typed as H. unfold getParamTypeInfo in H.
    destruct (typeList sig !! i) as [T|] eqn:E; [exact H|].
    apply keep_typed. unfold typed_at, getParamTypeInfo. rewrite E. by apply in_type_no_type. }
  unfold process_arg.
  destruct (defaultArgList sig !! i) as [[d|]|] eqn:Ed; cbn; try done.
  destruct (isNothing _); [by apply process_default_typed|done].
Qed.
End Param.

Lemma process_args_typed sig k i tmp : params_ok sig -> typed_to sig (entries tmp) i ->
  let '(tmp', xs, ok) := process_args sig true false k i tmp [] in
  ok = true -> xs = [] /\ typed_to sig (entries tmp') (k + i).
Proof.
  intros Hok. revert i tmp. induction k as [|k IH]; intros i tmp Ht; cbn; [done|].
  pose proof (process_arg_typed sig i tmp Hok Ht) as H.
  destruct (process_arg sig true false i tmp []) as [[tmp1 xs1] [|]]; [|done].
  destruct (H eq_refl) as [Hx H1]. cbn in Hx, H1. subst xs1.
  specialize (IH (S i) tmp1 H1). by rewrite Nat.add_succ_r in IH.
Qed.

(** All arguments, and the excess arguments. *)
Lemma processDefaultArgs_typed ppo v tmp tmp' xs : params_ok (sig v) ->
  retrieve_wf (entries tmp) ->
  processDefaultArgs ppo v true false tmp [] = (tmp', xs, true) ->
  xs = [] /\ typed_to (sig v) (entries tmp') (numParams (sig v)).
Proof.
  intros Hok Hw. unfold processDefaultArgs.
  set (k := Nat.max _ _).
  pose proof (process_args_typed (sig v) k 0 tmp Hok) as H.
  destruct (process_args _ _ _ _ _ _ _) as [[tmp1 xs1] [|]]; cbn [negb]; [|done].
  destruct H as [-> [Hw1 H]]; [|done|]. { split; [done|lia]. }
  case_match; [done|]. intros [= <- <-]. split; [done|]. split; [done|].
  intros j Hj. apply H. unfold k, numParams in *. lia.
Qed.

(** ** User code *)

(** Local variables that have the types of the parameters. *)
Definition typed_locals (sig : signature) (locals : list value) : Prop :=
  Forall2 (fun T v => in_type (opt_type T) v = true /\ wf_value v = true) (typeList sig) locals.

Lemma setupCall_typed sig tmp : typed_to sig (entries tmp) (numParams sig) ->
  typed_locals sig (setupCall sig tmp).1.
Proof.
  intros [Hw Ht]. unfold typed_locals. cbn.
  apply Forall2_same_length_lookup. split; [by rewrite length_map, length_seq|].
  intros i T v HT Hv. apply list_lookup_fmap_Some in Hv as (j & -> & [-> Hj]%lookup_seq).
  cbn [Nat.add]. specialize (Hw i). specialize (Ht i Hj). unfold typed_at, getParamTypeInfo in Ht.
  rewrite HT in Ht. cbn in Ht. destruct (in_use tmp); [|done].
  by rewrite in_type_refSelf, wf_refSelf.
Qed.

Lemma evalIntern_typed rt body locals argv val : usable rt ->
  (forall v xs, body locals argv [] = (Returned v, xs) -> wf_value v = true) ->
  evalIntern rt body locals argv [] = (val, []) ->
  in_type (opt_type rt) val = true /\ wf_value val = true.
Proof.
  intros [Hw Hd] Hb. unfold evalIntern.
  assert (Hret : forall t n v, wf_value n = true ->
    acceptAssignment (opt_type rt) t n [] = (v, []) ->
    in_type (opt_type rt) v = true /\ wf_value v = true).
  { intros t n v Hn E.
    pose proof (acceptAny_sound (opt_type rt) (Arg "lvalue" false (-1) (Some t)) n Hw Hd Hn) as H.
    unfold acceptAssignment in E. rewrite E in H. by apply H. }
  assert (Hend : forall n, wf_value n = true ->
    (let '(v, xs) := acceptAssignment (opt_type rt) "<block return>" n [] in
     (v, if failed xs then appendLastDescription block_missing_return xs else xs)) = (val, []) ->
    in_type (opt_type rt) val = true /\ wf_value val = true).
  { intros n Hn. destruct (acceptAssignment _ _ n []) as [v xs] eqn:E. intros [= -> Hx].
    apply (Hret "<block return>"%string n val Hn). rewrite E. f_equal. by destruct xs. }
  destruct (body locals argv []) as [[v|] xs] eqn:E.
  - destruct (failed xs) eqn:Ef; [rewrite Ef; intros [= _ ->]; done|].
    apply bool_decide_eq_false in Ef. destruct xs; [|by destruct Ef].
    unfold return_value. destruct (acceptAssignment _ _ v _) as [w xs] eqn:Ew.
    destruct (failed xs) eqn:Ef'; cbn [negb andb].
    { intros [= _ ->]. done. }
    apply bool_decide_eq_false in Ef'. destruct xs; [|by destruct Ef'].
    apply Hret in Ew as [Hi Hv]; [|by eapply Hb].
    destruct (isNothing w); [by apply Hend|]. by intros [= <-].
  - destruct (failed xs) eqn:Ef; cbn [negb andb]; [intros [= _ ->]; done|].
    apply bool_decide_eq_false in Ef. destruct xs; [|by destruct Ef].
    by apply Hend.
Qed.

(** ** The whole call *)

(** The variant of a call is the given one, or one of the functions that are searched. *)
Definition variant_of (l : ilist) (v : variant) : Prop :=
  exists node, node ∈ l /\ v ∈ vlist node.1.

Lemma find_in_vlist_in cc only_user lc ia args l st v :
  found (find_in_vlist cc only_user lc ia args l st) = Some v ->
  found st = Some v \/ v ∈ l.
Proof.
  revert st. induction l as [|w l IH]; intros st; cbn [find_in_vlist]; [by left|].
  assert (v ∈ l -> v ∈ w :: l) by set_solver.
  repeat case_match; cbn [found].
  all: first [intros [= <-]; right; by left
    |intros [Hs|Hs]%IH; cbn [found] in Hs; simplify_eq; auto; right; by left].
Qed.

Lemma find_in_ilist_in cc only_user skip ctx lc ia args l st v :
  found (find_in_ilist (fun lc ia vs st => find_in_vlist cc only_user lc ia args vs st)
           search_done skip ctx lc ia l st) = Some v ->
  found st = Some v \/ variant_of l v.
Proof.
  revert lc ia st. induction l as [|node l IH]; intros lc ia st; cbn [find_in_ilist]; [by left|].
  assert (variant_of l v -> variant_of (node :: l) v) as Hcons.
  { intros (n & Hn & Hv). exists n. set_solver. }
  destruct (getFunction ctx lc node ia) as [[[[aqf|] lc'] ia'] stop] eqn:E; [|by left].
  apply getFunction_node in E as ->.
  destruct (skip && _ && _); [intros [H|H]%IH; auto|].
  set (st' := find_in_vlist _ _ _ _ _ _ st).
  assert (found st' = Some v -> found st = Some v \/ variant_of (node :: l) v) as Hst.
  { intros [H|H]%find_in_vlist_in; [by left|]. right. exists node. set_solver. }
  destruct (stop || search_done st'); [done|]. intros [H|H]%IH; auto.
Qed.

Lemma runtimeFindVariant_in cc l args only_user v :
  runtimeFindVariant cc l args only_user = Found v -> variant_of l v.
Proof.
  unfold runtimeFindVariant. destruct (found _) as [w|] eqn:E; [|by destruct only_user].
  apply find_in_ilist_in in E as [E|Hv]; [done|].
  destruct (has_program cc && _); [by destruct only_user|]. by intros [= <-].
Qed.

Lemma init_variant_in cc qc cctx rc l vo args v :
  (match vo with Some v => inl v | None => init_variant cc qc cctx rc l args end) = inl v ->
  vo = Some v \/ variant_of l v.
Proof.
  destruct vo as [u|]; [intros [= ->]; by left|]. unfold init_variant.
  destruct (runtimeFindVariant _ _ _ _) as [u| |e] eqn:E; try done.
  destruct (bool_decide (is_Some qc) && _); [done|]. intros [= <-]. right.
  by eapply runtimeFindVariant_in.
Qed.

(** A variant whose parameters and result have types that can be declared. *)
Definition callable (v : variant) : Prop :=
  params_ok (sig v) /\ usable (returnTypeInfo (sig v)).

Lemma init_typed cc qc cctx rc l vo tmp v tmp' xs :
  (forall w, vo = Some w \/ variant_of l w -> callable w) -> retrieve_wf (entries tmp) ->
  init cc qc cctx rc l vo false tmp [] = (Some v, tmp', xs, true) ->
  xs = [] /\ typed_to (sig v) (entries tmp') (numParams (sig v)) /\
  (vo = Some v \/ variant_of l v).
Proof.
  intros Hc Hw. unfold init.
  destruct (match vo with Some v => inl v | None => _ end) as [w|e] eqn:Hr; [|done].
  apply init_variant_in in Hr.
  destruct (processDefaultArgs _ _ _ _ _ _) as [[tmp1 xs1] ok1] eqn:E.
  intros [= -> -> -> ->].
  apply processDefaultArgs_typed in E as [-> Ht]; [by auto|apply Hc; auto|done].
Qed.

(** A call that does not come to the statements has an exception. *)
Definition fails (r : arg_holder * sink * bool) : Prop := r.2 = false -> r.1.2 <> [].

Lemma accept_entry_fails sig i T tmp n : fails (accept_entry sig i T tmp n []).
Proof.
  unfold fails, accept_entry. destruct (acceptInputParam _ _ _ _ _) as [v xs]. cbn.
  by intros Hf%negb_false_iff%bool_decide_eq_true.
Qed.
Lemma process_arg_fails sig i tmp : fails (process_arg sig true false i tmp []).
Proof.
  unfold process_arg, process_given, process_default. change (failed []) with false.
  repeat case_match; try (apply accept_entry_fails); done.
Qed.
Lemma process_args_fails sig k i tmp : params_ok sig -> typed_to sig (entries tmp) i ->
  fails (process_args sig true false k i tmp []).
Proof.
  intros Hok. revert i tmp. induction k as [|k IH]; intros i tmp Ht; cbn; [done|].
  pose proof (process_arg_typed sig i tmp Hok Ht) as H.
  pose proof (process_arg_fails sig i tmp) as Hf.
  destruct (process_arg sig true false i tmp []) as [[tmp1 xs1] [|]]; [|done].
  destruct (H eq_refl) as [Hx H1]. cbn in Hx, H1. subst xs1. by apply IH.
Qed.
Lemma processDefaultArgs_fails ppo v tmp : params_ok (sig v) -> retrieve_wf (entries tmp) ->
  fails (processDefaultArgs ppo v true false tmp []).
Proof.
  intros Hok Hw. unfold processDefaultArgs. set (k := Nat.max _ _).
  assert (typed_to (sig v) (entries tmp) 0) as H0 by (split; [done|lia]).
  pose proof (process_args_fails (sig v) k 0 tmp Hok H0) as H.
  destruct (process_args _ _ _ _ _ _ _) as [[tmp1 xs1] [|]]; cbn; [|done].
  by case_match.
Qed.

(** A call without an exception before the statements comes to them, with arguments
    that have the types of the parameters, whatever the statements are. *)
Theorem call_user_typed cc l vo tmp :
  (forall w, vo = Some w \/ variant_of l w -> callable w) -> retrieve_wf (entries tmp) ->
  (exists xs, xs <> [] /\ forall body, call_user cc l vo body tmp [] = (VNothing, xs)) \/
  exists v locals argv, typed_locals (sig v) locals /\ (vo = Some v \/ variant_of l v) /\
    forall body, call_user cc l vo body tmp [] =
      evalIntern (returnTypeInfo (sig v)) (body v) locals argv [].
Proof.
  intros Hc Hw. unfold call_user.
  pose proof (fun v tmp' xs => init_typed cc None None None l vo tmp v tmp' xs Hc Hw) as Hi.
  destruct (init cc None None None l vo false tmp []) as [[[v tmp'] xs] ok] eqn:E.
  destruct v as [v|], ok.
  - destruct (Hi v tmp' xs eq_refl) as (-> & Ht & Hv). right.
    pose proof (setupCall_typed _ _ Ht) as Hl. destruct (setupCall (sig v) tmp') as [ls av].
    exists v, ls, av. auto.
  - left. exists xs. split; [|done]. revert E. unfold init.
    destruct (match vo with Some v => inl v | None => _ end) as [w|e] eqn:Hr; [|done].
    apply init_variant_in, Hc in Hr as [Hok _].
    pose proof (processDefaultArgs_fails (ppo cc) w tmp Hok Hw) as Hf.
    destruct (processDefaultArgs _ _ _ _ _ _) as [[tmp1 xs1] ok1].
    intros [= -> -> -> ->]. by apply Hf.
  - exfalso. revert E. unfold init. case_match; [|done].
    by destruct (processDefaultArgs _ _ _ _ _ _) as [[tmp1 xs1] ok1].
  - left. exists xs. split; [|done]. revert E. unfold init. case_match.
    + by destruct (processDefaultArgs _ _ _ _ _ _) as [[tmp1 xs1] ok1].
    + by intros [= <- <-].
Qed.
End CallSpec.
