(* ===== verification/ParseCall.v ===== *)
(** * Calls that the parser has resolved

    A variant that parseFindVariant gives matches the types of all arguments without
    reserve; so values of these types are passed without a type error. *)
From S2P Require Import Prelude TypeInfo TypeMatch TypeAccept TypeSpec TypeSound.
From S2P Require Import TypeComplete TypeParse ClassAccess TypedList HashDecl.
From S2P Require Import Variants VariantSpec CallEval CallSpec.

Section ParseChoice.
Context {TE : TypeEnv}.

(** ** The choice of the parser *)

(** Every parameter takes its argument without reserve. *)
Definition params_hold (sig : signature) (args : list (option ty)) : Prop :=
  forall pi t, typeList sig !! pi = Some t ->
    exists rc mx m, param_result sig args pi t = Some (rc, mx, false, m) /\ rc <> QTI_NOT_EQUAL.

Lemma try_param_inv sig args pi t c c' : try_param sig args pi t c = ParamNext c' ->
  variant_runtime_match c' = false ->
  variant_runtime_match c = false /\
  exists rc mx m, param_result sig args pi t = Some (rc, mx, false, m) /\ rc <> QTI_NOT_EQUAL.
Proof.
  unfold try_param. destruct (param_result sig args pi t) as [[[[rc mx] []] m]|]; [|..|done].
  - by intros [= <-].
  - case_decide as E; [done|]. intros [= <-]. cbn. intros Hr. split; [done|]. by exists rc, mx, m.
Qed.

Lemma try_params_inv sig args pi l c k c' : try_params sig args pi l c = (k, ParamNext c') ->
  variant_runtime_match c' = false ->
  variant_runtime_match c = false /\
  forall j t, l !! j = Some t ->
    exists rc mx m, param_result sig args (pi + j) t = Some (rc, mx, false, m) /\
      rc <> QTI_NOT_EQUAL.
Proof.
  revert pi c. induction l as [|t l IH]; intros pi c; cbn; [by intros [= _ <-]|].
  destruct (try_param sig args pi t c) as [c1|c1|c1] eqn:E; [|done..].
  intros H1 H2. destruct (IH _ _ H1 H2) as [Hc Hl].
  destruct (try_param_inv _ _ _ _ _ _ E Hc) as [Hc' Ht]. split; [done|].
  intros [|j] u Hu; cbn in Hu.
  - injection Hu as ->. by rewrite Nat.add_0_r.
  - rewrite Nat.add_succ_r. by apply (Hl j).
Qed.

Section State.
Context (args : list (option ty)).

(** The state: the variant is one of [P], and [pvariant] is never set. *)
Definition state_ok (P : variant -> Prop) (st : parse_search) : Prop :=
  pvariant st = None /\
  forall v, ps_variant st = Some v -> P v /\ params_hold (sig v) args.
Definition open_ok (P : variant -> Prop) (st : parse_search) : Prop :=
  state_ok P st /\ (npv st = 0%nat -> ps_variant st = None).

Lemma take_match_ok P v c st : P v -> params_hold (sig v) args -> open_ok P st ->
  let '(st', go) := take_match v c st in
  state_ok P st' /\ (go = true -> open_ok P st').
Proof.
  intros Hp Hv [[H1 H2] H3]. unfold take_match. cbn [npv ps_variant].
  replace (if bool_decide (npv st = 0%nat) then ps_variant st else None)
    with (@None variant) by (case_bool_decide as E; [by rewrite H3|done]).
  unfold open_ok, state_ok.
  repeat case_match; cbn [pvariant ps_variant npv]; simplify_eq/=; split_and!;
    try done; try (intros; split_and!; try done; intros; by simplify_eq).
Qed.

Lemma parse_in_vlist_ok (P : variant -> Prop) pc lc ia single l st :
  (forall v, v ∈ l -> P v) -> open_ok P st ->
  state_ok P (parse_in_vlist pc lc ia single args l st) /\
  (parse_done (parse_in_vlist pc lc ia single args l st) = false ->
   open_ok P (parse_in_vlist pc lc ia single args l st)).
Proof.
  revert st. induction l as [|v l IH]; intros st Hl Hst; cbn [parse_in_vlist].
  { split; [apply Hst|done]. }
  assert (forall w, w ∈ l -> P w) as Hl' by (intros; apply Hl; set_solver).
  assert (P v) as Hpv by (apply Hl; set_solver).
  destruct (parse_skipped _ _ _ _ v); [by apply IH|].
  set (st1 := PSearch _ _ _ _ _ _ _ (S (ps_cnt st)) _ None).
  assert (open_ok P st1) as H1 by exact Hst.
  assert (forall w rm e, (forall x, w = Some x -> P x /\ params_hold (sig x) args) ->
    let st' := PSearch (ps_score_len st1) (ps_score st1) (ps_pmatch st1) (ps_nperfect st1)
      (npv st1) w (pvariant st1) (ps_cnt st1) rm e in
    state_ok P st' /\ (parse_done st' = false -> open_ok P st')) as Hend.
  { intros w rm e Hw. cbn zeta. destruct H1 as [[Ha Hb] Hc]. split; [by split|].
    unfold parse_done. cbn. intros Hd. split; [by split|]. intros _. cbn.
    destruct w; [|done].
    by repeat (apply orb_false_iff in Hd as [Hd ?]). }
  destruct (bool_decide (args = []) && _) eqn:Ep.
  { apply andb_true_iff in Ep as [Ea%bool_decide_eq_true En%bool_decide_eq_true].
    apply Hend. intros x [= <-]. split; [done|]. intros pi t Ht.
    unfold numParams in En. by rewrite (nil_length_inv _ En) in Ht. }
  destruct (bool_decide (_ < ps_score st1)); [by apply IH|].
  destruct (try_params (sig v) args 0 (typeList (sig v)) (PCount 0 0 0 0 false))
    as [pi [c|c|c]] eqn:Et.
  - destruct (variant_runtime_match c) eqn:Er; [by apply Hend|].
    destruct (_ && check_extra_args _ _); [by apply IH|].
    assert (params_hold (sig v) args) as Hh.
    { intros j t Ht. by apply (try_params_inv _ _ _ _ _ _ _ Et Er). }
    pose proof (take_match_ok P v c st1 Hpv Hh H1) as Htm.
    destruct (take_match v c st1) as [st2 go] eqn:E2. destruct Htm as [Hs Hg].
    destruct go; [by apply IH, Hg|]. split; [done|].
    intros Hd. split; [done|]. intros _. unfold parse_done in Hd.
    apply orb_false_iff in Hd as [_ Hd%bool_decide_eq_false].
    destruct (ps_variant st2); [by destruct Hd|done].
  - by apply Hend.
  - destruct (single && _); [by apply Hend|].
    destruct (variant_runtime_match c); [by apply Hend|by apply IH].
Qed.

Lemma parse_in_ilist_ok (P : variant -> Prop) pc one skip ctx lc ia l st :
  (forall node v, node ∈ l -> v ∈ vlist node.1 -> P v) -> open_ok P st ->
  state_ok P (find_in_ilist (fun lc ia vs st =>
      parse_in_vlist pc lc ia (one && bool_decide (length vs = 1%nat)) args vs st)
    parse_done skip ctx lc ia l st).
Proof.
  revert lc ia st. induction l as [|node l IH]; intros lc ia st Hl Hst; cbn [find_in_ilist].
  { apply Hst. }
  assert (forall n v, n ∈ l -> v ∈ vlist n.1 -> P v) as Hl' by (intros; eapply Hl; set_solver).
  destruct (getFunction ctx lc node ia) as [[[[aqf|] lc'] ia'] stop] eqn:E; [|apply Hst].
  apply getFunction_node in E as ->.
  destruct (skip && _ && _); [by apply IH|].
  destruct (parse_in_vlist_ok P pc lc' ia' (one && bool_decide (length (vlist node.1) = 1%nat))
    (vlist node.1) st) as [H1 H2]; [intros v Hv; apply (Hl node); set_solver|done|].
  destruct (parse_done _) eqn:Ed; [by rewrite orb_true_r|].
  destruct stop; cbn [orb]; [done|]. by apply IH, H2.
Qed.
End State.

Theorem parseFindVariant_holds pc l args v e : parseFindVariant pc l args = (Some v, e) ->
  variant_of l v /\ params_hold (sig v) args.
Proof.
  unfold parseFindVariant.
  pose proof (parse_in_ilist_ok args (variant_of l) pc (bool_decide (length l = 1%nat))
    false (pc_class_ctx pc) None false l new_parse_search) as [H1 H2].
  { intros node w Hn Hw. by exists node. }
  { by repeat split. }
  destruct (single_error _); [done|]. rewrite H1.
  destruct (ps_variant _) as [w|]; [|done]. intros [= <- _]. by apply H2.
Qed.
End ParseChoice.

(** ** At run time *)
Section ParsedCall.
Context {TE : TypeEnv} {TL : TypeLaws} {CV : Conversions}.

(** Parameters with types that the parser decides, and default values of their types. *)
Record params_decided (sig : signature) : Prop := {
  decided_types : forall i, wf_type (opt_type (getParamTypeInfo sig i)) = true /\
    decided (opt_type (getParamTypeInfo sig i)) = true;
  decided_defaults : forall i p, defaultArgList sig !! i = Some (Some (inl p)) ->
    fits (opt_type (getParamTypeInfo sig i)) p
}.

(** The arguments, as far as they have not been looked at, are as the parser found
    them. *)
Definition args_fit (args : list (option ty)) (l : list value) (i : nat) : Prop :=
  forall j, (i <= j)%nat ->
    match args !! j with
    | Some t => fits (opt_type t) (retrieveEntry l j)
    | None => retrieveEntry l j = VNothing
    end.

Lemma args_fit_set args h i n : args_fit args (entries h) i ->
  args_fit args (entries (set_entry h i n)) (S i).
Proof.
  intros H j Hj. rewrite retrieve_set, decide_False, retrieve_edit by lia.
  specialize (H j ltac:(lia)). destruct (args !! j); destruct (in_use h); try done.
  - by apply fits_refSelf.
  - by rewrite H.
Qed.
Lemma args_fit_next args l i : args_fit args l i -> args_fit args l (S i).
Proof. intros H j Hj. apply H. lia. Qed.

(** A value that has the type NOTHING is NOTHING. *)
Lemma isType_nothing T v : isType T NT_NOTHING = true -> fits T v -> isNothing v = true.
Proof.
  unfold isType. destruct (returns T) as [|r [|]] eqn:E; try done.
  intros Ht%bool_decide_eq_true (Hi & _ & Hs). rewrite in_type_eq in Hi.
  unfold return_specs in Hi. rewrite E in Hi. cbn in Hi. rewrite orb_false_r in Hi.
  destruct (spec_code _ _ Hs Hi) as [H|H]; rewrite <- Ht in H; [done|].
  unfold isNothing. by rewrite <- H, bool_decide_true.
Qed.

Lemma accept_param_safe T i nm n : wf_type (opt_type T) = true ->
  (opt_hasType T = true -> safe_at (opt_type T) n) ->
  no_type_error (acceptInputParam (opt_type T) i nm n []).2.
Proof.
  intros Hw Hs. unfold acceptInputParam, acceptAny, accept_static. cbn [hasType_opt].
  unfold opt_hasType in Hs. destruct (hasType (opt_type T)); [by apply Hs|]. by case_decide.
Qed.

Section Param.
Context (sig : signature) (args : list (option ty)) (i : nat) (tmp : arg_holder).
Hypothesis Hd : params_decided sig.
Hypothesis Hh : params_hold sig args.
Hypothesis Hf : args_fit args (entries tmp) i.
Local Abbreviation T := (getParamTypeInfo sig i).

(** What the parser has found out about the parameter. *)
Lemma param_safe t v : typeList sig !! i = Some t -> opt_hasType t = true ->
  match args !! i with Some A => fits (opt_type A) v | None => v = VNothing end ->
  isNothing v && hasDefaultArg sig i = false -> safe_at (opt_type t) v.
Proof.
  intros Ht Hty Hv Hn. destruct (Hh i t Ht) as (rc & mx & m & Hp & Hrc).
  destruct (decided_types sig Hd i) as [Hw Hdec].
  unfold getParamTypeInfo in Hw, Hdec. rewrite Ht in Hw, Hdec. cbn in Hw, Hdec.
  unfold param_result in Hp. rewrite Hty in Hp.
  assert (Hm : forall A, fits (opt_type A) v ->
    (let '(rc, st) := parseAccepts (opt_type t) (opt_type A) true (MS false false QTI_UNASSIGNED) in
     Some (rc, max_result st, may_not_match st, true)) = Some (rc, mx, false, m) ->
    safe_at (opt_type t) v).
  { intros A HA. destruct (parseAccepts (opt_type t) (opt_type A) _ _) as [rc' st'] eqn:E.
    intros Hp'. assert (rc' = rc /\ may_not_match st' = false) as [-> Hr] by (by simplify_eq).
    by eapply (all_parse_ok (opt_type t) Hw Hdec _ _ _ _ _ E Hrc). }
  destruct (args !! i) as [A|] eqn:EA; cbn [mbind option_bind] in Hp.
  - destruct (opt_hasType A) eqn:EhA; cbn [negb] in Hp.
    + destruct (isType (opt_type A) NT_NOTHING && hasDefaultArg sig i) eqn:En;
        [|by apply (Hm A)].
      apply andb_true_iff in En as [E1 E2]. rewrite (isType_nothing _ _ E1 Hv), E2 in Hn. done.
    + apply lookup_lt_Some in EA. by rewrite bool_decide_true in Hp.
  - subst v. change (isNothing VNothing) with true in Hn. cbn in Hn. change (opt_hasType None) with false in Hp. cbn [negb] in Hp.
    rewrite bool_decide_false in Hp by (apply lookup_ge_None in EA; lia).
    rewrite Hn in Hp. apply (Hm (Some nothingTypeInfo)); [|done]. by vm_compute.
Qed.

Definition safe_step (r : arg_holder * sink * bool) : Prop :=
  no_type_error r.1.2 /\
  (r.2 = true -> r.1.2 = [] /\ args_fit args (entries r.1.1) (S i)).

Lemma keep_safe : safe_step (tmp, [], true).
Proof. split; [done|]. intros _. split; [done|by apply args_fit_next]. Qed.

Lemma accept_entry_safe U n : wf_type (opt_type U) = true ->
  (opt_hasType U = true -> safe_at (opt_type U) n) ->
  safe_step (accept_entry sig i U tmp n []).
Proof.
  intros Hw Hs. unfold accept_entry.
  pose proof (accept_param_safe U (Z.of_nat i) (names sig !! i) n Hw Hs) as H.
  destruct (acceptInputParam _ _ _ _ _) as [v xs]. split; [done|].
  cbn. intros Hx%negb_true_iff%bool_decide_eq_false. destruct xs; [|by destruct Hx].
  split; [done|by apply args_fit_set].
Qed.

Lemma process_given_safe t : typeList sig !! i = Some t ->
  isNothing (retrieveEntry (entries tmp) i) && hasDefaultArg sig i = false ->
  safe_step (process_given sig true false i t tmp []).
Proof.
  intros Ht Hn. unfold process_given. cbn [andb orb].
  destruct (bool_decide (t = None)); [apply keep_safe|].
  destruct (opt_hasType t) eqn:Eh; cbn [negb orb]; [|apply keep_safe].
  destruct (bool_decide _ && _); [apply keep_safe|].
  pose proof (proj1 (decided_types sig Hd i)) as Hw.
  unfold getParamTypeInfo in Hw. rewrite Ht in Hw.
  apply accept_entry_safe; [done|]. intros _. specialize (Hf i (le_n i)).
  apply param_safe; try done; rewrite retrieve_edit.
  - destruct (args !! i) as [A|]; destruct (in_use tmp); try done;
      [by apply fits_refSelf|by rewrite Hf].
  - destruct (in_use tmp); [|done]. rewrite <- Hn. f_equal. unfold isNothing.
    by destruct (retrieveEntry (entries tmp) i) as [| | | | | | | | | | | |[]|[]|[]].
Qed.

Lemma process_default_safe d : defaultArgList sig !! i = Some (Some d) ->
  safe_step (process_default sig i d tmp []).
Proof.
  intros Ed. destruct d as [p|e]; cbn [process_default]; [|done].
  pose proof (decided_defaults sig Hd i p Ed) as Hp.
  destruct (decided_types sig Hd i) as [Hw Hdec].
  change (failed []) with false. cbn iota. destruct (mayRequireFilter T p).
  - apply accept_entry_safe; [done|]. intros _. by apply own_safe.
  - split; [done|]. intros _. split; [done|by apply args_fit_set].
Qed.

Lemma process_arg_safe : safe_step (process_arg sig true false i tmp []).
Proof.
  unfold process_arg.
  assert (isNothing (retrieveEntry (entries tmp) i) && hasDefaultArg sig i = false ->
    safe_step match typeList sig !! i with
      | None => (tmp, [], true)
      | Some T => process_given sig true false i T tmp []
      end) as H.
  { intros Hn. destruct (typeList sig !! i) as [t|] eqn:Et; [|apply keep_safe].
    by apply process_given_safe. }
  unfold hasDefaultArg in H.
  destruct (defaultArgList sig !! i) as [[d|]|] eqn:Ed; cbn.
  - destruct (isNothing _); [by apply process_default_safe|]. by apply H.
  - apply H. apply andb_false_r.
  - apply H. apply andb_false_r.
Qed.
End Param.

Lemma process_args_safe sig args k i tmp : params_decided sig -> params_hold sig args ->
  args_fit args (entries tmp) i ->
  no_type_error (process_args sig true false k i tmp []).1.2.
Proof.
  intros Hd Hh. revert i tmp. induction k as [|k IH]; intros i tmp Hf; cbn; [done|].
  destruct (process_arg_safe sig args i tmp Hd Hh Hf) as [H1 H2].
  destruct (process_arg sig true false i tmp []) as [[tmp1 xs1] [|]]; [|done].
  destruct (H2 eq_refl) as [Hx Ha]. cbn in Hx, Ha. subst xs1. by apply IH.
Qed.

Lemma processDefaultArgs_safe ppo v args tmp : params_decided (sig v) ->
  params_hold (sig v) args ->
  Forall2 (fun A n => fits (opt_type A) n) args (entries tmp) ->
  no_type_error (processDefaultArgs ppo v true false tmp []).1.2.
Proof.
  intros Hd Hh Ha. unfold processDefaultArgs. set (k := Nat.max _ _).
  pose proof (process_args_safe (sig v) args k 0 tmp Hd Hh) as H.
  destruct (process_args _ _ _ _ _ _ _) as [[tmp1 xs1] ok1]. cbn in H.
  assert (no_type_error xs1) as Hx.
  { apply H. intros j _. destruct (args !! j) as [A|] eqn:EA.
    - destruct (Forall2_lookup_l _ _ _ _ _ Ha EA) as (n & Hn & Hfit).
      unfold retrieveEntry. by rewrite Hn.
    - unfold retrieveEntry. rewrite lookup_ge_None_2; [done|].
      rewrite <- (Forall2_length _ _ _ Ha). by apply lookup_ge_None. }
  destruct ok1; cbn [negb]; [|done]. by case_match.
Qed.
End ParsedCall.
