(* ===== verification/Functions.v ===== *)
(** * What holds of functions

    The theorems on the choice of variants and on calls, and examples of what the code
    does against its own rules. *)
From S2P Require Import Prelude TypeInfo TypeMatch TypeAccept TypeSpec TypeSound.
From S2P Require Import TypeComplete TypeParse ClassAccess TypedList HashDecl Types.
From S2P Require Import Variants VariantSpec CallEval CallSpec ParseCall.
#[local] Open Scope Z_scope.

(** ** Functions for the examples *)

(** A signature whose parameters are declared one after another. *)
Definition make_sig (rt : option ty) (ps : list (option ty * option (value + string)))
    : signature :=
  foldl (fun s p => pushParam s "p" p.1 p.2) (Sig [] [] [] 0 0 false rt) ps.
Definition user_variant (sig : signature) : variant :=
  Variant sig 0 0 (Some (UserVariant None 0)) Public false None.
Definition one_function (vs : list variant) : ilist := [(Func None false vs, Public)].
Definition no_class : call_context := Context_ None 0 true.

Lemma make_sig_pushed rt ps : pushed (make_sig rt ps).
Proof.
  unfold make_sig. assert (pushed (Sig [] [] [] 0 0 false rt)) as H by done. revert H.
  generalize (Sig [] [] [] 0 0 false rt). induction ps as [|p ps IH]; intros s Hs; [done|].
  cbn. by apply IH, pushParam_pushed.
Qed.

Definition int_or_string : list variant :=
  [user_variant (make_sig None [(Some stringT, None)]);
   user_variant (make_sig None [(Some intT, None)]);
   user_variant (make_sig None [(Some floatT, None)])].

(** ** The choice of a variant *)

(** C11: the variant that is called is a best one: of the functions in the inheritance
    list that can be seen from the class of the caller, it is in the first one that
    has a variant which accepts the arguments; there, no other accessible variant has
    a higher score, and none with the same score has fewer parameters. The pruning by
    the number of parameters with types and the early end for calls without arguments
    do not change this, if no parameter is declared with [any] or [auto], which do not
    count as types ([any_not_counted]). There is an error
    exactly if no variant accepts the arguments, or if the parse options forbid the
    one that was chosen. *)
Theorem runtime_variant_best `{TE : TypeEnv} cc l args only_user : well_counted l ->
  let fs := visited true (class_ctx cc) None false l in
  let refused v := selected cc only_user args fs (Some v) /\ has_program cc = true /\
    forbidden v (getParseOptions v (ppo cc)) = true in
  match runtimeFindVariant cc l args only_user with
  | Found v => selected cc only_user args fs (Some v) /\ accepts_args (sig v) args /\
      (has_program cc = true -> forbidden v (getParseOptions v (ppo cc)) = false)
  | FoundNothing => only_user = true /\
      (selected cc only_user args fs None \/ exists v, refused v)
  | FindError e => only_user = false /\
      (e = "RUNTIME-OVERLOAD-ERROR" /\ selected cc only_user args fs None \/
       e = "INVALID-FUNCTION-ACCESS" /\ exists v, refused v)
  end.
Proof.
  intros Hw fs refused. destruct (runtimeFindVariant_selected cc l args only_user Hw)
    as (r & Hs & ->). fold fs in Hs. destruct r as [v|].
  - destruct (has_program cc && forbidden v _) eqn:E.
    + apply andb_true_iff in E as [E1 E2]. assert (refused v) by done.
      destruct only_user; split; eauto.
    + split; [done|]. split; [|by intros H; rewrite H in E].
      destruct Hs as (before & lc & ia & vs & after & _ & _ & s & _ & Hc & _).
      by eapply candidate_accepts.
  - destruct only_user; auto.
Qed.

Lemma runtime_variant_best_witness :
  match @runtimeFindVariant demo_env no_class (one_function int_or_string) [VInt 1] false with
  | Found v => numParams (sig v) = 1%nat /\ getParamTypeInfo (sig v) 0 = Some intT /\
      @accepts_args demo_env (sig v) [VInt 1]
  | _ => False
  end.
Proof.
  pose proof (@runtime_variant_best demo_env no_class (one_function int_or_string)
    [VInt 1] false) as H.
  destruct (@runtimeFindVariant demo_env no_class (one_function int_or_string) [VInt 1] false)
    as [v| |e] eqn:E; vm_compute in E; try discriminate E.
  injection E as <-. split; [reflexivity|]. split; [reflexivity|].
  apply H. intros node v Hn%list_elem_of_singleton Hv. subst node.
  change (v ∈ int_or_string) in Hv. unfold int_or_string in Hv. split.
  - repeat (apply elem_of_cons in Hv as [->|Hv]; [apply make_sig_pushed|]).
    by apply elem_of_nil in Hv.
  - intros T HT. repeat (apply elem_of_cons in Hv as [->|Hv];
      [change (Some T ∈ [Some stringT]) in HT || change (Some T ∈ [Some intT]) in HT ||
         change (Some T ∈ [Some floatT]) in HT; apply list_elem_of_singleton in HT as [= ->]; vm_compute; reflexivity|]).
    by apply elem_of_nil in Hv.
Defined.

(** ** Calls *)

(** C9: the statements of a function only see local variables that have the types of
    its parameters, and a call that raises no exception gives a value of the type that
    the function returns: whether the parser has found the variant or it is searched
    now, with default arguments, conversions and arguments that are in use elsewhere.
    Default values that are not checked have to be of the types of their parameters,
    and NOTHING of those that take it, as neither is checked ([default_value_unchecked],
    [nothing_left_in_softlist]).
    So statements which do the same for arguments of these types cannot be told apart
    by any call. *)
Theorem call_typed `{TL : TypeLaws} `{CV : Conversions} cc l vo body tmp :
  (forall v, vo = Some v \/ variant_of l v -> callable v) ->
  Forall (fun n => wf_value n = true) (entries tmp) ->
  (forall v locals argv w xs, typed_locals (sig v) locals ->
     body v locals argv [] = (Returned w, xs) -> wf_value w = true) ->
  ((call_user cc l vo body tmp []).2 = [] ->
   exists v, (vo = Some v \/ variant_of l v) /\
     in_type (opt_type (returnTypeInfo (sig v))) (call_user cc l vo body tmp []).1 = true /\
     wf_value (call_user cc l vo body tmp []).1 = true) /\
  (forall body',
     (forall v locals argv, typed_locals (sig v) locals ->
        body' v locals argv [] = body v locals argv []) ->
     call_user cc l vo body' tmp [] = call_user cc l vo body tmp []).
Proof.
  intros Hc Hw Hb. assert (retrieve_wf (entries tmp)) as Hr.
  { intros j. unfold retrieveEntry. destruct (entries tmp !! j) as [n|] eqn:E; [|done].
    by eapply Forall_lookup in Hw. }
  destruct (call_user_typed cc l vo tmp Hc Hr) as
    [(xs & Hx & E0)|(v & locals & argv & Hl & Hv & E0)]; rewrite (E0 body).
  - split; [done|]. intros body' _. by rewrite E0.
  - split.
    + destruct (evalIntern _ _ _ _ _) as [val xs] eqn:E. cbn. intros ->. exists v.
      split; [done|]. apply evalIntern_typed in E; [done|by apply Hc|by intros; eapply Hb].
    + intros body' Hsame. rewrite E0. unfold evalIntern. by rewrite Hsame.
Qed.

(** A function with an integer and a default value: f(int i, int k = 2) returns int. *)
Definition add_variant : variant :=
  user_variant (make_sig (Some intT) [(Some intT, None); (Some intT, Some (inl (VInt 2)))]).
Definition add_body (v : variant) (locals : list value) (argv : option value) (xs : sink)
    : outcome * sink :=
  (Returned (match locals with [VInt a; VInt b] => VInt (a + b) | _ => VNothing end), xs).

Lemma add_callable : @callable demo_env add_variant.
Proof.
  assert (forall i, @getParamTypeInfo (sig add_variant) i = Some intT \/
                    @getParamTypeInfo (sig add_variant) i = None) as Hi.
  { intros [|[|i]]; [left; reflexivity..|right; reflexivity]. }
  split; [|vm_compute; done]. split.
  - intros i. destruct (Hi i) as [->| ->]; vm_compute; done.
  - intros i T. destruct (Hi i) as [->| ->]; [|done]. intros [= <-]. by vm_compute.
  - intros [|[|i]] p; cbn; [done| |done]. intros [= <-]. split; [done|]. intros _. by vm_compute.
Qed.

Lemma call_typed_witness :
  @call_user demo_env demo_conversions no_class (one_function [add_variant]) None add_body
    (Args true [VInt 40]) [] = (VInt 42, []) /\
  @in_type demo_env intT (VInt 42) = true.
Proof.
  pose proof (@call_typed demo_env demo_laws demo_conversions no_class
    (one_function [add_variant]) None add_body (Args true [VInt 40])) as [Ht _].
  - intros v [Hv|(node & Hn%list_elem_of_singleton & Hv)]; [discriminate Hv|]. subst node.
    apply list_elem_of_singleton in Hv as ->. apply add_callable.
  - repeat constructor.
  - intros v locals argv w xs _ [= <- _]. by repeat case_match.
  - split; [vm_compute; reflexivity|].
    destruct Ht as (v & [Hv|(node & Hn%list_elem_of_singleton & Hv)] & Hi & _);
      [vm_compute; reflexivity|discriminate Hv|]. subst node.
    apply list_elem_of_singleton in Hv as ->. vm_compute in Hi |- *. exact Hi.
Defined.

(** C10: a call that the parser has resolved raises no type error for its arguments.
    If parseFindVariant gives a variant for the types of the arguments, then values of
    these types, in lists that are in use or not, are passed to the parameters without
    a type error (conversions may still fail, as those of binary data); this holds for
    every search through the inheritance list, with default arguments and arguments
    that are not given, for parameter types without references and soft lists with a
    value type, and default values of their types. *)
Theorem parsed_call_safe `{TL : TypeLaws} `{CV : Conversions} pc l args v e ppo tmp :
  (forall w, variant_of l w -> params_decided (sig w)) ->
  Forall2 (fun A n => fits (opt_type A) n) args (entries tmp) ->
  parseFindVariant pc l args = (Some v, e) ->
  no_type_error (processDefaultArgs ppo v true false tmp []).1.2.
Proof.
  intros Hd Ha [Hv Hh]%parseFindVariant_holds. by eapply processDefaultArgs_safe; eauto.
Qed.

Lemma parsed_call_safe_witness :
  @no_type_error (@processDefaultArgs demo_env demo_conversions 0 add_variant true false
    (Args false [VInt 40]) []).1.2.
Proof.
  eapply (@parsed_call_safe demo_env demo_laws demo_conversions (PContext None 0 true)
    (one_function [add_variant]) [Some intT] add_variant None).
  - intros v (node & Hn%list_elem_of_singleton & Hv). subst node.
    apply list_elem_of_singleton in Hv as ->. split.
    + intros [|[|i]]; vm_compute; done.
    + intros [|[|i]] p; cbn; [done| |done]. intros [= <-]. by vm_compute.
  - repeat constructor; by vm_compute.
  - vm_compute. reflexivity.
Defined.

(** ** Signatures *)

Section Signatures.
Context {TE : TypeEnv} {TL : TypeLaws}.

(** What the comparison of inputs sees of a type. *)
Definition same_inputs (T S : option ty) : Prop :=
  (opt_hasType T = false /\ opt_hasType S = false) \/
  (opt_hasType T = true /\ opt_hasType S = true /\
   specs_eq (accept_specs (opt_type T)) (accept_specs (opt_type S)) = true).

Lemma isInputIdentical_spec T S : isInputIdentical T S = true <-> same_inputs T S.
Proof.
  unfold isInputIdentical, same_inputs. case_decide as E.
  - subst S. split; [intros _|done]. destruct (opt_hasType T); [right|by left].
    split_and!; try done. apply specs_eq_refl.
  - rewrite vec_compare_ext.
    + unfold opt_hasType. fold (specs_eq (accept_specs (opt_type T)) (accept_specs (opt_type S))).
      destruct (hasType (opt_type T)), (hasType (opt_type S)); cbn; intuition congruence.
    + apply Forall_forall. intros s Hs t. unfold spec_eq.
      destruct (spec_ti s) as [U|] eqn:Es.
      * assert (value_type (opt_type T) = Some U) as -> by (eapply accept_spec_of; eassumption). done.
      * destruct s, t; cbn in *; congruence.
Qed.

(** the comparison of the inputs of signatures, by which duplicates are found, is an
    equivalence of types, so it does not depend on which variant is declared first. *)
Theorem input_identity : Equivalence (fun T S => isInputIdentical T S = true).
Proof.
  split.
  - intros T. apply isInputIdentical_spec. unfold same_inputs.
    destruct (opt_hasType T); [right|by left]. split_and!; try done. apply specs_eq_refl.
  - intros T S. rewrite !isInputIdentical_spec. intros [[]|(H1 & H2 & H)]; [by left|right].
    split_and!; try done. apply specs_eq_spec in H. apply specs_eq_spec.
    eapply Forall2_sym_on; [|exact H]. apply Forall_forall. intros s _ t.
    apply spec_eq_sym_of. intros U W _. apply equal_sym.
  - intros T S R. rewrite !isInputIdentical_spec.
    intros [[]|(H1 & H2 & H)] [[]|(H3 & H4 & H')]; try congruence; [by left|right].
    split_and!; try done. apply specs_eq_spec in H, H'. apply specs_eq_spec.
    eapply Forall2_trans_on; [|exact H|exact H']. apply Forall_forall. intros s _ t u.
    apply spec_eq_trans_of. intros U V W _. apply equal_trans.
Qed.
End Signatures.

(** ** What the code does against its rules *)

(** Parameters of the type [any] are not counted in num_param_types, but a match with
    one adds to the score. So the second variant is not even tried here, although it
    is the better one: the order of the declarations decides. *)
Definition any_params (n : nat) : variant :=
  user_variant (make_sig None (replicate n (Some anyTypeInfo, None))).
Example any_not_counted :
  let args := [VInt 1; VInt 2] in
  @runtimeFindVariant demo_env no_class (one_function [any_params 1; any_params 2]) args false =
    Found (any_params 1) /\
  @runtimeFindVariant demo_env no_class (one_function [any_params 2; any_params 1]) args false =
    Found (any_params 2).
Proof. split; vm_compute; reflexivity. Qed.

(** A default value is only checked if the type of the parameter may change it: an
    expression whose type the parser does not know puts a string into an integer
    parameter, while the same value as an argument finds no variant. *)
Example default_value_unchecked :
  let f := user_variant (make_sig None [(Some intT, Some (inl (VString "x")))]) in
  let body := fun (_ : variant) locals (_ : option value) xs =>
    (Returned (retrieveEntry locals 0), xs) in
  @call_user demo_env demo_conversions no_class (one_function [f]) None body (Args false []) []
    = (VString "x", []) /\
  (@call_user demo_env demo_conversions no_class (one_function [f]) None body
     (Args false [VString "x"]) []).2 <> [].
Proof. split; vm_compute; [reflexivity|discriminate]. Qed.

(** Whether an argument that is not given is converted depends on how many others are
    given: it is left out for a list of arguments that is more than one shorter, if
    the type takes NOTHING, even though it is not a value of the type. *)
Example nothing_left_in_softlist :
  let T := ComplexSoftList (Base bigIntOrNothing_) in
  let f n := user_variant (make_sig None
    (replicate n (Some anyTypeInfo, None) ++ [(Some T, None)])) in
  let call n := (@setupCall (sig (f n)) (@processDefaultArgs demo_env demo_conversions 0
    (f n) true false (Args false [VInt 1]) []).1.1).1 in
  call 1%nat = [VInt 1; VList false (Some (ComplexList (Base bigIntOrNothing_))) true []] /\
  call 2%nat = [VInt 1; VNothing; VNothing] /\
  @in_type demo_env T VNothing = false.
Proof. split_and!; vm_compute; reflexivity. Qed.
